(* ===== verification/_CoqProject ===== *)
-Q . S2P
Prelude.v
Bytes.v
Float64.v
Framing.v
Retryable.v
PersistedQueue.v
RetryQueue.v
Backoff.v
CircuitBreaker.v
Restart.v
MetricValues.v
Aggregate.v
Ids.v
Graph.v
SketchStore.v
SketchCollapse.v
SketchContract.v
Interner.v
InternerLayout.v
InternerSteps.v
Utf8.v
RawTags.v
FloatText.v
Nom.v
DogStatsD.v
DogStatsDText.v
DogStatsDPackets.v
BitSet.v
TagSet.v
TagSetProofs.v
Context.v
Cache.v
CacheThreads.v
TagFilterlist.v
TagFilterlistProofs.v
ContextResolver.v
AgentSketch.v
AgentSketchProofs.v
AgentSketchStats.v
CanonicalSketch.v
CanonicalProto.v
RequestBuilder.v
RequestBuilderProofs.v
Encoders.v
EncodersProofs.v
V3Writer.v
V3Values.v
V3WriterProofs.v
V3RoundTrip.v
V3Metrics.v
V3MetricsProofs.v
V3FlushProofs.v
MetricsTask.v
MetricsTaskProofs.v
Subsystem.v
Accounting.v
EventBuffer.v
Conditions.v
Dispatcher.v
DispatcherProofs.v
Wiring.v
WiringProofs.v
Blueprint.v
BlueprintProofs.v
SupervisorTree.v
WorkerState.v
Supervisor.v
SupervisorProofs.v
