(* ===== verification/Prelude.v ===== *)
(** * Saluki: a verification of the core of the telemetry data plane

    Saluki is a toolkit for telemetry data planes, and the Agent Data Plane is built with it: a
    process that reads metrics from sockets, aggregates them over time windows, and forwards them to
    an intake over HTTP.  A topology is a graph of components (sources, transforms, encoders,
    forwarders, ...) that run as supervised tasks.  This development models the parts of it that
    hold state and make decisions, and proves what each part promises to the others.

    ** The parts and their files

    Paths are relative to [src/lib].  The state of a Rust structure is a record of the same name, a
    method is a function from the state to its result and the new state, [Result] is [result], a
    panic is [None], and names are those of the source ([Type_method] where two types share one).

    - [Prelude]: results, machine integers ([u64] arithmetic wraps or saturates as the code says),
      sums, the stable sort, and the tactics and hints of the development.
    - [Bytes], [Float64]: byte strings and little-endian integers; [f64] as the Standard Library's
      executable IEEE 754 binary64, with the casts of the language.
    - [Framing]: [saluki-io/src/buf] and [saluki-io/src/deser/framing].  Bytes from a socket gather
      in a fixed-size buffer; framers cut it into messages.  [Framer] and [ReadIoBuffer] are the
      traits, [BufferLaws] what a framer relies on from a buffer, [FramerProgress] what the nested
      framer relies on from its two framers.
    - [Retryable], [PersistedQueue], [RetryQueue]: [saluki-io/src/net/util/retry/queue].  Requests
      that could not be sent wait in a bounded in-memory queue whose overflow goes to a directory of
      files.  [DiskQueue] and [DiskQueueLaws] are the contract between the two: [RetryQueue] is
      proved against it, [PersistedQueue] implements it.
    - [Backoff], [CircuitBreaker]: the rest of [saluki-io/src/net/util/retry] and
      [net/util/middleware/retry_circuit_breaker.rs].  The classifier decides whether a response
      asks for a retry, the policy for how long to wait, and the circuit breaker hands requests back
      while it is open.  Many requests on one breaker are [CircuitBreaker.run], on calls, polls, readiness
      checks and cancellations in any order; [CircuitBreaker.expected] says what the past makes of each.
    - [Restart]: [saluki-core/src/runtime/restart.rs], the supervisor's restart strategy.
    - [SupervisorTree], [WorkerState], [Supervisor], [SupervisorProofs]: [saluki-core/src/runtime], namely
      [tree/mod.rs], [worker_state.rs], [halt.rs] and [supervisor.rs].  [SupervisorTree.Roster] keeps the children
      of a supervisor and the records that observers see; [WorkerState] has their tasks and shuts them down, as a
      sequence of events; [Supervisor.step] is one turn of the loop, or a run that begins or ends, and
      [Supervisor.reaches] what may have happened to a supervisor since its creation.
    - [MetricValues], [Aggregate]: [saluki-core/src/data_model/event/metric] and
      [saluki-components/src/transforms/aggregate].  Metric values are timestamped points that are
      merged, split and collapsed; the aggregate transform keeps them per context and flushes the
      closed buckets downstream.
    - [Ids], [Graph]: [saluki-core/src/topology/ids.rs] and [graph.rs], the identifiers of
      components and the graph that is checked before a topology runs.
    - [SketchStore], [SketchCollapse], [SketchContract]: [ddsketch/src/canonical/store], the bins of
      the quantile sketches.  [Store] is the trait with its four implementations, [StoreLaws] the
      contract that each of them is proved to keep; a store that was built by any sequence of
      operations is a [store_script], judged by the observations it has [seen].
    - [CanonicalSketch], [CanonicalProto]: [ddsketch/src/canonical], the canonical sketch as a client of
      [StoreLaws], its index mappings, and its conversion from and to protobuf messages.  A sketch that was
      built by any sequence of operations is a [sketch_script], judged by the values it has [inserted];
      [StoreProtoLaws] is what the round trip relies on from a store, proved for the four of them.
    - [Interner], [InternerLayout], [InternerSteps]: [stringtheory/src/interning/fixed_size.rs], the
      string interner.  Its unsafe code works on an explicit memory of header and byte cells;
      [shard_inv] says how blocks tile the buffer and what the free list has; [step] interleaves the
      threads that intern, clone, drop and reclaim.
    - [Utf8], [FloatText], [Nom]: what the codec uses of the standard library (UTF-8 scanning, reading
      numbers) and of the parser combinator crate ([NomLaws]).
    - [RawTags], [DogStatsD], [DogStatsDText], [DogStatsDPackets]: [saluki-io/src/deser/codec/dogstatsd]
      and [saluki-core/src/data_model/tags/raw.rs], the codec that turns packets into metrics, events
      and service checks, its helpers, the tag blocks it produces, and the encoders its theorems
      decode.
    - [BitSet], [TagSet], [TagSetProofs]: [saluki-common/src/collections/bitset.rs] and
      [saluki-core/src/data_model/tags].  A tag set is a shared, frozen base with an overlay of added
      tags and a bit set of removed ones; frozen vectors have an identity, which merging looks at.
    - [Context], [Cache], [CacheThreads], [ContextResolver]: [saluki-core/src/data_model/event/metric/context] and
      [saluki-core/src/cache].  A context is a name, a host and two tag sets with a hash of them as its
      key; the resolver interns the parts of a context and caches contexts and tag sets by their keys.
      [CacheOps] and [CacheLaws] are the contract between a cache and its clients.  [Cache] takes its
      operations as atomic; in [CacheThreads] threads take turns within them.
    - [TagFilterlist], [TagFilterlistProofs]: [bin/agent-data-plane/src/components/tag_filterlist] (under
      [src]), the transform that removes and replaces tags by rules, with a cache of filtered contexts
      that is used through [CacheLaws].
    - [AgentSketch], [AgentSketchProofs], [AgentSketchStats]: [ddsketch/src/agent], the sketch of the Agent:
      values become keys, bins hold counts by key in order, and the lowest ones are trimmed when there are
      too many.
    - [RequestBuilder], [RequestBuilderProofs]: [saluki-components/src/common/datadog/request_builder.rs] and
      the compression estimator of [saluki-io/src/compression.rs].  Inputs are encoded one after the other
      into a compressed payload that must stay within two limits; a payload that does not is split.
    - [Encoders], [EncodersProofs]: the task that drives an incremental encoder
      ([saluki-components/src/encoders/buffered_incremental]), the encoders of events and service checks, and
      the flush-and-retry step of the metrics encoder, all on top of [RequestBuilder].
    - [V3Writer], [V3Values], [V3WriterProofs], [V3RoundTrip]: [datadog-agent/metrics-v3], the columnar payload
      of metrics: dictionaries, columns of differences, and values in the smallest form that is exact.
    - [V3Metrics], [V3MetricsProofs], [V3FlushProofs], [MetricsTask], [MetricsTaskProofs]:
      [saluki-components/src/encoders/datadog/metrics].  Metrics are written as columns, batched, compressed
      and split when too large; the task of the encoder buffers them by endpoint next to the older formats.
    - [Subsystem]: [saluki-core/src/support.rs] and the sanitizing of names in [runtime/process.rs].
    - [Accounting]: [saluki-core/src/accounting], the tree of components with the memory they declare, and the
      check against a grant.
    - [EventBuffer], [Dispatcher], [DispatcherProofs]: [saluki-core/src/topology/interconnect].  Event buffers,
      and the dispatchers that send them to the channels of the connected components; a connection may have a
      gate, which other tasks open and close at any time.
    - [Conditions]: [saluki-core/src/topology/condition.rs], the task that moves the gates.
    - [Wiring], [WiringProofs]: [saluki-core/src/topology/built.rs].  The edges of a graph become dispatchers and
      channels, and every component a worker that gets its ends.
    - [Blueprint], [BlueprintProofs]: [saluki-core/src/topology/blueprint.rs].  Components are added and
      connected, bounds are declared in [Accounting] meanwhile, and [Graph] decides what is built for
      [Wiring].

    ** What is proved

    - Framing: the frames are exactly the lines, or the encoded frames, of the buffered bytes,
      however the stream is cut into reads; the nested framer yields the inner messages of each
      outer frame and always returns.
    - Retry queues: memory stays within its limit whatever the disk does; nothing is lost or
      duplicated silently over any sequence of pushes and pops; the disk queue is a bounded queue
      that evicts the shortest oldest prefix, survives a restart of the process, and always returns.
    - Retrying: backoffs stay within their bounds, the policy counts failures since the last
      success, and in every interleaving the circuit breaker answers every call and poll as its past
      says: it passes nothing on while it is open, and hands requests back as the policy leaves them.
    - Restarting: the pruned history decides like the sliding window over all restarts.
    - Supervision: whenever a supervisor waits, its tasks, its roster, the observable records and its counters
      agree, so that no expectation of the loop fails; restarts stay within the budget, and the counts that
      observers see are exact; a shutdown ends, signals and halts every child as its strategy says, and reports
      what was overdue.
    - Metrics: merging is pointwise, splitting partitions, histograms know when one weight is
      shared; aggregation respects its context limit, a flush treats every context on its own, takes
      exactly the closed buckets, and its zero values tile the time line.
    - Topology: identifier validation accepts the documented language; graphs stay well formed
      under all operations; the depth-first cycle check ends and is sound and complete for cycles
      upstream of destinations; validation decides its conditions; pruning removes the least set it
      should; the connection map is exact.
    - Sketch stores: the dense and the sparse store answer every rank query exactly, and alike; the
      bounded stores keep at most their number of bins, count exactly inside their window and at its
      edge outside, know whether they have collapsed, and do not depend on the order of insertion or
      on how observations were split between merged stores.  Indices are within 2^29 of zero (the
      mappings of the sketch stay far inside) and the total count fits its 64 bits.
    - The canonical sketch: whatever built it, a quantile is the bin of the value of its rank, where the store
      has placed it; the variant for positive values agrees with it; its message reads back as a sketch that
      answers every query alike.

    - Interner: no interleaving of threads makes an access that is out of bounds, misaligned or to
      something that is not there; handles read the string they were made for, are equal exactly when
      their strings are, and leave an empty shard behind when they are gone; interning returns, and
      fails only for want of room.
    - DogStatsD: decoding gives back what was encoded for all three kinds of packets, with extension
      fields in any order and number; whatever is accepted has valid UTF-8 where the code assumes so
      without checking, finite values that are all counted, and only the fields that the configuration
      reads; tags are read within their limits.
    - Tags and contexts: a bit set is a finite set and its iterator a double-ended queue; a tag set is
      the list of its effective tags under all operations, equal to another exactly when both have the
      same tags; the key of a context follows its parts, the lazy view is [retain]; the resolver answers
      every request with the requested parts, whatever interners and caches do; filtering applies the
      configured rules, and its cache is transparent.
    - Caches: an entry that was used within the time to idle is not expired by a round of the driver between
      operations.  Whatever the interleaving of the threads, one that is not used any more is drained and
      removed, unless an insertion of it has overlapped with a removal.
    - The Agent's sketch: it keeps the highest keys and all counts, does not depend on the order of insertions
      and merges, and its quantiles are between the extremes.
    - Requests: every payload is the framed inputs that were accepted, within both limits; an encoder accounts
      for every event, as sent, dropped or still held; runs of the task end.
    - Columnar metrics: the payload reads back as the metrics that were written; flushing accounts for every
      metric once it can be created at all; the task keeps its buffers within their limits and loses nothing
      when a buffer is full.
    - Names: identifiers are canonical and read back from their rendered form.
    - Topologies that run: what was pushed into event buffers and batches comes out, in order; every item
      reaches exactly the connections that are open, with exact counters; conditions settle at their last
      update; a built graph is wired exactly as its edges say, or spawning reports which component cannot
      run; a blueprint builds exactly what validation and its builders accept, without what is pruned, and
      the memory it has declared meanwhile is that of what it would build.  Checking the declared bounds is
      exact although the arithmetic saturates.

    The lemmas named [*_witness] instantiate the theorems at concrete inputs.  The examples
    [eviction_of_missing_file], [write_on_full_disk], [collapse_mixed_loses_order],
    [failed_flush_loses_values], [forwarder_cycle_accepted], [validate_panics_on_source_input],
    [is_empty_is_inverted], [tiny_interner_interns_nothing], [empty_field_ends_parsing],
    [short_field_ends_parsing], [split_without_delimiter], [bitset_is_empty_of_nothing],
    [tagset_eq_not_symmetric], [equal_tagsets_hash_differently], [reinserted_entry_never_expires],
    [used_entry_is_taken_away], [full_interner_drops_tags], [median_of_large_value_is_nan], [infinity_has_lowest_key],
    [smallest_key_never_returns], [split_drops_second_half], [framing_never_fits], [encode_v2_metrics_panics],
    [failed_requests_are_counted_again], [dropped_and_sent], [rate_without_points],
    [buffered_events_counted_again], [unfed_transform_is_valid], [silent_transform_is_valid],
    [slop_factor_range], [added_component_not_counted], [encoders_not_counted], [incompatible_connection],
    [duplicate_connection_is_gated], [rounded_rank_panics], [accuracy_limits], [index_rounds_down],
    [unknown_interpolation_is_accepted], [zero_offset_is_reported_as_nonzero], [failed_start_leaves_siblings] and
    [failed_start_counts_restarts] record behaviours that differ from what the code means to do or its
    comments say.

    ** Parameters

    Code outside the repository is a class: [Memchr], [Chrono], [Serde], [Os] (every I/O operation
    may fail; [ReliableOs] is one that does not), [Rng], [HttpStatus], [SortUnstable], [Bitmask],
    [Nom] with [NomLaws], [Simdutf8], [StringHasher] (the process-wide hash of strings),
    [FastHasher] (the hasher of context keys), [RawCache] (the concurrent cache crate), [StringInterners]
    (interning as the resolver sees it, which may fail at any time), [Libm] and [LibmExp] (logarithm,
    power and exponential), [FloatCmp] (equality up to a ratio),
    [Compression] with [CompressionLaws], [HttpBuilder], [CodedOutput], [SerdeJson], [CodedColumns] and
    [V3Header] (what the protobuf and JSON libraries write), [Mpsc] with [MpscLaws] (bounded channels),
    [EventMask] with [EventMaskLaws], [Unicode] (which characters are alphanumeric), and the iteration order of
    hash maps ([MapOrder], [HashOrder]).  [EndpointEncoder] is a trait of the repository.  The value that a load
    of a gate sees is an argument ([gate_at]), and so are the sizes of types and the builders of components.  Theorems on contexts that are looked up by key say that keys do not
    collide.  The contexts of metrics, the sketches of distributions and the downstream dispatcher are interfaces of [Aggregate].  The
    clock is an argument or a field of the explicit world.

    ** Fuel

    Loops that are not structural take fuel, and a theorem says how much is enough:
    [nested_framer_terminates] (the buffer's bytes and two), [persisted_pop_terminates] (the entries
    and files and two), [cycle_check_correct] (twice the edges and three), pruning (the candidates
    and the edges), [try_intern_refines] (the bytes of the shard and one), [raw_tags_read] (the bytes
    of the block and one), the round trips of the codec (the bytes that are left and one), the
    iterators of bit sets (the words and one) and of tag sets (the tags of the base and the additions and
    one), the binary search of prefixes (the length), inserting keys into a sketch (the bins and the keys and
    one), a length as a varint (ten groups), the readers of columns (their length), splitting and flushing
    batches (twice the metrics and one; the metrics), sending (the senders) and removing from an event buffer
    (the events); [framed_collect] is the iteration of a client and its theorems state the number
    of frames.

    ** What is not modelled

    Logging, telemetry and assertions that only observe (the counters of dispatching and encoding are modelled,
    because code means them to add up); async scheduling beyond the interleavings of the circuit breaker, the
    interner, the conditions and the supervisor (whose turns are atomic: which task ends, deadlines and the clock
    are inputs); the buffer pool and frozen buffers; context snapshots and configuration
    parsing; interner shards of more than [2^32] bytes, whose packed lengths do not fit; the formats of the
    older metrics endpoints; the relative accuracy of the index mappings, which rests on the logarithm of the
    system library; the map-based interner; the
    scopes of workers, their processes and runtimes, and the snapshots of the supervision tree; the probing of the
    health registry; the remaining components (the other sources, transforms, encoders and forwarders are mostly
    I/O and protocol code).  Next in line are the scopes and the health registry. *)

From Stdlib Require Import ZArith Lia Sorted Permutation.
From stdpp Require Import base tactics list numbers gmap strings.
Open Scope Z_scope.

(** ** Results: the code's [Result<A, E>] *)

Inductive result (E A : Type) : Type :=
| Ok (a : A)
| Err (e : E).
Arguments Ok {E A} a.
Arguments Err {E A} e.

#[export] Instance result_ret {E} : MRet (result E) := fun A a => Ok a.
#[export] Instance result_bind {E} : MBind (result E) := fun A B f r =>
  match r with Ok a => f a | Err e => Err e end.
#[export] Instance result_fmap {E} : FMap (result E) := fun A B f r =>
  match r with Ok a => Ok (f a) | Err e => Err e end.

Definition is_ok {E A} (r : result E A) : bool :=
  match r with Ok _ => true | Err _ => false end.

Definition map_err {E F A} (f : E -> F) (r : result E A) : result F A :=
  match r with Ok a => Ok a | Err e => Err (f e) end.

(** ** Machine integers *)

(** An unsigned integer of width [w] is a [Z] in [[0, 2^w)].  The plain operators wrap
    around, as in the [optimized-release] profile that is shipped (the development profiles check
    for overflow instead), the [saturating_*] ones clamp. *)
Definition umax (w : Z) : Z := 2 ^ w - 1.
Definition in_range (w z : Z) : Prop := 0 <= z <= umax w.
Definition wrap (w z : Z) : Z := z mod 2 ^ w.
Definition wrapping_add (w a b : Z) : Z := wrap w (a + b).
Definition wrapping_sub (w a b : Z) : Z := wrap w (a - b).
Definition saturating_add (w a b : Z) : Z := Z.min (a + b) (umax w).
Definition saturating_sub (a b : Z) : Z := Z.max 0 (a - b).

Abbreviation u64_max := (umax 64).
Abbreviation is_u64 := (in_range 64).
Abbreviation u64_add := (wrapping_add 64).
Abbreviation u64_sub := (wrapping_sub 64).
Abbreviation u64_saturating_add := (saturating_add 64).

(** ** Sums over lists *)

Definition sumZ {A} (f : A -> Z) (l : list A) : Z := foldr (fun a s => f a + s) 0 l.

(** The length of the shortest prefix of [l] that weighs at least [need] (all of [l] when none
    does): how many elements a loop takes that goes on until [need] is covered. *)
Fixpoint prefix_covering {A} (f : A -> Z) (need : Z) (l : list A) : nat :=
  match l with
  | [] => 0
  | a :: l' => if 0 <? need then S (prefix_covering f (need - f a) l') else 0
  end.

(** ** Stable sorting: [slice::sort_by_key]

    Rust's [sort_by_key] is a stable sort, which determines its result: insertion sort computes
    the same list. *)
Section sorting.
Context {A : Type} (le : A -> A -> bool).

Fixpoint insert_by (x : A) (l : list A) : list A :=
  match l with
  | [] => [x]
  | y :: l' => if le x y then x :: y :: l' else y :: insert_by x l'
  end.

Definition stable_sort (l : list A) : list A := foldr insert_by [] l.
End sorting.

(** ** Hash maps

    The order in which a hash map or a hash set is iterated is unspecified. *)
Class HashOrder := {
  hash_order : forall {A : Type}, list A -> list A;
  hash_order_perm : forall {A : Type} (l : list A), hash_order l ≡ₚ l;
}.

(** ** Tactics and hint databases *)

Create HintDb saluki.
Create Rewrite HintDb saluki.


(** Case analysis on the boolean comparisons of the code. *)
Ltac bool_cases :=
  repeat match goal with
  | H : (_ =? _) = true |- _ => apply Z.eqb_eq in H
  | H : (_ =? _) = false |- _ => apply Z.eqb_neq in H
  | H : (_ <? _) = true |- _ => apply Z.ltb_lt in H
  | H : (_ <? _) = false |- _ => apply Z.ltb_ge in H
  | H : (_ <=? _) = true |- _ => apply Z.leb_le in H
  | H : (_ <=? _) = false |- _ => apply Z.leb_gt in H
  | H : (_ && _)%bool = true |- _ => apply andb_true_iff in H; destruct H
  | H : (_ || _)%bool = false |- _ => apply orb_false_iff in H; destruct H
  | H : negb _ = true |- _ => apply negb_true_iff in H
  | H : negb _ = false |- _ => apply negb_false_iff in H
  end.

(** Decide the comparisons in the goal, and finish by arithmetic. *)
Ltac bool_lia :=
  repeat match goal with
  | |- context [?a <? ?c] => destruct (Z.ltb_spec a c)
  | |- context [?a <=? ?c] => destruct (Z.leb_spec a c)
  | |- context [?a =? ?c] => destruct (Z.eqb_spec a c)
  end; simpl; try done; lia.

(** Discharge a hypothesis at a concrete input. *)
Ltac solve_by_compute :=
  first [ done | lia | vm_compute; (done || lia || (repeat split; first [done | lia | intros; discriminate])) ].

(** ** Lemmas on machine integers *)

Lemma wrap_small w z : in_range w z -> wrap w z = z.
Proof. unfold in_range, umax, wrap. intros. apply Z.mod_small. lia. Qed.

Lemma wrapping_add_exact w a b : in_range w (a + b) -> wrapping_add w a b = a + b.
Proof. apply wrap_small. Qed.

Lemma wrapping_sub_exact w a b : in_range w (a - b) -> wrapping_sub w a b = a - b.
Proof. apply wrap_small. Qed.

Lemma wrap_range w z : 0 <= w -> in_range w (wrap w z).
Proof.
  intros Hw. unfold in_range, umax, wrap.
  pose proof (Z.mod_pos_bound z (2 ^ w) ltac:(lia)). lia.
Qed.

Lemma wrapping_add_assoc w a b c :
  wrapping_add w (wrapping_add w a b) c = wrapping_add w a (b + c).
Proof.
  unfold wrapping_add, wrap. rewrite Zplus_mod_idemp_l. f_equal. lia.
Qed.

#[export] Hint Resolve wrap_small wrapping_add_exact wrapping_sub_exact wrap_range : saluki.

(** ** Lemmas on sums *)

Lemma sumZ_app {A} (f : A -> Z) l1 l2 : sumZ f (l1 ++ l2) = sumZ f l1 + sumZ f l2.
Proof. induction l1 as [|a l IH]; simpl; [done|]. rewrite IH. lia. Qed.

Lemma sumZ_cons {A} (f : A -> Z) a l : sumZ f (a :: l) = f a + sumZ f l.
Proof. done. Qed.

Lemma sumZ_nonneg {A} (f : A -> Z) l : (forall a, a ∈ l -> 0 <= f a) -> 0 <= sumZ f l.
Proof.
  induction l as [|a l IH]; simpl; intros H; [lia|].
  pose proof (H a ltac:(left)). pose proof (IH ltac:(intros; apply H; by right)). lia.
Qed.

Lemma sumZ_perm {A} (f : A -> Z) l1 l2 : l1 ≡ₚ l2 -> sumZ f l1 = sumZ f l2.
Proof. induction 1; simpl; lia. Qed.

#[export] Instance sumZ_proper {A} (f : A -> Z) : Proper ((≡ₚ) ==> (=)) (sumZ f).
Proof. intros l1 l2. apply sumZ_perm. Qed.

Lemma sumZ_ext {A} (f g : A -> Z) l : (forall a, a ∈ l -> f a = g a) -> sumZ f l = sumZ g l.
Proof.
  induction l as [|a l IH]; simpl; intros H; [done|].
  rewrite (H a ltac:(left)), IH; [done|]. intros; apply H; by right.
Qed.

Lemma sumZ_take_drop {A} (f : A -> Z) k l : sumZ f (take k l) + sumZ f (drop k l) = sumZ f l.
Proof. by rewrite <- sumZ_app, take_drop. Qed.

Lemma prefix_covering_spec {A} (f : A -> Z) need l :
  let k := prefix_covering f need l in
  (k <= length l)%nat /\ (k = length l \/ need <= sumZ f (take k l)) /\
  forall j, (j < k)%nat -> sumZ f (take j l) < need.
Proof.
  revert need. induction l as [|a l IH]; intros need; simpl; [split_and!; auto; lia|].
  destruct (0 <? need) eqn:E; bool_cases; simpl; [|split_and!; [lia..|intros; lia]].
  destruct (IH (need - f a)) as (Hle & Hcov & Hmin). split_and!; [lia| |].
  - destruct Hcov as [->|]; [by left|right; lia].
  - intros [|j] Hj; simpl; [lia|]. specialize (Hmin j ltac:(lia)). lia.
Qed.

(** ** Lemmas on lists *)

Lemma list_filter_all {A} (P : A -> Prop) `{forall x, Decision (P x)} (l : list A) :
  (forall x, x ∈ l -> P x) -> filter P l = l.
Proof.
  induction l as [|x l IH]; intros HP; [done|].
  rewrite filter_cons_True by (apply HP; left). rewrite IH; [done|].
  intros y Hy. apply HP. by right.
Qed.

Lemma list_filter_none {A} (P : A -> Prop) `{forall x, Decision (P x)} (l : list A) :
  (forall x, x ∈ l -> ~ P x) -> filter P l = [].
Proof.
  induction l as [|x l IH]; intros HP; [done|].
  rewrite filter_cons_False by (apply HP; left). apply IH. intros y Hy. apply HP. by right.
Qed.

Lemma elem_of_rev {A} (x : A) (l : list A) : x ∈ rev l <-> x ∈ l.
Proof. by rewrite !list_elem_of_In, <- in_rev. Qed.

(** ** Lemmas on the stable sort *)

Section sorting_lemmas.
Context {A : Type} (le : A -> A -> bool).
Context (le_total : forall x y, le x y = true \/ le y x = true)
        (le_trans : forall x y z, le x y = true -> le y z = true -> le x z = true).

Abbreviation LE := (fun x y => le x y = true).

Lemma insert_by_perm x l : insert_by le x l ≡ₚ x :: l.
Proof.
  induction l as [|y l IH]; simpl; [done|].
  destruct (le x y); [done|]. rewrite IH. apply Permutation_swap.
Qed.

Lemma stable_sort_perm l : stable_sort le l ≡ₚ l.
Proof.
  induction l as [|x l IH]; simpl; [done|].
  rewrite insert_by_perm. by apply Permutation_skip.
Qed.

Lemma insert_by_sorted x l : StronglySorted LE l -> StronglySorted LE (insert_by le x l).
Proof using le_total le_trans.
  induction 1 as [|y l Hs IH HF]; simpl; [repeat constructor|].
  destruct (le x y) eqn:E.
  - constructor; [by constructor|]. constructor; [done|].
    eapply Forall_impl; [exact HF|]. simpl. eauto.
  - constructor; [done|]. rewrite Forall_forall. intros z Hz.
    rewrite insert_by_perm in Hz. apply elem_of_cons in Hz as [->|Hz].
    + destruct (le_total x y); congruence.
    + by rewrite Forall_forall in HF; apply HF.
Qed.

Lemma stable_sort_sorted l : StronglySorted LE (stable_sort le l).
Proof using le_total le_trans.
  induction l as [|x l IH]; simpl; [constructor|]. by apply insert_by_sorted.
Qed.

Lemma stable_sort_id l : StronglySorted LE l -> stable_sort le l = l.
Proof.
  induction 1 as [|x l Hs IH HF]; simpl; [done|]. rewrite IH.
  destruct HF as [|y l Hy HF]; simpl; [done|]. by rewrite Hy.
Qed.

(** Stability: the elements of one key class keep their order. *)
Lemma stable_sort_filter (P : A -> bool) l :
  (forall x y, P x = true -> P y = true -> le x y = true) ->
  List.filter P (stable_sort le l) = List.filter P l.
Proof.
  intros HP.
  assert (Hins : forall x k, List.filter P (insert_by le x k) = List.filter P (x :: k)).
  { intros x k. induction k as [|y k IH]; simpl in *; [done|].
    destruct (le x y) eqn:E; simpl; [done|]. rewrite IH.
    destruct (P x) eqn:Px, (P y) eqn:Py; simpl; try done.
    rewrite (HP x y) in E; done. }
  induction l as [|x l IH]; simpl; [done|]. rewrite Hins. simpl. by rewrite IH.
Qed.

Lemma length_stable_sort l : length (stable_sort le l) = length l.
Proof. apply Permutation_length, stable_sort_perm. Qed.
End sorting_lemmas.
