(* ===== verification/Bytes.v ===== *)
(** * Byte strings

    Bytes as [Byte.byte], byte strings as lists of them, the little-endian integer codec of the
    length-delimited framing, and the interface of the [memchr] crate that the framers and the
    DogStatsD codec search delimiters with. *)

From Stdlib Require Import ZArith Lia Strings.Byte Strings.String.
From stdpp Require Import base tactics list numbers.
From S2P Require Import Prelude.
Open Scope Z_scope.

Abbreviation byte := Byte.byte.
Abbreviation bytes := (list Byte.byte).

#[export] Instance byte_eq_dec : EqDecision byte := Byte.byte_eq_dec.

(** The literal [b"..."]. *)
Definition b (s : string) : bytes := String.list_byte_of_string s.
Arguments b s%_string_scope.

Definition byte_Z (c : byte) : Z := Z.of_N (Byte.to_N c).
Definition Z_byte (z : Z) : byte :=
  match Byte.of_N (Z.to_N (z mod 256)) with Some c => c | None => x00 end.

(** [u32::from_le_bytes] on a slice, and [u32::to_le_bytes]. *)
Fixpoint le_to_Z (l : bytes) : Z :=
  match l with [] => 0 | c :: l' => byte_Z c + 256 * le_to_Z l' end.

Fixpoint Z_to_le (n : nat) (z : Z) : bytes :=
  match n with O => [] | S n' => Z_byte z :: Z_to_le n' (z / 256) end.

Definition u32_to_le_bytes (z : Z) : bytes := Z_to_le 4 z.

(** The interface of [memchr::memchr]: the index of the first occurrence of the needle. *)
Class Memchr := {
  memchr : byte -> bytes -> option nat;
  memchr_Some : forall c l i, memchr c l = Some i -> l !! i = Some c /\ c ∉ take i l;
  memchr_None : forall c l, memchr c l = None -> c ∉ l;
}.

(** A function that satisfies the interface. *)
Fixpoint find_byte (c : byte) (l : bytes) : option nat :=
  match l with
  | [] => None
  | x :: l' => if bool_decide (x = c) then Some O else S <$> find_byte c l'
  end.

(** ** Lemmas *)

Lemma byte_Z_bounds c : 0 <= byte_Z c < 256.
Proof.
  unfold byte_Z. pose proof (Byte.to_N_bounded c). lia.
Qed.

Lemma byte_Z_Z_byte z : byte_Z (Z_byte z) = z mod 256.
Proof.
  unfold byte_Z, Z_byte. pose proof (Z.mod_pos_bound z 256 ltac:(lia)) as Hb.
  destruct (Byte.of_N (Z.to_N (z mod 256))) eqn:E.
  - apply Byte.to_of_N in E. rewrite E. lia.
  - apply Byte.of_N_None_iff in E. lia.
Qed.

Lemma Z_byte_byte_Z c : Z_byte (byte_Z c) = c.
Proof. by destruct c. Qed.

Lemma length_Z_to_le n z : List.length (Z_to_le n z) = n.
Proof. revert z. induction n; simpl; auto. Qed.

Lemma le_to_Z_to_le n z : 0 <= z < 256 ^ Z.of_nat n -> le_to_Z (Z_to_le n z) = z.
Proof.
  revert z. induction n as [|n IH]; intros z Hz.
  - change (256 ^ Z.of_nat 0) with 1 in Hz. simpl. lia.
  - simpl. rewrite byte_Z_Z_byte, IH.
    + pose proof (Z.div_mod z 256 ltac:(lia)). lia.
    + rewrite Nat2Z.inj_succ, Z.pow_succ_r in Hz by lia.
      split; [apply Z.div_pos; lia|apply Z.div_lt_upper_bound; lia].
Qed.

Lemma le_to_Z_nonneg l : 0 <= le_to_Z l.
Proof. induction l as [|c l IH]; simpl; [lia|]. pose proof (byte_Z_bounds c). lia. Qed.

Section memchr_lemmas.
Context `{Memchr}.

(** The interface determines the search: on a delimiter-free prefix it answers its length. *)
Lemma memchr_app c l1 l2 : c ∉ l1 -> memchr c (l1 ++ c :: l2) = Some (List.length l1).
Proof.
  intros Hni. destruct (memchr c (l1 ++ c :: l2)) as [i|] eqn:E.
  - apply memchr_Some in E as [Hi Hbefore]. f_equal.
    destruct (lt_eq_lt_dec i (List.length l1)) as [[Hlt|Heq]|Hgt]; [|done|].
    + rewrite lookup_app_l in Hi by done. destruct Hni. by eapply list_elem_of_lookup_2.
    + destruct Hbefore. rewrite take_app, elem_of_app. right.
      destruct (i - List.length l1)%nat eqn:E'; [lia|]. simpl. left.
  - apply memchr_None in E. destruct E. rewrite elem_of_app. right. left.
Qed.

Lemma memchr_not_elem c l : c ∉ l -> memchr c l = None.
Proof.
  intros Hni. destruct (memchr c l) as [i|] eqn:E; [|done].
  apply memchr_Some in E as [Hi _]. destruct Hni. by eapply list_elem_of_lookup_2.
Qed.

End memchr_lemmas.

Lemma find_byte_Some c l i :
  find_byte c l = Some i -> l !! i = Some c /\ c ∉ take i l.
Proof.
  revert i. induction l as [|x l IH]; intros i; simpl; [done|].
  case_bool_decide as Hx; intros E; simplify_eq/=.
  - split; [done|apply not_elem_of_nil].
  - destruct (find_byte c l) as [j|] eqn:Ej; simplify_eq/=.
    destruct (IH j eq_refl) as [? ?]. split; [done|].
    rewrite not_elem_of_cons. split; congruence.
Qed.

Lemma find_byte_None c l : find_byte c l = None -> c ∉ l.
Proof.
  induction l as [|x l IH]; simpl; intros E; [apply not_elem_of_nil|].
  case_bool_decide as Hx; [done|].
  destruct (find_byte c l); simplify_eq/=. rewrite not_elem_of_cons. auto.
Qed.

Definition memchr_ref : Memchr := {|
  memchr := find_byte;
  memchr_Some := find_byte_Some;
  memchr_None := find_byte_None;
|}.
