(* ===== verification/Float64.v ===== *)
(** * Float64: the [f64] operations the code uses

    An [f64] is a [spec_float] of precision 53 and maximal exponent 1024, the Standard Library's
    executable specification of IEEE 754 binary64 with round-to-nearest-even.  The casts between
    integers and floats are those of the language: [as f64] rounds to nearest, [as u64] truncates
    toward zero and saturates. *)

From Stdlib Require Import ZArith Lia Floats.SpecFloat.
From stdpp Require Import base tactics numbers.
From S2P Require Import Prelude.
Open Scope Z_scope.

Abbreviation f64 := spec_float.
Abbreviation prec := 53%Z.
Abbreviation emax := 1024%Z.

Definition f64_add : f64 -> f64 -> f64 := SFadd prec emax.
Definition f64_sub : f64 -> f64 -> f64 := SFsub prec emax.
Definition f64_mul : f64 -> f64 -> f64 := SFmul prec emax.
Definition f64_div : f64 -> f64 -> f64 := SFdiv prec emax.
Definition f64_abs : f64 -> f64 := SFabs.

Definition f64_eqb : f64 -> f64 -> bool := SFeqb.
Definition f64_ltb : f64 -> f64 -> bool := SFltb.
Definition f64_leb : f64 -> f64 -> bool := SFleb.

(** [m * 2^e], rounded to nearest. *)
Definition f64_scale (m e : Z) : f64 := binary_normalize prec emax m e false.

(** [z as f64] *)
Definition f64_of_Z (z : Z) : f64 := f64_scale z 0.

Definition f64_zero : f64 := S754_zero false.
Definition f64_one : f64 := f64_of_Z 1.

Definition is_nan (x : f64) : bool := match x with S754_nan => true | _ => false end.
Definition is_infinite (x : f64) : bool := match x with S754_infinity _ => true | _ => false end.

(** The integer part of [m * 2^e] toward zero, for a non-negative [m]. *)
Definition trunc_pos (m : positive) (e : Z) : Z := Z.shiftl (Zpos m) e.

(** [x as uN]: truncation toward zero, saturating; a NaN is 0. *)
Definition f64_to_u (w : Z) (x : f64) : Z :=
  match x with
  | S754_nan | S754_zero _ => 0
  | S754_infinity s => if s then 0 else umax w
  | S754_finite s m e => if s then 0 else Z.min (trunc_pos m e) (umax w)
  end.
Abbreviation f64_to_u64 := (f64_to_u 64).

(** [f64::ceil] and [f64::floor] *)
Definition f64_ceil (x : f64) : f64 :=
  match x with
  | S754_finite s m e =>
      if 0 <=? e then x
      else
        let v := if s then - trunc_pos m e
                 else - ((- Zpos m) / 2 ^ (- e)) in
        binary_normalize prec emax v 0 s
  | _ => x
  end.

Definition f64_floor (x : f64) : f64 :=
  match x with
  | S754_finite s m e =>
      if 0 <=? e then x
      else
        let v := if s then (- Zpos m) / 2 ^ (- e) else trunc_pos m e in
        binary_normalize prec emax v 0 s
  | _ => x
  end.

(** [f64::round]: half away from zero. *)
Definition f64_round (x : f64) : f64 :=
  match x with
  | S754_finite s m e =>
      if 0 <=? e then x
      else
        let v := Z.shiftr (Zpos m + 2 ^ (- e - 1)) (- e) in
        binary_normalize prec emax (if s then - v else v) 0 s
  | _ => x
  end.

(** [f64::trunc] and [f64::round_ties_even] *)
Definition f64_trunc (x : f64) : f64 :=
  match x with
  | S754_finite s m e =>
      if 0 <=? e then x else binary_normalize prec emax (if s then - trunc_pos m e else trunc_pos m e) 0 s
  | _ => x
  end.

(** [f64::fract] *)
Definition f64_fract (x : f64) : f64 := f64_sub x (f64_trunc x).

Definition f64_round_ties_even (x : f64) : f64 :=
  match x with
  | S754_finite s m e =>
      if 0 <=? e then x
      else
        let q := trunc_pos m e in
        let v := match Zpos m - q * 2 ^ (- e) ?= 2 ^ (- e - 1) with
                 | Lt => q
                 | Gt => q + 1
                 | Eq => if Z.even q then q else q + 1
                 end in
        binary_normalize prec emax (if s then - v else v) 0 s
  | _ => x
  end.

(** [x as iN]: truncation toward zero, saturating; a NaN is 0. *)
Definition f64_to_i (w : Z) (x : f64) : Z :=
  let hi := 2 ^ (w - 1) - 1 in
  match x with
  | S754_nan | S754_zero _ => 0
  | S754_infinity s => if s then - hi - 1 else hi
  | S754_finite s m e => if s then Z.max (- trunc_pos m e) (- hi - 1) else Z.min (trunc_pos m e) hi
  end.

Definition f64_neg : f64 -> f64 := SFopp.
Definition f64_MAX : f64 := S754_finite false (2 ^ 53 - 1) 971.
Definition f64_MIN : f64 := f64_neg f64_MAX.

(** [f64::clamp], which panics when the bounds are not ordered; a NaN stays one. *)
Definition f64_clamp (x lo hi : f64) : option f64 :=
  if f64_leb lo hi then Some (if f64_ltb x lo then lo else if f64_ltb hi x then hi else x) else None.

(** [f64::max] and [f64::min]: the other operand when one is a NaN. *)
Definition f64_max (x y : f64) : f64 :=
  if is_nan x then y else if is_nan y then x else if f64_ltb x y then y else x.

(** ** Lemmas *)

Lemma f64_to_u_range w x : 0 <= w -> in_range w (f64_to_u w x).
Proof.
  intros Hw. unfold in_range, umax.
  assert (1 <= 2 ^ w) by (apply (Z.pow_le_mono_r 2 0 w); lia).
  destruct x as [s|s| |s m e]; simpl; unfold umax; try (destruct s; lia); [lia|].
  destruct s; [lia|]. unfold trunc_pos.
  pose proof (proj2 (Z.shiftl_nonneg (Zpos m) e) ltac:(lia)). lia.
Qed.

#[export] Hint Resolve f64_to_u_range : saluki.

(** ** Exact integers *)

Lemma digits2_size p : digits2_pos p = Pos.size p.
Proof. induction p as [p IH|p IH|]; cbn; by rewrite ?IH. Qed.

Lemma digits2_log2 p : Zpos (digits2_pos p) = Z.log2 (Zpos p) + 1.
Proof. rewrite digits2_size. destruct p; cbn; lia. Qed.

Lemma digits2_unique p n : 2 ^ (n - 1) <= Zpos p < 2 ^ n -> 1 <= n -> Zpos (digits2_pos p) = n.
Proof. intros Hp Hn. rewrite digits2_log2, (Z.log2_unique _ (n - 1)); [lia|lia|]. by replace (Z.succ (n - 1)) with n by lia. Qed.

Lemma digits2_bounds p : 2 ^ (Zpos (digits2_pos p) - 1) <= Zpos p < 2 ^ Zpos (digits2_pos p).
Proof. rewrite digits2_log2. pose proof (Z.log2_spec (Zpos p) ltac:(lia)). by replace (Z.log2 (Zpos p) + 1 - 1) with (Z.log2 (Zpos p)) by lia. Qed.

(** A significand that already has its exponent is not rounded. *)
Lemma round_canonical pr em s m e : fexp pr em (Zpos (digits2_pos m) + e) = e -> e <= em - pr ->
  binary_round_aux pr em s (Zpos m) e loc_Exact = S754_finite s m e.
Proof.
  intros Hc He. unfold binary_round_aux, shr_fexp. cbn [Zdigits2 shr_record_of_loc]. rewrite Hc, Z.sub_diag. cbn [shr shr_m loc_of_shr_record round_nearest_even Zdigits2].
  rewrite Hc, Z.sub_diag. cbn [shr shr_m shr_record_of_loc]. by rewrite Zle_imp_le_bool.
Qed.

Lemma shift_pos_Z d p : Zpos (shift_pos d p) = Zpos p * 2 ^ Zpos d.
Proof. rewrite shift_pos_correct. apply Z.mul_comm. Qed.

(** Moving the point to the left, to the exponent of the format. *)
Lemma round_shl pr em s m e k :
  fexp pr em (Zpos (digits2_pos m) + e) = e - k -> 0 <= k -> e - k <= em - pr ->
  exists m', Zpos m' = Zpos m * 2 ^ k /\ Zpos (digits2_pos m') = Zpos (digits2_pos m) + k /\ binary_round pr em s m e = S754_finite s m' (e - k).
Proof.
  intros Hf Hk He. assert (Hm' : exists m', shl_align m e (e - k) = (m', e - k) /\ Zpos m' = Zpos m * 2 ^ k).
  { unfold shl_align. destruct k as [|k|k]; [|exists (shift_pos k m); rewrite shift_pos_Z; by replace (e - Zpos k - e) with (Zneg k) by lia|lia].
    exists m. rewrite Z.sub_0_r, Z.sub_diag. split; [done|lia]. }
  destruct Hm' as (m' & Hs & Hm'). exists m'. assert (Hd : Zpos (digits2_pos m') = Zpos (digits2_pos m) + k).
  { pose proof (digits2_bounds m) as Hb. apply digits2_unique; [|lia]. rewrite Hm'. replace (Zpos (digits2_pos m) + k - 1) with (Zpos (digits2_pos m) - 1 + k) by lia.
    rewrite !Z.pow_add_r by lia. pose proof (Z.pow_pos_nonneg 2 k ltac:(lia) Hk). split; [apply Z.mul_le_mono_nonneg_r|apply Z.mul_lt_mono_pos_r]; lia. }
  split_and!; [done|done|]. unfold binary_round. rewrite Hf, Hs. apply round_canonical; [|done]. rewrite Hd. rewrite <- Hf at 2. f_equal. lia.
Qed.

Definition signed (s : bool) (p : positive) : Z := cond_Zopp s (Zpos p).

Lemma normalize_signed pr em s p e z : binary_normalize pr em (signed s p) e z = binary_round pr em s p e.
Proof. by destruct s. Qed.

(** An integer of at most 53 bits is a float. *)
Lemma f64_of_pos p : Zpos p < 2 ^ 53 ->
  exists m k, 0 <= k /\ f64_of_Z (Zpos p) = S754_finite false m (- k) /\ Zpos m = Zpos p * 2 ^ k.
Proof.
  intros Hp. set (d := Zpos (digits2_pos p)). assert (Hd : 1 <= d <= 53).
  { unfold d. split; [lia|]. rewrite digits2_log2. pose proof (Z.log2_lt_pow2 (Zpos p) 53 ltac:(lia)). lia. }
  unfold f64_of_Z, f64_scale. change (Zpos p) with (signed false p) at 1. rewrite normalize_signed.
  destruct (round_shl 53 1024 false p 0 (53 - d)) as (m & Hm & _ & ->); [fold d; unfold fexp, emin; lia|lia|lia|].
  exists m, (53 - d). split_and!; [lia|f_equal; lia|done].
Qed.

Lemma trunc_pos_exact m k z : 0 <= k -> Zpos m = z * 2 ^ k -> trunc_pos m (- k) = z.
Proof.
  intros Hk Hm. unfold trunc_pos. rewrite Z.shiftl_opp_r, Z.shiftr_div_pow2, Hm by done.
  apply Z.div_mul. pose proof (Z.pow_pos_nonneg 2 k ltac:(lia) Hk). lia.
Qed.

(** The casts to a float and back, for counts up to [2^53]. *)
Lemma f64_count_exact n : 0 <= n <= 2 ^ 53 -> f64_to_u64 (f64_of_Z n) = n.
Proof.
  intros Hn. destruct (decide (n = 2 ^ 53)) as [->|Hne]; [by vm_compute|].
  destruct n as [|p|p]; [done| |lia]. destruct (f64_of_pos p) as (m & k & Hk & -> & Hm); [lia|].
  cbn [f64_to_u]. rewrite (trunc_pos_exact m k (Zpos p)) by done. apply Z.min_l. unfold umax. lia.
Qed.

Lemma f64_count_trunc n : 0 <= n <= 2 ^ 53 -> f64_trunc (f64_of_Z n) = f64_of_Z n.
Proof.
  intros Hn. destruct (decide (n = 2 ^ 53)) as [->|Hne]; [by vm_compute|].
  destruct n as [|p|p]; [done| |lia]. destruct (f64_of_pos p) as (m & k & Hk & He & Hm); [lia|].
  rewrite He at 1. cbn [f64_trunc]. destruct (Z.leb_spec 0 (- k)); [done|].
  by rewrite (trunc_pos_exact m k (Zpos p)) by done.
Qed.

Lemma f64_count_nonneg n : 0 <= n <= 2 ^ 53 -> f64_ltb (f64_of_Z n) f64_zero = false.
Proof.
  intros Hn. destruct (decide (n = 2 ^ 53)) as [->|Hne]; [by vm_compute|].
  destruct n as [|p|p]; [done| |lia]. by destruct (f64_of_pos p) as (m & k & _ & -> & _); [lia|].
Qed.

Lemma f64_sub_diag s m e : f64_sub (S754_finite s m e) (S754_finite s m e) = f64_zero.
Proof. unfold f64_sub, SFsub. by rewrite Z.sub_diag. Qed.

Lemma f64_count_finite n : 0 < n <= 2 ^ 53 -> exists m e, f64_of_Z n = S754_finite false m e.
Proof.
  intros Hn. destruct (decide (n = 2 ^ 53)) as [->|Hne]; [eexists _, _; by vm_compute|].
  destruct n as [|p|p]; [lia| |lia]. destruct (f64_of_pos p) as (m & k & _ & -> & _); [lia|]. eauto.
Qed.

(** What a count read from a message must satisfy. *)
Lemma f64_count_fract n : 0 <= n <= 2 ^ 53 -> f64_eqb (f64_fract (f64_of_Z n)) f64_zero = true.
Proof.
  intros Hn. unfold f64_fract. rewrite f64_count_trunc by done. destruct (decide (n = 0)) as [->|Hne]; [done|].
  destruct (f64_count_finite n) as (m & e & ->); [lia|]. by rewrite f64_sub_diag.
Qed.

Lemma f64_eqb_refl v : v <> S754_nan -> f64_eqb v v = true.
Proof.
  unfold f64_eqb, SFeqb. destruct v as [s|s| |s m e]; intros Hv; [done|by destruct s|done|]. cbn [SFcompare]. rewrite Z.compare_refl.
  change (Pos.compare_cont Eq m m) with (Pos.compare m m). rewrite Pos.compare_refl. by destruct s.
Qed.

Example f64_half : f64_to_u64 (f64_mul (f64_of_Z 101) (f64_scale 1 (-1))) = 50.
Proof. reflexivity. Qed.

Example f64_ceil_example : f64_ceil (f64_scale 5 (-1)) = f64_of_Z 3.
Proof. reflexivity. Qed.

Example f64_floor_example : f64_floor (f64_scale (-5) (-1)) = f64_of_Z (-3).
Proof. reflexivity. Qed.

Example f64_round_example : f64_round (f64_scale (-5) (-1)) = f64_of_Z (-3).
Proof. reflexivity. Qed.

Example f64_ties_even_example : f64_round_ties_even (f64_scale 5 (-1)) = f64_of_Z 2 /\ f64_round_ties_even (f64_scale (-7) (-1)) = f64_of_Z (-4).
Proof. split; reflexivity. Qed.

Example f64_ceil_negative : f64_to_u64 (f64_ceil (f64_sub (f64_of_Z 3) (f64_of_Z 7))) = 0.
Proof. reflexivity. Qed.
