(* ===== verification/Framing.v ===== *)
(** * Framing: from a byte stream to messages

    Models [lib/saluki-io/src/buf] (the I/O buffer interface and the fixed-size [BytesBuffer]) and
    [lib/saluki-io/src/deser/framing] (the newline, length-delimited and nested framers and the
    [Framed] iterator).  A framer is an instance of the class [Framer]; it works on any buffer that
    is an instance of [ReadIoBuffer], and its theorems are proved against the buffer laws, which
    [BytesBuffer] and [Bytes] discharge.  A panic of the code (an [advance] past the end) is the
    outcome [None]. *)

From Stdlib Require Import ZArith Lia Strings.Byte Strings.String.
From stdpp Require Import base tactics list numbers option.
From S2P Require Import Prelude Bytes.
Open Scope Z_scope.
Open Scope nat_scope.

Abbreviation newline := x0a.

(** ** Buffers *)

(** [bytes::Buf] and [ReadIoBuffer]: [None] is the panic of an access past the end. *)
Class ReadIoBuffer (B : Type) := {
  remaining : B -> nat;
  chunk : B -> bytes;
  advance : nat -> B -> option B;
  copy_to_bytes : nat -> B -> option (bytes * B);
  capacity : B -> nat;
}.

(** What a buffer that keeps its data in one piece promises to the framers. *)
Class BufferLaws (B : Type) `{ReadIoBuffer B} := {
  buf_ok : B -> Prop;
  remaining_chunk : forall bf, buf_ok bf -> remaining bf = length (chunk bf);
  advance_chunk : forall n bf, buf_ok bf -> n <= length (chunk bf) ->
    exists bf', advance n bf = Some bf' /\ chunk bf' = drop n (chunk bf) /\ buf_ok bf';
  copy_chunk : forall n bf, buf_ok bf -> n <= length (chunk bf) ->
    exists bf', copy_to_bytes n bf = Some (take n (chunk bf), bf') /\
                chunk bf' = drop n (chunk bf) /\ buf_ok bf';
}.

(** A buffer whose capacity reading does not change. *)
Class FixedCapacity (B : Type) `{ReadIoBuffer B} : Prop := {
  copy_capacity : forall n bf x bf', copy_to_bytes n bf = Some (x, bf') -> capacity bf' = capacity bf;
  advance_capacity : forall n bf bf', advance n bf = Some bf' -> capacity bf' = capacity bf;
}.

(** [bytes::Bytes], by its contents; its [ReadIoBuffer::capacity] is its length. *)
#[export] Instance Bytes_ReadIoBuffer : ReadIoBuffer bytes := {|
  remaining := length;
  chunk := fun l => l;
  advance := fun n l => if n <=? length l then Some (drop n l) else None;
  copy_to_bytes := fun n l => if n <=? length l then Some (take n l, drop n l) else None;
  capacity := length;
|}.

(** [FixedSizeVec] / [BytesBuffer]: a vector that never grows, and a read index. *)
Record FixedSizeVec := {
  data : bytes;
  read_idx : nat;
  vec_capacity : nat;
}.

Definition with_capacity (cap : nat) : FixedSizeVec :=
  {| data := []; read_idx := 0; vec_capacity := cap |}.

Definition clear (v : FixedSizeVec) : FixedSizeVec :=
  {| data := []; read_idx := 0; vec_capacity := vec_capacity v |}.

Definition BytesBuffer_remaining (v : FixedSizeVec) : nat := length (data v) - read_idx v.

Definition BytesBuffer_chunk (v : FixedSizeVec) : bytes := drop (read_idx v) (data v).

Definition BytesBuffer_advance (cnt : nat) (v : FixedSizeVec) : option FixedSizeVec :=
  if read_idx v + cnt <=? length (data v)
  then Some {| data := data v; read_idx := read_idx v + cnt; vec_capacity := vec_capacity v |}
  else None.

(** [BufMut]: the room left, and a write of [l] ([put_slice] panics when it does not fit). *)
Definition remaining_mut (v : FixedSizeVec) : nat := vec_capacity v - length (data v).

Definition put_slice (l : bytes) (v : FixedSizeVec) : option FixedSizeVec :=
  if length l <=? remaining_mut v
  then Some {| data := data v ++ l; read_idx := read_idx v; vec_capacity := vec_capacity v |}
  else None.

(** [Vec::copy_within] of [src_start..src_end] to [0], then [truncate]. *)
Definition copy_within_front (src_start src_end : nat) (l : bytes) : bytes :=
  let moved := take (src_end - src_start) (drop src_start l) in
  moved ++ drop (length moved) l.

Definition collapse (v : FixedSizeVec) : FixedSizeVec :=
  let rem := BytesBuffer_remaining v in
  if rem =? 0
  then {| data := []; read_idx := 0; vec_capacity := vec_capacity v |}
  else {| data := take rem (copy_within_front (read_idx v) (length (data v)) (data v));
          read_idx := 0; vec_capacity := vec_capacity v |}.

#[export] Instance BytesBuffer_ReadIoBuffer : ReadIoBuffer FixedSizeVec := {|
  remaining := BytesBuffer_remaining;
  chunk := BytesBuffer_chunk;
  advance := BytesBuffer_advance;
  copy_to_bytes := fun n v => v' ← BytesBuffer_advance n v; Some (take n (BytesBuffer_chunk v), v');
  capacity := vec_capacity;
|}.

Definition BytesBuffer_ok (v : FixedSizeVec) : Prop :=
  read_idx v <= length (data v) <= vec_capacity v.

(** ** Framers *)

Inductive FramingError :=
| InvalidFrame (frame_len : Z) (reason : string)
| PartialFrame (needed : Z) (remaining : Z).

(** The outcome of [next_frame]: the result, the framer and the buffer after the call. *)
Abbreviation frame_result F B := (option (result FramingError (option bytes) * F * B)).

Class Framer (F : Type) :=
  next_frame : forall {B : Type} `{ReadIoBuffer B}, F -> B -> bool -> frame_result F B.

Record NewlineFramer := { required_on_eof : bool }.

Definition missing_delimiter_err (len : nat) : FramingError :=
  InvalidFrame (Z.of_nat len) "reached EOF without finding newline delimiter".

Definition oversized_frame_err (frame_len : Z) : FramingError :=
  InvalidFrame frame_len "frame length exceeds buffer capacity".

Record NestedFramer (Inner Outer : Type) := {
  inner : Inner;
  outer : Outer;
  current_outer_frame : option bytes;
  completed_outer_frames : Z;
  retain_outer_frames : bool;
  retained_outer_frames : list bytes;
}.
Arguments inner {Inner Outer}.
Arguments outer {Inner Outer}.
Arguments current_outer_frame {Inner Outer}.
Arguments completed_outer_frames {Inner Outer}.
Arguments retain_outer_frames {Inner Outer}.
Arguments retained_outer_frames {Inner Outer}.

Section framers.
Context `{Memchr}.

Definition find_newline (haystack : bytes) : option nat := memchr newline haystack.

Definition NewlineFramer_next_frame {B} `{ReadIoBuffer B} (f : NewlineFramer) (buf : B)
    (is_eof : bool) : frame_result NewlineFramer B :=
  let chnk := chunk buf in
  match chnk with
  | [] => Some (Ok None, f, buf)
  | _ =>
    match find_newline chnk with
    | Some idx =>
        '(frame, buf) ← copy_to_bytes idx buf;
        buf ← advance 1 buf;
        Some (Ok (Some frame), f, buf)
    | None =>
        if negb is_eof then Some (Ok None, f, buf)
        else if required_on_eof f then Some (Err (missing_delimiter_err (length chnk)), f, buf)
        else '(frame, buf) ← copy_to_bytes (length chnk) buf;
             Some (Ok (Some frame), f, buf)
    end
  end.

#[export] Instance NewlineFramer_Framer : Framer NewlineFramer := @NewlineFramer_next_frame.

Inductive LengthDelimitedFramer := LengthDelimited.

(** [frame_len.saturating_add(4)] is on [usize], which is 64 bits wide. *)
Definition LengthDelimitedFramer_next_frame {B} `{ReadIoBuffer B} (f : LengthDelimitedFramer)
    (buf : B) (is_eof : bool) : frame_result LengthDelimitedFramer B :=
  let chnk := chunk buf in
  match chnk with
  | [] => Some (Ok None, f, buf)
  | _ =>
    let len := Z.of_nat (length chnk) in
    if (len <? 4)%Z then
      if is_eof then Some (Err (PartialFrame 4 len), f, buf) else Some (Ok None, f, buf)
    else
      let frame_len := le_to_Z (take 4 chnk) in
      let frame_len_with_length := u64_saturating_add frame_len 4 in
      if (frame_len_with_length >? Z.of_nat (capacity buf))%Z then
        Some (Err (oversized_frame_err frame_len), f, buf)
      else if (len <? frame_len_with_length)%Z then
        if is_eof then Some (Err (PartialFrame frame_len_with_length len), f, buf)
        else Some (Ok None, f, buf)
      else
        '(frame, buf) ← copy_to_bytes (Z.to_nat frame_len_with_length) buf;
        Some (Ok (Some (drop 4 frame)), f, buf)
  end.

#[export] Instance LengthDelimitedFramer_Framer : Framer LengthDelimitedFramer :=
  @LengthDelimitedFramer_next_frame.

Section nested.
Context {Inner Outer : Type} `{Framer Inner} `{Framer Outer}.

Definition NestedFramer_new (i : Inner) (o : Outer) : NestedFramer Inner Outer :=
  {| inner := i; outer := o; current_outer_frame := None; completed_outer_frames := 0;
     retain_outer_frames := false; retained_outer_frames := [] |}.

Definition take_completed_outer_frames (nf : NestedFramer Inner Outer) :
    Z * NestedFramer Inner Outer :=
  (completed_outer_frames nf,
   {| inner := inner nf; outer := outer nf; current_outer_frame := current_outer_frame nf;
      completed_outer_frames := 0; retain_outer_frames := retain_outer_frames nf;
      retained_outer_frames := retained_outer_frames nf |}).

Definition set_retain_outer_frames (retain : bool) (nf : NestedFramer Inner Outer) :
    NestedFramer Inner Outer :=
  {| inner := inner nf; outer := outer nf; current_outer_frame := current_outer_frame nf;
     completed_outer_frames := completed_outer_frames nf; retain_outer_frames := retain;
     retained_outer_frames := if retain then retained_outer_frames nf else [] |}.

Definition drain_outer_frames (nf : NestedFramer Inner Outer) :
    list bytes * NestedFramer Inner Outer :=
  (retained_outer_frames nf,
   {| inner := inner nf; outer := outer nf; current_outer_frame := current_outer_frame nf;
      completed_outer_frames := completed_outer_frames nf;
      retain_outer_frames := retain_outer_frames nf; retained_outer_frames := [] |}).

(** The state after the outer framer ran: its own state and, when it extracted [frame], the frame
    made current and retained. *)
Definition with_outer (nf : NestedFramer Inner Outer) (o : Outer) (frame : option bytes) :
    NestedFramer Inner Outer :=
  {| inner := inner nf; outer := o;
     current_outer_frame := frame;
     completed_outer_frames := completed_outer_frames nf;
     retain_outer_frames := retain_outer_frames nf;
     retained_outer_frames :=
       match frame with
       | Some fr => if retain_outer_frames nf then retained_outer_frames nf ++ [fr]
                    else retained_outer_frames nf
       | None => retained_outer_frames nf
       end |}.

(** The state after the inner framer ran on the current outer frame, with [rest] left of it:
    an exhausted outer frame is dropped and counted. *)
Definition with_inner (nf : NestedFramer Inner Outer) (i : Inner) (rest : bytes) (close : bool) :
    NestedFramer Inner Outer :=
  {| inner := i; outer := outer nf;
     current_outer_frame := if close then None else Some rest;
     completed_outer_frames :=
       if close then u64_add (completed_outer_frames nf) 1 else completed_outer_frames nf;
     retain_outer_frames := retain_outer_frames nf;
     retained_outer_frames := retained_outer_frames nf |}.

Definition is_nil (l : bytes) : bool := match l with [] => true | _ => false end.

(** The inner half of the loop body of [NestedFramer::next_frame]: [continue] is the next
    iteration. *)
Definition nested_step {B} `{ReadIoBuffer B}
    (continue : NestedFramer Inner Outer -> B -> frame_result (NestedFramer Inner Outer) B)
    (nf : NestedFramer Inner Outer) (buf : B) (outer_frame : bytes) :
    frame_result (NestedFramer Inner Outer) B :=
  '(r, i, outer_frame) ← next_frame (inner nf) outer_frame true;
  match r with
  | Err e => Some (Err e, with_inner nf i outer_frame false, buf)
  | Ok (Some frame) => Some (Ok (Some frame), with_inner nf i outer_frame (is_nil outer_frame), buf)
  | Ok None =>
      if is_nil outer_frame then
        let nf := with_inner nf i outer_frame true in
        if negb (remaining buf =? 0) then continue nf buf else Some (Ok None, nf, buf)
      else Some (Ok None, with_inner nf i outer_frame false, buf)
  end.

(** The [loop] of [NestedFramer::next_frame]. *)
Fixpoint nested_loop {B} `{ReadIoBuffer B} (fuel : nat) (nf : NestedFramer Inner Outer) (buf : B)
    (is_eof : bool) : frame_result (NestedFramer Inner Outer) B :=
  match fuel with
  | O => None
  | S fuel' =>
    let continue nf buf := nested_loop fuel' nf buf is_eof in
    match current_outer_frame nf with
    | Some frame => nested_step continue nf buf frame
    | None =>
        '(r, o, buf) ← next_frame (outer nf) buf is_eof;
        match r with
        | Err e => Some (Err e, with_outer nf o None, buf)
        | Ok None => Some (Ok None, with_outer nf o None, buf)
        | Ok (Some frame) => nested_step continue (with_outer nf o (Some frame)) buf frame
        end
    end
  end.

Definition NestedFramer_next_frame {B} `{ReadIoBuffer B} (nf : NestedFramer Inner Outer) (buf : B)
    (is_eof : bool) : frame_result (NestedFramer Inner Outer) B :=
  nested_loop (remaining buf + 2) nf buf is_eof.

#[export] Instance NestedFramer_Framer : Framer (NestedFramer Inner Outer) :=
  @NestedFramer_next_frame.
End nested.

(** [Framed::next]: the transposed result, [None] at the end of the iteration. *)
Definition Framed_next {F B} `{Framer F} `{ReadIoBuffer B} (framer : F) (buffer : B) (is_eof : bool) :
    option (option (result FramingError bytes) * F * B) :=
  '(r, framer, buffer) ← next_frame framer buffer is_eof;
  Some (match r with
        | Ok None => None
        | Ok (Some frame) => Some (Ok frame)
        | Err e => Some (Err e)
        end, framer, buffer).

(** A [for] loop over [Framed] that stops at the first error: the frames, how the loop ended
    ([Ok tt] when the iterator ran dry), and the framer and buffer it leaves. *)
Fixpoint framed_collect {F B} `{Framer F} `{ReadIoBuffer B} (fuel : nat) (framer : F) (buffer : B)
    (is_eof : bool) : option (list bytes * result FramingError unit * F * B) :=
  match fuel with
  | O => None
  | S fuel' =>
      '(r, framer, buffer) ← Framed_next framer buffer is_eof;
      match r with
      | None => Some ([], Ok tt, framer, buffer)
      | Some (Err e) => Some ([], Err e, framer, buffer)
      | Some (Ok frame) =>
          '(frames, st, framer, buffer) ← framed_collect fuel' framer buffer is_eof;
          Some (frame :: frames, st, framer, buffer)
      end
  end.
End framers.

(** ** Reference decoders *)

(** The newline-terminated lines of a byte string and what follows the last newline. *)
Fixpoint lines_of (l : bytes) : list bytes * bytes :=
  match l with
  | [] => ([], [])
  | c :: l' =>
      let '(fs, t) := lines_of l' in
      if bool_decide (c = newline) then ([] :: fs, t)
      else match fs with
           | [] => ([], c :: t)
           | f :: fs' => ((c :: f) :: fs', t)
           end
  end.

Definition encode_lines (fs : list bytes) : bytes := concat (map (fun f => f ++ [newline]) fs).

(** What the newline framer makes of an unterminated tail: the frames it adds, how the iteration
    ends, and the bytes it leaves. *)
Definition newline_tail (required is_eof : bool) (t : bytes) :
    list bytes * result FramingError unit * bytes :=
  match t with
  | [] => ([], Ok tt, [])
  | _ => if negb is_eof then ([], Ok tt, t)
         else if required then ([], Err (missing_delimiter_err (length t)), t)
         else ([t], Ok tt, [])
  end.

(** All inner frames of an outer frame, as the nested framer splits it. *)
Definition split_lines (l : bytes) : list bytes :=
  (lines_of l).1 ++ (newline_tail false true (lines_of l).2).1.1.

Definition encode_frame (f : bytes) : bytes := u32_to_le_bytes (Z.of_nat (length f)) ++ f.
Definition encode_frames (fs : list bytes) : bytes := concat (map encode_frame fs).

(** A frame the sender may send to a reader with a buffer of [cap] bytes. *)
Definition fits (cap : nat) (f : bytes) : Prop := length f + 4 <= cap /\ (Z.of_nat (length f) < 2 ^ 32)%Z.

(** A prefix of a frame that fits: not enough bytes yet. *)
Definition incomplete (cap : nat) (l : bytes) : Prop :=
  length l < 4 \/
  (le_to_Z (take 4 l) + 4 <= Z.of_nat cap /\ Z.of_nat (length l) < le_to_Z (take 4 l) + 4)%Z.

(** ** Lemmas on buffers *)

#[export] Instance Bytes_BufferLaws : BufferLaws bytes.
Proof.
  refine {| buf_ok := fun _ => True |}; [done|..]; intros n bf _ Hn; simpl in *;
    rewrite (proj2 (Nat.leb_le _ _) Hn); eauto.
Defined.

Lemma BytesBuffer_advance_ok n v :
  BytesBuffer_ok v -> n <= length (BytesBuffer_chunk v) ->
  exists v', BytesBuffer_advance n v = Some v' /\
             BytesBuffer_chunk v' = drop n (BytesBuffer_chunk v) /\ BytesBuffer_ok v'.
Proof.
  unfold BytesBuffer_ok, BytesBuffer_chunk, BytesBuffer_advance. rewrite length_drop. intros Hok Hn.
  rewrite (proj2 (Nat.leb_le _ _)) by lia. eexists. split; [done|]. simpl.
  rewrite drop_drop. split; [done|lia].
Qed.

#[export] Instance BytesBuffer_BufferLaws : BufferLaws FixedSizeVec.
Proof.
  refine {| buf_ok := BytesBuffer_ok |}.
  - intros v _. simpl. unfold BytesBuffer_remaining, BytesBuffer_chunk. by rewrite length_drop.
  - apply BytesBuffer_advance_ok.
  - intros n v Hok Hn. destruct (BytesBuffer_advance_ok n v Hok Hn) as (v' & E & ? & ?).
    exists v'. simpl. rewrite E. done.
Defined.

#[export] Instance BytesBuffer_FixedCapacity : FixedCapacity FixedSizeVec.
Proof.
  split; [intros n v x v'|intros n v v']; simpl; unfold BytesBuffer_advance; case_match;
    simpl; by intros [=]; subst.
Qed.

Lemma copy_within_front_suffix k l :
  k <= length l ->
  take (length l - k) (copy_within_front k (length l) l) = drop k l.
Proof.
  intros Hk. unfold copy_within_front.
  rewrite (take_ge (drop k l)) by (rewrite length_drop; lia).
  rewrite take_app_le by (rewrite length_drop; lia).
  by rewrite take_ge by (rewrite length_drop; lia).
Qed.

(** ** Lemmas on the newline framer *)

Lemma lines_of_spec l :
  let '(fs, t) := lines_of l in
  l = encode_lines fs ++ t /\ Forall (fun f => newline ∉ f) fs /\ newline ∉ t.
Proof.
  induction l as [|c l IH]; simpl; [by split_and!; auto using not_elem_of_nil|].
  destruct (lines_of l) as [fs t]. destruct IH as (-> & Hfs & Ht).
  case_bool_decide as Hc; [subst; split_and!; auto using not_elem_of_nil, Forall_cons_2|].
  destruct fs as [|f fs]; simpl.
  - split_and!; auto. rewrite not_elem_of_cons; auto.
  - apply Forall_cons_1 in Hfs as [Hf Hfs]. split_and!; auto.
    constructor; [|done]. rewrite not_elem_of_cons; auto.
Qed.

Section framer_lemmas.
Context `{Memchr} {B : Type} `{BL : BufferLaws B}.
Implicit Types bf : B.

Lemma newline_next_found (f : NewlineFramer) bf eof l1 l2 :
  buf_ok bf -> chunk bf = l1 ++ newline :: l2 -> newline ∉ l1 ->
  exists bf', next_frame f bf eof = Some (Ok (Some l1), f, bf') /\ chunk bf' = l2 /\ buf_ok bf'.
Proof.
  intros Hok Hch Hni. unfold next_frame, NewlineFramer_Framer, NewlineFramer_next_frame, find_newline.
  destruct (copy_chunk (length l1) bf Hok) as (bf1 & E1 & Hc1 & Hok1);
    [rewrite Hch, length_app; lia|].
  rewrite Hch, take_app_length in E1. rewrite Hch, drop_app_length in Hc1.
  destruct (advance_chunk 1 bf1 Hok1) as (bf2 & E2 & Hc2 & Hok2); [rewrite Hc1; simpl; lia|].
  rewrite Hc1 in Hc2. exists bf2. split_and!; [|done|done].
  destruct (chunk bf) eqn:E; [by destruct l1|]. rewrite Hch, memchr_app by done.
  rewrite E1. simpl. by rewrite E2.
Qed.

Lemma newline_next_missing (f : NewlineFramer) bf eof :
  buf_ok bf -> newline ∉ chunk bf ->
  exists bf', buf_ok bf' /\
    let '(fs, st, rest) := newline_tail (required_on_eof f) eof (chunk bf) in
    chunk bf' = rest /\
    next_frame f bf eof =
      Some (match fs, st with
            | [fr], _ => Ok (Some fr) | _, Ok _ => Ok None | _, Err e => Err e end, f, bf').
Proof.
  intros Hok Hni. unfold next_frame, NewlineFramer_Framer, NewlineFramer_next_frame, find_newline.
  rewrite memchr_not_elem by done. unfold newline_tail.
  destruct (chunk bf) as [|c l] eqn:E; [by exists bf|].
  destruct eof; simpl; [|by exists bf]. destruct (required_on_eof f); [by exists bf|].
  destruct (copy_chunk (length (c :: l)) bf Hok) as (bf' & E1 & Hc & Hok'); [by rewrite E|].
  rewrite E, take_ge in E1 by done. rewrite E, drop_ge in Hc by done.
  exists bf'. simpl in E1. by rewrite E1.
Qed.

Lemma framed_collect_cons {F} `{Framer F} fuel (f f' : F) bf bf' eof fr :
  next_frame f bf eof = Some (Ok (Some fr), f', bf') ->
  framed_collect (S fuel) f bf eof =
    ('(frames, st, framer, buffer) ← framed_collect fuel f' bf' eof;
     Some (fr :: frames, st, framer, buffer)).
Proof. intros E. simpl. unfold Framed_next. by rewrite E. Qed.

Lemma framed_collect_stop {F} `{Framer F} fuel (f f' : F) bf bf' eof r :
  next_frame f bf eof = Some (r, f', bf') ->
  match r with Ok (Some _) => False | _ => True end ->
  framed_collect (S fuel) f bf eof =
    Some ([], match r with Err e => Err e | _ => Ok tt end, f', bf').
Proof. intros E Hr. simpl. unfold Framed_next. rewrite E. by destruct r as [[|]|]. Qed.

Lemma newline_collect_capacity `{!FixedCapacity B} fuel (f f' : NewlineFramer) bf bf' eof fs st :
  framed_collect fuel f bf eof = Some (fs, st, f', bf') -> capacity bf' = capacity bf.
Proof.
  revert f bf fs. induction fuel as [|fuel IH]; intros f bf fs E; simpl in E; [done|].
  unfold Framed_next in E.
  destruct (next_frame f bf eof) as [[[r f1] bf1]|] eqn:En; simpl in E; [|done].
  assert (capacity bf1 = capacity bf) as Hcap.
  { unfold next_frame, NewlineFramer_Framer, NewlineFramer_next_frame in En.
    repeat (case_match; simplify_option_eq; try done);
      repeat match goal with
      | H : copy_to_bytes _ _ = _ |- _ => apply copy_capacity in H
      | H : advance _ _ = _ |- _ => apply advance_capacity in H
      end; congruence. }
  destruct r as [[fr|]|e]; simpl in E; [|by simplify_eq..].
  destruct (framed_collect fuel f1 bf1 eof) as [[[[fs1 st1] f2] bf2]|] eqn:Ec; simplify_eq/=.
  rewrite <- Hcap. by eapply IH.
Qed.

#[local] Arguments framed_collect : simpl never.

Lemma newline_collect_tail (f : NewlineFramer) bf eof fuel :
  buf_ok bf -> newline ∉ chunk bf -> 2 <= fuel ->
  let '(fs, st, rest) := newline_tail (required_on_eof f) eof (chunk bf) in
  exists bf', framed_collect fuel f bf eof = Some (fs, st, f, bf') /\ chunk bf' = rest /\ buf_ok bf'.
Proof.
  intros Hok Hni Hfuel. destruct fuel as [|[|fuel]]; [lia..|].
  destruct (newline_next_missing f bf eof Hok Hni) as (bf' & Hok' & Hn).
  unfold newline_tail in *. destruct (chunk bf) as [|c l] eqn:E; [|destruct eof; simpl in Hn|..].
  - exists bf'. destruct Hn as [? Hn]. by erewrite framed_collect_stop by done.
  - destruct (required_on_eof f) eqn:Er; destruct Hn as [Hc Hn]; simpl.
    + exists bf'. by erewrite framed_collect_stop by done.
    + destruct (newline_next_missing f bf' true Hok') as (bf2 & Hok2 & Hn2);
        [rewrite Hc; apply not_elem_of_nil|].
      rewrite Hc in Hn2. simpl in Hn2. destruct Hn2 as [Hc2 Hn2]. exists bf2.
      erewrite framed_collect_cons by done. by erewrite framed_collect_stop by done.
  - destruct Hn as [? Hn]. exists bf'. by erewrite framed_collect_stop by done.
Qed.

Lemma newline_collect (f : NewlineFramer) bf eof fs t fuel :
  buf_ok bf -> chunk bf = encode_lines fs ++ t ->
  Forall (fun f => newline ∉ f) fs -> newline ∉ t -> length fs + 2 <= fuel ->
  let '(extra, st, rest) := newline_tail (required_on_eof f) eof t in
  exists bf', framed_collect fuel f bf eof = Some (fs ++ extra, st, f, bf') /\
              chunk bf' = rest /\ buf_ok bf'.
Proof.
  revert bf fuel. induction fs as [|fr fs IH]; intros bf fuel Hok Hch Hfs Ht Hfuel; simpl in *.
  - pose proof (newline_collect_tail f bf eof fuel Hok) as Hx. rewrite Hch in Hx. exact (Hx Ht Hfuel).
  - destruct fuel as [|fuel]; [lia|]. apply Forall_cons_1 in Hfs as [Hfr Hfs].
    destruct (newline_next_found f bf eof fr (encode_lines fs ++ t) Hok) as (bf1 & En & Hc1 & Hok1);
      [by rewrite Hch; unfold encode_lines; simpl; rewrite <- !app_assoc|done|].
    specialize (IH bf1 fuel Hok1 Hc1 Hfs Ht ltac:(lia)).
    destruct (newline_tail (required_on_eof f) eof t) as [[extra st] rest].
    destruct IH as (bf' & E & ?). exists bf'. erewrite framed_collect_cons by done.
    by rewrite E.
Qed.

(** ** Lemmas on the length-delimited framer *)

Lemma le_to_Z_bound l : (le_to_Z l < 256 ^ Z.of_nat (length l))%Z.
Proof.
  induction l as [|c l IH]; [done|]. cbn [le_to_Z length].
  rewrite Nat2Z.inj_succ, Z.pow_succ_r by lia. pose proof (byte_Z_bounds c). lia.
Qed.

Lemma take4_bound l : (0 <= le_to_Z (take 4 l) < 2 ^ 32)%Z.
Proof.
  split; [apply le_to_Z_nonneg|]. eapply Z.lt_le_trans; [apply le_to_Z_bound|].
  change (2 ^ 32)%Z with (256 ^ 4)%Z. apply Z.pow_le_mono_r; [lia|].
  rewrite length_take. lia.
Qed.

Lemma u32_plus_4 z : (0 <= z < 2 ^ 32 -> u64_saturating_add z 4 = z + 4)%Z.
Proof. unfold saturating_add, umax. lia. Qed.

Definition needed (l : bytes) : Z :=
  if length l <? 4 then 4 else (le_to_Z (take 4 l) + 4)%Z.

(** How the iteration ends on the bytes of an unfinished frame. *)
Definition ld_status (eof : bool) (p : bytes) : result FramingError unit :=
  match p with
  | [] => Ok tt
  | _ => if eof then Err (PartialFrame (needed p) (Z.of_nat (length p))) else Ok tt
  end.

Lemma encode_frame_header fr l :
  (Z.of_nat (length fr) < 2 ^ 32)%Z ->
  le_to_Z (take 4 (encode_frame fr ++ l)) = Z.of_nat (length fr).
Proof.
  intros Hl. unfold encode_frame. rewrite <- app_assoc.
  rewrite take_app_length' by (symmetry; apply length_Z_to_le).
  unfold u32_to_le_bytes. apply le_to_Z_to_le. simpl. lia.
Qed.

Lemma length_encode_frame fr : length (encode_frame fr) = length fr + 4.
Proof. unfold encode_frame. rewrite length_app. unfold u32_to_le_bytes. rewrite length_Z_to_le. lia. Qed.

Lemma ld_next_frame bf eof fr l2 :
  buf_ok bf -> chunk bf = encode_frame fr ++ l2 -> fits (capacity bf) fr ->
  exists bf', next_frame LengthDelimited bf eof = Some (Ok (Some fr), LengthDelimited, bf') /\
    chunk bf' = l2 /\ buf_ok bf' /\
    exists x, copy_to_bytes (length fr + 4) bf = Some (x, bf').
Proof.
  intros Hok Hch [Hcap Hlen].
  destruct (copy_chunk (length fr + 4) bf Hok) as (bf' & E & Hc & Hok');
    [rewrite Hch, length_app, length_encode_frame; lia|].
  rewrite Hch, take_app_length' in E by (by rewrite length_encode_frame).
  rewrite Hch, drop_app_length' in Hc by (by rewrite length_encode_frame).
  exists bf'. split_and!; [|done|done|by eauto].
  unfold next_frame, LengthDelimitedFramer_Framer, LengthDelimitedFramer_next_frame.
  destruct (chunk bf) eqn:Ec.
  { apply (f_equal length) in Hch. rewrite length_app, length_encode_frame in Hch. simpl in Hch. lia. }
  rewrite Hch, encode_frame_header, u32_plus_4 by lia.
  rewrite length_app, length_encode_frame.
  rewrite (proj2 (Z.ltb_ge _ _)) by lia.
  replace (Z.of_nat (length fr) + 4 >? Z.of_nat (capacity bf))%Z with false
    by (symmetry; rewrite Z.gtb_ltb; apply Z.ltb_ge; lia).
  rewrite (proj2 (Z.ltb_ge _ _)) by lia.
  replace (Z.to_nat (Z.of_nat (length fr) + 4)) with (length fr + 4) by lia.
  rewrite E. cbn -[drop encode_frame]. unfold encode_frame. by rewrite drop_app_length' by (symmetry; apply length_Z_to_le).
Qed.

Lemma ld_next_incomplete bf eof :
  incomplete (capacity bf) (chunk bf) ->
  next_frame LengthDelimited bf eof =
    Some (match ld_status eof (chunk bf) with Ok _ => Ok None | Err e => Err e end,
          LengthDelimited, bf).
Proof.
  intros Hinc. unfold next_frame, LengthDelimitedFramer_Framer, LengthDelimitedFramer_next_frame,
    ld_status, needed.
  destruct (chunk bf) as [|c l] eqn:Ec; [done|]. pose proof (take4_bound (c :: l)) as Hb.
  rewrite u32_plus_4 by done.
  destruct (length (c :: l) <? 4) eqn:E4.
  - apply Nat.ltb_lt in E4. rewrite (proj2 (Z.ltb_lt _ _)) by lia. by destruct eof.
  - apply Nat.ltb_ge in E4. rewrite (proj2 (Z.ltb_ge _ _)) by lia.
    destruct Hinc as [?|[? ?]]; [lia|].
    replace (le_to_Z (take 4 (c :: l)) + 4 >? Z.of_nat (capacity bf))%Z with false
      by (symmetry; rewrite Z.gtb_ltb; apply Z.ltb_ge; lia).
    rewrite (proj2 (Z.ltb_lt _ _)) by lia. by destruct eof.
Qed.

Lemma ld_collect `{!FixedCapacity B} bf eof fs p fuel :
  buf_ok bf -> chunk bf = encode_frames fs ++ p ->
  Forall (fits (capacity bf)) fs -> incomplete (capacity bf) p -> length fs + 1 <= fuel ->
  exists bf', framed_collect fuel LengthDelimited bf eof =
                Some (fs, ld_status eof p, LengthDelimited, bf') /\ chunk bf' = p /\ buf_ok bf'.
Proof.
  revert bf fuel. induction fs as [|fr fs IH]; intros bf fuel Hok Hch Hfs Hp Hfuel; simpl in *;
    (destruct fuel as [|fuel]; [lia|]).
  - exists bf. split_and!; [|done|done]. rewrite <- Hch in Hp.
    erewrite framed_collect_stop; [|by apply ld_next_incomplete|].
    + rewrite Hch. unfold ld_status. by destruct p, eof.
    + unfold ld_status. by destruct (chunk bf), eof.
  - apply Forall_cons_1 in Hfs as [Hfr Hfs].
    destruct (ld_next_frame bf eof fr (encode_frames fs ++ p) Hok) as (bf1 & En & Hc1 & Hok1 & x & Hx);
      [by rewrite Hch; unfold encode_frames; simpl; rewrite <- !app_assoc|done|].
    rewrite <- (copy_capacity _ _ _ _ Hx) in Hfs, Hp.
    destruct (IH bf1 fuel) as (bf' & E & ?); [done..|lia|].
    exists bf'. erewrite framed_collect_cons by done. by rewrite E.
Qed.
End framer_lemmas.

(** ** Progress: what a framer promises to the loops that drive it *)

(** A call returns, leaves a sound buffer that is no longer than before, and strictly shorter when
    a frame came out of it. *)
Class FramerProgress (F B : Type) `{Framer F} `{BufferLaws B} :=
  framer_progress : forall (f : F) (bf : B) eof, buf_ok bf ->
    exists r f' bf', next_frame f bf eof = Some (r, f', bf') /\ buf_ok bf' /\
      remaining bf' <= remaining bf /\
      (forall fr, r = Ok (Some fr) -> remaining bf' < remaining bf).

Section progress.
Context `{Memchr} {B : Type} `{BL : BufferLaws B}.

#[export] Instance NewlineFramer_progress : FramerProgress NewlineFramer B.
Proof.
  intros f bf eof Hok. destruct (decide (newline ∈ chunk bf)) as [Hin|Hni].
  - destruct (list_elem_of_split_l _ _ Hin) as (l1 & l2 & Hch & Hl1).
    destruct (newline_next_found f bf eof l1 l2 Hok Hch Hl1) as (bf' & E & Hc & Hok').
    exists (Ok (Some l1)), f, bf'.
    rewrite !remaining_chunk, Hch, Hc, length_app by done. simpl. split_and!; auto; lia.
  - destruct (newline_next_missing f bf eof Hok Hni) as (bf' & Hok' & Hn). unfold newline_tail in Hn.
    rewrite !remaining_chunk by done.
    destruct (chunk bf) as [|c l]; [|destruct eof, (required_on_eof f)]; simpl in Hn;
      destruct Hn as [Hc Hn]; eexists _, f, bf'; rewrite !remaining_chunk, Hc by done;
      simpl; split_and!; eauto; try lia; intros ? [=].
Qed.

#[export] Instance LengthDelimitedFramer_progress : FramerProgress LengthDelimitedFramer B.
Proof.
  intros [] bf eof Hok.
  unfold next_frame, LengthDelimitedFramer_Framer, LengthDelimitedFramer_next_frame.
  destruct (chunk bf) as [|c l] eqn:Ec; [by eexists _, _, bf|].
  pose proof (take4_bound (c :: l)) as Hb. rewrite u32_plus_4 by done.
  set (n := le_to_Z (take 4 (c :: l))) in *.
  destruct (Z.of_nat (length (c :: l)) <? 4)%Z; [by destruct eof; eexists _, _, bf|].
  destruct (n + 4 >? Z.of_nat (capacity bf))%Z; [by eexists _, _, bf|].
  destruct (Z.of_nat (length (c :: l)) <? n + 4)%Z eqn:E3; [by destruct eof; eexists _, _, bf|].
  bool_cases. destruct (copy_chunk (Z.to_nat (n + 4)) bf Hok) as (bf' & E & Hc & Hok');
    [rewrite Ec; lia|].
  rewrite E. eexists _, _, bf'. rewrite !remaining_chunk, Hc, Ec, length_drop by done.
  split_and!; [done..|lia|]. intros. change (length (c :: l)) with (S (length l)). lia.
Qed.
End progress.

(** ** Lemmas on the nested framer *)

Section nested_progress.
Context {Inner Outer B : Type} `{!Framer Inner} `{!Framer Outer} `{BL : BufferLaws B}
  `{!FramerProgress Inner bytes} `{!FramerProgress Outer B}.
Implicit Types nf : NestedFramer Inner Outer.

(** The iterations the loop may need. *)
Definition loop_bound nf (bf : B) : nat :=
  remaining bf + match current_outer_frame nf with Some _ => 2 | None => 1 end.

Lemma nested_step_total (continue : NestedFramer Inner Outer -> B -> frame_result _ B) nf bf fr n :
  buf_ok bf -> remaining bf <= n ->
  (forall nf', current_outer_frame nf' = None -> exists r nf'' bf',
     continue nf' bf = Some (r, nf'', bf') /\ buf_ok bf' /\ remaining bf' <= n) ->
  exists r nf' bf', nested_step continue nf bf fr = Some (r, nf', bf') /\ buf_ok bf' /\
    remaining bf' <= n.
Proof.
  intros Hok Hn Hcont. unfold nested_step.
  destruct (framer_progress (inner nf) fr true) as (r & i & rest & E & _); [done|].
  rewrite E. simpl. destruct r as [[frame|]|e]; [by eauto 10| |by eauto 10].
  destruct (is_nil rest); [|by eauto 10]. destruct (negb _); [|by eauto 10].
  by apply Hcont.
Qed.

Lemma nested_loop_total fuel nf bf eof :
  buf_ok bf -> loop_bound nf bf <= fuel ->
  exists r nf' bf', nested_loop fuel nf bf eof = Some (r, nf', bf') /\ buf_ok bf' /\
    remaining bf' <= remaining bf.
Proof.
  revert nf bf. induction fuel as [|fuel IH]; intros nf bf Hok Hb;
    unfold loop_bound in Hb; [destruct (current_outer_frame nf); lia|].
  assert (Hcont : forall n bf0 nf', buf_ok bf0 -> remaining bf0 <= n -> remaining bf0 + 1 <= fuel ->
    current_outer_frame nf' = None -> exists r nf'' bf',
     nested_loop fuel nf' bf0 eof = Some (r, nf'', bf') /\ buf_ok bf' /\ remaining bf' <= n).
  { intros n bf0 nf' Hok0 Hn Hf Hc. destruct (IH nf' bf0 Hok0) as (r & nf'' & bf' & E & ? & ?);
      [unfold loop_bound; rewrite Hc; lia|]. eexists _, _, _. split_and!; eauto; lia. }
  simpl. destruct (current_outer_frame nf) as [fr|].
  { apply nested_step_total; [done..|]. intros. apply Hcont; [done..|lia|done]. }
  destruct (framer_progress (outer nf) bf eof Hok) as (r & o & bf1 & E & Hok1 & Hle & Hlt).
  rewrite E. simpl. destruct r as [[frame|]|e]; [|by eauto 10..].
  specialize (Hlt frame eq_refl). apply nested_step_total; [done|lia|].
  intros. apply Hcont; [done|lia..|done].
Qed.
End nested_progress.

Section nested_lines.
Context `{Memchr} {B : Type} `{BL : BufferLaws B} `{!FixedCapacity B}.

Abbreviation DogStatsDFramer := (NestedFramer NewlineFramer LengthDelimitedFramer).
Implicit Types nf : DogStatsDFramer.

Lemma lines_of_app l1 l2 :
  newline ∉ l1 -> lines_of (l1 ++ newline :: l2) = (l1 :: (lines_of l2).1, (lines_of l2).2).
Proof.
  intros Hni. induction l1 as [|c l1 IH]; simpl.
  - by destruct (lines_of l2).
  - apply not_elem_of_cons in Hni as [Hc Hni]. rewrite IH by done. simpl.
    by rewrite bool_decide_eq_false_2.
Qed.

Lemma lines_of_missing l : newline ∉ l -> lines_of l = ([], l).
Proof.
  induction l as [|c l IH]; [done|]. intros [Hc Hni]%not_elem_of_cons. simpl.
  by rewrite IH, bool_decide_eq_false_2.
Qed.

(** The inner framer takes the lines of an outer frame off one by one. *)
Lemma newline_split_step (f : NewlineFramer) (l : bytes) :
  required_on_eof f = false ->
  exists rest : bytes,
    next_frame f l true = Some (Ok (head (split_lines l)), f, rest) /\
    split_lines rest = tail (split_lines l) /\ (l = [] -> rest = []).
Proof.
  intros Hf. destruct (decide (newline ∈ l)) as [Hin|Hni].
  - destruct (list_elem_of_split_l _ _ Hin) as (l1 & l2 & -> & Hl1).
    destruct (newline_next_found f (l1 ++ newline :: l2) true l1 l2) as (rest & E & Hc & _); [done..|].
    simpl in Hc; subst rest. exists l2. unfold split_lines. rewrite lines_of_app by done. simpl.
    split_and!; [done..|]. by destruct l1.
  - destruct (newline_next_missing f l true) as (rest & _ & E); [done..|].
    rewrite Hf in E. unfold split_lines. rewrite lines_of_missing by done. simpl in E |- *.
    destruct l; simpl in E; destruct E as [-> E]; exists []; done.
Qed.

Lemma split_lines_nil l : split_lines l = [] -> l = [].
Proof.
  unfold split_lines. pose proof (lines_of_spec l) as Hl. destruct (lines_of l) as [fs t].
  destruct Hl as (-> & _ & _). destruct fs; [|done]. by destruct t.
Qed.

(** The inner frames that are still to come. *)
Definition pending (nf : DogStatsDFramer) (os : list bytes) : list bytes :=
  match current_outer_frame nf with Some l => split_lines l | None => [] end ++
  concat (map split_lines os).

(** How the framer and the buffer represent a stream of which the outer frames [os] and the
    unfinished bytes [p] are unread, where [total] outer frames are complete and [kept] ones are
    retained at the end. *)
Record nested_rep (cap : nat) (p : bytes) (total : Z) (kept : list bytes)
    (nf : DogStatsDFramer) (bf : B) (os : list bytes) : Prop := {
  nr_buf : buf_ok bf;
  nr_cap : capacity bf = cap;
  nr_chunk : chunk bf = encode_frames os ++ p;
  nr_fits : Forall (fits cap) os;
  nr_inner : required_on_eof (inner nf) = false;
  nr_count : is_u64 (completed_outer_frames nf);
  nr_total : u64_add (completed_outer_frames nf)
               (Z.of_nat (length os + match current_outer_frame nf with Some _ => 1 | None => 0 end))
             = total;
  nr_kept : retained_outer_frames nf ++ (if retain_outer_frames nf then os else []) = kept;
}.

Lemma nested_step_rep cap p total kept continue nf bf os l :
  nested_rep cap p total kept nf bf os -> current_outer_frame nf = Some l ->
  exists nf',
    nested_rep cap p total kept nf' bf os /\
    pending nf' os = tail (split_lines l) ++ concat (map split_lines os) /\
    match split_lines l with
    | fr :: _ => nested_step continue nf bf l = Some (Ok (Some fr), nf', bf)
    | [] => current_outer_frame nf' = None /\
            nested_step continue nf bf l =
              if negb (remaining bf =? 0) then continue nf' bf else Some (Ok None, nf', bf)
    end.
Proof.
  intros [] Hc. destruct (newline_split_step (inner nf) l) as (rest & E & Hsp & Hnil); [done|].
  rewrite Hc in *.
  assert (Hrep : forall i close, required_on_eof i = false ->
            nested_rep cap p total kept (with_inner nf i rest close) bf os).
  { intros i close Hi. destruct close; split; simpl; rewrite ?Nat.add_0_r; try done.
    - by apply wrap_range.
    - rewrite <- nr_total0. rewrite wrapping_add_assoc. f_equal. lia. }
  unfold nested_step. rewrite E. simpl. destruct (split_lines l) as [|fr frs] eqn:El; simpl.
  - pose proof (split_lines_nil l El) as ->. rewrite Hnil by done. simpl.
    exists (with_inner nf (inner nf) [] true). rewrite Hnil in Hrep by done. split_and!; eauto.
  - exists (with_inner nf (inner nf) rest (is_nil rest)). split_and!; [by auto| |done].
    simpl in Hsp. unfold pending. simpl. destruct rest; simpl in *; [by rewrite <- Hsp|by rewrite Hsp].
Qed.
Lemma length_encode_frames os : length os <= length (encode_frames os).
Proof.
  induction os as [|o os IH]; [done|]. unfold encode_frames in *. cbn [map concat length].
  rewrite length_app, length_encode_frame. lia.
Qed.

(** One call of [next_frame] yields the next inner frame of the stream, or nothing when only the
    unfinished bytes are left. *)
Lemma nested_loop_rep cap p total kept fuel nf bf os :
  nested_rep cap p total kept nf bf os -> incomplete cap p -> outer nf = LengthDelimited ->
  length os + 2 <= fuel + match current_outer_frame nf with Some _ => 0 | None => 1 end ->
  exists nf' bf' os',
    nested_rep cap p total kept nf' bf' os' /\
    nested_loop fuel nf bf false = Some (Ok (head (pending nf os)), nf', bf') /\
    pending nf' os' = tail (pending nf os) /\
    (pending nf os = [] -> current_outer_frame nf' = None /\ os' = []).
Proof.
  intros Hrep Hp Ho. revert nf bf os Hrep Ho.
  induction fuel as [|fuel IH]; intros nf bf os Hrep Ho Hfuel;
    [destruct (current_outer_frame nf); lia|].
  (* the step on a current outer frame [l] *)
  assert (Hstep : forall nf bf os l, nested_rep cap p total kept nf bf os -> length os + 1 <= fuel ->
    current_outer_frame nf = Some l -> exists nf' bf' os',
    nested_rep cap p total kept nf' bf' os' /\
    nested_step (fun nf bf => nested_loop fuel nf bf false) nf bf l =
      Some (Ok (head (pending nf os)), nf', bf') /\
    pending nf' os' = tail (pending nf os) /\
    (pending nf os = [] -> current_outer_frame nf' = None /\ os' = [])).
  { clear nf bf os Hrep Ho Hfuel. intros nf bf os l Hrep Hf Hc.
    destruct (nested_step_rep _ _ _ _ (fun nf bf => nested_loop fuel nf bf false) _ _ _ _ Hrep Hc)
      as (nf1 & Hrep1 & Hpend & Hst).
    unfold pending at 1 3 4. rewrite Hc. destruct (split_lines l) as [|fr frs]; simpl in *.
    - destruct Hst as [Hc1 Hst]. rewrite Hst. destruct (negb _) eqn:Erem.
      + destruct (IH nf1 bf os Hrep1) as (nf' & bf' & os' & ? & E & Hpe & Hend);
          [by destruct (outer nf1)|rewrite Hc1; lia|].
        rewrite Hpend in E, Hpe, Hend. by exists nf', bf', os'.
      + apply negb_false_iff, Nat.eqb_eq in Erem. destruct Hrep1.
        rewrite remaining_chunk, nr_chunk0, length_app in Erem by done.
        destruct os as [|o os]; [|pose proof (length_encode_frames (o :: os)); simpl in *; lia].
        exists nf1, bf, []. split_and!; [by split|done..].
    - exists nf1, bf, os. by split_and!. }
  simpl. destruct (current_outer_frame nf) as [l|] eqn:Ec; [apply Hstep; [done|lia|done]|].
  rewrite Ho. destruct os as [|o os].
  - destruct Hrep. simpl in *.
    rewrite ld_next_incomplete by (by rewrite nr_chunk0, nr_cap0).
    exists (with_outer nf LengthDelimited None), bf, []. unfold pending. rewrite Ec. simpl.
    rewrite nr_chunk0. split_and!; [split; simpl; try done; by rewrite Ec in nr_total0| |done..].
    unfold ld_status. by destruct p.
  - destruct (Hrep). apply Forall_cons_1 in nr_fits0 as [Hfit Hfits].
    destruct (ld_next_frame bf false o (encode_frames os ++ p)) as (bf1 & E & Hc1 & Hok1 & x & Hx);
      [done|by rewrite nr_chunk0; unfold encode_frames; simpl; rewrite <- app_assoc|by rewrite nr_cap0|].
    rewrite E. simpl.
    destruct (Hstep (with_outer nf LengthDelimited (Some o)) bf1 os o) as (nf' & bf' & os' & ? & E' & ? & ?);
      [|simpl in *; lia|done|].
    { split; simpl; try done; [by rewrite (copy_capacity _ _ _ _ Hx)| |].
      - rewrite Ec in nr_total0. rewrite <- nr_total0. do 2 f_equal. simpl. lia.
      - rewrite <- nr_kept0. destruct (retain_outer_frames nf); [|done]. by rewrite <- app_assoc. }
    exists nf', bf', os'. rewrite E'. unfold pending in *. rewrite Ec. by simpl in *.
Qed.

Lemma nested_collect_rep cap p total kept fuel nf bf os :
  nested_rep cap p total kept nf bf os -> incomplete cap p ->
  length (pending nf os) + 1 <= fuel ->
  exists nf' bf',
    framed_collect fuel nf bf false = Some (pending nf os, Ok tt, nf', bf') /\
    nested_rep cap p total kept nf' bf' [] /\ current_outer_frame nf' = None.
Proof.
  intros Hrep Hp. remember (pending nf os) as fs eqn:Hfs.
  revert fuel nf bf os Hrep Hfs. induction fs as [|fr fs IH]; intros fuel nf bf os Hrep Hfs Hfuel;
    (destruct fuel as [|fuel]; [simpl in Hfuel; lia|]);
    destruct (nested_loop_rep cap p total kept (remaining bf + 2) nf bf os Hrep Hp)
      as (nf' & bf' & os' & Hrep' & E & Hpe & Hend); try (by destruct (outer nf));
    try (destruct Hrep; rewrite remaining_chunk, nr_chunk0, length_app by done;
         pose proof (length_encode_frames os); lia);
    rewrite <- Hfs in E, Hpe, Hend; simpl in E, Hpe.
  - destruct Hend as [Hc ->]; [done|]. exists nf', bf'. split_and!; [|done..].
    by erewrite framed_collect_stop by done.
  - destruct (IH fuel nf' bf' os' Hrep') as (nf2 & bf2 & E2 & ?); [done|simpl in *; lia|].
    exists nf2, bf2. erewrite framed_collect_cons by done. by rewrite E2.
Qed.
End nested_lines.

(** ** Lemmas on refilling a buffer *)

Lemma buffer_collapse_spec v :
  BytesBuffer_ok v ->
  BytesBuffer_ok (collapse v) /\ BytesBuffer_chunk (collapse v) = BytesBuffer_chunk v /\
  vec_capacity (collapse v) = vec_capacity v /\
  remaining_mut (collapse v) = vec_capacity v - length (BytesBuffer_chunk v).
Proof.
  unfold BytesBuffer_ok, collapse, remaining_mut, BytesBuffer_chunk, BytesBuffer_remaining. intros Hok.
  destruct (_ =? 0) eqn:E; simpl.
  - apply Nat.eqb_eq in E. rewrite drop_ge by lia. simpl. split_and!; lia || done.
  - rewrite copy_within_front_suffix, drop_0, length_drop by lia. split_and!; lia || done.
Qed.

Lemma put_slice_spec l v :
  BytesBuffer_ok v -> length l <= remaining_mut v ->
  exists v', put_slice l v = Some v' /\ BytesBuffer_ok v' /\
    BytesBuffer_chunk v' = BytesBuffer_chunk v ++ l /\ vec_capacity v' = vec_capacity v.
Proof.
  unfold BytesBuffer_ok, put_slice, remaining_mut, BytesBuffer_chunk. intros Hok Hl.
  rewrite (proj2 (Nat.leb_le _ _) Hl). eexists. split_and!; [done|..]; simpl; rewrite ?length_app; try lia.
  rewrite drop_app_le by lia. done.
Qed.

(** What [read from the socket, after making room] does to a buffer: the bytes [l] go behind the
    unread ones. *)
Definition refill (l : bytes) (v : FixedSizeVec) : option FixedSizeVec := put_slice l (collapse v).

Lemma refill_spec l v :
  BytesBuffer_ok v -> length (BytesBuffer_chunk v) + length l <= vec_capacity v ->
  exists v', refill l v = Some v' /\ BytesBuffer_ok v' /\
    BytesBuffer_chunk v' = BytesBuffer_chunk v ++ l /\ vec_capacity v' = vec_capacity v.
Proof.
  intros Hok Hl. destruct (buffer_collapse_spec v Hok) as (Hok' & Hc & Hcap & Hroom).
  destruct (put_slice_spec l (collapse v) Hok') as (v' & ? & ? & ? & ?); [lia|].
  exists v'. split_and!; [done..|by rewrite <- Hc|congruence].
Qed.

Lemma lines_of_app_tail l1 l2 :
  lines_of (l1 ++ l2) =
    ((lines_of l1).1 ++ (lines_of ((lines_of l1).2 ++ l2)).1, (lines_of ((lines_of l1).2 ++ l2)).2).
Proof.
  pose proof (lines_of_spec l1) as Hs. destruct (lines_of l1) as [fs t]. destruct Hs as (-> & Hfs & _).
  simpl. induction Hfs as [|f fs Hf Hfs IH]; simpl; [by destruct (lines_of (t ++ l2))|].
  unfold encode_lines in *. simpl.
  replace ((f ++ [newline]) ++ concat (map (fun f0 => f0 ++ [newline]) fs))
    with (f ++ newline :: concat (map (fun f0 => f0 ++ [newline]) fs)) by (by rewrite <- app_assoc).
  rewrite <- !app_assoc. simpl. rewrite lines_of_app by done. rewrite <- !app_assoc in IH.
  by rewrite IH.
Qed.

(** ** Theorems *)

Section theorems.
Context `{Memchr}.

(** Iterating the newline framer over a buffer yields exactly the newline-terminated lines of
    the buffered bytes, in order.  The unterminated tail is left in the buffer before the end of
    the input; at the end of the input it is one more frame, or, when the delimiter is required
    there, an error that leaves it unread. *)
Theorem newline_framer_lines {B} `{BufferLaws B} (f : NewlineFramer) (bf : B) eof fuel :
  buf_ok bf -> length (lines_of (chunk bf)).1 + 2 <= fuel ->
  let '(extra, st, rest) := newline_tail (required_on_eof f) eof (lines_of (chunk bf)).2 in
  exists bf', framed_collect fuel f bf eof = Some ((lines_of (chunk bf)).1 ++ extra, st, f, bf') /\
              chunk bf' = rest /\ buf_ok bf'.
Proof.
  intros Hok Hfuel. pose proof (lines_of_spec (chunk bf)) as Hl.
  destruct (lines_of (chunk bf)) as [fs t]. destruct Hl as (Hl & Hfs & Ht).
  by apply newline_collect.
Qed.

(** The length-delimited framer inverts the sender's encoding: over the frames [fs] followed by
    the unfinished bytes [p] it yields exactly [fs] and leaves [p]; at the end of the input a
    non-empty [p] is reported as a partial frame with the bytes needed and those present. *)
Theorem length_delimited_roundtrip {B} `{BufferLaws B} `{!FixedCapacity B} (bf : B) eof fs p fuel :
  buf_ok bf -> chunk bf = encode_frames fs ++ p ->
  Forall (fits (capacity bf)) fs -> incomplete (capacity bf) p -> length fs + 1 <= fuel ->
  exists bf', framed_collect fuel LengthDelimited bf eof =
                Some (fs, ld_status eof p, LengthDelimited, bf') /\ chunk bf' = p /\ buf_ok bf'.
Proof. apply ld_collect. Qed.

(** A length prefix that announces a frame larger than the buffer is refused at once, whatever
    follows it, and the buffer is left as it was. *)
Theorem length_delimited_oversized {B} `{BufferLaws B} (bf : B) eof :
  4 <= length (chunk bf) -> (Z.of_nat (capacity bf) < le_to_Z (take 4 (chunk bf)) + 4)%Z ->
  next_frame LengthDelimited bf eof =
    Some (Err (oversized_frame_err (le_to_Z (take 4 (chunk bf)))), LengthDelimited, bf).
Proof.
  intros H4 Hcap. unfold next_frame, LengthDelimitedFramer_Framer, LengthDelimitedFramer_next_frame.
  destruct (chunk bf) as [|c l] eqn:Ec; [simpl in H4; lia|].
  rewrite u32_plus_4 by apply take4_bound. rewrite (proj2 (Z.ltb_ge _ _)) by lia.
  rewrite Z.gtb_ltb, (proj2 (Z.ltb_lt _ _)) by lia. done.
Qed.

(** C29: The nested framer of the stream sockets (newline-delimited messages inside
    length-delimited frames) yields, for the outer frames [os], all their messages in order; it
    leaves the unfinished bytes in the buffer, counts every outer frame as completed, and has
    retained the outer frames in order exactly when retention is on. *)
Theorem nested_framer_messages {B} `{BufferLaws B} `{!FixedCapacity B}
    (nf : NestedFramer NewlineFramer LengthDelimitedFramer) (bf : B) os p fuel :
  buf_ok bf -> chunk bf = encode_frames os ++ p ->
  Forall (fits (capacity bf)) os -> incomplete (capacity bf) p ->
  required_on_eof (inner nf) = false -> current_outer_frame nf = None ->
  is_u64 (completed_outer_frames nf) -> length (concat (map split_lines os)) + 1 <= fuel ->
  exists nf' bf',
    framed_collect fuel nf bf false = Some (concat (map split_lines os), Ok tt, nf', bf') /\
    chunk bf' = p /\ current_outer_frame nf' = None /\
    completed_outer_frames nf' = u64_add (completed_outer_frames nf) (Z.of_nat (length os)) /\
    retained_outer_frames nf' = retained_outer_frames nf ++ (if retain_outer_frames nf then os else []).
Proof.
  intros Hok Hch Hos Hp Hi Hc Hcnt Hfuel.
  assert (Hpend : pending nf os = concat (map split_lines os)) by (unfold pending; by rewrite Hc).
  edestruct (nested_collect_rep (capacity bf) p) as (nf' & bf' & E & Hrep & Hc');
    [split; try done|done|by rewrite Hpend|].
  rewrite Hpend in E. exists nf', bf'. destruct Hrep. rewrite Hc, Hc' in *. simpl in *.
  assert (Hk : retained_outer_frames nf' = retained_outer_frames nf'
                ++ (if retain_outer_frames nf' then [] else [])) by (destruct (retain_outer_frames nf'); by rewrite app_nil_r).
  split_and!; try done; [|by rewrite Hk].
  rewrite Nat.add_0_r in *. rewrite <- nr_total0. unfold wrapping_add. rewrite Z.add_0_r.
  by rewrite wrap_small.
Qed.

(** C40: Whatever the bytes and whatever the two framers, as long as each of them makes progress, a
    call of the nested framer returns: its loop takes at most two more iterations than there are
    bytes in the buffer, never accesses past the end of a buffer, and never makes the buffer grow. *)
Theorem nested_framer_terminates {Inner Outer B} `{!Framer Inner} `{!Framer Outer} `{BL : BufferLaws B}
    `{!FramerProgress Inner bytes} `{!FramerProgress Outer B}
    (nf : NestedFramer Inner Outer) (bf : B) eof :
  buf_ok bf ->
  exists r nf' bf', NestedFramer_next_frame nf bf eof = Some (r, nf', bf') /\ buf_ok bf' /\
    remaining bf' <= remaining bf.
Proof.
  intros Hok. apply nested_loop_total; [done|]. unfold loop_bound.
  destruct (current_outer_frame nf); lia.
Qed.

(** The newline framer does not depend on how the stream is cut into reads: framing what has
    arrived, collapsing the buffer, appending the next read and framing again yields the same
    messages and the same leftover as framing the whole stream at once. *)
Theorem newline_framer_streaming (f : NewlineFramer) (v : FixedSizeVec) l fuel1 fuel2 :
  BytesBuffer_ok v ->
  length (lines_of (chunk v)).2 + length l <= vec_capacity v ->
  length (lines_of (chunk v)).1 + 2 <= fuel1 ->
  length (lines_of (chunk v ++ l)).1 + 2 <= fuel2 ->
  exists fs1 fs2 v1 v2 v3,
    framed_collect fuel1 f v false = Some (fs1, Ok tt, f, v1) /\
    refill l v1 = Some v2 /\
    framed_collect fuel2 f v2 false = Some (fs2, Ok tt, f, v3) /\
    fs1 ++ fs2 = (lines_of (chunk v ++ l)).1 /\ chunk v3 = (lines_of (chunk v ++ l)).2.
Proof.
  intros Hok Hroom Hf1 Hf2.
  assert (Hcollect : forall v fuel, BytesBuffer_ok v -> length (lines_of (chunk v)).1 + 2 <= fuel ->
    exists v', framed_collect fuel f v false = Some ((lines_of (chunk v)).1, Ok tt, f, v') /\
      chunk v' = (lines_of (chunk v)).2 /\ BytesBuffer_ok v').
  { intros w fuel Hw Hfuel. pose proof (lines_of_spec (chunk w)) as Hl.
    destruct (lines_of (chunk w)) as [fs t]. destruct Hl as (Hl & Hfs & Ht).
    pose proof (newline_collect f w false fs t fuel Hw Hl Hfs Ht Hfuel) as Hn.
    unfold newline_tail in Hn. by destruct t; simpl in Hn; rewrite app_nil_r in Hn. }
  destruct (Hcollect v fuel1 Hok Hf1) as (v1 & E1 & Hc1 & Hok1).
  destruct (refill_spec l v1 Hok1) as (v2 & E2 & Hok2 & Hc2 & _).
  { pose proof (newline_collect_capacity _ _ _ _ _ _ _ _ E1) as Hcap. simpl in *. by rewrite Hc1, Hcap. }
  simpl in *. rewrite Hc1 in Hc2.
  rewrite lines_of_app_tail in Hf2 |- *. simpl in *. rewrite length_app in Hf2. rewrite <- Hc2 in *.
  destruct (Hcollect v2 fuel2 Hok2) as (v3 & E3 & Hc3 & _); [lia|].
  by eexists _, _, v1, v2, v3.
Qed.
End theorems.

(** ** Witnesses *)

#[local] Existing Instance memchr_ref.

Definition example_buffer (l : bytes) : FixedSizeVec :=
  {| data := l; read_idx := 0; vec_capacity := 64 |}.

Definition two_lines : bytes := b "a:1|c" ++ [newline] ++ b "b:2|g" ++ [newline].

Lemma newline_framer_lines_witness :
  exists bf', framed_collect 4 {| required_on_eof := true |} (example_buffer (two_lines ++ b "c")) true =
    Some ([b "a:1|c"; b "b:2|g"], Err (missing_delimiter_err 1), {| required_on_eof := true |}, bf').
Proof.
  destruct (newline_framer_lines {| required_on_eof := true |} (example_buffer (two_lines ++ b "c")) true 4)
    as (bf' & E & _); [solve_by_compute..|]. exists bf'. exact E.
Defined.

Lemma length_delimited_roundtrip_witness :
  exists bf', framed_collect 3 LengthDelimited
      (example_buffer (encode_frames [two_lines; b "x"] ++ [x09; x00])) true =
    Some ([two_lines; b "x"], Err (PartialFrame 4 2), LengthDelimited, bf').
Proof.
  destruct (length_delimited_roundtrip
    (example_buffer (encode_frames [two_lines; b "x"] ++ [x09; x00])) true [two_lines; b "x"] [x09; x00] 3)
    as (bf' & E & _); [solve_by_compute|done|repeat constructor; solve_by_compute|left; solve_by_compute|
      solve_by_compute|].
  exists bf'. exact E.
Defined.

Lemma length_delimited_oversized_witness :
  next_frame LengthDelimited (example_buffer [x00; x00; x01; x00]) false =
    Some (Err (oversized_frame_err 65536), LengthDelimited, example_buffer [x00; x00; x01; x00]).
Proof.
  rewrite (length_delimited_oversized (example_buffer [x00; x00; x01; x00]) false) by solve_by_compute.
  by vm_compute.
Defined.

Definition example_nested : NestedFramer NewlineFramer LengthDelimitedFramer :=
  set_retain_outer_frames true (NestedFramer_new {| required_on_eof := false |} LengthDelimited).

Lemma nested_framer_messages_witness :
  exists nf' bf', framed_collect 4 example_nested
      (example_buffer (encode_frames [two_lines; []; b "x"] ++ [x09])) false =
    Some ([b "a:1|c"; b "b:2|g"; b "x"], Ok tt, nf', bf') /\
    completed_outer_frames nf' = 3%Z /\ retained_outer_frames nf' = [two_lines; []; b "x"].
Proof.
  destruct (nested_framer_messages example_nested
    (example_buffer (encode_frames [two_lines; []; b "x"] ++ [x09])) [two_lines; []; b "x"] [x09] 4)
    as (nf' & bf' & E & _ & _ & Hn & Hr);
    [solve_by_compute|done|repeat constructor; solve_by_compute|left; solve_by_compute|done|done|
     solve_by_compute|solve_by_compute|].
  exists nf', bf'. split; [exact E|]. split; [exact Hn|exact Hr].
Defined.

Lemma nested_framer_terminates_witness :
  exists r nf' bf',
    NestedFramer_next_frame example_nested (example_buffer (encode_frames [[]; []])) false =
      Some (r, nf', bf').
Proof.
  destruct (nested_framer_terminates example_nested (example_buffer (encode_frames [[]; []])) false)
    as (r & nf' & bf' & E & _); [solve_by_compute|]. eauto.
Defined.

Lemma newline_framer_streaming_witness :
  exists fs1 fs2 v1 v2 v3,
    framed_collect 5 {| required_on_eof := false |} (example_buffer (two_lines ++ b "c:")) false =
      Some (fs1, Ok tt, {| required_on_eof := false |}, v1) /\
    refill (b "3|c" ++ [newline]) v1 = Some v2 /\
    framed_collect 5 {| required_on_eof := false |} v2 false =
      Some (fs2, Ok tt, {| required_on_eof := false |}, v3) /\
    fs1 ++ fs2 = [b "a:1|c"; b "b:2|g"; b "c:3|c"] /\ chunk v3 = [].
Proof.
  exact (newline_framer_streaming {| required_on_eof := false |} (example_buffer (two_lines ++ b "c:"))
    (b "3|c" ++ [newline]) 5 5 ltac:(solve_by_compute) ltac:(solve_by_compute) ltac:(solve_by_compute)
    ltac:(solve_by_compute)).
Defined.
