(* ===== verification/Retryable.v ===== *)
(** * Retryable: what the retry queues hold, and the interface between them

    Models the traits [EventContainer] and [Retryable] and the drop accounting [PushResult] of
    [lib/saluki-io/src/net/util/retry/queue/mod.rs], and states as the classes [DiskQueue] and
    [DiskQueueLaws] what the in-memory queue relies on from its disk-backed overflow queue. *)

From Stdlib Require Import ZArith Lia Strings.String.
From stdpp Require Import base tactics list numbers.
From S2P Require Import Prelude.
Open Scope Z_scope.

Class EventContainer (T : Type) := {
  event_count : T -> Z;
  data_point_count : T -> Z;
}.

(** The [u64] of a size is a fact of its type. *)
Class Retryable (T : Type) := {
  retryable_container :: EventContainer T;
  size_bytes : T -> Z;
  size_bytes_u64 : forall t, is_u64 (size_bytes t);
}.

(** [impl EventContainer for String] and [impl Retryable for String] *)
Definition String_size_bytes (s : string) : Z := wrap 64 (Z.of_nat (String.length s)).

Lemma String_size_bytes_u64 s : is_u64 (String_size_bytes s).
Proof. by apply wrap_range. Qed.

#[export] Instance String_EventContainer : EventContainer string :=
  {| event_count := fun _ => 1; data_point_count := fun _ => 0 |}.
#[export] Instance String_Retryable : Retryable string :=
  {| size_bytes := String_size_bytes; size_bytes_u64 := String_size_bytes_u64 |}.

Inductive IoErrorKind := NotFound | PermissionDenied | StorageFull | IsADirectory | OtherKind.

(** The errors of the queues, by what they report. *)
Inductive GenericError :=
| EntryTooLarge (size max : Z)
| TooLargeToPersist
| SerializeFailed
| DeserializeFailed
| Io (kind : IoErrorKind)
| DiskUsage (message : string)
| EmptyStoragePath.

Record PushResult := {
  items_dropped : Z;
  events_dropped : Z;
  data_points_dropped : Z;
}.

Definition PushResult_default : PushResult :=
  {| items_dropped := 0; events_dropped := 0; data_points_dropped := 0 |}.

Definition had_drops (r : PushResult) : bool := 0 <? items_dropped r.

Definition merge (self other : PushResult) : PushResult :=
  {| items_dropped := u64_add (items_dropped self) (items_dropped other);
     events_dropped := u64_add (events_dropped self) (events_dropped other);
     data_points_dropped := u64_add (data_points_dropped self) (data_points_dropped other) |}.

Definition track_dropped_item {T} `{EventContainer T} (item : T) (self : PushResult) : PushResult :=
  {| items_dropped := u64_add (items_dropped self) 1;
     events_dropped := u64_add (events_dropped self) (event_count item);
     data_points_dropped := u64_add (data_points_dropped self) (data_point_count item) |}.

(** ** The accounting of a list of dropped items *)

Definition tally {T} `{EventContainer T} (l : list T) : PushResult :=
  {| items_dropped := wrap 64 (Z.of_nat (length l));
     events_dropped := wrap 64 (sumZ event_count l);
     data_points_dropped := wrap 64 (sumZ data_point_count l) |}.

(** ** The overflow queue *)

(** The operations of the disk-backed queue that [RetryQueue] calls, on a queue [P] in a world [W].
    [dq_pop] takes the number of iterations its retry loop may make. *)
Class DiskQueue (T P W : Type) := {
  dq_push : T -> P -> W -> result GenericError PushResult * P * W;
  dq_pop : nat -> P -> W -> option (result GenericError (option T) * P * W);
  dq_len : P -> nat;
  dq_is_empty : P -> bool;
}.

(** What a disk queue promises while the disk does not fail: it represents a list of items, oldest
    first.  A push that is not refused drops some of the oldest items, reports exactly those, and
    appends the new one; a pop takes the oldest. *)
Class DiskQueueLaws (T P W : Type) `{EventContainer T} `{DiskQueue T P W} := {
  dq_rep : P -> W -> list T -> Prop;
  dq_accepts : T -> P -> Prop;
  dq_push_ok : forall t p w l, dq_rep p w l -> dq_accepts t p ->
    exists k p' w', dq_push t p w = (Ok (tally (take k l)), p', w') /\
      dq_rep p' w' (drop k l ++ [t]) /\ (forall u, dq_accepts u p -> dq_accepts u p');
  dq_pop_ok : forall fuel p w l, dq_rep p w l -> (0 < fuel)%nat ->
    exists p' w', dq_pop fuel p w = Some (Ok (head l), p', w') /\ dq_rep p' w' (tail l) /\
      (forall u, dq_accepts u p -> dq_accepts u p');
  dq_len_ok : forall p w l, dq_rep p w l -> dq_len p = length l;
  dq_is_empty_ok : forall p w l, dq_rep p w l -> dq_is_empty p = bool_decide (l = []);
}.

(** ** Lemmas on the accounting *)

Section tally.
Context {T : Type} `{EventContainer T}.
Implicit Types l : list T.

Lemma wrap_add_wrap a c : u64_add (wrap 64 a) (wrap 64 c) = wrap 64 (a + c).
Proof. unfold wrapping_add, wrap. by rewrite <- Zplus_mod. Qed.

Lemma wrap_add_r a c : u64_add (wrap 64 a) c = wrap 64 (a + c).
Proof. unfold wrapping_add, wrap. by rewrite Zplus_mod_idemp_l. Qed.

Lemma merge_tally l1 l2 : merge (tally l1) (tally l2) = tally (l1 ++ l2).
Proof.
  unfold merge, tally; simpl. by rewrite !wrap_add_wrap, !sumZ_app, length_app, Nat2Z.inj_add.
Qed.

Lemma track_tally l t : track_dropped_item t (tally l) = tally (l ++ [t]).
Proof.
  unfold track_dropped_item, tally; simpl.
  rewrite !wrap_add_r, !sumZ_app, length_app, Nat2Z.inj_add; simpl. by rewrite !Z.add_0_r.
Qed.
End tally.

#[export] Hint Rewrite @merge_tally @track_tally : saluki.
