(* ===== verification/PersistedQueue.v ===== *)
(** * PersistedQueue: the disk-backed overflow queue

    Models [lib/saluki-io/src/net/util/retry/queue/persisted.rs]: entries are files of one
    directory, named after their creation time, consumed oldest first and evicted oldest first to
    keep the directory within its byte limit.  The directory is explicit state ([World]); the
    operating system, the clock, the random nonce, [serde_json] and [chrono] are parameters: the
    class [Os] decides for every I/O operation whether it fails, and the theorems that need it
    assume an operating system that does not. *)

From Stdlib Require Import ZArith Lia Strings.String Strings.Ascii.
From Stdlib Require Import Sorted Floats.SpecFloat.
From stdpp Require Import base tactics list numbers option gmap strings sorting.
From S2P Require Import Prelude Bytes Float64 Retryable.
Open Scope Z_scope.

(** ** Strings *)

Fixpoint split_on (c : ascii) (s : string) : list string :=
  match s with
  | EmptyString => [EmptyString]
  | String a s' =>
      if bool_decide (a = c) then EmptyString :: split_on c s'
      else match split_on c s' with
           | [] => [String a EmptyString]
           | x :: l => String a x :: l
           end
  end.

(** The text before the last occurrence of [c], when there is one ([rsplitn(2, c)]). *)
Fixpoint before_last (c : ascii) (s : string) : option string :=
  match s with
  | EmptyString => None
  | String a s' =>
      match before_last c s' with
      | Some x => Some (String a x)
      | None => if bool_decide (a = c) then Some EmptyString else None
      end
  end.

(** [Path::file_stem] of a file name *)
Definition file_stem (name : string) : string :=
  if bool_decide (name = "..") then name
  else match before_last "." name with
       | None | Some EmptyString => name
       | Some stem => stem
       end.

Definition digit_value (c : ascii) : option Z :=
  let n := Z.of_N (N_of_ascii c) in
  if (48 <=? n) && (n <=? 57) then Some (n - 48) else None.

Definition digit_char (d : Z) : ascii := ascii_of_N (Z.to_N (48 + d)).

Fixpoint parse_digits (acc : Z) (s : string) : option Z :=
  match s with
  | EmptyString => Some acc
  | String c s' =>
      d ← digit_value c;
      let acc := acc * 10 + d in
      if acc <=? u64_max then parse_digits acc s' else None
  end.

(** [str::parse::<u64>] *)
Definition parse_u64 (s : string) : option Z :=
  match s with
  | EmptyString => None
  | String c s' =>
      if bool_decide (c = "+"%char) then
        match s' with EmptyString => None | _ => parse_digits 0 s' end
      else parse_digits 0 s
  end.

(** [Display] of a non-negative integer, with at most [fuel + 1] digits. *)
Fixpoint show_digits (fuel : nat) (z : Z) (acc : string) : string :=
  match fuel with
  | O => String (digit_char (z mod 10)) acc
  | S fuel' =>
      if z <? 10 then String (digit_char z) acc
      else show_digits fuel' (z / 10) (String (digit_char (z mod 10)) acc)
  end.
Definition show_u64 (z : Z) : string := show_digits 19 z EmptyString.

(** ** The world *)

Record DateTime := { dt_timestamp : Z; dt_subsec_nanos : Z }.

(** [chrono]: formatting and parsing with ["%Y%m%d%H%M%S%f"]. *)
Class Chrono := {
  format_datetime : DateTime -> string;
  parse_from_str : string -> option DateTime;
}.

(** [serde_json] on the entries. *)
Class Serde (T : Type) := {
  to_vec : T -> option bytes;
  from_slice : bytes -> option T;
}.

Inductive node := File (contents : bytes) | Directory.

(** The queue's directory, and the number of operations the world has performed. *)
Record World := {
  files : gmap string node;
  tick : nat;
}.

(** The operating system: what it answers to its n-th operation.  [fault] is the error of an
    operation that fails; a failed write may leave [residue] in the file; a directory is listed in
    any order; the disk usage is asked from a [DiskUsageRetriever]. *)
Class Os := {
  fault : nat -> option IoErrorKind;
  residue : nat -> option bytes;
  dir_order : nat -> list (string * node) -> list (string * node);
  dir_order_perm : forall n l, dir_order n l ≡ₚ l;
  utc_now : nat -> DateTime;
  system_now_ns : nat -> Z;
  random_nonce : nat -> Z;
  os_total_space : nat -> result GenericError Z;
  os_available_space : nat -> result GenericError Z;
}.

Definition step_world (w : World) : World := {| files := files w; tick := S (tick w) |}.
Definition set_files (fs : gmap string node) (w : World) : World := {| files := fs; tick := tick w |}.

Section io.
Context `{Os}.

(** [tokio::fs::read], [write], [remove_file] and [read_dir] *)
Definition fs_read (path : string) (w : World) : result IoErrorKind bytes * World :=
  (match fault (tick w) with
   | Some e => Err e
   | None => match files w !! path with
             | Some (File l) => Ok l
             | Some Directory => Err IsADirectory
             | None => Err NotFound
             end
   end, step_world w).

Definition fs_write (path : string) (l : bytes) (w : World) : result IoErrorKind unit * World :=
  match fault (tick w) with
  | Some e =>
      (Err e, step_world (match residue (tick w), files w !! path with
                          | Some l, (None | Some (File _)) => set_files (<[path := File l]> (files w)) w
                          | _, _ => w
                          end))
  | None =>
      match files w !! path with
      | Some Directory => (Err IsADirectory, step_world w)
      | _ => (Ok tt, step_world (set_files (<[path := File l]> (files w)) w))
      end
  end.

Definition fs_remove_file (path : string) (w : World) : result IoErrorKind unit * World :=
  match fault (tick w) with
  | Some e => (Err e, step_world w)
  | None =>
      match files w !! path with
      | Some (File _) => (Ok tt, step_world (set_files (delete path (files w)) w))
      | Some Directory => (Err IsADirectory, step_world w)
      | None => (Err NotFound, step_world w)
      end
  end.

Definition fs_read_dir (w : World) : result IoErrorKind (list (string * node)) * World :=
  (match fault (tick w) with
   | Some e => Err e
   | None => Ok (dir_order (tick w) (map_to_list (files w)))
   end, step_world w).

(** An operation that only asks: [next_entry], [metadata], creating the directory. *)
Definition fs_probe (w : World) : result IoErrorKind unit * World :=
  (match fault (tick w) with Some e => Err e | None => Ok tt end, step_world w).
End io.

(** ** Entries *)

Record PersistedEntry := {
  path : string;
  timestamp : Z;
  entry_size_bytes : Z;
}.

Definition u128_mul (x y : Z) : Z := wrap 128 (x * y).

Definition datetime_to_timestamp (dt : DateTime) : Z :=
  let secs := u128_mul (wrap 128 (dt_timestamp dt)) 1000000000 in
  wrapping_add 128 secs (dt_subsec_nanos dt).

Section filenames.
Context `{Chrono}.

Definition decode_timestamped_filename (name : string) : option Z :=
  match split_on "-" (file_stem name) with
  | prefix :: timestamp_str :: nonce :: _ =>
      if negb (bool_decide (prefix = "retry")) || negb (bool_decide (is_Some (parse_u64 nonce)))
      then None
      else datetime_to_timestamp <$> parse_from_str timestamp_str
  | _ => None
  end.

Definition retry_filename (now : DateTime) (nonce : Z) : string :=
  "retry-" +:+ format_datetime now +:+ "-" +:+ show_u64 nonce +:+ ".json".

Definition generate_timestamped_filename `{Os} (w : World) : string * Z * World :=
  let now := utc_now (tick w) in
  let now_ts := datetime_to_timestamp now in
  let nonce := random_nonce (tick w) in
  (retry_filename now nonce, now_ts, step_world w).

Definition try_from_path (name : string) (size : Z) : option PersistedEntry :=
  timestamp ← decode_timestamped_filename name;
  Some {| path := name; timestamp := timestamp; entry_size_bytes := size |}.
End filenames.

(** ** The queue *)

Record PersistedQueue := {
  entries : list PersistedEntry;
  total_on_disk_bytes : Z;
  max_on_disk_bytes : Z;
  storage_max_disk_ratio : f64;
  max_age_days : Z;
  entries_dropped : Z;
}.

Definition with_entries (es : list PersistedEntry) (total : Z) (pq : PersistedQueue) : PersistedQueue :=
  {| entries := es; total_on_disk_bytes := total; max_on_disk_bytes := max_on_disk_bytes pq;
     storage_max_disk_ratio := storage_max_disk_ratio pq; max_age_days := max_age_days pq;
     entries_dropped := entries_dropped pq |}.

Definition add_dropped (n : Z) (pq : PersistedQueue) : PersistedQueue :=
  {| entries := entries pq; total_on_disk_bytes := total_on_disk_bytes pq;
     max_on_disk_bytes := max_on_disk_bytes pq;
     storage_max_disk_ratio := storage_max_disk_ratio pq; max_age_days := max_age_days pq;
     entries_dropped := u64_add (entries_dropped pq) n |}.

Definition take_entries_dropped (pq : PersistedQueue) : Z * PersistedQueue :=
  (entries_dropped pq,
   {| entries := entries pq; total_on_disk_bytes := total_on_disk_bytes pq;
      max_on_disk_bytes := max_on_disk_bytes pq;
      storage_max_disk_ratio := storage_max_disk_ratio pq; max_age_days := max_age_days pq;
      entries_dropped := 0 |}).

Definition PersistedQueue_is_empty (pq : PersistedQueue) : bool :=
  match entries pq with [] => true | _ => false end.
Definition PersistedQueue_len (pq : PersistedQueue) : nat := length (entries pq).

Section queue.
Context {T : Type} `{EventContainer T} `{Serde T} `{Chrono} `{Os}.

(** The scan of [refresh_entry_state] over the listed directory. *)
Fixpoint scan_entries (l : list (string * node)) (w : World) :
    result IoErrorKind (list PersistedEntry) * World :=
  let '(r, w) := fs_probe w in          (* next_entry *)
  match r with
  | Err e => (Err e, w)
  | Ok _ =>
      match l with
      | [] => (Ok [], w)
      | (name, nd) :: l' =>
          let '(r, w) := fs_probe w in  (* metadata *)
          match r with
          | Err e => (Err e, w)
          | Ok _ =>
              let '(r, w) := scan_entries l' w in
              match r with
              | Err e => (Err e, w)
              | Ok es =>
                  match nd with
                  | File contents =>
                      match try_from_path name (Z.of_nat (length contents)) with
                      | Some e => (Ok (e :: es), w)
                      | None => (Ok es, w)
                      end
                  | Directory => (Ok es, w)
                  end
              end
          end
      end
  end.

Definition by_timestamp (e1 e2 : PersistedEntry) : bool := timestamp e1 <=? timestamp e2.

Definition refresh_entry_state (pq : PersistedQueue) (w : World) :
    result IoErrorKind unit * PersistedQueue * World :=
  let '(r, w) := fs_read_dir w in
  match r with
  | Err e => (Err e, pq, w)
  | Ok listing =>
      let '(r, w) := scan_entries listing w in
      match r with
      | Err e => (Err e, pq, w)
      | Ok es =>
          let es := stable_sort by_timestamp es in
          (Ok tt, with_entries es (wrap 64 (sumZ entry_size_bytes es)) pq, w)
      end
  end.

Definition try_deserialize_entry (entry : PersistedEntry) (w : World) :
    result GenericError (option T) * World :=
  let '(r, w) := fs_read (path entry) w in
  match r with
  | Err NotFound => (Ok None, w)
  | Err e => (Err (Io e), w)
  | Ok serialized =>
      match from_slice serialized with
      | None =>
          let '(_, w) := fs_remove_file (path entry) w in
          (Err DeserializeFailed, w)
      | Some deserialized =>
          let '(r, w) := fs_remove_file (path entry) w in
          match r with
          | Err e => (Err (Io e), w)
          | Ok _ => (Ok (Some deserialized), w)
          end
      end
  end.

Definition on_disk_bytes_limit (ratio : f64) (max_bytes : Z) (w : World) :
    result GenericError Z * World :=
  (total_space ← os_total_space (tick w);
   available_space ← os_available_space (tick w);
   let total_space := f64_of_Z total_space in
   let available_space := f64_of_Z available_space in
   let disk_reserved := f64_mul total_space (f64_sub f64_one ratio) in
   let available_disk_usage := f64_to_u64 (f64_ceil (f64_sub available_space disk_reserved)) in
   Ok (Z.min max_bytes available_disk_usage), step_world w).

Definition available_capacity_bytes (pq : PersistedQueue) (w : World) : result GenericError Z * World :=
  let '(r, w) := on_disk_bytes_limit (storage_max_disk_ratio pq) (max_on_disk_bytes pq) w in
  ((fun limit => saturating_sub limit (total_on_disk_bytes pq)) <$> r, w).

(** The [while] loop of [remove_until_available_space]: one entry leaves per iteration. *)
Fixpoint eviction_loop (es : list PersistedEntry) (limit required_bytes : Z)
    (push_result : PushResult) (pq : PersistedQueue) (w : World) : PushResult * PersistedQueue * World :=
  match es with
  | [] => (push_result, with_entries [] (total_on_disk_bytes pq) pq, w)
  | entry :: es' =>
      if limit <? u64_add (total_on_disk_bytes pq) required_bytes then
        let pq := with_entries es' (total_on_disk_bytes pq) pq in
        let '(r, w) := try_deserialize_entry entry w in
        match r with
        | Ok None => eviction_loop es' limit required_bytes push_result pq w
        | Err _ =>
            let pq := with_entries es' (u64_sub (total_on_disk_bytes pq) (entry_size_bytes entry)) pq in
            eviction_loop es' limit required_bytes push_result (add_dropped 1 pq) w
        | Ok (Some deserialized) =>
            let pq := with_entries es' (u64_sub (total_on_disk_bytes pq) (entry_size_bytes entry)) pq in
            eviction_loop es' limit required_bytes (track_dropped_item deserialized push_result) pq w
        end
      else (push_result, with_entries es (total_on_disk_bytes pq) pq, w)
  end.

Definition remove_until_available_space (required_bytes : Z) (pq : PersistedQueue) (w : World) :
    result GenericError PushResult * PersistedQueue * World :=
  let '(r, w) := on_disk_bytes_limit (storage_max_disk_ratio pq) (max_on_disk_bytes pq) w in
  match r with
  | Err e => (Err e, pq, w)
  | Ok limit =>
      let '(push_result, pq, w) :=
        eviction_loop (entries pq) limit required_bytes PushResult_default pq w in
      (Ok push_result, pq, w)
  end.

Definition PersistedQueue_push (entry : T) (pq : PersistedQueue) (w : World) :
    result GenericError PushResult * PersistedQueue * World :=
  let '(entry_path, ts, w) := generate_timestamped_filename w in
  match to_vec entry with
  | None => (Err SerializeFailed, pq, w)
  | Some serialized =>
      let len := Z.of_nat (length serialized) in
      if max_on_disk_bytes pq <? len then (Err TooLargeToPersist, pq, w)
      else
        let '(r, pq, w) := remove_until_available_space len pq w in
        match r with
        | Err e => (Err e, pq, w)
        | Ok push_result =>
            let '(r, w) := fs_write entry_path serialized w in
            match r with
            | Err e => (Err (Io e), pq, w)
            | Ok _ =>
                (Ok push_result,
                 with_entries
                   (entries pq ++ [{| path := entry_path; timestamp := ts; entry_size_bytes := len |}])
                   (u64_add (total_on_disk_bytes pq) len) pq, w)
            end
        end
  end.

(** The [loop] of [pop]; a missing file refreshes the state and tries again. *)
Fixpoint PersistedQueue_pop (fuel : nat) (pq : PersistedQueue) (w : World) :
    option (result GenericError (option T) * PersistedQueue * World) :=
  match fuel with
  | O => None
  | S fuel' =>
      match entries pq with
      | [] => Some (Ok None, pq, w)
      | entry :: es =>
          let '(r, w) := try_deserialize_entry entry w in
          match r with
          | Ok (Some deserialized) =>
              Some (Ok (Some deserialized),
                    with_entries es (u64_sub (total_on_disk_bytes pq) (entry_size_bytes entry)) pq, w)
          | Ok None =>
              let '(r, pq, w) := refresh_entry_state (with_entries es (total_on_disk_bytes pq) pq) w in
              match r with
              | Err e => Some (Err (Io e), pq, w)
              | Ok _ => PersistedQueue_pop fuel' pq w
              end
          | Err _ =>
              PersistedQueue_pop fuel'
                (add_dropped 1
                   (with_entries es (u64_sub (total_on_disk_bytes pq) (entry_size_bytes entry)) pq)) w
          end
      end
  end.

(** [from_root_path]: the directory is created (a probe) and scanned. *)
Definition from_root_path (max_bytes : Z) (ratio : f64) (age_days : Z) (w : World) :
    result GenericError PersistedQueue * World :=
  let '(r, w) := fs_probe w in
  match r with
  | Err e => (Err (Io e), w)
  | Ok _ =>
      let pq := {| entries := []; total_on_disk_bytes := 0; max_on_disk_bytes := max_bytes;
                   storage_max_disk_ratio := ratio; max_age_days := age_days; entries_dropped := 0 |} in
      let '(r, pq, w) := refresh_entry_state pq w in
      match r with
      | Err e => (Err (Io e), w)
      | Ok _ => (Ok pq, w)
      end
  end.

(** The [loop] of [remove_outdated_retry_files] over the listed directory. *)
Fixpoint remove_outdated_loop (cutoff_ns : Z) (l : list (string * node)) (removed : Z) (w : World) :
    result GenericError Z * World :=
  let '(r, w) := fs_probe w in          (* next_entry *)
  match r with
  | Err e => (Err (Io e), w)
  | Ok _ =>
      match l with
      | [] => (Ok removed, w)
      | (name, _) :: l' =>
          match decode_timestamped_filename name with
          | None => remove_outdated_loop cutoff_ns l' removed w
          | Some file_ts =>
              if file_ts <? cutoff_ns then
                let '(r, w) := fs_remove_file name w in
                match r with
                | Ok _ => remove_outdated_loop cutoff_ns l' (wrapping_add 32 removed 1) w
                | Err _ => remove_outdated_loop cutoff_ns l' removed w
                end
              else remove_outdated_loop cutoff_ns l' removed w
          end
      end
  end.

(** A clock before the epoch counts as the epoch. *)
Definition remove_outdated_retry_files (age_days : Z) (w : World) : result GenericError Z * World :=
  let '(r, w) := fs_read_dir w in
  match r with
  | Err NotFound => (Ok 0, w)
  | Err e => (Err (Io e), w)
  | Ok listing =>
      let now_ns := Z.max 0 (system_now_ns (tick w)) in
      let cutoff_ns := saturating_sub now_ns (age_days * 24 * 3600 * 1000000000) in
      remove_outdated_loop cutoff_ns listing 0 (step_world w)
  end.

Definition remove_stale_files (pq : PersistedQueue) (w : World) :
    result GenericError Z * PersistedQueue * World :=
  let '(r, w) := remove_outdated_retry_files (max_age_days pq) w in
  match r with
  | Err e => (Err e, pq, w)
  | Ok removed =>
      let '(r, pq, w) := refresh_entry_state pq w in
      match r with
      | Err e => (Err (Io e), pq, w)
      | Ok _ => (Ok removed, pq, w)
      end
  end.
End queue.

#[export] Instance PersistedQueue_DiskQueue {T} `{EventContainer T} `{Serde T} `{Chrono} `{Os} :
    DiskQueue T PersistedQueue World :=
  {| dq_push := PersistedQueue_push; dq_pop := PersistedQueue_pop;
     dq_len := PersistedQueue_len; dq_is_empty := PersistedQueue_is_empty |}.

(** ** The promises of the environment *)

(** [serde_json]: what was serialized deserializes to the same entry. *)
Class SerdeLaws (T : Type) `{Serde T} : Prop :=
  from_slice_to_vec : forall (t : T) s, to_vec t = Some s -> from_slice s = Some t.

(** The name the queue would generate at the world's n-th operation. *)
Definition name_at `{Chrono} `{Os} (n : nat) : string := retry_filename (utc_now n) (random_nonce n).

(** An operating system that performs every operation, reports its disk usage, and draws a clock
    reading and a nonce that never name two files the same. *)
Class ReliableOs `{Chrono} `{Os} : Prop := {
  no_fault : forall n, fault n = None;
  total_space_ok : forall n, exists z, os_total_space n = Ok z;
  available_space_ok : forall n, exists z, os_available_space n = Ok z;
  names_distinct : forall n m, name_at n = name_at m -> n = m;
}.

Section disk.
Context {T : Type} `{EventContainer T} `{Serde T} `{Chrono} `{Os}.

(** The limit in force at the world's n-th operation. *)
Definition limit_at (pq : PersistedQueue) (w : World) : result GenericError Z :=
  (on_disk_bytes_limit (storage_max_disk_ratio pq) (max_on_disk_bytes pq) w).1.

(** The size of an item on disk. *)
Definition disk_size (t : T) : Z :=
  match to_vec t with Some s => Z.of_nat (length s) | None => 0 end.

Definition stores (w : World) (e : PersistedEntry) (t : T) : Prop :=
  exists s, to_vec t = Some s /\ files w !! path e = Some (File s) /\
            entry_size_bytes e = Z.of_nat (length s).

(** The queue represents the items [l], oldest first. *)
Record disk_rep (pq : PersistedQueue) (w : World) (l : list T) : Prop := {
  dr_stored : Forall2 (stores w) (entries pq) l;
  dr_nodup : NoDup (path <$> entries pq);
  dr_total : total_on_disk_bytes pq = sumZ entry_size_bytes (entries pq);
  dr_bound : total_on_disk_bytes pq <= max_on_disk_bytes pq < 2 ^ 63;
  dr_fresh : forall n, (tick w <= n)%nat -> files w !! name_at n = None;
}.

(** An item that may be persisted at all. *)
Definition disk_accepts (t : T) (pq : PersistedQueue) : Prop :=
  is_Some (to_vec t) /\ disk_size t <= max_on_disk_bytes pq.
End disk.

(** ** Lemmas *)

Section disk_lemmas.
Context {T : Type} `{EventContainer T} `{Serde T} `{!SerdeLaws T} `{Chrono} `{Os} `{!ReliableOs}.
Implicit Types (t : T) (l : list T) (w : World) (pq : PersistedQueue).

Lemma stores_size w e t : stores w e t -> entry_size_bytes e = disk_size t.
Proof. intros (s & E & _ & ->). unfold disk_size. by rewrite E. Qed.

Lemma stored_sizes w es l :
  Forall2 (stores w) es l -> sumZ entry_size_bytes es = sumZ disk_size l.
Proof. induction 1 as [|e t es l Hs _ IH]; simpl; [done|]. by rewrite IH, (stores_size _ _ _ Hs). Qed.

Lemma disk_size_nonneg t : 0 <= disk_size t.
Proof. unfold disk_size. destruct (to_vec t); lia. Qed.

Lemma stored_files w w' es l :
  Forall2 (stores w) es l ->
  (forall p, p ∈ path <$> es -> files w' !! p = files w !! p) -> Forall2 (stores w') es l.
Proof.
  induction 1 as [|e t es l (s & ? & ? & ?) _ IH]; intros Hf; constructor.
  - exists s. rewrite Hf by (simpl; left). done.
  - apply IH. intros p Hp. apply Hf. simpl. by right.
Qed.

Lemma try_deserialize_stored w e t :
  stores w e t ->
  try_deserialize_entry e w =
    (Ok (Some t), {| files := delete (path e) (files w); tick := S (S (tick w)) |}).
Proof.
  intros (s & Es & Ef & _). unfold try_deserialize_entry, fs_read, fs_remove_file. simpl.
  rewrite !no_fault, Ef, (from_slice_to_vec _ _ Es). done.
Qed.

(** Taking the oldest entry off the disk. *)
Lemma disk_rep_consume pq w e es t l :
  disk_rep pq w (t :: l) -> entries pq = e :: es ->
  total_on_disk_bytes pq = disk_size t + sumZ disk_size l /\
  disk_rep (with_entries es (u64_sub (total_on_disk_bytes pq) (entry_size_bytes e)) pq)
    {| files := delete (path e) (files w); tick := S (S (tick w)) |} l.
Proof.
  intros [Hst Hnd Htot Hb Hfr] Ees. rewrite Ees in *. simpl in *.
  apply Forall2_cons in Hst as [Hs Hst]. apply NoDup_cons in Hnd as [Hni Hnd].
  pose proof (stored_sizes _ _ _ Hst) as Hsz. pose proof (stores_size _ _ _ Hs) as Hse.
  pose proof (disk_size_nonneg t). pose proof (sumZ_nonneg disk_size l (fun t _ => disk_size_nonneg t)).
  assert (Htot' : u64_sub (total_on_disk_bytes pq) (entry_size_bytes e) = sumZ entry_size_bytes es).
  { rewrite Htot, wrapping_sub_exact by (unfold in_range, umax; lia). lia. }
  split; [lia|]. split; simpl; try done.
  - eapply stored_files; [done|]. intros p Hp. simpl. apply lookup_delete_ne. by intros <-.
  - lia.
  - intros n Hn. rewrite lookup_delete_None. right. apply Hfr. lia.
Qed.

Lemma disk_rep_total pq w l : disk_rep pq w l -> total_on_disk_bytes pq = sumZ disk_size l.
Proof. intros []. rewrite dr_total0. by eapply stored_sizes. Qed.

Lemma with_entries_twice es1 es2 n1 n2 pq :
  with_entries es1 n1 (with_entries es2 n2 pq) = with_entries es1 n1 pq.
Proof. done. Qed.

Lemma with_entries_id pq : with_entries (entries pq) (total_on_disk_bytes pq) pq = pq.
Proof. by destruct pq. Qed.

(** Eviction takes the shortest prefix that makes room, and reports it. *)
Lemma eviction_loop_rep limit required l0 l pq w :
  disk_rep pq w l -> 0 <= required <= max_on_disk_bytes pq ->
  let k := prefix_covering disk_size (sumZ disk_size l + required - limit) l in
  exists es total w',
    eviction_loop (entries pq) limit required (tally l0) pq w =
      (tally (l0 ++ take k l), with_entries es total pq, w') /\
    disk_rep (with_entries es total pq) w' (drop k l) /\ (tick w <= tick w')%nat /\
    files w' ⊆ files w.
Proof.
  intros Hrep Hreq. revert pq w l0 Hrep Hreq. induction l as [|t l IH]; intros pq w l0 Hrep Hreq; simpl.
  - pose proof (dr_stored _ _ _ Hrep) as Hst. apply Forall2_nil_inv_r in Hst. rewrite Hst. simpl.
    exists [], (total_on_disk_bytes pq), w. rewrite app_nil_r. split_and!; [done| |done..].
    rewrite <- Hst, with_entries_id. done.
  - pose proof (disk_rep_total _ _ _ Hrep) as Htot. simpl in Htot.
    pose proof (dr_stored _ _ _ Hrep) as Hst. apply Forall2_cons_inv_r in Hst as (e & es & Hs & Hst & Ees).
    pose proof (dr_bound _ _ _ Hrep).
    pose proof (sumZ_nonneg disk_size (t :: l) (fun t _ => disk_size_nonneg t)) as Hnn. simpl in Hnn.
    rewrite Ees. simpl. rewrite (wrapping_add_exact 64) by (unfold in_range, umax; lia).
    destruct (_ <? _) eqn:Elim; destruct (0 <? _) eqn:Eneed; bool_cases; try lia.
    + rewrite (try_deserialize_stored _ _ _ Hs).
      destruct (disk_rep_consume pq w e es t l Hrep Ees) as [_ Hrep'].
      destruct (IH _ _ (l0 ++ [t]) Hrep') as (es' & total' & w' & E & Hrep'' & Ht & Hsub); [done|].
      exists es', total', w'. simpl in *. rewrite with_entries_twice in *.
      rewrite track_tally, E. rewrite <- app_assoc. simpl.
      replace (sumZ disk_size l + required - limit)
        with (disk_size t + sumZ disk_size l + required - limit - disk_size t) by lia.
      replace (sumZ disk_size l + required - limit)
        with (disk_size t + sumZ disk_size l + required - limit - disk_size t) in Hrep'' by lia.
      split_and!; [done|done|lia|]. etrans; [done|]. apply delete_subseteq.
    + exists (e :: es), (total_on_disk_bytes pq), w. simpl. rewrite app_nil_r, <- Ees.
      rewrite with_entries_id. done.
Qed.

Lemma limit_at_ok pq w : exists limit, limit_at pq w = Ok limit /\ limit <= max_on_disk_bytes pq.
Proof.
  unfold limit_at, on_disk_bytes_limit. simpl.
  destruct (total_space_ok (tick w)) as [x ->]. destruct (available_space_ok (tick w)) as [y ->].
  simpl. eexists. split; [done|]. lia.
Qed.

(** Persisting an entry under a fresh name. *)
Lemma disk_rep_append pq w l t s n :
  disk_rep pq w l -> to_vec t = Some s -> sumZ disk_size l + disk_size t <= max_on_disk_bytes pq ->
  files w !! name_at n = None -> (n < tick w)%nat ->
  disk_rep
    (with_entries
       (entries pq ++ [{| path := name_at n; timestamp := datetime_to_timestamp (utc_now n);
                          entry_size_bytes := Z.of_nat (length s) |}])
       (u64_add (total_on_disk_bytes pq) (Z.of_nat (length s))) pq)
    (step_world (set_files (<[name_at n := File s]> (files w)) w)) (l ++ [t]).
Proof.
  intros Hrep Et Hb Hfree Hn. pose proof (disk_rep_total _ _ _ Hrep) as Htot. destruct Hrep.
  assert (Hsz : disk_size t = Z.of_nat (length s)) by (unfold disk_size; by rewrite Et).
  pose proof (sumZ_nonneg disk_size l (fun t _ => disk_size_nonneg t)).
  assert (Hne : forall p, p ∈ path <$> entries pq -> p <> name_at n).
  { intros p Hp Hpn. apply list_elem_of_fmap in Hp as (e & Hpe & He).
    apply list_elem_of_lookup in He as [i He].
    destruct (Forall2_lookup_l _ _ _ _ _ dr_stored0 He) as (u & _ & ? & _ & Hf & _). congruence. }
  assert (Hadd : u64_add (total_on_disk_bytes pq) (Z.of_nat (length s)) =
                 total_on_disk_bytes pq + Z.of_nat (length s))
    by (apply wrapping_add_exact; unfold in_range, umax; lia).
  split; simpl.
  - apply Forall2_app; [|constructor; [|constructor]].
    + eapply stored_files; [done|]. intros p Hp. simpl. rewrite lookup_insert_ne; [done|].
      intros <-. by eapply Hne.
    + exists s. simpl. by rewrite lookup_insert_eq.
  - rewrite fmap_app. apply NoDup_app. split_and!; [done| |apply NoDup_singleton].
    simpl. intros p Hp Hp'%list_elem_of_singleton. by eapply Hne.
  - rewrite sumZ_app. simpl. lia.
  - lia.
  - intros m Hm. rewrite lookup_insert_ne; [apply dr_fresh0; lia|].
    intros Heq%names_distinct. lia.
Qed.

(** The room eviction makes is enough. *)
Lemma eviction_bound l t limit max :
  disk_size t <= max -> limit <= max ->
  sumZ disk_size (drop (prefix_covering disk_size (sumZ disk_size l + disk_size t - limit) l) l)
    + disk_size t <= max.
Proof.
  intros Ht Hl. set (k := prefix_covering _ _ l).
  pose proof (prefix_covering_spec disk_size (sumZ disk_size l + disk_size t - limit) l) as Hs.
  cbv zeta in Hs. fold k in Hs. destruct Hs as (_ & [Hk|Hcov] & _).
  - rewrite Hk, drop_all. simpl. lia.
  - pose proof (sumZ_take_drop disk_size k l). lia.
Qed.

Lemma disk_push_rep t pq w l :
  disk_rep pq w l -> disk_accepts t pq ->
  exists limit pq' w',
    limit_at pq (step_world w) = Ok limit /\
    let k := prefix_covering disk_size (sumZ disk_size l + disk_size t - limit) l in
    PersistedQueue_push t pq w = (Ok (tally (take k l)), pq', w') /\
    disk_rep pq' w' (drop k l ++ [t]) /\ max_on_disk_bytes pq' = max_on_disk_bytes pq.
Proof.
  intros Hrep [[s Es] Hacc].
  assert (Hsz : disk_size t = Z.of_nat (length s)) by (unfold disk_size; by rewrite Es).
  destruct (limit_at_ok pq (step_world w)) as (limit & Elim & Hlim).
  assert (Hrep1 : disk_rep pq (step_world (step_world w)) l).
  { destruct Hrep. split; try done. intros n Hn. apply dr_fresh0. simpl in Hn. lia. }
  pose proof (disk_size_nonneg t).
  destruct (eviction_loop_rep limit (disk_size t) [] l pq _ Hrep1) as (es & total & w2 & E & Hrep2 & Ht & Hsub);
    [lia|].
  pose proof (eviction_bound l t limit _ Hacc Hlim) as Hroom.
  set (k := prefix_covering _ _ l) in *. simpl in Ht.
  eexists limit, _, _. split; [done|]. cbn zeta. fold k. split_and!.
  - unfold PersistedQueue_push, generate_timestamped_filename. rewrite Es.
    rewrite (proj2 (Z.ltb_ge _ _)) by lia.
    unfold remove_until_available_space.
    unfold limit_at in Elim. unfold on_disk_bytes_limit in *. simpl in Elim. simpl.
    rewrite Elim. rewrite <- Hsz. change PushResult_default with (tally (@nil T)). rewrite E.
    unfold fs_write. rewrite no_fault.
    assert (Hfree : files w2 !! name_at (tick w) = None).
    { eapply lookup_weaken_None; [|done]. simpl. apply (dr_fresh _ _ _ Hrep). lia. }
    unfold name_at in Hfree. rewrite Hfree. simpl. reflexivity.
  - rewrite Hsz.
    refine (disk_rep_append (with_entries es total pq) w2 (drop k l) t s (tick w) Hrep2 Es Hroom _ _);
      [|lia].
    eapply lookup_weaken_None; [|done]. simpl. apply (dr_fresh _ _ _ Hrep). lia.
  - done.
Qed.

Lemma disk_pop_rep fuel pq w l :
  disk_rep pq w l -> (0 < fuel)%nat ->
  exists pq' w', PersistedQueue_pop fuel pq w = Some (Ok (head l), pq', w') /\
    disk_rep pq' w' (tail l) /\ max_on_disk_bytes pq' = max_on_disk_bytes pq.
Proof.
  intros Hrep Hf. destruct fuel as [|fuel]; [lia|]. simpl. pose proof (dr_stored _ _ _ Hrep) as Hst.
  destruct l as [|t l].
  - apply Forall2_nil_inv_r in Hst as ->. by exists pq, w.
  - apply Forall2_cons_inv_r in Hst as (e & es & Hs & Hst & Ees). rewrite Ees.
    rewrite (try_deserialize_stored _ _ _ Hs). eexists _, _. split; [done|].
    destruct (disk_rep_consume pq w e es t l Hrep Ees) as [_ Hrep']. done.
Qed.

(** The persisted queue keeps the promises of the overflow queue. *)
#[export] Instance PersistedQueue_laws : DiskQueueLaws T PersistedQueue World.
Proof.
  refine {| dq_rep := disk_rep; dq_accepts := disk_accepts |}.
  - intros t pq w l Hrep Hacc. destruct (disk_push_rep t pq w l Hrep Hacc) as (limit & pq' & w' & _ & E & Hr & Hm).
    eexists _, pq', w'. split_and!; [done|done|]. intros u [? ?]. split; [done|]. by rewrite Hm.
  - intros fuel pq w l Hrep Hf. destruct (disk_pop_rep fuel pq w l Hrep Hf) as (pq' & w' & E & Hr & Hm).
    exists pq', w'. split_and!; [done|done|]. intros u [? ?]. split; [done|]. by rewrite Hm.
  - intros pq w l []. simpl. unfold PersistedQueue_len. by eapply Forall2_length.
  - intros pq w l []. simpl. unfold PersistedQueue_is_empty.
    inversion dr_stored0; [done|]. by rewrite bool_decide_eq_false_2.
Defined.
End disk_lemmas.

(** ** Lemmas on the scan of the directory *)

Section scan.
Context `{Chrono} `{Os}.

(** The entry the scan makes of a directory entry. *)
Definition scanned (x : string * node) : option PersistedEntry :=
  match x.2 with
  | File contents => try_from_path x.1 (Z.of_nat (length contents))
  | Directory => None
  end.

Lemma scan_entries_ok l w es w' :
  scan_entries l w = (Ok es, w') -> es = omap scanned l /\ files w' = files w.
Proof.
  revert w es w'. induction l as [|[name nd] l IH]; intros w es w' E; simpl in E.
  - destruct (fault (tick w)); by simplify_eq.
  - destruct (fault (tick w)); [by simplify_eq|]. destruct (fault _); [by simplify_eq|].
    destruct (scan_entries l _) as [[es'|] w1] eqn:E1; [|by simplify_eq].
    apply IH in E1 as [-> Hf]. unfold scanned at 1. simpl.
    destruct nd as [c|]; [destruct (try_from_path _ _)|]; by simplify_eq/=.
Qed.

Lemma scan_entries_tick l w r w' : scan_entries l w = (r, w') -> (tick w <= tick w')%nat.
Proof.
  revert w r w'. induction l as [|[name nd] l IH]; intros w r w' E; simpl in E.
  - destruct (fault (tick w)); simplify_eq; simpl; lia.
  - destruct (fault (tick w)); [simplify_eq; simpl; lia|].
    destruct (fault _); [simplify_eq; simpl; lia|].
    destruct (scan_entries l _) as [r1 w1] eqn:E1. apply IH in E1. simpl in E1.
    repeat case_match; simplify_eq; lia.
Qed.

Lemma scan_entries_total l w : (forall n, fault n = None) -> exists es w', scan_entries l w = (Ok es, w').
Proof.
  intros Hnf. revert w. induction l as [|[name nd] l IH]; intros w; simpl; rewrite !Hnf; [eauto|].
  destruct (IH (step_world (step_world w))) as (es & w' & E). rewrite E.
  destruct nd as [c|]; [destruct (try_from_path _ _)|]; eauto.
Qed.

Lemma scanned_path x e : scanned x = Some e -> path e = x.1.
Proof.
  destruct x as [name [c|]]; unfold scanned, try_from_path; simpl; [|done].
  destruct (decode_timestamped_filename name); by intros [= <-].
Qed.

Lemma scanned_paths l : path <$> omap scanned l `sublist_of` l.*1.
Proof.
  induction l as [|x l IH]; simpl; [done|]. destruct (scanned x) as [e|] eqn:E; simpl.
  - rewrite (scanned_path _ _ E). by apply sublist_skip.
  - by apply sublist_cons.
Qed.

(** The entries a scan finds: one per recognised file, each present on disk. *)
Lemma scan_spec w es w' n :
  scan_entries (dir_order n (map_to_list (files w))) w = (Ok es, w') ->
  NoDup (path <$> es) /\ files w' = files w /\ (length es <= size (files w))%nat /\
  forall e, e ∈ es <-> exists c, files w !! path e = Some (File c) /\
    try_from_path (path e) (Z.of_nat (length c)) = Some e.
Proof.
  intros E. apply scan_entries_ok in E as [-> Hf].
  set (l := dir_order n (map_to_list (files w))).
  assert (Hperm : l ≡ₚ map_to_list (files w)) by apply dir_order_perm.
  pose proof (scanned_paths l) as Hsub. split_and!; [|done| |].
  - eapply sublist_NoDup; [|exact Hsub]. rewrite Hperm. apply NoDup_fst_map_to_list.
  - apply sublist_length in Hsub. rewrite !length_fmap in Hsub. rewrite Hsub.
    by rewrite Hperm, length_map_to_list.
  - intros e. rewrite list_elem_of_omap. split.
    + intros ([name nd] & Hin & Hs). pose proof (scanned_path _ _ Hs) as Hp. simpl in Hp. subst name.
      rewrite Hperm, elem_of_map_to_list in Hin. unfold scanned in Hs. simpl in Hs.
      destruct nd as [c|]; [|done]. eauto.
    + intros (c & Hc & Ht). exists (path e, File c). rewrite Hperm, elem_of_map_to_list. done.
Qed.

Lemma refresh_ok pq w pq' w' :
  refresh_entry_state pq w = (Ok tt, pq', w') ->
  exists n es, pq' = with_entries (stable_sort by_timestamp es)
                      (wrap 64 (sumZ entry_size_bytes (stable_sort by_timestamp es))) pq /\
    scan_entries (dir_order n (map_to_list (files w))) (step_world w) = (Ok es, w').
Proof.
  unfold refresh_entry_state, fs_read_dir. destruct (fault (tick w)); [done|].
  destruct (scan_entries _ _) as [[es|] w1] eqn:E; [|done]. intros [= <- <-]. eauto.
Qed.
End scan.

(** ** Recovery: what a restarted process finds *)

Section recovery.
Context {T : Type} `{EventContainer T} `{Serde T} `{Chrono} `{Os}.

(** The directory holds no other retry files than the queue's, and their names carry their
    timestamps, which increase. *)
Record disk_names (pq : PersistedQueue) (w : World) : Prop := {
  dn_decode : forall e, e ∈ entries pq -> decode_timestamped_filename (path e) = Some (timestamp e);
  dn_all : forall p c, files w !! p = Some (File c) -> is_Some (decode_timestamped_filename p) ->
           p ∈ path <$> entries pq;
  dn_sorted : StronglySorted (fun e1 e2 => by_timestamp e1 e2 = true) (entries pq);
  dn_distinct : NoDup (timestamp <$> entries pq);
}.

Lemma by_timestamp_total x y : by_timestamp x y = true \/ by_timestamp y x = true.
Proof. unfold by_timestamp. rewrite !Z.leb_le. lia. Qed.

Lemma by_timestamp_trans x y z :
  by_timestamp x y = true -> by_timestamp y z = true -> by_timestamp x z = true.
Proof. unfold by_timestamp. rewrite !Z.leb_le. lia. Qed.

Lemma scan_recovers pq (w : World) (l : list T) es w' n :
  disk_rep pq w l -> disk_names pq w ->
  scan_entries (dir_order n (map_to_list (files w))) w = (Ok es, w') ->
  stable_sort by_timestamp es = entries pq.
Proof.
  intros Hrep Hn E. destruct (scan_spec _ _ _ _ E) as (Hnd & _ & _ & Hin). destruct Hrep, Hn.
  assert (Hperm : es ≡ₚ entries pq).
  { apply NoDup_Permutation; [by eapply NoDup_fmap_1|by eapply NoDup_fmap_1|].
    intros e. rewrite Hin. split.
    - intros (c & Hc & Ht). unfold try_from_path in Ht.
      destruct (decode_timestamped_filename (path e)) as [ts|] eqn:Ed; simpl in Ht; [|done].
      destruct (proj1 (list_elem_of_fmap _ _ _) (dn_all0 _ _ Hc ltac:(by rewrite Ed))) as (e' & Hp & He').
      pose proof (dn_decode0 _ He') as Hd. apply list_elem_of_lookup in He' as Hi. destruct Hi as [i Hi].
      destruct (Forall2_lookup_l _ _ _ _ _ dr_stored0 Hi) as (t & _ & s & _ & Hf & Hsz).
      assert (e = e') as ->; [|done]. rewrite <- Hp in *. destruct e, e'. simpl in *. congruence.
    - intros He. apply list_elem_of_lookup in He as Hi. destruct Hi as [i Hi].
      destruct (Forall2_lookup_l _ _ _ _ _ dr_stored0 Hi) as (t & _ & s & _ & Hf & Hsz).
      exists s. split; [done|]. unfold try_from_path. rewrite (dn_decode0 _ He). simpl.
      rewrite <- Hsz. by destruct e. }
  eapply (StronglySorted_unique_strong _); [|apply stable_sort_sorted; [apply by_timestamp_total|apply by_timestamp_trans]
    |exact dn_sorted0|by rewrite stable_sort_perm].
  intros e1 e2 He1 He2 L1 L2. rewrite stable_sort_perm, Hperm in He1. unfold by_timestamp in *. bool_cases.
  apply list_elem_of_lookup in He1 as [i Hi], He2 as [j Hj].
  assert (i = j) as ->; [|congruence].
  eapply (NoDup_lookup (timestamp <$> entries pq)); [done|..]; rewrite list_lookup_fmap.
  - by rewrite Hi.
  - rewrite Hj. simpl. f_equal. lia.
Qed.
End recovery.

(** ** Lemmas on file names *)

Fixpoint no_char (c : ascii) (s : string) : Prop :=
  match s with EmptyString => True | String a s' => a <> c /\ no_char c s' end.

(** [chrono]: the format is reversible and writes digits only, for the dates it can express in
    digits. *)
Class ChronoLaws `{Chrono} := {
  datetime_ok : DateTime -> Prop;
  parse_format : forall dt, datetime_ok dt -> parse_from_str (format_datetime dt) = Some dt;
  format_chars : forall dt, datetime_ok dt ->
    no_char "-" (format_datetime dt) /\ no_char "." (format_datetime dt);
}.

Lemma split_on_app c s1 s2 :
  no_char c s1 -> split_on c (s1 +:+ String c s2) = s1 :: split_on c s2.
Proof.
  induction s1 as [|a s1 IH]; simpl; intros Hn.
  - by rewrite bool_decide_eq_true_2.
  - destruct Hn as [Hne Hn]. rewrite bool_decide_eq_false_2 by done. by rewrite IH.
Qed.

Lemma split_on_none c s : no_char c s -> split_on c s = [s].
Proof.
  induction s as [|a s IH]; simpl; intros Hn; [done|]. destruct Hn as [Hne Hn].
  rewrite bool_decide_eq_false_2 by done. by rewrite IH.
Qed.

Lemma before_last_none c s : no_char c s -> before_last c s = None.
Proof.
  induction s as [|a s IH]; simpl; intros Hn; [done|]. destruct Hn as [Hne Hn].
  rewrite IH by done. by rewrite bool_decide_eq_false_2.
Qed.

Lemma before_last_app c s1 s2 : no_char c s2 -> before_last c (s1 +:+ String c s2) = Some s1.
Proof.
  intros Hn. induction s1 as [|a s1 IH]; simpl.
  - rewrite before_last_none by done. by rewrite bool_decide_eq_true_2.
  - by rewrite IH.
Qed.

Lemma digit_value_char d : 0 <= d < 10 -> digit_value (digit_char d) = Some d.
Proof.
  intros Hd. assert (d = 0 \/ d = 1 \/ d = 2 \/ d = 3 \/ d = 4 \/ d = 5 \/ d = 6 \/ d = 7 \/ d = 8 \/ d = 9)
    as Hc by lia. by repeat destruct Hc as [->|Hc]; subst.
Qed.

Lemma digit_char_not d c : 0 <= d < 10 -> digit_value c = None -> digit_char d <> c.
Proof. intros Hd Hc <-. by rewrite digit_value_char in Hc. Qed.

Lemma parse_show fuel z acc :
  0 <= z < 10 ^ (Z.of_nat fuel + 1) -> z <= u64_max ->
  parse_digits 0 (show_digits fuel z acc) = parse_digits z acc.
Proof.
  revert z acc. induction fuel as [|fuel IH]; intros z acc Hz Hm; simpl show_digits.
  - change (10 ^ (Z.of_nat 0 + 1)) with 10 in Hz. rewrite Z.mod_small by lia. simpl.
    rewrite digit_value_char by lia. simpl. by rewrite (proj2 (Z.leb_le _ _)).
  - destruct (z <? 10) eqn:E; bool_cases.
    + simpl. rewrite digit_value_char by lia. simpl. by rewrite (proj2 (Z.leb_le _ _)).
    + replace (Z.of_nat (S fuel) + 1) with (Z.succ (Z.of_nat fuel + 1)) in Hz by lia.
      rewrite Z.pow_succ_r in Hz by lia.
      pose proof (Z.div_mod z 10 ltac:(lia)). pose proof (Z.mod_pos_bound z 10 ltac:(lia)).
      rewrite IH by first [lia | split; [apply Z.div_pos; lia|apply Z.div_lt_upper_bound; lia]].
      simpl. rewrite digit_value_char by lia. simpl.
      replace (z / 10 * 10 + z mod 10) with z by lia. by rewrite (proj2 (Z.leb_le _ _)).
Qed.

(** What is printed is digits in front of what was there. *)
Lemma show_no_char fuel z acc c :
  0 <= z -> digit_value c = None -> no_char c acc -> no_char c (show_digits fuel z acc).
Proof.
  revert z acc. induction fuel as [|fuel IH]; intros z acc Hz Hc Hacc; simpl;
    pose proof (Z.mod_pos_bound z 10 ltac:(lia)).
  - split; [apply digit_char_not; [lia|done]|done].
  - destruct (z <? 10) eqn:E; bool_cases; simpl.
    + split; [apply digit_char_not; [lia|done]|done].
    + apply IH; [apply Z.div_pos; lia|done|]. split; [apply digit_char_not; [lia|done]|done].
Qed.

Lemma show_cons fuel z acc : exists c s, show_digits fuel z acc = String c s.
Proof. revert z acc. induction fuel; intros z acc; simpl; [eauto|]. destruct (_ <? _); eauto. Qed.

Lemma parse_show_u64 z : is_u64 z -> parse_u64 (show_u64 z) = Some z.
Proof.
  intros Hz. unfold show_u64. destruct (show_cons 19 z "") as (c & s & E).
  pose proof (parse_show 19 z "") as Hp. pose proof (show_no_char 19 z "" "+") as Hn.
  rewrite E in *. unfold in_range, umax in Hz.
  simpl in Hn. unfold parse_u64. rewrite bool_decide_eq_false_2 by (apply Hn; done || lia).
  rewrite Hp; [done|simpl; lia|unfold umax; lia].
Qed.

Lemma string_app_assoc (s1 s2 s3 : string) : (s1 +:+ s2) +:+ s3 = s1 +:+ (s2 +:+ s3).
Proof.
  induction s1 as [|a s1 IH]; [done|].
  change (String a ((s1 +:+ s2) +:+ s3) = String a (s1 +:+ (s2 +:+ s3))). by rewrite IH.
Qed.

(** ** Lemmas on the retry loop of [pop] *)

Section pop_loop.
Context {T : Type} `{EventContainer T} `{Serde T} `{Chrono} `{Os}.
Context (no_phantom : forall n, fault n <> Some NotFound).

Definition present (w : World) (es : list PersistedEntry) : Prop :=
  NoDup (path <$> es) /\ forall e, e ∈ es -> exists c, files w !! path e = Some (File c).

Lemma try_deserialize_files e w (r : result GenericError (option T)) w' :
  try_deserialize_entry e w = (r, w') ->
  (files w' = files w \/ files w' = delete (path e) (files w)) /\
  ((exists c, files w !! path e = Some (File c)) -> r <> Ok None).
Proof using no_phantom.
  unfold try_deserialize_entry, fs_read, fs_remove_file. intros E. simpl in E.
  pose proof (no_phantom (tick w)).
  destruct (fault (tick w)) as [k|]; [destruct k; simplify_eq/=; by auto|].
  destruct (files w !! path e) as [[c|]|] eqn:Ef; simplify_eq/=; [|by auto|].
  - destruct (from_slice c); simpl in *; destruct (fault _); simplify_eq/=; rewrite ?Ef; by auto.
  - split; [by auto|]. by intros [? ?].
Qed.

Lemma present_tail w w' e es :
  present w (e :: es) -> files w' = files w \/ files w' = delete (path e) (files w) -> present w' es.
Proof.
  intros [Hnd Hp] Hf. apply NoDup_cons in Hnd as [Hni Hnd]. split; [done|]. intros e' He'.
  destruct (Hp e') as [c Hc]; [by right|]. exists c. destruct Hf as [-> | ->]; [done|].
  rewrite lookup_delete_ne; [done|]. intros Heq. destruct Hni. rewrite Heq.
  apply list_elem_of_fmap. eauto.
Qed.

Lemma refresh_present pq w pq' w' :
  refresh_entry_state pq w = (Ok tt, pq', w') ->
  present w' (entries pq') /\ (length (entries pq') <= size (files w))%nat.
Proof.
  intros E. apply refresh_ok in E as (n & es & -> & E). simpl.
  destruct (scan_spec (step_world w) es w' n E) as (Hnd & Hf & Hlen & Hin).
  rewrite length_stable_sort. split; [|done]. split; [by rewrite stable_sort_perm|].
  intros e He. rewrite stable_sort_perm, Hin in He. destruct He as (c & Hc & _).
  exists c. by rewrite Hf.
Qed.

(** While every entry is on disk an iteration returns or drops one entry. *)
Lemma pop_present fuel pq w :
  present w (entries pq) -> (length (entries pq) < fuel)%nat ->
  exists r : result GenericError (option T) * PersistedQueue * World, PersistedQueue_pop fuel pq w = Some r.
Proof using no_phantom.
  revert pq w. induction fuel as [|fuel IH]; intros pq w Hp Hf; [lia|]. simpl.
  destruct (entries pq) as [|e es] eqn:Ees; [by eauto|].
  destruct (try_deserialize_entry e w) as [r w'] eqn:E.
  apply try_deserialize_files in E as [Hfs Hne]. pose proof (present_tail _ _ _ _ Hp Hfs) as Hp'.
  destruct r as [[t|]|err]; [by eauto| |].
  - destruct Hne; [|done]. destruct Hp as [_ Hp]. apply Hp. left.
  - apply IH; simpl in *; [done|lia].
Qed.

Lemma pop_total fuel pq w :
  (length (entries pq) + size (files w) + 1 < fuel)%nat ->
  exists r : result GenericError (option T) * PersistedQueue * World, PersistedQueue_pop fuel pq w = Some r.
Proof using no_phantom.
  revert pq w. induction fuel as [|fuel IH]; intros pq w Hf; [lia|]. simpl.
  destruct (entries pq) as [|e es] eqn:Ees; [by eauto|]. simpl in Hf.
  destruct (try_deserialize_entry e w) as [r w'] eqn:E.
  apply try_deserialize_files in E as [Hfs _].
  assert (Hsz : (size (files w') <= size (files w))%nat).
  { apply map_subseteq_size. destruct Hfs as [-> | ->]; [done|apply delete_subseteq]. }
  destruct r as [[t|]|err]; [by eauto| |].
  - destruct (refresh_entry_state _ w') as [[[[]|e'] pq2] w2] eqn:Er; [|by eauto].
    apply refresh_present in Er as [Hp Hlen]. apply pop_present; [done|lia].
  - apply IH. simpl. lia.
Qed.
End pop_loop.

Section names.
Context `{Chrono} `{!ChronoLaws}.

Lemma split_retry_filename dt nonce :
  datetime_ok dt -> is_u64 nonce ->
  split_on "-" (file_stem (retry_filename dt nonce)) = ["retry"; format_datetime dt; show_u64 nonce].
Proof.
  intros Hdt Hn. destruct (format_chars dt Hdt) as [Hdash Hdot]. unfold retry_filename.
  assert (Hstem : file_stem ("retry-" +:+ format_datetime dt +:+ "-" +:+ show_u64 nonce +:+ ".json")
                  = "retry-" +:+ format_datetime dt +:+ "-" +:+ show_u64 nonce).
  { unfold file_stem. rewrite bool_decide_eq_false_2 by done.
    rewrite <- !string_app_assoc. change ".json" with (String "." "json").
    rewrite before_last_app by (repeat split; discriminate). done. }
  rewrite Hstem. change ("retry-" +:+ ?s) with ("retry" +:+ String "-" s).
  rewrite split_on_app by (repeat split; discriminate).
  change ("-" +:+ show_u64 nonce) with (String "-" (show_u64 nonce)).
  rewrite split_on_app by done.
  by rewrite (split_on_none "-" (show_u64 nonce))
    by (apply show_no_char; [unfold in_range in Hn; lia|done..]).
Qed.

Lemma retry_filename_inj dt1 dt2 n1 n2 :
  datetime_ok dt1 -> datetime_ok dt2 -> is_u64 n1 -> is_u64 n2 ->
  retry_filename dt1 n1 = retry_filename dt2 n2 -> dt1 = dt2.
Proof.
  intros Hdt1 Hdt2 Hn1 Hn2 E. apply (f_equal (fun s => split_on "-" (file_stem s))) in E.
  rewrite !split_retry_filename in E by done. simplify_eq.
  pose proof (parse_format dt1 Hdt1). pose proof (parse_format dt2 Hdt2). congruence.
Qed.
End names.

(** ** Reference environment

    Concrete instances of the parameters: a clock that advances one second per operation, strings
    as entries, and a date format in unary. *)

Fixpoint ones (n : nat) (s : string) : string :=
  match n with O => s | S n' => String "1" (ones n' s) end.

Fixpoint count_ones (s : string) : nat * string :=
  match s with
  | String "1" s' => let '(n, r) := count_ones s' in (S n, r)
  | _ => (O, s)
  end.

Definition Chrono_ref : Chrono := {|
  format_datetime := fun dt =>
    ones (Z.to_nat (dt_timestamp dt)) (String "0" (ones (Z.to_nat (dt_subsec_nanos dt)) ""));
  parse_from_str := fun s =>
    match count_ones s with
    | (secs, String "0" s') =>
        match count_ones s' with
        | (nanos, "") => Some {| dt_timestamp := Z.of_nat secs; dt_subsec_nanos := Z.of_nat nanos |}
        | _ => None
        end
    | _ => None
    end;
|}.

Lemma count_ones_ones n s : (count_ones s).1 = O -> count_ones (ones n s) = (n, s).
Proof.
  intros Hs. induction n as [|n IH]; simpl; [|by rewrite IH].
  destruct s as [|a s]; [done|]. revert Hs. simpl. repeat case_match; done.
Qed.

Lemma ones_no_char n s c : c <> "1"%char -> no_char c s -> no_char c (ones n s).
Proof. intros Hc Hs. induction n; simpl; [done|]. split; congruence. Qed.

#[local] Instance ChronoLaws_ref : @ChronoLaws Chrono_ref.
Proof.
  refine {| datetime_ok := fun dt => 0 <= dt_timestamp dt /\ 0 <= dt_subsec_nanos dt |}.
  - intros [secs ns] [Hs Hn]. simpl in *. rewrite count_ones_ones by done.
    rewrite count_ones_ones by done. by rewrite !Z2Nat.id.
  - intros [secs ns] [Hs Hn]. simpl in *.
    split; (apply ones_no_char; [done|]; split; [done|]; by apply ones_no_char).
Defined.

(** The disk has [total] bytes, of which [available] are free. *)
Definition Os_ref (total available : Z) : Os.
Proof.
  refine {| fault := fun _ => None; residue := fun _ => None; dir_order := fun _ l => reverse l;
            utc_now := fun n => {| dt_timestamp := Z.of_nat n; dt_subsec_nanos := 0 |};
            system_now_ns := fun n => Z.of_nat n * 1000000000;
            random_nonce := fun n => 123456789;
            os_total_space := fun _ => Ok total; os_available_space := fun _ => Ok available |}.
  intros n l. apply reverse_Permutation.
Defined.

Lemma ReliableOs_ref total available : @ReliableOs Chrono_ref (Os_ref total available).
Proof.
  split; [done|by eexists..|]. unfold name_at. simpl.
  intros n m E%retry_filename_inj; simpl; [simplify_eq; lia|lia..|done|done].
Qed.

Definition Serde_ref : Serde string := {|
  to_vec := fun s => Some (list_byte_of_string s);
  from_slice := fun l => Some (string_of_list_byte l);
|}.

Lemma SerdeLaws_ref : @SerdeLaws string Serde_ref.
Proof. intros t s. cbn. intros [= <-]. f_equal. apply string_of_list_byte_of_string. Qed.

(** ** Theorems *)

(** The name the queue gives a file decodes to the timestamp it was made from, for every date
    the format can express and every nonce. *)
Theorem filename_roundtrip `{Chrono} `{!ChronoLaws} dt nonce :
  datetime_ok dt -> is_u64 nonce ->
  decode_timestamped_filename (retry_filename dt nonce) = Some (datetime_to_timestamp dt).
Proof.
  intros Hdt Hn. unfold decode_timestamped_filename. rewrite split_retry_filename by done.
  rewrite parse_show_u64 by done. rewrite !bool_decide_eq_true_2 by done. simpl.
  by rewrite parse_format.
Qed.

Section theorems.
Context {T : Type} `{EventContainer T} `{Serde T} `{!SerdeLaws T} `{Chrono} `{Os} `{!ReliableOs}.

(** C36: Persisting an entry, on a disk that does not fail, implements a bounded queue of items: it
    drops the shortest prefix of the oldest items that brings the total within the limit in force
    (the configured maximum or what the disk usage ratio leaves, whichever is lower), reports
    exactly the dropped items, and appends the new one; the bytes on disk are counted exactly and
    stay within the configured maximum. *)
Theorem persisted_push_refines (t : T) pq w l :
  disk_rep pq w l -> disk_accepts t pq ->
  exists limit pq' w',
    limit_at pq (step_world w) = Ok limit /\
    let k := prefix_covering disk_size (sumZ disk_size l + disk_size t - limit) l in
    PersistedQueue_push t pq w = (Ok (tally (take k l)), pq', w') /\
    disk_rep pq' w' (drop k l ++ [t]).
Proof.
  intros Hrep Hacc. destruct (disk_push_rep t pq w l Hrep Hacc) as (limit & pq' & w' & ? & ? & ? & _).
  by exists limit, pq', w'.
Qed.

(** Consuming from the disk, on a disk that does not fail, yields the oldest item, exactly as
    it was pushed, and removes it; on an empty queue it yields nothing. *)
Theorem persisted_pop_oldest fuel pq w (l : list T) :
  disk_rep pq w l -> (0 < fuel)%nat ->
  exists pq' w', PersistedQueue_pop fuel pq w = Some (Ok (head l), pq', w') /\ disk_rep pq' w' (tail l).
Proof.
  intros Hrep Hf. destruct (disk_pop_rep fuel pq w l Hrep Hf) as (pq' & w' & ? & ? & _). by exists pq', w'.
Qed.

(** Nothing is lost over a restart: a process that opens the directory again, in whatever order
    the operating system lists it, finds the same entries in the same order and the same byte
    count, and so represents the same items. *)
Theorem reopening_recovers pq w (l : list T) ratio age :
  disk_rep pq w l -> disk_names pq w ->
  exists pq' w', from_root_path (max_on_disk_bytes pq) ratio age w = (Ok pq', w') /\
    entries pq' = entries pq /\ disk_rep pq' w' l.
Proof.
  intros Hrep Hn. unfold from_root_path, fs_probe, refresh_entry_state, fs_read_dir.
  rewrite !no_fault. simpl.
  set (w1 := step_world (step_world w)).
  destruct (scan_entries_total (dir_order (S (tick w)) (map_to_list (files w))) w1 no_fault)
    as (es & w2 & E).
  rewrite E.
  assert (Hrep1 : disk_rep pq w1 l).
  { destruct Hrep. split; try done. intros n Hle. apply dr_fresh0. simpl in Hle. lia. }
  assert (Hn1 : disk_names pq w1) by (destruct Hn; by split).
  pose proof (scan_recovers pq w1 l es w2 _ Hrep1 Hn1 E) as Hes. rewrite Hes.
  eexists _, w2. split_and!; [done|done|].
  destruct (scan_spec w1 es w2 _ E) as (_ & Hf & _ & _).
  pose proof (disk_rep_total _ _ _ Hrep1) as Htot. destruct Hrep1.
  pose proof (sumZ_nonneg disk_size l (fun t _ => disk_size_nonneg t)).
  split; simpl; try done.
  - eapply stored_files; [done|]. intros p _. by rewrite Hf.
  - rewrite wrap_small; [done|]. unfold in_range, umax. lia.
  - rewrite wrap_small by (unfold in_range, umax; lia). lia.
  - intros n Hle. rewrite Hf. apply dr_fresh0.
    pose proof (scan_entries_tick _ _ _ _ E). lia.
Qed.
End theorems.

(** The retry loop of [pop] ends: unless the operating system reports as missing a file that it
    lists, a missing file costs one rescan of the directory, after which every iteration returns or
    drops an entry; so as many iterations as there are entries and files, and two, are enough. *)
Theorem persisted_pop_terminates {T} `{EventContainer T} `{Serde T} `{Chrono} `{Os} pq w fuel :
  (forall n, fault n <> Some NotFound) ->
  (length (entries pq) + size (files w) + 1 < fuel)%nat ->
  exists r : result GenericError (option T) * PersistedQueue * World, PersistedQueue_pop fuel pq w = Some r.
Proof. intros. by apply pop_total. Qed.

(** An entry whose file is gone is evicted without its bytes being discounted: the queue ends up
    empty while it still counts them. *)
Lemma eviction_of_missing_file {T} `{EventContainer T} `{Serde T} `{Chrono} `{Os} e limit required pr pq w :
  fault (tick w) = None -> files w !! path e = None ->
  limit < u64_add (total_on_disk_bytes pq) required ->
  exists w', eviction_loop (T := T) [e] limit required pr pq w =
    (pr, with_entries [] (total_on_disk_bytes pq) pq, w').
Proof.
  intros Hf He Hl. simpl. rewrite (proj2 (Z.ltb_lt _ _)) by done.
  unfold try_deserialize_entry, fs_read. rewrite Hf, He. simpl. eauto.
Qed.

(** ** Witnesses *)

Section witnesses.
#[local] Existing Instances Chrono_ref Serde_ref.
#[local] Instance Os_large : Os := Os_ref 1000000 1000000.
#[local] Instance Reliable_large : ReliableOs := ReliableOs_ref 1000000 1000000.
#[local] Instance SerdeLaws_string : SerdeLaws string := SerdeLaws_ref.

(** Two entries of three bytes in a directory that may hold eight bytes. *)
Definition example_entry (n : nat) : PersistedEntry :=
  {| path := name_at n; timestamp := datetime_to_timestamp (utc_now n); entry_size_bytes := 3 |}.

Definition example_queue : PersistedQueue :=
  {| entries := [example_entry 0; example_entry 1]; total_on_disk_bytes := 6; max_on_disk_bytes := 8;
     storage_max_disk_ratio := f64_one; max_age_days := 10; entries_dropped := 0 |}.

Definition example_world : World :=
  {| files := <[name_at 0 := File (list_byte_of_string "abc")]>
                (<[name_at 1 := File (list_byte_of_string "def")]>
                  (<["README" := File (list_byte_of_string "x")]> ∅));
     tick := 2 |}.

Lemma example_rep : disk_rep (T := string) example_queue example_world ["abc"; "def"].
Proof.
  split.
  - constructor; [|constructor; [|constructor]]; eexists; split_and!; (done || by vm_compute).
  - apply (bool_decide_eq_true_1 _). by vm_compute.
  - done.
  - by vm_compute.
  - intros n Hn. simpl in *.
    rewrite !lookup_insert_ne; [done|done|..]; intros E%names_distinct; lia.
Qed.

Lemma example_names : disk_names example_queue example_world.
Proof.
  split.
  - intros e He. unfold example_queue in He. simpl in He.
    rewrite !elem_of_cons in He. destruct He as [->|[->|He]]; [by vm_compute..|].
    by apply not_elem_of_nil in He.
  - intros p c Hp Hd. simpl in *. rewrite !lookup_insert_Some in Hp.
    destruct Hp as [[<- _]|[_ [[<- _]|[_ [[<- _]|[_ ?]]]]]]; [set_solver..| |done].
    by destruct Hd as [? [=]].
  - repeat constructor; by vm_compute.
  - apply (bool_decide_eq_true_1 _). by vm_compute.
Qed.

Lemma filename_roundtrip_witness :
  decode_timestamped_filename (retry_filename {| dt_timestamp := 7; dt_subsec_nanos := 0 |} 123456789) =
    Some 7000000000.
Proof. rewrite filename_roundtrip; [by vm_compute|by vm_compute|by vm_compute]. Defined.

Lemma persisted_push_refines_witness :
  exists pq' w', PersistedQueue_push "xyz" example_queue example_world =
      (Ok (tally ["abc"]), pq', w') /\ disk_rep pq' w' ["def"; "xyz"].
Proof.
  destruct (persisted_push_refines "xyz" example_queue example_world ["abc"; "def"] example_rep)
    as (limit & pq' & w' & El & Ep & Hr); [split; [by eexists|by vm_compute]|].
  assert (limit = 8) as -> by (vm_compute in El; congruence).
  exists pq', w'. split; [exact Ep|exact Hr].
Defined.

Lemma persisted_pop_oldest_witness :
  exists pq' w', PersistedQueue_pop 1 example_queue example_world = Some (Ok (Some "abc"), pq', w') /\
    disk_rep pq' w' ["def"].
Proof. exact (persisted_pop_oldest 1 example_queue example_world ["abc"; "def"] example_rep ltac:(lia)). Defined.

Lemma reopening_recovers_witness :
  exists pq' w', from_root_path 8 f64_one 10 example_world = (Ok pq', w') /\
    entries pq' = [example_entry 0; example_entry 1] /\ disk_rep pq' w' ["abc"; "def"].
Proof.
  exact (reopening_recovers example_queue example_world ["abc"; "def"] f64_one 10 example_rep example_names).
Defined.

Lemma persisted_pop_terminates_witness :
  exists r : result GenericError (option string) * PersistedQueue * World,
    PersistedQueue_pop 5 example_queue {| files := ∅; tick := 9 |} = Some r.
Proof.
  apply (persisted_pop_terminates example_queue {| files := ∅; tick := 9 |} 5); [done|].
  vm_compute. lia.
Defined.
End witnesses.

(** A full disk does not stop the writes: with no byte left for retry files the queue evicts
    everything and still writes the new entry. *)
Example write_on_full_disk :
  let _ := Chrono_ref in let _ := Serde_ref in let _ := Os_ref 1000 0 in
  let pq := {| entries := []; total_on_disk_bytes := 0; max_on_disk_bytes := 8;
               storage_max_disk_ratio := f64_scale 1 (-1); max_age_days := 10; entries_dropped := 0 |} in
  let w := {| files := ∅; tick := 0 |} in
  limit_at pq w = Ok 0 /\
  let '(r, pq', _) := PersistedQueue_push "abc" pq w in
  r = Ok PushResult_default /\ total_on_disk_bytes pq' = 3.
Proof. vm_compute. done. Qed.
