(* ===== verification/RetryQueue.v ===== *)
(** * RetryQueue: the bounded in-memory queue in front of the disk

    Models [lib/saluki-io/src/net/util/retry/queue/mod.rs].  The queue is generic in the overflow
    queue behind it: its theorems about memory hold for every [DiskQueue], whatever errors it
    returns, and those about the items for every one with the laws [DiskQueueLaws]. *)

From Stdlib Require Import ZArith Lia Strings.String Sorted Floats.SpecFloat.
From stdpp Require Import base tactics list numbers option gmap strings.
From S2P Require Import Prelude Bytes Float64 Retryable PersistedQueue.
Open Scope Z_scope.

Record RetryQueue (T P : Type) := {
  queue_name : string;
  pending : list T;
  persisted_pending : option P;
  total_in_memory_bytes : Z;
  max_in_memory_bytes : Z;
  flush_to_disk_mem_ratio : f64;
}.
Arguments queue_name {T P}.
Arguments pending {T P}.
Arguments persisted_pending {T P}.
Arguments total_in_memory_bytes {T P}.
Arguments max_in_memory_bytes {T P}.
Arguments flush_to_disk_mem_ratio {T P}.

Definition DEFAULT_FLUSH_TO_DISK_MEM_RATIO : f64 := f64_scale 1 (-1).

Definition flush_to_disk_bytes (max_bytes : Z) (ratio : f64) : Z :=
  if f64_leb ratio f64_zero || is_nan ratio then 0
  else if is_infinite ratio then u64_max
  else f64_to_u64 (f64_mul (f64_of_Z max_bytes) ratio).

Section queue.
Context {T P W : Type} `{Retryable T} `{DiskQueue T P W}.

Definition RetryQueue_new (name : string) (max_bytes : Z) : RetryQueue T P :=
  {| queue_name := name; pending := []; persisted_pending := None; total_in_memory_bytes := 0;
     max_in_memory_bytes := max_bytes; flush_to_disk_mem_ratio := DEFAULT_FLUSH_TO_DISK_MEM_RATIO |}.

Definition with_flush_to_disk_mem_ratio (ratio : f64) (q : RetryQueue T P) : RetryQueue T P :=
  {| queue_name := queue_name q; pending := pending q; persisted_pending := persisted_pending q;
     total_in_memory_bytes := total_in_memory_bytes q; max_in_memory_bytes := max_in_memory_bytes q;
     flush_to_disk_mem_ratio := ratio |}.

Definition with_pending (l : list T) (total : Z) (p : option P) (q : RetryQueue T P) : RetryQueue T P :=
  {| queue_name := queue_name q; pending := l; persisted_pending := p;
     total_in_memory_bytes := total; max_in_memory_bytes := max_in_memory_bytes q;
     flush_to_disk_mem_ratio := flush_to_disk_mem_ratio q |}.

Definition RetryQueue_is_empty (q : RetryQueue T P) : bool :=
  match pending q with [] => true | _ => false end &&
  match persisted_pending q with None => true | Some p => dq_is_empty p end.

Definition RetryQueue_len (q : RetryQueue T P) : nat :=
  length (pending q) + match persisted_pending q with None => 0 | Some p => dq_len p end.

Definition available_in_memory_capacity_bytes (q : RetryQueue T P) : Z :=
  saturating_sub (max_in_memory_bytes q) (total_in_memory_bytes q).

(** Moving one evicted entry to the disk, or dropping it. *)
Definition evict_one (entry : T) (push_result : PushResult) (persisted : option P) (w : W) :
    PushResult * option P * W :=
  match persisted with
  | Some p =>
      let '(r, p, w) := dq_push entry p w in
      match r with
      | Ok persist_result => (merge push_result persist_result, Some p, w)
      | Err _ =>
          ({| items_dropped := u64_add (items_dropped push_result) 1;
              events_dropped := u64_add (events_dropped push_result) (event_count entry);
              data_points_dropped := u64_add (data_points_dropped push_result) (data_point_count entry) |},
           Some p, w)
      end
  | None => (track_dropped_item entry push_result, None, w)
  end.

(** The [while] loop of [push]: the entries left, the bytes they account for, and the results. *)
Fixpoint evict_loop (l : list T) (bytes_to_remove bytes_removed total : Z)
    (push_result : PushResult) (persisted : option P) (w : W) :
    list T * Z * PushResult * option P * W :=
  match l with
  | [] => ([], total, push_result, persisted, w)
  | oldest_entry :: l' =>
      if bytes_removed <? bytes_to_remove then
        let '(push_result, persisted, w) := evict_one oldest_entry push_result persisted w in
        evict_loop l' bytes_to_remove (u64_add bytes_removed (size_bytes oldest_entry))
          (u64_sub total (size_bytes oldest_entry)) push_result persisted w
      else (l, total, push_result, persisted, w)
  end.

(** How much [push] has to evict for an entry of [size] bytes. *)
Definition bytes_to_remove (size : Z) (q : RetryQueue T P) : Z :=
  let required_bytes :=
    saturating_sub (u64_saturating_add (total_in_memory_bytes q) size) (max_in_memory_bytes q) in
  if match persisted_pending q with Some _ => true | None => false end && (0 <? required_bytes)
  then Z.max required_bytes (flush_to_disk_bytes (max_in_memory_bytes q) (flush_to_disk_mem_ratio q))
  else required_bytes.

Definition RetryQueue_push (entry : T) (q : RetryQueue T P) (w : W) :
    result GenericError PushResult * RetryQueue T P * W :=
  let current_entry_size := size_bytes entry in
  if max_in_memory_bytes q <? current_entry_size
  then (Err (EntryTooLarge current_entry_size (max_in_memory_bytes q)), q, w)
  else
    let '(l, total, push_result, persisted, w) :=
      evict_loop (pending q) (bytes_to_remove current_entry_size q) 0 (total_in_memory_bytes q)
        PushResult_default (persisted_pending q) w in
    (Ok push_result, with_pending (l ++ [entry]) (u64_add total current_entry_size) persisted q, w).

(** [fuel] bounds the retry loop of the disk queue. *)
Definition RetryQueue_pop (fuel : nat) (q : RetryQueue T P) (w : W) :
    option (result GenericError (option T) * RetryQueue T P * W) :=
  match pending q with
  | entry :: l =>
      Some (Ok (Some entry),
            with_pending l (u64_sub (total_in_memory_bytes q) (size_bytes entry)) (persisted_pending q) q, w)
  | [] =>
      match persisted_pending q with
      | Some p =>
          '(r, p, w) ← dq_pop fuel p w;
          Some (r, with_pending [] (total_in_memory_bytes q) (Some p) q, w)
      | None => Some (Ok None, q, w)
      end
  end.

(** [flush] consumes the queue; what is left is the disk queue and the world. *)
Fixpoint flush_loop (l : list T) (push_result : PushResult) (persisted : option P) (w : W) :
    result GenericError PushResult * option P * W :=
  match l with
  | [] => (Ok push_result, persisted, w)
  | entry :: l' =>
      match persisted with
      | Some p =>
          let '(r, p, w) := dq_push entry p w in
          match r with
          | Err e => (Err e, Some p, w)
          | Ok persist_result => flush_loop l' (merge push_result persist_result) (Some p) w
          end
      | None => flush_loop l' (track_dropped_item entry push_result) None w
      end
  end.

Definition RetryQueue_flush (q : RetryQueue T P) (w : W) :
    result GenericError PushResult * option P * W :=
  flush_loop (pending q) PushResult_default (persisted_pending q) w.
End queue.

(** [with_disk_persistence], [available_on_disk_capacity_bytes] and
    [take_persisted_entries_dropped] on the file-backed queue. *)
Section persistence.
Context {T : Type} `{Retryable T} `{Serde T} `{Chrono} `{Os}.

Definition with_disk_persistence (root_path : string) (max_bytes : Z) (ratio : f64) (age_days : Z)
    (q : RetryQueue T PersistedQueue) (w : World) :
    result GenericError (RetryQueue T PersistedQueue) * World :=
  if bool_decide (root_path = "") then (Err EmptyStoragePath, w)
  else
    let '(r, w) := from_root_path max_bytes ratio age_days w in
    match r with
    | Err e => (Err e, w)
    | Ok p =>
        let '(_, p, w) := remove_stale_files p w in
        (Ok (with_pending (pending q) (total_in_memory_bytes q) (Some p) q), w)
    end.

Definition available_on_disk_capacity_bytes (q : RetryQueue T PersistedQueue) (w : World) :
    result GenericError Z * World :=
  match persisted_pending q with
  | Some p => available_capacity_bytes p w
  | None => (Ok 0, w)
  end.

Definition take_persisted_entries_dropped (q : RetryQueue T PersistedQueue) :
    Z * RetryQueue T PersistedQueue :=
  match persisted_pending q with
  | Some p =>
      let '(n, p) := take_entries_dropped p in
      (n, with_pending (pending q) (total_in_memory_bytes q) (Some p) q)
  | None => (0, q)
  end.
End persistence.

(** ** Specification *)

Section spec.
Context {T P W : Type} `{Retryable T} `{DiskQueue T P W}.
Implicit Types (q : RetryQueue T P) (l : list T) (w : W).

(** The bytes in memory are counted exactly and within the limit.  The limit is assumed below
    [2^63], so that the sum of two sizes within it does not saturate. *)
Record queue_ok (q : RetryQueue T P) : Prop := {
  qo_total : total_in_memory_bytes q = sumZ size_bytes (pending q);
  qo_bound : total_in_memory_bytes q <= max_in_memory_bytes q < 2 ^ 63;
}.

(** ** Lemmas *)

Lemma sizes_nonneg l : 0 <= sumZ size_bytes l.
Proof. apply sumZ_nonneg. intros t _. by destruct (size_bytes_u64 t). Qed.

Lemma flush_to_disk_bytes_range m r : is_u64 (flush_to_disk_bytes m r).
Proof.
  unfold flush_to_disk_bytes. repeat case_match; [done|done|]. by apply f64_to_u_range.
Qed.

Lemma bytes_to_remove_spec size q :
  queue_ok q -> 0 <= size <= max_in_memory_bytes q ->
  let n := bytes_to_remove size q in
  total_in_memory_bytes q + size - max_in_memory_bytes q <= n /\ 0 <= n.
Proof.
  intros [Htot Hb] Hs. pose proof (sizes_nonneg (pending q)). unfold bytes_to_remove.
  unfold saturating_add, saturating_sub, umax.
  destruct (flush_to_disk_bytes_range (max_in_memory_bytes q) (flush_to_disk_mem_ratio q)).
  destruct (_ && _); lia.
Qed.

(** Evicting a list of entries, one after the other. *)
Fixpoint evict_all (l : list T) (pr : PushResult) (p : option P) (w : W) : PushResult * option P * W :=
  match l with
  | [] => (pr, p, w)
  | t :: l' => let '(pr, p, w) := evict_one t pr p w in evict_all l' pr p w
  end.

(** The loop evicts the shortest prefix that covers what is to be removed. *)
Lemma evict_loop_spec l to_remove removed total pr p w :
  0 <= removed -> removed + sumZ size_bytes l <= u64_max -> total = sumZ size_bytes l ->
  let k := prefix_covering size_bytes (to_remove - removed) l in
  evict_loop l to_remove removed total pr p w =
    let '(pr', p', w') := evict_all (take k l) pr p w in
    (drop k l, sumZ size_bytes (drop k l), pr', p', w').
Proof.
  revert removed total pr p w. induction l as [|t l IH]; intros removed total pr p w Hr Hm Ht; simpl in *.
  - by subst.
  - destruct (size_bytes_u64 t). pose proof (sizes_nonneg l).
    destruct (removed <? to_remove) eqn:E; destruct (0 <? to_remove - removed) eqn:E'; bool_cases; try lia.
    + simpl. destruct (evict_one t pr p w) as [[pr1 p1] w1].
      rewrite wrapping_add_exact by (unfold in_range; lia).
      rewrite wrapping_sub_exact by (unfold in_range; lia).
      rewrite IH by lia.
      by replace (to_remove - (removed + size_bytes t)) with (to_remove - removed - size_bytes t) by lia.
    + by subst.
Qed.

(** The number of entries a push of [t] evicts. *)
Definition evicted (t : T) q : nat :=
  prefix_covering size_bytes (bytes_to_remove (size_bytes t) q) (pending q).

(** A push within the size limit evicts, then appends; the entries left are within the limit. *)
Lemma push_spec t q w :
  queue_ok q -> size_bytes t <= max_in_memory_bytes q ->
  let left := drop (evicted t q) (pending q) ++ [t] in
  RetryQueue_push t q w =
    (let '(pr, p, w) := evict_all (take (evicted t q) (pending q)) PushResult_default (persisted_pending q) w in
     (Ok pr, with_pending left (sumZ size_bytes left) p q, w)) /\
  sumZ size_bytes left <= max_in_memory_bytes q.
Proof.
  intros Hok Hs left. destruct (size_bytes_u64 t) as [Hs0 _]. pose proof (sizes_nonneg (pending q)).
  pose proof (bytes_to_remove_spec (size_bytes t) q Hok (conj Hs0 Hs)) as [Hn Hn0].
  destruct (Hok) as [Htot Hb]. unfold left, evicted.
  set (need := bytes_to_remove (size_bytes t) q) in *.
  pose proof (evict_loop_spec (pending q) need 0 (total_in_memory_bytes q) PushResult_default
                (persisted_pending q) w ltac:(lia) ltac:(unfold umax; lia) Htot) as E.
  rewrite Z.sub_0_r in E. cbv zeta in E.
  pose proof (prefix_covering_spec size_bytes need (pending q)) as Hc. cbv zeta in Hc.
  set (k := prefix_covering size_bytes need (pending q)) in *.
  assert (Hroom : sumZ size_bytes (drop k (pending q)) + size_bytes t <= max_in_memory_bytes q).
  { destruct Hc as (_ & [-> | Hcov] & _); [rewrite drop_all; simpl; lia|].
    pose proof (sumZ_take_drop size_bytes k (pending q)). lia. }
  pose proof (sizes_nonneg (drop k (pending q))).
  rewrite sumZ_app. simpl. rewrite Z.add_0_r. split; [|lia].
  unfold RetryQueue_push. rewrite (proj2 (Z.ltb_ge _ _)) by lia. fold need. rewrite E.
  destruct (evict_all _ _ _ _) as [[pr p] w'].
  by rewrite wrapping_add_exact by (unfold in_range, umax; lia).
Qed.

(** Without a disk the evicted entries are the dropped ones. *)
Lemma evict_all_no_disk l l0 w : evict_all l (tally l0) None w = (tally (l0 ++ l), None, w).
Proof.
  revert l0. induction l as [|t l IH]; intros l0; simpl; [by rewrite app_nil_r|].
  by rewrite track_tally, IH, <- app_assoc.
Qed.
End spec.

(** ** The queue as a whole, over a disk queue that keeps its promises *)

Section refinement.
Context {T P W : Type} `{Retryable T} `{DQ : DiskQueue T P W} `{!DiskQueueLaws T P W}.
Implicit Types (q : RetryQueue T P) (l mem disk : list T) (w : W).

(** The queue holds the items [mem] in memory and [disk] on disk, oldest first; every item in
    memory could be moved to the disk. *)
Record queue_rep q w mem disk : Prop := {
  qr_ok : queue_ok q;
  qr_mem : pending q = mem;
  qr_disk : match persisted_pending q with
            | Some p => dq_rep p w disk /\ Forall (fun t => dq_accepts t p) mem
            | None => disk = []
            end;
}.

(** An item the queue takes: it fits in memory, and on disk when there is one. *)
Definition acceptable (q : RetryQueue T P) (t : T) : Prop :=
  size_bytes t <= max_in_memory_bytes q /\
  match persisted_pending q with Some p => dq_accepts t p | None => True end.

(** With a disk the evicted entries go behind those on disk, and what is dropped is a prefix. *)
Lemma evict_all_disk l l0 p w disk :
  dq_rep p w disk -> Forall (fun t => dq_accepts t p) l ->
  exists p' w' dropped kept,
    evict_all l (tally l0) (Some p) w = (tally (l0 ++ dropped), Some p', w') /\
    dq_rep p' w' kept /\ dropped ++ kept = disk ++ l /\ (forall u, dq_accepts u p -> dq_accepts u p').
Proof.
  revert l0 p w disk. induction l as [|t l IH]; intros l0 p w disk Hrep Hacc; simpl.
  - exists p, w, [], disk. rewrite !app_nil_r. by split_and!.
  - apply Forall_cons_1 in Hacc as [Ht Hacc].
    destruct (dq_push_ok t p w disk Hrep Ht) as (j & p1 & w1 & Ep & Hrep1 & Hmono).
    rewrite Ep, merge_tally.
    destruct (IH (l0 ++ take j disk) p1 w1 _ Hrep1) as (p2 & w2 & dropped & kept & E & Hrep2 & Hd & Hmono2).
    { eapply Forall_impl; [exact Hacc|]. auto. }
    exists p2, w2, (take j disk ++ dropped), kept. rewrite E, <- app_assoc. split_and!; [done..| |auto].
    rewrite <- app_assoc, Hd, <- app_assoc. by rewrite app_assoc, take_drop.
Qed.

Lemma push_rep q w mem disk t :
  queue_rep q w mem disk -> acceptable q t ->
  exists dropped kept q' w',
    RetryQueue_push t q w = (Ok (tally dropped), q', w') /\
    queue_rep q' w' (drop (evicted t q) mem ++ [t]) kept /\
    dropped ++ kept = disk ++ take (evicted t q) mem /\
    (forall u, acceptable q u -> acceptable q' u).
Proof.
  intros [Hok Hmem Hdisk] [Hs Hacc]. destruct (push_spec t q w Hok Hs) as [E Hb]. rewrite E.
  rewrite Hmem in *. change PushResult_default with (tally (@nil T)).
  destruct (Hok) as [_ Hmax].
  destruct (persisted_pending q) as [p|] eqn:Ep.
  - destruct Hdisk as [Hrep Hall].
    destruct (evict_all_disk (take (evicted t q) mem) [] p w disk Hrep) as
      (p' & w' & dropped & kept & Ee & Hrep' & Hd & Hmono); [by apply Forall_take|].
    rewrite Ee. exists dropped, kept. eexists _, w'. split_and!; [done| |done|].
    + split; [split; simpl; [done|lia]|done|]. simpl. split; [done|].
      apply Forall_app. split; [|by constructor; auto].
      apply Forall_drop. eapply Forall_impl; [exact Hall|]. auto.
    + intros u [? Hu]. rewrite Ep in Hu. split; simpl; auto.
  - subst disk. rewrite evict_all_no_disk. exists (take (evicted t q) mem), []. eexists _, w.
    split_and!; [done| |by rewrite app_nil_r|].
    + split; [split; simpl; [done|lia]|done..].
    + intros u [? Hu]. by split.
Qed.

Lemma pop_rep q w mem disk fuel :
  queue_rep q w mem disk -> (0 < fuel)%nat ->
  exists q' w',
    RetryQueue_pop fuel q w = Some (Ok (head (mem ++ disk)), q', w') /\
    queue_rep q' w' (tail mem) (match mem with [] => tail disk | _ => disk end) /\
    (forall u, acceptable q u -> acceptable q' u).
Proof.
  intros [Hok Hmem Hdisk] Hf. unfold RetryQueue_pop. rewrite Hmem. destruct (Hok) as [Htot Hb].
  destruct mem as [|t mem]; simpl.
  - destruct (persisted_pending q) as [p|] eqn:Ep.
    + destruct Hdisk as [Hrep _]. destruct (dq_pop_ok fuel p w disk Hrep Hf) as (p' & w' & E & Hrep' & Hmono).
      rewrite E. eexists _, w'. split_and!; [done| |].
      * split; [split; simpl; [by rewrite Htot, Hmem|done]|done|done].
      * intros u [? Hu]. rewrite Ep in Hu. split; simpl; auto.
    + subst disk. exists q, w. split_and!; [done| |done]. split; [done..|by rewrite Ep].
  - rewrite Hmem in Htot. simpl in Htot. destruct (size_bytes_u64 t). pose proof (sizes_nonneg mem).
    eexists _, w. split_and!; [done| |by intros u [? ?]; split].
    assert (Hsub : u64_sub (total_in_memory_bytes q) (size_bytes t) = sumZ size_bytes mem)
      by (rewrite wrapping_sub_exact by (unfold in_range, umax; lia); lia).
    split; [split; simpl; lia|done|]. simpl. destruct (persisted_pending q); [|done].
    destruct Hdisk as [? Hall]. by apply Forall_cons_1 in Hall as [_ ?].
Qed.

(** ** Runs: sequences of pushes and pops *)

Inductive op := Push (t : T) | Pop.
Inductive outcome := Pushed (r : result GenericError PushResult) | Popped (r : result GenericError (option T)).

Fixpoint run (fuel : nat) (ops : list op) (q : RetryQueue T P) (w : W) :
    option (list outcome * RetryQueue T P * W) :=
  match ops with
  | [] => Some ([], q, w)
  | o :: ops' =>
      '(out, q, w) ← match o with
                     | Push t => let '(r, q, w) := RetryQueue_push t q w in Some (Pushed r, q, w)
                     | Pop => '(r, q, w) ← RetryQueue_pop fuel q w; Some (Popped r, q, w)
                     end;
      '(outs, q, w) ← run fuel ops' q w;
      Some (out :: outs, q, w)
  end.

Definition pushed (ops : list op) : list T :=
  omap (fun o => match o with Push t => Some t | Pop => None end) ops.
Definition popped (outs : list outcome) : list T :=
  omap (fun o => match o with Popped (Ok (Some t)) => Some t | _ => None end) outs.
Definition all_ok (outs : list outcome) : Prop :=
  Forall (fun o => match o with Pushed (Ok _) | Popped (Ok _) => True | _ => False end) outs.
(** What the results of the pushes report together. *)
Definition reported (outs : list outcome) : PushResult :=
  foldr (fun o r => match o with Pushed (Ok pr) => merge pr r | _ => r end) PushResult_default outs.

Lemma run_rep fuel ops q w mem disk :
  queue_rep q w mem disk -> Forall (acceptable q) (pushed ops) -> (0 < fuel)%nat ->
  exists outs q' w' mem' disk' dropped,
    run fuel ops q w = Some (outs, q', w') /\ all_ok outs /\ queue_rep q' w' mem' disk' /\
    reported outs = tally dropped /\
    mem ++ disk ++ pushed ops ≡ₚ popped outs ++ dropped ++ mem' ++ disk'.
Proof.
  intros Hrep Hacc Hf. revert q w mem disk Hrep Hacc.
  induction ops as [|[t|] ops IH]; intros q w mem disk Hrep Hacc; simpl.
  - exists [], q, w, mem, disk, []. split_and!; [done|by constructor|done..|by rewrite app_nil_r].
  - simpl in Hacc. apply Forall_cons_1 in Hacc as [Ht Hacc].
    destruct (push_rep q w mem disk t Hrep Ht) as (dropped & kept & q1 & w1 & E & Hrep1 & Hd & Hmono).
    destruct (IH q1 w1 _ _ Hrep1) as (outs & q' & w' & mem' & disk' & dropped' & Er & Hall & Hrep' & Hrpt & Hp).
    { eapply Forall_impl; [exact Hacc|]. auto. }
    rewrite E. simpl. rewrite Er. exists (Pushed (Ok (tally dropped)) :: outs), q', w', mem', disk', (dropped ++ dropped').
    split_and!; [done|by constructor|done| |].
    + simpl. by rewrite Hrpt, merge_tally.
    + simpl. fold (popped outs). fold (pushed ops).
      rewrite <- (take_drop (evicted t q) mem) at 1.
      transitivity (dropped ++ popped outs ++ dropped' ++ mem' ++ disk'); [|solve_Permutation].
      rewrite <- Hp.
      transitivity ((disk ++ take (evicted t q) mem) ++ (drop (evicted t q) mem ++ [t]) ++ pushed ops);
        [solve_Permutation|]. rewrite <- Hd. solve_Permutation.
  - destruct (pop_rep q w mem disk fuel Hrep Hf) as (q1 & w1 & E & Hrep1 & Hmono).
    destruct (IH q1 w1 _ _ Hrep1) as (outs & q' & w' & mem' & disk' & dropped & Er & Hall & Hrep' & Hrpt & Hp).
    { eapply Forall_impl; [exact Hacc|]. auto. }
    rewrite E. simpl. rewrite Er. eexists _, q', w', mem', disk', dropped.
    split_and!; [done|by constructor|done|done|].
    simpl. fold (popped outs). fold (pushed ops).
    destruct mem as [|t mem]; [destruct disk as [|t disk]|]; simpl in *; rewrite ?Hp; done.
Qed.
End refinement.

(** ** Theorems *)

Section theorems.
Context {T P W : Type} `{Retryable T} `{DQ : DiskQueue T P W}.

(** Whatever the disk behind the queue does, errors included, a push keeps the in-memory bytes
    exactly counted and within the limit, and never fails for an entry within it: the new entry is
    at the back, behind what is left after evicting the shortest prefix of the oldest entries that
    covers the bytes to remove.  An entry larger than the limit is refused and changes nothing. *)
Theorem retry_push_bounded (t : T) (q : RetryQueue T P) (w : W) :
  queue_ok q ->
  let '(r, q', w') := RetryQueue_push t q w in
  queue_ok q' /\ max_in_memory_bytes q' = max_in_memory_bytes q /\
  if max_in_memory_bytes q <? size_bytes t
  then r = Err (EntryTooLarge (size_bytes t) (max_in_memory_bytes q)) /\ q' = q /\ w' = w
  else is_ok r = true /\ exists k,
    pending q' = drop k (pending q) ++ [t] /\
    (k = length (pending q) \/ bytes_to_remove (size_bytes t) q <= sumZ size_bytes (take k (pending q))) /\
    forall j, (j < k)%nat -> sumZ size_bytes (take j (pending q)) < bytes_to_remove (size_bytes t) q.
Proof.
  intros Hok. destruct (max_in_memory_bytes q <? size_bytes t) eqn:E.
  - unfold RetryQueue_push. rewrite E. done.
  - bool_cases. destruct (push_spec t q w Hok E) as [Ep Hb]. rewrite Ep.
    pose proof (prefix_covering_spec size_bytes (bytes_to_remove (size_bytes t) q) (pending q)) as Hc.
    cbv zeta in Hc. destruct Hc as (_ & Hcov & Hmin).
    destruct (evict_all _ _ _ _) as [[pr p] w']. destruct Hok as [_ Hm].
    split_and!; [split; simpl; [done|lia]|done|done|].
    by exists (evicted t q).
Qed.

(** Without a disk, a push drops exactly the entries it evicts, and its result counts those
    entries, their events and their data points. *)
Theorem retry_push_accounts_drops (t : T) (q : RetryQueue T P) (w : W) :
  queue_ok q -> persisted_pending q = None -> size_bytes t <= max_in_memory_bytes q ->
  exists k q', RetryQueue_push t q w = (Ok (tally (take k (pending q))), q', w) /\
    pending q' = drop k (pending q) ++ [t] /\
    (k = 0%nat <-> sumZ size_bytes (pending q) + size_bytes t <= max_in_memory_bytes q \/ pending q = []).
Proof.
  intros Hok Hn Hs. destruct (push_spec t q w Hok Hs) as [Ep Hb]. rewrite Ep, Hn.
  change PushResult_default with (tally (@nil T)). rewrite evict_all_no_disk.
  eexists (evicted t q), _. split_and!; [done|done|].
  unfold evicted, bytes_to_remove. rewrite Hn. simpl. destruct Hok as [Htot Hm]. rewrite Htot.
  destruct (size_bytes_u64 t). pose proof (sizes_nonneg (pending q)).
  unfold saturating_add, saturating_sub, umax.
  destruct (pending q) as [|u l]; simpl in *; [tauto|].
  destruct (0 <? _) eqn:E; bool_cases.
  - split; [done|]. intros [?|?]; [lia|done].
  - split; [intros _; left; lia|done].
Qed.

(** A pop keeps the in-memory bytes exactly counted and within the limit, whatever the disk
    behind the queue does, and yields the oldest in-memory entry when there is one. *)
Theorem retry_pop_bounded fuel (q : RetryQueue T P) (w : W) r q' w' :
  queue_ok q -> RetryQueue_pop fuel q w = Some (r, q', w') ->
  queue_ok q' /\ max_in_memory_bytes q' = max_in_memory_bytes q /\ pending q' = tail (pending q) /\
  (forall t, head (pending q) = Some t -> r = Ok (Some t) /\ persisted_pending q' = persisted_pending q /\ w' = w).
Proof.
  intros [Htot Hb] E. unfold RetryQueue_pop in E. destruct (pending q) as [|t l] eqn:Ep.
  - destruct (persisted_pending q) as [p|] eqn:Ed; [|by simplify_eq; rewrite Ep; split_and!; [split; rewrite ?Ep|..]].
    destruct (dq_pop fuel p w) as [[[r1 p1] w1]|]; simplify_eq/=. by split_and!; [split|..].
  - simplify_eq/=. destruct (size_bytes_u64 t). pose proof (sizes_nonneg l).
    rewrite wrapping_sub_exact by (unfold in_range, umax; lia).
    split_and!; [split; simpl; lia|done|done|]. intros u [= <-]. done.
Qed.
End theorems.

Section law_theorems.
Context {T P W : Type} `{Retryable T} `{DQ : DiskQueue T P W} `{!DiskQueueLaws T P W}.

(** C1: Over any sequence of pushes and pops, with or without a disk that keeps its promises, no
    item is lost silently or duplicated: what was held and what was pushed is, as a multiset, what
    was popped, what was dropped and what is still held; every operation succeeds; and the results
    of the pushes count exactly the dropped items. *)
Theorem retry_run_conserves fuel ops (q : RetryQueue T P) (w : W) mem disk :
  queue_rep q w mem disk -> Forall (acceptable q) (pushed ops) -> (0 < fuel)%nat ->
  exists outs q' w' mem' disk' dropped,
    run fuel ops q w = Some (outs, q', w') /\ all_ok outs /\ queue_rep q' w' mem' disk' /\
    reported outs = tally dropped /\
    mem ++ disk ++ pushed ops ≡ₚ popped outs ++ dropped ++ mem' ++ disk'.
Proof. apply run_rep. Qed.

(** A pop serves the items in memory first, oldest first, and then those on disk, oldest
    first. *)
Theorem retry_pop_order fuel (q : RetryQueue T P) (w : W) mem disk :
  queue_rep q w mem disk -> (0 < fuel)%nat ->
  exists q' w' mem' disk',
    RetryQueue_pop fuel q w = Some (Ok (head (mem ++ disk)), q', w') /\
    queue_rep q' w' mem' disk' /\ mem' ++ disk' = tail (mem ++ disk).
Proof.
  intros Hrep Hf. destruct (pop_rep q w mem disk fuel Hrep Hf) as (q' & w' & E & Hrep' & _).
  eexists q', w', _, _. split_and!; [done|done|]. by destruct mem.
Qed.

(** Flushing moves everything in memory to the disk, behind what is there: what is dropped to
    respect the disk limit is the oldest part, and is exactly what the result counts. *)
Theorem retry_flush_persists (q : RetryQueue T P) (w : W) mem disk p :
  queue_rep q w mem disk -> persisted_pending q = Some p ->
  exists dropped kept p' w',
    RetryQueue_flush q w = (Ok (tally dropped), Some p', w') /\ dq_rep p' w' kept /\
    dropped ++ kept = disk ++ mem.
Proof.
  intros [_ Hmem Hdisk] Hp. unfold RetryQueue_flush. rewrite Hp, Hmem in *.
  destruct Hdisk as [Hrep Hacc]. change PushResult_default with (tally (@nil T)).
  assert (Hgen : forall l0, exists dropped kept p' w',
    flush_loop mem (tally l0) (Some p) w = (Ok (tally (l0 ++ dropped)), Some p', w') /\ dq_rep p' w' kept /\
    dropped ++ kept = disk ++ mem); [|apply (Hgen [])].
  clear Hmem Hp. revert p w disk Hrep Hacc. induction mem as [|t mem IH]; intros p w disk Hrep Hacc l0; simpl.
  - exists [], disk, p, w. by rewrite !app_nil_r.
  - apply Forall_cons_1 in Hacc as [Ht Hacc].
    destruct (dq_push_ok t p w disk Hrep Ht) as (j & p1 & w1 & Ep & Hrep1 & Hmono). rewrite Ep, merge_tally.
    destruct (IH p1 w1 _ Hrep1) with (l0 := l0 ++ take j disk) as (dropped & kept & p' & w' & E & Hrep' & Hd).
    { eapply Forall_impl; [exact Hacc|]. auto. }
    exists (take j disk ++ dropped), kept, p', w'. rewrite E, <- app_assoc. split_and!; [done..|].
    rewrite <- app_assoc, Hd, <- app_assoc. by rewrite app_assoc, take_drop.
Qed.
End law_theorems.

(** ** Witnesses: a queue of strings over the file-backed queue *)

Section witnesses.
#[local] Existing Instances Chrono_ref Serde_ref.
#[local] Instance Os_large : Os := Os_ref 1000000 1000000.
#[local] Instance Reliable_large : ReliableOs := ReliableOs_ref 1000000 1000000.
#[local] Instance SerdeLaws_string : SerdeLaws string := SerdeLaws_ref.

Definition empty_disk : PersistedQueue :=
  {| entries := []; total_on_disk_bytes := 0; max_on_disk_bytes := 8;
     storage_max_disk_ratio := f64_one; max_age_days := 10; entries_dropped := 0 |}.
Definition empty_world : World := {| files := ∅; tick := 0 |}.

Definition two_in_memory (p : option PersistedQueue) : RetryQueue string PersistedQueue :=
  {| queue_name := "q"; pending := ["abc"; "de"]; persisted_pending := p; total_in_memory_bytes := 5;
     max_in_memory_bytes := 6; flush_to_disk_mem_ratio := f64_zero |}.

Lemma empty_disk_rep : dq_rep (T := string) empty_disk empty_world [].
Proof. split; [constructor|constructor|done|by vm_compute|done]. Qed.

Lemma two_in_memory_ok p : queue_ok (two_in_memory p).
Proof. split; [by vm_compute|done]. Qed.

Lemma two_in_memory_rep :
  queue_rep (two_in_memory (Some empty_disk)) empty_world ["abc"; "de"] [].
Proof.
  split; [apply two_in_memory_ok|done|]. split; [apply empty_disk_rep|].
  rewrite !Forall_cons, Forall_nil. split_and!; by first [eexists | vm_compute].
Qed.

Lemma retry_push_bounded_witness :
  exists q', RetryQueue_push "xyz" (two_in_memory None) empty_world = (Ok (tally ["abc"]), q', empty_world) /\
    queue_ok q' /\ pending q' = ["de"; "xyz"].
Proof.
  pose proof (retry_push_bounded "xyz" (two_in_memory None) empty_world (two_in_memory_ok None)) as Hx.
  destruct Hx as [Hok _]. eexists. split; [reflexivity|]. split; [exact Hok|reflexivity].
Defined.

Lemma retry_push_accounts_drops_witness :
  exists k q', RetryQueue_push "xyz" (two_in_memory None) empty_world =
    (Ok (tally (take k ["abc"; "de"])), q', empty_world).
Proof.
  destruct (retry_push_accounts_drops "xyz" (two_in_memory None) empty_world (two_in_memory_ok None))
    as (k & q' & E & _); [done|by vm_compute|]. by exists k, q'.
Defined.

Lemma retry_pop_bounded_witness :
  exists q', RetryQueue_pop 1 (two_in_memory None) empty_world = Some (Ok (Some "abc"), q', empty_world) /\
    queue_ok q'.
Proof.
  eexists. split; [reflexivity|].
  refine (proj1 (retry_pop_bounded 1 (two_in_memory None) empty_world _ _ empty_world (two_in_memory_ok None) _)).
  reflexivity.
Defined.

Lemma retry_run_conserves_witness :
  exists outs q' w' mem' disk' dropped,
    run 1 [Push "uvw"; Push "xyz"; Pop; Pop; Pop] (two_in_memory (Some empty_disk)) empty_world =
      Some (outs, q', w') /\ reported outs = tally dropped /\
    ["abc"; "de"; "uvw"; "xyz"] ≡ₚ popped outs ++ dropped ++ mem' ++ disk'.
Proof.
  destruct (retry_run_conserves 1 [Push "uvw"; Push "xyz"; Pop; Pop; Pop]
    (two_in_memory (Some empty_disk)) empty_world ["abc"; "de"] [] two_in_memory_rep)
    as (outs & q' & w' & mem' & disk' & dropped & E & _ & _ & Hr & Hp); [|lia|].
  { cbn. rewrite !Forall_cons, Forall_nil. split_and!; by first [eexists | vm_compute]. }
  exists outs, q', w', mem', disk', dropped. split; [exact E|]. split; [exact Hr|exact Hp].
Defined.

Lemma retry_pop_order_witness :
  exists q' w', RetryQueue_pop 1 (two_in_memory (Some empty_disk)) empty_world = Some (Ok (Some "abc"), q', w').
Proof.
  destruct (retry_pop_order 1 _ _ _ _ two_in_memory_rep ltac:(lia)) as (q' & w' & _ & _ & E & _). eauto.
Defined.

Lemma retry_flush_persists_witness :
  exists dropped kept p' w',
    RetryQueue_flush (two_in_memory (Some empty_disk)) empty_world = (Ok (tally dropped), Some p', w') /\
    dq_rep p' w' kept /\ dropped ++ kept = ["abc"; "de"].
Proof. exact (retry_flush_persists _ _ _ _ empty_disk two_in_memory_rep eq_refl). Defined.
End witnesses.
