(* ===== verification/Backoff.v ===== *)
(** * Backoff: when and how long to wait before a retry

    Models [lib/saluki-io/src/net/util/retry]: the exponential backoff ([backoff.rs]), the HTTP
    response classifier ([classifier/http.rs]) and the retry policies ([policy/mod.rs],
    [policy/rolling_exponential.rs]).  A [Duration] is its nanoseconds.  The random number generator
    and the HTTP status classes are parameters.  [None] is a panic. *)

From Stdlib Require Import ZArith Lia Floats.SpecFloat.
From stdpp Require Import base tactics list numbers option.
From S2P Require Import Prelude Float64.
Open Scope Z_scope.

(** ** [std::time::Duration] *)

Definition NANOS_PER_SEC : Z := 1000000000.
Definition duration_max : Z := u64_max * NANOS_PER_SEC + (NANOS_PER_SEC - 1).

Definition duration_saturating_mul (d n : Z) : Z := Z.min (d * n) duration_max.

(** [2u32.saturating_pow(n)] *)
Definition u32_saturating_pow2 (n : Z) : Z := Z.min (2 ^ n) (umax 32).

Definition as_secs_f64 (d : Z) : f64 :=
  f64_add (f64_of_Z (d / NANOS_PER_SEC)) (f64_div (f64_of_Z (d mod NANOS_PER_SEC)) (f64_of_Z NANOS_PER_SEC)).

(** [n / 2^k], rounded to nearest, ties to even. *)
Definition shiftr_round (n k : Z) : Z :=
  let q := Z.shiftr n k in
  let r := n - Z.shiftl q k in
  let half := 2 ^ (k - 1) in
  if (half <? r) || ((half =? r) && Z.odd q) then q + 1 else q.

(** [Duration::from_secs_f64]: nanoseconds rounded to nearest; negative, NaN and too large values
    panic. *)
Definition from_secs_f64 (x : f64) : option Z :=
  match x with
  | S754_nan => None
  | S754_infinity _ => None
  | S754_zero _ => Some 0
  | S754_finite true _ _ => None
  | S754_finite false m e =>
      let d := if 0 <=? e then Zpos m * 2 ^ e * NANOS_PER_SEC
               else shiftr_round (Zpos m * NANOS_PER_SEC) (- e) in
      if d <=? duration_max then Some d else None
  end.

Definition div_f64 (d : Z) (rhs : f64) : option Z := from_secs_f64 (f64_div (as_secs_f64 d) rhs).

(** [Ord::clamp] asserts that the bounds are ordered. *)
Definition duration_clamp (d lo hi : Z) : option Z :=
  if hi <? lo then None else Some (if d <? lo then lo else if hi <? d then hi else d).

(** ** [ExponentialBackoff] *)

(** [rand]: [random_range(lo..=hi)] with the generator's state; an empty range panics. *)
Class Rng (R : Type) := {
  random_range : Z -> Z -> R -> option (Z * R);
  random_range_Some : forall lo hi r, lo <= hi ->
    exists v r', random_range lo hi r = Some (v, r') /\ lo <= v <= hi;
  random_range_bounds : forall lo hi r v r', random_range lo hi r = Some (v, r') -> lo <= v <= hi;
}.

Record ExponentialBackoff (R : Type) := {
  min_backoff : Z;
  max_backoff : Z;
  min_backoff_factor : f64;
  backoff_rng : R;
}.
Arguments min_backoff {R}.
Arguments max_backoff {R}.
Arguments min_backoff_factor {R}.
Arguments backoff_rng {R}.

Section backoff.
Context {R : Type} `{Rng R}.

Definition ExponentialBackoff_new (min max : Z) (rng : R) : ExponentialBackoff R :=
  {| min_backoff := min; max_backoff := max; min_backoff_factor := f64_one; backoff_rng := rng |}.

Definition with_jitter (min max : Z) (factor : f64) (rng : R) : ExponentialBackoff R :=
  {| min_backoff := min; max_backoff := max; min_backoff_factor := f64_max factor f64_one;
     backoff_rng := rng |}.

Definition with_rng {R'} (rng : R') (bo : ExponentialBackoff R) : ExponentialBackoff R' :=
  {| min_backoff := min_backoff bo; max_backoff := max_backoff bo;
     min_backoff_factor := min_backoff_factor bo; backoff_rng := rng |}.

Definition set_rng (rng : R) (bo : ExponentialBackoff R) : ExponentialBackoff R := with_rng rng bo.

(** The backoff before jitter and clamping. *)
Definition raw_backoff (bo : ExponentialBackoff R) (error_count : Z) : Z :=
  duration_saturating_mul (min_backoff bo) (u32_saturating_pow2 error_count).

Definition get_backoff_duration (error_count : Z) (bo : ExponentialBackoff R) :
    option (Z * ExponentialBackoff R) :=
  if error_count =? 0 then Some (min_backoff bo, bo)
  else
    let backoff := raw_backoff bo error_count in
    '(backoff, bo) ←
      (if f64_ltb f64_one (min_backoff_factor bo) then
         backoff_lower ← div_f64 backoff (min_backoff_factor bo);
         '(v, rng) ← random_range backoff_lower backoff (backoff_rng bo);
         Some (v, set_rng rng bo)
       else Some (backoff, bo));
    backoff ← duration_clamp backoff (min_backoff bo) (max_backoff bo);
    Some (backoff, bo).
End backoff.

(** ** [StandardHttpClassifier] *)

(** The [http] crate: the status code of a response and its class. *)
Class HttpStatus := {
  is_client_error : Z -> bool;
  is_server_error : Z -> bool;
  is_client_error_spec : forall z, is_client_error z = true <-> 400 <= z <= 499;
  is_server_error_spec : forall z, is_server_error z = true <-> 500 <= z <= 599;
}.

Class HasStatus (Res : Type) := status : Res -> Z.

Definition BAD_REQUEST : Z := 400.
Definition UNAUTHORIZED : Z := 401.
Definition FORBIDDEN : Z := 403.
Definition PAYLOAD_TOO_LARGE : Z := 413.

Section classifier.
Context `{HttpStatus} {Res E : Type} `{HasStatus Res}.

Definition default_should_retry (response : Res) : bool :=
  let st := status response in
  if (st =? BAD_REQUEST) || (st =? UNAUTHORIZED) || (st =? FORBIDDEN) || (st =? PAYLOAD_TOO_LARGE)
  then false
  else is_client_error st || is_server_error st.

Record StandardHttpClassifier := { predicates : list (Res -> bool) }.

Definition StandardHttpClassifier_new : StandardHttpClassifier :=
  {| predicates := [default_should_retry] |}.

Definition with_predicate (p : Res -> bool) (c : StandardHttpClassifier) : StandardHttpClassifier :=
  {| predicates := predicates c ++ [p] |}.

Definition StandardHttpClassifier_should_retry (c : StandardHttpClassifier) (response : result E Res) : bool :=
  match response with
  | Ok resp => existsb (fun p => p resp) (predicates c)
  | Err _ => true
  end.
End classifier.
Arguments StandardHttpClassifier : clear implicits.

Class RetryClassifier (C Res E : Type) := should_retry : C -> result E Res -> bool.

#[export] Instance StandardHttpClassifier_classifier {Res E} : RetryClassifier (StandardHttpClassifier Res) Res E :=
  StandardHttpClassifier_should_retry.

(** ** Retry policies *)

(** [tower::retry::Policy]: a decision may change the policy, the request and the result, which are mutable borrows;
    [Some d] asks for a retry after [d].  [None] as outcome is a panic of the backoff. *)
Class Policy (P Req Res E : Type) := {
  retry : Req -> result E Res -> P -> option (option Z * Req * result E Res * P);
  clone_request : Req -> P -> option Req * P;
}.

Record RollingExponentialBackoffRetryPolicy (C R : Type) := {
  classifier : C;
  backoff : ExponentialBackoff R;
  recovery_error_decrease_factor : option Z;
  error_count : Z;
}.
Arguments classifier {C R}.
Arguments backoff {C R}.
Arguments recovery_error_decrease_factor {C R}.
Arguments error_count {C R}.

Section policy.
Context {C R Req Res E : Type} `{Rng R} `{RetryClassifier C Res E}.

Definition RollingPolicy_new (c : C) (bo : ExponentialBackoff R) :
    RollingExponentialBackoffRetryPolicy C R :=
  {| classifier := c; backoff := bo; recovery_error_decrease_factor := None; error_count := 0 |}.

Definition with_recovery_error_decrease_factor (factor : option Z)
    (p : RollingExponentialBackoffRetryPolicy C R) : RollingExponentialBackoffRetryPolicy C R :=
  {| classifier := classifier p; backoff := backoff p;
     recovery_error_decrease_factor := factor; error_count := error_count p |}.

Definition with_errors (bo : ExponentialBackoff R) (n : Z)
    (p : RollingExponentialBackoffRetryPolicy C R) : RollingExponentialBackoffRetryPolicy C R :=
  {| classifier := classifier p; backoff := bo;
     recovery_error_decrease_factor := recovery_error_decrease_factor p; error_count := n |}.

(** [fetch_add] and the [+ 1] wrap around. *)
Definition RollingPolicy_retry (request : Req) (response : result E Res)
    (p : RollingExponentialBackoffRetryPolicy C R) :
    option (option Z * RollingExponentialBackoffRetryPolicy C R) :=
  if should_retry (classifier p) response then
    let n := wrapping_add 32 (error_count p) 1 in
    '(backoff_dur, bo) ← get_backoff_duration n (backoff p);
    Some (Some backoff_dur, with_errors bo n p)
  else
    match recovery_error_decrease_factor p with
    | Some factor => Some (None, with_errors (backoff p) (saturating_sub (error_count p) factor) p)
    | None => Some (None, with_errors (backoff p) 0 p)
    end.

#[export] Instance RollingPolicy_Policy : Policy (RollingExponentialBackoffRetryPolicy C R) Req Res E :=
  {| retry := fun request response p => '(d, p) ← RollingPolicy_retry request response p; Some (d, request, response, p);
     clone_request := fun req p => (Some req, p) |}.
End policy.

Inductive NoopRetryPolicy := Noop.

#[export] Instance NoopRetryPolicy_Policy {Req Res E} : Policy NoopRetryPolicy Req Res E :=
  {| retry := fun req res p => Some (None, req, res, p); clone_request := fun _ p => (None, p) |}.

(** ** Lemmas *)

Section lemmas.
Context {R : Type} `{Rng R}.
Implicit Types bo : ExponentialBackoff R.

Lemma duration_clamp_spec d lo hi : lo <= hi -> duration_clamp d lo hi = Some (Z.min hi (Z.max lo d)).
Proof.
  intros Hle. unfold duration_clamp. rewrite (proj2 (Z.ltb_ge _ _)) by done. f_equal.
  destruct (d <? lo) eqn:E1; [|destruct (hi <? d) eqn:E2]; bool_cases; lia.
Qed.

Lemma duration_clamp_bounds d lo hi x : duration_clamp d lo hi = Some x -> lo <= x <= hi.
Proof.
  unfold duration_clamp. destruct (hi <? lo) eqn:E; [done|]. bool_cases. intros [= <-].
  destruct (d <? lo) eqn:E1; [|destruct (hi <? d) eqn:E2]; bool_cases; lia.
Qed.

Lemma raw_backoff_mono bo n m :
  0 <= min_backoff bo -> 0 <= n <= m -> raw_backoff bo n <= raw_backoff bo m.
Proof.
  intros Hmin Hnm. unfold raw_backoff, duration_saturating_mul, u32_saturating_pow2.
  pose proof (Z.pow_le_mono_r 2 n m ltac:(lia) ltac:(lia)). nia.
Qed.

Lemma raw_backoff_lower bo n :
  0 <= min_backoff bo <= duration_max -> 0 <= n -> min_backoff bo <= raw_backoff bo n.
Proof.
  intros Hmin Hn. unfold raw_backoff, duration_saturating_mul, u32_saturating_pow2, umax.
  pose proof (Z.pow_le_mono_r 2 0 n ltac:(lia) ltac:(lia)).
  assert (1 <= Z.min (2 ^ n) (2 ^ 32 - 1)) by lia. nia.
Qed.

Lemma backoff_without_jitter bo n :
  f64_ltb f64_one (min_backoff_factor bo) = false -> min_backoff bo <= max_backoff bo ->
  0 <= min_backoff bo <= duration_max -> 0 <= n ->
  get_backoff_duration n bo = Some (Z.min (max_backoff bo) (raw_backoff bo n), bo) \/
  (n = 0 /\ get_backoff_duration n bo = Some (min_backoff bo, bo)).
Proof.
  intros Hj Hmm Hmin Hn. unfold get_backoff_duration. destruct (n =? 0) eqn:E; bool_cases; [by right|].
  left. rewrite Hj. simpl. rewrite duration_clamp_spec by done. simpl.
  pose proof (raw_backoff_lower bo n Hmin Hn). do 2 f_equal. lia.
Qed.

Lemma backoff_bounds n bo d bo' :
  min_backoff bo <= max_backoff bo -> get_backoff_duration n bo = Some (d, bo') ->
  min_backoff bo <= d <= max_backoff bo /\ min_backoff bo' = min_backoff bo /\
  max_backoff bo' = max_backoff bo /\ min_backoff_factor bo' = min_backoff_factor bo.
Proof.
  intros Hmm. unfold get_backoff_duration. destruct (n =? 0); [intros [= <- <-]; split_and!; lia || done|].
  destruct (f64_ltb _ _); simpl.
  - destruct (div_f64 _ _) as [lo|]; simpl; [|done].
    destruct (random_range _ _ _) as [[v rng]|]; simpl; [|done].
    destruct (duration_clamp _ _ _) as [x|] eqn:E; simpl; [|done]. intros [= <- <-].
    by apply duration_clamp_bounds in E.
  - destruct (duration_clamp _ _ _) as [x|] eqn:E; simpl; [|done]. intros [= <- <-].
    by apply duration_clamp_bounds in E.
Qed.
End lemmas.

(** ** Runs of the policy *)

Section runs.
Context {C R Req Res E : Type} `{Rng R} `{RetryClassifier C Res E}.
Implicit Types p : RollingExponentialBackoffRetryPolicy C R.

(** The policy's decisions over a sequence of responses. *)
Fixpoint decisions (req : Req) (rs : list (result E Res)) p :
    option (list (option Z) * RollingExponentialBackoffRetryPolicy C R) :=
  match rs with
  | [] => Some ([], p)
  | r :: rs' =>
      '(d, p) ← RollingPolicy_retry req r p;
      '(ds, p) ← decisions req rs' p;
      Some (d :: ds, p)
  end.

(** The failures since the last success, when there were [n] before. *)
Fixpoint failures_since (c : C) (n : Z) (rs : list (result E Res)) : Z :=
  match rs with
  | [] => n
  | r :: rs' => failures_since c (if should_retry c r then n + 1 else 0) rs'
  end.

Lemma get_backoff_total n (bo : ExponentialBackoff R) :
  f64_ltb f64_one (min_backoff_factor bo) = false -> min_backoff bo <= max_backoff bo ->
  exists d, get_backoff_duration n bo = Some (d, bo).
Proof.
  intros Hj Hmm. unfold get_backoff_duration. destruct (n =? 0); [by eauto|]. rewrite Hj. simpl.
  rewrite duration_clamp_spec by done. simpl. eauto.
Qed.

Lemma decisions_spec req rs p :
  f64_ltb f64_one (min_backoff_factor (backoff p)) = false ->
  min_backoff (backoff p) <= max_backoff (backoff p) ->
  recovery_error_decrease_factor p = None ->
  0 <= error_count p -> error_count p + Z.of_nat (length rs) < 2 ^ 32 ->
  exists ds p', decisions req rs p = Some (ds, p') /\ length ds = length rs /\
    error_count p' = failures_since (classifier p) (error_count p) rs /\
    Forall2 (fun d r => is_Some d <-> should_retry (classifier p) r = true) ds rs /\
    Forall (fun d => forall x, d = Some x -> min_backoff (backoff p) <= x <= max_backoff (backoff p)) ds.
Proof.
  intros Hj Hmm Hrec. revert p Hj Hmm Hrec. induction rs as [|r rs IH]; intros p Hj Hmm Hrec Hn Hlen; simpl.
  - exists [], p. split_and!; auto.
  - simpl in Hlen. unfold RollingPolicy_retry.
    destruct (should_retry (classifier p) r) eqn:Er.
    + rewrite wrapping_add_exact by (unfold in_range, umax; lia).
      destruct (get_backoff_total (error_count p + 1) (backoff p) Hj Hmm) as [d Ed]. rewrite Ed. simpl.
      destruct (backoff_bounds _ _ _ _ Hmm Ed) as (Hb & _).
      destruct (IH (with_errors (backoff p) (error_count p + 1) p)) as (ds & p' & E' & ? & ? & ? & ?);
        [done|done|done|simpl; lia|simpl; lia|].
      rewrite E'. simpl. exists (Some d :: ds), p'. simpl in *. split_and!; [done|lia|done| |].
      * constructor; [|done]. split; [done|by eexists].
      * constructor; [|done]. by intros x [= <-].
    + rewrite Hrec. simpl.
      destruct (IH (with_errors (backoff p) 0 p)) as (ds & p' & E' & ? & ? & ? & ?);
        [done|done|done|simpl; lia|simpl; lia|].
      rewrite E'. simpl. exists (None :: ds), p'. simpl in *. split_and!; [done|lia|done| |].
      * constructor; [|done]. rewrite Er. split; [by intros [? ?]|done].
      * by constructor.
Qed.
End runs.

(** ** Theorems *)

Section theorems.
Context {R : Type} `{Rng R}.

(** Every backoff is within the configured bounds.  With jitter it is moreover at most the
    exponential value, and at least that value divided by the configured factor, as far as the
    bounds allow. *)
Theorem backoff_within_bounds n (bo : ExponentialBackoff R) d bo' :
  min_backoff bo <= max_backoff bo -> get_backoff_duration n bo = Some (d, bo') ->
  min_backoff bo <= d <= max_backoff bo /\
  (n <> 0 -> d <= Z.max (min_backoff bo) (raw_backoff bo n)) /\
  (n <> 0 -> f64_ltb f64_one (min_backoff_factor bo) = true ->
   exists lower, div_f64 (raw_backoff bo n) (min_backoff_factor bo) = Some lower /\
     Z.min (max_backoff bo) lower <= d).
Proof.
  intros Hmm E. split; [by eapply backoff_bounds|]. revert E. unfold get_backoff_duration.
  destruct (n =? 0) eqn:E0; bool_cases; [by intros; split|].
  destruct (f64_ltb _ _) eqn:Ej; simpl.
  - destruct (div_f64 _ _) as [lo|]; simpl; [|done].
    destruct (random_range _ _ _) as [[v rng]|] eqn:Er; simpl; [|done].
    rewrite duration_clamp_spec by done. simpl. intros [= <- <-].
    apply random_range_bounds in Er. split; [lia|]. intros _ _. exists lo. split; [done|lia].
  - rewrite duration_clamp_spec by done. simpl. intros [= <- <-]. split; [lia|done].
Qed.

(** Without jitter the backoff is always computed, doubles with every error until it reaches
    the maximum or the range of a [u32] factor or of a [Duration], and so never decreases as errors
    accumulate. *)
Theorem backoff_doubles n m (bo : ExponentialBackoff R) :
  f64_ltb f64_one (min_backoff_factor bo) = false -> min_backoff bo <= max_backoff bo ->
  0 <= min_backoff bo <= duration_max -> 0 <= n <= m ->
  exists dn dm, get_backoff_duration n bo = Some (dn, bo) /\ get_backoff_duration m bo = Some (dm, bo) /\
    dn <= dm /\
    (n < 32 -> min_backoff bo * 2 ^ n <= duration_max -> dn = Z.min (max_backoff bo) (min_backoff bo * 2 ^ n)).
Proof.
  intros Hj Hmm Hmin Hnm.
  assert (Hval : forall n, 0 <= n ->
    get_backoff_duration n bo = Some (Z.min (max_backoff bo) (raw_backoff bo n), bo)).
  { intros i Hi. destruct (backoff_without_jitter bo i Hj Hmm Hmin Hi) as [E|[-> E]]; [done|].
    rewrite E. do 2 f_equal. unfold raw_backoff, duration_saturating_mul, u32_saturating_pow2.
    change (Z.min (2 ^ 0) (umax 32)) with 1. lia. }
  rewrite !Hval by lia. eexists _, _. split_and!; [done|done| |].
  - pose proof (raw_backoff_mono bo n m ltac:(lia) Hnm). lia.
  - intros Hn Hd. f_equal. unfold raw_backoff, duration_saturating_mul, u32_saturating_pow2, umax.
    pose proof (Z.pow_lt_mono_r 2 n 32 ltac:(lia) ltac:(lia) ltac:(lia)).
    rewrite (Z.min_l (2 ^ n)) by lia. lia.
Qed.
End theorems.

(** The standard classifier retries every transport error, and a response exactly when one of
    its predicates accepts it; the default predicate accepts the 4xx and 5xx responses other than
    400, 401, 403 and 413, and adding a predicate never takes a retry away. *)
Theorem classifier_retries {Res E} `{HttpStatus} `{HasStatus Res} (p : Res -> bool) (response : result E Res) :
  should_retry (with_predicate p StandardHttpClassifier_new) response = true <->
  match response with
  | Err _ => True
  | Ok r => (400 <= status r <= 599 /\ status r <> 400 /\ status r <> 401 /\ status r <> 403 /\ status r <> 413)
            \/ p r = true
  end.
Proof.
  destruct response as [r|e]; [|done]. unfold should_retry, StandardHttpClassifier_classifier. simpl.
  rewrite !orb_true_iff. unfold default_should_retry, BAD_REQUEST, UNAUTHORIZED, FORBIDDEN, PAYLOAD_TOO_LARGE.
  set (st := status r).
  destruct (_ || _) eqn:Eno.
  - rewrite !orb_true_iff, !Z.eqb_eq in Eno. split; [intros [?|[?|?]]; [done|by right|done]|].
    intros [?|?]; [lia|by right; left].
  - bool_cases. rewrite orb_true_iff. split.
    + intros [[Hc|Hc]|[Hp|Hp]]; [left|left|by right|done];
        [apply is_client_error_spec in Hc|apply is_server_error_spec in Hc]; lia.
    + intros [Hs|?]; [|by right; left]. left.
      destruct (decide (st <= 499)); [left; apply is_client_error_spec|right; apply is_server_error_spec]; lia.
Qed.

(** Without a recovery factor the policy retries exactly the responses its classifier says to
    retry, always within the backoff bounds, and its error count is the number of failures since
    the last success. *)
Theorem policy_counts_failures {C R Req Res E} `{Rng R} `{RetryClassifier C Res E} (req : Req)
    (rs : list (result E Res)) (p : RollingExponentialBackoffRetryPolicy C R) :
  f64_ltb f64_one (min_backoff_factor (backoff p)) = false ->
  min_backoff (backoff p) <= max_backoff (backoff p) ->
  recovery_error_decrease_factor p = None ->
  0 <= error_count p -> error_count p + Z.of_nat (length rs) < 2 ^ 32 ->
  exists ds p', decisions req rs p = Some (ds, p') /\ length ds = length rs /\
    error_count p' = failures_since (classifier p) (error_count p) rs /\
    Forall2 (fun d r => is_Some d <-> should_retry (classifier p) r = true) ds rs /\
    Forall (fun d => forall x, d = Some x -> min_backoff (backoff p) <= x <= max_backoff (backoff p)) ds.
Proof. apply decisions_spec. Qed.

(** ** Witnesses *)

Definition Rng_ref : Rng unit.
Proof.
  refine {| random_range := fun lo hi r => if lo <=? hi then Some (lo, r) else None |}.
  - intros lo hi r Hle. rewrite (proj2 (Z.leb_le _ _)) by done. exists lo, r. split; [done|lia].
  - intros lo hi r v r'. destruct (lo <=? hi) eqn:E; [|done]. bool_cases. intros [= <- <-]. lia.
Defined.

Definition HttpStatus_ref : HttpStatus.
Proof.
  refine {| is_client_error := fun z => (400 <=? z) && (z <=? 499);
            is_server_error := fun z => (500 <=? z) && (z <=? 599) |};
    intros z; rewrite andb_true_iff, !Z.leb_le; done.
Defined.

Section witnesses.
#[local] Existing Instance Rng_ref.
#[local] Instance result_classifier : RetryClassifier unit unit unit :=
  fun _ r => match r with Ok _ => false | Err _ => true end.

Definition ms (n : Z) : Z := n * 1000000.
Definition example_backoff : ExponentialBackoff unit := ExponentialBackoff_new (ms 10) (ms 1000) tt.
Definition example_jitter : ExponentialBackoff unit := with_jitter (ms 10) (ms 1000) (f64_of_Z 2) tt.

Lemma backoff_within_bounds_witness :
  get_backoff_duration 3 example_jitter = Some (ms 40, example_jitter) /\ ms 10 <= ms 40 <= ms 1000.
Proof.
  assert (E : get_backoff_duration 3 example_jitter = Some (ms 40, example_jitter)) by (by vm_compute).
  split; [exact E|].
  exact (proj1 (backoff_within_bounds 3 example_jitter (ms 40) example_jitter ltac:(done) E)).
Defined.

Lemma backoff_doubles_witness :
  exists d3 d40, get_backoff_duration 3 example_backoff = Some (d3, example_backoff) /\
    get_backoff_duration 40 example_backoff = Some (d40, example_backoff) /\ d3 <= d40 /\ d3 = ms 80.
Proof.
  destruct (backoff_doubles 3 40 example_backoff) as (dn & dm & En & Em & Hle & Hv);
    [by vm_compute|by vm_compute|by vm_compute|lia|].
  exists dn, dm. split_and!; [done..|]. rewrite Hv; [by vm_compute|lia|by vm_compute].
Defined.

Lemma policy_counts_failures_witness :
  let p := RollingPolicy_new tt example_backoff in
  exists ds p', decisions tt [Err tt; Ok tt; Err tt; Err tt] p = Some (ds, p') /\ error_count p' = 2.
Proof.
  destruct (policy_counts_failures tt [Err tt; Ok tt; Err tt; Err tt] (RollingPolicy_new tt example_backoff))
    as (ds & p' & E & _ & Hn & _); [by vm_compute|by vm_compute|done|by vm_compute|by vm_compute|].
  exists ds, p'. split; [exact E|exact Hn].
Defined.

#[local] Instance status_of_code : HasStatus Z := fun z => z.

Lemma classifier_retries_witness :
  should_retry (E := unit) (@with_predicate Z (fun z => z =? 403) (@StandardHttpClassifier_new HttpStatus_ref Z _)) (Ok 403) = true /\
  should_retry (E := unit) (@with_predicate Z (fun z => z =? 403) (@StandardHttpClassifier_new HttpStatus_ref Z _)) (Ok 503) = true.
Proof.
  split; apply (@classifier_retries Z unit HttpStatus_ref _ (fun z => z =? 403)); [by right|].
  left. unfold status, status_of_code. lia.
Defined.
End witnesses.
