(* ===== verification/CircuitBreaker.v ===== *)
(** * CircuitBreaker: signalling retries without waiting for them

    Models [lib/saluki-io/src/net/util/middleware/retry_circuit_breaker.rs].  The breaker's shared
    state is the policy and the backoff in force; a response future is a value polled to completion.
    The inner service, the backoff timers and the cancellation token are the environment: a poll
    takes what they answer.  The use of one breaker by many requests is [run], over a list of inputs
    in any order.  [history] and [expected] say what every input must be answered from the past
    inputs alone, without futures and shared state; [refines] relates them to a [System]. *)

From Stdlib Require Import ZArith Lia.
From stdpp Require Import base tactics list numbers option gmap.
From S2P Require Import Prelude Float64 Backoff.
Open Scope Z_scope.

Inductive Poll (A : Type) := Ready (a : A) | Pending.
Arguments Ready {A} a.
Arguments Pending {A}.

Inductive BreakerError (E Req : Type) :=
| ServiceError (e : E)
| RetryError (req : Req)
| OpenError (req : Req)
| CancelledError (req : Req).
Arguments ServiceError {E Req} e.
Arguments RetryError {E Req} req.
Arguments OpenError {E Req} req.
Arguments CancelledError {E Req} req.

Section breaker.
Context {P Req Res E : Type} `{PO : Policy P Req Res E}.

(** The shared state; a backoff is the duration it was set for. *)
Record State := {
  policy : P;
  state_backoff : option Z;
}.

(** [inner] is [true] when the inner service was called; [watches_cancellation] when the future
    waits for the cancellation token too. *)
Record ResponseFuture := {
  inner : bool;
  req : option Req;
  watches_cancellation : bool;
}.

Definition take_req (f : ResponseFuture) : ResponseFuture :=
  {| inner := inner f; req := None; watches_cancellation := watches_cancellation f |}.

Abbreviation Output := (result (BreakerError E Req) Res).

(** [ResponseFuture::poll], given what the inner future and the token answer.  [None] is a panic:
    the future was polled after completion, or the policy panicked. *)
Definition ResponseFuture_poll (inner_poll : Poll (result E Res)) (token_cancelled : bool)
    (f : ResponseFuture) (s : State) : option (Poll Output * ResponseFuture * State) :=
  if inner f then
    match inner_poll with
    | Pending =>
        if watches_cancellation f then
          if token_cancelled then
            r ← req f;
            Some (Ready (Err (CancelledError r)), take_req f, s)
          else Some (Pending, f, s)
        else Some (Pending, f, s)
    | Ready result =>
        match req f with
        | Some r =>
            '(d, r, result, p) ← retry r result (policy s);
            match d with
            | Some backoff =>
                Some (Ready (Err (RetryError r)), take_req f,
                      {| policy := p;
                         state_backoff := match state_backoff s with
                                          | None => Some backoff
                                          | Some b => Some b
                                          end |})
            | None =>
                Some (Ready (map_err ServiceError result), take_req f,
                      {| policy := p; state_backoff := state_backoff s |})
            end
        | None => Some (Ready (map_err ServiceError result), f, s)
        end
    end
  else
    r ← req f;
    Some (Ready (Err (OpenError r)), take_req f, s).

(** [poll_ready], given whether the backoff has elapsed and what the inner service answers. *)
Definition poll_ready (elapsed : bool) (inner_ready : Poll (result E unit)) (s : State) :
    Poll (result (BreakerError E Req) unit) * State :=
  let inner_answer :=
    match inner_ready with
    | Ready r => Ready (map_err ServiceError r)
    | Pending => Pending
    end in
  match state_backoff s with
  | Some _ =>
      if elapsed then (inner_answer, {| policy := policy s; state_backoff := None |})
      else (Pending, s)
  | None => (inner_answer, s)
  end.

(** [call]: the future, the state, and the request handed to the inner service, if any. *)
Definition call (cancellation : bool) (request : Req) (s : State) : ResponseFuture * State * option Req :=
  match state_backoff s with
  | Some _ => ({| inner := false; req := Some request; watches_cancellation := false |}, s, None)
  | None =>
      let '(cloned_req, p) := clone_request request (policy s) in
      ({| inner := true; req := cloned_req;
          watches_cancellation := cancellation && match cloned_req with Some _ => true | None => false end |},
       {| policy := p; state_backoff := None |}, Some request)
  end.

(** ** Many requests on one breaker

    What the users of a breaker and its environment do, in some order: readiness checks, calls, polls of the futures that
    the calls returned, numbered in the order of the calls, and the cancellation of the token.  An input has the answers
    of the environment: whether the backoff has elapsed, and what the inner service says. *)

Inductive Input :=
| InReady (elapsed : bool) (ready : Poll (result E unit))
| InCall (request : Req)
| InPoll (i : nat) (inner_poll : Poll (result E Res))
| InCancel.

(** What can be seen of an input: its answer, and the request that reaches the inner service. *)
Inductive Observed :=
| ObsReady (answer : Poll (result (BreakerError E Req) unit))
| ObsPassed (request : Req)
| ObsRefused
| ObsOutcome (out : Poll Output)
| ObsCancelled.

(** [inflight] holds the futures that are not finished. *)
Record System := {
  breaker : State;
  inflight : gmap nat ResponseFuture;
  next_id : nat;
  token : option bool;
}.

Definition new_system (p : P) (tok : option bool) : System :=
  {| breaker := {| policy := p; state_backoff := None |}; inflight := ∅; next_id := 0; token := tok |}.

Definition do_call (request : Req) (s : System) : Observed * System :=
  let '(f, st, inner_call) := call (bool_decide (is_Some (token s))) request (breaker s) in
  (match inner_call with Some r => ObsPassed r | None => ObsRefused end,
   {| breaker := st; inflight := <[next_id s := f]> (inflight s); next_id := S (next_id s); token := token s |}).

Definition do_poll (i : nat) (inner_poll : Poll (result E Res)) (s : System) : option (Observed * System) :=
  f ← inflight s !! i;
  '(out, f', st) ← ResponseFuture_poll inner_poll (default false (token s)) f (breaker s);
  Some (ObsOutcome out,
        {| breaker := st;
           inflight := match out with Ready _ => delete i (inflight s) | Pending => <[i := f']> (inflight s) end;
           next_id := next_id s; token := token s |}).

Definition sys_step (inp : Input) (s : System) : option (Observed * System) :=
  match inp with
  | InReady elapsed ready =>
      let '(answer, st) := poll_ready elapsed ready (breaker s) in
      Some (ObsReady answer, {| breaker := st; inflight := inflight s; next_id := next_id s; token := token s |})
  | InCall request => Some (do_call request s)
  | InPoll i inner_poll => do_poll i inner_poll s
  | InCancel =>
      Some (ObsCancelled, {| breaker := breaker s; inflight := inflight s; next_id := next_id s; token := (fun _ => true) <$> token s |})
  end.

(** [None]: a future was polled that is not in flight, or something panicked. *)
Fixpoint run (ins : list Input) (s : System) : option (list Observed * System) :=
  match ins with
  | [] => Some ([], s)
  | inp :: ins' =>
      '(o, s) ← sys_step inp s;
      '(obs, s) ← run ins' s;
      Some (o :: obs, s)
  end.

(** ** Specification: what the past says

    No futures and no state: the requests so far, each with the copy the policy made of it when it was let through; the
    backoff that keeps the breaker open; and the policy after what it has been asked. *)
Record History := {
  h_policy : P;
  h_open : option Z;
  h_cancelled : bool;
  h_calls : list (Req * option (option Req));
}.

Definition no_history (p : P) (tok : option bool) : History :=
  {| h_policy := p; h_open := None; h_cancelled := default false tok; h_calls := [] |}.

(** A call is let through when the breaker is closed.  An answer of the inner service for a request with a copy goes to
    the policy, and a retry opens a closed breaker; a readiness check after the backoff closes it. *)
Definition advance (h : History) (inp : Input) : History :=
  match inp with
  | InReady elapsed _ =>
      {| h_policy := h_policy h; h_open := if elapsed then None else h_open h; h_cancelled := h_cancelled h; h_calls := h_calls h |}
  | InCall r =>
      match h_open h with
      | Some _ => {| h_policy := h_policy h; h_open := h_open h; h_cancelled := h_cancelled h; h_calls := h_calls h ++ [(r, None)] |}
      | None =>
          let '(copy, p) := clone_request r (h_policy h) in
          {| h_policy := p; h_open := None; h_cancelled := h_cancelled h; h_calls := h_calls h ++ [(r, Some copy)] |}
      end
  | InPoll i (Ready res) =>
      match h_calls h !! i with
      | Some (_, Some (Some copy)) =>
          match retry copy res (h_policy h) with
          | Some (d, _, _, p) =>
              {| h_policy := p; h_open := match h_open h with Some b => Some b | None => d end; h_cancelled := h_cancelled h; h_calls := h_calls h |}
          | None => h
          end
      | _ => h
      end
  | InPoll _ Pending => h
  | InCancel => {| h_policy := h_policy h; h_open := h_open h; h_cancelled := true; h_calls := h_calls h |}
  end.

Definition history (p : P) (tok : option bool) (ins : list Input) : History := foldl advance (no_history p tok) ins.

(** What an input must be answered, given the past. *)
Definition expected (tok : option bool) (h : History) (inp : Input) : option Observed :=
  match inp with
  | InReady elapsed ready =>
      let answer := match ready with Ready r => Ready (map_err ServiceError r) | Pending => Pending end in
      Some (ObsReady (if bool_decide (is_Some (h_open h)) && negb elapsed then Pending else answer))
  | InCall r => Some (if bool_decide (is_Some (h_open h)) then ObsRefused else ObsPassed r)
  | InPoll i inner_poll =>
      '(r, passed) ← h_calls h !! i;
      match passed, inner_poll with
      | None, _ => Some (ObsOutcome (Ready (Err (OpenError r))))
      | Some None, Ready res => Some (ObsOutcome (Ready (map_err ServiceError res)))
      | Some None, Pending => Some (ObsOutcome Pending)
      | Some (Some copy), Ready res =>
          '(d, handed_back, res, _) ← retry copy res (h_policy h);
          Some (ObsOutcome (Ready (match d with Some _ => Err (RetryError handed_back) | None => map_err ServiceError res end)))
      | Some (Some copy), Pending =>
          Some (ObsOutcome (if bool_decide (is_Some tok) && h_cancelled h then Ready (Err (CancelledError copy)) else Pending))
      end
  | InCancel => Some ObsCancelled
  end.

(** The requests whose futures have returned *)
Definition finished_by (x : Input * Observed) : option nat :=
  match x with (InPoll i _, ObsOutcome (Ready _)) => Some i | _ => None end.
Definition finished (ins : list Input) (obs : list Observed) : list nat := omap finished_by (zip ins obs).

(** ** The refinement *)

(** The future of a request, as its call made it *)
Definition future_for (tok : option bool) (x : Req * option (option Req)) : ResponseFuture :=
  match x.2 with
  | None => {| inner := false; req := Some x.1; watches_cancellation := false |}
  | Some copy => {| inner := true; req := copy; watches_cancellation := bool_decide (is_Some tok) && bool_decide (is_Some copy) |}
  end.

Record refines (tok : option bool) (h : History) (fin : list nat) (s : System) : Prop := {
  rf_policy : policy (breaker s) = h_policy h;
  rf_open : state_backoff (breaker s) = h_open h;
  rf_token : token s = (fun _ => h_cancelled h) <$> tok;
  rf_next : next_id s = length (h_calls h);
  rf_inflight : forall i, inflight s !! i = if bool_decide (i ∈ fin) then None else future_for tok <$> h_calls h !! i;
  rf_finished : NoDup fin /\ forall i, i ∈ fin -> (i < length (h_calls h))%nat;
}.

Lemma refines_call tok h fin s r o s' : refines tok h fin s -> do_call r s = (o, s') ->
  refines tok (advance h (InCall r)) fin s' /\ expected tok h (InCall r) = Some o.
Proof.
  intros [Hp Ho Ht Hn Hi [Hnd Hlt]] Ec. unfold do_call, call in Ec. cbn [advance expected]. rewrite <- Ho. rewrite Hp in Ec.
  assert (Hfl : forall f x, f = future_for tok x -> forall i, <[length (h_calls h) := f]> (inflight s) !! i =
    if bool_decide (i ∈ fin) then None else future_for tok <$> (h_calls h ++ [x]) !! i).
  { intros f x -> i. destruct (decide (i = length (h_calls h))) as [->|Hne].
    - rewrite lookup_insert_eq, bool_decide_false by (intros ?%Hlt; lia). by rewrite list_lookup_middle.
    - rewrite lookup_insert_ne, Hi by done. destruct (decide (i ∈ fin)); [by rewrite !bool_decide_true|rewrite !bool_decide_false by done]. destruct (decide (i < length (h_calls h))%nat).
      + by rewrite lookup_app_l.
      + rewrite !(proj2 (lookup_ge_None _ _)); [done|rewrite length_app; cbn; lia|lia]. }
  assert (Hfin : forall x i, i ∈ fin -> (i < length (h_calls h ++ [x]))%nat) by (intros x i ?%Hlt; rewrite length_app; cbn; lia).
  destruct (state_backoff (breaker s)) as [d|] eqn:Eb.
  - injection Ec as <- <-. split; [|done]. split; cbn; try done; [by rewrite Hn, length_app, Nat.add_comm| |by split; [|apply Hfin]].
    rewrite Hn. by apply Hfl.
  - destruct (clone_request r (h_policy h)) as [copy q]. injection Ec as <- <-. split; [|done].
    split; cbn; try done; [by rewrite Hn, length_app, Nat.add_comm| |by split; [|apply Hfin]].
    rewrite Hn. apply Hfl. unfold future_for. cbn. f_equal. rewrite Ht. destruct tok; by destruct copy.
Qed.

Lemma poll_expected tok h s i r passed ip out f' st :
  policy s = h_policy h -> state_backoff s = h_open h -> h_calls h !! i = Some (r, passed) ->
  ResponseFuture_poll ip (default false ((fun _ => h_cancelled h) <$> tok)) (future_for tok (r, passed)) s = Some (out, f', st) ->
  expected tok h (InPoll i ip) = Some (ObsOutcome out) /\ policy st = h_policy (advance h (InPoll i ip)) /\
  state_backoff st = h_open (advance h (InPoll i ip)) /\ (out = Pending -> f' = future_for tok (r, passed)).
Proof.
  intros Hp Ho Hi Ep. cbn [expected advance]. rewrite Hi. unfold ResponseFuture_poll, future_for in Ep |- *. cbn [snd fst] in Ep |- *.
  destruct passed as [copy|]; cbn [inner req watches_cancellation mbind option_bind] in Ep |- *; [|by destruct ip; simplify_eq/=].
  destruct ip as [res|]; [destruct copy as [c|]; [|by simplify_eq/=]|].
  - rewrite Hp in Ep. destruct (retry c res (h_policy h)) as [[[[d c'] res'] q]|] eqn:Er; [|done]. cbn in Ep |- *.
    destruct d as [d|]; simplify_eq/=; rewrite Ho; split_and!; try done; by destruct (h_open h).
  - destruct copy as [c|], tok as [v|]; cbn in Ep |- *; try (destruct (h_cancelled h)); by simplify_eq/=.
Qed.

Lemma advance_poll_calls h i ip : h_calls (advance h (InPoll i ip)) = h_calls h /\ h_cancelled (advance h (InPoll i ip)) = h_cancelled h.
Proof. cbn [advance]. destruct ip; [|done]. by repeat case_match. Qed.

Lemma refines_poll tok h fin s i ip o s' : refines tok h fin s -> do_poll i ip s = Some (o, s') ->
  refines tok (advance h (InPoll i ip)) (match finished_by (InPoll i ip, o) with Some i => fin ++ [i] | None => fin end) s' /\
  expected tok h (InPoll i ip) = Some o.
Proof.
  intros [Hp Ho Ht Hn Hi [Hnd Hlt]] Ec. unfold do_poll in Ec. rewrite Hi in Ec. case_bool_decide as Hf; [done|].
  destruct (h_calls h !! i) as [[r passed]|] eqn:Ei; [|done]. cbn in Ec. rewrite Ht in Ec.
  destruct (ResponseFuture_poll _ _ _ _) as [[[out f'] st]|] eqn:Ep; [|done]. cbn in Ec. injection Ec as <- <-.
  destruct (poll_expected tok h _ i r passed ip out f' st Hp Ho Ei Ep) as (Hex & Hp' & Ho' & Hpend). split; [|done].
  destruct (advance_poll_calls h i ip) as [Hc Hca]. split; cbn [breaker policy inflight next_id token]; rewrite ?Hc, ?Hca; try done.
  - intros j. destruct out as [x|]; cbn [finished_by].
    + destruct (decide (j = i)) as [->|Hne]; [rewrite lookup_delete_eq, bool_decide_true by set_solver; done|].
      rewrite lookup_delete_ne, Hi by done. rewrite (bool_decide_ext (j ∈ fin ++ [i]) (j ∈ fin)); [done|]. set_solver.
    + rewrite Hpend by done. destruct (decide (j = i)) as [->|Hne]; [|by rewrite lookup_insert_ne, Hi].
      by rewrite lookup_insert_eq, bool_decide_false, Ei.
  - destruct out as [x|]; cbn [finished_by]; [|done]. split.
    + apply NoDup_app. split_and!; [done|set_solver|apply NoDup_singleton].
    + intros j [Hj|Hj%list_elem_of_singleton]%elem_of_app; [by apply Hlt|]. subst. by apply lookup_lt_Some in Ei.
Qed.

Lemma refines_step tok h fin s inp o s' : refines tok h fin s -> sys_step inp s = Some (o, s') ->
  refines tok (advance h inp) (match finished_by (inp, o) with Some i => fin ++ [i] | None => fin end) s' /\ expected tok h inp = Some o.
Proof.
  intros Hr Ec. destruct inp as [elapsed ready|r|i ip|]; cbn [sys_step] in Ec.
  - destruct Hr as [Hp Ho Ht Hn Hi Hf]. unfold poll_ready in Ec. cbn [expected advance finished_by]. rewrite <- Ho.
    destruct (state_backoff (breaker s)) as [d|] eqn:Eb; [destruct elapsed|]; cbn in Ec; injection Ec as <- <-; (split; [|done]);
      split; cbn; try done; rewrite ?Eb; by destruct elapsed.
  - destruct (do_call r s) as [o' s''] eqn:Ed. injection Ec as <- <-. cbn [finished_by]. by eapply refines_call.
  - by eapply refines_poll.
  - injection Ec as <- <-. destruct Hr as [Hp Ho Ht Hn Hi Hf]. split; [|done]. split; cbn; try done. rewrite Ht. by destruct tok.
Qed.

Lemma run_refines tok ins h fin s obs s' : refines tok h fin s -> run ins s = Some (obs, s') ->
  length obs = length ins /\ refines tok (foldl advance h ins) (fin ++ finished ins obs) s' /\
  forall k inp, ins !! k = Some inp -> exists o, obs !! k = Some o /\ expected tok (foldl advance h (take k ins)) inp = Some o.
Proof.
  revert h fin s obs. induction ins as [|inp ins IH]; intros h fin s obs Hr Er; cbn [run] in Er.
  { simplify_eq. split; [done|]. split; [by rewrite app_nil_r|done]. }
  destruct (sys_step inp s) as [[o s1]|] eqn:Es; [|done]. cbn in Er. destruct (run ins s1) as [[obs1 s2]|] eqn:E1; [|done]. cbn in Er. simplify_eq.
  destruct (refines_step tok h fin s inp o s1 Hr Es) as [Hr1 Hex]. destruct (IH _ _ _ _ Hr1 E1) as (Hl & Hr2 & Hall).
  split; [cbn; by rewrite Hl|]. split.
  - unfold finished in *. cbn [zip zip_with omap list_omap foldl] in *. destruct (finished_by (inp, o)); [by rewrite <- app_assoc in Hr2|done].
  - intros [|k] inp' Hk; cbn in Hk |- *; [simplify_eq; by exists o|by apply Hall].
Qed.

Lemma new_refines p tok : refines tok (no_history p tok) [] (new_system p tok).
Proof. split; cbn; try done; [by destruct tok|]. split; [constructor|by intros i ?%elem_of_nil]. Qed.

(** What is in flight and what is finished are the requests, each once. *)
Lemma refines_accounts tok h fin s : refines tok h fin s -> (map_to_list (inflight s)).*1 ++ fin ≡ₚ seq 0 (length (h_calls h)).
Proof.
  intros [_ _ _ _ Hi [Hnd Hlt]]. apply NoDup_Permutation.
  - apply NoDup_app. split_and!; [apply NoDup_fst_map_to_list| |done]. intros i ([j f] & -> & Hin%elem_of_map_to_list)%list_elem_of_fmap Hf.
    cbn in Hf. rewrite Hi, bool_decide_true in Hin by done. done.
  - apply NoDup_seq.
  - intros i. rewrite elem_of_app, elem_of_seq. split.
    + intros [([j f] & -> & Hin%elem_of_map_to_list)%list_elem_of_fmap|Hf%Hlt]; [|lia]. cbn. rewrite Hi in Hin.
      case_bool_decide; [done|]. apply fmap_Some in Hin as (x & Hx%lookup_lt_Some & _). lia.
    + intros Hb. destruct (decide (i ∈ fin)) as [Hf|Hf]; [by right|left]. destruct (lookup_lt_is_Some_2 (h_calls h) i) as [x Hx]; [lia|].
      apply list_elem_of_fmap. exists (i, future_for tok x). split; [done|]. apply elem_of_map_to_list. by rewrite Hi, bool_decide_false, Hx.
Qed.
End breaker.
Arguments State : clear implicits.
Arguments ResponseFuture : clear implicits.
Arguments System : clear implicits.
Arguments Input : clear implicits.
Arguments Observed : clear implicits.
Arguments History : clear implicits.

(** ** Theorems *)

Section theorems.
Context {P Req Res E : Type} `{PO : Policy P Req Res E}.

(** C35: However calls, polls, readiness checks and cancellations interleave, the breaker answers each of them as the past
    says: while it is open, which it is from a retry until a readiness check after the backoff, nothing reaches the service
    and every call gets its own request back; an answer of the service goes to the policy with the copy of the request,
    and comes back as the policy leaves it, or as a request to retry; a cancellation hands back the copies of what the service
    has not answered.  The policy is in the state these consultations leave, the first backoff stays in force, and every
    request is in flight or has returned, exactly once. *)
Theorem breaker_keeps_requests (p : P) (tok : option bool) (ins : list (Input Req Res E)) (obs : list (Observed Req Res E))
    (s : System P Req) :
  run ins (new_system p tok) = Some (obs, s) ->
  (length obs = length ins /\ forall k inp, ins !! k = Some inp ->
     exists o, obs !! k = Some o /\ expected tok (history p tok (take k ins)) inp = Some o) /\
  policy (breaker s) = h_policy (history p tok ins) /\ state_backoff (breaker s) = h_open (history p tok ins) /\
  (map_to_list (inflight s)).*1 ++ finished ins obs ≡ₚ seq 0 (length (h_calls (history p tok ins))).
Proof.
  intros Hr. destruct (run_refines tok ins _ [] _ obs s (new_refines p tok) Hr) as (Hl & Hf & Hall).
  split_and!; [done..|by apply rf_policy in Hf|by apply rf_open in Hf|]. by apply refines_accounts in Hf.
Qed.

(** Nothing panics, as long as the policy does not: in every state that a run reaches, a future in flight can be polled,
    whatever the inner service answers. *)
Theorem breaker_poll_total p tok (ins : list (Input Req Res E)) obs s i f ip :
  run ins (new_system p tok) = Some (obs, s) -> inflight s !! i = Some f ->
  (forall r res q, is_Some (retry (Req := Req) (Res := Res) (E := E) r res q)) ->
  is_Some (do_poll i ip s).
Proof.
  intros Hr Hi Hpol. destruct (run_refines tok ins _ [] _ obs s (new_refines p tok) Hr) as (_ & [_ _ _ _ Hfl _] & _).
  unfold do_poll. rewrite Hi. rewrite Hfl in Hi. case_bool_decide; [done|]. apply fmap_Some in Hi as ([r passed] & _ & ->). cbn.
  unfold ResponseFuture_poll, future_for. cbn [snd fst]. destruct passed as [copy|]; cbn; [|by eexists].
  destruct ip as [res|]; [destruct copy as [c|]; [|by eexists]|].
  - destruct (Hpol c res (policy (breaker s))) as [[[[d c'] res'] q] ->]. destruct d; by eexists.
  - destruct copy as [c|], tok as [v|]; cbn; try destruct (default false (token s)); by eexists.
Qed.
End theorems.

(** ** Witnesses: the breaker with the rolling policy *)

Section witnesses.
#[local] Existing Instance Rng_ref.
#[local] Instance result_classifier : RetryClassifier unit unit unit :=
  fun _ r => match r with Ok _ => false | Err _ => true end.

Abbreviation ExamplePolicy := (RollingExponentialBackoffRetryPolicy unit unit).
Definition example_policy : ExamplePolicy := RollingPolicy_new tt example_backoff.

(** Two requests are let through; the first fails and opens the breaker, a third one is refused, and after the backoff
    a fourth one is let through; then the token is cancelled. *)
Definition example_inputs : list (Input nat unit unit) :=
  [InCall 7%nat; InCall 8%nat; InPoll 0 (Ready (Err tt)); InReady false (Ready (Ok tt)); InCall 9%nat; InPoll 2 Pending;
   InReady true (Ready (Ok tt)); InCall 10%nat; InPoll 3 (Ready (Ok tt)); InCancel; InPoll 1 Pending].

Definition example_observed : list (Observed nat unit unit) :=
  [ObsPassed 7%nat; ObsPassed 8%nat; ObsOutcome (Ready (Err (RetryError 7%nat))); ObsReady Pending; ObsRefused;
   ObsOutcome (Ready (Err (OpenError 9%nat))); ObsReady (Ready (Ok tt)); ObsPassed 10%nat; ObsOutcome (Ready (Ok tt)); ObsCancelled;
   ObsOutcome (Ready (Err (CancelledError 8%nat)))].

Definition example_end : option (System ExamplePolicy nat) := snd <$> run example_inputs (new_system example_policy (Some false)).

Example example_run : fst <$> run example_inputs (new_system example_policy (Some false)) = Some example_observed.
Proof. vm_compute. reflexivity. Qed.

Lemma breaker_keeps_requests_witness : exists s, run example_inputs (new_system example_policy (Some false)) = Some (example_observed, s) /\
  (map_to_list (inflight s)).*1 ++ [0; 2; 3; 1]%nat ≡ₚ seq 0 4.
Proof.
  destruct (run example_inputs (new_system example_policy (Some false))) as [[obs s]|] eqn:Er; [|vm_compute in Er; discriminate Er].
  exists s. assert (Hobs : obs = example_observed) by (vm_compute in Er; injection Er as <- _; reflexivity). split; [by rewrite Hobs|].
  pose proof (breaker_keeps_requests example_policy (Some false) example_inputs obs s Er) as (_ & _ & _ & Hp). rewrite Hobs in Hp. exact Hp.
Defined.

Lemma breaker_poll_total_witness : exists s,
  run [InCall 8%nat] (new_system Noop (Some true)) = Some ([ObsPassed (Res := unit) (E := unit) 8%nat], s) /\
  is_Some (do_poll (Res := unit) (E := unit) 0 Pending s).
Proof.
  eexists. split; [reflexivity|]. eapply (breaker_poll_total (Res := unit) (E := unit) Noop (Some true) [InCall 8%nat]); [reflexivity|reflexivity|].
  intros r res q. by eexists.
Defined.
End witnesses.
