(* ===== verification/Restart.v ===== *)
(** * Restart: how often a supervisor restarts its children

    Models [lib/saluki-core/src/runtime/restart.rs].  The clock is an argument: [evaluate_restart]
    takes the instant it reads, in nanoseconds. *)

From Stdlib Require Import ZArith Lia Sorted.
From stdpp Require Import base tactics list numbers option sorting.
From S2P Require Import Prelude.
Open Scope Z_scope.

Inductive RestartMode := OneForOne | OneForAll.

Record RestartStrategy := {
  mode : RestartMode;
  intensity : nat;
  period : Z;
}.

Definition RestartStrategy_default : RestartStrategy :=
  {| mode := OneForOne; intensity := 1; period := 5 * 1000000000 |}.
Definition one_to_one : RestartStrategy := RestartStrategy_default.
Definition one_for_all : RestartStrategy :=
  {| mode := OneForAll; intensity := intensity RestartStrategy_default;
     period := period RestartStrategy_default |}.
Definition with_intensity_and_period (i : nat) (d : Z) (s : RestartStrategy) : RestartStrategy :=
  {| mode := mode s; intensity := i; period := d |}.

Inductive RestartType := Permanent | Transient | Temporary.

Definition should_restart (t : RestartType) (abnormal : bool) : bool :=
  match t with
  | Permanent => true
  | Transient => abnormal
  | Temporary => false
  end.

Inductive RestartAction := Restart (m : RestartMode) | Shutdown.

Record RestartState := {
  strategy : RestartStrategy;
  restart_history : list Z;
}.

Definition RestartState_new (s : RestartStrategy) : RestartState :=
  {| strategy := s; restart_history := [] |}.

(** [Instant::saturating_duration_since] *)
Definition saturating_duration_since (now earlier : Z) : Z := Z.max 0 (now - earlier).

Definition set_history (h : list Z) (st : RestartState) : RestartState :=
  {| strategy := strategy st; restart_history := h |}.

Definition evaluate_restart (now : Z) (st : RestartState) : RestartAction * RestartState :=
  let s := strategy st in
  if (intensity s =? 0)%nat then (Shutdown, st)
  else
    let h := restart_history st in
    if (length h =? intensity s)%nat then
      match h with
      | oldest :: rest =>
          if saturating_duration_since now oldest <? period s then (Shutdown, st)
          else (Restart (mode s), set_history (rest ++ [now]) st)
      | [] => (Shutdown, st) (* not reached: the history is as long as a positive intensity *)
      end
    else (Restart (mode s), set_history (h ++ [now]) st).

(** ** Specification: a sliding window over all restarts *)

(** The actions taken at the instants [ts], and the instants of the restarts. *)
Fixpoint evaluate_all (ts : list Z) (st : RestartState) : list RestartAction * list Z * RestartState :=
  match ts with
  | [] => ([], [], st)
  | now :: ts' =>
      let '(a, st) := evaluate_restart now st in
      let '(acts, grants, st) := evaluate_all ts' st in
      (a :: acts, match a with Restart _ => now :: grants | Shutdown => grants end, st)
  end.

(** How many of the restarts [grants] are less than a period old. *)
Definition recent (p now : Z) (grants : list Z) : nat :=
  length (List.filter (fun g => now - g <? p) grants).

(** The state remembers the last [intensity] of the restarts [grants] made so far. *)
Record remembers (st : RestartState) (grants : list Z) (now : Z) : Prop := {
  rm_history : restart_history st = drop (length grants - intensity (strategy st)) grants;
  rm_sorted : StronglySorted Z.le grants;
  rm_past : Forall (fun g => g <= now) grants;
  rm_spaced : forall j a c, grants !! j = Some a ->
    grants !! (j + intensity (strategy st))%nat = Some c -> period (strategy st) <= c - a;
}.

(** ** Lemmas *)

Lemma recent_all p now l : Forall (fun g => now - g < p) l -> recent p now l = length l.
Proof.
  unfold recent. induction 1 as [|g l Hg _ IH]; simpl; [done|].
  rewrite (proj2 (Z.ltb_lt _ _)) by done. simpl. by rewrite IH.
Qed.

Lemma recent_none p now l : Forall (fun g => p <= now - g) l -> recent p now l = 0%nat.
Proof.
  unfold recent. induction 1 as [|g l Hg _ IH]; simpl; [done|]. by rewrite (proj2 (Z.ltb_ge _ _)).
Qed.

Lemma recent_app p now l1 l2 : recent p now (l1 ++ l2) = (recent p now l1 + recent p now l2)%nat.
Proof. unfold recent. by rewrite List.filter_app, length_app. Qed.

Lemma recent_le p now l : (recent p now l <= length l)%nat.
Proof. apply List.filter_length_le. Qed.

Lemma recent_cons p now x l : recent p now (x :: l) = ((if (now - x <? p)%Z then 1 else 0) + recent p now l)%nat.
Proof. unfold recent. simpl. by destruct (_ <? _). Qed.

Lemma sorted_split (l1 l2 : list Z) x :
  StronglySorted Z.le (l1 ++ x :: l2) -> Forall (fun g => g <= x) l1 /\ Forall (fun g => x <= g) l2.
Proof.
  induction l1 as [|y l1 IH]; simpl; intros Hs; apply StronglySorted_inv in Hs as [Hs Hf]; [done|].
  apply Forall_app in Hf as [_ Hf]. apply Forall_cons_1 in Hf as [Hy _].
  destruct (IH Hs). by split; [constructor|].
Qed.

Lemma sorted_snoc (l : list Z) now :
  StronglySorted Z.le l -> Forall (fun g => g <= now) l -> StronglySorted Z.le (l ++ [now]).
Proof.
  induction 1 as [|x l Hs IH Hf]; intros Hn; simpl; [by repeat constructor|].
  apply Forall_cons_1 in Hn as [Hx Hn]. constructor; [by apply IH|].
  apply Forall_app. split; [done|by repeat constructor].
Qed.

Section evaluate.
Context (st : RestartState) (grants : list Z) (before now : Z).
Context (Hrem : remembers st grants before) (Hnow : before <= now)
        (Hpos : 0 <= period (strategy st)).
#[local] Abbreviation n := (intensity (strategy st)).

(** The decision is that of the sliding window over all restarts. *)
Lemma evaluate_window :
  (evaluate_restart now st).1 =
    if (n <=? recent (period (strategy st)) now grants)%nat then Shutdown else Restart (mode (strategy st)).
Proof using All.
  destruct Hrem as [Hh Hs Hp _]. unfold evaluate_restart.
  destruct (n =? 0)%nat eqn:E0; [apply Nat.eqb_eq in E0; by rewrite E0|]. apply Nat.eqb_neq in E0.
  pose proof (recent_le (period (strategy st)) now grants) as Hle.
  destruct (length (restart_history st) =? n)%nat eqn:En.
  - apply Nat.eqb_eq in En. rewrite Hh, length_drop in En.
    pose proof (take_drop (length grants - n) grants) as Htd. rewrite <- Hh in Htd.
    destruct (restart_history st) as [|oldest rest] eqn:Er;
      [apply (f_equal length) in Hh; rewrite length_drop in Hh; simpl in Hh; lia|].
    assert (Hlen : length (oldest :: rest) = n) by (rewrite Hh, length_drop; lia).
    rewrite <- Htd in Hs. destruct (sorted_split _ _ _ Hs) as [Hold Hnew].
    rewrite <- Htd in Hp. apply Forall_app in Hp as [_ Hp].
    apply Forall_cons_1 in Hp as [Hpo Hp].
    rewrite <- Htd, recent_app. unfold saturating_duration_since. rewrite Z.max_r by lia.
    destruct (now - oldest <? period (strategy st)) eqn:Ew; bool_cases.
    + rewrite (recent_all _ _ (oldest :: rest)).
      * rewrite Hlen. rewrite (proj2 (Nat.leb_le _ _)) by lia. done.
      * constructor; [done|]. eapply Forall_impl; [exact Hnew|]. simpl. lia.
    + rewrite recent_none by (eapply Forall_impl; [exact Hold|]; simpl; lia).
      rewrite recent_cons, (proj2 (Z.ltb_ge _ _)) by lia.
      pose proof (recent_le (period (strategy st)) now rest). simpl in Hlen.
      rewrite (proj2 (Nat.leb_gt _ _)) by lia. done.
  - apply Nat.eqb_neq in En. rewrite Hh, length_drop in En.
    rewrite (proj2 (Nat.leb_gt _ _)) by lia. done.
Qed.

(** And the state goes on remembering. *)
Lemma evaluate_remembers :
  let '(a, st') := evaluate_restart now st in
  strategy st' = strategy st /\
  remembers st' (grants ++ match a with Restart _ => [now] | Shutdown => [] end) now.
Proof using All.
  destruct Hrem as [Hh Hs Hp Hsp].
  assert (Hpast : Forall (fun g => g <= now) grants)
    by (eapply Forall_impl; [exact Hp|]; simpl; lia).
  destruct (evaluate_restart now st) as [a st'] eqn:E.
  unfold evaluate_restart in E.
  destruct (n =? 0)%nat eqn:E0; [simplify_eq/=; rewrite app_nil_r; by split|]. apply Nat.eqb_neq in E0.
  assert (Hgrant : forall h, h = drop (length (grants ++ [now]) - n) (grants ++ [now]) ->
    (forall x, grants !! (length grants - n)%nat = Some x -> (n <= length grants)%nat ->
       period (strategy st) <= now - x) ->
    strategy (set_history h st) = strategy st /\ remembers (set_history h st) (grants ++ [now]) now).
  { intros h -> Hx. split; [done|]. split; simpl; [done|by apply sorted_snoc| |].
    - apply Forall_app. split; [done|by repeat constructor].
    - intros j x c Hj Hc. destruct (decide (j + n < length grants)%nat) as [Hlt|Hge].
      + rewrite lookup_app_l in Hc by done. rewrite lookup_app_l in Hj by lia. by eapply Hsp.
      + assert (j + n = length grants)%nat as Heq.
        { apply lookup_lt_Some in Hc. rewrite length_app in Hc. simpl in Hc. lia. }
        rewrite Heq, lookup_app_r, Nat.sub_diag in Hc by lia. simplify_eq/=.
        rewrite lookup_app_l in Hj by lia. apply (Hx x); [|lia].
        by replace (length grants - n)%nat with j by lia. }
  destruct (length (restart_history st) =? n)%nat eqn:En.
  - apply Nat.eqb_eq in En. rewrite Hh, length_drop in En.
    destruct (restart_history st) as [|oldest rest] eqn:Er;
      [apply (f_equal length) in Hh; rewrite length_drop in Hh; simpl in Hh; lia|].
    unfold saturating_duration_since in E.
    destruct (_ <? _) eqn:Ew; simplify_eq/=; [rewrite app_nil_r; split; [done|]; by split; rewrite ?Er|].
    bool_cases. apply Hgrant.
    + rewrite length_app. simpl.
      replace (length grants + 1 - n)%nat with (S (length grants - n)) by lia.
      rewrite drop_app_le by lia. f_equal.
      change rest with (drop 1 (oldest :: rest)). rewrite Hh, drop_drop. f_equal. lia.
    + intros x Hx _. pose proof (Forall_lookup_1 _ _ _ _ Hpast Hx).
      rewrite (drop_S _ _ _ Hx) in Hh. simplify_eq. simpl in *. lia.
  - apply Nat.eqb_neq in En. rewrite Hh, length_drop in En. simplify_eq. apply Hgrant.
    + rewrite Hh, length_app. simpl.
      replace (length grants + 1 - n)%nat with 0%nat by lia.
      by replace (length grants - n)%nat with 0%nat by lia.
    + intros x Hx Hle. lia.
Qed.
End evaluate.

(** Over a run: the decisions are those of the window, and the spacing of the restarts holds. *)
Lemma evaluate_all_spec ts st grants before :
  remembers st grants before -> StronglySorted Z.le (before :: ts) -> 0 <= period (strategy st) ->
  let '(acts, more, st') := evaluate_all ts st in
  exists last, remembers st' (grants ++ more) last /\ strategy st' = strategy st.
Proof.
  revert st grants before. induction ts as [|now ts IH]; intros st grants before Hrem Hs Hpos; simpl.
  - exists before. by rewrite app_nil_r.
  - apply StronglySorted_inv in Hs as [Hs Hb]. apply Forall_cons_1 in Hb as [Hb _].
    pose proof (evaluate_remembers st grants before now Hrem Hb Hpos) as He.
    destruct (evaluate_restart now st) as [a st1]. destruct He as [Hst Hrem1].
    specialize (IH st1 _ now Hrem1 Hs ltac:(by rewrite Hst)).
    destruct (evaluate_all ts st1) as [[acts more] st2]. destruct IH as (last & Hrem2 & Hst2).
    exists last. split; [|congruence]. rewrite <- app_assoc in Hrem2. by destruct a.
Qed.

(** ** Theorems *)

(** A restart is granted exactly when fewer than [intensity] of all the restarts made so far
    are less than a period old, although the state keeps only the last [intensity] of them. *)
Theorem restart_is_sliding_window st grants before now :
  remembers st grants before -> before <= now -> 0 <= period (strategy st) ->
  let '(a, st') := evaluate_restart now st in
  a = (if (intensity (strategy st) <=? recent (period (strategy st)) now grants)%nat
       then Shutdown else Restart (mode (strategy st))) /\
  remembers st' (grants ++ match a with Restart _ => [now] | Shutdown => [] end) now.
Proof.
  intros Hrem Hn Hp. pose proof (evaluate_window st grants before now Hrem Hn Hp) as Hw.
  pose proof (evaluate_remembers st grants before now Hrem Hn Hp) as He.
  destruct (evaluate_restart now st) as [a st']. by destruct He.
Qed.

(** Whatever the sequence of failures, in any window shorter than the period the supervisor
    makes at most [intensity] restarts: the restart [intensity] places after another comes at
    least a period later; and the history never holds more than [intensity] instants. *)
Theorem restart_rate_limited s ts t0 :
  StronglySorted Z.le (t0 :: ts) -> 0 <= period s ->
  let '(_, grants, st) := evaluate_all ts (RestartState_new s) in
  (length (restart_history st) <= intensity s)%nat /\
  forall j x y, grants !! j = Some x -> grants !! (j + intensity s)%nat = Some y -> period s <= y - x.
Proof.
  intros Hs Hp.
  assert (H0 : remembers (RestartState_new s) [] t0)
    by (split; simpl; [done|constructor|constructor|done]).
  pose proof (evaluate_all_spec ts (RestartState_new s) [] t0 H0 Hs Hp) as Ha.
  destruct (evaluate_all ts (RestartState_new s)) as [[acts grants] st].
  destruct Ha as (last & [Hh _ _ Hsp] & Hst). simpl in *. rewrite Hst in *. simpl in *.
  split; [|done]. rewrite Hh, length_drop. lia.
Qed.

(** ** Witnesses *)

Definition two_per_ten : RestartStrategy := {| mode := OneForOne; intensity := 2; period := 10 |}.

Lemma restart_is_sliding_window_witness :
  let st := {| strategy := two_per_ten; restart_history := [5; 9] |} in
  (evaluate_restart 14 st).1 = Shutdown /\ (evaluate_restart 15 st).1 = Restart OneForOne.
Proof.
  assert (Hrem : remembers {| strategy := two_per_ten; restart_history := [5; 9] |} [5; 9] 9).
  { split; simpl; [done|repeat constructor; lia|repeat constructor; lia|].
    intros [|[|j]] a c; simpl; done. }
  split.
  - exact (proj1 (restart_is_sliding_window _ [5; 9] 9 14 Hrem ltac:(lia) ltac:(by vm_compute))).
  - exact (proj1 (restart_is_sliding_window _ [5; 9] 9 15 Hrem ltac:(lia) ltac:(by vm_compute))).
Defined.

Lemma restart_rate_limited_witness :
  let '(acts, grants, st) := evaluate_all [1; 3; 5; 12; 13] (RestartState_new two_per_ten) in
  grants = [1; 3; 12; 13] /\ 10 <= 12 - 1.
Proof.
  pose proof (restart_rate_limited two_per_ten [1; 3; 5; 12; 13] 0
    ltac:(repeat constructor; lia) ltac:(by vm_compute)) as [_ Hr].
  split; [reflexivity|]. exact (Hr 0%nat 1 12 eq_refl eq_refl).
Defined.
