(* ===== verification/MetricValues.v ===== *)
(** * MetricValues: the values of a metric

    Models [lib/saluki-core/src/data_model/event/metric/value]: timestamped points ([mod.rs]), the
    scalar, set, histogram and sketch points ([scalar.rs], [set.rs], [histogram.rs], [sketch.rs]),
    the sum type [MetricValues], and [SampleRate] ([metric/mod.rs]).  All four kinds of points are
    one list of timestamped values with their own way of merging two values; a set of strings is a
    [gset]; a sketch is any instance of the class [Sketch]. *)

From Stdlib Require Import ZArith Lia Sorted Floats.SpecFloat Strings.String.
From stdpp Require Import base tactics list numbers option gmap strings sorting.
From S2P Require Import Prelude Float64.
Open Scope Z_scope.

(** ** Timestamped values *)

(** [Option<NonZeroU64>]: [NonZeroU64::new] and the derived order, [None] first. *)
Definition nonzero (z : Z) : option Z := if z =? 0 then None else Some z.

Definition ts_le (x y : option Z) : bool :=
  match x, y with
  | None, _ => true
  | Some _, None => false
  | Some a, Some b => a <=? b
  end.

Record TimestampedValue (T : Type) := TV {
  timestamp : option Z;
  value : T;
}.
Arguments TV {T} timestamp value.
Arguments timestamp {T}.
Arguments value {T}.

Abbreviation TimestampedValues T := (list (TimestampedValue T)).

Definition is_timestamped {T} (v : TimestampedValue T) : bool :=
  match timestamp v with Some _ => true | None => false end.

Section points.
Context {T : Type}.
Implicit Types l : TimestampedValues T.

Definition all_timestamped l : bool := forallb is_timestamped l.
Definition any_timestamped l : bool := existsb is_timestamped l.

(** The drained values and what is left. *)
Definition drain_timestamped l : TimestampedValues T * TimestampedValues T :=
  (List.filter is_timestamped l, List.filter (fun v => negb (is_timestamped v)) l).

Definition by_timestamp (v1 v2 : TimestampedValue T) : bool := ts_le (timestamp v1) (timestamp v2).
Definition sort_by_timestamp l : TimestampedValues T := stable_sort by_timestamp l.

(** [From<I: IntoIterator>]: the collected values, sorted. *)
Definition from_values l : TimestampedValues T := sort_by_timestamp l.

Definition closed_at (ts : Z) (v : TimestampedValue T) : bool :=
  match timestamp v with Some t => t <=? ts | None => false end.

(** The values split off, if any, and what is left. *)
Definition split_at_timestamp (ts : Z) l : option (TimestampedValues T) * TimestampedValues T :=
  match l with
  | [] => (None, [])
  | first :: _ =>
      if match timestamp first with Some first_ts => ts <? first_ts | None => false end
      then (None, l)
      else (Some (from_values (List.filter (closed_at ts) l)),
            List.filter (fun v => negb (closed_at ts v)) l)
  end.

Definition set_timestamp (ts : Z) l : TimestampedValues T :=
  map (fun v => TV (nonzero ts) (value v)) l.

(** [Vec::dedup_by] with the closure of [collapse_non_timestamped]: [prev] is the last value kept. *)
Fixpoint dedup_non_timestamped (merge : T -> T -> T) (prev : TimestampedValue T) l : TimestampedValues T :=
  match l with
  | [] => [prev]
  | v :: l' =>
      match timestamp v, timestamp prev with
      | None, None => dedup_non_timestamped merge (TV None (merge (value prev) (value v))) l'
      | _, _ => prev :: dedup_non_timestamped merge v l'
      end
  end.

Definition collapse_non_timestamped (ts : Z) (merge : T -> T -> T) l : TimestampedValues T :=
  match match l with [] => [] | v :: l' => dedup_non_timestamped merge v l' end with
  | [] => []
  | first :: rest =>
      TV (match timestamp first with Some t => Some t | None => nonzero ts end) (value first) :: rest
  end.

Definition add_point (ts : option Z) (x : T) l : TimestampedValues T :=
  sort_by_timestamp (l ++ [TV ts x]).

(** Merging one incoming value: into the first value with its timestamp, or at the end; the flag
    says that the values need sorting. *)
Fixpoint merge_value (merge : T -> T -> T) (o : TimestampedValue T) l : TimestampedValues T * bool :=
  match l with
  | [] => ([o], true)
  | v :: l' =>
      if bool_decide (timestamp v = timestamp o)
      then (TV (timestamp v) (merge (value v) (value o)) :: l', false)
      else let '(r, needs_sort) := merge_value merge o l' in (v :: r, needs_sort)
  end.

Definition points_merge (merge : T -> T -> T) (other l : TimestampedValues T) : TimestampedValues T :=
  let '(l, needs_sort) :=
    fold_left (fun '(l, needs_sort) o =>
                 let '(l, pushed) := merge_value merge o l in (l, needs_sort || pushed))
              other (l, false) in
  if needs_sort then sort_by_timestamp l else l.
End points.

(** ** Sample rates *)

Record SampleRate := { rate : f64 }.
Definition unsampled : SampleRate := {| rate := f64_one |}.
Definition raw_weight (r : SampleRate) : f64 := f64_div f64_one (rate r).
Definition weight (r : SampleRate) : Z := f64_to_u64 (raw_weight r).

(** [(0.0..=1.0).contains(&x)] *)
Definition in_unit (x : f64) : bool := f64_leb f64_zero x && f64_leb x f64_one.

Definition SampleRate_try_from (x : f64) : result string SampleRate :=
  if negb (in_unit x) then Err "sample rate must be between 0.0 and 1.0"%string else Ok {| rate := x |}.

(** ** Histograms *)

(** [OrderedFloat]: a NaN equals itself and is above everything. *)
Definition ordered_eqb (x y : f64) : bool :=
  if is_nan x then is_nan y else f64_eqb x y.
Definition ordered_leb (x y : f64) : bool :=
  if is_nan y then true else if is_nan x then false else f64_leb x y.

Record WeightedSample := { sample_value : f64; sample_weight : f64 }.

Record Histogram := {
  samples : list WeightedSample;
  shared_weight : f64;
  weights_vary : bool;
}.

Definition Histogram_default : Histogram :=
  {| samples := []; shared_weight := f64_zero; weights_vary := false |}.

Definition Histogram_insert (x : f64) (r : SampleRate) (h : Histogram) : Histogram :=
  let w := raw_weight r in
  let unset := ordered_eqb (shared_weight h) f64_zero in
  {| samples := samples h ++ [{| sample_value := x; sample_weight := w |}];
     shared_weight := if unset then w else shared_weight h;
     weights_vary := if unset then weights_vary h
                     else if negb (ordered_eqb w (shared_weight h)) then true else weights_vary h |}.

(** [other] is drained. *)
Definition Histogram_merge (h other : Histogram) : Histogram :=
  let '(shared, vary) :=
    if negb (weights_vary h) then
      if weights_vary other then (shared_weight h, true)
      else if ordered_eqb (shared_weight h) f64_zero then (shared_weight other, weights_vary h)
      else if negb (ordered_eqb (shared_weight other) f64_zero) &&
              negb (ordered_eqb (shared_weight h) (shared_weight other))
      then (shared_weight h, true)
      else (shared_weight h, weights_vary h)
    else (shared_weight h, weights_vary h) in
  {| samples := samples h ++ samples other; shared_weight := shared; weights_vary := vary |}.

Definition neumaier_add (s c x : f64) : f64 * f64 :=
  let t := f64_add s x in
  let c := if f64_leb (f64_abs x) (f64_abs s)
           then f64_add c (f64_add (f64_sub s t) x)
           else f64_add c (f64_add (f64_sub x t) s) in
  (t, c).

(** [sort_unstable_by_key]: some sorted permutation. *)
Class SortUnstable := {
  sort_unstable : list WeightedSample -> list WeightedSample;
  sort_unstable_perm : forall l, sort_unstable l ≡ₚ l;
  sort_unstable_sorted : forall l,
    StronglySorted (fun a b => ordered_leb (sample_value a) (sample_value b) = true) (sort_unstable l);
}.

Record HistogramSummary := {
  summary_histogram : Histogram;
  summary_count : f64;
  summary_sum : f64;
}.

Definition accumulate (f : WeightedSample -> f64) (l : list WeightedSample) : f64 :=
  let '(s, c) := fold_left (fun '(s, c) x => neumaier_add s c (f x)) l (f64_zero, f64_zero) in
  f64_add s c.

Definition summary_view `{SortUnstable} (h : Histogram) : HistogramSummary :=
  let sorted := sort_unstable (samples h) in
  let h := {| samples := sorted; shared_weight := shared_weight h; weights_vary := weights_vary h |} in
  let count := accumulate sample_weight sorted in
  let sum :=
    if weights_vary h then accumulate (fun x => f64_mul (sample_value x) (sample_weight x)) sorted
    else f64_mul (accumulate sample_value sorted) (shared_weight h) in
  {| summary_histogram := h; summary_count := count; summary_sum := sum |}.

Definition summary_min (s : HistogramSummary) : option f64 :=
  sample_value <$> head (samples (summary_histogram s)).
Definition summary_max (s : HistogramSummary) : option f64 :=
  sample_value <$> last (samples (summary_histogram s)).
Definition summary_avg (s : HistogramSummary) : f64 := f64_div (summary_sum s) (summary_count s).

(** [count.round() as u64] *)
Definition summary_count_u64 (s : HistogramSummary) : Z := f64_to_u64 (f64_round (summary_count s)).

Fixpoint quantile_walk (target ws wc : f64) (l : list WeightedSample) : option f64 :=
  match l with
  | [] => None
  | x :: l' =>
      let '(ws, wc) := neumaier_add ws wc (sample_weight x) in
      if f64_ltb target (f64_add ws wc) then Some (sample_value x) else quantile_walk target ws wc l'
  end.

Definition one_hundredth : f64 := f64_div f64_one (f64_of_Z 100).

Definition summary_quantile (q : f64) (s : HistogramSummary) : option f64 :=
  if negb (in_unit q) then None
  else quantile_walk (f64_sub (f64_mul q (summary_count s)) one_hundredth) f64_zero f64_zero
         (samples (summary_histogram s)).

Definition summary_median (s : HistogramSummary) : option f64 := summary_quantile (f64_scale 1 (-1)) s.

(** ** Metric values *)

(** What the values need from a sketch. *)
Class Sketch (S : Type) := {
  sketch_default : S;
  sketch_insert_n : f64 -> Z -> S -> S;
  sketch_merge : S -> S -> S;
}.

Section values.
Context {S : Type} `{Sketch S}.

Inductive MetricValues :=
| Counter (points : TimestampedValues f64)
| Rate (points : TimestampedValues f64) (interval : Z)
| Gauge (points : TimestampedValues f64)
| Set_ (points : TimestampedValues (gset string))
| HistogramV (points : TimestampedValues Histogram)
| Distribution (points : TimestampedValues S).

Definition merge_scalar_sum (dest src : f64) : f64 := f64_add dest src.
Definition merge_scalar_latest (dest src : f64) : f64 := src.
Definition merge_set (dest src : gset string) : gset string := dest ∪ src.
Definition merge_histogram (dest src : Histogram) : Histogram := Histogram_merge dest src.
Definition merge_sketch (dest src : S) : S := sketch_merge dest src.

Definition counter_value (x : f64) (ts : Z) : MetricValues := Counter [TV (nonzero ts) x].

(** [counter_sampled_fallible] and its siblings: the first error ends the collection. *)
Fixpoint collect_results {E A B} (f : B -> A -> B) (acc : B) (l : list (result E A)) : result E B :=
  match l with
  | [] => Ok acc
  | Ok x :: l' => collect_results f (f acc x) l'
  | Err e :: _ => Err e
  end.

Definition counter_sampled_fallible {E} (l : list (result E f64)) (sample_rate : option SampleRate) :
    result E MetricValues :=
  let r := default unsampled sample_rate in
  Counter <$> collect_results (fun pts x => add_point None (f64_mul x (raw_weight r)) pts) [] l.

Definition gauge_fallible {E} (l : list (result E f64)) : result E MetricValues :=
  Gauge <$> collect_results (fun pts x => add_point None x pts) [] l.

Definition histogram_sampled_fallible {E} (l : list (result E f64)) (sample_rate : option SampleRate) :
    result E MetricValues :=
  let r := default unsampled sample_rate in
  (fun h => HistogramV [TV None h]) <$> collect_results (fun h x => Histogram_insert x r h) Histogram_default l.

Definition distribution_sampled_fallible {E} (l : list (result E f64)) (sample_rate : option SampleRate) :
    result E MetricValues :=
  let r := default unsampled sample_rate in
  (fun s => Distribution [TV None s]) <$>
    collect_results (fun s x => sketch_insert_n x (weight r) s) sketch_default l.

Definition MetricValues_is_empty (v : MetricValues) : bool :=
  match v with
  | Counter [] | Rate [] _ | Gauge [] | Set_ [] | HistogramV [] | Distribution [] => true
  | _ => false
  end.

Definition MetricValues_len (v : MetricValues) : nat :=
  match v with
  | Counter p | Rate p _ | Gauge p => length p
  | Set_ p => length p
  | HistogramV p => length p
  | Distribution p => length p
  end.

Definition MetricValues_all_timestamped (v : MetricValues) : bool :=
  match v with
  | Counter p | Rate p _ | Gauge p => all_timestamped p
  | Set_ p => all_timestamped p
  | HistogramV p => all_timestamped p
  | Distribution p => all_timestamped p
  end.

Definition MetricValues_any_timestamped (v : MetricValues) : bool :=
  match v with
  | Counter p | Rate p _ | Gauge p => any_timestamped p
  | Set_ p => any_timestamped p
  | HistogramV p => any_timestamped p
  | Distribution p => any_timestamped p
  end.

Definition MetricValues_set_timestamp (ts : Z) (v : MetricValues) : MetricValues :=
  match v with
  | Counter p => Counter (set_timestamp ts p)
  | Rate p i => Rate (set_timestamp ts p) i
  | Gauge p => Gauge (set_timestamp ts p)
  | Set_ p => Set_ (set_timestamp ts p)
  | HistogramV p => HistogramV (set_timestamp ts p)
  | Distribution p => Distribution (set_timestamp ts p)
  end.

(** The new values and what is left in [self]. *)
Definition split_timestamped (v : MetricValues) : MetricValues * MetricValues :=
  match v with
  | Counter p => let '(d, r) := drain_timestamped p in (Counter d, Counter r)
  | Rate p i => let '(d, r) := drain_timestamped p in (Rate d i, Rate r i)
  | Gauge p => let '(d, r) := drain_timestamped p in (Gauge d, Gauge r)
  | Set_ p => let '(d, r) := drain_timestamped p in (Set_ d, Set_ r)
  | HistogramV p => let '(d, r) := drain_timestamped p in (HistogramV d, HistogramV r)
  | Distribution p => let '(d, r) := drain_timestamped p in (Distribution d, Distribution r)
  end.

Definition MetricValues_split_at_timestamp (ts : Z) (v : MetricValues) : option MetricValues * MetricValues :=
  match v with
  | Counter p => let '(d, r) := split_at_timestamp ts p in (Counter <$> d, Counter r)
  | Rate p i => let '(d, r) := split_at_timestamp ts p in ((fun d => Rate d i) <$> d, Rate r i)
  | Gauge p => let '(d, r) := split_at_timestamp ts p in (Gauge <$> d, Gauge r)
  | Set_ p => let '(d, r) := split_at_timestamp ts p in (Set_ <$> d, Set_ r)
  | HistogramV p => let '(d, r) := split_at_timestamp ts p in (HistogramV <$> d, HistogramV r)
  | Distribution p => let '(d, r) := split_at_timestamp ts p in (Distribution <$> d, Distribution r)
  end.

Definition MetricValues_collapse_non_timestamped (ts : Z) (v : MetricValues) : MetricValues :=
  match v with
  | Counter p => Counter (collapse_non_timestamped ts merge_scalar_sum p)
  | Rate p i => Rate (collapse_non_timestamped ts merge_scalar_sum p) i
  | Gauge p => Gauge (collapse_non_timestamped ts merge_scalar_latest p)
  | Set_ p => Set_ (collapse_non_timestamped ts merge_set p)
  | HistogramV p => HistogramV (collapse_non_timestamped ts merge_histogram p)
  | Distribution p => Distribution (collapse_non_timestamped ts merge_sketch p)
  end.

Definition MetricValues_merge (dest src : MetricValues) : MetricValues :=
  match dest, src with
  | Counter a, Counter b => Counter (points_merge merge_scalar_sum b a)
  | Rate a ai, Rate b bi =>
      if negb (ai =? bi) then Rate b bi else Rate (points_merge merge_scalar_sum b a) ai
  | Gauge a, Gauge b => Gauge (points_merge merge_scalar_latest b a)
  | Set_ a, Set_ b => Set_ (points_merge merge_set b a)
  | HistogramV a, HistogramV b => HistogramV (points_merge merge_histogram b a)
  | Distribution a, Distribution b => Distribution (points_merge merge_sketch b a)
  | _, _ => src
  end.

Definition as_str (v : MetricValues) : string :=
  match v with
  | Counter _ => "counter"
  | Rate _ _ => "rate"
  | Gauge _ => "gauge"
  | Set_ _ => "set"
  | HistogramV _ => "histogram"
  | Distribution _ => "distribution"
  end.

Definition is_serie (v : MetricValues) : bool :=
  match v with Distribution _ => false | _ => true end.
Definition is_sketch (v : MetricValues) : bool :=
  match v with Distribution _ => true | _ => false end.
End values.
Arguments MetricValues : clear implicits.

(** ** Invariants and specifications *)

Section spec.
Context {T : Type}.
Implicit Types (l : TimestampedValues T) (merge : T -> T -> T).

(** Values are kept in the order of their timestamps, the ones without first. *)
Definition sorted l : Prop := StronglySorted (fun a b => by_timestamp a b = true) l.

(** One value per timestamp. *)
Definition distinct l : Prop := NoDup (timestamp <$> l).

Definition values_at (t : option Z) l : list T :=
  value <$> List.filter (fun v => bool_decide (timestamp v = t)) l.
Definition value_at (t : option Z) l : option T := head (values_at t l).

(** The value at a timestamp after merging the incoming values [xs] for it into [v]. *)
Definition merge_all merge (v : option T) (xs : list T) : option T :=
  match v, xs with
  | Some v, xs => Some (fold_left merge xs v)
  | None, x :: xs => Some (fold_left merge xs x)
  | None, [] => None
  end.

(** ** Lemmas *)

Lemma ts_order_total (x y : TimestampedValue T) : by_timestamp x y = true \/ by_timestamp y x = true.
Proof.
  unfold by_timestamp. destruct (timestamp x), (timestamp y); simpl; auto. rewrite !Z.leb_le. lia.
Qed.

Lemma ts_order_trans (x y z : TimestampedValue T) :
  by_timestamp x y = true -> by_timestamp y z = true -> by_timestamp x z = true.
Proof.
  unfold by_timestamp. destruct (timestamp x), (timestamp y), (timestamp z); simpl; auto; try done.
  rewrite !Z.leb_le. lia.
Qed.

Lemma sort_sorted l : sorted (sort_by_timestamp l).
Proof. apply stable_sort_sorted; [apply ts_order_total|apply ts_order_trans]. Qed.

Lemma sort_id l : sorted l -> sort_by_timestamp l = l.
Proof. apply stable_sort_id. Qed.

Lemma values_at_sort t l : values_at t (sort_by_timestamp l) = values_at t l.
Proof.
  unfold values_at. f_equal. apply stable_sort_filter. intros x y Hx Hy.
  apply bool_decide_eq_true in Hx, Hy. unfold by_timestamp. rewrite Hx, Hy.
  destruct t; simpl; [apply Z.leb_refl|done].
Qed.

Lemma value_at_cons t v l :
  value_at t (v :: l) = if bool_decide (timestamp v = t) then Some (value v) else value_at t l.
Proof. unfold value_at, values_at. simpl. by destruct (bool_decide _). Qed.

Lemma sorted_filter P l : sorted l -> sorted (List.filter P l).
Proof.
  induction 1 as [|v l Hs IH Hf]; simpl; [constructor|]. destruct (P v); [|done].
  constructor; [done|]. clear -Hf. induction Hf as [|w l Hw _ IH]; simpl; [constructor|].
  destruct (P w); [by constructor|done].
Qed.

Lemma filter_none P l : Forall (fun v => P v = false) l -> List.filter P l = [].
Proof. induction 1 as [|v l Hv _ IH]; simpl; [done|]. by rewrite Hv. Qed.

Lemma filter_all P l : Forall (fun v => P v = true) l -> List.filter P l = l.
Proof. induction 1 as [|v l Hv _ IH]; simpl; [done|]. by rewrite Hv, IH. Qed.

(** *** Merging *)

Lemma merge_value_at merge o l t :
  value_at t (merge_value merge o l).1 =
    if bool_decide (timestamp o = t)
    then Some (match value_at t l with Some v => merge v (value o) | None => value o end)
    else value_at t l.
Proof.
  induction l as [|v l IH]; simpl; [by rewrite value_at_cons|].
  destruct (decide (timestamp v = timestamp o)) as [Hv|Hv].
  - rewrite bool_decide_eq_true_2 by done. simpl. rewrite !value_at_cons. simpl. rewrite Hv.
    by destruct (bool_decide (timestamp o = t)).
  - rewrite bool_decide_eq_false_2 by done. destruct (merge_value merge o l) as [r n]. simpl in *.
    rewrite !value_at_cons, IH. repeat case_bool_decide; congruence.
Qed.

Lemma merge_value_timestamps merge o l :
  let '(r, pushed) := merge_value merge o l in
  timestamp <$> r = (timestamp <$> l) ++ (if pushed then [timestamp o] else []) /\
  (pushed = true <-> timestamp o ∉ timestamp <$> l).
Proof.
  induction l as [|v l IH]; csimpl; [split; [done|]; split; [intros _; apply not_elem_of_nil|done]|].
  case_bool_decide as Hv; csimpl.
  - rewrite app_nil_r. split; [done|]. rewrite Hv. split; [done|]. intros Hn. destruct Hn. left.
  - destruct (merge_value merge o l) as [r n]. destruct IH as [IH1 IH2]. csimpl. rewrite IH1. split; [done|].
    rewrite not_elem_of_cons, IH2. split; [intros; split; [congruence|tauto]|tauto].
Qed.

(** The accumulator of [points_merge]. *)
Definition merge_fold merge (other l : TimestampedValues T) : TimestampedValues T * bool :=
  fold_left (fun '(l, needs_sort) o =>
               let '(l, pushed) := merge_value merge o l in (l, needs_sort || pushed)) other (l, false).

Lemma merge_fold_flag merge other l b :
  fold_left (fun '(l, needs_sort) o =>
               let '(l, pushed) := merge_value merge o l in (l, needs_sort || pushed)) other (l, b) =
  ((merge_fold merge other l).1, b || (merge_fold merge other l).2).
Proof.
  unfold merge_fold. revert l b. induction other as [|o other IH]; intros l b; simpl; [by rewrite orb_false_r|].
  destruct (merge_value merge o l) as [r n]. rewrite (IH r (b || n)), (IH r n). simpl. by rewrite orb_assoc.
Qed.

Lemma merge_fold_cons merge o other l :
  merge_fold merge (o :: other) l =
    ((merge_fold merge other (merge_value merge o l).1).1,
     (merge_value merge o l).2 || (merge_fold merge other (merge_value merge o l).1).2).
Proof.
  unfold merge_fold at 1. simpl. destruct (merge_value merge o l) as [r n]. simpl. by rewrite merge_fold_flag.
Qed.

Lemma points_merge_fold merge other l :
  points_merge merge other l =
    if (merge_fold merge other l).2 then sort_by_timestamp (merge_fold merge other l).1
    else (merge_fold merge other l).1.
Proof. unfold points_merge. fold (merge_fold merge other l). by destruct (merge_fold merge other l). Qed.

Lemma merge_fold_at merge other l t :
  value_at t (merge_fold merge other l).1 = merge_all merge (value_at t l) (values_at t other).
Proof.
  revert l. induction other as [|o other IH]; intros l; [simpl; by destruct (value_at t l)|].
  rewrite merge_fold_cons. simpl. rewrite IH, merge_value_at.
  unfold values_at. simpl. case_bool_decide; simpl; [|done]. by destruct (value_at t l).
Qed.

Lemma merge_fold_timestamps merge other l :
  (merge_fold merge other l).2 = false -> timestamp <$> (merge_fold merge other l).1 = timestamp <$> l.
Proof.
  revert l. induction other as [|o other IH]; intros l; [done|]. rewrite merge_fold_cons. simpl.
  pose proof (merge_value_timestamps merge o l) as Hm. destruct (merge_value merge o l) as [r n].
  simpl. rewrite orb_false_iff. intros [-> Hf]. rewrite IH by done. destruct Hm as [-> _]. apply app_nil_r.
Qed.

Lemma merge_fold_distinct merge other l : distinct l -> distinct (merge_fold merge other l).1.
Proof.
  revert l. induction other as [|o other IH]; intros l Hd; [done|]. rewrite merge_fold_cons. simpl.
  apply IH. unfold distinct in *. pose proof (merge_value_timestamps merge o l) as Hm.
  destruct (merge_value merge o l) as [r n]. simpl. destruct Hm as [-> Hn]. destruct n; [|by rewrite app_nil_r].
  apply NoDup_app. split_and!; [done| |apply NoDup_singleton].
  intros x Hx Hx'%list_elem_of_singleton. subst. tauto.
Qed.

Lemma sorted_timestamps l1 l2 : timestamp <$> l1 = timestamp <$> l2 -> sorted l1 -> sorted l2.
Proof.
  revert l2. induction l1 as [|v l1 IH]; intros [|w l2] Heq Hs; try done.
  rewrite !fmap_cons in Heq. injection Heq as Hvw Hl.
  apply StronglySorted_inv in Hs as [Hs Hf]. constructor; [by apply IH|]. clear IH Hs.
  revert l2 Hl. induction Hf as [|x l1 Hx Hf IH]; intros [|y l2] Hl; try done.
  rewrite !fmap_cons in Hl. injection Hl as Hxy Hl. constructor; [|by apply IH].
  unfold by_timestamp in *. by rewrite <- Hvw, <- Hxy.
Qed.

Lemma merge_sorted merge other l : sorted l -> sorted (points_merge merge other l).
Proof.
  intros Hs. rewrite points_merge_fold. destruct (merge_fold merge other l).2 eqn:Ef; [apply sort_sorted|].
  eapply sorted_timestamps; [|exact Hs]. symmetry. by apply merge_fold_timestamps.
Qed.

Lemma merge_distinct merge other l : distinct l -> distinct (points_merge merge other l).
Proof.
  intros Hd. pose proof (merge_fold_distinct merge other l Hd) as Hm. rewrite points_merge_fold.
  destruct (merge_fold merge other l).2; [|done]. unfold distinct, sort_by_timestamp in *.
  by rewrite stable_sort_perm.
Qed.

Lemma merge_at merge other l t :
  value_at t (points_merge merge other l) = merge_all merge (value_at t l) (values_at t other).
Proof.
  rewrite points_merge_fold, <- merge_fold_at. destruct (merge_fold merge other l).2; [|done].
  unfold value_at. by rewrite values_at_sort.
Qed.

(** *** Collapsing *)

Lemma values_at_cons t v l :
  values_at t (v :: l) = if bool_decide (timestamp v = t) then value v :: values_at t l else values_at t l.
Proof. unfold values_at. simpl. by destruct (bool_decide _). Qed.

Lemma values_at_none l : Forall (fun v => is_timestamped v = true) l -> values_at None l = [].
Proof.
  induction 1 as [|[[t|] x] l Hv _ IH]; [done| |done]. rewrite values_at_cons.
  by rewrite bool_decide_eq_false_2.
Qed.

Lemma sorted_timestamped v l :
  sorted (v :: l) -> is_timestamped v = true -> Forall (fun v => is_timestamped v = true) l.
Proof.
  intros [_ Hl]%StronglySorted_inv Hv. eapply Forall_impl; [exact Hl|].
  destruct v as [[t|] x]; [|done]. by intros [[tw|] xw].
Qed.

Lemma dedup_spec merge (prev : TimestampedValue T) l :
  sorted (prev :: l) ->
  dedup_non_timestamped merge prev l =
    match timestamp prev with
    | None => TV None (fold_left merge (values_at None l) (value prev))
    | Some _ => prev
    end :: List.filter is_timestamped l.
Proof.
  revert prev. induction l as [|v l IH]; intros prev Hs; simpl.
  - destruct prev as [[t|] x]; done.
  - apply StronglySorted_inv in Hs as [Hs Hf]. apply Forall_cons_1 in Hf as [Hpv Hf].
    destruct v as [tv xv], prev as [tp xp]. unfold by_timestamp in Hpv. simpl in *.
    destruct tv as [tv|].
    + rewrite (IH (TV (Some tv) xv) Hs), values_at_cons, bool_decide_eq_false_2 by done. simpl.
      rewrite (values_at_none l) by (by eapply sorted_timestamped). by destruct tp.
    + destruct tp as [tp|]; [done|]. rewrite values_at_cons, bool_decide_eq_true_2 by done. simpl.
      rewrite IH; [done|]. apply StronglySorted_inv in Hs as [Hs Hl]. constructor; [done|].
      eapply Forall_impl; [exact Hl|]. by intros [[tw|] xw].
Qed.

(** Collapsing merges the values without a timestamp, in order, into one value with the given
    timestamp, and leaves the others. *)
Lemma collapse_spec ts merge l :
  sorted l ->
  collapse_non_timestamped ts merge l =
    match values_at None l with
    | [] => l
    | x :: xs => TV (nonzero ts) (fold_left merge xs x) :: List.filter is_timestamped l
    end.
Proof.
  intros Hs. destruct l as [|[t x] l]; [done|]. unfold collapse_non_timestamped.
  rewrite dedup_spec by done. rewrite values_at_cons. simpl. destruct t as [t|].
  - pose proof (sorted_timestamped _ _ Hs eq_refl) as Hall.
    rewrite bool_decide_eq_false_2, values_at_none, (filter_all _ _ Hall) by done. done.
  - by rewrite bool_decide_eq_true_2.
Qed.

(** *** Splitting *)

Lemma split_spec ts l :
  sorted l ->
  let '(d, r) := split_at_timestamp ts l in
  default [] d = List.filter (closed_at ts) l /\ r = List.filter (fun v => negb (closed_at ts v)) l.
Proof.
  intros Hs. destruct l as [|first l]; [done|]. unfold split_at_timestamp.
  destruct (match timestamp first with Some t => ts <? t | None => false end) eqn:E.
  - assert (Hopen : Forall (fun v => closed_at ts v = false) (first :: l)).
    { destruct first as [[t|] x]; simpl in E; [|done]. bool_cases.
      apply StronglySorted_inv in Hs as [_ Hl]. constructor; [unfold closed_at; simpl; apply Z.leb_gt; lia|].
      eapply Forall_impl; [exact Hl|]. intros [[tw|] xw] Hw; [|done].
      unfold by_timestamp in Hw. simpl in Hw. bool_cases. unfold closed_at. simpl. apply Z.leb_gt. lia. }
    split; [by rewrite filter_none|]. rewrite filter_all; [done|].
    eapply Forall_impl; [exact Hopen|]. simpl. intros v Hv. by rewrite Hv.
  - split; [|done]. simpl default. unfold from_values. apply sort_id. by apply sorted_filter.
Qed.
End spec.

(** ** Lemmas on histograms *)

Lemma ordered_eqb_refl x : ordered_eqb x x = true.
Proof.
  destruct x as [s|s| |s m e]; simpl; [done|by destruct s|done|].
  unfold ordered_eqb, f64_eqb, SFeqb. simpl.
  destruct s; by rewrite ?Z.compare_refl, ?Pos.compare_refl.
Qed.

Lemma ordered_leb_refl x : ordered_leb x x = true.
Proof.
  unfold ordered_leb. destruct (is_nan x) eqn:En; [done|].
  pose proof (ordered_eqb_refl x) as Hr. unfold ordered_eqb in Hr. rewrite En in Hr.
  unfold f64_leb, SFleb. unfold f64_eqb, SFeqb in Hr. by destruct (SFcompare _ _) as [[]|].
Qed.

Lemma SFcompare_total x y : is_nan x = false -> is_nan y = false -> exists c, SFcompare x y = Some c.
Proof.
  destruct x as [s|s| |s m e], y as [s'|s'| |s' m' e']; simpl; try done; intros _ _;
    try destruct s; try destruct s'; eauto.
Qed.

Lemma SFcompare_antisym x y c : SFcompare x y = Some c -> SFcompare y x = Some (CompOpp c).
Proof.
  destruct x as [s|s| |s m e], y as [s'|s'| |s' m' e']; simpl; try done;
    try destruct s; try destruct s'; intros [= <-]; try done;
    rewrite (Z.compare_antisym e e'); destruct (e ?= e')%Z; simpl; try done;
    change (Pos.compare_cont Eq m' m) with (m' ?= m)%positive;
    change (Pos.compare_cont Eq m m') with (m ?= m')%positive;
    by rewrite (Pos.compare_antisym m m'), ?CompOpp_involutive.
Qed.

Lemma ordered_leb_total x y : ordered_leb x y = true \/ ordered_leb y x = true.
Proof.
  unfold ordered_leb. destruct (is_nan x) eqn:Ex, (is_nan y) eqn:Ey; auto.
  destruct (SFcompare_total x y Ex Ey) as [c Ec]. unfold f64_leb, SFleb.
  rewrite Ec, (SFcompare_antisym _ _ _ Ec). destruct c; auto.
Qed.

(** The order of the floats is the lexicographic order of class, exponent and mantissa. *)
Definition float_key (x : f64) : Z * Z * Z :=
  match x with
  | S754_infinity true => (-2, 0, 0)
  | S754_finite true m e => (-1, - e, - Zpos m)
  | S754_zero _ => (0, 0, 0)
  | S754_finite false m e => (1, e, Zpos m)
  | S754_infinity false | S754_nan => (2, 0, 0)
  end.

Definition key_le (a c : Z * Z * Z) : Prop :=
  a.1.1 < c.1.1 \/ (a.1.1 = c.1.1 /\ (a.1.2 < c.1.2 \/ (a.1.2 = c.1.2 /\ a.2 <= c.2))).

Lemma f64_leb_key x y :
  is_nan x = false -> is_nan y = false -> (f64_leb x y = true <-> key_le (float_key x) (float_key y)).
Proof.
  unfold f64_leb, SFleb, key_le. intros Hx Hy.
  destruct x as [s|s| |s m e], y as [s'|s'| |s' m' e']; try done;
    try destruct s; try destruct s'; simpl; try (split; [intros; lia|done]); try (split; [done|intros; lia]);
    destruct (Z.compare_spec e e'); subst; simpl; try (split; [intros; lia|done]); try (split; [done|intros; lia]);
    change (Pos.compare_cont Eq m m') with (m ?= m')%positive;
    destruct (Pos.compare_spec m m'); subst; simpl; (split; [intros; lia|]); first [done | intros; lia].
Qed.

Lemma ordered_leb_trans x y z :
  ordered_leb x y = true -> ordered_leb y z = true -> ordered_leb x z = true.
Proof.
  unfold ordered_leb. destruct (is_nan z) eqn:Ez; [done|]. destruct (is_nan y) eqn:Ey; [done|].
  destruct (is_nan x) eqn:Ex; [done|]. rewrite !f64_leb_key by done. unfold key_le. lia.
Qed.

(** Equal floats are the same float or both zeros. *)
Lemma ordered_eqb_inv x y :
  ordered_eqb x y = true -> x = y \/ (exists s1 s2, x = S754_zero s1 /\ y = S754_zero s2).
Proof.
  unfold ordered_eqb, f64_eqb, SFeqb.
  destruct x as [s|s| |s m e], y as [s'|s'| |s' m' e']; simpl; intros E;
    try (by left); try (right; by eauto); destruct s; try destruct s'; try done; try (by left);
    left; destruct (e ?= e')%Z eqn:Ee; simpl in E; try done; apply Z.compare_eq in Ee as ->;
    change (Pos.compare_cont Eq m m') with (m ?= m')%positive in E;
    destruct (m ?= m')%positive eqn:Em; simpl in E; try done; by apply Pos.compare_eq in Em as ->.
Qed.

Lemma ordered_eqb_trans x y z : ordered_eqb x y = true -> ordered_eqb y z = true -> ordered_eqb x z = true.
Proof.
  intros [->|(s1 & s2 & -> & ->)]%ordered_eqb_inv H2; [done|].
  apply ordered_eqb_inv in H2 as [<-|(s3 & s4 & _ & ->)]; done.
Qed.

Lemma ordered_eqb_sym x y : ordered_eqb x y = true -> ordered_eqb y x = true.
Proof. intros [->|(s1 & s2 & -> & ->)]%ordered_eqb_inv; [apply ordered_eqb_refl|done]. Qed.

(** While the weights do not vary they all equal the shared one; and a histogram without a shared
    weight is empty. *)
Record hist_ok (h : Histogram) : Prop := {
  ho_shared : weights_vary h = false ->
    Forall (fun s => ordered_eqb (sample_weight s) (shared_weight h) = true) (samples h);
  ho_unset : weights_vary h = false -> ordered_eqb (shared_weight h) f64_zero = true -> samples h = [];
}.

Lemma insert_ok x r h :
  ordered_eqb (raw_weight r) f64_zero = false -> hist_ok h -> hist_ok (Histogram_insert x r h).
Proof.
  intros Hw [Hs Hu]. unfold Histogram_insert. set (w := raw_weight r) in *.
  destruct (ordered_eqb (shared_weight h) f64_zero) eqn:E0.
  - split; simpl; [|congruence]. intros Hv. rewrite (Hu Hv eq_refl). simpl.
    repeat constructor. simpl. apply ordered_eqb_refl.
  - destruct (ordered_eqb w (shared_weight h)) eqn:Ew; split; simpl; try done; [|congruence].
    intros Hv. apply Forall_app. split; [by apply Hs|]. by repeat constructor.
Qed.

Lemma merge_ok h1 h2 : hist_ok h1 -> hist_ok h2 -> hist_ok (Histogram_merge h1 h2).
Proof.
  intros [Hs1 Hu1] [Hs2 Hu2]. unfold Histogram_merge.
  destruct (weights_vary h1) eqn:V1; simpl; [by split|].
  destruct (weights_vary h2) eqn:V2; [by split|].
  destruct (ordered_eqb (shared_weight h1) f64_zero) eqn:E1.
  - rewrite Hu1 by done. split; simpl; auto.
  - destruct (ordered_eqb (shared_weight h2) f64_zero) eqn:E2; simpl.
    + rewrite (Hu2 eq_refl eq_refl), app_nil_r. split; simpl; [auto|congruence].
    + destruct (ordered_eqb (shared_weight h1) (shared_weight h2)) eqn:E12; simpl; [|by split].
      split; simpl; [|congruence]. intros _. apply Forall_app. split; [by apply Hs1|].
      eapply Forall_impl; [by apply Hs2|]. simpl. intros s Hsw.
      eapply ordered_eqb_trans; [exact Hsw|]. by apply ordered_eqb_sym.
Qed.

Lemma quantile_walk_elem target ws wc l q :
  quantile_walk target ws wc l = Some q -> q ∈ sample_value <$> l.
Proof.
  revert ws wc. induction l as [|x l IH]; intros ws wc; simpl; [done|].
  destruct (neumaier_add ws wc (sample_weight x)) as [ws' wc'].
  destruct (f64_ltb _ _); [intros [= <-]; left|]. intros E. right. by eapply IH.
Qed.

(** ** Theorems *)

Section theorems.
Context {T : Type}.
Implicit Types (l : TimestampedValues T) (merge : T -> T -> T).

(** Merging points merges them timestamp by timestamp: at every timestamp the result is the
    value that was there with the incoming values for it merged in, in order; the points stay in
    timestamp order with one value per timestamp. *)
Theorem merge_pointwise merge other l :
  sorted l -> distinct l ->
  sorted (points_merge merge other l) /\ distinct (points_merge merge other l) /\
  forall t, value_at t (points_merge merge other l) = merge_all merge (value_at t l) (values_at t other).
Proof. intros Hs Hd. split_and!; [by apply merge_sorted|by apply merge_distinct|intros t; apply merge_at]. Qed.

(** Splitting at a timestamp takes off exactly the values with a timestamp at or before it, in
    order, and leaves exactly the others, in order; the shortcut on the first value never skips a
    value that should go. *)
Theorem split_partitions ts l :
  sorted l ->
  let '(d, r) := split_at_timestamp ts l in
  default [] d = List.filter (closed_at ts) l /\ r = List.filter (fun v => negb (closed_at ts v)) l /\
  sorted (default [] d) /\ sorted r /\ default [] d ++ r ≡ₚ l.
Proof.
  intros Hs. pose proof (split_spec ts l Hs) as Hx. destruct (split_at_timestamp ts l) as [d r].
  destruct Hx as [-> ->]. split_and!; [done|done|by apply sorted_filter|by apply sorted_filter|].
  induction l as [|v l IH]; [done|]. apply StronglySorted_inv in Hs as [Hs _]. simpl.
  destruct (closed_at ts v); simpl; [by rewrite IH|].
  rewrite <- Permutation_middle. by rewrite IH.
Qed.

(** Collapsing gathers all values without a timestamp into one, merged in order, at the given
    timestamp, and leaves the timestamped values as they are; the result is in timestamp order
    provided the given timestamp does not exceed one that is present. *)
Theorem collapse_gathers ts merge l :
  sorted l -> 0 < ts -> Forall (fun v => forall t, timestamp v = Some t -> ts <= t) l ->
  let r := collapse_non_timestamped ts merge l in
  all_timestamped r = true /\ sorted r /\
  r = match values_at None l with
      | [] => l
      | x :: xs => TV (Some ts) (fold_left merge xs x) :: List.filter is_timestamped l
      end.
Proof.
  intros Hs Hts Hmin r. unfold r. rewrite collapse_spec by done. unfold nonzero.
  rewrite (proj2 (Z.eqb_neq _ _)) by lia.
  assert (Hft : Forall (fun v => is_timestamped v = true) (List.filter is_timestamped l)).
  { rewrite Forall_forall. intros v Hv. apply list_elem_of_In, filter_In in Hv. tauto. }
  destruct (values_at None l) as [|x xs] eqn:Ev.
  - assert (Hall : all_timestamped l = true); [|done].
    clear -Ev. induction l as [|v l IH]; [done|]. rewrite values_at_cons in Ev. simpl.
    destruct v as [[t|] y]; simpl in *; [by apply IH|done].
  - split_and!; [|constructor; [by apply sorted_filter|]|done].
    + simpl. clear -Hft. induction Hft as [|v k Hv _ IH]; simpl; [done|]. by rewrite Hv.
    + rewrite Forall_forall in Hmin |- *. intros v Hv. apply list_elem_of_In, filter_In in Hv as [Hin Hv].
      apply list_elem_of_In in Hin. specialize (Hmin v Hin). destruct v as [[t|] y]; [|done].
      unfold by_timestamp. simpl in *. apply Z.leb_le. by apply Hmin.
Qed.
End theorems.

(** A histogram scales its sum by one shared weight only when that is right: building it by
    insertions with non-zero weights and by merges keeps every sample's weight equal to the shared
    one for as long as the weights are not marked as varying. *)
Theorem histogram_weights_agree h1 h2 x r :
  hist_ok Histogram_default /\
  (hist_ok h1 -> ordered_eqb (raw_weight r) f64_zero = false -> hist_ok (Histogram_insert x r h1)) /\
  (hist_ok h1 -> hist_ok h2 -> hist_ok (Histogram_merge h1 h2)).
Proof. split_and!; [by split|intros; by apply insert_ok|apply merge_ok]. Qed.

(** The summary of a histogram speaks of its samples: the minimum and maximum bound every
    sample, and any quantile is the value of a sample; outside [0, 1] there is none. *)
Theorem summary_of_samples `{SortUnstable} h q :
  let s := summary_view h in
  (forall x, x ∈ samples h ->
     (exists lo, summary_min s = Some lo /\ ordered_leb lo (sample_value x) = true) /\
     (exists hi, summary_max s = Some hi /\ ordered_leb (sample_value x) hi = true)) /\
  (forall v, summary_quantile q s = Some v -> in_unit q = true /\ v ∈ sample_value <$> samples h).
Proof.
  simpl. split.
  - intros x Hx. unfold summary_min, summary_max. simpl.
    pose proof (sort_unstable_sorted (samples h)) as Hs. rewrite <- sort_unstable_perm in Hx.
    destruct (sort_unstable (samples h)) as [|a l] eqn:El; [by apply not_elem_of_nil in Hx|].
    split.
    + exists (sample_value a). split; [done|]. apply StronglySorted_inv in Hs as [_ Hf].
      apply elem_of_cons in Hx as [->|Hx]; [|by rewrite Forall_forall in Hf; apply Hf].
      apply ordered_leb_refl.
    + destruct (exists_last (l := a :: l)) as (k & z & Ek); [done|]. rewrite Ek in *.
      exists (sample_value z). rewrite last_snoc. split; [done|].
      apply elem_of_app in Hx as [Hx|Hx%list_elem_of_singleton].
      * clear -Hs Hx. induction k as [|y k IH]; [by apply not_elem_of_nil in Hx|].
        simpl in Hs. apply StronglySorted_inv in Hs as [Hs Hf].
        apply elem_of_cons in Hx as [->|Hx]; [|by apply IH].
        rewrite Forall_forall in Hf. apply Hf. apply elem_of_app. right. left.
      * subst. apply ordered_leb_refl.
  - intros v. unfold summary_quantile. destruct (in_unit q); simpl; [|done]. intros E. split; [done|].
    apply quantile_walk_elem in E. by rewrite sort_unstable_perm in E.
Qed.

(** Values without a timestamp next to an older timestamped one: collapsing them at the later
    timestamp leaves the values out of order, and a split between the two then takes nothing,
    although one value is due. *)
Example collapse_mixed_loses_order :
  let l := [TV None f64_one; TV (Some 5) f64_one] in
  let r := collapse_non_timestamped 10 merge_scalar_sum l in
  r = [TV (Some 10) f64_one; TV (Some 5) f64_one] /\ (split_at_timestamp 7 r).1 = None.
Proof. vm_compute. done. Qed.

(** ** Witnesses *)

Definition points_a : TimestampedValues f64 := [TV None (f64_of_Z 1); TV (Some 10) (f64_of_Z 2); TV (Some 20) (f64_of_Z 3)].
Definition points_b : TimestampedValues f64 := [TV (Some 15) (f64_of_Z 5); TV (Some 20) (f64_of_Z 7)].

Lemma points_a_sorted : sorted points_a.
Proof. repeat constructor. Qed.

Lemma points_a_distinct : distinct points_a.
Proof. apply (bool_decide_eq_true_1 _). by vm_compute. Qed.

Lemma merge_pointwise_witness :
  sorted (points_merge merge_scalar_sum points_b points_a) /\
  value_at (Some 20) (points_merge merge_scalar_sum points_b points_a) = Some (f64_of_Z 10).
Proof.
  destruct (merge_pointwise merge_scalar_sum points_b points_a points_a_sorted points_a_distinct) as (Hs & _ & Hv).
  split; [exact Hs|]. rewrite Hv. by vm_compute.
Defined.

Lemma split_partitions_witness :
  let '(d, r) := split_at_timestamp 15 points_a in
  default [] d = [TV (Some 10) (f64_of_Z 2)] /\ default [] d ++ r ≡ₚ points_a.
Proof.
  pose proof (split_partitions 15 points_a points_a_sorted) as Hx.
  destruct (split_at_timestamp 15 points_a) as [d r]. destruct Hx as (Hd & _ & _ & _ & Hp).
  split; [rewrite Hd; by vm_compute|exact Hp].
Defined.

Lemma collapse_gathers_witness :
  all_timestamped (collapse_non_timestamped 10 merge_scalar_sum points_a) = true.
Proof.
  refine (proj1 (collapse_gathers 10 merge_scalar_sum points_a points_a_sorted _ _)); [lia|].
  repeat constructor; simpl; intros t [= <-]; lia.
Defined.

Definition SortUnstable_ref : SortUnstable.
Proof.
  refine {| sort_unstable := stable_sort (fun a b => ordered_leb (sample_value a) (sample_value b)) |}.
  - intros l. apply stable_sort_perm.
  - intros l. apply stable_sort_sorted.
    + intros x y. apply ordered_leb_total.
    + intros x y z. apply ordered_leb_trans.
Defined.

Lemma histogram_weights_agree_witness :
  hist_ok (Histogram_merge (Histogram_insert (f64_of_Z 3) unsampled Histogram_default) Histogram_default).
Proof.
  destruct (histogram_weights_agree Histogram_default Histogram_default (f64_of_Z 3) unsampled)
    as (H0 & Hi & _).
  destruct (histogram_weights_agree (Histogram_insert (f64_of_Z 3) unsampled Histogram_default)
              Histogram_default (f64_of_Z 3) unsampled) as (_ & _ & Hm).
  apply Hm; [apply Hi; [exact H0|by vm_compute]|exact H0].
Defined.

Definition example_histogram : Histogram :=
  Histogram_insert (f64_of_Z 9) unsampled (Histogram_insert (f64_of_Z 3) unsampled Histogram_default).

Lemma summary_of_samples_witness :
  let s := @summary_view SortUnstable_ref example_histogram in
  summary_quantile (f64_scale 1 (-1)) s = Some (f64_of_Z 3) /\
  f64_of_Z 3 ∈ sample_value <$> samples example_histogram.
Proof.
  pose proof (@summary_of_samples SortUnstable_ref example_histogram (f64_scale 1 (-1))) as [_ Hq].
  split; [by vm_compute|]. apply Hq. by vm_compute.
Defined.
