(* ===== verification/Aggregate.v ===== *)
(** * Aggregate: windowed aggregation of metrics

    Models the state of the aggregate transform,
    [lib/saluki-components/src/transforms/aggregate/mod.rs] ([AggregationState] and the functions
    below it), the histogram statistics of [aggregate/config.rs] and the metric metadata it copies.
    Contexts are the keys of a finite map, through the class [MetricContext]; the order in which the
    hash map is iterated is a parameter ([MapOrder]); the downstream dispatcher is an instance of
    [Dispatcher] and may fail at any push.  The internal telemetry counters are not modelled. *)

From Stdlib Require Import ZArith Lia Sorted Floats.SpecFloat Strings.String.
From stdpp Require Import base tactics list numbers option gmap strings sorting.
From S2P Require Import Prelude Float64 MetricValues.
Open Scope Z_scope.

(** ** Metrics *)

Inductive MetricOrigin :=
| SourceType (source_type : string)
| OriginMetadata (product subproduct product_detail : Z).

Record MetricMetadata := {
  origin : option MetricOrigin;
  unit_ : string;
}.

Definition with_unit (u : string) (m : MetricMetadata) : MetricMetadata :=
  {| origin := origin m; unit_ := u |}.

(** What the transform needs from a context: its name, and a copy under another name. *)
Class MetricContext (C : Type) := {
  context_name : C -> string;
  context_with_name : string -> C -> C;
}.

Record Metric (C S : Type) := MkMetric {
  metric_context : C;
  metric_values : MetricValues S;
  metric_metadata : MetricMetadata;
}.
Arguments MkMetric {C S}.
Arguments metric_context {C S}.
Arguments metric_values {C S}.
Arguments metric_metadata {C S}.

(** The buffered dispatcher: a push may flush a full buffer downstream, and fail. *)
Class Dispatcher (C S D : Type) := push : Metric C S -> D -> result string unit * D.

(** ** Histogram statistics *)

Inductive HistogramStatistic :=
| Count
| Sum
| Minimum
| Maximum
| Average
| Median
| Percentile (q : f64) (percentile_suffix : string).

Definition suffix (s : HistogramStatistic) : string :=
  match s with
  | Count => "count"
  | Sum => "sum"
  | Minimum => "min"
  | Maximum => "max"
  | Average => "avg"
  | Median => "median"
  | Percentile _ suffix => suffix
  end.

Definition is_rate_statistic (s : HistogramStatistic) : bool :=
  match s with Count => true | _ => false end.

Definition value_from_histogram (s : HistogramStatistic) (summary : HistogramSummary) : f64 :=
  match s with
  | Count => f64_of_Z (summary_count_u64 summary)
  | Sum => summary_sum summary
  | Minimum => default f64_zero (summary_min summary)
  | Maximum => default f64_zero (summary_max summary)
  | Average => summary_avg summary
  | Median => default f64_zero (summary_median summary)
  | Percentile q _ => default f64_zero (summary_quantile q summary)
  end.

Record HistogramConfiguration := {
  statistics : list HistogramStatistic;
  copy_to_distribution : bool;
  copy_to_distribution_prefix : string;
}.

(** ** Buckets *)

Definition align_to_bucket_start (ts width : Z) : Z := ts - ts mod width.

Definition is_bucket_closed (current_time bucket_start width : Z) (flush_open_buckets : bool) : bool :=
  (u64_sub (u64_add bucket_start width) 1 <? current_time) || flush_open_buckets.

(** [(start..stop).step_by(step)] *)
Definition step_range (start stop step : Z) : list Z :=
  map (fun i => start + Z.of_nat i * step) (seq 0 (Z.to_nat ((stop - start + step - 1) / step))).

Definition NANOS_PER_SEC : Z := 1000000000.

(** ** The aggregation state *)

Record AggregatedMetric (S : Type) := {
  am_values : MetricValues S;
  am_metadata : MetricMetadata;
  last_seen : Z;
}.
Arguments am_values {S}.
Arguments am_metadata {S}.
Arguments last_seen {S}.

(** The iteration order of the hash map. *)
Class MapOrder (C S : Type) := {
  map_order : list (C * AggregatedMetric S) -> list (C * AggregatedMetric S);
  map_order_perm : forall l, map_order l ≡ₚ l;
}.

Section state.
Context {C S D : Type} `{Countable C} `{MetricContext C} `{Sketch S} `{SortUnstable}
        `{Dispatcher C S D} `{MapOrder C S}.

Record AggregationState := {
  contexts : gmap C (AggregatedMetric S);
  contexts_remove_buf : list C;
  context_limit : nat;
  bucket_width_secs : Z;
  counter_expire_secs : option Z;
  last_flush : Z;
  hist_config : HistogramConfiguration;
  context_limit_breached : bool;
}.

Definition AggregationState_new (width : Z) (limit : nat) (counter_expiration : option Z)
    (hc : HistogramConfiguration) : AggregationState :=
  {| contexts := ∅; contexts_remove_buf := []; context_limit := limit; bucket_width_secs := width;
     counter_expire_secs := (d ← counter_expiration; nonzero (d / NANOS_PER_SEC));
     last_flush := 0; hist_config := hc; context_limit_breached := false |}.

Definition is_empty (st : AggregationState) : bool := bool_decide (contexts st = ∅).

Definition update (cs : gmap C (AggregatedMetric S)) (buf : list C) (lf : Z) (breached : bool)
    (st : AggregationState) : AggregationState :=
  {| contexts := cs; contexts_remove_buf := buf; context_limit := context_limit st;
     bucket_width_secs := bucket_width_secs st; counter_expire_secs := counter_expire_secs st;
     last_flush := lf; hist_config := hist_config st; context_limit_breached := breached |}.

Definition insert_metric (ts : Z) (metric : Metric C S) (st : AggregationState) : bool * AggregationState :=
  if bool_decide (contexts st !! metric_context metric = None) &&
     (context_limit st <=? size (contexts st))%nat
  then (false, update (contexts st) (contexts_remove_buf st) (last_flush st) true st)
  else
    let lf := if is_empty st then 0 else last_flush st in
    let values :=
      MetricValues_collapse_non_timestamped (align_to_bucket_start ts (bucket_width_secs st))
        (metric_values metric) in
    let am :=
      match contexts st !! metric_context metric with
      | Some am => {| am_values := MetricValues_merge (am_values am) values;
                      am_metadata := am_metadata am; last_seen := ts |}
      | None => {| am_values := values; am_metadata := metric_metadata metric; last_seen := ts |}
      end in
    (true, update (<[metric_context metric := am]> (contexts st)) (contexts_remove_buf st) lf
             (context_limit_breached st) st).

Definition counter_values_to_rate (values : MetricValues S) (interval_secs : Z) : MetricValues S :=
  match values with
  | Counter points => Rate points (interval_secs * NANOS_PER_SEC)
  | values => values
  end.

(** The metrics a histogram becomes: first its copy as a distribution, then one per statistic. *)
Definition histogram_metrics (context : C) (points : TimestampedValues Histogram) (metadata : MetricMetadata)
    (width : Z) (hc : HistogramConfiguration) : list (Metric C S) :=
  (if copy_to_distribution hc then
     let sketch_points :=
       map (fun p => TV (timestamp p)
                        (fold_left (fun sk x => sketch_insert_n (sample_value x) (f64_to_u64 (sample_weight x)) sk)
                                   (samples (value p)) sketch_default)) points in
     let ctx := if bool_decide (copy_to_distribution_prefix hc = EmptyString) then context
                else context_with_name (copy_to_distribution_prefix hc +:+ context_name context) context in
     [MkMetric ctx (Distribution sketch_points) metadata]
   else []) ++
  map (fun stat =>
         let new_points :=
           from_values (map (fun p => TV (timestamp p) (value_from_histogram stat (summary_view (value p)))) points) in
         let new_values := if is_rate_statistic stat then Rate new_points (width * NANOS_PER_SEC)
                           else Gauge new_points in
         let new_metadata := match stat with Count => with_unit EmptyString metadata | _ => metadata end in
         MkMetric (context_with_name (context_name context +:+ "." +:+ suffix stat) context)
           new_values new_metadata)
      (statistics hc).

(** The metrics the closed values of a context are pushed as. *)
Definition transform_metric (context : C) (values : MetricValues S) (metadata : MetricMetadata)
    (width : Z) (hc : HistogramConfiguration) : list (Metric C S) :=
  match values with
  | HistogramV points => histogram_metrics context points metadata width hc
  | values => [MkMetric context (counter_values_to_rate values width) metadata]
  end.

Fixpoint push_all (ms : list (Metric C S)) (d : D) : result string unit * D :=
  match ms with
  | [] => (Ok tt, d)
  | m :: ms' =>
      let '(r, d) := push m d in
      match r with
      | Ok _ => push_all ms' d
      | Err e => (Err e, d)
      end
  end.

Definition transform_and_push_metric (context : C) (values : MetricValues S) (metadata : MetricMetadata)
    (width : Z) (hc : HistogramConfiguration) (d : D) : result string unit * D :=
  push_all (transform_metric context values metadata width hc) d.

Definition split_timestamp (current_time width : Z) (flush_open_buckets : bool) : Z :=
  if flush_open_buckets then u64_max
  else saturating_sub (align_to_bucket_start current_time width) 1.

(** The buckets to generate zero values for. *)
Definition zero_value_buckets (lf current_time width : Z) (flush_open_buckets : bool) : list Z :=
  if lf =? 0 then []
  else List.filter (fun bucket_start => is_bucket_closed current_time bucket_start width flush_open_buckets)
         (step_range (align_to_bucket_start lf width) current_time width).

(** Merging zero values into a counter, up to its expiration. *)
Fixpoint merge_zero_values (expires_at : Z) (buckets : list Z) (values : MetricValues S) : MetricValues S :=
  match buckets with
  | [] => values
  | b :: buckets' =>
      if b <? expires_at
      then merge_zero_values expires_at buckets' (MetricValues_merge values (counter_value f64_zero b))
      else values
  end.

Definition is_counter (values : MetricValues S) : bool :=
  match values with Counter _ => true | _ => false end.

Definition expire_secs (st : AggregationState) : Z := default 0 (counter_expire_secs st).

Definition should_expire_if_empty (expire current_time : Z) (am : AggregatedMetric S) : bool :=
  if is_counter (am_values am)
  then (expire =? 0) || (u64_saturating_add (last_seen am) expire <? current_time)
  else true.

(** A context's values with the zero values merged in. *)
Definition with_zero_values (expire : Z) (buckets : list Z) (am : AggregatedMetric S) : MetricValues S :=
  if is_counter (am_values am)
  then merge_zero_values (u64_saturating_add (last_seen am) expire) buckets (am_values am)
  else am_values am.

Definition set_values (values : MetricValues S) (am : AggregatedMetric S) : AggregatedMetric S :=
  {| am_values := values; am_metadata := am_metadata am; last_seen := last_seen am |}.

(** The loop of [flush] over the contexts. *)
Fixpoint flush_contexts (l : list (C * AggregatedMetric S)) (current_time : Z) (flush_open_buckets : bool)
    (st : AggregationState) (buckets : list Z) (remove_buf : list C)
    (cs : gmap C (AggregatedMetric S)) (d : D) :
    result string unit * list C * gmap C (AggregatedMetric S) * D :=
  match l with
  | [] => (Ok tt, remove_buf, cs, d)
  | (context, am) :: l' =>
      let width := bucket_width_secs st in
      let expire := should_expire_if_empty (expire_secs st) current_time am in
      let '(closed, rest) :=
        MetricValues_split_at_timestamp (split_timestamp current_time width flush_open_buckets)
          (with_zero_values (expire_secs st) buckets am) in
      let am := set_values rest am in
      let cs := <[context := am]> cs in
      let '(r, d) :=
        match closed with
        | Some values => transform_and_push_metric context values (am_metadata am) width (hist_config st) d
        | None => (Ok tt, d)
        end in
      match r with
      | Err e => (Err e, remove_buf, cs, d)
      | Ok _ =>
          let remove_buf := if MetricValues_is_empty rest && expire then remove_buf ++ [context] else remove_buf in
          flush_contexts l' current_time flush_open_buckets st buckets remove_buf cs d
      end
  end.

Definition flush (current_time : Z) (flush_open_buckets : bool) (st : AggregationState) (d : D) :
    result string unit * AggregationState * D :=
  let buckets := zero_value_buckets (last_flush st) current_time (bucket_width_secs st) flush_open_buckets in
  let '(r, remove_buf, cs, d) :=
    flush_contexts (map_order (map_to_list (contexts st))) current_time flush_open_buckets st buckets []
      (contexts st) d in
  match r with
  | Err e => (Err e, update cs remove_buf (last_flush st) (context_limit_breached st) st, d)
  | Ok _ =>
      let cs := foldl (fun cs c => delete c cs) cs remove_buf in
      let breached :=
        if context_limit_breached st && (size cs <? context_limit st)%nat then false
        else context_limit_breached st in
      (Ok tt, update cs [] current_time breached st, d)
  end.

(** What the transform does with the events it receives, and at each tick of its flush timer. *)
Fixpoint insert_all (ts : Z) (metrics : list (Metric C S)) (dropped : Z) (st : AggregationState) :
    Z * AggregationState :=
  match metrics with
  | [] => (dropped, st)
  | m :: metrics' =>
      let '(accepted, st) := insert_metric ts m st in
      insert_all ts metrics' (if accepted then dropped else dropped + 1) st
  end.

Definition flush_tick (now : Z) (final_flush flush_open_windows : bool) (st : AggregationState) (d : D) :
    AggregationState * D :=
  if is_empty st then (st, d)
  else let '(_, st, d) := flush now (final_flush && flush_open_windows) st d in (st, d).
End state.
Arguments AggregationState C S {_ _}.

(** ** Lemmas on buckets *)

Lemma align_spec ts w : 0 < w -> 0 <= ts ->
  align_to_bucket_start ts w = ts / w * w /\ align_to_bucket_start ts w <= ts < align_to_bucket_start ts w + w.
Proof.
  intros Hw Ht. unfold align_to_bucket_start. pose proof (Z.div_mod ts w ltac:(lia)).
  pose proof (Z.mod_pos_bound ts w Hw). lia.
Qed.

Lemma filter_seq_lt m n : List.filter (fun i => (i <? m)%nat) (seq 0 n) = seq 0 (m `min` n).
Proof.
  induction n as [|n IH]; [by rewrite Nat.min_0_r|].
  rewrite seq_S, List.filter_app, IH. simpl. destruct (n <? m)%nat eqn:E.
  - apply Nat.ltb_lt in E. rewrite !Nat.min_r by lia. by rewrite seq_S.
  - apply Nat.ltb_ge in E. rewrite !Nat.min_l by lia. by rewrite app_nil_r.
Qed.

Lemma filter_map {A B} (f : A -> B) (P : B -> bool) l :
  List.filter P (map f l) = map f (List.filter (fun x => P (f x)) l).
Proof. induction l as [|x l IH]; simpl; [done|]. destruct (P (f x)); simpl; by rewrite IH. Qed.

Lemma filter_ext_in {A} (P Q : A -> bool) l :
  (forall x, x ∈ l -> P x = Q x) -> List.filter P l = List.filter Q l.
Proof. intros Hx. apply List.filter_ext_in. intros x Hin. apply Hx. by apply list_elem_of_In. Qed.

(** Whole buckets from the one at [a] up to, and without, the one at [c]. *)
Definition whole_buckets (a c w : Z) : list Z :=
  map (fun i => a + Z.of_nat i * w) (seq 0 (Z.to_nat ((c - a) / w))).

Lemma whole_buckets_app a m c w k1 k2 :
  0 < w -> 0 <= k1 -> 0 <= k2 -> m = a + k1 * w -> c = m + k2 * w ->
  whole_buckets a m w ++ whole_buckets m c w = whole_buckets a c w.
Proof.
  intros Hw H1 H2 -> ->. unfold whole_buckets.
  replace ((a + k1 * w - a) / w) with k1 by (replace (a + k1 * w - a) with (k1 * w) by lia; by rewrite Z.div_mul by lia).
  replace ((a + k1 * w + k2 * w - (a + k1 * w)) / w) with k2
    by (replace (a + k1 * w + k2 * w - (a + k1 * w)) with (k2 * w) by lia; by rewrite Z.div_mul by lia).
  replace ((a + k1 * w + k2 * w - a) / w) with (k1 + k2)
    by (replace (a + k1 * w + k2 * w - a) with ((k1 + k2) * w) by lia; by rewrite Z.div_mul by lia).
  rewrite Z2Nat.inj_add by lia. rewrite seq_app, map_app. f_equal. simpl.
  replace (seq (Z.to_nat k1) (Z.to_nat k2)) with (map (Nat.add (Z.to_nat k1)) (seq 0 (Z.to_nat k2)))
    by (etrans; [apply (fmap_add_seq (Z.to_nat k1) 0)|by rewrite Nat.add_0_r]).
  rewrite map_map. apply map_ext. intros i. rewrite Nat2Z.inj_add, Z2Nat.id by lia. lia.
Qed.

(** The zero-value buckets of a flush: the buckets from that of the last flush up to that of now. *)
Lemma zero_value_buckets_whole lf now w :
  0 < w -> 0 < lf <= now -> now + w <= u64_max ->
  zero_value_buckets lf now w false =
    whole_buckets (align_to_bucket_start lf w) (align_to_bucket_start now w) w.
Proof.
  intros Hw Hlf Hmax. unfold zero_value_buckets. rewrite (proj2 (Z.eqb_neq _ _)) by lia.
  destruct (align_spec lf w Hw ltac:(lia)) as [Ea Ha].
  destruct (align_spec now w Hw ltac:(lia)) as [En Hn].
  set (a := align_to_bucket_start lf w) in *. set (c := align_to_bucket_start now w) in *.
  pose proof (Z.div_le_mono lf now w Hw ltac:(lia)) as Hle.
  pose proof (Z.div_pos lf w ltac:(lia) Hw).
  unfold step_range, whole_buckets. rewrite filter_map. f_equal.
  replace ((c - a) / w) with (now / w - lf / w)
    by (rewrite Ea, En, <- Z.mul_sub_distr_r, Z.div_mul; lia).
  set (n := Z.to_nat ((now - a + w - 1) / w)).
  assert (Hmn : (Z.to_nat (now / w - lf / w) <= n)%nat).
  { unfold n. apply Z2Nat.inj_le; [lia|apply Z.div_pos; lia|].
    apply Z.div_le_lower_bound; [done|]. nia. }
  rewrite (filter_ext_in _ (fun i => (i <? Z.to_nat (now / w - lf / w))%nat)).
  - rewrite filter_seq_lt. by rewrite Nat.min_l.
  - intros i Hi. apply elem_of_seq in Hi as [_ Hi]. simpl in Hi.
    assert (Hin : Z.of_nat i + 1 <= (now - a + w - 1) / w) by (unfold n in Hi; lia).
    apply (Z.mul_le_mono_nonneg_l _ _ w) in Hin; [|lia].
    pose proof (Z.mul_div_le (now - a + w - 1) w Hw).
    assert (0 <= a) by (rewrite Ea; apply Z.mul_nonneg_nonneg; lia).
    assert (0 <= Z.of_nat i * w) by (apply Z.mul_nonneg_nonneg; lia).
    assert (Hub : a + Z.of_nat i * w < now) by lia.
    unfold is_bucket_closed. rewrite orb_false_r.
    rewrite (wrapping_add_exact 64) by (unfold in_range; lia).
    rewrite (wrapping_sub_exact 64) by (unfold in_range; lia).
    clear Hmax Hi Hin n Hmn. apply eq_true_iff_eq. rewrite Z.ltb_lt, Nat.ltb_lt. split; intros Hx.
    + assert (Z.of_nat i < now / w - lf / w); [|lia]. nia.
    + assert (Z.of_nat i < now / w - lf / w) by lia. nia.
Qed.

(** ** Lemmas on values *)

Section values.
Context {S : Type} `{Sketch S}.
Implicit Types v : MetricValues S.

Definition values_sorted v : Prop :=
  match v with
  | Counter p | Rate p _ | Gauge p => sorted p
  | Set_ p => sorted p
  | HistogramV p => sorted p
  | Distribution p => sorted p
  end.

Definition timestamps v : list (option Z) :=
  match v with
  | Counter p | Rate p _ | Gauge p => timestamp <$> p
  | Set_ p => timestamp <$> p
  | HistogramV p => timestamp <$> p
  | Distribution p => timestamp <$> p
  end.

(** A point at or before [ts]. *)
Definition due (ts : Z) (t : option Z) : bool :=
  match t with Some t => t <=? ts | None => false end.

Lemma merge_values_sorted v o : values_sorted v -> values_sorted o -> values_sorted (MetricValues_merge v o).
Proof.
  destruct v, o; simpl; intros Hv Ho; try done; try (by apply merge_sorted).
  destruct (_ =? _); simpl; [by apply merge_sorted|done].
Qed.

Lemma merge_zero_sorted expires buckets v : values_sorted v -> values_sorted (merge_zero_values expires buckets v).
Proof.
  revert v. induction buckets as [|c buckets IH]; intros v Hv; simpl; [done|].
  destruct (_ <? _); [|done]. apply IH, merge_values_sorted; [done|]. repeat constructor.
Qed.

Lemma points_split_due {T} ts (p : TimestampedValues T) :
  sorted p ->
  let '(d, r) := split_at_timestamp ts p in
  sorted r /\ Forall (fun t => due ts t = false) (timestamp <$> r) /\
  Forall (fun t => due ts t = true) (timestamp <$> default [] d) /\
  (timestamp <$> default [] d) ++ (timestamp <$> r) ≡ₚ timestamp <$> p.
Proof.
  intros Hs. pose proof (split_spec ts p Hs) as Hx. destruct (split_at_timestamp ts p) as [d r].
  destruct Hx as [-> ->]. split_and!; [by apply sorted_filter|..].
  - rewrite Forall_fmap, Forall_forall. intros x Hx. apply list_elem_of_In, filter_In in Hx as [_ Hx].
    apply negb_true_iff in Hx. exact Hx.
  - rewrite Forall_fmap, Forall_forall. intros x Hx. apply list_elem_of_In, filter_In in Hx as [_ Hx]. exact Hx.
  - clear Hs. induction p as [|x p IH]; [done|]. simpl. destruct (closed_at ts x); csimpl; [by rewrite IH|].
    rewrite <- Permutation_middle. by rewrite IH.
Qed.

Lemma split_due ts v :
  values_sorted v ->
  let '(d, r) := MetricValues_split_at_timestamp ts v in
  values_sorted r /\ Forall (fun t => due ts t = false) (timestamps r) /\
  Forall (fun t => due ts t = true) (default [] (timestamps <$> d)) /\
  default [] (timestamps <$> d) ++ timestamps r ≡ₚ timestamps v.
Proof.
  destruct v as [p|p i|p|p|p|p]; simpl; intros Hs; pose proof (points_split_due ts p Hs) as Hx;
    destruct (split_at_timestamp ts p) as [[d|] r]; exact Hx.
Qed.

Lemma collapse_uniform ts v :
  MetricValues_all_timestamped v = true \/ MetricValues_any_timestamped v = false ->
  values_sorted v -> values_sorted (MetricValues_collapse_non_timestamped ts v).
Proof.
  assert (Hgen : forall T (merge : T -> T -> T) (p : TimestampedValues T),
    all_timestamped p = true \/ any_timestamped p = false -> sorted p ->
    sorted (collapse_non_timestamped ts merge p)).
  { intros T merge p Hu Hs. rewrite collapse_spec by done. destruct (values_at None p) as [|x xs] eqn:E; [done|].
    destruct Hu as [Hu|Hu].
    - exfalso. rewrite values_at_none in E; [done|]. unfold all_timestamped in Hu.
      rewrite forallb_forall in Hu. rewrite Forall_forall. intros y Hy. apply Hu. by apply list_elem_of_In.
    - rewrite filter_none; [repeat constructor|]. rewrite Forall_forall. intros y Hy.
      destruct (is_timestamped y) eqn:Ey; [|done]. unfold any_timestamped in Hu.
      rewrite (proj2 (existsb_exists _ _)) in Hu; [done|]. exists y. split; [by apply list_elem_of_In|done]. }
  destruct v; simpl; apply Hgen.
Qed.
End values.

(** ** Lemmas on flushing *)

(** A dispatcher that takes everything: what it holds is a log of what was pushed. *)
Class ReliableDispatcher (C S D : Type) `{Dispatcher C S D} := {
  pushed : D -> list (Metric C S);
  push_ok : forall m d, exists d', push m d = (Ok tt, d') /\ pushed d' = pushed d ++ [m];
}.

Section flushing.
Context {C S D : Type} `{Countable C} `{MetricContext C} `{Sketch S} `{SortUnstable}
        `{DI : Dispatcher C S D} `{MapOrder C S}.
Implicit Types (st : AggregationState C S) (am : AggregatedMetric S).

(** What one flush makes of one context: the closed values, and the metric that stays, if any. *)
Definition flushed st (now : Z) (fo : bool) am : option (MetricValues S) * MetricValues S :=
  MetricValues_split_at_timestamp (split_timestamp now (bucket_width_secs st) fo)
    (with_zero_values (expire_secs st)
       (zero_value_buckets (last_flush st) now (bucket_width_secs st) fo) am).

Definition emitted st now fo (x : C * AggregatedMetric S) : list (Metric C S) :=
  match (flushed st now fo x.2).1 with
  | Some values => transform_metric x.1 values (am_metadata x.2) (bucket_width_secs st) (hist_config st)
  | None => []
  end.

Definition removed st now fo am : bool :=
  MetricValues_is_empty (flushed st now fo am).2 && should_expire_if_empty (expire_secs st) now am.

Definition kept st now fo am : option (AggregatedMetric S) :=
  if removed st now fo am then None else Some (set_values (flushed st now fo am).2 am).

Lemma push_all_ok `{!ReliableDispatcher C S D} ms (d : D) :
  exists d', push_all ms d = (Ok tt, d') /\ pushed d' = pushed d ++ ms.
Proof.
  revert d. induction ms as [|m ms IH]; intros d; simpl; [exists d; by rewrite app_nil_r|].
  destruct (push_ok m d) as (d1 & -> & E1). destruct (IH d1) as (d2 & -> & E2).
  exists d2. split; [done|]. by rewrite E2, E1, <- app_assoc.
Qed.

Lemma flush_contexts_ok `{!ReliableDispatcher C S D} l now fo st buf cs (d : D) :
  let buckets := zero_value_buckets (last_flush st) now (bucket_width_secs st) fo in
  exists cs' d', flush_contexts l now fo st buckets buf cs d =
      (Ok tt, buf ++ (List.filter (fun x => removed st now fo x.2) l).*1, cs', d') /\
    pushed d' = pushed d ++ concat (map (emitted st now fo) l) /\
    (NoDup l.*1 -> forall c, cs' !! c =
       match list_to_map (M := gmap C (AggregatedMetric S)) l !! c with
       | Some am => Some (set_values (flushed st now fo am).2 am)
       | None => cs !! c
       end).
Proof.
  intros buckets. revert buf cs d. induction l as [|[c am] l IH]; intros buf cs d; simpl.
  { exists cs, d. rewrite !app_nil_r. done. }
  change (MetricValues_split_at_timestamp _ _) with (flushed st now fo am).
  unfold emitted at 1. simpl. destruct (flushed st now fo am) as [closed rest] eqn:Ef. simpl.
  assert (Hr : removed st now fo am =
    MetricValues_is_empty rest && should_expire_if_empty (expire_secs st) now am)
    by (unfold removed; by rewrite Ef).
  rewrite Hr.
  assert (Hpush : exists d1,
    match closed with
    | Some values => transform_and_push_metric c values (am_metadata am) (bucket_width_secs st) (hist_config st) d
    | None => (Ok tt, d)
    end = (Ok tt, d1) /\
    pushed d1 = pushed d ++ match closed with
      | Some values => transform_metric c values (am_metadata am) (bucket_width_secs st) (hist_config st)
      | None => [] end).
  { destruct closed as [v|]; [apply push_all_ok|]. exists d. by rewrite app_nil_r. }
  destruct Hpush as (d1 & -> & Ed1). simpl.
  destruct (IH (if MetricValues_is_empty rest && should_expire_if_empty (expire_secs st) now am
                then buf ++ [c] else buf) (<[c := set_values rest am]> cs) d1) as (cs' & d' & E & Ed & Hcs).
  exists cs', d'. rewrite E. split_and!.
  - destruct (MetricValues_is_empty rest && should_expire_if_empty (expire_secs st) now am); [|done].
    csimpl. by rewrite <- app_assoc.
  - by rewrite Ed, Ed1, <- app_assoc.
  - intros Hnd c'. csimpl in Hnd. apply NoDup_cons in Hnd as [Hni Hnd]. rewrite (Hcs Hnd c').
    destruct (decide (c' = c)) as [->|Hne].
    + rewrite lookup_insert_eq. rewrite (not_elem_of_list_to_map_1 l c) by done.
      by rewrite lookup_insert_eq, Ef.
    + by rewrite !lookup_insert_ne.
Qed.

Lemma foldl_delete_lookup (l : list C) (cs : gmap C (AggregatedMetric S)) c :
  foldl (fun cs c => delete c cs) cs l !! c = if bool_decide (c ∈ l) then None else cs !! c.
Proof.
  revert cs. induction l as [|x l IH]; intros cs; simpl; [done|]. rewrite IH.
  case_bool_decide as Hl; case_bool_decide as Hx; rewrite elem_of_cons in Hx; try done.
  - tauto.
  - destruct Hx as [->|?]; [by rewrite lookup_delete_eq|done].
  - rewrite lookup_delete_ne; [done|]. intros ->. tauto.
Qed.

Lemma flush_ok `{!ReliableDispatcher C S D} now fo st (d : D) :
  exists st' d', flush now fo st d = (Ok tt, st', d') /\
    (forall c, contexts st' !! c = contexts st !! c ≫= kept st now fo) /\
    pushed d' ≡ₚ pushed d ++ concat (map (emitted st now fo) (map_to_list (contexts st))) /\
    last_flush st' = now /\ context_limit st' = context_limit st /\
    bucket_width_secs st' = bucket_width_secs st.
Proof.
  unfold flush. set (l := map_order (map_to_list (contexts st))).
  assert (Hl : l ≡ₚ map_to_list (contexts st)) by apply map_order_perm.
  assert (Hnd : NoDup l.*1) by (rewrite Hl; apply NoDup_fst_map_to_list).
  destruct (flush_contexts_ok l now fo st [] (contexts st) d) as (cs' & d' & E & Ed & Hcs).
  rewrite E. simpl. eexists _, d'. split; [done|]. simpl. split_and!; try done.
  - intros c. rewrite foldl_delete_lookup, (Hcs Hnd c).
    assert (Hltm : (list_to_map l : gmap C (AggregatedMetric S)) !! c = contexts st !! c).
    { rewrite <- (list_to_map_to_list (contexts st)). f_equal. by apply list_to_map_proper. }
    rewrite Hltm. destruct (contexts st !! c) as [am|] eqn:Ec; simpl.
    + assert (Hin : (c, am) ∈ l) by (rewrite Hl; by apply elem_of_map_to_list).
      unfold kept. destruct (removed st now fo am) eqn:Er.
      * rewrite bool_decide_eq_true_2; [done|]. apply list_elem_of_fmap. exists (c, am). split; [done|].
        apply list_elem_of_In, filter_In. split; [by apply list_elem_of_In|done].
      * rewrite bool_decide_eq_false_2; [done|]. intros ([c' am'] & -> & Hx)%list_elem_of_fmap.
        apply list_elem_of_In, filter_In in Hx as [Hx Hr]. simpl in *. apply list_elem_of_In in Hx.
        rewrite Hl in Hx. apply elem_of_map_to_list in Hx. congruence.
    + rewrite bool_decide_eq_false_2; [done|]. intros ([c' am'] & -> & Hx)%list_elem_of_fmap.
      apply list_elem_of_In, filter_In in Hx as [Hx _]. simpl in *. apply list_elem_of_In in Hx.
      rewrite Hl in Hx. apply elem_of_map_to_list in Hx. congruence.
  - rewrite Ed. apply Permutation_app; [done|]. rewrite <- !flat_map_concat_map. by rewrite Hl.
Qed.

(** Whatever the dispatcher does, the loop keeps the contexts. *)
Lemma flush_contexts_dom l now fo st buckets buf cs (d : D) r buf' cs' d' :
  flush_contexts l now fo st buckets buf cs d = (r, buf', cs', d') ->
  (forall c am, (c, am) ∈ l -> is_Some (cs !! c)) -> dom cs' = dom cs.
Proof.
  revert buf cs d. induction l as [|[c am] l IH]; intros buf cs d E Hin; simpl in E; [by simplify_eq|].
  destruct (MetricValues_split_at_timestamp _ _) as [closed rest].
  assert (Hc : is_Some (cs !! c)) by (eapply Hin; left).
  assert (Hd : dom (<[c := set_values rest am]> cs) = dom cs) by (by apply dom_insert_lookup_L).
  destruct (match closed with Some _ => _ | None => _ end) as [[?|e] d1].
  - apply IH in E; [by rewrite E|]. intros c' am' Hx. rewrite lookup_insert_is_Some'.
    right. eapply Hin. by right.
  - by simplify_eq.
Qed.
End flushing.

(** ** Theorems *)

(** The zero values that keep idle counters alive tile the time line: the buckets generated by
    a flush are those from the bucket of the previous flush up to, and without, the current one, so
    that consecutive flushes leave no gap and repeat none. *)
Theorem zero_values_tile t1 t2 t3 w :
  0 < w -> 0 < t1 <= t2 -> t2 <= t3 -> t3 + w <= u64_max ->
  zero_value_buckets t1 t2 w false ++ zero_value_buckets t2 t3 w false = zero_value_buckets t1 t3 w false /\
  forall c, c ∈ zero_value_buckets t1 t2 w false <->
    c mod w = 0 /\ align_to_bucket_start t1 w <= c < align_to_bucket_start t2 w.
Proof.
  intros Hw H12 H23 Hmax. rewrite !zero_value_buckets_whole by lia.
  destruct (align_spec t1 w Hw ltac:(lia)) as [E1 _]. destruct (align_spec t2 w Hw ltac:(lia)) as [E2 _].
  destruct (align_spec t3 w Hw ltac:(lia)) as [E3 _].
  pose proof (Z.div_le_mono t1 t2 w Hw ltac:(lia)). pose proof (Z.div_le_mono t2 t3 w Hw ltac:(lia)).
  split.
  - apply (whole_buckets_app _ _ _ _ (t2 / w - t1 / w) (t3 / w - t2 / w)); lia.
  - intros c. unfold whole_buckets. rewrite list_elem_of_In, in_map_iff. clear Hmax E3.
    replace ((align_to_bucket_start t2 w - align_to_bucket_start t1 w) / w) with (t2 / w - t1 / w)
      by (rewrite E1, E2, <- Z.mul_sub_distr_r, Z.div_mul; lia).
    split.
    + intros (i & <- & Hi). apply in_seq in Hi.
      rewrite E1, E2, <- Z.mul_add_distr_r, Z.mod_mul by lia. split; [done|]. nia.
    + intros [Hm Hc]. exists (Z.to_nat (c / w - t1 / w)).
      pose proof (Z.div_mod c w ltac:(lia)). rewrite in_seq.
      assert (t1 / w <= c / w) by nia. assert (c / w < t2 / w) by nia.
      split; [rewrite Z2Nat.id by lia; lia|lia].
Qed.

Section theorems.
Context {C S D : Type} `{Countable C} `{MetricContext C} `{Sketch S} `{SortUnstable}
        `{DI : Dispatcher C S D} `{MapOrder C S}.
Implicit Types (st : AggregationState C S).

(** The number of contexts never exceeds the limit.  A metric is refused exactly when its
    context is new and the limit is reached, which changes no context and raises the flag; and no
    flush, failed or not, adds a context. *)
Theorem context_limit_respected st ts (m : Metric C S) now fo (d : D) :
  (size (contexts st) <= context_limit st)%nat ->
  (let '(accepted, st') := insert_metric ts m st in
   (size (contexts st') <= context_limit st')%nat /\
   (accepted = false <-> contexts st !! metric_context m = None /\ (context_limit st <= size (contexts st))%nat) /\
   (accepted = false -> contexts st' = contexts st /\ context_limit_breached st' = true)) /\
  (let '(_, st', _) := flush now fo st d in
   dom (contexts st') ⊆ dom (contexts st) /\ (size (contexts st') <= context_limit st')%nat).
Proof.
  intros Hlim. split.
  - unfold insert_metric. destruct (contexts st !! metric_context m) as [am|] eqn:Ec; simpl.
    + split_and!; [|split; [done|by intros [? ?]]|done]. by rewrite map_size_insert_Some by (by rewrite Ec).
    + destruct (_ <=? _)%nat eqn:El; simpl.
      * apply Nat.leb_le in El. done.
      * apply Nat.leb_gt in El. split_and!; [|split; [done|intros [_ ?]; lia]|done].
        rewrite map_size_insert_None by done. lia.
  - unfold flush. destruct (flush_contexts _ _ _ _ _ _ _ _) as [[[r buf] cs] d'] eqn:E.
    apply flush_contexts_dom in E.
    2:{ intros c am Hin. rewrite map_order_perm in Hin. apply elem_of_map_to_list in Hin. by eexists. }
    assert (Hsub : forall cs' : gmap C (AggregatedMetric S), dom cs' ⊆ dom (contexts st) ->
      dom cs' ⊆ dom (contexts st) /\ (size cs' <= context_limit st)%nat).
    { intros cs' Hs. split; [done|]. etrans; [|exact Hlim]. rewrite <- !size_dom. by apply subseteq_size. }
    destruct r as [[]|e]; simpl; apply Hsub; [|by rewrite E].
    rewrite <- E. intros c. rewrite !elem_of_dom, foldl_delete_lookup. case_bool_decide; [by intros [? ?]|done].
Qed.

(** An accepted metric is aggregated under its context: its values without a timestamp are
    gathered at the start of the current bucket and everything is merged into what the context
    holds; the context is marked as just seen; all other contexts are untouched. *)
Theorem insert_aggregates st ts (m : Metric C S) st' :
  insert_metric ts m st = (true, st') ->
  let values := MetricValues_collapse_non_timestamped (align_to_bucket_start ts (bucket_width_secs st))
                  (metric_values m) in
  (exists am, contexts st' !! metric_context m = Some am /\ last_seen am = ts /\
    am_values am = match contexts st !! metric_context m with
                   | Some old => MetricValues_merge (am_values old) values
                   | None => values
                   end) /\
  (forall c, c <> metric_context m -> contexts st' !! c = contexts st !! c) /\
  (contexts st = ∅ -> last_flush st' = 0).
Proof.
  intros E values. unfold insert_metric in E.
  destruct (_ && _); simplify_eq. simpl. split_and!.
  - rewrite lookup_insert_eq. eexists. split; [done|]. by destruct (contexts st !! metric_context m).
  - intros c Hc. by rewrite lookup_insert_ne.
  - intros He. unfold is_empty. by rewrite bool_decide_eq_true_2.
Qed.

(** C17: A flush does to every context what its parts say: the context stays with what is not due,
    unless nothing is left and it may go; what was due is pushed downstream, once, transformed;
    nothing else is pushed, whatever the iteration order of the map. *)
Theorem flush_contextwise `{!ReliableDispatcher C S D} now fo st (d : D) :
  exists st' d', flush now fo st d = (Ok tt, st', d') /\
    (forall c, contexts st' !! c = contexts st !! c ≫= kept st now fo) /\
    pushed d' ≡ₚ pushed d ++ concat (map (emitted st now fo) (map_to_list (contexts st))) /\
    last_flush st' = now.
Proof.
  destruct (flush_ok now fo st d) as (st' & d' & E & Hc & Hp & Hl & _). by exists st', d'.
Qed.

(** Values leave exactly when their bucket has closed: of a context whose values are in
    timestamp order a flush takes all values at or before the split timestamp and no others, which
    are kept in order; and a bucket's start is at or before the split timestamp exactly when the
    bucket is closed. *)
Theorem flush_takes_closed_buckets now fo st (am : AggregatedMetric S) :
  values_sorted (am_values am) ->
  0 < bucket_width_secs st -> 0 <= now -> now + bucket_width_secs st <= u64_max ->
  let split := split_timestamp now (bucket_width_secs st) fo in
  let '(closed, rest) := flushed st now fo am in
  Forall (fun t => due split t = true) (default [] (timestamps <$> closed)) /\
  Forall (fun t => due split t = false) (timestamps rest) /\ values_sorted rest /\
  forall c, c mod bucket_width_secs st = 0 -> 0 < c <= now ->
    due split (Some c) = is_bucket_closed now c (bucket_width_secs st) fo.
Proof.
  intros Hs Hw Hn Hmax split.
  assert (Hz : values_sorted (with_zero_values (expire_secs st)
    (zero_value_buckets (last_flush st) now (bucket_width_secs st) fo) am)).
  { unfold with_zero_values. destruct (is_counter (am_values am)); [by apply merge_zero_sorted|done]. }
  pose proof (split_due split _ Hz) as Hx. unfold flushed. fold split.
  destruct (MetricValues_split_at_timestamp split _) as [closed rest].
  destruct Hx as (Hr & Ho & Hd & _). split_and!; [done..|].
  intros c Hc Hcn. unfold due, is_bucket_closed, split, split_timestamp.
  rewrite (wrapping_add_exact 64) by (unfold in_range; lia).
  rewrite (wrapping_sub_exact 64) by (unfold in_range; lia).
  destruct fo; [rewrite orb_true_r; apply Z.leb_le; lia|]. rewrite orb_false_r.
  destruct (align_spec now (bucket_width_secs st) Hw Hn) as [Ea Ha].
  set (w := bucket_width_secs st) in *. set (a := align_to_bucket_start now w) in *.
  pose proof (Z.div_mod c w ltac:(lia)). unfold saturating_sub. clear Hmax.
  apply eq_true_iff_eq. rewrite Z.leb_le, Z.ltb_lt. split; intros Hle.
  - assert (c / w < now / w) by nia. nia.
  - assert (c / w < now / w) by nia. nia.
Qed.

(** C39: A flush that fails downstream drops no context and does not count as a flush: every context
    is still there, and the zero values of the next flush start from the last successful one. *)
Theorem failed_flush_keeps_contexts now fo st (d : D) e st' d' :
  flush now fo st d = (Err e, st', d') ->
  dom (contexts st') = dom (contexts st) /\ last_flush st' = last_flush st /\
  context_limit_breached st' = context_limit_breached st.
Proof.
  unfold flush. destruct (flush_contexts _ _ _ _ _ _ _ _) as [[[r buf] cs] d1] eqn:E.
  apply flush_contexts_dom in E.
  2:{ intros c am Hin. rewrite map_order_perm in Hin. apply elem_of_map_to_list in Hin. by eexists. }
  destruct r as [[]|e']; intros [= <- <- <-]. simpl. done.
Qed.

(** The values of every context stay in timestamp order: inserting metrics whose values are
    either all timestamped or all not, in order, and flushing both keep it. *)
Theorem contexts_stay_sorted `{!ReliableDispatcher C S D} st ts (m : Metric C S) now fo (d : D) :
  map_Forall (fun _ am => values_sorted (am_values am)) (contexts st) ->
  values_sorted (metric_values m) ->
  MetricValues_all_timestamped (metric_values m) = true \/ MetricValues_any_timestamped (metric_values m) = false ->
  map_Forall (fun _ am => values_sorted (am_values am)) (contexts (insert_metric ts m st).2) /\
  map_Forall (fun _ am => values_sorted (am_values am)) (contexts (flush now fo st d).1.2).
Proof.
  intros Hst Hm Hu. split.
  - unfold insert_metric. destruct (_ && _); simpl; [done|]. apply map_Forall_insert_2; [|done].
    pose proof (collapse_uniform (align_to_bucket_start ts (bucket_width_secs st)) _ Hu Hm) as Hc.
    destruct (contexts st !! metric_context m) as [am|] eqn:Ec; simpl; [|done].
    apply merge_values_sorted; [|done]. by eapply Hst.
  - destruct (flush_ok now fo st d) as (st' & d' & -> & Hc & _). simpl. intros c am Hk. rewrite Hc in Hk.
    destruct (contexts st !! c) as [am0|] eqn:E0; simpl in Hk; [|done]. unfold kept in Hk.
    destruct (removed st now fo am0); simplify_eq/=.
    assert (Hz : values_sorted (with_zero_values (expire_secs st)
      (zero_value_buckets (last_flush st) now (bucket_width_secs st) fo) am0)).
    { unfold with_zero_values. pose proof (Hst _ _ E0). destruct (is_counter (am_values am0)); [by apply merge_zero_sorted|done]. }
    pose proof (split_due (split_timestamp now (bucket_width_secs st) fo) _ Hz) as Hx.
    unfold flushed. destruct (MetricValues_split_at_timestamp _ _) as [closed rest]. by destruct Hx.
Qed.
End theorems.

(** ** Witnesses: contexts are names, sketches are lists of weighted samples *)

Section witnesses.
#[local] Instance name_context : MetricContext string :=
  {| context_name := fun c => c; context_with_name := fun n _ => n |}.
#[local] Instance list_sketch : Sketch (list (f64 * Z)) :=
  {| sketch_default := []; sketch_insert_n := fun x n l => l ++ [(x, n)]; sketch_merge := app |}.
Abbreviation ExampleMetric := (Metric string (list (f64 * Z))).
Abbreviation ExampleState := (AggregationState string (list (f64 * Z))).
#[local] Instance list_dispatcher : Dispatcher string (list (f64 * Z)) (list ExampleMetric) :=
  fun m d => (Ok tt, d ++ [m]).
#[local] Instance full_dispatcher : Dispatcher string (list (f64 * Z)) unit :=
  fun m d => (Err "channel closed"%string, d).
#[local] Instance list_reliable : ReliableDispatcher string (list (f64 * Z)) (list ExampleMetric).
Proof. refine {| pushed := fun d => d |}. intros m d. by eexists. Defined.
#[local] Instance list_order : MapOrder string (list (f64 * Z)).
Proof. refine {| map_order := fun l => l |}. done. Defined.
#[local] Existing Instance SortUnstable_ref.

Definition example_hist_config : HistogramConfiguration :=
  {| statistics := [Count; Median]; copy_to_distribution := false; copy_to_distribution_prefix := "" |}.

Definition hits (n : Z) : ExampleMetric :=
  MkMetric "hits"%string (Counter [TV None (f64_of_Z n)]) {| origin := None; unit_ := "" |}.

Definition example_state : ExampleState :=
  (insert_metric 17 (hits 3) (AggregationState_new 10 1 (Some (300 * NANOS_PER_SEC)) example_hist_config)).2.

Lemma example_sorted : map_Forall (fun _ am => values_sorted (am_values am)) (contexts example_state).
Proof.
  unfold example_state. simpl. apply map_Forall_insert_2; [repeat constructor|apply map_Forall_empty].
Qed.

Lemma zero_values_tile_witness :
  zero_value_buckets 17 35 10 false ++ zero_value_buckets 35 52 10 false = zero_value_buckets 17 52 10 false /\
  zero_value_buckets 17 35 10 false = [10; 20].
Proof.
  split; [|by vm_compute].
  exact (proj1 (zero_values_tile 17 35 52 10 ltac:(lia) ltac:(lia) ltac:(lia) ltac:(by vm_compute))).
Defined.

Lemma context_limit_respected_witness :
  (insert_metric 18 (MkMetric "other"%string (Counter [TV None f64_one]) {| origin := None; unit_ := "" |})
     example_state).1 = false.
Proof.
  pose proof (context_limit_respected example_state 18
    (MkMetric "other"%string (Counter [TV None f64_one]) {| origin := None; unit_ := "" |}) 30 false
    (@nil ExampleMetric) ltac:(vm_compute; lia)) as [Hi _].
  destruct (insert_metric 18 _ example_state) as [accepted st']. destruct Hi as (_ & Hiff & _).
  apply Hiff. split; [by vm_compute|by vm_compute; lia].
Defined.

Lemma insert_aggregates_witness :
  exists st' am, insert_metric 19 (hits 4) example_state = (true, st') /\
    contexts st' !! "hits"%string = Some am /\ am_values am = Counter [TV (Some 10) (f64_of_Z 7)].
Proof.
  destruct (insert_metric 19 (hits 4) example_state) as [accepted st'] eqn:E.
  assert (accepted = true) as -> by (vm_compute in E; congruence).
  destruct (insert_aggregates example_state 19 (hits 4) st' E) as ((am & Hl & _ & Hv) & _ & _).
  exists st', am. split; [done|]. split; [exact Hl|]. rewrite Hv. by vm_compute.
Defined.

Lemma flush_contextwise_witness :
  exists st' d', flush 30 false example_state (@nil ExampleMetric) = (Ok tt, st', d') /\
    d' ≡ₚ [MkMetric "hits"%string (Rate [TV (Some 10) (f64_of_Z 3)] (10 * NANOS_PER_SEC)) {| origin := None; unit_ := "" |}].
Proof.
  destruct (flush_contextwise 30 false example_state (@nil ExampleMetric)) as (st' & d' & E & _ & Hp & _).
  exists st', d'. split; [exact E|exact Hp].
Defined.

Definition example_metric : AggregatedMetric (list (f64 * Z)) :=
  {| am_values := Counter [TV (Some 10) (f64_of_Z 3); TV (Some 30) (f64_of_Z 4)];
     am_metadata := {| origin := None; unit_ := "" |}; last_seen := 33 |}.

Lemma flush_takes_closed_buckets_witness :
  flushed example_state 35 false example_metric =
    (Some (Counter [TV (Some 10) (f64_of_Z 3)]), Counter [TV (Some 30) (f64_of_Z 4)]) /\
  Forall (fun t => due 29 t = false) [Some 30].
Proof.
  split; [by vm_compute|].
  pose proof (flush_takes_closed_buckets 35 false example_state example_metric ltac:(repeat constructor)
    ltac:(by vm_compute) ltac:(lia) ltac:(by vm_compute)) as Hx.
  exact (proj1 (proj2 Hx)).
Defined.

Lemma failed_flush_keeps_contexts_witness :
  exists st' d', flush 30 false example_state tt = (Err "channel closed"%string, st', d') /\
    dom (contexts st') = {["hits"%string]}.
Proof.
  destruct (flush 30 false example_state tt) as [[r st'] d'] eqn:E.
  assert (r = Err "channel closed"%string) as -> by (vm_compute in E; congruence).
  exists st', d'. split; [done|].
  rewrite (proj1 (failed_flush_keeps_contexts 30 false example_state tt _ st' d' E)). by vm_compute.
Defined.

Lemma contexts_stay_sorted_witness :
  map_Forall (fun _ am => values_sorted (am_values am)) (contexts (insert_metric 19 (hits 4) example_state).2).
Proof.
  refine (proj1 (contexts_stay_sorted example_state 19 (hits 4) 30 false (@nil ExampleMetric) example_sorted _ _)).
  - repeat constructor.
  - by right.
Defined.

(** The values a failed push was given are gone: the counter is left without its closed bucket. *)
Example failed_flush_loses_values :
  let '(r, st', _) := flush 30 false example_state tt in
  r = Err "channel closed"%string /\ (am_values <$> contexts st' !! "hits"%string) = Some (Counter []).
Proof. vm_compute. done. Qed.
End witnesses.
