(* ===== verification/Ids.v ===== *)
(** * Ids: component and component output identifiers

    Models [lib/saluki-core/src/topology/ids.rs]: the byte walk that validates identifiers, the
    parts of an output identifier, output definitions and the typed identifiers of the graph.  A
    Rust string is its bytes, as a [string] of 8-bit characters. *)

From Stdlib Require Import ZArith Lia Strings.String Strings.Ascii.
From stdpp Require Import base tactics list numbers option gmap strings.
From S2P Require Import Prelude.
Open Scope Z_scope.

(** ** Characters *)

Definition ascii_Z (c : ascii) : Z := Z.of_N (N_of_ascii c).

(** [u8::is_ascii_alphanumeric] *)
Definition is_ascii_alphanumeric (c : ascii) : bool :=
  let n := ascii_Z c in
  ((48 <=? n) && (n <=? 57)) || ((65 <=? n) && (n <=? 90)) || ((97 <=? n) && (n <=? 122)).

Definition as_bytes (s : string) : list ascii := String.list_ascii_of_string s.

(** [str::split_once] on a character *)
Fixpoint split_once (c : ascii) (s : string) : option (string * string) :=
  match s with
  | EmptyString => None
  | String a s' =>
      if bool_decide (a = c) then Some (EmptyString, s')
      else '(x, y) ← split_once c s'; Some (String a x, y)
  end.

(** ** Validation *)

Definition is_valid_component_id_segment (bytes : list ascii) (start end_ : nat) : bool :=
  if bool_decide (end_ <= start)%nat then false
  else match bytes !! start, bytes !! (end_ - 1)%nat with
       | Some x, Some y => is_ascii_alphanumeric x && is_ascii_alphanumeric y
       | _, _ => false (* unreachable: [start < end_ <= length bytes] *)
       end.

(** The [while] loop of [validate_component_id]: [rest] are the bytes from [idx] on. *)
Fixpoint validate_walk (id_bytes : list ascii) (as_output_id : bool)
    (rest : list ascii) (idx segment_start : nat) (seen_separator : bool) : bool :=
  match rest with
  | [] => is_valid_component_id_segment id_bytes segment_start idx
  | b :: rest' =>
      if bool_decide (b = "."%char) then
        if negb as_output_id || seen_separator then false
        else if negb (is_valid_component_id_segment id_bytes segment_start idx) then false
        else validate_walk id_bytes as_output_id rest' (S idx) (S idx) true
      else if negb (is_ascii_alphanumeric b) && negb (bool_decide (b = "_"%char)) then false
      else validate_walk id_bytes as_output_id rest' (S idx) segment_start seen_separator
  end.

Definition validate_component_id (id : string) (as_output_id : bool) : bool :=
  let id_bytes := as_bytes id in
  if bool_decide (length id_bytes = 0%nat) then false
  else validate_walk id_bytes as_output_id id_bytes 0 0 false.

Definition INVALID_COMPONENT_ID : string :=
  "component IDs may only contain alphanumerics (a-z, A-Z, or 0-9) and underscores, and must start and end with an alphanumeric character".
Definition INVALID_COMPONENT_OUTPUT_ID : string :=
  "component output IDs may only contain alphanumerics (a-z, A-Z, or 0-9), underscores, and up to one period separator, where each side of the separator must start and end with an alphanumeric character".

(** ** Identifiers *)

Abbreviation ComponentId := string.
Abbreviation ComponentOutputId := string.

(** [ComponentId::try_from] *)
Definition ComponentId_try_from (value : string) : result string ComponentId :=
  if negb (validate_component_id value false) then Err INVALID_COMPONENT_ID else Ok value.

(** [ComponentOutputId::try_from] *)
Definition ComponentOutputId_try_from (value : string) : result string ComponentOutputId :=
  if negb (validate_component_id value true) then Err INVALID_COMPONENT_OUTPUT_ID else Ok value.

Inductive OutputName := Default | Given (name : string).

#[export] Instance OutputName_eq_dec : EqDecision OutputName.
Proof. solve_decision. Defined.

#[export] Instance OutputName_countable : Countable OutputName.
Proof.
  refine (inj_countable' (fun o => match o with Default => None | Given n => Some n end)
            (fun o => match o with None => Default | Some n => Given n end) _).
  by intros [].
Defined.

Record OutputDefinition (T : Type) := { name : OutputName; data_ty : T }.
Arguments name {T} _.
Arguments data_ty {T} _.

Definition default_output {T} (ty : T) : OutputDefinition T := {| name := Default; data_ty := ty |}.
Definition named_output {T} (n : string) (ty : T) : OutputDefinition T :=
  {| name := Given n; data_ty := ty |}.

Definition output_name {T} (d : OutputDefinition T) : option string :=
  match name d with Default => None | Given n => Some n end.

(** [ComponentOutputId::from_definition] *)
Definition from_definition {T} (component_id : ComponentId) (output_def : OutputDefinition T)
    : result (string * string) ComponentOutputId :=
  match output_name output_def with
  | None => Ok component_id
  | Some n =>
      let output_id := (component_id +:+ "." +:+ n)%string in
      if validate_component_id output_id true then Ok output_id
      else Err (output_id, INVALID_COMPONENT_OUTPUT_ID)
  end.

(** [ComponentOutputId::component_id], [ComponentOutputId::output], [ComponentOutputId::is_default] *)
Definition component_id (o : ComponentOutputId) : ComponentId :=
  match split_once "." o with Some (c, _) => c | None => o end.

Definition output (o : ComponentOutputId) : OutputName :=
  match split_once "." o with Some (_, n) => Given n | None => Default end.

Definition is_default (o : ComponentOutputId) : bool :=
  match split_once "." o with Some _ => false | None => true end.

(** ** The identifier language *)

(** The documented rule for one segment: not empty, alphanumerics and underscores only, an
    alphanumeric at both ends. *)
Definition word_char (c : ascii) : Prop := is_ascii_alphanumeric c = true \/ c = "_"%char.

Definition valid_segment (seg : list ascii) : Prop :=
  Forall word_char seg /\
  (exists x, head seg = Some x /\ is_ascii_alphanumeric x = true) /\
  (exists y, last seg = Some y /\ is_ascii_alphanumeric y = true).

Definition valid_id (id : string) : Prop := valid_segment (as_bytes id).

Definition valid_output_id (id : string) : Prop :=
  valid_id id \/
  exists c n, valid_id c /\ valid_id n /\ id = (c +:+ "." +:+ n)%string.

(** ** Lemmas *)

Lemma as_bytes_app s1 s2 : as_bytes (s1 +:+ s2)%string = as_bytes s1 ++ as_bytes s2.
Proof. unfold as_bytes, String.app. induction s1 as [|a s1 IH]; simpl; [done|]. by rewrite IH. Qed.

Lemma as_bytes_inj s1 s2 : as_bytes s1 = as_bytes s2 -> s1 = s2.
Proof.
  revert s2. unfold as_bytes. induction s1 as [|a s1 IH]; intros [|b s2]; simpl; try done.
  intros [= -> H]. by rewrite (IH _ H).
Qed.

Lemma as_bytes_surj l : exists s, as_bytes s = l.
Proof.
  exists (String.string_of_list_ascii l). apply String.list_ascii_of_string_of_list_ascii.
Qed.

Lemma dot_not_word c : word_char c -> c <> "."%char.
Proof. intros [Hc| ->] Heq; [subst; vm_compute in Hc|]; done. Qed.

Lemma valid_segment_nonempty seg : valid_segment seg -> seg <> [].
Proof. by intros (_ & (x & Hx & _) & _) ->. Qed.

(** The bounds test of a segment looks at its first and its last byte. *)
Lemma segment_bounds pre cur post :
  is_valid_component_id_segment (pre ++ cur ++ post) (length pre) (length pre + length cur) = true <->
  (exists x, head cur = Some x /\ is_ascii_alphanumeric x = true) /\
  (exists y, last cur = Some y /\ is_ascii_alphanumeric y = true).
Proof.
  unfold is_valid_component_id_segment. case_bool_decide as Hlen.
  - destruct cur as [|c cur]; simpl in *; [|lia]. split; [done|]. by intros ((? & ? & _) & _).
  - assert (Hp : (0 < length cur)%nat) by lia.
    replace (length pre)%nat with (length pre + 0)%nat at 1 by lia.
    rewrite lookup_app_r, lookup_app_l by lia.
    rewrite lookup_app_r, lookup_app_l by lia.
    replace (length pre + 0 - length pre)%nat with 0%nat by lia.
    replace (length pre + length cur - 1 - length pre)%nat with (pred (length cur)) by lia.
    rewrite <- last_lookup, <- head_lookup.
    destruct (head cur) as [x|] eqn:Ex; [|destruct cur; simpl in *; [lia|done]].
    destruct (last cur) as [y|] eqn:Ey; [|apply last_None in Ey; subst cur; simpl in *; lia].
    rewrite andb_true_iff. naive_solver.
Qed.

Lemma valid_segment_word cur c rest : valid_segment (cur ++ c :: rest) -> word_char c.
Proof. intros [HF _]. apply Forall_app in HF as [_ HF]. by inversion HF. Qed.

Lemma valid_segment_no_dot cur rest : ~ valid_segment (cur ++ "."%char :: rest).
Proof. intros Hv. by apply valid_segment_word, dot_not_word in Hv. Qed.

(** What the rest of the walk accepts, from the current segment [cur] on. *)
Definition walk_accepts (out seen : bool) (cur rest : list ascii) : Prop :=
  valid_segment (cur ++ rest) \/
  (out = true /\ seen = false /\
   exists a n, rest = a ++ "."%char :: n /\ valid_segment (cur ++ a) /\ valid_segment n).

Lemma walk_accepts_dot out seen cur rest :
  walk_accepts out seen cur ("."%char :: rest) <->
  out = true /\ seen = false /\ valid_segment cur /\ valid_segment rest.
Proof.
  split.
  - intros [Hv|(-> & -> & a & n & Hn & Ha & Hr)]; [by apply valid_segment_no_dot in Hv|].
    destruct a as [|x a]; simplify_eq/=; [by rewrite app_nil_r in Ha|].
    by apply valid_segment_no_dot in Ha.
  - intros (-> & -> & Hc & Hr). right. split_and!; [done..|]. exists [], rest.
    by rewrite app_nil_r.
Qed.

Lemma walk_accepts_step out seen cur c rest : c <> "."%char ->
  walk_accepts out seen cur (c :: rest) <-> walk_accepts out seen (cur ++ [c]) rest.
Proof.
  intros Hc. unfold walk_accepts. rewrite <- app_assoc. simpl.
  apply or_iff_compat_l, and_iff_compat_l, and_iff_compat_l. split.
  - intros (a & n & Hn & Ha & Hr). destruct a as [|x a]; simplify_eq/=.
    exists a, n. by rewrite <- app_assoc.
  - intros (a & n & -> & Ha & Hr). exists (c :: a), n. by rewrite <- app_assoc in Ha.
Qed.

Lemma walk_accepts_word out seen cur c rest : c <> "."%char ->
  walk_accepts out seen cur (c :: rest) -> word_char c.
Proof.
  intros Hc [Hv|(_ & _ & a & n & Hn & Ha & _)]; [by apply valid_segment_word in Hv|].
  destruct a as [|x a]; simplify_eq/=. by apply valid_segment_word in Ha.
Qed.

Lemma word_char_bool c :
  negb (is_ascii_alphanumeric c) && negb (bool_decide (c = "_"%char)) = false <-> word_char c.
Proof.
  rewrite andb_false_iff, !negb_false_iff, bool_decide_eq_true. done.
Qed.

Lemma validate_walk_spec out pre cur rest seen :
  Forall word_char cur ->
  validate_walk (pre ++ cur ++ rest) out rest (length pre + length cur) (length pre) seen = true <->
  walk_accepts out seen cur rest.
Proof.
  revert pre cur seen. induction rest as [|c rest IH]; intros pre cur seen Hcur; simpl.
  { rewrite segment_bounds. unfold walk_accepts, valid_segment. rewrite app_nil_r.
    split; [naive_solver|]. intros [?|(_ & _ & a & n & Hn & _)]; [naive_solver|]. by destruct a. }
  case_bool_decide as Hdot; [subst c|].
  - rewrite walk_accepts_dot.
    destruct (negb out || seen) eqn:E1.
    { split; [done|]. by intros (-> & -> & _). }
    apply orb_false_iff in E1 as [Hout ->]. apply negb_false_iff in Hout as ->.
    pose proof (segment_bounds pre cur ("."%char :: rest)) as Hseg.
    specialize (IH (pre ++ cur ++ ["."%char]) [] true ltac:(constructor)).
    rewrite <- !app_assoc, !length_app in IH. simpl in IH.
    replace (length pre + (length cur + 1) + 0)%nat with (S (length pre + length cur)) in IH by lia.
    replace (length pre + (length cur + 1))%nat with (S (length pre + length cur)) in IH by lia.
    destruct (is_valid_component_id_segment _ _ _); simpl.
    + rewrite IH. unfold walk_accepts. simpl.
      assert (Hcv : valid_segment cur) by (split; [done|by apply Hseg]).
      split; [intros [?|(_ & ? & _)]; done|]. intros (_ & _ & _ & Hr). by left.
    + split; [done|]. intros (_ & _ & [_ Hb] & _). by apply Hseg in Hb.
  - destruct (negb _ && negb _) eqn:E1.
    + split; [done|]. intros Ha%walk_accepts_word; [|done]. apply word_char_bool in Ha. congruence.
    + apply word_char_bool in E1. rewrite walk_accepts_step by done.
      specialize (IH pre (cur ++ [c]) seen ltac:(apply Forall_app; auto)).
      rewrite <- !app_assoc, length_app in IH. simpl in IH.
      replace (length pre + (length cur + 1))%nat with (S (length pre + length cur)) in IH by lia.
      done.
Qed.

(** Validation, against the language of identifiers. *)
Lemma validate_component_id_spec id out :
  validate_component_id id out = true <->
  valid_id id \/ (out = true /\ exists c n, valid_id c /\ valid_id n /\ id = (c +:+ "." +:+ n)%string).
Proof.
  unfold validate_component_id. case_bool_decide as Hlen.
  - apply nil_length_inv in Hlen. split; [done|]. intros [Hv|(_ & c & n & Hc & _ & ->)].
    + by apply valid_segment_nonempty in Hv.
    + rewrite as_bytes_app in Hlen. apply app_nil in Hlen as [Hlen _].
      by apply valid_segment_nonempty in Hc.
  - rewrite (validate_walk_spec out [] [] (as_bytes id) false) by constructor.
    unfold walk_accepts. simpl. apply or_iff_compat_l, and_iff_compat_l. split.
    + intros (_ & a & n & Hid & Ha & Hn).
      destruct (as_bytes_surj a) as [c <-], (as_bytes_surj n) as [m <-]. exists c, m.
      split_and!; [done..|]. apply as_bytes_inj. by rewrite as_bytes_app.
    + intros (c & n & Hc & Hn & ->). split; [done|]. exists (as_bytes c), (as_bytes n).
      by rewrite as_bytes_app.
Qed.

Lemma split_once_app c n : Forall word_char (as_bytes c) ->
  split_once "." (c +:+ "." +:+ n)%string = Some (c, n).
Proof.
  unfold String.app, as_bytes. induction c as [|a c IH]; simpl; [done|].
  inversion 1 as [|?? Ha Hc]; subst. rewrite bool_decide_eq_false_2 by by apply dot_not_word.
  by rewrite (IH Hc).
Qed.

Lemma split_once_none c : Forall word_char (as_bytes c) -> split_once "." c = None.
Proof.
  unfold as_bytes. induction c as [|a c IH]; simpl; [done|].
  inversion 1 as [|?? Ha Hc]; subst. rewrite bool_decide_eq_false_2 by by apply dot_not_word.
  by rewrite (IH Hc).
Qed.

Lemma valid_id_component_id c : valid_id c -> component_id c = c.
Proof. intros [Hw _]. unfold component_id. by rewrite split_once_none. Qed.

Lemma valid_id_output c : valid_id c -> output c = Default.
Proof. intros [Hw _]. unfold output. by rewrite split_once_none. Qed.

(** The output identifier of a definition: its parts are the component and the output's name. *)
Lemma from_definition_parts {T} c (d : OutputDefinition T) o :
  valid_id c -> from_definition c d = Ok o ->
  component_id o = c /\ output o = name d /\ valid_output_id o.
Proof.
  intros Hc. unfold from_definition, output_name. destruct (name d) as [|n].
  - intros [= <-]. split_and!; [by apply valid_id_component_id|by apply valid_id_output|by left].
  - destruct (validate_component_id _ _) eqn:E; [|done]. intros [= <-].
    unfold component_id, output. rewrite split_once_app by apply Hc. split_and!; [done..|].
    apply validate_component_id_spec in E as [?|(_ & ?)]; [by left|by right].
Qed.

(** ** Theorems *)

(** The byte walk of [validate_component_id] accepts exactly the documented language: a
    component identifier is one non-empty segment of alphanumerics and underscores that starts and
    ends with an alphanumeric; an output identifier is that, or two such segments joined by one
    period. *)
Theorem component_id_language (id : string) :
  (is_ok (ComponentId_try_from id) = true <-> valid_id id) /\
  (is_ok (ComponentOutputId_try_from id) = true <-> valid_output_id id).
Proof.
  unfold ComponentId_try_from, ComponentOutputId_try_from.
  pose proof (validate_component_id_spec id false) as H1.
  pose proof (validate_component_id_spec id true) as H2.
  unfold valid_output_id.
  destruct (validate_component_id id false), (validate_component_id id true); simpl; naive_solver.
Qed.

(** Building the output identifier of a component and taking it apart again gives back the
    component and the output's name, and building fails exactly when the output's name is not a
    valid segment. *)
Theorem output_id_roundtrip {T} (c : ComponentId) (d : OutputDefinition T) :
  valid_id c ->
  match from_definition c d with
  | Ok o => component_id o = c /\ output o = name d /\ is_default o = bool_decide (name d = Default)
            /\ ComponentOutputId_try_from o = Ok o
  | Err (o, reason) =>
      exists n, name d = Given n /\ ~ valid_id n /\ o = (c +:+ "." +:+ n)%string /\
        ComponentOutputId_try_from o = Err reason
  end.
Proof.
  intros Hc. destruct (from_definition c d) as [o|[o reason]] eqn:E.
  - destruct (from_definition_parts c d o Hc E) as (H1 & H2 & H3). split_and!; [done..| |].
    + revert H2. unfold is_default, output. destruct (split_once "." o) as [[]|]; intros <-;
        symmetry; [by apply bool_decide_eq_false|by apply bool_decide_eq_true].
    + unfold ComponentOutputId_try_from. rewrite (proj2 (validate_component_id_spec o true)); [done|].
      destruct H3; [by left|by right].
  - unfold from_definition, output_name in E. destruct (name d) as [|n]; [done|].
    destruct (validate_component_id _ _) eqn:Ev; simplify_eq. exists n.
    split_and!; [done| |done|by unfold ComponentOutputId_try_from; rewrite Ev].
    intros Hn. rewrite (proj2 (validate_component_id_spec _ true)) in Ev; [done|].
    right. split; [done|]. by exists c, n.
Qed.

Lemma output_id_roundtrip_witness :
  match from_definition "agg" (named_output "late_metrics" tt) with
  | Ok o => o = "agg.late_metrics" /\ component_id o = "agg" /\ output o = Given "late_metrics"
  | Err _ => False
  end.
Proof.
  pose proof (output_id_roundtrip "agg" (named_output "late_metrics" tt)
    ltac:(split_and!; [repeat constructor|by eexists..])) as (H1 & H2 & _).
  split_and!; [reflexivity|exact H1|exact H2].
Defined.
