(* ===== verification/Graph.v ===== *)
(** * Graph: the directed graph of a topology's components

    Models [lib/saluki-core/src/topology/graph.rs]: the nodes and edges of a topology, the
    operations that add components and connections, remove edges and prune components left without
    inputs, and the validation that runs before a topology is built.  A panic of the code is the
    value [None].  The bit masks of the data types come from the [bitmask_enum] crate and are
    abstract here (the class [Bitmask]); the iteration order of hash maps and hash sets is
    unspecified and is a parameter too (the class [HashOrder] of [Prelude]). *)

From Stdlib Require Import ZArith Lia Sorted Strings.String Strings.Ascii.
From stdpp Require Import base tactics list numbers option gmap strings relations.
From S2P Require Import Prelude Ids.
Open Scope Z_scope.

(** ** Data types *)

(** [EventType] and [PayloadType] are [u8] bit masks; [is_none] and [intersects] are generated by
    the [bitmask] macro. *)
Abbreviation EventType := Z.
Abbreviation PayloadType := Z.

Class Bitmask := {
  mask_is_none : Z -> bool;
  mask_intersects : Z -> Z -> bool;
}.

Inductive DataType := Event (ty : EventType) | Payload (ty : PayloadType).

Definition intersects `{Bitmask} (self other : DataType) : bool :=
  match self, other with
  | Event a, Event b => negb (mask_is_none a) && negb (mask_is_none b) && mask_intersects a b
  | Payload a, Payload b => negb (mask_is_none a) && negb (mask_is_none b) && mask_intersects a b
  | _, _ => false
  end.

Inductive ComponentType :=
| CSource | CRelay | CDecoder | CTransform | CEncoder | CForwarder | CDestination.

#[export] Instance ComponentType_eq_dec : EqDecision ComponentType.
Proof. solve_decision. Defined.

#[export] Instance ComponentType_countable : Countable ComponentType.
Proof.
  refine (inj_countable'
    (fun t => match t with CSource => 0 | CRelay => 1 | CDecoder => 2 | CTransform => 3
              | CEncoder => 4 | CForwarder => 5 | CDestination => 6 end)
    (fun z => if z =? 0 then CSource else if z =? 1 then CRelay else if z =? 2 then CDecoder
              else if z =? 3 then CTransform else if z =? 4 then CEncoder
              else if z =? 5 then CForwarder else CDestination) _).
  by intros [].
Defined.

Record TypedComponentId := { id : ComponentId; ty : ComponentType }.

#[export] Instance TypedComponentId_eq_dec : EqDecision TypedComponentId.
Proof. solve_decision. Defined.

#[export] Instance TypedComponentId_countable : Countable TypedComponentId.
Proof.
  refine (inj_countable' (fun t => (id t, ty t)) (fun p => {| id := p.1; ty := p.2 |}) _).
  by intros [].
Defined.

Record TypedComponentOutputId := { component_output : ComponentOutputId; output_ty : DataType }.

Inductive Node :=
| Source (outputs : list TypedComponentOutputId)
| Relay (outputs : list TypedComponentOutputId)
| Decoder (input_ty : PayloadType) (output_ty : EventType)
| Transform (input_ty : EventType) (outputs : list TypedComponentOutputId)
| Encoder (input_ty : EventType) (output_ty : PayloadType)
| Forwarder (input_ty : PayloadType)
| Destination (input_ty : EventType).

Record Edge := { from : ComponentOutputId; to : ComponentId }.

Record Graph := { nodes : gmap ComponentId Node; edges : list Edge }.

Definition Graph_default : Graph := {| nodes := ∅; edges := [] |}.

Inductive GraphError :=
| InvalidComponentId (input reason : string)
| DuplicateComponentId (component_id : ComponentId)
| NonexistentComponentId (component_id : ComponentId)
| InvalidComponentOutputId (input reason : string)
| DuplicateComponentOutputId (component_id : ComponentId) (output_id : ComponentOutputId)
| NonexistentComponentOutputId (component_output_id : ComponentOutputId)
| DataTypeMismatch (from_component_output_id : ComponentOutputId) (from_ty : DataType)
    (to_component_id : ComponentId) (to_ty : DataType)
| Cycle (path : list ComponentId)
| DisconnectedComponents (component_ids : list ComponentId).

(** ** Adding components *)

Definition try_into_component_id (component_id : string) : result GraphError ComponentId :=
  map_err (InvalidComponentId component_id) (ComponentId_try_from component_id).

Definition try_into_component_output_id (component_output_id : string)
    : result GraphError ComponentOutputId :=
  map_err (InvalidComponentOutputId component_output_id)
    (ComponentOutputId_try_from component_output_id).

Fixpoint construct_typed_output_ids {T} (into : T -> DataType) (component_id : ComponentId)
    (outputs : list (OutputDefinition T)) : result GraphError (list TypedComponentOutputId) :=
  match outputs with
  | [] => Ok []
  | o :: outputs' =>
      output_id ← map_err (fun '(input, reason) => InvalidComponentOutputId input reason)
                    (from_definition component_id o);
      rest ← construct_typed_output_ids into component_id outputs';
      Ok ({| component_output := output_id; output_ty := into (data_ty o) |} :: rest)
  end.

(** What every [add_*] does, given how it makes the node. *)
Definition add_node (g : Graph) (component_id : string)
    (make : ComponentId -> result GraphError Node) : Graph * result GraphError ComponentId :=
  match try_into_component_id component_id with
  | Err e => (g, Err e)
  | Ok component_id =>
      if bool_decide (is_Some (nodes g !! component_id)) then (g, Err (DuplicateComponentId component_id))
      else match make component_id with
           | Err e => (g, Err e)
           | Ok node =>
               ({| nodes := <[component_id := node]> (nodes g); edges := edges g |}, Ok component_id)
           end
  end.

Definition add_source (g : Graph) (component_id : string)
    (builder_outputs : list (OutputDefinition EventType)) : Graph * result GraphError ComponentId :=
  add_node g component_id (fun c => Source <$> construct_typed_output_ids Event c builder_outputs).

Definition add_relay (g : Graph) (component_id : string)
    (builder_outputs : list (OutputDefinition PayloadType)) : Graph * result GraphError ComponentId :=
  add_node g component_id (fun c => Relay <$> construct_typed_output_ids Payload c builder_outputs).

Definition add_decoder (g : Graph) (component_id : string)
    (input_payload_type : PayloadType) (output_event_type : EventType)
    : Graph * result GraphError ComponentId :=
  add_node g component_id (fun _ => Ok (Decoder input_payload_type output_event_type)).

Definition add_transform (g : Graph) (component_id : string) (input_event_type : EventType)
    (builder_outputs : list (OutputDefinition EventType)) : Graph * result GraphError ComponentId :=
  add_node g component_id
    (fun c => Transform input_event_type <$> construct_typed_output_ids Event c builder_outputs).

Definition add_encoder (g : Graph) (component_id : string)
    (input_event_type : EventType) (output_payload_type : PayloadType)
    : Graph * result GraphError ComponentId :=
  add_node g component_id (fun _ => Ok (Encoder input_event_type output_payload_type)).

Definition add_forwarder (g : Graph) (component_id : string) (input_payload_type : PayloadType)
    : Graph * result GraphError ComponentId :=
  add_node g component_id (fun _ => Ok (Forwarder input_payload_type)).

Definition add_destination (g : Graph) (component_id : string) (input_event_type : EventType)
    : Graph * result GraphError ComponentId :=
  add_node g component_id (fun _ => Ok (Destination input_event_type)).

(** ** Adding and removing edges *)

Definition add_edge (g : Graph) (from_ to_ : string) : Graph * result GraphError unit :=
  match try_into_component_id to_ with
  | Err e => (g, Err e)
  | Ok c =>
  match try_into_component_output_id from_ with
  | Err e => (g, Err e)
  | Ok o =>
      let accept := ({| nodes := nodes g; edges := edges g ++ [{| from := o; to := c |}] |}, Ok tt) in
      let reject := (g, Err (NonexistentComponentOutputId o)) in
      if negb (bool_decide (is_Some (nodes g !! c))) then (g, Err (NonexistentComponentId c))
      else match nodes g !! component_id o with
           | None => (g, Err (NonexistentComponentId (component_id o)))
           | Some (Source outputs) | Some (Relay outputs) | Some (Transform _ outputs) =>
               if negb (existsb (fun output => bool_decide (component_output output = o)) outputs)
               then reject else accept
           | Some (Decoder _ _) | Some (Encoder _ _) =>
               if negb (is_default o) then reject else accept
           | Some (Destination _) | Some (Forwarder _) => reject
           end
  end
  end.

(** [Vec::remove] at [Iterator::position] *)
Fixpoint remove_first {A} (p : A -> bool) (l : list A) : list A :=
  match l with
  | [] => []
  | a :: l' => if p a then l' else a :: remove_first p l'
  end.

Definition remove_edge (g : Graph) (from_ : ComponentOutputId) (to_ : ComponentId) : Graph :=
  {| nodes := nodes g;
     edges := remove_first
       (fun e => bool_decide (from e = from_) && bool_decide (to e = to_)) (edges g) |}.

(** ** Pruning *)

Definition get_component_type (g : Graph) (c : ComponentId) : option ComponentType :=
  match nodes g !! c with
  | Some (Source _) => Some CSource
  | Some (Relay _) => Some CRelay
  | Some (Decoder _ _) => Some CDecoder
  | Some (Transform _ _) => Some CTransform
  | Some (Encoder _ _) => Some CEncoder
  | Some (Forwarder _) => Some CForwarder
  | Some (Destination _) => Some CDestination
  | None => None
  end.

(** The [while let] loop: [pending] has its top at the head, [removed] is in order. *)
Fixpoint prune_loop (fuel : nat) (g : Graph) (pending : list ComponentId)
    (removed : list (ComponentId * ComponentType)) : Graph * list (ComponentId * ComponentType) :=
  match fuel, pending with
  | S fuel', c :: pending' =>
      match get_component_type g c with
      | None => prune_loop fuel' g pending' removed
      | Some ct =>
          if bool_decide (ct = CSource) || bool_decide (ct = CRelay) then
            prune_loop fuel' g pending' removed
          else if existsb (fun e => bool_decide (to e = c)) (edges g) then
            prune_loop fuel' g pending' removed
          else
            let outbound := filter (fun e => component_id (from e) = c) (edges g) in
            let g' := {| nodes := delete c (nodes g);
                         edges := filter (fun e => component_id (from e) <> c) (edges g) |} in
            prune_loop fuel' g' (rev (to <$> outbound) ++ pending') (removed ++ [(c, ct)])
      end
  | _, _ => (g, removed)
  end.

(** Every turn of the loop takes an identifier from [pending] and moves edges of the graph to it:
    their number bounds the turns. *)
Definition prune_components_without_inputs (g : Graph) (candidates : list ComponentId)
    : Graph * list (ComponentId * ComponentType) :=
  prune_loop (length candidates + length (edges g)) g (rev candidates) [].

(** ** Validation *)

Definition get_input_type (g : Graph) (c : ComponentId) : option DataType :=
  match nodes g !! c with
  | None | Some (Source _) | Some (Relay _) => None
  | Some (Decoder i _) => Some (Payload i)
  | Some (Transform i _) => Some (Event i)
  | Some (Encoder i _) => Some (Event i)
  | Some (Forwarder i) => Some (Payload i)
  | Some (Destination i) => Some (Event i)
  end.

Definition get_output_type (g : Graph) (o : ComponentOutputId) : option DataType :=
  match nodes g !! component_id o with
  | Some (Source outputs) | Some (Relay outputs) | Some (Transform _ outputs) =>
      output_ty <$> find (fun x => bool_decide (output (component_output x) = output o)) outputs
  | Some (Decoder _ out) => if is_default o then Some (Event out) else None
  | Some (Encoder _ out) => if is_default o then Some (Payload out) else None
  | Some (Destination _) | Some (Forwarder _) | None => None
  end.

Fixpoint check_edge_types `{Bitmask} (g : Graph) (es : list Edge) : option (result GraphError unit) :=
  match es with
  | [] => Some (Ok tt)
  | e :: es' =>
      from_ty ← get_output_type g (from e);
      to_ty ← get_input_type g (to e);
      if negb (intersects from_ty to_ty)
      then Some (Err (DataTypeMismatch (from e) from_ty (to e) to_ty))
      else check_edge_types g es'
  end.

Definition check_event_types `{Bitmask} (g : Graph) : option (result GraphError unit) :=
  check_edge_types g (edges g).

(** [IndexSet::insert] and [IndexSet::shift_remove]: a set in insertion order *)
Definition index_insert (n : ComponentId) (stack : list ComponentId) : list ComponentId :=
  if bool_decide (n ∈ stack) then stack else stack ++ [n].

Definition shift_remove (n : ComponentId) (stack : list ComponentId) : list ComponentId :=
  filter (fun x => x <> n) stack.

(** The [for input in inputs] loop of the search; [traversal] has its back at the head. *)
Fixpoint scan_inputs (inputs : list ComponentOutputId) (visited : gset ComponentId)
    (stack traversal : list ComponentId) : result GraphError (list ComponentId) :=
  match inputs with
  | [] => Ok traversal
  | input :: inputs' =>
      let c := component_id input in
      if negb (bool_decide (c ∈ visited)) then scan_inputs inputs' visited stack (c :: traversal)
      else if bool_decide (c ∈ stack) then Err (Cycle (c :: rev (drop 1 stack)))
      else scan_inputs inputs' visited stack traversal
  end.

Definition inputs_of (es : list Edge) (n : ComponentId) : list ComponentOutputId :=
  from <$> filter (fun e => to e = n) es.

(** The [while !traversal.is_empty()] loop, [None] when the fuel runs out. *)
Fixpoint search_loop (fuel : nat) (es : list Edge) (visited : gset ComponentId)
    (stack traversal : list ComponentId) : option (result GraphError unit) :=
  match fuel with
  | O => None
  | S fuel' =>
      match traversal with
      | [] => Some (Ok tt)
      | n :: rest =>
          let '(visited', stack', traversal') :=
            if negb (bool_decide (n ∈ visited))
            then ({[n]} ∪ visited, index_insert n stack, traversal)
            else (visited, shift_remove n stack, rest) in
          match scan_inputs (inputs_of es n) visited' stack' traversal' with
          | Err e => Some (Err e)
          | Ok traversal'' => search_loop fuel' es visited' stack' traversal''
          end
      end
  end.

(** A node is visited once, an edge is pushed once, and every other turn pops. *)
Definition search_fuel (es : list Edge) : nat := 2 * length es + 3.

Fixpoint check_destinations (es : list Edge) (ds : list ComponentId) : option (result GraphError unit) :=
  match ds with
  | [] => Some (Ok tt)
  | d :: ds' =>
      r ← search_loop (search_fuel es) es ∅ [] [d];
      match r with
      | Err e => Some (Err e)
      | Ok _ => check_destinations es ds'
      end
  end.

Definition destinations `{HashOrder} (g : Graph) : list ComponentId :=
  omap (fun '(c, node) => match node with Destination _ => Some c | _ => None end)
    (hash_order (map_to_list (nodes g))).

Definition check_for_cycles `{HashOrder} (g : Graph) : option (result GraphError unit) :=
  check_destinations (edges g) (destinations g).

(** [Vec::dedup]: drops repeated neighbours *)
Fixpoint dedup (l : list ComponentId) : list ComponentId :=
  match l with
  | [] => []
  | x :: l' => match dedup l' with
               | [] => [x]
               | y :: k => if bool_decide (x = y) then y :: k else x :: y :: k
               end
  end.

Definition check_for_disconnected `{HashOrder} (g : Graph) : result GraphError unit :=
  let unchecked_nodes :=
    foldl (fun s e => s ∖ {[component_id (from e)]} ∖ {[to e]}) (dom (nodes g)) (edges g) in
  if bool_decide (unchecked_nodes = ∅) then Ok tt
  else Err (DisconnectedComponents
              (stable_sort String.leb (dedup (hash_order (elements unchecked_nodes))))).

Definition validate `{Bitmask} `{HashOrder} (g : Graph) : option (result GraphError unit) :=
  r1 ← check_event_types g;
  match r1 with
  | Err e => Some (Err e)
  | Ok _ =>
      r2 ← check_for_cycles g;
      match r2 with
      | Err e => Some (Err e)
      | Ok _ => Some (check_for_disconnected g)
      end
  end.

(** ** The connections of a validated graph *)

Definition node_outputs (n : Node) : list OutputName :=
  match n with
  | Source outputs | Relay outputs | Transform _ outputs => (fun o => output (component_output o)) <$> outputs
  | Decoder _ _ | Encoder _ _ => [Default]
  | Destination _ | Forwarder _ => []
  end.

Abbreviation Mappings := (gmap TypedComponentId (gmap OutputName (list TypedComponentId))).

(** The body of the first loop: a component's outputs, without connections yet. *)
Definition outbound_node (mappings : Mappings) (p : ComponentId * Node) (component_type : ComponentType)
    : Mappings :=
  let typed := {| id := p.1; ty := component_type |} in
  match p.2 with
  | Destination _ | Forwarder _ => mappings
  | node =>
      let per_component := default ∅ (mappings !! typed) in
      <[typed := foldl (fun m o => <[o := []]> m) per_component (node_outputs node)]> mappings
  end.

Fixpoint outbound_nodes (g : Graph) (ns : list (ComponentId * Node)) (mappings : Mappings)
    : option Mappings :=
  match ns with
  | [] => Some mappings
  | p :: ns' =>
      component_type ← get_component_type g p.1;
      outbound_nodes g ns' (outbound_node mappings p component_type)
  end.

Fixpoint outbound_edges (g : Graph) (es : list Edge) (mappings : Mappings) : option Mappings :=
  match es with
  | [] => Some mappings
  | e :: es' =>
      let raw_from_id := component_id (from e) in
      from_type ← get_component_type g raw_from_id;
      let from_id := {| id := raw_from_id; ty := from_type |} in
      let per_component := default ∅ (mappings !! from_id) in
      let per_output := default [] (per_component !! output (from e)) in
      to_type ← get_component_type g (to e);
      let to_id := {| id := to e; ty := to_type |} in
      outbound_edges g es'
        (<[from_id := <[output (from e) := per_output ++ [to_id]]> per_component]> mappings)
  end.

Definition get_outbound_directed_edges `{HashOrder} (g : Graph) : option Mappings :=
  mappings ← outbound_nodes g (hash_order (map_to_list (nodes g))) ∅;
  outbound_edges g (edges g) mappings.

(** ** The cycle search *)

(** [feeds es x y]: some output of [x] is connected to [y]. *)
Definition feeds (es : list Edge) (x y : ComponentId) : Prop :=
  exists e, e ∈ es /\ component_id (from e) = x /\ to e = y.

(** [x] lies on a cycle. *)
Definition on_cycle (es : list Edge) (x : ComponentId) : Prop := tc (feeds es) x x.

Lemma feeds_inputs es x y : feeds es x y <-> x ∈ component_id <$> inputs_of es y.
Proof.
  unfold feeds, inputs_of. rewrite list_elem_of_fmap. split.
  - intros (e & He & <- & <-). exists (from e). split; [done|].
    apply list_elem_of_fmap. exists e. split; [done|]. by apply list_elem_of_filter.
  - intros (o & -> & Ho). apply list_elem_of_fmap in Ho as (e & -> & He).
    apply list_elem_of_filter in He as [<- He]. eauto.
Qed.

(** What a scan of the inputs does: it pushes the unvisited ones, or finds one on the stack. *)
Definition white (visited : gset ComponentId) (cs : list ComponentId) : list ComponentId :=
  filter (fun c => c ∉ visited) cs.

Lemma scan_inputs_spec inputs visited stack traversal :
  match scan_inputs inputs visited stack traversal with
  | Ok traversal' =>
      traversal' = rev (white visited (component_id <$> inputs)) ++ traversal /\
      forall c, c ∈ component_id <$> inputs -> c ∈ visited -> c ∉ stack
  | Err e =>
      exists c, c ∈ component_id <$> inputs /\ c ∈ stack /\ e = Cycle (c :: rev (drop 1 stack))
  end.
Proof.
  revert traversal. induction inputs as [|i inputs IH]; intros traversal; csimpl.
  { split; [done|]. intros c Hc. by apply not_elem_of_nil in Hc. }
  unfold white in *. rewrite filter_cons.
  case_bool_decide as Hv; simpl.
  - case_bool_decide as Hs.
    { exists (component_id i). split_and!; [left|done|done]. }
    rewrite decide_False by (intros ?; done). specialize (IH traversal).
    destruct (scan_inputs _ _ _ _).
    + destruct IH as [-> IH]. split; [done|]. intros c [->|Hc]%elem_of_cons ?; eauto.
    + destruct IH as (c & Hc & IH). exists c. split; [by right|done].
  - rewrite decide_True by done. specialize (IH (component_id i :: traversal)).
    destruct (scan_inputs _ _ _ _).
    + destruct IH as [-> IH]. split; [|intros c [->|Hc]%elem_of_cons ?; eauto; done].
      simpl. by rewrite <- app_assoc.
    + destruct IH as (c & Hc & IH). exists c. split; [by right|done].
Qed.

(** A list in which everything that feeds a node comes after it. *)
Fixpoint topological (es : list Edge) (l : list ComponentId) : Prop :=
  match l with
  | [] => True
  | x :: l' => (forall y, feeds es y x -> y ∈ l') /\ x ∉ l' /\ topological es l'
  end.

Lemma topological_closed es l x y : topological es l -> x ∈ l -> rtc (feeds es) y x -> y ∈ l.
Proof.
  intros Ht Hx Hr. revert Hx. induction Hr as [|y z x Hyz _ IH]; [done|].
  intros Hx. specialize (IH Hx). clear Hx. revert Ht IH.
  induction l as [|w l IHl]; intros Ht Hz; [by apply not_elem_of_nil in Hz|].
  destruct Ht as (Hw & _ & Ht). apply elem_of_cons in Hz as [->|Hz]; right; auto.
Qed.

Lemma tc_last {A} (R : relation A) x z : tc R x z -> exists y, rtc R x y /\ R y z.
Proof.
  induction 1 as [x y Hxy|x y z Hxy _ (u & Hu & Hz)].
  - exists x. split; [apply rtc_refl|done].
  - exists u. split; [by eapply rtc_l|done].
Qed.

Lemma topological_acyclic es l x : topological es l -> x ∈ l -> ~ on_cycle es x.
Proof.
  induction l as [|w l IH]; intros Ht Hx; [by apply not_elem_of_nil in Hx|].
  destruct Ht as (Hw & Hnew & Ht). apply elem_of_cons in Hx as [->|Hx]; [|by apply IH].
  intros Hc.
  apply tc_last in Hc as (y & Hwy & Hy).
  apply Hnew. eapply topological_closed; [exact Ht| |exact Hwy]. auto.
Qed.

(** The search's state: the nodes on the stack, each with the inputs it pushed and that are still
    above it in the traversal. *)
Abbreviation Frame := (ComponentId * list ComponentId)%type.

Fixpoint layout (fs : list Frame) : list ComponentId :=
  match fs with [] => [] | (n, p) :: fs' => p ++ n :: layout fs' end.

Fixpoint frames_ok (es : list Edge) (visited : gset ComponentId) (fs : list Frame) : Prop :=
  match fs with
  | [] => True
  | (n, p) :: fs' =>
      n ∈ visited /\ n ∉ fs'.*1 /\
      (forall m, head fs'.*1 = Some m -> feeds es n m) /\
      (forall y, feeds es y n -> (y ∈ visited \/ y ∈ p) /\ y ∉ n :: fs'.*1) /\
      (forall y, y ∈ p -> feeds es y n) /\
      frames_ok es visited fs'
  end.

Record search_inv (es : list Edge) (d : ComponentId) (visited : gset ComponentId)
    (stack traversal : list ComponentId) (fs : list Frame) (finished : list ComponentId) : Prop := {
  inv_traversal : traversal = layout fs;
  inv_stack : stack = rev fs.*1;
  inv_frames : frames_ok es visited fs;
  inv_visited : forall x, x ∈ visited <-> x ∈ finished \/ x ∈ fs.*1;
  inv_disjoint : forall x, x ∈ finished -> x ∉ fs.*1;
  inv_finished : topological es finished;
  inv_upstream : forall x, x ∈ fs.*1 -> rtc (feeds es) x d;
  inv_root : d ∈ visited;
}.

(** A walk along the edges. *)
Definition walk (es : list Edge) (path : list ComponentId) : Prop := Sorted (feeds es) path.

(** The report of a cycle upstream of [d]: a walk that starts on the cycle. *)
Definition reports_cycle (es : list Edge) (d : ComponentId) (e : GraphError) : Prop :=
  exists y rest, e = Cycle (y :: rest) /\ walk es (y :: rest) /\ on_cycle es y /\ rtc (feeds es) y d.

Lemma frames_ok_mono es v v' fs : v ⊆ v' -> frames_ok es v fs -> frames_ok es v' fs.
Proof.
  intros Hv. induction fs as [|[n p] fs IH]; [done|]. simpl.
  intros (H1 & H2 & H3 & H4 & H5 & H6). split_and!; [set_solver|done|done| |done|by apply IH].
  intros y Hy. destruct (H4 y Hy) as [[?|?] ?]; split; auto.
Qed.

Lemma head_HdRel {A} (R : relation A) n l : (forall m, head l = Some m -> R n m) -> HdRel R n l.
Proof. destruct l; constructor. auto. Qed.

Lemma frames_walk es v fs : frames_ok es v fs -> walk es fs.*1.
Proof.
  induction fs as [|[n p] fs IH]; csimpl; [constructor|].
  intros (_ & _ & Hm & _ & _ & Hf). constructor; [by apply IH|]. by apply head_HdRel.
Qed.

Lemma walk_rtc es l n y : walk es (n :: l) -> y ∈ n :: l -> rtc (feeds es) n y.
Proof.
  revert n. induction l as [|m l IH]; intros n Hw Hy.
  - apply elem_of_cons in Hy as [->|Hy]; [done|by apply not_elem_of_nil in Hy].
  - apply elem_of_cons in Hy as [->|Hy]; [done|]. inversion Hw as [|?? Hw' Hd]; subst.
    inversion Hd; subst. eapply rtc_l; [done|by apply IH].
Qed.

Lemma walk_take es k l : walk es l -> walk es (take k l).
Proof.
  unfold walk. revert k. induction l as [|x l IH]; intros [|k] Hw; simpl; try constructor.
  - inversion Hw; subst. auto.
  - inversion Hw as [|?? _ Hd]; subst. destruct l, k; simpl; constructor. by inversion Hd.
Qed.

(** The path that the error carries: the stack without its bottom, from the top down. *)
Lemma rev_drop_stack (gs : list ComponentId) n : rev (drop 1 (rev gs ++ [n])) = take (length gs) (n :: gs).
Proof.
  rewrite <- (rev_involutive (take _ _)). f_equal.
  change (rev gs ++ [n]) with (rev (n :: gs)).
  rewrite <- (take_drop (length gs) (n :: gs)) at 1. rewrite rev_app_distr.
  assert (Hl : length (drop (length gs) (n :: gs)) = 1%nat) by (rewrite length_drop; simpl; lia).
  destruct (drop _ _) as [|x [|]]; simpl in *; try done.
Qed.

(** Visiting a node: it goes on the stack with its unvisited inputs above it. *)
Section visit.
Context (es : list Edge) (d n : ComponentId) (visited : gset ComponentId)
        (fs : list Frame) (finished : list ComponentId).
Abbreviation visited' := ({[n]} ∪ visited).
Abbreviation pushed := (rev (white visited' (component_id <$> inputs_of es n))).
Context (Hnew : n ∉ visited) (Hfs : frames_ok es visited' fs)
        (Hvis : forall x, x ∈ visited <-> x ∈ finished \/ x ∈ fs.*1)
        (Hdis : forall x, x ∈ finished -> x ∉ fs.*1) (Htop : topological es finished)
        (Hup : forall x, x ∈ fs.*1 -> rtc (feeds es) x d)
        (Hhd : forall m, head fs.*1 = Some m -> feeds es n m)
        (Hn : rtc (feeds es) n d) (Hd : d ∈ visited').

Lemma visit_walk : walk es (n :: fs.*1).
Proof using Hfs Hhd.
  constructor; [by eapply frames_walk|]. by apply head_HdRel.
Qed.

Lemma visit_cycle y : feeds es y n -> y ∈ n :: fs.*1 ->
  reports_cycle es d (Cycle (y :: rev (drop 1 (rev fs.*1 ++ [n])))).
Proof using Hfs Hhd Hn.
  intros Hy Hin. rewrite rev_drop_stack. pose proof visit_walk as Hw.
  exists y, (take (length fs.*1) (n :: fs.*1)). split_and!; [done| | |].
  - constructor; [by apply walk_take|]. destruct (length fs.*1); simpl; constructor. done.
  - eapply tc_rtc_r; [by apply tc_once|]. by eapply walk_rtc.
  - by eapply rtc_l.
Qed.

Lemma visit_inv :
  (forall c, c ∈ component_id <$> inputs_of es n -> c ∈ visited' -> c ∉ rev fs.*1 ++ [n]) ->
  search_inv es d visited' (rev fs.*1 ++ [n]) (pushed ++ n :: layout fs) ((n, pushed) :: fs) finished.
Proof using Hnew Hfs Hvis Hdis Htop Hup Hhd Hn Hd.
  intros Hscan. assert (Hgs : forall x, x ∈ fs.*1 -> x ∈ visited) by (intros; apply Hvis; auto).
  split; csimpl; [done|done| | | |done| |done].
  - split_and!; [set_solver|auto|done| | |done].
    + intros y Hy. apply feeds_inputs in Hy as Hin. split.
      * destruct (decide (y ∈ visited')); [by left|right].
        by apply elem_of_rev, list_elem_of_filter.
      * intros Hys. destruct (decide (y ∈ visited')) as [Hyv|Hyv].
        -- apply (Hscan y Hin Hyv). apply elem_of_app. apply elem_of_cons in Hys as [->|Hys].
           ++ right. by apply list_elem_of_singleton.
           ++ left. by apply elem_of_rev.
        -- apply Hyv. apply elem_of_cons in Hys as [->|Hys]; set_solver.
    + intros y Hy. apply feeds_inputs. by apply elem_of_rev, list_elem_of_filter in Hy as [_ Hy].
  - intros x. rewrite elem_of_union, elem_of_singleton, elem_of_cons, Hvis. tauto.
  - intros x Hx. apply not_elem_of_cons. split; [|by apply Hdis].
    intros ->. apply Hnew, Hvis. by left.
  - intros x [->|Hx]%elem_of_cons; auto.
Qed.
End visit.

(** A scan finds nothing to do when all inputs are visited and off the stack. *)
Lemma scan_inputs_idle es n visited stack traversal :
  (forall y, feeds es y n -> y ∈ visited /\ y ∉ stack) ->
  scan_inputs (inputs_of es n) visited stack traversal = Ok traversal.
Proof.
  intros Hy. pose proof (scan_inputs_spec (inputs_of es n) visited stack traversal) as Hs.
  destruct (scan_inputs _ _ _ _) as [tr|e].
  - destruct Hs as [-> _].
    assert (Hw : white visited (component_id <$> inputs_of es n) = []).
    { apply list_filter_none. intros c Hc%feeds_inputs. apply Hy in Hc as [? _]. by intros ?. }
    by rewrite Hw.
  - destruct Hs as (c & Hc & Hcs & _). apply feeds_inputs, Hy in Hc as [_ Hc]. done.
Qed.

(** Finishing the node on top of the stack. *)
Lemma finish_inv es d visited stack traversal n fs finished :
  search_inv es d visited stack traversal ((n, []) :: fs) finished ->
  search_inv es d visited (shift_remove n stack) (layout fs) fs (n :: finished) /\
  forall y, feeds es y n -> y ∈ visited /\ y ∉ shift_remove n stack.
Proof.
  intros [Htr Hst Hfs Hvis Hdis Htop Hup Hd]. csimpl in *.
  destruct Hfs as (Hn & Hnew & _ & Hin & _ & Hfs).
  assert (Hrem : shift_remove n stack = rev fs.*1).
  { subst stack. unfold shift_remove. simpl. rewrite filter_app, filter_cons.
    rewrite decide_False by (intros ?; done). rewrite filter_nil, app_nil_r.
    rewrite list_filter_all; [done|]. intros x Hx Heq. subst x. rewrite elem_of_rev in Hx. done. }
  assert (Hfin : forall y, feeds es y n -> y ∈ finished).
  { intros y Hy. destruct (Hin y Hy) as [[Hv|Hv] Hno]; [|by apply not_elem_of_nil in Hv].
    apply Hvis in Hv as [?|Hv]; [done|]. by apply Hno in Hv. }
  rewrite Hrem. split.
  - split; [done|done|done| | | |auto|done].
    + intros x. rewrite Hvis, !elem_of_cons. tauto.
    + intros x [->|Hx]%elem_of_cons; [done|]. specialize (Hdis x Hx). set_solver.
    + simpl. split_and!; [done| |done]. intros Hc. apply (Hdis n Hc). left.
    + intros x Hx. apply Hup. by right.
  - intros y Hy. split; [apply Hvis; auto|]. intros Hys. rewrite elem_of_rev in Hys.
    specialize (Hdis y (Hfin y Hy)). set_solver.
Qed.

(** Dropping another entry of a node that is finished already. *)
Lemma drop_inv es d visited stack traversal m n p fs finished :
  search_inv es d visited stack traversal ((m, n :: p) :: fs) finished -> n ∈ visited ->
  search_inv es d visited (shift_remove n stack) (p ++ m :: layout fs) ((m, p) :: fs) finished /\
  forall y, feeds es y n -> y ∈ visited /\ y ∉ shift_remove n stack.
Proof.
  intros [Htr Hst Hfs Hvis Hdis Htop Hup Hd] Hn. csimpl in *.
  destruct Hfs as (Hm & Hnew & Hhd & Hin & Hp & Hfs).
  destruct (Hin n (Hp n ltac:(left))) as [_ Hno].
  assert (Hfin : n ∈ finished) by (apply Hvis in Hn as [?|?]; done).
  assert (Hin_st : forall x, x ∈ stack <-> x ∈ m :: fs.*1).
  { intros x. subst stack. exact (elem_of_rev x (m :: fs.*1)). }
  assert (Hrem : shift_remove n stack = stack).
  { apply list_filter_all. intros x Hx Heq. subst x. by apply Hno, Hin_st. }
  rewrite Hrem. split.
  - split; csimpl; [done|done| |done|done|done|done|done].
    split_and!; [done|done|done| | |done].
    + intros y Hy. destruct (Hin y Hy) as [Hv ?]. split; [|done].
      destruct Hv as [?|[->|?]%elem_of_cons]; auto.
    + intros y Hy. apply Hp. by right.
  - intros y Hy. assert (Hyf : y ∈ finished) by (eapply topological_closed; eauto using rtc_once).
    split; [apply Hvis; auto|]. rewrite Hin_st. by apply Hdis.
Qed.

(** The measure of the search: entries to pop, edges still to push, nodes still to visit. *)
Definition unvisited_edges (es : list Edge) (visited : gset ComponentId) : list Edge :=
  filter (fun e => to e ∉ visited) es.
Definition all_nodes (es : list Edge) (d : ComponentId) : list ComponentId :=
  d :: ((fun e => component_id (from e)) <$> es).
Definition search_measure (es : list Edge) (d : ComponentId) (visited : gset ComponentId)
    (traversal : list ComponentId) : nat :=
  length traversal + length (unvisited_edges es visited) + length (white visited (all_nodes es d)).

Lemma length_white v l : (length (white v l) <= length l)%nat.
Proof. apply length_filter. Qed.

Lemma length_unvisited_edges es v : (length (unvisited_edges es v) <= length es)%nat.
Proof. apply length_filter. Qed.

Lemma feeds_all_nodes es d x y : feeds es x y -> x ∈ all_nodes es d.
Proof. intros (e & He & <- & _). right. apply list_elem_of_fmap. eauto. Qed.

Lemma white_visit v n l : n ∉ v -> n ∈ l ->
  (length (white ({[n]} ∪ v) l) < length (white v l))%nat.
Proof.
  intros Hn Hin. unfold white.
  assert (Hle : forall l, (length (filter (fun c => c ∉ {[n]} ∪ v) l) <= length (filter (fun c => c ∉ v) l))%nat).
  { clear. intros l. induction l as [|x l IH]; [done|]. rewrite !filter_cons.
    repeat case_decide; simpl; [lia|set_solver|lia|lia]. }
  induction l as [|x l IH]; [by apply not_elem_of_nil in Hin|].
  rewrite !filter_cons. destruct (decide (x = n)) as [->|Hx].
  - rewrite decide_False by set_solver. rewrite decide_True by done. simpl. specialize (Hle l). lia.
  - apply elem_of_cons in Hin as [->|Hin]; [done|]. specialize (IH Hin).
    repeat case_decide; simpl; [lia|set_solver|set_solver|lia].
Qed.

Lemma unvisited_edges_visit es v n : n ∉ v ->
  (length (unvisited_edges es v) =
   length (inputs_of es n) + length (unvisited_edges es ({[n]} ∪ v)))%nat.
Proof.
  intros Hn. unfold unvisited_edges, inputs_of. rewrite length_fmap.
  induction es as [|e es IH]; [done|]. rewrite !filter_cons.
  destruct (decide (to e = n)) as [->|Hx].
  - rewrite decide_True by done. rewrite decide_False by set_solver. simpl. lia.
  - repeat case_decide; simpl; [lia|set_solver|set_solver|lia].
Qed.

Lemma visit_measure es d n visited traversal :
  n ∉ visited -> n ∈ all_nodes es d ->
  (search_measure es d ({[n]} ∪ visited)
     (rev (white ({[n]} ∪ visited) (component_id <$> inputs_of es n)) ++ traversal)
   < search_measure es d visited traversal)%nat.
Proof.
  intros Hn Hin. unfold search_measure. rewrite length_app, length_rev.
  pose proof (white_visit visited n _ Hn Hin) as Hw. rewrite (unvisited_edges_visit es visited n Hn).
  pose proof (length_filter (fun c => c ∉ ({[n]} ∪ visited)) (component_id <$> inputs_of es n)) as Hf.
  rewrite length_fmap in Hf. unfold white in *. lia.
Qed.

(** One turn of the loop, from a state of the invariant. *)
Definition search_result (es : list Edge) (d : ComponentId) (r : option (result GraphError unit)) : Prop :=
  match r with
  | None => False
  | Some (Ok _) => forall x, rtc (feeds es) x d -> ~ on_cycle es x
  | Some (Err e) => reports_cycle es d e
  end.

Lemma visit_turn es d fuel n visited fs finished :
  n ∉ visited -> frames_ok es ({[n]} ∪ visited) fs ->
  (forall x, x ∈ visited <-> x ∈ finished \/ x ∈ fs.*1) ->
  (forall x, x ∈ finished -> x ∉ fs.*1) -> topological es finished ->
  (forall x, x ∈ fs.*1 -> rtc (feeds es) x d) ->
  (forall m, head fs.*1 = Some m -> feeds es n m) ->
  rtc (feeds es) n d -> d ∈ {[n]} ∪ visited -> n ∈ all_nodes es d ->
  (forall visited' stack traversal fs' finished',
     search_inv es d visited' stack traversal fs' finished' ->
     (search_measure es d visited' traversal < search_measure es d visited (n :: layout fs))%nat ->
     search_result es d (search_loop fuel es visited' stack traversal)) ->
  search_result es d (search_loop (S fuel) es visited (rev fs.*1) (n :: layout fs)).
Proof.
  intros Hn Hfs Hvis Hdis Htop Hup Hhd Hnd Hd Hall IH. simpl.
  rewrite bool_decide_eq_false_2 by done. simpl.
  assert (Hins : index_insert n (rev fs.*1) = rev fs.*1 ++ [n]).
  { unfold index_insert. rewrite bool_decide_eq_false_2; [done|].
    rewrite elem_of_rev. intros ?. apply Hn, Hvis. by right. }
  rewrite Hins.
  pose proof (scan_inputs_spec (inputs_of es n) ({[n]} ∪ visited) (rev fs.*1 ++ [n]) (n :: layout fs)) as Hs.
  destruct (scan_inputs _ _ _ _) as [tr|e].
  - destruct Hs as [-> Hs]. eapply IH; [by apply visit_inv|]. by apply visit_measure.
  - destruct Hs as (c & Hc & Hcs & ->). apply feeds_inputs in Hc.
    eapply visit_cycle; [done..|]. by apply (elem_of_rev c (n :: fs.*1)).
Qed.

Lemma pop_turn es d fuel n visited stack rest fs finished :
  n ∈ visited -> search_inv es d visited stack (n :: rest) fs finished ->
  (forall stack' fs' finished',
     search_inv es d visited stack' rest fs' finished' ->
     search_result es d (search_loop fuel es visited stack' rest)) ->
  search_result es d (search_loop (S fuel) es visited stack (n :: rest)).
Proof.
  intros Hn Hinv IH. simpl. rewrite bool_decide_eq_true_2 by done. simpl.
  pose proof (inv_traversal _ _ _ _ _ _ _ Hinv) as Htr.
  destruct fs as [|[m [|x p]] fs]; simpl in Htr; simplify_eq.
  - apply finish_inv in Hinv as [Hinv Hidle]. rewrite scan_inputs_idle by done. eauto.
  - apply drop_inv in Hinv as [Hinv Hidle]; [|done]. rewrite scan_inputs_idle by done. eauto.
Qed.

Lemma search_loop_spec fuel es d visited stack traversal fs finished :
  search_inv es d visited stack traversal fs finished ->
  (search_measure es d visited traversal < fuel)%nat ->
  search_result es d (search_loop fuel es visited stack traversal).
Proof.
  revert visited stack traversal fs finished.
  induction fuel as [|fuel IH]; intros visited stack traversal fs finished Hinv Hfuel; [lia|].
  destruct traversal as [|n rest].
  { pose proof (inv_traversal _ _ _ _ _ _ _ Hinv) as Htr.
    destruct fs as [|[m p] fs]; simpl in Htr; [|by destruct p].
    simpl. intros x Hx. destruct Hinv as [_ _ _ Hvis _ Htop _ Hroot].
    apply Hvis in Hroot as [Hroot|Hroot]; [|by apply not_elem_of_nil in Hroot].
    eapply topological_acyclic; [done|]. by eapply topological_closed. }
  destruct (decide (n ∈ visited)) as [Hv|Hv].
  - eapply pop_turn; [done..|]. intros stack' fs' finished' Hinv'. eapply IH; [done|].
    revert Hfuel. unfold search_measure. simpl. lia.
  - destruct Hinv as [Htr -> Hfs Hvis Hdis Htop Hup Hd].
    destruct fs as [|[m [|x p]] fs]; simpl in Htr; simplify_eq; csimpl in *.
    { destruct Hfs as [? _]. done. }
    destruct Hfs as (Hm & Hnew & Hhd & Hin & Hp & Hfs).
    assert (Hxm : feeds es x m) by (apply Hp; left).
    eapply (visit_turn es d fuel x visited ((m, p) :: fs) finished); csimpl; try done.
    + split_and!; [set_solver|done|done| | |eapply frames_ok_mono; [|done]; set_solver].
      * intros y Hy. destruct (Hin y Hy) as [[?|[->|?]%elem_of_cons] ?]; split; set_solver.
      * intros y Hy. apply Hp. by right.
    + by intros ? [= <-].
    + eapply rtc_l; [done|]. apply Hup. left.
    + set_solver.
    + by eapply feeds_all_nodes.
    + intros v' st tr fs' fin' Hinv' Hlt. eapply IH; [done|]. simpl in Hlt. lia.
Qed.

(** The search from one destination: it ends, and it decides whether a cycle feeds it. *)
Lemma search_from_destination es d : search_result es d (search_loop (search_fuel es) es ∅ [] [d]).
Proof.
  unfold search_fuel. replace (2 * length es + 3)%nat with (S (2 * length es + 2)) by lia.
  eapply (visit_turn es d _ d ∅ [] []); try done; try set_solver.
  intros v st tr fs fin Hinv Hlt. eapply search_loop_spec; [done|].
  eapply Nat.lt_le_trans; [exact Hlt|]. unfold search_measure.
  pose proof (length_white ∅ (all_nodes es d)) as Hw. pose proof (length_unvisited_edges es ∅) as Hu.
  unfold all_nodes in *. rewrite length_cons, length_fmap in Hw.
  change (length (d :: layout [])) with 1%nat. lia.
Qed.

(** ** What validation decides *)

Section validation.
Context `{Bitmask} `{HashOrder}.

(** No cycle feeds a destination. *)
Definition no_cycle_upstream (g : Graph) : Prop :=
  forall d ty x, nodes g !! d = Some (Destination ty) -> rtc (feeds (edges g)) x d ->
    ~ on_cycle (edges g) x.

(** Every component is an end of some edge. *)
Definition touches (g : Graph) (c : ComponentId) : Prop :=
  exists e, e ∈ edges g /\ (component_id (from e) = c \/ to e = c).

#[global] Instance touches_dec g c : Decision (touches g c).
Proof.
  refine (cast_if (decide (Exists (fun e => component_id (from e) = c \/ to e = c) (edges g))));
    by rewrite Exists_exists in *.
Defined.

Definition all_connected (g : Graph) : Prop := forall c, is_Some (nodes g !! c) -> touches g c.

(** The two ends of an edge agree on a data type. *)
Definition edge_typed (g : Graph) (e : Edge) : Prop :=
  exists f t, get_output_type g (from e) = Some f /\ get_input_type g (to e) = Some t /\
    intersects f t = true.

Lemma elem_of_destinations g d :
  d ∈ destinations g <-> exists ty, nodes g !! d = Some (Destination ty).
Proof.
  unfold destinations. rewrite list_elem_of_omap. split.
  - intros ([c n] & Hin & Hd). rewrite hash_order_perm, elem_of_map_to_list in Hin.
    destruct n; simplify_eq. eauto.
  - intros [ty Hd]. exists (d, Destination ty). split; [|done].
    by rewrite hash_order_perm, elem_of_map_to_list.
Qed.

Lemma check_destinations_spec es ds :
  match check_destinations es ds with
  | None => False
  | Some (Ok _) => forall d, d ∈ ds -> forall x, rtc (feeds es) x d -> ~ on_cycle es x
  | Some (Err e) => exists d, d ∈ ds /\ reports_cycle es d e
  end.
Proof.
  induction ds as [|d ds IH]; simpl; [intros d Hd; by apply not_elem_of_nil in Hd|].
  pose proof (search_from_destination es d) as Hs.
  destruct (search_loop _ _ _ _ _) as [[[]|e]|]; simpl in *; [|exists d; split; [left|done]|done].
  destruct (check_destinations es ds) as [[[]|e]|]; [| |done].
  - intros d' [->|Hd]%elem_of_cons; [done|by apply IH].
  - destruct IH as (d' & Hd & He). exists d'. split; [by right|done].
Qed.

Lemma check_for_cycles_spec g :
  match check_for_cycles g with
  | None => False
  | Some (Ok _) => no_cycle_upstream g
  | Some (Err e) => exists d ty, nodes g !! d = Some (Destination ty) /\ reports_cycle (edges g) d e
  end.
Proof.
  unfold check_for_cycles. pose proof (check_destinations_spec (edges g) (destinations g)) as Hs.
  destruct (check_destinations _ _) as [[[]|e]|]; [| |done].
  - intros d ty x Hd Hx. eapply Hs; [|done]. apply elem_of_destinations. eauto.
  - destruct Hs as (d & Hd & He). apply elem_of_destinations in Hd as [ty Hd]. eauto.
Qed.

Lemma check_edge_types_spec g es :
  (forall e, e ∈ es -> is_Some (get_output_type g (from e)) /\ is_Some (get_input_type g (to e))) ->
  exists r, check_edge_types g es = Some r /\ (r = Ok tt <-> forall e, e ∈ es -> edge_typed g e).
Proof.
  induction es as [|e es IH]; intros Hty; simpl.
  { exists (Ok tt). split; [done|]. split; [|done]. intros _ e He. by apply not_elem_of_nil in He. }
  destruct (Hty e ltac:(left)) as [[f Hf] [t Ht]]. rewrite Hf, Ht. simpl.
  destruct IH as (r & Hr & IH); [intros; apply Hty; by right|].
  destruct (intersects f t) eqn:E; simpl.
  - exists r. split; [done|]. rewrite IH. split; [|intros Hall e' He'; apply Hall; by right].
    intros Hall e' [->|He']%elem_of_cons; [by exists f, t|by apply Hall].
  - eexists. split; [done|]. split; [done|]. intros Hall.
    destruct (Hall e ltac:(left)) as (f' & t' & ? & ? & ?). congruence.
Qed.

Lemma unchecked_nodes_spec (s : gset ComponentId) es x :
  x ∈ foldl (fun s e => s ∖ {[component_id (from e)]} ∖ {[to e]}) s es <->
  x ∈ s /\ forall e, e ∈ es -> component_id (from e) <> x /\ to e <> x.
Proof.
  revert s. induction es as [|e es IH]; intros s; simpl.
  { split; [|by intros [? _]]. intros Hx. split; [done|]. intros e He. by apply not_elem_of_nil in He. }
  rewrite IH, !elem_of_difference, !elem_of_singleton. split.
  - intros (((Hs & H1) & H2) & Hall). split; [done|].
    intros e' [->|He']%elem_of_cons; [split; congruence|by apply Hall].
  - intros [Hs Hall]. destruct (Hall e ltac:(left)). split_and!; [done|congruence..|].
    intros e' He'. apply Hall. by right.
Qed.

Lemma dedup_NoDup l : NoDup l -> dedup l = l.
Proof.
  induction 1 as [|x l Hx Hl IH]; simpl; [done|]. rewrite IH.
  destruct l as [|y l]; [done|]. rewrite bool_decide_eq_false_2; [done|].
  intros ->. apply Hx. left.
Qed.

Lemma string_leb_trans x y z : String.leb x y = true -> String.leb y z = true -> String.leb x z = true.
Proof.
  intros Hxy Hyz. apply Is_true_true. eapply (transitivity (R := String.le) (y := y));
    by apply Is_true_true.
Qed.

Lemma check_for_disconnected_spec g :
  match check_for_disconnected g with
  | Ok _ => all_connected g
  | Err e => exists l, e = DisconnectedComponents l /\ l <> [] /\
      (forall c, c ∈ l <-> is_Some (nodes g !! c) /\ ~ touches g c) /\
      NoDup l /\ StronglySorted (fun x y => String.leb x y = true) l
  end.
Proof.
  unfold check_for_disconnected. set (s := foldl _ _ _).
  assert (Hs : forall c, c ∈ s <-> is_Some (nodes g !! c) /\ ~ touches g c).
  { intros c. unfold s. rewrite unchecked_nodes_spec, elem_of_dom. apply and_iff_compat_l.
    unfold touches. split; [intros Hall (e & He & Hc)|intros Hno e He].
    - destruct (Hall e He). naive_solver.
    - split; intros Hc; apply Hno; eauto. }
  clearbody s. case_bool_decide as E.
  - intros c Hc. subst s. destruct (decide (touches g c)) as [?|Hno]; [done|]. exfalso. by apply (not_elem_of_empty (C := gset ComponentId) c), Hs.
  - set (l := hash_order (elements s)).
    assert (Hl : l ≡ₚ elements s) by apply hash_order_perm.
    assert (Hnd : NoDup l) by (rewrite Hl; apply NoDup_elements).
    rewrite dedup_NoDup by done. eexists. split; [done|].
    pose proof (stable_sort_perm String.leb l) as Hp. split_and!.
    + intros Hnil. rewrite Hnil in Hp. apply Permutation_nil in Hp. rewrite Hp in Hl.
      apply Permutation_nil in Hl. apply elements_empty_inv in Hl. apply E. by apply leibniz_equiv.
    + intros c. by rewrite Hp, Hl, elem_of_elements, Hs.
    + by rewrite Hp.
    + apply stable_sort_sorted; [apply String.leb_total|apply string_leb_trans].
Qed.
End validation.

(** ** Well-formed graphs *)

Definition typed_outputs (n : Node) : list TypedComponentOutputId :=
  match n with
  | Source outputs | Relay outputs | Transform _ outputs => outputs
  | _ => []
  end.

(** [n] has the output [o] names. *)
Definition has_output (n : Node) (o : ComponentOutputId) : Prop :=
  match n with
  | Source outputs | Relay outputs | Transform _ outputs => o ∈ component_output <$> outputs
  | Decoder _ _ | Encoder _ _ => is_default o = true
  | Destination _ | Forwarder _ => False
  end.

(** Identifiers are valid, outputs belong to their component, and edges join components and outputs
    that exist. *)
Record wf (g : Graph) : Prop := {
  wf_nodes : forall c n, nodes g !! c = Some n ->
    valid_id c /\ forall o, o ∈ component_output <$> typed_outputs n -> component_id o = c;
  wf_edges : forall e, e ∈ edges g ->
    is_Some (nodes g !! to e) /\
    exists n, nodes g !! component_id (from e) = Some n /\ has_output n (from e);
}.

Lemma try_into_component_id_valid s c : try_into_component_id s = Ok c -> c = s /\ valid_id c.
Proof.
  unfold try_into_component_id, ComponentId_try_from.
  destruct (validate_component_id s false) eqn:E; simpl; [|done]. intros [= <-].
  split; [done|]. by apply validate_component_id_spec in E as [?|[? _]].
Qed.

Lemma construct_typed_output_ids_spec {T} (into : T -> DataType) c outs l :
  valid_id c -> construct_typed_output_ids into c outs = Ok l ->
  (forall o, o ∈ component_output <$> l -> component_id o = c) /\
  (fun o => output (component_output o)) <$> l = name <$> outs.
Proof.
  intros Hc. revert l. induction outs as [|d outs IH]; intros l; simpl.
  { intros [= <-]. split; [|done]. intros o Ho. by apply not_elem_of_nil in Ho. }
  destruct (from_definition c d) as [o|[]] eqn:E; simpl; [|done].
  destruct (construct_typed_output_ids into c outs) as [rest|]; simpl; [|done].
  intros [= <-]. destruct (IH rest eq_refl) as [H1 H2].
  destruct (from_definition_parts c d o Hc E) as (Ho & Hn & _). csimpl. split.
  - intros x [->|Hx]%elem_of_cons; auto.
  - by rewrite Hn, H2.
Qed.

Lemma has_output_insert_other (m : gmap ComponentId Node) c n e :
  m !! c = None ->
  is_Some (m !! to e) /\ (exists n', m !! component_id (from e) = Some n' /\ has_output n' (from e)) ->
  is_Some (<[c := n]> m !! to e) /\
  (exists n', <[c := n]> m !! component_id (from e) = Some n' /\ has_output n' (from e)).
Proof.
  intros Hc [[t Ht] (n' & Hn' & Ho)]. split.
  - rewrite lookup_insert_ne by congruence. eauto.
  - exists n'. rewrite lookup_insert_ne by congruence. done.
Qed.

Lemma add_node_wf g s make :
  (forall c n, valid_id c -> make c = Ok n ->
     forall o, o ∈ component_output <$> typed_outputs n -> component_id o = c) ->
  wf g -> wf (add_node g s make).1.
Proof.
  intros Hmake Hg. unfold add_node. destruct (try_into_component_id s) as [c|] eqn:E; [|done].
  apply try_into_component_id_valid in E as [_ Hc]. case_bool_decide as Hin; [done|].
  destruct (make c) as [n|] eqn:En; [|done]. apply eq_None_not_Some in Hin. split; simpl.
  - intros c' n'. rewrite lookup_insert_Some. intros [[<- <-]|[_ Hn']]; [|by apply Hg].
    split; [done|]. by apply (Hmake c).
  - intros e He. apply has_output_insert_other; [done|]. by apply Hg.
Qed.

Lemma existsb_component_output outputs o :
  existsb (fun x => bool_decide (component_output x = o)) outputs = true <->
  o ∈ component_output <$> outputs.
Proof.
  rewrite existsb_exists, list_elem_of_fmap. split.
  - intros (x & Hx & Hb). apply bool_decide_eq_true in Hb. exists x. by rewrite list_elem_of_In.
  - intros (x & -> & Hx). exists x. rewrite <- list_elem_of_In. by rewrite bool_decide_eq_true.
Qed.

(** When an edge is accepted: both ends exist, and the output does too. *)
Lemma add_edge_spec g f t :
  match add_edge g f t with
  | (g', Ok _) =>
      g' = {| nodes := nodes g; edges := edges g ++ [{| from := f; to := t |}] |} /\
      is_Some (nodes g !! t) /\ exists n, nodes g !! component_id f = Some n /\ has_output n f
  | (g', Err _) => g' = g
  end.
Proof.
  unfold add_edge. destruct (try_into_component_id t) as [c|] eqn:Et; [|done].
  apply try_into_component_id_valid in Et as [-> _].
  unfold try_into_component_output_id, ComponentOutputId_try_from.
  destruct (validate_component_id f true); simpl; [|done].
  case_bool_decide as Hin; simpl; [|done].
  destruct (nodes g !! component_id f) as [n|] eqn:En; [|done].
  destruct n; try done.
  all: match goal with
       | |- context [existsb ?p ?l] =>
           destruct (existsb p l) eqn:Ex; simpl; [apply existsb_component_output in Ex|done]
       | |- context [is_default ?x] => destruct (is_default x) eqn:Ex; simpl; [|done]
       end; split_and!; [done|done|eexists; split; [done|exact Ex]].
Qed.

Lemma add_edge_wf g f t : wf g -> wf (add_edge g f t).1.
Proof.
  intros Hg. pose proof (add_edge_spec g f t) as Hs.
  destruct (add_edge g f t) as [g' [[]|e]]; [|by subst g']. destruct Hs as (-> & Ht & Hf). split; simpl.
  - apply Hg.
  - intros e [He|He]%elem_of_app; [by apply Hg|]. apply list_elem_of_singleton in He as ->. done.
Qed.

Lemma elem_of_remove_first {A} (p : A -> bool) l x : x ∈ remove_first p l -> x ∈ l.
Proof.
  induction l as [|y l IH]; simpl; [done|]. destruct (p y); [by right|].
  intros [->|Hx]%elem_of_cons; [left|right; auto].
Qed.

Lemma remove_edge_wf g f t : wf g -> wf (remove_edge g f t).
Proof.
  intros Hg. split; simpl; [apply Hg|]. intros e He%elem_of_remove_first. by apply Hg.
Qed.

(** ** Pruning *)

(** What pruning removes: components other than sources and relays that are candidates, or fed by a
    removed one, and all of whose inputs are removed. *)
Inductive prunable (g : Graph) (candidates : list ComponentId) : ComponentId -> Prop :=
| prunable_intro c ct :
    get_component_type g c = Some ct -> ct <> CSource -> ct <> CRelay ->
    (c ∈ candidates \/ exists e, e ∈ edges g /\ to e = c /\ prunable g candidates (component_id (from e))) ->
    (forall e, e ∈ edges g -> to e = c -> prunable g candidates (component_id (from e))) ->
    prunable g candidates c.

(** The graph without the removed components and their outbound edges. *)
Definition without (g : Graph) (rs : list ComponentId) : Graph :=
  {| nodes := filter (fun p => p.1 ∉ rs) (nodes g);
     edges := filter (fun e => component_id (from e) ∉ rs) (edges g) |}.

Record prune_inv (g0 : Graph) (candidates : list ComponentId)
    (g : Graph) (pending : list ComponentId) (removed : list (ComponentId * ComponentType)) : Prop := {
  pi_graph : g = without g0 removed.*1;
  pi_sound : forall c, c ∈ removed.*1 -> prunable g0 candidates c;
  pi_pending : forall c, c ∈ pending -> c ∈ candidates \/
    exists e, e ∈ edges g0 /\ to e = c /\ component_id (from e) ∈ removed.*1;
  pi_complete : forall c, (c ∈ candidates \/
    exists e, e ∈ edges g0 /\ to e = c /\ component_id (from e) ∈ removed.*1) ->
    (forall e, e ∈ edges g -> to e <> c) -> c ∉ removed.*1 ->
    (exists ct, get_component_type g0 c = Some ct /\ ct <> CSource /\ ct <> CRelay) -> c ∈ pending;
  pi_types : forall c ct, (c, ct) ∈ removed -> get_component_type g0 c = Some ct;
  pi_nodup : NoDup removed.*1;
}.

Lemma lookup_without g rs c :
  nodes (without g rs) !! c = if decide (c ∈ rs) then None else nodes g !! c.
Proof.
  unfold without. simpl. rewrite map_lookup_filter. simpl.
  destruct (nodes g !! c) as [n|]; simpl; repeat case_decide; try done; by rewrite option_guard_True || by rewrite option_guard_False.
Qed.

Lemma get_component_type_without g rs c :
  get_component_type (without g rs) c = if decide (c ∈ rs) then None else get_component_type g c.
Proof. unfold get_component_type. rewrite lookup_without. by case_decide. Qed.

Lemma elem_of_edges_without g rs e :
  e ∈ edges (without g rs) <-> component_id (from e) ∉ rs /\ e ∈ edges g.
Proof. unfold without. simpl. by rewrite list_elem_of_filter. Qed.

Lemma without_snoc g rs c :
  {| nodes := delete c (nodes (without g rs));
     edges := filter (fun e => component_id (from e) <> c) (edges (without g rs)) |} =
  without g (rs ++ [c]).
Proof.
  unfold without at 3. f_equal.
  - apply map_eq. intros i. change (filter _ _) with (nodes (without g (rs ++ [c]))).
    rewrite lookup_without. destruct (decide (i = c)) as [->|Hi].
    + rewrite lookup_delete_eq, decide_True by set_solver. done.
    + rewrite lookup_delete_ne, lookup_without by done.
      repeat case_decide; done || set_solver.
  - simpl. rewrite list_filter_filter. apply list_filter_iff. intros e. set_solver.
Qed.

Lemma prune_skip g0 cands g c pending removed :
  prune_inv g0 cands g (c :: pending) removed ->
  get_component_type g c = None \/ get_component_type g c = Some CSource \/
  get_component_type g c = Some CRelay \/ (exists e, e ∈ edges g /\ to e = c) ->
  prune_inv g0 cands g pending removed.
Proof.
  intros [Hg Hs Hp Hc Ht Hn] Hskip. split; try done; [intros; apply Hp; by right|].
  intros c' Hcand Hno Hrem Hty. specialize (Hc c' Hcand Hno Hrem Hty).
  apply elem_of_cons in Hc as [->|Hc]; [exfalso|done].
  destruct Hty as (ct & Hct & ? & ?). subst g. rewrite get_component_type_without in Hskip.
  rewrite decide_False in Hskip by done. rewrite Hct in Hskip.
  destruct Hskip as [?|[?|[?|(e & He & Hto)]]]; simplify_eq. by apply (Hno e).
Qed.

Lemma prune_remove g0 cands g c ct pending removed :
  prune_inv g0 cands g (c :: pending) removed ->
  get_component_type g c = Some ct -> ct <> CSource -> ct <> CRelay ->
  (forall e, e ∈ edges g -> to e <> c) ->
  prune_inv g0 cands
    {| nodes := delete c (nodes g); edges := filter (fun e => component_id (from e) <> c) (edges g) |}
    (rev (to <$> filter (fun e => component_id (from e) = c) (edges g)) ++ pending)
    (removed ++ [(c, ct)]).
Proof.
  intros [-> Hs Hp Hc Ht Hn] Hct H1 H2 Hno.
  rewrite get_component_type_without in Hct. destruct (decide (c ∈ removed.*1)) as [|Hnr]; [done|].
  assert (Hpr : prunable g0 cands c).
  { apply (prunable_intro _ _ _ ct); try done.
    - destruct (Hp c ltac:(left)) as [?|(e & He & Hto & Hfr)]; [by left|right; eauto].
    - intros e He Hto. apply Hs. destruct (decide (component_id (from e) ∈ removed.*1)); [done|].
      exfalso. by apply (Hno e); [apply elem_of_edges_without|]. }
  rewrite without_snoc. split; rewrite ?fmap_app; csimpl.
  - done.
  - intros x [Hx|Hx]%elem_of_app; [by apply Hs|]. by apply list_elem_of_singleton in Hx as ->.
  - intros x [Hx|Hx]%elem_of_app.
    + rewrite elem_of_rev in Hx. apply list_elem_of_fmap in Hx as (e & -> & He).
      apply list_elem_of_filter in He as [Hfr He]. apply elem_of_edges_without in He as [_ He].
      right. exists e. set_solver.
    + destruct (Hp x ltac:(by right)) as [?|(e & ? & ? & ?)]; [by left|right; exists e; set_solver].
  - intros x Hcand Hnox Hxr Hty. rewrite elem_of_app, elem_of_rev.
    apply not_elem_of_app in Hxr as [Hxr Hxc].
    destruct (decide (Exists (fun e => to e = x) (edges (without g0 removed.*1)))) as [Hex|Hex].
    { apply Exists_exists in Hex as (e & He & Hto). left. apply list_elem_of_fmap. exists e.
      split; [done|]. apply list_elem_of_filter. split; [|done].
      destruct (decide (component_id (from e) = c)); [done|]. exfalso. apply (Hnox e); [|done].
      apply elem_of_edges_without in He as [? ?]. apply elem_of_edges_without. set_solver. }
    right. assert (Hno' : forall e, e ∈ edges (without g0 removed.*1) -> to e <> x).
    { intros e He Hto. apply Hex, Exists_exists. eauto. }
    assert (Hin : x ∈ c :: pending); [|set_solver]. apply Hc; [|done..].
    destruct Hcand as [?|(e & He & Hto & Hfr)]; [by left|].
    apply elem_of_app in Hfr as [?|Hfr]; [right; eauto|]. apply list_elem_of_singleton in Hfr.
    exfalso. apply (Hno' e); [|done]. apply elem_of_edges_without. split; [congruence|done].
  - intros x xt [Hx|Hx]%elem_of_app; [by apply Ht|]. by apply list_elem_of_singleton in Hx as [= -> ->].
  - apply NoDup_app. split_and!; [done| |apply NoDup_singleton]. set_solver.
Qed.

Lemma prune_loop_spec fuel g0 cands g pending removed :
  prune_inv g0 cands g pending removed -> (length pending + length (edges g) <= fuel)%nat ->
  let '(g', removed') := prune_loop fuel g pending removed in prune_inv g0 cands g' [] removed'.
Proof.
  revert g pending removed. induction fuel as [|fuel IH]; intros g pending removed Hinv Hfuel.
  { destruct pending; simpl in *; [done|lia]. }
  destruct pending as [|c pending]; simpl in *; [done|].
  destruct (get_component_type g c) as [ct|] eqn:Ect; [|apply IH; [eapply prune_skip; eauto|lia]].
  destruct (bool_decide (ct = CSource) || bool_decide (ct = CRelay)) eqn:Esr.
  { apply IH; [eapply prune_skip; [done|]|lia]. apply orb_true_iff in Esr.
    rewrite !bool_decide_eq_true in Esr. destruct Esr; subst; auto. }
  apply orb_false_iff in Esr. rewrite !bool_decide_eq_false in Esr. destruct Esr as [E1 E2].
  destruct (existsb _ _) eqn:Ein.
  { apply IH; [eapply prune_skip; [done|]|lia]. apply existsb_exists in Ein as (e & He & Hto).
    apply bool_decide_eq_true in Hto. rewrite <- list_elem_of_In in He. do 3 right. eauto. }
  apply IH; [apply prune_remove; try done|].
  - intros e He Hto. rewrite <- not_true_iff_false in Ein. apply Ein, existsb_exists. exists e.
    rewrite <- list_elem_of_In. by rewrite bool_decide_eq_true.
  - simpl. rewrite length_app, length_rev, length_fmap.
    enough (length (filter (fun e => component_id (from e) = c) (edges g)) +
            length (filter (fun e => component_id (from e) <> c) (edges g)) = length (edges g))%nat by lia.
    clear. induction (edges g) as [|e es IH]; [done|]. rewrite !filter_cons.
    repeat case_decide; simpl; try done; lia.
Qed.

Lemma prune_spec g cands :
  let '(g', removed) := prune_components_without_inputs g cands in
  g' = without g removed.*1 /\
  (forall c, c ∈ removed.*1 <-> prunable g cands c) /\
  (forall c ct, (c, ct) ∈ removed -> get_component_type g c = Some ct) /\
  NoDup removed.*1.
Proof.
  unfold prune_components_without_inputs.
  pose proof (prune_loop_spec (length cands + length (edges g)) g cands g (rev cands) []) as Hs.
  destruct (prune_loop _ _ _ _) as [g' removed].
  destruct Hs as [Hg Hsound Hpend Hcomp Hty Hnd].
  - split; csimpl; try done.
    + unfold without. destruct g. simpl. f_equal; symmetry.
      * apply map_filter_id. intros. apply not_elem_of_nil.
      * apply list_filter_all. intros. apply not_elem_of_nil.
    + set_solver.
    + intros c. rewrite elem_of_rev. auto.
    + intros c. rewrite elem_of_rev. intros [?|(e & _ & _ & He)]; [done|]. by apply not_elem_of_nil in He.
    + set_solver.
    + constructor.
  - by rewrite length_rev.
  - split_and!; [done| |done|done]. intros c. split; [apply Hsound|].
    induction 1 as [c ct Hct H1 H2 Hcand _ IH]. destruct (decide (c ∈ removed.*1)); [done|].
    exfalso. apply (not_elem_of_nil c), Hcomp; [| |done|eauto].
    + destruct Hcand as [?|(e & He & Hto & _)]; [by left|right; eauto].
    + intros e He Hto. subst g'. apply elem_of_edges_without in He as [Hfr He]. by apply Hfr, IH.
Qed.

Lemma prune_wf g cands : wf g -> wf (prune_components_without_inputs g cands).1.
Proof.
  intros Hg. pose proof (prune_spec g cands) as Hs.
  destruct (prune_components_without_inputs g cands) as [g' removed]. destruct Hs as (-> & Hr & _).
  simpl. split.
  - intros c n. rewrite lookup_without. case_decide; [done|]. apply Hg.
  - intros e [Hfr He]%elem_of_edges_without. destruct (wf_edges g Hg e He) as [Hto (n & Hn & Ho)].
    rewrite !lookup_without, (decide_False (P := component_id (from e) ∈ _)) by done. split; [|eauto].
    rewrite decide_False; [done|]. rewrite Hr. intros Hp. apply Hfr, Hr.
    inversion Hp; subst. auto.
Qed.

(** ** The connections *)

Section connections.
Context `{HashOrder}.

(** The components an output is connected to, in the order the edges were added. *)
Definition targets (g : Graph) (es : list Edge) (c : ComponentId) (o : OutputName) : list TypedComponentId :=
  omap (fun e => if bool_decide (component_id (from e) = c) && bool_decide (output (from e) = o)
                 then (fun ct => {| id := to e; ty := ct |}) <$> get_component_type g (to e)
                 else None) es.

Definition connections (m : Mappings) (t : TypedComponentId) (o : OutputName) : option (list TypedComponentId) :=
  per_component ← m !! t; per_component !! o.

Lemma foldl_insert_outputs (per : gmap OutputName (list TypedComponentId)) os o :
  foldl (fun m o => <[o := []]> m) per os !! o = if decide (o ∈ os) then Some [] else per !! o.
Proof.
  revert per. induction os as [|x os IH]; intros per; cbn [foldl].
  { case_decide as Hin; [by apply not_elem_of_nil in Hin|done]. }
  rewrite IH. destruct (decide (x = o)) as [->|Hx].
  - rewrite lookup_insert_eq, (decide_True (P := o ∈ o :: os)) by left. by case_decide.
  - rewrite lookup_insert_ne by done. repeat case_decide; done || set_solver.
Qed.

Lemma connections_outbound_node m p ct t o :
  connections (outbound_node m p ct) t o =
  if decide (t = {| id := p.1; ty := ct |} /\ o ∈ node_outputs p.2) then Some [] else connections m t o.
Proof.
  destruct p as [c n]. unfold outbound_node, connections. simpl.
  assert (Hins : forall os, (<[{| id := c; ty := ct |} :=
      foldl (fun m o => <[o := []]> m) (default ∅ (m !! {| id := c; ty := ct |})) os]> m !! t ≫= (.!! o)) =
    if decide (t = {| id := c; ty := ct |} /\ o ∈ os) then Some [] else m !! t ≫= (.!! o)).
  { intros os. destruct (decide (t = {| id := c; ty := ct |})) as [->|Ht].
    - rewrite lookup_insert_eq. simpl. rewrite foldl_insert_outputs.
      repeat case_decide; try naive_solver.
      destruct (m !! _); simpl; [done|apply lookup_empty].
    - rewrite lookup_insert_ne by done. rewrite decide_False by naive_solver. done. }
  destruct n; cbn [node_outputs]; try apply Hins; try exact (Hins [Default]).
  all: rewrite decide_False by (intros [_ Ho]; by apply not_elem_of_nil in Ho); done.
Qed.

Lemma outbound_nodes_spec g ns m :
  (forall c n, (c, n) ∈ ns -> nodes g !! c = Some n) ->
  exists m', outbound_nodes g ns m = Some m' /\
    forall c n ct o, nodes g !! c = Some n -> get_component_type g c = Some ct ->
      connections m' {| id := c; ty := ct |} o =
      if decide (c ∈ ns.*1 /\ o ∈ node_outputs n) then Some [] else connections m {| id := c; ty := ct |} o.
Proof.
  revert m. induction ns as [|[c1 n1] ns IH]; intros m Hns.
  { exists m. split; [done|]. intros c n ct o _ _.
    rewrite decide_False by (intros [Hin _]; by apply not_elem_of_nil in Hin). done. }
  pose proof (Hns c1 n1 ltac:(left)) as Hn1. cbn [outbound_nodes fst].
  destruct (get_component_type g c1) as [ct1|] eqn:Ect;
    [|unfold get_component_type in Ect; rewrite Hn1 in Ect; by destruct n1].
  destruct (IH (outbound_node m (c1, n1) ct1)) as (m' & Hm' & Hspec); [intros; apply Hns; by right|].
  exists m'. split; [done|]. intros c n ct o Hn Hct.
  rewrite (Hspec c n ct o Hn Hct), connections_outbound_node. cbn [fst snd fmap list_fmap].
  destruct (decide (c = c1)) as [->|Hc].
  - assert (n1 = n) as -> by congruence. assert (ct1 = ct) as -> by congruence.
    destruct (decide (o ∈ node_outputs n)) as [Ho|Ho].
    + rewrite (decide_True (P := _ ∈ c1 :: _ /\ _)) by (split; [left|done]).
      destruct (decide (c1 ∈ _ /\ _)); [done|]. by rewrite decide_True.
    + by rewrite !decide_False by naive_solver.
  - rewrite (decide_False (P := _ = _ /\ _)) by (intros [[=] _]; done).
    destruct (decide (c ∈ ns.*1 /\ _)) as [[Hin Ho]|Hno].
    + rewrite decide_True; [done|]. split; [by right|done].
    + rewrite decide_False; [done|]. intros [[?|?]%elem_of_cons ?]; [done|]. by apply Hno.
Qed.

Lemma targets_cons g e es c o :
  targets g (e :: es) c o = targets g [e] c o ++ targets g es c o.
Proof. unfold targets. csimpl. by case_match. Qed.

Lemma outbound_edges_spec g es m :
  (forall e, e ∈ es -> is_Some (get_component_type g (component_id (from e))) /\
                       is_Some (get_component_type g (to e))) ->
  exists m', outbound_edges g es m = Some m' /\
    forall c ct o, get_component_type g c = Some ct ->
      connections m' {| id := c; ty := ct |} o =
      match targets g es c o with
      | [] => connections m {| id := c; ty := ct |} o
      | ts => Some (default [] (connections m {| id := c; ty := ct |} o) ++ ts)
      end.
Proof.
  revert m. induction es as [|e es IH]; intros m Hes; [by exists m|].
  destruct (Hes e ltac:(left)) as [[cf Hcf] [cto Hto]]. cbn [outbound_edges]. rewrite Hcf, Hto.
  cbn [mbind option_bind].
  set (m1 := <[_ := _]> m).
  destruct (IH m1) as (m' & Hm' & Hspec); [intros; apply Hes; by right|].
  exists m'. split; [done|]. intros c ct o Hct. rewrite (Hspec c ct o Hct), targets_cons. clear Hspec.
  assert (Hm1 : connections m1 {| id := c; ty := ct |} o =
    match targets g [e] c o with
    | [] => connections m {| id := c; ty := ct |} o
    | ts => Some (default [] (connections m {| id := c; ty := ct |} o) ++ ts)
    end).
  { unfold targets, connections, m1. csimpl. rewrite Hto. simpl.
    destruct (decide (component_id (from e) = c)) as [Hc|Hc].
    - subst c. assert (cf = ct) as -> by congruence. rewrite lookup_insert_eq. simpl.
      rewrite bool_decide_eq_true_2 by done. simpl. case_bool_decide as Ho.
      + subst o. rewrite lookup_insert_eq. by destruct (m !! _) as [per|]; simpl; [|rewrite lookup_empty].
      + rewrite lookup_insert_ne by done. by destruct (m !! _); simpl; [|rewrite lookup_empty].
    - rewrite lookup_insert_ne by congruence. by rewrite bool_decide_eq_false_2. }
  rewrite Hm1. destruct (targets g [e] c o) as [|t1 ts1]; [done|]. simpl.
  destruct (targets g es c o) as [|t2 ts2]; simpl; [by rewrite app_nil_r|].
  by rewrite <- app_assoc.
Qed.

Lemma has_output_name n o : has_output n o -> output o ∈ node_outputs n.
Proof.
  destruct n; simpl; try done.
  1, 2, 4: intros (x & -> & Hx)%list_elem_of_fmap; apply list_elem_of_fmap; by exists x.
  all: unfold is_default, output; destruct (split_once "." o) as [[]|]; [done|]; intros _; left.
Qed.

(** The components that have a place in the map: those that are in the graph and may have outputs. *)
Definition sends (g : Graph) (t : TypedComponentId) : Prop :=
  get_component_type g (id t) = Some (ty t) /\ ty t <> CDestination /\ ty t <> CForwarder.

Lemma outbound_nodes_keys g ns m m' :
  (forall c n, (c, n) ∈ ns -> nodes g !! c = Some n) -> outbound_nodes g ns m = Some m' ->
  (forall t, is_Some (m !! t) -> sends g t) -> forall t, is_Some (m' !! t) -> sends g t.
Proof.
  revert m. induction ns as [|[c n] ns IH]; intros m Hns; cbn [outbound_nodes fst]; [by intros [= ->]|].
  destruct (get_component_type g c) as [ct|] eqn:Ect; [|done]. simpl. intros Hm' Hm.
  apply (IH (outbound_node m (c, n) ct)); [intros; apply Hns; by right|done|].
  intros t. unfold outbound_node. simpl. pose proof (Hns c n ltac:(left)) as Hn.
  unfold get_component_type in Ect. rewrite Hn in Ect.
  destruct n; try (by apply Hm); injection Ect as <-; rewrite lookup_insert_is_Some'; intros [<-|?]; auto;
    unfold sends, get_component_type; simpl; by rewrite Hn.
Qed.

Lemma outbound_edges_keys g es m m' :
  (forall e, e ∈ es -> exists n, nodes g !! component_id (from e) = Some n /\ has_output n (from e)) ->
  outbound_edges g es m = Some m' ->
  (forall t, is_Some (m !! t) -> sends g t) -> forall t, is_Some (m' !! t) -> sends g t.
Proof.
  revert m. induction es as [|e es IH]; intros m Hes; cbn [outbound_edges]; [by intros [= ->]|].
  destruct (get_component_type g (component_id (from e))) as [cf|] eqn:Ecf; [|done]. simpl.
  destruct (get_component_type g (to e)) as [cto|]; [|done]. simpl. intros Hm' Hm.
  apply (IH _ ltac:(intros; apply Hes; by right) Hm'). intros t. rewrite lookup_insert_is_Some'.
  intros [<-|?]; [|by apply Hm]. destruct (Hes e ltac:(left)) as (n & Hn & Ho).
  split; [done|]. simpl. unfold get_component_type in Ecf. rewrite Hn in Ecf. destruct n; by injection Ecf as <-.
Qed.

(** The connection map of a well-formed graph. *)
Lemma outbound_spec g : wf g ->
  exists m, get_outbound_directed_edges g = Some m /\ (forall t, is_Some (m !! t) -> sends g t) /\
    forall c n ct o, nodes g !! c = Some n -> get_component_type g c = Some ct ->
      connections m {| id := c; ty := ct |} o =
      if decide (o ∈ node_outputs n) then Some (targets g (edges g) c o) else None.
Proof.
  intros Hg.
  set (ns := hash_order (map_to_list (nodes g))).
  assert (Hns : ns ≡ₚ map_to_list (nodes g)) by apply hash_order_perm.
  destruct (outbound_nodes_spec g ns ∅) as (m1 & Hm1 & Hspec1).
  { intros c n Hin. rewrite Hns in Hin. by apply elem_of_map_to_list in Hin. }
  destruct (outbound_edges_spec g (edges g) m1) as (m & Hm & Hspec).
  { intros e He. destruct (wf_edges g Hg e He) as [[t Ht] (n & Hn & _)].
    unfold get_component_type. rewrite Hn, Ht. split; [by destruct n|by destruct t]. }
  exists m. split; [by unfold get_outbound_directed_edges; fold ns; rewrite Hm1|]. split.
  { apply (outbound_edges_keys g (edges g) m1 m); [intros e He; by apply wf_edges in He as [_ ?]|done|].
    apply (outbound_nodes_keys g ns ∅ m1); [|done|intros t; rewrite lookup_empty; by intros []].
    intros c n Hin. rewrite Hns in Hin. by apply elem_of_map_to_list in Hin. }
  intros c n ct o Hn Hct. rewrite (Hspec c ct o Hct), (Hspec1 c n ct o Hn Hct).
  assert (Hin : c ∈ ns.*1).
  { rewrite Hns. apply list_elem_of_fmap. exists (c, n). by rewrite elem_of_map_to_list. }
  destruct (decide (o ∈ node_outputs n)) as [Ho|Ho].
  - rewrite decide_True by done. by destruct (targets g (edges g) c o).
  - rewrite decide_False by naive_solver.
    destruct (targets g (edges g) c o) as [|t ts] eqn:Et; [done|]. exfalso. apply Ho.
    assert (Ht : t ∈ targets g (edges g) c o) by (rewrite Et; left).
    unfold targets in Ht. apply list_elem_of_omap in Ht as (e & He & Het).
    destruct (bool_decide _ && bool_decide _) eqn:Eb; [|done].
    apply andb_true_iff in Eb as [Ec Eo]. apply bool_decide_eq_true in Ec, Eo. subst c o.
    destruct (wf_edges g Hg e He) as [_ (n' & Hn' & Hout)]. assert (n' = n) as -> by congruence.
    by apply has_output_name.
Qed.
End connections.

(** ** Theorems *)

(** The operations on a graph, in any order. *)
Inductive GraphOp :=
| AddSource (c : string) (outputs : list (OutputDefinition EventType))
| AddRelay (c : string) (outputs : list (OutputDefinition PayloadType))
| AddDecoder (c : string) (i : PayloadType) (o : EventType)
| AddTransform (c : string) (i : EventType) (outputs : list (OutputDefinition EventType))
| AddEncoder (c : string) (i : EventType) (o : PayloadType)
| AddForwarder (c : string) (i : PayloadType)
| AddDestination (c : string) (i : EventType)
| AddEdge (f t : string)
| RemoveEdge (f t : string)
| Prune (candidates : list string).

Definition apply_op (g : Graph) (op : GraphOp) : Graph :=
  match op with
  | AddSource c outs => (add_source g c outs).1
  | AddRelay c outs => (add_relay g c outs).1
  | AddDecoder c i o => (add_decoder g c i o).1
  | AddTransform c i outs => (add_transform g c i outs).1
  | AddEncoder c i o => (add_encoder g c i o).1
  | AddForwarder c i => (add_forwarder g c i).1
  | AddDestination c i => (add_destination g c i).1
  | AddEdge f t => (add_edge g f t).1
  | RemoveEdge f t => remove_edge g f t
  | Prune candidates => (prune_components_without_inputs g candidates).1
  end.

Definition build (ops : list GraphOp) : Graph := foldl apply_op Graph_default ops.

Lemma apply_op_wf g op : wf g -> wf (apply_op g op).
Proof.
  intros Hg. destruct op; simpl.
  8: by apply add_edge_wf. 8: by apply remove_edge_wf. 8: by apply prune_wf.
  all: apply add_node_wf; [|done]; intros c' n' Hc'.
  1, 2, 4: destruct (construct_typed_output_ids _ c' outputs) as [l|] eqn:E; simpl; [|done];
    intros [= <-]; by apply construct_typed_output_ids_spec in E as [? _].
  all: intros [= <-] x Hx; by apply not_elem_of_nil in Hx.
Qed.

Lemma build_wf ops : wf (build ops).
Proof.
  unfold build.
  assert (Hall : forall g, wf g -> wf (foldl apply_op g ops)).
  { induction ops as [|op ops IH]; intros g Hg; simpl; [done|]. apply IH. by apply apply_op_wf. }
  apply Hall. split; simpl; [done|]. intros e He. by apply not_elem_of_nil in He.
Qed.

Lemma wf_output_type g e : wf g -> e ∈ edges g -> is_Some (get_output_type g (from e)).
Proof.
  intros Hg He. destruct (wf_edges g Hg e He) as [_ (n & Hn & Ho)].
  unfold get_output_type. rewrite Hn. destruct n; simpl in Ho; try done.
  all: try (rewrite Ho; by eexists).
  all: apply list_elem_of_fmap in Ho as (x & Hx & Hin); apply fmap_is_Some;
    match goal with |- is_Some (find ?p ?l) => destruct (find p l) eqn:Ef; [by eexists|] end;
    exfalso; apply list_elem_of_In in Hin; apply (find_none _ _ Ef) in Hin;
    rewrite Hx, bool_decide_eq_false in Hin; done.
Qed.

(** An edge into a component that takes no input. *)
Definition into_source (g : Graph) (e : Edge) : Prop :=
  get_component_type g (to e) = Some CSource \/ get_component_type g (to e) = Some CRelay.

Lemma wf_input_type g e : wf g -> e ∈ edges g -> ~ into_source g e -> is_Some (get_input_type g (to e)).
Proof.
  intros Hg He Hns. destruct (wf_edges g Hg e He) as [[n Hn] _].
  unfold into_source, get_component_type in Hns. unfold get_input_type. rewrite Hn in *.
  destruct n; eauto; exfalso; auto.
Qed.

(** Whatever sequence of operations builds a graph - additions that are accepted or rejected,
    removals, prunings - its identifiers are valid, its components' outputs belong to them, and
    every edge joins an existing component to an existing output, so that looking up the data
    type an edge carries never panics. *)
Theorem graph_stays_well_formed (ops : list GraphOp) :
  wf (build ops) /\
  forall e, e ∈ edges (build ops) -> is_Some (get_output_type (build ops) (from e)).
Proof. split; [apply build_wf|]. intros e. apply wf_output_type, build_wf. Qed.

(** C19: The cycle check always ends, accepts exactly when no component upstream of a destination
    lies on a cycle, and otherwise reports a walk along the edges that starts on a cycle and is
    upstream of a destination. *)
Theorem cycle_check_correct `{HashOrder} (g : Graph) :
  match check_for_cycles g with
  | None => False
  | Some (Ok _) => no_cycle_upstream g
  | Some (Err e) => ~ no_cycle_upstream g /\
      exists d ty y rest, nodes g !! d = Some (Destination ty) /\ e = Cycle (y :: rest) /\
        walk (edges g) (y :: rest) /\ on_cycle (edges g) y /\ rtc (feeds (edges g)) y d
  end.
Proof.
  pose proof (check_for_cycles_spec g) as Hs. destruct (check_for_cycles g) as [[[]|e]|]; [done| |done].
  destruct Hs as (d & ty & Hd & y & rest & -> & Hw & Hc & Hr). split; [|by exists d, ty, y, rest].
  intros Hno. by apply (Hno d ty y).
Qed.

Lemma validate_spec `{Bitmask} `{HashOrder} g : wf g -> (forall e, e ∈ edges g -> ~ into_source g e) ->
  exists r, validate g = Some r /\
    (r = Ok tt <->
     (forall e, e ∈ edges g -> edge_typed g e) /\ no_cycle_upstream g /\ all_connected g).
Proof.
  intros Hg Hns.
  destruct (check_edge_types_spec g (edges g)) as (r1 & Hr1 & Hiff1).
  { intros e He. split; [by apply wf_output_type|by apply wf_input_type; auto]. }
  pose proof (check_for_cycles_spec g) as H2. pose proof (check_for_disconnected_spec g) as H3.
  unfold validate, check_event_types. rewrite Hr1. simpl. destruct r1 as [[]|e1].
  2:{ eexists. split; [done|]. split; [done|]. intros [Hty _]. apply Hiff1 in Hty. done. }
  destruct (check_for_cycles g) as [[[]|e2]|]; [|clear H3|done]; simpl.
  - exists (check_for_disconnected g). split; [done|].
    destruct (check_for_disconnected g) as [[]|e3]; [by split; [intros; split_and!; [apply Hiff1|..]|]|].
    destruct H3 as (l & -> & Hl & Hin & _). split; [done|]. intros (_ & _ & Hall).
    destruct l as [|c l]; [done|]. destruct (proj1 (Hin c) ltac:(left)) as [Hc Hno]. by apply Hall in Hc.
  - eexists. split; [done|]. split; [done|]. intros (_ & Hno & _).
    destruct H2 as (d & ty & Hd & y & rest & _ & _ & Hc & Hr). by apply (Hno d ty y) in Hc.
Qed.

(** Validation of a graph without connections into sources and relays neither panics nor runs
    forever, and it accepts exactly the graphs whose edges all agree on a data type, in which no
    cycle feeds a destination, and in which every component is connected. *)
Theorem validate_decides `{Bitmask} `{HashOrder} (ops : list GraphOp) :
  let g := build ops in
  (forall e, e ∈ edges g -> ~ into_source g e) ->
  exists r, validate g = Some r /\
    (r = Ok tt <->
     (forall e, e ∈ edges g -> edge_typed g e) /\ no_cycle_upstream g /\ all_connected g).
Proof. intros g. apply validate_spec, build_wf. Qed.

(** A disconnected-components error lists exactly the components that are no end of any edge,
    each once and in order. *)
Theorem disconnected_reported `{HashOrder} (g : Graph) (l : list ComponentId) :
  check_for_disconnected g = Err (DisconnectedComponents l) ->
  l <> [] /\ NoDup l /\ StronglySorted (fun x y => String.leb x y = true) l /\
  forall c, c ∈ l <-> is_Some (nodes g !! c) /\ ~ touches g c.
Proof.
  intros E. pose proof (check_for_disconnected_spec g) as Hs. rewrite E in Hs.
  destruct Hs as (l' & [= <-] & ? & ? & ? & ?). by split_and!.
Qed.

(** Pruning removes exactly the components it is meant to: those that are not sources or
    relays, are candidates or fed by a removed component, and whose inputs are all removed; they
    are reported once each, with their types, and only their outbound edges go with them. *)
Theorem prune_removes_exactly (g : Graph) (candidates : list ComponentId) :
  let '(g', removed) := prune_components_without_inputs g candidates in
  (forall c, c ∈ removed.*1 <-> prunable g candidates c) /\
  (forall c ct, (c, ct) ∈ removed -> get_component_type g c = Some ct) /\ NoDup removed.*1 /\
  (forall c, nodes g' !! c = if decide (c ∈ removed.*1) then None else nodes g !! c) /\
  edges g' = filter (fun e => component_id (from e) ∉ removed.*1) (edges g).
Proof.
  pose proof (prune_spec g candidates) as Hs.
  destruct (prune_components_without_inputs g candidates) as [g' removed].
  destruct Hs as (-> & Hr & Hty & Hnd). split_and!; try done. intros c. apply lookup_without.
Qed.

(** The connection map of a graph has, for every output of every component, the components it
    is connected to in the order the connections were made, an empty list for an output without
    connections, and nothing else. *)
Theorem outbound_connections `{HashOrder} (ops : list GraphOp) :
  let g := build ops in
  exists m, get_outbound_directed_edges g = Some m /\
    forall c n ct o, nodes g !! c = Some n -> get_component_type g c = Some ct ->
      connections m {| id := c; ty := ct |} o =
      if decide (o ∈ node_outputs n) then Some (targets g (edges g) c o) else None.
Proof.
  intros g. destruct (outbound_spec g (build_wf ops)) as (m & Hm & _ & Hspec). by exists m.
Qed.

(** ** Examples *)

#[local] Instance land_bitmask : Bitmask :=
  {| mask_is_none := fun a => a =? 0; mask_intersects := fun a b => negb (Z.land a b =? 0) |}.

#[local] Instance list_hash_order : HashOrder.
Proof. refine {| hash_order := fun _ l => l |}. done. Defined.

(** A metrics pipeline: a source feeds a transform, which feeds a destination and an encoder with
    its forwarder. *)
Definition pipeline : list GraphOp :=
  [AddSource "in" [named_output "metrics" 1]; AddTransform "agg" 1 [default_output 1];
   AddEncoder "enc" 1 2; AddForwarder "fwd" 2; AddDestination "debug" 1;
   AddEdge "in.metrics" "agg"; AddEdge "agg" "enc"; AddEdge "enc" "fwd"; AddEdge "agg" "debug"].

Lemma validate_decides_witness :
  exists r, validate (build pipeline) = Some r /\
    (r = Ok tt <->
     (forall e, e ∈ edges (build pipeline) -> edge_typed (build pipeline) e) /\
     no_cycle_upstream (build pipeline) /\ all_connected (build pipeline)).
Proof.
  apply (validate_decides pipeline).
  intros e He.
  assert (Hl : edges (build pipeline) = [{| from := "in.metrics"; to := "agg" |};
    {| from := "agg"; to := "enc" |}; {| from := "enc"; to := "fwd" |}; {| from := "agg"; to := "debug" |}])
    by (vm_compute; reflexivity).
  rewrite Hl in He. revert e He. apply Forall_forall.
  repeat apply Forall_cons_2; [..|apply Forall_nil_2].
  all: intros [Hc|Hc].
  all: vm_compute in Hc.
  all: discriminate Hc.
Defined.

Example pipeline_valid : validate (build pipeline) = Some (Ok tt).
Proof. vm_compute. done. Qed.

Lemma cycle_check_correct_witness :
  let ops := pipeline ++ [AddEdge "agg" "agg"] in
  check_for_cycles (build ops) = Some (Err (Cycle ["agg"; "agg"])) /\ ~ no_cycle_upstream (build ops).
Proof.
  pose proof (cycle_check_correct (build (pipeline ++ [AddEdge "agg" "agg"]))) as H.
  vm_compute (check_for_cycles _) in H. split; [vm_compute; reflexivity|]. exact (proj1 H).
Defined.

Lemma disconnected_reported_witness :
  let g := build (pipeline ++ [AddDestination "b" 1; AddRelay "a" []]) in
  check_for_disconnected g = Err (DisconnectedComponents ["a"; "b"]) /\ ~ touches g "a".
Proof.
  intros g.
  assert (E : check_for_disconnected g = Err (DisconnectedComponents ["a"; "b"]))
    by (vm_compute; reflexivity).
  destruct (disconnected_reported g ["a"; "b"] E) as (_ & _ & _ & H).
  split; [exact E|]. apply (H "a"). left.
Defined.

Lemma outbound_connections_witness :
  exists m, get_outbound_directed_edges (build pipeline) = Some m /\
    connections m {| id := "agg"; ty := CTransform |} Default =
    Some [{| id := "enc"; ty := CEncoder |}; {| id := "debug"; ty := CDestination |}].
Proof.
  destruct (outbound_connections pipeline) as (m & Hm & H). exists m. split; [exact Hm|].
  rewrite (H "agg" (Transform 1 [{| component_output := "agg"; output_ty := Event 1 |}]) CTransform Default);
    vm_compute; reflexivity.
Defined.

(** A cycle that feeds a forwarder but no destination passes validation: the search only starts at
    destinations. *)
Definition forwarder_cycle : list GraphOp :=
  [AddSource "in" [default_output 1]; AddTransform "t1" 1 [default_output 1];
   AddTransform "t2" 1 [default_output 1]; AddEncoder "enc" 1 2; AddForwarder "fwd" 2;
   AddEdge "in" "t1"; AddEdge "t1" "t2"; AddEdge "t2" "t1"; AddEdge "t2" "enc"; AddEdge "enc" "fwd"].

Example forwarder_cycle_accepted :
  validate (build forwarder_cycle) = Some (Ok tt) /\ on_cycle (edges (build forwarder_cycle)) "t1".
Proof.
  split; [vm_compute; reflexivity|].
  eapply (tc_l _ _ "t2"); [|apply tc_once].
  - exists {| from := "t1"; to := "t2" |}. split; [|done]. vm_compute. do 2 constructor.
  - exists {| from := "t2"; to := "t1" |}. split; [|done]. vm_compute. do 3 constructor.
Qed.

(** An edge into a source is accepted when it is added, and validation panics on it. *)
Example validate_panics_on_source_input :
  let g := build (pipeline ++ [AddEdge "agg" "in"]) in
  (add_edge (build pipeline) "agg" "in").2 = Ok tt /\ validate g = None.
Proof. vm_compute. done. Qed.
