(* ===== verification/SketchStore.v ===== *)
(** * SketchStore: the bin stores of the canonical DDSketch

    Models [lib/ddsketch/src/canonical/store]: the dense store ([dense.rs]), the sparse store
    ([sparse.rs]) and the two dense stores with a bounded number of bins, which fold the lowest or
    the highest indices together ([collapsing_lowest.rs], [collapsing_highest.rs]).  A panic (an
    index past the end of a vector) is [None].  Indices are [i32] and counts [u64], both wrapping
    around as the shipped build does.  The conversions from and to protobuf are in [CanonicalProto]. *)

From Stdlib Require Import ZArith Lia Sorted.
From stdpp Require Import base tactics list numbers option gmap.
From S2P Require Import Prelude.
Open Scope Z_scope.

(** ** [i32] and [usize] *)

Definition i32_wrap (z : Z) : Z := (z + 2 ^ 31) mod 2 ^ 32 - 2 ^ 31.
Definition i32_add (a b : Z) : Z := i32_wrap (a + b).
Definition i32_sub (a b : Z) : Z := i32_wrap (a - b).

(** [as usize] sign-extends, [as i32] truncates. *)
Definition usize_of_i32 (z : Z) : nat := Z.to_nat (z mod 2 ^ 64).
Definition i32_of_usize (n : nat) : Z := i32_wrap (Z.of_nat n).

(** ** Vectors *)

(** [Vec::resize(n, 0)] *)
Definition resize (n : nat) (l : list Z) : list Z := take n l ++ replicate (n - length l) 0.

(** A vector of zeros of length [n + l.len()] with [l] copied to its end *)
Definition prepend_zeros (n : nat) (l : list Z) : list Z := replicate n 0 ++ l.

(** [l[i] = l[i].saturating_add(count)] *)
Definition add_at (i : nat) (count : Z) (l : list Z) : option (list Z) :=
  v ← l !! i; Some (<[i := u64_saturating_add v count]> l).

(** [Iterator::sum::<u64>] *)
Definition sum_u64 (l : list Z) : Z := fold_left u64_add l 0.

(** ** The interface *)

Class Store (S : Type) := {
  add : Z -> Z -> S -> option S;
  total_count : S -> Z;
  min_index : S -> option Z;
  max_index : S -> option Z;
  key_at_rank : Z -> S -> option Z;
  merge : S -> S -> option S;
  is_empty : S -> bool;
  clear : S -> S;
}.

(** ** Queries on contiguous bins, which the three dense stores share *)

Fixpoint first_nonzero (offset : Z) (i : nat) (bins : list Z) : option Z :=
  match bins with
  | [] => None
  | count :: bins' =>
      if 0 <? count then Some (i32_add offset (i32_of_usize i)) else first_nonzero offset (S i) bins'
  end.

Fixpoint last_nonzero (offset : Z) (i : nat) (bins : list Z) : option Z :=
  match bins with
  | [] => None
  | count :: bins' =>
      match last_nonzero offset (S i) bins' with
      | Some k => Some k
      | None => if 0 <? count then Some (i32_add offset (i32_of_usize i)) else None
      end
  end.

Fixpoint rank_walk (offset : Z) (i : nat) (rank cumulative : Z) (bins : list Z) : option Z :=
  match bins with
  | [] => None
  | count :: bins' =>
      let cumulative := u64_add cumulative count in
      if rank <? cumulative then Some (i32_add offset (i32_of_usize i))
      else rank_walk offset (S i) rank cumulative bins'
  end.

Definition bins_key_at_rank (bins : list Z) (offset total rank : Z) : option Z :=
  if total <=? rank then None else rank_walk offset 0 rank 0 bins.

(** ** [DenseStore] *)

Record DenseStore := { d_bins : list Z; d_offset : Z; d_count : Z }.

Definition DenseStore_new : DenseStore := {| d_bins := []; d_offset := 0; d_count := 0 |}.

Definition DenseStore_grow (index : Z) (s : DenseStore) : DenseStore :=
  match d_bins s with
  | [] => {| d_bins := [0]; d_offset := index; d_count := d_count s |}
  | _ =>
      if index <? d_offset s then
        let num_prepend := usize_of_i32 (i32_sub (d_offset s) index) in
        {| d_bins := prepend_zeros num_prepend (d_bins s); d_offset := index; d_count := d_count s |}
      else if i32_add (d_offset s) (i32_of_usize (length (d_bins s))) <=? index then
        let new_len := usize_of_i32 (i32_add (i32_sub index (d_offset s)) 1) in
        {| d_bins := resize new_len (d_bins s); d_offset := d_offset s; d_count := d_count s |}
      else s
  end.

Definition DenseStore_bin_index (index : Z) (s : DenseStore) : nat :=
  usize_of_i32 (i32_sub index (d_offset s)).

Definition DenseStore_add (index count : Z) (s : DenseStore) : option DenseStore :=
  if count =? 0 then Some s
  else
    let s := DenseStore_grow index s in
    bins ← add_at (DenseStore_bin_index index s) count (d_bins s);
    Some {| d_bins := bins; d_offset := d_offset s; d_count := u64_saturating_add (d_count s) count |}.

Definition DenseStore_min_index (s : DenseStore) : option Z := first_nonzero (d_offset s) 0 (d_bins s).
Definition DenseStore_max_index (s : DenseStore) : option Z := last_nonzero (d_offset s) 0 (d_bins s).
Definition DenseStore_key_at_rank (rank : Z) (s : DenseStore) : option Z :=
  bins_key_at_rank (d_bins s) (d_offset s) (d_count s) rank.

(** The loop of [merge] over the other store's bins. *)
Fixpoint DenseStore_merge_bins (other_offset : Z) (i : nat) (other : list Z) (s : DenseStore) : option DenseStore :=
  match other with
  | [] => Some s
  | count :: other' =>
      s ← (if 0 <? count then
             let index := i32_add other_offset (i32_of_usize i) in
             bins ← add_at (DenseStore_bin_index index s) count (d_bins s);
             Some {| d_bins := bins; d_offset := d_offset s; d_count := d_count s |}
           else Some s);
      DenseStore_merge_bins other_offset (S i) other' s
  end.

Definition DenseStore_merge (s other : DenseStore) : option DenseStore :=
  match d_bins other with
  | [] => Some s
  | _ =>
      s ← match DenseStore_min_index other, DenseStore_max_index other with
          | Some other_min, Some other_max =>
              DenseStore_merge_bins (d_offset other) 0 (d_bins other)
                (DenseStore_grow other_max (DenseStore_grow other_min s))
          | _, _ => Some s
          end;
      Some {| d_bins := d_bins s; d_offset := d_offset s;
              d_count := u64_saturating_add (d_count s) (d_count other) |}
  end.

#[export] Instance DenseStore_Store : Store DenseStore := {|
  add := DenseStore_add;
  total_count := d_count;
  min_index := DenseStore_min_index;
  max_index := DenseStore_max_index;
  key_at_rank := DenseStore_key_at_rank;
  merge := DenseStore_merge;
  is_empty := fun s => d_count s =? 0;
  clear := fun _ => DenseStore_new;
|}.

(** ** [SparseStore] *)

Record SparseStore := { s_bins : gmap Z Z; s_count : Z }.

Definition SparseStore_new : SparseStore := {| s_bins := ∅; s_count := 0 |}.

(** A [BTreeMap] is iterated in key order. *)
Definition by_index (x y : Z * Z) : bool := x.1 <=? y.1.
Definition btree_iter (m : gmap Z Z) : list (Z * Z) := stable_sort by_index (map_to_list m).

(** [*bins.entry(index).or_insert(0) += count] *)
Definition entry_add (index count : Z) (m : gmap Z Z) : gmap Z Z :=
  <[index := u64_add (default 0 (m !! index)) count]> m.

Definition SparseStore_add (index count : Z) (s : SparseStore) : SparseStore :=
  if count =? 0 then s
  else {| s_bins := entry_add index count (s_bins s); s_count := u64_saturating_add (s_count s) count |}.

Definition nonzero_bin (x : Z * Z) : bool := 0 <? x.2.

Definition SparseStore_min_index (s : SparseStore) : option Z :=
  fst <$> find nonzero_bin (btree_iter (s_bins s)).
Definition SparseStore_max_index (s : SparseStore) : option Z :=
  fst <$> find nonzero_bin (rev (btree_iter (s_bins s))).

Fixpoint sparse_rank_walk (rank cumulative : Z) (l : list (Z * Z)) : option Z :=
  match l with
  | [] => None
  | (index, count) :: l' =>
      let cumulative := u64_add cumulative count in
      if rank <? cumulative then Some index else sparse_rank_walk rank cumulative l'
  end.

Definition SparseStore_key_at_rank (rank : Z) (s : SparseStore) : option Z :=
  if s_count s <=? rank then None else sparse_rank_walk rank 0 (btree_iter (s_bins s)).

Definition SparseStore_merge (s other : SparseStore) : SparseStore :=
  {| s_bins := fold_left (fun m '(index, count) => if 0 <? count then entry_add index count m else m)
                 (btree_iter (s_bins other)) (s_bins s);
     s_count := u64_saturating_add (s_count s) (s_count other) |}.

#[export] Instance SparseStore_Store : Store SparseStore := {|
  add := fun i c s => Some (SparseStore_add i c s);
  total_count := s_count;
  min_index := SparseStore_min_index;
  max_index := SparseStore_max_index;
  key_at_rank := SparseStore_key_at_rank;
  merge := fun s o => Some (SparseStore_merge s o);
  is_empty := fun s => s_count s =? 0;
  clear := fun _ => SparseStore_new;
|}.

(** ** [CollapsingLowestDenseStore] *)

Record CollapsingLowestDenseStore := {
  l_bins : list Z;
  l_offset : Z;
  l_max_num_bins : nat;
  l_count : Z;
  l_is_collapsed : bool;
}.

(** [None] when the assertion on the number of bins fails *)
Definition LowestStore_new (max_num_bins : nat) : option CollapsingLowestDenseStore :=
  if (1 <=? max_num_bins)%nat
  then Some {| l_bins := []; l_offset := 0; l_max_num_bins := max_num_bins; l_count := 0;
               l_is_collapsed := false |}
  else None.

Definition l_with (bins : list Z) (offset : Z) (collapsed : bool) (s : CollapsingLowestDenseStore) :
    CollapsingLowestDenseStore :=
  {| l_bins := bins; l_offset := offset; l_max_num_bins := l_max_num_bins s; l_count := l_count s;
     l_is_collapsed := collapsed |}.

Definition collapse_below (new_offset : Z) (s : CollapsingLowestDenseStore) :
    option CollapsingLowestDenseStore :=
  match l_bins s with
  | [] => Some s
  | _ =>
      let n := usize_of_i32 (i32_sub new_offset (l_offset s)) in
      if (length (l_bins s) <=? n)%nat then Some (l_with [sum_u64 (l_bins s)] new_offset true s)
      else
        bins ← add_at n (sum_u64 (take n (l_bins s))) (l_bins s);
        Some (l_with (drop n bins) new_offset true s)
  end.

Definition LowestStore_grow (index : Z) (s : CollapsingLowestDenseStore) :
    option CollapsingLowestDenseStore :=
  let len := length (l_bins s) in
  match l_bins s with
  | [] => Some (l_with [0] index (l_is_collapsed s) s)
  | _ =>
      if index <? l_offset s then
        let num_prepend := usize_of_i32 (i32_sub (l_offset s) index) in
        if (l_max_num_bins s <? len + num_prepend)%nat then
          let widen_by := (l_max_num_bins s - len)%nat in
          Some (if (0 <? widen_by)%nat
                then l_with (prepend_zeros widen_by (l_bins s))
                       (i32_sub (l_offset s) (i32_of_usize widen_by)) true s
                else l_with (l_bins s) (l_offset s) true s)
        else Some (l_with (prepend_zeros num_prepend (l_bins s)) index (l_is_collapsed s) s)
      else if i32_add (l_offset s) (i32_of_usize len) <=? index then
        let new_len := usize_of_i32 (i32_add (i32_sub index (l_offset s)) 1) in
        s ← (if (l_max_num_bins s <? new_len)%nat
             then collapse_below (i32_add (i32_sub index (i32_of_usize (l_max_num_bins s))) 1) s
             else Some s);
        let target_len := Nat.min (usize_of_i32 (i32_add (i32_sub index (l_offset s)) 1)) (l_max_num_bins s) in
        Some (if (length (l_bins s) <? target_len)%nat
              then l_with (resize target_len (l_bins s)) (l_offset s) (l_is_collapsed s) s
              else s)
      else Some s
  end.

Definition LowestStore_bin_index (index : Z) (s : CollapsingLowestDenseStore) : nat :=
  if index <? l_offset s then 0%nat
  else Nat.min (usize_of_i32 (i32_sub index (l_offset s))) (length (l_bins s) - 1).

Definition LowestStore_add (index count : Z) (s : CollapsingLowestDenseStore) :
    option CollapsingLowestDenseStore :=
  if count =? 0 then Some s
  else
    s ← LowestStore_grow index s;
    bins ← add_at (LowestStore_bin_index index s) count (l_bins s);
    Some {| l_bins := bins; l_offset := l_offset s; l_max_num_bins := l_max_num_bins s;
            l_count := u64_saturating_add (l_count s) count; l_is_collapsed := l_is_collapsed s |}.

Definition LowestStore_min_index (s : CollapsingLowestDenseStore) : option Z :=
  first_nonzero (l_offset s) 0 (l_bins s).
Definition LowestStore_max_index (s : CollapsingLowestDenseStore) : option Z :=
  last_nonzero (l_offset s) 0 (l_bins s).
Definition LowestStore_key_at_rank (rank : Z) (s : CollapsingLowestDenseStore) : option Z :=
  bins_key_at_rank (l_bins s) (l_offset s) (l_count s) rank.

Fixpoint LowestStore_merge_bins (other_offset : Z) (i : nat) (other : list Z)
    (s : CollapsingLowestDenseStore) : option CollapsingLowestDenseStore :=
  match other with
  | [] => Some s
  | count :: other' =>
      s ← (if 0 <? count then LowestStore_add (i32_add other_offset (i32_of_usize i)) count s else Some s);
      LowestStore_merge_bins other_offset (S i) other' s
  end.

Definition LowestStore_merge (s other : CollapsingLowestDenseStore) : option CollapsingLowestDenseStore :=
  match l_bins other with
  | [] => Some s
  | _ =>
      let s := if l_is_collapsed other then l_with (l_bins s) (l_offset s) true s else s in
      LowestStore_merge_bins (l_offset other) 0 (l_bins other) s
  end.

Definition LowestStore_clear (s : CollapsingLowestDenseStore) : CollapsingLowestDenseStore :=
  {| l_bins := []; l_offset := 0; l_max_num_bins := l_max_num_bins s; l_count := 0; l_is_collapsed := false |}.

#[export] Instance LowestStore_Store : Store CollapsingLowestDenseStore := {|
  add := LowestStore_add;
  total_count := l_count;
  min_index := LowestStore_min_index;
  max_index := LowestStore_max_index;
  key_at_rank := LowestStore_key_at_rank;
  merge := LowestStore_merge;
  is_empty := fun s => l_count s =? 0;
  clear := LowestStore_clear;
|}.

(** ** [CollapsingHighestDenseStore] *)

Record CollapsingHighestDenseStore := {
  h_bins : list Z;
  h_offset : Z;
  h_max_num_bins : nat;
  h_count : Z;
  h_is_collapsed : bool;
}.

Definition HighestStore_new (max_num_bins : nat) : option CollapsingHighestDenseStore :=
  if (1 <=? max_num_bins)%nat
  then Some {| h_bins := []; h_offset := 0; h_max_num_bins := max_num_bins; h_count := 0;
               h_is_collapsed := false |}
  else None.

Definition h_with (bins : list Z) (offset : Z) (collapsed : bool) (s : CollapsingHighestDenseStore) :
    CollapsingHighestDenseStore :=
  {| h_bins := bins; h_offset := offset; h_max_num_bins := h_max_num_bins s; h_count := h_count s;
     h_is_collapsed := collapsed |}.

(** [keep] is computed in [i64], which holds the difference of two [i32]. *)
Definition collapse_above (new_ceiling : Z) (s : CollapsingHighestDenseStore) :
    option CollapsingHighestDenseStore :=
  match h_bins s with
  | [] => Some s
  | _ =>
      let keep := Z.to_nat (Z.max (new_ceiling - h_offset s + 1) 0) in
      if (keep =? 0)%nat then Some (h_with [sum_u64 (h_bins s)] new_ceiling true s)
      else if (keep <? length (h_bins s))%nat then
        bins ← add_at (keep - 1) (sum_u64 (drop keep (h_bins s))) (h_bins s);
        Some (h_with (take keep bins) (h_offset s) true s)
      else Some (h_with (h_bins s) (h_offset s) true s)
  end.

Definition HighestStore_grow (index : Z) (s : CollapsingHighestDenseStore) :
    option CollapsingHighestDenseStore :=
  let len := length (h_bins s) in
  match h_bins s with
  | [] => Some (h_with [0] index (h_is_collapsed s) s)
  | _ =>
      if i32_add (h_offset s) (i32_of_usize len) <=? index then
        let new_len := usize_of_i32 (i32_add (i32_sub index (h_offset s)) 1) in
        if (h_max_num_bins s <? new_len)%nat then
          Some (h_with (if (len <? h_max_num_bins s)%nat then resize (h_max_num_bins s) (h_bins s) else h_bins s)
                  (h_offset s) true s)
        else Some (h_with (resize new_len (h_bins s)) (h_offset s) (h_is_collapsed s) s)
      else if index <? h_offset s then
        let new_len := (len + usize_of_i32 (i32_sub (h_offset s) index))%nat in
        s ← (if (h_max_num_bins s <? new_len)%nat
             then collapse_above (i32_sub (i32_add index (i32_of_usize (h_max_num_bins s))) 1) s
             else Some s);
        let num_prepend := usize_of_i32 (i32_sub (h_offset s) index) in
        Some (if (0 <? num_prepend)%nat
              then h_with (prepend_zeros num_prepend (h_bins s)) index (h_is_collapsed s) s
              else s)
      else Some s
  end.

Definition HighestStore_bin_index (index : Z) (s : CollapsingHighestDenseStore) : nat :=
  let len := length (h_bins s) in
  if i32_add (h_offset s) (i32_of_usize len) <=? index then (len - 1)%nat
  else usize_of_i32 (i32_sub (Z.max index (h_offset s)) (h_offset s)).

Definition HighestStore_add (index count : Z) (s : CollapsingHighestDenseStore) :
    option CollapsingHighestDenseStore :=
  if count =? 0 then Some s
  else
    s ← HighestStore_grow index s;
    bins ← add_at (HighestStore_bin_index index s) count (h_bins s);
    Some {| h_bins := bins; h_offset := h_offset s; h_max_num_bins := h_max_num_bins s;
            h_count := u64_saturating_add (h_count s) count; h_is_collapsed := h_is_collapsed s |}.

Definition HighestStore_min_index (s : CollapsingHighestDenseStore) : option Z :=
  first_nonzero (h_offset s) 0 (h_bins s).
Definition HighestStore_max_index (s : CollapsingHighestDenseStore) : option Z :=
  last_nonzero (h_offset s) 0 (h_bins s).
Definition HighestStore_key_at_rank (rank : Z) (s : CollapsingHighestDenseStore) : option Z :=
  bins_key_at_rank (h_bins s) (h_offset s) (h_count s) rank.

Fixpoint HighestStore_merge_bins (other_offset : Z) (i : nat) (other : list Z)
    (s : CollapsingHighestDenseStore) : option CollapsingHighestDenseStore :=
  match other with
  | [] => Some s
  | count :: other' =>
      s ← (if 0 <? count then HighestStore_add (i32_add other_offset (i32_of_usize i)) count s else Some s);
      HighestStore_merge_bins other_offset (S i) other' s
  end.

Definition HighestStore_merge (s other : CollapsingHighestDenseStore) : option CollapsingHighestDenseStore :=
  match h_bins other with
  | [] => Some s
  | _ =>
      let s := if h_is_collapsed other then h_with (h_bins s) (h_offset s) true s else s in
      HighestStore_merge_bins (h_offset other) 0 (h_bins other) s
  end.

Definition HighestStore_clear (s : CollapsingHighestDenseStore) : CollapsingHighestDenseStore :=
  {| h_bins := []; h_offset := 0; h_max_num_bins := h_max_num_bins s; h_count := 0; h_is_collapsed := false |}.

#[export] Instance HighestStore_Store : Store CollapsingHighestDenseStore := {|
  add := HighestStore_add;
  total_count := h_count;
  min_index := HighestStore_min_index;
  max_index := HighestStore_max_index;
  key_at_rank := HighestStore_key_at_rank;
  merge := HighestStore_merge;
  is_empty := fun s => h_count s =? 0;
  clear := HighestStore_clear;
|}.

(** ** The observations of a store *)

(** An observation is an index and how often it was seen. *)
Abbreviation Obs := (Z * Z)%type.

Definition weight_of (p : Z -> bool) (obs : list Obs) : Z :=
  sumZ (fun o => if p o.1 then o.2 else 0) obs.
Definition total (obs : list Obs) : Z := weight_of (fun _ => true) obs.

Definition clamp (lo hi i : Z) : Z := Z.max lo (Z.min hi i).

(** The bins of the indices [lo] to [hi], with what lies outside counted at the nearer end. *)
Definition window (lo hi : Z) (obs : list Obs) : list Z :=
  (fun k => weight_of (fun i => clamp lo hi i =? k) obs) <$> seqZ lo (hi - lo + 1).

(** Indices a store is used with, and counts that do not overflow. *)
Definition index_ok (i : Z) : Prop := - 2 ^ 29 <= i <= 2 ^ 29.
Definition obs_ok (obs : list Obs) : Prop :=
  Forall (fun o => index_ok o.1 /\ 0 < o.2) obs /\ total obs <= u64_max.

(** [m] and [M] are the smallest and the largest index observed. *)
Definition spans (obs : list Obs) (m M : Z) : Prop :=
  (forall o, o ∈ obs -> m <= o.1 <= M) /\ m ∈ obs.*1 /\ M ∈ obs.*1.

(** ** Lemmas on weights *)

Lemma weight_of_app p o1 o2 : weight_of p (o1 ++ o2) = weight_of p o1 + weight_of p o2.
Proof. apply sumZ_app. Qed.

Lemma weight_of_snoc p obs i c : weight_of p (obs ++ [(i, c)]) = weight_of p obs + if p i then c else 0.
Proof. rewrite weight_of_app. unfold weight_of at 2. simpl. case_match; lia. Qed.

Lemma weight_of_ext p q obs :
  (forall o, o ∈ obs -> p o.1 = q o.1) -> weight_of p obs = weight_of q obs.
Proof. intros Hpq. apply sumZ_ext. intros o Ho. by rewrite Hpq. Qed.

Lemma weight_of_none p obs : (forall o, o ∈ obs -> p o.1 = false) -> weight_of p obs = 0.
Proof.
  intros Hp. unfold weight_of. induction obs as [|o obs IH]; [done|]. simpl.
  rewrite (Hp o ltac:(left)), IH; [done|]. intros; apply Hp; by right.
Qed.

Lemma weight_of_orb p q obs :
  (forall i, p i = true -> q i = true -> False) ->
  weight_of (fun i => p i || q i) obs = weight_of p obs + weight_of q obs.
Proof.
  intros Hpq. unfold weight_of. induction obs as [|o obs IH]; [done|]. simpl. rewrite IH.
  specialize (Hpq o.1). destruct (p o.1), (q o.1); simpl; lia.
Qed.

Lemma weight_of_nonneg p obs : Forall (fun o => 0 < o.2) obs -> 0 <= weight_of p obs.
Proof.
  intros Hp. apply sumZ_nonneg. intros o Ho. rewrite Forall_forall in Hp. specialize (Hp o Ho).
  case_match; lia.
Qed.

Lemma weight_of_le p obs : Forall (fun o => 0 < o.2) obs -> weight_of p obs <= total obs.
Proof.
  intros Hp. unfold total, weight_of. induction Hp as [|o obs Ho Hp IH]; simpl; [lia|].
  case_match; lia.
Qed.

Lemma weight_of_pos p obs o : Forall (fun o => 0 < o.2) obs -> o ∈ obs -> p o.1 = true -> 0 < weight_of p obs.
Proof.
  intros Hp. induction Hp as [|o' obs Ho Hp IH]; intros Hin Hpo; [by apply not_elem_of_nil in Hin|].
  unfold weight_of. simpl. pose proof (weight_of_nonneg p obs Hp) as Hnn. unfold weight_of in Hnn, IH.
  apply elem_of_cons in Hin as [<-|Hin]; [rewrite Hpo; lia|]. specialize (IH Hin Hpo).
  case_match; lia.
Qed.

#[local] Coercion Z.of_nat : nat >-> Z.

(** ** Lemmas on windows *)

Lemma window_length lo hi obs : length (window lo hi obs) = Z.to_nat (hi - lo + 1).
Proof. unfold window. by rewrite length_fmap, length_seqZ. Qed.

Lemma window_lookup lo hi obs (j : nat) :
  lo + j <= hi -> window lo hi obs !! j = Some (weight_of (fun i => clamp lo hi i =? lo + j) obs).
Proof.
  intros Hj. unfold window. rewrite list_lookup_fmap, lookup_seqZ_lt by lia. done.
Qed.

Lemma window_lookup_none lo hi obs (j : nat) : hi < lo + j -> window lo hi obs !! j = None.
Proof. intros Hj. apply lookup_ge_None. rewrite window_length. lia. Qed.

(** Two windows agree when their lengths and their bins do. *)
Lemma window_eq lo hi obs l :
  length l = Z.to_nat (hi - lo + 1) ->
  (forall j : nat, lo + j <= hi -> l !! j = Some (weight_of (fun i => clamp lo hi i =? lo + j) obs)) ->
  l = window lo hi obs.
Proof.
  intros Hlen Hl. apply list_eq. intros j. destruct (decide (lo + j <= hi)) as [Hj|Hj].
  - by rewrite Hl, window_lookup.
  - rewrite window_lookup_none by lia. apply lookup_ge_None. lia.
Qed.

Lemma window_prepend lo' lo hi obs :
  lo' <= lo -> lo <= hi -> (forall o, o ∈ obs -> lo <= o.1) ->
  prepend_zeros (Z.to_nat (lo - lo')) (window lo hi obs) = window lo' hi obs.
Proof.
  intros Hl Hh Hobs. unfold prepend_zeros. apply window_eq.
  { rewrite length_app, length_replicate, window_length. lia. }
  intros j Hj. destruct (decide (lo' + j < lo)) as [Hlt|Hge].
  - rewrite lookup_app_l by (rewrite length_replicate; lia). rewrite lookup_replicate_2 by lia.
    f_equal. symmetry. apply weight_of_none. intros o Ho. specialize (Hobs o Ho). unfold clamp. lia.
  - rewrite lookup_app_r by (rewrite length_replicate; lia). rewrite length_replicate.
    rewrite window_lookup by lia. f_equal. apply weight_of_ext. intros o Ho. specialize (Hobs o Ho).
    unfold clamp. bool_lia.
Qed.

Lemma window_resize lo hi hi' obs :
  lo <= hi -> hi <= hi' -> (forall o, o ∈ obs -> o.1 <= hi) ->
  resize (Z.to_nat (hi' - lo + 1)) (window lo hi obs) = window lo hi' obs.
Proof.
  intros Hl Hh Hobs. unfold resize. rewrite take_ge by (rewrite window_length; lia). apply window_eq.
  { rewrite length_app, length_replicate, window_length. lia. }
  intros j Hj. destruct (decide (lo + j <= hi)) as [Hle|Hgt].
  - rewrite lookup_app_l by (rewrite window_length; lia). rewrite window_lookup by lia.
    f_equal. apply weight_of_ext. intros o Ho. specialize (Hobs o Ho). unfold clamp. bool_lia.
  - rewrite lookup_app_r by (rewrite window_length; lia). rewrite lookup_replicate_2 by (rewrite window_length; lia).
    f_equal. symmetry. apply weight_of_none. intros o Ho. specialize (Hobs o Ho). unfold clamp. lia.
Qed.

(** The weight of a run of bins of a window. *)
Lemma window_sum_take lo hi obs n :
  lo <= hi -> lo + Z.of_nat n <= hi + 1 ->
  sumZ (fun x => x) (take n (window lo hi obs)) = weight_of (fun i => clamp lo hi i <? lo + n) obs.
Proof.
  intros Hl. induction n as [|n IH]; intros Hn.
  - rewrite take_0. symmetry. apply weight_of_none. intros o _. unfold clamp. bool_lia.
  - erewrite take_S_r by (apply window_lookup; lia). rewrite sumZ_app, IH by lia. simpl.
    rewrite Z.add_0_r, <- weight_of_orb by bool_lia. apply weight_of_ext. intros o _. bool_lia.
Qed.

Lemma window_sum lo hi obs : lo <= hi -> sumZ (fun x => x) (window lo hi obs) = total obs.
Proof.
  intros Hl. rewrite <- (take_ge (window lo hi obs) (Z.to_nat (hi - lo + 1))) by (rewrite window_length; lia).
  rewrite window_sum_take by lia. apply weight_of_ext. intros o _. unfold clamp. bool_lia.
Qed.

Lemma window_sum_drop lo hi obs n :
  lo <= hi -> lo + Z.of_nat n <= hi + 1 ->
  sumZ (fun x => x) (drop n (window lo hi obs)) = weight_of (fun i => lo + n <=? clamp lo hi i) obs.
Proof.
  intros Hl Hn. pose proof (sumZ_take_drop (fun x => x) n (window lo hi obs)) as Hs.
  rewrite window_sum, window_sum_take in Hs by done.
  assert (Ht : total obs = weight_of (fun i => (clamp lo hi i <? lo + n) || (lo + n <=? clamp lo hi i)) obs).
  { apply weight_of_ext. intros o _. bool_lia. }
  rewrite Ht, weight_of_orb in Hs by (intros i; bool_lia). lia.
Qed.

Lemma window_single k obs : window k k obs = [total obs].
Proof.
  symmetry. apply window_eq; [simpl; lia|]. intros j Hj. assert (j = 0%nat) as -> by lia. simpl.
  f_equal. apply weight_of_ext. intros o _. unfold clamp. bool_lia.
Qed.

Lemma window_nonneg lo hi obs : Forall (fun o => 0 < o.2) obs -> Forall (fun x => 0 <= x) (window lo hi obs).
Proof. intros Ho. apply Forall_fmap, Forall_true. intros k. by apply weight_of_nonneg. Qed.

Lemma window_ne lo hi obs : lo <= hi -> window lo hi obs <> [].
Proof. intros Hl Hn. pose proof (window_length lo hi obs) as Hw. rewrite Hn in Hw. simpl in Hw. lia. Qed.

(** Sums that stay within [u64] do not wrap. *)
Lemma sum_u64_exact l : Forall (fun x => 0 <= x) l -> sumZ (fun x => x) l <= u64_max ->
  sum_u64 l = sumZ (fun x => x) l.
Proof.
  intros Hl. unfold sum_u64.
  enough (Ha : forall a, 0 <= a -> a + sumZ (fun x => x) l <= u64_max ->
            fold_left u64_add l a = a + sumZ (fun x => x) l) by (intros; rewrite Ha; lia).
  induction Hl as [|x l Hx Hl IH]; intros a Ha Hs; simpl in *; [lia|].
  assert (0 <= sumZ (fun x => x) l).
  { apply sumZ_nonneg. intros y Hy. rewrite Forall_forall in Hl. by apply Hl. }
  rewrite wrapping_add_exact by (split; lia). rewrite IH by lia. lia.
Qed.

Lemma add_at_exact l (j : nat) v c : l !! j = Some v -> 0 <= v -> v + c <= u64_max ->
  add_at j c l = Some (<[j := v + c]> l).
Proof.
  intros Hl Hv Hc. unfold add_at. rewrite Hl. simpl. do 2 f_equal.
  unfold saturating_add. lia.
Qed.

(** One more observation in a window. *)
Lemma window_add lo hi i c obs :
  lo <= hi -> Forall (fun o => 0 < o.2) obs -> 0 < c -> total obs + c <= u64_max ->
  add_at (Z.to_nat (clamp lo hi i - lo)) c (window lo hi obs) = Some (window lo hi (obs ++ [(i, c)])).
Proof.
  intros Hl Ho Hc Ht. set (n := Z.to_nat (clamp lo hi i - lo)).
  assert (Hn : lo + n = clamp lo hi i) by (unfold n, clamp; lia).
  assert (Hhi : lo + n <= hi) by (rewrite Hn; unfold clamp; lia).
  pose proof (weight_of_le (fun i => clamp lo hi i =? lo + n) obs Ho).
  erewrite add_at_exact; [|by apply window_lookup|by apply weight_of_nonneg|lia].
  f_equal. apply window_eq; [by rewrite length_insert, window_length|]. intros j Hj.
  rewrite weight_of_snoc. destruct (decide (j = n)) as [->|Hne].
  - rewrite list_lookup_insert_eq by (rewrite window_length; lia). by rewrite Hn, Z.eqb_refl.
  - rewrite list_lookup_insert_ne by done. rewrite window_lookup by done. f_equal.
    destruct (Z.eqb_spec (clamp lo hi i) (lo + j)); lia.
Qed.

(** Folding the bins below [lo'] into the bin at [lo']. *)
Lemma window_fold_low lo lo' hi obs :
  lo <= lo' -> lo' <= hi -> Forall (fun o => 0 < o.2) obs -> total obs <= u64_max ->
  let n := Z.to_nat (lo' - lo) in
  exists bins, add_at n (sum_u64 (take n (window lo hi obs))) (window lo hi obs) = Some bins /\
    drop n bins = window lo' hi obs.
Proof.
  intros Hl Hh Ho Ht n. assert (Hn : lo + n = lo') by (unfold n; lia).
  pose proof (window_sum_take lo hi obs n ltac:(lia) ltac:(lia)) as Hs.
  pose proof (weight_of_le (fun i => clamp lo hi i <? lo + n) obs Ho).
  rewrite sum_u64_exact; [|by apply Forall_take, window_nonneg|lia].
  rewrite Hs.
  assert (Hw : weight_of (fun i => clamp lo hi i =? lo + n) obs + weight_of (fun i => clamp lo hi i <? lo + n) obs
          = weight_of (fun i => clamp lo' hi i =? lo') obs).
  { rewrite <- weight_of_orb by (intros i; bool_lia). apply weight_of_ext. intros o _. unfold clamp. bool_lia. }
  pose proof (weight_of_le (fun i => clamp lo' hi i =? lo') obs Ho).
  erewrite add_at_exact; [|apply window_lookup; lia|by apply weight_of_nonneg|lia].
  eexists. split; [done|]. apply window_eq; [rewrite length_drop, length_insert, window_length; lia|].
  intros j Hj. rewrite lookup_drop. destruct (decide (j = 0%nat)) as [->|Hne].
  - rewrite Nat.add_0_r, list_lookup_insert_eq by (rewrite window_length; lia). f_equal.
    rewrite Hw. apply weight_of_ext. intros o _. bool_lia.
  - rewrite list_lookup_insert_ne by lia. rewrite window_lookup by lia. f_equal.
    apply weight_of_ext. intros o _. unfold clamp. bool_lia.
Qed.

(** Folding the bins above [hi'] into the bin at [hi']. *)
Lemma window_fold_high lo hi hi' obs :
  lo <= hi' -> hi' <= hi -> Forall (fun o => 0 < o.2) obs -> total obs <= u64_max ->
  let keep := Z.to_nat (hi' - lo + 1) in
  exists bins, add_at (keep - 1) (sum_u64 (drop keep (window lo hi obs))) (window lo hi obs) = Some bins /\
    take keep bins = window lo hi' obs.
Proof.
  intros Hl Hh Ho Ht n. assert (Hn : lo + n = hi' + 1) by (unfold n; lia).
  pose proof (window_sum_drop lo hi obs n ltac:(lia) ltac:(lia)) as Hs.
  pose proof (weight_of_le (fun i => lo + n <=? clamp lo hi i) obs Ho).
  rewrite sum_u64_exact; [|by apply Forall_drop, window_nonneg|lia].
  rewrite Hs.
  assert (Hw : weight_of (fun i => clamp lo hi i =? lo + (n - 1)%nat) obs +
               weight_of (fun i => lo + n <=? clamp lo hi i) obs
          = weight_of (fun i => clamp lo hi' i =? hi') obs).
  { rewrite <- weight_of_orb by (intros i; bool_lia). apply weight_of_ext. intros o _. unfold clamp. bool_lia. }
  pose proof (weight_of_le (fun i => clamp lo hi' i =? hi') obs Ho).
  erewrite add_at_exact; [|apply window_lookup; lia|by apply weight_of_nonneg|lia].
  eexists. split; [done|]. apply window_eq; [rewrite length_take, length_insert, window_length; lia|].
  intros j Hj. rewrite lookup_take_lt by lia. destruct (decide (j = (n - 1)%nat)) as [->|Hne].
  - rewrite list_lookup_insert_eq by (rewrite window_length; lia). f_equal.
    rewrite Hw. apply weight_of_ext. intros o _. bool_lia.
  - rewrite list_lookup_insert_ne by lia. rewrite window_lookup by lia. f_equal.
    apply weight_of_ext. intros o _. unfold clamp. bool_lia.
Qed.

(** ** Machine arithmetic in range *)

Lemma i32_small z : - 2 ^ 31 <= z < 2 ^ 31 -> i32_wrap z = z.
Proof. intros Hz. unfold i32_wrap. rewrite Z.mod_small; lia. Qed.

Lemma usize_small z : 0 <= z < 2 ^ 64 -> usize_of_i32 z = Z.to_nat z.
Proof. intros Hz. unfold usize_of_i32. by rewrite Z.mod_small by lia. Qed.

(** Rewrite the [i32] operations of the goal to the exact ones, innermost first. *)
Ltac i32_exact :=
  unfold i32_add, i32_sub, i32_of_usize;
  repeat match goal with
  | |- context [i32_wrap ?z] =>
      lazymatch z with context [i32_wrap _] => fail | _ => rewrite (i32_small z) by lia end
  | |- context [usize_of_i32 ?z] =>
      lazymatch z with context [i32_wrap _] => fail | _ => rewrite (usize_small z) by lia end
  end.

(** ** Queries on bins *)

Lemma first_nonzero_spec offset i bins (j : nat) v :
  bins !! j = Some v -> 0 < v -> (forall j' v', (j' < j)%nat -> bins !! j' = Some v' -> v' <= 0) ->
  first_nonzero offset i bins = Some (i32_add offset (i32_of_usize (i + j))).
Proof.
  revert i j. induction bins as [|x bins IH]; intros i j Hj Hv Hbefore; [done|]. simpl.
  destruct j as [|j]; simpl in Hj.
  - simplify_eq. rewrite (proj2 (Z.ltb_lt _ _)) by done. by rewrite Nat.add_0_r.
  - rewrite (proj2 (Z.ltb_ge _ _)) by (apply (Hbefore 0%nat); [lia|done]).
    rewrite (IH (S i) j); [|done|done|].
    + do 3 f_equal. lia.
    + intros j' v' Hlt. apply (Hbefore (S j')). lia.
Qed.

Lemma last_nonzero_none offset i bins : Forall (fun x => x <= 0) bins -> last_nonzero offset i bins = None.
Proof.
  intros Hb. revert i. induction Hb as [|x bins Hx Hb IH]; intros i; simpl; [done|].
  rewrite IH. by rewrite (proj2 (Z.ltb_ge _ _)).
Qed.

Lemma last_nonzero_spec offset i bins (j : nat) v :
  bins !! j = Some v -> 0 < v -> (forall j' v', (j < j')%nat -> bins !! j' = Some v' -> v' <= 0) ->
  last_nonzero offset i bins = Some (i32_add offset (i32_of_usize (i + j))).
Proof.
  revert i j. induction bins as [|x bins IH]; intros i j Hj Hv Hafter; [done|]. simpl.
  destruct j as [|j]; simpl in Hj.
  - simplify_eq. rewrite last_nonzero_none.
    + rewrite (proj2 (Z.ltb_lt _ _)) by done. by rewrite Nat.add_0_r.
    + apply Forall_lookup. intros j' v' Hj'. apply (Hafter (S j')); [lia|done].
  - rewrite (IH (S i) j); [do 3 f_equal; lia|done|done|].
    intros j' v' Hlt. apply (Hafter (S j')). lia.
Qed.

Lemma rank_walk_spec offset i rank cum bins :
  Forall (fun x => 0 <= x) bins -> 0 <= cum <= rank -> rank < cum + sumZ (fun x => x) bins ->
  cum + sumZ (fun x => x) bins <= u64_max ->
  exists j : nat, rank_walk offset i rank cum bins = Some (i32_add offset (i32_of_usize (i + j))) /\
    (j < length bins)%nat /\
    cum + sumZ (fun x => x) (take j bins) <= rank < cum + sumZ (fun x => x) (take (S j) bins).
Proof.
  intros Hb. revert i cum. induction Hb as [|x bins Hx Hb IH]; intros i cum Hc Hr Hm; simpl in *; [lia|].
  assert (0 <= sumZ (fun x => x) bins).
  { apply sumZ_nonneg. intros y Hy. rewrite Forall_forall in Hb. by apply Hb. }
  rewrite wrapping_add_exact by (split; lia). destruct (Z.ltb_spec rank (cum + x)).
  - exists 0%nat. rewrite Nat.add_0_r. split_and!; [done|lia|simpl; lia..].
  - destruct (IH (S i) (cum + x)) as (j & Hj & Hlen & Hle & Hlt); [lia..|].
    exists (S j). split_and!; [rewrite Hj; do 3 f_equal; lia|lia|simpl in *; lia..].
Qed.

(** The queries on a window of observations. *)
Section window_queries.
Context (lo hi : Z) (obs : list Obs) (m M : Z).
Context (Hlo : - 2 ^ 30 <= lo) (Hhi : hi < 2 ^ 30) (Hle : lo <= hi).
Context (Hpos : Forall (fun o => 0 < o.2) obs) (Htot : total obs <= u64_max) (Hspan : spans obs m M).

Lemma window_min_index : first_nonzero lo 0 (window lo hi obs) = Some (clamp lo hi m).
Proof using All.
  destruct Hspan as (Hall & (o & Ho & Hin)%list_elem_of_fmap & _).
  set (j := Z.to_nat (clamp lo hi m - lo)). assert (Hj : lo + j = clamp lo hi m) by (unfold j, clamp; lia).
  assert (Hjh : lo + j <= hi) by (rewrite Hj; unfold clamp; lia).
  erewrite (first_nonzero_spec _ _ _ j); [|by apply window_lookup| |].
  - simpl. i32_exact. by f_equal.
  - apply (weight_of_pos _ _ o); [done|done|]. rewrite <- Ho. apply Z.eqb_eq. lia.
  - intros j' v' Hlt. rewrite window_lookup by lia. intros [= <-].
    rewrite weight_of_none; [done|]. intros o' Ho'. specialize (Hall o' Ho'). unfold clamp in *. bool_lia.
Qed.

Lemma window_max_index : last_nonzero lo 0 (window lo hi obs) = Some (clamp lo hi M).
Proof using All.
  destruct Hspan as (Hall & _ & (o & Ho & Hin)%list_elem_of_fmap).
  set (j := Z.to_nat (clamp lo hi M - lo)). assert (Hj : lo + j = clamp lo hi M) by (unfold j, clamp; lia).
  assert (Hjh : lo + j <= hi) by (rewrite Hj; unfold clamp; lia).
  erewrite (last_nonzero_spec _ _ _ j); [|by apply window_lookup| |].
  - simpl. i32_exact. by f_equal.
  - apply (weight_of_pos _ _ o); [done|done|]. rewrite <- Ho. apply Z.eqb_eq. lia.
  - intros j' v' Hlt. destruct (decide (lo + j' <= hi)) as [Hj'|Hj'].
    + rewrite window_lookup by lia. intros [= <-].
      rewrite weight_of_none; [done|]. intros o' Ho'. specialize (Hall o' Ho'). unfold clamp in *. bool_lia.
    + rewrite window_lookup_none by lia. done.
Qed.

Lemma window_rank rank : 0 <= rank < total obs ->
  exists k, bins_key_at_rank (window lo hi obs) lo (total obs) rank = Some k /\ lo <= k <= hi /\
    weight_of (fun i => clamp lo hi i <? k) obs <= rank < weight_of (fun i => clamp lo hi i <=? k) obs.
Proof using All.
  intros Hr. unfold bins_key_at_rank. rewrite (proj2 (Z.leb_gt _ _)) by lia.
  destruct (rank_walk_spec lo 0 rank 0 (window lo hi obs)) as (j & Hj & Hlen & H1 & H2);
    [by apply window_nonneg|lia|rewrite window_sum; lia|rewrite window_sum; lia|].
  rewrite window_length in Hlen. rewrite Hj. exists (lo + j). simpl. i32_exact.
  split_and!; [done|lia|lia| |].
  - rewrite window_sum_take in H1 by lia. lia.
  - rewrite window_sum_take in H2 by lia. rewrite Z.add_0_l in H2.
    erewrite weight_of_ext; [exact H2|]. intros o _. bool_lia.
Qed.
End window_queries.

(** ** Observations up to equivalence *)

(** Two lists of observations are equivalent when they count every index alike. *)
Definition weight_at (k : Z) (obs : list Obs) : Z := weight_of (fun i => i =? k) obs.
Definition same_counts (o1 o2 : list Obs) : Prop := forall k, weight_at k o1 = weight_at k o2.

#[export] Instance same_counts_equivalence : Equivalence same_counts.
Proof.
  split; [by intros ? ?|by intros ??? k|]. intros o1 o2 o3 H12 H23 k. by rewrite (H12 k), (H23 k).
Qed.

Lemma sumZ_zero {A} (f : A -> Z) (l : list A) : (forall a, a ∈ l -> f a = 0) -> sumZ f l = 0.
Proof.
  induction l as [|a l IH]; intros Hf; [done|]. rewrite sumZ_cons, (Hf a ltac:(left)), IH; [done|].
  intros x Hx. apply Hf. by right.
Qed.

Lemma sumZ_plus {A} (f g : A -> Z) l : sumZ (fun a => f a + g a) l = sumZ f l + sumZ g l.
Proof. induction l as [|a l IH]; [done|]. rewrite !sumZ_cons, IH. lia. Qed.

(** A sum with one non-zero summand. *)
Lemma sumZ_one (p : Z -> bool) (i c : Z) (ks : list Z) : NoDup ks -> i ∈ ks ->
  sumZ (fun k => if p k then (if i =? k then c else 0) else 0) ks = if p i then c else 0.
Proof.
  intros Hnd. induction Hnd as [|k ks Hk Hnd IH]; intros Hin; [by apply not_elem_of_nil in Hin|].
  rewrite sumZ_cons. apply elem_of_cons in Hin as [<-|Hin].
  - rewrite Z.eqb_refl, sumZ_zero; [lia|]. intros k Hin. destruct (Z.eqb_spec i k) as [->|]; [done|].
    by destruct (p k).
  - rewrite IH by done. destruct (Z.eqb_spec i k) as [->|]; [done|]. by destruct (p k).
Qed.

Lemma weight_of_support p obs (ks : list Z) : NoDup ks -> (forall o, o ∈ obs -> o.1 ∈ ks) ->
  weight_of p obs = sumZ (fun k => if p k then weight_at k obs else 0) ks.
Proof.
  intros Hnd. induction obs as [|[i c] obs IH]; intros Hks.
  - symmetry. apply sumZ_zero. intros k _. by case_match.
  - change (weight_of p ((i, c) :: obs)) with ((if p i then c else 0) + weight_of p obs).
    rewrite IH by (intros; apply Hks; by right).
    rewrite <- (sumZ_one p i c ks Hnd (Hks (i, c) ltac:(left))), <- sumZ_plus. apply sumZ_ext. intros k _.
    change (weight_at k ((i, c) :: obs)) with ((if i =? k then c else 0) + weight_at k obs).
    destruct (p k); lia.
Qed.

#[export] Instance weight_of_proper p : Proper (same_counts ==> (=)) (weight_of p).
Proof.
  intros o1 o2 Ho. set (ks := remove_dups (o1.*1 ++ o2.*1)).
  assert (Hnd : NoDup ks) by apply NoDup_remove_dups.
  rewrite (weight_of_support p o1 ks), (weight_of_support p o2 ks); try done.
  - apply sumZ_ext. intros k _. by rewrite (Ho k).
  - intros o Hin. apply elem_of_remove_dups, elem_of_app. right. by apply list_elem_of_fmap_2.
  - intros o Hin. apply elem_of_remove_dups, elem_of_app. left. by apply list_elem_of_fmap_2.
Qed.

#[export] Instance window_proper lo hi : Proper (same_counts ==> (=)) (window lo hi).
Proof. intros o1 o2 Ho. apply list_fmap_ext. intros _ k _. by rewrite Ho. Qed.

#[export] Instance total_proper : Proper (same_counts ==> (=)) total.
Proof. intros o1 o2 Ho. unfold total. by rewrite Ho. Qed.

(** Observations counted at other indices. *)
Definition refold (f : Z -> Z) (obs : list Obs) : list Obs := (fun o => (f o.1, o.2)) <$> obs.

Lemma weight_of_refold f p obs : weight_of p (refold f obs) = weight_of (fun i => p (f i)) obs.
Proof. unfold weight_of, refold. induction obs as [|o obs IH]; csimpl; [done|]. by rewrite IH. Qed.

(** The observations that the bins of a store stand for. *)
Fixpoint bins_obs (lo : Z) (bins : list Z) : list Obs :=
  match bins with
  | [] => []
  | c :: bins' => (if 0 <? c then [(lo, c)] else []) ++ bins_obs (lo + 1) bins'
  end.

Lemma weight_of_bins_obs p lo bins : Forall (fun x => 0 <= x) bins ->
  weight_of p (bins_obs lo bins) = sumZ (fun x => if p x.1 then x.2 else 0) (zip (seqZ lo (length bins)) bins).
Proof.
  intros Hb. revert lo. induction Hb as [|c bins Hc Hb IH]; intros lo; [done|].
  cbn [bins_obs length]. rewrite weight_of_app, IH.
  rewrite (seqZ_cons lo (S (length bins))) by lia.
  replace (Z.pred (S (length bins))) with (Z.of_nat (length bins)) by lia. change (Z.succ lo) with (lo + 1).
  simpl. f_equal. unfold weight_of. destruct (Z.ltb_spec 0 c); simpl; case_match; lia.
Qed.

Lemma zip_fmap_r {A B} (f : A -> B) l : zip l (f <$> l) = (fun x => (x, f x)) <$> l.
Proof. induction l as [|x l IH]; csimpl; [done|]. by rewrite IH. Qed.

Lemma sumZ_fmap {A B} (g : A -> B) (f : B -> Z) l : sumZ f (g <$> l) = sumZ (fun a => f (g a)) l.
Proof. induction l as [|x l IH]; csimpl; [done|]. unfold sumZ in *. simpl. by rewrite IH. Qed.

(** The bins of a window stand for the observations folded into it. *)
Lemma window_bins_obs lo hi obs : lo <= hi -> Forall (fun o => 0 < o.2) obs ->
  same_counts (bins_obs lo (window lo hi obs)) (refold (clamp lo hi) obs).
Proof.
  intros Hl Ho k. unfold weight_at.
  rewrite weight_of_bins_obs by by apply window_nonneg. rewrite window_length.
  replace (Z.of_nat (Z.to_nat (hi - lo + 1))) with (hi - lo + 1) by lia.
  unfold window. rewrite zip_fmap_r, sumZ_fmap. simpl.
  rewrite (weight_of_support (fun i => i =? k) (refold (clamp lo hi) obs) (seqZ lo (hi - lo + 1))).
  - apply sumZ_ext. intros k' _. case_match; [|done]. unfold weight_at. by rewrite weight_of_refold.
  - apply NoDup_seqZ.
  - intros o (x & -> & Hx)%list_elem_of_fmap. simpl. apply elem_of_seqZ. unfold clamp. lia.
Qed.

(** ** Spans *)

Lemma spans_le obs m M : spans obs m M -> m <= M.
Proof. intros (Hall & Hm & _). apply list_elem_of_fmap in Hm as (o & -> & Ho). apply Hall in Ho. lia. Qed.

Lemma spans_single i c : spans [(i, c)] i i.
Proof.
  split_and!; [|left..]. intros o Ho. apply list_elem_of_singleton in Ho as ->. simpl. lia.
Qed.

Lemma spans_app o1 m1 M1 o2 m2 M2 :
  spans o1 m1 M1 -> spans o2 m2 M2 -> spans (o1 ++ o2) (Z.min m1 m2) (Z.max M1 M2).
Proof.
  intros (H1 & Hm1 & HM1) (H2 & Hm2 & HM2). unfold spans. rewrite fmap_app. split_and!.
  - intros o [Ho|Ho]%elem_of_app; [apply H1 in Ho|apply H2 in Ho]; lia.
  - destruct (Z.min_spec m1 m2) as [[_ ->]|[_ ->]]; apply elem_of_app; auto.
  - destruct (Z.max_spec M1 M2) as [[_ ->]|[_ ->]]; apply elem_of_app; auto.
Qed.

Lemma spans_ex obs : obs <> [] -> exists m M, spans obs m M.
Proof.
  induction obs as [|[i c] obs IH]; [done|]. intros _. destruct obs as [|o obs].
  - exists i, i. apply spans_single.
  - destruct (IH ltac:(done)) as (m & M & Hs). exists (Z.min i m), (Z.max i M).
    apply (spans_app [(i, c)] i i (o :: obs) m M); [apply spans_single|done].
Qed.

Lemma spans_index_ok obs m M : obs_ok obs -> spans obs m M -> index_ok m /\ index_ok M.
Proof.
  intros [Ho _] (_ & Hm & HM). rewrite Forall_forall in Ho.
  apply list_elem_of_fmap in Hm as (o & -> & Hm). apply list_elem_of_fmap in HM as (o' & -> & HM).
  split; [apply Ho in Hm|apply Ho in HM]; naive_solver.
Qed.

Lemma spans_refold f obs m M : (forall x y, x <= y -> f x <= f y) -> spans obs m M ->
  spans (refold f obs) (f m) (f M).
Proof.
  intros Hf (Hall & Hm & HM). unfold spans, refold. rewrite <- list_fmap_compose. split_and!.
  - intros o (x & -> & Hx)%list_elem_of_fmap. simpl. apply Hall in Hx. split; apply Hf; lia.
  - apply list_elem_of_fmap in Hm as (o & -> & Hm). apply list_elem_of_fmap. by exists o.
  - apply list_elem_of_fmap in HM as (o & -> & HM). apply list_elem_of_fmap. by exists o.
Qed.

(** Equivalent observations have the same span. *)
Lemma same_counts_elem o1 o2 : Forall (fun o => 0 < o.2) o1 -> Forall (fun o => 0 < o.2) o2 ->
  same_counts o1 o2 -> forall i, i ∈ o1.*1 -> i ∈ o2.*1.
Proof.
  intros H1 H2 Heq i Hi. apply list_elem_of_fmap in Hi as (o & -> & Ho).
  destruct (decide (o.1 ∈ o2.*1)) as [|Hno]; [done|]. exfalso.
  assert (Hp : 0 < weight_at o.1 o1) by (eapply weight_of_pos; [done|done|apply Z.eqb_refl]).
  rewrite (Heq o.1) in Hp. unfold weight_at in Hp. rewrite weight_of_none in Hp; [lia|].
  intros x Hx. apply Z.eqb_neq. intros Hxo. apply Hno. rewrite <- Hxo. by apply list_elem_of_fmap_2.
Qed.

Lemma spans_proper o1 o2 m M : Forall (fun o => 0 < o.2) o1 -> Forall (fun o => 0 < o.2) o2 ->
  same_counts o1 o2 -> spans o1 m M -> spans o2 m M.
Proof.
  intros H1 H2 Heq (Hall & Hm & HM). split_and!; [|by apply (same_counts_elem o1 o2)..].
  intros o Ho. assert (Hi : o.1 ∈ o1.*1).
  { eapply (same_counts_elem o2 o1); [done|done|by symmetry|]. by apply list_elem_of_fmap_2. }
  apply list_elem_of_fmap in Hi as (x & -> & Hx). by apply Hall.
Qed.

Lemma obs_ok_pos obs : obs_ok obs -> Forall (fun o => 0 < o.2) obs.
Proof. intros [Ho _]. eapply Forall_impl; [exact Ho|]. by intros ? [_ ?]. Qed.

Lemma total_nonneg obs : obs_ok obs -> 0 <= total obs.
Proof. intros Ho. by apply weight_of_nonneg, obs_ok_pos. Qed.

Lemma obs_ok_app o1 o2 : obs_ok (o1 ++ o2) -> obs_ok o1 /\ obs_ok o2.
Proof.
  intros [Ho Ht]. apply Forall_app in Ho as [H1 H2]. unfold total in Ht. rewrite weight_of_app in Ht.
  assert (Hp : forall o, Forall (fun o => index_ok o.1 /\ 0 < o.2) o -> 0 <= total o).
  { intros o Ho. apply weight_of_nonneg. eapply Forall_impl; [exact Ho|]. by intros ? [_ ?]. }
  pose proof (Hp o1 H1). pose proof (Hp o2 H2). unfold total in *. split; split; auto; unfold total; lia.
Qed.

Lemma obs_ok_snoc obs i c : obs_ok (obs ++ [(i, c)]) ->
  obs_ok obs /\ index_ok i /\ 0 < c /\ total obs + c <= u64_max.
Proof.
  intros Ho. pose proof (obs_ok_app _ _ Ho) as [H1 [H2 _]]. destruct Ho as [_ Ht].
  apply Forall_singleton in H2 as [Hi Hc]. unfold total in *. rewrite weight_of_snoc in Ht. auto.
Qed.

Lemma total_snoc obs i c : total (obs ++ [(i, c)]) = total obs + c.
Proof. unfold total. by rewrite weight_of_snoc. Qed.

(** ** The dense store *)

Record dense_window (s : DenseStore) (lo hi : Z) (obs : list Obs) : Prop := {
  dw_le : lo <= hi;
  dw_range : - 2 ^ 29 <= lo /\ hi <= 2 ^ 29;
  dw_offset : d_offset s = lo;
  dw_bins : d_bins s = window lo hi obs;
  dw_in : forall o, o ∈ obs -> lo <= o.1 <= hi;
}.

Lemma dense_grow_window s lo hi obs i : dense_window s lo hi obs -> index_ok i ->
  dense_window (DenseStore_grow i s) (Z.min lo i) (Z.max hi i) obs /\
  d_count (DenseStore_grow i s) = d_count s.
Proof.
  intros [Hle Hr Hoff Hbins Hin] Hi. unfold index_ok in Hi. unfold DenseStore_grow.
  pose proof (window_ne lo hi obs Hle) as Hne. pose proof (window_length lo hi obs) as Hlen.
  rewrite Hbins, Hoff. destruct (window lo hi obs) as [|x l] eqn:Ew; [done|]. rewrite <- Ew in *. clear Ew Hne.
  rewrite Hlen. destruct (Z.ltb_spec i lo) as [Hil|Hil]; [|destruct (Z.leb_spec (i32_add lo (i32_of_usize (Z.to_nat (hi - lo + 1)))) i) as [Hih|Hih]].
  - split; [|done]. split; simpl; [lia|lia|lia| |].
    + i32_exact. rewrite window_prepend; [f_equal; lia|lia|lia|]. intros o Ho. by apply Hin.
    + intros o Ho. apply Hin in Ho. lia.
  - revert Hih. i32_exact. intros Hih. split; [|done]. split; simpl; [lia|lia|lia| |].
    + replace (i - lo + 1) with (Z.max hi i - lo + 1) by lia. rewrite window_resize; [f_equal; lia|lia|lia|].
      intros o Ho. by apply Hin.
    + intros o Ho. apply Hin in Ho. lia.
  - revert Hih. i32_exact. intros Hih. split; [|done]. rewrite Z.min_l, Z.max_l by lia. by split.
Qed.

(** The store holds exactly the observations, from the smallest to the largest index. *)
Definition dense_rep (s : DenseStore) (obs : list Obs) : Prop :=
  obs_ok obs /\ d_count s = total obs /\
  ((obs = [] /\ d_bins s = []) \/ exists m M, spans obs m M /\ dense_window s m M obs).

Lemma dense_add_window s lo hi obs i c : dense_window s lo hi obs -> lo <= i <= hi ->
  obs_ok (obs ++ [(i, c)]) ->
  add_at (DenseStore_bin_index i s) c (d_bins s) = Some (window lo hi (obs ++ [(i, c)])).
Proof.
  intros [Hle Hr Hoff Hbins Hin] Hi Hok. apply obs_ok_snoc in Hok as (Hok & Hix & Hc & Ht).
  unfold DenseStore_bin_index. rewrite Hoff, Hbins. i32_exact.
  rewrite <- window_add by (done || by apply obs_ok_pos). f_equal. unfold clamp. lia.
Qed.

Lemma dense_grow_empty s i : d_bins s = [] -> index_ok i ->
  dense_window (DenseStore_grow i s) i i [] /\ d_count (DenseStore_grow i s) = d_count s.
Proof.
  intros Hs Hi. unfold DenseStore_grow, index_ok in *. rewrite Hs. split; [|done].
  split; simpl; [lia|lia|done|by rewrite window_single|]. intros o Ho. by apply not_elem_of_nil in Ho.
Qed.

Lemma dense_add_rep s obs i c : dense_rep s obs -> obs_ok (obs ++ [(i, c)]) ->
  exists s', DenseStore_add i c s = Some s' /\ dense_rep s' (obs ++ [(i, c)]).
Proof.
  intros (Hok & Hcount & Hrep) Hok'. pose proof (obs_ok_snoc _ _ _ Hok') as (_ & Hi & Hc & Ht).
  unfold DenseStore_add. rewrite (proj2 (Z.eqb_neq _ _)) by lia.
  assert (exists lo hi, dense_window (DenseStore_grow i s) lo hi obs /\ lo <= i <= hi /\
    d_count (DenseStore_grow i s) = total obs /\ spans (obs ++ [(i, c)]) lo hi)
    as (lo & hi & Hw & Hlh & Hcnt & Hs).
  { destruct Hrep as [[-> Hb]|(m & M & Hs & Hw)].
    - destruct (dense_grow_empty s i Hb Hi) as [Hw Hcnt]. exists i, i.
      split_and!; [done|lia|lia|congruence|apply spans_single].
    - destruct (dense_grow_window s m M obs i Hw Hi) as [Hw' Hcnt]. exists (Z.min m i), (Z.max M i).
      split_and!; [done|lia|lia|congruence|]. apply spans_app; [done|apply spans_single]. }
  rewrite (dense_add_window _ lo hi obs i c) by done. simpl. eexists. split; [done|].
  split_and!; [done| |].
  - simpl. rewrite Hcnt, total_snoc. pose proof (total_nonneg _ Hok). unfold saturating_add. lia.
  - right. exists lo, hi. split; [done|]. destruct Hw. split; simpl; [done|done|done|done|].
    apply Hs.
Qed.

Lemma dense_merge_bins_window off (i : nat) bins s lo hi obs :
  dense_window s lo hi obs -> lo <= off + i -> off + i + length bins <= hi + 1 ->
  obs_ok (obs ++ bins_obs (off + i) bins) -> - 2 ^ 29 <= off <= 2 ^ 29 ->
  exists s', DenseStore_merge_bins off i bins s = Some s' /\
    dense_window s' lo hi (obs ++ bins_obs (off + i) bins) /\ d_count s' = d_count s.
Proof.
  revert i s obs. induction bins as [|c bins IH]; intros i s obs Hw Hlo Hhi Hok Hoff.
  { simpl. exists s. rewrite app_nil_r. done. }
  cbn [DenseStore_merge_bins bins_obs length] in *.
  replace (off + i + 1) with (off + S i) in * by lia.
  pose proof (dw_range _ _ _ _ Hw) as Hr.
  destruct (Z.ltb_spec 0 c) as [Hc|Hc].
  - rewrite app_assoc in Hok |- *. pose proof (obs_ok_app _ _ Hok) as [Hok1 _].
    i32_exact. rewrite (dense_add_window s lo hi obs) by (done || lia). simpl.
    destruct Hw as [Hle Hrg Ho Hb Hin].
    destruct (IH (S i) {| d_bins := window lo hi (obs ++ [(off + i, c)]); d_offset := d_offset s; d_count := d_count s |}
      (obs ++ [(off + i, c)])) as (s' & Hs' & Hw' & Hcnt); [|lia|lia|done|done|by exists s'].
    split; simpl; [done|done|done|done|]. intros o [Ho'|Ho']%elem_of_app; [by apply Hin|].
    apply list_elem_of_singleton in Ho' as ->. simpl. lia.
  - simpl. apply IH; try done; lia.
Qed.

Lemma refold_id f obs : (forall o, o ∈ obs -> f o.1 = o.1) -> refold f obs = obs.
Proof.
  induction obs as [|[i c] obs IH]; intros Hf; [done|]. unfold refold in *. csimpl.
  rewrite IH by (intros; apply Hf; by right). f_equal. f_equal. apply (Hf (i, c)). left.
Qed.

Lemma same_counts_app o o1 o2 : same_counts o1 o2 -> same_counts (o ++ o1) (o ++ o2).
Proof. intros H k. unfold weight_at in *. rewrite !weight_of_app. f_equal. apply H. Qed.

Lemma bins_obs_ok lo bins : Forall (fun x => 0 <= x) bins ->
  Forall (fun o => lo <= o.1 < lo + length bins /\ 0 < o.2) (bins_obs lo bins).
Proof.
  intros Hb. revert lo. induction Hb as [|c bins Hc Hb IH]; intros lo; [constructor|].
  cbn [bins_obs length]. apply Forall_app. split.
  - destruct (Z.ltb_spec 0 c); [|constructor]. apply Forall_singleton. simpl. lia.
  - eapply Forall_impl; [apply IH|]. simpl. intros o. lia.
Qed.

Lemma match_cons {A B} (l : list A) (x y : B) : l <> [] -> match l with [] => x | _ :: _ => y end = y.
Proof. by destruct l. Qed.

(** The bins of a window, as observations within the limits. *)
Lemma window_obs_ok lo hi obs : lo <= hi -> - 2 ^ 29 <= lo -> hi <= 2 ^ 29 -> obs_ok obs ->
  obs_ok (bins_obs lo (window lo hi obs)) /\ total (bins_obs lo (window lo hi obs)) = total obs.
Proof.
  intros Hle Hlo Hhi Hok. pose proof (obs_ok_pos _ Hok) as Hp.
  assert (Ht : total (bins_obs lo (window lo hi obs)) = total obs).
  { rewrite (window_bins_obs lo hi obs Hle Hp). unfold total. by rewrite weight_of_refold. }
  split; [|done]. split; [|rewrite Ht; apply Hok].
  eapply Forall_impl; [apply bins_obs_ok, window_nonneg, Hp|]. intros o [Ho Hpos].
  rewrite window_length in Ho. unfold index_ok. split; [lia|done].
Qed.

Lemma obs_ok_app_intro o1 o2 : obs_ok o1 -> obs_ok o2 -> total o1 + total o2 <= u64_max -> obs_ok (o1 ++ o2).
Proof.
  intros [H1 _] [H2 _] Ht. split; [by apply Forall_app|]. unfold total in *. by rewrite weight_of_app.
Qed.

Lemma dense_merge_rep s other o1 o2 : dense_rep s o1 -> dense_rep other o2 -> obs_ok (o1 ++ o2) ->
  exists s', DenseStore_merge s other = Some s' /\ dense_rep s' (o1 ++ o2).
Proof.
  intros (Hok1 & Hc1 & Hrep1) (Hok2 & Hc2 & Hrep2) Hok. unfold DenseStore_merge.
  assert (Ht : total (o1 ++ o2) = total o1 + total o2) by (unfold total; apply weight_of_app).
  destruct Hrep2 as [[-> Hb2]|(m2 & M2 & Hs2 & Hw2)].
  { rewrite Hb2. exists s. rewrite app_nil_r. split; [done|]. by split_and!. }
  destruct Hw2 as [Hle2 Hr2 Hoff2 Hbins2 Hin2]. pose proof (obs_ok_pos _ Hok2) as Hp2.
  unfold DenseStore_min_index, DenseStore_max_index. rewrite Hbins2, Hoff2.
  rewrite match_cons by (by apply window_ne).
  rewrite (window_min_index m2 M2 o2 m2 M2), (window_max_index m2 M2 o2 m2 M2) by (done || lia || apply Hok2).
  replace (clamp m2 M2 m2) with m2 by (unfold clamp; lia). replace (clamp m2 M2 M2) with M2 by (unfold clamp; lia).
  destruct (spans_index_ok _ _ _ Hok2 Hs2) as [Him HiM].
  assert (exists lo hi, dense_window (DenseStore_grow M2 (DenseStore_grow m2 s)) lo hi o1 /\ lo <= m2 /\ M2 <= hi /\
    d_count (DenseStore_grow M2 (DenseStore_grow m2 s)) = total o1 /\ spans (o1 ++ o2) lo hi)
    as (lo & hi & Hw & Hlo & Hhi & Hcnt & Hspan).
  { destruct Hrep1 as [[-> Hb1]|(m1 & M1 & Hs1 & Hw1)].
    - destruct (dense_grow_empty s m2 Hb1 Him) as [Hw Hcnt].
      destruct (dense_grow_window _ _ _ _ M2 Hw HiM) as [Hw' Hcnt'].
      exists (Z.min m2 M2), (Z.max m2 M2). split_and!; [done|lia|lia|congruence|].
      by rewrite Z.min_l, Z.max_r by lia.
    - destruct (dense_grow_window _ _ _ _ m2 Hw1 Him) as [Hw Hcnt].
      destruct (dense_grow_window _ _ _ _ M2 Hw HiM) as [Hw' Hcnt'].
      eexists _, _. split; [exact Hw'|]. split_and!; [lia|lia|congruence|].
      pose proof (spans_app _ _ _ _ _ _ Hs1 Hs2) as Hsp. 
      replace (Z.min (Z.min m1 m2) M2) with (Z.min m1 m2) by lia.
      by replace (Z.max (Z.max M1 m2) M2) with (Z.max M1 M2) by lia. }
  destruct (window_obs_ok m2 M2 o2) as [Hokb Htb]; [lia|lia|lia|done|].
  destruct (dense_merge_bins_window m2 0 (window m2 M2 o2) _ lo hi o1 Hw) as (s' & -> & Hw' & Hcnt').
  { lia. } { rewrite window_length. lia. }
  { rewrite Z.add_0_r. apply obs_ok_app_intro; [done|done|]. destruct Hok as [_ Hok]. lia. } { lia. }
  simpl. eexists. split; [done|]. rewrite Z.add_0_r in Hw'.
  assert (Heq : same_counts (o1 ++ bins_obs m2 (window m2 M2 o2)) (o1 ++ o2)).
  { apply same_counts_app. rewrite (window_bins_obs m2 M2 o2) by done.
    rewrite refold_id; [done|]. intros o Ho. apply Hin2 in Ho. unfold clamp. lia. }
  split_and!; [done| |].
  - simpl. rewrite Hcnt', Hcnt, Hc2, Ht. pose proof (total_nonneg _ Hok1). pose proof (total_nonneg _ Hok2).
    destruct Hok as [_ Hok]. unfold saturating_add. lia.
  - right. exists lo, hi. split; [done|]. destruct Hw' as [? ? ? Hb ?].
    split; simpl; [done|done|done| |apply Hspan]. by rewrite Hb, Heq.
Qed.
