(* ===== verification/SketchCollapse.v ===== *)
(** * SketchCollapse: the bounded stores of the canonical DDSketch

    The representation of the two stores of [SketchStore] that keep at most [N] bins
    ([lib/ddsketch/src/canonical/store/collapsing_lowest.rs], [collapsing_highest.rs]): after any
    observations their bins are the window of [N] indices at the top (or the bottom) of the range
    seen, with everything outside counted at the edge, whatever the order of the observations. *)

From Stdlib Require Import ZArith Lia.
From stdpp Require Import base tactics list numbers option gmap.
From S2P Require Import Prelude SketchStore.
Open Scope Z_scope.

#[local] Coercion Z.of_nat : nat >-> Z.

(** ** The store that folds the lowest indices *)

(** The lowest index kept: [N] bins below the largest one. *)
Definition floor_of (N : nat) (m M : Z) : Z := Z.max m (M - N + 1).

(** The bins of a store of at most [N] bins that has seen [obs], with indices from [m] to [M];
    [f] says that a merge has already marked it as collapsed. *)
Record lowest_window (f : bool) (N : nat) (s : CollapsingLowestDenseStore) (m M : Z) (obs : list Obs) : Prop := {
  lw_bins : l_bins s = window (floor_of N m M) M obs;
  lw_offset : l_offset s = floor_of N m M;
  lw_max : l_max_num_bins s = N;
  lw_flag : l_is_collapsed s = f || (N <? M - m + 1);
}.

Definition cap_ok (N : nat) : Prop := (1 <= N)%nat /\ Z.of_nat N <= 2 ^ 29.

Lemma collapse_below_window f N s m M obs lo' :
  cap_ok N -> obs_ok obs -> spans obs m M -> index_ok m -> index_ok M -> lowest_window f N s m M obs ->
  floor_of N m M < lo' <= 2 ^ 29 ->
  collapse_below lo' s = Some (l_with (window lo' (Z.max lo' M) obs) lo' true s).
Proof.
  intros HN Hok Hs Hm HM [Hb Ho Hx Hf] Hlo. unfold cap_ok, index_ok in *. pose proof (spans_le _ _ _ Hs).
  assert (floor_of N m M <= M /\ - 2 ^ 29 <= floor_of N m M) as [HfM Hfl] by (unfold floor_of; lia).
  set (lo := floor_of N m M) in *. pose proof (obs_ok_pos _ Hok) as Hp. destruct Hok as [_ Ht].
  unfold collapse_below. rewrite Hb, Ho, match_cons, window_length by by apply window_ne. i32_exact.
  destruct (Nat.leb_spec (Z.to_nat (M - lo + 1)) (Z.to_nat (lo' - lo))) as [Hn|Hn].
  - rewrite Z.max_l, window_single by lia. rewrite sum_u64_exact; [by rewrite window_sum|by apply window_nonneg|].
    by rewrite window_sum.
  - destruct (window_fold_low lo lo' M obs) as (bins & -> & Hd); [lia|lia|done|done|].
    simpl. by rewrite Hd, Z.max_r by lia.
Qed.

Ltac low_step := cbn [mbind option_bind l_with l_bins l_offset l_max_num_bins l_count l_is_collapsed].

Section lowest_grow.
Context (f : bool) (N : nat) (s : CollapsingLowestDenseStore) (m M : Z) (obs : list Obs) (i : Z).
Context (HN : cap_ok N) (Hok : obs_ok obs) (Hs : spans obs m M) (Hi : index_ok i).
Context (Hw : lowest_window f N s m M obs).

Lemma lowest_bounds : m <= M /\ - 2 ^ 29 <= m /\ M <= 2 ^ 29 /\ m <= floor_of N m M <= M.
Proof using HN Hok Hs.
  destruct (spans_index_ok _ _ _ Hok Hs) as [Hm HM]. pose proof (spans_le _ _ _ Hs).
  unfold cap_ok, index_ok, floor_of in *. lia.
Qed.

Lemma lowest_in o : o ∈ obs -> m <= o.1 <= M.
Proof using Hs. apply Hs. Qed.

(** A new lowest index widens the window as far as the cap allows. *)
Lemma lowest_grow_below : i < floor_of N m M ->
  exists s', LowestStore_grow i s = Some s' /\ lowest_window f N s' (Z.min m i) (Z.max M i) obs /\
    l_count s' = l_count s.
Proof using All.
  intros Hil. pose proof lowest_bounds as (HmM & Hm & HM & Hfl & HfM). destruct Hw as [Hb Ho Hx Hf].
  unfold cap_ok, index_ok in *.
  unfold LowestStore_grow. rewrite Hb, Ho, match_cons, Hx, window_length by by apply window_ne.
  rewrite (proj2 (Z.ltb_lt _ _)) by done. i32_exact.
  destruct (Nat.ltb_spec N (Z.to_nat (M - floor_of N m M + 1) + Z.to_nat (floor_of N m M - i))) as [Hbig|Hfit].
  - assert (Hfl' : floor_of N (Z.min m i) (Z.max M i) = M - N + 1) by (unfold floor_of in *; lia).
    eexists. split; [done|]. split; [|by case_match].
    destruct (Nat.ltb_spec 0 (N - Z.to_nat (M - floor_of N m M + 1))) as [Hwd|Hwd].
    + assert (Hmm : floor_of N m M = m) by (unfold floor_of in *; lia). rewrite Hmm in *.
      split; simpl; rewrite ?Hfl'; [|lia|done|bool_lia].
      replace (N - Z.to_nat (M - m + 1))%nat with (Z.to_nat (m - (M - N + 1))) by lia.
      rewrite window_prepend; [f_equal; lia|lia|lia|]. intros o Hin. by apply lowest_in.
    + assert (Hmm : floor_of N m M = M - N + 1) by (unfold floor_of in *; lia). rewrite Hmm in *.
      split; simpl; rewrite ?Hfl'; [f_equal; lia|lia|done|bool_lia].
  - assert (Hmm : floor_of N m M = m) by (unfold floor_of in *; lia). rewrite Hmm in *.
    assert (Hfl' : floor_of N (Z.min m i) (Z.max M i) = i) by (unfold floor_of in *; lia).
    eexists. split; [done|]. split; [|done]. split; simpl; rewrite ?Hfl'; [|done|done|rewrite Hf; bool_lia].
    rewrite window_prepend; [f_equal; lia|lia|lia|]. intros o Hin. by apply lowest_in.
Qed.

(** A new highest index slides the window up, folding what falls out of it. *)
Lemma lowest_grow_above : M < i ->
  exists s', LowestStore_grow i s = Some s' /\ lowest_window f N s' (Z.min m i) (Z.max M i) obs /\
    l_count s' = l_count s.
Proof using All.
  intros HMi. pose proof lowest_bounds as (HmM & Hm & HM & Hfl & HfM).
  pose proof (spans_index_ok _ _ _ Hok Hs) as [Hm' HM'].
  pose proof (fun lo' => collapse_below_window f N s m M obs lo' HN Hok Hs Hm' HM' Hw) as Hcol.
  destruct Hw as [Hb Ho Hx Hf]. unfold cap_ok, index_ok in *.
  unfold LowestStore_grow. rewrite Hb, Ho, match_cons, Hx, window_length by by apply window_ne.
  rewrite (proj2 (Z.ltb_ge _ _)) by lia.
  revert Hcol. generalize (collapse_below) as cb. intros cb Hcol. i32_exact. rewrite (proj2 (Z.leb_le _ _)) by lia.
  destruct (Nat.ltb_spec N (Z.to_nat (i - floor_of N m M + 1))) as [Hbig|Hfit].
  - rewrite Hcol by lia. low_step. i32_exact. rewrite window_length, Hx.
    assert (Hfl' : floor_of N (Z.min m i) (Z.max M i) = i - N + 1) by (unfold floor_of in *; lia).
    eexists. split; [done|]. split; [|by case_match].
    destruct (Nat.ltb_spec (Z.to_nat (Z.max (i - N + 1) M - (i - N + 1) + 1))
      (Nat.min (Z.to_nat (i - (i - N + 1) + 1)) N)) as [Hw'|Hw'].
    + split; simpl; rewrite ?Hfl'; [|lia|done|unfold floor_of in *; bool_lia].
      replace (Nat.min (Z.to_nat (i - (i - N + 1) + 1)) N) with (Z.to_nat (Z.max M i - (i - N + 1) + 1)) by lia.
      rewrite window_resize; [f_equal; lia|lia|lia|]. intros o Hin. apply lowest_in in Hin. lia.
    + split; simpl; rewrite ?Hfl'; [|lia|done|unfold floor_of in *; bool_lia].
      by replace (Z.max M i) with (Z.max (i - N + 1) M) by lia.
  - low_step. rewrite Hb, Ho, Hx, window_length.
    assert (Hmm : floor_of N m M = m) by (unfold floor_of in *; lia). rewrite Hmm in *.
    assert (Hfl' : floor_of N (Z.min m i) (Z.max M i) = m) by (unfold floor_of in *; lia).
    i32_exact. rewrite (proj2 (Nat.ltb_lt _ _)) by lia.
    eexists. split; [done|]. split; [|done]. split; simpl; rewrite ?Hfl'; [|done|done|rewrite Hf; bool_lia].
    replace (Nat.min (Z.to_nat (i - m + 1)) N) with (Z.to_nat (Z.max M i - m + 1)) by lia.
    rewrite window_resize; [f_equal; lia|lia|lia|]. intros o Hin. apply lowest_in in Hin. lia.
Qed.

Lemma lowest_grow_window :
  exists s', LowestStore_grow i s = Some s' /\ lowest_window f N s' (Z.min m i) (Z.max M i) obs /\
    l_count s' = l_count s.
Proof using All.
  destruct (decide (i < floor_of N m M)) as [Hil|Hil]; [by apply lowest_grow_below|].
  destruct (decide (M < i)) as [HMi|HMi]; [by apply lowest_grow_above|].
  pose proof lowest_bounds as (HmM & Hm & HM & Hfl & HfM). destruct Hw as [Hb Ho Hx Hf].
  unfold cap_ok, index_ok in *. exists s. split; [|split; [|done]].
  - unfold LowestStore_grow. rewrite Hb, Ho, match_cons, window_length by by apply window_ne.
    rewrite (proj2 (Z.ltb_ge _ _)) by lia. i32_exact. by rewrite (proj2 (Z.leb_gt _ _)) by lia.
  - replace (Z.min m i) with m by lia. replace (Z.max M i) with M by lia. by split.
Qed.
End lowest_grow.

(** A store of at most [N] bins that has seen [obs]. *)
Definition lowest_rep (f : bool) (N : nat) (s : CollapsingLowestDenseStore) (obs : list Obs) : Prop :=
  obs_ok obs /\ l_count s = total obs /\ l_max_num_bins s = N /\
  ((obs = [] /\ l_bins s = [] /\ l_is_collapsed s = f) \/
   exists m M, spans obs m M /\ lowest_window f N s m M obs).

Lemma lowest_add_rep f N s obs i c : cap_ok N -> lowest_rep f N s obs -> obs_ok (obs ++ [(i, c)]) ->
  exists s', LowestStore_add i c s = Some s' /\ lowest_rep f N s' (obs ++ [(i, c)]).
Proof.
  intros HN (Hok & Hcount & Hmax & Hrep) Hok'. pose proof (obs_ok_snoc _ _ _ Hok') as (_ & Hi & Hc & Ht).
  unfold LowestStore_add. rewrite (proj2 (Z.eqb_neq _ _)) by lia.
  assert (exists s' m M, LowestStore_grow i s = Some s' /\ lowest_window f N s' m M obs /\
    l_count s' = l_count s /\ spans (obs ++ [(i, c)]) m M) as (s' & m & M & Hg & [Hb Ho Hx Hf] & Hcnt & Hs).
  { destruct Hrep as [(-> & Hb & Hf)|(m & M & Hs & Hw)].
    - unfold LowestStore_grow. rewrite Hb. eexists _, i, i. split; [done|].
      split_and!; [|done|apply spans_single]. unfold cap_ok in HN.
      assert (floor_of N i i = i) as Hfl by (unfold floor_of; lia).
      split; simpl; rewrite ?Hfl; [by rewrite window_single|done|done|rewrite Hf; destruct f; bool_lia].
    - destruct (lowest_grow_window f N s m M obs i) as (s' & Hg & Hw' & Hcnt); try done.
      exists s', (Z.min m i), (Z.max M i). split_and!; try done. apply spans_app; [done|apply spans_single]. }
  destruct (spans_index_ok _ _ _ Hok' Hs) as [Hm HM]. pose proof (spans_le _ _ _ Hs) as HmM.
  assert (HiM : m <= i <= M).
  { destruct Hs as [Hall _]. apply (Hall (i, c)). apply elem_of_app. right. left. }
  rewrite Hg. low_step. unfold LowestStore_bin_index. rewrite Hb, Ho, window_length.
  unfold cap_ok, index_ok in *.
  assert (floor_of N m M <= M /\ - 2 ^ 29 <= floor_of N m M) as [HfM Hfl] by (unfold floor_of; lia).
  pose proof (window_add (floor_of N m M) M i c obs HfM (obs_ok_pos _ Hok) Hc Ht) as Hadd.
  i32_exact.
  replace (if i <? floor_of N m M then _ else _) with (Z.to_nat (clamp (floor_of N m M) M i - floor_of N m M)).
  2:{ unfold clamp. destruct (Z.ltb_spec i (floor_of N m M)); [lia|]. i32_exact. lia. }
  rewrite Hadd. low_step. eexists. split; [done|]. split_and!; [done| |done|].
  - simpl. rewrite Hcnt, Hcount, total_snoc. pose proof (total_nonneg _ Hok). unfold saturating_add. lia.
  - right. exists m, M. split; [done|]. by split.
Qed.

Lemma lowest_merge_bins_rep f N off (i : nat) bins s obs :
  cap_ok N -> lowest_rep f N s obs -> obs_ok (obs ++ bins_obs (off + i) bins) ->
  - 2 ^ 29 <= off <= 2 ^ 29 -> off + i + length bins <= 2 ^ 29 + 1 ->
  exists s', LowestStore_merge_bins off i bins s = Some s' /\
    lowest_rep f N s' (obs ++ bins_obs (off + i) bins).
Proof.
  intros HN. revert i s obs. induction bins as [|c bins IH]; intros i s obs Hr Hok Hoff Hlen.
  { simpl. exists s. rewrite app_nil_r. done. }
  cbn [LowestStore_merge_bins bins_obs length] in *.
  replace (off + i + 1) with (off + S i) in * by lia.
  destruct (Z.ltb_spec 0 c) as [Hc|Hc].
  - rewrite app_assoc in Hok |- *. pose proof (obs_ok_app _ _ Hok) as [Hok1 _]. i32_exact.
    destruct (lowest_add_rep f N s obs (off + i) c) as (s' & -> & Hr'); [done..|]. simpl.
    apply IH; try done. lia.
  - simpl. apply IH; try done. lia.
Qed.

Lemma spans_unique obs m M m' M' : spans obs m M -> spans obs m' M' -> m = m' /\ M = M'.
Proof.
  intros (H1 & Hm1 & HM1) (H2 & Hm2 & HM2).
  apply list_elem_of_fmap in Hm1 as (? & -> & Ha), HM1 as (? & -> & Hb), Hm2 as (? & -> & Hc), HM2 as (? & -> & Hd).
  pose proof (H1 _ Hc). pose proof (H1 _ Hd). pose proof (H2 _ Ha). pose proof (H2 _ Hb). lia.
Qed.

Lemma window_ext lo hi o1 o2 :
  (forall k, weight_of (fun i => clamp lo hi i =? k) o1 = weight_of (fun i => clamp lo hi i =? k) o2) ->
  window lo hi o1 = window lo hi o2.
Proof. intros H. apply list_fmap_ext. intros _ k _. apply H. Qed.

(** Counting below the floor at the floor makes no difference to a store with a higher floor. *)
Lemma lowest_merge_fold f N N2 s o1 o2 m2 M2 :
  cap_ok N -> (N <= N2)%nat -> obs_ok (o1 ++ o2) -> spans o2 m2 M2 ->
  lowest_rep (f || (N2 <? M2 - m2 + 1)) N s (o1 ++ refold (clamp (floor_of N2 m2 M2) M2) o2) ->
  lowest_rep f N s (o1 ++ o2).
Proof.
  intros [HN _] HN2 Hok Hs2 (Hok' & Hc & Hmax & Hrep). pose proof (spans_le _ _ _ Hs2) as Hle2.
  assert (Hlo2 : m2 <= floor_of N2 m2 M2 <= M2) by (unfold floor_of; lia).
  assert (Hlo : floor_of N2 m2 M2 = m2 /\ M2 - m2 + 1 <= N2 \/ floor_of N2 m2 M2 = M2 - N2 + 1 /\ N2 < M2 - m2 + 1)
    by (unfold floor_of; lia).
  set (lo2 := floor_of N2 m2 M2) in *. clearbody lo2.
  assert (Hs2' : spans (refold (clamp lo2 M2) o2) lo2 M2).
  { pose proof (spans_refold (clamp lo2 M2) o2 m2 M2 ltac:(unfold clamp; lia) Hs2) as Hr.
    unfold clamp in Hr at 2 3. by rewrite Z.max_l, Z.max_r, Z.min_l in Hr by lia. }
  split_and!; [done| |done|].
  { rewrite Hc. unfold total. by rewrite !weight_of_app, weight_of_refold. }
  right. destruct Hrep as [(Hnil & _)|(m' & M' & Hs' & [Hb Ho Hx Hf])].
  { apply app_eq_nil in Hnil as [_ Hnil]. rewrite Hnil in Hs2'. destruct Hs2' as (_ & Hm & _).
    by apply not_elem_of_nil in Hm. }
  assert (exists m M, spans (o1 ++ o2) m M /\ M = M' /\ M2 <= M /\ m <= m2 /\
    m = Z.min m' m2 /\ m' <= lo2) as (m & M & Hs & -> & HM & Hm & Hmm & Hmc).
  { destruct (decide (o1 = [])) as [->|Hne].
    - destruct (spans_unique _ _ _ _ _ Hs' Hs2') as [-> ->]. exists m2, M2.
      split_and!; [done|lia..].
    - destruct (spans_ex o1 Hne) as (m1 & M1 & Hs1).
      destruct (spans_unique _ _ _ _ _ Hs' (spans_app _ _ _ _ _ _ Hs1 Hs2')) as [-> ->].
      exists (Z.min m1 m2), (Z.max M1 M2). split_and!; [by apply spans_app|lia..]. }
  exists m, M'. split; [done|].
  assert (Hfl : floor_of N m' M' = floor_of N m M') by (unfold floor_of; lia).
  split; [|by rewrite Ho|done|].
  - rewrite Hb, Hfl. apply window_ext. intros k. rewrite !weight_of_app, weight_of_refold. f_equal.
    apply weight_of_ext. intros o Hin. destruct Hs2 as [Hall _]. apply Hall in Hin.
    f_equal. unfold clamp, floor_of. lia.
  - rewrite Hf. destruct f; [done|]. bool_lia.
Qed.

Lemma same_counts_nil o : obs_ok o -> same_counts [] o -> o = [].
Proof.
  intros Hok Heq. destruct o as [|x o]; [done|]. exfalso.
  assert (Hx : x.1 ∈ @nil Z); [|by apply not_elem_of_nil in Hx].
  eapply (same_counts_elem (x :: o) []); [by apply obs_ok_pos|constructor|by symmetry|left].
Qed.

Lemma refold_clamp_ok lo hi o : lo <= hi -> - 2 ^ 29 <= lo -> hi <= 2 ^ 29 -> obs_ok o ->
  obs_ok (refold (clamp lo hi) o) /\ total (refold (clamp lo hi) o) = total o.
Proof.
  intros Hle Hlo Hhi [Ho Ht]. unfold total in *. rewrite weight_of_refold. split; [|done].
  split; [|unfold total; by rewrite weight_of_refold]. apply Forall_fmap. eapply Forall_impl; [exact Ho|].
  intros o' [_ Hp]. simpl. split; [|done]. unfold index_ok, clamp. lia.
Qed.

Lemma lowest_rep_proper f N s o1 o2 : lowest_rep f N s o1 -> same_counts o1 o2 -> obs_ok o2 -> lowest_rep f N s o2.
Proof.
  intros (Hok & Hc & Hm & Hrep) Heq Hok2. split_and!; [done|by rewrite <- Heq|done|].
  destruct Hrep as [(-> & Hb & Hf)|(m & M & Hs & [Hb Ho Hx Hf])].
  - left. split; [by apply same_counts_nil|done].
  - right. exists m, M. split; [apply (spans_proper o1); auto using obs_ok_pos|].
    split; [by rewrite <- Heq|done..].
Qed.

Lemma lowest_mark b N s obs : lowest_rep false N s obs ->
  lowest_rep b N (if b then l_with (l_bins s) (l_offset s) true s else s) obs.
Proof.
  intros Hr. destruct b; [|done]. destruct Hr as (Hok & Hc & Hm & Hrep). split_and!; [done..|].
  destruct Hrep as [(-> & Hb & Hf)|(m & M & Hs & [Hb Ho Hx Hf])]; [by left|right].
  exists m, M. split; [done|]. by split.
Qed.

Lemma lowest_merge_rep N N2 s other o1 o2 : cap_ok N -> cap_ok N2 -> (N <= N2)%nat ->
  lowest_rep false N s o1 -> lowest_rep false N2 other o2 -> obs_ok (o1 ++ o2) ->
  exists s', LowestStore_merge s other = Some s' /\ lowest_rep false N s' (o1 ++ o2).
Proof.
  intros HN HN2 Hle Hr1 (Hok2 & Hc2 & Hm2 & Hrep2) Hok. unfold LowestStore_merge.
  destruct Hrep2 as [(-> & Hb2 & _)|(m2 & M2 & Hs2 & [Hb Ho Hx Hf])].
  { rewrite Hb2. exists s. by rewrite app_nil_r. }
  destruct (spans_index_ok _ _ _ Hok2 Hs2) as [Him HiM]. pose proof (spans_le _ _ _ Hs2) as HmM.
  unfold index_ok, cap_ok in Him, HiM, HN2. set (lo2 := floor_of N2 m2 M2) in *.
  assert (Hlo2 : m2 <= lo2 <= M2) by (unfold lo2, floor_of; lia).
  rewrite Hb, Ho, match_cons by (apply window_ne; lia).
  pose proof (lowest_mark (l_is_collapsed other) N s o1 Hr1) as Hr1'.
  destruct (window_obs_ok lo2 M2 o2) as [Hokb Htb]; [lia|lia|lia|done|].
  destruct (refold_clamp_ok lo2 M2 o2) as [Hokr Htr]; [lia|lia|lia|done|].
  pose proof (proj1 (obs_ok_app _ _ Hok)) as Hok1.
  assert (Ht : total o1 + total o2 <= u64_max).
  { destruct Hok as [_ Ht]. unfold total in *. by rewrite weight_of_app in Ht. }
  destruct (lowest_merge_bins_rep _ N lo2 0 (window lo2 M2 o2) _ o1 HN Hr1') as (s' & Hs' & Hr').
  { rewrite Z.add_0_r. apply obs_ok_app_intro; [done|done|lia]. } { lia. } { rewrite window_length. lia. }
  exists s'. split; [done|]. rewrite Z.add_0_r, Hf in Hr'. eapply (lowest_merge_fold false N N2); try done.
  eapply lowest_rep_proper; [exact Hr'| |].
  - apply same_counts_app, window_bins_obs; [lia|by apply obs_ok_pos].
  - fold lo2. apply obs_ok_app_intro; [done|done|lia].
Qed.

(** ** The store that folds the highest indices *)

(** The highest index kept: [N] bins above the smallest one. *)
Definition ceiling_of (N : nat) (m M : Z) : Z := Z.min M (m + N - 1).

Record highest_window (f : bool) (N : nat) (s : CollapsingHighestDenseStore) (m M : Z) (obs : list Obs) : Prop := {
  hw_bins : h_bins s = window m (ceiling_of N m M) obs;
  hw_offset : h_offset s = m;
  hw_max : h_max_num_bins s = N;
  hw_flag : h_is_collapsed s = f || (N <? M - m + 1);
}.

Lemma collapse_above_window f N s m M obs hi' :
  cap_ok N -> obs_ok obs -> spans obs m M -> index_ok m -> index_ok M -> highest_window f N s m M obs ->
  hi' < ceiling_of N m M ->
  collapse_above hi' s = Some (h_with (window (Z.min m hi') hi' obs) (Z.min m hi') true s).
Proof.
  intros HN Hok Hs Hm HM [Hb Ho Hx Hf] Hlo. unfold cap_ok, index_ok in *. pose proof (spans_le _ _ _ Hs).
  assert (m <= ceiling_of N m M <= 2 ^ 29) as [Hcm Hcl] by (unfold ceiling_of; lia).
  set (hi := ceiling_of N m M) in *. pose proof (obs_ok_pos _ Hok) as Hp. destruct Hok as [_ Ht].
  unfold collapse_above. rewrite Hb, Ho, match_cons, window_length by by apply window_ne.
  destruct (Nat.eqb_spec (Z.to_nat (Z.max (hi' - m + 1) 0)) 0) as [Hk|Hk].
  - rewrite Z.min_r, window_single by lia. rewrite sum_u64_exact; [by rewrite window_sum|by apply window_nonneg|].
    by rewrite window_sum.
  - rewrite (proj2 (Nat.ltb_lt _ _)) by lia. rewrite Z.max_l, Z.min_l by lia.
    destruct (window_fold_high m hi hi' obs) as (bins & -> & Hd); [lia|lia|done|done|].
    simpl. by rewrite Hd.
Qed.

Ltac high_step := cbn [mbind option_bind h_with h_bins h_offset h_max_num_bins h_count h_is_collapsed].

Section highest_grow.
Context (f : bool) (N : nat) (s : CollapsingHighestDenseStore) (m M : Z) (obs : list Obs) (i : Z).
Context (HN : cap_ok N) (Hok : obs_ok obs) (Hs : spans obs m M) (Hi : index_ok i).
Context (Hw : highest_window f N s m M obs).

Lemma highest_bounds : m <= M /\ - 2 ^ 29 <= m /\ M <= 2 ^ 29 /\ m <= ceiling_of N m M <= M.
Proof using HN Hok Hs.
  destruct (spans_index_ok _ _ _ Hok Hs) as [Hm HM]. pose proof (spans_le _ _ _ Hs).
  unfold cap_ok, index_ok, ceiling_of in *. lia.
Qed.

(** A new highest index widens the window as far as the cap allows. *)
Lemma highest_grow_above : ceiling_of N m M < i ->
  exists s', HighestStore_grow i s = Some s' /\ highest_window f N s' (Z.min m i) (Z.max M i) obs /\
    h_count s' = h_count s.
Proof using All.
  intros Hci. pose proof highest_bounds as (HmM & Hm & HM & Hcl & HcM). destruct Hw as [Hb Ho Hx Hf].
  unfold cap_ok, index_ok in *.
  unfold HighestStore_grow. rewrite Hb, Ho, match_cons, Hx, window_length by by apply window_ne.
  i32_exact. rewrite (proj2 (Z.leb_le _ _)) by lia. assert (Hmin : Z.min m i = m) by lia.
  destruct (Nat.ltb_spec N (Z.to_nat (i - m + 1))) as [Hbig|Hfit].
  - assert (Hc' : ceiling_of N m (Z.max M i) = m + N - 1) by (unfold ceiling_of in *; lia).
    eexists. split; [done|]. split; [|done]. split; simpl; rewrite ?Hmin, ?Hc'; [|done|done|bool_lia].
    destruct (Nat.ltb_spec (Z.to_nat (ceiling_of N m M - m + 1)) N) as [Hlt|Hge].
    + replace N with (Z.to_nat (m + N - 1 - m + 1)) at 1 by lia.
      rewrite window_resize; [done|lia|lia|]. intros o Hin. apply Hs in Hin. unfold ceiling_of in *. lia.
    + f_equal. unfold ceiling_of in *. lia.
  - assert (HM' : ceiling_of N m M = M) by (unfold ceiling_of in *; lia). rewrite HM' in *.
    assert (Hc' : ceiling_of N m (Z.max M i) = i) by (unfold ceiling_of in *; lia).
    eexists. split; [done|]. split; [|done]. split; simpl; rewrite ?Hmin, ?Hc'; [|done|done|rewrite Hf; bool_lia].
    rewrite window_resize; [done|lia|lia|]. intros o Hin. by apply Hs.
Qed.

(** A new lowest index slides the window down, folding what falls out of it. *)
Lemma highest_grow_below : i < m ->
  exists s', HighestStore_grow i s = Some s' /\ highest_window f N s' (Z.min m i) (Z.max M i) obs /\
    h_count s' = h_count s.
Proof using All.
  intros Him. pose proof highest_bounds as (HmM & Hm & HM & Hcl & HcM).
  pose proof (spans_index_ok _ _ _ Hok Hs) as [Hm' HM'].
  pose proof (fun hi' => collapse_above_window f N s m M obs hi' HN Hok Hs Hm' HM' Hw) as Hcol.
  destruct Hw as [Hb Ho Hx Hf]. unfold cap_ok, index_ok in *.
  unfold HighestStore_grow. rewrite Hb, Ho, match_cons, Hx, window_length by by apply window_ne.
  revert Hcol. generalize (collapse_above) as cb. intros cb Hcol. i32_exact.
  rewrite (proj2 (Z.leb_gt _ _)), (proj2 (Z.ltb_lt _ _)) by lia. assert (Hmin : Z.min m i = i) by lia.
  destruct (Nat.ltb_spec N (Z.to_nat (ceiling_of N m M - m + 1) + Z.to_nat (m - i))) as [Hbig|Hfit].
  - rewrite Hcol by lia. high_step. i32_exact.
    assert (Hc' : ceiling_of N i (Z.max M i) = i + N - 1) by (unfold ceiling_of in *; lia).
    eexists. split; [done|]. split; [|by case_match].
    destruct (Nat.ltb_spec 0 (Z.to_nat (Z.min m (i + N - 1) - i))) as [Hp|Hp].
    + split; simpl; rewrite ?Hmin, ?Hc'; [|done|done|unfold ceiling_of in *; bool_lia].
      rewrite window_prepend; [done|lia|lia|]. intros o Hin. apply Hs in Hin. lia.
    + split; simpl; rewrite ?Hmin, ?Hc'; [|lia|done|unfold ceiling_of in *; bool_lia].
      by replace (Z.min m (i + N - 1)) with i by lia.
  - assert (HMe : ceiling_of N m M = M) by (unfold ceiling_of in *; lia). rewrite HMe in *.
    assert (Hc' : ceiling_of N i (Z.max M i) = M) by (unfold ceiling_of in *; lia).
    high_step. rewrite Hb, Ho. i32_exact. rewrite (proj2 (Nat.ltb_lt _ _)) by lia.
    eexists. split; [done|]. split; [|done]. split; simpl; rewrite ?Hmin, ?Hc'; [|done|done|rewrite Hf; bool_lia].
    rewrite window_prepend; [done|lia|lia|]. intros o Hin. by apply Hs.
Qed.

Lemma highest_grow_window :
  exists s', HighestStore_grow i s = Some s' /\ highest_window f N s' (Z.min m i) (Z.max M i) obs /\
    h_count s' = h_count s.
Proof using All.
  destruct (decide (ceiling_of N m M < i)) as [Hci|Hci]; [by apply highest_grow_above|].
  destruct (decide (i < m)) as [Him|Him]; [by apply highest_grow_below|].
  pose proof highest_bounds as (HmM & Hm & HM & Hcl & HcM). destruct Hw as [Hb Ho Hx Hf].
  unfold cap_ok, index_ok in *. exists s. split; [|split; [|done]].
  - unfold HighestStore_grow. rewrite Hb, Ho, match_cons, window_length by by apply window_ne.
    i32_exact. by rewrite (proj2 (Z.leb_gt _ _)), (proj2 (Z.ltb_ge _ _)) by lia.
  - replace (Z.min m i) with m by lia. replace (Z.max M i) with M by lia. by split.
Qed.
End highest_grow.

Definition highest_rep (f : bool) (N : nat) (s : CollapsingHighestDenseStore) (obs : list Obs) : Prop :=
  obs_ok obs /\ h_count s = total obs /\ h_max_num_bins s = N /\
  ((obs = [] /\ h_bins s = [] /\ h_is_collapsed s = f) \/
   exists m M, spans obs m M /\ highest_window f N s m M obs).

Lemma highest_add_rep f N s obs i c : cap_ok N -> highest_rep f N s obs -> obs_ok (obs ++ [(i, c)]) ->
  exists s', HighestStore_add i c s = Some s' /\ highest_rep f N s' (obs ++ [(i, c)]).
Proof.
  intros HN (Hok & Hcount & Hmax & Hrep) Hok'. pose proof (obs_ok_snoc _ _ _ Hok') as (_ & Hi & Hc & Ht).
  unfold HighestStore_add. rewrite (proj2 (Z.eqb_neq _ _)) by lia.
  assert (exists s' m M, HighestStore_grow i s = Some s' /\ highest_window f N s' m M obs /\
    h_count s' = h_count s /\ spans (obs ++ [(i, c)]) m M) as (s' & m & M & Hg & [Hb Ho Hx Hf] & Hcnt & Hs).
  { destruct Hrep as [(-> & Hb & Hf)|(m & M & Hs & Hw)].
    - unfold HighestStore_grow. rewrite Hb. eexists _, i, i. split; [done|].
      split_and!; [|done|apply spans_single]. unfold cap_ok in HN.
      assert (ceiling_of N i i = i) as Hfl by (unfold ceiling_of; lia).
      split; simpl; rewrite ?Hfl; [by rewrite window_single|done|done|rewrite Hf; destruct f; bool_lia].
    - destruct (highest_grow_window f N s m M obs i) as (s' & Hg & Hw' & Hcnt); try done.
      exists s', (Z.min m i), (Z.max M i). split_and!; try done. apply spans_app; [done|apply spans_single]. }
  destruct (spans_index_ok _ _ _ Hok' Hs) as [Hm HM]. pose proof (spans_le _ _ _ Hs) as HmM.
  assert (HiM : m <= i <= M).
  { destruct Hs as [Hall _]. apply (Hall (i, c)). apply elem_of_app. right. left. }
  rewrite Hg. high_step. unfold HighestStore_bin_index. rewrite Hb, Ho, window_length.
  unfold cap_ok, index_ok in *.
  assert (m <= ceiling_of N m M <= 2 ^ 29) as [HfM Hfl] by (unfold ceiling_of; lia).
  pose proof (window_add m (ceiling_of N m M) i c obs HfM (obs_ok_pos _ Hok) Hc Ht) as Hadd.
  i32_exact.
  replace (if m + _ <=? i then _ else _) with (Z.to_nat (clamp m (ceiling_of N m M) i - m)).
  2:{ unfold clamp. bool_lia. }
  rewrite Hadd. high_step. eexists. split; [done|]. split_and!; [done| |done|].
  - simpl. rewrite Hcnt, Hcount, total_snoc. pose proof (total_nonneg _ Hok). unfold saturating_add. lia.
  - right. exists m, M. split; [done|]. by split.
Qed.

Lemma highest_merge_bins_rep f N off (i : nat) bins s obs :
  cap_ok N -> highest_rep f N s obs -> obs_ok (obs ++ bins_obs (off + i) bins) ->
  - 2 ^ 29 <= off <= 2 ^ 29 -> off + i + length bins <= 2 ^ 29 + 1 ->
  exists s', HighestStore_merge_bins off i bins s = Some s' /\
    highest_rep f N s' (obs ++ bins_obs (off + i) bins).
Proof.
  intros HN. revert i s obs. induction bins as [|c bins IH]; intros i s obs Hr Hok Hoff Hlen.
  { simpl. exists s. rewrite app_nil_r. done. }
  cbn [HighestStore_merge_bins bins_obs length] in *.
  replace (off + i + 1) with (off + S i) in * by lia.
  destruct (Z.ltb_spec 0 c) as [Hc|Hc].
  - rewrite app_assoc in Hok |- *. pose proof (obs_ok_app _ _ Hok) as [Hok1 _]. i32_exact.
    destruct (highest_add_rep f N s obs (off + i) c) as (s' & -> & Hr'); [done..|]. simpl.
    apply IH; try done. lia.
  - simpl. apply IH; try done. lia.
Qed.

(** Counting above the ceiling at the ceiling makes no difference to a store with a lower ceiling. *)
Lemma highest_merge_fold f N N2 s o1 o2 m2 M2 :
  cap_ok N -> (N <= N2)%nat -> obs_ok (o1 ++ o2) -> spans o2 m2 M2 ->
  highest_rep (f || (N2 <? M2 - m2 + 1)) N s (o1 ++ refold (clamp m2 (ceiling_of N2 m2 M2)) o2) ->
  highest_rep f N s (o1 ++ o2).
Proof.
  intros [HN _] HN2 Hok Hs2 (Hok' & Hc & Hmax & Hrep). pose proof (spans_le _ _ _ Hs2) as Hle2.
  assert (Hhi2 : m2 <= ceiling_of N2 m2 M2 <= M2) by (unfold ceiling_of; lia).
  assert (Hhi : ceiling_of N2 m2 M2 = M2 /\ M2 - m2 + 1 <= N2 \/
                ceiling_of N2 m2 M2 = m2 + N2 - 1 /\ N2 < M2 - m2 + 1) by (unfold ceiling_of; lia).
  set (hi2 := ceiling_of N2 m2 M2) in *. clearbody hi2.
  assert (Hs2' : spans (refold (clamp m2 hi2) o2) m2 hi2).
  { pose proof (spans_refold (clamp m2 hi2) o2 m2 M2 ltac:(unfold clamp; lia) Hs2) as Hr.
    unfold clamp in Hr at 2 3. rewrite (Z.min_r hi2 m2), (Z.min_l hi2 M2), Z.max_id, Z.max_r in Hr by lia. done. }
  split_and!; [done| |done|].
  { rewrite Hc. unfold total. by rewrite !weight_of_app, weight_of_refold. }
  right. destruct Hrep as [(Hnil & _)|(m' & M' & Hs' & [Hb Ho Hx Hf])].
  { apply app_eq_nil in Hnil as [_ Hnil]. rewrite Hnil in Hs2'. destruct Hs2' as (_ & Hm & _).
    by apply not_elem_of_nil in Hm. }
  assert (exists m M, spans (o1 ++ o2) m M /\ m = m' /\ M2 <= M /\ m <= m2 /\
    M = Z.max M' M2 /\ hi2 <= M') as (m & M & Hs & -> & HM & Hm & HMM & Hmc).
  { destruct (decide (o1 = [])) as [->|Hne].
    - destruct (spans_unique _ _ _ _ _ Hs' Hs2') as [-> ->]. exists m2, M2. split_and!; [done|lia..].
    - destruct (spans_ex o1 Hne) as (m1 & M1 & Hs1).
      destruct (spans_unique _ _ _ _ _ Hs' (spans_app _ _ _ _ _ _ Hs1 Hs2')) as [-> ->].
      exists (Z.min m1 m2), (Z.max M1 M2). split_and!; [by apply spans_app|lia..]. }
  exists m', M. split; [done|].
  assert (Hcl : ceiling_of N m' M' = ceiling_of N m' M) by (unfold ceiling_of; lia).
  split; [|done|done|].
  - rewrite Hb, Hcl. apply window_ext. intros k. rewrite !weight_of_app, weight_of_refold. f_equal.
    apply weight_of_ext. intros o Hin. destruct Hs2 as [Hall _]. apply Hall in Hin.
    f_equal. unfold clamp, ceiling_of. lia.
  - rewrite Hf. destruct f; [done|]. bool_lia.
Qed.

Lemma highest_rep_proper f N s o1 o2 : highest_rep f N s o1 -> same_counts o1 o2 -> obs_ok o2 -> highest_rep f N s o2.
Proof.
  intros (Hok & Hc & Hm & Hrep) Heq Hok2. split_and!; [done|by rewrite <- Heq|done|].
  destruct Hrep as [(-> & Hb & Hf)|(m & M & Hs & [Hb Ho Hx Hf])].
  - left. split; [by apply same_counts_nil|done].
  - right. exists m, M. split; [apply (spans_proper o1); auto using obs_ok_pos|].
    split; [by rewrite <- Heq|done..].
Qed.

Lemma highest_mark b N s obs : highest_rep false N s obs ->
  highest_rep b N (if b then h_with (h_bins s) (h_offset s) true s else s) obs.
Proof.
  intros Hr. destruct b; [|done]. destruct Hr as (Hok & Hc & Hm & Hrep). split_and!; [done..|].
  destruct Hrep as [(-> & Hb & Hf)|(m & M & Hs & [Hb Ho Hx Hf])]; [by left|right].
  exists m, M. split; [done|]. by split.
Qed.

Lemma highest_merge_rep N N2 s other o1 o2 : cap_ok N -> cap_ok N2 -> (N <= N2)%nat ->
  highest_rep false N s o1 -> highest_rep false N2 other o2 -> obs_ok (o1 ++ o2) ->
  exists s', HighestStore_merge s other = Some s' /\ highest_rep false N s' (o1 ++ o2).
Proof.
  intros HN HN2 Hle Hr1 (Hok2 & Hc2 & Hm2 & Hrep2) Hok. unfold HighestStore_merge.
  destruct Hrep2 as [(-> & Hb2 & _)|(m2 & M2 & Hs2 & [Hb Ho Hx Hf])].
  { rewrite Hb2. exists s. by rewrite app_nil_r. }
  destruct (spans_index_ok _ _ _ Hok2 Hs2) as [Him HiM]. pose proof (spans_le _ _ _ Hs2) as HmM.
  unfold index_ok, cap_ok in Him, HiM, HN2. set (hi2 := ceiling_of N2 m2 M2) in *.
  assert (Hhi2 : m2 <= hi2 <= M2) by (unfold hi2, ceiling_of; lia).
  rewrite Hb, Ho, match_cons by (apply window_ne; lia).
  pose proof (highest_mark (h_is_collapsed other) N s o1 Hr1) as Hr1'.
  destruct (window_obs_ok m2 hi2 o2) as [Hokb Htb]; [lia|lia|lia|done|].
  destruct (refold_clamp_ok m2 hi2 o2) as [Hokr Htr]; [lia|lia|lia|done|].
  pose proof (proj1 (obs_ok_app _ _ Hok)) as Hok1.
  assert (Ht : total o1 + total o2 <= u64_max).
  { destruct Hok as [_ Ht]. unfold total in *. by rewrite weight_of_app in Ht. }
  destruct (highest_merge_bins_rep _ N m2 0 (window m2 hi2 o2) _ o1 HN Hr1') as (s' & Hs' & Hr').
  { rewrite Z.add_0_r. apply obs_ok_app_intro; [done|done|lia]. } { lia. } { rewrite window_length. lia. }
  exists s'. split; [done|]. rewrite Z.add_0_r, Hf in Hr'. eapply (highest_merge_fold false N N2); try done.
  eapply highest_rep_proper; [exact Hr'| |].
  - apply same_counts_app, window_bins_obs; [lia|by apply obs_ok_pos].
  - fold hi2. apply obs_ok_app_intro; [done|done|lia].
Qed.

