(* ===== verification/SketchContract.v ===== *)
(** * SketchContract: what the canonical DDSketch relies on its stores for

    The contract of the [Store] trait ([lib/ddsketch/src/canonical/store/mod.rs]) as a class of laws,
    its four implementations, and what follows for a store built by any sequence of operations: the
    counts, the extremes and the rank queries it answers with are those of the observations made,
    each counted where the store places it. *)

From Stdlib Require Import ZArith Lia Sorted.
From stdpp Require Import base tactics list sorting numbers option gmap.
From S2P Require Import Prelude SketchStore SketchCollapse.
Open Scope Z_scope.

#[local] Coercion Z.of_nat : nat >-> Z.

(** ** The contract *)

(** [k] is the index of the observation of rank [r], counting from the smallest. *)
Definition rank_index (obs : list Obs) (r k : Z) : Prop :=
  weight_of (fun i => i <? k) obs <= r < weight_of (fun i => i <=? k) obs.

(** The store answers every query as [obs] with each index [i] counted at [g i]. *)
Record answers {S} `{Store S} (s : S) (obs : list Obs) (g : Z -> Z) : Prop := {
  ans_total : total_count s = total obs;
  ans_empty : is_empty s = bool_decide (obs = []);
  ans_none : obs = [] -> min_index s = None /\ max_index s = None;
  ans_min : forall m M, spans obs m M -> min_index s = Some (g m);
  ans_max : forall m M, spans obs m M -> max_index s = Some (g M);
  ans_rank : forall r k, 0 <= r -> rank_index obs r k -> key_at_rank r s = Some (g k);
  ans_past : forall r, total obs <= r -> key_at_rank r s = None;
}.

(** [holds s obs]: the store has seen exactly [obs]. *)
Class StoreLaws (S : Type) `{Store S} (place : list Obs -> Z -> Z) (holds : S -> list Obs -> Prop) := {
  law_ok s obs : holds s obs -> obs_ok obs;
  law_add_zero s i : add i 0 s = Some s;
  law_add s obs i c : holds s obs -> obs_ok (obs ++ [(i, c)]) ->
    exists s', add i c s = Some s' /\ holds s' (obs ++ [(i, c)]);
  law_merge s other o1 o2 : holds s o1 -> holds other o2 -> obs_ok (o1 ++ o2) ->
    exists s', merge s other = Some s' /\ holds s' (o1 ++ o2);
  law_clear s obs : holds s obs -> holds (clear s) [];
  law_answers s obs : holds s obs -> answers s obs (place obs);
}.

(** ** Ranks *)

Lemma weight_of_mono p q obs : Forall (fun o => 0 < o.2) obs ->
  (forall o, o ∈ obs -> p o.1 = true -> q o.1 = true) -> weight_of p obs <= weight_of q obs.
Proof.
  intros Hp. induction Hp as [|o obs Ho Hp IH]; intros Hpq; [done|]. unfold weight_of in *. simpl.
  specialize (IH ltac:(intros; apply Hpq; [by right|done])). specialize (Hpq o ltac:(left)).
  destruct (p o.1), (q o.1); try lia.
Qed.

Lemma rank_index_unique obs r k k' : Forall (fun o => 0 < o.2) obs ->
  rank_index obs r k -> rank_index obs r k' -> k = k'.
Proof.
  intros Hp [H1 H2] [H3 H4].
  assert (Hm : forall a b, a < b -> weight_of (fun i => i <=? a) obs <= weight_of (fun i => i <? b) obs).
  { intros a b Hab. apply weight_of_mono; [done|]. intros o _. bool_lia. }
  destruct (Z.lt_trichotomy k k') as [Hlt|[?|Hlt]]; [|done|]; apply Hm in Hlt; lia.
Qed.

Lemma rank_index_refold obs r k g : Forall (fun o => 0 < o.2) obs -> (forall x y, x <= y -> g x <= g y) ->
  rank_index obs r k -> rank_index (refold g obs) r (g k).
Proof.
  intros Hp Hg [H1 H2]. unfold rank_index. rewrite !weight_of_refold. split.
  - etrans; [|exact H1]. apply weight_of_mono; [done|]. intros o _. specialize (Hg k o.1). bool_lia.
  - eapply Z.lt_le_trans; [exact H2|]. apply weight_of_mono; [done|]. intros o _. specialize (Hg o.1 k). bool_lia.
Qed.

Lemma rank_index_total obs r k : Forall (fun o => 0 < o.2) obs -> rank_index obs r k -> r < total obs.
Proof. intros Hp [_ H2]. eapply Z.lt_le_trans; [exact H2|]. by apply weight_of_le. Qed.

Lemma rank_index_in obs r k m M : 0 <= r -> Forall (fun o => 0 < o.2) obs -> spans obs m M ->
  rank_index obs r k -> m <= k <= M.
Proof.
  intros Hr Hp [Hall _] Hk. pose proof (rank_index_total _ _ _ Hp Hk). destruct Hk as [H1 H2]. split.
  - destruct (Z.le_gt_cases m k) as [|Hlt]; [done|]. rewrite weight_of_none in H2; [lia|].
    intros o Ho. apply Hall in Ho. bool_lia.
  - destruct (Z.le_gt_cases k M) as [|Hlt]; [done|].
    rewrite (weight_of_ext _ (fun _ => true)) in H1; [fold (total obs) in H1; lia|].
    intros o Ho. apply Hall in Ho. bool_lia.
Qed.

Lemma spans_nil m M : ~ spans [] m M.
Proof. intros (_ & Hm & _). by apply not_elem_of_nil in Hm. Qed.

Lemma rank_index_ex obs r : obs_ok obs -> 0 <= r < total obs -> exists k, rank_index obs r k.
Proof.
  intros Hok Hr. destruct (decide (obs = [])) as [->|Hne]; [unfold total, weight_of in Hr; simpl in Hr; lia|].
  destruct (spans_ex obs Hne) as (m & M & Hs). pose proof (spans_le _ _ _ Hs).
  destruct (spans_index_ok _ _ _ Hok Hs) as [Hm HM]. unfold index_ok in *.
  destruct (window_rank m M obs m M) with (rank := r) as (k & _ & _ & Hk); try done; try lia.
  { by apply obs_ok_pos. } { apply Hok. }
  exists k. unfold rank_index. destruct Hs as [Hall _].
  rewrite (weight_of_ext _ (fun i => clamp m M i <? k)), (weight_of_ext (fun i => i <=? k) (fun i => clamp m M i <=? k));
    [done|intros o Ho; apply Hall in Ho; unfold clamp; bool_lia..].
Qed.

Lemma total_zero obs : obs_ok obs -> total obs = 0 -> obs = [].
Proof.
  intros Hok Ht. destruct obs as [|o obs]; [done|]. exfalso.
  pose proof (weight_of_pos (fun _ => true) (o :: obs) o (obs_ok_pos _ Hok) ltac:(left) eq_refl). unfold total in *. lia.
Qed.

Lemma total_eqb obs : obs_ok obs -> (total obs =? 0) = bool_decide (obs = []).
Proof.
  intros Hok. destruct (Z.eqb_spec (total obs) 0) as [Ht|Ht].
  - by rewrite (total_zero obs) by done.
  - symmetry. apply bool_decide_eq_false. by intros ->.
Qed.

(** ** Where the bounded stores place an index *)

Definition top (obs : list Obs) : Z := foldr (fun o a => Z.max o.1 a) (- 2 ^ 31) obs.
Definition bottom (obs : list Obs) : Z := foldr (fun o a => Z.min o.1 a) (2 ^ 31 - 1) obs.

(** At most [N] bins down from the largest index *)
Definition place_lowest (N : nat) (obs : list Obs) (i : Z) : Z := Z.max i (top obs - N + 1).
(** At most [N] bins up from the smallest index *)
Definition place_highest (N : nat) (obs : list Obs) (i : Z) : Z := Z.min i (bottom obs + N - 1).

Lemma top_bounds obs a : (forall o, o ∈ obs -> o.1 <= a) -> - 2 ^ 31 <= a -> top obs <= a.
Proof.
  intros Ho Ha. induction obs as [|o obs IH]; [done|]. simpl. pose proof (Ho o ltac:(left)).
  specialize (IH ltac:(intros; apply Ho; by right)). lia.
Qed.

Lemma bottom_bounds obs a : (forall o, o ∈ obs -> a <= o.1) -> a <= 2 ^ 31 - 1 -> a <= bottom obs.
Proof.
  intros Ho Ha. induction obs as [|o obs IH]; [done|]. simpl. pose proof (Ho o ltac:(left)).
  specialize (IH ltac:(intros; apply Ho; by right)). lia.
Qed.

Lemma top_ge obs i : i ∈ obs.*1 -> i <= top obs.
Proof.
  induction obs as [|o obs IH]; [by intros ?%not_elem_of_nil|]. csimpl.
  intros [->|Hi]%elem_of_cons; [lia|]. apply IH in Hi. lia.
Qed.

Lemma bottom_le obs i : i ∈ obs.*1 -> bottom obs <= i.
Proof.
  induction obs as [|o obs IH]; [by intros ?%not_elem_of_nil|]. csimpl.
  intros [->|Hi]%elem_of_cons; [lia|]. apply IH in Hi. lia.
Qed.

Lemma spans_top obs m M : obs_ok obs -> spans obs m M -> top obs = M /\ bottom obs = m.
Proof.
  intros Hok Hs. destruct (spans_index_ok _ _ _ Hok Hs) as [Hm HM]. unfold index_ok in *.
  destruct Hs as (Hall & HmI & HMI). apply top_ge in HMI. apply bottom_le in HmI.
  pose proof (top_bounds obs M ltac:(intros; by apply Hall) ltac:(lia)).
  pose proof (bottom_bounds obs m ltac:(intros; by apply Hall) ltac:(lia)). lia.
Qed.

(** ** The queries of the dense stores *)

Section dense_queries.
Context {S : Type} `{Store S} (s : S) (obs : list Obs) (bins : list Z) (offset : Z).
Context (Htotal : total_count s = total obs) (Hempty : is_empty s = (total_count s =? 0))
  (Hmin : min_index s = first_nonzero offset 0 bins) (Hmax : max_index s = last_nonzero offset 0 bins)
  (Hrank : forall r, key_at_rank r s = bins_key_at_rank bins offset (total_count s) r) (Hok : obs_ok obs).

Lemma empty_answers g : obs = [] -> bins = [] -> answers s obs g.
Proof using All.
  intros Ho Hb. rewrite Hb in *. split; rewrite ?Hmin, ?Hmax; try (rewrite Ho; by intros ?? ?%spans_nil).
  - done.
  - by rewrite Hempty, Htotal, total_eqb.
  - done.
  - intros r k Hr Hk. apply rank_index_total in Hk; [|by apply obs_ok_pos]. rewrite Ho in Hk. unfold total, weight_of in Hk. simpl in Hk. lia.
  - intros r Hr. rewrite Hrank, Htotal. unfold bins_key_at_rank. by rewrite (proj2 (Z.leb_le _ _)).
Qed.

Lemma window_answers m M lo hi g :
  spans obs m M -> m <= lo <= hi -> hi <= M -> bins = window lo hi obs -> offset = lo ->
  (forall i, m <= i <= M -> g i = clamp lo hi i) -> answers s obs g.
Proof using All.
  intros Hs Hlo Hhi Hb Ho Hg. destruct (spans_index_ok _ _ _ Hok Hs) as [Hm HM]. unfold index_ok in *.
  pose proof (obs_ok_pos _ Hok) as Hp. pose proof (spans_le _ _ _ Hs).
  split; rewrite ?Hmin, ?Hmax, ?Hb, ?Ho.
  - done.
  - by rewrite Hempty, Htotal, total_eqb.
  - intros Hn. rewrite Hn in Hs. by apply spans_nil in Hs.
  - intros m' M' Hs'. destruct (spans_unique _ _ _ _ _ Hs' Hs) as [-> ->].
    rewrite Hg by lia. apply (window_min_index lo hi obs m M); try done; try lia. apply Hok.
  - intros m' M' Hs'. destruct (spans_unique _ _ _ _ _ Hs' Hs) as [-> ->].
    rewrite Hg by lia. apply (window_max_index lo hi obs m M); try done; try lia. apply Hok.
  - intros r k Hr Hk. pose proof (rank_index_total _ _ _ Hp Hk) as Hrt.
    rewrite Hg by (by eapply rank_index_in). rewrite Hrank, Hb, Ho, Htotal.
    destruct (window_rank lo hi obs m M) with (rank := r) as (k' & -> & _ & Hk'); try done; try lia; [apply Hok|].
    f_equal. apply (rank_index_unique (refold (clamp lo hi) obs) r).
    + eapply Forall_fmap, Forall_impl; [exact Hp|done].
    + unfold rank_index. by rewrite !weight_of_refold.
    + apply rank_index_refold; [done| |done]. unfold clamp. lia.
  - intros r Hr. rewrite Hrank, Htotal. unfold bins_key_at_rank. by rewrite (proj2 (Z.leb_le _ _)).
Qed.
End dense_queries.

(** ** The four stores *)

#[export] Instance dense_laws : StoreLaws DenseStore (fun _ i => i) dense_rep.
Proof.
  split.
  - by intros s obs [Hok _].
  - done.
  - apply dense_add_rep.
  - apply dense_merge_rep.
  - intros s obs _. split_and!; [|done|by left]. by split; [constructor|].
  - intros s obs (Hok & Hc & [[Hn Hb]|(m & M & Hs & [Hle Hr Ho Hb Hin])]).
    + by eapply (empty_answers s obs (d_bins s) (d_offset s)).
    + eapply (window_answers s obs (d_bins s) (d_offset s)) with
        (m := m) (M := M) (lo := m) (hi := M); try done; try lia. intros i Hi. unfold clamp. lia.
Qed.

#[export] Instance lowest_laws N : cap_ok N ->
  StoreLaws CollapsingLowestDenseStore (place_lowest N) (lowest_rep false N).
Proof.
  intros HN. split.
  - by intros s obs [Hok _].
  - done.
  - intros. by apply lowest_add_rep.
  - intros. by eapply lowest_merge_rep.
  - intros s obs (_ & _ & Hm & _). split_and!; [|done|done|by left]. by split; [constructor|].
  - intros s obs (Hok & Hc & Hx & [(Hn & Hb & _)|(m & M & Hs & [Hb Ho _ _])]).
    + by eapply (empty_answers s obs (l_bins s) (l_offset s)).
    + destruct (spans_top _ _ _ Hok Hs) as [Ht _]. pose proof (spans_le _ _ _ Hs). unfold cap_ok in HN.
      eapply (window_answers s obs (l_bins s) (l_offset s)) with
        (m := m) (M := M) (lo := floor_of N m M) (hi := M); try done; unfold floor_of; try lia.
      intros i Hi. unfold place_lowest, clamp. lia.
Qed.

#[export] Instance highest_laws N : cap_ok N ->
  StoreLaws CollapsingHighestDenseStore (place_highest N) (highest_rep false N).
Proof.
  intros HN. split.
  - by intros s obs [Hok _].
  - done.
  - intros. by apply highest_add_rep.
  - intros. by eapply highest_merge_rep.
  - intros s obs (_ & _ & Hm & _). split_and!; [|done|done|by left]. by split; [constructor|].
  - intros s obs (Hok & Hc & Hx & [(Hn & Hb & _)|(m & M & Hs & [Hb Ho _ _])]).
    + by eapply (empty_answers s obs (h_bins s) (h_offset s)).
    + destruct (spans_top _ _ _ Hok Hs) as [_ Ht]. pose proof (spans_le _ _ _ Hs). unfold cap_ok in HN.
      eapply (window_answers s obs (h_bins s) (h_offset s)) with
        (m := m) (M := M) (lo := m) (hi := ceiling_of N m M); try done; unfold ceiling_of; try lia.
      intros i Hi. unfold place_highest, clamp. lia.
Qed.

(** ** The sparse store *)

Definition sparse_bins (m : gmap Z Z) (obs : list Obs) : Prop :=
  (forall k c, m !! k = Some c -> 0 < c) /\ forall k, default 0 (m !! k) = weight_at k obs.

Definition sparse_rep (s : SparseStore) (obs : list Obs) : Prop :=
  obs_ok obs /\ s_count s = total obs /\ sparse_bins (s_bins s) obs.

Lemma btree_iter_perm m : btree_iter m ≡ₚ map_to_list m.
Proof. apply stable_sort_perm. Qed.

Lemma btree_iter_sorted m : StronglySorted (fun x y => by_index x y = true) (btree_iter m).
Proof.
  apply stable_sort_sorted; unfold by_index.
  - intros x y. bool_lia.
  - intros x y z. bool_lia.
Qed.

Lemma weight_at_map m k : weight_at k (map_to_list m) = default 0 (m !! k).
Proof.
  induction m as [|i c m Hi IH] using map_ind.
  - rewrite map_to_list_empty, lookup_empty. done.
  - unfold weight_at, weight_of in *. rewrite map_to_list_insert by done. simpl.
    destruct (Z.eqb_spec i k) as [->|Hne].
    + rewrite lookup_insert_eq, IH, Hi. simpl. lia.
    + by rewrite lookup_insert_ne, IH by done.
Qed.

Lemma btree_iter_counts m obs : sparse_bins m obs -> same_counts (btree_iter m) obs.
Proof.
  intros [_ Hw] k. rewrite <- Hw, <- weight_at_map. unfold weight_at, weight_of. by rewrite btree_iter_perm.
Qed.

Lemma btree_iter_pos m obs : sparse_bins m obs -> Forall (fun o => 0 < o.2) (btree_iter m).
Proof.
  intros [Hp _]. rewrite Forall_forall. intros [k c] Hin. rewrite btree_iter_perm in Hin.
  apply elem_of_map_to_list in Hin. by apply (Hp k).
Qed.

Lemma entry_add_bins m obs i c : sparse_bins m obs -> obs_ok (obs ++ [(i, c)]) ->
  sparse_bins (entry_add i c m) (obs ++ [(i, c)]).
Proof.
  intros [Hp Hw] Hok. apply obs_ok_snoc in Hok as (Hok & Hi & Hc & Ht). unfold entry_add.
  pose proof (weight_of_le (fun j => j =? i) obs (obs_ok_pos _ Hok)) as Hle.
  pose proof (weight_of_nonneg (fun j => j =? i) obs (obs_ok_pos _ Hok)) as Hnn.
  fold (weight_at i obs) in Hle, Hnn. rewrite Hw, wrapping_add_exact by (split; lia). split.
  - intros k x. destruct (decide (i = k)) as [->|Hne]; [rewrite lookup_insert_eq|rewrite lookup_insert_ne by done].
    + intros [= <-]. lia.
    + apply Hp.
  - intros k. unfold weight_at. rewrite weight_of_snoc. fold (weight_at k obs). destruct (Z.eqb_spec i k) as [->|Hne].
    + by rewrite lookup_insert_eq.
    + by rewrite lookup_insert_ne, Hw, Z.add_0_r by done.
Qed.

Lemma merge_entries_bins l m obs : sparse_bins m obs -> obs_ok (obs ++ l) ->
  sparse_bins (fold_left (fun m '(index, count) => if 0 <? count then entry_add index count m else m) l m) (obs ++ l).
Proof.
  revert m obs. induction l as [|[i c] l IH]; intros m obs Hb Hok; [by rewrite app_nil_r|].
  rewrite (app_assoc obs [(i, c)] l : obs ++ (i, c) :: l = _) in Hok |- *. simpl. pose proof (obs_ok_app _ _ Hok) as [Hok1 _].
  pose proof (obs_ok_snoc _ _ _ Hok1) as (_ & _ & Hc & _). rewrite (proj2 (Z.ltb_lt _ _)) by done.
  apply IH; [|done]. by apply entry_add_bins.
Qed.

Lemma sparse_add_rep s obs i c : sparse_rep s obs -> obs_ok (obs ++ [(i, c)]) ->
  sparse_rep (SparseStore_add i c s) (obs ++ [(i, c)]).
Proof.
  intros (Hok & Hc & Hb) Hok'. pose proof (obs_ok_snoc _ _ _ Hok') as (_ & _ & Hp & Ht).
  unfold SparseStore_add. rewrite (proj2 (Z.eqb_neq _ _)) by lia. split_and!; simpl; [done| |by apply entry_add_bins].
  rewrite Hc, total_snoc. pose proof (total_nonneg _ Hok). unfold saturating_add. lia.
Qed.

Lemma sparse_merge_rep s other o1 o2 : sparse_rep s o1 -> sparse_rep other o2 -> obs_ok (o1 ++ o2) ->
  sparse_rep (SparseStore_merge s other) (o1 ++ o2).
Proof.
  intros (Hok1 & Hc1 & Hb1) (Hok2 & Hc2 & Hb2) Hok. pose proof (btree_iter_counts _ _ Hb2) as Heq.
  pose proof (btree_iter_pos _ _ Hb2) as Hp2. set (l := btree_iter (s_bins other)) in *.
  assert (Ht : total o1 + total o2 <= u64_max).
  { destruct Hok as [_ Ht]. unfold total in *. by rewrite weight_of_app in Ht. }
  assert (Hokl : obs_ok l).
  { split; [|rewrite Heq; apply Hok2]. rewrite Forall_forall in Hp2 |- *. intros o Ho. split; [|by apply Hp2].
    assert (Hi : o.1 ∈ o2.*1).
    { eapply same_counts_elem; [by apply Forall_forall, Hp2|by apply obs_ok_pos|done|by apply list_elem_of_fmap_2]. }
    apply list_elem_of_fmap in Hi as (x & -> & Hx). destruct Hok2 as [Hf _]. rewrite Forall_forall in Hf. by apply Hf. }
  unfold SparseStore_merge. split_and!; simpl; [done| |].
  - rewrite Hc1, Hc2. pose proof (total_nonneg _ Hok1). pose proof (total_nonneg _ Hok2).
    unfold total. rewrite weight_of_app. fold (total o1) (total o2). unfold saturating_add. lia.
  - fold l. destruct (merge_entries_bins l (s_bins s) o1 Hb1) as [Hp Hw].
    { apply obs_ok_app_intro; [done|done|by rewrite Heq]. }
    split; [exact Hp|]. intros k. rewrite Hw. by apply same_counts_app.
Qed.

(** The queries on a list of positive bins in index order. *)
Section sorted_queries.
Context (l : list Obs) (Hpos : Forall (fun o => 0 < o.2) l).
Context (Hsorted : StronglySorted (fun x y => by_index x y = true) l).

Lemma sorted_min m M : spans l m M -> fst <$> find nonzero_bin l = Some m.
Proof using All.
  destruct Hsorted as [|x l' _ Hx]; [by intros ?%spans_nil|]. intros (Hall & Hm & _). apply Forall_cons in Hpos as [Hp _].
  simpl. unfold nonzero_bin. rewrite (proj2 (Z.ltb_lt _ _)) by done. simpl. f_equal.
  pose proof (Hall x ltac:(left)). apply list_elem_of_fmap in Hm as (y & -> & Hy).
  apply elem_of_cons in Hy as [->|Hy]; [done|]. rewrite Forall_forall in Hx. apply Hx in Hy.
  unfold by_index in Hy. apply Z.leb_le in Hy. lia.
Qed.

Lemma sorted_max m M : spans l m M -> fst <$> find nonzero_bin (rev l) = Some M.
Proof using All.
  destruct l as [|x l' _] using rev_ind; [by intros ?%spans_nil|]. intros (Hall & _ & HM).
  rewrite rev_app_distr. apply Forall_app in Hpos as [_ [Hp _]%Forall_cons].
  simpl. unfold nonzero_bin. rewrite (proj2 (Z.ltb_lt _ _)) by done. simpl. f_equal.
  pose proof (Hall x ltac:(apply elem_of_app; right; left)). apply list_elem_of_fmap in HM as (y & -> & Hy).
  apply elem_of_app in Hy as [Hy|Hy%list_elem_of_singleton]; [|by rewrite Hy].
  pose proof (StronglySorted_app_1_elem_of _ _ _ y x Hsorted Hy ltac:(left)) as Hle.
  unfold by_index in Hle. apply Z.leb_le in Hle. lia.
Qed.
End sorted_queries.

Lemma sorted_rank l rank cum : Forall (fun o => 0 < o.2) l ->
  StronglySorted (fun x y => by_index x y = true) l -> 0 <= cum <= rank -> rank < cum + total l ->
  cum + total l <= u64_max ->
  exists k, sparse_rank_walk rank cum l = Some k /\ k ∈ l.*1 /\ rank_index l (rank - cum) k.
Proof.
  intros Hp Hs. revert cum. induction Hs as [|[i c] l Hs IH Hi]; intros cum Hc Hr Hm.
  { unfold total, weight_of in Hr. simpl in Hr. lia. }
  apply Forall_cons in Hp as [Hcp Hp]. simpl in Hcp. specialize (IH Hp).
  assert (Hcons : forall p, weight_of p ((i, c) :: l) = (if p i then c else 0) + weight_of p l) by done.
  unfold total in *. rewrite Hcons in Hr, Hm. pose proof (weight_of_nonneg (fun _ => true) l Hp) as Hnn.
  cbn [sparse_rank_walk]. rewrite wrapping_add_exact by (split; lia).
  assert (Hle : forall o, o ∈ l -> i <= o.1).
  { intros o Ho. rewrite Forall_forall in Hi. apply Hi in Ho. by apply Z.leb_le in Ho. }
  destruct (Z.ltb_spec rank (cum + c)) as [Hlt|Hge].
  - exists i. split; [done|]. split; [left|]. unfold rank_index. rewrite !Hcons, Z.ltb_irrefl, Z.leb_refl.
    pose proof (weight_of_nonneg (fun x => x <=? i) l Hp).
    rewrite (weight_of_none (fun x => x <? i)) by (intros o Ho; apply Hle in Ho; bool_lia). lia.
  - destruct (IH (cum + c)) as (k & -> & Hk & H1 & H2); [lia..|]. exists k. split; [done|]. split; [by right|].
    unfold rank_index. rewrite !Hcons. apply list_elem_of_fmap in Hk as (o & -> & Ho). apply Hle in Ho.
    rewrite (proj2 (Z.leb_le i o.1)) by done. destruct (i <? o.1); lia.
Qed.

Lemma sparse_answers s obs : sparse_rep s obs -> answers s obs (fun i => i).
Proof.
  intros (Hok & Hc & Hb). pose proof (btree_iter_counts _ _ Hb) as Heq. pose proof (btree_iter_pos _ _ Hb) as Hp.
  pose proof (btree_iter_sorted (s_bins s)) as Hs. pose proof (obs_ok_pos _ Hok) as Hpo.
  assert (Hspan : forall m M, spans obs m M -> spans (btree_iter (s_bins s)) m M).
  { intros m M. by apply spans_proper. }
  split; simpl; unfold SparseStore_min_index, SparseStore_max_index, SparseStore_key_at_rank.
  - done.
  - by rewrite Hc, total_eqb.
  - intros ->. assert (Hn : btree_iter (s_bins s) = []).
    { destruct (btree_iter (s_bins s)) as [|x l]; [done|]. exfalso.
      eapply not_elem_of_nil, (same_counts_elem (x :: l) []); [done|constructor|done|left]. }
    by rewrite Hn.
  - intros m M Hsp. by eapply sorted_min, Hspan.
  - intros m M Hsp. by eapply sorted_max, Hspan.
  - intros r k Hr Hk. pose proof (rank_index_total _ _ _ Hpo Hk) as Ht. rewrite Hc, (proj2 (Z.leb_gt _ _)) by done.
    destruct (sorted_rank (btree_iter (s_bins s)) r 0) as (k' & -> & _ & Hk'); [done|done|lia|rewrite Heq; lia|rewrite Heq; apply Hok|].
    f_equal. apply (rank_index_unique obs r); [done| |done]. unfold rank_index in *. by rewrite !Heq, Z.sub_0_r in Hk'.
  - intros r Hr. by rewrite Hc, (proj2 (Z.leb_le _ _)).
Qed.

#[export] Instance sparse_laws : StoreLaws SparseStore (fun _ i => i) sparse_rep.
Proof.
  split.
  - by intros s obs [Hok _].
  - done.
  - intros s obs i c Hr Hok. eexists. split; [done|]. by apply sparse_add_rep.
  - intros s other o1 o2 H1 H2 Hok. eexists. split; [done|]. by apply sparse_merge_rep.
  - intros s obs _. split_and!; [by split; [constructor|]|done|]. split; [|done]. intros k c. simpl. by rewrite lookup_empty.
  - apply sparse_answers.
Qed.

(** ** Stores built by a sequence of operations *)

Inductive store_script :=
  | SNew
  | SAdd (index count : Z) (e : store_script)
  | SMerge (e other : store_script)
  | SClear (e : store_script).

Fixpoint run_script {S} `{Store S} (new : S) (e : store_script) : option S :=
  match e with
  | SNew => Some new
  | SAdd index count e => s ← run_script new e; add index count s
  | SMerge e other => s ← run_script new e; o ← run_script new other; merge s o
  | SClear e => s ← run_script new e; Some (clear s)
  end.

(** The observations a script leaves in the store. *)
Fixpoint seen (e : store_script) : list Obs :=
  match e with
  | SNew => []
  | SAdd index count e => if count =? 0 then seen e else seen e ++ [(index, count)]
  | SMerge e other => seen e ++ seen other
  | SClear _ => []
  end.

(** No index and no total leaves its range on the way. *)
Fixpoint script_ok (e : store_script) : Prop :=
  obs_ok (seen e) /\
  match e with
  | SNew => True
  | SAdd _ _ e | SClear e => script_ok e
  | SMerge e other => script_ok e /\ script_ok other
  end.

Lemma script_ok_seen e : script_ok e -> obs_ok (seen e).
Proof. destruct e; simpl; tauto. Qed.

Lemma script_holds {S} `{StoreLaws S place holds} (new : S) e : holds new [] -> script_ok e ->
  exists s, run_script new e = Some s /\ holds s (seen e).
Proof.
  intros Hnew. induction e as [|i c e IH|e1 IH1 e2 IH2|e IH]; intros Hok.
  - by exists new.
  - destruct Hok as [Ho Hok]. destruct (IH Hok) as (s & Hs & Hh). cbn [run_script]. rewrite Hs. cbn [mbind option_bind].
    simpl in Ho |- *. destruct (Z.eqb_spec c 0) as [->|Hc]; [|by apply law_add].
    exists s. split; [|done]. by rewrite (law_add_zero (StoreLaws := H0)).
  - destruct Hok as (Ho & Hok1 & Hok2). destruct (IH1 Hok1) as (s1 & Hs1 & Hh1). destruct (IH2 Hok2) as (s2 & Hs2 & Hh2).
    cbn [run_script]. rewrite Hs1, Hs2. cbn [mbind option_bind]. by apply law_merge.
  - destruct Hok as [Ho Hok]. destruct (IH Hok) as (s & Hs & Hh). cbn [run_script]. rewrite Hs.
    exists (clear s). split; [done|]. by eapply law_clear.
Qed.

Lemma script_answers {S} `{StoreLaws S place holds} (new : S) e : holds new [] -> script_ok e ->
  exists s, run_script new e = Some s /\ holds s (seen e) /\ answers s (seen e) (place (seen e)).
Proof.
  intros Hnew Hok. destruct (script_holds new e Hnew Hok) as (s & Hs & Hh). exists s.
  split_and!; [done|done|]. by apply law_answers.
Qed.

(** Two stores that place every index alike answer alike. *)
Lemma answers_agree {S1 S2} `{Store S1} `{Store S2} (s1 : S1) (s2 : S2) obs g :
  obs_ok obs -> answers s1 obs g -> answers s2 obs g ->
  total_count s1 = total_count s2 /\ min_index s1 = min_index s2 /\ max_index s1 = max_index s2 /\
  forall r, 0 <= r -> key_at_rank r s1 = key_at_rank r s2.
Proof.
  intros Hok [T1 _ N1 I1 X1 R1 P1] [T2 _ N2 I2 X2 R2 P2]. split; [congruence|]. split_and!.
  1, 2: destruct (decide (obs = [])) as [Hn|Hne];
    [destruct (N1 Hn), (N2 Hn); congruence|destruct (spans_ex _ Hne) as (m & M & Hs)].
  - by rewrite (I1 m M), (I2 m M).
  - by rewrite (X1 m M), (X2 m M).
  - intros r Hr. destruct (decide (total obs <= r)) as [Hge|Hlt]; [by rewrite P1, P2|].
    destruct (rank_index_ex obs r) as [k Hk]; [done|lia|]. by rewrite (R1 r k), (R2 r k).
Qed.

Lemma rep_nil : obs_ok [].
Proof. by split; [constructor|]. Qed.

Lemma dense_rep_new : dense_rep DenseStore_new [].
Proof. split_and!; [apply rep_nil|done|by left]. Qed.

Lemma sparse_rep_new : sparse_rep SparseStore_new [].
Proof. split_and!; [apply rep_nil|done|]. split; [|done]. intros k c. simpl. by rewrite lookup_empty. Qed.

(** ** Theorems *)

(** A dense store built by any sequence of additions, merges and clears never panics and holds
    the observations exactly: its count is theirs, [min_index] and [max_index] are the smallest and
    the largest index observed, and [key_at_rank r] is the index of the [r]-th observation in order,
    or [None] past the last one. *)
Theorem dense_store_exact e : script_ok e ->
  exists s, run_script DenseStore_new e = Some s /\ answers s (seen e) (fun i => i).
Proof.
  intros Hok. destruct (script_answers DenseStore_new e dense_rep_new Hok) as (s & Hs & _ & Ha). by exists s.
Qed.

(** The dense and the sparse store are interchangeable: after the same operations both have
    succeeded and agree on the count, on both extremes and on every rank. *)
Theorem unbounded_stores_agree e : script_ok e ->
  exists d sp, run_script DenseStore_new e = Some d /\ run_script SparseStore_new e = Some sp /\
    total_count d = total_count sp /\ min_index d = min_index sp /\ max_index d = max_index sp /\
    forall r, 0 <= r -> key_at_rank r d = key_at_rank r sp.
Proof.
  intros Hok. destruct (script_answers DenseStore_new e dense_rep_new Hok) as (d & Hd & _ & Ha1).
  destruct (script_answers SparseStore_new e sparse_rep_new Hok) as (sp & Hsp & _ & Ha2).
  exists d, sp. split; [done|]. split; [done|]. by apply (answers_agree d sp (seen e) (fun i => i)); [apply script_ok_seen|..].
Qed.

Lemma lowest_rep_facts N s obs : cap_ok N -> lowest_rep false N s obs ->
  (length (l_bins s) <= N)%nat /\ (l_is_collapsed s = true <-> obs <> [] /\ N < top obs - bottom obs + 1).
Proof.
  intros HN (Hok & _ & _ & [(-> & Hb & Hf)|(m & M & Hs & [Hb Ho _ Hf])]).
  - rewrite Hb, Hf. split; [simpl; lia|]. split; [done|]. by intros [Hn _].
  - destruct (spans_top _ _ _ Hok Hs) as [-> ->]. rewrite Hb, Hf, window_length. unfold floor_of, cap_ok in *.
    split; [lia|]. simpl. rewrite Z.ltb_lt. split; [|by intros [_ ?]]. intros Hlt. split; [|done].
    intros ->. by apply spans_nil in Hs.
Qed.

Lemma highest_rep_facts N s obs : cap_ok N -> highest_rep false N s obs ->
  (length (h_bins s) <= N)%nat /\ (h_is_collapsed s = true <-> obs <> [] /\ N < top obs - bottom obs + 1).
Proof.
  intros HN (Hok & _ & _ & [(-> & Hb & Hf)|(m & M & Hs & [Hb Ho _ Hf])]).
  - rewrite Hb, Hf. split; [simpl; lia|]. split; [done|]. by intros [Hn _].
  - destruct (spans_top _ _ _ Hok Hs) as [-> ->]. rewrite Hb, Hf, window_length. unfold ceiling_of, cap_ok in *.
    split; [lia|]. simpl. rewrite Z.ltb_lt. split; [|by intros [_ ?]]. intros Hlt. split; [|done].
    intros ->. by apply spans_nil in Hs.
Qed.

Lemma lowest_new_rep N : cap_ok N -> exists new, LowestStore_new N = Some new /\ lowest_rep false N new [].
Proof.
  intros [HN _]. unfold LowestStore_new. rewrite (proj2 (Nat.leb_le _ _)) by done. eexists. split; [done|].
  split_and!; [apply rep_nil|done|done|by left].
Qed.

Lemma highest_new_rep N : cap_ok N -> exists new, HighestStore_new N = Some new /\ highest_rep false N new [].
Proof.
  intros [HN _]. unfold HighestStore_new. rewrite (proj2 (Nat.leb_le _ _)) by done. eexists. split; [done|].
  split_and!; [apply rep_nil|done|done|by left].
Qed.

(** A store that collapses its lowest bins, built by any sequence of additions, merges and
    clears never panics and never holds more than [N] bins; every index from [max - N + 1] up is
    counted exactly and every lower one at [max - N + 1], so the extremes and all rank queries are
    those of the observations, each raised to that floor; and [is_collapsed] is set exactly when the
    observations span more than [N] indices. *)
Theorem lowest_store_folds N e : cap_ok N -> script_ok e ->
  exists new s, LowestStore_new N = Some new /\ run_script new e = Some s /\
    (length (l_bins s) <= N)%nat /\
    (l_is_collapsed s = true <-> seen e <> [] /\ N < top (seen e) - bottom (seen e) + 1) /\
    answers s (seen e) (fun i => Z.max i (top (seen e) - N + 1)).
Proof.
  intros HN Hok. destruct (lowest_new_rep N HN) as (new & Hnew & Hrep). pose proof (lowest_laws N HN) as Hlaws.
  destruct (script_answers new e Hrep Hok) as (s & Hs & Hh & Ha). exists new, s.
  destruct (lowest_rep_facts N s (seen e) HN Hh). by split_and!.
Qed.

(** A store that collapses its highest bins is the mirror image: at most [N] bins, every index
    up to [min + N - 1] counted exactly, every higher one there, and [is_collapsed] set exactly when
    the observations span more than [N] indices. *)
Theorem highest_store_folds N e : cap_ok N -> script_ok e ->
  exists new s, HighestStore_new N = Some new /\ run_script new e = Some s /\
    (length (h_bins s) <= N)%nat /\
    (h_is_collapsed s = true <-> seen e <> [] /\ N < top (seen e) - bottom (seen e) + 1) /\
    answers s (seen e) (fun i => Z.min i (bottom (seen e) + N - 1)).
Proof.
  intros HN Hok. destruct (highest_new_rep N HN) as (new & Hnew & Hrep). pose proof (highest_laws N HN) as Hlaws.
  destruct (script_answers new e Hrep Hok) as (s & Hs & Hh & Ha). exists new, s.
  destruct (highest_rep_facts N s (seen e) HN Hh). by split_and!.
Qed.

Lemma lowest_rep_state N s1 s2 obs : obs <> [] -> lowest_rep false N s1 obs -> lowest_rep false N s2 obs -> s1 = s2.
Proof.
  intros Hne (Hok & C1 & M1 & R1) (_ & C2 & M2 & R2).
  destruct R1 as [(? & _)|(m & M & Hs & [B1 O1 _ F1])]; [done|]. destruct R2 as [(? & _)|(m' & M' & Hs' & [B2 O2 _ F2])]; [done|].
  destruct (spans_unique _ _ _ _ _ Hs' Hs) as [-> ->]. destruct s1, s2; simpl in *. congruence.
Qed.

Lemma highest_rep_state N s1 s2 obs : obs <> [] -> highest_rep false N s1 obs -> highest_rep false N s2 obs -> s1 = s2.
Proof.
  intros Hne (Hok & C1 & M1 & R1) (_ & C2 & M2 & R2).
  destruct R1 as [(? & _)|(m & M & Hs & [B1 O1 _ F1])]; [done|]. destruct R2 as [(? & _)|(m' & M' & Hs' & [B2 O2 _ F2])]; [done|].
  destruct (spans_unique _ _ _ _ _ Hs' Hs) as [-> ->]. destruct s1, s2; simpl in *. congruence.
Qed.

(** The bounded stores do not depend on the order of insertion, nor on how the observations
    were split between stores that were then merged: two non-empty stores that have counted every
    index alike are equal, bins, offset, count and collapse flag. *)
Theorem bounded_stores_order_free N e1 e2 : cap_ok N -> script_ok e1 -> script_ok e2 ->
  seen e1 <> [] -> same_counts (seen e1) (seen e2) ->
  (exists new s, LowestStore_new N = Some new /\ run_script new e1 = Some s /\ run_script new e2 = Some s) /\
  (exists new s, HighestStore_new N = Some new /\ run_script new e1 = Some s /\ run_script new e2 = Some s).
Proof.
  intros HN Hok1 Hok2 Hne Heq. pose proof (lowest_laws N HN) as HL. pose proof (highest_laws N HN) as HH. split.
  - destruct (lowest_new_rep N HN) as (new & Hnew & Hrep).
    destruct (script_holds new e1 Hrep Hok1) as (s1 & Hs1 & Hh1). destruct (script_holds new e2 Hrep Hok2) as (s2 & Hs2 & Hh2).
    exists new, s1. split_and!; [done|done|]. rewrite Hs2. f_equal. symmetry.
    eapply (lowest_rep_state N); [exact Hne|done|].
    eapply lowest_rep_proper; [exact Hh2|by symmetry|by apply script_ok_seen].
  - destruct (highest_new_rep N HN) as (new & Hnew & Hrep).
    destruct (script_holds new e1 Hrep Hok1) as (s1 & Hs1 & Hh1). destruct (script_holds new e2 Hrep Hok2) as (s2 & Hs2 & Hh2).
    exists new, s1. split_and!; [done|done|]. rewrite Hs2. f_equal. symmetry.
    eapply (highest_rep_state N); [exact Hne|done|].
    eapply highest_rep_proper; [exact Hh2|by symmetry|by apply script_ok_seen].
Qed.

(** ** Witnesses *)

(** Three stores' worth of observations, the last merged in. *)
Definition sample_script : store_script :=
  SMerge (SAdd 9 1 (SAdd 5 0 (SAdd 4 3 (SAdd (-2) 2 SNew)))) (SAdd 20 1 (SClear (SAdd 7 7 SNew))).
Definition sample_script' : store_script :=
  SAdd (-2) 1 (SAdd 4 3 (SAdd (-2) 1 (SAdd 9 1 (SAdd 20 1 SNew)))).

Ltac solve_script_ok :=
  cbn; repeat (split || constructor); unfold index_ok, u64_max; cbn; try lia; try (vm_compute; discriminate).

Lemma sample_script_ok : script_ok sample_script.
Proof. solve_script_ok. Defined.

Lemma sample_script'_ok : script_ok sample_script'.
Proof. solve_script_ok. Defined.

Lemma cap_ok_4 : cap_ok 4.
Proof. split; cbn; lia. Defined.

Lemma sample_spans : spans (seen sample_script) (-2) 20.
Proof.
  change (seen sample_script) with [(-2, 2); (4, 3); (9, 1); (20, 1)].
  split; [|split; csimpl; set_solver].
  intros o Ho. repeat (apply elem_of_cons in Ho as [->|Ho]; [cbn [fst]; lia|]). by apply not_elem_of_nil in Ho.
Qed.

(** The stores on the sample, evaluated. *)
Example sample_dense_ranks :
  (s ← run_script DenseStore_new sample_script; Some ((fun r => key_at_rank r s) <$> [0; 1; 2; 4; 5; 6; 7])) =
  Some [Some (-2); Some (-2); Some 4; Some 4; Some 9; Some 20; None].
Proof. vm_compute. reflexivity. Qed.

Example sample_lowest :
  (new ← LowestStore_new 4; s ← run_script new sample_script; Some (l_bins s, l_offset s, l_is_collapsed s)) =
  Some ([6; 0; 0; 1], 17, true).
Proof. vm_compute. reflexivity. Qed.

Example sample_highest :
  (new ← HighestStore_new 4; s ← run_script new sample_script; Some (h_bins s, h_offset s, h_is_collapsed s)) =
  Some ([2; 0; 0; 5], -2, true).
Proof. vm_compute. reflexivity. Qed.

Lemma dense_store_exact_witness : script_ok sample_script /\
  exists s, run_script DenseStore_new sample_script = Some s /\ answers s (seen sample_script) (fun i => i).
Proof. split; [exact sample_script_ok|]. apply (dense_store_exact sample_script sample_script_ok). Defined.

Lemma unbounded_stores_agree_witness : script_ok sample_script /\
  exists d sp, run_script DenseStore_new sample_script = Some d /\ run_script SparseStore_new sample_script = Some sp /\
    key_at_rank 5 d = key_at_rank 5 sp.
Proof.
  split; [exact sample_script_ok|].
  destruct (unbounded_stores_agree sample_script sample_script_ok) as (d & sp & Hd & Hsp & _ & _ & _ & Hr).
  exists d, sp. split; [exact Hd|]. split; [exact Hsp|]. apply Hr. lia.
Defined.

Lemma lowest_store_folds_witness : cap_ok 4 /\ script_ok sample_script /\
  exists new s, LowestStore_new 4 = Some new /\ run_script new sample_script = Some s /\
    min_index s = Some 17 /\ l_is_collapsed s = true.
Proof.
  split; [exact cap_ok_4|]. split; [exact sample_script_ok|].
  destruct (lowest_store_folds 4 sample_script cap_ok_4 sample_script_ok) as (new & s & Hn & Hs & _ & Hc & Ha).
  exists new, s. split; [exact Hn|]. split; [exact Hs|]. split.
  - exact (ans_min _ _ _ Ha (-2) 20 sample_spans).
  - apply Hc. split; [done|]. vm_compute. reflexivity.
Defined.

Lemma highest_store_folds_witness : cap_ok 4 /\ script_ok sample_script /\
  exists new s, HighestStore_new 4 = Some new /\ run_script new sample_script = Some s /\
    max_index s = Some 1 /\ h_is_collapsed s = true.
Proof.
  split; [exact cap_ok_4|]. split; [exact sample_script_ok|].
  destruct (highest_store_folds 4 sample_script cap_ok_4 sample_script_ok) as (new & s & Hn & Hs & _ & Hc & Ha).
  exists new, s. split; [exact Hn|]. split; [exact Hs|]. split.
  - exact (ans_max _ _ _ Ha (-2) 20 sample_spans).
  - apply Hc. split; [done|]. vm_compute. reflexivity.
Defined.

Lemma sample_same_counts : same_counts (seen sample_script) (seen sample_script').
Proof.
  intros k. change (seen sample_script) with [(-2, 2); (4, 3); (9, 1); (20, 1)].
  change (seen sample_script') with [(20, 1); (9, 1); (-2, 1); (4, 3); (-2, 1)].
  unfold weight_at, weight_of, sumZ. cbn [foldr fst snd].
  repeat match goal with |- context [?a =? k] => destruct (Z.eqb_spec a k) end; lia.
Defined.

Lemma bounded_stores_order_free_witness : cap_ok 4 /\ same_counts (seen sample_script) (seen sample_script') /\
  exists new s, LowestStore_new 4 = Some new /\ run_script new sample_script = Some s /\
    run_script new sample_script' = Some s.
Proof.
  split; [exact cap_ok_4|]. split; [exact sample_same_counts|].
  apply (bounded_stores_order_free 4 sample_script sample_script' cap_ok_4 sample_script_ok sample_script'_ok
    ltac:(discriminate) sample_same_counts).
Defined.
