(* ===== verification/Interner.v ===== *)
(** * Interner: the fixed-size string interner

    Models [lib/stringtheory/src/interning/fixed_size.rs] and the parts of [helpers.rs] it uses.  A
    shard keeps all its strings in one buffer, each behind a header with its hash, its reference
    count and its packed length and capacity, and keeps a free list of the regions whose strings are
    gone.  The code works on that buffer through raw pointers: here the buffer is a memory of header
    cells and byte cells in which a write destroys whatever it overlaps, and an access that is out
    of bounds, misaligned or to something that was never written is [None].

    This file holds the data and the operations; [InternerLayout] describes the buffer and
    [InternerSteps] lets several threads use a shard. *)

From Stdlib Require Import ZArith Lia.
From stdpp Require Import base tactics list numbers option gmap.
From S2P Require Import Prelude Bytes.
Open Scope Z_scope.

#[local] Coercion Z.of_nat : nat >-> Z.

(** ** Packed lengths and alignment *)

Definition PACKED_CAP_SHIFT : Z := 32.
Definition PACKED_CAP_MASK : Z := wrap 64 (Z.shiftl u64_max 32).
Definition PACKED_LEN_MASK : Z := Z.shiftr u64_max 32.

Definition PackedLengthCapacity_new (capacity len : Z) : Z :=
  Z.lor (wrap 64 (Z.shiftl capacity PACKED_CAP_SHIFT)) len.
Definition packed_capacity (p : Z) : Z := Z.shiftr (Z.land p PACKED_CAP_MASK) PACKED_CAP_SHIFT.
Definition packed_len (p : Z) : Z := Z.land p PACKED_LEN_MASK.
Definition maximum_value : Z := Z.shiftr (Z.land u64_max PACKED_CAP_MASK) PACKED_CAP_SHIFT.

(** The header holds a hash, a counter and a packed length, eight bytes each. *)
Definition HEADER_LEN : Z := 24.
Definition HEADER_ALIGN : Z := 8.
Definition MINIMUM_ENTRY_LEN : Z := HEADER_LEN + HEADER_ALIGN.

Definition aligned (len : Z) : Z :=
  Z.land (u64_sub (u64_add len HEADER_ALIGN) 1) (Z.lxor u64_max (u64_sub HEADER_ALIGN 1)).
Definition aligned_string (s : bytes) : Z := aligned (length s).

(** The bytes that are allocated for a capacity *)
Definition layout_for_data (size : Z) : Z := ((size + HEADER_LEN - 1) / HEADER_LEN) * HEADER_LEN.

(** ** Reclaimed entries *)

Record ReclaimedEntry := { r_offset : Z; r_capacity : Z }.

#[export] Instance ReclaimedEntry_eq_dec : EqDecision ReclaimedEntry.
Proof. solve_decision. Defined.

Definition followed_by (e other : ReclaimedEntry) : bool :=
  u64_add (r_offset e) (r_capacity e) =? r_offset other.

(** The entry shortened to [len], and what is split off *)
Definition split_off (len : Z) (e : ReclaimedEntry) : ReclaimedEntry * ReclaimedEntry :=
  ({| r_offset := r_offset e; r_capacity := len |},
   {| r_offset := u64_add (r_offset e) len; r_capacity := u64_sub (r_capacity e) len |}).

Definition merge_entry (e other : ReclaimedEntry) : ReclaimedEntry :=
  if r_offset e <? r_offset other
  then {| r_offset := r_offset e; r_capacity := u64_add (r_capacity e) (r_capacity other) |}
  else {| r_offset := r_offset other; r_capacity := u64_add (r_capacity e) (r_capacity other) |}.

(** A [BTreeSet] ordered by the offset alone: inserting an offset that is present changes nothing,
    removing goes by the offset. *)
Fixpoint btree_insert (e : ReclaimedEntry) (l : list ReclaimedEntry) : list ReclaimedEntry :=
  match l with
  | [] => [e]
  | x :: l' =>
      if r_offset e <? r_offset x then e :: l
      else if r_offset e =? r_offset x then l
      else x :: btree_insert e l'
  end.

Fixpoint btree_remove (e : ReclaimedEntry) (l : list ReclaimedEntry) : list ReclaimedEntry :=
  match l with
  | [] => []
  | x :: l' => if r_offset e =? r_offset x then l' else x :: btree_remove e l'
  end.

(** The loop of [insert] that looks for the neighbours of an entry *)
Fixpoint find_adjacent (current : ReclaimedEntry) (prev : option ReclaimedEntry) (l : list ReclaimedEntry) :
    option ReclaimedEntry * option ReclaimedEntry :=
  match l with
  | [] => (prev, None)
  | entry :: l' =>
      if followed_by entry current then find_adjacent current (Some entry) l'
      else if followed_by current entry then (prev, Some entry)
      else if r_offset current <? r_offset entry then (prev, None)
      else find_adjacent current prev l'
  end.

Definition ReclaimedEntries_insert (current : ReclaimedEntry) (l : list ReclaimedEntry) :
    ReclaimedEntry * list ReclaimedEntry :=
  let '(prev, next) := find_adjacent current None l in
  let '(current, l) :=
    match prev with
    | Some e => (merge_entry current e, btree_remove e l)
    | None => (current, l)
    end in
  let '(current, l) :=
    match next with
    | Some e => (merge_entry current e, btree_remove e l)
    | None => (current, l)
    end in
  (current, btree_insert current l).

Definition take_if (f : ReclaimedEntry -> bool) (l : list ReclaimedEntry) :
    option (ReclaimedEntry * list ReclaimedEntry) :=
  found ← List.find f l; Some (found, btree_remove found l).

(** ** Entry headers *)

Record EntryHeader := { hash : Z; refs : Z; len_cap : Z }.

#[export] Instance EntryHeader_eq_dec : EqDecision EntryHeader.
Proof. solve_decision. Defined.

Definition usable_from_reclaimed (entry : ReclaimedEntry) : Z := u64_sub (r_capacity entry) HEADER_LEN.

Definition tombstone (entry : ReclaimedEntry) : EntryHeader :=
  {| hash := 0; refs := 0; len_cap := PackedLengthCapacity_new (usable_from_reclaimed entry) 0 |}.

Definition from_string (h : Z) (s : bytes) : EntryHeader :=
  {| hash := h; refs := 1; len_cap := PackedLengthCapacity_new (aligned_string s) (length s) |}.

Definition len_for (s : bytes) : Z := u64_add HEADER_LEN (aligned_string s).

Definition from_reclaimed_entry (entry : ReclaimedEntry) (h : Z) (s : bytes) :
    EntryHeader * option ReclaimedEntry :=
  let entry_cap := usable_from_reclaimed entry in
  let required_cap := aligned_string s in
  let remainder := u64_sub entry_cap required_cap in
  let '(adjusted_cap, maybe_split_entry) :=
    if MINIMUM_ENTRY_LEN <=? remainder then
      let entry_len := len_for s in
      (u64_sub entry_len HEADER_LEN, Some (split_off entry_len entry).2)
    else (entry_cap, None) in
  ({| hash := h; refs := 1; len_cap := PackedLengthCapacity_new adjusted_cap (length s) |}, maybe_split_entry).

Definition h_capacity (h : EntryHeader) : Z := packed_capacity (len_cap h).
Definition h_len (h : EntryHeader) : Z := packed_len (len_cap h).
Definition entry_len (h : EntryHeader) : Z := u64_add HEADER_LEN (h_capacity h).
Definition is_active (h : EntryHeader) : bool := negb (refs h =? 0).

Definition with_refs (r : Z) (h : EntryHeader) : EntryHeader :=
  {| hash := hash h; refs := r; len_cap := len_cap h |}.

(** ** The buffer *)

Record Buffer := { b_size : Z; b_headers : gmap Z EntryHeader; b_bytes : gmap Z byte }.

Definition apart (o n o' n' : Z) : bool := (o + n <=? o') || (o' + n' <=? o).

(** [n] bytes at [o] are inside the allocation; a header has to be aligned too. *)
Definition in_bounds (o n : Z) (m : Buffer) : bool := (0 <=? o) && (o + n <=? b_size m).
Definition header_ok (o : Z) (m : Buffer) : bool := in_bounds o HEADER_LEN m && (o mod HEADER_ALIGN =? 0).

Definition read_header (o : Z) (m : Buffer) : option EntryHeader :=
  if header_ok o m then b_headers m !! o else None.

(** Whatever a write overlaps is gone. *)
Definition write_header (o : Z) (h : EntryHeader) (m : Buffer) : option Buffer :=
  if header_ok o m then
    Some {| b_size := b_size m;
            b_headers := <[o := h]> (filter (fun x => apart o HEADER_LEN x.1 HEADER_LEN = true) (b_headers m));
            b_bytes := filter (fun x => apart o HEADER_LEN x.1 1 = true) (b_bytes m) |}
  else None.

Definition write_bytes (o : Z) (s : bytes) (m : Buffer) : option Buffer :=
  if in_bounds o (length s) m then
    Some {| b_size := b_size m;
            b_headers := filter (fun x => apart o (length s) x.1 HEADER_LEN = true) (b_headers m);
            b_bytes := list_to_map (zip (seqZ o (length s)) s) ∪ b_bytes m |}
  else None.

Definition read_bytes (o n : Z) (m : Buffer) : option bytes :=
  if in_bounds o n m then mapM (fun a => b_bytes m !! a) (seqZ o n) else None.

(** The atomic operations on the reference count of a header in place. *)
Definition set_refs (o r : Z) (m : Buffer) : option Buffer :=
  h ← read_header o m;
  Some {| b_size := b_size m; b_headers := <[o := with_refs r h]> (b_headers m); b_bytes := b_bytes m |}.

Definition increment_active_refs (o : Z) (m : Buffer) : option Buffer :=
  h ← read_header o m; set_refs o (u64_add (refs h) 1) m.

(** [true] when the count was one before *)
Definition decrement_active_refs (o : Z) (m : Buffer) : option (bool * Buffer) :=
  h ← read_header o m; m' ← set_refs o (u64_sub (refs h) 1) m; Some (refs h =? 1, m').

Definition try_increment_active_refs (o : Z) (m : Buffer) : option (bool * Buffer) :=
  h ← read_header o m;
  if refs h =? 0 then Some (false, m)
  else m' ← set_refs o (u64_add (refs h) 1) m; Some (true, m').

Definition get_entry_string (o : Z) (m : Buffer) : option bytes :=
  h ← read_header o m; read_bytes (o + HEADER_LEN) (h_len h) m.

(** ** A shard *)

Record InternerShardState := {
  buffer : Buffer;
  offset : Z;
  capacity : Z;
  entries : Z;
  len : Z;
  reclaimed : list ReclaimedEntry;
}.

(** [None] when the assertion on the capacity fails *)
Definition with_capacity (cap : Z) : option InternerShardState :=
  if aligned cap <=? 2 ^ 63 - 1 then
    Some {| buffer := {| b_size := layout_for_data cap; b_headers := ∅; b_bytes := ∅ |};
            offset := 0; capacity := cap; entries := 0; len := 0; reclaimed := [] |}
  else None.

Definition with_buffer (m : Buffer) (s : InternerShardState) : InternerShardState :=
  {| buffer := m; offset := offset s; capacity := capacity s; entries := entries s; len := len s;
     reclaimed := reclaimed s |}.

Definition available (s : InternerShardState) : Z := u64_sub (capacity s) (offset s).

(** One turn of the loop of [find_entry], up to the decision to take the entry: the header at the
    offset is read and compared.  [None] is an invalid access. *)
Definition entry_matches (o h : Z) (str : bytes) (m : Buffer) : option bool :=
  header ← read_header o m;
  if is_active header && (hash header =? h) && (h_len header =? length str)
  then s_entry ← get_entry_string o m; Some (bool_decide (s_entry = str))
  else Some false.

Definition next_offset (o : Z) (m : Buffer) : option Z :=
  header ← read_header o m; Some (u64_add o (entry_len header)).

(** The search, when nobody interferes; it runs at most once per header. *)
Fixpoint find_loop (fuel : nat) (o h : Z) (str : bytes) (s : InternerShardState) :
    option (option Z * InternerShardState) :=
  match fuel with
  | O => None
  | S fuel =>
      if o <? offset s then
        matches ← entry_matches o h str (buffer s);
        '(taken, m) ← (if matches : bool then try_increment_active_refs o (buffer s) else Some (false, buffer s));
        if taken : bool then Some (Some o, with_buffer m s)
        else o' ← next_offset o m; find_loop fuel o' h str (with_buffer m s)
      else Some (None, s)
  end.

Definition find_entry (h : Z) (str : bytes) (s : InternerShardState) : option (option Z * InternerShardState) :=
  find_loop (S (Z.to_nat (offset s))) 0 h str s.

Definition write_entry (o : Z) (header : EntryHeader) (str : bytes) (s : InternerShardState) :
    option (Z * InternerShardState) :=
  m ← write_header o header (buffer s);
  m ← write_bytes (o + HEADER_LEN) str m;
  Some (o, {| buffer := m; offset := offset s; capacity := capacity s; entries := u64_add (entries s) 1;
              len := u64_add (len s) (entry_len header); reclaimed := reclaimed s |}).

Definition write_to_unoccupied (h : Z) (str : bytes) (s : InternerShardState) :
    option (Z * InternerShardState) :=
  let header := from_string h str in
  let o := offset s in
  write_entry o header str
    {| buffer := buffer s; offset := u64_add (offset s) (entry_len header); capacity := capacity s;
       entries := entries s; len := len s; reclaimed := reclaimed s |}.

Definition clear_reclaimed_entry (entry : ReclaimedEntry) (s : InternerShardState) :
    option InternerShardState :=
  let str_cap := h_capacity (tombstone entry) in
  m ← write_header (r_offset entry) (tombstone entry) (buffer s);
  m ← write_bytes (r_offset entry + HEADER_LEN) (replicate (Z.to_nat str_cap) (Z_byte 0xAA)) m;
  Some (with_buffer m s).

Definition add_reclaimed (entry : ReclaimedEntry) (s : InternerShardState) : option InternerShardState :=
  let '(merged, l) := ReclaimedEntries_insert entry (reclaimed s) in
  if u64_add (r_offset merged) (r_capacity merged) =? offset s then
    Some {| buffer := buffer s; offset := u64_sub (offset s) (r_capacity merged); capacity := capacity s;
            entries := entries s; len := len s; reclaimed := btree_remove merged l |}
  else
    clear_reclaimed_entry merged
      {| buffer := buffer s; offset := offset s; capacity := capacity s; entries := entries s; len := len s;
         reclaimed := l |}.

Definition write_to_reclaimed_entry (entry : ReclaimedEntry) (h : Z) (str : bytes) (s : InternerShardState) :
    option (Z * InternerShardState) :=
  let o := r_offset entry in
  let '(header, maybe_split_entry) := from_reclaimed_entry entry h str in
  s ← match maybe_split_entry with Some e => add_reclaimed e s | None => Some s end;
  write_entry o header str s.

Definition add_reclaimed_from_header (o : Z) (s : InternerShardState) : option InternerShardState :=
  header ← read_header o (buffer s);
  let entry := {| r_offset := o; r_capacity := entry_len header |} in
  add_reclaimed entry
    {| buffer := buffer s; offset := offset s; capacity := capacity s; entries := entries s;
       len := u64_sub (len s) (r_capacity entry); reclaimed := reclaimed s |}.

Definition mark_for_reclamation (o : Z) (s : InternerShardState) : option InternerShardState :=
  header ← read_header o (buffer s);
  if is_active header then Some s
  else
    add_reclaimed_from_header o
      {| buffer := buffer s; offset := offset s; capacity := capacity s; entries := u64_sub (entries s) 1;
         len := len s; reclaimed := reclaimed s |}.

(** The part of [try_intern] after the search found nothing. *)
Definition intern_new (h : Z) (str : bytes) (s : InternerShardState) : option (option Z * InternerShardState) :=
  let required_cap := len_for str in
  match take_if (fun entry => required_cap <=? r_capacity entry) (reclaimed s) with
  | Some (entry, l) =>
      '(o, s) ← write_to_reclaimed_entry entry h str
        {| buffer := buffer s; offset := offset s; capacity := capacity s; entries := entries s; len := len s;
           reclaimed := l |};
      Some (Some o, s)
  | None =>
      if required_cap <=? available s then
        '(o, s) ← write_to_unoccupied h str s; Some (Some o, s)
      else Some (None, s)
  end.

Definition shard_try_intern (h : Z) (str : bytes) (s : InternerShardState) :
    option (option Z * InternerShardState) :=
  if maximum_value <? length str then Some (None, s)
  else
    '(found, s) ← (if entries s =? 0 then Some (None, s) else find_entry h str s);
    match found with
    | Some o => Some (Some o, s)
    | None => intern_new h str s
    end.

(** ** The interner: shards selected by the hash *)

(** [foldhash], seeded once for the process *)
Class StringHasher := { hash_string : bytes -> Z; hash_string_u64 : forall s, is_u64 (hash_string s) }.

Record InternerState := { shards : list InternerShardState; total_capacity : Z }.

Definition InternerState_with_capacity (shard_factor : nat) (cap : Z) : option InternerState :=
  let shard_capacity := if cap / shard_factor =? 0 then 1 else cap / shard_factor in
  shard ← with_capacity shard_capacity;
  Some {| shards := replicate shard_factor shard;
          total_capacity := sumZ capacity (replicate shard_factor shard) |}.

Definition InternerState_is_empty (s : InternerState) : bool :=
  existsb (fun shard => negb (entries shard =? 0)) (shards s).
Definition InternerState_len (s : InternerState) : Z := sumZ entries (shards s).
Definition InternerState_len_bytes (s : InternerState) : Z := sumZ offset (shards s).
Definition capacity_bytes (s : InternerState) : Z := total_capacity s.

Definition shard_index `{StringHasher} (str : bytes) (s : InternerState) : nat :=
  Z.to_nat (Z.land (hash_string str) (length (shards s) - 1)).

(** The shard's index, the handle and the new state *)
Definition InternerState_try_intern `{StringHasher} (str : bytes) (s : InternerState) :
    option (option (nat * Z) * InternerState) :=
  let i := shard_index str s in
  shard ← shards s !! i;
  '(found, shard) ← shard_try_intern (hash_string str) str shard;
  Some (option_map (fun o => (i, o)) found,
        {| shards := <[i := shard]> (shards s); total_capacity := total_capacity s |}).
