(* ===== verification/InternerLayout.v ===== *)
(** * InternerLayout: what the buffer of an interner shard holds

    The buffer of a shard ([lib/stringtheory/src/interning/fixed_size.rs]) is tiled by blocks: used
    ones, with a header and a string, and free ones, with a tombstone.  [shard_inv] relates a shard
    to its blocks: the free list has exactly the free blocks, no two of which touch, and the counters
    are those of the used ones.  Every operation of a shard keeps it, and accesses only memory that
    is there. *)

From Stdlib Require Import ZArith Lia.
From stdpp Require Import base tactics list numbers option gmap.
From S2P Require Import Prelude Bytes Interner.
Open Scope Z_scope.

#[local] Coercion Z.of_nat : nat >-> Z.

(** ** Blocks *)

Inductive block :=
  | Used (n h r : Z) (str : bytes)
  | Free (n : Z).

Definition blen (b : block) : Z := match b with Used n _ _ _ | Free n => n end.
Definition total (bs : list block) : Z := sumZ blen bs.
Definition is_free (b : block) : bool := match b with Free _ => true | _ => false end.

Definition block_ok (b : block) : Prop :=
  HEADER_LEN <= blen b /\ blen b mod HEADER_ALIGN = 0 /\
  match b with Used n _ r str => length str <= n - HEADER_LEN /\ is_u64 r | Free _ => True end.

Definition header_of (b : block) : EntryHeader :=
  match b with
  | Used n h r str => {| hash := h; refs := r; len_cap := PackedLengthCapacity_new (n - HEADER_LEN) (length str) |}
  | Free n => {| hash := 0; refs := 0; len_cap := PackedLengthCapacity_new (n - HEADER_LEN) 0 |}
  end.

Definition string_of (b : block) : bytes := match b with Used _ _ _ str => str | Free _ => [] end.

Definition block_at (m : Buffer) (o : Z) (b : block) : Prop :=
  b_headers m !! o = Some (header_of b) /\
  forall (j : nat) c, string_of b !! j = Some c -> b_bytes m !! (o + HEADER_LEN + j) = Some c.

Fixpoint layout (m : Buffer) (o : Z) (bs : list block) : Prop :=
  match bs with
  | [] => True
  | b :: bs' => block_at m o b /\ layout m (o + blen b) bs'
  end.

(** The free blocks of a tiling that starts at [o]. *)
Fixpoint free_list (o : Z) (bs : list block) : list ReclaimedEntry :=
  match bs with
  | [] => []
  | b :: bs' =>
      (if is_free b then [{| r_offset := o; r_capacity := blen b |}] else []) ++ free_list (o + blen b) bs'
  end.

(** Neither two free blocks in a row nor one at the end. *)
Fixpoint coalesced (bs : list block) : Prop :=
  match bs with
  | [] => True
  | b :: bs' =>
      (is_free b = true -> match bs' with b' :: _ => is_free b' = false | [] => False end) /\ coalesced bs'
  end.

Definition used_count (bs : list block) : Z := sumZ (fun b => if is_free b then 0 else 1) bs.
Definition used_len (bs : list block) : Z := sumZ (fun b => if is_free b then 0 else blen b) bs.

(** Packed capacities have 32 bits. *)
Definition max_capacity : Z := 2 ^ 32.

Record shard_inv (s : InternerShardState) (bs : list block) : Prop := {
  si_blocks : Forall block_ok bs;
  si_layout : layout (buffer s) 0 bs;
  si_offset : offset s = total bs;
  si_capacity : offset s <= capacity s <= max_capacity /\ capacity s <= b_size (buffer s);
  si_reclaimed : reclaimed s = free_list 0 bs;
  si_coalesced : coalesced bs;
  si_entries : entries s = used_count bs;
  si_len : len s = used_len bs;
}.

(** Arithmetic on sizes. *)
Ltac size_lia := cbn [blen] in *; unfold max_capacity, HEADER_LEN, HEADER_ALIGN, in_range, umax in *; lia.

(** ** Arithmetic *)

Lemma packed_roundtrip cap n : 0 <= cap < 2 ^ 32 -> 0 <= n < 2 ^ 32 ->
  packed_capacity (PackedLengthCapacity_new cap n) = cap /\ packed_len (PackedLengthCapacity_new cap n) = n.
Proof.
  intros Hc Hn. unfold packed_capacity, packed_len, PackedLengthCapacity_new, PACKED_CAP_SHIFT.
  assert (Hs : wrap 64 (Z.shiftl cap 32) = Z.shiftl cap 32).
  { apply wrap_small. unfold in_range, umax. rewrite Z.shiftl_mul_pow2 by lia. lia. }
  rewrite Hs.
  assert (Hcap : PACKED_CAP_MASK = Z.shiftl (Z.ones 32) 32) by reflexivity.
  assert (Hlen : PACKED_LEN_MASK = Z.ones 32) by reflexivity.
  assert (Hlow : Z.land (Z.lor (Z.shiftl cap 32) n) (Z.ones 32) = n).
  { rewrite Z.land_lor_distr_l, !Z.land_ones by lia. rewrite Z.shiftl_mul_pow2, Z.mod_mul by lia.
    rewrite Z.lor_0_l. by apply Z.mod_small. }
  split; [|by rewrite Hlen].
  rewrite Hcap. rewrite Z.shiftr_land, Z.shiftr_lor, Z.shiftr_shiftl_l by lia. simpl (32 - 32).
  rewrite Z.shiftl_0_r, (Z.shiftr_div_pow2 n) by lia. rewrite Z.div_small, Z.lor_0_r by done.
  rewrite Z.shiftr_shiftl_l by lia. simpl (32 - 32). rewrite Z.shiftl_0_r, Z.land_ones by lia. by apply Z.mod_small.
Qed.

Lemma aligned_exact n : 0 <= n <= 2 ^ 32 -> aligned n = 8 * ((n + 7) / 8).
Proof.
  intros Hn. unfold aligned, HEADER_ALIGN. rewrite wrapping_add_exact by (unfold in_range, umax; lia).
  rewrite wrapping_sub_exact by (unfold in_range, umax; lia).
  replace (n + 8 - 1) with (n + 7) by lia.
  assert (Hm : Z.lxor u64_max (u64_sub 8 1) = Z.shiftl (Z.ones 61) 3) by reflexivity. rewrite Hm.
  apply Z.bits_inj'. intros k Hk. rewrite Z.land_spec.
  replace (8 * ((n + 7) / 8)) with (Z.shiftl (Z.shiftr (n + 7) 3) 3)
    by (rewrite Z.shiftl_mul_pow2, Z.shiftr_div_pow2 by lia; change (2 ^ 3) with 8; lia).
  rewrite !Z.shiftl_spec by lia. destruct (Z.lt_ge_cases k 3) as [Hlt|Hge].
  - rewrite !(Z.testbit_neg_r _ (k - 3)) by lia. apply andb_false_r.
  - rewrite Z.shiftr_spec by lia. replace (k - 3 + 3) with k by lia.
    destruct (Z.lt_ge_cases k 64) as [Hk2|Hk2].
    + rewrite Z.ones_spec_low by lia. apply andb_true_r.
    + rewrite Z.ones_spec_high by lia. rewrite andb_false_r. symmetry.
      apply Z.bits_above_log2; [lia|]. apply Z.log2_lt_pow2; [lia|].
      apply Z.lt_le_trans with (2 ^ 40); [lia|]. apply Z.pow_le_mono_r; lia.
Qed.

Lemma pad8_bounds n : n <= 8 * ((n + 7) / 8) <= n + 7.
Proof. pose proof (Z.div_mod (n + 7) 8 ltac:(lia)). pose proof (Z.mod_pos_bound (n + 7) 8 ltac:(lia)). lia. Qed.

(** What [len_for] computes: the header and the string, padded *)
Definition padded (str : bytes) : Z := HEADER_LEN + 8 * ((length str + 7) / 8).

Lemma len_for_exact str : length str < 2 ^ 32 -> len_for str = padded str.
Proof.
  intros Hs. unfold len_for, aligned_string, padded. rewrite aligned_exact by lia.
  pose proof (pad8_bounds (length str)). apply wrapping_add_exact. unfold in_range, umax, HEADER_LEN. lia.
Qed.

Lemma padded_bounds str : HEADER_LEN + length str <= padded str <= HEADER_LEN + length str + 7 /\ padded str mod 8 = 0.
Proof.
  unfold padded, HEADER_LEN. pose proof (pad8_bounds (length str)). split; [lia|]. replace (24 + _) with ((3 + (length str + 7) / 8) * 8) by lia.
  by apply Z.mod_mul.
Qed.

(** ** Memory *)

(** The two memories agree outside of [[lo, hi)]. *)
Record agree_outside (lo hi : Z) (m m' : Buffer) : Prop := {
  ao_size : b_size m' = b_size m;
  ao_headers : forall o, o + HEADER_LEN <= lo \/ hi <= o -> b_headers m' !! o = b_headers m !! o;
  ao_bytes : forall a, a < lo \/ hi <= a -> b_bytes m' !! a = b_bytes m !! a;
}.

Lemma agree_outside_trans lo hi m1 m2 m3 :
  agree_outside lo hi m1 m2 -> agree_outside lo hi m2 m3 -> agree_outside lo hi m1 m3.
Proof.
  intros [H1 H2 H3] [H4 H5 H6]. split; [congruence| |]; intros x Hx.
  - by rewrite H5, H2.
  - by rewrite H6, H3.
Qed.

Lemma agree_outside_weaken lo hi lo' hi' m m' : lo' <= lo -> hi <= hi' ->
  agree_outside lo hi m m' -> agree_outside lo' hi' m m'.
Proof. intros Hl Hh [H1 H2 H3]. split; [done| |]; intros x Hx; [apply H2|apply H3]; lia. Qed.

Lemma lookup_filter_keep {A} (P : Z * A -> Prop) `{forall x, Decision (P x)} (m : gmap Z A) i :
  (forall x, P (i, x)) -> filter P m !! i = m !! i.
Proof.
  intros HP. rewrite map_lookup_filter. destruct (m !! i) as [x|]; [|done]. simpl.
  by rewrite option_guard_True by apply HP.
Qed.

Lemma apart_spec o n o' n' : o + n <= o' \/ o' + n' <= o -> apart o n o' n' = true.
Proof. unfold apart. intros [H|H]; [|rewrite orb_comm]; by rewrite (proj2 (Z.leb_le _ _)). Qed.

Lemma write_header_spec o h m : header_ok o m = true ->
  exists m', write_header o h m = Some m' /\ agree_outside o (o + HEADER_LEN) m m' /\ b_headers m' !! o = Some h.
Proof.
  intros Hok. unfold write_header. rewrite Hok. eexists. split; [done|].
  split; [split; simpl; [done| |]|].
  - intros o' Ho'. unfold HEADER_LEN in Ho'. rewrite lookup_insert_ne by lia. apply lookup_filter_keep. intros x.
    apply apart_spec. simpl. unfold HEADER_LEN. lia.
  - intros a Ha. apply lookup_filter_keep. intros x. apply apart_spec. simpl. lia.
  - simpl. by rewrite lookup_insert_eq.
Qed.

Lemma zip_seqZ_lookup {A} o (l : list A) (j : nat) c :
  l !! j = Some c -> (list_to_map (zip (seqZ o (length l)) l) : gmap Z A) !! (o + j) = Some c.
Proof.
  intros Hj. apply elem_of_list_to_map_1.
  - rewrite fst_zip by (rewrite length_seqZ; lia). apply NoDup_seqZ.
  - apply list_elem_of_lookup. exists j. apply lookup_zip_with_Some. exists (o + j), c. split; [done|].
    split; [|done]. apply lookup_lt_Some in Hj. apply lookup_seqZ. split; [done|lia].
Qed.

Lemma zip_seqZ_none {A} o (l : list A) a : a < o \/ o + length l <= a ->
  (list_to_map (zip (seqZ o (length l)) l) : gmap Z A) !! a = None.
Proof.
  intros Ha. apply not_elem_of_list_to_map_1. rewrite fst_zip by (rewrite length_seqZ; lia).
  rewrite elem_of_seqZ. lia.
Qed.

Lemma write_bytes_spec o l m : in_bounds o (length l) m = true ->
  exists m', write_bytes o l m = Some m' /\ agree_outside o (o + length l) m m' /\
    (forall (j : nat) c, l !! j = Some c -> b_bytes m' !! (o + j) = Some c).
Proof.
  intros Hok. unfold write_bytes. rewrite Hok. eexists. split; [done|]. split; [split; simpl; [done| |]|].
  - intros o' Ho'. apply lookup_filter_keep. intros x. apply apart_spec. simpl. lia.
  - intros a Ha. by rewrite lookup_union_r by by apply zip_seqZ_none.
  - intros j c Hj. simpl. apply lookup_union_Some_l. by apply zip_seqZ_lookup.
Qed.

Lemma read_bytes_spec o l m : in_bounds o (length l) m = true ->
  (forall (j : nat) c, l !! j = Some c -> b_bytes m !! (o + j) = Some c) -> read_bytes o (length l) m = Some l.
Proof.
  intros Hok Hl. unfold read_bytes. rewrite Hok. apply mapM_Some. apply Forall2_same_length_lookup.
  rewrite length_seqZ. split; [lia|]. intros j a c Ha Hc. apply lookup_seqZ in Ha as [-> _]. by apply Hl.
Qed.

Lemma in_bounds_spec o n m : 0 <= o -> o + n <= b_size m -> in_bounds o n m = true.
Proof. intros H1 H2. unfold in_bounds. by rewrite !(proj2 (Z.leb_le _ _)). Qed.

Lemma header_ok_spec o m : 0 <= o -> o + HEADER_LEN <= b_size m -> o mod 8 = 0 -> header_ok o m = true.
Proof.
  intros H1 H2 H3. unfold header_ok, HEADER_ALIGN. by rewrite in_bounds_spec, (proj2 (Z.eqb_eq _ _)).
Qed.

(** Blocks outside of the changed region stay. *)
Lemma block_at_frame lo hi m m' o b : agree_outside lo hi m m' -> block_ok b ->
  o + blen b <= lo \/ hi <= o -> block_at m o b -> block_at m' o b.
Proof.
  intros [_ Hh Hb] (Hlen & _ & Hstr) Ho [Hhdr Hbytes]. split.
  - rewrite Hh; [done|]. unfold HEADER_LEN in *. lia.
  - intros j c Hj. rewrite Hb; [by apply Hbytes|]. apply lookup_lt_Some in Hj as Hlt.
    destruct b as [n h r str|n]; simpl in *; unfold HEADER_LEN in *; lia.
Qed.

Lemma total_blocks_nonneg bs : Forall block_ok bs -> 0 <= total bs.
Proof.
  intros H. apply sumZ_nonneg. intros b Hb. rewrite Forall_forall in H. destruct (H b Hb) as [Hl _].
  unfold HEADER_LEN in Hl. lia.
Qed.

Lemma layout_frame lo hi m m' o bs : agree_outside lo hi m m' -> Forall block_ok bs ->
  o + total bs <= lo \/ hi <= o -> layout m o bs -> layout m' o bs.
Proof.
  intros Ha Hok. revert o. induction Hok as [|b bs Hb Hok IH]; intros o Ho Hl; [done|].
  destruct Hl as [Hb' Hl]. unfold total in Ho. rewrite sumZ_cons in Ho. fold (total bs) in Ho.
  pose proof (total_blocks_nonneg bs Hok). assert (0 <= blen b) by (destruct Hb; unfold HEADER_LEN in *; lia).
  split; [by eapply block_at_frame; [done|done|lia|]|]. apply IH; [lia|done].
Qed.

Lemma total_app bs1 bs2 : total (bs1 ++ bs2) = total bs1 + total bs2.
Proof. apply sumZ_app. Qed.

Lemma total_cons b bs : total (b :: bs) = blen b + total bs.
Proof. done. Qed.

Lemma layout_app m o bs1 bs2 : layout m o (bs1 ++ bs2) <-> layout m o bs1 /\ layout m (o + total bs1) bs2.
Proof.
  revert o. induction bs1 as [|b bs1 IH]; intros o; cbn [app layout].
  - unfold total. simpl. rewrite Z.add_0_r. tauto.
  - rewrite IH, total_cons, Z.add_assoc. tauto.
Qed.

Lemma free_list_app o bs1 bs2 : free_list o (bs1 ++ bs2) = free_list o bs1 ++ free_list (o + total bs1) bs2.
Proof.
  revert o. induction bs1 as [|b bs1 IH]; intros o; cbn [app free_list]; [unfold total; simpl; by rewrite Z.add_0_r|].
  by rewrite IH, total_cons, Z.add_assoc, app_assoc.
Qed.

(** ** Free lists *)

Lemma coalesced_app bs1 bs2 : coalesced bs1 -> coalesced bs2 -> coalesced (bs1 ++ bs2).
Proof.
  intros H1 H2. induction bs1 as [|b bs1 IH]; [done|]. destruct H1 as [Hb H1]. split; [|by apply IH].
  intros Hf. specialize (Hb Hf). by destruct bs1.
Qed.

Lemma coalesced_app_r bs1 bs2 : coalesced (bs1 ++ bs2) -> coalesced bs2.
Proof. induction bs1 as [|b bs1 IH]; [done|]. intros [_ H]. by apply IH. Qed.

Lemma coalesced_before_free bs1 b bs2 : is_free b = true -> coalesced (bs1 ++ b :: bs2) -> coalesced bs1.
Proof.
  intros Hb. induction bs1 as [|x bs1 IH]; [done|]. intros [Hx H]. split; [|by apply IH].
  intros Hf. specialize (Hx Hf). destruct bs1 as [|y bs1]; [|done]. simpl in Hx. congruence.
Qed.

Lemma coalesced_snoc_used bs1 b : coalesced bs1 \/ (exists bs1' n, bs1 = bs1' ++ [Free n] /\ coalesced bs1') ->
  is_free b = false -> coalesced (bs1 ++ [b]).
Proof.
  intros [H|(bs1' & n & -> & H)] Hb.
  - apply coalesced_app; [done|]. split; [by rewrite Hb|done].
  - rewrite <- app_assoc. apply coalesced_app; [done|]. split; [done|]. split; [by rewrite Hb|done].
Qed.

Lemma coalesced_prefix bs1 bs2 : coalesced (bs1 ++ bs2) ->
  coalesced bs1 \/ exists bs1' n, bs1 = bs1' ++ [Free n] /\ coalesced bs1'.
Proof.
  induction bs1 as [|x bs1 _] using rev_ind; [by left|]. intros H.
  rewrite <- app_assoc in H. simpl in H. destruct x as [k h r str|n].
  - left. induction bs1 as [|y bs1 IH]; [by split|]. destruct H as [Hy H]. split; [|by apply IH].
    intros Hf. specialize (Hy Hf). by destruct bs1.
  - right. exists bs1, n. split; [done|]. by apply (coalesced_before_free _ (Free n) bs2).
Qed.

Definition within (lo hi : Z) (e : ReclaimedEntry) : Prop :=
  lo <= r_offset e /\ HEADER_LEN <= r_capacity e /\ r_offset e + r_capacity e <= hi.

Lemma free_list_within o bs : Forall block_ok bs -> Forall (within o (o + total bs)) (free_list o bs).
Proof.
  intros Hok. revert o. induction Hok as [|b bs Hb Hok IH]; intros o; [constructor|].
  cbn [free_list]. rewrite total_cons. pose proof (total_blocks_nonneg bs Hok).
  destruct Hb as [Hb _]. unfold HEADER_LEN in Hb. apply Forall_app. split.
  - destruct (is_free b); [|constructor]. apply Forall_singleton. unfold within, HEADER_LEN. simpl. lia.
  - eapply Forall_impl; [apply IH|]. unfold within, HEADER_LEN. intros e. lia.
Qed.

Lemma free_list_before o bs : Forall block_ok bs -> coalesced bs ->
  Forall (within o (o + total bs - 1)) (free_list o bs).
Proof.
  intros Hok. revert o. induction Hok as [|b bs Hb Hok IH]; intros o Hc; [constructor|].
  destruct Hc as [Hc1 Hc2]. cbn [free_list]. rewrite total_cons. apply Forall_app.
  assert (HbL : HEADER_LEN <= blen b) by apply Hb. unfold HEADER_LEN in HbL. split.
  - destruct (is_free b); [|constructor]. apply Forall_singleton. specialize (Hc1 eq_refl).
    destruct bs as [|b' bs]; [done|]. rewrite total_cons. apply Forall_cons in Hok as [Hb' Hok].
    pose proof (total_blocks_nonneg bs Hok). destruct Hb' as [Hb' _]. unfold within, HEADER_LEN in *. simpl. lia.
  - eapply Forall_impl; [by apply IH|]. unfold within, HEADER_LEN. intros e. lia.
Qed.

Lemma free_list_after o bs : Forall block_ok bs -> match bs with b :: _ => is_free b = false | [] => True end ->
  Forall (within (o + 1) (o + total bs)) (free_list o bs).
Proof.
  intros Hok Hb. destruct Hok as [|b bs Hbok Hok]; [constructor|]. cbn [free_list]. rewrite Hb. cbn [app].
  eapply Forall_impl; [by apply free_list_within|]. rewrite total_cons. destruct Hbok as [Hl _].
  unfold within, HEADER_LEN in *. intros e. lia.
Qed.

(** ** Inserting into the free list *)

Definition maybe {A} (o : option A) : list A := match o with Some a => [a] | None => [] end.

Section insert.
Context (p n c1 c2 : Z) (R1 R2 : list ReclaimedEntry).
Context (Hp : 0 <= p - c1) (Hn : 0 < n) (Hc1 : 0 <= c1) (Hc2 : 0 <= c2) (Hend : p + n + c2 <= max_capacity).
Context (HR1 : Forall (within 0 (p - c1 - 1)) R1) (HR2 : Forall (within (p + n + c2 + 1) max_capacity) R2).

Definition entry (o c : Z) : ReclaimedEntry := {| r_offset := o; r_capacity := c |}.
Definition prev_list : list ReclaimedEntry := if c1 =? 0 then [] else [entry (p - c1) c1].
Definition next_list : list ReclaimedEntry := if c2 =? 0 then [] else [entry (p + n) c2].

Lemma followed_by_exact e e' : 0 <= r_offset e -> 0 <= r_capacity e -> r_offset e + r_capacity e <= max_capacity ->
  followed_by e e' = (r_offset e + r_capacity e =? r_offset e').
Proof.
  intros H1 H2 H3. unfold followed_by, max_capacity in *. rewrite wrapping_add_exact; [done|].
  unfold in_range, umax. lia.
Qed.

Lemma find_adjacent_skip l : find_adjacent (entry p n) None (R1 ++ l) = find_adjacent (entry p n) None l.
Proof using All.
  clear HR2. induction HR1 as [|e R Hw Hf IH]; [done|]. destruct Hw as (H1 & H2 & H3). unfold HEADER_LEN in H2. simpl.
  unfold max_capacity in *. rewrite !followed_by_exact by (simpl; unfold max_capacity; lia). simpl.
  rewrite !(proj2 (Z.eqb_neq _ _)) by lia. rewrite (proj2 (Z.ltb_ge _ _)) by lia. by apply IH.
Qed.

Lemma find_adjacent_next prev : find_adjacent (entry p n) prev (next_list ++ R2) =
  (prev, if c2 =? 0 then None else Some (entry (p + n) c2)).
Proof using All.
  unfold next_list. destruct (Z.eqb_spec c2 0) as [E|E]; simpl.
  - destruct HR2 as [|e R Hw Hf]; [done|]. destruct Hw as (H1 & H2 & H3). unfold HEADER_LEN in H2. simpl.
    unfold max_capacity in *. rewrite !followed_by_exact by (simpl; unfold max_capacity; lia). simpl.
    rewrite !(proj2 (Z.eqb_neq _ _)) by lia. by rewrite (proj2 (Z.ltb_lt _ _)) by lia.
  - unfold max_capacity in *. rewrite !followed_by_exact by (simpl; unfold max_capacity; lia). simpl.
    rewrite (proj2 (Z.eqb_neq _ _)) by lia. by rewrite Z.eqb_refl.
Qed.

Lemma find_adjacent_spec : find_adjacent (entry p n) None (R1 ++ prev_list ++ next_list ++ R2) =
  (if c1 =? 0 then None else Some (entry (p - c1) c1), if c2 =? 0 then None else Some (entry (p + n) c2)).
Proof using All.
  rewrite find_adjacent_skip. unfold prev_list. destruct (Z.eqb_spec c1 0) as [E|E]; [apply find_adjacent_next|].
  simpl. unfold max_capacity in *. rewrite followed_by_exact by (simpl; unfold max_capacity; lia). simpl.
  rewrite (proj2 (Z.eqb_eq _ _)) by lia. apply find_adjacent_next.
Qed.

Lemma btree_remove_skip e l : Forall (fun x => r_offset x <> r_offset e) R1 ->
  btree_remove e (R1 ++ l) = R1 ++ btree_remove e l.
Proof using.
  clear. induction 1 as [|x R Hx Hf IH]; [done|]. simpl. rewrite (proj2 (Z.eqb_neq _ _)) by congruence. by rewrite IH.
Qed.

Lemma btree_insert_skip e l : Forall (fun x => r_offset x < r_offset e) R1 ->
  btree_insert e (R1 ++ l) = R1 ++ btree_insert e l.
Proof using.
  clear. induction 1 as [|x R Hx Hf IH]; [done|]. simpl.
  rewrite (proj2 (Z.ltb_ge _ _)), (proj2 (Z.eqb_neq _ _)) by lia. by rewrite IH.
Qed.

Lemma R1_before x : p - c1 <= x -> Forall (fun e => r_offset e < x) R1.
Proof using All.
  intros Hx. eapply Forall_impl; [exact HR1|]. unfold within, HEADER_LEN. intros e. lia.
Qed.

Lemma R1_differs x : p - c1 <= x -> Forall (fun e => r_offset e <> x) R1.
Proof using All. intros Hx. eapply Forall_impl; [by apply (R1_before x)|]. simpl. intros e. lia. Qed.

Lemma reclaimed_insert_spec :
  ReclaimedEntries_insert (entry p n) (R1 ++ prev_list ++ next_list ++ R2) =
  (entry (p - c1) (c1 + n + c2), R1 ++ entry (p - c1) (c1 + n + c2) :: R2).
Proof using All.
  unfold ReclaimedEntries_insert. rewrite find_adjacent_spec.
  assert (Hins : btree_insert (entry (p - c1) (c1 + n + c2)) (R1 ++ R2) = R1 ++ entry (p - c1) (c1 + n + c2) :: R2).
  { rewrite btree_insert_skip by (apply R1_before; simpl; lia). f_equal.
    destruct HR2 as [|e R Hw Hf]; [done|]. simpl. destruct Hw as (H1 & _ & _).
    by rewrite (proj2 (Z.ltb_lt _ _)) by lia. }
  assert (Hrem2 : forall l, btree_remove (entry (p + n) c2) (R1 ++ entry (p + n) c2 :: l) = R1 ++ l).
  { intros l. rewrite btree_remove_skip by (apply R1_differs; simpl; lia). f_equal. simpl. by rewrite Z.eqb_refl. }
  assert (Hrem1 : forall l, btree_remove (entry (p - c1) c1) (R1 ++ entry (p - c1) c1 :: l) = R1 ++ l).
  { intros l. rewrite btree_remove_skip by (apply R1_differs; simpl; lia). f_equal. simpl. by rewrite Z.eqb_refl. }
  unfold prev_list, next_list, max_capacity in *.
  assert (Hm1 : c1 <> 0 -> merge_entry (entry p n) (entry (p - c1) c1) = entry (p - c1) (c1 + n)).
  { intros Hne. unfold merge_entry, entry. simpl. rewrite (proj2 (Z.ltb_ge _ _)) by lia.
    rewrite wrapping_add_exact by (unfold in_range, umax; lia). f_equal. lia. }
  assert (Hm2 : forall o c, o < p + n -> 0 <= c -> c + c2 <= 2 ^ 32 -> 
            merge_entry (entry o c) (entry (p + n) c2) = entry o (c + c2)).
  { intros o c Ho Hc Hle. unfold merge_entry, entry. simpl. rewrite (proj2 (Z.ltb_lt _ _)) by lia.
    rewrite wrapping_add_exact by (unfold in_range, umax; lia). done. }
  destruct (Z.eqb_spec c1 0) as [E1|E1], (Z.eqb_spec c2 0) as [E2|E2]; cbn [app].
  - replace (p - c1) with p in * by lia. replace (c1 + n + c2) with n in * by lia. by rewrite Hins.
  - rewrite Hrem2, Hm2 by lia. replace (p - c1) with p in * by lia. replace (c1 + n + c2) with (n + c2) in * by lia.
    by rewrite Hins.
  - rewrite Hrem1, Hm1 by done. replace (c1 + n + c2) with (c1 + n) in * by lia. by rewrite Hins.
  - rewrite Hrem1, Hrem2, Hm1, Hm2 by lia. by rewrite Hins.
Qed.
End insert.

(** ** Releasing a region *)

Lemma tombstone_exact o n : HEADER_LEN <= n <= max_capacity -> tombstone (entry o n) = header_of (Free n).
Proof.
  intros Hn. unfold tombstone, usable_from_reclaimed, header_of, max_capacity, HEADER_LEN in *. simpl.
  by rewrite wrapping_sub_exact by (unfold in_range, umax; lia).
Qed.

Lemma h_capacity_of b : block_ok b -> blen b <= max_capacity -> h_capacity (header_of b) = blen b - HEADER_LEN.
Proof.
  intros (Hl & _ & Hs) Hm. unfold h_capacity, max_capacity, HEADER_LEN in *.
  destruct b as [n h r str|n]; simpl in *; apply packed_roundtrip; size_lia.
Qed.

Lemma h_len_of b : block_ok b -> blen b <= max_capacity -> h_len (header_of b) = length (string_of b).
Proof.
  intros (Hl & _ & Hs) Hm. unfold h_len, max_capacity, HEADER_LEN in *.
  destruct b as [n h r str|n]; simpl in *; apply packed_roundtrip; size_lia.
Qed.

Lemma entry_len_of b : block_ok b -> blen b <= max_capacity -> entry_len (header_of b) = blen b.
Proof.
  intros Hb Hm. unfold entry_len. rewrite h_capacity_of by done. destruct Hb as [Hl _].
  unfold max_capacity, HEADER_LEN in *. rewrite wrapping_add_exact; [lia|]. unfold in_range, umax. lia.
Qed.

Lemma clear_reclaimed_entry_spec o n s :
  0 <= o -> o mod 8 = 0 -> HEADER_LEN <= n <= max_capacity -> o + n <= b_size (buffer s) ->
  exists m, clear_reclaimed_entry (entry o n) s = Some (with_buffer m s) /\
    agree_outside o (o + n) (buffer s) m /\ block_at m o (Free n).
Proof.
  intros Ho Ha Hn Hb. unfold clear_reclaimed_entry. rewrite tombstone_exact by done.
  assert (Hcap : h_capacity (header_of (Free n)) = n - HEADER_LEN).
  { unfold h_capacity. simpl. apply packed_roundtrip; unfold max_capacity, HEADER_LEN in *; lia. }
  rewrite Hcap. unfold HEADER_LEN in *. simpl r_offset.
  destruct (write_header_spec o (header_of (Free n)) (buffer s)) as (m1 & -> & Ha1 & Hh1).
  { apply header_ok_spec; unfold HEADER_LEN; lia. }
  simpl mbind. destruct (write_bytes_spec (o + 24) (replicate (Z.to_nat (n - 24)) (Z_byte 170)) m1) as (m2 & Hm2 & Ha2 & _).
  { rewrite length_replicate. destruct Ha1 as [Hsz _ _]. apply in_bounds_spec; lia. }
  change 0xAA with 170. unfold HEADER_LEN in *. rewrite Hm2. simpl. exists m2. split; [done|].
  rewrite length_replicate in Ha2. split.
  - eapply agree_outside_trans; [eapply agree_outside_weaken; [| |exact Ha1]; lia|].
    eapply agree_outside_weaken; [| |exact Ha2]; lia.
  - split; [|done]. destruct Ha2 as [_ Hh2 _]. rewrite Hh2; [done|]. unfold HEADER_LEN. lia.
Qed.

Lemma total_aligned bs : Forall block_ok bs -> total bs mod 8 = 0.
Proof.
  induction 1 as [|b bs (_ & Hb & _) Hok IH]; [done|]. rewrite total_cons. unfold HEADER_ALIGN in Hb.
  rewrite Z.add_mod, Hb, IH by lia. done.
Qed.

Lemma add_mod8 a b : a mod 8 = 0 -> b mod 8 = 0 -> (a + b) mod 8 = 0.
Proof. intros Ha Hb. rewrite Z.add_mod, Ha, Hb by lia. done. Qed.

(** The tiling after the region between [bs1] and [bs2] became free. *)
Definition released (bs1 : list block) (n : Z) (bs2 : list block) : list block :=
  match bs2 with [] => bs1 | _ => bs1 ++ Free n :: bs2 end.

(** The length of the free block that a list ends or starts with *)
Definition free_len (ob : option block) : Z := match ob with Some (Free n) => n | _ => 0 end.

Definition same_counters (s s' : InternerShardState) : Prop :=
  capacity s' = capacity s /\ entries s' = entries s /\ len s' = len s /\ b_size (buffer s') = b_size (buffer s).

Definition free_opt (c : Z) : list block := if c =? 0 then [] else [Free c].

Lemma free_list_opt o c : free_list o (free_opt c) = if c =? 0 then [] else [entry o c].
Proof. unfold free_opt. by destruct (c =? 0). Qed.

Lemma total_opt c : total (free_opt c) = c.
Proof. unfold free_opt, total. destruct (Z.eqb_spec c 0); simpl; lia. Qed.

Section release.
Context (s : InternerShardState) (bs1 bs2 : list block) (p n c1 c2 : Z).
Context (Hok1 : Forall block_ok bs1) (Hok2 : Forall block_ok bs2).
Context (Hf1 : Forall block_ok (free_opt c1)) (Hf2 : Forall block_ok (free_opt c2)).
Context (Hco1 : coalesced bs1) (Hco2 : coalesced bs2) (Hc2 : bs2 = [] -> c2 = 0)
  (Hfirst : match bs2 with b :: _ => is_free b = false | [] => True end).
Context (Hp : p = total bs1 + c1) (Hn : HEADER_LEN <= n) (Hn8 : n mod 8 = 0).
Context (Hlay1 : layout (buffer s) 0 bs1) (Hlay2 : layout (buffer s) (p + n + c2) bs2).
Context (Hoff : offset s = p + n + c2 + total bs2).
Context (Hcap : offset s <= capacity s <= max_capacity /\ capacity s <= b_size (buffer s)).
Context (Hrec : reclaimed s = free_list 0 (bs1 ++ free_opt c1) ++ free_list (p + n) (free_opt c2 ++ bs2)).

Lemma free_opt_len c : Forall block_ok (free_opt c) -> 0 <= c /\ c mod 8 = 0 /\ (c <> 0 -> HEADER_LEN <= c).
Proof using.
  unfold free_opt. destruct (Z.eqb_spec c 0) as [->|Hc]; [done|]. intros [(Hl & H8 & _) _]%Forall_cons.
  simpl in *. unfold HEADER_LEN, HEADER_ALIGN in *. lia.
Qed.

Lemma add_reclaimed_spec : exists s', add_reclaimed (entry p n) s = Some s' /\ same_counters s s' /\
  agree_outside (p - c1) (p + n + c2) (buffer s) (buffer s') /\
  offset s' = total (released bs1 (c1 + n + c2) bs2) /\
  layout (buffer s') 0 (released bs1 (c1 + n + c2) bs2) /\
  reclaimed s' = free_list 0 (released bs1 (c1 + n + c2) bs2).
Proof using All.
  destruct (free_opt_len c1 Hf1) as (Hc1p & Hc18 & _). destruct (free_opt_len c2 Hf2) as (Hc2p & Hc28 & _).
  pose proof (total_blocks_nonneg bs1 Hok1) as Ht1. pose proof (total_blocks_nonneg bs2 Hok2) as Ht2.
  pose proof (total_aligned bs1 Hok1) as H81.
  unfold add_reclaimed. rewrite Hrec, !free_list_app, !free_list_opt, total_opt, !Z.add_0_l.
  replace (total bs1) with (p - c1) by lia.
  pose proof (reclaimed_insert_spec p n c1 c2 (free_list 0 bs1) (free_list (p + n + c2) bs2)) as Hins.
  unfold prev_list, next_list in Hins. rewrite <- !app_assoc, Hins; clear Hins; [|size_lia..| |].
  2: { eapply Forall_impl; [by apply free_list_before|]. unfold within. intros e. lia. }
  2: { eapply Forall_impl; [by apply free_list_after|]. unfold within. intros e. lia. }
  simpl r_offset. simpl r_capacity. rewrite wrapping_add_exact by (unfold in_range, umax, max_capacity, HEADER_LEN in *; lia).
  destruct bs2 as [|b bs2'].
  - rewrite (Hc2 eq_refl) in *. assert (Hoff' : offset s = p + n) by (rewrite Hoff; unfold total; simpl; lia).
    rewrite (proj2 (Z.eqb_eq _ _)) by lia. eexists. split; [done|]. simpl.
    split; [done|]. split; [by split|].
    rewrite wrapping_sub_exact by (unfold in_range, umax, max_capacity, HEADER_LEN in *; lia).
    split; [lia|]. split; [done|].
    rewrite (btree_remove_skip (free_list 0 bs1)).
    + simpl. by rewrite Z.eqb_refl, app_nil_r.
    + eapply Forall_impl; [by apply free_list_before|]. unfold within, entry, HEADER_LEN. simpl. intros e. lia.
  - rewrite total_cons in Hoff, Ht2. apply Forall_cons in Hok2 as [Hbk Hok2'].
    pose proof (total_blocks_nonneg bs2' Hok2') as Ht3.
    assert (HbL : 24 <= blen b) by apply Hbk. rewrite (proj2 (Z.eqb_neq _ _)) by lia.
    unfold max_capacity, HEADER_LEN in *.
    destruct (clear_reclaimed_entry_spec (p - c1) (c1 + n + c2)
      {| buffer := buffer s; offset := offset s; capacity := capacity s; entries := entries s; len := len s;
         reclaimed := free_list 0 bs1 ++ entry (p - c1) (c1 + n + c2) :: free_list (p + n + c2) (b :: bs2') |})
      as (m & -> & Ha & Hblk); simpl; [lia|replace (p - c1) with (total bs1) by lia; done|unfold HEADER_LEN, max_capacity; lia|lia|].
    eexists. split; [done|]. simpl. split; [split_and!; try done; apply Ha|].
    replace (p - c1 + (c1 + n + c2)) with (p + n + c2) in Ha by lia. split; [done|].
    split; [rewrite total_app, !total_cons; simpl; lia|]. split.
    + apply layout_app. split; [eapply layout_frame; [exact Ha|done| |done]; lia|].
      rewrite Z.add_0_l. replace (total bs1) with (p - c1) by lia. split; [done|]. simpl blen.
      replace (p - c1 + (c1 + n + c2)) with (p + n + c2) by lia.
      eapply (layout_frame _ _ _ _ _ (b :: bs2')); [exact Ha|by constructor| |done]. lia.
    + rewrite free_list_app. cbn [free_list is_free blen app]. rewrite !Z.add_0_l.
      replace (total bs1) with (p - c1) by lia. by replace (p - c1 + (c1 + n + c2)) with (p + n + c2) by lia.
Qed.
End release.

(** ** The used blocks of a tiling, with their offsets *)

Fixpoint used_blocks (o : Z) (bs : list block) : list (Z * block) :=
  match bs with
  | [] => []
  | b :: bs' => (if is_free b then [] else [(o, b)]) ++ used_blocks (o + blen b) bs'
  end.

Lemma used_blocks_app o bs1 bs2 : used_blocks o (bs1 ++ bs2) = used_blocks o bs1 ++ used_blocks (o + total bs1) bs2.
Proof.
  revert o. induction bs1 as [|b bs1 IH]; intros o; cbn [app used_blocks]; [unfold total; simpl; by rewrite Z.add_0_r|].
  by rewrite IH, total_cons, Z.add_assoc, app_assoc.
Qed.

Lemma used_blocks_opt o c : used_blocks o (free_opt c) = [].
Proof. unfold free_opt. by destruct (c =? 0). Qed.

Lemma used_blocks_split o bs x b : (x, b) ∈ used_blocks o bs ->
  exists bs1 bs2, bs = bs1 ++ b :: bs2 /\ x = o + total bs1 /\ is_free b = false.
Proof.
  revert o. induction bs as [|b' bs IH]; intros o; cbn [used_blocks]; [by intros ?%not_elem_of_nil|].
  intros [Hx|Hx]%elem_of_app.
  - destruct (is_free b') eqn:E; [by apply not_elem_of_nil in Hx|].
    apply list_elem_of_singleton in Hx. simplify_eq. exists [], bs. unfold total. simpl. split_and!; [done|lia|done].
  - destruct (IH _ Hx) as (bs1 & bs2 & -> & -> & Hf). exists (b' :: bs1), bs2. rewrite total_cons.
    split_and!; [done|lia|done].
Qed.

Lemma used_blocks_released o bs1 n bs2 c1 c2 n' : n' = c1 + n + c2 ->
  used_blocks o (released bs1 n' bs2) =
  used_blocks o (bs1 ++ free_opt c1) ++ used_blocks (o + total bs1 + c1 + n) (free_opt c2 ++ bs2).
Proof.
  intros ->. rewrite !used_blocks_app, !used_blocks_opt, total_opt, app_nil_r. simpl. destruct bs2 as [|b bs2].
  - simpl. by rewrite app_nil_r.
  - unfold released. rewrite used_blocks_app. f_equal.
    change (used_blocks (o + total bs1 + (c1 + n + c2)) (b :: bs2) = used_blocks (o + total bs1 + c1 + n + c2) (b :: bs2)).
    f_equal. lia.
Qed.

(** ** Accessing a block *)

Section access.
Context (s : InternerShardState) (bs1 bs2 : list block) (b : block).
Context (Hinv : shard_inv s (bs1 ++ b :: bs2)).

Lemma access_bounds : block_ok b /\ 0 <= total bs1 /\ total bs1 mod 8 = 0 /\
  total bs1 + blen b <= offset s /\ offset s <= max_capacity /\ offset s <= b_size (buffer s) /\
  total bs1 + blen b + total bs2 = offset s /\ 0 <= total bs2.
Proof using All.
  destruct Hinv as [Hok _ Hoff Hcap _ _ _ _]. apply Forall_app in Hok as [Hok1 [Hb Hok2]%Forall_cons].
  rewrite total_app, total_cons in Hoff. pose proof (total_blocks_nonneg bs1 Hok1). pose proof (total_blocks_nonneg bs2 Hok2).
  pose proof (total_aligned bs1 Hok1). split_and!; try done; lia.
Qed.

Lemma access_block : block_at (buffer s) (total bs1) b.
Proof using All.
  destruct Hinv as [_ Hlay _ _ _ _ _ _]. apply layout_app in Hlay as [_ [Hb _]]. by rewrite Z.add_0_l in Hb.
Qed.

Lemma access_header : read_header (total bs1) (buffer s) = Some (header_of b).
Proof using All.
  destruct access_bounds as ((Hl & _ & _) & H0 & H8 & H1 & H2 & H3 & _). unfold read_header.
  rewrite header_ok_spec by (try done; size_lia). apply access_block.
Qed.

Lemma access_string : get_entry_string (total bs1) (buffer s) = Some (string_of b).
Proof using All.
  destruct access_bounds as (Hb & H0 & H8 & H1 & H2 & H3 & _). unfold get_entry_string. rewrite access_header. simpl.
  rewrite h_len_of by (done || lia). apply read_bytes_spec; [|apply access_block].
  destruct Hb as (Hl & _ & Hs). apply in_bounds_spec; [size_lia|].
  destruct b as [n h r str|n]; simpl in *; size_lia.
Qed.

Lemma access_next : next_offset (total bs1) (buffer s) = Some (total (bs1 ++ [b])).
Proof using All.
  destruct access_bounds as (Hb & H0 & H8 & H1 & H2 & H3 & _). unfold next_offset. rewrite access_header. simpl.
  rewrite entry_len_of by (done || lia). destruct Hb as [Hl _]. rewrite wrapping_add_exact by size_lia.
  rewrite total_app. unfold total at 3. simpl. f_equal. lia.
Qed.

(** A block matches when it is in use and holds the string. *)
Lemma access_matches h str : length str < 2 ^ 32 ->
  entry_matches (total bs1) h str (buffer s) =
  Some (match b with
        | Used _ h' r str' => negb (r =? 0) && (h' =? h) && bool_decide (str' = str)
        | Free _ => false
        end).
Proof using All.
  intros Hlen. destruct access_bounds as (Hb & H0 & H8 & H1 & H2 & H3 & _). unfold entry_matches.
  rewrite access_header. simpl mbind. rewrite h_len_of by (done || lia). pose proof access_string as Hstr.
  destruct b as [n h' r str'|n]; simpl header_of; unfold is_active; simpl; [|done].
  destruct (r =? 0), (h' =? h); simpl; try done.
  destruct (Z.eqb_spec (length str') (length str)) as [E|E].
  - by rewrite Hstr.
  - rewrite bool_decide_eq_false_2; [done|]. intros ->. lia.
Qed.
End access.

(** Changing the reference count of a block. *)
Lemma set_refs_inv s bs1 bs2 n h r str r' : shard_inv s (bs1 ++ Used n h r str :: bs2) -> is_u64 r' ->
  exists m, set_refs (total bs1) r' (buffer s) = Some m /\ shard_inv (with_buffer m s) (bs1 ++ Used n h r' str :: bs2).
Proof.
  intros Hinv Hr. pose proof (access_bounds _ _ _ _ Hinv) as (Hb & H0 & H8 & H1 & H2 & H3 & Hoff & H4).
  unfold set_refs. rewrite (access_header _ _ _ _ Hinv). simpl. eexists. split; [done|].
  destruct Hinv as [Hok Hlay Hoffs Hcap Hrec Hco Hent Hlen]. simpl in *.
  apply Forall_app in Hok as [Hok1 [_ Hok2]%Forall_cons].
  assert (Hok' : block_ok (Used n h r' str)) by (destruct Hb as (? & ? & ? & ?); by split_and!).
  apply layout_app in Hlay as [Hlay1 [[Hh Hs] Hlay2]]. rewrite Z.add_0_l in *. simpl in *.
  set (m := {| b_size := b_size (buffer s); b_headers := _; b_bytes := b_bytes (buffer s) |}).
  assert (Ha : agree_outside (total bs1) (total bs1 + 24) (buffer s) m).
  { split; simpl; [done| |done]. intros o Ho. rewrite lookup_insert_ne; [done|]. size_lia. }
  destruct Hb as (Hbl & _). simpl in Hbl.
  split; simpl.
  - apply Forall_app. split; [done|]. by constructor.
  - apply layout_app. rewrite Z.add_0_l. split; [eapply layout_frame; [exact Ha|done| |done]; lia|]. split.
    + split; [simpl; by rewrite lookup_insert_eq|done].
    + eapply layout_frame; [exact Ha|done| |done]. size_lia.
  - rewrite Hoffs, !total_app, !total_cons. done.
  - done.
  - rewrite Hrec, !free_list_app. done.
  - clear -Hco. induction bs1 as [|b bs1 IH]; simpl in *; [done|]. destruct Hco as [Hx Hco]. split; [|by apply IH].
    intros Hf. specialize (Hx Hf). by destruct bs1.
  - rewrite Hent. unfold used_count. by rewrite !sumZ_app, !sumZ_cons.
  - rewrite Hlen. unfold used_len. by rewrite !sumZ_app, !sumZ_cons.
Qed.

(** ** Reclaiming a block *)

Lemma used_bounds bs : Forall block_ok bs -> 0 <= used_count bs <= total bs /\ 0 <= used_len bs <= total bs.
Proof.
  induction 1 as [|b bs [Hb _] Hok IH]; [done|]. unfold used_count, used_len, total in *. rewrite !sumZ_cons.
  destruct (is_free b); size_lia.
Qed.

Lemma used_count_app bs1 bs2 : used_count (bs1 ++ bs2) = used_count bs1 + used_count bs2.
Proof. apply sumZ_app. Qed.

Lemma used_len_app bs1 bs2 : used_len (bs1 ++ bs2) = used_len bs1 + used_len bs2.
Proof. apply sumZ_app. Qed.

Lemma used_opt c : used_count (free_opt c) = 0 /\ used_len (free_opt c) = 0.
Proof. unfold free_opt. by destruct (c =? 0). Qed.

Lemma used_released bs1 n bs2 : used_count (released bs1 n bs2) = used_count bs1 + used_count bs2 /\
  used_len (released bs1 n bs2) = used_len bs1 + used_len bs2.
Proof.
  destruct bs2 as [|b bs2]; simpl; [unfold used_count, used_len; simpl; lia|].
  rewrite used_count_app, used_len_app. unfold used_count, used_len. rewrite !sumZ_cons. simpl. lia.
Qed.

Lemma split_left bs1 b bs2 : coalesced (bs1 ++ b :: bs2) -> Forall block_ok bs1 ->
  exists bs1' c1, bs1 = bs1' ++ free_opt c1 /\ coalesced bs1' /\ Forall block_ok bs1' /\ Forall block_ok (free_opt c1).
Proof.
  intros Hc Hok. destruct (coalesced_prefix _ _ Hc) as [H|(bs1' & n & -> & H)].
  - exists bs1, 0. rewrite app_nil_r. split_and!; try done.
  - apply Forall_app in Hok as [Hok1 Hok2]. exists bs1', n. unfold free_opt.
    destruct (Z.eqb_spec n 0) as [->|]; [|done]. apply Forall_cons in Hok2 as [[Hl _] _]. size_lia.
Qed.

Lemma split_right bs2 : coalesced bs2 -> Forall block_ok bs2 ->
  exists c2 bs2', bs2 = free_opt c2 ++ bs2' /\ coalesced bs2' /\ Forall block_ok bs2' /\ Forall block_ok (free_opt c2) /\
    (bs2' = [] -> c2 = 0) /\ match bs2' with b :: _ => is_free b = false | [] => True end.
Proof.
  intros Hc Hok. destruct bs2 as [|[n h r str|n] bs2].
  - exists 0, []. split_and!; try done.
  - exists 0, (Used n h r str :: bs2). split_and!; try done.
  - destruct Hc as [H1 H2]. specialize (H1 eq_refl). apply Forall_cons in Hok as [Hn Hok]. exists n, bs2.
    unfold free_opt. destruct (Z.eqb_spec n 0) as [->|]; [destruct Hn as [Hl _]; size_lia|].
    split_and!; [done..|by constructor| |]; by destruct bs2.
Qed.

Lemma released_ok bs1 n bs2 : Forall block_ok bs1 -> Forall block_ok bs2 -> HEADER_LEN <= n -> n mod 8 = 0 ->
  Forall block_ok (released bs1 n bs2).
Proof.
  intros H1 H2 Hn H8. destruct bs2 as [|b bs2]; [done|]. apply Forall_app. split; [done|]. constructor; [|done].
  by split.
Qed.

Lemma released_coalesced bs1 n bs2 : coalesced bs1 -> coalesced bs2 ->
  match bs2 with b :: _ => is_free b = false | [] => True end -> coalesced (released bs1 n bs2).
Proof.
  intros H1 H2 Hf. destruct bs2 as [|b bs2]; [done|]. by apply coalesced_app; [|split].
Qed.

Lemma mark_inv s bs1 bs2 n h str : shard_inv s (bs1 ++ Used n h 0 str :: bs2) ->
  exists s' bs', mark_for_reclamation (total bs1) s = Some s' /\ shard_inv s' bs' /\ capacity s' = capacity s /\
    used_blocks 0 bs' = used_blocks 0 bs1 ++ used_blocks (total bs1 + n) bs2.
Proof.
  intros Hinv. pose proof (access_bounds _ _ _ _ Hinv) as (Hb & H0 & H8 & H1 & H2 & H3 & Hoff & H4).
  pose proof (access_header _ _ _ _ Hinv) as Hhdr. unfold mark_for_reclamation. rewrite Hhdr. simpl mbind.
  change (is_active (header_of (Used n h 0 str))) with false. unfold add_reclaimed_from_header.
  cbn [buffer offset capacity entries len reclaimed]. rewrite Hhdr. cbn [mbind option_bind r_capacity].
  rewrite (entry_len_of (Used n h 0 str)) by (done || lia). cbn [blen] in *.
  destruct Hinv as [Hok Hlay _ Hcap Hrec Hco Hent Hlen].
  apply Forall_app in Hok as [Hok1 [_ Hok2]%Forall_cons].
  pose proof (used_bounds bs1 Hok1) as [Hu1 Hl1]. pose proof (used_bounds bs2 Hok2) as [Hu2 Hl2].
  rewrite used_count_app in Hent. rewrite used_len_app in Hlen.
  assert (Hent' : entries s = used_count bs1 + (1 + used_count bs2)) by (rewrite Hent; done).
  assert (Hlen' : len s = used_len bs1 + (n + used_len bs2)) by (rewrite Hlen; done). clear Hent Hlen.
  apply layout_app in Hlay as [Hlay1 [_ Hlay2]]. rewrite free_list_app in Hrec. rewrite Z.add_0_l in *.
  cbn [free_list is_free app blen] in Hrec, Hlay2.
  pose proof (coalesced_app_r _ _ Hco) as [_ Hco2].
  destruct (split_left _ _ _ Hco Hok1) as (bs1' & c1 & -> & Hc1 & Hok1' & Hf1).
  destruct (split_right _ Hco2 Hok2) as (c2 & bs2' & -> & Hc2 & Hok2' & Hf2 & Hz & Hfirst).
  rewrite !total_app, !total_opt in *. apply layout_app in Hlay1 as [Hlay1 _]. apply layout_app in Hlay2 as [_ Hlay2].
  rewrite total_opt in Hlay2. destruct (used_opt c1) as [Ec1 El1], (used_opt c2) as [Ec2 El2].
  rewrite !used_count_app, !used_len_app, ?Ec1, ?El1, ?Ec2, ?El2 in *.
  destruct Hb as (Hbl & Hb8 & _). simpl in Hbl, Hb8.
  rewrite !wrapping_sub_exact by size_lia.
  edestruct (add_reclaimed_spec {| buffer := buffer s; offset := offset s; capacity := capacity s;
    entries := entries s - 1; len := len s - n; reclaimed := reclaimed s |} bs1' bs2' (total bs1' + c1) n c1 c2)
    as (s' & Hs' & (E1 & E2 & E3 & E4) & Ha & Eo & El & Er); simpl; try done; try lia.
  exists s', (released bs1' (c1 + n + c2) bs2'). unfold entry in Hs'. rewrite Hs'. split; [done|].
  destruct (free_opt_len c1 Hf1) as (? & Hc18 & _). destruct (free_opt_len c2 Hf2) as (? & Hc28 & _). simpl in *.
  destruct (used_released bs1' (c1 + n + c2) bs2') as [Uc Ul].
  split; [split|split].
  - apply released_ok; [done|done|size_lia|]. apply add_mod8; [|done]. by apply add_mod8.
  - done.
  - done.
  - rewrite E1, E4, Eo. split; [|lia]. pose proof (total_blocks_nonneg bs2' Hok2').
    assert (total (released bs1' (c1 + n + c2) bs2') <= offset s); [|lia].
    destruct bs2' as [|b bs2']; simpl; [size_lia|]. rewrite total_app, (total_cons (Free _)). size_lia.
  - done.
  - by apply released_coalesced.
  - rewrite E2, Uc. lia.
  - rewrite E3, Ul. lia.
  - done.
  - rewrite (used_blocks_released 0 bs1' n bs2' c1 c2) by done. by rewrite Z.add_0_l.
Qed.

(** ** Writing an entry *)

Lemma write_entry_spec o n h str s : 0 <= o -> o mod 8 = 0 -> block_ok (Used n h 1 str) -> n <= max_capacity ->
  o + n <= b_size (buffer s) ->
  exists m, write_entry o (header_of (Used n h 1 str)) str s =
      Some (o, {| buffer := m; offset := offset s; capacity := capacity s; entries := u64_add (entries s) 1;
                  len := u64_add (len s) n; reclaimed := reclaimed s |}) /\
    agree_outside o (o + n) (buffer s) m /\ block_at m o (Used n h 1 str).
Proof.
  intros Ho H8 Hb Hn Hsz. unfold write_entry. rewrite entry_len_of by done. destruct Hb as (Hl & _ & Hs & _). cbn [blen] in *.
  destruct (write_header_spec o (header_of (Used n h 1 str)) (buffer s)) as (m1 & -> & Ha1 & Hh1).
  { apply header_ok_spec; size_lia. }
  cbn [mbind option_bind]. destruct (write_bytes_spec (o + HEADER_LEN) str m1) as (m2 & -> & Ha2 & Hb2).
  { pose proof (ao_size _ _ _ _ Ha1). apply in_bounds_spec; size_lia. }
  cbn [mbind option_bind]. exists m2. split; [done|]. split.
  - eapply agree_outside_trans; [eapply agree_outside_weaken; [| |exact Ha1]; size_lia|].
    eapply agree_outside_weaken; [| |exact Ha2]; size_lia.
  - split; [|exact Hb2]. destruct Ha2 as [_ Hh2 _]. rewrite Hh2; [done|]. size_lia.
Qed.

Lemma find_free (f : ReclaimedEntry -> bool) o bs e : List.find f (free_list o bs) = Some e ->
  exists bs1 n bs2, bs = bs1 ++ Free n :: bs2 /\ e = entry (o + total bs1) n /\ f e = true.
Proof.
  revert o. induction bs as [|b bs IH]; intros o; [done|]. cbn [free_list].
  assert (Hrec : List.find f (free_list (o + blen b) bs) = Some e ->
    exists bs1 n bs2, b :: bs = bs1 ++ Free n :: bs2 /\ e = entry (o + total bs1) n /\ f e = true).
  { intros H. destruct (IH _ H) as (bs1 & n & bs2 & -> & -> & Hf). exists (b :: bs1), n, bs2.
    rewrite total_cons. by rewrite Z.add_assoc. }
  destruct (is_free b) eqn:Ef; [|exact Hrec]. cbn [app List.find].
  destruct (f {| r_offset := o; r_capacity := blen b |}) eqn:E; [|exact Hrec]. intros [= <-].
  destruct b as [|n]; [done|]. exists [], n, bs. unfold total. simpl. rewrite Z.add_0_r. done.
Qed.

Lemma find_free_none (f : ReclaimedEntry -> bool) o bs : List.find f (free_list o bs) = None ->
  forall bs1 n bs2, bs = bs1 ++ Free n :: bs2 -> f (entry (o + total bs1) n) = false.
Proof.
  intros H bs1 n bs2 ->. rewrite free_list_app in H.
  eapply List.find_none; [exact H|]. apply in_app_iff. right. simpl. by left.
Qed.

Lemma remove_free bs1 n bs2 : Forall block_ok (bs1 ++ Free n :: bs2) -> coalesced bs1 ->
  btree_remove (entry (total bs1) n) (free_list 0 (bs1 ++ Free n :: bs2)) =
  free_list 0 bs1 ++ free_list (total bs1 + n) bs2.
Proof.
  intros Hok Hc. apply Forall_app in Hok as [Hok1 _]. rewrite free_list_app, Z.add_0_l.
  rewrite (btree_remove_skip (free_list 0 bs1)).
  - f_equal. cbn [free_list is_free blen app btree_remove r_offset entry]. by rewrite Z.eqb_refl.
  - eapply Forall_impl; [by apply free_list_before|]. unfold within, entry. simpl. intros e. size_lia.
Qed.

(** The blocks a string takes from a free block of length [n]. *)
Definition carved (n h : Z) (str : bytes) : list block :=
  let k := padded str in
  if MINIMUM_ENTRY_LEN <=? n - k then [Used k h 1 str; Free (n - k)] else [Used n h 1 str].

Lemma padded_ok str h : length str < 2 ^ 32 -> block_ok (Used (padded str) h 1 str).
Proof.
  intros Hs. destruct (padded_bounds str) as [Hp H8]. split_and!; simpl; [size_lia|done|size_lia|size_lia].
Qed.

Lemma from_reclaimed_entry_spec o n h str : padded str <= n <= max_capacity -> 0 <= o <= max_capacity -> length str < 2 ^ 32 ->
  from_reclaimed_entry (entry o n) h str =
  if MINIMUM_ENTRY_LEN <=? n - padded str
  then (header_of (Used (padded str) h 1 str), Some (entry (o + padded str) (n - padded str)))
  else (header_of (Used n h 1 str), None).
Proof.
  intros Hn Ho Hs. destruct (padded_bounds str) as [Hp _]. pose proof (len_for_exact str Hs) as Hlf.
  unfold from_reclaimed_entry, usable_from_reclaimed, split_off. cbn [r_capacity r_offset entry].
  rewrite Hlf. unfold len_for in Hlf. rewrite !(wrapping_sub_exact 64 n) by size_lia.
  assert (Ha : aligned_string str = padded str - HEADER_LEN).
  { unfold aligned_string, padded. rewrite aligned_exact by lia. lia. }
  rewrite Ha. rewrite !(wrapping_sub_exact 64) by size_lia.
  replace (n - HEADER_LEN - (padded str - HEADER_LEN)) with (n - padded str) by lia.
  destruct (MINIMUM_ENTRY_LEN <=? n - padded str); simpl; [|done].
  rewrite wrapping_add_exact by size_lia. done.
Qed.

Section reuse.
Context (s : InternerShardState) (bs1 bs2 : list block) (n h : Z) (str : bytes).
Context (Hinv : shard_inv s (bs1 ++ Free n :: bs2)) (Hfit : padded str <= n) (Hstr : length str < 2 ^ 32).

(** The shard with the free block taken off the free list *)
Definition taken : InternerShardState :=
  {| buffer := buffer s; offset := offset s; capacity := capacity s; entries := entries s; len := len s;
     reclaimed := free_list 0 bs1 ++ free_list (total bs1 + n) bs2 |}.

Lemma reuse_facts : Forall block_ok bs1 /\ Forall block_ok bs2 /\ coalesced bs1 /\ coalesced bs2 /\
  match bs2 with b :: _ => is_free b = false | [] => False end /\ n mod 8 = 0 /\ HEADER_LEN <= n /\ 0 < total bs2.
Proof using All.
  destruct Hinv as [Hok _ _ _ _ Hco _ _]. apply Forall_app in Hok as [Hok1 [Hn Hok2]%Forall_cons].
  pose proof (coalesced_app_r _ _ Hco) as [Hfirst Hco2]. specialize (Hfirst eq_refl).
  destruct Hn as (Hl & H8 & _). split_and!; try done.
  - by apply (coalesced_before_free _ (Free n) bs2).
  - destruct bs2 as [|b bs2']; [done|]. apply Forall_cons in Hok2 as [[Hb _] Hok2]. rewrite total_cons.
    pose proof (total_blocks_nonneg bs2' Hok2). size_lia.
Qed.

(** Splitting off what the string does not need *)
Lemma add_split k : k = n - padded str -> MINIMUM_ENTRY_LEN <= k ->
  exists m, add_reclaimed (entry (total bs1 + padded str) k) taken =
    Some {| buffer := m; offset := offset s; capacity := capacity s; entries := entries s; len := len s;
            reclaimed := free_list 0 bs1 ++ entry (total bs1 + padded str) k :: free_list (total bs1 + n) bs2 |} /\
    agree_outside (total bs1 + padded str) (total bs1 + n) (buffer s) m /\
    block_at m (total bs1 + padded str) (Free k).
Proof using All.
  intros -> Hk. unfold MINIMUM_ENTRY_LEN in Hk.
  destruct reuse_facts as (Hok1 & Hok2 & Hc1 & Hc2 & Hfirst & H8 & Hl & Ht2).
  pose proof (access_bounds _ _ _ _ Hinv) as (_ & H0 & H18 & H1 & H2 & H3 & Hoff & _). cbn [blen] in *.
  destruct (padded_bounds str) as [Hp Hp8].
  unfold add_reclaimed. cbn [taken reclaimed].
  pose proof (reclaimed_insert_spec (total bs1 + padded str) (n - padded str) 0 0 (free_list 0 bs1)
    (free_list (total bs1 + n) bs2)) as Hins. unfold prev_list, next_list in Hins. cbn [Z.eqb app] in Hins.
  rewrite Hins; clear Hins; [|size_lia..| |].
  2: { eapply Forall_impl; [by apply free_list_before|]. unfold within. intros e. size_lia. }
  2: { eapply Forall_impl; [apply free_list_after; [done|by destruct bs2]|]. unfold within. intros e. size_lia. }
  rewrite Z.sub_0_r, Z.add_0_l, Z.add_0_r. cbn [r_offset r_capacity entry offset taken].
  rewrite wrapping_add_exact by size_lia. rewrite (proj2 (Z.eqb_neq _ _)) by size_lia.
  edestruct (clear_reclaimed_entry_spec (total bs1 + padded str) (n - padded str)) as (m & Hm & Ha & Hb);
    [..|rewrite Hm; exists m; split; [done|]]; cbn [buffer taken]; [size_lia|by apply add_mod8|size_lia|size_lia|].
  replace (total bs1 + padded str + (n - padded str)) with (total bs1 + n) in Ha by lia. by split.
Qed.

Lemma reuse_inv : exists s', write_to_reclaimed_entry (entry (total bs1) n) h str taken = Some (total bs1, s') /\
  shard_inv s' (bs1 ++ carved n h str ++ bs2) /\ capacity s' = capacity s.
Proof using All.
  destruct reuse_facts as (Hok1 & Hok2 & Hc1 & Hc2 & Hfirst & H8 & Hl & Ht2).
  pose proof (access_bounds _ _ _ _ Hinv) as (_ & H0 & H18 & H1 & H2 & H3 & Hoff & _). cbn [blen] in *.
  destruct (padded_bounds str) as [Hp Hp8]. pose proof (padded_ok str h Hstr) as Hbk.
  unfold write_to_reclaimed_entry. rewrite from_reclaimed_entry_spec by size_lia. cbn [r_offset entry].
  destruct Hinv as [_ Hlay Hoffs Hcap _ _ Hent Hlen]. apply layout_app in Hlay as [Hlay1 [_ Hlay2]]. rewrite Z.add_0_l in Hlay2.
  pose proof (used_bounds bs1 Hok1) as [Hu1 Hl1]. pose proof (used_bounds bs2 Hok2) as [Hu2 Hl2].
  rewrite used_count_app in Hent. rewrite used_len_app in Hlen.
  assert (Hent' : entries s = used_count bs1 + used_count bs2) by (rewrite Hent; done).
  assert (Hlen' : len s = used_len bs1 + used_len bs2) by (rewrite Hlen; done). clear Hent Hlen.
  cbn [blen] in Hlay2. unfold carved. destruct (Z.leb_spec MINIMUM_ENTRY_LEN (n - padded str)) as [Hk|Hk].
  - destruct (add_split _ eq_refl Hk) as (m1 & -> & Ha1 & Hb1). cbn [mbind option_bind]. unfold MINIMUM_ENTRY_LEN in Hk.
    edestruct (write_entry_spec (total bs1) (padded str) h str) as (m2 & Hm2 & Ha2 & Hb2);
      [..|rewrite Hm2; eexists; split; [done|]]; cbn [buffer]; [done|done|done|size_lia| |].
    { rewrite (ao_size _ _ _ _ Ha1). size_lia. }
    split; [|done]. cbn [buffer offset capacity entries len reclaimed] in *.
    assert (Ha : agree_outside (total bs1) (total bs1 + n) (buffer s) m2).
    { eapply agree_outside_trans; [eapply agree_outside_weaken; [| |exact Ha1]; size_lia|].
      eapply agree_outside_weaken; [| |exact Ha2]; size_lia. }
    assert (Hfr : block_ok (Free (n - padded str))).
    { split_and!; cbn [blen]; [size_lia| |done]. unfold HEADER_ALIGN. by rewrite Zminus_mod, H8, Hp8. }
    split; cbn [buffer offset capacity entries len reclaimed].
    + apply Forall_app. split; [done|]. constructor; [done|]. by constructor.
    + apply layout_app. rewrite Z.add_0_l. split; [eapply layout_frame; [exact Ha|done| |done]; lia|].
      split; [done|]. cbn [blen]. split.
      * eapply block_at_frame; [exact Ha2|done| |done]. size_lia.
      * cbn [blen]. replace (total bs1 + padded str + (n - padded str)) with (total bs1 + n) by lia.
        eapply layout_frame; [exact Ha|done| |done]. lia.
    + cbn [app]. rewrite total_app, !total_cons. cbn [blen]. rewrite total_app, total_cons in Hoffs. cbn [blen] in Hoffs. lia.
    + rewrite (ao_size _ _ _ _ Ha). done.
    + rewrite free_list_app. cbn [app free_list is_free blen]. rewrite Z.add_0_l.
      by replace (total bs1 + padded str + (n - padded str)) with (total bs1 + n) by lia.
    + apply coalesced_app; [done|]. split; [done|]. split; [|done]. by destruct bs2.
    + cbn [app]. rewrite used_count_app, wrapping_add_exact by size_lia. unfold used_count in *. rewrite !sumZ_cons. simpl. lia.
    + cbn [app]. rewrite used_len_app, wrapping_add_exact by size_lia. unfold used_len in *. rewrite !sumZ_cons. simpl. lia.
  - cbn [mbind option_bind]. unfold MINIMUM_ENTRY_LEN in Hk.
    assert (Hbk' : block_ok (Used n h 1 str)) by (split_and!; simpl; [done|done|size_lia|size_lia]).
    edestruct (write_entry_spec (total bs1) n h str taken) as (m2 & Hm2 & Ha2 & Hb2);
      [..|rewrite Hm2; eexists; split; [done|]]; cbn [buffer taken]; [done|done|done|size_lia|size_lia|].
    split; [|done]. cbn [taken buffer offset capacity entries len reclaimed] in *.
    split; cbn [buffer offset capacity entries len reclaimed].
    + apply Forall_app. split; [done|]. by constructor.
    + apply layout_app. rewrite Z.add_0_l. split; [eapply layout_frame; [exact Ha2|done| |done]; lia|].
      split; [done|]. eapply layout_frame; [exact Ha2|done| |done]. size_lia.
    + cbn [app]. rewrite total_app, !total_cons. cbn [blen]. rewrite total_app, total_cons in Hoffs. cbn [blen] in Hoffs. lia.
    + rewrite (ao_size _ _ _ _ Ha2). done.
    + rewrite free_list_app. cbn [app free_list is_free blen]. by rewrite Z.add_0_l.
    + apply coalesced_app; [done|]. by split.
    + cbn [app]. rewrite used_count_app, wrapping_add_exact by size_lia. unfold used_count in *. rewrite !sumZ_cons. simpl. lia.
    + cbn [app]. rewrite used_len_app, wrapping_add_exact by size_lia. unfold used_len in *. rewrite !sumZ_cons. simpl. lia.
Qed.
End reuse.

Lemma used_blocks_carved o n h str bs2 : used_blocks o (carved n h str ++ bs2) =
  (o, Used (if MINIMUM_ENTRY_LEN <=? n - padded str then padded str else n) h 1 str) :: used_blocks (o + n) bs2.
Proof.
  unfold carved. destruct (_ <=? _); cbn [app used_blocks is_free blen]; [|done].
  by replace (o + padded str + (n - padded str)) with (o + n) by lia.
Qed.

(** ** Appending an entry *)

Lemma append_inv s bs h str : shard_inv s bs -> length str < 2 ^ 32 -> padded str <= capacity s - offset s ->
  exists s', write_to_unoccupied h str s = Some (offset s, s') /\
    shard_inv s' (bs ++ [Used (padded str) h 1 str]) /\ capacity s' = capacity s.
Proof.
  intros [Hok Hlay Hoff Hcap Hrec Hco Hent Hlen] Hs Hfit. pose proof (padded_ok str h Hs) as Hbk.
  destruct (padded_bounds str) as [Hp Hp8]. pose proof (total_blocks_nonneg bs Hok) as Ht.
  pose proof (used_bounds bs Hok) as [Hu Hl].
  assert (Hhd : from_string h str = header_of (Used (padded str) h 1 str)).
  { unfold from_string, header_of. do 2 f_equal. unfold aligned_string, padded. rewrite aligned_exact by lia. lia. }
  unfold write_to_unoccupied. rewrite Hhd, entry_len_of by (done || size_lia). cbn [blen].
  rewrite wrapping_add_exact by size_lia.
  edestruct (write_entry_spec (offset s) (padded str) h str) as (m & Hm & Ha & Hb);
    [..|rewrite Hm; eexists; split; [done|]]; cbn [buffer]; [lia| |done|size_lia|size_lia|].
  { rewrite Hoff. by apply total_aligned. }
  split; [|done]. cbn [buffer offset capacity entries len reclaimed] in *.
  split; cbn [buffer offset capacity entries len reclaimed].
  - apply Forall_app. split; [done|]. by constructor.
  - apply layout_app. rewrite Z.add_0_l, <- Hoff. split; [eapply layout_frame; [exact Ha|done| |done]; lia|]. by split.
  - rewrite total_app, <- Hoff. unfold total. simpl. lia.
  - rewrite (ao_size _ _ _ _ Ha). lia.
  - rewrite free_list_app. cbn [free_list is_free app]. by rewrite app_nil_r.
  - by apply coalesced_app.
  - rewrite used_count_app, wrapping_add_exact by size_lia. unfold used_count in *. simpl. lia.
  - rewrite used_len_app, wrapping_add_exact by size_lia. unfold used_len in *. simpl. lia.
Qed.

(** There is room for a string in a free block or behind the last block. *)
Definition has_room (s : InternerShardState) (bs : list block) (str : bytes) : Prop :=
  padded str <= capacity s - offset s \/ exists bs1 n bs2, bs = bs1 ++ Free n :: bs2 /\ padded str <= n.

Lemma intern_new_inv s bs h str : shard_inv s bs -> length str < 2 ^ 32 ->
  exists r s' bs', intern_new h str s = Some (r, s') /\ shard_inv s' bs' /\ capacity s' = capacity s /\
    match r with
    | Some o => has_room s bs str /\ exists U1 U2 n, used_blocks 0 bs = U1 ++ U2 /\
                  used_blocks 0 bs' = U1 ++ (o, Used n h 1 str) :: U2
    | None => s' = s /\ bs' = bs /\ ~ has_room s bs str
    end.
Proof.
  intros Hinv Hs. unfold intern_new, take_if. rewrite len_for_exact by done.
  pose proof Hinv as [Hok _ Hoff Hcap Hrec Hco _ _]. rewrite Hrec.
  destruct (List.find _ (free_list 0 bs)) as [e|] eqn:Ef; cbn [mbind option_bind].
  - destruct (find_free _ _ _ _ Ef) as (bs1 & n & bs2 & -> & -> & Hf). apply Z.leb_le in Hf.
    rewrite Z.add_0_l in *. cbn [entry r_capacity] in Hf.
    assert (Hc1 : coalesced bs1) by by apply (coalesced_before_free _ (Free n) bs2).
    change {| r_offset := total bs1; r_capacity := n |} with (entry (total bs1) n). rewrite remove_free by done.
    destruct (reuse_inv s bs1 bs2 n h str Hinv Hf Hs) as (s' & Hs' & Hinv' & Hcap').
    unfold taken in Hs'. rewrite Hs'. cbn [mbind option_bind]. eexists (Some (total bs1)), s', _. split; [done|].
    split; [exact Hinv'|]. split; [done|]. split; [right; by exists bs1, n, bs2|].
    exists (used_blocks 0 bs1), (used_blocks (total bs1 + n) bs2), (if MINIMUM_ENTRY_LEN <=? n - padded str then padded str else n).
    rewrite (used_blocks_app 0 bs1 (Free n :: bs2)), (used_blocks_app 0 bs1 (carved n h str ++ bs2)), used_blocks_carved, Z.add_0_l.
    done.
  - assert (Hnone : forall bs1 n bs2, bs = bs1 ++ Free n :: bs2 -> n < padded str).
    { intros bs1 n bs2 E. pose proof (find_free_none _ _ _ Ef _ _ _ E) as Hf. by apply Z.leb_gt in Hf. }
    pose proof (total_blocks_nonneg bs Hok). unfold available. rewrite wrapping_sub_exact by size_lia.
    destruct (Z.leb_spec (padded str) (capacity s - offset s)) as [Hfit|Hfit].
    + destruct (append_inv s bs h str Hinv Hs Hfit) as (s' & -> & Hinv' & Hcap'). cbn [mbind option_bind].
      eexists (Some (offset s)), s', _. split; [done|]. split; [exact Hinv'|]. split; [done|]. split; [by left|].
      exists (used_blocks 0 bs), [], (padded str). rewrite app_nil_r, used_blocks_app, Z.add_0_l, <- Hoff. done.
    + exists None, s, bs. split_and!; try done. intros [Hr|(bs1 & n & bs2 & E & Hr)]; [lia|].
      specialize (Hnone _ _ _ E). lia.
Qed.

(** ** The used blocks of a shard have distinct offsets *)

Lemma used_blocks_range o bs : Forall block_ok bs -> forall x b, (x, b) ∈ used_blocks o bs ->
  o <= x /\ x + blen b <= o + total bs /\ block_ok b.
Proof.
  intros Hok x b Hx. destruct (used_blocks_split _ _ _ _ Hx) as (bs1 & bs2 & -> & -> & _).
  apply Forall_app in Hok as [Hok1 [Hb Hok2]%Forall_cons]. rewrite total_app, total_cons.
  pose proof (total_blocks_nonneg bs1 Hok1). pose proof (total_blocks_nonneg bs2 Hok2). split_and!; [lia..|done].
Qed.

Lemma used_blocks_nodup o bs : Forall block_ok bs -> NoDup (used_blocks o bs).*1.
Proof.
  intros Hok. revert o. induction Hok as [|b bs Hb Hok IH]; intros o; [constructor|]. cbn [used_blocks].
  destruct (is_free b); [apply IH|]. cbn [app fmap list_fmap fst]. constructor; [|apply IH].
  intros Hin. apply list_elem_of_fmap in Hin as ([x b'] & -> & Hin).
  apply (used_blocks_range _ _ Hok) in Hin as (Hge & _). destruct Hb as [Hl _]. simpl in *. size_lia.
Qed.
