(* ===== verification/InternerSteps.v ===== *)
(** * InternerSteps: a shard of the interner used by several threads

    Handles on interned strings ([StringState] of [lib/stringtheory/src/interning/fixed_size.rs]) are
    cloned and dropped without the shard's lock: only their atomic reference counts are touched.
    Searching, writing and reclaiming entries happen under the lock, but a search looks at counts
    that other threads change meanwhile, and a thread that dropped the last handle takes the lock
    only later.  [step] interleaves all of that, with every atomic access of a search on its own.

    The theorems: no interleaving makes an invalid access, every handle reads the string it was made
    for as long as it lives, two handles are equal exactly when their strings are, and a shard
    without handles is empty again. *)

From Stdlib Require Import ZArith Lia.
From stdpp Require Import base tactics list numbers option gmap relations.
From S2P Require Import Prelude Bytes Interner InternerLayout.
Open Scope Z_scope.

#[local] Coercion Z.of_nat : nat >-> Z.

(** ** The world *)

(** A handle: the offset of its header, and the string it was made for *)
Abbreviation handle := (Z * bytes)%type.

(** The thread that holds the lock and searches: about to look at the entry at an offset, or about
    to take the entry it found there. *)
Inductive searching :=
  | Walking (o : Z) (str : bytes)
  | Taking (o : Z) (str : bytes).

Record World := {
  shard : InternerShardState;
  handles : list handle;
  pending : list Z; (* headers whose last handle is gone, to be reclaimed *)
  search : option searching;
}.

Definition initial (s : InternerShardState) : World :=
  {| shard := s; handles := []; pending := []; search := None |}.

(** [StringState::eq] *)
Definition handle_eqb (h1 h2 : handle) : bool := h1.1 =? h2.1.

Section steps.
Context `{StringHasher}.

(** The end of an attempt to intern: with a handle or without one *)
Definition finish (found : option Z) (str : bytes) (s : InternerShardState) (w : World) : World :=
  {| shard := s; handles := match found with Some o => (o, str) :: handles w | None => handles w end;
     pending := pending w; search := None |}.

Definition with_search (sr : searching) (w : World) : World :=
  {| shard := shard w; handles := handles w; pending := pending w; search := Some sr |}.

Definition with_memory (m : Buffer) (w : World) : World :=
  {| shard := with_buffer m (shard w); handles := handles w; pending := pending w; search := search w |}.

Inductive raw_step : World -> World -> Prop :=
  (* [try_intern] takes the lock; it searches only when there are entries. *)
  | step_begin w str : search w = None -> length str <= maximum_value -> entries (shard w) <> 0 ->
      raw_step w (with_search (Walking 0 str) w)
  | step_begin_empty w str found s' : search w = None -> length str <= maximum_value -> entries (shard w) = 0 ->
      intern_new (hash_string str) str (shard w) = Some (found, s') ->
      raw_step w (finish found str s' w)
  (* the header at the offset does not match, or it does *)
  | step_pass w o str o' : search w = Some (Walking o str) -> o < offset (shard w) ->
      entry_matches o (hash_string str) str (buffer (shard w)) = Some false ->
      next_offset o (buffer (shard w)) = Some o' ->
      raw_step w (with_search (Walking o' str) w)
  | step_match w o str : search w = Some (Walking o str) -> o < offset (shard w) ->
      entry_matches o (hash_string str) str (buffer (shard w)) = Some true ->
      raw_step w (with_search (Taking o str) w)
  (* the entry is still in use and taken, or it is skipped *)
  | step_take w o str m : search w = Some (Taking o str) ->
      try_increment_active_refs o (buffer (shard w)) = Some (true, m) ->
      raw_step w (finish (Some o) str (with_buffer m (shard w)) w)
  | step_skip w o str m o' : search w = Some (Taking o str) ->
      try_increment_active_refs o (buffer (shard w)) = Some (false, m) -> next_offset o m = Some o' ->
      raw_step w (with_search (Walking o' str) (with_memory m w))
  (* the search is over *)
  | step_write w o str found s' : search w = Some (Walking o str) -> offset (shard w) <= o ->
      intern_new (hash_string str) str (shard w) = Some (found, s') ->
      raw_step w (finish found str s' w)
  (* [StringState::clone] *)
  | step_clone w o str m : (o, str) ∈ handles w -> increment_active_refs o (buffer (shard w)) = Some m ->
      raw_step w {| shard := with_buffer m (shard w); handles := (o, str) :: handles w; pending := pending w;
                    search := search w |}
  (* [StringState::drop]: the count first *)
  | step_drop w hs1 o str hs2 last m : handles w = hs1 ++ (o, str) :: hs2 ->
      decrement_active_refs o (buffer (shard w)) = Some (last, m) ->
      raw_step w {| shard := with_buffer m (shard w); handles := hs1 ++ hs2;
                    pending := if last : bool then o :: pending w else pending w; search := search w |}
  (* and the lock later *)
  | step_reclaim w ps1 o ps2 s' : search w = None -> pending w = ps1 ++ o :: ps2 ->
      mark_for_reclamation o (shard w) = Some s' ->
      raw_step w {| shard := s'; handles := handles w; pending := ps1 ++ ps2; search := None |}.

(** A handle takes sixteen bytes of memory: there are never [2^64] of them. *)
Definition step (w w' : World) : Prop := raw_step w w' /\ length (handles w') < u64_max.

Definition reachable (cap : Z) (w : World) : Prop :=
  exists s, with_capacity cap = Some s /\ rtc step (initial s) w.

(** The accesses that the threads of a world may make next are all valid. *)
Definition no_invalid_access (w : World) : Prop :=
  (forall o str, (o, str) ∈ handles w ->
     is_Some (get_entry_string o (buffer (shard w))) /\ is_Some (increment_active_refs o (buffer (shard w))) /\
     is_Some (decrement_active_refs o (buffer (shard w)))) /\
  (forall o, o ∈ pending w -> search w = None -> is_Some (mark_for_reclamation o (shard w))) /\
  (forall str, search w = None -> length str <= maximum_value ->
     is_Some (intern_new (hash_string str) str (shard w))) /\
  (forall o str, search w = Some (Walking o str) ->
     if o <? offset (shard w) then
       is_Some (entry_matches o (hash_string str) str (buffer (shard w))) /\ is_Some (next_offset o (buffer (shard w)))
     else is_Some (intern_new (hash_string str) str (shard w))) /\
  (forall o str, search w = Some (Taking o str) ->
     exists taken m, try_increment_active_refs o (buffer (shard w)) = Some (taken, m) /\ is_Some (next_offset o m)).
End steps.

(** ** The invariant of a world *)

Definition refs_of (o : Z) (hs : list handle) : Z := sumZ (fun h => if h.1 =? o then 1 else 0) hs.

(** No live entry for the string among the blocks. *)
Definition not_live (str : bytes) (bs : list block) : Prop :=
  forall x n h r, (x, Used n h r str) ∈ used_blocks 0 bs -> r = 0.

Definition search_ok (sr : option searching) (bs : list block) : Prop :=
  match sr with
  | None => True
  | Some (Walking o str) => exists bs1 bs2, bs = bs1 ++ bs2 /\ o = total bs1 /\ length str < 2 ^ 32 /\ not_live str bs1
  | Some (Taking o str) => exists bs1 n h r bs2, bs = bs1 ++ Used n h r str :: bs2 /\ o = total bs1 /\
                             length str < 2 ^ 32 /\ not_live str bs1
  end.

Section invariant.
Context `{StringHasher}.

Record world_inv (w : World) (bs : list block) : Prop := {
  wi_shard : shard_inv (shard w) bs;
  wi_used : forall o n h r str, (o, Used n h r str) ∈ used_blocks 0 bs ->
    h = hash_string str /\ r = refs_of o (handles w) /\ (r = 0 <-> o ∈ pending w);
  wi_handles : forall o str, (o, str) ∈ handles w -> exists n h r, (o, Used n h r str) ∈ used_blocks 0 bs;
  wi_pending : NoDup (pending w) /\
    forall o, o ∈ pending w -> exists n h r str, (o, Used n h r str) ∈ used_blocks 0 bs;
  wi_unique : forall o o' n n' h h' r r' str, (o, Used n h r str) ∈ used_blocks 0 bs ->
    (o', Used n' h' r' str) ∈ used_blocks 0 bs -> r <> 0 -> r' <> 0 -> o = o';
  wi_search : search_ok (search w) bs;
}.

Lemma refs_of_nonneg o hs : 0 <= refs_of o hs <= length hs.
Proof.
  induction hs as [|h hs IH]; [done|]. unfold refs_of in *. rewrite sumZ_cons. simpl length.
  destruct (h.1 =? o); lia.
Qed.

Lemma refs_of_app o hs1 hs2 : refs_of o (hs1 ++ hs2) = refs_of o hs1 + refs_of o hs2.
Proof. apply sumZ_app. Qed.

Lemma refs_of_cons o h hs : refs_of o (h :: hs) = (if h.1 =? o then 1 else 0) + refs_of o hs.
Proof. done. Qed.

Lemma refs_of_pos o str hs : (o, str) ∈ hs -> 0 < refs_of o hs.
Proof.
  intros (hs1 & hs2 & ->)%list_elem_of_split. rewrite refs_of_app, refs_of_cons. simpl. rewrite Z.eqb_refl.
  pose proof (refs_of_nonneg o hs1). pose proof (refs_of_nonneg o hs2). lia.
Qed.

Lemma refs_of_zero o hs : (forall str, (o, str) ∉ hs) -> refs_of o hs = 0.
Proof.
  induction hs as [|[o' str] hs IH]; intros Hno; [done|]. rewrite refs_of_cons. simpl.
  rewrite IH by (intros s Hs; apply (Hno s); by right). destruct (Z.eqb_spec o' o) as [->|]; [|done].
  exfalso. apply (Hno str). left.
Qed.

(** ** Tilings that differ in one count *)

Lemma elem_of_used x b b1 b0 b2 : is_free b0 = false ->
  (x, b) ∈ used_blocks 0 (b1 ++ b0 :: b2) <->
  (x, b) ∈ used_blocks 0 b1 \/ (x, b) = (total b1, b0) \/ (x, b) ∈ used_blocks (total b1 + blen b0) b2.
Proof.
  intros Hf. rewrite used_blocks_app, Z.add_0_l. cbn [used_blocks]. rewrite Hf. cbn [app].
  rewrite elem_of_app, elem_of_cons. tauto.
Qed.

Lemma not_live_refs str b1 n h r s b2 r' : r <> 0 ->
  not_live str (b1 ++ Used n h r s :: b2) -> not_live str (b1 ++ Used n h r' s :: b2).
Proof.
  intros Hr Hn x n0 h0 r0 Hin. rewrite elem_of_used in Hin by done. destruct Hin as [Hin|[Hin|Hin]].
  - eapply Hn, elem_of_used; [done|]. left. exact Hin.
  - simplify_eq. exfalso. apply Hr. eapply Hn, elem_of_used; [done|]. right. left. done.
  - eapply Hn, elem_of_used; [done|]. right. right. exact Hin.
Qed.

Lemma search_ok_refs sr b1 n h r s b2 r' : r <> 0 ->
  search_ok sr (b1 ++ Used n h r s :: b2) -> search_ok sr (b1 ++ Used n h r' s :: b2).
Proof.
  intros Hr. destruct sr as [[o str|o str]|]; simpl; [| |done].
  - intros (c1 & c2 & E & -> & Hl & Hn). apply app_eq_inv in E as [(k & -> & E)|(k & -> & E)].
    + exists c1, (k ++ Used n h r' s :: b2). by rewrite <- app_assoc.
    + destruct k as [|b k]; simpl in E.
      * subst c2. exists b1, (Used n h r' s :: b2). rewrite app_nil_r in *. done.
      * simplify_eq. exists (b1 ++ Used n h r' s :: k), c2. rewrite <- app_assoc. split; [done|].
        split; [by rewrite !total_app, !total_cons|]. split; [done|]. by eapply not_live_refs.
  - intros (c1 & n0 & h0 & r0 & c2 & E & -> & Hl & Hn). apply app_eq_inv in E as [(k & -> & E)|(k & -> & E)].
    + destruct k as [|b k]; simpl in E.
      * simplify_eq. eexists c1, _, _, r', _. rewrite app_nil_r. done.
      * simplify_eq. exists c1, n0, h0, r0, (k ++ Used n h r' s :: b2). by rewrite <- app_assoc.
    + destruct k as [|b k]; simpl in E.
      * simplify_eq. eexists b1, _, _, r', _. rewrite app_nil_r in *. done.
      * simplify_eq. exists (b1 ++ Used n h r' s :: k), n0, h0, r0, c2. rewrite <- app_assoc. split; [done|].
        split; [by rewrite !total_app, !total_cons|]. split; [done|]. by eapply not_live_refs.
Qed.

(** ** Every step keeps the invariant *)

Lemma used_swap b1 n h r r' s b2 x b : Forall block_ok (b1 ++ Used n h r' s :: b2) ->
  (x, b) ∈ used_blocks 0 (b1 ++ Used n h r' s :: b2) ->
  (x, b) = (total b1, Used n h r' s) \/ (x <> total b1 /\ (x, b) ∈ used_blocks 0 (b1 ++ Used n h r s :: b2)).
Proof.
  intros [Hok1 [Hb Hok2]%Forall_cons]%Forall_app Hx. rewrite elem_of_used in Hx by done.
  destruct Hb as [Hl _]. destruct Hx as [Hx|[Hx|Hx]]; [|by left|]; right.
  - apply (used_blocks_range 0 b1 Hok1) in Hx as Hr. destruct Hr as (_ & Hr & [Hbl _]). split; [size_lia|].
    apply elem_of_used; [done|]. by left.
  - apply (used_blocks_range _ b2 Hok2) in Hx as Hr. destruct Hr as (Hr & _). split; [size_lia|].
    apply elem_of_used; [done|]. right. by right.
Qed.

Lemma used_keep b1 n h r r' s b2 x b : (x, b) ∈ used_blocks 0 (b1 ++ Used n h r s :: b2) ->
  (x, b) = (total b1, Used n h r s) \/ (x, b) ∈ used_blocks 0 (b1 ++ Used n h r' s :: b2).
Proof.
  intros Hx. rewrite elem_of_used in Hx by done. destruct Hx as [Hx|[Hx|Hx]]; [|by left|]; right;
    apply elem_of_used; auto.
Qed.

Lemma used_here b1 n h r s b2 : (total b1, Used n h r s) ∈ used_blocks 0 (b1 ++ Used n h r s :: b2).
Proof. apply elem_of_used; [done|]. right. by left. Qed.

Lemma used_same o bs b b' : Forall block_ok bs -> (o, b) ∈ used_blocks 0 bs -> (o, b') ∈ used_blocks 0 bs -> b = b'.
Proof.
  intros Hok H1 H2. pose proof (used_blocks_nodup 0 bs Hok) as Hnd.
  apply (elem_of_list_to_map_1 (M := gmap Z) _ _ _ Hnd) in H1, H2. congruence.
Qed.

(** A count changes, and the handles with it. *)
Lemma world_refs w b1 n h r s b2 r' m hs pend sr :
  world_inv w (b1 ++ Used n h r s :: b2) -> r <> 0 ->
  shard_inv (with_buffer m (shard w)) (b1 ++ Used n h r' s :: b2) ->
  (forall o, refs_of o hs = if o =? total b1 then r' else refs_of o (handles w)) ->
  (forall o str, (o, str) ∈ hs -> (o, str) ∈ handles w \/ (o, str) = (total b1, s)) ->
  pend = (if r' =? 0 then total b1 :: pending w else pending w) ->
  sr = None \/ sr = search w ->
  world_inv {| shard := with_buffer m (shard w); handles := hs; pending := pend; search := sr |}
    (b1 ++ Used n h r' s :: b2).
Proof.
  intros [Hsh Hu Hh Hp Hq Hs] Hr Hsh' Hrefs Hhs -> Hsr. pose proof (si_blocks _ _ Hsh') as Hok'.
  destruct (Hu _ _ _ _ _ (used_here b1 n h r s b2)) as (Hhash & Hcount & Hpend).
  assert (Hpin : forall o, o <> total b1 ->
    o ∈ (if r' =? 0 then total b1 :: pending w else pending w) <-> o ∈ pending w).
  { intros o Ho. destruct (r' =? 0); [|done]. rewrite elem_of_cons. naive_solver. }
  split; cbn [shard handles pending search]; [done|..].
  - intros o n0 h0 r0 s0 Hin. apply (used_swap _ _ _ r) in Hin as [Hin|[Ho Hin]]; [| |done].
    + simplify_eq. rewrite Hrefs, Z.eqb_refl. split_and!; [done|done|].
      destruct (Z.eqb_spec r' 0); [split; [left|done]|]. split; [done|]. tauto.
    + rewrite Hrefs, (proj2 (Z.eqb_neq _ _)), Hpin by done. by eapply Hu.
  - intros o str [Hin|Hin]%Hhs; [|simplify_eq; eexists _, _, _; apply used_here].
    destruct (Hh _ _ Hin) as (n0 & h0 & r0 & H0). apply (used_keep _ _ _ _ r') in H0 as [H0|H0]; [|by exists n0, h0, r0].
    simplify_eq. eexists _, _, _. apply used_here.
  - destruct Hp as [Hnd Hp]. split.
    + destruct (r' =? 0); [|done]. constructor; [|done]. tauto.
    + intros o Hin. destruct (decide (o = total b1)) as [->|Ho]; [exists n, h, r', s; apply used_here|].
      apply Hpin in Hin; [|done]. destruct (Hp _ Hin) as (n0 & h0 & r0 & s0 & H0).
      apply (used_keep _ _ _ _ r') in H0 as [H0|H0]; [congruence|]. by exists n0, h0, r0, s0.
  - intros o o' n0 n0' h0 h0' r0 r0' str H1 H2 Hr0 Hr0'.
    apply (used_swap _ _ _ r) in H1 as [H1|[Ho H1]]; [| |done]; apply (used_swap _ _ _ r) in H2 as [H2|[Ho' H2]]; try done.
    + congruence.
    + simplify_eq. by apply (Hq _ _ _ _ _ _ _ _ _ (used_here b1 _ _ _ _ b2) H2).
    + simplify_eq. by apply (Hq _ _ _ _ _ _ _ _ _ H1 (used_here b1 _ _ _ _ b2)).
    + by eapply Hq.
  - destruct Hsr as [->| ->]; [done|]. by eapply search_ok_refs.
Qed.

(** The atomic operations on a block in use *)
Section counts.
Context (s : InternerShardState) (b1 b2 : list block) (n h r : Z) (str : bytes).
Context (Hinv : shard_inv s (b1 ++ Used n h r str :: b2)).

Lemma increment_spec : exists m, increment_active_refs (total b1) (buffer s) = Some m /\
  shard_inv (with_buffer m s) (b1 ++ Used n h (u64_add r 1) str :: b2).
Proof using All.
  unfold increment_active_refs. rewrite (access_header _ _ _ _ Hinv). cbn [mbind option_bind].
  by apply (set_refs_inv _ _ _ _ _ _ _ _ Hinv), wrap_range.
Qed.

Lemma decrement_spec : exists m, decrement_active_refs (total b1) (buffer s) = Some (r =? 1, m) /\
  shard_inv (with_buffer m s) (b1 ++ Used n h (u64_sub r 1) str :: b2).
Proof using All.
  unfold decrement_active_refs. rewrite (access_header _ _ _ _ Hinv). cbn [mbind option_bind].
  destruct (set_refs_inv _ _ _ _ _ _ _ (u64_sub r 1) Hinv) as (m & Hm & Hi); [by apply wrap_range|].
  exists m. cbn [refs header_of]. by rewrite Hm.
Qed.

Lemma try_increment_spec : r <> 0 -> exists m, try_increment_active_refs (total b1) (buffer s) = Some (true, m) /\
  shard_inv (with_buffer m s) (b1 ++ Used n h (u64_add r 1) str :: b2).
Proof using All.
  intros Hr. unfold try_increment_active_refs. rewrite (access_header _ _ _ _ Hinv). cbn [mbind option_bind refs header_of].
  rewrite (proj2 (Z.eqb_neq _ _)) by done.
  destruct (set_refs_inv _ _ _ _ _ _ _ (u64_add r 1) Hinv) as (m & Hm & Hi); [by apply wrap_range|].
  exists m. by rewrite Hm.
Qed.

Lemma try_increment_dead : r = 0 -> try_increment_active_refs (total b1) (buffer s) = Some (false, buffer s).
Proof using All.
  intros ->. unfold try_increment_active_refs. by rewrite (access_header _ _ _ _ Hinv).
Qed.
End counts.

(** What a handle points to *)
Lemma handle_block w bs o str : world_inv w bs -> (o, str) ∈ handles w ->
  exists b1 n r b2, bs = b1 ++ Used n (hash_string str) r str :: b2 /\ o = total b1 /\
    r = refs_of o (handles w) /\ 0 < r.
Proof.
  intros Hw Hin. destruct (wi_handles _ _ Hw _ _ Hin) as (n & h & r & Hu).
  destruct (wi_used _ _ Hw _ _ _ _ _ Hu) as (-> & Hr & _). destruct (used_blocks_split _ _ _ _ Hu) as (b1 & b2 & -> & -> & _).
  exists b1, n, r, b2. rewrite Z.add_0_l in *. split_and!; try done. rewrite Hr. by eapply refs_of_pos.
Qed.

Lemma pending_block w bs o : world_inv w bs -> o ∈ pending w ->
  exists b1 n str b2, bs = b1 ++ Used n (hash_string str) 0 str :: b2 /\ o = total b1.
Proof.
  intros Hw Hin. destruct (proj2 (wi_pending _ _ Hw) _ Hin) as (n & h & r & str & Hu).
  destruct (wi_used _ _ Hw _ _ _ _ _ Hu) as (-> & _ & Hr). apply Hr in Hin as ->.
  destruct (used_blocks_split _ _ _ _ Hu) as (b1 & b2 & -> & -> & _). by exists b1, n, str, b2.
Qed.

Lemma block_refs w b1 n h r s b2 : world_inv w (b1 ++ Used n h r s :: b2) -> r = refs_of (total b1) (handles w).
Proof. intros Hw. by destruct (wi_used _ _ Hw _ _ _ _ _ (used_here b1 n h r s b2)) as (_ & Hr & _). Qed.

(** Another handle on a block in use *)
Lemma world_more w b1 n h r s b2 m sr : world_inv w (b1 ++ Used n h r s :: b2) -> r <> 0 ->
  shard_inv (with_buffer m (shard w)) (b1 ++ Used n h (u64_add r 1) s :: b2) -> S (length (handles w)) < u64_max ->
  sr = None \/ sr = search w ->
  world_inv {| shard := with_buffer m (shard w); handles := (total b1, s) :: handles w; pending := pending w; search := sr |}
    (b1 ++ Used n h (r + 1) s :: b2).
Proof.
  intros Hw Hr Hsh Hlen Hsr. pose proof (block_refs _ _ _ _ _ _ _ Hw) as Hr'.
  pose proof (refs_of_nonneg (total b1) (handles w)) as Hb.
  rewrite (wrapping_add_exact 64 r 1) in Hsh by size_lia.
  eapply world_refs; [exact Hw|done|done| | |by rewrite (proj2 (Z.eqb_neq (r + 1) 0)) by lia|done].
  - intros o. rewrite refs_of_cons. cbn [fst]. rewrite (Z.eqb_sym (total b1) o). destruct (Z.eqb_spec o (total b1)) as [->|]; lia.
  - intros o str [?|?]%elem_of_cons; auto.
Qed.

Lemma refs_of_drop o x str hs1 hs2 :
  refs_of o (hs1 ++ (x, str) :: hs2) = (if o =? x then 1 else 0) + refs_of o (hs1 ++ hs2).
Proof. rewrite !refs_of_app, refs_of_cons. cbn [fst]. rewrite (Z.eqb_sym x). lia. Qed.

Lemma world_fewer w hs1 hs2 b1 n h r s b2 m : world_inv w (b1 ++ Used n h r s :: b2) ->
  handles w = hs1 ++ (total b1, s) :: hs2 -> length (handles w) <= u64_max ->
  shard_inv (with_buffer m (shard w)) (b1 ++ Used n h (u64_sub r 1) s :: b2) ->
  world_inv {| shard := with_buffer m (shard w); handles := hs1 ++ hs2;
               pending := if r =? 1 then total b1 :: pending w else pending w; search := search w |}
    (b1 ++ Used n h (r - 1) s :: b2).
Proof.
  intros Hw Hhs Hlen Hsh. pose proof (block_refs _ _ _ _ _ _ _ Hw) as Hr.
  pose proof (refs_of_nonneg (total b1) (handles w)) as Hb.
  pose proof (refs_of_nonneg (total b1) (hs1 ++ hs2)) as Hb'.
  assert (Hd : refs_of (total b1) (handles w) = 1 + refs_of (total b1) (hs1 ++ hs2))
    by by rewrite Hhs, refs_of_drop, Z.eqb_refl.
  rewrite wrapping_sub_exact in Hsh by size_lia.
  eapply world_refs; [exact Hw|lia|done| | | |by right].
  - intros o. rewrite Hhs, refs_of_drop. destruct (Z.eqb_spec o (total b1)) as [->|]; lia.
  - intros o str. rewrite Hhs, !elem_of_app, elem_of_cons. tauto.
  - destruct (Z.eqb_spec r 1), (Z.eqb_spec (r - 1) 0); done || lia.
Qed.

(** A block is added to those in use. *)
Lemma world_new w bs str s' bs' U1 U2 o n : world_inv w bs -> not_live str bs -> shard_inv s' bs' ->
  used_blocks 0 bs = U1 ++ U2 -> used_blocks 0 bs' = U1 ++ (o, Used n (hash_string str) 1 str) :: U2 ->
  world_inv (finish (Some o) str s' w) bs'.
Proof.
  intros [Hsh Hu Hh Hp Hq Hs] Hlive Hsh' E E'.
  assert (Hin : forall x b, (x, b) ∈ used_blocks 0 bs' <->
    (x, b) = (o, Used n (hash_string str) 1 str) \/ (x, b) ∈ used_blocks 0 bs).
  { intros x b. rewrite E', E, !elem_of_app, elem_of_cons. tauto. }
  assert (Hfresh : forall x b, (x, b) ∈ used_blocks 0 bs -> x <> o).
  { pose proof (used_blocks_nodup 0 bs' (si_blocks _ _ Hsh')) as Hnd. rewrite E', fmap_app, fmap_cons in Hnd.
    apply NoDup_app in Hnd as (_ & Hd & [Hno _]%NoDup_cons). intros x b Hx ->. rewrite E in Hx.
    apply elem_of_app in Hx as [Hx|Hx]; apply (list_elem_of_fmap_2 fst) in Hx; [|done]. by apply (Hd o Hx); left. }
  assert (Hno : forall str, (o, str) ∉ handles w).
  { intros s0 Hs0. destruct (Hh _ _ Hs0) as (? & ? & ? & Hx). by apply Hfresh in Hx. }
  split; cbn [finish shard handles pending search]; [done|..].
  - intros x n0 h0 r0 s0 Hx. apply Hin in Hx as [Hx|Hx]; rewrite refs_of_cons; cbn [fst].
    + simplify_eq. rewrite Z.eqb_refl, refs_of_zero by done. split_and!; [done|done|]. split; [done|].
      intros Hpx. destruct (proj2 Hp _ Hpx) as (? & ? & ? & ? & Hy). by apply Hfresh in Hy.
    + rewrite (proj2 (Z.eqb_neq o x)) by (apply Hfresh in Hx; congruence). by eapply Hu.
  - intros x s0 [Hx|Hx]%elem_of_cons.
    + simplify_eq. exists n, (hash_string str), 1. apply Hin. by left.
    + destruct (Hh _ _ Hx) as (n0 & h0 & r0 & H0). exists n0, h0, r0. apply Hin. by right.
  - split; [apply Hp|]. intros x Hx. destruct (proj2 Hp _ Hx) as (n0 & h0 & r0 & s0 & H0).
    exists n0, h0, r0, s0. apply Hin. by right.
  - intros x x' n0 n0' h0 h0' r0 r0' s0 H1 H2 Hr Hr'. apply Hin in H1 as [H1|H1]; apply Hin in H2 as [H2|H2]; simplify_eq.
    + done.
    + by apply Hlive in H2.
    + by apply Hlive in H1.
    + by eapply Hq.
  - done.
Qed.

(** A block whose handles are gone is removed from them. *)
Lemma world_reclaimed w bs s' bs' U1 U2 o b ps1 ps2 : world_inv w bs -> shard_inv s' bs' ->
  pending w = ps1 ++ o :: ps2 ->
  used_blocks 0 bs = U1 ++ (o, b) :: U2 -> used_blocks 0 bs' = U1 ++ U2 ->
  world_inv {| shard := s'; handles := handles w; pending := ps1 ++ ps2; search := None |} bs'.
Proof.
  intros [Hsh Hu Hh Hp Hq Hs] Hsh' Hps E E'.
  assert (Hin : forall x c, (x, c) ∈ used_blocks 0 bs <-> (x, c) = (o, b) \/ (x, c) ∈ used_blocks 0 bs').
  { intros x c. rewrite E', E, !elem_of_app, elem_of_cons. tauto. }
  assert (Hother : forall x c, (x, c) ∈ used_blocks 0 bs' -> x <> o).
  { pose proof (used_blocks_nodup 0 bs (si_blocks _ _ Hsh)) as Hnd. rewrite E, fmap_app, fmap_cons in Hnd.
    apply NoDup_app in Hnd as (_ & Hd & [Hno _]%NoDup_cons). intros x c Hx ->. rewrite E' in Hx.
    apply elem_of_app in Hx as [Hx|Hx]; apply (list_elem_of_fmap_2 fst) in Hx; [|done]. by apply (Hd o Hx); left. }
  destruct Hp as [Hnd Hp]. rewrite Hps in Hnd. assert (Hopend : o ∈ pending w) by (rewrite Hps; set_solver).
  assert (Hpin : forall x, x <> o -> x ∈ ps1 ++ ps2 <-> x ∈ pending w) by (intros x Hx; rewrite Hps; set_solver).
  assert (Hnp : o ∉ ps1 ++ ps2 /\ NoDup (ps1 ++ ps2)).
  { apply NoDup_cons. by rewrite Permutation_middle. }
  split; cbn [shard handles pending search]; [done|..].
  - intros x n0 h0 r0 s0 Hx. rewrite (Hpin x) by by eapply Hother. eapply Hu, Hin. by right.
  - intros x s0 Hx. destruct (Hh _ _ Hx) as (n0 & h0 & r0 & H0). pose proof H0 as [H1|H1]%Hin; [|by exists n0, h0, r0].
    simplify_eq. destruct (Hu _ _ _ _ _ H0) as (_ & Hr & Hz). apply refs_of_pos in Hx. apply Hz in Hopend. lia.
  - split; [apply Hnp|]. intros x Hx. assert (x <> o) by naive_solver. apply Hpin in Hx; [|done].
    destruct (Hp _ Hx) as (n0 & h0 & r0 & s0 & [H1|H1]%Hin); [congruence|]. by exists n0, h0, r0, s0.
  - intros x x' n0 n0' h0 h0' r0 r0' s0 H1 H2. eapply Hq; apply Hin; right; done.
  - done.
Qed.

(** *** The search *)

Lemma world_search w bs sr : world_inv w bs -> search_ok (Some sr) bs -> world_inv (with_search sr w) bs.
Proof. by intros [] ?. Qed.

Lemma not_live_nil str : not_live str [].
Proof. intros x n h r Hx. by apply not_elem_of_nil in Hx. Qed.

Lemma not_live_snoc str bs b : not_live str bs -> (forall n h r, b = Used n h r str -> r = 0) -> not_live str (bs ++ [b]).
Proof.
  intros Hn Hb x n h r. rewrite used_blocks_app, elem_of_app. intros [Hx|Hx]; [by eapply Hn|].
  cbn [used_blocks] in Hx. destruct (is_free b); [by apply not_elem_of_nil in Hx|].
  apply list_elem_of_singleton in Hx. simplify_eq. by eapply Hb.
Qed.

Lemma walking_block w bs o str : world_inv w bs -> search w = Some (Walking o str) -> o < offset (shard w) ->
  exists b1 b b2, bs = b1 ++ b :: b2 /\ o = total b1 /\ length str < 2 ^ 32 /\ not_live str b1.
Proof.
  intros Hw Hs Ho. pose proof (wi_search _ _ Hw) as H0. rewrite Hs in H0. destruct H0 as (b1 & b2 & -> & -> & Hl & Hn).
  rewrite (si_offset _ _ (wi_shard _ _ Hw)), total_app in Ho. destruct b2 as [|b b2]; [unfold total in Ho; simpl in Ho; lia|].
  by exists b1, b, b2.
Qed.

Lemma walked_all w bs o str : world_inv w bs -> search w = Some (Walking o str) -> offset (shard w) <= o ->
  length str < 2 ^ 32 /\ not_live str bs.
Proof.
  intros Hw Hs Ho. pose proof (wi_search _ _ Hw) as H0. rewrite Hs in H0. destruct H0 as (b1 & b2 & -> & -> & Hl & Hn).
  pose proof (si_blocks _ _ (wi_shard _ _ Hw)) as [_ Hok]%Forall_app.
  rewrite (si_offset _ _ (wi_shard _ _ Hw)), total_app in Ho. destruct b2 as [|b b2]; [by rewrite app_nil_r|].
  apply Forall_cons in Hok as [[Hb _] Hok]. rewrite total_cons in Ho. pose proof (total_blocks_nonneg b2 Hok). size_lia.
Qed.

(** A search that came to a block goes on behind it, or takes it. *)
Lemma pass_not_live w b1 b b2 str : world_inv w (b1 ++ b :: b2) -> length str < 2 ^ 32 -> not_live str b1 ->
  entry_matches (total b1) (hash_string str) str (buffer (shard w)) = Some false -> not_live str (b1 ++ [b]).
Proof.
  intros Hw Hl Hn Hm. apply not_live_snoc; [done|]. intros n h r ->. rewrite (access_matches _ _ _ _ (wi_shard _ _ Hw)) in Hm by done.
  destruct (wi_used _ _ Hw _ _ _ _ _ (used_here b1 n h r str b2)) as (-> & _).
  rewrite Z.eqb_refl, bool_decide_true in Hm by done. by destruct (Z.eqb_spec r 0).
Qed.

Lemma walk_pass w b1 b b2 str : world_inv w (b1 ++ b :: b2) -> length str < 2 ^ 32 -> not_live str b1 ->
  entry_matches (total b1) (hash_string str) str (buffer (shard w)) = Some false ->
  search_ok (Some (Walking (total (b1 ++ [b])) str)) (b1 ++ b :: b2).
Proof.
  intros Hw Hl Hn Hm. exists (b1 ++ [b]), b2. rewrite <- app_assoc. split_and!; [done..|]. by eapply pass_not_live.
Qed.

Lemma walk_match w b1 b b2 str : world_inv w (b1 ++ b :: b2) -> length str < 2 ^ 32 -> not_live str b1 ->
  entry_matches (total b1) (hash_string str) str (buffer (shard w)) = Some true ->
  search_ok (Some (Taking (total b1) str)) (b1 ++ b :: b2).
Proof.
  intros Hw Hl Hn Hm. rewrite (access_matches _ _ _ _ (wi_shard _ _ Hw)) in Hm by done.
  destruct b as [n h r s|n]; [|done]. destruct (bool_decide_reflect (s = str)) as [->|]; [|by rewrite andb_false_r in Hm].
  by exists b1, n, h, r, b2.
Qed.

Lemma world_intern w bs str found s' : world_inv w bs -> length str < 2 ^ 32 -> not_live str bs ->
  intern_new (hash_string str) str (shard w) = Some (found, s') ->
  exists bs', world_inv (finish found str s' w) bs' /\ capacity s' = capacity (shard w).
Proof.
  intros Hw Hl Hn Hi.
  destruct (intern_new_inv _ _ (hash_string str) str (wi_shard _ _ Hw) Hl) as (r & s0 & bs' & Hi' & Hs & Hc & Hr).
  rewrite Hi in Hi'. simplify_eq. exists bs'. split; [|done]. destruct r as [o|].
  - destruct Hr as (_ & U1 & U2 & n & E & E'). by eapply world_new.
  - destruct Hr as (-> & -> & _). destruct Hw. by split.
Qed.

Lemma with_buffer_id s : with_buffer (buffer s) s = s.
Proof. by destruct s. Qed.

Lemma max_value_lt (str : bytes) : length str <= maximum_value -> length str < 2 ^ 32.
Proof. change maximum_value with (2 ^ 32 - 1). lia. Qed.

Lemma no_entries_not_live s bs str : shard_inv s bs -> entries s = 0 -> not_live str bs.
Proof.
  intros Hinv He x n h r Hx. exfalso. pose proof Hinv as [Hok _ _ _ _ _ Hent _].
  destruct (used_blocks_split _ _ _ _ Hx) as (b1 & b2 & -> & _ & Hf). apply Forall_app in Hok as [Hok1 [_ Hok2]%Forall_cons].
  rewrite used_count_app in Hent. pose proof (used_bounds b1 Hok1). pose proof (used_bounds b2 Hok2).
  unfold used_count in *. rewrite sumZ_cons in Hent. cbn [is_free] in Hent. lia.
Qed.

Lemma taking_block w bs o str : world_inv w bs -> search w = Some (Taking o str) ->
  exists b1 n h r b2, bs = b1 ++ Used n h r str :: b2 /\ o = total b1 /\ length str < 2 ^ 32 /\ not_live str b1.
Proof. intros Hw Hs. pose proof (wi_search _ _ Hw) as H0. by rewrite Hs in H0. Qed.

Lemma step_inv w w' bs : world_inv w bs -> step w w' ->
  exists bs', world_inv w' bs' /\ capacity (shard w') = capacity (shard w).
Proof.
  intros Hw [Hstep Hlen]. destruct Hstep as [w str Hs Hl He|w str found s' Hs Hl He Hi|w o str o' Hs Ho Hm Hn|w o str Hs Ho Hm
    |w o str m Hs Hm|w o str m o' Hs Hm Hn|w o str found s' Hs Ho Hi|w o str m Hin Hm|w hs1 o str hs2 last m Hhs Hm
    |w ps1 o ps2 s' Hs Hps Hm].
  - exists bs. split; [|done]. apply world_search; [done|]. exists [], bs. split_and!; [done..|by apply max_value_lt|].
    apply not_live_nil.
  - eapply world_intern; [done|by apply max_value_lt|by eapply no_entries_not_live; [apply Hw|]|done].
  - destruct (walking_block _ _ _ _ Hw Hs Ho) as (b1 & b & b2 & -> & -> & Hl & Hnl). exists (b1 ++ b :: b2). split; [|done].
    rewrite (access_next _ _ _ _ (wi_shard _ _ Hw)) in Hn. simplify_eq. by apply world_search, (walk_pass w).
  - destruct (walking_block _ _ _ _ Hw Hs Ho) as (b1 & b & b2 & -> & -> & Hl & Hnl). exists (b1 ++ b :: b2). split; [|done].
    by apply world_search, (walk_match w).
  - destruct (taking_block _ _ _ _ Hw Hs) as (b1 & n & h & r & b2 & -> & -> & Hl & Hnl).
    destruct (decide (r = 0)) as [->|Hr]; [by rewrite (try_increment_dead _ _ _ _ _ _ _ (wi_shard _ _ Hw)) in Hm by done|].
    destruct (try_increment_spec _ _ _ _ _ _ _ (wi_shard _ _ Hw) Hr) as (m' & Hm' & Hi). rewrite Hm in Hm'. simplify_eq.
    eexists. split; [|done]. eapply world_more; [done..| |by left]. cbn [finish handles length] in Hlen. lia.
  - destruct (taking_block _ _ _ _ Hw Hs) as (b1 & n & h & r & b2 & -> & -> & Hl & Hnl).
    destruct (decide (r = 0)) as [->|Hr]; [|by destruct (try_increment_spec _ _ _ _ _ _ _ (wi_shard _ _ Hw) Hr) as (m' & Hm' & Hi);
      rewrite Hm in Hm'].
    rewrite (try_increment_dead _ _ _ _ _ _ _ (wi_shard _ _ Hw)) in Hm by done. simplify_eq.
    rewrite (access_next _ _ _ _ (wi_shard _ _ Hw)) in Hn. simplify_eq. eexists. split; [|done].
    unfold with_memory. rewrite with_buffer_id. apply world_search; [by destruct Hw|]. exists (b1 ++ [Used n h 0 str]), b2.
    rewrite <- app_assoc. split_and!; [done..|]. apply not_live_snoc; [done|]. congruence.
  - destruct (walked_all _ _ _ _ Hw Hs Ho) as [Hl Hnl]. by eapply world_intern.
  - destruct (handle_block _ _ _ _ Hw Hin) as (b1 & n & r & b2 & -> & -> & _ & Hr).
    destruct (increment_spec _ _ _ _ _ _ _ (wi_shard _ _ Hw)) as (m' & Hm' & Hi). rewrite Hm in Hm'. simplify_eq.
    eexists. split; [|done]. eapply world_more; [done|lia|done| |by right]. cbn [handles length] in Hlen. lia.
  - assert (Hin : (o, str) ∈ handles w) by (rewrite Hhs; set_solver).
    destruct (handle_block _ _ _ _ Hw Hin) as (b1 & n & r & b2 & -> & -> & _ & Hr).
    destruct (decrement_spec _ _ _ _ _ _ _ (wi_shard _ _ Hw)) as (m' & Hm' & Hi). rewrite Hm in Hm'. simplify_eq.
    eexists. split; [|done]. eapply world_fewer; [done..| |done]. cbn [handles] in Hlen. rewrite Hhs.
    rewrite !length_app in *. cbn [length]. lia.
  - assert (Hin : o ∈ pending w) by (rewrite Hps; set_solver).
    destruct (pending_block _ _ _ Hw Hin) as (b1 & n & str & b2 & -> & ->).
    destruct (mark_inv _ _ _ _ _ _ (wi_shard _ _ Hw)) as (s0 & bs' & Hm' & Hi & Hc & Hu). rewrite Hm in Hm'. simplify_eq.
    exists bs'. split; [|done]. eapply world_reclaimed; [done..| |done]. by rewrite used_blocks_app.
Qed.

(** ** Reachable worlds *)

Lemma layout_for_data_covers cap : 0 <= cap -> cap <= layout_for_data cap.
Proof.
  intros Hc. unfold layout_for_data, HEADER_LEN. pose proof (Z.div_mod (cap + 24 - 1) 24 ltac:(lia)).
  pose proof (Z.mod_pos_bound (cap + 24 - 1) 24 ltac:(lia)). lia.
Qed.

Lemma initial_inv cap s : 0 < cap <= max_capacity -> with_capacity cap = Some s -> world_inv (initial s) [] /\ capacity s = cap.
Proof.
  intros Hc Hs. unfold with_capacity in Hs. case_match; [|done]. simplify_eq. pose proof (layout_for_data_covers cap).
  split; [|done]. split; try done; cbn [initial shard handles pending search buffer].
  - split; try done; cbn [offset capacity buffer b_size]; lia.
  - intros ????? Hx. by apply not_elem_of_nil in Hx.
  - intros ?? Hx. by apply not_elem_of_nil in Hx.
  - split; [constructor|]. intros ? Hx. by apply not_elem_of_nil in Hx.
  - intros ????????? Hx. by apply not_elem_of_nil in Hx.
Qed.

Lemma steps_inv w w' bs : world_inv w bs -> rtc step w w' ->
  exists bs', world_inv w' bs' /\ capacity (shard w') = capacity (shard w).
Proof.
  intros Hw Hrun. revert bs Hw. induction Hrun as [w|w w1 w2 Hs Hrun IH]; intros bs Hw; [by exists bs|].
  destruct (step_inv _ _ _ Hw Hs) as (bs1 & Hw1 & Hc1). destruct (IH _ Hw1) as (bs2 & Hw2 & Hc2). exists bs2. by rewrite Hc2.
Qed.

Lemma reachable_inv cap w : 0 < cap <= max_capacity -> reachable cap w ->
  exists bs, world_inv w bs /\ capacity (shard w) = cap.
Proof.
  intros Hc (s & Hs & Hrun). destruct (initial_inv _ _ Hc Hs) as [Hi <-]. apply (steps_inv _ _ _ Hi Hrun).
Qed.

Lemma inv_no_invalid_access w bs : world_inv w bs -> no_invalid_access w.
Proof.
  intros Hw. pose proof (wi_shard _ _ Hw) as Hsh. unfold no_invalid_access. split_and!.
  - intros o str Hin. destruct (handle_block _ _ _ _ Hw Hin) as (b1 & n & r & b2 & -> & -> & _).
    destruct (increment_spec _ _ _ _ _ _ _ Hsh) as (m & -> & _). destruct (decrement_spec _ _ _ _ _ _ _ Hsh) as (m' & -> & _).
    by rewrite (access_string _ _ _ _ Hsh).
  - intros o Hin _. destruct (pending_block _ _ _ Hw Hin) as (b1 & n & str & b2 & -> & ->).
    by destruct (mark_inv _ _ _ _ _ _ Hsh) as (s' & bs' & -> & _).
  - intros str _ Hl. apply max_value_lt in Hl.
    by destruct (intern_new_inv _ _ (hash_string str) str Hsh Hl) as (r & s' & bs' & -> & _).
  - intros o str Hs. destruct (Z.ltb_spec o (offset (shard w))) as [Ho|Ho].
    + destruct (walking_block _ _ _ _ Hw Hs Ho) as (b1 & b & b2 & -> & -> & Hl & _).
      rewrite (access_matches _ _ _ _ Hsh) by done. by rewrite (access_next _ _ _ _ Hsh).
    + destruct (walked_all _ _ _ _ Hw Hs Ho) as [Hl _].
      by destruct (intern_new_inv _ _ (hash_string str) str Hsh Hl) as (r & s' & bs' & -> & _).
  - intros o str Hs. destruct (taking_block _ _ _ _ Hw Hs) as (b1 & n & h & r & b2 & -> & -> & Hl & _).
    destruct (decide (r = 0)) as [Hr|Hr].
    + rewrite (try_increment_dead _ _ _ _ _ _ _ Hsh) by done. eexists _, _. split; [done|].
      by rewrite (access_next _ _ _ _ Hsh).
    + destruct (try_increment_spec _ _ _ _ _ _ _ Hsh Hr) as (m & -> & Hi). eexists _, _. split; [done|].
      eexists. exact (access_next (with_buffer m (shard w)) _ _ _ Hi).
Qed.

(** ** Memory safety *)

(** C2: Whatever threads do with a shard of the interner of at most [2^32] bytes (interning, cloning
    and dropping handles, reclaiming entries whose last handle is gone, with the reference counts
    changed by other threads between any two accesses of a search): no access through its raw
    pointers is ever out of bounds, misaligned or to something that is not there; every handle reads
    the string it was made for as long as it exists; and the shard never grows beyond its
    capacity. *)
Theorem interner_memory_safe cap w : 0 < cap <= max_capacity -> reachable cap w ->
  no_invalid_access w /\
  (forall o str, (o, str) ∈ handles w -> get_entry_string o (buffer (shard w)) = Some str) /\
  0 <= offset (shard w) <= cap.
Proof.
  intros Hc Hr. destruct (reachable_inv _ _ Hc Hr) as (bs & Hw & Hcap). pose proof (wi_shard _ _ Hw) as Hsh. split_and!.
  - by eapply inv_no_invalid_access.
  - intros o str Hin. destruct (handle_block _ _ _ _ Hw Hin) as (b1 & n & r & b2 & -> & -> & _).
    apply (access_string _ _ _ _ Hsh).
  - rewrite (si_offset _ _ Hsh). apply total_blocks_nonneg, (si_blocks _ _ Hsh).
  - rewrite <- Hcap. apply (si_capacity _ _ Hsh).
Qed.

Lemma handles_unique w bs o1 o2 str : world_inv w bs -> (o1, str) ∈ handles w -> (o2, str) ∈ handles w -> o1 = o2.
Proof.
  intros Hw H1 H2. apply refs_of_pos in H1 as P1. apply refs_of_pos in H2 as P2.
  apply (wi_handles _ _ Hw) in H1 as (n1 & k1 & r1 & U1). apply (wi_handles _ _ Hw) in H2 as (n2 & k2 & r2 & U2).
  destruct (wi_used _ _ Hw _ _ _ _ _ U1) as (_ & E1 & _). destruct (wi_used _ _ Hw _ _ _ _ _ U2) as (_ & E2 & _).
  eapply (wi_unique _ _ Hw); [exact U1|exact U2|lia..].
Qed.

(** C28: Interning deduplicates under concurrency: two handles of a shard are equal, which compares
    only their addresses, exactly when their strings are equal. *)
Theorem interner_deduplicates cap w h1 h2 : 0 < cap <= max_capacity -> reachable cap w ->
  h1 ∈ handles w -> h2 ∈ handles w -> handle_eqb h1 h2 = true <-> h1.2 = h2.2.
Proof.
  intros Hc Hr H1 H2. destruct (reachable_inv _ _ Hc Hr) as (bs & Hw & _). destruct h1 as [o1 s1], h2 as [o2 s2].
  unfold handle_eqb. cbn [fst snd]. rewrite Z.eqb_eq. split; intros ->; [|by eapply handles_unique].
  apply (wi_handles _ _ Hw) in H1 as (n1 & k1 & r1 & U1). apply (wi_handles _ _ Hw) in H2 as (n2 & k2 & r2 & U2).
  pose proof (used_same _ _ _ _ (si_blocks _ _ (wi_shard _ _ Hw)) U1 U2). congruence.
Qed.

Lemma coalesced_unused bs : coalesced bs -> used_blocks 0 bs = [] -> bs = [].
Proof.
  generalize 0. induction bs as [|b bs IH]; [done|]. intros o [Hb Hc] Hu. cbn [used_blocks] in Hu.
  destruct (is_free b) eqn:E; [|done]. specialize (Hb eq_refl). destruct bs as [|b' bs]; [done|].
  cbn [used_blocks app] in Hu. by rewrite Hb in Hu.
Qed.

Lemma idle_inv w bs : world_inv w bs -> handles w = [] -> pending w = [] -> bs = [].
Proof.
  intros Hw Hh Hp. apply coalesced_unused; [apply (wi_shard _ _ Hw)|].
  destruct (used_blocks 0 bs) as [|[o b] l] eqn:E; [done|]. exfalso.
  assert (Hin : (o, b) ∈ used_blocks 0 bs) by (rewrite E; left).
  destruct (used_blocks_split _ _ _ _ Hin) as (_ & _ & _ & _ & Hf). destruct b as [n h r str|]; [|done].
  destruct (wi_used _ _ Hw _ _ _ _ _ Hin) as (_ & Hr & Hz). rewrite Hh in Hr. rewrite Hp in Hz.
  apply Hz in Hr. by apply not_elem_of_nil in Hr.
Qed.

(** The interner does not leak: once all handles are dropped and the entries of the last ones
    reclaimed, the shard is as it was at the beginning, with all of its capacity available and
    nothing in the free list, in whatever order things happened. *)
Theorem interner_does_not_leak cap w : 0 < cap <= max_capacity -> reachable cap w ->
  handles w = [] -> pending w = [] ->
  offset (shard w) = 0 /\ entries (shard w) = 0 /\ len (shard w) = 0 /\ reclaimed (shard w) = [] /\ available (shard w) = cap.
Proof.
  intros Hc Hr Hh Hp. destruct (reachable_inv _ _ Hc Hr) as (bs & Hw & Hcap).
  pose proof (idle_inv _ _ Hw Hh Hp) as ->. destruct (wi_shard _ _ Hw) as [_ _ Ho _ Hrec _ He Hl].
  rewrite He, Hl, Hrec. unfold available. rewrite Ho, Hcap. split_and!; try done.
  change (total []) with 0. rewrite wrapping_sub_exact; size_lia.
Qed.

(** ** One thread at a time *)

Lemma step_intro w w' : raw_step w w' -> length (handles w') < u64_max -> step w w'.
Proof. by split. Qed.

Lemma length_blocks bs : Forall block_ok bs -> length bs <= total bs.
Proof. induction 1 as [|b bs [Hb _] Hok IH]; [done|]. rewrite total_cons. cbn [length]. size_lia. Qed.

Lemma live_handle w bs o n h r str : world_inv w bs -> (o, Used n h r str) ∈ used_blocks 0 bs -> r <> 0 ->
  (o, str) ∈ handles w.
Proof.
  intros Hw Hu Hr. destruct (wi_used _ _ Hw _ _ _ _ _ Hu) as (_ & E & _).
  destruct (decide (o ∈ (handles w).*1)) as [Hin|Hno].
  - apply list_elem_of_fmap in Hin as ([o' s] & -> & Hin). cbn [fst] in *.
    destruct (wi_handles _ _ Hw _ _ Hin) as (n0 & h0 & r0 & Hu').
    pose proof (used_same _ _ _ _ (si_blocks _ _ (wi_shard _ _ Hw)) Hu Hu'). by simplify_eq.
  - exfalso. apply Hr. rewrite E. apply refs_of_zero. intros s Hs. apply Hno. by apply (list_elem_of_fmap_2 fst) in Hs.
Qed.

(** The search of [find_entry] is a run of the steps of a search, and it ends. *)
Lemma find_loop_run fuel w b1 b2 str : world_inv w (b1 ++ b2) -> search w = Some (Walking (total b1) str) ->
  length str < 2 ^ 32 -> not_live str b1 -> (length b2 < fuel)%nat -> length (handles w) + 1 < u64_max ->
  exists r s', find_loop fuel (total b1) (hash_string str) str (shard w) = Some (r, s') /\
    match r with
    | Some o => (o, str) ∈ handles w /\ rtc step w (finish (Some o) str s' w)
    | None => s' = shard w /\ not_live str (b1 ++ b2) /\ rtc step w (with_search (Walking (offset (shard w)) str) w)
    end.
Proof.
  revert w b1 b2. induction fuel as [|fuel IH]; intros w b1 b2 Hw Hs Hl Hn Hf Hb; [lia|]. cbn [find_loop].
  pose proof (wi_shard _ _ Hw) as Hsh. pose proof (si_offset _ _ Hsh) as Hoff. rewrite total_app in Hoff.
  destruct b2 as [|b b2].
  { rewrite app_nil_r. change (total []) with 0 in Hoff. rewrite (proj2 (Z.ltb_ge _ _)) by lia.
    exists None, (shard w). split_and!; [done..|]. replace (offset (shard w)) with (total b1) by lia.
    unfold with_search. rewrite <- Hs. destruct w. apply rtc_refl. }
  pose proof (access_bounds _ _ _ _ Hsh) as ((Hbl & _) & _ & _ & Hlt & _).
  assert (Ho : total b1 < offset (shard w)) by size_lia.
  rewrite (proj2 (Z.ltb_lt _ _)) by done. pose proof (access_matches _ _ _ _ Hsh (hash_string str) str Hl) as Hm.
  rewrite Hm. cbn [mbind option_bind]. destruct (match b with Used _ _ _ _ => _ | _ => _ end) eqn:Em.
  - destruct b as [n h r s|]; [|done]. apply andb_prop in Em as [[Hr _]%andb_prop ->%bool_decide_eq_true].
    assert (Hr0 : r <> 0) by (by destruct (Z.eqb_spec r 0)).
    destruct (try_increment_spec _ _ _ _ _ _ _ Hsh Hr0) as (m & Hm' & _). rewrite Hm'. cbn [mbind option_bind].
    eexists _, _. split; [done|]. split; [by eapply live_handle; [done|apply used_here|]|].
    eapply rtc_l; [apply step_intro; [by apply step_match|cbn [with_search handles]; lia]|].
    apply rtc_once. apply step_intro; [by apply (step_take (with_search (Taking (total b1) str) w))|].
    cbn [finish handles length]. lia.
  - cbn [mbind option_bind]. rewrite (access_next _ _ _ _ Hsh). cbn [mbind option_bind]. rewrite with_buffer_id.
    set (w1 := with_search (Walking (total (b1 ++ [b])) str) w).
    assert (Hw1 : world_inv w1 ((b1 ++ [b]) ++ b2)).
    { rewrite <- app_assoc. by apply world_search, (walk_pass w). }
    assert (Hstep : step w w1) by (apply step_intro; [by eapply step_pass; [..|apply (access_next _ _ _ _ Hsh)]|cbn; lia]).
    assert (Hn1 : not_live str (b1 ++ [b])) by by eapply pass_not_live.
    destruct (IH w1 (b1 ++ [b]) b2 Hw1 eq_refl Hl Hn1 ltac:(simpl in Hf; lia) Hb) as (r & s' & Hrun & Hr).
    exists r, s'. split; [done|]. rewrite <- app_assoc in Hr. destruct r as [o|].
    + destruct Hr as [Hin Hr]. split; [done|]. by eapply rtc_l.
    + destruct Hr as (-> & Hnl & Hr). split_and!; [done..|]. by eapply rtc_l.
Qed.

Definition room_for (str : bytes) (s : InternerShardState) : Prop :=
  len_for str <= available s \/ exists e, e ∈ reclaimed s /\ len_for str <= r_capacity e.

Lemma has_room_iff s bs str : shard_inv s bs -> length str < 2 ^ 32 -> has_room s bs str <-> room_for str s.
Proof.
  intros [Hok _ Hoff Hcap Hrec _ _ _] Hl. unfold has_room, room_for, available. rewrite len_for_exact by done.
  pose proof (total_blocks_nonneg bs Hok). rewrite wrapping_sub_exact by size_lia. rewrite Hrec. split; (intros [?|Hr]; [by left|right]).
  - destruct Hr as (bs1 & n & bs2 & -> & Hr). exists (entry (total bs1) n). split; [|done].
    rewrite free_list_app. cbn [free_list is_free blen app]. rewrite Z.add_0_l. apply elem_of_app. right. left.
  - destruct Hr as (e & He & Hr). apply list_elem_of_In in He. apply List.in_split in He as (l1 & l2 & E).
    destruct (List.find (fun x => bool_decide (x = e)) (free_list 0 bs)) as [x|] eqn:Ef.
    + destruct (find_free _ _ _ _ Ef) as (bs1 & n & bs2 & -> & -> & Hx%bool_decide_eq_true). subst e. by exists bs1, n, bs2.
    + apply List.find_none with (x := e) in Ef; [by apply bool_decide_eq_false in Ef|]. rewrite E. apply in_elt.
Qed.

(** The end of an attempt that found nothing *)
Lemma intern_new_run w bs str : world_inv w bs -> length str < 2 ^ 32 -> not_live str bs ->
  exists r s', intern_new (hash_string str) str (shard w) = Some (r, s') /\
    (r = None <-> (forall o, (o, str) ∉ handles w) /\ ~ room_for str (shard w)) /\
    (r = None -> s' = shard w).
Proof.
  intros Hw Hl Hn. pose proof (wi_shard _ _ Hw) as Hsh.
  destruct (intern_new_inv _ _ (hash_string str) str Hsh Hl) as (r & s' & bs' & -> & _ & _ & Hr).
  assert (Hno : forall o, (o, str) ∉ handles w).
  { intros o Hin. apply refs_of_pos in Hin as Hp. destruct (wi_handles _ _ Hw _ _ Hin) as (n & h & k & Hu).
    destruct (wi_used _ _ Hw _ _ _ _ _ Hu) as (_ & E & _). apply Hn in Hu. lia. }
  exists r, s'. split; [done|]. rewrite <- (has_room_iff _ _ _ Hsh Hl). destruct r as [o|].
  - destruct Hr as [Hr _]. split; [|done]. split; [done|]. tauto.
  - destruct Hr as (-> & _ & Hr). split; [|done]. split; [by split|done].
Qed.

Lemma finish_none w str : search w = None -> finish None str (shard w) w = w.
Proof. intros Hs. destruct w. cbn in *. by subst. Qed.

(** What a whole attempt does, when its thread is not interrupted *)
Lemma try_intern_run w bs str : world_inv w bs -> search w = None -> length (handles w) + 1 < u64_max ->
  exists r s', shard_try_intern (hash_string str) str (shard w) = Some (r, s') /\ rtc step w (finish r str s' w) /\
    (r = None <-> maximum_value < length str \/ ((forall o, (o, str) ∉ handles w) /\ ~ room_for str (shard w))) /\
    (r = None -> s' = shard w).
Proof.
  intros Hw Hs Hb. unfold shard_try_intern. pose proof (wi_shard _ _ Hw) as Hsh.
  destruct (Z.ltb_spec maximum_value (length str)) as [Hm|Hm].
  { exists None, (shard w). rewrite finish_none by done. split_and!; try done. split; [by left|done]. }
  pose proof (max_value_lt _ Hm) as Hl. destruct (Z.eqb_spec (entries (shard w)) 0) as [He|He]; cbn [mbind option_bind].
  - destruct (intern_new_run w bs str Hw Hl) as (r & s' & Hi & Hr & Hr'); [by eapply no_entries_not_live|].
    exists r, s'. split_and!; [done| |rewrite Hr; split; [tauto|intros [?|?]; [lia|done]]|done].
    apply rtc_once, step_intro; [by apply step_begin_empty|]. destruct r; cbn [finish handles length]; lia.
  - set (w1 := with_search (Walking 0 str) w).
    assert (H1 : step w w1) by (apply step_intro; [by apply step_begin|cbn [w1 with_search handles]; lia]).
    assert (Hw1 : world_inv w1 ([] ++ bs)).
    { apply world_search; [done|]. exists [], bs. split_and!; [done..|apply not_live_nil]. }
    pose proof (length_blocks _ (si_blocks _ _ Hsh)) as Hlen. rewrite <- (si_offset _ _ Hsh) in Hlen.
    destruct (find_loop_run (S (Z.to_nat (offset (shard w)))) w1 [] bs str Hw1 eq_refl Hl (not_live_nil _) ltac:(lia) Hb)
      as (r & s' & Hf & Hr). change (find_entry (hash_string str) str (shard w) = Some (r, s')) in Hf.
    rewrite Hf. cbn [mbind option_bind]. destruct r as [o|].
    + destruct Hr as [Hin Hr]. exists (Some o), s'. split_and!; [done|by eapply rtc_l| |done].
      split; [done|]. intros [?|[Hno _]]; [lia|]. by apply Hno in Hin.
    + destruct Hr as (-> & Hnl & Hr). destruct (intern_new_run w bs str Hw Hl Hnl) as (r & s' & Hi & Hr1 & Hr2).
      exists r, s'. split_and!; [done| |rewrite Hr1; split; [tauto|intros [?|?]; [lia|done]]|done].
      eapply rtc_l; [exact H1|]. eapply rtc_r; [exact Hr|]. apply step_intro.
      * by apply (step_write (with_search (Walking (offset (shard w)) str) w1) (offset (shard w)) str r s').
      * destruct r; cbn [finish handles with_search length w1]; lia.
Qed.

(** Interning on a shard no other thread is using always returns, and is a run of the concurrent
    steps, so that all of their guarantees hold for it; it fails exactly when the string is too long,
    or has no handle yet and fits neither a reclaimed region nor the end of the buffer, and then
    changes nothing; and for a string that has a handle it returns that same handle. *)
Theorem try_intern_refines cap w str : 0 < cap <= max_capacity -> reachable cap w -> search w = None ->
  length (handles w) + 1 < u64_max ->
  exists r s', shard_try_intern (hash_string str) str (shard w) = Some (r, s') /\ reachable cap (finish r str s' w) /\
    (r = None <-> maximum_value < length str \/ ((forall o, (o, str) ∉ handles w) /\ ~ room_for str (shard w))) /\
    (r = None -> s' = shard w) /\
    (forall o, (o, str) ∈ handles w -> r = Some o).
Proof.
  intros Hc Hre Hs Hb. destruct (reachable_inv _ _ Hc Hre) as (bs & Hw & _).
  destruct (try_intern_run w bs str Hw Hs Hb) as (r & s' & Hi & Hrun & Hnone & Hsame). exists r, s'.
  split_and!; [done| |done|done|].
  - destruct Hre as (s0 & Hs0 & Hrun0). exists s0. split; [done|]. by etrans.
  - intros o Hin. destruct (handle_block _ _ _ _ Hw Hin) as (b1 & n & k & b2 & -> & _).
    pose proof (access_bounds _ _ _ _ (wi_shard _ _ Hw)) as ((_ & _ & Hl & _) & H0 & _ & H1 & H2 & _).
    destruct r as [o'|]; [|destruct (proj1 Hnone eq_refl) as [Hm|[Hno _]]].
    + destruct (steps_inv _ _ _ Hw Hrun) as (bs' & Hw' & _). f_equal. eapply (handles_unique _ _ _ _ str Hw'); [left|by right].
    + change maximum_value with (2 ^ 32 - 1) in Hm. size_lia.
    + by apply Hno in Hin.
Qed.

(** ** Nothing is stuck *)

Lemma drop_all w bs : world_inv w bs -> length (handles w) <= u64_max ->
  exists w', rtc step w w' /\ handles w' = [] /\ search w' = search w.
Proof.
  remember (handles w) as hs eqn:Ehs. revert w bs Ehs.
  induction hs as [|[o str] hs IH]; intros w bs Ehs Hw Hl; [by exists w|].
  assert (Hin : (o, str) ∈ handles w) by (rewrite <- Ehs; left).
  destruct (handle_block _ _ _ _ Hw Hin) as (b1 & n & r & b2 & -> & -> & _).
  destruct (decrement_spec _ _ _ _ _ _ _ (wi_shard _ _ Hw)) as (m & Hm & _).
  set (w1 := {| shard := with_buffer m (shard w); handles := [] ++ hs;
    pending := if r =? 1 then total b1 :: pending w else pending w; search := search w |}).
  assert (Hs : step w w1).
  { apply step_intro; [by eapply step_drop|]. cbn [w1 handles app length] in *. lia. }
  destruct (step_inv _ _ _ Hw Hs) as (bs' & Hw' & _). 
  destruct (IH w1 bs' eq_refl Hw') as (w' & Hrun & Hh & Hsr); [cbn [length] in Hl; lia|].
  exists w'. split; [by eapply rtc_l|done].
Qed.

Lemma reclaim_all w bs : world_inv w bs -> search w = None -> length (handles w) < u64_max ->
  exists w', rtc step w w' /\ pending w' = [] /\ handles w' = handles w /\ search w' = None.
Proof.
  remember (pending w) as ps eqn:Eps. revert w bs Eps.
  induction ps as [|o ps IH]; intros w bs Eps Hw Hs Hl; [by exists w|].
  assert (Hin : o ∈ pending w) by (rewrite <- Eps; left).
  destruct (pending_block _ _ _ Hw Hin) as (b1 & n & str & b2 & -> & ->).
  destruct (mark_inv _ _ _ _ _ _ (wi_shard _ _ Hw)) as (s' & bs' & Hm & _).
  set (w1 := {| shard := s'; handles := handles w; pending := [] ++ ps; search := None |}).
  assert (Hst : step w w1) by (apply step_intro; [by eapply step_reclaim|done]).
  destruct (step_inv _ _ _ Hw Hst) as (bs1 & Hw' & _). 
  destruct (IH w1 bs1 eq_refl Hw' eq_refl Hl) as (w' & Hrun & Hp & Hh & Hsr).
  exists w'. split; [by eapply rtc_l|done].
Qed.

Lemma walk_ends w bs o str : world_inv w bs -> search w = Some (Walking o str) -> length (handles w) + 1 < u64_max ->
  exists w', rtc step w w' /\ search w' = None /\ length (handles w') <= length (handles w) + 1.
Proof.
  intros Hw Hs Hl. pose proof (wi_search _ _ Hw) as H0. rewrite Hs in H0. destruct H0 as (b1 & b2 & -> & -> & Hlen & Hn).
  destruct (find_loop_run (S (length b2)) w b1 b2 str Hw Hs Hlen Hn ltac:(lia) Hl) as (r & s' & _ & Hr).
  destruct r as [o|].
  - destruct Hr as [_ Hr]. exists (finish (Some o) str s' w). split_and!; [done..|]. cbn [finish handles length]. lia.
  - destruct Hr as (-> & Hnl & Hr). set (w1 := with_search (Walking (offset (shard w)) str) w) in *.
    destruct (intern_new_run w _ str Hw Hlen Hnl) as (r & s' & Hi & _). exists (finish r str s' w1). split_and!; [|done|].
    + eapply rtc_r; [exact Hr|]. apply step_intro; [by apply (step_write w1 (offset (shard w)))|].
      destruct r; cbn [finish handles with_search length w1]; lia.
    + destruct r; cbn [finish handles with_search length w1]; lia.
Qed.

Lemma search_ends w bs : world_inv w bs -> length (handles w) + 1 < u64_max ->
  exists w', rtc step w w' /\ search w' = None /\ length (handles w') <= length (handles w) + 1.
Proof.
  intros Hw Hl. destruct (search w) as [[o str|o str]|] eqn:Hs; [by eapply walk_ends| |exists w; split_and!; [done..|lia]].
  destruct (taking_block _ _ _ _ Hw Hs) as (b1 & n & h & r & b2 & -> & -> & Hlen & Hn).
  pose proof (wi_shard _ _ Hw) as Hsh. destruct (decide (r = 0)) as [Hr|Hr].
  - pose proof (try_increment_dead _ _ _ _ _ _ _ Hsh Hr) as Hm.
    assert (Hst : step w (with_search (Walking (total (b1 ++ [Used n h r str])) str) (with_memory (buffer (shard w)) w))).
    { apply step_intro; [by eapply step_skip; [..|apply (access_next _ _ _ _ Hsh)]|cbn [with_search with_memory handles]; lia]. }
    destruct (step_inv _ _ _ Hw Hst) as (bs' & Hw' & _). destruct (walk_ends _ _ _ _ Hw' eq_refl Hl) as (w' & Hrun & Hw2).
    exists w'. split; [by eapply rtc_l|done].
  - destruct (try_increment_spec _ _ _ _ _ _ _ Hsh Hr) as (m & Hm & _). eexists. split; [|split].
    + apply rtc_once, step_intro; [by apply step_take|]. cbn [finish handles length]. lia.
    + done.
    + cbn [finish handles length]. lia.
Qed.

Lemma reachable_bound cap w : reachable cap w -> length (handles w) < u64_max.
Proof.
  intros (s & _ & Hrun). apply rtc_inv_r in Hrun as [<-|(w1 & _ & [_ Hl])]; [|done]. cbn. unfold umax. lia.
Qed.

(** Nothing blocks the way back to an empty shard: from every reachable world, in the middle of a
    search or with entries waiting to be reclaimed as well, the search can be finished, the handles
    dropped and their entries reclaimed, after which the whole capacity is available again. *)
Theorem interner_drains cap w : 0 < cap <= max_capacity -> reachable cap w ->
  exists w', rtc step w w' /\ handles w' = [] /\ pending w' = [] /\ search w' = None /\
    offset (shard w') = 0 /\ entries (shard w') = 0 /\ reclaimed (shard w') = [].
Proof.
  intros Hc Hr. pose proof (reachable_bound _ _ Hr) as Hb. destruct (reachable_inv _ _ Hc Hr) as (bs & Hw & _).
  destruct (drop_all _ _ Hw) as (w1 & R1 & Hh1 & _); [lia|]. destruct (steps_inv _ _ _ Hw R1) as (bs1 & Hw1 & _).
  destruct (search_ends _ _ Hw1) as (w2 & R2 & Hs2 & Hl2); [by rewrite Hh1|]. rewrite Hh1 in Hl2.
  destruct (steps_inv _ _ _ Hw1 R2) as (bs2 & Hw2 & _). destruct (drop_all _ _ Hw2) as (w3 & R3 & Hh3 & Hs3).
  { cbn [length] in Hl2. unfold umax. lia. }
  destruct (steps_inv _ _ _ Hw2 R3) as (bs3 & Hw3 & _).
  destruct (reclaim_all _ _ Hw3) as (w4 & R4 & Hp4 & Hh4 & Hs4); [by rewrite Hs3|by rewrite Hh3|].
  destruct (steps_inv _ _ _ Hw3 R4) as (bs4 & Hw4 & _). rewrite Hh3 in Hh4.
  pose proof (idle_inv _ _ Hw4 Hh4 Hp4) as ->. destruct (wi_shard _ _ Hw4) as [_ _ Ho _ Hrec _ He _].
  exists w4. rewrite Ho, Hrec, He. split_and!; try done. do 2 (etrans; [eassumption|]). by etrans.
Qed.
End invariant.

(** ** An example: a string is interned, its handle cloned, and both are dropped *)

Lemma length_hash_u64 (s : bytes) : is_u64 (length s mod 2 ^ 64).
Proof. pose proof (Z.mod_pos_bound (length s) (2 ^ 64) ltac:(lia)). size_lia. Qed.

#[local] Instance example_hasher : StringHasher :=
  {| hash_string s := length s mod 2 ^ 64; hash_string_u64 := length_hash_u64 |}.

Definition ab : bytes := [Z_byte 97; Z_byte 98].

Definition example_shard : InternerShardState :=
  {| buffer := {| b_size := 72; b_headers := ∅; b_bytes := ∅ |}; offset := 0; capacity := 64; entries := 0; len := 0;
     reclaimed := [] |}.

Definition example_buffer (om : option Buffer) (s : InternerShardState) : InternerShardState :=
  match om with Some m => with_buffer m s | None => s end.

(** The shard after interning, after cloning, after one and after both drops, and after reclaiming *)
Definition shard1 : InternerShardState :=
  match intern_new (hash_string ab) ab example_shard with Some (_, s) => s | None => example_shard end.
Definition shard2 : InternerShardState := example_buffer (increment_active_refs 0 (buffer shard1)) shard1.
Definition shard3 : InternerShardState := example_buffer (option_map snd (decrement_active_refs 0 (buffer shard2))) shard2.
Definition shard4 : InternerShardState := example_buffer (option_map snd (decrement_active_refs 0 (buffer shard3))) shard3.
Definition shard5 : InternerShardState := match mark_for_reclamation 0 shard4 with Some s => s | None => shard4 end.

Definition world_with (s : InternerShardState) (hs : list handle) (ps : list Z) : World :=
  {| shard := s; handles := hs; pending := ps; search := None |}.

Lemma example_shared : reachable 64 (world_with shard2 [(0, ab); (0, ab)] []).
Proof.
  exists example_shard. split; [reflexivity|]. eapply rtc_l.
  - apply step_intro; [|shelve]. apply (step_begin_empty _ ab (Some 0) shard1); [done|by vm_compute|done|vm_compute; reflexivity].
  - apply rtc_once, step_intro; [|by vm_compute].
    apply (step_clone (world_with shard1 [(0, ab)] []) 0 ab (buffer shard2)); [left|vm_compute; reflexivity].
  Unshelve. by vm_compute.
Qed.

Lemma example_drained : reachable 64 (world_with shard5 [] []).
Proof.
  destruct example_shared as (s & Hs & Hrun). exists s. split; [done|]. etrans; [exact Hrun|]. eapply rtc_l; [|eapply rtc_l].
  - apply step_intro; [|shelve].
    apply (step_drop (world_with shard2 [(0, ab); (0, ab)] []) [] 0 ab [(0, ab)] false (buffer shard3)); [done|vm_compute; reflexivity].
  - apply step_intro; [|shelve].
    apply (step_drop (world_with shard3 [(0, ab)] []) [] 0 ab [] true (buffer shard4)); [done|vm_compute; reflexivity].
  - apply rtc_once, step_intro; [|by vm_compute].
    apply (step_reclaim (world_with shard4 [] [0]) [] 0 [] shard5); [done|done|vm_compute; reflexivity].
  Unshelve. all: by vm_compute.
Qed.

Lemma interner_memory_safe_witness : get_entry_string 0 (buffer shard2) = Some ab.
Proof. apply (interner_memory_safe 64 _ ltac:(unfold max_capacity; lia) example_shared). left. Defined.

Lemma interner_deduplicates_witness : handle_eqb (0, ab) (0, ab) = true <-> ab = ab.
Proof.
  apply (interner_deduplicates 64 _ (0, ab) (0, ab) ltac:(unfold max_capacity; lia) example_shared).
  - left.
  - right. left.
Defined.

Lemma interner_does_not_leak_witness : offset shard5 = 0 /\ available shard5 = 64.
Proof.
  pose proof (interner_does_not_leak 64 _ ltac:(unfold max_capacity; lia) example_drained eq_refl eq_refl) as (H1 & _ & _ & _ & H2).
  split; [exact H1|exact H2].
Defined.

Lemma try_intern_refines_witness : exists s', shard_try_intern (hash_string ab) ab shard2 = Some (Some 0, s').
Proof.
  destruct (try_intern_refines 64 _ ab ltac:(unfold max_capacity; lia) example_shared eq_refl) as (r & s' & Hi & _ & _ & _ & Hr).
  - by vm_compute.
  - exists s'. rewrite (Hr 0) in Hi by left. exact Hi.
Defined.

Lemma interner_drains_witness : exists w', rtc step (world_with shard2 [(0, ab); (0, ab)] []) w' /\ offset (shard w') = 0.
Proof.
  destruct (interner_drains 64 _ ltac:(unfold max_capacity; lia) example_shared) as (w' & Hrun & _ & _ & _ & Ho & _).
  exists w'. split; [exact Hrun|exact Ho].
Defined.

(** ** What [is_empty] says *)

(** An interner that was just made is not empty according to [is_empty], one that holds a string is. *)
Example is_empty_is_inverted :
  option_map InternerState_is_empty (InternerState_with_capacity 1 64) = Some false /\
  InternerState_is_empty {| shards := [shard2]; total_capacity := 64 |} = true.
Proof. split; reflexivity. Qed.

(** A shard of capacity one, as [with_capacity] makes when there are more shards than bytes, is not
    made larger to hold an entry: it refuses every string. *)
Example tiny_interner_interns_nothing :
  (i ← InternerState_with_capacity 8 4; r ← InternerState_try_intern [] i; Some r.1) = Some None.
Proof. reflexivity. Qed.
