(* ===== verification/Utf8.v ===== *)
(** * Utf8: byte strings as text

    What the code uses of the standard library's [str]: the scan for well-formed UTF-8 that
    [core::str] does, its split of a byte string into well-formed and ill-formed chunks
    ([utf8_chunks]), and [str::replace].  [valid_utf8] is the specification: a sequence of
    well-formed characters. *)

From Stdlib Require Import ZArith Lia.
From stdpp Require Import base tactics list numbers option gmap.
From S2P Require Import Prelude Bytes.
Open Scope Z_scope.

(** ** Classes of bytes *)

Definition byte_in (lo hi : Z) (c : byte) : bool := (lo <=? byte_Z c) && (byte_Z c <=? hi).

Definition is_ascii (c : byte) : bool := byte_Z c <? 128.
Definition is_ascii_digit (c : byte) : bool := byte_in 48 57 c.
Definition is_ascii_lowercase (c : byte) : bool := byte_in 97 122 c.
Definition is_ascii_uppercase (c : byte) : bool := byte_in 65 90 c.
Definition is_ascii_alphanumeric (c : byte) : bool :=
  is_ascii_digit c || is_ascii_lowercase c || is_ascii_uppercase c.

(** The byte continues a character; otherwise a character starts with it. *)
Definition is_cont (c : byte) : bool := Z.land (byte_Z c) 192 =? 128.

(** ** One character *)

Definition utf8_char_width (c : byte) : nat :=
  if byte_Z c <? 128 then 1
  else if byte_in 0xC2 0xDF c then 2
  else if byte_in 0xE0 0xEF c then 3
  else if byte_in 0xF0 0xF4 c then 4
  else 0.

(** The second byte of a character of three or four bytes *)
Definition second_ok (c d : byte) : bool :=
  if bool_decide (byte_Z c = 0xE0) then byte_in 0xA0 0xBF d
  else if bool_decide (byte_Z c = 0xED) then byte_in 0x80 0x9F d
  else if bool_decide (byte_Z c = 0xF0) then byte_in 0x90 0xBF d
  else if bool_decide (byte_Z c = 0xF4) then byte_in 0x80 0x8F d
  else byte_in 0x80 0xBF d.

Definition nth_ok (p : byte -> bool) (i : nat) (l : bytes) : bool :=
  match l !! i with Some d => p d | None => false end.

(** Whether a well-formed character is in front, and how many bytes were inspected *)
Definition utf8_char (l : bytes) : option (bool * nat) :=
  match l with
  | [] => None
  | c :: _ =>
      Some match utf8_char_width c with
           | 1%nat => (true, 1%nat)
           | 2%nat => if nth_ok is_cont 1 l then (true, 2%nat) else (false, 1%nat)
           | 3%nat => if nth_ok (second_ok c) 1 l
                      then if nth_ok is_cont 2 l then (true, 3%nat) else (false, 2%nat)
                      else (false, 1%nat)
           | 4%nat => if nth_ok (second_ok c) 1 l
                      then if nth_ok is_cont 2 l
                           then if nth_ok is_cont 3 l then (true, 4%nat) else (false, 3%nat)
                           else (false, 2%nat)
                      else (false, 1%nat)
           | _ => (false, 1%nat)
           end
  end.

(** ** Scanning *)

(** The loop of [Utf8Chunks::next]: how far the characters are well-formed, and how far it looked *)
Fixpoint utf8_scan (fuel : nat) (l : bytes) : nat * nat :=
  match fuel with
  | O => (0, 0)%nat
  | S fuel =>
      match utf8_char l with
      | None => (0, 0)%nat
      | Some (true, n) => let '(v, i) := utf8_scan fuel (drop n l) in (n + v, n + i)%nat
      | Some (false, n) => (0%nat, n)
      end
  end.

(** [core::str::from_utf8] succeeds *)
Definition is_utf8 (l : bytes) : bool := bool_decide ((utf8_scan (length l) l).1 = length l).

Record Utf8Chunk := { chunk_valid : bytes; chunk_invalid : bytes }.

Fixpoint utf8_chunks_fuel (fuel : nat) (l : bytes) : list Utf8Chunk :=
  match fuel, l with
  | O, _ | _, [] => []
  | S fuel, _ =>
      let '(v, i) := utf8_scan (length l) l in
      {| chunk_valid := take v l; chunk_invalid := drop v (take i l) |} :: utf8_chunks_fuel fuel (drop i l)
  end.

(** [<[u8]>::utf8_chunks] *)
Definition utf8_chunks (l : bytes) : list Utf8Chunk := utf8_chunks_fuel (length l) l.

(** [s.replace(from, to)] for a pattern of two bytes *)
Fixpoint replace2 (p q : byte) (to : bytes) (l : bytes) : bytes :=
  match l with
  | c :: ((d :: l'') as l') =>
      if bool_decide (c = p /\ d = q) then to ++ replace2 p q to l'' else c :: replace2 p q to l'
  | _ => l
  end.

(** ** The specification *)

Definition is_char (c : bytes) : Prop := utf8_char c = Some (true, length c).

Definition valid_utf8 (l : bytes) : Prop := exists cs, Forall is_char cs /\ l = concat cs.

(** ** Facts about bytes *)

Lemma is_cont_range c : is_cont c = byte_in 128 191 c.
Proof. by destruct c. Qed.

Lemma byte_in_spec lo hi c : byte_in lo hi c = true <-> lo <= byte_Z c <= hi.
Proof. unfold byte_in. rewrite andb_true_iff, !Z.leb_le. done. Qed.

Lemma second_ok_cont c d : second_ok c d = true -> is_cont d = true.
Proof.
  unfold second_ok. rewrite is_cont_range. repeat case_bool_decide; rewrite !byte_in_spec; lia.
Qed.

Lemma width_bounds c : (utf8_char_width c <= 4)%nat.
Proof. unfold utf8_char_width. repeat case_match; lia. Qed.

Lemma width_ascii c : is_ascii c = true -> utf8_char_width c = 1%nat.
Proof. unfold is_ascii, utf8_char_width. by intros ->. Qed.

Lemma width_not_ascii c : is_ascii c = false -> utf8_char_width c <> 1%nat.
Proof. unfold is_ascii, utf8_char_width. intros ->. repeat case_match; lia. Qed.

Lemma width_not_cont c : utf8_char_width c <> 0%nat -> is_cont c = false.
Proof.
  rewrite is_cont_range. unfold utf8_char_width, byte_in. repeat case_match; intros ?; bool_cases; try done;
    apply andb_false_iff; bool_lia.
Qed.

Lemma cont_not_ascii c : is_cont c = true -> is_ascii c = false.
Proof. rewrite is_cont_range, byte_in_spec. unfold is_ascii. rewrite Z.ltb_ge. lia. Qed.

Lemma nth_ok_spec p i l : nth_ok p i l = true <-> exists d, l !! i = Some d /\ p d = true.
Proof. unfold nth_ok. destruct (l !! i) as [d|]; naive_solver. Qed.

(** ** Characters *)

(** What one look at the front of a byte string finds: the bytes after the first one continue a
    character, and a character that is complete does not depend on what follows. *)
Record looked (l : bytes) (ok : bool) (n : nat) (c : byte) (t r : bytes) : Prop := {
  lk_split : l = c :: t ++ r;
  lk_count : n = S (length t);
  lk_short : (length t <= 3)%nat;
  lk_cont : Forall (fun d => is_cont d = true) t;
  lk_start : ok = true -> is_cont c = false;
  lk_stable : ok = true -> forall r', utf8_char (c :: t ++ r') = Some (true, n);
  lk_ascii : is_ascii c = true -> ok = true /\ t = [];
}.

Ltac looked_tac :=
  split; try done;
  try first [ by (cbn; lia) | by repeat constructor | by auto | by intros; simplify_eq; congruence ].

Lemma utf8_char_looked l ok n : utf8_char l = Some (ok, n) -> exists c t r, looked l ok n c t r.
Proof.
  destruct l as [|c l]; [done|]. unfold utf8_char. intros E. simplify_eq. exists c.
  destruct (is_ascii c) eqn:Ha.
  { rewrite width_ascii in E by done. simplify_eq. exists [], l. looked_tac.
    all: intros _.
    - destruct (is_cont c) eqn:Ec; [|done]. apply cont_not_ascii in Ec. congruence.
    - intros r'. unfold utf8_char. by rewrite width_ascii. }
  pose proof (width_not_ascii _ Ha) as Hw. pose proof (width_not_cont c) as Hnc.
  assert (Hone : forall n', (false, n') = (ok, n) -> n' = 1%nat -> exists t r, looked (c :: l) ok n c t r).
  { intros n' ? ->. simplify_eq. exists [], l. looked_tac. }
  destruct (utf8_char_width c) as [|[|[|[|[|k]]]]] eqn:Ew; [by eapply Hone| done | | | |by eapply Hone].
  - destruct (nth_ok is_cont 1 (c :: l)) eqn:E1; [|by eapply Hone]. simplify_eq.
    apply nth_ok_spec in E1 as (d & Hd & Hcd). destruct l as [|d' l]; [done|]. simplify_eq/=.
    exists [d], l. looked_tac.
    intros _ r'. unfold utf8_char. by rewrite Ew; cbn; rewrite Hcd.
  - destruct (nth_ok (second_ok c) 1 (c :: l)) eqn:E1; [|by eapply Hone].
    apply nth_ok_spec in E1 as (d & Hd & Hcd). destruct l as [|d' l]; [done|]. simplify_eq/=.
    pose proof (second_ok_cont _ _ Hcd) as Hcd'. unfold nth_ok in E. cbn in E. destruct (head l) as [e|] eqn:Hh.
    + destruct l as [|e0 l]; [done|]. simplify_eq/=. destruct (is_cont e) eqn:Ee; simplify_eq.
      * exists [d; e], l. looked_tac.
        intros _ r'. unfold utf8_char. by rewrite Ew; cbn; rewrite Hcd; cbn; rewrite Ee.
      * exists [d], (e :: l). looked_tac.
    + destruct l; [|done]. simplify_eq/=. exists [d], []. looked_tac.
  - destruct (nth_ok (second_ok c) 1 (c :: l)) eqn:E1; [|by eapply Hone].
    apply nth_ok_spec in E1 as (d & Hd & Hcd). destruct l as [|d' l]; [done|]. simplify_eq/=.
    pose proof (second_ok_cont _ _ Hcd) as Hcd'. unfold nth_ok in E. cbn in E.
    destruct l as [|e l]; [|destruct (is_cont e) eqn:Ee; [destruct l as [|f l]; [|destruct (is_cont f) eqn:Ef]|]];
      cbn in E; rewrite ?Ee in E; cbn in E; rewrite ?Ef in E; simplify_eq.
    + exists [d], []. looked_tac.
    + exists [d; e], []. looked_tac.
    + exists [d; e; f], l. looked_tac.
      intros _ r'. unfold utf8_char. by rewrite Ew; cbn; rewrite Hcd; cbn; rewrite Ee; cbn; rewrite Ef.
    + exists [d; e], (f :: l). looked_tac.
    + exists [d], (e :: l). looked_tac.
Qed.

Lemma utf8_char_front l n : utf8_char l = Some (true, n) ->
  exists c r, l = c ++ r /\ is_char c /\ length c = n.
Proof.
  intros (c & t & r & Hl)%utf8_char_looked. exists (c :: t), r.
  rewrite (lk_split _ _ _ _ _ _ Hl), (lk_count _ _ _ _ _ _ Hl). split_and!; [done| |done].
  unfold is_char. pose proof (lk_stable _ _ _ _ _ _ Hl eq_refl []) as E. rewrite app_nil_r in E. rewrite E.
  by rewrite (lk_count _ _ _ _ _ _ Hl).
Qed.

Lemma is_char_inv c : is_char c -> exists h t, c = h :: t /\ is_cont h = false /\
  Forall (fun d => is_cont d = true) t /\ (length t <= 3)%nat /\ (is_ascii h = true -> t = []).
Proof.
  intros (h & t & r & Hl)%utf8_char_looked. pose proof (lk_split _ _ _ _ _ _ Hl) as Es.
  pose proof (lk_count _ _ _ _ _ _ Hl) as Ec. rewrite Es in Ec. cbn [length] in Ec. rewrite length_app in Ec.
  assert (r = []) as -> by (destruct r; [done|cbn in Ec; lia]). rewrite app_nil_r in Es. exists h, t.
  split_and!; [done|by apply Hl..|]. intros Ha. by apply (lk_ascii _ _ _ _ _ _ Hl).
Qed.

Lemma is_char_app c r : is_char c -> utf8_char (c ++ r) = Some (true, length c).
Proof.
  intros Hc. pose proof Hc as (h & t & r' & Hl)%utf8_char_looked. pose proof (lk_split _ _ _ _ _ _ Hl) as Es.
  pose proof (lk_count _ _ _ _ _ _ Hl) as Ec. rewrite Es in Ec at 1. cbn [length] in Ec. rewrite length_app in Ec.
  assert (r' = []) as -> by (destruct r'; [done|cbn in Ec; lia]). rewrite app_nil_r in Es. rewrite Es at 1.
  apply (lk_stable _ _ _ _ _ _ Hl eq_refl).
Qed.

Lemma is_char_nonempty c : is_char c -> c <> [].
Proof. by intros ? ->. Qed.

Lemma is_char_ascii c : is_ascii c = true -> is_char [c].
Proof. intros H. unfold is_char, utf8_char. by rewrite width_ascii. Qed.

(** ** Valid strings *)

Lemma valid_nil : valid_utf8 [].
Proof. by exists []. Qed.

Lemma valid_cons c l : is_char c -> valid_utf8 l -> valid_utf8 (c ++ l).
Proof. intros Hc (cs & Hcs & ->). exists (c :: cs). split; [by constructor|done]. Qed.

Lemma valid_app l1 l2 : valid_utf8 l1 -> valid_utf8 l2 -> valid_utf8 (l1 ++ l2).
Proof. intros (cs & H1 & ->) (ds & H2 & ->). exists (cs ++ ds). rewrite concat_app. split; [by apply Forall_app|done]. Qed.

Lemma valid_ascii l : Forall (fun c => is_ascii c = true) l -> valid_utf8 l.
Proof.
  induction 1 as [|c l Hc _ IH]; [apply valid_nil|]. apply (valid_cons [c]); [by apply is_char_ascii|done].
Qed.

Lemma valid_ind (P : bytes -> Prop) :
  P [] -> (forall c l, is_char c -> valid_utf8 l -> P l -> P (c ++ l)) -> forall l, valid_utf8 l -> P l.
Proof.
  intros Hn Hc l (cs & Hcs & ->). induction Hcs as [|c cs Hcc Hcs IH]; [done|]. apply Hc; [done|by exists cs|done].
Qed.

(** A place where no character is in the middle of splits a valid string into valid ones. *)
Lemma valid_boundary l i : valid_utf8 l -> (i <= length l)%nat -> (forall c, l !! i = Some c -> is_cont c = false) ->
  valid_utf8 (take i l) /\ valid_utf8 (drop i l).
Proof.
  intros Hl. revert i. induction Hl as [|c l Hc Hl IH] using valid_ind; intros i Hi Hb.
  - rewrite take_nil, drop_nil. split; apply valid_nil.
  - destruct (is_char_inv c Hc) as (h & t & -> & _ & Ht & _). destruct i as [|i].
    { rewrite drop_0. split; [apply valid_nil|by apply (valid_cons (h :: t))]. }
    destruct (decide (i < length t)%nat) as [Hlt|Hge].
    + exfalso. destruct (lookup_lt_is_Some_2 t i Hlt) as [d Hd]. assert (Hx : is_cont d = false).
      { apply (Hb d). rewrite lookup_app_l by (cbn; lia). exact Hd. }
      apply (Forall_lookup_1 _ _ _ _ Ht) in Hd. cbn in Hd. congruence.
    + rewrite length_app in Hi. cbn [length] in Hi. destruct (IH (i - length t)%nat) as [H1 H2]; [lia| |].
      * intros d Hd. apply (Hb d). rewrite lookup_app_r by (cbn; lia). exact Hd.
      * assert (Ht2 : take (S i) ((h :: t) ++ l) = (h :: t) ++ take (i - length t) l).
        { cbn. f_equal. rewrite take_app. f_equal. by rewrite take_ge by lia. }
        assert (Hd2 : drop (S i) ((h :: t) ++ l) = drop (i - length t) l).
        { cbn. rewrite drop_app. by rewrite drop_ge by lia. }
        rewrite Ht2, Hd2. split; [by apply valid_cons|done].
Qed.

(** A boundary is never more than three bytes away. *)
Lemma valid_near l i : valid_utf8 l -> (i < length l)%nat ->
  exists j c, (i - 3 <= j <= i)%nat /\ l !! j = Some c /\ is_cont c = false.
Proof.
  intros Hl. revert i. induction Hl as [|c l Hc Hl IH] using valid_ind; intros i Hi; [cbn in Hi; lia|].
  destruct (is_char_inv c Hc) as (h & t & -> & Hh & _ & Ht & _). rewrite length_app in Hi. cbn [length] in Hi.
  destruct (decide (i <= length t)%nat) as [Hle|Hgt]; [exists 0%nat, h; split_and!; [lia..|done|done]|].
  destruct (IH (i - S (length t))%nat) as (j & c & Hj & Hc' & Hnc); [lia|]. exists (S (length t) + j)%nat, c.
  split_and!; [lia..| |done]. rewrite lookup_app_r by (cbn; lia). cbn [length].
  by replace (S (length t) + j - S (length t))%nat with j by lia.
Qed.

Lemma valid_split_ascii l1 a l2 : is_ascii a = true -> valid_utf8 (l1 ++ a :: l2) <-> valid_utf8 l1 /\ valid_utf8 l2.
Proof.
  intros Ha. split.
  - intros Hv. destruct (valid_boundary _ (length l1) Hv) as [H1 H2].
    + rewrite length_app. lia.
    + intros c Hc. rewrite lookup_app_r, Nat.sub_diag in Hc by lia. simplify_eq/=.
      destruct (is_cont c) eqn:E; [|done]. apply cont_not_ascii in E. congruence.
    + rewrite take_app_length in H1. rewrite drop_app_length in H2. split; [done|].
      destruct H2 as ([|c cs] & Hcs & E); [done|]. apply Forall_cons in Hcs as [Hc Hcs].
      destruct (is_char_inv c Hc) as (h & t & -> & _ & _ & _ & Ht). cbn in E. simplify_eq. rewrite Ht by done.
      by exists cs.
  - intros [H1 H2]. apply valid_app; [done|]. apply (valid_cons [a]); [by apply is_char_ascii|done].
Qed.

Lemma valid_cons_ascii a l : is_ascii a = true -> valid_utf8 (a :: l) <-> valid_utf8 l.
Proof. intros Ha. rewrite (valid_split_ascii [] a l Ha). pose proof valid_nil. tauto. Qed.

(** ** The scan decides validity *)

Lemma utf8_char_advances l ok n : utf8_char l = Some (ok, n) -> (1 <= n <= length l)%nat.
Proof.
  intros (c & t & r & Hl)%utf8_char_looked. rewrite (lk_split _ _ _ _ _ _ Hl), (lk_count _ _ _ _ _ _ Hl).
  cbn. rewrite length_app. lia.
Qed.

(** The scan stops at the end, or at a place that is not a character. *)
Lemma utf8_scan_spec fuel l v i : (length l <= fuel)%nat -> utf8_scan fuel l = (v, i) ->
  valid_utf8 (take v l) /\
  ((v = length l /\ i = v) \/ exists k, utf8_char (drop v l) = Some (false, k) /\ i = (v + k)%nat).
Proof.
  revert l v i. induction fuel as [|fuel IH]; intros l v i Hf E.
  { destruct l; [|cbn in Hf; lia]. cbn in E. simplify_eq. split; [apply valid_nil|by left]. }
  cbn [utf8_scan] in E. destruct (utf8_char l) as [[[] n]|] eqn:Ec.
  - destruct (utf8_scan fuel (drop n l)) as [v' i'] eqn:Es. simplify_eq.
    pose proof (utf8_char_advances _ _ _ Ec) as Hn. destruct (utf8_char_front _ _ Ec) as (c & r & -> & Hc & <-).
    rewrite drop_app_length in Es. rewrite length_app in Hf, Hn.
    destruct (IH r v' i' ltac:(lia) Es) as [Hv Hend]. rewrite take_app_add, drop_app_add.
    split; [by apply valid_cons|]. destruct Hend as [[-> ->]|(k & Hk & ->)]; [left|right].
    + rewrite length_app. lia.
    + exists k. split; [done|lia].
  - simplify_eq. rewrite take_0, drop_0. split; [apply valid_nil|]. right. by exists i.
  - simplify_eq. destruct l; [|done]. split; [apply valid_nil|by left].
Qed.

Lemma utf8_scan_valid l fuel : valid_utf8 l -> (length l <= fuel)%nat -> utf8_scan fuel l = (length l, length l).
Proof.
  intros Hl. revert fuel. induction Hl as [|c l Hc Hl IH] using valid_ind; intros fuel Hf.
  - by destruct fuel.
  - pose proof (utf8_char_advances _ _ _ Hc) as Hn. rewrite length_app in Hf. destruct fuel as [|fuel]; [lia|].
    cbn [utf8_scan]. rewrite is_char_app, drop_app_length, IH by (done || lia). by rewrite length_app.
Qed.

Lemma is_utf8_spec l : is_utf8 l = true <-> valid_utf8 l.
Proof.
  unfold is_utf8. rewrite bool_decide_eq_true. split.
  - destruct (utf8_scan (length l) l) as [v i] eqn:E. cbn [fst]. intros ->. apply utf8_scan_spec in E as [Hv _]; [|done].
    by rewrite take_ge in Hv.
  - intros Hl. by rewrite utf8_scan_valid.
Qed.

(** ** Chunks *)

Definition no_ascii (l : bytes) : Prop := Forall (fun c => is_ascii c = false) l.

(** The bytes of an ill-formed piece are not ASCII. *)
Lemma ill_formed_no_ascii l k : utf8_char l = Some (false, k) -> no_ascii (take k l).
Proof.
  intros (c & t & r & Hl)%utf8_char_looked. pose proof (lk_ascii _ _ _ _ _ _ Hl) as Ha.
  rewrite (lk_split _ _ _ _ _ _ Hl), (lk_count _ _ _ _ _ _ Hl). cbn. rewrite take_app_length.
  constructor; [destruct (is_ascii c); [naive_solver|done]|].
  eapply Forall_impl; [apply (lk_cont _ _ _ _ _ _ Hl)|]. intros d. apply cont_not_ascii.
Qed.

(** A byte string is the concatenation of its chunks, whose first parts are valid and whose second
    parts hold no ASCII. *)
Inductive chunked : bytes -> list Utf8Chunk -> Prop :=
  | chunked_nil : chunked [] []
  | chunked_cons v i l cs : valid_utf8 v -> no_ascii i -> chunked l cs ->
      (i = [] -> l = []) -> chunked (v ++ i ++ l) ({| chunk_valid := v; chunk_invalid := i |} :: cs).

Lemma utf8_chunks_fuel_spec fuel l : (length l <= fuel)%nat -> chunked l (utf8_chunks_fuel fuel l).
Proof.
  revert l. induction fuel as [|fuel IH]; intros l Hf; [destruct l; [constructor|cbn in Hf; lia]|].
  destruct l as [|c l]; [constructor|]. cbn [utf8_chunks_fuel]. remember (c :: l) as l0 eqn:E0.
  destruct (utf8_scan (length l0) l0) as [v i] eqn:Es. apply utf8_scan_spec in Es as [Hv Hend]; [|done].
  assert (Hlen : (v <= i)%nat /\ (1 <= i)%nat).
  { destruct Hend as [[-> ->]|(k & Hk & ->)]; [subst l0; cbn; lia|].
    apply utf8_char_advances in Hk. lia. }
  assert (Hsplit : l0 = take v l0 ++ drop v (take i l0) ++ drop i l0).
  { rewrite app_assoc. rewrite <- (take_drop i l0) at 1. f_equal.
    rewrite <- (take_drop v (take i l0)) at 1. f_equal. rewrite take_take. f_equal. lia. }
  rewrite Hsplit at 1. constructor; [done| | |].
  - destruct Hend as [[-> ->]|(k & Hk & ->)].
    + rewrite take_ge, drop_ge by lia. constructor.
    + rewrite skipn_firstn_comm. replace (v + k - v)%nat with k by lia. by apply ill_formed_no_ascii.
  - apply IH. rewrite length_drop. subst l0. cbn [length] in *. lia.
  - destruct Hend as [[-> ->]|(k & Hk & ->)]; [intros _; apply drop_ge; lia|].
    intros E. exfalso. apply utf8_char_advances in Hk. rewrite length_drop in Hk.
    apply (f_equal length) in E. rewrite length_drop, length_take in E. cbn in E. lia.
Qed.

Lemma utf8_chunks_spec l : chunked l (utf8_chunks l).
Proof. by apply utf8_chunks_fuel_spec. Qed.

Lemma utf8_chunks_valid l : valid_utf8 l -> l <> [] -> utf8_chunks l = [{| chunk_valid := l; chunk_invalid := [] |}].
Proof.
  intros Hl Hne. unfold utf8_chunks. destruct l as [|c l]; [done|]. cbn [length utf8_chunks_fuel].
  change (S (length l)) with (length (c :: l)). rewrite utf8_scan_valid by done.
  rewrite !take_ge by lia. rewrite !drop_ge by lia. by destruct (length l).
Qed.

(** ** Replacing keeps validity *)

Lemma replace2_skip p q to ch l : Forall (fun c => c <> p) ch -> replace2 p q to (ch ++ l) = ch ++ replace2 p q to l.
Proof.
  induction 1 as [|c ch Hc _ IH]; [done|]. cbn [app]. rewrite <- IH. destruct (ch ++ l) as [|d r] eqn:E; [done|].
  cbn [replace2]. by rewrite bool_decide_false by naive_solver.
Qed.

Lemma replace2_valid p q to l : is_ascii p = true -> is_ascii q = true -> valid_utf8 to ->
  valid_utf8 l -> valid_utf8 (replace2 p q to l).
Proof.
  intros Hp Hq Hto. remember (length l) as n eqn:En. assert (Hn : (length l <= n)%nat) by lia. clear En.
  revert l Hn. induction n as [|n IH]; intros l Hn ([|ch cs] & Hcs & ->); try (cbn; apply valid_nil).
  { apply Forall_cons in Hcs as [Hc _]. destruct ch; [done|]. cbn in Hn. lia. }
  apply Forall_cons in Hcs as [Hc Hcs]. assert (Hv : valid_utf8 (concat cs)) by by exists cs.
  destruct (is_char_inv ch Hc) as (h & t & -> & _ & Ht & _ & Ha). cbn [concat]. cbn in Hn. rewrite length_app in Hn.
  destruct (decide (h = p)) as [->|Hne].
  - rewrite Ha by done. cbn [app]. specialize (IH (concat cs) ltac:(lia) Hv) as IH'. destruct (concat cs) as [|d r]; [by apply valid_cons_ascii|].
    cbn [replace2]. case_bool_decide as Hd; [|by apply valid_cons_ascii]. destruct Hd as [_ ->].
    apply valid_cons_ascii in Hv; [|done]. apply valid_app; [done|]. apply IH; [cbn in Hn; lia|done].
  - rewrite replace2_skip.
    + apply valid_cons; [done|]. apply IH; [lia|done].
    + constructor; [done|]. eapply Forall_impl; [exact Ht|]. intros d Hd%cont_not_ascii. congruence.
Qed.
