(* ===== verification/RawTags.v ===== *)
(** * RawTags: the tag block of a packet

    Models [lib/saluki-core/src/data_model/tags/raw.rs]: tags packed into one string and separated
    by commas, read one by one with a limit on their number and on their length.  Cutting a tag to
    its length limit looks for a character boundary with [unwrap_unchecked] and
    [from_utf8_unchecked]: [limit_str_to_len] is [None] when that would be undefined. *)

From Stdlib Require Import ZArith Lia Strings.String.
From stdpp Require Import base tactics list numbers option gmap.
From S2P Require Import Prelude Bytes Utf8.
Open Scope Z_scope.

#[local] Coercion Z.of_nat : nat >-> Z.

Definition comma : byte := Z_byte 44.

Section code.
Context `{Memchr}.

(** [None] at the end of the input; the rest of the input when there is no delimiter. *)
Definition split_at_delimiter (delimiter : byte) (input : bytes) : option (bytes * bytes) :=
  match memchr delimiter input with
  | Some index => Some (take index input, drop (index + 1) input)
  | None => match input with [] => None | _ => Some (input, []) end
  end.

(** [b as i8] *)
Definition as_i8 (c : byte) : Z := if byte_Z c <? 128 then byte_Z c else byte_Z c - 256.

(** [Iterator::rposition] *)
Fixpoint rposition {A} (p : A -> bool) (l : list A) : option nat :=
  match l with
  | [] => None
  | x :: l' => match rposition p l' with Some i => Some (S i) | None => if p x then Some O else None end
  end.

Definition limit_str_to_len (s : bytes) (limit : Z) : option bytes :=
  if length s <=? limit then Some s
  else
    let start := Z.to_nat (saturating_sub limit 3) in
    let window := drop start (take (Z.to_nat limit + 1) s) in
    new_index ← rposition (fun c => -0x40 <=? as_i8 c) window;
    Some (take (start + new_index) s).

Record RawTags := { raw_tags : bytes; max_tag_count : Z; max_tag_len : Z }.

Definition RawTags_new (raw : bytes) (count len : Z) : RawTags :=
  {| raw_tags := raw; max_tag_count := count; max_tag_len := len |}.
Definition from_owned (raw : bytes) (count len : Z) : RawTags :=
  {| raw_tags := raw; max_tag_count := count; max_tag_len := len |}.
Definition RawTags_empty : RawTags := {| raw_tags := []; max_tag_count := 0; max_tag_len := 0 |}.

Record RawTagsIter := { it_raw : bytes; parsed_tags : Z; it_max_len : Z; it_max_count : Z }.

Definition RawTags_iter (t : RawTags) : RawTagsIter :=
  {| it_raw := raw_tags t; parsed_tags := 0; it_max_len := max_tag_len t; it_max_count := max_tag_count t |}.

(** The next tag, if any, and the iterator after it *)
Definition RawTagsIter_next (it : RawTagsIter) : option (option bytes * RawTagsIter) :=
  match split_at_delimiter comma (it_raw it) with
  | None => Some (None, it)
  | Some (raw_tag, tail) =>
      let it := {| it_raw := tail; parsed_tags := parsed_tags it; it_max_len := it_max_len it; it_max_count := it_max_count it |} in
      if it_max_count it <=? parsed_tags it then Some (None, it)
      else
        tag ← limit_str_to_len raw_tag (it_max_len it);
        Some (Some tag, {| it_raw := it_raw it; parsed_tags := u64_add (parsed_tags it) 1;
                           it_max_len := it_max_len it; it_max_count := it_max_count it |})
  end.

(** The whole iteration, until the first [None] *)
Fixpoint collect_tags (fuel : nat) (it : RawTagsIter) : option (list bytes) :=
  match fuel with
  | O => None
  | S fuel =>
      '(tag, it) ← RawTagsIter_next it;
      match tag with
      | None => Some []
      | Some t => ts ← collect_tags fuel it; Some (t :: ts)
      end
  end.

Definition tags_of (t : RawTags) : option (list bytes) := collect_tags (S (length (raw_tags t))) (RawTags_iter t).
End code.

(** ** The specification *)

(** The pieces between delimiters; a delimiter at the very end starts no further piece. *)
Fixpoint fields (d : byte) (l : bytes) : list bytes :=
  match l with
  | [] => []
  | c :: l' =>
      if bool_decide (c = d) then [] :: fields d l'
      else match fields d l' with [] => [[c]] | f :: fs => (c :: f) :: fs end
  end.

(** The longest prefix of whole characters within a length *)
Record longest_prefix (n : Z) (s t : bytes) : Prop := {
  lp_prefix : t `prefix_of` s;
  lp_valid : valid_utf8 t;
  lp_short : length t <= n;
  lp_longest : forall u, u `prefix_of` s -> valid_utf8 u -> length u <= n -> length u <= length t;
}.

(** ** Splitting *)

Section split.
Context `{Memchr} (d : byte).

Lemma split_at_delimiter_found l1 l2 : d ∉ l1 -> split_at_delimiter d (l1 ++ d :: l2) = Some (l1, l2).
Proof using.
  intros Hd. unfold split_at_delimiter. rewrite memchr_app by done. rewrite take_app_length.
  by rewrite drop_app_add.
Qed.

Lemma split_at_delimiter_last l : d ∉ l -> l <> [] -> split_at_delimiter d l = Some (l, []).
Proof using. intros Hd Hl. unfold split_at_delimiter. rewrite memchr_not_elem by done. by destruct l. Qed.

Lemma split_at_delimiter_nil : split_at_delimiter d [] = None.
Proof using. unfold split_at_delimiter. rewrite memchr_not_elem by apply not_elem_of_nil. done. Qed.

Lemma fields_found l1 l2 : d ∉ l1 -> fields d (l1 ++ d :: l2) = l1 :: fields d l2.
Proof using.
  induction l1 as [|c l1 IH]; intros Hd; cbn.
  - by rewrite bool_decide_true.
  - apply not_elem_of_cons in Hd as [Hc Hd]. rewrite IH by done. by rewrite bool_decide_false by congruence.
Qed.

Lemma fields_last l : d ∉ l -> l <> [] -> fields d l = [l].
Proof using.
  induction l as [|c l IH]; intros Hd Hl; [done|]. apply not_elem_of_cons in Hd as [Hc Hd]. cbn.
  rewrite bool_decide_false by congruence. destruct l as [|e l]; [done|]. by rewrite IH.
Qed.

(** A first piece and the rest, as the code splits them *)
Lemma split_cases l : l = [] \/ exists l1 l2, split_at_delimiter d l = Some (l1, l2) /\ fields d l = l1 :: fields d l2 /\
  d ∉ l1 /\ (l = l1 ++ d :: l2 \/ (l = l1 /\ l2 = [])) /\ (length l2 < length l)%nat.
Proof using.
  destruct (decide (l = [])) as [->|Hne]; [by left|right]. destruct (decide (d ∈ l)) as [Hin|Hni].
  - apply list_elem_of_split_l in Hin as (l1 & l2 & -> & Hni). exists l1, l2.
    rewrite split_at_delimiter_found, fields_found by done. split_and!; try done; [by left|]. rewrite length_app. cbn. lia.
  - exists l, []. rewrite split_at_delimiter_last, fields_last by done. split_and!; try done; [by right|].
    destruct l; [done|cbn; lia].
Qed.

Lemma fields_free l : Forall (fun f => d ∉ f) (fields d l).
Proof using.
  induction l as [|c l IH]; cbn; [constructor|]. case_bool_decide as Hc; [constructor; [apply not_elem_of_nil|done]|].
  destruct (fields d l) as [|f fs]; [repeat constructor; set_solver|]. apply Forall_cons in IH as [Hf Hfs].
  constructor; [set_solver|done].
Qed.

(** Joining pieces and splitting them again, when the last is not empty *)
Fixpoint join (fs : list bytes) : bytes :=
  match fs with
  | [] => []
  | [f] => f
  | f :: fs' => f ++ d :: join fs'
  end.

Lemma fields_join fs : Forall (fun f => d ∉ f) fs -> last fs <> Some [] -> fields d (join fs) = fs.
Proof using.
  induction fs as [|f fs IH]; intros Hd Hl; [done|]. apply Forall_cons in Hd as [Hf Hd]. destruct fs as [|g fs].
  - cbn. apply fields_last; [done|]. intros ->. by apply Hl.
  - change (join (f :: g :: fs)) with (f ++ d :: join (g :: fs)). rewrite fields_found by done. f_equal. by apply IH.
Qed.
End split.

Lemma fields_valid d l : is_ascii d = true -> valid_utf8 l -> Forall valid_utf8 (fields d l).
Proof.
  intros Ha. remember (length l) as n eqn:En. assert (Hn : (length l <= n)%nat) by lia. clear En. revert l Hn.
  induction n as [|n IH]; intros l Hn Hl; [destruct l; [constructor|cbn in Hn; lia]|].
  destruct (@split_cases memchr_ref d l) as [->|(l1 & l2 & _ & -> & _ & Hsp & Hlen)]; [constructor|].
  destruct Hsp as [->|[-> ->]]; [|by repeat constructor]. apply valid_split_ascii in Hl as [H1 H2]; [|done].
  constructor; [done|]. apply IH; [lia|done].
Qed.

(** ** Cutting a tag *)

Lemma boundary_byte c : (-0x40 <=? as_i8 c) = negb (is_cont c).
Proof. by destruct c. Qed.

Lemma rposition_Some {A} (p : A -> bool) l i : rposition p l = Some i ->
  (exists x, l !! i = Some x /\ p x = true) /\ forall j x, (i < j)%nat -> l !! j = Some x -> p x = false.
Proof.
  revert i. induction l as [|x l IH]; intros i; cbn; [done|]. destruct (rposition p l) as [k|] eqn:E.
  - intros [= <-]. destruct (IH k eq_refl) as [Hk Ha]. split; [done|]. intros [|j] y Hj Hy; [lia|]. apply (Ha j); [lia|done].
  - destruct (p x) eqn:Ep; intros [= <-]. split; [by exists x|]. intros [|j] y Hj Hy; [lia|]. clear IH. cbn in Hy.
    revert j Hy Hj E. induction l as [|z l IH]; intros j Hy Hj E; [done|]. cbn in E.
    destruct (rposition p l) eqn:E2; [done|]. destruct (p z) eqn:Ez; [done|]. destruct j as [|j]; [by simplify_eq/=|].
    apply (IH j); [done|lia|done].
Qed.

Lemma rposition_None {A} (p : A -> bool) l : rposition p l = None -> Forall (fun x => p x = false) l.
Proof.
  induction l as [|x l IH]; cbn; [constructor|]. destruct (rposition p l); [done|]. destruct (p x) eqn:E; [done|].
  intros _. constructor; [done|by apply IH].
Qed.

Lemma valid_app_inv u w : valid_utf8 u -> valid_utf8 (u ++ w) -> valid_utf8 w.
Proof.
  intros Hu. revert w. induction Hu as [|c u Hc Hu IH] using valid_ind; intros w Hw; [done|]. apply IH.
  rewrite <- app_assoc in Hw. destruct Hw as ([|c' cs] & Hcs & E).
  { apply is_char_nonempty in Hc. by destruct c. }
  apply Forall_cons in Hcs as [Hc' Hcs]. cbn in E. pose proof (is_char_app c (u ++ w) Hc) as E1.
  rewrite E, (is_char_app c' _ Hc') in E1. simplify_eq. apply app_inj_1 in E as [-> ->]; [by exists cs|done].
Qed.

(** After a valid prefix of a valid string a character starts. *)
Lemma valid_prefix_boundary u s c : valid_utf8 s -> u `prefix_of` s -> valid_utf8 u -> s !! length u = Some c -> is_cont c = false.
Proof.
  intros Hs [w ->] Hu Hc. apply valid_app_inv in Hs; [|done]. rewrite lookup_app_r, Nat.sub_diag in Hc by lia.
  destruct Hs as ([|ch cs] & Hcs & ->); [done|]. apply Forall_cons in Hcs as [Hch _].
  destruct (is_char_inv ch Hch) as (h & t & -> & Hh & _). cbn in Hc. by simplify_eq.
Qed.

Section limit.
Context (s : bytes) (limit : Z) (Hs : valid_utf8 s) (Hl : 0 <= limit).

Lemma window_lookup_tags start j : (start <= Z.to_nat limit)%nat -> (start + j <= Z.to_nat limit)%nat ->
  drop start (take (Z.to_nat limit + 1) s) !! j = s !! (start + j)%nat.
Proof using. intros H1 H2. rewrite lookup_drop. apply lookup_take_lt. lia. Qed.

(** A tag over the limit is cut at the last boundary within it. *)
Lemma limit_cut : limit < length s -> exists i, limit_str_to_len s limit = Some (take i s) /\ (i <= Z.to_nat limit)%nat /\
  (forall c, s !! i = Some c -> is_cont c = false) /\
  (forall j c, (i < j)%nat -> (j <= Z.to_nat limit)%nat -> s !! j = Some c -> is_cont c = true).
Proof using All.
  intros Hlt. unfold limit_str_to_len. rewrite (proj2 (Z.leb_gt _ _)) by lia.
  set (start := Z.to_nat (saturating_sub limit 3)).
  assert (Hst : start = (Z.to_nat limit - 3)%nat) by (unfold start, saturating_sub; lia).
  destruct (rposition _ _) as [i|] eqn:Er; cbn [mbind option_bind].
  - apply rposition_Some in Er as [(x & Hx & Hp) Hafter]. rewrite boundary_byte in Hp. apply negb_true_iff in Hp.
    assert (Hi : (start + i <= Z.to_nat limit)%nat).
    { apply lookup_lt_Some in Hx. rewrite length_drop, length_take in Hx. lia. }
    rewrite window_lookup_tags in Hx by lia. exists (start + i)%nat. split_and!; [done|done|by intros c Hc; simplify_eq|].
    intros j c Hj Hjl Hc. specialize (Hafter (j - start)%nat c ltac:(lia)). rewrite window_lookup_tags in Hafter by lia.
    replace (start + (j - start))%nat with j in Hafter by lia. specialize (Hafter Hc). rewrite boundary_byte in Hafter.
    by apply negb_false_iff in Hafter.
  - exfalso. apply rposition_None in Er.
    destruct (valid_near s (Z.to_nat limit) Hs) as (j & c & Hj & Hc & Hnc); [lia|].
    assert (Hw : drop start (take (Z.to_nat limit + 1) s) !! (j - start)%nat = Some c).
    { rewrite window_lookup_tags by lia. by replace (start + (j - start))%nat with j by lia. }
    apply (Forall_lookup_1 _ _ _ _ Er) in Hw. rewrite boundary_byte, Hnc in Hw. done.
Qed.

Lemma limit_spec : exists t, limit_str_to_len s limit = Some t /\ longest_prefix limit s t.
Proof using All.
  destruct (Z.le_gt_cases (length s) limit) as [Hle|Hgt].
  - exists s. unfold limit_str_to_len. rewrite (proj2 (Z.leb_le _ _)) by done. split; [done|]. split; try done.
    intros u Hu _ _. apply prefix_length in Hu. lia.
  - destruct (limit_cut Hgt) as (i & -> & Hi & Hb & Hafter). exists (take i s). split; [done|].
    destruct (valid_boundary s i Hs ltac:(lia) Hb) as [Hv _]. split; [apply prefix_take|done|rewrite length_take; lia|].
    intros u Hu Huv Hul. rewrite length_take, Nat.min_l by lia. destruct (decide (length u <= i)%nat); [lia|]. exfalso.
    destruct (lookup_lt_is_Some_2 s (length u)) as [c Hc]; [lia|].
    pose proof (valid_prefix_boundary _ _ _ Hs Hu Huv Hc) as H1. rewrite (Hafter (length u) c) in H1 by (done || lia). done.
Qed.
End limit.

(** ** Reading the tags *)

Section iteration.
Context `{Memchr}.

Lemma collect_tags_spec fuel raw parsed len count : valid_utf8 raw -> (length raw < fuel)%nat ->
  0 <= len -> 0 <= parsed -> parsed + length raw < u64_max ->
  exists ts, collect_tags fuel {| it_raw := raw; parsed_tags := parsed; it_max_len := len; it_max_count := count |} = Some ts /\
    Forall2 (longest_prefix len) (take (Z.to_nat (count - parsed)) (fields comma raw)) ts.
Proof.
  revert raw parsed. induction fuel as [|fuel IH]; intros raw parsed Hv Hf Hl Hp Hb; [lia|].
  cbn [collect_tags]. unfold RawTagsIter_next. cbn [it_raw parsed_tags it_max_len it_max_count].
  destruct (split_cases comma raw) as [->|(l1 & l2 & -> & -> & _ & Hsp & Hlen)].
  { rewrite split_at_delimiter_nil. cbn. exists []. split; [done|]. by rewrite take_nil. }
  assert (Hv12 : valid_utf8 l1 /\ valid_utf8 l2).
  { destruct Hsp as [->|[-> ->]]; [by apply valid_split_ascii in Hv|]. split; [done|apply valid_nil]. }
  destruct Hv12 as [Hv1 Hv2]. destruct (Z.leb_spec count parsed) as [Hc|Hc].
  { exists []. split; [done|]. by replace (Z.to_nat (count - parsed)) with O by lia. }
  destruct (limit_spec l1 len Hv1 Hl) as (t & -> & Ht). cbn [mbind option_bind it_raw parsed_tags it_max_len it_max_count].
  rewrite wrapping_add_exact by (unfold in_range, umax in *; lia).
  destruct (IH l2 (parsed + 1)) as (ts & -> & Hts); [done|lia|done|lia|lia|]. exists (t :: ts). split; [done|].
  replace (Z.to_nat (count - parsed)) with (S (Z.to_nat (count - (parsed + 1)))) by lia. by constructor.
Qed.

(** Reading the tags of a packet is well-defined and bounded: on any UTF-8 tag block the unchecked
    operations that cut a tag at its length limit never go wrong, and the tags read are, in order, the
    first [max_tag_count] pieces between the commas, each cut to its longest prefix of whole
    characters of at most [max_tag_len] bytes. *)
Theorem raw_tags_read (t : RawTags) : valid_utf8 (raw_tags t) -> 0 <= max_tag_len t -> length (raw_tags t) < u64_max ->
  exists ts, tags_of t = Some ts /\
    Forall2 (longest_prefix (max_tag_len t)) (take (Z.to_nat (max_tag_count t)) (fields comma (raw_tags t))) ts.
Proof.
  intros Hv Hl Hb. unfold tags_of, RawTags_iter.
  destruct (collect_tags_spec (S (length (raw_tags t))) (raw_tags t) 0 (max_tag_len t) (max_tag_count t)) as (ts & -> & Hts);
    [done|lia|done|lia|lia|]. exists ts. split; [done|]. by rewrite Z.sub_0_r in Hts.
Qed.

End iteration.

#[local] Existing Instance memchr_ref.

Lemma raw_tags_read_witness : exists ts, tags_of (RawTags_new (b "env:é,x") 1 5) = Some ts /\ length ts = 1%nat.
Proof.
  destruct (raw_tags_read (RawTags_new (b "env:é,x") 1 5)) as (ts & Hts & H2).
  - apply is_utf8_spec. reflexivity.
  - cbn. lia.
  - vm_compute. done.
  - exists ts. split; [exact Hts|]. apply Forall2_length in H2. rewrite <- H2. reflexivity.
Defined.

(** The two bytes of the last character do not fit: *)
Example cut_inside_a_character : limit_str_to_len (b "env:é") 5 = Some (b "env:").
Proof. reflexivity. Qed.
