(* ===== verification/FloatText.v ===== *)
(** * FloatText: reading numbers

    The standard library's [str::parse::<f64>], which rounds the decimal number it reads to the
    nearest double, and the decimal integers of the wire formats.  The grammar is the documented one:
    an optional sign, then digits with an optional fraction and exponent, or [inf], [infinity] or
    [nan] in any case. *)

From Stdlib Require Import ZArith Lia Strings.String Floats.SpecFloat.
From stdpp Require Import base tactics list numbers option gmap.
From S2P Require Import Prelude Bytes Utf8 Float64.
Open Scope Z_scope.

#[local] Coercion Z.of_nat : nat >-> Z.

(** ** Digits *)

Definition digit_value (c : byte) : Z := byte_Z c - 48.

(** The digits in front, and the rest *)
Fixpoint span_digits (l : bytes) : bytes * bytes :=
  match l with
  | c :: l' => if is_ascii_digit c then let '(ds, r) := span_digits l' in (c :: ds, r) else ([], l)
  | [] => ([], [])
  end.

Definition digits_value (ds : bytes) : Z := fold_left (fun n c => 10 * n + digit_value c) ds 0.

(** ** Decimal numbers *)

(** [m * 10^e], rounded to nearest with ties to even *)
Definition decimal_to_f64 (neg : bool) (m e : Z) : f64 :=
  if m =? 0 then S754_zero neg
  else if 0 <=? e then binary_normalize prec emax (if neg then - (m * 10 ^ e) else m * 10 ^ e) 0 neg
  else
    let '(q, ex, loc) := SFdiv_core_binary prec emax m 0 (10 ^ (- e)) 0 in
    binary_round_aux prec emax neg q ex loc.

Definition is_byte (z : Z) (c : byte) : bool := byte_Z c =? z.

(** An optional sign, and whether it is negative *)
Definition take_sign (l : bytes) : bool * bytes :=
  match l with
  | c :: l' => if is_byte 45 c then (true, l') else if is_byte 43 c then (false, l') else (false, l)
  | [] => (false, [])
  end.

(** The exponent behind an [e], or none; [None] when there is something else *)
Definition parse_exponent (l : bytes) : option Z :=
  match l with
  | [] => Some 0
  | c :: l' =>
      if is_byte 101 c || is_byte 69 c then
        let '(neg, r) := take_sign l' in
        let '(ds, r) := span_digits r in
        match ds, r with
        | _ :: _, [] => Some (if neg : bool then - digits_value ds else digits_value ds)
        | _, _ => None
        end
      else None
  end.

(** [Digit+ | Digit+ '.' Digit* | Digit* '.' Digit+], and an exponent *)
Definition parse_number (neg : bool) (l : bytes) : option f64 :=
  let '(ip, r) := span_digits l in
  let '(fp, r) := match r with
                  | c :: r' => if is_byte 46 c then span_digits r' else ([], r)
                  | [] => ([], [])
                  end in
  match ip ++ fp with
  | [] => None
  | ds => e ← parse_exponent r; Some (decimal_to_f64 neg (digits_value ds) (e - length fp))
  end.

Definition to_ascii_lowercase (c : byte) : byte := if is_ascii_uppercase c then Z_byte (byte_Z c + 32) else c.
Definition eq_ignore_ascii_case (l1 l2 : bytes) : bool :=
  bool_decide (to_ascii_lowercase <$> l1 = to_ascii_lowercase <$> l2).

Definition parse_inf_nan (neg : bool) (l : bytes) : option f64 :=
  if eq_ignore_ascii_case l (b "inf") || eq_ignore_ascii_case l (b "infinity") then Some (S754_infinity neg)
  else if eq_ignore_ascii_case l (b "nan") then Some S754_nan
  else None.

(** A number without the exceptions *)
Definition parse_decimal (l : bytes) : option f64 := let '(neg, r) := take_sign l in parse_number neg r.

(** [l.parse::<f64>()] *)
Definition parse_f64 (l : bytes) : option f64 :=
  match parse_decimal l with
  | Some x => Some x
  | None => let '(neg, r) := take_sign l in parse_inf_nan neg r
  end.

Definition is_finite (x : f64) : bool := negb (is_nan x) && negb (is_infinite x).

(** ** Printing integers *)

Fixpoint show_digits (fuel : nat) (n : Z) : bytes :=
  match fuel with
  | O => []
  | S fuel => (if n <? 10 then [] else show_digits fuel (n / 10)) ++ [Z_byte (48 + n mod 10)]
  end.

(** The decimal text of a natural number *)
Definition show_Z (n : Z) : bytes := show_digits (S (Z.to_nat (Z.log2 n))) n.

(** ** Lemmas *)

Lemma span_digits_spec l ds r : span_digits l = (ds, r) ->
  l = ds ++ r /\ Forall (fun c => is_ascii_digit c = true) ds /\ match r with c :: _ => is_ascii_digit c = false | [] => True end.
Proof.
  revert ds r. induction l as [|c l IH]; intros ds r; cbn; [by intros [= <- <-]|].
  destruct (is_ascii_digit c) eqn:E.
  - destruct (span_digits l) as [ds' r'] eqn:Es. intros [= <- <-]. destruct (IH _ _ eq_refl) as (-> & H1 & H2).
    split_and!; [done|by constructor|done].
  - by intros [= <- <-].
Qed.

Lemma span_digits_app ds r : Forall (fun c => is_ascii_digit c = true) ds ->
  match r with c :: _ => is_ascii_digit c = false | [] => True end -> span_digits (ds ++ r) = (ds, r).
Proof.
  induction 1 as [|c ds Hc _ IH]; intros Hr; cbn.
  - destruct r as [|c r]; [done|]. cbn. by rewrite Hr.
  - by rewrite Hc, IH.
Qed.

Lemma digits_value_app ds c : digits_value (ds ++ [c]) = 10 * digits_value ds + digit_value c.
Proof. unfold digits_value. by rewrite fold_left_app. Qed.

Lemma digit_byte n : 0 <= n < 10 -> is_ascii_digit (Z_byte (48 + n)) = true /\ digit_value (Z_byte (48 + n)) = n.
Proof.
  intros Hn. unfold digit_value. rewrite byte_Z_Z_byte, Z.mod_small by lia. split; [|lia].
  apply byte_in_spec. rewrite byte_Z_Z_byte, Z.mod_small; lia.
Qed.

Lemma show_digits_spec fuel n : 0 <= n < 2 ^ Z.of_nat fuel -> (0 < fuel)%nat ->
  digits_value (show_digits fuel n) = n /\ Forall (fun c => is_ascii_digit c = true) (show_digits fuel n) /\ show_digits fuel n <> [].
Proof.
  revert n. induction fuel as [|fuel IH]; intros n Hn Hf; [lia|]. cbn [show_digits].
  assert (Hm : 0 <= n mod 10 < 10) by (apply Z.mod_pos_bound; lia). destruct (digit_byte _ Hm) as [Hd Hv].
  rewrite digits_value_app, Hv. destruct (Z.ltb_spec n 10) as [Hlt|Hge].
  - rewrite Z.mod_small in * by lia. split_and!; [done|by repeat constructor|done].
  - pose proof (Z.div_mod n 10 ltac:(lia)) as Hdm.
    assert (Hq : 0 <= n / 10 < 2 ^ fuel).
    { split; [apply Z.div_pos; lia|]. apply Z.div_lt_upper_bound; [lia|]. rewrite Nat2Z.inj_succ, Z.pow_succ_r in Hn by lia. lia. }
    assert (Hfuel : (0 < fuel)%nat) by (destruct fuel; [change (2 ^ Z.of_nat 0) with 1 in Hq; lia|lia]).
    destruct (IH _ Hq Hfuel) as (H1 & H2 & H3). rewrite H1. split_and!; [lia|apply Forall_app; by split; [|repeat constructor]|].
    by destruct (show_digits fuel (n / 10)).
Qed.

Lemma show_Z_spec n : 0 <= n -> digits_value (show_Z n) = n /\ Forall (fun c => is_ascii_digit c = true) (show_Z n) /\ show_Z n <> [].
Proof.
  intros Hn. apply show_digits_spec; [|lia]. rewrite Nat2Z.inj_succ, Z2Nat.id by apply Z.log2_nonneg.
  destruct (decide (n = 0)) as [->|]; [done|]. split; [done|]. apply Z.log2_spec. lia.
Qed.

(** Whole numbers are read exactly as the language converts them. *)
Lemma parse_f64_integer n : 0 < n -> parse_f64 (show_Z n) = Some (f64_of_Z n).
Proof.
  intros Hn. destruct (show_Z_spec n ltac:(lia)) as (Hv & Hd & Hne). unfold parse_f64, parse_decimal.
  assert (Hs : take_sign (show_Z n) = (false, show_Z n)).
  { destruct (show_Z n) as [|c l]; [done|]. apply Forall_cons in Hd as [Hc _]. apply byte_in_spec in Hc. unfold take_sign, is_byte.
    by rewrite !(proj2 (Z.eqb_neq _ _)) by lia. }
  rewrite Hs. unfold parse_number. pose proof (span_digits_app (show_Z n) [] Hd I) as E. rewrite app_nil_r in E. rewrite E.
  rewrite app_nil_r. destruct (show_Z n) as [|c l] eqn:El; [done|]. cbn [parse_exponent mbind option_bind]. rewrite Hv.
  unfold decimal_to_f64. rewrite (proj2 (Z.eqb_neq n 0)) by lia. cbn. by rewrite Z.mul_1_r.
Qed.

Example parse_f64_examples :
  parse_f64 (b "1.5") = Some (f64_div (f64_of_Z 3) (f64_of_Z 2)) /\ parse_f64 (b "-.5e1") = Some (f64_of_Z (-5)) /\
  parse_f64 (b "0.1") = Some (f64_div (f64_of_Z 1) (f64_of_Z 10)) /\ parse_f64 (b "1e999") = Some (S754_infinity false) /\
  parse_f64 (b "+NaN") = Some S754_nan /\ parse_f64 (b "") = None /\ parse_f64 (b ".") = None /\ parse_f64 (b "1e") = None.
Proof. vm_compute. done. Qed.
