(* ===== verification/Nom.v ===== *)
(** * Nom: the parser combinators the DogStatsD codec is written with

    [nom] and [simdutf8] are crates of their own: the codec is verified against the classes of this
    file, which have the combinators it uses and their documented behaviour on complete input.  A
    parser takes the input and returns the rest of it with a value, or an error; the laws say when a
    parser succeeds and with what, and leave the error values open.  [nom_ref] is a collection of
    parsers that satisfies them. *)

From Stdlib Require Import ZArith Lia Floats.SpecFloat.
From stdpp Require Import base tactics list numbers option gmap.
From S2P Require Import Prelude Bytes Utf8 Float64 FloatText.
Open Scope Z_scope.

#[local] Coercion Z.of_nat : nat >-> Z.

(** [nom::Err::Error(Error { input, code })] *)
Record NomError (K : Type) := { err_input : bytes; err_code : K }.
Arguments err_input {K}. Arguments err_code {K}.
Arguments Build_NomError {K}.

Definition parsed {E A} (r : result E A) : option A := match r with Ok a => Some a | Err _ => None end.

(** The longest prefix whose bytes satisfy [p], and the rest *)
Fixpoint span (p : byte -> bool) (l : bytes) : bytes * bytes :=
  match l with
  | c :: l' => if p c then let '(x, r) := span p l' in (c :: x, r) else ([], l)
  | [] => ([], [])
  end.

Definition starts_with (l p : bytes) : bool := bool_decide (p `prefix_of` l).

Class Nom := {
  ErrorKind : Type;
  Verify : ErrorKind;
  Float : ErrorKind;
  IResult := fun A : Type => result (NomError ErrorKind) (bytes * A);

  tag : bytes -> bytes -> IResult bytes;
  take_while1 : (byte -> bool) -> bytes -> IResult bytes;
  take_n : Z -> bytes -> IResult bytes;
  rest : bytes -> IResult bytes;
  parse_uint : Z -> bytes -> IResult Z;
  double : bytes -> IResult f64;
  map_p : forall A B, (bytes -> IResult A) -> (A -> B) -> bytes -> IResult B;
  map_res : forall A B E, (bytes -> IResult A) -> (A -> result E B) -> bytes -> IResult B;
  preceded : forall A B, (bytes -> IResult A) -> (bytes -> IResult B) -> bytes -> IResult B;
  terminated : forall A B, (bytes -> IResult A) -> (bytes -> IResult B) -> bytes -> IResult A;
  separated_pair : forall A B C, (bytes -> IResult A) -> (bytes -> IResult B) -> (bytes -> IResult C) -> bytes -> IResult (A * C);
  delimited : forall A B C, (bytes -> IResult A) -> (bytes -> IResult B) -> (bytes -> IResult C) -> bytes -> IResult B;
  alt : forall A, list (bytes -> IResult A) -> bytes -> IResult A;
  all_consuming : forall A, (bytes -> IResult A) -> bytes -> IResult A;
}.
Arguments map_p {_ A B}. Arguments map_res {_ A B E}. Arguments preceded {_ A B}. Arguments terminated {_ A B}.
Arguments separated_pair {_ A B C}. Arguments delimited {_ A B C}. Arguments alt {_ A}. Arguments all_consuming {_ A}.

Class NomLaws `{Nom} := {
  tag_spec : forall t i, parsed (tag t i) = if starts_with i t then Some (drop (length t) i, t) else None;
  take_while1_spec : forall p i, parsed (take_while1 p i) =
    let '(x, r) := span p i in match x with [] => None | _ => Some (r, x) end;
  take_n_spec : forall n i, parsed (take_n n i) =
    if n <=? length i then Some (drop (Z.to_nat n) i, take (Z.to_nat n) i) else None;
  rest_spec : forall i, parsed (rest i) = Some ([], i);
  parse_uint_spec : forall w i, parsed (parse_uint w i) =
    let '(ds, r) := span_digits i in
    match ds with [] => None | _ => if digits_value ds <=? umax w then Some (r, digits_value ds) else None end;
  (* A decimal number that is all of the input is read as the standard library reads it. *)
  double_spec : forall i x, parse_decimal i = Some x -> parsed (double i) = Some ([], x);
  map_p_spec : forall A B (f : bytes -> IResult A) (g : A -> B) i,
    parsed (map_p f g i) = '(r, a) ← parsed (f i); Some (r, g a);
  map_res_spec : forall A B E (f : bytes -> IResult A) (g : A -> result E B) i,
    parsed (map_res f g i) = '(r, a) ← parsed (f i); c ← parsed (g a); Some (r, c);
  preceded_spec : forall A B (f : bytes -> IResult A) (g : bytes -> IResult B) i,
    parsed (preceded f g i) = '(r, _) ← parsed (f i); parsed (g r);
  terminated_spec : forall A B (f : bytes -> IResult A) (g : bytes -> IResult B) i,
    parsed (terminated f g i) = '(r, a) ← parsed (f i); '(r, _) ← parsed (g r); Some (r, a);
  separated_pair_spec : forall A B C (f : bytes -> IResult A) (s : bytes -> IResult B) (g : bytes -> IResult C) i,
    parsed (separated_pair f s g i) =
    '(r, a) ← parsed (f i); '(r, _) ← parsed (s r); '(r, c) ← parsed (g r); Some (r, (a, c));
  delimited_spec : forall A B C (f : bytes -> IResult A) (g : bytes -> IResult B) (h : bytes -> IResult C) i,
    parsed (delimited f g h i) = '(r, _) ← parsed (f i); '(r, a) ← parsed (g r); '(r, _) ← parsed (h r); Some (r, a);
  alt_nil_spec : forall A i, parsed (alt (A := A) [] i) = None;
  alt_cons_spec : forall A (f : bytes -> IResult A) fs i,
    parsed (alt (f :: fs) i) = match parsed (f i) with Some x => Some x | None => parsed (alt fs i) end;
  all_consuming_spec : forall A (f : bytes -> IResult A) i,
    parsed (all_consuming f i) = match parsed (f i) with Some ([], a) => Some ([], a) | _ => None end;
}.

(** [simdutf8::basic::from_utf8] accepts what the standard library accepts. *)
Class Simdutf8 := {
  simd_from_utf8 : bytes -> bool;
  simd_from_utf8_spec : forall l, simd_from_utf8 l = is_utf8 l;
}.

(** ** Lemmas *)

Lemma parsed_bind {E A B} (r : result E A) (f : A -> result E B) :
  parsed (mbind (M := result E) f r) = parsed r ≫= (fun a => parsed (f a)).
Proof. by destruct r. Qed.

Lemma span_spec p l x r : span p l = (x, r) ->
  l = x ++ r /\ Forall (fun c => p c = true) x /\ match r with c :: _ => p c = false | [] => True end.
Proof.
  revert x r. induction l as [|c l IH]; intros x r; cbn; [by intros [= <- <-]|]. destruct (p c) eqn:E.
  - destruct (span p l) as [x' r'] eqn:Es. intros [= <- <-]. destruct (IH _ _ eq_refl) as (-> & H1 & H2).
    split_and!; [done|by constructor|done].
  - by intros [= <- <-].
Qed.

Lemma span_app p x r : Forall (fun c => p c = true) x -> match r with c :: _ => p c = false | [] => True end ->
  span p (x ++ r) = (x, r).
Proof.
  induction 1 as [|c x Hc _ IH]; intros Hr; cbn.
  - destruct r as [|c r]; [done|]. cbn. by rewrite Hr.
  - by rewrite Hc, IH.
Qed.

Lemma span_all p x : Forall (fun c => p c = true) x -> span p x = (x, []).
Proof. intros Hx. rewrite <- (app_nil_r x) at 1. by apply span_app. Qed.

Lemma starts_with_app p r : starts_with (p ++ r) p = true.
Proof. apply bool_decide_eq_true. by apply prefix_app_r. Qed.

Section laws.
Context `{NomLaws}.

Lemma tag_app t r : parsed (tag t (t ++ r)) = Some (r, t).
Proof. by rewrite tag_spec, starts_with_app, drop_app_length. Qed.

Lemma take_while1_app p x r : x <> [] -> Forall (fun c => p c = true) x ->
  match r with c :: _ => p c = false | [] => True end -> parsed (take_while1 p (x ++ r)) = Some (r, x).
Proof. intros Hx Hp Hr. rewrite take_while1_spec, span_app by done. by destruct x. Qed.

Lemma parse_uint_app w n r : 0 <= n <= umax w -> match r with c :: _ => is_ascii_digit c = false | [] => True end ->
  parsed (parse_uint w (show_Z n ++ r)) = Some (r, n).
Proof.
  intros Hn Hr. destruct (show_Z_spec n ltac:(lia)) as (Hv & Hd & Hne). rewrite parse_uint_spec, span_digits_app by done.
  rewrite Hv. destruct (show_Z n); [done|]. by rewrite (proj2 (Z.leb_le _ _)) by lia.
Qed.
End laws.

(** ** Parsers that satisfy the laws *)

Definition of_option {K A} (i : bytes) (k : K) (o : option A) : result (NomError K) A :=
  match o with Some a => Ok a | None => Err {| err_input := i; err_code := k |} end.

Definition then_ {K A B} (x : result (NomError K) (bytes * A)) (f : bytes -> A -> result (NomError K) (bytes * B)) :
    result (NomError K) (bytes * B) :=
  match x with Ok (r, a) => f r a | Err e => Err e end.

Definition nom_ref : Nom := {|
  ErrorKind := nat; Verify := 0%nat; Float := 1%nat;
  tag t i := of_option i 2%nat (if starts_with i t then Some (drop (length t) i, t) else None);
  take_while1 p i := of_option i 3%nat (let '(x, r) := span p i in match x with [] => None | _ => Some (r, x) end);
  take_n n i := of_option i 4%nat (if n <=? length i then Some (drop (Z.to_nat n) i, take (Z.to_nat n) i) else None);
  rest i := Ok ([], i);
  parse_uint w i := of_option i 5%nat
    (let '(ds, r) := span_digits i in
     match ds with [] => None | _ => if digits_value ds <=? umax w then Some (r, digits_value ds) else None end);
  double i := of_option i 1%nat (x ← parse_decimal i; Some ([], x));
  map_p A B f g i := then_ (f i) (fun r a => Ok (r, g a));
  map_res A B E f g i := then_ (f i) (fun r a =>
    match g a with Ok c => Ok (r, c) | Err _ => Err {| err_input := i; err_code := 6%nat |} end);
  preceded A B f g i := then_ (f i) (fun r _ => g r);
  terminated A B f g i := then_ (f i) (fun r a => then_ (g r) (fun r _ => Ok (r, a)));
  separated_pair A B C f s g i := then_ (f i) (fun r a => then_ (s r) (fun r _ => then_ (g r) (fun r c => Ok (r, (a, c)))));
  delimited A B C f g h i := then_ (f i) (fun r _ => then_ (g r) (fun r a => then_ (h r) (fun r _ => Ok (r, a))));
  alt A fs i := foldr (fun f x => match f i with Ok a => Ok a | Err _ => x end) (Err {| err_input := i; err_code := 7%nat |}) fs;
  all_consuming A f i := then_ (f i) (fun r a => match r with [] => Ok (r, a) | _ => Err {| err_input := r; err_code := 8%nat |} end);
|}.

Lemma parsed_of_option {K A} i (k : K) (o : option A) : parsed (of_option i k o) = o.
Proof. by destruct o. Qed.

Lemma nom_ref_laws : @NomLaws nom_ref.
Proof.
  split; intros; cbn; rewrite ?parsed_of_option; try done.
  - rewrite H. done.
  - by destruct (f i) as [[r a]|].
  - destruct (f i) as [[r a]|]; cbn; [|done]. by destruct (g a).
  - by destruct (f i) as [[r a]|].
  - destruct (f i) as [[r a]|]; cbn; [|done]. by destruct (g r) as [[]|].
  - destruct (f i) as [[r a]|]; cbn; [|done]. destruct (s r) as [[r' ?]|]; cbn; [|done]. by destruct (g r') as [[]|].
  - destruct (f i) as [[r a]|]; cbn; [|done]. destruct (g r) as [[r' ?]|]; cbn; [|done]. by destruct (h r') as [[]|].
  - by destruct (f i).
  - destruct (f i) as [[[|] a]|]; done.
Qed.

Definition simdutf8_ref : Simdutf8 := {| simd_from_utf8 := is_utf8; simd_from_utf8_spec := fun l => eq_refl |}.
