(* ===== verification/DogStatsD.v ===== *)
(** * DogStatsD: the codec of the DogStatsD protocol

    Models [lib/saluki-io/src/deser/codec/dogstatsd/]: the parsers for metrics, events and service
    checks, their helpers and the dispatch between them, and the enumerations of
    [lib/saluki-core/src/data_model/] they produce.  Text is a byte string; a reference into the
    packet is the bytes it refers to.  Logging and the assertions for fault injection are left out.

    This file holds the data and the functions; the theorems are in [DogStatsDText] and
    [DogStatsDPackets]. *)

From Stdlib Require Import ZArith Lia Strings.String Floats.SpecFloat.
From stdpp Require Import base tactics list numbers option gmap strings.
From S2P Require Import Prelude Bytes Utf8 Float64 FloatText Nom RawTags MetricValues.
Open Scope Z_scope.

#[local] Coercion Z.of_nat : nat >-> Z.

(** ** Enumerations of the data model *)

Inductive OriginTagCardinality := CardNone | CardLow | CardOrchestrator | CardHigh.

Definition OriginTagCardinality_try_from (value : bytes) : option OriginTagCardinality :=
  if bool_decide (value = b "none") then Some CardNone
  else if bool_decide (value = b "low") then Some CardLow
  else if bool_decide (value = b "high") then Some CardHigh
  else if bool_decide (value = b "orch") || bool_decide (value = b "orchestrator") then Some CardOrchestrator
  else if eq_ignore_ascii_case value (b "none") then Some CardNone
  else if eq_ignore_ascii_case value (b "low") then Some CardLow
  else if eq_ignore_ascii_case value (b "high") then Some CardHigh
  else if eq_ignore_ascii_case value (b "orch") || eq_ignore_ascii_case value (b "orchestrator")
  then Some CardOrchestrator
  else None.

Inductive AlertType := AlertInfo | AlertError | AlertWarning | AlertSuccess.

Definition AlertType_try_from_string (alert_type : bytes) : option AlertType :=
  if bool_decide (alert_type = b "error") then Some AlertError
  else if bool_decide (alert_type = b "warning") then Some AlertWarning
  else if bool_decide (alert_type = b "success") then Some AlertSuccess
  else Some AlertInfo.

Inductive Priority := PriorityNormal | PriorityLow.

Definition Priority_try_from_string (priority : bytes) : option Priority :=
  if bool_decide (priority = b "low") then Some PriorityLow else Some PriorityNormal.

Inductive CheckStatus := StatusOk | StatusWarning | StatusCritical | StatusUnknown.

Definition CheckStatus_try_from (value : Z) : option CheckStatus :=
  if value =? 0 then Some StatusOk
  else if value =? 1 then Some StatusWarning
  else if value =? 2 then Some StatusCritical
  else if value =? 3 then Some StatusUnknown
  else None.

(** ** Configuration and message types *)

Record DogStatsDCodecConfiguration := {
  permissive : bool;
  maximum_tag_length : Z;
  maximum_tag_count : Z;
  timestamps : bool;
  minimum_sample_rate : f64;
  client_origin_detection : bool;
}.

Definition MINIMUM_SAFE_DEFAULT_SAMPLE_RATE : f64 := decimal_to_f64 false 3845 (-12).

Definition default_configuration : DogStatsDCodecConfiguration :=
  {| permissive := false; maximum_tag_length := u64_max; maximum_tag_count := u64_max; timestamps := true;
     minimum_sample_rate := MINIMUM_SAFE_DEFAULT_SAMPLE_RATE; client_origin_detection := false |}.

Inductive MessageType := MetricSample | Event | ServiceCheck.

Definition EVENT_PREFIX : bytes := b "_e{".
Definition SERVICE_CHECK_PREFIX : bytes := b "_sc|".
Definition TIMESTAMP_PREFIX : bytes := b "d:".
Definition HOSTNAME_PREFIX : bytes := b "h:".
Definition AGGREGATION_KEY_PREFIX : bytes := b "k:".
Definition PRIORITY_PREFIX : bytes := b "p:".
Definition SOURCE_TYPE_PREFIX : bytes := b "s:".
Definition ALERT_TYPE_PREFIX : bytes := b "t:".
Definition TAGS_PREFIX : bytes := b "#".
Definition SERVICE_CHECK_MESSAGE_PREFIX : bytes := b "m:".
Definition LOCAL_DATA_PREFIX : bytes := b "c:".
Definition EXTERNAL_DATA_PREFIX : bytes := b "e:".
Definition CARDINALITY_PREFIX : bytes := b "card:".

Definition pipe : byte := Z_byte 124.
Definition colon : byte := Z_byte 58.

Definition parse_message_type (data : bytes) : MessageType :=
  if starts_with data EVENT_PREFIX then Event
  else if starts_with data SERVICE_CHECK_PREFIX then ServiceCheck
  else MetricSample.

(** ** Helpers *)

(** U+FFFD *)
Definition replacement : bytes := Z_byte <$> [0xEF; 0xBF; 0xBD].

(** The loop of [to_valid_utf8]: [prev] is whether the previous chunk was invalid *)
Fixpoint join_chunks (prev : bool) (cs : list Utf8Chunk) : bytes :=
  match cs with
  | [] => []
  | c :: cs' =>
      let prev := if bool_decide (chunk_valid c = []) then prev else false in
      chunk_valid c ++
      (if bool_decide (chunk_invalid c = []) then join_chunks prev cs'
       else (if prev : bool then [] else replacement) ++ join_chunks true cs')
  end.

Definition to_valid_utf8 (l : bytes) : bytes := join_chunks false (utf8_chunks l).

(** [String::from_utf8_lossy] *)
Definition from_utf8_lossy (l : bytes) : bytes :=
  concat ((fun c => chunk_valid c ++ (if bool_decide (chunk_invalid c = []) then [] else replacement)) <$> utf8_chunks l).

Definition alphanum_or_sep (c : byte) : bool :=
  is_ascii_alphanumeric c || is_byte 32 c || is_byte 95 c || is_byte 45 c || is_byte 46 c.
Definition local_data_char (c : byte) : bool := is_ascii_alphanumeric c || is_byte 45 c || is_byte 44 c.
Definition external_data_char (c : byte) : bool :=
  is_ascii_lowercase c || is_ascii_digit c || is_byte 45 c || is_byte 44 c.
Definition permissive_char (c : byte) : bool := (31 <? byte_Z c) && (byte_Z c <? 128) && negb (is_byte 58 c).

Section codec.
Context `{Nom, Simdutf8, Memchr} {S : Type} `{Sketch S}.

Abbreviation error := (NomError ErrorKind).
Abbreviation PResult A := (result (NomError ErrorKind) (bytes * A)).

Definition utf8 (input : bytes) : PResult bytes :=
  if simd_from_utf8 input then Ok ([], input) else Err (Build_NomError input Verify).

Definition ascii_alphanum_and_seps (input : bytes) : PResult bytes := take_while1 alphanum_or_sep input.
Definition local_data (input : bytes) : PResult bytes := take_while1 local_data_char input.
Definition external_data (input : bytes) : PResult bytes := take_while1 external_data_char input.
Definition unix_timestamp (input : bytes) : PResult Z := parse_uint 64 input.

Definition tags (config : DogStatsDCodecConfiguration) (input : bytes) : PResult RawTags :=
  if simd_from_utf8 input then Ok ([], RawTags_new input (maximum_tag_count config) (maximum_tag_length config))
  else Ok ([], from_owned (to_valid_utf8 input) (maximum_tag_count config) (maximum_tag_length config)).

Definition cardinality (input : bytes) : PResult (option OriginTagCardinality) :=
  '(remaining, raw_bytes) ← all_consuming (preceded (tag CARDINALITY_PREFIX) rest) input;
  Ok (remaining, if simd_from_utf8 raw_bytes then OriginTagCardinality_try_from raw_bytes else None).

(** [all_consuming(preceded(tag(prefix), field)).parse(chunk)], without the empty rest *)
Definition field {A} (prefix : bytes) (p : bytes -> PResult A) (chunk : bytes) : result error A :=
  '(_, a) ← all_consuming (preceded (tag prefix) p) chunk; Ok a.

(** A piece is read, and its field, if it has one, assigned. *)
Definition apply_field {F X} (set : F -> X -> X) (read : bytes -> result error (option F)) (chunk : bytes) (x : X) :
    result error X :=
  f ← read chunk; Ok (match f with Some f => set f x | None => x end).

(** The loop over the extension fields that the three parsers share: pieces between pipes are
    handled one by one; a piece shorter than [shortest] ends it. *)
Fixpoint chunk_loop {X} (fuel shortest : nat) (handle : bytes -> X -> result error X) (remaining : bytes) (x : X) :
    PResult X :=
  match fuel with
  | O => Ok (remaining, x)
  | Datatypes.S fuel =>
      match split_at_delimiter pipe remaining with
      | None => Ok (remaining, x)
      | Some (chunk, tail) =>
          if (length chunk <? shortest)%nat then Ok (remaining, x)
          else x ← handle chunk x; chunk_loop fuel shortest handle tail x
      end
  end.

(** What follows the required fields: nothing, or a pipe and extension fields *)
Definition extensions {X} (shortest : nat) (handle : bytes -> X -> result error X) (remaining : bytes) (x : X) :
    PResult X :=
  match remaining with
  | [] => Ok (remaining, x)
  | _ =>
      '(remaining, _) ← tag (b "|") remaining;
      chunk_loop (Datatypes.S (length remaining)) shortest handle remaining x
  end.

(** ** Metrics *)

Inductive MetricType := TCount | TGauge | TSet | TTimer | THistogram | TDistribution.

Record MetricExts := {
  maybe_sample_rate : option SampleRate;
  maybe_tags : option RawTags;
  maybe_local_data : option bytes;
  maybe_timestamp : option Z;
  maybe_external_data : option bytes;
  maybe_cardinality : option OriginTagCardinality;
}.

Record MetricPacket := {
  metric_name : bytes;
  mp_tags : RawTags;
  mp_values : MetricValues S;
  num_points : Z;
  mp_timestamp : option Z;
  mp_local_data : option bytes;
  mp_external_data : option bytes;
  mp_cardinality : option OriginTagCardinality;
  mp_unit : option bytes;
}.

Definition permissive_metric_name (input : bytes) : PResult bytes := take_while1 permissive_char input.

Definition sample_rate (config : DogStatsDCodecConfiguration) (raw_sample_rate : f64) : result string SampleRate :=
  SampleRate_try_from
    (if f64_ltb raw_sample_rate (minimum_sample_rate config) then minimum_sample_rate config else raw_sample_rate).

Definition not_pipe (c : byte) : bool := negb (is_byte 124 c).

Definition metric_kind (raw_kind : bytes) : MetricType :=
  if bool_decide (raw_kind = b "c") then TCount
  else if bool_decide (raw_kind = b "g") then TGauge
  else if bool_decide (raw_kind = b "s") then TSet
  else if bool_decide (raw_kind = b "ms") then TTimer
  else if bool_decide (raw_kind = b "h") then THistogram
  else TDistribution.

Definition raw_metric_values (input : bytes) : PResult (MetricType * bytes) :=
  '(remaining, raw_values) ← terminated (take_while1 not_pipe) (tag (b "|")) input;
  '(remaining, raw_kind) ← alt [tag (b "g"); tag (b "c"); tag (b "ms"); tag (b "h"); tag (b "s"); tag (b "d")] remaining;
  if bool_decide (raw_values = []) || negb (simd_from_utf8 raw_values)
  then Err (Build_NomError raw_values Verify)
  else Ok (remaining, (metric_kind raw_kind, raw_values)).

(** [FloatIter::next]: the next value that is finite, or an error, with what is left *)
Fixpoint FloatIter_next (fuel : nat) (raw_values : bytes) : option (result error f64 * bytes) :=
  match fuel with
  | O => None
  | Datatypes.S fuel =>
      match raw_values with
      | [] => None
      | _ =>
          '(raw_value, tail) ← split_at_delimiter colon raw_values;
          match parse_f64 raw_value with
          | Some value => if is_finite value then Some (Ok value, tail) else FloatIter_next fuel tail
          | None => Some (Err (Build_NomError raw_value Float), tail)
          end
      end
  end.

(** The values the iterator yields *)
Fixpoint FloatIter_collect (fuel : nat) (raw_values : bytes) : list (result error f64) :=
  match fuel with
  | O => []
  | Datatypes.S fuel =>
      match FloatIter_next (length raw_values) raw_values with
      | None => []
      | Some (r, tail) => r :: FloatIter_collect fuel tail
      end
  end.

Definition floats (raw_values : bytes) : list (result error f64) := FloatIter_collect (length raw_values) raw_values.

(** Every value the consumer takes off the iterator is counted; a consumer that succeeds takes all. *)
Definition metric_values_from_raw (input : bytes) (metric_type : MetricType) (sample_rate : option SampleRate) :
    result error (Z * MetricValues S) :=
  let fs := floats input in
  let counted (r : result error (MetricValues S)) := values ← r; Ok (Z.of_nat (length fs), values) in
  match metric_type with
  | TCount => counted (counter_sampled_fallible fs sample_rate)
  | TGauge => counted (gauge_fallible fs)
  | TSet => Ok (1, Set_ [TV None {[ String.string_of_list_byte input ]}])
  | TTimer | THistogram => counted (histogram_sampled_fallible fs sample_rate)
  | TDistribution => counted (distribution_sampled_fallible fs sample_rate)
  end.

Definition second_is_colon (chunk : bytes) : bool :=
  match chunk !! 1%nat with Some c => is_byte 58 c | None => false end.

(** One assignment to a variable of the metric parser *)
Inductive MetricField :=
  | MfSampleRate (v : SampleRate)
  | MfTags (v : RawTags)
  | MfLocalData (v : bytes)
  | MfTimestamp (v : Z)
  | MfExternalData (v : bytes)
  | MfCardinality (v : option OriginTagCardinality).

Definition set_metric_field (f : MetricField) (x : MetricExts) : MetricExts :=
  {| maybe_sample_rate := match f with MfSampleRate v => Some v | _ => maybe_sample_rate x end;
     maybe_tags := match f with MfTags v => Some v | _ => maybe_tags x end;
     maybe_local_data := match f with MfLocalData v => Some v | _ => maybe_local_data x end;
     maybe_timestamp := match f with MfTimestamp v => Some v | _ => maybe_timestamp x end;
     maybe_external_data := match f with MfExternalData v => Some v | _ => maybe_external_data x end;
     maybe_cardinality := match f with MfCardinality v => v | _ => maybe_cardinality x end |}.

(** The field a piece holds; [None] when it is skipped.  The piece is not empty. *)
Definition metric_field (config : DogStatsDCodecConfiguration) (chunk : bytes) : result error (option MetricField) :=
  match chunk with
  | [] => Ok None
  | c :: _ =>
      if is_byte 64 c then
        v ← field (b "@") (map_res double (sample_rate config)) chunk; Ok (Some (MfSampleRate v))
      else if is_byte 35 c then
        v ← field (b "#") (tags config) chunk; Ok (Some (MfTags v))
      else if is_byte 99 c && (second_is_colon chunk && client_origin_detection config) then
        v ← field (b "c:") local_data chunk; Ok (Some (MfLocalData v))
      else if is_byte 84 c && timestamps config then
        v ← field (b "T") unix_timestamp chunk; Ok (Some (MfTimestamp v))
      else if is_byte 101 c && (second_is_colon chunk && client_origin_detection config) then
        v ← field (b "e:") external_data chunk; Ok (Some (MfExternalData v))
      else if is_byte 99 c && (starts_with chunk CARDINALITY_PREFIX && client_origin_detection config) then
        '(_, v) ← cardinality chunk; Ok (Some (MfCardinality v))
      else Ok None
  end.

Definition metric_chunk (config : DogStatsDCodecConfiguration) : bytes -> MetricExts -> result error MetricExts :=
  apply_field set_metric_field (metric_field config).

Definition no_metric_exts : MetricExts :=
  {| maybe_sample_rate := None; maybe_tags := None; maybe_local_data := None; maybe_timestamp := None;
     maybe_external_data := None; maybe_cardinality := None |}.

Definition is_count (t : MetricType) : bool := match t with TCount => true | _ => false end.
Definition is_timer (t : MetricType) : bool := match t with TTimer => true | _ => false end.

(** The packet, once the fields are known *)
Definition metric_packet (name : bytes) (metric_type : MetricType) (raw_values : bytes) (x : MetricExts) :
    result error MetricPacket :=
  let effective_sample_rate :=
    if is_count metric_type && bool_decide (is_Some (maybe_timestamp x)) then None else maybe_sample_rate x in
  '(num_points, values) ← metric_values_from_raw raw_values metric_type effective_sample_rate;
  Ok {| metric_name := name; mp_tags := default RawTags_empty (maybe_tags x);
        mp_values := match maybe_timestamp x with
                     | Some timestamp => MetricValues_set_timestamp timestamp values
                     | None => values
                     end;
        num_points := num_points; mp_timestamp := maybe_timestamp x; mp_local_data := maybe_local_data x;
        mp_external_data := maybe_external_data x; mp_cardinality := maybe_cardinality x;
        mp_unit := if is_timer metric_type then Some (b "millisecond") else None |}.

Definition parse_dogstatsd_metric (input : bytes) (config : DogStatsDCodecConfiguration) : PResult MetricPacket :=
  let metric_name_parser := if permissive config then permissive_metric_name else ascii_alphanum_and_seps in
  '(remaining, (name, (metric_type, raw_values))) ←
    separated_pair metric_name_parser (tag (b ":")) raw_metric_values input;
  '(remaining, x) ← extensions 1 (metric_chunk config) remaining no_metric_exts;
  packet ← metric_packet name metric_type raw_values x;
  Ok (remaining, packet).

(** ** Events *)

Record EventExts := {
  ev_priority : option Priority;
  ev_alert_type : option AlertType;
  ev_timestamp : option Z;
  ev_hostname : option bytes;
  ev_aggregation_key : option bytes;
  ev_source_type : option bytes;
  ev_tags : option RawTags;
  ev_local_data : option bytes;
  ev_external_data : option bytes;
  ev_cardinality : option OriginTagCardinality;
}.

Record EventPacket := {
  ep_title : bytes;
  ep_text : bytes;
  ep_timestamp : option Z;
  ep_hostname : option bytes;
  ep_aggregation_key : option bytes;
  ep_priority : option Priority;
  ep_alert_type : option AlertType;
  ep_source_type_name : option bytes;
  ep_tags : RawTags;
  ep_local_data : option bytes;
  ep_external_data : option bytes;
  ep_cardinality : option OriginTagCardinality;
}.

(** Priority and alert type have default values. *)
Definition default_event_exts : EventExts :=
  {| ev_priority := Some PriorityNormal; ev_alert_type := Some AlertInfo; ev_timestamp := None; ev_hostname := None;
     ev_aggregation_key := None; ev_source_type := None; ev_tags := None; ev_local_data := None;
     ev_external_data := None; ev_cardinality := None |}.

Definition is_prefix2 (chunk prefix : bytes) : bool := bool_decide (take 2 chunk = prefix).

(** One assignment to a variable of the event parser *)
Inductive EventField :=
  | EvTimestamp (v : Z)
  | EvHostname (v : bytes)
  | EvAggregationKey (v : bytes)
  | EvPriority (v : option Priority)
  | EvSourceType (v : bytes)
  | EvAlertType (v : option AlertType)
  | EvLocalData (v : bytes)
  | EvExternalData (v : bytes)
  | EvCardinality (v : option OriginTagCardinality)
  | EvTags (v : RawTags).

Definition set_event_field (f : EventField) (x : EventExts) : EventExts :=
  {| ev_priority := match f with EvPriority v => v | _ => ev_priority x end;
     ev_alert_type := match f with EvAlertType v => v | _ => ev_alert_type x end;
     ev_timestamp := match f with EvTimestamp v => Some v | _ => ev_timestamp x end;
     ev_hostname := match f with EvHostname v => Some v | _ => ev_hostname x end;
     ev_aggregation_key := match f with EvAggregationKey v => Some v | _ => ev_aggregation_key x end;
     ev_source_type := match f with EvSourceType v => Some v | _ => ev_source_type x end;
     ev_tags := match f with EvTags v => Some v | _ => ev_tags x end;
     ev_local_data := match f with EvLocalData v => Some v | _ => ev_local_data x end;
     ev_external_data := match f with EvExternalData v => Some v | _ => ev_external_data x end;
     ev_cardinality := match f with EvCardinality v => v | _ => ev_cardinality x end |}.

(** The field a piece holds; [None] when it is skipped *)
Definition event_field (config : DogStatsDCodecConfiguration) (chunk : bytes) : result error (option EventField) :=
  if is_prefix2 chunk TIMESTAMP_PREFIX then
    v ← field TIMESTAMP_PREFIX unix_timestamp chunk; Ok (Some (EvTimestamp v))
  else if is_prefix2 chunk HOSTNAME_PREFIX && negb (bool_decide (chunk = HOSTNAME_PREFIX)) then
    v ← field HOSTNAME_PREFIX ascii_alphanum_and_seps chunk; Ok (Some (EvHostname v))
  else if is_prefix2 chunk AGGREGATION_KEY_PREFIX && negb (bool_decide (chunk = AGGREGATION_KEY_PREFIX)) then
    v ← field AGGREGATION_KEY_PREFIX ascii_alphanum_and_seps chunk; Ok (Some (EvAggregationKey v))
  else if is_prefix2 chunk PRIORITY_PREFIX then
    v ← field PRIORITY_PREFIX ascii_alphanum_and_seps chunk; Ok (Some (EvPriority (Priority_try_from_string v)))
  else if is_prefix2 chunk SOURCE_TYPE_PREFIX && negb (bool_decide (chunk = SOURCE_TYPE_PREFIX)) then
    v ← field SOURCE_TYPE_PREFIX ascii_alphanum_and_seps chunk; Ok (Some (EvSourceType v))
  else if is_prefix2 chunk ALERT_TYPE_PREFIX then
    v ← field ALERT_TYPE_PREFIX ascii_alphanum_and_seps chunk; Ok (Some (EvAlertType (AlertType_try_from_string v)))
  else if is_prefix2 chunk LOCAL_DATA_PREFIX && (client_origin_detection config && negb (bool_decide (chunk = LOCAL_DATA_PREFIX))) then
    v ← field LOCAL_DATA_PREFIX local_data chunk; Ok (Some (EvLocalData v))
  else if is_prefix2 chunk EXTERNAL_DATA_PREFIX && (client_origin_detection config && negb (bool_decide (chunk = EXTERNAL_DATA_PREFIX))) then
    v ← field EXTERNAL_DATA_PREFIX external_data chunk; Ok (Some (EvExternalData v))
  else if starts_with chunk CARDINALITY_PREFIX && client_origin_detection config && negb (bool_decide (chunk = CARDINALITY_PREFIX)) then
    '(_, v) ← cardinality chunk; Ok (Some (EvCardinality v))
  else if starts_with chunk TAGS_PREFIX && negb (bool_decide (chunk = TAGS_PREFIX)) then
    v ← field (b "#") (tags config) chunk; Ok (Some (EvTags v))
  else Ok None.

Definition event_chunk (config : DogStatsDCodecConfiguration) : bytes -> EventExts -> result error EventExts :=
  apply_field set_event_field (event_field config).

(** [text.replace("\\n", "\n")] *)
Definition unescape_newlines (text : bytes) : bytes := replace2 (Z_byte 92) (Z_byte 110) [Z_byte 10] text.

Definition event_text (raw : bytes) : result error bytes :=
  if simd_from_utf8 raw then Ok (unescape_newlines raw) else Err (Build_NomError raw Verify).

Definition parse_dogstatsd_event (input : bytes) (config : DogStatsDCodecConfiguration) : PResult EventPacket :=
  '(remaining, (title_len, text_len)) ←
    delimited (tag EVENT_PREFIX) (separated_pair (parse_uint 32) (tag (b ",")) (parse_uint 32)) (tag (b "}:")) input;
  if (title_len =? 0) || (text_len =? 0) then Err (Build_NomError input Verify)
  else
    '(remaining, (raw_title, raw_text)) ← separated_pair (take_n title_len) (tag (b "|")) (take_n text_len) remaining;
    title ← event_text raw_title;
    text ← event_text raw_text;
    '(remaining, x) ← extensions 2 (event_chunk config) remaining default_event_exts;
    Ok (remaining,
        {| ep_title := title; ep_text := text; ep_timestamp := ev_timestamp x; ep_hostname := ev_hostname x;
           ep_aggregation_key := ev_aggregation_key x; ep_priority := ev_priority x; ep_alert_type := ev_alert_type x;
           ep_source_type_name := ev_source_type x; ep_tags := default RawTags_empty (ev_tags x);
           ep_local_data := ev_local_data x; ep_external_data := ev_external_data x;
           ep_cardinality := ev_cardinality x |}).

(** ** Service checks *)

Record CheckExts := {
  ck_timestamp : option Z;
  ck_hostname : option bytes;
  ck_tags : option RawTags;
  ck_message : option bytes;
  ck_local_data : option bytes;
  ck_external_data : option bytes;
  ck_cardinality : option OriginTagCardinality;
}.

Record ServiceCheckPacket := {
  sp_name : bytes;
  sp_status : CheckStatus;
  sp_timestamp : option Z;
  sp_hostname : option bytes;
  sp_message : option bytes;
  sp_tags : RawTags;
  sp_local_data : option bytes;
  sp_external_data : option bytes;
  sp_cardinality : option OriginTagCardinality;
}.

Definition no_check_exts : CheckExts :=
  {| ck_timestamp := None; ck_hostname := None; ck_tags := None; ck_message := None; ck_local_data := None;
     ck_external_data := None; ck_cardinality := None |}.

Inductive CheckField :=
  | CkTimestamp (v : Z)
  | CkHostname (v : bytes)
  | CkLocalData (v : bytes)
  | CkExternalData (v : bytes)
  | CkTags (v : RawTags)
  | CkMessage (v : bytes)
  | CkCardinality (v : option OriginTagCardinality).

Definition set_check_field (f : CheckField) (x : CheckExts) : CheckExts :=
  {| ck_timestamp := match f with CkTimestamp v => Some v | _ => ck_timestamp x end;
     ck_hostname := match f with CkHostname v => Some v | _ => ck_hostname x end;
     ck_tags := match f with CkTags v => Some v | _ => ck_tags x end;
     ck_message := match f with CkMessage v => Some v | _ => ck_message x end;
     ck_local_data := match f with CkLocalData v => Some v | _ => ck_local_data x end;
     ck_external_data := match f with CkExternalData v => Some v | _ => ck_external_data x end;
     ck_cardinality := match f with CkCardinality v => v | _ => ck_cardinality x end |}.

Definition check_field (config : DogStatsDCodecConfiguration) (chunk : bytes) : result error (option CheckField) :=
  if is_prefix2 chunk TIMESTAMP_PREFIX then
    v ← field TIMESTAMP_PREFIX unix_timestamp chunk; Ok (Some (CkTimestamp v))
  else if is_prefix2 chunk HOSTNAME_PREFIX then
    v ← field HOSTNAME_PREFIX ascii_alphanum_and_seps chunk; Ok (Some (CkHostname v))
  else if is_prefix2 chunk LOCAL_DATA_PREFIX && client_origin_detection config then
    v ← field LOCAL_DATA_PREFIX local_data chunk; Ok (Some (CkLocalData v))
  else if is_prefix2 chunk EXTERNAL_DATA_PREFIX && client_origin_detection config then
    v ← field EXTERNAL_DATA_PREFIX external_data chunk; Ok (Some (CkExternalData v))
  else if starts_with chunk TAGS_PREFIX then
    v ← field TAGS_PREFIX (tags config) chunk; Ok (Some (CkTags v))
  else if is_prefix2 chunk SERVICE_CHECK_MESSAGE_PREFIX then
    v ← field SERVICE_CHECK_MESSAGE_PREFIX utf8 chunk; Ok (Some (CkMessage v))
  else if starts_with chunk CARDINALITY_PREFIX && client_origin_detection config then
    '(_, v) ← cardinality chunk; Ok (Some (CkCardinality v))
  else Ok None.

Definition check_chunk (config : DogStatsDCodecConfiguration) : bytes -> CheckExts -> result error CheckExts :=
  apply_field set_check_field (check_field config).

Definition parse_dogstatsd_service_check (input : bytes) (config : DogStatsDCodecConfiguration) :
    PResult ServiceCheckPacket :=
  '(remaining, (name, raw_check_status)) ←
    preceded (tag SERVICE_CHECK_PREFIX) (separated_pair ascii_alphanum_and_seps (tag (b "|")) (parse_uint 8)) input;
  check_status ← match CheckStatus_try_from raw_check_status with
                 | Some s => Ok s
                 | None => Err (Build_NomError input Verify)
                 end;
  '(remaining, x) ← extensions 2 (check_chunk config) remaining no_check_exts;
  Ok (remaining,
      {| sp_name := name; sp_status := check_status; sp_timestamp := ck_timestamp x; sp_hostname := ck_hostname x;
         sp_message := ck_message x; sp_tags := default RawTags_empty (ck_tags x); sp_local_data := ck_local_data x;
         sp_external_data := ck_external_data x; sp_cardinality := ck_cardinality x |}).

(** ** The codec *)

Record ParseError := { kind : ErrorKind; data : bytes }.

Definition ParseError_from (e : error) : ParseError :=
  {| kind := err_code e; data := from_utf8_lossy (err_input e) |}.

Inductive ParsedPacket :=
  | PMetric (p : MetricPacket)
  | PEvent (p : EventPacket)
  | PServiceCheck (p : ServiceCheckPacket).

Definition decode_metric (config : DogStatsDCodecConfiguration) (data : bytes) : result ParseError MetricPacket :=
  '(_, metric) ← map_err ParseError_from (parse_dogstatsd_metric data config); Ok metric.
Definition decode_event (config : DogStatsDCodecConfiguration) (data : bytes) : result ParseError EventPacket :=
  '(_, event) ← map_err ParseError_from (parse_dogstatsd_event data config); Ok event.
Definition decode_service_check (config : DogStatsDCodecConfiguration) (data : bytes) : result ParseError ServiceCheckPacket :=
  '(_, service_check) ← map_err ParseError_from (parse_dogstatsd_service_check data config); Ok service_check.

Definition decode_packet (config : DogStatsDCodecConfiguration) (data : bytes) : result ParseError ParsedPacket :=
  match parse_message_type data with
  | Event => PEvent <$> decode_event config data
  | ServiceCheck => PServiceCheck <$> decode_service_check config data
  | MetricSample => PMetric <$> decode_metric config data
  end.
End codec.
