(* ===== verification/DogStatsDText.v ===== *)
(** * DogStatsDText: the text helpers of the codec

    Theorems on the helpers of [DogStatsD]: invalid bytes in tag blocks are replaced without touching
    anything else, and the values of a metric are read piece by piece. *)

From Stdlib Require Import ZArith Lia Strings.String Floats.SpecFloat.
From stdpp Require Import base tactics list numbers option gmap.
From S2P Require Import Prelude Bytes Utf8 Float64 FloatText Nom RawTags MetricValues DogStatsD.
Open Scope Z_scope.

#[local] Coercion Z.of_nat : nat >-> Z.

(** ** Replacing invalid bytes *)

Lemma replacement_char : is_char replacement.
Proof. reflexivity. Qed.

Lemma replacement_no_ascii : no_ascii replacement.
Proof. by repeat constructor. Qed.

Definition ascii_part (l : bytes) : bytes := List.filter is_ascii l.

Lemma ascii_part_app l1 l2 : ascii_part (l1 ++ l2) = ascii_part l1 ++ ascii_part l2.
Proof. apply List.filter_app. Qed.

Lemma ascii_part_none l : no_ascii l -> ascii_part l = [].
Proof. induction 1 as [|c l Hc _ IH]; [done|]. cbn. by rewrite Hc. Qed.

Lemma join_chunks_spec prev l cs : chunked l cs ->
  valid_utf8 (join_chunks prev cs) /\ ascii_part (join_chunks prev cs) = ascii_part l.
Proof.
  intros Hc. revert prev. induction Hc as [|v i l cs Hv Hi Hc IH Hend]; intros prev; [split; [apply valid_nil|done]|].
  cbn [join_chunks chunk_valid chunk_invalid]. set (prev' := if bool_decide (v = []) then prev else false).
  rewrite !ascii_part_app. rewrite (ascii_part_none i) by done. case_bool_decide as Hi0.
  - destruct (IH prev') as [H1 H2]. split; [by apply valid_app|]. by rewrite H2.
  - destruct (IH true) as [H1 H2]. split.
    + apply valid_app; [done|]. apply valid_app; [|done]. destruct prev'; [apply valid_nil|].
      rewrite <- (app_nil_r replacement). apply valid_cons; [apply replacement_char|apply valid_nil].
    + rewrite ascii_part_app, H2. f_equal. destruct prev'; [done|]. by rewrite ascii_part_none by apply replacement_no_ascii.
Qed.

Lemma to_valid_utf8_valid l : valid_utf8 (to_valid_utf8 l).
Proof. apply (join_chunks_spec false l _ (utf8_chunks_spec l)). Qed.

Lemma to_valid_utf8_id l : valid_utf8 l -> to_valid_utf8 l = l.
Proof.
  intros Hl. unfold to_valid_utf8. destruct (decide (l = [])) as [->|Hne]; [done|].
  rewrite utf8_chunks_valid by done. apply app_nil_r.
Qed.

(** Normalising a tag block that is not UTF-8 yields valid UTF-8, leaves valid text as it is, and
    keeps every ASCII character in its order, the separators between the tags included. *)
Theorem normalized_text (l : bytes) :
  valid_utf8 (to_valid_utf8 l) /\ ascii_part (to_valid_utf8 l) = ascii_part l /\
  (valid_utf8 l <-> to_valid_utf8 l = l).
Proof.
  destruct (join_chunks_spec false l _ (utf8_chunks_spec l)) as [H1 H2]. split_and!; [done..|].
  split; [apply to_valid_utf8_id|]. by intros <-.
Qed.

(** ** The values of a metric *)

Section values.
Context `{Nom, Simdutf8, Memchr} {S : Type} `{Sketch S}.

Abbreviation error := (NomError ErrorKind).

(** What a piece of the value text contributes *)
Definition float_of (raw : bytes) : option (result error f64) :=
  match parse_f64 raw with
  | Some x => if is_finite x then Some (Ok x) else None
  | None => Some (Err (Build_NomError raw Float))
  end.

Lemma FloatIter_next_spec fuel raw : (length raw <= fuel)%nat ->
  match omap float_of (fields colon raw) with
  | [] => FloatIter_next fuel raw = None
  | r :: rs => exists tail, FloatIter_next fuel raw = Some (r, tail) /\ omap float_of (fields colon tail) = rs /\
                 (length tail < length raw)%nat
  end.
Proof.
  revert raw. induction fuel as [|fuel IH]; intros raw Hf; [destruct raw; [done|cbn in Hf; lia]|].
  destruct (split_cases colon raw) as [->|(l1 & l2 & Hsp & -> & _ & _ & Hlen)]; [done|].
  cbn [FloatIter_next]. rewrite Hsp. destruct raw as [|c raw]; [cbn in Hlen; lia|]. cbn [mbind option_bind].
  cbn [omap list_omap]. unfold float_of at 1. destruct (parse_f64 l1) as [x|] eqn:Ex.
  - destruct (is_finite x) eqn:Ef.
    + exists l2. done.
    + specialize (IH l2 ltac:(lia)). destruct (omap float_of (fields colon l2)) as [|r rs] eqn:Eo; [done|].
      destruct IH as (tail & -> & Ht & Hlt). exists tail. split_and!; [done..|lia].
  - exists l2. done.
Qed.

(** The iterator yields the pieces between the colons: numbers, and errors for what is none; values
    that are not finite are left out. *)
Lemma floats_spec raw : floats raw = omap float_of (fields colon raw).
Proof.
  unfold floats. remember (length raw) as n eqn:En. assert (Hn : (length raw <= n)%nat) by lia. clear En. revert raw Hn.
  induction n as [|n IH]; intros raw Hn; [destruct raw; [done|cbn in Hn; lia]|]. cbn [FloatIter_collect].
  pose proof (FloatIter_next_spec (length raw) raw (le_n _)) as Hx. destruct (omap float_of (fields colon raw)) as [|r rs].
  - by rewrite Hx.
  - destruct Hx as (tail & -> & <- & Hlt). f_equal. apply IH. lia.
Qed.

Lemma collect_results_ok {E A B} (f : B -> A -> B) acc (xs : list A) :
  collect_results (E := E) f acc (Ok <$> xs) = Ok (fold_left f xs acc).
Proof. revert acc. induction xs as [|x xs IH]; intros acc; [done|]. apply IH. Qed.

Lemma collect_results_inv {E A B} (f : B -> A -> B) acc (l : list (result E A)) y :
  collect_results f acc l = Ok y -> exists xs, l = Ok <$> xs /\ y = fold_left f xs acc.
Proof.
  revert acc. induction l as [|[x|e] l IH]; intros acc; cbn; [by intros [= <-]; exists []| |done].
  intros (xs & -> & ->)%IH. by exists (x :: xs).
Qed.
End values.
