(* ===== verification/DogStatsDPackets.v ===== *)
(** * DogStatsDPackets: what the codec makes of packets

    Encoders for the three kinds of packets, with their extension fields in any order and any number,
    and the theorems that decoding gives back what was encoded; and that whatever the codec accepts is
    safe to use: text is valid UTF-8 where the code assumes so without checking, values are finite and
    counted, and switched-off fields are absent. *)

From Stdlib Require Import ZArith Lia Strings.String Floats.SpecFloat.
From stdpp Require Import base tactics list numbers option gmap.
From S2P Require Import Prelude Bytes Utf8 Float64 FloatText Nom RawTags MetricValues DogStatsD DogStatsDText.
Open Scope Z_scope.

#[local] Coercion Z.of_nat : nat >-> Z.

(** ** The encoders *)

Definition wire_chunks (cs : list bytes) : bytes := concat (cons pipe <$> cs).

(** An extension field of a metric, as a client writes it *)
Inductive MetricWire :=
  | WSampleRate (text : bytes)
  | WTags (raw : bytes)
  | WLocalData (v : bytes)
  | WTimestamp (n : Z)
  | WExternalData (v : bytes)
  | WCardinality (v : bytes)
  | WUnknown (chunk : bytes).

Definition encode_ext (w : MetricWire) : bytes :=
  match w with
  | WSampleRate text => b "@" ++ text
  | WTags raw => b "#" ++ raw
  | WLocalData v => b "c:" ++ v
  | WTimestamp n => b "T" ++ show_Z n
  | WExternalData v => b "e:" ++ v
  | WCardinality v => b "card:" ++ v
  | WUnknown chunk => chunk
  end.

Definition encode_type (t : MetricType) : bytes :=
  match t with
  | TCount => b "c" | TGauge => b "g" | TSet => b "s" | TTimer => b "ms" | THistogram => b "h" | TDistribution => b "d"
  end.

Definition encode_metric (name : bytes) (t : MetricType) (raw : bytes) (ws : list MetricWire) : bytes :=
  name ++ b ":" ++ raw ++ b "|" ++ encode_type t ++ wire_chunks (encode_ext <$> ws).

(** Extension fields of events *)
Inductive EventWire :=
  | EwTimestamp (n : Z)
  | EwHostname (v : bytes)
  | EwAggregationKey (v : bytes)
  | EwPriority (v : bytes)
  | EwSourceType (v : bytes)
  | EwAlertType (v : bytes)
  | EwLocalData (v : bytes)
  | EwExternalData (v : bytes)
  | EwCardinality (v : bytes)
  | EwTags (raw : bytes)
  | EwUnknown (chunk : bytes).

Definition encode_event_ext (w : EventWire) : bytes :=
  match w with
  | EwTimestamp n => TIMESTAMP_PREFIX ++ show_Z n
  | EwHostname v => HOSTNAME_PREFIX ++ v
  | EwAggregationKey v => AGGREGATION_KEY_PREFIX ++ v
  | EwPriority v => PRIORITY_PREFIX ++ v
  | EwSourceType v => SOURCE_TYPE_PREFIX ++ v
  | EwAlertType v => ALERT_TYPE_PREFIX ++ v
  | EwLocalData v => LOCAL_DATA_PREFIX ++ v
  | EwExternalData v => EXTERNAL_DATA_PREFIX ++ v
  | EwCardinality v => CARDINALITY_PREFIX ++ v
  | EwTags raw => TAGS_PREFIX ++ raw
  | EwUnknown chunk => chunk
  end.

Definition encode_event (title text : bytes) (ws : list EventWire) : bytes :=
  EVENT_PREFIX ++ show_Z (length title) ++ b "," ++ show_Z (length text) ++ b "}:" ++ title ++ b "|" ++ text ++
  wire_chunks (encode_event_ext <$> ws).

(** Extension fields of service checks *)
Inductive CheckWire :=
  | CwTimestamp (n : Z)
  | CwHostname (v : bytes)
  | CwLocalData (v : bytes)
  | CwExternalData (v : bytes)
  | CwTags (raw : bytes)
  | CwMessage (v : bytes)
  | CwCardinality (v : bytes)
  | CwUnknown (chunk : bytes).

Definition encode_check_ext (w : CheckWire) : bytes :=
  match w with
  | CwTimestamp n => TIMESTAMP_PREFIX ++ show_Z n
  | CwHostname v => HOSTNAME_PREFIX ++ v
  | CwLocalData v => LOCAL_DATA_PREFIX ++ v
  | CwExternalData v => EXTERNAL_DATA_PREFIX ++ v
  | CwTags raw => TAGS_PREFIX ++ raw
  | CwMessage v => SERVICE_CHECK_MESSAGE_PREFIX ++ v
  | CwCardinality v => CARDINALITY_PREFIX ++ v
  | CwUnknown chunk => chunk
  end.

Definition encode_status (s : CheckStatus) : Z :=
  match s with StatusOk => 0 | StatusWarning => 1 | StatusCritical => 2 | StatusUnknown => 3 end.

Definition encode_check (name : bytes) (s : CheckStatus) (ws : list CheckWire) : bytes :=
  SERVICE_CHECK_PREFIX ++ name ++ b "|" ++ show_Z (encode_status s) ++ wire_chunks (encode_check_ext <$> ws).

(** ** The loop over the pieces *)

Section packets.
Context `{NomLaws, Simdutf8, Memchr} {S : Type} `{Sketch S}.

Abbreviation error := (NomError ErrorKind).

Fixpoint run {X} (handle : bytes -> X -> result error X) (cs : list bytes) (x : X) : result error X :=
  match cs with [] => Ok x | c :: cs' => x ← handle c x; run handle cs' x end.

(** A piece the loop does not stop at *)
Definition piece (shortest : nat) (c : bytes) : Prop := (shortest <= length c)%nat /\ pipe ∉ c.

Lemma chunk_loop_run {X} fuel shortest (handle : bytes -> X -> result error X) c cs x : (1 <= shortest)%nat ->
  Forall (piece shortest) (c :: cs) -> (length (c ++ wire_chunks cs) < fuel)%nat ->
  chunk_loop fuel shortest handle (c ++ wire_chunks cs) x = (x' ← run handle (c :: cs) x; Ok ([], x')).
Proof.
  intros Hs. revert c x fuel. induction cs as [|c' cs IH]; intros c x fuel Hc Hf; apply Forall_cons in Hc as [[Hl Hp] Hc];
    (destruct fuel as [|fuel]; [lia|]); cbn [chunk_loop run].
  - unfold wire_chunks in *. cbn [fmap list_fmap concat] in *. rewrite app_nil_r in *.
    rewrite split_at_delimiter_last by (try done; by destruct c; [cbn in Hl; lia|]).
    rewrite (proj2 (Nat.ltb_ge _ _)) by done. destruct (handle c x) as [x'|e]; [|done]. cbn.
    destruct fuel as [|fuel]; [destruct c; cbn in *; lia|]. cbn [chunk_loop]. by rewrite split_at_delimiter_nil.
  - change (wire_chunks (c' :: cs)) with (pipe :: c' ++ wire_chunks cs) in *. rewrite split_at_delimiter_found by done.
    rewrite (proj2 (Nat.ltb_ge _ _)) by done. destruct (handle c x) as [x'|e]; [|done]. cbn [mbind result_bind].
    rewrite IH by (try done; rewrite length_app in Hf; cbn in Hf; lia). done.
Qed.

Lemma extensions_run {X} shortest (handle : bytes -> X -> result error X) cs x : (1 <= shortest)%nat ->
  Forall (piece shortest) cs ->
  parsed (extensions shortest handle (wire_chunks cs) x) = (x' ← parsed (run handle cs x); Some ([], x')).
Proof.
  intros Hs Hc. destruct cs as [|c cs]; [done|].
  change (extensions shortest handle (wire_chunks (c :: cs)) x) with
    ('(remaining, _) ← tag (b "|") (b "|" ++ (c ++ wire_chunks cs));
     chunk_loop (Datatypes.S (length remaining)) shortest handle remaining x).
  rewrite parsed_bind, tag_app. cbn [mbind option_bind]. rewrite chunk_loop_run by (try done; lia).
  by rewrite parsed_bind.
Qed.

Definition assign {F X} (set : F -> X -> X) (x : X) (f : option F) : X := match f with Some f => set f x | None => x end.

Lemma run_fields {F X} (set : F -> X -> X) read fs cs x :
  Forall2 (fun f c => parsed (read c) = Some f) fs cs ->
  parsed (run (apply_field set read) cs x) = Some (foldl (assign set) x fs).
Proof.
  intros Hf. revert x. induction Hf as [|f c fs cs Hc Hf IH]; intros x; [done|]. cbn [run foldl].
  rewrite parsed_bind.
  assert (parsed (apply_field set read c x) = Some (assign set x f)) as -> by (unfold apply_field; by rewrite parsed_bind, Hc).
  apply IH.
Qed.

(** Reading one field *)
Lemma field_app {A} prefix (p : bytes -> result error (bytes * A)) v :
  parsed (field prefix p (prefix ++ v)) = match parsed (p v) with Some ([], a) => Some a | _ => None end.
Proof.
  unfold field. rewrite parsed_bind, all_consuming_spec, preceded_spec, tag_app. cbn [mbind option_bind].
  by destruct (parsed (p v)) as [[[|] a]|].
Qed.

Lemma field_while prefix p v : v <> [] -> Forall (fun c => p c = true) v ->
  parsed (field prefix (take_while1 p) (prefix ++ v)) = Some v.
Proof.
  intros Hv Hp. rewrite field_app. rewrite <- (app_nil_r v) at 1. by rewrite take_while1_app.
Qed.

Lemma field_uint prefix w n : 0 <= n <= umax w -> parsed (field prefix (parse_uint w) (prefix ++ show_Z n)) = Some n.
Proof. intros Hn. rewrite field_app. rewrite <- (app_nil_r (show_Z n)). by rewrite parse_uint_app. Qed.

(** The tag block that a packet ends up with *)
Definition tag_block (config : DogStatsDCodecConfiguration) (raw : bytes) : RawTags :=
  {| raw_tags := to_valid_utf8 raw; max_tag_count := maximum_tag_count config; max_tag_len := maximum_tag_length config |}.

Lemma tags_parsed config raw : tags config raw = Ok ([], tag_block config raw).
Proof.
  unfold tags. rewrite simd_from_utf8_spec. unfold tag_block. destruct (is_utf8 raw) eqn:E; [|done].
  apply is_utf8_spec in E. by rewrite to_valid_utf8_id.
Qed.

(** ** Extension fields of metrics *)

Definition name_char (config : DogStatsDCodecConfiguration) (c : byte) : bool :=
  if permissive config then permissive_char c else alphanum_or_sep c.

Definition ext_rate (config : DogStatsDCodecConfiguration) (text : bytes) : option SampleRate :=
  x ← parse_decimal text; parsed (sample_rate config x).

(** A field that the protocol allows *)
Definition ext_ok (config : DogStatsDCodecConfiguration) (w : MetricWire) : Prop :=
  match w with
  | WSampleRate text => pipe ∉ text /\ is_Some (ext_rate config text)
  | WTags raw => pipe ∉ raw
  | WLocalData v => v <> [] /\ Forall (fun c => local_data_char c = true) v
  | WTimestamp n => is_u64 n
  | WExternalData v => v <> [] /\ Forall (fun c => external_data_char c = true) v
  | WCardinality v => pipe ∉ v
  | WUnknown chunk => pipe ∉ chunk /\
      match chunk with
      | [] => False
      | c :: _ => forall z, z ∈ [64; 35; 99; 84; 101] -> is_byte z c = false
      end
  end.

(** What a field means under a configuration *)
Definition ext_meaning (config : DogStatsDCodecConfiguration) (w : MetricWire) : option MetricField :=
  match w with
  | WSampleRate text => MfSampleRate <$> ext_rate config text
  | WTags raw => Some (MfTags (tag_block config raw))
  | WLocalData v => if client_origin_detection config then Some (MfLocalData v) else None
  | WTimestamp n => if timestamps config then Some (MfTimestamp n) else None
  | WExternalData v => if client_origin_detection config then Some (MfExternalData v) else None
  | WCardinality v =>
      if client_origin_detection config
      then Some (MfCardinality (if is_utf8 v then OriginTagCardinality_try_from v else None)) else None
  | WUnknown _ => None
  end.

Lemma cardinality_app v : parsed (cardinality (CARDINALITY_PREFIX ++ v)) =
  Some ([], if is_utf8 v then OriginTagCardinality_try_from v else None).
Proof.
  unfold cardinality. rewrite parsed_bind, all_consuming_spec, preceded_spec, tag_app. cbn [mbind option_bind].
  rewrite rest_spec. cbn [mbind option_bind]. by rewrite simd_from_utf8_spec.
Qed.

Lemma metric_field_wire config w : ext_ok config w -> parsed (metric_field config (encode_ext w)) = Some (ext_meaning config w).
Proof.
  destruct w as [text|raw|v|n|v|v|chunk]; cbn [ext_ok encode_ext ext_meaning].
  - intros [_ [r Hr]]. change (metric_field config (b "@" ++ text)) with
      (v ← field (b "@") (map_res double (sample_rate config)) (b "@" ++ text); Ok (Some (MfSampleRate v))).
    unfold ext_rate in *. destruct (parse_decimal text) as [x|] eqn:Ex; [|done]. cbn [mbind option_bind] in *.
    rewrite parsed_bind, field_app, map_res_spec, (double_spec _ _ Ex). cbn [mbind option_bind]. by rewrite Hr.
  - intros _. change (metric_field config (b "#" ++ raw)) with
      (v ← field (b "#") (tags config) (b "#" ++ raw); Ok (Some (MfTags v))).
    by rewrite parsed_bind, field_app, tags_parsed.
  - intros [Hv Hp]. change (metric_field config (b "c:" ++ v)) with
      (if client_origin_detection config
       then l ← field (b "c:") local_data (b "c:" ++ v); Ok (Some (MfLocalData l))
       else if starts_with (b "c:" ++ v) CARDINALITY_PREFIX && client_origin_detection config
       then '(_, k) ← cardinality (b "c:" ++ v); Ok (Some (MfCardinality k)) else Ok None).
    destruct (client_origin_detection config); [|by rewrite andb_false_r]. unfold local_data.
    by rewrite parsed_bind, field_while.
  - intros Hn. change (metric_field config (b "T" ++ show_Z n)) with
      (if timestamps config then t ← field (b "T") unix_timestamp (b "T" ++ show_Z n); Ok (Some (MfTimestamp t)) else Ok None).
    destruct (timestamps config); [|done]. unfold unix_timestamp. by rewrite parsed_bind, field_uint.
  - intros [Hv Hp]. change (metric_field config (b "e:" ++ v)) with
      (if client_origin_detection config
       then e ← field (b "e:") external_data (b "e:" ++ v); Ok (Some (MfExternalData e)) else Ok None).
    destruct (client_origin_detection config); [|done]. unfold external_data. by rewrite parsed_bind, field_while.
  - intros _. change (metric_field config (b "card:" ++ v)) with
      (if starts_with (CARDINALITY_PREFIX ++ v) CARDINALITY_PREFIX && client_origin_detection config
       then '(_, k) ← cardinality (CARDINALITY_PREFIX ++ v); Ok (Some (MfCardinality k)) else Ok None).
    rewrite starts_with_app. destruct (client_origin_detection config); [|done]. cbn [andb].
    by rewrite parsed_bind, cardinality_app.
  - intros [_ Hc]. destruct chunk as [|c chunk]; [done|]. cbn [metric_field]. rewrite !Hc by set_solver. done.
Qed.

Lemma digit_not_pipe c : is_ascii_digit c = true -> c <> pipe.
Proof. by intros H' ->. Qed.

Lemma free_of (p : byte -> bool) v : p pipe = false -> Forall (fun c => p c = true) v -> pipe ∉ v.
Proof. intros Hp Hv Hin. rewrite Forall_forall in Hv. specialize (Hv _ Hin). congruence. Qed.

Lemma literal_piece n (p v : bytes) : (n <= length p)%nat -> bool_decide (pipe ∉ p) = true -> pipe ∉ v -> piece n (p ++ v).
Proof.
  intros Hl Hp%bool_decide_eq_true_1 Hv. split; [rewrite length_app; lia|]. rewrite elem_of_app. tauto.
Qed.

Lemma show_Z_free n : 0 <= n -> pipe ∉ show_Z n.
Proof. intros Hn. destruct (show_Z_spec n Hn) as (_ & Hd & _). by apply (free_of is_ascii_digit). Qed.

Lemma encode_ext_piece config w : ext_ok config w -> piece 1 (encode_ext w).
Proof.
  destruct w as [text|raw|v|n|v|v|chunk]; cbn [ext_ok encode_ext].
  - intros [Hp _]. by apply literal_piece; [cbn; lia|..].
  - intros Hp. by apply literal_piece; [cbn; lia|..].
  - intros [_ Hp]. apply literal_piece; [cbn; lia|done|]. by apply (free_of local_data_char).
  - intros [Hn _]. apply literal_piece; [cbn; lia|done|by apply show_Z_free].
  - intros [_ Hp]. apply literal_piece; [cbn; lia|done|]. by apply (free_of external_data_char).
  - intros Hp. by apply literal_piece; [cbn; lia|..].
  - intros [Hp Hc]. destruct chunk; [done|]. split; [cbn; lia|done].
Qed.

(** ** The required fields of metrics *)

Lemma starts_with_cons c l d p : starts_with (c :: l) (d :: p) = bool_decide (c = d) && starts_with l p.
Proof.
  unfold starts_with. rewrite <- bool_decide_and. apply bool_decide_ext. split.
  - intros Hp. split; [symmetry; by eapply prefix_cons_inv_1|by eapply prefix_cons_inv_2].
  - intros [-> Hp]. by apply prefix_cons.
Qed.

Lemma starts_with_nil l : starts_with l [] = true.
Proof. apply bool_decide_eq_true_2. by exists l. Qed.

(** The kinds can be told apart by what they start with. *)
Lemma kind_starts t t' r : starts_with (encode_type t ++ r) (encode_type t') = bool_decide (encode_type t = encode_type t').
Proof.
  destruct t, t'; cbv -[starts_with bool_decide]; rewrite ?starts_with_cons, ?starts_with_nil; reflexivity.
Qed.

Lemma kind_parsed t r :
  parsed (alt [tag (b "g"); tag (b "c"); tag (b "ms"); tag (b "h"); tag (b "s"); tag (b "d")] (encode_type t ++ r)) =
  Some (r, encode_type t).
Proof.
  rewrite !alt_cons_spec, alt_nil_spec, !tag_spec.
  change (b "g") with (encode_type TGauge). change (b "c") with (encode_type TCount).
  change (b "ms") with (encode_type TTimer). change (b "h") with (encode_type THistogram).
  change (b "s") with (encode_type TSet). change (b "d") with (encode_type TDistribution).
  rewrite !kind_starts. by destruct t.
Qed.

Lemma metric_kind_encode t : metric_kind (encode_type t) = t.
Proof. by destruct t. Qed.

(** The values, up to the pipe *)
Definition raw_ok (raw : bytes) : Prop := raw <> [] /\ pipe ∉ raw /\ valid_utf8 raw.

Lemma not_pipe_spec c : not_pipe c = true <-> c <> pipe.
Proof.
  unfold not_pipe, is_byte. rewrite negb_true_iff, Z.eqb_neq. split; [by intros H' ->|]. intros Hc E. apply Hc.
  rewrite <- (Z_byte_byte_Z c), E. done.
Qed.

Lemma raw_values_parsed t raw r : raw_ok raw ->
  parsed (raw_metric_values (raw ++ b "|" ++ encode_type t ++ r)) = Some (r, (t, raw)).
Proof.
  intros (Hne & Hp & Hv). unfold raw_metric_values. rewrite parsed_bind, terminated_spec, take_while1_app; [|done| |done].
  - cbn [mbind option_bind]. rewrite tag_app. cbn [mbind option_bind]. rewrite parsed_bind, kind_parsed. cbn [mbind option_bind].
    rewrite simd_from_utf8_spec, (proj2 (is_utf8_spec raw)), bool_decide_false by done. cbn. by rewrite metric_kind_encode.
  - apply Forall_forall. intros c Hc. apply not_pipe_spec. by intros ->.
Qed.

Lemma name_not_colon config : name_char config colon = false.
Proof. unfold name_char. by destruct (permissive config). Qed.

(** ** The values of metrics *)

(** The finite numbers of a text, when all of its pieces are numbers *)
Definition numbers (raw : bytes) : option (list f64) := List.filter is_finite <$> mapM parse_f64 (fields colon raw).

Lemma floats_numbers raw xs : numbers raw = Some xs -> floats raw = Ok <$> xs.
Proof.
  unfold numbers. intros (ys & Hy & ->)%fmap_Some. rewrite floats_spec. apply mapM_Some in Hy.
  induction Hy as [|f y fs ys Hf Hy IH]; [done|]. cbn [omap list_omap List.filter]. unfold float_of at 1. rewrite Hf, IH.
  by destruct (is_finite y).
Qed.

Definition values_of (t : MetricType) (raw : bytes) (xs : list f64) (rate : option SampleRate) : MetricValues S :=
  let r := default unsampled rate in
  match t with
  | TCount => Counter (fold_left (fun pts x => add_point None (f64_mul x (raw_weight r)) pts) xs [])
  | TGauge => Gauge (fold_left (fun pts x => add_point None x pts) xs [])
  | TSet => Set_ [TV None {[ String.string_of_list_byte raw ]}]
  | TTimer | THistogram => HistogramV [TV None (fold_left (fun h x => Histogram_insert x r h) xs Histogram_default)]
  | TDistribution => Distribution [TV None (fold_left (fun s x => sketch_insert_n x (weight r) s) xs sketch_default)]
  end.

Definition points_of (t : MetricType) (xs : list f64) : Z := match t with TSet => 1 | _ => length xs end.

(** Sets take any text, the other types numbers. *)
Definition values_ok (t : MetricType) (raw : bytes) (xs : list f64) : Prop :=
  match t with TSet => xs = [] | _ => numbers raw = Some xs end.

Lemma values_parsed t raw xs rate : values_ok t raw xs ->
  metric_values_from_raw raw t rate = Ok (points_of t xs, values_of t raw xs rate).
Proof.
  intros Hx. unfold metric_values_from_raw, values_of, points_of.
  destruct t; cbn [values_ok] in Hx; [..|done| | |]; rewrite (floats_numbers _ _ Hx), length_fmap;
    unfold counter_sampled_fallible, gauge_fallible, histogram_sampled_fallible, distribution_sampled_fallible;
    by rewrite collect_results_ok.
Qed.

(** ** The last of several fields counts *)

Lemma foldl_last {F X A} (set : F -> X -> X) (proj : X -> option A) (pick : F -> option A) fs x :
  (forall f x, proj (set f x) = match pick f with Some a => Some a | None => proj x end) ->
  proj (foldl (assign set) x fs) = match last (omap (fun f => f ≫= pick) fs) with Some a => Some a | None => proj x end.
Proof.
  intros Hset. induction fs as [|f fs IH] using rev_ind; [done|]. rewrite foldl_snoc, omap_app. cbn [omap list_omap].
  destruct f as [f|]; cbn [mbind option_bind assign].
  - rewrite Hset. destruct (pick f) as [a|]; cbn; [by rewrite last_snoc|]. by rewrite app_nil_r.
  - by rewrite app_nil_r.
Qed.

(** The same for a field that may be assigned [None] *)
Lemma foldl_last_join {F X A} (set : F -> X -> X) (proj : X -> option A) (pick : F -> option (option A)) fs x :
  (forall f x, proj (set f x) = match pick f with Some a => a | None => proj x end) ->
  proj (foldl (assign set) x fs) = match last (omap (fun f => f ≫= pick) fs) with Some a => a | None => proj x end.
Proof.
  intros Hset. induction fs as [|f fs IH] using rev_ind; [done|]. rewrite foldl_snoc, omap_app. cbn [omap list_omap].
  destruct f as [f|]; cbn [mbind option_bind assign].
  - rewrite Hset. destruct (pick f) as [a|]; cbn; [by rewrite last_snoc|]. by rewrite app_nil_r.
  - by rewrite app_nil_r.
Qed.

Definition mf_rate (f : MetricField) := match f with MfSampleRate v => Some v | _ => None end.
Definition mf_tags (f : MetricField) := match f with MfTags v => Some v | _ => None end.
Definition mf_local (f : MetricField) := match f with MfLocalData v => Some v | _ => None end.
Definition mf_timestamp (f : MetricField) := match f with MfTimestamp v => Some v | _ => None end.
Definition mf_external (f : MetricField) := match f with MfExternalData v => Some v | _ => None end.
Definition mf_cardinality (f : MetricField) := match f with MfCardinality v => Some v | _ => None end.

(** The last field of a kind, among those that are read *)
Definition last_field {W F A} (meaning : W -> option F) (pick : F -> option A) (ws : list W) : option A :=
  last (omap (fun w => meaning w ≫= pick) ws).

(** The packet a metric stands for *)
Definition packet_of (config : DogStatsDCodecConfiguration) (name : bytes) (t : MetricType) (raw : bytes) (xs : list f64)
    (ws : list MetricWire) : MetricPacket :=
  let ts := last_field (ext_meaning config) mf_timestamp ws in
  let rate := if is_count t && bool_decide (is_Some ts) then None else last_field (ext_meaning config) mf_rate ws in
  {| metric_name := name; mp_tags := default RawTags_empty (last_field (ext_meaning config) mf_tags ws);
     mp_values := match ts with Some n => MetricValues_set_timestamp n (values_of t raw xs rate) | None => values_of t raw xs rate end;
     num_points := points_of t xs; mp_timestamp := ts; mp_local_data := last_field (ext_meaning config) mf_local ws;
     mp_external_data := last_field (ext_meaning config) mf_external ws; mp_cardinality := mjoin (last_field (ext_meaning config) mf_cardinality ws);
     mp_unit := if is_timer t then Some (b "millisecond") else None |}.

Lemma match_None_r {A} (o : option A) : match o with Some a => Some a | None => None end = o.
Proof. by destruct o. Qed.

Lemma omap_meaning {W F A} (meaning : W -> option F) (pick : F -> option A) (ws : list W) :
  omap (fun f => f ≫= pick) (meaning <$> ws) = omap (fun w => meaning w ≫= pick) ws.
Proof. induction ws as [|w ws IH]; [done|]. cbn. by rewrite IH. Qed.

Lemma packet_parsed config name t raw xs ws : values_ok t raw xs ->
  metric_packet name t raw (foldl (assign set_metric_field) no_metric_exts (ext_meaning config <$> ws)) =
  Ok (packet_of config name t raw xs ws).
Proof.
  intros Hx. unfold metric_packet, packet_of, last_field. rewrite <- !(omap_meaning (ext_meaning config)).
  set (fs := ext_meaning config <$> ws).
  rewrite (foldl_last set_metric_field maybe_timestamp mf_timestamp) by (by intros []).
  rewrite (foldl_last set_metric_field maybe_sample_rate mf_rate) by (by intros []).
  rewrite (foldl_last set_metric_field maybe_tags mf_tags) by (by intros []).
  rewrite (foldl_last set_metric_field maybe_local_data mf_local) by (by intros []).
  rewrite (foldl_last set_metric_field maybe_external_data mf_external) by (by intros []).
  rewrite (foldl_last_join set_metric_field maybe_cardinality mf_cardinality) by (by intros []).
  cbn [no_metric_exts maybe_timestamp maybe_sample_rate maybe_tags maybe_local_data maybe_external_data maybe_cardinality].
  rewrite !match_None_r, (values_parsed _ _ _ _ Hx). done.
Qed.

Lemma Forall2_wire {W F} (ok : W -> Prop) (meaning : W -> option F) (encode : W -> bytes) read ws :
  (forall w, ok w -> parsed (read (encode w)) = Some (meaning w)) -> Forall ok ws ->
  Forall2 (fun f c => parsed (E := error) (read c) = Some f) (meaning <$> ws) (encode <$> ws).
Proof. intros Hr. induction 1 as [|w ws Hw Hws IH]; constructor; auto. Qed.

(** C9: Metrics round trip: a packet with a name, a type, values and any sequence of extension fields
    that the protocol allows is decoded completely, to its name, its type's values with the sample
    rate applied (a count that has a timestamp is not scaled), and for every kind of extension field
    that the configuration reads the last one given; unknown fields and fields the configuration
    switches off are skipped, and values that are not finite are left out. *)
Theorem metric_roundtrip config name t raw xs ws :
  name <> [] -> Forall (fun c => name_char config c = true) name -> raw_ok raw -> values_ok t raw xs ->
  Forall (ext_ok config) ws ->
  parsed (parse_dogstatsd_metric (encode_metric name t raw ws) config) = Some ([], packet_of config name t raw xs ws).
Proof.
  intros Hne Hname Hraw Hx Hws. unfold parse_dogstatsd_metric, encode_metric.
  rewrite parsed_bind, separated_pair_spec.
  assert (parsed ((if permissive config then permissive_metric_name else ascii_alphanum_and_seps)
    (name ++ b ":" ++ raw ++ b "|" ++ encode_type t ++ wire_chunks (encode_ext <$> ws))) =
    Some (b ":" ++ raw ++ b "|" ++ encode_type t ++ wire_chunks (encode_ext <$> ws), name)) as ->.
  { unfold name_char in Hname. destruct (permissive config); by apply take_while1_app. }
  cbn [mbind option_bind]. rewrite tag_app. cbn [mbind option_bind]. rewrite raw_values_parsed by done.
  cbn [mbind option_bind]. rewrite parsed_bind, extensions_run; [|done|].
  - unfold metric_chunk. rewrite (run_fields _ _ (ext_meaning config <$> ws)).
    + cbn [mbind option_bind]. rewrite parsed_bind, (packet_parsed _ _ _ _ xs) by done. done.
    + apply (Forall2_wire (ext_ok config)); [|done]. intros w. by apply metric_field_wire.
  - apply Forall_fmap. eapply Forall_impl; [exact Hws|]. intros w. apply encode_ext_piece.
Qed.

(** ** Extension fields of events and service checks *)

Lemma is_prefix2_app p v p' : length p = 2%nat -> is_prefix2 (p ++ v) p' = bool_decide (p = p').
Proof. intros Hl. unfold is_prefix2. by rewrite <- Hl, take_app_length. Qed.

Lemma is_prefix2_starts l p : length p = 2%nat -> is_prefix2 l p = starts_with l p.
Proof.
  intros Hl. apply bool_decide_ext. rewrite <- Hl. split.
  - intros E. exists (drop (length p) l). by rewrite <- E at 1; rewrite take_drop.
  - intros [k ->]. by rewrite take_app_length.
Qed.

Lemma starts_with_literal (p v : bytes) q : (length q <= length p)%nat -> starts_with (p ++ v) q = starts_with p q.
Proof.
  intros Hl. apply bool_decide_ext. split.
  - intros Hq. destruct (prefix_weak_total q p (p ++ v)) as [Hp|Hp]; [done|by apply prefix_app_r|done|].
    by rewrite (prefix_length_eq p q) by (done || lia).
  - intros [k ->]. rewrite <- app_assoc. by exists (k ++ v).
Qed.

Lemma literal_ne (p v : bytes) : v <> [] -> bool_decide (p ++ v = p) = false.
Proof. intros Hv. apply bool_decide_eq_false. intros E. apply Hv. rewrite <- (app_nil_r p) in E at 2. by simplify_list_eq. Qed.

(** The prefixes of event and service check fields *)
Definition word (p : byte -> bool) (v : bytes) : Prop := v <> [] /\ Forall (fun c => p c = true) v.

Definition event_ext_ok (w : EventWire) : Prop :=
  match w with
  | EwTimestamp n => is_u64 n
  | EwHostname v | EwAggregationKey v | EwPriority v | EwSourceType v | EwAlertType v => word alphanum_or_sep v
  | EwLocalData v => word local_data_char v
  | EwExternalData v => word external_data_char v
  | EwCardinality v | EwTags v => v <> [] /\ pipe ∉ v
  | EwUnknown chunk => piece 2 chunk /\
      (forall p, p ∈ [TIMESTAMP_PREFIX; HOSTNAME_PREFIX; AGGREGATION_KEY_PREFIX; PRIORITY_PREFIX; SOURCE_TYPE_PREFIX;
                      ALERT_TYPE_PREFIX; LOCAL_DATA_PREFIX; EXTERNAL_DATA_PREFIX; CARDINALITY_PREFIX; TAGS_PREFIX] ->
         starts_with chunk p = false)
  end.

Definition event_ext_meaning (config : DogStatsDCodecConfiguration) (w : EventWire) : option EventField :=
  match w with
  | EwTimestamp n => Some (EvTimestamp n)
  | EwHostname v => Some (EvHostname v)
  | EwAggregationKey v => Some (EvAggregationKey v)
  | EwPriority v => Some (EvPriority (Priority_try_from_string v))
  | EwSourceType v => Some (EvSourceType v)
  | EwAlertType v => Some (EvAlertType (AlertType_try_from_string v))
  | EwLocalData v => if client_origin_detection config then Some (EvLocalData v) else None
  | EwExternalData v => if client_origin_detection config then Some (EvExternalData v) else None
  | EwCardinality v =>
      if client_origin_detection config
      then Some (EvCardinality (if is_utf8 v then OriginTagCardinality_try_from v else None)) else None
  | EwTags raw => Some (EvTags (tag_block config raw))
  | EwUnknown _ => None
  end.

(** Decide which literal a piece starts with. *)
Ltac literal_cases :=
  rewrite ?is_prefix2_starts by reflexivity;
  rewrite ?starts_with_literal by (cbn; lia);
  repeat match goal with
  | |- context [starts_with ?p ?q] =>
      let r := eval vm_compute in (starts_with p q) in
      lazymatch r with true => change (starts_with p q) with true | false => change (starts_with p q) with false end
  end; cbn [andb].

Ltac word_field :=
  literal_cases; rewrite ?literal_ne by done; cbn [negb andb];
  unfold ascii_alphanum_and_seps, local_data, external_data; by rewrite parsed_bind, field_while.

Lemma event_field_wire config w : event_ext_ok w ->
  parsed (event_field config (encode_event_ext w)) = Some (event_ext_meaning config w).
Proof.
  unfold event_field. destruct w as [n|v|v|v|v|v|v|v|v|raw|chunk]; cbn [event_ext_ok encode_event_ext event_ext_meaning].
  - intros Hn. literal_cases. unfold unix_timestamp. by rewrite parsed_bind, field_uint.
  - intros [Hv Hp]. word_field.
  - intros [Hv Hp]. word_field.
  - intros [Hv Hp]. word_field.
  - intros [Hv Hp]. word_field.
  - intros [Hv Hp]. word_field.
  - intros [Hv Hp]. destruct (client_origin_detection config); [word_field|]. literal_cases. by rewrite ?andb_false_r.
  - intros [Hv Hp]. destruct (client_origin_detection config); [word_field|]. literal_cases. by rewrite ?andb_false_r.
  - intros [Hv Hp]. destruct (client_origin_detection config); literal_cases; [|by rewrite ?andb_false_r].
    rewrite literal_ne by done. cbn [negb]. by rewrite parsed_bind, cardinality_app.
  - intros [Hv Hp]. literal_cases. rewrite literal_ne by done. cbn [negb].
    rewrite parsed_bind. change (b "#") with TAGS_PREFIX. by rewrite field_app, tags_parsed.
  - intros [_ Hc]. rewrite !is_prefix2_starts by reflexivity. rewrite !Hc by set_solver. done.
Qed.

Definition check_ext_ok (w : CheckWire) : Prop :=
  match w with
  | CwTimestamp n => is_u64 n
  | CwHostname v => word alphanum_or_sep v
  | CwLocalData v => word local_data_char v
  | CwExternalData v => word external_data_char v
  | CwTags v => v <> [] /\ pipe ∉ v
  | CwMessage v => valid_utf8 v /\ pipe ∉ v
  | CwCardinality v => pipe ∉ v
  | CwUnknown chunk => piece 2 chunk /\
      (forall p, p ∈ [TIMESTAMP_PREFIX; HOSTNAME_PREFIX; LOCAL_DATA_PREFIX; EXTERNAL_DATA_PREFIX; TAGS_PREFIX;
                      SERVICE_CHECK_MESSAGE_PREFIX; CARDINALITY_PREFIX] -> starts_with chunk p = false)
  end.

Definition check_ext_meaning (config : DogStatsDCodecConfiguration) (w : CheckWire) : option CheckField :=
  match w with
  | CwTimestamp n => Some (CkTimestamp n)
  | CwHostname v => Some (CkHostname v)
  | CwLocalData v => if client_origin_detection config then Some (CkLocalData v) else None
  | CwExternalData v => if client_origin_detection config then Some (CkExternalData v) else None
  | CwTags raw => Some (CkTags (tag_block config raw))
  | CwMessage v => Some (CkMessage v)
  | CwCardinality v =>
      if client_origin_detection config
      then Some (CkCardinality (if is_utf8 v then OriginTagCardinality_try_from v else None)) else None
  | CwUnknown _ => None
  end.

Lemma check_field_wire config w : check_ext_ok w ->
  parsed (check_field config (encode_check_ext w)) = Some (check_ext_meaning config w).
Proof.
  unfold check_field. destruct w as [n|v|v|v|raw|v|v|chunk]; cbn [check_ext_ok encode_check_ext check_ext_meaning].
  - intros Hn. literal_cases. unfold unix_timestamp. by rewrite parsed_bind, field_uint.
  - intros [Hv Hp]. word_field.
  - intros [Hv Hp]. destruct (client_origin_detection config); [word_field|]. by literal_cases.
  - intros [Hv Hp]. destruct (client_origin_detection config); [word_field|]. by literal_cases.
  - intros [Hv Hp]. literal_cases. by rewrite parsed_bind, field_app, tags_parsed.
  - intros [Hv Hp]. literal_cases. rewrite parsed_bind, field_app. unfold utf8.
    by rewrite simd_from_utf8_spec, (proj2 (is_utf8_spec v)).
  - intros Hp. destruct (client_origin_detection config); literal_cases; [|done]. by rewrite parsed_bind, cardinality_app.
  - intros [_ Hc]. rewrite !is_prefix2_starts by reflexivity. rewrite !Hc by set_solver. done.
Qed.

Lemma word_free (p : byte -> bool) v : p pipe = false -> word p v -> pipe ∉ v.
Proof. intros Hp [_ Hv]. by apply (free_of p). Qed.

Lemma event_ext_piece w : event_ext_ok w -> piece 2 (encode_event_ext w).
Proof.
  destruct w as [n|v|v|v|v|v|v|v|v|raw|chunk]; cbn [event_ext_ok encode_event_ext]; [|..|by intros [? _]]; intros Hw;
    try (apply literal_piece; [cbn; lia|done|]; by apply word_free in Hw).
  - destruct Hw. apply literal_piece; [cbn; lia|done|by apply show_Z_free].
  - apply literal_piece; [cbn; lia|done|apply Hw].
  - destruct Hw as [Hne Hp]. split; [rewrite length_app; destruct raw; cbn; [done|lia]|].
    rewrite elem_of_app. intros [Hin|Hin]; [|done]. by apply (bool_decide_eq_true_1 (pipe ∉ TAGS_PREFIX)) in Hin.
Qed.

Lemma check_ext_piece w : check_ext_ok w -> piece 2 (encode_check_ext w).
Proof.
  destruct w as [n|v|v|v|raw|v|v|chunk]; cbn [check_ext_ok encode_check_ext]; [|..|by intros [? _]]; intros Hw;
    try (apply literal_piece; [cbn; lia|done|]; by apply word_free in Hw).
  - destruct Hw. apply literal_piece; [cbn; lia|done|by apply show_Z_free].
  - destruct Hw as [Hne Hp]. split; [rewrite length_app; destruct raw; cbn; [done|lia]|].
    rewrite elem_of_app. intros [Hin|Hin]; [|done]. by apply (bool_decide_eq_true_1 (pipe ∉ TAGS_PREFIX)) in Hin.
  - apply literal_piece; [cbn; lia|done|apply Hw].
  - by apply literal_piece; [cbn; lia|..].
Qed.

(** ** Events *)

Lemma some_bind {A B} (a : A) (f : A -> option B) : Some a ≫= f = f a.
Proof. done. Qed.

Ltac bind_step := repeat (rewrite some_bind; cbv beta iota).

Definition ev_pick_priority (f : EventField) := match f with EvPriority v => Some v | _ => None end.
Definition ev_pick_alert (f : EventField) := match f with EvAlertType v => Some v | _ => None end.
Definition ev_pick_timestamp (f : EventField) := match f with EvTimestamp v => Some v | _ => None end.
Definition ev_pick_hostname (f : EventField) := match f with EvHostname v => Some v | _ => None end.
Definition ev_pick_key (f : EventField) := match f with EvAggregationKey v => Some v | _ => None end.
Definition ev_pick_source (f : EventField) := match f with EvSourceType v => Some v | _ => None end.
Definition ev_pick_tags (f : EventField) := match f with EvTags v => Some v | _ => None end.
Definition ev_pick_local (f : EventField) := match f with EvLocalData v => Some v | _ => None end.
Definition ev_pick_external (f : EventField) := match f with EvExternalData v => Some v | _ => None end.
Definition ev_pick_cardinality (f : EventField) := match f with EvCardinality v => Some v | _ => None end.

(** The packet an event stands for *)
Definition event_of (config : DogStatsDCodecConfiguration) (title text : bytes) (ws : list EventWire) : EventPacket :=
  let last_ev {A} (pick : EventField -> option A) := last_field (event_ext_meaning config) pick ws in
  {| ep_title := unescape_newlines title; ep_text := unescape_newlines text; ep_timestamp := last_ev ev_pick_timestamp;
     ep_hostname := last_ev ev_pick_hostname; ep_aggregation_key := last_ev ev_pick_key;
     ep_priority := default (Some PriorityNormal) (last_ev ev_pick_priority);
     ep_alert_type := default (Some AlertInfo) (last_ev ev_pick_alert); ep_source_type_name := last_ev ev_pick_source;
     ep_tags := default RawTags_empty (last_ev ev_pick_tags); ep_local_data := last_ev ev_pick_local;
     ep_external_data := last_ev ev_pick_external; ep_cardinality := mjoin (last_ev ev_pick_cardinality) |}.

Definition text_ok (l : bytes) : Prop := l <> [] /\ valid_utf8 l /\ length l < 2 ^ 32.

Lemma event_text_valid raw : valid_utf8 raw -> event_text raw = Ok (unescape_newlines raw).
Proof. intros Hv. unfold event_text. by rewrite simd_from_utf8_spec, (proj2 (is_utf8_spec raw)). Qed.

Lemma take_n_app l r : parsed (take_n (length l) (l ++ r)) = Some (r, l).
Proof.
  rewrite take_n_spec, (proj2 (Z.leb_le _ _)) by (rewrite length_app; lia). by rewrite Nat2Z.id, drop_app_length, take_app_length.
Qed.

Lemma event_header_parsed n k r : 0 <= n < 2 ^ 32 -> 0 <= k < 2 ^ 32 ->
  parsed (delimited (tag EVENT_PREFIX) (separated_pair (parse_uint 32) (tag (b ",")) (parse_uint 32)) (tag (b "}:"))
    (EVENT_PREFIX ++ show_Z n ++ b "," ++ show_Z k ++ b "}:" ++ r)) = Some (r, (n, k)).
Proof.
  intros Hn Hk. rewrite delimited_spec, tag_app. cbn [mbind option_bind].
  rewrite separated_pair_spec, parse_uint_app; [|unfold umax; lia|done]. cbn [mbind option_bind]. rewrite tag_app. cbn [mbind option_bind].
  rewrite parse_uint_app; [|unfold umax; lia|done]. cbn [mbind option_bind]. by rewrite tag_app.
Qed.

(** Events round trip: an event with its title, its text and any sequence of extension fields that
    the protocol allows is decoded completely, with escaped newlines restored, and for every kind of
    field the last one given, or the default. *)
Theorem event_roundtrip config title text ws : text_ok title -> text_ok text -> Forall event_ext_ok ws ->
  parsed (parse_dogstatsd_event (encode_event title text ws) config) = Some ([], event_of config title text ws).
Proof.
  intros (Ht1 & Ht2 & Ht3) (Hx1 & Hx2 & Hx3) Hws. unfold parse_dogstatsd_event, encode_event.
  rewrite parsed_bind, event_header_parsed by lia. bind_step.
  rewrite !(proj2 (Z.eqb_neq _ _)) by (destruct title, text; cbn; done || lia). cbn [orb].
  rewrite parsed_bind, separated_pair_spec, take_n_app. bind_step. rewrite tag_app. bind_step.
  rewrite take_n_app. bind_step. rewrite parsed_bind, (event_text_valid title) by done. cbn [parsed]. bind_step.
  rewrite parsed_bind, (event_text_valid text) by done. cbn [parsed]. bind_step. rewrite parsed_bind, extensions_run; [|lia|].
  - unfold event_chunk. rewrite (run_fields _ _ (event_ext_meaning config <$> ws)).
    + bind_step. unfold event_of, last_field. rewrite <- !(omap_meaning (event_ext_meaning config)).
      set (fs := event_ext_meaning config <$> ws).
      rewrite (foldl_last set_event_field ev_timestamp ev_pick_timestamp) by (by intros []).
      rewrite (foldl_last set_event_field ev_hostname ev_pick_hostname) by (by intros []).
      rewrite (foldl_last set_event_field ev_aggregation_key ev_pick_key) by (by intros []).
      rewrite (foldl_last set_event_field ev_source_type ev_pick_source) by (by intros []).
      rewrite (foldl_last set_event_field ev_tags ev_pick_tags) by (by intros []).
      rewrite (foldl_last set_event_field ev_local_data ev_pick_local) by (by intros []).
      rewrite (foldl_last set_event_field ev_external_data ev_pick_external) by (by intros []).
      rewrite (foldl_last_join set_event_field ev_priority ev_pick_priority) by (by intros []).
      rewrite (foldl_last_join set_event_field ev_alert_type ev_pick_alert) by (by intros []).
      rewrite (foldl_last_join set_event_field ev_cardinality ev_pick_cardinality) by (by intros []).
      by rewrite !match_None_r.
    + apply (Forall2_wire event_ext_ok); [|done]. intros w. by apply event_field_wire.
  - apply Forall_fmap. eapply Forall_impl; [exact Hws|]. intros w. apply event_ext_piece.
Qed.

(** ** Service checks *)

Definition ck_pick_timestamp (f : CheckField) := match f with CkTimestamp v => Some v | _ => None end.
Definition ck_pick_hostname (f : CheckField) := match f with CkHostname v => Some v | _ => None end.
Definition ck_pick_tags (f : CheckField) := match f with CkTags v => Some v | _ => None end.
Definition ck_pick_message (f : CheckField) := match f with CkMessage v => Some v | _ => None end.
Definition ck_pick_local (f : CheckField) := match f with CkLocalData v => Some v | _ => None end.
Definition ck_pick_external (f : CheckField) := match f with CkExternalData v => Some v | _ => None end.
Definition ck_pick_cardinality (f : CheckField) := match f with CkCardinality v => Some v | _ => None end.

(** The packet a service check stands for *)
Definition check_of (config : DogStatsDCodecConfiguration) (name : bytes) (s : CheckStatus) (ws : list CheckWire) : ServiceCheckPacket :=
  let last_ck {A} (pick : CheckField -> option A) := last_field (check_ext_meaning config) pick ws in
  {| sp_name := name; sp_status := s; sp_timestamp := last_ck ck_pick_timestamp; sp_hostname := last_ck ck_pick_hostname;
     sp_message := last_ck ck_pick_message; sp_tags := default RawTags_empty (last_ck ck_pick_tags);
     sp_local_data := last_ck ck_pick_local; sp_external_data := last_ck ck_pick_external;
     sp_cardinality := mjoin (last_ck ck_pick_cardinality) |}.

Lemma status_roundtrip s : CheckStatus_try_from (encode_status s) = Some s.
Proof. by destruct s. Qed.

Lemma wire_chunks_no_digit cs : match wire_chunks cs with c :: _ => is_ascii_digit c = false | [] => True end.
Proof. by destruct cs. Qed.

(** Service checks round trip: a service check with its name, its status and any sequence of
    extension fields that the protocol allows is decoded completely, and for every kind of field to
    the last one given. *)
Theorem service_check_roundtrip config name s ws : word alphanum_or_sep name -> Forall check_ext_ok ws ->
  parsed (parse_dogstatsd_service_check (encode_check name s ws) config) = Some ([], check_of config name s ws).
Proof.
  intros [Hne Hname] Hws. unfold parse_dogstatsd_service_check, encode_check.
  rewrite parsed_bind, preceded_spec, tag_app. bind_step. unfold ascii_alphanum_and_seps.
  rewrite separated_pair_spec, take_while1_app by done. bind_step. rewrite tag_app. bind_step.
  rewrite parse_uint_app; [|destruct s; unfold umax; cbn; lia|apply wire_chunks_no_digit]. bind_step.
  rewrite parsed_bind, status_roundtrip. cbn [parsed]. bind_step. rewrite parsed_bind, extensions_run; [|lia|].
  - unfold check_chunk. rewrite (run_fields _ _ (check_ext_meaning config <$> ws)).
    + bind_step. unfold check_of, last_field. rewrite <- !(omap_meaning (check_ext_meaning config)).
      set (fs := check_ext_meaning config <$> ws).
      rewrite (foldl_last set_check_field ck_timestamp ck_pick_timestamp) by (by intros []).
      rewrite (foldl_last set_check_field ck_hostname ck_pick_hostname) by (by intros []).
      rewrite (foldl_last set_check_field ck_tags ck_pick_tags) by (by intros []).
      rewrite (foldl_last set_check_field ck_message ck_pick_message) by (by intros []).
      rewrite (foldl_last set_check_field ck_local_data ck_pick_local) by (by intros []).
      rewrite (foldl_last set_check_field ck_external_data ck_pick_external) by (by intros []).
      rewrite (foldl_last_join set_check_field ck_cardinality ck_pick_cardinality) by (by intros []).
      by rewrite !match_None_r.
    + apply (Forall2_wire check_ext_ok); [|done]. intros w. by apply check_field_wire.
  - apply Forall_fmap. eapply Forall_impl; [exact Hws|]. intros w. apply check_ext_piece.
Qed.

(** ** Whatever is accepted is safe to use *)

Lemma parsed_Some {E A} (r : result E A) a : parsed r = Some a <-> r = Ok a.
Proof. destruct r; cbn; naive_solver. Qed.

(** A property that every handled piece keeps holds at the end of the loop. *)
Lemma chunk_loop_inv {X} (P : X -> Prop) fuel shortest (handle : bytes -> X -> result error X) remaining x r x' :
  (forall c x x', handle c x = Ok x' -> P x -> P x') -> P x ->
  chunk_loop fuel shortest handle remaining x = Ok (r, x') -> P x'.
Proof.
  intros Hh. revert remaining x. induction fuel as [|fuel IH]; intros remaining x Hx; cbn [chunk_loop]; [by intros [= _ <-]|].
  destruct (split_at_delimiter pipe remaining) as [[c tail]|]; [|by intros [= _ <-]].
  destruct (length c <? shortest)%nat; [by intros [= _ <-]|]. destruct (handle c x) as [y|e] eqn:Eh; [|done].
  cbn [mbind result_bind]. apply IH. by eapply Hh.
Qed.

Lemma extensions_inv {X} (P : X -> Prop) shortest (handle : bytes -> X -> result error X) remaining x r x' :
  (forall c x x', handle c x = Ok x' -> P x -> P x') -> P x ->
  parsed (extensions shortest handle remaining x) = Some (r, x') -> P x'.
Proof.
  intros Hh Hx. unfold extensions. destruct remaining as [|c l]; [by intros [= _ <-]|]. rewrite parsed_bind.
  destruct (parsed (tag _ _)) as [[r0 ?]|]; [|done]. bind_step. rewrite parsed_Some. by apply chunk_loop_inv.
Qed.

Lemma apply_field_inv {F X} (P : X -> Prop) (Q : F -> Prop) (set : F -> X -> X) read :
  (forall c f, parsed (read c) = Some (Some f) -> Q f) -> (forall f x, Q f -> P x -> P (set f x)) ->
  forall c x x', apply_field set read c x = Ok x' -> P x -> P x'.
Proof.
  intros Hq Hset c x x' E Hx. unfold apply_field in E. destruct (read c) as [[f|]|e] eqn:Er; cbn in E; simplify_eq; [|done].
  apply Hset; [|done]. apply (Hq c). by rewrite Er.
Qed.

Lemma field_inv {A} prefix (p : bytes -> result error (bytes * A)) chunk a :
  parsed (field prefix p chunk) = Some a -> exists v, parsed (p v) = Some ([], a).
Proof.
  unfold field. rewrite parsed_bind, all_consuming_spec, preceded_spec.
  destruct (parsed (tag prefix chunk)) as [[v ?]|]; [|done]. bind_step.
  destruct (parsed (p v)) as [[[|] a']|] eqn:Ep; cbn; intros ?; simplify_eq. by exists v.
Qed.

Lemma take_while1_inv p i r x : parsed (take_while1 p i) = Some (r, x) -> word p x.
Proof.
  rewrite take_while1_spec. destruct (span p i) as [x' r'] eqn:Es. apply span_spec in Es as (_ & Hx & _).
  destruct x' as [|c x']; [done|]. intros ?. by simplify_eq.
Qed.

Lemma word_valid (p : byte -> bool) v : (forall c, p c = true -> is_ascii c = true) -> word p v -> valid_utf8 v.
Proof. intros Hp [_ Hv]. apply valid_ascii. eapply Forall_impl; [exact Hv|apply Hp]. Qed.

Lemma name_char_ascii config c : name_char config c = true -> is_ascii c = true.
Proof. unfold name_char. destruct (permissive config); by destruct c. Qed.
Lemma alphanum_ascii c : alphanum_or_sep c = true -> is_ascii c = true.
Proof. by destruct c. Qed.
Lemma local_data_ascii c : local_data_char c = true -> is_ascii c = true.
Proof. by destruct c. Qed.
Lemma external_data_ascii c : external_data_char c = true -> is_ascii c = true.
Proof. by destruct c. Qed.

(** What the fields of metrics are once they are accepted *)
Definition metric_field_ok (config : DogStatsDCodecConfiguration) (f : MetricField) : Prop :=
  match f with
  | MfSampleRate r => in_unit (rate r) = true
  | MfTags t => valid_utf8 (raw_tags t) /\ max_tag_count t = maximum_tag_count config /\ max_tag_len t = maximum_tag_length config
  | MfLocalData v => client_origin_detection config = true /\ word local_data_char v
  | MfTimestamp n => timestamps config = true /\ is_u64 n
  | MfExternalData v => client_origin_detection config = true /\ word external_data_char v
  | MfCardinality _ => client_origin_detection config = true
  end.

Lemma tag_block_ok config raw : valid_utf8 (raw_tags (tag_block config raw)).
Proof. apply to_valid_utf8_valid. Qed.

Lemma sample_rate_ok config x r : parsed (sample_rate config x) = Some r -> in_unit (rate r) = true.
Proof.
  unfold sample_rate, SampleRate_try_from. destruct (in_unit _) eqn:E; cbn; [|done]. intros ?. by simplify_eq.
Qed.

Lemma digits_nonneg ds : Forall (fun c => is_ascii_digit c = true) ds -> 0 <= digits_value ds.
Proof.
  induction ds as [|c ds IH] using rev_ind; [done|]. intros [Hd Hc]%Forall_app. rewrite digits_value_app.
  apply Forall_cons in Hc as [Hc _]. apply byte_in_spec in Hc. unfold digit_value. specialize (IH Hd). lia.
Qed.

Lemma parse_uint_inv w i r n : parsed (parse_uint w i) = Some (r, n) -> in_range w n.
Proof.
  rewrite parse_uint_spec. destruct (span_digits i) as [ds r'] eqn:Es. apply span_digits_spec in Es as (_ & Hd & _).
  apply digits_nonneg in Hd. destruct ds as [|c ds]; [done|]. destruct (Z.leb_spec (digits_value (c :: ds)) (umax w)); [|done].
  intros ?. simplify_eq. done.
Qed.

Lemma metric_field_inv config c f : parsed (metric_field config c) = Some (Some f) -> metric_field_ok config f.
Proof.
  unfold metric_field. destruct c as [|c l]; [done|]. repeat case_match; rewrite ?parsed_bind; intros Hf; bool_cases.
  - destruct (parsed (field _ _ _)) as [v|] eqn:Ev; [|done]. apply field_inv in Ev as (i & Ei). simplify_option_eq.
    rewrite map_res_spec in Ei. destruct (parsed (double i)) as [[r x]|]; [|done].
    cbn [mbind option_bind] in Ei. destruct (parsed (sample_rate config x)) as [y|] eqn:Ey; [|done]. cbn in Ei. simplify_eq.
    by eapply sample_rate_ok.
  - destruct (parsed (field _ _ _)) as [v|] eqn:Ev; [|done]. apply field_inv in Ev as (i & Ei). rewrite tags_parsed in Ei.
    simplify_option_eq. split; [apply to_valid_utf8_valid|done].
  - destruct (parsed (field _ _ _)) as [v|] eqn:Ev; [|done]. apply field_inv in Ev as (i & Ei). simplify_option_eq.
    split; [done|]. by eapply take_while1_inv.
  - destruct (parsed (field _ _ _)) as [v|] eqn:Ev; [|done]. apply field_inv in Ev as (i & Ei). simplify_option_eq.
    split; [done|]. by eapply parse_uint_inv.
  - destruct (parsed (field _ _ _)) as [v|] eqn:Ev; [|done]. apply field_inv in Ev as (i & Ei). simplify_option_eq.
    split; [done|]. by eapply take_while1_inv.
  - destruct (parsed (cardinality _)) as [[r k]|] eqn:Ek; [|done]. cbn in Hf. by simplify_eq.
  - done.
Qed.

(** The texts in the fields of events and service checks *)
Definition event_field_texts (f : EventField) : list bytes :=
  match f with
  | EvHostname v | EvAggregationKey v | EvSourceType v | EvLocalData v | EvExternalData v => [v]
  | EvTags t => [raw_tags t]
  | _ => []
  end.

Definition check_field_texts (f : CheckField) : list bytes :=
  match f with
  | CkHostname v | CkLocalData v | CkExternalData v | CkMessage v => [v]
  | CkTags t => [raw_tags t]
  | _ => []
  end.

Lemma while_field_valid (p : byte -> bool) prefix c v : (forall c, p c = true -> is_ascii c = true) ->
  parsed (field prefix (take_while1 p) c) = Some v -> Forall valid_utf8 [v].
Proof. intros Hp (i & Hi)%field_inv. constructor; [|done]. by eapply word_valid, take_while1_inv. Qed.

Lemma tags_field_valid config prefix c v : parsed (field prefix (tags config) c) = Some v -> Forall valid_utf8 [raw_tags v].
Proof. intros (i & Hi)%field_inv. rewrite tags_parsed in Hi. simplify_option_eq. constructor; [apply to_valid_utf8_valid|done]. Qed.

Lemma utf8_field_valid prefix c v : parsed (field prefix utf8 c) = Some v -> Forall valid_utf8 [v].
Proof.
  intros (i & Hi)%field_inv. unfold utf8 in Hi. rewrite simd_from_utf8_spec in Hi. destruct (is_utf8 i) eqn:E; [|done].
  cbn in Hi. simplify_eq. constructor; [by apply is_utf8_spec|done].
Qed.

Lemma event_field_inv config c f : parsed (event_field config c) = Some (Some f) -> Forall valid_utf8 (event_field_texts f).
Proof.
  unfold event_field, ascii_alphanum_and_seps, local_data, external_data.
  repeat case_match; rewrite ?parsed_bind; try done;
    match goal with |- (parsed ?r ≫= _) = _ -> _ => destruct (parsed r) as [v|] eqn:Ev; [|done] end; bind_step;
    try destruct v; intros ?; simplify_eq/=; try (by constructor);
    first [ exact (while_field_valid _ _ _ _ alphanum_ascii Ev) | exact (while_field_valid _ _ _ _ local_data_ascii Ev)
          | exact (while_field_valid _ _ _ _ external_data_ascii Ev) | exact (tags_field_valid _ _ _ _ Ev) ].
Qed.

Lemma check_field_inv config c f : parsed (check_field config c) = Some (Some f) -> Forall valid_utf8 (check_field_texts f).
Proof.
  unfold check_field, ascii_alphanum_and_seps, local_data, external_data.
  repeat case_match; rewrite ?parsed_bind; try done;
    match goal with |- (parsed ?r ≫= _) = _ -> _ => destruct (parsed r) as [v|] eqn:Ev; [|done] end; bind_step;
    try destruct v; intros ?; simplify_eq/=; try (by constructor);
    first [ exact (while_field_valid _ _ _ _ alphanum_ascii Ev) | exact (while_field_valid _ _ _ _ local_data_ascii Ev)
          | exact (while_field_valid _ _ _ _ external_data_ascii Ev) | exact (tags_field_valid _ _ _ _ Ev)
          | exact (utf8_field_valid _ _ _ Ev) ].
Qed.

Lemma raw_values_inv i r t raw : parsed (raw_metric_values i) = Some (r, (t, raw)) -> raw_ok raw.
Proof.
  unfold raw_metric_values. rewrite parsed_bind, terminated_spec.
  destruct (parsed (take_while1 _ _)) as [[r1 x]|] eqn:Ew; [|done]. bind_step. apply take_while1_inv in Ew as [Hne Hx].
  destruct (parsed (tag _ _)) as [[r2 ?]|]; [|done]. bind_step. rewrite parsed_bind.
  destruct (parsed (alt _ _)) as [[r3 k]|]; [|done]. bind_step. rewrite simd_from_utf8_spec, bool_decide_false by done.
  destruct (is_utf8 x) eqn:Eu; cbn; [|done]. intros ?. simplify_eq. split_and!; [done| |by apply is_utf8_spec].
  by apply (free_of not_pipe).
Qed.

Lemma numbers_floats raw xs : floats raw = Ok <$> xs -> numbers raw = Some xs.
Proof.
  rewrite floats_spec. unfold numbers. generalize (fields colon raw) as fs. intros fs. revert xs.
  induction fs as [|f fs IH]; intros xs; cbn [omap list_omap]; [by destruct xs|]. unfold float_of at 1. cbn [mapM].
  destruct (parse_f64 f) as [y|]; [|by destruct xs]. cbn [mbind option_bind]. destruct (is_finite y) eqn:Ef.
  - destruct xs as [|x xs]; [done|]. cbn. intros ?. simplify_eq. apply IH in H5. apply fmap_Some in H5 as (ys & -> & ->).
    cbn. by rewrite Ef.
  - intros E. apply IH in E. apply fmap_Some in E as (ys & -> & ->). cbn. by rewrite Ef.
Qed.

Lemma numbers_finite raw xs : numbers raw = Some xs -> Forall (fun x => is_finite x = true) xs.
Proof. intros (ys & _ & ->)%fmap_Some. apply Forall_forall. intros x. rewrite list_elem_of_In, List.filter_In. by intros [_ Hx]. Qed.

Lemma values_inv raw t rate n v : metric_values_from_raw raw t rate = Ok (n, v) ->
  exists xs, values_ok t raw xs /\ n = points_of t xs /\ v = values_of t raw xs rate.
Proof.
  intros E. assert (Hx : t = TSet \/ exists xs, floats raw = Ok <$> xs).
  { destruct t; [..|by left| | |]; right; unfold metric_values_from_raw, counter_sampled_fallible, gauge_fallible,
      histogram_sampled_fallible, distribution_sampled_fallible in E;
    (destruct (collect_results _ _ _) as [y|] eqn:Ec in E; [|done]); apply collect_results_inv in Ec as (xs & -> & _); by exists xs. }
  destruct Hx as [->|(xs & Hx)].
  - cbn in E. simplify_eq. by exists [].
  - assert (Hok : values_ok t raw (match t with TSet => [] | _ => xs end)) by (apply numbers_floats in Hx; by destruct t).
    rewrite (values_parsed _ _ _ _ Hok) in E. simplify_eq. eexists. split; [exact Hok|done].
Qed.

Definition metric_exts_ok (config : DogStatsDCodecConfiguration) (x : MetricExts) : Prop :=
  (forall v, maybe_sample_rate x = Some v -> metric_field_ok config (MfSampleRate v)) /\
  (forall v, maybe_tags x = Some v -> metric_field_ok config (MfTags v)) /\
  (forall v, maybe_local_data x = Some v -> metric_field_ok config (MfLocalData v)) /\
  (forall v, maybe_timestamp x = Some v -> metric_field_ok config (MfTimestamp v)) /\
  (forall v, maybe_external_data x = Some v -> metric_field_ok config (MfExternalData v)) /\
  (forall v, maybe_cardinality x = Some v -> metric_field_ok config (MfCardinality (Some v))).

Lemma set_metric_field_ok config f x : metric_field_ok config f -> metric_exts_ok config x -> metric_exts_ok config (set_metric_field f x).
Proof.
  intros Hf (H4 & H5 & H6 & H7 & H8 & H9).
  destruct f; unfold metric_exts_ok; cbn [set_metric_field maybe_sample_rate maybe_tags maybe_local_data maybe_timestamp
    maybe_external_data maybe_cardinality]; split_and!; intros v' E; simplify_eq; first [by apply Hf|by auto].
Qed.

(** What holds of the packet of an accepted metric *)
Record metric_packet_ok (config : DogStatsDCodecConfiguration) (p : MetricPacket) : Prop := {
  mo_name : word (name_char config) (metric_name p);
  mo_tags : mp_tags p = RawTags_empty \/ metric_field_ok config (MfTags (mp_tags p));
  mo_local : forall v, mp_local_data p = Some v -> metric_field_ok config (MfLocalData v);
  mo_timestamp : forall v, mp_timestamp p = Some v -> metric_field_ok config (MfTimestamp v);
  mo_external : forall v, mp_external_data p = Some v -> metric_field_ok config (MfExternalData v);
  mo_cardinality : forall v, mp_cardinality p = Some v -> metric_field_ok config (MfCardinality (Some v));
  mo_values : exists t raw xs (r : option SampleRate), raw_ok raw /\ values_ok t raw xs /\ num_points p = points_of t xs /\
    mp_values p = match mp_timestamp p with
                  | Some n => MetricValues_set_timestamp n (values_of t raw xs r)
                  | None => values_of t raw xs r
                  end /\
    (forall v, r = Some v -> in_unit (rate v) = true) /\ (t = TCount -> is_Some (mp_timestamp p) -> r = None);
}.

Lemma accepted_metric_ok config i r p : parsed (parse_dogstatsd_metric i config) = Some (r, p) -> metric_packet_ok config p.
Proof.
  unfold parse_dogstatsd_metric. rewrite parsed_bind, separated_pair_spec.
  destruct (parsed ((if permissive config then _ else _) i)) as [[r1 name]|] eqn:En; [|done]. bind_step.
  assert (Hname : word (name_char config) name).
  { destruct (permissive config) eqn:Ep; apply take_while1_inv in En as [Hne Hf]; (split; [done|]);
      (eapply Forall_impl; [exact Hf|]); intros c; unfold name_char; by rewrite Ep. }
  destruct (parsed (tag _ _)) as [[r2 ?]|]; [|done]. bind_step.
  destruct (parsed (raw_metric_values r2)) as [[r3 [t raw]]|] eqn:Er; [|done]. bind_step. apply raw_values_inv in Er.
  rewrite parsed_bind. destruct (parsed (extensions _ _ _ _)) as [[r4 x]|] eqn:Ex; [|done]. bind_step.
  assert (Hx : metric_exts_ok config x).
  { refine (extensions_inv (metric_exts_ok config) _ _ _ _ _ _ _ _ Ex); [|by split_and!].
    apply (apply_field_inv _ (metric_field_ok config)); [apply metric_field_inv|apply set_metric_field_ok]. }
  rewrite parsed_bind. unfold metric_packet. rewrite parsed_bind.
  set (rt := if is_count t && bool_decide (is_Some (maybe_timestamp x)) then None else maybe_sample_rate x).
  destruct (metric_values_from_raw raw t rt) as [[n v]|] eqn:Ev; [|done]. cbn [parsed]. bind_step. cbn [parsed]. bind_step.
  intros ?. simplify_eq. destruct Hx as (H4 & H5 & H6 & H7 & H8 & H9). apply values_inv in Ev as (xs & Hv & -> & ->).
  split; cbn [metric_name mp_tags mp_local_data mp_timestamp mp_external_data mp_cardinality mp_values num_points]; try done.
  - destruct (maybe_tags x) as [tg|]; [right; by apply H5|by left].
  - exists t, raw, xs, rt. split_and!; try done.
    + intros sr Hsr. unfold rt in Hsr. destruct (is_count t && _); [done|]. by apply H4.
    + intros -> Hts. unfold rt. by rewrite bool_decide_true.
Qed.

(** C38: Whatever bytes arrive, a metric that is accepted has a name of allowed characters, tags with the
    configured limits, and only finite values, all of them counted, scaled by a sample rate between
    zero and one unless it is a count with a timestamp; the timestamp is a 64-bit number and given
    only where the configuration reads timestamps, and origin fields only where it reads those. *)
Theorem accepted_metrics config i p : parsed (decode_metric config i) = Some p ->
  metric_packet_ok config p /\
  (timestamps config = false -> mp_timestamp p = None) /\
  (client_origin_detection config = false -> mp_local_data p = None /\ mp_external_data p = None /\ mp_cardinality p = None) /\
  exists xs, Forall (fun x => is_finite x = true) xs /\ (num_points p = length xs \/ num_points p = 1).
Proof.
  unfold decode_metric. destruct (parse_dogstatsd_metric i config) as [[r p']|] eqn:E; [|done]. cbn. intros ?. simplify_eq.
  assert (Hok : metric_packet_ok config p) by (eapply (accepted_metric_ok config i r); by rewrite E).
  pose proof Hok as [Hn Ht Hl Hts He Hc (t & raw & xs & rt & _ & Hv & Hnp & _)].
  split_and!; [exact Hok|..].
  - intros Hoff. destruct (mp_timestamp p) as [v|]; [|done]. destruct (Hts _ eq_refl). congruence.
  - intros Hoff. cbn [metric_field_ok] in *. split_and!.
    + destruct (mp_local_data p) as [v|]; [|done]. destruct (Hl _ eq_refl). congruence.
    + destruct (mp_external_data p) as [v|]; [|done]. destruct (He _ eq_refl). congruence.
    + destruct (mp_cardinality p) as [v|]; [|done]. specialize (Hc _ eq_refl). congruence.
  - exists xs. rewrite Hnp. destruct t; cbn in Hv |- *; try (split; [by eapply numbers_finite|by left]).
    subst. split; [done|by right].
Qed.

(** ** Text is valid wherever it is assumed to be *)

Definition opt_texts (o : option bytes) : list bytes := match o with Some v => [v] | None => [] end.

(** The texts among the values of a metric: the members of sets *)
Definition value_texts (v : MetricValues S) : list bytes :=
  match v with
  | Set_ points => flat_map (fun p => String.list_byte_of_string <$> elements (value p)) points
  | _ => []
  end.

Definition packet_texts (p : ParsedPacket (S := S)) : list bytes :=
  match p with
  | PMetric m =>
      [metric_name m; raw_tags (mp_tags m)] ++ opt_texts (mp_local_data m) ++ opt_texts (mp_external_data m) ++ value_texts (mp_values m)
  | PEvent e =>
      [ep_title e; ep_text e; raw_tags (ep_tags e)] ++ opt_texts (ep_hostname e) ++ opt_texts (ep_aggregation_key e) ++
      opt_texts (ep_source_type_name e) ++ opt_texts (ep_local_data e) ++ opt_texts (ep_external_data e)
  | PServiceCheck c =>
      [sp_name c; raw_tags (sp_tags c)] ++ opt_texts (sp_hostname c) ++ opt_texts (sp_message c) ++
      opt_texts (sp_local_data c) ++ opt_texts (sp_external_data c)
  end.

(** The pieces that [FloatIter::next] takes off the raw values of a metric, and converts before it reads a number *)
Fixpoint float_pieces (fuel : nat) (raw_values : bytes) : list bytes :=
  match fuel with
  | O => []
  | Datatypes.S fuel =>
      match split_at_delimiter colon raw_values with
      | Some (raw_value, tail) => raw_value :: float_pieces fuel tail
      | None => []
      end
  end.

Definition tag_texts (o : option RawTags) : list bytes := match o with Some t => [raw_tags t] | None => [] end.

Definition event_exts_texts (x : EventExts) : list bytes :=
  tag_texts (ev_tags x) ++ opt_texts (ev_hostname x) ++ opt_texts (ev_aggregation_key x) ++ opt_texts (ev_source_type x) ++
  opt_texts (ev_local_data x) ++ opt_texts (ev_external_data x).

Definition check_exts_texts (x : CheckExts) : list bytes :=
  tag_texts (ck_tags x) ++ opt_texts (ck_hostname x) ++ opt_texts (ck_message x) ++ opt_texts (ck_local_data x) ++
  opt_texts (ck_external_data x).

Lemma set_event_field_texts f x : Forall valid_utf8 (event_field_texts f) -> Forall valid_utf8 (event_exts_texts x) ->
  Forall valid_utf8 (event_exts_texts (set_event_field f x)).
Proof. unfold event_exts_texts. rewrite !Forall_app. by destruct f; cbn; rewrite ?Forall_cons; intuition. Qed.

Lemma set_check_field_texts f x : Forall valid_utf8 (check_field_texts f) -> Forall valid_utf8 (check_exts_texts x) ->
  Forall valid_utf8 (check_exts_texts (set_check_field f x)).
Proof. unfold check_exts_texts. rewrite !Forall_app. by destruct f; cbn; rewrite ?Forall_cons; intuition. Qed.

Lemma default_tags_valid o : Forall valid_utf8 (tag_texts o) -> valid_utf8 (raw_tags (default RawTags_empty o)).
Proof. destruct o; cbn; [by intros [? _]%Forall_cons|]. intros _. apply valid_nil. Qed.

Lemma unescape_valid l : valid_utf8 l -> valid_utf8 (unescape_newlines l).
Proof. intros Hl. apply replace2_valid; [done|done| |done]. apply valid_ascii. by repeat constructor. Qed.

Lemma event_text_inv raw l : parsed (event_text raw) = Some l -> valid_utf8 l.
Proof.
  unfold event_text. rewrite simd_from_utf8_spec. destruct (is_utf8 raw) eqn:E; [|done]. cbn. intros ?. simplify_eq.
  apply unescape_valid. by apply is_utf8_spec.
Qed.

Lemma accepted_event_texts config i r p : parsed (parse_dogstatsd_event i config) = Some (r, p) ->
  Forall valid_utf8 (packet_texts (PEvent p)).
Proof.
  unfold parse_dogstatsd_event. rewrite parsed_bind.
  destruct (parsed (delimited _ _ _ _)) as [[r1 [n k]]|]; [|done]. bind_step. case_match; [done|]. rewrite parsed_bind.
  destruct (parsed (separated_pair _ _ _ _)) as [[r2 [rt rx]]|]; [|done]. bind_step. rewrite parsed_bind.
  destruct (parsed (event_text rt)) as [title|] eqn:Et; [|done]. bind_step. rewrite parsed_bind.
  destruct (parsed (event_text rx)) as [text|] eqn:Ex; [|done]. bind_step. rewrite parsed_bind.
  destruct (parsed (extensions _ _ _ _)) as [[r4 x]|] eqn:Ee; [|done]. bind_step. cbn [parsed]. intros ?. simplify_eq.
  apply event_text_inv in Et, Ex.
  assert (Hx : Forall valid_utf8 (event_exts_texts x)).
  { refine (extensions_inv (fun x => Forall valid_utf8 (event_exts_texts x)) _ _ _ _ _ _ _ _ Ee); [|by constructor].
    apply (apply_field_inv _ (fun f => Forall valid_utf8 (event_field_texts f))); [apply event_field_inv|apply set_event_field_texts]. }
  unfold event_exts_texts in Hx. rewrite !Forall_app in Hx. destruct Hx as (Ht & Hrest).
  cbn [packet_texts ep_title ep_text ep_tags ep_hostname ep_aggregation_key ep_source_type_name ep_local_data ep_external_data].
  rewrite !Forall_app. split; [|done]. repeat constructor; [done..|by apply default_tags_valid].
Qed.

Lemma accepted_check_texts config i r p : parsed (parse_dogstatsd_service_check i config) = Some (r, p) ->
  Forall valid_utf8 (packet_texts (PServiceCheck p)).
Proof.
  unfold parse_dogstatsd_service_check. rewrite parsed_bind, preceded_spec.
  destruct (parsed (tag _ _)) as [[r0 ?]|]; [|done]. bind_step. rewrite separated_pair_spec.
  destruct (parsed (ascii_alphanum_and_seps _)) as [[r1 name]|] eqn:En; [|done]. bind_step. apply take_while1_inv in En.
  destruct (parsed (tag _ _)) as [[r2 ?]|]; [|done]. bind_step.
  destruct (parsed (parse_uint _ _)) as [[r3 n]|]; [|done]. bind_step. rewrite parsed_bind.
  destruct (CheckStatus_try_from n) as [s|]; [|done]. cbn [parsed]. bind_step. rewrite parsed_bind.
  destruct (parsed (extensions _ _ _ _)) as [[r4 x]|] eqn:Ee; [|done]. bind_step. cbn [parsed]. intros ?. simplify_eq.
  assert (Hx : Forall valid_utf8 (check_exts_texts x)).
  { refine (extensions_inv (fun x => Forall valid_utf8 (check_exts_texts x)) _ _ _ _ _ _ _ _ Ee); [|by constructor].
    apply (apply_field_inv _ (fun f => Forall valid_utf8 (check_field_texts f))); [apply check_field_inv|apply set_check_field_texts]. }
  unfold check_exts_texts in Hx. rewrite !Forall_app in Hx. destruct Hx as (Ht & Hrest).
  cbn [packet_texts sp_name sp_tags sp_hostname sp_message sp_local_data sp_external_data]. rewrite !Forall_app.
  split; [|done]. repeat constructor; [by apply (word_valid alphanum_or_sep); [apply alphanum_ascii|]|by apply default_tags_valid].
Qed.

Lemma value_texts_timestamp n v : value_texts (MetricValues_set_timestamp n v) = value_texts v.
Proof.
  destruct v as [| | |points| |]; [done..| |done|done]. cbn. unfold set_timestamp. induction points as [|p points IH]; [done|]. cbn. by rewrite IH.
Qed.

Lemma values_of_texts t raw xs r : valid_utf8 raw -> Forall valid_utf8 (value_texts (values_of t raw xs r)).
Proof.
  intros Hv. destruct t; [constructor..| |constructor|constructor|constructor]. cbn [value_texts values_of flat_map value].
  rewrite elements_singleton, app_nil_r. cbn. rewrite String.list_byte_of_string_of_list_byte. by repeat constructor.
Qed.

Lemma float_pieces_valid fuel raw : valid_utf8 raw -> Forall valid_utf8 (float_pieces fuel raw).
Proof.
  revert raw. induction fuel as [|fuel IH]; intros raw Hv; cbn; [constructor|].
  destruct (split_cases colon raw) as [->|(l1 & l2 & -> & _ & _ & Hl & _)].
  { rewrite split_at_delimiter_nil. constructor. }
  assert (H12 : valid_utf8 l1 /\ valid_utf8 l2).
  { destruct Hl as [->|[-> ->]]; [by apply (valid_split_ascii l1 colon l2)|]. split; [done|apply valid_nil]. }
  destruct H12 as [Hv1 Hv2]. constructor; [done|by apply IH].
Qed.

Lemma accepted_metric_texts config i r p : parsed (parse_dogstatsd_metric i config) = Some (r, p) ->
  Forall valid_utf8 (packet_texts (PMetric p)).
Proof.
  intros [Hn Ht Hl _ He _ (t & raw & xs & rt & (_ & _ & Hr) & _ & _ & Hv & _)]%accepted_metric_ok. cbn [packet_texts].
  rewrite !Forall_app. split_and!.
  - repeat constructor; [by apply (word_valid (name_char config)); [apply name_char_ascii|]|].
    destruct Ht as [->|[Ht _]]; [apply valid_nil|done].
  - destruct (mp_local_data p) as [v|]; constructor; [|done]. destruct (Hl _ eq_refl) as [_ Hw].
    by apply (word_valid local_data_char); [apply local_data_ascii|].
  - destruct (mp_external_data p) as [v|]; constructor; [|done]. destruct (He _ eq_refl) as [_ Hw].
    by apply (word_valid external_data_char); [apply external_data_ascii|].
  - rewrite Hv. destruct (mp_timestamp p); rewrite ?value_texts_timestamp; by apply values_of_texts.
Qed.

(** C32: Whatever bytes arrive, every text of a decoded packet is valid UTF-8, the members of sets included, and so is
    every piece of the raw values of a metric that is read as a number, whether the packet is accepted in the end or not:
    the conversions of the codec that skip the check, for names, origin fields, hostnames, set members and numbers, are
    sound, and so are its conversions of tag blocks, titles, texts and messages. *)
Theorem decoded_texts_are_utf8 config i :
  (forall p, parsed (decode_packet config i) = Some p -> Forall valid_utf8 (packet_texts p)) /\
  (forall j r t raw, parsed (raw_metric_values j) = Some (r, (t, raw)) -> Forall valid_utf8 (raw :: float_pieces (length raw) raw)).
Proof.
  split.
  - intros p. unfold decode_packet. destruct (parse_message_type i); intros E.
    + unfold decode_metric in E. destruct (parse_dogstatsd_metric i config) as [[r m]|] eqn:Ep; [|done]. cbn in E. simplify_eq.
      apply (accepted_metric_texts config i r). by rewrite Ep.
    + unfold decode_event in E. destruct (parse_dogstatsd_event i config) as [[r m]|] eqn:Ep; [|done]. cbn in E. simplify_eq.
      apply (accepted_event_texts config i r). by rewrite Ep.
    + unfold decode_service_check in E. destruct (parse_dogstatsd_service_check i config) as [[r m]|] eqn:Ep; [|done]. cbn in E.
      simplify_eq. apply (accepted_check_texts config i r). by rewrite Ep.
  - intros j r t raw (_ & _ & Hv)%raw_values_inv. constructor; [done|by apply float_pieces_valid].
Qed.
End packets.

(** ** Examples *)

#[local] Existing Instance nom_ref.
#[local] Existing Instance nom_ref_laws.
#[local] Existing Instance simdutf8_ref.
#[local] Existing Instance memchr_ref.

#[local] Instance sample_sketch : Sketch (list (f64 * Z)) :=
  {| sketch_default := []; sketch_insert_n x n s := (x, n) :: s; sketch_merge := app |}.

Definition origin_configuration : DogStatsDCodecConfiguration :=
  {| permissive := false; maximum_tag_length := 200; maximum_tag_count := 100; timestamps := true;
     minimum_sample_rate := MINIMUM_SAFE_DEFAULT_SAMPLE_RATE; client_origin_detection := true |}.

Definition sample_exts : list MetricWire :=
  [WTags (b "env:prod,x"); WSampleRate (b "0.5"); WUnknown (b "zz"); WCardinality (b "Low"); WSampleRate (b "0.25");
   WLocalData (b "in-42")].

Lemma free_by_compute (l : bytes) : bool_decide (pipe ∉ l) = true -> pipe ∉ l.
Proof. apply bool_decide_eq_true_1. Qed.

Lemma all_by_compute (p : byte -> bool) (l : bytes) : forallb p l = true -> Forall (fun c => p c = true) l.
Proof. intros E. apply Forall_forall. intros c Hc. rewrite forallb_forall in E. apply E. by apply list_elem_of_In. Qed.

Lemma metric_roundtrip_witness : parsed (parse_dogstatsd_metric (S := list (f64 * Z))
    (encode_metric (b "a.b") THistogram (b "1:2.5") sample_exts) origin_configuration) =
  Some ([], packet_of origin_configuration (b "a.b") THistogram (b "1:2.5")
              [f64_of_Z 1; f64_div (f64_of_Z 5) (f64_of_Z 2)] sample_exts).
Proof.
  apply (metric_roundtrip origin_configuration).
  - done.
  - apply all_by_compute. reflexivity.
  - split_and!; [done|apply free_by_compute; reflexivity|apply is_utf8_spec; reflexivity].
  - vm_compute. reflexivity.
  - unfold sample_exts. repeat (apply Forall_cons_2; [cbn [ext_ok]|]); [..|apply Forall_nil_2].
    + apply free_by_compute. reflexivity.
    + split; [apply free_by_compute; reflexivity|]. eexists. vm_compute. reflexivity.
    + split; [apply free_by_compute; reflexivity|]. intros z Hz.
      repeat (apply elem_of_cons in Hz as [->|Hz]; [reflexivity|]). by apply not_elem_of_nil in Hz.
    + apply free_by_compute. reflexivity.
    + split; [apply free_by_compute; reflexivity|]. eexists. vm_compute. reflexivity.
    + split; [discriminate|apply all_by_compute; reflexivity].
Defined.

Lemma event_roundtrip_witness : parsed (parse_dogstatsd_event
    (encode_event (b "disk") (b "full\nagain") [EwPriority (b "low"); EwTimestamp 12; EwTags (b "a,b")]) origin_configuration) =
  Some ([], event_of origin_configuration (b "disk") (b "full\nagain") [EwPriority (b "low"); EwTimestamp 12; EwTags (b "a,b")]).
Proof.
  apply (event_roundtrip origin_configuration).
  - split_and!; [done|apply is_utf8_spec; reflexivity|vm_compute; done].
  - split_and!; [done|apply is_utf8_spec; reflexivity|vm_compute; done].
  - repeat (apply Forall_cons_2; [cbn [event_ext_ok]|]); [..|apply Forall_nil_2].
    + split; [discriminate|apply all_by_compute; reflexivity].
    + split; vm_compute; discriminate.
    + split; [discriminate|apply free_by_compute; reflexivity].
Defined.

Lemma service_check_roundtrip_witness : parsed (parse_dogstatsd_service_check
    (encode_check (b "db.up") StatusCritical [CwHostname (b "web-1"); CwMessage (b "m: timed out")]) origin_configuration) =
  Some ([], check_of origin_configuration (b "db.up") StatusCritical [CwHostname (b "web-1"); CwMessage (b "m: timed out")]).
Proof.
  apply (service_check_roundtrip origin_configuration).
  - split; [done|apply all_by_compute; reflexivity].
  - repeat (apply Forall_cons_2; [cbn [check_ext_ok]|]); [..|apply Forall_nil_2].
    + split; [discriminate|apply all_by_compute; reflexivity].
    + split; [apply is_utf8_spec; reflexivity|apply free_by_compute; reflexivity].
Defined.

Definition decoded_sample : option (ParsedPacket (S := list (f64 * Z))) :=
  parsed (decode_packet origin_configuration (encode_metric (b "a.b") TGauge (b "1:nan:3") [WTimestamp 9])).

Lemma accepted_metrics_witness : exists p : MetricPacket (S := list (f64 * Z)),
  parsed (decode_metric origin_configuration (encode_metric (b "a.b") TGauge (b "1:nan:3") [WTimestamp 9])) = Some p /\
  num_points p = 2 /\ metric_packet_ok origin_configuration p.
Proof.
  eexists. split; [vm_compute; reflexivity|]. split; [reflexivity|].
  eapply (accepted_metrics origin_configuration (encode_metric (b "a.b") TGauge (b "1:nan:3") [WTimestamp 9])).
  vm_compute. reflexivity.
Defined.

Definition decoded_set : option (ParsedPacket (S := list (f64 * Z))) :=
  parsed (decode_packet origin_configuration (encode_metric (b "users") TSet (b "Zoë:1") [])).

Lemma decoded_texts_are_utf8_witness : exists p, decoded_set = Some p /\ Forall valid_utf8 (packet_texts p) /\ b "Zoë:1" ∈ packet_texts p.
Proof.
  destruct decoded_set as [p|] eqn:E; [|vm_compute in E; discriminate E]. exists p. split; [reflexivity|]. split.
  - exact (proj1 (decoded_texts_are_utf8 origin_configuration _) _ E).
  - vm_compute in E. injection E as <-. apply list_elem_of_In. vm_compute. auto.
Defined.

(** ** Where parsing stops early *)

(** An empty extension field ends the parsing of a metric: the tags behind it are lost, and the metric
    is accepted with what is left of the input unread. *)
Example empty_field_ends_parsing :
  (x ← parsed (parse_dogstatsd_metric (S := list (f64 * Z)) (b "a:1|c||#env:prod") default_configuration);
   Some (x.1, raw_tags (mp_tags x.2))) = Some (b "|#env:prod", []).
Proof. vm_compute. reflexivity. Qed.

(** In an event an unknown field of one byte does so too, while longer unknown fields are skipped. *)
Example short_field_ends_parsing :
  (x ← parsed (parse_dogstatsd_event (b "_e{1,1}:a|b|x|#env:prod") default_configuration);
   Some (x.1, raw_tags (ep_tags x.2))) = Some (b "x|#env:prod", []) /\
  (x ← parsed (parse_dogstatsd_event (b "_e{1,1}:a|b|xx|#env:prod") default_configuration);
   Some (x.1, raw_tags (ep_tags x.2))) = Some ([], b "env:prod").
Proof. vm_compute. done. Qed.

(** Without a delimiter [split_at_delimiter] returns the whole input, not [None]. *)
Example split_without_delimiter : split_at_delimiter pipe (b "abc") = Some (b "abc", []).
Proof. reflexivity. Qed.
