(* ===== verification/BitSet.v ===== *)
(** * The contiguous bit set of [saluki-common/src/collections/bitset.rs]

    [ContiguousBitSet] keeps a set of small indices as 64-bit words.  The model has its operations
    and its double-ended iterator; an index out of the words is a panic, [None].  The theorems say
    that the words are a finite set of indices, and that the iterator is a double-ended queue of the
    members in ascending order under any interleaving of its two ends. *)

From Stdlib Require Import ZArith Lia Sorted.
From stdpp Require Import base tactics list numbers gmap sorting.
From S2P Require Import Prelude.
Open Scope Z_scope.

(** ** Words: what the source uses of [u64] *)

Definition testbit (w : Z) (bit : nat) : bool := Z.testbit w (Z.of_nat bit).

(** The bits of a word that are set, in ascending order. *)
Definition word_bits (w : Z) : list nat := filter (fun bit => testbit w bit = true) (seq 0 64).
Definition count_ones (w : Z) : nat := length (word_bits w).

Fixpoint zeros_run (w : Z) (bits : list nat) : nat :=
  match bits with
  | [] => 0
  | bit :: bits' => if testbit w bit then 0 else S (zeros_run w bits')
  end.
Definition trailing_zeros (w : Z) : nat := zeros_run w (seq 0 64).
Definition leading_zeros (w : Z) : nat := zeros_run w (reverse (seq 0 64)).

Definition u64_not (w : Z) : Z := wrap 64 (Z.lnot w).
Definition bit_mask (bit : nat) : Z := Z.shiftl 1 (Z.of_nat bit).

(** ** The bit set *)

Record ContiguousBitSet := { words : list Z }.

Definition BitSet_new : ContiguousBitSet := {| words := [] |}.
Definition BitSet_len (bs : ContiguousBitSet) : nat := sum_list (count_ones <$> words bs).
Definition BitSet_is_empty (bs : ContiguousBitSet) : bool := forallb (fun w => w =? 0) (words bs).

(** [while self.words.len() <= word { self.words.push(0) }] *)
Definition grow (word : nat) (ws : list Z) : list Z := ws ++ replicate (S word - length ws) 0.

Definition BitSet_set (index : nat) (bs : ContiguousBitSet) : ContiguousBitSet :=
  let word := (index `div` 64)%nat in
  let bit := (index `mod` 64)%nat in
  {| words := alter (fun w => Z.lor w (bit_mask bit)) word (grow word (words bs)) |}.

Definition BitSet_clear (index : nat) (bs : ContiguousBitSet) : ContiguousBitSet :=
  let word := (index `div` 64)%nat in
  let bit := (index `mod` 64)%nat in
  match words bs !! word with
  | Some w => {| words := <[word := Z.land w (u64_not (bit_mask bit))]> (words bs) |}
  | None => bs
  end.

Definition BitSet_is_set (bs : ContiguousBitSet) (index : nat) : bool :=
  let word := (index `div` 64)%nat in
  let bit := (index `mod` 64)%nat in
  match words bs !! word with
  | Some w => negb (Z.land w (bit_mask bit) =? 0)
  | None => false
  end.

Definition BitSet_clear_all (bs : ContiguousBitSet) : ContiguousBitSet :=
  {| words := (fun _ => 0) <$> words bs |}.

(** ** The iterator *)

Record Iter := {
  it_words : list Z;
  front : nat;
  back : nat;
  front_bits : Z;
  back_bits : Z;
}.

Definition BitSet_into_iter (bs : ContiguousBitSet) : Iter :=
  let len := length (words bs) in
  {| it_words := words bs; front := 0; back := len;
     front_bits := default 0 (head (words bs));
     back_bits := if (1 <? len)%nat then default 0 (words bs !! (len - 1)%nat) else 0 |}.

Definition set_front (it : Iter) (f : nat) (bits bbits : Z) : Iter :=
  {| it_words := it_words it; front := f; back := back it; front_bits := bits; back_bits := bbits |}.
Definition set_back (it : Iter) (bk : nat) (bits : Z) : Iter :=
  {| it_words := it_words it; front := front it; back := bk; front_bits := front_bits it; back_bits := bits |}.

(** One round of the loop of [next] either returns or goes on with the next word. *)
Fixpoint Iter_next (fuel : nat) (it : Iter) : option (option nat * Iter) :=
  match fuel with
  | O => None
  | S fuel' =>
      if negb (front_bits it =? 0) then
        let bit := trailing_zeros (front_bits it) in
        Some (Some (front it * 64 + bit)%nat,
              set_front it (front it) (Z.land (front_bits it) (u64_sub (front_bits it) 1)) (back_bits it))
      else
        let f := S (front it) in
        if (back it <=? f)%nat then Some (None, set_front it f (front_bits it) (back_bits it))
        else if (f =? back it - 1)%nat then Iter_next fuel' (set_front it f (back_bits it) 0)
        else
          w ← it_words it !! f;
          Iter_next fuel' (set_front it f w (back_bits it))
  end.

(** [1u64 << bit] cleared from a word: the highest set bit, when [bit] is it. *)
Definition clear_highest (w : Z) : nat * Z :=
  let bit := (63 - leading_zeros w)%nat in
  (bit, Z.land w (u64_not (bit_mask bit))).

Fixpoint Iter_next_back (fuel : nat) (it : Iter) : option (option nat * Iter) :=
  match fuel with
  | O => None
  | S fuel' =>
      if (back it <=? front it)%nat then Some (None, it)
      else if (front it + 1 <? back it)%nat then
        if negb (back_bits it =? 0) then
          let '(bit, w) := clear_highest (back_bits it) in
          Some (Some ((back it - 1) * 64 + bit)%nat, set_back it (back it) w)
        else
          let bk := (back it - 1)%nat in
          if (front it + 1 <? bk)%nat then
            w ← it_words it !! (bk - 1)%nat;
            Iter_next_back fuel' (set_back it bk w)
          else Iter_next_back fuel' (set_back it bk (back_bits it))
      else if negb (front_bits it =? 0) then
        let '(bit, w) := clear_highest (front_bits it) in
        Some (Some (front it * 64 + bit)%nat, set_front it (front it) w (back_bits it))
      else Some (None, it)
  end.

(** A client of the iterator: the calls it makes, [true] for [next] and [false] for [next_back], and
    what they return.  One call goes over every word at most once. *)
Definition Iter_call (from_front : bool) (it : Iter) : option (option nat * Iter) :=
  let fuel := S (length (it_words it)) in
  if from_front then Iter_next fuel it else Iter_next_back fuel it.

Fixpoint Iter_calls (ends : list bool) (it : Iter) : option (list (option nat)) :=
  match ends with
  | [] => Some []
  | e :: ends' =>
      '(r, it') ← Iter_call e it;
      rs ← Iter_calls ends' it';
      Some (r :: rs)
  end.

(** [for i in bits] and [for i in bits.into_iter().rev()]: calls at one end until it yields nothing. *)
Fixpoint Iter_drain (fuel : nat) (from_front : bool) (it : Iter) : option (list nat) :=
  match fuel with
  | O => None
  | S fuel' =>
      '(r, it') ← Iter_call from_front it;
      match r with
      | Some i => rest ← Iter_drain fuel' from_front it'; Some (i :: rest)
      | None => Some []
      end
  end.

Definition BitSet_iter (bs : ContiguousBitSet) : option (list nat) :=
  Iter_drain (S (BitSet_len bs)) true (BitSet_into_iter bs).
Definition BitSet_iter_rev (bs : ContiguousBitSet) : option (list nat) :=
  Iter_drain (S (BitSet_len bs)) false (BitSet_into_iter bs).

(** ** Specification *)

Definition word_ok (w : Z) : Prop := is_u64 w.
Definition bitset_ok (bs : ContiguousBitSet) : Prop := Forall word_ok (words bs).

(** The indices that the bits of word number [k] stand for. *)
Definition indices (k : nat) (w : Z) : list nat := (fun bit => k * 64 + bit)%nat <$> word_bits w.
Definition indices_at (ws : list Z) (k : nat) : list nat := indices k (default 0 (ws !! k)).
Definition members (bs : ContiguousBitSet) : list nat :=
  mjoin (indices_at (words bs) <$> seq 0 (length (words bs))).

(** The abstract iterator: a list that is consumed at both ends. *)
Definition deque_pop {A} (from_front : bool) (l : list A) : option A * list A :=
  if from_front then (head l, tail l) else (last l, take (pred (length l)) l).

Fixpoint deque_calls {A} (ends : list bool) (l : list A) : list (option A) :=
  match ends with
  | [] => []
  | e :: ends' => let '(r, l') := deque_pop e l in r :: deque_calls ends' l'
  end.

(** The operations that change a bit set, and the finite set that they describe. *)
Inductive bitset_op :=
| OpSet (index : nat)
| OpClear (index : nat)
| OpClearAll.

Definition bitset_run (op : bitset_op) (bs : ContiguousBitSet) : ContiguousBitSet :=
  match op with
  | OpSet i => BitSet_set i bs
  | OpClear i => BitSet_clear i bs
  | OpClearAll => BitSet_clear_all bs
  end.
Definition gset_run (op : bitset_op) (X : gset nat) : gset nat :=
  match op with
  | OpSet i => {[ i ]} ∪ X
  | OpClear i => X ∖ {[ i ]}
  | OpClearAll => ∅
  end.

(** ** Lemmas on words *)

Lemma testbit_high w bit : word_ok w -> (64 <= bit)%nat -> testbit w bit = false.
Proof.
  unfold word_ok, in_range, umax, testbit. intros Hw Hb.
  rewrite <- (Z.mod_small w (2 ^ 64)) by lia. apply Z.mod_pow2_bits_high. lia.
Qed.

Lemma word_ext w1 w2 : word_ok w1 -> word_ok w2 -> (forall bit, (bit < 64)%nat -> testbit w1 bit = testbit w2 bit) -> w1 = w2.
Proof.
  intros H1 H2 Hb. apply Z.bits_inj'. intros n Hn.
  rewrite <- (Z2Nat.id n) by lia. change (testbit w1 (Z.to_nat n) = testbit w2 (Z.to_nat n)).
  destruct (decide (Z.to_nat n < 64)%nat); [by apply Hb|]. rewrite !testbit_high; auto; lia.
Qed.

(** An integer whose bits from 64 on are clear is a word. *)
Lemma word_ok_bits w : 0 <= w -> (forall n, 64 <= n -> Z.testbit w n = false) -> word_ok w.
Proof.
  intros Hw Hb. unfold word_ok, in_range, umax. split; [done|].
  assert (Hmod : w = w mod 2 ^ 64).
  { apply Z.bits_inj'. intros n Hn. destruct (decide (n < 64)).
    - by rewrite Z.mod_pow2_bits_low by lia.
    - rewrite Z.mod_pow2_bits_high by lia. apply Hb. lia. }
  pose proof (Z.mod_pos_bound w (2 ^ 64) ltac:(lia)). lia.
Qed.

Lemma testbit_mask bit j : testbit (bit_mask bit) j = bool_decide (j = bit).
Proof.
  unfold testbit, bit_mask. rewrite Z.shiftl_1_l, Z.pow2_bits_eqb by lia.
  case_bool_decide; [subst; apply Z.eqb_refl|]. apply Z.eqb_neq. lia.
Qed.

Lemma bit_mask_ok bit : (bit < 64)%nat -> word_ok (bit_mask bit).
Proof.
  intros Hb. unfold word_ok, in_range, umax, bit_mask. rewrite Z.shiftl_1_l.
  pose proof (Z.pow_pos_nonneg 2 (Z.of_nat bit)). pose proof (Z.pow_lt_mono_r 2 (Z.of_nat bit) 64). lia.
Qed.

Lemma testbit_not w bit : (bit < 64)%nat -> testbit (u64_not w) bit = negb (testbit w bit).
Proof.
  intros Hb. unfold u64_not, testbit, wrap. rewrite Z.mod_pow2_bits_low by lia.
  apply Z.lnot_spec. lia.
Qed.

Lemma u64_not_ok w : word_ok (u64_not w).
Proof. by apply wrap_range. Qed.

Lemma land_ok w v : word_ok w -> word_ok v -> word_ok (Z.land w v).
Proof.
  intros Hw Hv. pose proof Hw as Hw'. unfold word_ok, in_range in Hw'. apply word_ok_bits.
  - apply Z.land_nonneg. lia.
  - intros n Hn. rewrite Z.land_spec. pose proof (testbit_high w (Z.to_nat n) Hw ltac:(lia)) as Hb.
    unfold testbit in Hb. rewrite Z2Nat.id in Hb by lia. by rewrite Hb.
Qed.

Lemma lor_ok w v : word_ok w -> word_ok v -> word_ok (Z.lor w v).
Proof.
  intros Hw Hv. pose proof Hw as Hw'. pose proof Hv as Hv'. unfold word_ok, in_range in Hw', Hv'.
  apply word_ok_bits.
  - apply Z.lor_nonneg. lia.
  - intros n Hn. rewrite Z.lor_spec.
    pose proof (testbit_high w (Z.to_nat n) Hw ltac:(lia)) as Hb.
    pose proof (testbit_high v (Z.to_nat n) Hv ltac:(lia)) as Hc.
    unfold testbit in Hb, Hc. rewrite Z2Nat.id in Hb, Hc by lia. by rewrite Hb, Hc.
Qed.

Lemma testbit_land w v bit : testbit (Z.land w v) bit = testbit w bit && testbit v bit.
Proof. apply Z.land_spec. Qed.
Lemma testbit_lor w v bit : testbit (Z.lor w v) bit = testbit w bit || testbit v bit.
Proof. apply Z.lor_spec. Qed.
Lemma testbit_0 bit : testbit 0 bit = false.
Proof. apply Z.testbit_0_l. Qed.

Create Rewrite HintDb bits.
#[export] Hint Rewrite testbit_land testbit_lor testbit_0 testbit_mask : bits.
#[export] Hint Resolve land_ok lor_ok u64_not_ok bit_mask_ok : saluki.

Lemma mask_test w bit : (bit < 64)%nat -> word_ok w -> negb (Z.land w (bit_mask bit) =? 0) = testbit w bit.
Proof.
  intros Hb Hw. destruct (testbit w bit) eqn:E.
  - apply negb_true_iff, Z.eqb_neq. intros H0.
    assert (Ht : testbit (Z.land w (bit_mask bit)) bit = true)
      by (autorewrite with bits; rewrite E; by rewrite bool_decide_true).
    by rewrite H0, testbit_0 in Ht.
  - apply negb_false_iff, Z.eqb_eq. apply word_ext; auto with saluki; [done|].
    intros j _. autorewrite with bits. case_bool_decide; subst; [by rewrite E|by rewrite andb_false_r].
Qed.

Lemma elem_of_word_bits w bit : bit ∈ word_bits w <-> testbit w bit = true /\ (bit < 64)%nat.
Proof. unfold word_bits. rewrite list_elem_of_filter, elem_of_seq. naive_solver lia. Qed.

Lemma word_bits_nil w : word_ok w -> word_bits w = [] <-> w = 0.
Proof.
  intros Hw. split; [|intros ->; done]. intros Hn. apply word_ext; [done|done|].
  intros bit Hb. rewrite testbit_0. destruct (testbit w bit) eqn:E; [|done].
  assert (Hin : bit ∈ word_bits w) by (by apply elem_of_word_bits). rewrite Hn in Hin. set_solver.
Qed.

Lemma zeros_run_spec w l :
  Forall (fun bit => testbit w bit = false) (take (zeros_run w l) l) /\
  (zeros_run w l = length l \/ exists bit, l !! zeros_run w l = Some bit /\ testbit w bit = true).
Proof.
  induction l as [|bit l [IH1 IH2]]; [by split; [|left]|]. cbn [zeros_run].
  destruct (testbit w bit) eqn:E; cbn [take length lookup list_lookup]; [naive_solver|].
  split; [by constructor|]. destruct IH2 as [->|IH2]; [by left|by right].
Qed.

(** A word that is not zero has a bit in [l] when [l] has all bits. *)
Lemma zeros_run_found w l : word_ok w -> w <> 0 -> l ≡ₚ seq 0 64 ->
  exists bit, l !! zeros_run w l = Some bit /\ testbit w bit = true /\ Forall (fun c => testbit w c = false) (take (zeros_run w l) l).
Proof.
  intros Hw Hz Hl. destruct (zeros_run_spec w l) as [Hf [Hend|(bit & Hb & Ht)]]; [|by exists bit].
  exfalso. apply Hz, word_bits_nil; [done|]. unfold word_bits. rewrite Hend, firstn_all, Hl, Forall_forall in Hf.
  apply list_filter_none. intros c Hc. rewrite Hf by done. done.
Qed.

Lemma trailing_zeros_spec w : word_ok w -> w <> 0 ->
  (trailing_zeros w < 64)%nat /\ testbit w (trailing_zeros w) = true /\ forall c, (c < trailing_zeros w)%nat -> testbit w c = false.
Proof.
  intros Hw Hz. destruct (zeros_run_found w (seq 0 64) Hw Hz) as (bit & Hl & Ht & Hf); [done|].
  fold (trailing_zeros w) in *. apply lookup_seq in Hl as [-> Hlt]. split_and!; [done..|].
  intros c Hc. rewrite Forall_lookup in Hf. apply (Hf c).
  rewrite lookup_take_lt by done. apply lookup_seq. lia.
Qed.

Lemma leading_zeros_spec w : word_ok w -> w <> 0 ->
  let bit := (63 - leading_zeros w)%nat in
  (bit < 64)%nat /\ testbit w bit = true /\ forall c, (bit < c < 64)%nat -> testbit w c = false.
Proof.
  intros Hw Hz. destruct (zeros_run_found w (reverse (seq 0 64)) Hw Hz) as (bit & Hl & Ht & Hf).
  { by rewrite reverse_Permutation. }
  fold (leading_zeros w) in *. set (k := leading_zeros w) in *.
  pose proof (lookup_lt_Some _ _ _ Hl) as Hk. rewrite length_reverse, length_seq in Hk.
  rewrite reverse_lookup, length_seq in Hl by (rewrite length_seq; lia).
  apply lookup_seq in Hl as [-> _]. replace (63 - k)%nat with (0 + (64 - S k))%nat by lia.
  split_and!; [lia|done|]. intros c Hc. rewrite Forall_lookup in Hf. apply (Hf (63 - c)%nat).
  rewrite lookup_take_lt, reverse_lookup, length_seq by (rewrite ?length_seq; lia). apply lookup_seq. lia.
Qed.

Lemma decide_filter_ext {A} (P Q : A -> Prop) `{forall x, Decision (P x), forall x, Decision (Q x)} (l : list A) :
  (forall x, x ∈ l -> P x <-> Q x) -> filter P l = filter Q l.
Proof.
  induction l as [|x l IH]; intros Hl; [done|]. rewrite !filter_cons, IH by (intros; apply Hl; by right).
  pose proof (Hl x ltac:(left)). by repeat case_decide; naive_solver.
Qed.

(** Taking the lowest bit out of a word, and the highest. *)
Section clearing.
Context (w v : Z) (t : nat) (Ht : (t < 64)%nat) (Htest : testbit w t = true)
        (Hv : forall c, (c < 64)%nat -> testbit v c = testbit w c && negb (bool_decide (c = t))).

Lemma word_bits_split : word_bits w =
  filter (fun bit => testbit v bit = true) (seq 0 t) ++ t :: filter (fun bit => testbit v bit = true) (seq (S t) (63 - t)).
Proof using Ht Htest Hv.
  unfold word_bits. replace 64%nat with (t + S (63 - t))%nat by lia.
  rewrite seq_app, filter_app. cbn [seq]. rewrite filter_cons_True by done. rewrite Nat.add_0_l. f_equal; [|f_equal].
  all: apply decide_filter_ext; intros c Hc; apply elem_of_seq in Hc;
    rewrite Hv by lia; rewrite bool_decide_false by lia; by rewrite andb_true_r.
Qed.

Lemma word_bits_rest : word_bits v =
  filter (fun bit => testbit v bit = true) (seq 0 t) ++ filter (fun bit => testbit v bit = true) (seq (S t) (63 - t)).
Proof using Ht Hv.
  unfold word_bits. replace 64%nat with (t + S (63 - t))%nat by lia.
  rewrite seq_app, filter_app. cbn [seq]. rewrite filter_cons_False; [done|].
  rewrite Hv by lia. rewrite bool_decide_true by lia. by rewrite andb_false_r.
Qed.

Lemma clear_first : (forall c, (c < t)%nat -> testbit w c = false) -> word_bits w = t :: word_bits v.
Proof using Ht Htest Hv.
  intros Hlow. rewrite word_bits_split, word_bits_rest.
  rewrite list_filter_none; [done|]. intros c Hc%elem_of_seq. rewrite Hv, Hlow by lia. done.
Qed.

Lemma clear_last : (forall c, (t < c < 64)%nat -> testbit w c = false) -> word_bits w = word_bits v ++ [t].
Proof using Ht Htest Hv.
  intros Hhigh. rewrite word_bits_split, word_bits_rest.
  rewrite (list_filter_none _ (seq (S t) _)); [by rewrite app_nil_r|].
  intros c Hc%elem_of_seq. rewrite Hv, Hhigh by lia. done.
Qed.
End clearing.

(** Below its lowest set bit a word minus one has ones, above it the bits of the word. *)
Lemma land_pred_testbit w t c : word_ok w -> (t < 64)%nat -> testbit w t = true -> (forall c, (c < t)%nat -> testbit w c = false) ->
  testbit (Z.land w (w - 1)) c = testbit w c && negb (bool_decide (c = t)).
Proof.
  intros Hw Ht Htest Hlow. rewrite testbit_land. unfold word_ok, in_range in Hw. set (n := Z.of_nat t).
  assert (Hmod : w mod 2 ^ n = 0).
  { apply Z.bits_inj'. intros i Hi. rewrite Z.bits_0. destruct (decide (i < n)).
    - rewrite Z.mod_pow2_bits_low by lia. rewrite <- (Z2Nat.id i) by lia. apply Hlow. lia.
    - apply Z.mod_pow2_bits_high. lia. }
  assert (Hodd : (w / 2 ^ n) mod 2 = 1).
  { pose proof (Z.testbit_spec' w n ltac:(lia)) as Hs. unfold testbit in Htest. fold n in Htest. by rewrite Htest in Hs. }
  pose proof (Z.pow_pos_nonneg 2 n ltac:(lia) ltac:(lia)) as Hpow.
  set (a := w / 2 ^ n / 2).
  assert (Ew : w = a * (2 * 2 ^ n) + 2 ^ n).
  { pose proof (Z.div_mod w (2 ^ n) ltac:(lia)). pose proof (Z.div_mod (w / 2 ^ n) 2 ltac:(lia)). subst a. nia. }
  assert (E2 : 2 * 2 ^ n = 2 ^ (n + 1)) by (rewrite Z.pow_add_r by lia; lia).
  assert (Ehi : (w - 1) / 2 ^ (n + 1) = w / 2 ^ (n + 1)).
  { rewrite <- E2. rewrite Ew at 2. rewrite Z.add_comm, Z.div_add by lia. rewrite (Z.div_small (2 ^ n)) by lia.
    replace (w - 1) with ((2 ^ n - 1) + a * (2 * 2 ^ n)) by lia. rewrite Z.div_add by lia.
    rewrite Z.div_small by lia. done. }
  case_bool_decide as Hc.
  - subst c. rewrite andb_false_r. replace (testbit (w - 1) t) with false; [apply andb_false_r|].
    symmetry. unfold testbit. fold n. apply Z.testbit_false; [lia|].
    replace (w - 1) with ((2 ^ n - 1) + (2 * a) * 2 ^ n) by lia. rewrite Z.div_add by lia.
    rewrite Z.div_small by lia. rewrite Z.add_0_l, Z.mul_comm. apply Z.mod_mul. lia.
  - rewrite andb_true_r. destruct (decide (c < t)%nat); [by rewrite Hlow|].
    assert (Heq : testbit (w - 1) c = testbit w c); [|rewrite Heq; apply andb_diag].
    unfold testbit. replace (Z.of_nat c) with ((Z.of_nat c - (n + 1)) + (n + 1)) by lia.
    by rewrite <- !Z.div_pow2_bits, Ehi by lia.
Qed.

(** [bits &= bits - 1] takes the first member of a word out. *)
Lemma pop_lowest w : word_ok w -> w <> 0 ->
  word_bits w = trailing_zeros w :: word_bits (Z.land w (u64_sub w 1)) /\ word_ok (Z.land w (u64_sub w 1)).
Proof.
  intros Hw Hz. destruct (trailing_zeros_spec w Hw Hz) as (Ht & Htest & Hlow). pose proof Hw as Hr.
  unfold word_ok, in_range in Hr. rewrite wrapping_sub_exact by (unfold in_range; lia).
  split; [|apply land_ok; [done|unfold word_ok, in_range; lia]].
  apply clear_first; try done. intros c _. by apply land_pred_testbit.
Qed.

(** [bits &= !(1 << bit)] with the highest bit takes the last member out. *)
Lemma pop_highest w bit v : word_ok w -> w <> 0 -> clear_highest w = (bit, v) ->
  word_bits w = word_bits v ++ [bit] /\ word_ok v.
Proof.
  intros Hw Hz [= <- <-]. destruct (leading_zeros_spec w Hw Hz) as (Ht & Htest & Hhigh).
  split; [|auto with saluki]. apply clear_last; try done.
  intros c Hc. rewrite testbit_land, testbit_not by done. by autorewrite with bits.
Qed.

(** ** Lemmas on the set *)

Lemma is_set_testbit bs i : bitset_ok bs ->
  BitSet_is_set bs i = testbit (default 0 (words bs !! (i `div` 64)%nat)) (i `mod` 64)%nat.
Proof.
  intros Hok. unfold BitSet_is_set. destruct (words bs !! _) as [w|] eqn:E; cbn [default]; [|by rewrite testbit_0].
  apply mask_test; [by apply Nat.mod_upper_bound|]. by eapply Forall_lookup_1.
Qed.

Lemma grow_lookup k ws j : default 0 (grow k ws !! j) = default 0 (ws !! j).
Proof.
  unfold grow. destruct (decide (j < length ws)%nat) as [|H]; [by rewrite lookup_app_l|].
  rewrite lookup_app_r, (lookup_ge_None_2 ws) by lia. cbn [default from_option].
  destruct (replicate _ _ !! _) eqn:E; [|done]. by apply lookup_replicate_1 in E as [-> _].
Qed.

Lemma grow_ok k ws : Forall word_ok ws -> Forall word_ok (grow k ws).
Proof. intros H. apply Forall_app. split; [done|]. by apply Forall_replicate. Qed.

Lemma set_ok i bs : bitset_ok bs -> bitset_ok (BitSet_set i bs).
Proof.
  intros H. unfold bitset_ok, BitSet_set. cbn [words]. apply Forall_alter; [by apply grow_ok|].
  intros w _ Hw. apply lor_ok; [done|]. apply bit_mask_ok, Nat.mod_upper_bound. lia.
Qed.

Lemma clear_ok i bs : bitset_ok bs -> bitset_ok (BitSet_clear i bs).
Proof.
  intros H. unfold bitset_ok, BitSet_clear. destruct (words bs !! _) eqn:E; [|done]. cbn [words].
  apply Forall_insert; [done|]. apply land_ok; [by eapply Forall_lookup_1|auto with saluki].
Qed.

Lemma clear_all_ok bs : bitset_ok (BitSet_clear_all bs).
Proof. unfold bitset_ok, BitSet_clear_all. cbn [words]. apply Forall_fmap, Forall_true. by intros. Qed.

#[export] Hint Resolve set_ok clear_ok clear_all_ok : saluki.

(** Two indices are the same exactly when word and bit are. *)
Lemma div_mod_64 (i j : nat) : (i `div` 64 = j `div` 64)%nat -> (i `mod` 64 = j `mod` 64)%nat -> i = j.
Proof. intros Hd Hm. rewrite (Nat.div_mod i 64), (Nat.div_mod j 64) by lia. by rewrite Hd, Hm. Qed.

Lemma is_set_set bs i j : bitset_ok bs -> BitSet_is_set (BitSet_set i bs) j = bool_decide (j = i) || BitSet_is_set bs j.
Proof.
  intros Hok. rewrite !is_set_testbit by auto with saluki. unfold BitSet_set at 1. cbn [words].
  rewrite list_lookup_alter. case_decide as Hw.
  - rewrite <- Hw, <- (grow_lookup (i `div` 64) (words bs)).
    assert (Hl : is_Some (grow (i `div` 64) (words bs) !! (i `div` 64)%nat)).
    { apply lookup_lt_is_Some. unfold grow. rewrite length_app, length_replicate. lia. }
    destruct Hl as [w ->]. cbn [fmap option_fmap option_map default from_option id]. autorewrite with bits. rewrite orb_comm.
    f_equal. apply bool_decide_ext. split; [|by intros ->]. intros. by apply div_mod_64.
  - rewrite grow_lookup, (bool_decide_false (j = i)); [done|]. by intros ->.
Qed.

Lemma is_set_clear bs i j : bitset_ok bs -> BitSet_is_set (BitSet_clear i bs) j = BitSet_is_set bs j && negb (bool_decide (j = i)).
Proof.
  intros Hok. rewrite !is_set_testbit by auto with saluki. unfold BitSet_clear at 1.
  destruct (words bs !! _) as [w|] eqn:E.
  - cbn [words]. destruct (decide ((j `div` 64)%nat = (i `div` 64)%nat)) as [Hw|Hw].
    + rewrite Hw, E, list_lookup_insert_eq by (by eapply lookup_lt_Some). cbn [default from_option id].
      rewrite testbit_land, testbit_not by (apply Nat.mod_upper_bound; lia). autorewrite with bits.
      do 2 f_equal. apply bool_decide_ext. split; [|by intros ->]. intros. by apply div_mod_64.
    + rewrite list_lookup_insert_ne by done. rewrite (bool_decide_false (j = i)) by (by intros ->). by rewrite andb_true_r.
  - case_bool_decide; [subst|by rewrite andb_true_r]. rewrite E. by rewrite testbit_0.
Qed.

Lemma is_set_clear_all bs j : BitSet_is_set (BitSet_clear_all bs) j = false.
Proof.
  rewrite is_set_testbit by auto with saluki. cbn [BitSet_clear_all words]. rewrite list_lookup_fmap.
  destruct (words bs !! _); apply testbit_0.
Qed.

(** ** Lemmas on the members *)

Lemma elem_of_members bs i : bitset_ok bs -> i ∈ members bs <-> BitSet_is_set bs i = true.
Proof.
  intros Hok. rewrite is_set_testbit by done. unfold members. rewrite list_elem_of_join.
  setoid_rewrite list_elem_of_fmap. split.
  - intros (l & Hi & k & -> & Hk%elem_of_seq). unfold indices_at, indices in Hi.
    apply list_elem_of_fmap in Hi as (bit & -> & Hb). apply elem_of_word_bits in Hb as [Hb Hlt].
    replace ((k * 64 + bit) `div` 64)%nat with k; [|apply (Nat.div_unique _ 64 _ bit); lia].
    replace ((k * 64 + bit) `mod` 64)%nat with bit; [done|]. apply (Nat.mod_unique _ 64 k); lia.
  - intros Ht. exists (indices_at (words bs) (i `div` 64)). split.
    + apply list_elem_of_fmap. exists (i `mod` 64)%nat. split.
      * rewrite Nat.mul_comm. apply Nat.div_mod. lia.
      * apply elem_of_word_bits. split; [done|]. apply Nat.mod_upper_bound. lia.
    + exists (i `div` 64)%nat. split; [done|]. apply elem_of_seq.
      destruct (decide (i `div` 64 < length (words bs))%nat); [lia|].
      rewrite lookup_ge_None_2, testbit_0 in Ht by lia. done.
Qed.

Lemma seq_sorted n m : StronglySorted lt (seq n m).
Proof.
  revert n. induction m as [|m IH]; intros n; cbn [seq]; constructor; [done|].
  apply Forall_forall. intros i Hi%elem_of_seq. lia.
Qed.

Lemma filter_sorted {A} (R : A -> A -> Prop) (P : A -> Prop) `{forall x, Decision (P x)} (l : list A) :
  StronglySorted R l -> StronglySorted R (filter P l).
Proof.
  induction 1 as [|x l Hs IH Hx]; [constructor|]. rewrite filter_cons. case_decide; [|done].
  constructor; [done|]. rewrite Forall_forall in Hx |- *. intros y Hy%list_elem_of_filter. naive_solver.
Qed.

Lemma indices_sorted k w : StronglySorted lt (indices k w).
Proof.
  unfold indices. pose proof (filter_sorted lt (fun bit => testbit w bit = true) _ (seq_sorted 0 64)) as Hs.
  fold (word_bits w) in Hs. induction Hs as [|x l Hs IH Hx]; cbn; constructor; [done|].
  apply Forall_fmap. eapply Forall_impl; [exact Hx|]. cbn. lia.
Qed.

Lemma elem_of_indices k w i : i ∈ indices k w -> (k * 64 <= i < S k * 64)%nat.
Proof. intros (bit & -> & Hb%elem_of_word_bits)%list_elem_of_fmap. lia. Qed.

Lemma members_sorted_from ws n m : StronglySorted lt (mjoin (indices_at ws <$> seq n m)).
Proof.
  revert n. induction m as [|m IH]; intros n; cbn [seq fmap list_fmap mjoin list_join]; [constructor|]. apply StronglySorted_app_2; [|apply indices_sorted|apply IH].
  intros x y Hx%elem_of_indices Hy. apply list_elem_of_join in Hy as (l & Hy & Hl).
  apply list_elem_of_fmap in Hl as (k & -> & Hk%elem_of_seq). apply elem_of_indices in Hy. nia.
Qed.

Lemma members_sorted bs : StronglySorted lt (members bs).
Proof. apply members_sorted_from. Qed.

Lemma sorted_lt_NoDup (l : list nat) : StronglySorted lt l -> NoDup l.
Proof.
  induction 1 as [|x l Hs IH Hx]; constructor; [|done]. intros Hin.
  rewrite Forall_forall in Hx. apply Hx in Hin. lia.
Qed.

Lemma len_members bs : BitSet_len bs = length (members bs).
Proof.
  unfold BitSet_len, members. generalize (words bs) as ws. clear bs.
  assert (H : forall ws pre, sum_list (count_ones <$> ws) = length (mjoin (indices_at (pre ++ ws) <$> seq (length pre) (length ws)))).
  2: { intros ws. apply (H ws []). }
  induction ws as [|w ws IH]; intros pre; [done|]. cbn [fmap list_fmap sum_list length seq mjoin list_join].
  rewrite length_app. f_equal.
  - unfold indices_at, indices. rewrite length_fmap, list_lookup_middle by done. done.
  - rewrite (IH (pre ++ [w])), length_app, <- app_assoc. cbn [length app]. by rewrite Nat.add_1_r.
Qed.

Lemma is_empty_members bs : bitset_ok bs -> BitSet_is_empty bs = true <-> members bs = [].
Proof.
  intros Hok. rewrite <- length_zero_iff_nil, <- len_members. unfold BitSet_is_empty, BitSet_len.
  induction Hok as [|w ws Hw Hws IH]; [done|]. cbn [forallb fmap list_fmap sum_list_with id].
  rewrite andb_true_iff, IH, Z.eqb_eq, <- (word_bits_nil w Hw), <- length_zero_iff_nil. unfold count_ones. lia.
Qed.

(** ** Lemmas on the iterator *)

Record iter_ok (it : Iter) : Prop := {
  ok_words : Forall word_ok (it_words it);
  ok_front : word_ok (front_bits it);
  ok_back : word_ok (back_bits it);
  ok_bound : (back it <= length (it_words it))%nat;
  ok_done : (back it <= front it)%nat -> front_bits it = 0;
  ok_joined : (back it <= S (front it))%nat -> back_bits it = 0;
}.

(** What the iterator has left: the rest of its front word, the words in between, the rest of its
    back word. *)
Definition between (it : Iter) : list nat :=
  mjoin (indices_at (it_words it) <$> seq (S (front it)) (back it - front it - 2)).
Definition at_back (it : Iter) : list nat :=
  if (S (front it) <? back it)%nat then indices (back it - 1) (back_bits it) else [].
Definition pending (it : Iter) : list nat := indices (front it) (front_bits it) ++ between it ++ at_back it.

Lemma indices_0 k : indices k 0 = [].
Proof. done. Qed.

Ltac nat_cases :=
  repeat match goal with
  | H : (_ <? _)%nat = true |- _ => apply Nat.ltb_lt in H
  | H : (_ <? _)%nat = false |- _ => apply Nat.ltb_ge in H
  | H : (_ <=? _)%nat = true |- _ => apply Nat.leb_le in H
  | H : (_ <=? _)%nat = false |- _ => apply Nat.leb_gt in H
  | H : (_ =? _)%nat = true |- _ => apply Nat.eqb_eq in H
  | H : (_ =? _)%nat = false |- _ => apply Nat.eqb_neq in H
  end.

Ltac iter_ok_by := constructor; cbn [it_words front back front_bits back_bits set_front set_back];
  try done; try lia; try (eapply Forall_lookup_1; eassumption).

Lemma pending_done it : iter_ok it -> front_bits it = 0 -> (back it <= S (front it))%nat -> pending it = [].
Proof.
  intros Hok H0 Hd. unfold pending, between, at_back. rewrite H0, indices_0.
  replace (back it - front it - 2)%nat with O by lia. by rewrite (proj2 (Nat.ltb_ge _ _)) by lia.
Qed.

(** Moving the front to the next word. *)
Lemma pending_front_last it : front_bits it = 0 -> back it = S (S (front it)) ->
  pending (set_front it (S (front it)) (back_bits it) 0) = pending it.
Proof.
  intros H0 Hb. unfold pending, between, at_back, set_front. cbn [it_words front back front_bits back_bits]. rewrite H0, indices_0, Hb.
  replace (S (S (front it)) - front it - 2)%nat with O by lia.
  replace (S (S (front it)) - S (front it) - 2)%nat with O by lia.
  replace (S (S (front it)) - 1)%nat with (S (front it)) by lia.
  rewrite Nat.ltb_irrefl, (proj2 (Nat.ltb_lt _ _)) by lia. apply app_nil_r.
Qed.

Lemma pending_front_word it w : front_bits it = 0 -> (S (S (front it)) < back it)%nat -> it_words it !! S (front it) = Some w ->
  pending (set_front it (S (front it)) w (back_bits it)) = pending it.
Proof.
  intros H0 Hb Hw. unfold pending, between, at_back, set_front. cbn [it_words front back front_bits back_bits]. rewrite H0, indices_0.
  replace (back it - front it - 2)%nat with (S (back it - S (front it) - 2)) by lia.
  cbn [seq fmap list_fmap mjoin list_join]. unfold indices_at at 2. rewrite Hw. cbn [default from_option id app].
  by rewrite !(proj2 (Nat.ltb_lt _ _)), <- app_assoc by lia.
Qed.

Lemma Iter_next_spec fuel it : iter_ok it -> (back it - front it < fuel)%nat -> exists r it',
  Iter_next fuel it = Some (r, it') /\ iter_ok it' /\ it_words it' = it_words it /\ (r, pending it') = deque_pop true (pending it).
Proof.
  revert it. induction fuel as [|fuel IH]; intros it Hok Hf; [lia|]. pose proof Hok as [Hws Hfb Hbb Hbound Hdone Hjoin].
  cbn [Iter_next]. destruct (front_bits it =? 0) eqn:E0; cbn [negb]; bool_cases.
  - destruct (back it <=? S (front it))%nat eqn:Ef; nat_cases.
    { assert (Hok' : iter_ok (set_front it (S (front it)) (front_bits it) (back_bits it))) by iter_ok_by.
      eexists _, _. split_and!; [done..|]. by rewrite !pending_done by (done || cbn; lia). }
    destruct (S (front it) =? back it - 1)%nat eqn:Eb; nat_cases.
    + edestruct (IH (set_front it (S (front it)) (back_bits it) 0)) as (r & it' & H1 & H2 & H3 & H4); [iter_ok_by|cbn; lia|].
      eexists _, _. rewrite pending_front_last in H4 by (done || lia). by rewrite H1.
    + destruct (lookup_lt_is_Some_2 (it_words it) (S (front it))) as [w Hw]; [lia|]. rewrite Hw. cbn [mbind option_bind].
      edestruct (IH (set_front it (S (front it)) w (back_bits it))) as (r & it' & H1 & H2 & H3 & H4); [iter_ok_by|cbn; lia|].
      eexists _, _. rewrite (pending_front_word it w) in H4 by (done || lia). by rewrite H1.
  - destruct (pop_lowest (front_bits it)) as [Hp Hok']; [done..|].
    eexists _, _. split; [done|]. split_and!; [iter_ok_by|done|].
    unfold pending at 2, indices. rewrite Hp. done.
Qed.

(** Moving the back to the previous word. *)
Lemma pending_back_word it w : back_bits it = 0 -> (S (S (front it)) < back it)%nat -> it_words it !! (back it - 1 - 1)%nat = Some w ->
  pending (set_back it (back it - 1) w) = pending it.
Proof.
  intros H0 Hb Hw. unfold pending, between, at_back, set_back. cbn [it_words front back front_bits back_bits]. f_equal.
  rewrite !(proj2 (Nat.ltb_lt _ _)) by lia. rewrite H0, indices_0, app_nil_r.
  replace (back it - front it - 2)%nat with (back it - 1 - front it - 2 + 1)%nat by lia.
  rewrite seq_app, fmap_app, join_app. f_equal. cbn [seq fmap list_fmap mjoin list_join]. rewrite app_nil_r.
  unfold indices_at. replace (S (front it) + (back it - 1 - front it - 2))%nat with (back it - 1 - 1)%nat by lia. by rewrite Hw.
Qed.

Lemma pending_back_last it : back_bits it = 0 -> back it = S (S (front it)) ->
  pending (set_back it (back it - 1) (back_bits it)) = pending it.
Proof.
  intros H0 Hb. unfold pending, between, at_back, set_back. cbn [it_words front back front_bits back_bits].
  rewrite H0, Hb, indices_0. replace (S (S (front it)) - front it - 2)%nat with O by lia.
  replace (S (S (front it)) - 1 - front it - 2)%nat with O by lia. by repeat case_match.
Qed.

Lemma deque_pop_back_app {A} (l : list A) x : deque_pop false (l ++ [x]) = (Some x, l).
Proof. unfold deque_pop. rewrite last_snoc, length_app, Nat.add_1_r. cbn [pred]. by rewrite take_app_length. Qed.

Lemma indices_pop_highest k w bit v : word_ok w -> w <> 0 -> clear_highest w = (bit, v) ->
  indices k w = indices k v ++ [(k * 64 + bit)%nat] /\ word_ok v.
Proof. intros Hw Hz E. destruct (pop_highest w bit v Hw Hz E) as [Hp Hv]. unfold indices. rewrite Hp. by rewrite fmap_app. Qed.

Lemma Iter_next_back_spec fuel it : iter_ok it -> (back it - front it < fuel)%nat -> exists r it',
  Iter_next_back fuel it = Some (r, it') /\ iter_ok it' /\ it_words it' = it_words it /\ (r, pending it') = deque_pop false (pending it).
Proof.
  revert it. induction fuel as [|fuel IH]; intros it Hok Hf; [lia|]. pose proof Hok as [Hws Hfb Hbb Hbound Hdone Hjoin].
  cbn [Iter_next_back]. destruct (back it <=? front it)%nat eqn:E1; nat_cases.
  { eexists _, _. split; [done|]. rewrite pending_done by auto with lia. done. }
  destruct (front it + 1 <? back it)%nat eqn:E2; nat_cases.
  - destruct (back_bits it =? 0) eqn:E0; cbn [negb]; bool_cases.
    + destruct (front it + 1 <? back it - 1)%nat eqn:E3; nat_cases.
      * destruct (lookup_lt_is_Some_2 (it_words it) (back it - 1 - 1)%nat) as [w Hw]; [lia|]. rewrite Hw. cbn [mbind option_bind].
        edestruct (IH (set_back it (back it - 1) w)) as (r & it' & H1 & H2 & H3 & H4); [iter_ok_by|cbn; lia|].
        eexists _, _. rewrite (pending_back_word it w) in H4 by (done || lia). by rewrite H1.
      * edestruct (IH (set_back it (back it - 1) (back_bits it))) as (r & it' & H1 & H2 & H3 & H4); [iter_ok_by|cbn; lia|].
        eexists _, _. rewrite pending_back_last in H4 by (done || lia). by rewrite H1.
    + destruct (clear_highest (back_bits it)) as [bit v] eqn:Ec.
      destruct (indices_pop_highest (back it - 1) _ _ _ Hbb E0 Ec) as [Hp Hv].
      eexists _, _. split; [done|]. split_and!; [iter_ok_by|done|].
      unfold pending, between, at_back, set_back. cbn [it_words front back front_bits back_bits].
      rewrite !(proj2 (Nat.ltb_lt _ _)) by lia. by rewrite Hp, !app_assoc, deque_pop_back_app.
  - destruct (front_bits it =? 0) eqn:E0; cbn [negb]; bool_cases.
    { eexists _, _. split; [done|]. rewrite pending_done by auto with lia. done. }
    destruct (clear_highest (front_bits it)) as [bit v] eqn:Ec.
    destruct (indices_pop_highest (front it) _ _ _ Hfb E0 Ec) as [Hp Hv].
    eexists _, _. split; [done|]. split_and!; [iter_ok_by|done|].
    unfold pending, between, at_back, set_front. cbn [it_words front back front_bits back_bits].
    replace (back it - front it - 2)%nat with O by lia. rewrite (proj2 (Nat.ltb_ge _ _)) by lia. cbn [seq fmap list_fmap mjoin list_join].
    by rewrite !app_nil_r, Hp, deque_pop_back_app.
Qed.

Lemma Iter_call_spec e it : iter_ok it -> exists r it',
  Iter_call e it = Some (r, it') /\ iter_ok it' /\ it_words it' = it_words it /\ (r, pending it') = deque_pop e (pending it).
Proof.
  intros Hok. pose proof (ok_bound _ Hok). unfold Iter_call.
  destruct e; [apply Iter_next_spec|apply Iter_next_back_spec]; auto; lia.
Qed.

Lemma Iter_calls_spec ends it : iter_ok it -> Iter_calls ends it = Some (deque_calls ends (pending it)).
Proof.
  revert it. induction ends as [|e ends IH]; intros it Hok; [done|].
  destruct (Iter_call_spec e it Hok) as (r & it' & H1 & H2 & _ & H4).
  cbn [Iter_calls deque_calls]. rewrite H1, <- H4. cbn [mbind option_bind]. by rewrite IH.
Qed.

Lemma into_iter_ok bs : bitset_ok bs -> iter_ok (BitSet_into_iter bs) /\ pending (BitSet_into_iter bs) = members bs.
Proof.
  intros Hok. assert (Hw : forall o, default 0 (words bs !! o) = 0 \/ word_ok (default 0 (words bs !! o))).
  { intros o. destruct (words bs !! o) eqn:E; [right|by left]. by eapply Forall_lookup_1. }
  assert (Hd : forall o, word_ok (default 0 (words bs !! o))).
  { intros o. destruct (Hw o) as [->|]; [done|done]. }
  assert (Hh : default 0 (head (words bs)) = default 0 (words bs !! O)) by (by destruct (words bs)).
  split.
  - constructor; cbn [it_words front back front_bits back_bits BitSet_into_iter]; rewrite ?Hh; auto.
    + by case_match.
    + intros Hl. by rewrite lookup_ge_None_2 by lia.
    + intros Hl. by rewrite (proj2 (Nat.ltb_ge _ _)) by lia.
  - unfold pending, between, at_back, members. cbn [it_words front back front_bits back_bits BitSet_into_iter]. rewrite Hh.
    change (indices 0 (default 0 (words bs !! O))) with (indices_at (words bs) 0). generalize (words bs). clear.
    intros [|w [|w' ws]]; [done|done|]. set (l := w :: w' :: ws).
    rewrite !(proj2 (Nat.ltb_lt _ _)) by (cbn; lia). replace (length l) with (1 + (length ws + 1))%nat by (cbn; lia).
    replace (1 + (length ws + 1) - 0 - 2)%nat with (length ws) by lia.
    rewrite !seq_app, !fmap_app, !join_app. cbn [seq fmap list_fmap mjoin list_join Nat.add app]. rewrite !app_nil_r.
    do 2 f_equal. unfold indices_at. f_equal; [lia|]. do 2 f_equal. lia.
Qed.

Lemma Iter_drain_spec fuel e it : iter_ok it -> (length (pending it) < fuel)%nat ->
  Iter_drain fuel e it = Some (if e then pending it else reverse (pending it)).
Proof.
  revert it. induction fuel as [|fuel IH]; intros it Hok Hf; [lia|].
  destruct (Iter_call_spec e it Hok) as (r & it' & H1 & H2 & _ & H4).
  cbn [Iter_drain]. rewrite H1. cbn [mbind option_bind]. revert H4 Hf. generalize (pending it) as l. intros l H4 Hf.
  destruct e; [destruct l as [|x l]; injection H4 as -> Hp; [done|]|].
  - rewrite IH; [by rewrite Hp|done|]. rewrite Hp. cbn [length tail] in *. lia.
  - destruct l as [|x l' _] using rev_ind; [by injection H4 as -> _|].
    rewrite deque_pop_back_app in H4. injection H4 as -> Hp. rewrite length_app in Hf.
    rewrite IH, Hp; [by rewrite reverse_snoc|done|]. rewrite Hp. cbn [length] in Hf. lia.
Qed.

Lemma BitSet_iter_members bs : bitset_ok bs -> BitSet_iter bs = Some (members bs).
Proof.
  intros Hok. destruct (into_iter_ok bs Hok) as [Hit Hp]. unfold BitSet_iter.
  rewrite Iter_drain_spec, Hp; [done..|]. rewrite Hp, len_members. lia.
Qed.

Lemma BitSet_iter_rev_members bs : bitset_ok bs -> BitSet_iter_rev bs = Some (reverse (members bs)).
Proof.
  intros Hok. destruct (into_iter_ok bs Hok) as [Hit Hp]. unfold BitSet_iter_rev.
  rewrite Iter_drain_spec, Hp; [done..|]. rewrite Hp, len_members. lia.
Qed.

(** ** Theorems *)

Definition bitset_of (ops : list bitset_op) : ContiguousBitSet := foldl (flip bitset_run) BitSet_new ops.
Definition gset_of (ops : list bitset_op) : gset nat := foldl (flip gset_run) ∅ ops.

Lemma bitset_of_ok ops : bitset_ok (bitset_of ops) /\ forall i, BitSet_is_set (bitset_of ops) i = bool_decide (i ∈ gset_of ops).
Proof.
  unfold bitset_of, gset_of. induction ops as [|op ops [IH1 IH2]] using rev_ind.
  { split; [by constructor|]. intros i. rewrite is_set_testbit by constructor. apply testbit_0. }
  rewrite !foldl_snoc. set (bs := foldl _ _ ops) in *. set (X := foldl _ _ ops) in *.
  destruct op as [j|j|]; unfold flip; cbn [bitset_run gset_run]; (split; [by auto with saluki|]); intros i.
  - rewrite is_set_set, IH2 by done. repeat case_bool_decide; set_solver.
  - rewrite is_set_clear, IH2 by done. repeat case_bool_decide; set_solver.
  - rewrite is_set_clear_all. by rewrite bool_decide_false by set_solver.
Qed.

(** after any sequence of [set], [clear] and [clear_all], the words of the bit set answer every
    query like the finite set of the indices that were set and not cleared: membership, the number of
    bits (the population counts of the words), emptiness, and iteration, which yields the members in
    strictly ascending order forwards and in the opposite order backwards. *)
Theorem bitset_refines_finite_set (ops : list bitset_op) :
  let bs := bitset_of ops in let X := gset_of ops in
  (forall i, BitSet_is_set bs i = bool_decide (i ∈ X)) /\
  BitSet_len bs = size X /\ BitSet_is_empty bs = bool_decide (X = ∅) /\
  exists l, BitSet_iter bs = Some l /\ BitSet_iter_rev bs = Some (reverse l) /\ StronglySorted lt l /\ forall i, i ∈ l <-> i ∈ X.
Proof.
  intros bs X. destruct (bitset_of_ok ops) as [Hok Hset]. fold bs X in Hok, Hset.
  assert (Hin : forall i, i ∈ members bs <-> i ∈ X) by (intros i; rewrite elem_of_members, Hset by done; apply bool_decide_eq_true).
  assert (HX : X = list_to_set (members bs)) by (apply set_eq; intros; by rewrite elem_of_list_to_set, Hin).
  split_and!; [done| | |exists (members bs)].
  - rewrite len_members, HX, size_list_to_set; [done|]. apply sorted_lt_NoDup, members_sorted.
  - apply Bool.eq_true_iff_eq. rewrite is_empty_members, bool_decide_eq_true by done.
    destruct (members bs) as [|x l] eqn:E; rewrite HX; cbn; [done|]. split; [done|set_solver].
  - split_and!; auto using BitSet_iter_members, BitSet_iter_rev_members, members_sorted.
Qed.

(** the iterator over a bit set, which keeps two words of unread bits that may be the same word,
    is a double-ended queue of the members in ascending order: whatever the interleaving of [next] and
    [next_back], and however often they are called after the end, they return without an index out of
    bounds what popping the ends of that list returns, so every member is yielded exactly once. *)
Theorem bitset_iterator_is_a_deque (ops : list bitset_op) (ends : list bool) :
  Iter_calls ends (BitSet_into_iter (bitset_of ops)) = Some (deque_calls ends (members (bitset_of ops))).
Proof.
  destruct (bitset_of_ok ops) as [Hok _]. destruct (into_iter_ok _ Hok) as [Hit Hp].
  by rewrite Iter_calls_spec, Hp.
Qed.

(** [is_empty] returns [true] when no bits are set; its comment says [false]. *)
Example bitset_is_empty_of_nothing : BitSet_is_empty BitSet_new = true /\ BitSet_is_empty (BitSet_set 70 BitSet_new) = false.
Proof. split; reflexivity. Qed.

(** The interleaving of the source's tests, over two words. *)
Example iter_interleaved_multi_word :
  Iter_calls [true; false; true; false; true; false] (BitSet_into_iter (bitset_of [OpSet 0; OpSet 63; OpSet 64; OpSet 127]))
  = Some [Some 0%nat; Some 127%nat; Some 63%nat; Some 64%nat; None; None].
Proof. reflexivity. Qed.
