(* ===== verification/TagSet.v ===== *)
(** * Tags and tag sets

    [saluki-core/src/data_model/tags/mod.rs] and [tags/tagset].  A tag is its string.  A
    [SharedTagSet] is a chain of reference-counted frozen vectors of tags; whether two of them are the
    same is decided by pointer ([Arc::ptr_eq]), so a frozen vector has its address here and freezing
    takes the address of the allocation.  A [TagSet] is a shared base that is never changed, under an
    overlay of additions and of a bit set of removed positions of the base.

    The iterators are state machines whose [next] may go round its loop several times ([fuel]);
    [None] as a result of an operation is a panic, such as an index out of a vector. *)

From Stdlib Require Import Strings.String ZArith Lia Sorted Permutation.
From stdpp Require Import base tactics list numbers gmap.
From S2P Require Import Prelude Bytes Utf8 RawTags BitSet.
Open Scope Z_scope.

(** ** Tags *)

Abbreviation Tag := bytes.

Definition colon : byte := Z_byte 58.

(** [str::split_once] with a one-byte delimiter. *)
Definition split_once (d : byte) (s : bytes) : option (bytes * bytes) :=
  i ← find_byte d s; Some (take i s, drop (S i) s).

Definition Tag_name (t : Tag) : bytes := match split_once colon t with Some (name, _) => name | None => t end.
Definition Tag_value (t : Tag) : option bytes := snd <$> split_once colon t.

(** Slicing a string panics out of its bounds and inside of a character. *)
Definition is_char_boundary (s : bytes) (i : nat) : bool :=
  match s !! i with Some c => negb (is_cont c) | None => (i =? length s)%nat end.
Definition slice_to (s : bytes) (i : nat) : option bytes := if is_char_boundary s i then Some (take i s) else None.
Definition slice_from (s : bytes) (i : nat) : option bytes := if is_char_boundary s i then Some (drop i s) else None.

Record BorrowedTag := { bt_raw : bytes; separator : option nat }.
Definition Tag_as_borrowed `{Memchr} (s : bytes) : BorrowedTag := {| bt_raw := s; separator := memchr colon s |}.

Definition BorrowedTag_name (t : BorrowedTag) : option bytes :=
  match separator t with Some idx => slice_to (bt_raw t) idx | None => Some (bt_raw t) end.
Definition BorrowedTag_value (t : BorrowedTag) : option (option bytes) :=
  match separator t with Some idx => Some <$> slice_from (bt_raw t) (idx + 1)%nat | None => Some None end.
Definition BorrowedTag_name_and_value (t : BorrowedTag) : option (bytes * option bytes) :=
  match separator t with
  | Some idx => n ← slice_to (bt_raw t) idx; v ← slice_from (bt_raw t) (idx + 1)%nat; Some (n, Some v)
  | None => Some (bt_raw t, None)
  end.

(** ** Iterators: [for x in iter] with a [next] function *)

Section iterators.
Context {I A : Type} (next : I -> option (option A * I)).

Fixpoint iterate (fuel : nat) (it : I) : option (list A) :=
  match fuel with
  | O => None
  | S fuel' =>
      '(r, it') ← next it;
      match r with
      | Some x => rest ← iterate fuel' it'; Some (x :: rest)
      | None => Some []
      end
  end.
End iterators.

(** ** Frozen and shared tag sets *)

(** [Arc<FrozenTagSet>]. *)
Record Frozen := { arc : positive; frozen_tags : list Tag }.

Definition FrozenTagSet_is_empty (ts : Frozen) : bool := match frozen_tags ts with [] => true | _ => false end.
Definition FrozenTagSet_len (ts : Frozen) : nat := length (frozen_tags ts).
Definition FrozenTagSet_has_tag (ts : Frozen) (tag : bytes) : bool :=
  existsb (fun existing => bool_decide (existing = tag)) (frozen_tags ts).
Definition FrozenTagSet_get_single_tag (ts : Frozen) (tag_name : bytes) : option Tag :=
  List.find (fun t => bool_decide (Tag_name t = tag_name)) (frozen_tags ts).

Abbreviation SharedTagSet := (list Frozen).

Definition SharedTagSet_is_empty (s : SharedTagSet) : bool := forallb FrozenTagSet_is_empty s.
Definition SharedTagSet_len (s : SharedTagSet) : nat := sum_list (FrozenTagSet_len <$> s).
Definition SharedTagSet_has_tag (s : SharedTagSet) (tag : bytes) : bool := existsb (fun ts => FrozenTagSet_has_tag ts tag) s.

(** [find_map] *)
Fixpoint SharedTagSet_get_single_tag (s : SharedTagSet) (tag_name : bytes) : option Tag :=
  match s with
  | [] => None
  | ts :: s' =>
      match FrozenTagSet_get_single_tag ts tag_name with
      | Some t => Some t
      | None => SharedTagSet_get_single_tag s' tag_name
      end
  end.

Definition ptr_eq (x y : Frozen) : bool := bool_decide (arc x = arc y).

Definition extend_from_shared (self other : SharedTagSet) : SharedTagSet :=
  foldl (fun s tag_set => if existsb (fun ts => ptr_eq ts tag_set) s then s else s ++ [tag_set]) self other.

Definition SharedTagSet_from_tags (fresh : positive) (tags : list Tag) : SharedTagSet :=
  match tags with [] => [] | _ => [{| arc := fresh; frozen_tags := tags |}] end.

Fixpoint get_by_flat_index (s : SharedTagSet) (remaining : nat) : option Tag :=
  match s with
  | [] => None
  | ts :: s' =>
      let len := FrozenTagSet_len ts in
      if (remaining <? len)%nat then frozen_tags ts !! remaining
      else get_by_flat_index s' (remaining - len)
  end.

(** The iterator goes through the chained sets; an empty set makes its loop go round. *)
Record SharedTagSetIterator := { inner : list Frozen; current : option (list Tag) }.

Definition SharedTagSet_into_iter (s : SharedTagSet) : SharedTagSetIterator := {| inner := s; current := None |}.

Fixpoint shared_next_loop (sets : list Frozen) (cur : option (list Tag)) : option Tag * SharedTagSetIterator :=
  match cur with
  | Some (tag :: rest) => (Some tag, {| inner := sets; current := Some rest |})
  | _ =>
      match sets with
      | next_set :: sets' => shared_next_loop sets' (Some (frozen_tags next_set))
      | [] => (None, {| inner := []; current := cur |})
      end
  end.
Definition SharedTagSetIterator_next (it : SharedTagSetIterator) : option Tag * SharedTagSetIterator :=
  shared_next_loop (inner it) (current it).

Definition shared_tags (s : SharedTagSet) : option (list Tag) :=
  iterate (fun it => Some (SharedTagSetIterator_next it)) (S (SharedTagSet_len s)) (SharedTagSet_into_iter s).

(** ** Tag sets *)

Record TagSetOverlay := { additions : list Tag; removals : ContiguousBitSet }.
Record TagSet := { base : SharedTagSet; overlay : option TagSetOverlay }.

Definition empty_overlay : TagSetOverlay := {| additions := []; removals := BitSet_new |}.
Definition TagSet_default : TagSet := {| base := []; overlay := None |}.
Definition TagSet_with_capacity (capacity : Z) : TagSet := {| base := []; overlay := Some empty_overlay |}.
Definition TagSet_from_tag (tag : Tag) : TagSet :=
  {| base := []; overlay := Some {| additions := [tag]; removals := BitSet_new |} |}.
Definition TagSet_from_shared (s : SharedTagSet) : TagSet := {| base := s; overlay := None |}.
Definition to_mutable (s : SharedTagSet) : TagSet := TagSet_from_shared s.
Definition TagSet_from_iter (tags : list Tag) : TagSet :=
  match tags with
  | [] => {| base := []; overlay := None |}
  | _ => {| base := []; overlay := Some {| additions := tags; removals := BitSet_new |} |}
  end.

(** [ensure_overlay], followed by a change of the overlay. *)
Definition ensure_overlay (ts : TagSet) : TagSetOverlay := default empty_overlay (overlay ts).
Definition with_overlay (ts : TagSet) (o : TagSetOverlay) : TagSet := {| base := base ts; overlay := Some o |}.
Definition push_addition (tags : list Tag) (ts : TagSet) : TagSet :=
  let o := ensure_overlay ts in with_overlay ts {| additions := additions o ++ tags; removals := removals o |}.
Definition set_removal (idx : nat) (ts : TagSet) : TagSet :=
  let o := ensure_overlay ts in with_overlay ts {| additions := additions o; removals := BitSet_set idx (removals o) |}.

Definition is_overlay_removed (o : option TagSetOverlay) (index : nat) : bool :=
  match o with Some o => BitSet_is_set (removals o) index | None => false end.

(** [BaseIndexIter]: the tags of the base with their flattened index. *)
Record BaseIndexIter := { bi_inner : SharedTagSetIterator; bi_index : nat }.
Definition BaseIndexIter_next (it : BaseIndexIter) : option (nat * Tag) * BaseIndexIter :=
  match SharedTagSetIterator_next (bi_inner it) with
  | (Some tag, inner') => (Some (bi_index it, tag), {| bi_inner := inner'; bi_index := S (bi_index it) |})
  | (None, inner') => (None, {| bi_inner := inner'; bi_index := bi_index it |})
  end.
Definition base_indexed_iter (s : SharedTagSet) : option (list (nat * Tag)) :=
  iterate (fun it => Some (BaseIndexIter_next it)) (S (SharedTagSet_len s))
    {| bi_inner := SharedTagSet_into_iter s; bi_index := 0 |}.

Definition removal_count (ts : TagSet) : nat := match overlay ts with Some o => BitSet_len (removals o) | None => 0 end.
(** [usize] subtraction, which wraps. *)
Definition base_len_minus_removals (ts : TagSet) : Z :=
  u64_sub (Z.of_nat (SharedTagSet_len (base ts))) (Z.of_nat (removal_count ts)).

Definition TagSet_is_empty (ts : TagSet) : bool :=
  match overlay ts with
  | None => SharedTagSet_is_empty (base ts)
  | Some o => (match additions o with [] => true | _ => false end) && (base_len_minus_removals ts =? 0)
  end.
Definition TagSet_len (ts : TagSet) : Z :=
  match overlay ts with
  | None => wrap 64 (Z.of_nat (SharedTagSet_len (base ts)))
  | Some o => u64_add (base_len_minus_removals ts) (Z.of_nat (length (additions o)))
  end.
Definition TagSet_is_modified (ts : TagSet) : bool := match overlay ts with Some _ => true | None => false end.

Definition in_additions (p : Tag -> bool) (ts : TagSet) : bool :=
  match overlay ts with Some o => existsb p (additions o) | None => false end.

Definition insert_tag (tag : Tag) (ts : TagSet) : option TagSet :=
  if in_additions (fun existing => bool_decide (existing = tag)) ts then Some ts
  else
    indexed ← base_indexed_iter (base ts);
    if existsb (fun '(idx, base_tag) => negb (is_overlay_removed (overlay ts) idx) && bool_decide (base_tag = tag)) indexed
    then Some ts
    else Some (push_addition [tag] ts).

(** [SmallVec::remove], which panics out of range. *)
Definition vec_remove {A} (i : nat) (l : list A) : option (A * list A) :=
  x ← l !! i; Some (x, take i l ++ drop (S i) l).

(** The [while] loop of [remove_tags] over the additions, from index [i] on. *)
Fixpoint remove_named (fuel : nat) (tag_name : bytes) (i : nat) (adds removed : list Tag) : option (list Tag * list Tag) :=
  match fuel with
  | O => None
  | S fuel' =>
      if (i <? length adds)%nat then
        tag ← adds !! i;
        if bool_decide (Tag_name tag = tag_name) then
          '(tag, adds') ← vec_remove i adds;
          remove_named fuel' tag_name i adds' (removed ++ [tag])
        else remove_named fuel' tag_name (S i) adds removed
      else Some (adds, removed)
  end.

Definition remove_tags (tag_name : bytes) (ts : TagSet) : option (option (list Tag) * TagSet) :=
  '(ts, removed) ←
    match overlay ts with
    | Some o =>
        '(adds, removed) ← remove_named (S (length (additions o))) tag_name 0 (additions o) [];
        Some (with_overlay ts {| additions := adds; removals := removals o |}, removed)
    | None => Some (ts, [])
    end;
  indexed ← base_indexed_iter (base ts);
  let base_matches :=
    fst <$> List.filter (fun '(idx, base_tag) =>
      negb (is_overlay_removed (overlay ts) idx) && bool_decide (Tag_name base_tag = tag_name)) indexed in
  let '(ts, removed) := foldl (fun '(ts, removed) idx =>
      (set_removal idx ts, match get_by_flat_index (base ts) idx with Some tag => removed ++ [tag] | None => removed end))
    (ts, removed) base_matches in
  Some (match removed with [] => None | _ => Some removed end, ts).

Definition TagSet_has_tag (ts : TagSet) (tag : bytes) : option bool :=
  if in_additions (fun t => bool_decide (t = tag)) ts then Some true
  else
    indexed ← base_indexed_iter (base ts);
    Some (existsb (fun '(idx, base_tag) => negb (is_overlay_removed (overlay ts) idx) && bool_decide (base_tag = tag)) indexed).

Definition TagSet_get_single_tag (ts : TagSet) (tag_name : bytes) : option (option Tag) :=
  match overlay ts ≫= fun o => List.find (fun t => bool_decide (Tag_name t = tag_name)) (additions o) with
  | Some tag => Some (Some tag)
  | None =>
      indexed ← base_indexed_iter (base ts);
      Some (snd <$> List.find (fun '(idx, base_tag) =>
        negb (is_overlay_removed (overlay ts) idx) && bool_decide (Tag_name base_tag = tag_name)) indexed)
  end.

(** An [FnMut] predicate is a function from the state that it captured to its verdict and the new
    state. *)
Section predicates.
Context {C : Type} (f : C -> Tag -> bool * C).

(** [SmallVec::retain] *)
Fixpoint vec_retain (st : C) (l : list Tag) : list Tag * C :=
  match l with
  | [] => ([], st)
  | t :: l' =>
      let '(keep, st) := f st t in
      let '(rest, st) := vec_retain st l' in
      (if keep then t :: rest else rest, st)
  end.

Definition retain_additions (st : C) (ts : TagSet) : TagSet * C :=
  match overlay ts with
  | Some o =>
      let '(adds, st) := vec_retain st (additions o) in
      (with_overlay ts {| additions := adds; removals := removals o |}, st)
  | None => (ts, st)
  end.

(** The base tags at indices that satisfy [p] are given to the predicate; the indices of those that it
    rejects are collected. *)
Fixpoint rejected (p : nat -> bool) (st : C) (indexed : list (nat * Tag)) : list nat * C :=
  match indexed with
  | [] => ([], st)
  | (idx, t) :: indexed' =>
      if p idx then
        let '(keep, st) := f st t in
        let '(rest, st) := rejected p st indexed' in
        (if negb keep then idx :: rest else rest, st)
      else rejected p st indexed'
  end.

Definition retain (st : C) (ts : TagSet) : option (TagSet * C) :=
  let '(ts, st) := retain_additions st ts in
  indexed ← base_indexed_iter (base ts);
  let '(to_remove, st) := rejected (fun idx => negb (is_overlay_removed (overlay ts) idx)) st indexed in
  Some (foldl (fun ts idx => set_removal idx ts) ts to_remove, st).

(** One tag of a scan of [collect_removals]: the predicate is asked unless the tag is not [eligible]
    or its bit is set. *)
Definition flag (eligible : nat -> bool) '((bits, st) : ContiguousBitSet * C) '((i, t) : nat * Tag) : ContiguousBitSet * C :=
  if eligible i && negb (BitSet_is_set bits i) then
    let '(keep, st) := f st t in
    (if negb keep then BitSet_set i bits else bits, st)
  else (bits, st).

Definition collect_removals (st : C) (ts : TagSet) (base_removals addition_removals : ContiguousBitSet) :
    option (ContiguousBitSet * ContiguousBitSet * C) :=
  let '(addition_removals, st) :=
    match overlay ts with
    | Some o => foldl (flag (fun _ => true)) (addition_removals, st) (imap pair (additions o))
    | None => (addition_removals, st)
    end in
  indexed ← base_indexed_iter (base ts);
  let '(base_removals, st) := foldl (flag (fun idx => negb (is_overlay_removed (overlay ts) idx))) (base_removals, st) indexed in
  Some (base_removals, addition_removals, st).
End predicates.

(** A predicate that captures nothing. *)
Definition pure_pred (p : Tag -> bool) : unit -> Tag -> bool * unit := fun _ t => (p t, tt).

Fixpoint remove_indices {A} (idxs : list nat) (l : list A) : option (list A) :=
  match idxs with
  | [] => Some l
  | i :: idxs' => '(_, l') ← vec_remove i l; remove_indices idxs' l'
  end.

(** The additions go in descending order, so that the indices stay valid. *)
Definition apply_addition_removals (addition_removals : ContiguousBitSet) (ts : TagSet) : option TagSet :=
  if BitSet_is_empty addition_removals then Some ts
  else
    let o := ensure_overlay ts in
    idxs ← BitSet_iter_rev addition_removals;
    adds ← remove_indices idxs (additions o);
    Some (with_overlay ts {| additions := adds; removals := removals o |}).
Definition apply_base_removals (base_removals : ContiguousBitSet) (ts : TagSet) : option TagSet :=
  if BitSet_is_empty base_removals then Some ts
  else
    let o := ensure_overlay ts in
    idxs ← BitSet_iter base_removals;
    Some (with_overlay ts {| additions := additions o; removals := foldl (flip BitSet_set) (removals o) idxs |}).
Definition apply_removals (base_removals addition_removals : ContiguousBitSet) (ts : TagSet) : option TagSet :=
  ts ← apply_addition_removals addition_removals ts; apply_base_removals base_removals ts.

(** *** The iterators of a tag set *)

Record TagSetIter := {
  base_iter : SharedTagSetIterator;
  base_index : nat;
  iter_overlay : option TagSetOverlay;
  additions_iter : list Tag;
  base_phase_done : bool;
}.

Definition TagSet_iter (ts : TagSet) : TagSetIter :=
  {| base_iter := SharedTagSet_into_iter (base ts); base_index := 0; iter_overlay := overlay ts;
     additions_iter := match overlay ts with Some o => additions o | None => [] end;
     base_phase_done := false |}.

Definition additions_next (it : TagSetIter) : option Tag * TagSetIter :=
  match additions_iter it with
  | tag :: rest =>
      (Some tag, {| base_iter := base_iter it; base_index := base_index it; iter_overlay := iter_overlay it;
                    additions_iter := rest; base_phase_done := true |})
  | [] => (None, {| base_iter := base_iter it; base_index := base_index it; iter_overlay := iter_overlay it;
                    additions_iter := []; base_phase_done := true |})
  end.

Fixpoint base_next_loop (fuel : nat) (it : TagSetIter) : option (option Tag * TagSetIter) :=
  match fuel with
  | O => None
  | S fuel' =>
      let '(r, bit) := SharedTagSetIterator_next (base_iter it) in
      let idx := base_index it in
      match r with
      | Some tag =>
          let it' := {| base_iter := bit; base_index := S idx; iter_overlay := iter_overlay it;
                        additions_iter := additions_iter it; base_phase_done := false |} in
          if is_overlay_removed (iter_overlay it) idx then base_next_loop fuel' it' else Some (Some tag, it')
      | None =>
          Some (additions_next {| base_iter := bit; base_index := idx; iter_overlay := iter_overlay it;
                                  additions_iter := additions_iter it; base_phase_done := true |})
      end
  end.

Definition TagSetIter_next (fuel : nat) (it : TagSetIter) : option (option Tag * TagSetIter) :=
  if base_phase_done it then Some (additions_next it) else base_next_loop fuel it.

(** The tags in the order of [&TagSet::into_iter], with what its collection needs of loops. *)
Definition tags_bound (ts : TagSet) : nat :=
  S (SharedTagSet_len (base ts) + match overlay ts with Some o => length (additions o) | None => 0 end).
Definition tags (ts : TagSet) : option (list Tag) :=
  iterate (TagSetIter_next (tags_bound ts)) (tags_bound ts) (TagSet_iter ts).

(** The consuming iterator reads the base by index. *)
Record TagSetIntoIter := {
  into_base : SharedTagSet;
  into_removals : option ContiguousBitSet;
  into_index : nat;
  into_done : bool;
  into_additions : list Tag;
}.

Definition TagSet_into_iter (ts : TagSet) : TagSetIntoIter :=
  {| into_base := base ts; into_removals := removals <$> overlay ts; into_index := 0; into_done := false;
     into_additions := match overlay ts with Some o => additions o | None => [] end |}.

Fixpoint into_next_loop (fuel : nat) (it : TagSetIntoIter) : option (option Tag * TagSetIntoIter) :=
  match fuel with
  | O => None
  | S fuel' =>
      let idx := into_index it in
      match get_by_flat_index (into_base it) idx with
      | Some tag =>
          let it' := {| into_base := into_base it; into_removals := into_removals it; into_index := S idx;
                        into_done := false; into_additions := into_additions it |} in
          let removed := match into_removals it with Some r => BitSet_is_set r idx | None => false end in
          if removed then into_next_loop fuel' it' else Some (Some tag, it')
      | None =>
          Some (head (into_additions it),
                {| into_base := into_base it; into_removals := into_removals it; into_index := idx;
                   into_done := true; into_additions := tail (into_additions it) |})
      end
  end.

Definition TagSetIntoIter_next (fuel : nat) (it : TagSetIntoIter) : option (option Tag * TagSetIntoIter) :=
  if into_done it then
    Some (head (into_additions it),
          {| into_base := into_base it; into_removals := into_removals it; into_index := into_index it;
             into_done := true; into_additions := tail (into_additions it) |})
  else into_next_loop fuel it.

Definition into_tags (ts : TagSet) : option (list Tag) :=
  iterate (TagSetIntoIter_next (tags_bound ts)) (tags_bound ts) (TagSet_into_iter ts).

(** *** Merging, freezing, comparing *)

Definition merge_missing (other ts : TagSet) : option TagSet :=
  others ← into_tags other;
  foldl (fun ts tag => ts ≫= insert_tag tag) (Some ts) others.

Definition merge_missing_shared (other : SharedTagSet) (ts : TagSet) : option TagSet :=
  others ← shared_tags other;
  foldl (fun ts tag =>
    ts ← ts;
    present ← TagSet_has_tag ts tag;
    Some (if (present : bool) then ts else push_addition [tag] ts)) (Some ts) others.

Definition merge_shared (other : SharedTagSet) (ts : TagSet) : TagSet :=
  {| base := extend_from_shared (base ts) other; overlay := overlay ts |}.

Definition TagSet_extend (tags : list Tag) (ts : TagSet) : TagSet := push_addition tags ts.

Definition into_shared (fresh : positive) (ts : TagSet) : option SharedTagSet :=
  match overlay ts with
  | None => Some (base ts)
  | Some _ => effective ← into_tags ts; Some (SharedTagSet_from_tags fresh effective)
  end.

Definition TagSet_eq (self other : TagSet) : option bool :=
  if negb (TagSet_len self =? TagSet_len other) then Some false
  else
    others ← tags other;
    foldr (fun t r => present ← TagSet_has_tag self t; if (present : bool) then r else Some false) (Some true) others.

(** [Hash::hash] feeds the strings of the tags to the hasher in the order of iteration. *)
Definition TagSet_hash (ts : TagSet) : option (list bytes) := tags ts.

Definition tags_eq_pairwise (xs ys : list Tag) : bool :=
  forallb (fun '(x, y) => bool_decide (x = y)) (zip xs ys).
Definition SharedTagSet_eq (self other : SharedTagSet) : option bool :=
  if negb (SharedTagSet_len self =? SharedTagSet_len other)%nat then Some false
  else xs ← shared_tags self; ys ← shared_tags other; Some (tags_eq_pairwise xs ys).
Definition SharedTagSet_eq_TagSet (self : SharedTagSet) (other : TagSet) : option bool :=
  if negb (wrap 64 (Z.of_nat (SharedTagSet_len self)) =? TagSet_len other) then Some false
  else xs ← shared_tags self; ys ← tags other; Some (tags_eq_pairwise xs ys).

(** [Display]. *)
Fixpoint join_with (sep : bytes) (fs : list bytes) : bytes :=
  match fs with [] => [] | [f] => f | f :: fs' => f ++ sep ++ join_with sep fs' end.
Definition TagSet_display (ts : TagSet) : option bytes := ts ← tags ts; Some (b "[" ++ join_with (b ",") ts ++ b "]").
Definition SharedTagSet_display (s : SharedTagSet) : bytes := b "[" ++ join_with (b ", ") (mjoin (frozen_tags <$> s)) ++ b "]".

(** ** Specification *)

(** The tags of a shared set, flattened. *)
Definition flat (s : SharedTagSet) : list Tag := mjoin (frozen_tags <$> s).

(** The elements of a list at the positions that satisfy [p]. *)
Fixpoint keep {A} (p : nat -> bool) (l : list A) : list A :=
  match l with
  | [] => []
  | x :: l' => if p O then x :: keep (fun i => p (S i)) l' else keep (fun i => p (S i)) l'
  end.

Definition live (ts : TagSet) (i : nat) : bool := negb (is_overlay_removed (overlay ts) i).
Definition base_tags (ts : TagSet) : list Tag := keep (live ts) (flat (base ts)).
Definition added_tags (ts : TagSet) : list Tag := match overlay ts with Some o => additions o | None => [] end.
Definition effective (ts : TagSet) : list Tag := base_tags ts ++ added_tags ts.

(** The removal bits are positions of the base. *)
Definition overlay_ok (n : nat) (o : TagSetOverlay) : Prop :=
  bitset_ok (removals o) /\ forall i, BitSet_is_set (removals o) i = true -> (i < n)%nat.
Definition tagset_ok (ts : TagSet) : Prop :=
  match overlay ts with Some o => overlay_ok (SharedTagSet_len (base ts)) o | None => True end.

(** The abstract tag set: the chain of addresses behind the base, the tags of the base that are
    left, and the added tags. *)
Record atags := { a_arcs : list positive; a_base : list Tag; a_adds : list Tag }.

Definition abstract (ts : TagSet) : atags :=
  {| a_arcs := arc <$> base ts; a_base := base_tags ts; a_adds := added_tags ts |}.

Definition a_all (a : atags) : list Tag := a_base a ++ a_adds a.
Definition a_push (ts : list Tag) (a : atags) : atags := {| a_arcs := a_arcs a; a_base := a_base a; a_adds := a_adds a ++ ts |}.
Definition a_filter (f : Tag -> bool) (a : atags) : atags :=
  {| a_arcs := a_arcs a; a_base := List.filter f (a_base a); a_adds := List.filter f (a_adds a) |}.
Definition a_insert (t : Tag) (a : atags) : atags := if bool_decide (t ∈ a_all a) then a else a_push [t] a.
Definition named (n : bytes) (t : Tag) : bool := bool_decide (Tag_name t = n).
