(* ===== verification/TagSetProofs.v ===== *)
(** * Tag sets implement lists of tags

    Tag sets ([TagSet]) are proved to behave like the list of their effective tags, through any
    sequence of operations: the base tags that were not removed, in their order, then the additions.
    [abstract] is the simulation; [collect_removals] followed by [apply_removals] is proved to be
    [retain]. *)

From Stdlib Require Import Strings.String ZArith Lia Sorted Permutation.
From stdpp Require Import base tactics list numbers gmap sorting.
From S2P Require Import Prelude Bytes Utf8 RawTags BitSet TagSet.
Open Scope Z_scope.

(** ** Lemmas on iterators *)

Section iterate_lemmas.
Context {I A : Type} (next : I -> option (option A * I)) (left : I -> list A) (P : I -> Prop)
        (Hnext : forall it, P it -> exists it', next it = Some (head (left it), it') /\ P it' /\ left it' = tail (left it)).

Lemma iterate_spec fuel it : P it -> (length (left it) < fuel)%nat -> iterate next fuel it = Some (left it).
Proof using Hnext.
  revert it. induction fuel as [|fuel IH]; intros it HP Hf; [lia|].
  destruct (Hnext it HP) as (it' & Hn & HP' & Hl). cbn [iterate]. rewrite Hn. cbn [mbind option_bind].
  destruct (left it) as [|x l] eqn:E; cbn [head tail] in *; [done|].
  rewrite IH, Hl by (rewrite ?Hl; cbn [length] in *; done || lia). done.
Qed.
End iterate_lemmas.

(** ** Lemmas on flattened sets *)

Lemma flat_cons ts s : flat (ts :: s) = frozen_tags ts ++ flat s.
Proof. done. Qed.

Lemma flat_app s1 s2 : flat (s1 ++ s2) = flat s1 ++ flat s2.
Proof. unfold flat. by rewrite fmap_app, join_app. Qed.

Lemma SharedTagSet_len_flat s : SharedTagSet_len s = length (flat s).
Proof.
  induction s as [|ts s IH]; [done|]. rewrite flat_cons, length_app, <- IH. done.
Qed.

Lemma get_by_flat_index_flat s i : get_by_flat_index s i = flat s !! i.
Proof.
  revert i. induction s as [|ts s IH]; intros i; [done|]. rewrite flat_cons. cbn [get_by_flat_index].
  unfold FrozenTagSet_len. destruct (i <? length (frozen_tags ts))%nat eqn:E; nat_cases.
  - by rewrite lookup_app_l.
  - by rewrite lookup_app_r, IH.
Qed.

Definition shared_left (it : SharedTagSetIterator) : list Tag := default [] (current it) ++ flat (inner it).

Lemma shared_next_loop_spec sets cur : exists it,
  shared_next_loop sets cur = (head (default [] cur ++ flat sets), it) /\ shared_left it = tail (default [] cur ++ flat sets).
Proof.
  revert cur. induction sets as [|ts sets IH]; intros cur.
  - destruct cur as [[|t rest]|]; cbn [shared_next_loop]; by eexists.
  - destruct cur as [[|t rest]|]; cbn [shared_next_loop]; [| by eexists|]; apply (IH (Some (frozen_tags ts))).
Qed.

Lemma SharedTagSetIterator_next_spec it : exists it',
  SharedTagSetIterator_next it = (head (shared_left it), it') /\ shared_left it' = tail (shared_left it).
Proof. apply shared_next_loop_spec. Qed.

Lemma shared_tags_flat s : shared_tags s = Some (flat s).
Proof.
  unfold shared_tags. rewrite (iterate_spec _ shared_left (fun _ => True)); try done.
  - intros it _. destruct (SharedTagSetIterator_next_spec it) as (it' & -> & Hl). by eexists.
  - change (shared_left (SharedTagSet_into_iter s)) with (flat s). rewrite SharedTagSet_len_flat. lia.
Qed.

(** A list with its positions, from [n] on. *)
Fixpoint number {A} (n : nat) (l : list A) : list (nat * A) :=
  match l with [] => [] | x :: l' => (n, x) :: number (S n) l' end.

Lemma length_number {A} n (l : list A) : length (number n l) = length l.
Proof. revert n. induction l as [|x l IH]; intros n; cbn; [done|]. by rewrite IH. Qed.

Lemma imap_pair_number {A} (l : list A) : imap pair l = number 0 l.
Proof.
  assert (H : forall n, imap (fun i x => ((n + i)%nat, x)) l = number n l).
  { induction l as [|x l IH]; intros n; [done|]. cbn [imap number]. rewrite Nat.add_0_r, <- IH. f_equal.
    apply imap_ext. intros i y _. cbn. f_equal. lia. }
  apply (H O).
Qed.

Definition indexed_left (it : BaseIndexIter) : list (nat * Tag) := number (bi_index it) (shared_left (bi_inner it)).

Lemma base_indexed_iter_flat s : base_indexed_iter s = Some (number 0 (flat s)).
Proof.
  unfold base_indexed_iter. rewrite (iterate_spec _ indexed_left (fun _ => True)); try done.
  - intros it _. unfold BaseIndexIter_next, indexed_left.
    destruct (SharedTagSetIterator_next_spec (bi_inner it)) as (it' & -> & Hl).
    destruct (shared_left (bi_inner it)) as [|t l]; cbn [head]; eexists; (split; [done|split; [done|]]);
      cbn [bi_index bi_inner]; by rewrite Hl.
  - change (indexed_left _) with (number 0 (flat s)). rewrite length_number, SharedTagSet_len_flat. lia.
Qed.

(** ** Lemmas on [keep] *)

Section keep_lemmas.
Context {A : Type}.
Implicit Types (l : list A) (p : nat -> bool) (q : A -> bool).

Lemma keep_ext p1 p2 l : (forall i, (i < length l)%nat -> p1 i = p2 i) -> keep p1 l = keep p2 l.
Proof.
  revert p1 p2. induction l as [|x l IH]; intros p1 p2 H; [done|]. cbn [keep].
  rewrite (H O) by (cbn; lia). rewrite (IH _ (fun i => p2 (S i))); [done|]. intros i Hi. apply H. cbn. lia.
Qed.

Lemma keep_true p l : (forall i, (i < length l)%nat -> p i = true) -> keep p l = l.
Proof.
  revert p. induction l as [|x l IH]; intros p H; [done|]. cbn [keep]. rewrite (H O) by (cbn; lia).
  f_equal. apply IH. intros i Hi. apply H. cbn. lia.
Qed.

Lemma keep_app p l1 l2 : keep p (l1 ++ l2) = keep p l1 ++ keep (fun i => p (length l1 + i)%nat) l2.
Proof. revert p. induction l1 as [|x l IH]; intros p; [done|]. cbn [keep app length Nat.add]. rewrite IH. by destruct (p O). Qed.

Lemma length_keep p l : (length (keep p l) <= length l)%nat.
Proof.
  revert p. induction l as [|x l IH]; intros p; [done|]. specialize (IH (fun i => p (S i))). cbn [keep length].
  destruct (p O); cbn [length]; lia.
Qed.

Lemma existsb_live p q n l :
  existsb (fun '(i, x) => p i && q x) (number n l) = existsb q (keep (fun i => p (n + i)%nat) l).
Proof.
  revert n. induction l as [|x l IH]; intros n; [done|]. cbn [existsb number keep]. rewrite IH, Nat.add_0_r.
  rewrite (keep_ext (fun i => p (S n + i)%nat) (fun i => p (n + S i)%nat)) by (intros; f_equal; lia).
  by destruct (p n).
Qed.

Lemma find_live p q n l :
  snd <$> List.find (fun '(i, x) => p i && q x) (number n l) = List.find q (keep (fun i => p (n + i)%nat) l).
Proof.
  revert n. induction l as [|x l IH]; intros n; [done|]. cbn [List.find number keep]. rewrite Nat.add_0_r.
  rewrite (keep_ext (fun i => p (n + S i)%nat) (fun i => p (S n + i)%nat)) by (intros; f_equal; lia).
  destruct (p n); cbn [andb]; [|apply IH]. cbn [List.find]. destruct (q x); [done|apply IH].
Qed.

(** The positions that a scan selects. *)
Definition chosen p q n l : list nat := fst <$> List.filter (fun '(i, x) => p i && q x) (number n l).

Lemma elem_of_chosen p q n l i :
  i ∈ chosen p q n l <-> exists j x, l !! j = Some x /\ i = (n + j)%nat /\ p i = true /\ q x = true.
Proof.
  unfold chosen. revert n. induction l as [|y l IH]; intros n; cbn [number List.filter].
  { split; [set_solver|]. intros (j & x & Hj & _). by rewrite lookup_nil in Hj. }
  trans ((i = n /\ p n && q y = true) \/ i ∈ fst <$> List.filter (fun '(i, x) => p i && q x) (number (S n) l)).
  { destruct (p n && q y); [rewrite fmap_cons, elem_of_cons; cbn; naive_solver|naive_solver]. }
  rewrite IH. split.
  - intros [[-> [H1 H2]%andb_true_iff]|(j & x & Hj & -> & Hr)].
    + exists O, y. by rewrite Nat.add_0_r.
    + exists (S j), x. replace (n + S j)%nat with (S n + j)%nat by lia. done.
  - intros ([|j] & x & Hj & Hi & Hp & Hq); [left|right].
    + cbn in Hj. simplify_eq. rewrite Nat.add_0_r in *. by rewrite Hp, Hq.
    + exists j, x. cbn in Hj. split_and!; auto; lia.
Qed.

Lemma chosen_lookup p q n l j x : l !! j = Some x -> p (n + j)%nat = true ->
  bool_decide ((n + j)%nat ∈ chosen p q n l) = q x.
Proof.
  intros Hj Hp. destruct (q x) eqn:E.
  - apply bool_decide_eq_true, elem_of_chosen. by exists j, x.
  - apply bool_decide_eq_false. rewrite elem_of_chosen. intros (j' & y & Hj' & Heq & _ & Hq).
    assert (j' = j) as -> by lia. congruence.
Qed.

(** Taking the chosen positions out leaves the elements that were not asked for. *)
Lemma keep_not_chosen p q n l :
  keep (fun i => p (n + i)%nat && negb (bool_decide ((n + i)%nat ∈ chosen p q n l))) l
  = List.filter (fun x => negb (q x)) (keep (fun i => p (n + i)%nat) l).
Proof.
  assert (H : forall m r, (forall j x, r !! j = Some x -> l !! (m + j)%nat = Some x) ->
    keep (fun i => p (n + (m + i))%nat && negb (bool_decide ((n + (m + i))%nat ∈ chosen p q n l))) r
    = List.filter (fun x => negb (q x)) (keep (fun i => p (n + (m + i))%nat) r)).
  { intros m r. revert m. induction r as [|x r IH]; intros m Hr; [done|]. cbn [keep].
    specialize (IH (S m)). replace (m + 0)%nat with m by lia.
    assert (Htail : forall i, (n + (m + S i))%nat = (n + (S m + i))%nat) by lia.
    rewrite (keep_ext _ (fun i => p (n + (S m + i))%nat && negb (bool_decide ((n + (S m + i))%nat ∈ chosen p q n l)))) by (intros; by rewrite Htail).
    rewrite (keep_ext (fun i => p (n + (m + S i))%nat) (fun i => p (n + (S m + i))%nat)) by (intros; by rewrite Htail).
    rewrite IH by (intros j y Hj; replace (S m + j)%nat with (m + S j)%nat by lia; by apply Hr).
    destruct (p (n + m)%nat) eqn:Ep; cbn [andb]; [|done]. cbn [List.filter].
    rewrite (chosen_lookup p q n l m x); [by destruct (q x)| |done].
    rewrite <- (Nat.add_0_r m). by apply Hr. }
  apply (H O). done.
Qed.

Lemma omap_chosen p q n pre l : length pre = n ->
  omap (fun i => (pre ++ l) !! i) (chosen p q n l) = List.filter q (keep (fun i => p (n + i)%nat) l).
Proof.
  unfold chosen. revert n pre. induction l as [|x l IH]; intros n pre Hn; [done|]. cbn [number List.filter keep].
  rewrite Nat.add_0_r. specialize (IH (S n) (pre ++ [x])). rewrite <- app_assoc in IH. cbn [app] in IH.
  rewrite (keep_ext (fun i => p (n + S i)%nat) (fun i => p (S n + i)%nat)) by (intros; f_equal; lia).
  specialize (IH ltac:(rewrite length_app; cbn; lia)).
  destruct (p n) eqn:Ep; cbn [andb List.filter]; [|exact IH]. destruct (q x); [|exact IH].
  rewrite fmap_cons. cbn [omap list_omap fst]. rewrite list_lookup_middle by done. f_equal. exact IH.
Qed.

(** Removing positions from the back, one at a time. *)
Lemma remove_indices_keep (ks : list nat) l : StronglySorted lt ks -> Forall (fun i => (i < length l)%nat) ks ->
  remove_indices (reverse ks) l = Some (keep (fun i => negb (bool_decide (i ∈ ks))) l).
Proof.
  revert l. induction ks as [|i ks IH] using rev_ind; intros l Hs Hb.
  { cbn. f_equal. symmetry. apply keep_true. done. }
  apply Forall_app in Hb as [Hb Hi]. apply Forall_cons in Hi as [Hi _]. rewrite reverse_snoc. cbn [remove_indices].
  destruct (lookup_lt_is_Some_2 l i Hi) as [x Hx]. unfold vec_remove. rewrite Hx. cbn [mbind option_bind].
  apply StronglySorted_app in Hs as (Hlt & Hs & _).
  assert (Hlt' : forall j, j ∈ ks -> (j < i)%nat) by (intros; apply Hlt; set_solver).
  rewrite IH; [|done|].
  2: { apply Forall_forall. intros j Hj. apply Hlt' in Hj. rewrite length_app, length_take, length_drop. lia. }
  f_equal. rewrite <- (take_drop_middle l i x Hx) at 3. rewrite !keep_app. cbn [keep].
  rewrite length_take, Nat.min_l, Nat.add_0_r by lia.
  rewrite (bool_decide_true (i ∈ _)) by set_solver. cbn [negb]. f_equal.
  - apply keep_ext. rewrite length_take. intros j Hj. f_equal. apply bool_decide_ext.
    rewrite elem_of_app, list_elem_of_singleton. assert (j <> i) by lia. naive_solver.
  - rewrite !keep_true; [done| |]; intros j _; apply negb_true_iff, bool_decide_eq_false; [rewrite elem_of_app, list_elem_of_singleton; intros [Hj|Hj]|intros Hj];
      try apply Hlt' in Hj; lia.
Qed.
End keep_lemmas.

(** ** Lemmas on the overlay *)

Lemma existsb_elem_of {A} `{EqDecision A} (x : A) l : existsb (fun y => bool_decide (y = x)) l = bool_decide (x ∈ l).
Proof.
  apply Bool.eq_true_iff_eq. rewrite existsb_exists, bool_decide_eq_true, list_elem_of_In.
  setoid_rewrite bool_decide_eq_true. naive_solver.
Qed.

Lemma in_additions_added p ts : in_additions p ts = existsb p (added_tags ts).
Proof. unfold in_additions, added_tags. by destruct (overlay ts). Qed.

Lemma live_new i : BitSet_is_set BitSet_new i = false.
Proof. done. Qed.

Lemma ensure_overlay_ok ts : tagset_ok ts -> overlay_ok (SharedTagSet_len (base ts)) (ensure_overlay ts).
Proof.
  unfold tagset_ok, ensure_overlay. destruct (overlay ts) as [o|]; [done|]. intros _.
  split; [constructor|]. intros i. by rewrite live_new.
Qed.

Lemma live_ensure ts i : live ts i = negb (BitSet_is_set (removals (ensure_overlay ts)) i).
Proof. unfold live, is_overlay_removed, ensure_overlay. by destruct (overlay ts). Qed.

Lemma added_ensure ts : added_tags ts = additions (ensure_overlay ts).
Proof. unfold added_tags, ensure_overlay. by destruct (overlay ts). Qed.

Lemma abstract_with_overlay ts adds r : abstract (with_overlay ts {| additions := adds; removals := r |}) =
  {| a_arcs := arc <$> base ts; a_base := keep (fun i => negb (BitSet_is_set r i)) (flat (base ts)); a_adds := adds |}.
Proof. done. Qed.

Lemma base_tags_ensure ts : keep (fun i => negb (BitSet_is_set (removals (ensure_overlay ts)) i)) (flat (base ts)) = base_tags ts.
Proof. apply keep_ext. intros i _. by rewrite live_ensure. Qed.

Lemma push_addition_spec new ts : tagset_ok ts ->
  tagset_ok (push_addition new ts) /\ abstract (push_addition new ts) = a_push new (abstract ts).
Proof.
  intros Hok. split; [by apply ensure_overlay_ok in Hok|].
  unfold push_addition. rewrite abstract_with_overlay, base_tags_ensure, <- added_ensure. done.
Qed.

Definition set_removals (ks : list nat) (ts : TagSet) : TagSet := foldl (fun ts idx => set_removal idx ts) ts ks.

Lemma set_removal_ok k ts : tagset_ok ts -> (k < SharedTagSet_len (base ts))%nat -> tagset_ok (set_removal k ts).
Proof.
  intros [H1 H2]%ensure_overlay_ok Hk. split; cbn [removals]; [auto with saluki|].
  intros i. rewrite is_set_set by done. intros [?%bool_decide_eq_true|?]%orb_true_iff; [subst; done|by apply H2].
Qed.

Lemma live_set_removal k ts i : tagset_ok ts -> live (set_removal k ts) i = live ts i && negb (bool_decide (i = k)).
Proof.
  intros [H1 _]%ensure_overlay_ok. rewrite live_ensure, (live_ensure ts). unfold set_removal, with_overlay, ensure_overlay at 1.
  cbn [overlay default from_option removals id]. rewrite is_set_set by done. by rewrite negb_orb, andb_comm.
Qed.

Lemma set_removals_spec ks ts : tagset_ok ts -> Forall (fun k => (k < SharedTagSet_len (base ts))%nat) ks ->
  tagset_ok (set_removals ks ts) /\ base (set_removals ks ts) = base ts /\ added_tags (set_removals ks ts) = added_tags ts /\
  forall i, live (set_removals ks ts) i = live ts i && negb (bool_decide (i ∈ ks)).
Proof.
  intros Hok. unfold set_removals. revert ts Hok. induction ks as [|k ks IH]; intros ts Hok Hk; cbn [foldl].
  { split_and!; try done. intros i. by rewrite bool_decide_false, andb_true_r by set_solver. }
  apply Forall_cons in Hk as [Hk Hks]. destruct (IH (set_removal k ts)) as (H1 & H2 & H3 & H4); [by apply set_removal_ok|done|].
  split_and!; [done|done|by rewrite H3, (added_ensure ts)|]. intros i. rewrite H4, live_set_removal, <- andb_assoc by done.
  f_equal. rewrite <- negb_orb. f_equal. apply Bool.eq_true_iff_eq. rewrite orb_true_iff, !bool_decide_eq_true. set_solver.
Qed.

(** The scan over the base that [remove_tags] and [retain] share. *)
Definition matches (q : Tag -> bool) (ts : TagSet) : list nat := chosen (live ts) q 0 (flat (base ts)).

Lemma matches_bound q ts : Forall (fun k => (k < SharedTagSet_len (base ts))%nat) (matches q ts).
Proof.
  apply Forall_forall. intros k (j & x & Hj & -> & _)%elem_of_chosen. rewrite SharedTagSet_len_flat.
  by apply lookup_lt_Some in Hj.
Qed.

Lemma remove_matches q ts : tagset_ok ts ->
  tagset_ok (set_removals (matches q ts) ts) /\
  abstract (set_removals (matches q ts) ts) =
    {| a_arcs := arc <$> base ts; a_base := List.filter (fun x => negb (q x)) (base_tags ts); a_adds := added_tags ts |}.
Proof.
  intros Hok. destruct (set_removals_spec (matches q ts) ts Hok (matches_bound q ts)) as (H1 & H2 & H3 & H4).
  split; [done|]. unfold abstract. f_equal; [by rewrite H2| |done]. unfold base_tags. rewrite H2.
  rewrite (keep_ext (live (set_removals _ _)) (fun i => live ts (0 + i)%nat && negb (bool_decide ((0 + i)%nat ∈ matches q ts)))) by (intros; by rewrite H4).
  apply keep_not_chosen.
Qed.

(** ** The operations refine those on lists *)

Lemma TagSet_has_tag_spec ts t : TagSet_has_tag ts t = Some (bool_decide (t ∈ effective ts)).
Proof.
  unfold TagSet_has_tag, effective. rewrite in_additions_added, existsb_elem_of, base_indexed_iter_flat. cbn [mbind option_bind].
  rewrite (existsb_live (live ts) (fun x => bool_decide (x = t))), existsb_elem_of. cbn [Nat.add].
  fold (base_tags ts). repeat case_bool_decide; set_solver.
Qed.

Lemma insert_tag_spec t ts : tagset_ok ts -> exists ts',
  insert_tag t ts = Some ts' /\ tagset_ok ts' /\ abstract ts' = a_insert t (abstract ts).
Proof.
  intros Hok. unfold insert_tag. rewrite in_additions_added, existsb_elem_of, base_indexed_iter_flat. cbn [mbind option_bind].
  rewrite (existsb_live (live ts) (fun x => bool_decide (x = t))), existsb_elem_of. cbn [Nat.add]. fold (base_tags ts).
  unfold a_insert, a_all. cbn [abstract a_base a_adds].
  destruct (push_addition_spec [t] ts Hok) as [H1 H2].
  repeat case_bool_decide; try (exfalso; set_solver); eexists; split_and!; eauto.
Qed.

Lemma remove_named_spec name pre adds removed fuel : (length adds < fuel)%nat -> Forall (fun t => named name t = false) pre ->
  remove_named fuel name (length pre) (pre ++ adds) removed =
  Some (pre ++ List.filter (fun t => negb (named name t)) adds, removed ++ List.filter (named name) adds).
Proof.
  revert pre adds removed. induction fuel as [|fuel IH]; intros pre adds removed Hf Hpre; [lia|]. cbn [remove_named].
  destruct adds as [|t adds].
  { rewrite app_nil_r, (proj2 (Nat.ltb_ge _ _)) by lia. by rewrite !app_nil_r. }
  rewrite length_app, (proj2 (Nat.ltb_lt _ _)) by (cbn; lia). unfold vec_remove.
  rewrite list_lookup_middle by done. cbn [mbind option_bind List.filter]. fold (named name t). cbn [length] in Hf.
  destruct (named name t) eqn:E; cbn [negb].
  - assert (Hd : drop (S (length pre)) (pre ++ t :: adds) = adds).
    { rewrite (cons_middle t), app_assoc. apply drop_app_length'. rewrite length_app. cbn. lia. }
    rewrite take_app_length, Hd, IH by (done || lia). by rewrite <- app_assoc.
  - specialize (IH (pre ++ [t]) adds removed). rewrite length_app, <- !app_assoc in IH. cbn [length app] in IH.
    rewrite Nat.add_1_r in IH. apply IH; [lia|]. apply Forall_app. by repeat constructor.
Qed.

Definition some_if_any (l : list Tag) : option (list Tag) := match l with [] => None | _ => Some l end.

Lemma foldl_removed ks ts removed :
  foldl (fun '(ts, removed) idx => (set_removal idx ts,
      match get_by_flat_index (base ts) idx with Some tag => removed ++ [tag] | None => removed end)) (ts, removed) ks
  = (set_removals ks ts, removed ++ omap (fun i => flat (base ts) !! i) ks).
Proof.
  revert ts removed. induction ks as [|k ks IH]; intros ts removed; cbn [foldl omap list_omap]; [by rewrite app_nil_r|].
  rewrite IH. unfold set_removals at 2. cbn [foldl]. fold (set_removals ks (set_removal k ts)). f_equal.
  change (base (set_removal k ts)) with (base ts). rewrite get_by_flat_index_flat.
  destruct (flat (base ts) !! k); [by rewrite <- app_assoc|done].
Qed.

Lemma remove_tags_spec name ts : tagset_ok ts -> exists ts',
  remove_tags name ts = Some (some_if_any (List.filter (named name) (added_tags ts) ++ List.filter (named name) (base_tags ts)), ts') /\
  tagset_ok ts' /\ abstract ts' = a_filter (fun t => negb (named name t)) (abstract ts).
Proof.
  intros Hok. unfold remove_tags.
  set (ts1 := match overlay ts with
    | Some o => with_overlay ts {| additions := List.filter (fun t => negb (named name t)) (additions o); removals := removals o |}
    | None => ts end).
  assert (Hstep : match overlay ts with
    | Some o => '(adds, removed) ← remove_named (S (length (additions o))) name 0 (additions o) [];
        Some (with_overlay ts {| additions := adds; removals := removals o |}, removed)
    | None => Some (ts, []) end = Some (ts1, List.filter (named name) (added_tags ts))).
  { unfold ts1, added_tags. destruct (overlay ts) as [o|]; [|done].
    by rewrite (remove_named_spec name [] (additions o) []) by (done || lia). }
  rewrite Hstep. cbn [mbind option_bind]. rewrite base_indexed_iter_flat. cbn [mbind option_bind].
  assert (Hok1 : tagset_ok ts1) by (revert Hok; unfold ts1, tagset_ok; by destruct (overlay ts) as [o|] eqn:E; cbn [overlay with_overlay]; rewrite ?E).
  assert (Ha1 : abstract ts1 = {| a_arcs := arc <$> base ts; a_base := base_tags ts;
      a_adds := List.filter (fun t => negb (named name t)) (added_tags ts) |}).
  { unfold ts1, abstract, added_tags, base_tags, live. by destruct (overlay ts) as [o|] eqn:E; cbn [overlay with_overlay base]; rewrite ?E. }
  injection Ha1 as Harc Hbase Hadd. change (fst <$> _) with (matches (named name) ts1). rewrite foldl_removed.
  destruct (remove_matches (named name) ts1 Hok1) as [Hok2 Ha2].
  eexists. split; [|split; [exact Hok2|]].
  - pose proof (omap_chosen (live ts1) (named name) 0 [] (flat (base ts1)) eq_refl) as Ho.
    cbn [app Nat.add] in Ho. fold (matches (named name) ts1) in Ho.
    change (keep (fun i => live ts1 i) (flat (base ts1))) with (base_tags ts1) in Ho. by rewrite Ho, Hbase.
  - by rewrite Ha2, Harc, Hbase, Hadd.
Qed.

(** A predicate whose verdict does not depend on its state, [p], and what it does to the state. *)
Definition visit {C} (f : C -> Tag -> bool * C) (st : C) (t : Tag) : C := (f st t).2.

Section predicates.
Context {C : Type} (f : C -> Tag -> bool * C) (p : Tag -> bool) (Hf : forall st t, (f st t).1 = p t).

Lemma call_verdict st t : f st t = (p t, visit f st t).
Proof using Hf. unfold visit. rewrite <- (Hf st). by destruct (f st t). Qed.

Lemma vec_retain_spec st l : vec_retain f st l = (List.filter p l, foldl (visit f) st l).
Proof using Hf. revert st. induction l as [|t l IH]; intros st; [done|]. cbn [vec_retain List.filter foldl]. by rewrite call_verdict, IH. Qed.

Lemma rejected_spec q st n l : rejected f q st (number n l) =
  (chosen q (fun t => negb (p t)) n l, foldl (visit f) st (keep (fun i => q (n + i)%nat) l)).
Proof using Hf.
  unfold chosen. revert n st. induction l as [|t l IH]; intros n st; [done|]. cbn [number rejected List.filter keep]. rewrite Nat.add_0_r.
  rewrite (keep_ext (fun i => q (n + S i)%nat) (fun i => q (S n + i)%nat)) by (intros; f_equal; lia).
  destruct (q n); cbn [andb foldl]; [|apply IH]. rewrite call_verdict, IH. by destruct (p t).
Qed.

Lemma retain_additions_spec st ts : tagset_ok ts ->
  (retain_additions f st ts).2 = foldl (visit f) st (added_tags ts) /\
  tagset_ok (retain_additions f st ts).1 /\
  abstract (retain_additions f st ts).1 = {| a_arcs := arc <$> base ts; a_base := base_tags ts; a_adds := List.filter p (added_tags ts) |}.
Proof using Hf.
  unfold retain_additions, tagset_ok, abstract, added_tags, base_tags, live.
  destruct (overlay ts) as [o|] eqn:E; [rewrite vec_retain_spec|]; by cbn [fst snd overlay with_overlay base additions]; rewrite ?E.
Qed.

(** [retain] asks the predicate about the additions, then about the base. *)
Lemma retain_spec st ts : tagset_ok ts -> exists ts',
  retain f st ts = Some (ts', foldl (visit f) st (added_tags ts ++ base_tags ts)) /\
  tagset_ok ts' /\ abstract ts' = a_filter p (abstract ts).
Proof using Hf.
  intros Hok. unfold retain. destruct (retain_additions_spec st ts Hok) as (Hst1 & Hok1 & Ha1).
  destruct (retain_additions f st ts) as [ts1 st1]. cbn [fst snd] in *. injection Ha1 as Harc Hbase Hadd.
  rewrite base_indexed_iter_flat. cbn [mbind option_bind]. rewrite rejected_spec.
  change (chosen _ _ _ _) with (matches (fun t => negb (p t)) ts1).
  destruct (remove_matches (fun t => negb (p t)) ts1 Hok1) as [Hok2 Ha2].
  eexists. split; [|split; [exact Hok2|]].
  - do 2 f_equal. change (keep _ (flat (base ts1))) with (base_tags ts1). by rewrite Hbase, Hst1, foldl_app.
  - rewrite Ha2, Harc, Hbase, Hadd. unfold a_filter. f_equal. cbn [abstract a_base]. apply List.filter_ext. intros t. apply negb_involutive.
Qed.
End predicates.

Lemma find_app {A} (p : A -> bool) l1 l2 :
  List.find p (l1 ++ l2) = match List.find p l1 with Some x => Some x | None => List.find p l2 end.
Proof. induction l1 as [|x l IH]; [done|]. cbn. by destruct (p x). Qed.

(** The additions are searched before the base. *)
Lemma TagSet_get_single_tag_spec ts n : TagSet_get_single_tag ts n = Some (List.find (named n) (added_tags ts ++ base_tags ts)).
Proof.
  unfold TagSet_get_single_tag. rewrite find_app, base_indexed_iter_flat. cbn [mbind option_bind].
  rewrite (find_live (live ts) (named n)). cbn [Nat.add]. fold (named n). unfold added_tags.
  destruct (overlay ts) as [o|]; cbn [option_bind mbind]; [|done].
  change (List.find (fun t => bool_decide (Tag_name t = n)) (additions o)) with (List.find (named n) (additions o)).
  by destruct (List.find (named n) (additions o)).
Qed.

(** *** Iteration *)

Definition iter_left (it : TagSetIter) : list Tag :=
  (if base_phase_done it then []
   else keep (fun i => negb (is_overlay_removed (iter_overlay it) (base_index it + i)%nat)) (shared_left (base_iter it)))
  ++ additions_iter it.

Lemma additions_next_spec it : base_phase_done it = true ->
  exists it', additions_next it = (head (iter_left it), it') /\ base_phase_done it' = true /\ iter_left it' = tail (iter_left it).
Proof.
  intros Hd. unfold additions_next, iter_left. rewrite Hd. cbn [app].
  destruct (additions_iter it) as [|t rest]; eexists; (split; [done|]); split; done.
Qed.

Lemma base_next_loop_spec fuel it : base_phase_done it = false -> (length (shared_left (base_iter it)) < fuel)%nat ->
  exists it', base_next_loop fuel it = Some (head (iter_left it), it') /\ iter_left it' = tail (iter_left it) /\
    (base_phase_done it' = false -> (length (shared_left (base_iter it')) <= length (shared_left (base_iter it)))%nat).
Proof.
  revert it. induction fuel as [|fuel IH]; intros it Hd Hf; [lia|]. cbn [base_next_loop].
  destruct (SharedTagSetIterator_next_spec (base_iter it)) as (bit & -> & Hl).
  assert (Eit : iter_left it = keep (fun i => negb (is_overlay_removed (iter_overlay it) (base_index it + i)%nat))
    (shared_left (base_iter it)) ++ additions_iter it) by (unfold iter_left; by rewrite Hd).
  rewrite Eit.
  destruct (shared_left (base_iter it)) as [|t l] eqn:El; cbn [head tail keep app] in *.
  - set (it1 := {| base_phase_done := true |}). destruct (additions_next_spec it1 eq_refl) as (it' & -> & Hd' & Hl'). exists it'.
    change (additions_iter it) with (iter_left it1). by rewrite Hd'.
  - rewrite Nat.add_0_r. set (it1 := {| base_iter := bit |}).
    assert (E1 : keep (fun i => negb (is_overlay_removed (iter_overlay it) (base_index it + S i)%nat)) l ++ additions_iter it = iter_left it1).
    { unfold iter_left, it1. cbn [base_phase_done base_iter base_index iter_overlay additions_iter]. rewrite Hl. f_equal.
      apply keep_ext. intros i _. do 2 f_equal. lia. }
    destruct (is_overlay_removed (iter_overlay it) (base_index it)) eqn:Er; cbn [negb app head tail].
    + destruct (IH it1 eq_refl) as (it' & H1 & H2 & H3); [cbn [base_iter it1]; rewrite Hl; cbn [length] in Hf; lia|].
      exists it'. rewrite E1, H1, H2. split_and!; [done..|]. intros Hd'. apply H3 in Hd'. cbn [base_iter it1] in Hd'. rewrite Hl in Hd'. cbn. lia.
    + exists it1. rewrite E1. split_and!; [done..|]. intros _. cbn [base_iter it1]. rewrite Hl. cbn. lia.
Qed.

Lemma effective_bound ts : (length (effective ts) < tags_bound ts)%nat.
Proof.
  unfold effective, base_tags, tags_bound, added_tags. pose proof (length_keep (live ts) (flat (base ts))).
  rewrite length_app, SharedTagSet_len_flat. destruct (overlay ts); cbn [length]; lia.
Qed.

Lemma tags_effective ts : tags ts = Some (effective ts).
Proof.
  unfold tags. set (n := tags_bound ts).
  rewrite (iterate_spec _ iter_left (fun it => base_phase_done it = false -> (length (shared_left (base_iter it)) < n)%nat)).
  - done.
  - intros it HP. unfold TagSetIter_next. destruct (base_phase_done it) eqn:Hd.
    + destruct (additions_next_spec it Hd) as (it' & -> & Hd' & Hl). eexists. split; [done|]. by rewrite Hd'.
    + destruct (base_next_loop_spec n it Hd (HP eq_refl)) as (it' & -> & Hl & Hlen). eexists. split; [done|].
      split; [|done]. intros Hd'. specialize (HP eq_refl). specialize (Hlen Hd'). lia.
  - intros _. subst n. unfold tags_bound. rewrite SharedTagSet_len_flat. change (shared_left _) with (flat (base ts)). lia.
  - subst n. change (iter_left (TagSet_iter ts)) with (effective ts).
    apply effective_bound.
Qed.

Definition into_removed (it : TagSetIntoIter) (i : nat) : bool :=
  match into_removals it with Some r => BitSet_is_set r i | None => false end.
Definition into_left (it : TagSetIntoIter) : list Tag :=
  (if into_done it then []
   else keep (fun i => negb (into_removed it (into_index it + i)%nat)) (drop (into_index it) (flat (into_base it))))
  ++ into_additions it.

Lemma into_next_loop_spec fuel it : into_done it = false -> (length (flat (into_base it)) - into_index it < fuel)%nat ->
  exists it', into_next_loop fuel it = Some (head (into_left it), it') /\ into_left it' = tail (into_left it) /\
    into_base it' = into_base it.
Proof.
  revert it. induction fuel as [|fuel IH]; intros it Hd Hf; [lia|]. cbn [into_next_loop]. rewrite get_by_flat_index_flat.
  assert (Eit : into_left it = keep (fun i => negb (into_removed it (into_index it + i)%nat))
    (drop (into_index it) (flat (into_base it))) ++ into_additions it) by (unfold into_left; by rewrite Hd).
  rewrite Eit. destruct (flat (into_base it) !! into_index it) as [t|] eqn:El.
  - rewrite (drop_S _ t) by done. cbn [keep]. rewrite Nat.add_0_r. set (it1 := {| into_base := into_base it |}).
    assert (E1 : keep (fun i => negb (into_removed it (into_index it + S i)%nat)) (drop (S (into_index it)) (flat (into_base it)))
      ++ into_additions it = into_left it1).
    { unfold into_left. cbn [into_done into_base into_index into_additions it1]. f_equal. apply keep_ext. intros i _. do 2 f_equal. lia. }
    fold (into_removed it (into_index it)). destruct (into_removed it (into_index it)) eqn:Er; cbn [negb app head tail]; rewrite E1; [|by exists it1].
    destruct (IH it1 eq_refl) as (it' & H1 & H2 & H3); [|by exists it'].
    apply lookup_lt_Some in El. cbn [it1 into_base into_index]. lia.
  - apply lookup_ge_None in El. rewrite drop_ge by done. cbn [keep app]. by eexists.
Qed.

Lemma into_left_start ts : into_left (TagSet_into_iter ts) = effective ts.
Proof.
  unfold into_left, TagSet_into_iter, effective, base_tags. cbn [into_done into_base into_index into_additions]. f_equal.
  rewrite drop_0. apply keep_ext. intros i _. unfold live, is_overlay_removed, into_removed. cbn [into_removals Nat.add].
  by destruct (overlay ts).
Qed.

Lemma into_tags_effective ts : into_tags ts = Some (effective ts).
Proof.
  unfold into_tags. rewrite <- into_left_start. apply (iterate_spec _ into_left (fun it => into_base it = base ts)); [|done|].
  - intros it Hb. unfold TagSetIntoIter_next. destruct (into_done it) eqn:Hd.
    + eexists. unfold into_left. rewrite Hd. by split_and!.
    + destruct (into_next_loop_spec (tags_bound ts) it Hd) as (it' & -> & Hl & Hb').
      * rewrite Hb. unfold tags_bound. rewrite SharedTagSet_len_flat. lia.
      * eexists. split; [done|]. by rewrite Hb'.
  - rewrite into_left_start. apply effective_bound.
Qed.

(** *** Merging and freezing *)

Definition a_merge (l : list Tag) (a : atags) : atags := foldl (fun a t => a_insert t a) a l.

Lemma insert_fold_spec l ts : tagset_ok ts -> exists ts',
  foldl (fun ts tag => ts ≫= insert_tag tag) (Some ts) l = Some ts' /\ tagset_ok ts' /\ abstract ts' = a_merge l (abstract ts).
Proof.
  unfold a_merge. revert ts. induction l as [|t l IH]; intros ts Hok; [by exists ts|]. cbn [foldl mbind option_bind].
  destruct (insert_tag_spec t ts Hok) as (ts1 & -> & Hok1 & <-). by apply IH.
Qed.

Lemma merge_missing_spec other ts : tagset_ok ts -> exists ts',
  merge_missing other ts = Some ts' /\ tagset_ok ts' /\ abstract ts' = a_merge (effective other) (abstract ts).
Proof. intros Hok. unfold merge_missing. rewrite into_tags_effective. by apply insert_fold_spec. Qed.

(** Merging appends the tags that were missing, each once. *)
Lemma a_merge_all l a : exists extra, a_all (a_merge l a) = a_all a ++ extra /\ NoDup extra /\
  forall t, t ∈ extra <-> t ∈ l /\ t ∉ a_all a.
Proof.
  unfold a_merge. revert a. induction l as [|t l IH]; intros a; cbn [foldl].
  { exists []. split_and!; [by rewrite app_nil_r|constructor|set_solver]. }
  destruct (IH (a_insert t a)) as (extra & H1 & H2 & H3). unfold a_insert in *. case_bool_decide as Ht.
  - exists extra. split_and!; [done..|]. intros t'. rewrite H3. set_solver.
  - assert (Ha : a_all (a_push [t] a) = a_all a ++ [t]) by (unfold a_all, a_push; cbn [a_base a_adds]; by rewrite app_assoc).
    rewrite Ha in *. exists (t :: extra). split_and!; [by rewrite H1, <- app_assoc| |].
    + apply NoDup_cons. split; [rewrite H3; set_solver|done].
    + intros t'. rewrite elem_of_cons, H3. destruct (decide (t' = t)); set_solver.
Qed.

Lemma merge_missing_shared_spec other ts : tagset_ok ts -> exists ts',
  merge_missing_shared other ts = Some ts' /\ tagset_ok ts' /\ abstract ts' = a_merge (flat other) (abstract ts).
Proof.
  intros Hok. unfold merge_missing_shared, a_merge. rewrite shared_tags_flat. cbn [mbind option_bind].
  revert ts Hok. induction (flat other) as [|t l IH]; intros ts Hok; [by exists ts|]. cbn [foldl mbind option_bind].
  rewrite TagSet_has_tag_spec. cbn [mbind option_bind]. destruct (push_addition_spec [t] ts Hok) as [Hp1 Hp2].
  unfold a_insert at 2. change (a_all (abstract ts)) with (effective ts). case_bool_decide; [by apply IH|].
  rewrite <- Hp2. by apply IH.
Qed.

(** The frozen sets of [other] that a chain with the addresses [seen] does not have yet. *)
Fixpoint fresh_sets (seen : list positive) (other : SharedTagSet) : SharedTagSet :=
  match other with
  | [] => []
  | x :: other' => if bool_decide (arc x ∈ seen) then fresh_sets seen other' else x :: fresh_sets (seen ++ [arc x]) other'
  end.
Definition a_merge_shared (other : SharedTagSet) (a : atags) : atags :=
  let new := fresh_sets (a_arcs a) other in
  {| a_arcs := a_arcs a ++ (arc <$> new); a_base := a_base a ++ flat new; a_adds := a_adds a |}.

Lemma extend_from_shared_fresh self other : extend_from_shared self other = self ++ fresh_sets (arc <$> self) other.
Proof.
  unfold extend_from_shared. revert self. induction other as [|x other IH]; intros self; cbn [foldl fresh_sets]; [by rewrite app_nil_r|].
  assert (Hin : existsb (fun ts => ptr_eq ts x) self = bool_decide (arc x ∈ arc <$> self)).
  { rewrite <- existsb_elem_of. unfold ptr_eq. induction self as [|y self IHs]; [done|]. cbn [existsb fmap list_fmap]. by rewrite IHs. }
  rewrite Hin. case_bool_decide; [apply IH|]. rewrite IH, <- app_assoc. by rewrite fmap_app.
Qed.

Lemma merge_shared_spec other ts : tagset_ok ts ->
  tagset_ok (merge_shared other ts) /\ abstract (merge_shared other ts) = a_merge_shared other (abstract ts).
Proof.
  intros Hok. unfold merge_shared. rewrite extend_from_shared_fresh. set (new := fresh_sets _ _).
  assert (Hlive : forall i, live ts (length (flat (base ts)) + i)%nat = true).
  { intros i. revert Hok. unfold live, tagset_ok, is_overlay_removed. destruct (overlay ts) as [o|]; [|done]. intros [_ Hb].
    apply negb_true_iff. destruct (BitSet_is_set _ _) eqn:E; [|done]. apply Hb in E. rewrite SharedTagSet_len_flat in E. lia. }
  split.
  - revert Hok. unfold tagset_ok. cbn [overlay base]. destruct (overlay ts) as [o|]; [|done]. intros [H1 H2]. split; [done|].
    intros i Hi%H2. rewrite !SharedTagSet_len_flat, flat_app, length_app in *. lia.
  - unfold abstract, a_merge_shared, base_tags. cbn [base overlay a_arcs a_base a_adds]. fold new. f_equal; [apply fmap_app|].
    rewrite flat_app, keep_app. f_equal. apply keep_true. intros i _. apply Hlive.
Qed.

(** Freezing keeps the tags and, when nothing changed, the allocation. *)
Lemma into_shared_spec fresh ts : exists s, into_shared fresh ts = Some s /\ flat s = effective ts.
Proof.
  unfold into_shared. rewrite into_tags_effective. cbn [mbind option_bind].
  assert (Hn : overlay ts = None -> flat (base ts) = effective ts).
  { intros E. unfold effective, base_tags, added_tags. rewrite E, app_nil_r. symmetry. apply keep_true. intros i _. unfold live. by rewrite E. }
  destruct (overlay ts) as [o|]; eexists; (split; [done|]); [|by apply Hn].
  by destruct (effective ts) as [|t l]; cbn; rewrite ?app_nil_r.
Qed.

(** *** Counting *)

Lemma remove_indices_length {A} ks (l l' : list A) : remove_indices ks l = Some l' -> (length l' + length ks = length l)%nat.
Proof.
  revert l. induction ks as [|k ks IH]; intros l; cbn [remove_indices]; [intros [= ->]; cbn; lia|].
  unfold vec_remove. destruct (l !! k) as [x|] eqn:E; [|done]. cbn [mbind option_bind]. intros H%IH.
  apply lookup_lt_Some in E. rewrite length_app, length_take, length_drop in H. cbn [length]. lia.
Qed.

Lemma is_set_members bs i : bitset_ok bs -> BitSet_is_set bs i = bool_decide (i ∈ members bs).
Proof. intros Hok. apply Bool.eq_true_iff_eq. by rewrite bool_decide_eq_true, elem_of_members. Qed.

(** A bit set of positions takes that many elements out of a list. *)
Lemma keep_unset {A} bs (l : list A) : bitset_ok bs -> (forall i, BitSet_is_set bs i = true -> (i < length l)%nat) ->
  remove_indices (reverse (members bs)) l = Some (keep (fun i => negb (BitSet_is_set bs i)) l) /\
  (length (keep (fun i => negb (BitSet_is_set bs i)) l) + BitSet_len bs = length l)%nat.
Proof.
  intros Hok Hb.
  assert (Hr : remove_indices (reverse (members bs)) l = Some (keep (fun i => negb (BitSet_is_set bs i)) l)).
  { rewrite remove_indices_keep; [|apply members_sorted|].
    - f_equal. apply keep_ext. intros i _. by rewrite is_set_members.
    - apply Forall_forall. intros i Hi. apply Hb. by apply elem_of_members. }
  split; [done|]. apply remove_indices_length in Hr. rewrite length_reverse, <- len_members in Hr. done.
Qed.

Lemma base_tags_count ts : tagset_ok ts -> (length (base_tags ts) + removal_count ts = length (flat (base ts)))%nat.
Proof.
  unfold tagset_ok, removal_count, base_tags, live, is_overlay_removed. destruct (overlay ts) as [o|].
  - intros [H1 H2]. apply keep_unset; [done|]. intros i Hi. rewrite <- SharedTagSet_len_flat. by apply H2.
  - intros _. rewrite keep_true; [lia|done].
Qed.

Lemma base_len_minus_removals_spec ts : tagset_ok ts -> base_len_minus_removals ts = wrap 64 (Z.of_nat (length (base_tags ts))).
Proof.
  intros Hok. apply base_tags_count in Hok. unfold base_len_minus_removals, wrapping_sub. f_equal.
  rewrite SharedTagSet_len_flat. lia.
Qed.

Lemma TagSet_len_spec ts : tagset_ok ts -> TagSet_len ts = wrap 64 (Z.of_nat (length (effective ts))).
Proof.
  intros Hok. unfold TagSet_len, effective, added_tags. rewrite base_len_minus_removals_spec by done. rewrite length_app.
  apply base_tags_count in Hok. revert Hok. unfold removal_count. destruct (overlay ts) as [o|].
  - intros _. unfold wrapping_add, wrap. rewrite Zplus_mod_idemp_l. f_equal. lia.
  - intros H. rewrite SharedTagSet_len_flat. cbn [length]. f_equal. lia.
Qed.

Lemma SharedTagSet_is_empty_flat s : SharedTagSet_is_empty s = true <-> flat s = [].
Proof.
  induction s as [|ts s IH]; [done|]. unfold SharedTagSet_is_empty in *. cbn [forallb]. rewrite flat_cons, app_nil, andb_true_iff, IH.
  unfold FrozenTagSet_is_empty. destruct (frozen_tags ts); naive_solver.
Qed.

Lemma TagSet_is_empty_spec ts : tagset_ok ts -> Z.of_nat (length (effective ts)) <= u64_max ->
  TagSet_is_empty ts = bool_decide (effective ts = []).
Proof.
  intros Hok Hb. apply Bool.eq_true_iff_eq. rewrite bool_decide_eq_true. unfold TagSet_is_empty.
  rewrite base_len_minus_removals_spec by done. unfold effective in *. rewrite length_app in Hb. rewrite app_nil.
  rewrite wrap_small by (unfold in_range; lia). apply base_tags_count in Hok. revert Hok.
  unfold removal_count, added_tags. destruct (overlay ts) as [o|].
  - intros _. rewrite andb_true_iff, Z.eqb_eq. rewrite <- (length_zero_iff_nil (base_tags ts)).
    destruct (additions o); naive_solver lia.
  - intros Hc. rewrite SharedTagSet_is_empty_flat, <- !length_zero_iff_nil. cbn [length]. lia.
Qed.

(** *** Collecting removals and applying them *)

Lemma flag_fold {C} (f : C -> Tag -> bool * C) (p : Tag -> bool) (Hf : forall st t, (f st t).1 = p t) q n l bits st : bitset_ok bits ->
  exists bits', foldl (flag f q) (bits, st) (number n l) =
    (bits', foldl (visit f) st (keep (fun i => q (n + i)%nat && negb (BitSet_is_set bits (n + i))) l)) /\
  bitset_ok bits' /\ forall i, BitSet_is_set bits' i = BitSet_is_set bits i || bool_decide (i ∈ chosen q (fun t => negb (p t)) n l).
Proof.
  intros Hok. set (g := fun bits i => q i && negb (BitSet_is_set bits i)).
  revert n bits st Hok. induction l as [|t l IH]; intros n bits st Hok; cbn [number foldl].
  { exists bits. split_and!; [done..|]. intros i. by rewrite bool_decide_false, orb_false_r by set_solver. }
  set (bits1 := if g bits n && negb (p t) then BitSet_set n bits else bits).
  assert (Hstep : flag f q (bits, st) (n, t) = (bits1, if g bits n then visit f st t else st)).
  { unfold flag, bits1, g. destruct (q n && negb (BitSet_is_set bits n)); [|done]. rewrite (call_verdict f p Hf). by destruct (p t). }
  assert (Hbits1 : forall i, BitSet_is_set bits1 i = BitSet_is_set bits i || (bool_decide (i = n) && q n && negb (p t))).
  { intros i. unfold bits1, g. destruct (q n), (p t); cbn [andb negb]; rewrite ?andb_false_r, ?andb_true_r, ?orb_false_r; try done.
    destruct (BitSet_is_set bits n) eqn:Es; cbn [negb]; [|by rewrite is_set_set, orb_comm].
    case_bool_decide; [subst; by rewrite Es|by rewrite orb_false_r]. }
  destruct (IH (S n) bits1 (if g bits n then visit f st t else st)) as (bits' & Hfold & H1 & H2).
  { unfold bits1. by destruct (g bits n && negb (p t)); auto with saluki. }
  exists bits'. rewrite Hstep, Hfold. split_and!; [|done|].
  - f_equal. cbn [keep]. rewrite Nat.add_0_r. fold (g bits n).
    rewrite (keep_ext (fun i => q (S n + i)%nat && _) (fun i => q (n + S i)%nat && negb (BitSet_is_set bits (n + S i)))).
    2: { intros i _. replace (S n + i)%nat with (n + S i)%nat by lia. rewrite Hbits1, (bool_decide_false (_ = n)) by lia. by rewrite orb_false_r. }
    by destruct (g bits n).
  - intros i. rewrite H2, Hbits1. unfold chosen. cbn [number List.filter].
    assert (Hin : forall c, bool_decide (i ∈ n :: c) = bool_decide (i = n) || bool_decide (i ∈ c)).
    { intros c. apply Bool.eq_true_iff_eq. rewrite orb_true_iff, !bool_decide_eq_true. apply elem_of_cons. }
    destruct (q n), (p t); cbn [andb negb fmap list_fmap fst]; rewrite ?andb_false_r, ?andb_true_r, ?orb_false_r; try done.
    by rewrite Hin, orb_assoc.
Qed.

Lemma chosen_0 {A} p q (l : list A) i : i ∈ chosen p q 0 l <-> exists x, l !! i = Some x /\ p i = true /\ q x = true.
Proof. rewrite elem_of_chosen. cbn. naive_solver. Qed.

(** What two bit sets hold after scans with the predicates [fs]: the positions of the live base tags
    and of the additions that some predicate rejects. *)
Definition rejects (fs : list (Tag -> bool)) (t : Tag) : bool := negb (forallb (fun f => f t) fs).
Record flagged (fs : list (Tag -> bool)) (ts : TagSet) (br ar : ContiguousBitSet) : Prop := {
  flagged_ok : bitset_ok br /\ bitset_ok ar;
  flagged_base : forall i, BitSet_is_set br i = bool_decide (i ∈ matches (rejects fs) ts);
  flagged_adds : forall i, BitSet_is_set ar i = bool_decide (i ∈ chosen (fun _ => true) (rejects fs) 0 (added_tags ts));
}.

Lemma chosen_more {A} p (q r : A -> bool) l i :
  bool_decide (i ∈ chosen p q 0 l) || bool_decide (i ∈ chosen p r 0 l) = bool_decide (i ∈ chosen p (fun x => q x || r x) 0 l).
Proof.
  apply Bool.eq_true_iff_eq. rewrite orb_true_iff, !bool_decide_eq_true, !chosen_0. setoid_rewrite orb_true_iff. naive_solver.
Qed.

Lemma rejects_snoc fs f t : rejects (fs ++ [f]) t = rejects fs t || negb (f t).
Proof. unfold rejects. rewrite forallb_app. cbn [forallb]. by rewrite andb_true_r, negb_andb. Qed.

Lemma chosen_ext {A} p (q r : A -> bool) n l : (forall x, q x = r x) -> chosen p q n l = chosen p r n l.
Proof. intros H. unfold chosen. f_equal. apply List.filter_ext. intros [i x]. by rewrite H. Qed.

Section collecting.
Context {C : Type} (f : C -> Tag -> bool * C) (p : Tag -> bool) (Hf : forall st t, (f st t).1 = p t).

(** The tags that a scan asks the predicate about: additions first, without those flagged before. *)
Definition visited (ts : TagSet) (br ar : ContiguousBitSet) : list Tag :=
  keep (fun i => negb (BitSet_is_set ar i)) (added_tags ts) ++ keep (fun i => live ts i && negb (BitSet_is_set br i)) (flat (base ts)).

Lemma collect_removals_spec fs st ts br ar : flagged fs ts br ar -> exists br' ar',
  collect_removals f st ts br ar = Some (br', ar', foldl (visit f) st (visited ts br ar)) /\ flagged (fs ++ [p]) ts br' ar'.
Proof using Hf.
  intros [[Hbr Har] Hb Ha]. unfold collect_removals, visited. rewrite base_indexed_iter_flat, foldl_app.
  destruct (flag_fold f p Hf (fun _ => true) 0 (added_tags ts) ar st Har) as (ar' & H1 & H2 & H3).
  set (st1 := foldl (visit f) st _) in H1.
  destruct (flag_fold f p Hf (live ts) 0 (flat (base ts)) br st1 Hbr) as (br' & H4 & H5 & H6).
  exists br', ar'. split.
  - assert (Hadds : match overlay ts with Some o => foldl (flag f (fun _ => true)) (ar, st) (imap pair (additions o)) | None => (ar, st) end = (ar', st1)).
    { rewrite <- H1. unfold added_tags. destruct (overlay ts) as [o|]; [|done]. by rewrite imap_pair_number. }
    rewrite Hadds. cbn [mbind option_bind]. fold (live ts). by rewrite H4.
  - constructor; [done| |]; intros i.
    + rewrite H6, Hb. unfold matches. rewrite chosen_more. by rewrite (chosen_ext _ _ (rejects (fs ++ [p]))) by (intros; by rewrite rejects_snoc).
    + rewrite H3, Ha, chosen_more. by rewrite (chosen_ext _ _ (rejects (fs ++ [p]))) by (intros; by rewrite rejects_snoc).
Qed.
End collecting.

Fixpoint collect_all (fs : list (Tag -> bool)) (ts : TagSet) (br ar : ContiguousBitSet) : option (ContiguousBitSet * ContiguousBitSet) :=
  match fs with
  | [] => Some (br, ar)
  | f :: fs' => '(br', ar', _) ← collect_removals (pure_pred f) tt ts br ar; collect_all fs' ts br' ar'
  end.

Lemma collect_all_spec fs ts done br ar : flagged done ts br ar -> exists br' ar',
  collect_all fs ts br ar = Some (br', ar') /\ flagged (done ++ fs) ts br' ar'.
Proof.
  revert done br ar. induction fs as [|f fs IH]; intros d br ar H; cbn [collect_all]; [rewrite app_nil_r; by eexists _, _|].
  destruct (collect_removals_spec (pure_pred f) f (fun _ _ => eq_refl) d tt ts br ar H) as (br1 & ar1 & -> & H1). cbn [mbind option_bind].
  destruct (IH _ _ _ H1) as (br2 & ar2 & H2 & H3). rewrite <- app_assoc in H3. by eexists _, _.
Qed.

Lemma flagged_empty ts br ar : bitset_ok br -> bitset_ok ar -> (forall i, BitSet_is_set br i = false) -> (forall i, BitSet_is_set ar i = false) ->
  flagged [] ts br ar.
Proof.
  intros H1 H2 H3 H4. constructor; [done| |]; intros i; rewrite ?H3, ?H4; symmetry; apply bool_decide_eq_false;
    [unfold matches|]; rewrite chosen_0; intros (x & _ & _ & Hq); done.
Qed.

Lemma length_chosen {A} p q n (l : list A) : length (chosen p q n l) = length (List.filter q (keep (fun i => p (n + i)%nat) l)).
Proof.
  unfold chosen. rewrite length_fmap. revert n. induction l as [|x l IH]; intros n; [done|]. cbn [number List.filter keep].
  rewrite Nat.add_0_r. rewrite (keep_ext (fun i => p (n + S i)%nat) (fun i => p (S n + i)%nat)) by (intros; f_equal; lia).
  destruct (p n); cbn [andb List.filter]; [|apply IH]. destruct (q x); cbn [length]; by rewrite IH.
Qed.

Lemma chosen_sorted {A} p q n (l : list A) : StronglySorted lt (chosen p q n l).
Proof.
  unfold chosen. revert n. induction l as [|x l IH]; intros n; cbn [number List.filter]; [constructor|].
  destruct (p n && q x); [|apply IH]. rewrite fmap_cons. constructor; [apply IH|].
  apply Forall_forall. intros i (j & y & _ & -> & _)%elem_of_chosen. cbn. lia.
Qed.

(** A bit set that holds the chosen positions has as many bits as there are such elements. *)
Lemma chosen_len {A} p q (l : list A) bs : bitset_ok bs -> (forall i, BitSet_is_set bs i = bool_decide (i ∈ chosen p q 0 l)) ->
  BitSet_len bs = length (List.filter q (keep p l)).
Proof.
  intros Hok Hi. rewrite len_members. change (keep p l) with (keep (fun i => p (0 + i)%nat) l). rewrite <- length_chosen.
  apply Permutation_length, NoDup_Permutation; try (apply sorted_lt_NoDup; auto using members_sorted, chosen_sorted).
  intros i. rewrite elem_of_members, Hi by done. apply bool_decide_eq_true.
Qed.

Lemma keep_chosen_filter {A} p q (l : list A) bs : (forall i, BitSet_is_set bs i = bool_decide (i ∈ chosen p q 0 l)) ->
  keep (fun i => p i && negb (BitSet_is_set bs i)) l = List.filter (fun x => negb (q x)) (keep p l).
Proof.
  intros Hi. etrans; [|exact (keep_not_chosen p q 0 l)]. apply keep_ext. intros i _. by rewrite Hi.
Qed.

Lemma foldl_set ks bs i : bitset_ok bs ->
  bitset_ok (foldl (flip BitSet_set) bs ks) /\
  BitSet_is_set (foldl (flip BitSet_set) bs ks) i = BitSet_is_set bs i || bool_decide (i ∈ ks).
Proof.
  revert bs. induction ks as [|k ks IH]; intros bs Hok; cbn [foldl flip].
  { split; [done|]. by rewrite bool_decide_false, orb_false_r by set_solver. }
  destruct (IH (BitSet_set k bs)) as [H1 H2]; [auto with saluki|]. split; [done|]. rewrite H2, is_set_set by done.
  assert (Hin : bool_decide (i ∈ k :: ks) = bool_decide (i = k) || bool_decide (i ∈ ks)).
  { apply Bool.eq_true_iff_eq. rewrite orb_true_iff, !bool_decide_eq_true. apply elem_of_cons. }
  rewrite Hin. by destruct (bool_decide (i = k)), (BitSet_is_set bs i).
Qed.

Lemma bitset_empty_unset bs i : bitset_ok bs -> BitSet_is_empty bs = true -> BitSet_is_set bs i = false.
Proof. intros Hok He%is_empty_members; [|done]. rewrite is_set_members, He by done. by apply bool_decide_eq_false; set_solver. Qed.

Lemma filter_true_keep {A} (l : list A) : keep (fun _ => true) l = l.
Proof. by apply keep_true. Qed.

(** The two halves of [apply_removals]. *)
Lemma apply_additions fs ts br ar : tagset_ok ts -> flagged fs ts br ar -> exists ts',
  apply_addition_removals ar ts = Some ts' /\
  tagset_ok ts' /\ base ts' = base ts /\ (forall i, live ts' i = live ts i) /\
  added_tags ts' = List.filter (fun t => negb (rejects fs t)) (added_tags ts).
Proof.
  intros Hok [[Hbr Har] Hb Ha].
  pose proof (keep_chosen_filter _ _ _ _ Ha) as Hkeep. rewrite filter_true_keep in Hkeep. cbn [andb] in Hkeep.
  unfold apply_addition_removals. destruct (BitSet_is_empty ar) eqn:E.
  - exists ts. split_and!; try done. rewrite <- Hkeep. symmetry. apply keep_true. intros i _. by rewrite bitset_empty_unset.
  - rewrite BitSet_iter_rev_members by done. cbn [mbind option_bind]. rewrite <- added_ensure.
    destruct (keep_unset ar (added_tags ts) Har) as [-> _].
    { intros i. rewrite Ha, bool_decide_eq_true, chosen_0. intros (x & Hx & _). by eapply lookup_lt_Some. }
    cbn [mbind option_bind]. eexists. split; [done|]. apply ensure_overlay_ok in Hok as Hok'.
    split_and!; [exact Hok'|done| |by rewrite <- Hkeep]. intros i. by rewrite (live_ensure ts).
Qed.

Lemma apply_base fs ts br ar ts1 : tagset_ok ts -> flagged fs ts br ar -> tagset_ok ts1 -> base ts1 = base ts ->
  (forall i, live ts1 i = live ts i) -> exists ts',
  apply_base_removals br ts1 = Some ts' /\
  tagset_ok ts' /\ abstract ts' = {| a_arcs := arc <$> base ts;
    a_base := List.filter (fun t => negb (rejects fs t)) (base_tags ts); a_adds := added_tags ts1 |}.
Proof.
  intros Hok [[Hbr Har] Hb Ha] Hok1 Hbase Hlive.
  pose proof (keep_chosen_filter _ _ _ _ Hb) as Hkeep. fold (base_tags ts) in Hkeep.
  unfold apply_base_removals. destruct (BitSet_is_empty br) eqn:E.
  - exists ts1. split_and!; try done. unfold abstract, base_tags. rewrite Hbase. f_equal. fold (base_tags ts). rewrite <- Hkeep.
    apply keep_ext. intros i _. by rewrite bitset_empty_unset, Hlive, andb_true_r.
  - rewrite BitSet_iter_members by done. cbn [mbind option_bind]. eexists. split; [done|].
    destruct (ensure_overlay_ok ts1 Hok1) as [H1 H2].
    assert (Hset : forall i, BitSet_is_set (foldl (flip BitSet_set) (removals (ensure_overlay ts1)) (members br)) i
      = BitSet_is_set (removals (ensure_overlay ts1)) i || BitSet_is_set br i).
    { intros i. rewrite (is_set_members br) by done. by apply foldl_set. }
    split.
    + split; cbn [removals]; [by apply (proj1 (foldl_set (members br) _ O H1))|]. intros i. rewrite Hset. intros [Hi|Hi]%orb_true_iff; [by apply H2|].
      rewrite Hb, bool_decide_eq_true in Hi. cbn [base with_overlay]. rewrite Hbase.
      pose proof (matches_bound (rejects fs) ts) as Hm. rewrite Forall_forall in Hm. by apply Hm.
    + rewrite abstract_with_overlay, Hbase, <- added_ensure. f_equal. rewrite <- Hkeep. apply keep_ext. intros i _.
      by rewrite Hset, negb_orb, <- live_ensure, Hlive.
Qed.

Lemma apply_removals_spec fs ts br ar : tagset_ok ts -> flagged fs ts br ar -> exists ts',
  apply_removals br ar ts = Some ts' /\ tagset_ok ts' /\ abstract ts' = a_filter (fun t => negb (rejects fs t)) (abstract ts).
Proof.
  intros Hok Hfl. destruct (apply_additions fs ts br ar Hok Hfl) as (ts1 & H1 & Hok1 & Hb1 & Hl1 & Ha1).
  destruct (apply_base fs ts br ar ts1 Hok Hfl Hok1 Hb1 Hl1) as (ts2 & H2 & Hok2 & Ha2).
  exists ts2. unfold apply_removals. rewrite H1. cbn [mbind option_bind]. rewrite H2. split_and!; [done..|].
  by rewrite Ha2, Ha1.
Qed.

(** How many tags a scan flags. *)
Lemma flagged_count fs ts br ar : flagged fs ts br ar ->
  (BitSet_len br + BitSet_len ar = length (List.filter (rejects fs) (effective ts)))%nat.
Proof.
  intros [[Hbr Har] Hb Ha]. rewrite (chosen_len _ _ _ _ Hbr Hb), (chosen_len _ _ _ _ Har Ha), filter_true_keep.
  fold (base_tags ts). unfold effective. by rewrite List.filter_app, length_app.
Qed.

(** ** Theorems *)

(** The operations on a tag set; [OpRetainView] is a sequence of scans with [collect_removals] on
    cleared bit sets and one [apply_removals]. *)
Inductive tagset_op :=
| OpInsert (t : Tag)
| OpRemove (name : bytes)
| OpRetain (f : Tag -> bool)
| OpRetainView (fs : list (Tag -> bool))
| OpMergeMissing (other : TagSet)
| OpMergeMissingShared (other : SharedTagSet)
| OpMergeShared (other : SharedTagSet)
| OpExtend (new : list Tag).

Definition tagset_run (op : tagset_op) (ts : TagSet) : option (option (list Tag) * TagSet) :=
  match op with
  | OpInsert t => ts' ← insert_tag t ts; Some (None, ts')
  | OpRemove name => remove_tags name ts
  | OpRetain f => '(ts', _) ← retain (pure_pred f) tt ts; Some (None, ts')
  | OpRetainView fs =>
      '(br, ar) ← collect_all fs ts BitSet_new BitSet_new;
      ts' ← apply_removals br ar ts; Some (None, ts')
  | OpMergeMissing other => ts' ← merge_missing other ts; Some (None, ts')
  | OpMergeMissingShared other => ts' ← merge_missing_shared other ts; Some (None, ts')
  | OpMergeShared other => Some (None, merge_shared other ts)
  | OpExtend new => Some (None, TagSet_extend new ts)
  end.

Definition atags_run (op : tagset_op) (a : atags) : option (list Tag) * atags :=
  match op with
  | OpInsert t => (None, a_insert t a)
  | OpRemove name =>
      (some_if_any (List.filter (named name) (a_adds a) ++ List.filter (named name) (a_base a)),
       a_filter (fun t => negb (named name t)) a)
  | OpRetain f => (None, a_filter f a)
  | OpRetainView fs => (None, a_filter (fun t => forallb (fun f => f t) fs) a)
  | OpMergeMissing other => (None, a_merge (effective other) a)
  | OpMergeMissingShared other => (None, a_merge (flat other) a)
  | OpMergeShared other => (None, a_merge_shared other a)
  | OpExtend new => (None, a_push new a)
  end.

Fixpoint tagset_script (ops : list tagset_op) (ts : TagSet) : option (list (option (list Tag)) * TagSet) :=
  match ops with
  | [] => Some ([], ts)
  | op :: ops' => '(r, ts') ← tagset_run op ts; '(rs, ts'') ← tagset_script ops' ts'; Some (r :: rs, ts'')
  end.
Fixpoint atags_script (ops : list tagset_op) (a : atags) : list (option (list Tag)) * atags :=
  match ops with
  | [] => ([], a)
  | op :: ops' => let '(r, a') := atags_run op a in let '(rs, a'') := atags_script ops' a' in (r :: rs, a'')
  end.

Lemma a_filter_ext f g a : (forall t, f t = g t) -> a_filter f a = a_filter g a.
Proof. intros H. unfold a_filter. by rewrite !(List.filter_ext f g H). Qed.

Lemma bitset_new_ok : bitset_ok BitSet_new.
Proof. constructor. Qed.

Lemma tagset_run_refines op ts : tagset_ok ts -> exists r ts',
  tagset_run op ts = Some (r, ts') /\ tagset_ok ts' /\ atags_run op (abstract ts) = (r, abstract ts').
Proof.
  intros Hok. destruct op as [t|name|f|fs|other|other|other|new]; cbn [tagset_run atags_run].
  - destruct (insert_tag_spec t ts Hok) as (ts' & -> & H1 & <-). by eexists _, _.
  - destruct (remove_tags_spec name ts Hok) as (ts' & -> & H1 & H2). eexists _, _. by rewrite <- H2.
  - destruct (retain_spec (pure_pred f) f (fun _ _ => eq_refl) tt ts Hok) as (ts' & -> & H1 & <-). by eexists _, _.
  - destruct (collect_all_spec fs ts [] BitSet_new BitSet_new) as (br & ar & -> & Hfl).
    { by apply flagged_empty; auto using bitset_new_ok. }
    cbn [mbind option_bind]. destruct (apply_removals_spec _ ts br ar Hok Hfl) as (ts' & -> & H1 & H2).
    eexists _, _. split_and!; [done..|]. rewrite H2. f_equal. apply a_filter_ext. intros t. unfold rejects. by rewrite negb_involutive.
  - destruct (merge_missing_spec other ts Hok) as (ts' & -> & H1 & <-). by eexists _, _.
  - destruct (merge_missing_shared_spec other ts Hok) as (ts' & -> & H1 & <-). by eexists _, _.
  - destruct (merge_shared_spec other ts Hok) as [H1 <-]. by eexists _, _.
  - destruct (push_addition_spec new ts Hok) as [H1 <-]. by eexists _, _.
Qed.

Lemma tagset_script_refines ops ts : tagset_ok ts -> exists rs ts',
  tagset_script ops ts = Some (rs, ts') /\ tagset_ok ts' /\ atags_script ops (abstract ts) = (rs, abstract ts').
Proof.
  revert ts. induction ops as [|op ops IH]; intros ts Hok; cbn [tagset_script atags_script]; [by eexists _, _|].
  destruct (tagset_run_refines op ts Hok) as (r & ts1 & -> & H1 & ->). cbn [mbind option_bind].
  destruct (IH ts1 H1) as (rs & ts2 & -> & H2 & ->). by eexists _, _.
Qed.

Lemma abstract_start s : tagset_ok (to_mutable s) /\ abstract (to_mutable s) = {| a_arcs := arc <$> s; a_base := flat s; a_adds := [] |}.
Proof. split; [done|]. unfold abstract. f_equal. by apply keep_true. Qed.

(** C12: a tag set that was made from a shared set and went through any sequence of operations is the
    list of its effective tags: no operation panics, [remove_tags] returned exactly the tags of that
    name, and both iterators, [has_tag], [get_single_tag] (which looks at the additions first), [len],
    [is_empty] and freezing see the tags of the base that were not removed, in their order, followed
    by the additions; scanning with [collect_removals] and applying the bit sets later is [retain]
    with the conjunction of the predicates. *)
Theorem tagset_refines_list (ops : list tagset_op) (start : SharedTagSet) :
  let '(rs, a) := atags_script ops {| a_arcs := arc <$> start; a_base := flat start; a_adds := [] |} in
  exists ts, tagset_script ops (to_mutable start) = Some (rs, ts) /\
    tags ts = Some (a_all a) /\ into_tags ts = Some (a_all a) /\
    (forall t, TagSet_has_tag ts t = Some (bool_decide (t ∈ a_all a))) /\
    (forall n, TagSet_get_single_tag ts n = Some (List.find (named n) (a_adds a ++ a_base a))) /\
    TagSet_len ts = wrap 64 (Z.of_nat (length (a_all a))) /\
    (Z.of_nat (length (a_all a)) <= u64_max -> TagSet_is_empty ts = bool_decide (a_all a = [])) /\
    (forall fresh, exists s, into_shared fresh ts = Some s /\ shared_tags s = Some (a_all a)).
Proof.
  destruct (abstract_start start) as [Hok Ha]. rewrite <- Ha.
  destruct (tagset_script_refines ops (to_mutable start) Hok) as (rs & ts & Hrun & Hok' & ->).
  exists ts. change (a_all (abstract ts)) with (effective ts). cbn [abstract a_adds a_base].
  split_and!; auto using tags_effective, into_tags_effective, TagSet_has_tag_spec, TagSet_get_single_tag_spec, TagSet_len_spec, TagSet_is_empty_spec.
  intros fresh. destruct (into_shared_spec fresh ts) as (s & Hs & <-). exists s. split; [done|]. apply shared_tags_flat.
Qed.

(** The tags of a list that no predicate rejects keep their multiplicity; only extending and merging
    whole shared sets can bring in a tag twice. *)
Definition set_like (op : tagset_op) : bool :=
  match op with OpMergeShared _ | OpExtend _ => false | _ => true end.

Lemma a_insert_NoDup t a : NoDup (a_all a) -> NoDup (a_all (a_insert t a)).
Proof.
  intros H. unfold a_insert. case_bool_decide; [done|]. unfold a_all, a_push in *. cbn [a_base a_adds].
  rewrite app_assoc. apply NoDup_app. split_and!; [done| |apply NoDup_singleton]. set_solver.
Qed.

Lemma a_filter_all f a : a_all (a_filter f a) = List.filter f (a_all a).
Proof. unfold a_all, a_filter. by rewrite List.filter_app. Qed.

Lemma filter_NoDup {A} (f : A -> bool) l : NoDup l -> NoDup (List.filter f l).
Proof. rewrite !NoDup_ListNoDup. apply List.NoDup_filter. Qed.

Lemma a_merge_NoDup l a : NoDup (a_all a) -> NoDup (a_all (a_merge l a)).
Proof. unfold a_merge. revert a. induction l as [|t l IH]; intros a H; cbn [foldl]; [done|]. by apply IH, a_insert_NoDup. Qed.

Lemma set_like_NoDup op a : set_like op = true -> NoDup (a_all a) -> NoDup (a_all (atags_run op a).2).
Proof.
  intros Hs H. destruct op; try done; cbn [atags_run snd]; rewrite ?a_filter_all; auto using a_insert_NoDup, a_merge_NoDup, filter_NoDup.
Qed.

Lemma foldr_has_tag self l :
  foldr (fun t r => present ← TagSet_has_tag self t; if (present : bool) then r else Some false) (Some true) l
  = Some (forallb (fun t => bool_decide (t ∈ effective self)) l).
Proof.
  induction l as [|t l IH]; [done|]. cbn [foldr forallb]. rewrite IH, TagSet_has_tag_spec. cbn [mbind option_bind].
  by case_bool_decide.
Qed.

(** Equality compares lengths and asks for every tag of the other set. *)
Lemma TagSet_eq_spec self other : tagset_ok self -> tagset_ok other ->
  Z.of_nat (length (effective self)) <= u64_max -> Z.of_nat (length (effective other)) <= u64_max ->
  TagSet_eq self other = Some (bool_decide (length (effective self) = length (effective other)) && forallb (fun t => bool_decide (t ∈ effective self)) (effective other)).
Proof.
  intros H1 H2 H3 H4. unfold TagSet_eq. rewrite !TagSet_len_spec by done. rewrite !wrap_small by (unfold in_range; lia).
  destruct (Z.eqb_spec (Z.of_nat (length (effective self))) (Z.of_nat (length (effective other)))); cbn [negb].
  - rewrite bool_decide_true by lia. rewrite tags_effective. apply foldr_has_tag.
  - by rewrite bool_decide_false by lia.
Qed.

Lemma script_NoDup ops ts rs ts' : tagset_ok ts -> NoDup (effective ts) -> forallb set_like ops = true ->
  tagset_script ops ts = Some (rs, ts') -> tagset_ok ts' /\ NoDup (effective ts').
Proof.
  revert ts rs. induction ops as [|op ops IH]; intros ts rs Hok Hn; cbn [forallb tagset_script]; [naive_solver|].
  intros [Hop Hops]%andb_true_iff. destruct (tagset_run_refines op ts Hok) as (r & ts1 & -> & H1 & Ha). cbn [mbind option_bind].
  destruct (tagset_script ops ts1) as [[rs1 ts2]|] eqn:E; [|done]. cbn [mbind option_bind]. intros [= <- <-].
  eapply (IH ts1); [done| |done|done]. pose proof (set_like_NoDup op (abstract ts) Hop Hn) as Hn1. by rewrite Ha in Hn1.
Qed.

(** Lists without duplicates of one length: one inclusion makes them equal as sets. *)
Lemma same_length_same_tags (l k : list Tag) : NoDup l -> NoDup k ->
  (length l = length k /\ forall t, t ∈ k -> t ∈ l) <-> (forall t, t ∈ l <-> t ∈ k).
Proof.
  intros Hl Hk. split.
  - intros [Hlen Hin] t. assert (Hp : k ≡ₚ l) by (apply submseteq_length_Permutation; [by apply NoDup_submseteq|lia]). by rewrite Hp.
  - intros Hin. assert (Hp : k ≡ₚ l) by (apply NoDup_Permutation; [done..|]; intros; by rewrite Hin). rewrite Hp. naive_solver.
Qed.

(** whatever duplicate-free shared sets two tag sets start from and whatever operations they go
    through, short of [extend] and [merge_shared], neither has a tag twice, and they compare equal
    exactly when they hold the same tags, in any order. *)
Theorem tagset_equality_is_set_equality (ops1 ops2 : list tagset_op) (start1 start2 : SharedTagSet) rs1 rs2 ts1 ts2
    (Hs1 : NoDup (flat start1)) (Hs2 : NoDup (flat start2)) (Ho1 : forallb set_like ops1 = true) (Ho2 : forallb set_like ops2 = true)
    (Hr1 : tagset_script ops1 (to_mutable start1) = Some (rs1, ts1)) (Hr2 : tagset_script ops2 (to_mutable start2) = Some (rs2, ts2))
    (Hb1 : Z.of_nat (length (effective ts1)) <= u64_max) (Hb2 : Z.of_nat (length (effective ts2)) <= u64_max) :
  NoDup (effective ts1) /\ NoDup (effective ts2) /\
  exists equal, TagSet_eq ts1 ts2 = Some equal /\ (equal = true <-> forall t, t ∈ effective ts1 <-> t ∈ effective ts2).
Proof.
  assert (Hstart : forall s, effective (to_mutable s) = flat s).
  { intros s. unfold effective. cbn [added_tags to_mutable overlay]. rewrite app_nil_r. by apply keep_true. }
  destruct (script_NoDup ops1 (to_mutable start1) rs1 ts1) as [Hok1 Hn1]; rewrite ?Hstart; try done.
  destruct (script_NoDup ops2 (to_mutable start2) rs2 ts2) as [Hok2 Hn2]; rewrite ?Hstart; try done.
  split_and!; [done..|]. eexists. split; [by apply TagSet_eq_spec|].
  rewrite andb_true_iff, bool_decide_eq_true, forallb_forall, <- same_length_same_tags by done.
  setoid_rewrite bool_decide_eq_true. setoid_rewrite list_elem_of_In. done.
Qed.

Lemma tagset_equality_is_set_equality_witness : exists rs1 ts1 rs2 ts2 equal,
  tagset_script [OpInsert (b "b:2"); OpInsert (b "a:1")] (to_mutable [{| arc := 1; frozen_tags := [b "a:1"] |}]) = Some (rs1, ts1) /\
  tagset_script [OpRemove (b "c")] (to_mutable [{| arc := 2; frozen_tags := [b "b:2"; b "c:3"; b "a:1"] |}]) = Some (rs2, ts2) /\
  TagSet_eq ts1 ts2 = Some equal /\ equal = true.
Proof.
  destruct (tagset_equality_is_set_equality [OpInsert (b "b:2"); OpInsert (b "a:1")] [OpRemove (b "c")]
    [{| arc := 1; frozen_tags := [b "a:1"] |}] [{| arc := 2; frozen_tags := [b "b:2"; b "c:3"; b "a:1"] |}] _ _ _ _
    ltac:(apply (bool_decide_unpack _); vm_compute; done) ltac:(apply (bool_decide_unpack _); vm_compute; done)
    eq_refl eq_refl eq_refl eq_refl ltac:(vm_compute; done) ltac:(vm_compute; done)) as (_ & _ & equal & He & Hiff).
  eexists _, _, _, _, equal. split; [reflexivity|]. split; [reflexivity|]. split; [exact He|].
  apply Hiff. intros t. vm_compute. set_solver.
Defined.

(** Equality is not symmetric when a tag is there twice, although [TagSet] is declared [Eq]. *)
Example tagset_eq_not_symmetric :
  let x := TagSet_from_iter [b "a"; b "b"] in let y := TagSet_from_iter [b "a"; b "a"] in
  TagSet_eq x y = Some true /\ TagSet_eq y x = Some false.
Proof. split; reflexivity. Qed.

(** Sets that compare equal feed different strings to the hasher. *)
Example equal_tagsets_hash_differently :
  let x := TagSet_from_iter [b "a"; b "b"] in let y := TagSet_from_iter [b "b"; b "a"] in
  TagSet_eq x y = Some true /\ TagSet_hash x <> TagSet_hash y.
Proof. split; [reflexivity|]. vm_compute. discriminate. Qed.

(** Merging a shared set whose frozen vectors are behind the base already adds nothing, not even the
    tags that were removed before. *)
Example merge_shared_does_not_restore :
  let s := [{| arc := 1; frozen_tags := [b "env:prod"; b "host:h"] |}] in
  exists ts, remove_tags (b "env") (to_mutable s) = Some (Some [b "env:prod"], ts) /\
    SharedTagSet_has_tag s (b "env:prod") = true /\ TagSet_has_tag (merge_shared s ts) (b "env:prod") = Some false.
Proof. eexists. split; [reflexivity|]. split; reflexivity. Qed.

(** *** Tags *)

Lemma valid_head c l : valid_utf8 (c :: l) -> is_cont c = false.
Proof.
  intros ([|ch cs] & Hcs & E); [done|]. apply Forall_cons in Hcs as [Hch _].
  apply is_char_inv in Hch as (h & t & -> & Hh & _). cbn in E. by injection E as -> _.
Qed.

(** [BorrowedTag], which searches the separator once and slices at it, and [Tag], which splits on
    every call, agree on the name and the value of every tag; no slice is out of bounds or inside of a
    character; and name and value give the tag back, the name being what is before the first colon. *)
Theorem borrowed_tag_agrees `{Memchr} (raw : bytes) (Hvalid : valid_utf8 raw) :
  let t := Tag_as_borrowed raw in
  BorrowedTag_name t = Some (Tag_name raw) /\ BorrowedTag_value t = Some (Tag_value raw) /\
  BorrowedTag_name_and_value t = Some (Tag_name raw, Tag_value raw) /\ colon ∉ Tag_name raw /\
  raw = Tag_name raw ++ match Tag_value raw with Some v => colon :: v | None => [] end.
Proof.
  unfold Tag_name, Tag_value, split_once, BorrowedTag_name, BorrowedTag_value, BorrowedTag_name_and_value. cbn [separator Tag_as_borrowed bt_raw].
  destruct (find_byte colon raw) as [i|] eqn:E; cbn [mbind option_bind fmap option_fmap option_map snd].
  - apply find_byte_Some in E as [Hi Hni]. pose proof (take_drop_middle raw i colon Hi) as Hraw.
    assert (Hlen : length (take i raw) = i) by (rewrite length_take; apply lookup_lt_Some in Hi; lia).
    assert (Hm : memchr colon raw = Some i) by (rewrite <- Hraw at 1; rewrite memchr_app by done; by rewrite Hlen).
    rewrite <- Hraw in Hvalid. apply valid_split_ascii in Hvalid as [_ Hv2]; [|done].
    assert (Hs1 : slice_to raw i = Some (take i raw)) by (unfold slice_to, is_char_boundary; by rewrite Hi).
    assert (Hs2 : slice_from raw (i + 1) = Some (drop (S i) raw)).
    { unfold slice_from, is_char_boundary. rewrite Nat.add_1_r. destruct (raw !! S i) as [c|] eqn:Ec.
      - rewrite (drop_S raw c) in Hv2 by done. by rewrite (valid_head _ _ Hv2).
      - apply lookup_ge_None in Ec. apply lookup_lt_Some in Hi. by rewrite (proj2 (Nat.eqb_eq _ _)) by lia. }
    rewrite Hm, Hs1, Hs2. cbn [mbind option_bind fmap option_fmap option_map]. split_and!; done.
  - apply find_byte_None in E. rewrite memchr_not_elem by done. by rewrite app_nil_r.
Qed.

Lemma borrowed_tag_agrees_witness :
  BorrowedTag_value (@Tag_as_borrowed memchr_ref (b "service:web:é")) = Some (Some (b "web:é")).
Proof.
  destruct (@borrowed_tag_agrees memchr_ref (b "service:web:é")) as (_ & Hv & _).
  - apply is_utf8_spec. vm_compute. reflexivity.
  - rewrite Hv. vm_compute. reflexivity.
Defined.
