(* ===== verification/Context.v ===== *)
(** * Metric contexts

    [saluki-core/src/data_model/event/metric/context/mod.rs] and [hash.rs].  A context is the identity
    of a metric series: a name, an optional host, instrumented tags and origin tags, with a 64-bit key
    that stands for all of them in comparisons and caches.  The handle is an [Arc] with copy-on-write
    semantics, so it is a value here; the gauge that counts live contexts is telemetry.

    [TagSetMutView] records removals in scratch bit sets and applies them when it is finished; the
    scratch state is reused, and cleared when a view is dropped. *)

From Stdlib Require Import Strings.String ZArith Lia Sorted Permutation.
From stdpp Require Import base tactics list numbers gmap.
From S2P Require Import Prelude Bytes Utf8 BitSet TagSet TagSetProofs.
Open Scope Z_scope.

(** ** Hashing *)

(** [FastHasher], the third-party hasher with its process-wide seed ([get_fast_hasher]), and what
    [Hash] feeds it for a string and an optional string. *)
Class FastHasher := {
  Hasher : Type;
  get_fast_hasher : Hasher;
  hash_str : bytes -> Hasher -> Hasher;
  hash_opt_str : option bytes -> Hasher -> Hasher;
  write_u64 : Z -> Hasher -> Hasher;
  finish : Hasher -> Z;
  finish_u64 : forall h, is_u64 (finish h);
}.

Record ContextKey := { ck_hash : Z }.
Record TagSetKey := { tk_hash : Z }.

#[export] Instance ContextKey_eq_dec : EqDecision ContextKey.
Proof. solve_decision. Defined.
#[export] Instance ContextKey_countable : Countable ContextKey.
Proof. by apply (inj_countable' ck_hash (fun h => {| ck_hash := h |})); intros []. Defined.
#[export] Instance TagSetKey_eq_dec : EqDecision TagSetKey.
Proof. solve_decision. Defined.

#[export] Instance TagSetKey_countable : Countable TagSetKey.
Proof. by apply (inj_countable' tk_hash (fun h => {| tk_hash := h |})); intros []. Defined.

Record ContextInner := {
  key : ContextKey;
  name : bytes;
  host : option bytes;
  c_tags : TagSet;
  origin_tags : TagSet;
}.
Abbreviation Context := ContextInner.

Section hashing.
Context `{FastHasher}.

Definition hash_single_fast (s : bytes) : Z := finish (hash_str s get_fast_hasher).

(** The loop over the tags: a hash that was seen already is skipped. *)
Definition combine_tag '((seen, combined) : gset Z * Z) (tag : bytes) : gset Z * Z :=
  let tag_hash := hash_single_fast tag in
  if bool_decide (tag_hash ∈ seen) then (seen, combined)
  else ({[ tag_hash ]} ∪ seen, Z.lxor combined tag_hash).

Definition hash_context_with_host_and_seen (name : bytes) (host : option bytes) (tags origin_tags : list bytes) (seen : gset Z) :
    ContextKey * TagSetKey * gset Z :=
  let hasher := hash_opt_str host (hash_str name get_fast_hasher) in
  let '(_, combined_tags_hash) := foldl combine_tag (∅, 0) tags in
  let hasher := write_u64 combined_tags_hash hasher in
  let '(seen, combined_origin_tags_hash) := foldl combine_tag (∅, 0) origin_tags in
  let hasher := write_u64 combined_origin_tags_hash hasher in
  ({| ck_hash := finish hasher |}, {| tk_hash := combined_tags_hash |}, seen).

Definition hash_context_with_host (name : bytes) (host : option bytes) (tags origin_tags : list bytes) : ContextKey * TagSetKey :=
  (hash_context_with_host_and_seen name host tags origin_tags ∅).1.
Definition hash_context (name : bytes) (tags origin_tags : list bytes) : ContextKey * TagSetKey :=
  hash_context_with_host name None tags origin_tags.

(** ** Contexts *)

(** The key of the given parts; tag sets are hashed through their iterator. *)
Definition calculate_key_with_seen (nm : bytes) (h : option bytes) (ts os : TagSet) (seen : gset Z) : option (ContextKey * gset Z) :=
  tl ← tags ts; ol ← tags os;
  let '(k, _, seen) := hash_context_with_host_and_seen nm h tl ol seen in
  Some (k, seen).
Definition calculate_key (nm : bytes) (h : option bytes) (ts os : TagSet) : option ContextKey :=
  fst <$> calculate_key_with_seen nm h ts os ∅.

Definition ContextInner_new (nm : bytes) (h : option bytes) (ts os : TagSet) : option Context :=
  k ← calculate_key nm h ts os;
  Some {| key := k; name := nm; host := h; c_tags := ts; origin_tags := os |}.

Definition Context_from_static_name (nm : bytes) : option Context := ContextInner_new nm None TagSet_default TagSet_default.
Definition Context_from_static_parts (nm : bytes) (tag_strs : list bytes) : option Context :=
  tag_set ← foldl (fun ts tag => ts ≫= insert_tag tag) (Some (TagSet_with_capacity (Z.of_nat (length tag_strs)))) tag_strs;
  ContextInner_new nm None tag_set TagSet_default.
Definition Context_from_parts (nm : bytes) (ts : TagSet) : option Context := ContextInner_new nm None ts TagSet_default.

Definition Context_with_name (nm : bytes) (c : Context) : option Context := ContextInner_new nm (host c) (c_tags c) (origin_tags c).
Definition Context_with_tags (ts : TagSet) (c : Context) : option Context := ContextInner_new (name c) (host c) ts (origin_tags c).
Definition Context_with_origin_tags (os : TagSet) (c : Context) : option Context := ContextInner_new (name c) (host c) (c_tags c) os.
Definition Context_with_tags_and_origin_tags (ts os : TagSet) (c : Context) : option Context := ContextInner_new (name c) (host c) ts os.
Definition Context_with_host (h : option bytes) (c : Context) : option Context := ContextInner_new (name c) h (c_tags c) (origin_tags c).

Definition recalculate_key (c : Context) : option Context :=
  k ← calculate_key (name c) (host c) (c_tags c) (origin_tags c);
  Some {| key := k; name := name c; host := host c; c_tags := c_tags c; origin_tags := origin_tags c |}.
Definition recalculate_key_with_seen (c : Context) (seen : gset Z) : option (Context * gset Z) :=
  '(k, seen) ← calculate_key_with_seen (name c) (host c) (c_tags c) (origin_tags c) seen;
  Some ({| key := k; name := name c; host := host c; c_tags := c_tags c; origin_tags := origin_tags c |}, seen).

Definition set_tag_sets (ts os : TagSet) (c : Context) : Context :=
  {| key := key c; name := name c; host := host c; c_tags := ts; origin_tags := os |}.

(** [mutate_inner] with a closure on the two tag sets, which may panic. *)
Definition with_tag_sets_mut (f : TagSet -> TagSet -> option (TagSet * TagSet)) (c : Context) : option Context :=
  '(ts, os) ← f (c_tags c) (origin_tags c);
  recalculate_key (set_tag_sets ts os c).
Definition mutate_tags (f : TagSet -> option TagSet) (c : Context) : option Context :=
  with_tag_sets_mut (fun ts os => ts' ← f ts; Some (ts', os)) c.
Definition mutate_origin_tags (f : TagSet -> option TagSet) (c : Context) : option Context :=
  with_tag_sets_mut (fun ts os => os' ← f os; Some (ts, os')) c.

(** Contexts are compared and hashed by their key. *)
Definition Context_eqb (x y : Context) : bool := bool_decide (key x = key y).

Definition Context_display (c : Context) : option bytes :=
  tl ← tags (c_tags c);
  Some (name c ++ if TagSet_is_empty (c_tags c) then [] else b "{" ++ join_with (b ", ") tl ++ b "}").

(** ** The lazy view *)

Record TagSetMutViewState := {
  tag_base_removals : ContiguousBitSet;
  tag_addition_removals : ContiguousBitSet;
  origin_base_removals : ContiguousBitSet;
  origin_addition_removals : ContiguousBitSet;
  hash_seen : gset Z;
}.

Definition TagSetMutViewState_new : TagSetMutViewState :=
  {| tag_base_removals := BitSet_new; tag_addition_removals := BitSet_new; origin_base_removals := BitSet_new;
     origin_addition_removals := BitSet_new; hash_seen := ∅ |}.

Definition TagSetMutViewState_clear (s : TagSetMutViewState) : TagSetMutViewState :=
  {| tag_base_removals := BitSet_clear_all (tag_base_removals s);
     tag_addition_removals := BitSet_clear_all (tag_addition_removals s);
     origin_base_removals := BitSet_clear_all (origin_base_removals s);
     origin_addition_removals := BitSet_clear_all (origin_addition_removals s);
     hash_seen := hash_seen s |}.

Definition View_retain_tags {C} (f : C -> Tag -> bool * C) (st : C) (c : Context) (s : TagSetMutViewState) : option (TagSetMutViewState * C) :=
  '(br, ar, st) ← collect_removals f st (c_tags c) (tag_base_removals s) (tag_addition_removals s);
  Some ({| tag_base_removals := br; tag_addition_removals := ar; origin_base_removals := origin_base_removals s;
           origin_addition_removals := origin_addition_removals s; hash_seen := hash_seen s |}, st).
Definition View_retain_origin_tags {C} (f : C -> Tag -> bool * C) (st : C) (c : Context) (s : TagSetMutViewState) : option (TagSetMutViewState * C) :=
  '(br, ar, st) ← collect_removals f st (origin_tags c) (origin_base_removals s) (origin_addition_removals s);
  Some ({| tag_base_removals := tag_base_removals s; tag_addition_removals := tag_addition_removals s; origin_base_removals := br;
           origin_addition_removals := ar; hash_seen := hash_seen s |}, st).

Definition total_tags (s : TagSetMutViewState) : nat := (BitSet_len (tag_base_removals s) + BitSet_len (tag_addition_removals s))%nat.
Definition total_origin (s : TagSetMutViewState) : nat := (BitSet_len (origin_base_removals s) + BitSet_len (origin_addition_removals s))%nat.

(** [finish] consumes the view, which drops it and clears the scratch state on every path. *)
Definition View_finish (c : Context) (s : TagSetMutViewState) : option (nat * Context * TagSetMutViewState) :=
  let total := (total_tags s + total_origin s)%nat in
  if (total =? 0)%nat then Some (O, c, TagSetMutViewState_clear s)
  else
    ts ← (if (0 <? total_tags s)%nat then apply_removals (tag_base_removals s) (tag_addition_removals s) (c_tags c) else Some (c_tags c));
    os ← (if (0 <? total_origin s)%nat then apply_removals (origin_base_removals s) (origin_addition_removals s) (origin_tags c) else Some (origin_tags c));
    '(c', seen) ← recalculate_key_with_seen (set_tag_sets ts os c) (hash_seen s);
    Some (total, c', TagSetMutViewState_clear
      {| tag_base_removals := tag_base_removals s; tag_addition_removals := tag_addition_removals s;
         origin_base_removals := origin_base_removals s; origin_addition_removals := origin_addition_removals s; hash_seen := seen |}).
End hashing.

(** ** Lemmas on hashing *)

Section lemmas.
Context `{FastHasher}.

Definition xor_all (X : gset Z) : Z := set_fold Z.lxor 0 X.
Definition hashes (l : list bytes) : gset Z := list_to_set (hash_single_fast <$> l).

#[local] Instance lxor_comm : Comm (=) Z.lxor.
Proof. intros x y. apply Z.lxor_comm. Qed.
#[local] Instance lxor_assoc : Assoc (=) Z.lxor.
Proof. intros x y z. symmetry. apply Z.lxor_assoc. Qed.

Lemma xor_all_insert h (X : gset Z) : h ∉ X -> xor_all ({[ h ]} ∪ X) = Z.lxor h (xor_all X).
Proof.
  intros Hh. unfold xor_all. rewrite set_fold_disj_union by (try apply _; set_solver). rewrite set_fold_singleton.
  apply (set_fold_comm_acc Z.lxor (Z.lxor h)). intros x y. rewrite <- !Z.lxor_assoc. f_equal. apply Z.lxor_comm.
Qed.

(** The loop combines the hashes that were not seen yet, each once. *)
Lemma combine_fold l seen combined :
  foldl combine_tag (seen, combined) l = (hashes l ∪ seen, Z.lxor combined (xor_all (hashes l ∖ seen))).
Proof.
  revert seen combined. induction l as [|t l IH]; intros seen combined; cbn [foldl].
  { assert (E : hashes [] = ∅) by done. assert (Ed : ∅ ∖ seen = ∅) by set_solver.
    rewrite E, Ed. unfold xor_all. by rewrite (left_id_L ∅ (∪)), set_fold_empty, Z.lxor_0_r. }
  unfold combine_tag at 2. set (h := hash_single_fast t). replace (hashes (t :: l)) with ({[ h ]} ∪ hashes l) by done.
  case_bool_decide as Hh; rewrite IH; f_equal; [set_solver| |set_solver|].
  - f_equal. f_equal. set_solver.
  - replace (({[ h ]} ∪ hashes l) ∖ seen) with ({[ h ]} ∪ (hashes l ∖ ({[ h ]} ∪ seen))).
    + rewrite xor_all_insert by set_solver. apply Z.lxor_assoc.
    + apply set_eq. intros x. destruct (decide (x = h)); set_solver.
Qed.

Lemma combine_all l : foldl combine_tag (∅, 0) l = (hashes l, xor_all (hashes l)).
Proof. by rewrite combine_fold, Z.lxor_0_l, (right_id_L ∅ (∪)), difference_empty_L. Qed.

Lemma hashes_ext l1 l2 : (forall t, t ∈ l1 <-> t ∈ l2) -> hashes l1 = hashes l2.
Proof.
  intros Hl. apply set_eq. intros x. unfold hashes. rewrite !elem_of_list_to_set, !list_elem_of_fmap. by setoid_rewrite Hl.
Qed.

(** The key as a function of name, host and the sets of hashes. *)
Definition key_of (nm : bytes) (h : option bytes) (ts os : list bytes) : ContextKey :=
  {| ck_hash := finish (write_u64 (xor_all (hashes os)) (write_u64 (xor_all (hashes ts)) (hash_opt_str h (hash_str nm get_fast_hasher)))) |}.

Lemma hash_context_key nm h ts os seen :
  hash_context_with_host_and_seen nm h ts os seen = (key_of nm h ts os, {| tk_hash := xor_all (hashes ts) |}, hashes os).
Proof. unfold hash_context_with_host_and_seen. by rewrite !combine_all. Qed.

Lemma key_of_ext nm h ts1 ts2 os1 os2 : (forall t, t ∈ ts1 <-> t ∈ ts2) -> (forall t, t ∈ os1 <-> t ∈ os2) ->
  key_of nm h ts1 os1 = key_of nm h ts2 os2.
Proof. intros H1 H2. unfold key_of. by rewrite (hashes_ext _ _ H1), (hashes_ext _ _ H2). Qed.

Lemma calculate_key_with_seen_spec nm h ts os seen :
  calculate_key_with_seen nm h ts os seen = Some (key_of nm h (effective ts) (effective os), hashes (effective os)).
Proof. unfold calculate_key_with_seen. rewrite !tags_effective. cbn [mbind option_bind]. by rewrite hash_context_key. Qed.

Lemma calculate_key_spec nm h ts os : calculate_key nm h ts os = Some (key_of nm h (effective ts) (effective os)).
Proof. unfold calculate_key. by rewrite calculate_key_with_seen_spec. Qed.

(** ** Lemmas on contexts *)

(** A context whose key is the key of its parts, and whose tag sets are well formed. *)
Record context_ok (c : Context) : Prop := {
  ok_key : key c = key_of (name c) (host c) (effective (c_tags c)) (effective (origin_tags c));
  ok_tags : tagset_ok (c_tags c);
  ok_origin : tagset_ok (origin_tags c);
}.

Lemma ContextInner_new_spec nm h ts os : tagset_ok ts -> tagset_ok os -> exists c,
  ContextInner_new nm h ts os = Some c /\ context_ok c /\ name c = nm /\ host c = h /\ c_tags c = ts /\ origin_tags c = os.
Proof. intros H1 H2. unfold ContextInner_new. rewrite calculate_key_spec. cbn [mbind option_bind]. by eexists. Qed.

Lemma recalculate_key_spec c : tagset_ok (c_tags c) -> tagset_ok (origin_tags c) -> exists c',
  recalculate_key c = Some c' /\ context_ok c' /\ name c' = name c /\ host c' = host c /\ c_tags c' = c_tags c /\ origin_tags c' = origin_tags c.
Proof. intros H1 H2. unfold recalculate_key. rewrite calculate_key_spec. cbn [mbind option_bind]. by eexists. Qed.

(** ** Lemmas on the view *)

Definition scratch_clean (s : TagSetMutViewState) : Prop :=
  Forall (fun bs => bitset_ok bs /\ forall i, BitSet_is_set bs i = false)
    [tag_base_removals s; tag_addition_removals s; origin_base_removals s; origin_addition_removals s].

Lemma cleared bs : bitset_ok (BitSet_clear_all bs) /\ forall i, BitSet_is_set (BitSet_clear_all bs) i = false.
Proof. split; [apply clear_all_ok|]. intros i. apply is_set_clear_all. Qed.

Lemma clear_is_clean s : scratch_clean (TagSetMutViewState_clear s).
Proof. unfold scratch_clean. repeat (constructor; [apply cleared|]). constructor. Qed.

Lemma new_is_clean : scratch_clean TagSetMutViewState_new.
Proof. unfold scratch_clean. repeat (constructor; [split; [constructor|by intros i]|]). constructor. Qed.

(** What the scratch state holds after scans with [fs] over the tags and [gs] over the origin tags. *)
Record recorded (fs gs : list (Tag -> bool)) (c : Context) (s : TagSetMutViewState) : Prop := {
  rec_tags : flagged fs (c_tags c) (tag_base_removals s) (tag_addition_removals s);
  rec_origin : flagged gs (origin_tags c) (origin_base_removals s) (origin_addition_removals s);
}.

Lemma clean_recorded c s : scratch_clean s -> recorded [] [] c s.
Proof.
  unfold scratch_clean. rewrite !Forall_cons. intros ((H1 & H2) & (H3 & H4) & (H5 & H6) & (H7 & H8) & _).
  constructor; by apply flagged_empty.
Qed.

Section scans.
Context {C : Type} (f : C -> Tag -> bool * C) (p : Tag -> bool) (Hf : forall st t, (f st t).1 = p t).

Lemma View_retain_tags_spec fs gs st c s : recorded fs gs c s -> exists s',
  View_retain_tags f st c s = Some (s', foldl (visit f) st (visited (c_tags c) (tag_base_removals s) (tag_addition_removals s))) /\
  recorded (fs ++ [p]) gs c s' /\ origin_base_removals s' = origin_base_removals s /\ origin_addition_removals s' = origin_addition_removals s.
Proof using Hf.
  intros [H1 H2]. unfold View_retain_tags. destruct (collect_removals_spec f p Hf fs st _ _ _ H1) as (br & ar & -> & H3).
  cbn [mbind option_bind]. by eexists.
Qed.

Lemma View_retain_origin_tags_spec fs gs st c s : recorded fs gs c s -> exists s',
  View_retain_origin_tags f st c s = Some (s', foldl (visit f) st (visited (origin_tags c) (origin_base_removals s) (origin_addition_removals s))) /\
  recorded fs (gs ++ [p]) c s'.
Proof using Hf.
  intros [H1 H2]. unfold View_retain_origin_tags. destruct (collect_removals_spec f p Hf gs st _ _ _ H2) as (br & ar & -> & H3).
  cbn [mbind option_bind]. by eexists.
Qed.
End scans.

Definition accepts (fs : list (Tag -> bool)) (t : Tag) : bool := forallb (fun f => f t) fs.
Definition dropped (fs : list (Tag -> bool)) (ts : TagSet) : nat := length (List.filter (fun t => negb (accepts fs t)) (effective ts)).

Lemma effective_abstract ts : effective ts = a_all (abstract ts).
Proof. done. Qed.

Lemma filter_none_id {A} (p : A -> bool) l : length (List.filter (fun x => negb (p x)) l) = O -> List.filter p l = l.
Proof.
  induction l as [|x l IH]; [done|]. cbn [List.filter]. destruct (p x) eqn:E; cbn [negb length]; [|done]. intros Hl. by rewrite IH.
Qed.

Lemma apply_if_any fs ts br ar : tagset_ok ts -> flagged fs ts br ar -> exists ts',
  (if (0 <? BitSet_len br + BitSet_len ar)%nat then apply_removals br ar ts else Some ts) = Some ts' /\
  tagset_ok ts' /\ effective ts' = List.filter (accepts fs) (effective ts).
Proof.
  intros Hok Hfl. pose proof (flagged_count fs ts br ar Hfl) as Hc.
  destruct (0 <? _)%nat eqn:E; nat_cases.
  - destruct (apply_removals_spec fs ts br ar Hok Hfl) as (ts' & H1 & H2 & H3). exists ts'. split_and!; [done..|].
    rewrite effective_abstract, H3, a_filter_all. apply List.filter_ext. intros t. unfold rejects. by rewrite negb_involutive.
  - exists ts. split_and!; [done..|]. symmetry. apply filter_none_id. unfold rejects in Hc. fold (accepts fs) in Hc. unfold accepts in *. lia.
Qed.

Lemma View_finish_spec fs gs c s : context_ok c -> recorded fs gs c s -> exists c' s',
  View_finish c s = Some ((dropped fs (c_tags c) + dropped gs (origin_tags c))%nat, c', s') /\ scratch_clean s' /\ context_ok c' /\
  name c' = name c /\ host c' = host c /\
  effective (c_tags c') = List.filter (accepts fs) (effective (c_tags c)) /\
  effective (origin_tags c') = List.filter (accepts gs) (effective (origin_tags c)) /\
  ((dropped fs (c_tags c) + dropped gs (origin_tags c))%nat = O -> c' = c).
Proof.
  intros [Hk Ht Ho] [H1 H2]. unfold View_finish.
  assert (E1 : total_tags s = dropped fs (c_tags c)) by apply (flagged_count _ _ _ _ H1).
  assert (E2 : total_origin s = dropped gs (origin_tags c)) by apply (flagged_count _ _ _ _ H2).
  destruct (total_tags s + total_origin s =? 0)%nat eqn:E; nat_cases.
  - exists c, (TagSetMutViewState_clear s). unfold dropped in *.
    rewrite <- E1, <- E2, !filter_none_id by (rewrite <- ?E1, <- ?E2; lia).
    replace (total_tags s + total_origin s)%nat with O by lia. by split_and!; [|apply clear_is_clean|..].
  - destruct (apply_if_any fs _ _ _ Ht H1) as (ts & Hts & Hok1 & Hef1). fold (total_tags s) in Hts. rewrite Hts. cbn [mbind option_bind].
    destruct (apply_if_any gs _ _ _ Ho H2) as (os & Hos & Hok2 & Hef2). fold (total_origin s) in Hos. rewrite Hos. cbn [mbind option_bind].
    unfold recalculate_key_with_seen. cbn [name host c_tags origin_tags set_tag_sets]. rewrite calculate_key_with_seen_spec. cbn [mbind option_bind].
    rewrite <- E1, <- E2. eexists _, _. split; [done|]. split_and!; [apply clear_is_clean|done..|lia].
Qed.
End lemmas.

(** ** A concrete hasher, for the witnesses *)

Definition mix (h x : Z) : Z := wrap 64 (h * 1099511628211 + x + 7).
#[program] Definition fnv : FastHasher := {|
  Hasher := Z;
  get_fast_hasher := 1469598103934665603;
  hash_str := fun s h => mix (foldl (fun h c => mix h (byte_Z c)) h s) 255;
  hash_opt_str := fun s h => match s with Some s => mix (foldl (fun h c => mix h (byte_Z c)) (mix h 1) s) 255 | None => mix h 0 end;
  write_u64 := fun x h => mix h x;
  finish := fun h => wrap 64 h |}.
Next Obligation. intros h. by apply wrap_range. Qed.

(** ** Theorems *)

(** A client of a view: which tags it scans ([true] for the instrumented ones) and with what. *)
Fixpoint View_scans `{FastHasher} (scans : list (bool * (Tag -> bool))) (c : Context) (s : TagSetMutViewState) : option TagSetMutViewState :=
  match scans with
  | [] => Some s
  | (instrumented, f) :: scans' =>
      '(s', _) ← (if (instrumented : bool) then View_retain_tags (pure_pred f) tt c s else View_retain_origin_tags (pure_pred f) tt c s);
      View_scans scans' c s'
  end.
Definition scans_of (instrumented : bool) (scans : list (bool * (Tag -> bool))) : list (Tag -> bool) :=
  snd <$> List.filter (fun p => Bool.eqb p.1 instrumented) scans.

Lemma View_scans_spec `{FastHasher} scans c s fs gs : recorded fs gs c s -> exists s',
  View_scans scans c s = Some s' /\ recorded (fs ++ scans_of true scans) (gs ++ scans_of false scans) c s'.
Proof.
  revert s fs gs. induction scans as [|[i f] scans IH]; intros s fs gs Hr; cbn [View_scans].
  { exists s. by rewrite !app_nil_r. }
  destruct i.
  - destruct (View_retain_tags_spec (pure_pred f) f (fun _ _ => eq_refl) fs gs tt c s Hr) as (s1 & -> & Hr1 & _). cbn [mbind option_bind].
    destruct (IH _ _ _ Hr1) as (s2 & H1 & H2). exists s2. rewrite <- app_assoc in H2. done.
  - destruct (View_retain_origin_tags_spec (pure_pred f) f (fun _ _ => eq_refl) fs gs tt c s Hr) as (s1 & -> & Hr1). cbn [mbind option_bind].
    destruct (IH _ _ _ Hr1) as (s2 & H1 & H2). exists s2. rewrite <- app_assoc in H2. done.
Qed.

(** the key of a context depends on the name, the host and the two sets of tags only: neither the
    order of the tags, nor tags that are given twice, nor what the reused set of seen hashes had in it
    from before make a difference, for the key of the context and for the key of its tag set. *)
Theorem context_key_ignores_order_and_duplicates `{FastHasher} (nm : bytes) (h : option bytes) (ts1 ts2 os1 os2 : list bytes) (seen1 seen2 : gset Z)
    (Htags : forall t, t ∈ ts1 <-> t ∈ ts2) (Horigin : forall t, t ∈ os1 <-> t ∈ os2) :
  (hash_context_with_host_and_seen nm h ts1 os1 seen1).1 = (hash_context_with_host_and_seen nm h ts2 os2 seen2).1.
Proof. rewrite !hash_context_key. cbn [fst]. f_equal; [by apply key_of_ext|]. by rewrite (hashes_ext _ _ Htags). Qed.

Lemma context_key_ignores_order_and_duplicates_witness :
  (@hash_context_with_host_and_seen fnv (b "m") None [b "a"; b "b"; b "a"] [] {[ 5 ]}).1
  = (@hash_context_with_host_and_seen fnv (b "m") None [b "b"; b "a"] [] ∅).1.
Proof. apply (@context_key_ignores_order_and_duplicates fnv); [vm_compute; set_solver|done]. Defined.

(** a lazy view over a context, used with a scratch state that is clean, does what [retain] on the
    tag sets would do: after any number of scans, [finish] returns the number of tags that some
    predicate rejected, leaves exactly the others, in their order, updates the key, does not touch a
    context that loses nothing, and leaves the scratch state clean for the next view. *)
Theorem mut_view_is_retain `{FastHasher} (scans : list (bool * (Tag -> bool))) (c : Context) (s : TagSetMutViewState)
    (Hc : context_ok c) (Hs : scratch_clean s) :
  let fs := scans_of true scans in let gs := scans_of false scans in
  exists s1 total c' s', View_scans scans c s = Some s1 /\ View_finish c s1 = Some (total, c', s') /\ scratch_clean s' /\ context_ok c' /\
    name c' = name c /\ host c' = host c /\
    effective (c_tags c') = List.filter (accepts fs) (effective (c_tags c)) /\
    effective (origin_tags c') = List.filter (accepts gs) (effective (origin_tags c)) /\
    total = (dropped fs (c_tags c) + dropped gs (origin_tags c))%nat /\ (total = O -> c' = c).
Proof.
  intros fs gs. destruct (View_scans_spec scans c s [] [] (clean_recorded c s Hs)) as (s1 & H1 & Hr). cbn [app] in Hr.
  destruct (View_finish_spec fs gs c s1 Hc Hr) as (c' & s' & H2 & Hrest). exists s1. eexists _, c', s'.
  split; [done|]. split; [exact H2|]. naive_solver.
Qed.

Definition web_context : Context := Eval vm_compute in default {| key := {| ck_hash := 0 |}; name := []; host := None; c_tags := TagSet_default; origin_tags := TagSet_default |}
  (@Context_from_static_parts fnv (b "m") [b "env:prod"; b "host:h"]).

Lemma mut_view_is_retain_witness : exists s1 c' s',
  @View_scans fnv [(true, fun t => negb (named (b "env") t))] web_context TagSetMutViewState_new = Some s1 /\
  @View_finish fnv web_context s1 = Some (1%nat, c', s').
Proof.
  destruct (@mut_view_is_retain fnv [(true, fun t => negb (named (b "env") t))] web_context TagSetMutViewState_new)
    as (s1 & total & c' & s' & H1 & H2 & _ & _ & _ & _ & _ & _ & Ht & _).
  - constructor; [vm_compute; reflexivity|split; [constructor|]|done]. intros i Hi. by rewrite live_new in Hi.
  - apply new_is_clean.
  - exists s1, c', s'. split; [exact H1|]. rewrite H2, Ht. vm_compute. reflexivity.
Defined.

(** What clients do to contexts; tag sets are made from shared sets by sequences of operations. *)
Inductive context_op :=
| OpWithName (nm : bytes)
| OpWithHost (h : option bytes)
| OpWithTags (ops : list tagset_op) (start : SharedTagSet)
| OpWithOriginTags (ops : list tagset_op) (start : SharedTagSet)
| OpWithBoth (ops1 ops2 : list tagset_op) (start1 start2 : SharedTagSet)
| OpMutate (ops1 ops2 : list tagset_op)
| OpView (scans : list (bool * (Tag -> bool))).

Definition made (ops : list tagset_op) (ts : TagSet) : option TagSet := snd <$> tagset_script ops ts.

Definition context_run `{FastHasher} (op : context_op) '((c, s) : Context * TagSetMutViewState) : option (Context * TagSetMutViewState) :=
  match op with
  | OpWithName nm => c' ← Context_with_name nm c; Some (c', s)
  | OpWithHost h => c' ← Context_with_host h c; Some (c', s)
  | OpWithTags ops start => ts ← made ops (to_mutable start); c' ← Context_with_tags ts c; Some (c', s)
  | OpWithOriginTags ops start => os ← made ops (to_mutable start); c' ← Context_with_origin_tags os c; Some (c', s)
  | OpWithBoth ops1 ops2 start1 start2 =>
      ts ← made ops1 (to_mutable start1); os ← made ops2 (to_mutable start2);
      c' ← Context_with_tags_and_origin_tags ts os c; Some (c', s)
  | OpMutate ops1 ops2 =>
      c' ← with_tag_sets_mut (fun ts os => ts' ← made ops1 ts; os' ← made ops2 os; Some (ts', os')) c; Some (c', s)
  | OpView scans => s1 ← View_scans scans c s; '(_, c', s') ← View_finish c s1; Some (c', s')
  end.

Fixpoint context_script `{FastHasher} (ops : list context_op) (cs : Context * TagSetMutViewState) : option (Context * TagSetMutViewState) :=
  match ops with [] => Some cs | op :: ops' => cs' ← context_run op cs; context_script ops' cs' end.

Lemma made_ok ops ts : tagset_ok ts -> exists ts', made ops ts = Some ts' /\ tagset_ok ts'.
Proof. intros Hok. destruct (tagset_script_refines ops ts Hok) as (rs & ts' & Hr & Hok' & _). exists ts'. unfold made. by rewrite Hr. Qed.

Lemma context_run_ok `{FastHasher} op c s : context_ok c -> scratch_clean s -> exists c' s',
  context_run op (c, s) = Some (c', s') /\ context_ok c' /\ scratch_clean s'.
Proof.
  intros Hc Hs. destruct Hc as [Hk Ht Ho] eqn:EHc. clear EHc.
  assert (Hnew : forall nm h ts os, tagset_ok ts -> tagset_ok os -> exists c', ContextInner_new nm h ts os = Some c' /\ context_ok c').
  { intros nm h ts os H1 H2. destruct (ContextInner_new_spec nm h ts os H1 H2) as (c' & ? & ? & _). by exists c'. }
  destruct op as [nm|h|ops start|ops start|ops1 ops2 start1 start2|ops1 ops2|scans]; cbn [context_run];
    unfold Context_with_name, Context_with_host, Context_with_tags, Context_with_origin_tags, Context_with_tags_and_origin_tags, with_tag_sets_mut.
  - destruct (Hnew nm (host c) (c_tags c) (origin_tags c)) as (c' & -> & ?); [done..|]. by exists c', s.
  - destruct (Hnew (name c) h (c_tags c) (origin_tags c)) as (c' & -> & ?); [done..|]. by exists c', s.
  - destruct (made_ok ops (to_mutable start)) as (ts & -> & Hts); [done|]. cbn [mbind option_bind].
    destruct (Hnew (name c) (host c) ts (origin_tags c)) as (c' & -> & ?); [done..|]. by exists c', s.
  - destruct (made_ok ops (to_mutable start)) as (ts & -> & Hts); [done|]. cbn [mbind option_bind].
    destruct (Hnew (name c) (host c) (c_tags c) ts) as (c' & -> & ?); [done..|]. by exists c', s.
  - destruct (made_ok ops1 (to_mutable start1)) as (ts & -> & Hts); [done|]. cbn [mbind option_bind].
    destruct (made_ok ops2 (to_mutable start2)) as (os & -> & Hos); [done|]. cbn [mbind option_bind].
    destruct (Hnew (name c) (host c) ts os) as (c' & -> & ?); [done..|]. by exists c', s.
  - destruct (made_ok ops1 (c_tags c) Ht) as (ts & -> & Hts). cbn [mbind option_bind].
    destruct (made_ok ops2 (origin_tags c) Ho) as (os & -> & Hos). cbn [mbind option_bind].
    destruct (recalculate_key_spec (set_tag_sets ts os c)) as (c' & -> & ? & _); [done..|]. by exists c', s.
  - destruct (View_scans_spec scans c s [] [] (clean_recorded c s Hs)) as (s1 & -> & Hr). cbn [mbind option_bind].
    destruct (View_finish_spec _ _ c s1 ltac:(done) Hr) as (c' & s' & -> & ? & ? & _). by exists c', s'.
Qed.

Lemma context_script_ok `{FastHasher} ops c s : context_ok c -> scratch_clean s -> exists c' s',
  context_script ops (c, s) = Some (c', s') /\ context_ok c' /\ scratch_clean s'.
Proof.
  revert c s. induction ops as [|op ops IH]; intros c s Hc Hs; cbn [context_script]; [by exists c, s|].
  destruct (context_run_ok op c s Hc Hs) as (c1 & s1 & -> & Hc1 & Hs1). cbn [mbind option_bind]. by apply IH.
Qed.

(** whatever is done to a context (renaming, replacing host or tags, mutating the tag sets in
    place, lazy views), its key stays the key of its parts: no operation panics, and two contexts that
    end up with one name, one host and the same tags compare equal, however they got there. *)
Theorem contexts_with_equal_parts_are_equal `{FastHasher} (ops1 ops2 : list context_op) nm1 nm2 start1 start2 :
  exists c1 s1 c2 s2 d1 d2, Context_from_parts nm1 (to_mutable start1) = Some d1 /\ Context_from_parts nm2 (to_mutable start2) = Some d2 /\
    context_script ops1 (d1, TagSetMutViewState_new) = Some (c1, s1) /\ context_script ops2 (d2, TagSetMutViewState_new) = Some (c2, s2) /\
    (name c1 = name c2 -> host c1 = host c2 ->
     (forall t, t ∈ effective (c_tags c1) <-> t ∈ effective (c_tags c2)) ->
     (forall t, t ∈ effective (origin_tags c1) <-> t ∈ effective (origin_tags c2)) -> Context_eqb c1 c2 = true).
Proof.
  destruct (ContextInner_new_spec nm1 None (to_mutable start1) TagSet_default) as (d1 & E1 & Hd1 & _); [done..|].
  destruct (ContextInner_new_spec nm2 None (to_mutable start2) TagSet_default) as (d2 & E2 & Hd2 & _); [done..|].
  destruct (context_script_ok ops1 d1 TagSetMutViewState_new Hd1 new_is_clean) as (c1 & s1 & Hr1 & Hc1 & _).
  destruct (context_script_ok ops2 d2 TagSetMutViewState_new Hd2 new_is_clean) as (c2 & s2 & Hr2 & Hc2 & _).
  exists c1, s1, c2, s2, d1, d2. split_and!; [done..|]. intros Hn Hh Ht Ho. unfold Context_eqb. apply bool_decide_eq_true.
  rewrite (ok_key _ Hc1), (ok_key _ Hc2), Hn, Hh. by apply key_of_ext.
Qed.
