(* ===== verification/Cache.v ===== *)
(** * The cache and its expiration

    [saluki-core/src/cache/mod.rs] and [cache/expiry.rs]: a concurrent cache, which is the third-party
    [quick_cache] behind [RawCache], with idle-time expiration on the side.  Accesses and removals are
    queued, at most 128 of them, and applied to the table of last accesses when the queue is full or
    when the expiration driver runs; an access is stamped when it is applied.

    The operations are atomic here; [CacheThreads] has the steps of which the code makes them, with other threads in
    between, and shows that an operation that is not interrupted is the one of this file.  [CacheOps] and
    [CacheLaws] are what the clients of the cache rely on; [Cache] is proved to keep them. *)

From Stdlib Require Import ZArith Lia.
From stdpp Require Import base tactics list numbers gmap.
From S2P Require Import Prelude.
Open Scope Z_scope.

(** ** What clients rely on *)

Class CacheOps (K V : Type) := {
  cache : Type;
  cache_get : K -> cache -> option V * cache;
  cache_insert : K -> V -> cache -> cache;
}.

(** The contents are a map; a [get] answers from it, an [insert] may evict anything, and the cache may
    lose entries at any time ([loses]), but never invents one. *)
Class CacheLaws (K V : Type) `{Countable K} (O : CacheOps K V) := {
  contents : cache -> gmap K V;
  loses : cache -> cache -> Prop;
  get_result : forall k c, (cache_get k c).1 = contents c !! k;
  get_contents : forall k c, contents (cache_get k c).2 = contents c;
  insert_contents : forall k v c, contents (cache_insert k v c) ⊆ <[k := v]> (contents c);
  loses_contents : forall c c', loses c c' -> contents c' ⊆ contents c;
}.

(** ** The underlying cache *)

(** [quick_cache::sync::Cache] with its lifecycle hook: an insertion returns the keys that were evicted
    (an item that is too heavy is evicted at once), which are given to [on_evict]. *)
Class RawCache (K V : Type) `{Countable K} := {
  raw : Type;
  raw_map : raw -> gmap K V;
  raw_get : K -> raw -> option V * raw;
  raw_insert : K -> V -> raw -> raw * list K;
  raw_remove : K -> raw -> raw;
  raw_get_spec : forall k c, (raw_get k c).1 = raw_map c !! k /\ raw_map (raw_get k c).2 = raw_map c;
  raw_insert_spec : forall k v c,
    raw_map (raw_insert k v c).1 = filter (fun kv => kv.1 ∉ (raw_insert k v c).2) (<[k := v]> (raw_map c));
  raw_remove_spec : forall k c, raw_map (raw_remove k c) = delete k (raw_map c);
}.

(** ** Expiration *)

Section expiry.
Context {K : Type} `{Countable K}.

Inductive ExpirationOp :=
| Accessed (k : K)
| Removed (k : K).

Record Inner := { last_seen : gmap K Z; time_to_idle : Z }.
Record State := { inner : Inner; pending_ops : list ExpirationOp }.

Definition queue_capacity : nat := 128.
Definition State_new (ttl : Z) : State := {| inner := {| last_seen := ∅; time_to_idle := ttl |}; pending_ops := [] |}.

(** [coarse] is the coarse clock when the operation is applied; [AccessState] is its timestamp. *)
Definition process_operation (coarse : Z) (i : Inner) (op : ExpirationOp) : Inner :=
  match op with
  | Accessed k => {| last_seen := <[k := coarse]> (last_seen i); time_to_idle := time_to_idle i |}
  | Removed k => {| last_seen := delete k (last_seen i); time_to_idle := time_to_idle i |}
  end.

Definition process_pending_operations (coarse : Z) (pending_op : option ExpirationOp) (s : State) : State :=
  let i := foldl (process_operation coarse) (inner s) (pending_ops s) in
  {| inner := match pending_op with Some op => process_operation coarse i op | None => i end; pending_ops := [] |}.

(** [ArrayQueue::push] gives the operation back when the queue is full. *)
Definition push_op (coarse : Z) (op : ExpirationOp) (s : State) : State :=
  if (length (pending_ops s) <? queue_capacity)%nat then {| inner := inner s; pending_ops := pending_ops s ++ [op] |}
  else process_pending_operations coarse (Some op) s.

(** An [Expiration] that is disabled has no state. *)
Abbreviation Expiration := (option State).

Definition mark_entry_accessed (coarse : Z) (k : K) (e : Expiration) : Expiration := push_op coarse (Accessed k) <$> e.
Definition mark_entry_removed (coarse : Z) (k : K) (e : Expiration) : Expiration := push_op coarse (Removed k) <$> e.

Definition accessed_since (stamp since : Z) : bool := since <=? stamp.

(** The expired keys, in the order of the table; [now] is the exact clock. *)
Definition drain_expired_items (coarse now : Z) (e : Expiration) : list K * Expiration :=
  match e with
  | None => ([], None)
  | Some s =>
      let s := process_pending_operations coarse None s in
      let i := inner s in
      if now <? time_to_idle i then ([], Some s)
      else
        let cutoff := now - time_to_idle i in
        (fst <$> map_to_list (filter (fun kv => accessed_since kv.2 cutoff = false) (last_seen i)),
         Some {| inner := {| last_seen := filter (fun kv => accessed_since kv.2 cutoff = true) (last_seen i); time_to_idle := time_to_idle i |};
                 pending_ops := pending_ops s |})
  end.
End expiry.
Arguments ExpirationOp : clear implicits.
Arguments Inner K {_ _}.
Arguments State K {_ _}.

(** ** The cache *)

Section cache.
Context {K V : Type} `{RawCache K V}.

Record Cache := { raw_cache : raw; expiration : option (State K) }.

Definition Cache_insert (coarse : Z) (k : K) (v : V) (c : Cache) : Cache :=
  let '(r, evicted) := raw_insert k v (raw_cache c) in
  let e := foldl (fun e k => mark_entry_removed coarse k e) (expiration c) evicted in
  {| raw_cache := r; expiration := mark_entry_accessed coarse k e |}.

Definition Cache_get (coarse : Z) (k : K) (c : Cache) : option V * Cache :=
  let '(value, r) := raw_get k (raw_cache c) in
  (value, {| raw_cache := r;
             expiration := match value with Some _ => mark_entry_accessed coarse k (expiration c) | None => expiration c end |}).

Definition Cache_remove (coarse : Z) (k : K) (c : Cache) : Cache :=
  {| raw_cache := raw_remove k (raw_cache c); expiration := mark_entry_removed coarse k (expiration c) |}.

(** One round of [drive_expiration]. *)
Definition drive_expiration (coarse now : Z) (c : Cache) : Cache :=
  let '(expired, e) := drain_expired_items coarse now (expiration c) in
  foldl (fun c k => Cache_remove coarse k c) {| raw_cache := raw_cache c; expiration := e |} expired.
End cache.
Arguments Cache K V {_ _ _}.

(** ** Specification *)

Section specification.
Context {K V : Type} `{RawCache K V}.

Definition cached (c : Cache K V) : gmap K V := raw_map (raw_cache c).

(** The last accesses once everything that is queued is applied at clock [t]. *)
Definition settle (t : Z) (s : State K) : gmap K Z := last_seen (inner (process_pending_operations t None s)).

Inductive cache_op :=
| CInsert (k : K) (v : V)
| CGet (k : K)
| CRemove (k : K)
| CDrive (now : Z).

(** An operation at a coarse time. *)
Definition cache_run (c : Cache K V) '((t, op) : Z * cache_op) : Cache K V :=
  match op with
  | CInsert k v => Cache_insert t k v c
  | CGet k => (Cache_get t k c).2
  | CRemove k => Cache_remove t k c
  | CDrive now => drive_expiration t now c
  end.
Definition cache_script (ops : list (Z * cache_op)) (c : Cache K V) : Cache K V := foldl cache_run c ops.

(** When entries were last used: an insertion, or a [get] that found the entry. *)
Definition used (c : Cache K V) (acc : gmap K Z) '((t, op) : Z * cache_op) : gmap K Z :=
  match op with
  | CInsert k v => <[k := t]> (filter (fun kv => kv.1 ∉ (raw_insert k v (raw_cache c)).2) acc)
  | CGet k => match cached c !! k with Some _ => <[k := t]> acc | None => acc end
  | CRemove k => delete k acc
  | CDrive now => filter (fun kv => kv.1 ∉ (drain_expired_items t now (expiration c)).1) acc
  end.
Fixpoint last_used (ops : list (Z * cache_op)) (c : Cache K V) (acc : gmap K Z) : gmap K Z :=
  match ops with [] => acc | op :: ops' => last_used ops' (cache_run c op) (used c acc op) end.

(** Clocks do not go backwards. *)
Fixpoint ordered (t : Z) (ops : list (Z * cache_op)) : Prop :=
  match ops with [] => True | (t', _) :: ops' => t <= t' /\ ordered t' ops' end.
Fixpoint end_time (t : Z) (ops : list (Z * cache_op)) : Z :=
  match ops with [] => t | (t', _) :: ops' => end_time t' ops' end.

Definition Cache_new (r : raw) (ttl : Z) : Cache K V := {| raw_cache := r; expiration := Some (State_new ttl) |}.

(** ** Lemmas on the queue *)

Lemma settle_push t coarse op s :
  settle t (push_op coarse op s) =
    if (length (pending_ops s) <? queue_capacity)%nat then last_seen (process_operation t {| last_seen := settle t s; time_to_idle := 0 |} op)
    else last_seen (process_operation coarse {| last_seen := settle coarse s; time_to_idle := 0 |} op).
Proof.
  unfold push_op, settle. destruct (_ <? _)%nat; cbn [process_pending_operations inner pending_ops].
  - rewrite foldl_snoc. by destruct op.
  - by destruct op.
Qed.

Lemma process_operation_ttl t (i : Inner K) op : time_to_idle (process_operation t i op) = time_to_idle i.
Proof. by destruct op. Qed.

Lemma fold_ttl t ops (i : Inner K) : time_to_idle (foldl (process_operation t) i ops) = time_to_idle i.
Proof. revert i. induction ops as [|op ops IH]; intros i; [done|]. cbn [foldl]. by rewrite IH, process_operation_ttl. Qed.

Definition ttl_of (s : State K) : Z := time_to_idle (inner s).

Lemma push_ttl coarse op s : ttl_of (push_op coarse op s) = ttl_of s.
Proof.
  unfold push_op, ttl_of. destruct (_ <? _)%nat; [done|]. cbn [process_pending_operations inner].
  by rewrite process_operation_ttl, fold_ttl.
Qed.

(** What a state says about [k] from clock [t0] on: bounds of the stamp it will have. *)
Definition at_least (t0 : Z) (s : State K) (k : K) (a : Z) : Prop := forall t, t0 <= t -> exists stamp, settle t s !! k = Some stamp /\ a <= stamp.
Definition at_most (t0 : Z) (s : State K) (k : K) (p : Z -> Z) : Prop := forall t, t0 <= t -> forall stamp, settle t s !! k = Some stamp -> stamp <= p t.
Definition nondecreasing (p : Z -> Z) : Prop := forall t t', t <= t' -> p t <= p t'.

Lemma at_least_mono t0 t1 s k a : at_least t0 s k a -> t0 <= t1 -> at_least t1 s k a.
Proof. intros Ha Ht t Ht'. apply Ha. lia. Qed.
Lemma at_most_mono t0 t1 s k p : at_most t0 s k p -> t0 <= t1 -> at_most t1 s k p.
Proof. intros Ha Ht t Ht'. apply Ha. lia. Qed.

Definition op_key (op : ExpirationOp K) : K := match op with Accessed k | Removed k => k end.

Lemma at_least_push_ne coarse op s k a : op_key op <> k -> at_least coarse s k a -> at_least coarse (push_op coarse op s) k a.
Proof.
  intros Hne Ha t Ht. rewrite settle_push. destruct (_ <? _)%nat; [destruct (Ha t Ht) as (x & Hx & Hle)|destruct (Ha coarse) as (x & Hx & Hle); [lia|]];
    exists x; destruct op; cbn [process_operation last_seen op_key] in *; rewrite ?lookup_insert_ne, ?lookup_delete_ne by done; done.
Qed.

Lemma at_least_accessed coarse s k : at_least coarse (push_op coarse (Accessed k) s) k coarse.
Proof.
  intros t Ht. rewrite settle_push. destruct (_ <? _)%nat; cbn [process_operation last_seen]; rewrite lookup_insert_eq; eexists; split; try done; lia.
Qed.

(** An upper bound stays one unless the key is accessed, or when it grows with the clock. *)
Lemma at_most_push coarse op s k p : nondecreasing p -> op <> Accessed k \/ (forall t, t <= p t) ->
  at_most coarse s k p -> at_most coarse (push_op coarse op s) k p.
Proof.
  intros Hp Hop Ha t Ht x. rewrite settle_push.
  assert (Hcase : forall t', coarse <= t' -> last_seen (process_operation t' {| last_seen := settle t' s; time_to_idle := 0 |} op) !! k = Some x -> x <= p t').
  { intros t' Ht'. destruct op as [k'|k']; cbn [process_operation last_seen].
    - rewrite lookup_insert_Some. intros [[-> <-]|[_ Hx]]; [destruct Hop as [Hop|Hop]; [done|apply Hop]|by apply Ha].
    - rewrite lookup_delete_Some. intros [_ Hx]. by apply (Ha t'). }
  destruct (_ <? _)%nat; intros Hx; [by apply Hcase|]. apply Hcase in Hx; [|lia]. pose proof (Hp coarse t ltac:(lia)). lia.
Qed.

(** ** Lemmas on the operations *)

(** The invariant at clock [t0]: every entry that is cached has been used, and its last use is a lower
    bound of its stamp. *)
Record cache_inv (t0 : Z) (c : Cache K V) (acc : gmap K Z) : Prop := {
  inv_used : dom (cached c) ⊆ dom acc;
  inv_stamps : forall s k a, expiration c = Some s -> acc !! k = Some a -> at_least t0 s k a;
}.

Lemma marks_removed coarse ks e s : e = Some s -> exists s',
  foldl (fun e k => mark_entry_removed coarse k e) e ks = Some s' /\ ttl_of s' = ttl_of s /\
  (forall k a, k ∉ ks -> at_least coarse s k a -> at_least coarse s' k a) /\
  (forall k p, nondecreasing p -> at_most coarse s k p -> at_most coarse s' k p).
Proof.
  revert e s. induction ks as [|k ks IH]; intros e s He; [exists s; naive_solver|]. subst e. cbn [foldl mark_entry_removed fmap option_fmap option_map].
  destruct (IH (Some (push_op coarse (Removed k) s)) _ eq_refl) as (s' & -> & H2 & H3 & H4).
  exists s'. split_and!; [done|by rewrite H2, push_ttl| |].
  - intros k' a Hk' Ha. apply H3; [set_solver|]. apply at_least_push_ne; [|done]. cbn. set_solver.
  - intros k' p Hp Ha. apply H4; [done|]. apply at_most_push; [done|by left|done].
Qed.

Lemma marks_removed_None coarse (ks : list K) : foldl (fun e k => mark_entry_removed coarse k e) None ks = None.
Proof. by induction ks. Qed.

Lemma raw_insert_dom k v r : dom (raw_map (raw_insert k v r).1) ⊆ {[ k ]} ∪ filter (fun k' => k' ∉ (raw_insert k v r).2) (dom (raw_map r)).
Proof.
  rewrite raw_insert_spec. intros k' Hk'. apply elem_of_dom in Hk' as [x Hx]. apply map_lookup_filter_Some in Hx as [Hx Hn].
  cbn in Hn. apply lookup_insert_Some in Hx as [[-> _]|[Hne Hx]]; [set_solver|]. apply elem_of_union_r, elem_of_filter. split; [done|]. by eapply elem_of_dom_2.
Qed.

Lemma insert_inv t0 t c acc k v : cache_inv t0 c acc -> t0 <= t -> cache_inv t (Cache_insert t k v c) (used c acc (t, CInsert k v)).
Proof.
  intros [Hu Hs] Ht. unfold Cache_insert, used. destruct (raw_insert k v (raw_cache c)) as [r evicted] eqn:Er.
  pose proof (raw_insert_dom k v (raw_cache c)) as Hd. rewrite Er in Hd. cbn [fst snd] in Hd. constructor.
  - unfold cached. cbn [raw_cache snd]. rewrite dom_insert. intros k' Hk'. apply Hd in Hk'.
    apply elem_of_union in Hk' as [Hk'|[Hn Hk']%elem_of_filter]; [set_solver|]. apply elem_of_union_r.
    apply Hu, elem_of_dom in Hk' as [x Hx]. apply elem_of_dom. exists x. by apply map_lookup_filter_Some.
  - cbn [expiration snd]. intros s k' a He Ha. destruct (expiration c) as [s0|] eqn:E0; [|by rewrite marks_removed_None in He].
    destruct (marks_removed t evicted (Some s0) s0 eq_refl) as (s1 & Hs1 & _ & Hl & _). rewrite Hs1 in He. injection He as <-.
    apply lookup_insert_Some in Ha as [[-> <-]|[Hne Ha]]; [apply at_least_accessed|].
    apply map_lookup_filter_Some in Ha as [Ha Hev]. apply at_least_push_ne; [done|]. apply Hl; [done|].
    eapply at_least_mono; [by eapply Hs|done].
Qed.

Lemma get_inv t0 t c acc k : cache_inv t0 c acc -> t0 <= t -> cache_inv t (Cache_get t k c).2 (used c acc (t, CGet k)).
Proof.
  intros [Hu Hs] Ht. unfold Cache_get, used. destruct (raw_get k (raw_cache c)) as [v r] eqn:Er.
  pose proof (raw_get_spec k (raw_cache c)) as [Hv Hr]. rewrite Er in Hv, Hr. cbn [fst snd] in *.
  assert (Hv' : cached c !! k = v) by (unfold cached; by rewrite Hv). rewrite Hv'. constructor.
  - unfold cached at 1. cbn [raw_cache]. rewrite Hr. fold (cached c). destruct v; [|done]. rewrite dom_insert. set_solver.
  - cbn [expiration]. intros s k' a He Ha. destruct v as [x|]; [|eapply at_least_mono; [by eapply Hs|done]].
    destruct (expiration c) as [s0|] eqn:E0; [|done]. injection He as <-.
    apply lookup_insert_Some in Ha as [[-> <-]|[Hne Ha]]; [apply at_least_accessed|].
    apply at_least_push_ne; [done|]. eapply at_least_mono; [by eapply Hs|done].
Qed.

Lemma remove_inv t0 t c acc k : cache_inv t0 c acc -> t0 <= t -> cache_inv t (Cache_remove t k c) (delete k acc).
Proof.
  intros [Hu Hs] Ht. unfold Cache_remove. constructor.
  - unfold cached. cbn [raw_cache]. rewrite raw_remove_spec, !dom_delete_L. set_solver.
  - cbn [expiration]. intros s k' a He Ha. destruct (expiration c) as [s0|] eqn:E0; [|done]. injection He as <-.
    apply lookup_delete_Some in Ha as [Hne Ha]. apply at_least_push_ne; [done|]. eapply at_least_mono; [by eapply Hs|done].
Qed.

Lemma settle_processed t' t s : settle t' (process_pending_operations t None s) = settle t s.
Proof. done. Qed.

Lemma foldl_remove t ks (c : Cache K V) :
  cached (foldl (fun c k => Cache_remove t k c) c ks) = filter (fun kv => kv.1 ∉ ks) (cached c) /\
  expiration (foldl (fun c k => Cache_remove t k c) c ks) = foldl (fun e k => mark_entry_removed t k e) (expiration c) ks.
Proof.
  revert c. induction ks as [|k ks IH]; intros c; cbn [foldl].
  { split; [|done]. symmetry. apply map_filter_id. intros; cbn; set_solver. }
  destruct (IH (Cache_remove t k c)) as [-> ->]. split; [|done]. unfold cached. cbn [Cache_remove raw_cache]. rewrite raw_remove_spec.
  apply map_eq. intros k'. apply option_eq. intros x. rewrite !map_lookup_filter_Some, lookup_delete_Some. cbn. set_solver.
Qed.

(** The keys that one round expires, and what it leaves behind. *)
Definition expired (t now : Z) (s : State K) : list K := (drain_expired_items t now (Some s)).1.

Lemma elem_of_expired t now s k : k ∈ expired t now s <-> ttl_of s <= now /\ exists stamp, settle t s !! k = Some stamp /\ stamp < now - ttl_of s.
Proof.
  unfold expired, drain_expired_items. cbn [process_pending_operations inner]. rewrite fold_ttl. fold (ttl_of s).
  destruct (Z.ltb_spec now (ttl_of s)); cbn [fst]; [set_solver by lia|]. rewrite list_elem_of_fmap. split.
  - intros ([k' x] & -> & Hin). apply elem_of_map_to_list, map_lookup_filter_Some in Hin as [Hx Hs]. split; [done|]. exists x.
    split; [done|]. cbn in Hs. unfold accessed_since in Hs. bool_cases. lia.
  - intros (_ & x & Hx & Hlt). exists (k, x). split; [done|]. apply elem_of_map_to_list, map_lookup_filter_Some. split; [done|].
    cbn. unfold accessed_since. apply Z.leb_gt. lia.
Qed.

Lemma drained_state t now s : exists s', (drain_expired_items t now (Some s)).2 = Some s' /\ ttl_of s' = ttl_of s /\
  forall t' k, settle t' s' !! k = if bool_decide (k ∈ expired t now s) then None else settle t s !! k.
Proof.
  assert (Hin : forall k, bool_decide (k ∈ expired t now s) = true <-> ttl_of s <= now /\ exists stamp, settle t s !! k = Some stamp /\ stamp < now - ttl_of s).
  { intros k. by rewrite bool_decide_eq_true, elem_of_expired. }
  unfold drain_expired_items. cbn [process_pending_operations inner]. rewrite fold_ttl. fold (ttl_of s).
  destruct (Z.ltb_spec now (ttl_of s)) as [Hlt|Hge]; eexists; (split; [done|]); (split; [unfold ttl_of; cbn; by rewrite ?fold_ttl|]); intros t' k.
  - destruct (bool_decide _) eqn:E; [apply Hin in E; lia|done].
  - unfold settle at 1. cbn [process_pending_operations inner pending_ops foldl last_seen].
    change (last_seen (foldl (process_operation t) (inner s) (pending_ops s))) with (settle t s).
    destruct (bool_decide _) eqn:E.
    + apply map_lookup_filter_None. right. intros x Hx. cbn. apply Hin in E as (_ & y & Hy & Hlt). unfold accessed_since.
      assert (x = y) as -> by congruence. rewrite not_true_iff_false. apply Z.leb_gt. lia.
    + destruct (settle t s !! k) as [x|] eqn:Ex; [|apply map_lookup_filter_None; by left].
      apply map_lookup_filter_Some. split; [done|]. cbn. apply Z.leb_le. destruct (decide (now - ttl_of s <= x)); [lia|].
      assert (Hb : bool_decide (k ∈ expired t now s) = true); [|congruence]. apply Hin. split; [done|]. exists x. split; [done|lia].
Qed.

(** One round, for a cache that expires. *)
Lemma drive_spec t now c s : expiration c = Some s -> exists s',
  cached (drive_expiration t now c) = filter (fun kv => kv.1 ∉ expired t now s) (cached c) /\
  expiration (drive_expiration t now c) = Some s' /\ ttl_of s' = ttl_of s /\
  (forall k a, k ∉ expired t now s -> at_least t s k a -> at_least t s' k a) /\
  (forall k p, nondecreasing p -> at_most t s k p -> at_most t s' k (fun _ => p t)).
Proof.
  intros He. unfold drive_expiration. rewrite He. destruct (drained_state t now s) as (s1 & Hs1 & Httl & Hset).
  fold (expired t now s). destruct (drain_expired_items t now (Some s)) as [ks e] eqn:Ed.
  assert (Hks : expired t now s = ks) by (unfold expired; by rewrite Ed). cbn [snd] in Hs1. subst e.
  destruct (foldl_remove t ks {| raw_cache := raw_cache c; expiration := Some s1 |}) as [Hc He'].
  destruct (marks_removed t ks (Some s1) s1 eq_refl) as (s' & Hs' & Httl' & Hl & Hm).
  rewrite Hc, He', Hks in *. cbn [expiration]. rewrite Hs'. exists s'. split_and!; [done|done|congruence| |].
  - intros k a Hk Ha. apply Hl; [done|]. intros t' Ht'. rewrite Hset, bool_decide_false by done. apply Ha. lia.
  - intros k p Hp Ha. apply Hm; [by intros x y Hxy|]. intros t' Ht' x. rewrite Hset. case_bool_decide; [done|]. apply Ha. lia.
Qed.

Lemma drive_inv t0 t now c acc : cache_inv t0 c acc -> t0 <= t -> cache_inv t (drive_expiration t now c) (used c acc (t, CDrive now)).
Proof.
  intros [Hu Hs] Ht. unfold used. destruct (expiration c) as [s|] eqn:He.
  - destruct (drive_spec t now c s He) as (s' & Hc & He' & _ & Hl & _). fold (expired t now s). constructor.
    + rewrite Hc. intros k Hk. apply elem_of_dom in Hk as [x [Hx Hn]%map_lookup_filter_Some]. cbn in Hn.
      assert (Hk : k ∈ dom acc) by (apply Hu; by eapply elem_of_dom_2). apply elem_of_dom in Hk as [y Hy].
      apply elem_of_dom. exists y. by apply map_lookup_filter_Some.
    + intros s0 k a Hs0 [Ha Hn]%map_lookup_filter_Some. cbn in Hn. rewrite He' in Hs0. injection Hs0 as <-.
      apply Hl; [done|]. eapply at_least_mono; [by eapply Hs|done].
  - cbn [drain_expired_items fst]. rewrite map_filter_id by (intros; cbn; set_solver).
    unfold drive_expiration. rewrite He. cbn [drain_expired_items foldl]. constructor; [done|]. cbn [expiration]. done.
Qed.

Lemma run_inv t0 c acc t op : cache_inv t0 c acc -> t0 <= t -> cache_inv t (cache_run c (t, op)) (used c acc (t, op)).
Proof. intros Hi Ht. destruct op; [by eapply insert_inv|by eapply get_inv|by eapply remove_inv|by eapply drive_inv]. Qed.

Lemma script_inv ops t0 c acc : cache_inv t0 c acc -> ordered t0 ops -> cache_inv (end_time t0 ops) (cache_script ops c) (last_used ops c acc).
Proof.
  revert t0 c acc. induction ops as [|[t op] ops IH]; intros t0 c acc Hi; [done|]. cbn [ordered end_time last_used]. intros [Ht Ho].
  apply (IH t); [by eapply run_inv|done].
Qed.

(** Operations that use the entry of [k]. *)
Definition touches (k : K) (op : cache_op) : bool :=
  match op with CInsert k' _ | CGet k' => bool_decide (k' = k) | _ => false end.

Lemma run_at_most c s t op : expiration c = Some s -> exists s', expiration (cache_run c (t, op)) = Some s' /\ ttl_of s' = ttl_of s /\
  forall k p, nondecreasing p -> touches k op = false \/ (forall t, t <= p t) -> at_most t s k p -> at_most t s' k p.
Proof.
  intros He. destruct op as [k' v|k'|k'|now]; cbn [cache_run touches].
  - unfold Cache_insert. destruct (raw_insert k' v (raw_cache c)) as [r ev]. cbn [expiration]. rewrite He.
    destruct (marks_removed t ev (Some s) s eq_refl) as (s1 & -> & Httl & _ & Hm). eexists. split; [done|]. split; [by rewrite push_ttl|].
    intros k p Hp Hop Ha. apply at_most_push; [done| |by apply Hm]. destruct Hop as [Hop%bool_decide_eq_false|Hop]; [left; congruence|by right].
  - unfold Cache_get. destruct (raw_get k' (raw_cache c)) as [[v|] r]; cbn [expiration snd]; rewrite He; eexists; (split; [done|]); [|naive_solver].
    split; [by rewrite push_ttl|]. intros k p Hp Hop Ha. apply at_most_push; [done| |done].
    destruct Hop as [Hop%bool_decide_eq_false|Hop]; [left; congruence|by right].
  - unfold Cache_remove. cbn [expiration]. rewrite He. eexists. split; [done|]. split; [by rewrite push_ttl|].
    intros k p Hp _ Ha. apply at_most_push; [done|by left|done].
  - destruct (drive_spec t now c s He) as (s' & _ & He' & Httl & _ & Hm). exists s'. split_and!; [done..|]. intros k p Hp _ Ha t' Ht' x Hx.
    specialize (Hm k p Hp Ha t' Ht' x Hx). pose proof (Hp t t' ltac:(lia)). cbn in Hm. lia.
Qed.

Lemma script_at_most ops t0 c s k p : expiration c = Some s -> nondecreasing p -> ordered t0 ops ->
  Forall (fun op => touches k op.2 = false) ops \/ (forall t, t <= p t) -> at_most t0 s k p ->
  exists s', expiration (cache_script ops c) = Some s' /\ ttl_of s' = ttl_of s /\ at_most (end_time t0 ops) s' k p.
Proof.
  revert t0 c s. induction ops as [|[t op] ops IH]; intros t0 c s He Hp; cbn [ordered end_time]; [naive_solver|]. intros [Ht Ho] Hop Ha.
  destruct (run_at_most c s t op He) as (s1 & He1 & Httl & Hm).
  destruct (IH t (cache_run c (t, op)) s1 He1 Hp Ho) as (s' & H1 & H2 & H3).
  - destruct Hop as [Hop|Hop]; [left|by right]. by apply Forall_cons in Hop as [_ Hop].
  - apply Hm; [done| |by eapply at_most_mono]. destruct Hop as [Hop|Hop]; [left|by right]. by apply Forall_cons in Hop as [Hop _].
  - exists s'. split_and!; [done|congruence|done].
Qed.

Lemma new_inv t0 r ttl : raw_map r = ∅ -> cache_inv t0 (Cache_new r ttl) ∅.
Proof. intros Hr. constructor; [unfold cached; cbn; rewrite Hr; set_solver|]. intros s k a _ Ha. by rewrite lookup_empty in Ha. Qed.

Lemma new_at_most t0 ttl k p : at_most t0 (State_new ttl) k p.
Proof. intros t _ x Hx. unfold settle in Hx. cbn in Hx. by rewrite lookup_empty in Hx. Qed.

Lemma ordered_app t0 ops1 ops2 : ordered t0 (ops1 ++ ops2) <-> ordered t0 ops1 /\ ordered (end_time t0 ops1) ops2.
Proof. revert t0. induction ops1 as [|[t op] ops IH]; intros t0; cbn; [naive_solver|]. rewrite IH. naive_solver. Qed.

Lemma end_time_app t0 ops1 ops2 : end_time t0 (ops1 ++ ops2) = end_time (end_time t0 ops1) ops2.
Proof. revert t0. induction ops1 as [|[t op] ops IH]; intros t0; [done|]. apply IH. Qed.

Lemma cache_script_app ops1 ops2 c : cache_script (ops1 ++ ops2) c = cache_script ops2 (cache_script ops1 c).
Proof. apply foldl_app. Qed.

(** ** Theorems *)

(** C30: the expiration driver does not take an entry away that was used within the time to idle: after
    any sequence of insertions, lookups, removals, evictions and rounds of the driver, an entry whose
    last use (its insertion, or a lookup that found it) is not older than the time to idle at a round
    of the driver is still there after it, although uses are queued and stamped later.  The operations
    are atomic; [CacheThreads.used_entry_is_taken_away] is a use in the middle of a round. *)
Theorem recently_used_entries_survive (r : raw) (ttl t0 : Z) (ops : list (Z * cache_op)) (t now a : Z) (k : K)
    (Hempty : raw_map r = ∅) (Hordered : ordered t0 (ops ++ [(t, CDrive now)])) :
  let c := cache_script ops (Cache_new r ttl) in
  last_used ops (Cache_new r ttl) ∅ !! k = Some a -> now - ttl <= a ->
  cached (drive_expiration t now c) !! k = cached c !! k.
Proof.
  intros c Hused Hrecent. apply ordered_app in Hordered as [Ho [Ht _]].
  destruct (script_inv ops t0 (Cache_new r ttl) ∅ (new_inv t0 r ttl Hempty) Ho) as [_ Hs]. fold c in Hs.
  destruct (script_at_most ops t0 (Cache_new r ttl) (State_new ttl) k (fun t => t) eq_refl) as (s & He & Httl & _).
  { by intros x y Hxy. } { done. } { by right. } { apply new_at_most. }
  fold c in He. destruct (drive_spec t now c s He) as (s' & -> & _). apply option_eq. intros x. rewrite map_lookup_filter_Some. cbn.
  split; [naive_solver|]. intros Hx. split; [done|]. rewrite elem_of_expired. intros (_ & stamp & Hst & Hlt).
  destruct (Hs s k a He Hused t Ht) as (y & Hy & Hle). change (ttl_of (State_new ttl)) with ttl in Httl. rewrite Httl in Hlt.
  assert (stamp = y) as -> by congruence. lia.
Qed.

End specification.
Arguments cache_op : clear implicits.

(** ** The interface *)

(** A cache at a coarse time; time passes, and the driver may run, between the calls of a client. *)
Section interface.
Context {K V : Type} `{RawCache K V}.

#[export] Instance cache_ops : CacheOps K V := {|
  cache := Cache K V * Z;
  cache_get := fun k '(c, t) => let '(v, c') := Cache_get t k c in (v, (c', t));
  cache_insert := fun k v '(c, t) => (Cache_insert t k v c, t);
|}.

Definition cache_loses (x y : Cache K V * Z) : Prop :=
  x.2 <= y.2 /\ (y.1 = x.1 \/ exists now, y.1 = drive_expiration y.2 now x.1).

#[export, program] Instance cache_laws : CacheLaws K V cache_ops := {|
  contents := fun x => cached x.1;
  loses := cache_loses;
|}.
Next Obligation.
  intros k [c t]. cbn. unfold Cache_get. pose proof (raw_get_spec k (raw_cache c)) as [Hv _].
  by destruct (raw_get k (raw_cache c)).
Qed.
Next Obligation.
  intros k [c t]. cbn. unfold Cache_get. pose proof (raw_get_spec k (raw_cache c)) as [_ Hr].
  by destruct (raw_get k (raw_cache c)).
Qed.
Next Obligation.
  intros k v [c t]. cbn. unfold Cache_insert. pose proof (raw_insert_spec k v (raw_cache c)) as Hr.
  destruct (raw_insert k v (raw_cache c)). unfold cached. cbn in *. rewrite Hr. apply map_filter_subseteq.
Qed.
Next Obligation.
  intros [c t] [c' t'] [_ [Hc|[now Hc]]]; cbn in *; subst c'; [done|]. destruct (expiration c) as [s|] eqn:He.
  - destruct (drive_spec t' now c s He) as (s' & -> & _). apply map_filter_subseteq.
  - unfold drive_expiration. by rewrite He.
Qed.
End interface.

(** ** A bounded cache that forgets its oldest key *)

Section fifo.
Context {K V : Type} `{Countable K} (limit : nat).

Definition fifo_map (l : list (K * V)) : gmap K V := list_to_map l.

Lemma fifo_map_filter (P : K * V -> Prop) `{forall kv, Decision (P kv)} l : (forall k v v', P (k, v) -> P (k, v')) ->
  fifo_map (filter P l) = filter P (fifo_map l).
Proof.
  intros HP. induction l as [|[k v] l IH]; [symmetry; apply map_filter_empty|]. rewrite filter_cons. unfold fifo_map in *.
  cbn [list_to_map foldr uncurry]. case_decide as Hk.
  - cbn [list_to_map foldr uncurry]. rewrite IH. by rewrite map_filter_insert_True.
  - rewrite IH. rewrite map_filter_insert_not; [done|]. intros y Hy. by eapply Hk, HP.
Qed.

Lemma fifo_map_delete k l : fifo_map (filter (fun kv => kv.1 <> k) l) = delete k (fifo_map l).
Proof.
  rewrite fifo_map_filter by done. apply map_eq. intros k'. apply option_eq. intros x.
  rewrite map_lookup_filter_Some, lookup_delete_Some. cbn. naive_solver.
Qed.

#[program] Definition fifo : RawCache K V := {|
  raw := list (K * V);
  raw_map := fifo_map;
  raw_get := fun k l => (fifo_map l !! k, l);
  raw_insert := fun k v l =>
    let l' := (k, v) :: filter (fun kv => kv.1 <> k) l in
    (filter (fun kv => kv.1 ∉ drop limit (l'.*1)) l', drop limit (l'.*1));
  raw_remove := fun k l => filter (fun kv => kv.1 <> k) l;
|}.
Next Obligation. done. Qed.
Next Obligation.
  intros k v l. cbn [fst snd]. rewrite fifo_map_filter by done. f_equal. unfold fifo_map at 1. cbn [list_to_map foldr uncurry].
  fold (fifo_map (filter (fun kv => kv.1 <> k) l)). rewrite fifo_map_delete. apply insert_delete_eq.
Qed.
Next Obligation. intros k l. apply fifo_map_delete. Qed.
End fifo.

(** ** Witnesses and examples *)

Definition small : RawCache Z Z := fifo 2.
Definition no_entries : @raw Z Z _ _ small := [].

Lemma recently_used_entries_survive_witness :
  let ops := [(100, CInsert 1 10); (125, CGet 1)] in
  let c := @cache_script Z Z _ _ small ops (@Cache_new Z Z _ _ small no_entries 30) in
  @cached Z Z _ _ small (@drive_expiration Z Z _ _ small 150 150 c) !! 1 = Some 10.
Proof.
  cbn zeta. etrans.
  - apply (@recently_used_entries_survive Z Z _ _ small no_entries 30 0 [(100, CInsert 1 10); (125, CGet 1)] 150 150 125 1);
      [reflexivity|cbn; lia|vm_compute; reflexivity|lia].
  - vm_compute. reflexivity.
Defined.
