(* ===== verification/CacheThreads.v ===== *)
(** * CacheThreads: the cache under concurrent use

    [Cache] treats the operations of [saluki-core/src/cache/mod.rs] as atomic.  Here they are what the code makes of them:
    an operation accesses the raw cache and then queues what it did, an eviction queues one removal after the other,
    the driver drains the expired keys and then removes them one by one, and other threads run in between.  The queue
    takes operations at any time; the table of last accesses belongs to the thread that holds its lock, which takes
    the queue apart one operation at a time.  A run is a list of labels that say which thread goes next. *)

From Stdlib Require Import ZArith Lia.
From stdpp Require Import base tactics list numbers gmap.
From S2P Require Import Prelude Cache.
Open Scope Z_scope.

Section threads.
Context {K V : Type} `{RawCache K V}.

(** ** Threads *)

(** What a thread has left to do of its operation, the first action first *)
Inductive Act :=
| AInsert (k : K) (v : V)            (* [cache.insert] *)
| AGet (k : K)                       (* [cache.get] *)
| ARemove (k : K)                    (* [cache.remove] *)
| APush (op : ExpirationOp K)        (* [pending_ops.push] *)
| AProcess (op : ExpirationOp K)     (* [process_pending_operations], with what did not fit *)
| ADrain.                            (* [drain_expired_items] *)

(** [lock] is held by a thread, with whether it has seen the queue empty; [clock] is the coarse clock. *)
Record Sys := {
  raw_part : raw;
  table : Inner K;
  queue : list (ExpirationOp K);
  lock : option (nat * bool);
  threads : gmap nat (list Act);
  clock : Z;
}.

Definition Sys_new (r : raw) (ttl t0 : Z) : Sys :=
  {| raw_part := r; table := {| last_seen := ∅; time_to_idle := ttl |}; queue := []; lock := None; threads := ∅; clock := t0 |}.

Definition todo (s : Sys) (i : nat) : list Act := default [] (threads s !! i).

Definition with_todo (i : nat) (l : list Act) (s : Sys) : Sys :=
  {| raw_part := raw_part s; table := table s; queue := queue s; lock := lock s; threads := <[i := l]> (threads s); clock := clock s |}.
Definition with_raw (r : raw) (s : Sys) : Sys :=
  {| raw_part := r; table := table s; queue := queue s; lock := lock s; threads := threads s; clock := clock s |}.
Definition with_lock (l : option (nat * bool)) (s : Sys) : Sys :=
  {| raw_part := raw_part s; table := table s; queue := queue s; lock := l; threads := threads s; clock := clock s |}.
Definition with_table (i : Inner K) (q : list (ExpirationOp K)) (s : Sys) : Sys :=
  {| raw_part := raw_part s; table := i; queue := q; lock := lock s; threads := threads s; clock := clock s |}.

(** The cutoff and [extract_if], with the lock held and the queue processed; [now] is the exact clock. *)
Definition extract_expired (now : Z) (i : Inner K) : list K * Inner K :=
  if now <? time_to_idle i then ([], i)
  else
    let cutoff := now - time_to_idle i in
    (fst <$> map_to_list (filter (fun kv => accessed_since kv.2 cutoff = false) (last_seen i)),
     {| last_seen := filter (fun kv => accessed_since kv.2 cutoff = true) (last_seen i); time_to_idle := time_to_idle i |}).

(** A thread that needs the lock takes it when it is free, takes the queue apart, sees that it is empty, and ends what it
    wanted the lock for.  Another thread that wants it waits. *)
Definition locked (i : nat) (finish : Sys -> Sys) (s : Sys) : option Sys :=
  match lock s with
  | None => Some (with_lock (Some (i, false)) s)
  | Some (j, emptied) =>
      if (j =? i)%nat then
        if emptied then Some (with_lock None (finish s))
        else
          match queue s with
          | op :: q => Some (with_table (process_operation (clock s) (table s) op) q s)
          | [] => Some (with_lock (Some (i, true)) s)
          end
      else None
  end.

Inductive Label :=
| Begin (i : nat) (a : Act)
| Go (i : nat) (now : Z)
| Tick (t : Z).

(** What a thread may begin: a call of a client, or a round of the driver. *)
Definition is_call (a : Act) : bool := match a with APush _ | AProcess _ => false | _ => true end.

(** The actions of thread [i], with what it does after them.  [insert] and [get] go on to tell the expiration, after the
    evicted keys; a removal, by a call or by the driver, tells it too. *)
Definition insert_action (i : nat) (k : K) (v : V) (rest : list Act) (s : Sys) : Sys :=
  let '(r, evicted) := raw_insert k v (raw_part s) in
  with_todo i ((APush ∘ Removed <$> evicted) ++ APush (Accessed k) :: rest) (with_raw r s).

Definition get_action (i : nat) (k : K) (rest : list Act) (s : Sys) : Sys :=
  let '(value, r) := raw_get k (raw_part s) in
  with_todo i (match value with Some _ => APush (Accessed k) :: rest | None => rest end) (with_raw r s).

Definition remove_action (i : nat) (k : K) (rest : list Act) (s : Sys) : Sys :=
  with_todo i (APush (Removed k) :: rest) (with_raw (raw_remove k (raw_part s)) s).

(** An operation that does not fit into the queue is processed after what is in there. *)
Definition push_action (i : nat) (op : ExpirationOp K) (rest : list Act) (s : Sys) : Sys :=
  if (length (queue s) <? queue_capacity)%nat then with_todo i rest (with_table (table s) (queue s ++ [op]) s)
  else with_todo i (AProcess op :: rest) s.

Definition process_action (i : nat) (op : ExpirationOp K) (rest : list Act) (s : Sys) : option Sys :=
  locked i (fun s => with_todo i rest (with_table (process_operation (clock s) (table s) op) (queue s) s)) s.

(** A drain ends at the exact time [now]; the driver removes what it got, key by key. *)
Definition drain_action (i : nat) (now : Z) (rest : list Act) (s : Sys) : option Sys :=
  locked i (fun s => let '(expired, inner) := extract_expired now (table s) in
                     with_todo i ((ARemove <$> expired) ++ rest) (with_table inner (queue s) s)) s.

Definition go (i : nat) (now : Z) (s : Sys) : option Sys :=
  match todo s i with
  | [] => None
  | AInsert k v :: rest => Some (insert_action i k v rest s)
  | AGet k :: rest => Some (get_action i k rest s)
  | ARemove k :: rest => Some (remove_action i k rest s)
  | APush op :: rest => Some (push_action i op rest s)
  | AProcess op :: rest => process_action i op rest s
  | ADrain :: rest => drain_action i now rest s
  end.

Definition do_step (l : Label) (s : Sys) : option Sys :=
  match l with
  | Begin i a => if is_call a && bool_decide (todo s i = []) then Some (with_todo i [a] s) else None
  | Go i now => go i now s
  | Tick t => if clock s <=? t then Some {| raw_part := raw_part s; table := table s; queue := queue s; lock := lock s;
                                             threads := threads s; clock := t |} else None
  end.

Fixpoint exec (ls : list Label) (s : Sys) : option Sys :=
  match ls with [] => Some s | l :: ls' => s' ← do_step l s; exec ls' s' end.

(** A condition on every step of a run *)
Fixpoint along (Q : Label -> Sys -> bool) (ls : list Label) (s : Sys) : bool :=
  match ls with
  | [] => true
  | l :: ls' => Q l s && match do_step l s with Some s' => along Q ls' s' | None => true end
  end.

(** ** Conditions *)

Definition is_op (o o' : ExpirationOp K) : bool :=
  match o, o' with
  | Accessed k, Accessed k' | Removed k, Removed k' => bool_decide (k = k')
  | _, _ => false
  end.

(** The action will tell the expiration [o]. *)
Definition will_tell (o : ExpirationOp K) (a : Act) : bool := match a with APush o' | AProcess o' => is_op o o' | _ => false end.
Definition uses (k : K) (a : Act) : bool := match a with AInsert k' _ | AGet k' => bool_decide (k' = k) | _ => false end.

Definition some_thread (p : Act -> bool) (s : Sys) : bool := existsb (fun x : nat * list Act => existsb p x.2) (map_to_list (threads s)).

(** No insertion of [k] while a removal of [k], by a call, an eviction or the driver, is still to be told to the expiration *)
Definition no_overlap (k : K) (l : Label) (s : Sys) : bool :=
  match l with
  | Go i _ =>
      match todo s i with
      | AInsert k' _ :: _ => negb (bool_decide (k' = k)) || negb (some_thread (will_tell (Removed k)) s)
      | _ => true
      end
  | _ => true
  end.

(** Nobody is about to use the entry of [k], or has used it without that being in the table. *)
Definition unused (k : K) (s : Sys) : bool :=
  negb (some_thread (fun a => uses k a || will_tell (Accessed k) a) s) && negb (existsb (is_op (Accessed k)) (queue s)).



Definition cached_in (s : Sys) : gmap K V := raw_map (raw_part s).

#[local] Ltac unfold_go := unfold go, insert_action, get_action, remove_action, push_action, process_action, drain_action.

(** ** Pending actions *)





Lemma todo_with i l s : todo (with_todo i l s) i = l.
Proof. unfold todo. cbn. by rewrite lookup_insert_eq. Qed.






(** ** What the queue makes of an entry *)

Definition after_op (k : K) (op : ExpirationOp K) (present : bool) : bool :=
  if is_op (Accessed k) op then true else if is_op (Removed k) op then false else present.
Definition settled (k : K) (q : list (ExpirationOp K)) (present : bool) : bool := foldl (fun b op => after_op k op b) present q.
Definition in_table (k : K) (i : Inner K) : bool := bool_decide (is_Some (last_seen i !! k)).
Definition tracked (k : K) (s : Sys) : bool := settled k (queue s) (in_table k (table s)).

#[local] Arguments settled : simpl never.






(** ** The invariant *)






















(** ** Stamps *)









(** ** While an entry is not used *)




















(** ** Idle entries *)


(** ** Without interruption

    A thread that is not interrupted does what the operation of [Cache] does in one step. *)

Definition state_of (s : Sys) : State K := {| inner := table s; pending_ops := queue s |}.
Definition cache_of (s : Sys) : Cache K V := {| raw_cache := raw_part s; expiration := Some (state_of s) |}.

Definition act_of (op : cache_op K V) : Act :=
  match op with CInsert k v => AInsert k v | CGet k => AGet k | CRemove k => ARemove k | CDrive _ => ADrain end.

Definition now_of (op : cache_op K V) : Z := match op with CDrive now => now | _ => 0 end.

Definition alone (i : nat) (now : Z) (s s' : Sys) : Prop := exists n, exec (replicate n (Go i now)) s = Some s'.

Lemma exec_app ls1 ls2 s : exec (ls1 ++ ls2) s = s1 ← exec ls1 s; exec ls2 s1.
Proof. revert s. induction ls1 as [|l ls IH]; intros s; [done|]. cbn. destruct (do_step l s); [apply IH|done]. Qed.

Lemma alone_trans i now s1 s2 s3 : alone i now s1 s2 -> alone i now s2 s3 -> alone i now s1 s3.
Proof. intros [n Hn] [m Hm]. exists (n + m)%nat. by rewrite replicate_add, exec_app, Hn. Qed.

Lemma alone_go i now s s' : go i now s = Some s' -> alone i now s s'.
Proof. intros Hg. exists 1%nat. cbn. by rewrite Hg. Qed.

Lemma pops_alone i now s : lock s = Some (i, false) -> (exists rest, todo s i = ADrain :: rest \/ exists op, todo s i = AProcess op :: rest) ->
  alone i now s (with_lock (Some (i, true)) (with_table (foldl (process_operation (clock s)) (table s) (queue s)) [] s)).
Proof.
  remember (queue s) as q eqn:Eq. revert s Eq. induction q as [|op q IH]; intros s Eq El Hh.
  - apply alone_go. unfold_go. destruct Hh as (rest & [->|[op ->]]); unfold locked; rewrite El, Nat.eqb_refl, <- Eq; by destruct s; cbn in *; subst.
  - eapply alone_trans; [apply alone_go|].
    + unfold_go. destruct Hh as (rest & [->|[op' ->]]); unfold locked; rewrite El, Nat.eqb_refl, <- Eq; reflexivity.
    + exact (IH (with_table (process_operation (clock s) (table s) op) q s) eq_refl El Hh).
Qed.

Lemma lock_alone i now s rest : lock s = None -> (todo s i = ADrain :: rest \/ exists op, todo s i = AProcess op :: rest) ->
  alone i now s (with_lock (Some (i, true)) (with_table (foldl (process_operation (clock s)) (table s) (queue s)) [] s)).
Proof.
  intros El Hh. eapply alone_trans; [apply alone_go|].
  - unfold_go. destruct Hh as [->|[op ->]]; unfold locked; rewrite El; reflexivity.
  - apply (pops_alone i now (with_lock (Some (i, false)) s)); [done|by exists rest].
Qed.

(** After [s], thread [i] is at [rest], and nothing else has changed but the expiration. *)
Definition told (i : nat) (rest : list Act) (e : State K) (s s' : Sys) : Prop :=
  raw_part s' = raw_part s /\ clock s' = clock s /\ lock s' = None /\ todo s' i = rest /\ state_of s' = e.

Lemma push_alone i now op rest s : lock s = None -> todo s i = APush op :: rest ->
  exists s', alone i now s s' /\ told i rest (push_op (clock s) op (state_of s)) s s'.
Proof.
  intros El Et. unfold push_op. cbn [state_of pending_ops]. destruct (length (queue s) <? queue_capacity)%nat eqn:Eq.
  - eexists. split; [apply alone_go; unfold_go; rewrite Et, Eq; reflexivity|]. split_and!; try done. apply todo_with.
  - set (s1 := with_todo i (AProcess op :: rest) s). eexists. split.
    + eapply alone_trans; [apply alone_go; unfold_go; rewrite Et, Eq; reflexivity|]. fold s1. eapply alone_trans.
      * apply (lock_alone i now s1 rest); [done|right; exists op; apply todo_with].
      * apply alone_go. unfold_go. set (s2 := with_lock _ _).
        assert (E2 : todo s2 i = AProcess op :: rest) by apply (todo_with i _ s). rewrite E2. unfold locked. cbn [lock s2 with_lock]. rewrite Nat.eqb_refl. reflexivity.
    + split_and!; try done. apply (todo_with i rest s1).
Qed.

Lemma pushes_alone i now ops rest s : lock s = None -> todo s i = (APush <$> ops) ++ rest ->
  exists s', alone i now s s' /\ told i rest (foldl (fun e op => push_op (clock s) op e) (state_of s) ops) s s'.
Proof.
  revert s. induction ops as [|op ops IH]; intros s El Et; [exists s; split; [by exists 0%nat|done]|].
  destruct (push_alone i now op _ s El Et) as (s1 & Ha & Hr & Hc & Hl & Ht & He).
  destruct (IH s1 Hl Ht) as (s2 & Ha2 & Hr2 & Hc2 & Hl2 & Ht2 & He2). exists s2. split; [by eapply alone_trans|].
  split_and!; [congruence..|]. rewrite He2, He, Hc. done.
Qed.

Lemma removals_alone i now ks rest s : lock s = None -> todo s i = (ARemove <$> ks) ++ rest ->
  exists s', alone i now s s' /\ cache_of s' = foldl (fun c k => Cache_remove (clock s) k c) (cache_of s) ks /\
    clock s' = clock s /\ lock s' = None /\ todo s' i = rest.
Proof.
  revert s. induction ks as [|k ks IH]; intros s El Et; [exists s; split; [by exists 0%nat|done]|].
  set (s1 := with_todo i (APush (Removed k) :: (ARemove <$> ks) ++ rest) (with_raw (raw_remove k (raw_part s)) s)).
  destruct (push_alone i now (Removed k) (fmap (M := list) ARemove ks ++ rest) s1 El) as (s2 & Ha & Hr & Hc & Hl & Ht & He); [apply todo_with|].
  destruct (IH s2 Hl Ht) as (s3 & Ha3 & Hc3 & Hk3 & Hl3 & Ht3). exists s3. split_and!; [|rewrite Hc3|by rewrite Hk3, Hc|done|done].
  - eapply alone_trans; [apply alone_go; unfold_go; rewrite Et; reflexivity|]. by eapply alone_trans.
  - cbn [foldl fmap list_fmap]. replace (clock s2) with (clock s) by (by rewrite Hc). f_equal. unfold cache_of at 1. by rewrite Hr, He.
Qed.

Lemma marks_removed_fold (t : Z) ks (st : State K) :
  foldl (fun e k => mark_entry_removed t k e) (Some st) ks = Some (foldl (fun e op => push_op t op e) st (Removed <$> ks)).
Proof. revert st. induction ks as [|k ks IH]; intros st; [done|]. cbn. apply IH. Qed.

Lemma drain_extracts (t now : Z) (st : State K) :
  drain_expired_items t now (Some st) =
  let x := extract_expired now (foldl (process_operation t) (inner st) (pending_ops st)) in (x.1, Some {| inner := x.2; pending_ops := [] |}).
Proof. unfold drain_expired_items, extract_expired. cbn. by destruct (_ <? _). Qed.

Theorem uninterrupted_operations (op : cache_op K V) (i : nat) (s : Sys) : lock s = None -> todo s i = [] ->
  exists n s', exec (Begin i (act_of op) :: replicate n (Go i (now_of op))) s = Some s' /\
    cache_of s' = cache_run (cache_of s) (clock s, op) /\ clock s' = clock s /\ lock s' = None /\ todo s' i = [].
Proof.
  intros El Et. set (s0 := with_todo i [act_of op] s). assert (E0 : todo s0 i = [act_of op]) by apply todo_with.
  assert (Hb : do_step (Begin i (act_of op)) s = Some s0).
  { cbn. rewrite (bool_decide_true (todo s i = [])) by done. by destruct op. }
  cut (exists s', alone i (now_of op) s0 s' /\ cache_of s' = cache_run (cache_of s) (clock s, op) /\ clock s' = clock s /\ lock s' = None /\ todo s' i = []).
  { intros (s' & [n Hn] & Hrest). exists n, s'. split; [|done]. cbn [exec]. by rewrite Hb. }
  destruct op as [k v|k|k|now]; cbn [act_of now_of cache_run] in *.
  - unfold Cache_insert. cbn [cache_of raw_cache expiration]. destruct (raw_insert k v (raw_part s)) as [r ev] eqn:Er.
    rewrite marks_removed_fold. set (s1 := with_todo i ((APush <$> (Removed <$> ev) ++ [Accessed k]) ++ []) (with_raw r s0)).
    destruct (pushes_alone i 0 ((Removed <$> ev) ++ [Accessed k]) [] s1 El) as (s2 & Ha & Hr & Hc & Hl & Ht & He); [apply todo_with|].
    exists s2. split_and!; [|unfold cache_of; rewrite Hr, He; by rewrite foldl_app|done|done|done].
    eapply alone_trans; [apply alone_go|exact Ha]. unfold_go. rewrite E0. change (raw_part s0) with (raw_part s). rewrite Er. unfold s1.
    by rewrite fmap_app, app_nil_r, <- list_fmap_compose.
  - unfold Cache_get. cbn [cache_of raw_cache expiration]. destruct (raw_get k (raw_part s)) as [[v|] r] eqn:Er.
    + set (s1 := with_todo i [APush (Accessed k)] (with_raw r s0)).
      destruct (push_alone i 0 (Accessed k) [] s1 El) as (s2 & Ha & Hr & Hc & Hl & Ht & He); [apply todo_with|].
      exists s2. split_and!; [|unfold cache_of; by rewrite Hr, He|done|done|done].
      eapply alone_trans; [apply alone_go|exact Ha]. unfold_go. rewrite E0. change (raw_part s0) with (raw_part s). by rewrite Er.
    + exists (with_todo i [] (with_raw r s0)). split_and!; [|done|done|done|apply todo_with].
      apply alone_go. unfold_go. rewrite E0. change (raw_part s0) with (raw_part s). by rewrite Er.
  - destruct (removals_alone i 0 [k] [] s0 El E0) as (s' & Ha & Hc & Hk & Hl & Ht). by exists s'.
  - pose proof (lock_alone i now s0 [] El ltac:(by left)) as Hlock. set (s1 := with_lock _ _) in Hlock.
    set (i1 := foldl (process_operation (clock s)) (table s) (queue s)). set (x := extract_expired now i1).
    set (s2 := with_lock None (with_todo i ((ARemove <$> x.1) ++ []) (with_table x.2 [] s1))).
    assert (Hg : go i now s1 = Some s2).
    { unfold_go. assert (E1 : todo s1 i = [ADrain]) by apply (todo_with i _ s). rewrite E1. unfold locked. cbn [lock s1 with_lock]. rewrite Nat.eqb_refl.
      unfold s2, x. change (table s1) with i1. by destruct (extract_expired now i1). }
    destruct (removals_alone i now x.1 [] s2 eq_refl) as (s' & Ha & Hc & Hk & Hl & Ht); [apply (todo_with i _ (with_table x.2 [] s1))|].
    exists s'. split_and!; [|rewrite Hc|done|done|done].
    + eapply alone_trans; [exact Hlock|]. eapply alone_trans; [apply alone_go, Hg|exact Ha].
    + unfold drive_expiration. cbn [cache_of expiration raw_cache]. by rewrite drain_extracts.
Qed.
End threads.

(** ** Witness and examples *)

Section samples.
#[local] Instance small_cache : RawCache Z Z := small.

Abbreviation Threads := (@Sys Z Z _ _ small_cache).

(** A round of the driver, thread 9, that finds [q] operations in the queue; and an insertion by thread 0. *)
Definition drain (now : Z) (q : nat) : list (@Label Z Z) := Begin 9 ADrain :: replicate (q + 3) (Go 9 now).
Definition insertion (k v : Z) : list (@Label Z Z) := [Begin 0 (AInsert k v); Go 0 0; Go 0 0].

Definition started : Threads := Sys_new no_entries 30 100.
Definition past : list (@Label Z Z) := insertion 1 10 ++ [Tick 101] ++ drain 101 1.
Definition state_after (ls : list (@Label Z Z)) : Threads := default started (exec ls started).


(** When an insertion overlaps with a removal, here that of the driver, the removal may be told after the insertion: the new
    entry is cached but not tracked, and no round of the driver removes it any more, although nobody uses it. *)
Definition overlapping : list (@Label Z Z) :=
  past ++ drain 140 0 ++ [Go 9 140] ++ insertion 1 11 ++ [Go 9 140].
Example reinserted_entry_never_expires :
  cached_in (state_after (overlapping ++ drain 200 2 ++ drain 1000 0 ++ drain 5000 0)) !! 1 = Some 11 /\
  unused 1 (state_after (overlapping ++ drain 200 2)) = true /\ tracked 1 (state_after (overlapping ++ drain 200 2)) = false /\
  along (no_overlap 1) overlapping started = false.
Proof. split_and!; vm_compute; reflexivity. Qed.

(** An entry that is used between the drain and its removal is removed all the same. *)
Example used_entry_is_taken_away :
  let s := state_after (past ++ drain 140 0 ++ [Begin 0 (AGet 1); Go 0 0; Go 0 0]) in
  cached_in s !! 1 = Some 10 /\ queue s = [Accessed 1] /\
  cached_in (state_after (past ++ drain 140 0 ++ [Begin 0 (AGet 1); Go 0 0; Go 0 0; Go 9 140])) !! 1 = None.
Proof. split_and!; vm_compute; reflexivity. Qed.
End samples.
