(* ===== verification/TagFilterlist.v ===== *)
(** * The metric tag filterlist transform

    [agent-data-plane/src/components/tag_filterlist/mod.rs].  Rules are compiled into a table by metric
    name (whole tags, [key_filters]) and a sorted table of metric-name prefixes (tag values,
    [value_prefix_filters]); the transform rewrites the tags of counters and distributions through the
    lazy view of [Context], and remembers what it did per context in a cache.

    Hash maps and sets are finite maps and sets.  [as_borrowed] is [Tag_name] and [Tag_value], which is
    what [borrowed_tag_agrees] says. *)

From Stdlib Require Import Strings.String ZArith Lia Sorted Permutation.
From stdpp Require Import base tactics list numbers gmap sorting.
From S2P Require Import Prelude Bytes Utf8 BitSet TagSet TagSetProofs Context Cache MetricValues Aggregate.
Open Scope Z_scope.

#[export] Instance byte_countable : Countable Byte.byte.
Proof. apply (inj_countable Byte.to_N (fun n => Byte.of_N n)). intros c. apply Byte.of_to_N. Defined.

(** ** Rules *)

Inductive FilterAction := Include | Exclude.

Record MetricTagFilterEntry := { metric_name : bytes; action : FilterAction; entry_tags : list bytes }.

Inductive TagValueMismatchAction := MismatchRemove | MismatchReplace.

Record MetricTagValueAllowlistEntry := {
  metric_prefix : bytes;
  tag_name : bytes;
  values : list bytes;
  on_miss : TagValueMismatchAction;
  replacement : bytes;
}.

Inductive CompiledMismatchAction := CompiledRemove | CompiledReplace (t : Tag).

Record CompiledTagValueAllowlist := { allowed_values : gset bytes; compiled_on_miss : CompiledMismatchAction }.
Record CompiledKeyFilter := { is_exclude : bool; tag_names : gset bytes }.
Record CompiledValuePrefixFilter := { filter_prefix : bytes; value_allowlists : gmap bytes CompiledTagValueAllowlist }.
Record CompiledFilters := {
  key_filters : gmap bytes CompiledKeyFilter;
  value_prefix_filters : list CompiledValuePrefixFilter;
}.

Definition CompiledFilters_default : CompiledFilters := {| key_filters := ∅; value_prefix_filters := [] |}.

(** *** Strings: [Ord], [starts_with], and the binary search of slices *)

Fixpoint str_cmp (x y : bytes) : comparison :=
  match x, y with
  | [], [] => Eq
  | [], _ :: _ => Lt
  | _ :: _, [] => Gt
  | c :: x', d :: y' => match Z.compare (byte_Z c) (byte_Z d) with Eq => str_cmp x' y' | r => r end
  end.
Definition str_le (x y : bytes) : bool := match str_cmp x y with Gt => false | _ => true end.

Fixpoint starts_with (s p : bytes) : bool :=
  match p, s with
  | [], _ => true
  | c :: p', d :: s' => bool_decide (c = d) && starts_with s' p'
  | _ :: _, [] => false
  end.

(** [slice::binary_search_by]: [base] and [size] narrow down to one element. *)
Fixpoint binary_search_loop (fuel : nat) (f : nat -> comparison) (base size : nat) : nat :=
  match fuel with
  | O => base
  | S fuel' =>
      if (1 <? size)%nat then
        let half := (size / 2)%nat in
        let mid := (base + half)%nat in
        binary_search_loop fuel' f (match f mid with Gt => base | _ => mid end) (size - half)
      else base
  end.
(** [Ok index], or [Err index] with the place where the value would be. *)
Definition binary_search_by (f : nat -> comparison) (len : nat) : result nat nat :=
  if (len =? 0)%nat then Err O
  else
    let base := binary_search_loop len f 0 len in
    match f base with
    | Eq => Ok base
    | Lt => Err (S base)
    | Gt => Err base
    end.

Definition find_matching_prefix {A} (prefix : A -> bytes) (entries : list A) (value : bytes) : option A :=
  let probe i := match entries !! i with Some e => str_cmp (prefix e) value | None => Gt end in
  match binary_search_by probe (length entries) with
  | Ok index => entries !! index
  | Err index =>
      if (0 <? index)%nat then
        e ← entries !! (index - 1)%nat;
        if starts_with value (prefix e) then Some e else None
      else None
  end.

Definition value_filter_for (fs : list CompiledValuePrefixFilter) (name : bytes) : option CompiledValuePrefixFilter :=
  find_matching_prefix filter_prefix fs name.

(** *** Compiling *)

Definition is_exclude_action (a : FilterAction) : bool := match a with Exclude => true | Include => false end.

Definition compile_entry (m : gmap bytes CompiledKeyFilter) (entry : MetricTagFilterEntry) : gmap bytes CompiledKeyFilter :=
  match metric_name entry with
  | [] => m
  | name =>
      let exclude := is_exclude_action (action entry) in
      let tag_set : gset bytes := list_to_set (entry_tags entry) in
      match m !! name with
      | None => <[name := {| is_exclude := exclude; tag_names := tag_set |}]> m
      | Some existing =>
          if Bool.eqb (is_exclude existing) exclude then
            <[name := {| is_exclude := is_exclude existing; tag_names := tag_names existing ∪ tag_set |}]> m
          else if exclude then <[name := {| is_exclude := true; tag_names := tag_set |}]> m
          else m
      end
  end.

Definition compile_filters (entries : list MetricTagFilterEntry) : CompiledFilters :=
  {| key_filters := foldl compile_entry ∅ entries; value_prefix_filters := [] |}.

Definition compile_allowlist (entry : MetricTagValueAllowlistEntry) : CompiledTagValueAllowlist :=
  {| allowed_values := list_to_set (values entry);
     compiled_on_miss :=
       match on_miss entry with
       | MismatchRemove => CompiledRemove
       | MismatchReplace => CompiledReplace (tag_name entry ++ b ":" ++ replacement entry)
       end |}.

(** The filter of the entry's prefix gets the allow-list, or a new filter is pushed. *)
Fixpoint add_allowlist (entry : MetricTagValueAllowlistEntry) (fs : list CompiledValuePrefixFilter) : list CompiledValuePrefixFilter :=
  match fs with
  | [] => [{| filter_prefix := metric_prefix entry; value_allowlists := {[ tag_name entry := compile_allowlist entry ]} |}]
  | f :: fs' =>
      if bool_decide (filter_prefix f = metric_prefix entry) then
        {| filter_prefix := filter_prefix f; value_allowlists := <[tag_name entry := compile_allowlist entry]> (value_allowlists f) |} :: fs'
      else f :: add_allowlist entry fs'
  end.

(** The prefixes are distinct, so that an unstable sort gives what a stable sort gives. *)
Definition sort_filters (fs : list CompiledValuePrefixFilter) : list CompiledValuePrefixFilter :=
  stable_sort (fun x y => str_le (filter_prefix x) (filter_prefix y)) fs.

Definition add_value_allowlists (filters : CompiledFilters) (entries : list MetricTagValueAllowlistEntry) : CompiledFilters :=
  {| key_filters := key_filters filters;
     value_prefix_filters := sort_filters (foldl (fun fs e => add_allowlist e fs) (value_prefix_filters filters) entries) |}.

Definition compile_all_filters (entries : list MetricTagFilterEntry) (value_entries : list MetricTagValueAllowlistEntry) : CompiledFilters :=
  add_value_allowlists (compile_filters entries) value_entries.

Definition compile_filters_with_values (entries : list MetricTagFilterEntry) (vfs : list CompiledValuePrefixFilter) : CompiledFilters :=
  {| key_filters := key_filters (compile_filters entries); value_prefix_filters := vfs |}.

(** ** Filtering *)

Definition should_keep_tag (tag : Tag) (exclude : bool) (names : gset bytes) : bool :=
  negb (Bool.eqb exclude (bool_decide (Tag_name tag ∈ names))).

Definition filter_tag (key_filter : option CompiledKeyFilter) (value_filter : option CompiledValuePrefixFilter)
    (replacements : list Tag) (tag : Tag) : bool * list Tag :=
  if match key_filter with Some kf => negb (should_keep_tag tag (is_exclude kf) (tag_names kf)) | None => false end
  then (false, replacements)
  else
    match Tag_value tag with
    | None => (true, replacements)
    | Some value =>
        match value_filter ≫= fun f => value_allowlists f !! Tag_name tag with
        | None => (true, replacements)
        | Some allowlist =>
            if bool_decide (value ∈ allowed_values allowlist) then (true, replacements)
            else
              match compiled_on_miss allowlist with
              | CompiledRemove => (false, replacements)
              | CompiledReplace r => if bool_decide (r = tag) then (true, replacements) else (false, replacements ++ [r])
              end
        end
    end.

Inductive FilterMetricTagsOutcome :=
| RuleMiss
| NoChange
| Modified (removed_tags : nat).

Section filtering.
Context `{FastHasher}.

Definition insert_all (new : list Tag) (ts : TagSet) : option TagSet := foldl (fun ts t => ts ≫= insert_tag t) (Some ts) new.

(** On the context of a metric. *)
Definition filter_metric_tags (c : Context) (state : TagSetMutViewState) (filters : CompiledFilters) :
    option (FilterMetricTagsOutcome * Context * TagSetMutViewState) :=
  let key_filter := key_filters filters !! name c in
  let value_filter := value_filter_for (value_prefix_filters filters) (name c) in
  match key_filter, value_filter with
  | None, None => Some (RuleMiss, c, state)
  | _, _ =>
      '(state, tag_replacements) ← View_retain_tags (filter_tag key_filter value_filter) [] c state;
      '(state, origin_tag_replacements) ← View_retain_origin_tags (filter_tag key_filter value_filter) [] c state;
      '(total_removed, c, state) ← View_finish c state;
      c ← match tag_replacements, origin_tag_replacements with
          | [], [] => Some c
          | _, _ => with_tag_sets_mut (fun ts os =>
                ts' ← insert_all tag_replacements ts; os' ← insert_all origin_tag_replacements os; Some (ts', os')) c
          end;
      Some (if (total_removed =? 0)%nat then NoChange else Modified total_removed, c, state)
  end.

(** ** The transform *)

(** Contexts are looked up in the cache by their key. *)
Context {O : CacheOps ContextKey (option (Context * nat))}.

Record TagFilterlist := { filters : CompiledFilters; tf_value_filters : list CompiledValuePrefixFilter; context_cache : cache }.

(** What the loop does with the context of a metric that is a counter or a sketch. *)
Definition filter_context (tf : TagFilterlist) (state : TagSetMutViewState) (c : Context) :
    option (Context * TagFilterlist * TagSetMutViewState) :=
  let with_cache cc := {| filters := filters tf; tf_value_filters := tf_value_filters tf; context_cache := cc |} in
  let '(cached, cc) := cache_get (key c) (context_cache tf) in
  match cached with
  | Some None => Some (c, with_cache cc, state)
  | Some (Some (filtered, _)) => Some (filtered, with_cache cc, state)
  | None =>
      '(outcome, c', state') ← filter_metric_tags c state (filters tf);
      let cc :=
        match outcome with
        | RuleMiss => cc
        | NoChange => cache_insert (key c) None cc
        | Modified removed_tags => cache_insert (key c) (Some (c', removed_tags)) cc
        end in
      Some (c', with_cache cc, state')
  end.

Context {S : Type}.

Definition filters_metric (m : Metric Context S) : bool :=
  is_sketch (metric_values m) || match metric_values m with Counter _ => true | _ => false end.

Definition filter_event (tf : TagFilterlist) (state : TagSetMutViewState) (m : Metric Context S) :
    option (Metric Context S * TagFilterlist * TagSetMutViewState) :=
  if filters_metric m then
    '(c, tf, state) ← filter_context tf state (metric_context m);
    Some (MkMetric c (metric_values m) (metric_metadata m), tf, state)
  else Some (m, tf, state).

Fixpoint filter_events (tf : TagFilterlist) (state : TagSetMutViewState) (ms : list (Metric Context S)) :
    option (list (Metric Context S) * TagFilterlist * TagSetMutViewState) :=
  match ms with
  | [] => Some ([], tf, state)
  | m :: ms' =>
      '(m', tf, state) ← filter_event tf state m;
      '(rest, tf, state) ← filter_events tf state ms';
      Some (m' :: rest, tf, state)
  end.

(** New rules come with an empty cache. *)
Definition update_entries (new_entries : list MetricTagFilterEntry) (empty : cache) (tf : TagFilterlist) : TagFilterlist :=
  {| filters := compile_filters_with_values new_entries (tf_value_filters tf); tf_value_filters := tf_value_filters tf;
     context_cache := empty |}.
End filtering.
