(* ===== verification/TagFilterlistProofs.v ===== *)
(** * The tag filterlist applies its rules

    What [TagFilterlist] computes: the compiled rules are the documented merge of the entries, the
    binary search finds the one prefix that matches, every tag of a metric is kept, dropped or replaced
    by the rules, and the cache of filtered contexts does not change the outcome. *)

From Stdlib Require Import Strings.String ZArith Lia Sorted Permutation.
From stdpp Require Import base tactics list numbers gmap sorting.
From S2P Require Import Prelude Bytes Utf8 BitSet TagSet TagSetProofs Context Cache MetricValues Aggregate TagFilterlist.
Open Scope Z_scope.

(** ** Lemmas on strings *)

Lemma str_cmp_refl x : str_cmp x x = Eq.
Proof. induction x as [|c x IH]; [done|]. cbn [str_cmp]. by rewrite Z.compare_refl. Qed.

Lemma byte_Z_inj c d : byte_Z c = byte_Z d -> c = d.
Proof. intros Hcd. rewrite <- (Z_byte_byte_Z c), <- (Z_byte_byte_Z d). by rewrite Hcd. Qed.

Lemma str_cmp_eq x y : str_cmp x y = Eq -> x = y.
Proof.
  revert y. induction x as [|c x IH]; intros [|d y]; try done. cbn [str_cmp].
  destruct (Z.compare_spec (byte_Z c) (byte_Z d)) as [E| |]; try done. intros Hxy. f_equal; [by apply byte_Z_inj|by apply IH].
Qed.

Lemma str_cmp_antisym x y : str_cmp y x = CompOpp (str_cmp x y).
Proof.
  revert y. induction x as [|c x IH]; intros [|d y]; try done. cbn [str_cmp]. rewrite (Z.compare_antisym (byte_Z c)).
  destruct (Z.compare (byte_Z c) (byte_Z d)); cbn [CompOpp]; auto.
Qed.

Lemma str_le_total x y : str_le x y = true \/ str_le y x = true.
Proof. unfold str_le. rewrite (str_cmp_antisym x y). destruct (str_cmp x y); auto. Qed.

Lemma str_le_trans x y z : str_le x y = true -> str_le y z = true -> str_le x z = true.
Proof.
  unfold str_le. revert y z. induction x as [|c x IH]; intros [|d y] [|e z]; cbn [str_cmp]; try done. specialize (IH y z).
  destruct (Z.compare_spec (byte_Z c) (byte_Z d)), (Z.compare_spec (byte_Z d) (byte_Z e)), (Z.compare_spec (byte_Z c) (byte_Z e)); try done; try lia; auto.
Qed.

Lemma str_le_antisym x y : str_le x y = true -> str_le y x = true -> x = y.
Proof.
  unfold str_le. rewrite (str_cmp_antisym x y). destruct (str_cmp x y) eqn:E; try done. intros _ _. by apply str_cmp_eq.
Qed.

Lemma starts_with_prefix s p : starts_with s p = true <-> p `prefix_of` s.
Proof.
  revert s. induction p as [|c p IH]; intros s.
  - split; [|by destruct s]. intros _. apply prefix_nil.
  - destruct s as [|d s]; cbn [starts_with]; [split; [done|]; by intros [k Hk]|].
    rewrite andb_true_iff, bool_decide_eq_true, IH. split.
    + intros [-> Hp]. by apply prefix_cons.
    + intros Hp. split; [by eapply prefix_cons_inv_1|by eapply prefix_cons_inv_2].
Qed.

Lemma prefix_le p s : p `prefix_of` s -> str_le p s = true.
Proof.
  intros [k ->]. unfold str_le. induction p as [|c p IH]; cbn [str_cmp app]; [by destruct k|]. by rewrite Z.compare_refl.
Qed.

(** Whatever is between a prefix and its extension has the prefix too. *)
Lemma prefix_between p e v : p `prefix_of` v -> str_le p e = true -> str_le e v = true -> p `prefix_of` e.
Proof.
  intros [k ->]. unfold str_le. revert e. induction p as [|c p IH]; intros e; [intros; apply prefix_nil|].
  destruct e as [|d e]; cbn [str_cmp app]; [done|].
  destruct (Z.compare_spec (byte_Z c) (byte_Z d)) as [E|E|E]; destruct (Z.compare_spec (byte_Z d) (byte_Z c)) as [E'|E'|E']; try done; try lia.
  intros H1 H2. apply byte_Z_inj in E as ->. apply prefix_cons. by apply IH.
Qed.

(** ** Lemmas on the binary search *)

Section search.
Context (f : nat -> comparison) (len k : nat) (Hk : (k <= len)%nat)
        (Hlow : forall i, (i < k)%nat -> f i <> Gt) (Hhigh : forall i, (k <= i < len)%nat -> f i = Gt).

(** [base] ends at the last element that is not greater. *)
Lemma binary_search_loop_spec fuel base size : (size <= fuel)%nat -> (0 < size)%nat -> (base + size <= len)%nat ->
  (base = O \/ (base < k)%nat) -> (k <= base + size)%nat -> binary_search_loop fuel f base size = (k - 1)%nat.
Proof using Hk Hlow Hhigh.
  revert base size. induction fuel as [|fuel IH]; intros base size Hf Hs Hlen Hb Hend; [lia|]. cbn [binary_search_loop].
  destruct (1 <? size)%nat eqn:E; nat_cases; [|lia]. set (half := (size / 2)%nat).
  assert (Hhalf : (1 <= half <= size - 1 /\ 2 * half <= size)%nat).
  { subst half. pose proof (Nat.div_mod size 2 ltac:(lia)). pose proof (Nat.mod_upper_bound size 2 ltac:(lia)). lia. }
  destruct (decide (base + half < k)%nat) as [Hlt|Hge].
  - specialize (Hlow _ Hlt). destruct (f (base + half)); try done; apply IH; lia.
  - rewrite Hhigh by lia. apply IH; lia.
Qed.

Lemma binary_search_spec : binary_search_by f len =
  if (k =? 0)%nat then Err O else match f (k - 1)%nat with Eq => Ok (k - 1)%nat | _ => Err k end.
Proof using Hk Hlow Hhigh.
  unfold binary_search_by. destruct (len =? 0)%nat eqn:El; nat_cases.
  { by replace k with O by lia. }
  rewrite binary_search_loop_spec by lia. destruct (k =? 0)%nat eqn:E; nat_cases.
  - subst k. by rewrite Hhigh by lia.
  - specialize (Hlow (k - 1)%nat ltac:(lia)). destruct (f (k - 1)%nat); try done. f_equal. lia.
Qed.
End search.

(** In a sorted list the elements that are at most [v] come first. *)
Lemma sorted_prefixes_split {A} (prefix : A -> bytes) (l : list A) v :
  StronglySorted (fun x y => str_le (prefix x) (prefix y) = true) l -> exists k, (k <= length l)%nat /\
  (forall i e, l !! i = Some e -> (i < k)%nat -> str_le (prefix e) v = true) /\
  (forall i e, l !! i = Some e -> (k <= i)%nat -> str_le (prefix e) v = false).
Proof.
  induction 1 as [|x l Hs (k & Hk & H1 & H2) Hx]; [exists O; split_and!; [done|..]; intros i e Hi; by rewrite lookup_nil in Hi|].
  destruct (str_le (prefix x) v) eqn:E.
  - exists (S k). cbn [length]. split_and!; [lia| |]; intros [|i] e Hi; cbn in Hi; simplify_eq; intros; try lia; [done|apply (H1 i)|apply (H2 i)]; auto; lia.
  - exists O. split_and!; [lia|intros; lia|]. intros [|i] e Hi _; cbn in Hi; [by simplify_eq|].
    destruct (str_le (prefix e) v) eqn:E'; [|done]. rewrite Forall_forall in Hx.
    rewrite (str_le_trans (prefix x) (prefix e) v) in E; [done|apply Hx; by eapply list_elem_of_lookup_2|done].
Qed.

Lemma sorted_lookup {A} (R : A -> A -> Prop) l i j x y : StronglySorted R l -> l !! i = Some x -> l !! j = Some y -> (i < j)%nat -> R x y.
Proof.
  intros Hs. revert i j. induction Hs as [|z l Hs IH Hz]; intros [|i] [|j] Hi Hj Hij; try lia; cbn in *; try done; [|eapply IH; eauto; lia].
  simplify_eq. rewrite Forall_forall in Hz. apply Hz. by eapply list_elem_of_lookup_2.
Qed.

(** No prefix extends another one. *)
Definition no_overlap {A} (prefix : A -> bytes) (l : list A) : Prop :=
  forall i j x y, l !! i = Some x -> l !! j = Some y -> prefix x `prefix_of` prefix y -> i = j.

Lemma find_matching_prefix_spec {A} (prefix : A -> bytes) (l : list A) v e :
  StronglySorted (fun x y => str_le (prefix x) (prefix y) = true) l -> no_overlap prefix l ->
  find_matching_prefix prefix l v = Some e <-> e ∈ l /\ prefix e `prefix_of` v.
Proof.
  intros Hs Hno. destruct (sorted_prefixes_split prefix l v Hs) as (k & Hk & Hlow & Hhigh). unfold find_matching_prefix.
  rewrite (binary_search_spec _ (length l) k); [|done| |].
  2: { intros i Hi. destruct (lookup_lt_is_Some_2 l i) as [x Hx]; [lia|]. rewrite Hx. specialize (Hlow i x Hx Hi). unfold str_le in Hlow. by destruct (str_cmp _ _). }
  2: { intros i Hi. destruct (lookup_lt_is_Some_2 l i) as [x Hx]; [lia|]. rewrite Hx. specialize (Hhigh i x Hx ltac:(lia)). unfold str_le in Hhigh. by destruct (str_cmp _ _). }
  assert (Hall : forall x, x ∈ l -> prefix x `prefix_of` v -> (0 < k)%nat /\ l !! (k - 1)%nat = Some x).
  { intros x Hx Hp. apply list_elem_of_lookup in Hx as [i Hi]. destruct (decide (i < k)%nat) as [Hlt|Hge].
    - split; [lia|]. destruct (lookup_lt_is_Some_2 l (k - 1)%nat) as [y Hy]; [lia|]. rewrite Hy.
      destruct (decide (i = (k - 1)%nat)) as [->|Hne]; [congruence|].
      assert (Hle : str_le (prefix x) (prefix y) = true).
      { apply (sorted_lookup _ l i (k - 1)%nat x y Hs); auto; lia. }
      assert (Hpy : prefix x `prefix_of` prefix y) by (eapply prefix_between; [done|done|]; apply (Hlow (k - 1)%nat); auto; lia).
      exfalso. apply Hne. by eapply Hno.
    - specialize (Hhigh i x Hi ltac:(lia)). by rewrite prefix_le in Hhigh. }
  destruct (k =? 0)%nat eqn:E; nat_cases.
  - split; [done|]. intros [Hx Hp]. destruct (Hall e Hx Hp). lia.
  - destruct (lookup_lt_is_Some_2 l (k - 1)%nat) as [y Hy]; [lia|].
    assert (Hgoal : (if starts_with v (prefix y) then Some y else None) = Some e <-> e ∈ l /\ prefix e `prefix_of` v).
    { split.
      - destruct (starts_with v (prefix y)) eqn:Es; [|done]. intros [= <-]. split; [by eapply list_elem_of_lookup_2|by apply starts_with_prefix].
      - intros [Hx Hp]. destruct (Hall e Hx Hp) as [_ Hy']. assert (y = e) as -> by congruence. by rewrite (proj2 (starts_with_prefix v (prefix e)) Hp). }
    rewrite Hy. destruct (str_cmp (prefix y) v) eqn:Ec.
    + apply str_cmp_eq in Ec. rewrite Ec in Hgoal. rewrite Hy. by rewrite (proj2 (starts_with_prefix v v)) in Hgoal by done.
    + rewrite (proj2 (Nat.ltb_lt _ _)) by lia. rewrite Hy. cbn [mbind option_bind]. exact Hgoal.
    + rewrite (proj2 (Nat.ltb_lt _ _)) by lia. rewrite Hy. cbn [mbind option_bind]. exact Hgoal.
Qed.

(** ** What the rules compile to *)

Definition is_rule (exclude : bool) (m : bytes) (e : MetricTagFilterEntry) : bool :=
  bool_decide (metric_name e = m) && Bool.eqb (is_exclude_action (action e)) exclude.
Definition rule_tags (exclude : bool) (m : bytes) (entries : list MetricTagFilterEntry) : gset bytes :=
  list_to_set (mjoin (entry_tags <$> List.filter (is_rule exclude m) entries)).

(** The documented merge: excluding rules win over including ones, rules of one action are joined. *)
Definition merged_rule (m : bytes) (entries : list MetricTagFilterEntry) : option CompiledKeyFilter :=
  if bool_decide (m = []) then None
  else if existsb (is_rule true m) entries then Some {| is_exclude := true; tag_names := rule_tags true m entries |}
  else if existsb (is_rule false m) entries then Some {| is_exclude := false; tag_names := rule_tags false m entries |}
  else None.

Lemma rule_tags_snoc x m es e :
  rule_tags x m (es ++ [e]) = rule_tags x m es ∪ (if is_rule x m e then list_to_set (entry_tags e) else ∅).
Proof.
  unfold rule_tags. rewrite List.filter_app. cbn [List.filter]. rewrite fmap_app, join_app, list_to_set_app_L. f_equal.
  destruct (is_rule x m e); [|done]. cbn [fmap list_fmap mjoin list_join]. by rewrite app_nil_r.
Qed.

Lemma rule_tags_none x m es : existsb (is_rule x m) es = false -> rule_tags x m es = ∅.
Proof.
  unfold rule_tags. intros Hn. induction es as [|e es IH]; [done|]. cbn [existsb] in Hn. apply orb_false_iff in Hn as [He Hn].
  cbn [List.filter]. rewrite He. by apply IH.
Qed.

Lemma compile_entry_other mp e m : metric_name e <> m -> compile_entry mp e !! m = mp !! m.
Proof.
  intros Hne. unfold compile_entry. destruct (metric_name e) as [|c n]; [done|].
  repeat case_match; rewrite ?lookup_insert_ne by done; done.
Qed.

Lemma compile_entry_same mp e m : metric_name e = m -> m <> [] -> compile_entry mp e !! m =
  let exclude := is_exclude_action (action e) in let tag_set := list_to_set (entry_tags e) in
  match mp !! m with
  | None => Some {| is_exclude := exclude; tag_names := tag_set |}
  | Some x => if Bool.eqb (is_exclude x) exclude then Some {| is_exclude := is_exclude x; tag_names := tag_names x ∪ tag_set |}
              else if exclude then Some {| is_exclude := true; tag_names := tag_set |} else Some x
  end.
Proof.
  intros <- Hne. unfold compile_entry. destruct (metric_name e) as [|c n]; [done|]. cbn zeta.
  destruct (mp !! (c :: n)) as [x|] eqn:E; [|by rewrite lookup_insert_eq].
  repeat case_match; by rewrite ?lookup_insert_eq.
Qed.

Lemma compile_filters_merged entries m : key_filters (compile_filters entries) !! m = merged_rule m entries.
Proof.
  cbn [compile_filters key_filters]. unfold merged_rule. induction entries as [|e es IH] using rev_ind.
  { cbn. rewrite lookup_empty. by case_bool_decide. }
  rewrite foldl_snoc, !existsb_app, !rule_tags_snoc. cbn [existsb]. rewrite !orb_false_r.
  assert (Hr : forall x, metric_name e <> m -> is_rule x m e = false) by (intros x Hx; unfold is_rule; by rewrite bool_decide_false).
  destruct (decide (metric_name e = m)) as [Hm|Hm].
  - destruct (decide (m = [])) as [->|Hne].
    { rewrite bool_decide_true in IH |- * by done. unfold compile_entry. by rewrite Hm. }
    rewrite bool_decide_false in IH |- * by done. rewrite compile_entry_same, IH by done. cbn zeta.
    assert (Hx : forall x, is_rule x m e = Bool.eqb (is_exclude_action (action e)) x) by (intros x; unfold is_rule; by rewrite bool_decide_true).
    rewrite !Hx. destruct (existsb (is_rule true m) es) eqn:Et, (existsb (is_rule false m) es) eqn:Ef, (is_exclude_action (action e)); cbn;
      rewrite ?(right_id_L ∅ (∪)); try done; rewrite ?(rule_tags_none _ _ _ Et), ?(rule_tags_none _ _ _ Ef), ?(left_id_L ∅ (∪)); done.
  - rewrite compile_entry_other, IH, !Hr by done. by rewrite !orb_false_r, !(right_id_L ∅ (∪)).
Qed.

(** The entries for a prefix and a tag; the last one counts. *)
Definition value_rule (p t : bytes) (es : list MetricTagValueAllowlistEntry) : option CompiledTagValueAllowlist :=
  compile_allowlist <$> last (List.filter (fun e => bool_decide (metric_prefix e = p) && bool_decide (tag_name e = t)) es).

Lemma value_rule_snoc p t es e : value_rule p t (es ++ [e]) =
  if bool_decide (metric_prefix e = p) && bool_decide (tag_name e = t) then Some (compile_allowlist e) else value_rule p t es.
Proof.
  unfold value_rule. rewrite List.filter_app. cbn [List.filter]. destruct (_ && _); [by rewrite last_snoc|]. by rewrite app_nil_r.
Qed.

Definition prefixes (fs : list CompiledValuePrefixFilter) : list bytes := filter_prefix <$> fs.

(** The filters hold the entries [es]: one filter per prefix, with the rules of its tags. *)
Record holds (es : list MetricTagValueAllowlistEntry) (fs : list CompiledValuePrefixFilter) : Prop := {
  holds_nodup : NoDup (prefixes fs);
  holds_prefixes : forall p, p ∈ prefixes fs <-> p ∈ metric_prefix <$> es;
  holds_rules : forall f t, f ∈ fs -> value_allowlists f !! t = value_rule (filter_prefix f) t es;
}.

Lemma prefixes_add e fs : prefixes (add_allowlist e fs) = if bool_decide (metric_prefix e ∈ prefixes fs) then prefixes fs else prefixes fs ++ [metric_prefix e].
Proof.
  induction fs as [|f fs IH]; [done|]. cbn [add_allowlist prefixes fmap list_fmap]. destruct (decide (filter_prefix f = metric_prefix e)) as [He|He].
  - rewrite !bool_decide_true by (try done; rewrite He; left). done.
  - rewrite (bool_decide_false (filter_prefix f = _)) by done. cbn [fmap list_fmap]. unfold prefixes in IH. rewrite IH.
    destruct (decide (metric_prefix e ∈ filter_prefix <$> fs)); [rewrite !bool_decide_true by set_solver|rewrite !bool_decide_false by set_solver]; done.
Qed.

Lemma elem_of_add e fs f : NoDup (prefixes fs) -> f ∈ add_allowlist e fs ->
  (f ∈ fs /\ filter_prefix f <> metric_prefix e) \/
  (filter_prefix f = metric_prefix e /\
   ((metric_prefix e ∉ prefixes fs /\ value_allowlists f = {[ tag_name e := compile_allowlist e ]}) \/
    exists g, g ∈ fs /\ filter_prefix g = metric_prefix e /\ value_allowlists f = <[tag_name e := compile_allowlist e]> (value_allowlists g))).
Proof.
  induction fs as [|g fs IH]; cbn [add_allowlist prefixes fmap list_fmap].
  { intros _ Hf. apply list_elem_of_singleton in Hf as ->. right. split; [done|]. left. split; [set_solver|done]. }
  rewrite NoDup_cons. intros [Hg Hnd]. case_bool_decide as He; rewrite elem_of_cons.
  - intros [->|Hf]; [right; split; [done|]; right; exists g; set_solver|]. left. split; [by right|].
    intros Heq. apply Hg. apply list_elem_of_fmap. exists f. split; [congruence|done].
  - intros [->|Hf]; [left; split; [left|done]|]. destruct (IH Hnd Hf) as [[H1 H2]|[H1 [[H2 H3]|(g' & H2 & H3 & H4)]]].
    + left. split; [by right|done].
    + right. split; [done|]. left. split; [|done]. apply not_elem_of_cons. split; [congruence|done].
    + right. split; [done|]. right. exists g'. split_and!; [by right|done..].
Qed.

Lemma add_allowlist_holds es fs e : holds es fs -> holds (es ++ [e]) (add_allowlist e fs).
Proof.
  intros [Hnd Hp Hr]. constructor.
  - rewrite prefixes_add. case_bool_decide; [done|]. apply NoDup_app. split_and!; [done|set_solver|apply NoDup_singleton].
  - intros p. rewrite prefixes_add, fmap_app, elem_of_app, <- Hp. cbn [fmap list_fmap].
    case_bool_decide; rewrite ?elem_of_app, list_elem_of_singleton; naive_solver.
  - intros f t Hf. rewrite value_rule_snoc. destruct (elem_of_add e fs f Hnd Hf) as [[H1 H2]|[H1 H2]].
    + rewrite bool_decide_false by done. by apply Hr.
    + rewrite bool_decide_true by done. cbn [andb]. destruct H2 as [[H2 ->]|(g & Hg & Hgp & ->)].
      * case_bool_decide as Ht; [by rewrite <- Ht, lookup_singleton_eq|]. rewrite lookup_singleton_ne by done.
        unfold value_rule. rewrite H1. replace (List.filter _ es) with ([] : list MetricTagValueAllowlistEntry); [done|]. symmetry.
        rewrite Hp in H2. clear -H2. induction es as [|e' es IH]; [done|]. cbn [List.filter]. rewrite bool_decide_false by set_solver. apply IH. set_solver.
      * case_bool_decide as Ht; [by rewrite Ht, lookup_insert_eq|]. rewrite lookup_insert_ne by done. rewrite (Hr g t Hg), H1, Hgp. done.
Qed.

Lemma add_all_holds es : holds es (foldl (fun fs e => add_allowlist e fs) [] es).
Proof.
  induction es as [|e es IH] using rev_ind; [constructor; [constructor|set_solver|set_solver]|]. rewrite foldl_snoc. by apply add_allowlist_holds.
Qed.

Lemma holds_perm es fs gs : fs ≡ₚ gs -> holds es fs -> holds es gs.
Proof.
  intros Hp [H1 H2 H3]. unfold prefixes in *. constructor; unfold prefixes.
  - by rewrite <- Hp.
  - intros p. by rewrite <- Hp.
  - intros f t Hf. apply H3. by rewrite Hp.
Qed.

(** Prefixes of the rules that are different do not extend one another, as the configuration requires. *)
Definition disjoint_prefixes (es : list MetricTagValueAllowlistEntry) : Prop :=
  forall e1 e2, e1 ∈ es -> e2 ∈ es -> metric_prefix e1 `prefix_of` metric_prefix e2 -> metric_prefix e1 = metric_prefix e2.

(** The rule for a metric and a tag: the last entry whose prefix the metric's name has. *)
Definition rule_for (n t : bytes) (es : list MetricTagValueAllowlistEntry) : option CompiledTagValueAllowlist :=
  compile_allowlist <$> last (List.filter (fun e => starts_with n (metric_prefix e) && bool_decide (tag_name e = t)) es).

Lemma sorted_filters fs : StronglySorted (fun x y => str_le (filter_prefix x) (filter_prefix y) = true) (sort_filters fs).
Proof. apply stable_sort_sorted; intros; eauto using str_le_total, str_le_trans. Qed.

Lemma value_filter_for_spec keys es n t : disjoint_prefixes es ->
  (value_filter_for (value_prefix_filters (add_value_allowlists (compile_filters keys) es)) n ≫= fun f => value_allowlists f !! t) = rule_for n t es.
Proof.
  intros Hdis. cbn [add_value_allowlists value_prefix_filters compile_filters]. set (fs := sort_filters _).
  assert (Hh : holds es fs). { eapply holds_perm; [symmetry; apply stable_sort_perm|apply add_all_holds]. }
  assert (Hspec : forall f, value_filter_for fs n = Some f <-> f ∈ fs /\ filter_prefix f `prefix_of` n).
  { intros f. apply find_matching_prefix_spec; [apply sorted_filters|]. intros i j x y Hx Hy Hxy. destruct Hh as [Hnd Hp _].
    assert (Hpx : filter_prefix x ∈ prefixes fs) by (apply list_elem_of_fmap_2; by eapply list_elem_of_lookup_2).
    assert (Hpy : filter_prefix y ∈ prefixes fs) by (apply list_elem_of_fmap_2; by eapply list_elem_of_lookup_2).
    rewrite Hp in Hpx, Hpy. apply list_elem_of_fmap in Hpx as (ex & Ex & Hex). apply list_elem_of_fmap in Hpy as (ey & Ey & Hey).
    assert (filter_prefix x = filter_prefix y) as E by (rewrite Ex, Ey in *; by apply Hdis).
    eapply NoDup_lookup; [exact Hnd| |]; unfold prefixes; rewrite list_lookup_fmap; [by rewrite Hx|by rewrite Hy, E]. }
  unfold rule_for. destruct (value_filter_for fs n) as [f|] eqn:Ef; cbn [mbind option_bind].
  - destruct (proj1 (Hspec f) eq_refl) as [Hf Hfn]. rewrite (holds_rules _ _ Hh f t Hf). unfold value_rule. do 2 f_equal.
    apply List.filter_ext_in. intros e He. apply list_elem_of_In in He. f_equal. apply Bool.eq_true_iff_eq. rewrite bool_decide_eq_true, starts_with_prefix.
    split; [by intros ->|]. intros Hen.
    assert (Hfp : filter_prefix f ∈ prefixes fs) by (by apply list_elem_of_fmap_2). rewrite (holds_prefixes _ _ Hh) in Hfp.
    apply list_elem_of_fmap in Hfp as (e' & Efe & He'). rewrite Efe in *. destruct (prefix_weak_total _ _ _ Hen Hfn); [by apply Hdis|symmetry; by apply Hdis].
  - replace (List.filter _ es) with ([] : list MetricTagValueAllowlistEntry); [done|]. symmetry.
    destruct (List.filter _ es) as [|e l] eqn:El; [done|]. exfalso.
    assert (He : In e (e :: l)) by (by left). rewrite <- El in He. apply List.filter_In in He as [He [Hs _]%andb_true_iff].
    apply list_elem_of_In in He. apply starts_with_prefix in Hs.
    assert (Hp : metric_prefix e ∈ prefixes fs) by (apply (holds_prefixes _ _ Hh); by apply list_elem_of_fmap_2).
    apply list_elem_of_fmap in Hp as (f & Hfe & Hf). assert (Hno : None = Some f); [|done]. apply Hspec. split; [done|]. by rewrite <- Hfe.
Qed.

(** ** What filtering does to tags *)

Section filter_tag.
Context (kf : option CompiledKeyFilter) (vf : option CompiledValuePrefixFilter).

Definition keeps (t : Tag) : bool := (filter_tag kf vf [] t).1.
Definition replaced_by (t : Tag) : option Tag := head (filter_tag kf vf [] t).2.
Definition rewrite_tag (t : Tag) : option Tag := if keeps t then Some t else replaced_by t.

Lemma filter_tag_spec st t : filter_tag kf vf st t = (keeps t, st ++ option_list (replaced_by t)).
Proof. unfold keeps, replaced_by, filter_tag. repeat case_match; cbn [fst snd head option_list app]; by rewrite ?app_nil_r. Qed.

Lemma replaced_not_kept t r : replaced_by t = Some r -> keeps t = false.
Proof. unfold keeps, replaced_by, filter_tag. by repeat case_match. Qed.

Lemma filter_tag_verdict st t : (filter_tag kf vf st t).1 = keeps t.
Proof. by rewrite filter_tag_spec. Qed.

Lemma visit_filter_tag st l : foldl (visit (filter_tag kf vf)) st l = st ++ omap replaced_by l.
Proof.
  revert st. induction l as [|t l IH]; intros st; cbn [foldl omap list_omap]; [by rewrite app_nil_r|].
  unfold visit at 2. rewrite filter_tag_spec. cbn [snd]. rewrite IH, <- app_assoc. by destruct (replaced_by t).
Qed.

(** [new] has the tags of [old] that are kept, in their order, then the replacements that were missing. *)
Definition rewritten (old new : TagSet) : Prop :=
  exists extra, effective new = List.filter keeps (effective old) ++ extra /\ NoDup extra /\
    forall t, t ∈ extra <-> t ∉ List.filter keeps (effective old) /\ exists t0, t0 ∈ effective old /\ replaced_by t0 = Some t.

Lemma rewritten_image old new : rewritten old new ->
  forall t, t ∈ effective new <-> exists t0, t0 ∈ effective old /\ rewrite_tag t0 = Some t.
Proof.
  intros (extra & -> & _ & He) t. rewrite elem_of_app, He, !list_elem_of_In, List.filter_In, <- !list_elem_of_In. unfold rewrite_tag. split.
  - intros [[H1 H2]|[_ (t0 & H1 & H2)]]; [exists t; by rewrite H2|]. exists t0. split; [done|]. by rewrite (replaced_not_kept _ _ H2).
  - intros (t0 & H1 & H2). destruct (keeps t0) eqn:E; [left; naive_solver|].
    destruct (decide (t ∈ effective old /\ keeps t = true)); [by left|right]. split; [done|]. by exists t0.
Qed.

Lemma accepts_one (p : Tag -> bool) l : List.filter (accepts [p]) l = List.filter p l.
Proof. apply List.filter_ext. intros t. unfold accepts. cbn [forallb]. apply andb_true_r. Qed.

Lemma rewritten_insert ts ts1 ts' rs : effective ts1 = List.filter keeps (effective ts) ->
  abstract ts' = a_merge rs (abstract ts1) -> (forall t, t ∈ rs <-> exists t0, t0 ∈ effective ts /\ replaced_by t0 = Some t) -> rewritten ts ts'.
Proof.
  intros H1 H2 Hrs. destruct (a_merge_all rs (abstract ts1)) as (extra & He & Hnd & Hin). exists extra.
  rewrite <- H2 in He. change (a_all (abstract ?x)) with (effective x) in *. rewrite H1 in *. split_and!; [done..|].
  intros t. rewrite Hin, Hrs. naive_solver.
Qed.

Lemma omap_replaced (l : list Tag) t : t ∈ omap replaced_by l <-> exists t0, t0 ∈ l /\ replaced_by t0 = Some t.
Proof. apply list_elem_of_omap. Qed.

(** A scan of a clean state visits every tag: the additions, then the base. *)
Lemma visited_clean ts br ar : (forall i, BitSet_is_set br i = false) -> (forall i, BitSet_is_set ar i = false) ->
  visited ts br ar = added_tags ts ++ base_tags ts.
Proof.
  intros Hb Ha. unfold visited, base_tags. f_equal; [apply keep_true; intros i _; by rewrite Ha|].
  apply keep_ext. intros i _. by rewrite Hb, andb_true_r.
Qed.

Lemma added_base_effective ts (P : Tag -> Prop) : (exists t, t ∈ added_tags ts ++ base_tags ts /\ P t) <-> exists t, t ∈ effective ts /\ P t.
Proof. unfold effective. setoid_rewrite elem_of_app. naive_solver. Qed.
End filter_tag.

Section filtering.
Context `{FastHasher}.

Definition outcome_of (kf : option CompiledKeyFilter) (vf : option CompiledValuePrefixFilter) (c : Context) : FilterMetricTagsOutcome :=
  match kf, vf with
  | None, None => RuleMiss
  | _, _ =>
      let removed := length (List.filter (fun t => negb (keeps kf vf t)) (effective (c_tags c) ++ effective (origin_tags c))) in
      if (removed =? 0)%nat then NoChange else Modified removed
  end.

Lemma insert_both_spec rs os c : context_ok c -> exists c',
  match rs, os with
  | [], [] => Some c
  | _, _ => with_tag_sets_mut (fun ts ots => ts' ← insert_all rs ts; os' ← insert_all os ots; Some (ts', os')) c
  end = Some c' /\ context_ok c' /\ name c' = name c /\ host c' = host c /\
  abstract (c_tags c') = a_merge rs (abstract (c_tags c)) /\ abstract (origin_tags c') = a_merge os (abstract (origin_tags c)) /\
  (rs = [] -> os = [] -> c' = c).
Proof.
  intros Hc. pose proof Hc as [Hk Ht Ho].
  assert (Hgen : exists c', with_tag_sets_mut (fun ts ots => ts' ← insert_all rs ts; os' ← insert_all os ots; Some (ts', os')) c = Some c' /\
    context_ok c' /\ name c' = name c /\ host c' = host c /\
    abstract (c_tags c') = a_merge rs (abstract (c_tags c)) /\ abstract (origin_tags c') = a_merge os (abstract (origin_tags c))).
  { destruct (insert_fold_spec rs (c_tags c) Ht) as (ts & Hts & Hok1 & Ha1). destruct (insert_fold_spec os (origin_tags c) Ho) as (ots & Hots & Hok2 & Ha2).
    unfold with_tag_sets_mut, insert_all. rewrite Hts. cbn [mbind option_bind]. rewrite Hots. cbn [mbind option_bind].
    destruct (recalculate_key_spec (set_tag_sets ts ots c)) as (c' & -> & Hc' & Hn & Hh & Ect & Eot); [done..|].
    exists c'. rewrite Ect, Eot. by split_and!. }
  destruct rs as [|r rs]; [destruct os as [|o os]|]; [by exists c|destruct Hgen as (c' & ? & ? & ? & ? & ? & ?); exists c'; by split_and!..].
Qed.

Lemma dropped_one p ts : dropped [p] ts = length (List.filter (fun t => negb (p t)) (effective ts)).
Proof. unfold dropped. f_equal. apply List.filter_ext. intros t. unfold accepts. cbn [forallb]. by rewrite andb_true_r. Qed.

Lemma omap_all_kept kf vf (l : list Tag) : length (List.filter (fun t => negb (keeps kf vf t)) l) = O -> omap (replaced_by kf vf) l = [].
Proof.
  induction l as [|t l IH]; [done|]. cbn [List.filter omap list_omap]. destruct (keeps kf vf t) eqn:E; cbn [negb length]; [|done]. intros Hl.
  destruct (replaced_by kf vf t) eqn:Er; [by rewrite (replaced_not_kept _ _ _ _ Er) in E|by apply IH].
Qed.

Lemma filter_metric_tags_spec c s fs : context_ok c -> scratch_clean s ->
  let kf := key_filters fs !! name c in let vf := value_filter_for (value_prefix_filters fs) (name c) in
  exists c' s', filter_metric_tags c s fs = Some (outcome_of kf vf c, c', s') /\ scratch_clean s' /\ context_ok c' /\
    name c' = name c /\ host c' = host c /\ rewritten kf vf (c_tags c) (c_tags c') /\ rewritten kf vf (origin_tags c) (origin_tags c') /\
    (outcome_of kf vf c = NoChange \/ outcome_of kf vf c = RuleMiss -> c' = c).
Proof.
  intros Hc Hs kf vf. unfold filter_metric_tags. fold kf vf.
  assert (Hmiss : kf = None -> vf = None -> forall ts, rewritten kf vf ts ts).
  { intros -> -> ts. exists []. assert (Hall : forall t, keeps None None t = true) by (intros t; unfold keeps, filter_tag; cbn; by destruct (Tag_value t)).
    rewrite app_nil_r. split_and!; [|constructor|].
    - symmetry. apply forallb_filter_id. apply forallb_forall. intros; apply Hall.
    - intros t. split; [set_solver|]. intros (_ & t0 & _ & Hr). apply replaced_not_kept in Hr. by rewrite Hall in Hr. }
  destruct (decide (kf = None /\ vf = None)) as [[Ek Ev]|Hrule].
  { exists c, s. unfold outcome_of. rewrite Ek, Ev in *. by split_and!; auto. }
  assert (Hif : forall {A} (x y : A), match kf, vf with None, None => x | _, _ => y end = y).
  { intros A x y. destruct kf; [done|]. destruct vf; [done|]. by destruct Hrule. }
  unfold outcome_of. rewrite !Hif. clear Hif Hmiss Hrule.
  pose proof (clean_recorded c s Hs) as Hr0. unfold scratch_clean in Hs. rewrite !Forall_cons in Hs.
  destruct Hs as ((_ & Hc1) & (_ & Hc2) & (_ & Hc3) & (_ & Hc4) & _).
  destruct (View_retain_tags_spec (filter_tag kf vf) (keeps kf vf) (filter_tag_verdict kf vf) [] [] [] c s Hr0) as (s1 & -> & Hr1 & Eb & Ea).
  cbn [mbind option_bind]. rewrite visit_filter_tag, visited_clean by done.
  destruct (View_retain_origin_tags_spec (filter_tag kf vf) (keeps kf vf) (filter_tag_verdict kf vf) _ _ [] c s1 Hr1) as (s2 & -> & Hr2).
  cbn [mbind option_bind]. rewrite visit_filter_tag, visited_clean by (intros; by rewrite ?Eb, ?Ea).
  destruct (View_finish_spec _ _ c s2 Hc Hr2) as (c1 & s3 & -> & Hclean & Hok1 & Hn1 & Hh1 & Ht1 & Ho1 & Hsame). cbn [mbind option_bind app] in *.
  rewrite !accepts_one in Ht1, Ho1. rewrite !dropped_one in Hsame |- *.
  destruct (insert_both_spec (omap (replaced_by kf vf) (added_tags (c_tags c) ++ base_tags (c_tags c)))
    (omap (replaced_by kf vf) (added_tags (origin_tags c) ++ base_tags (origin_tags c))) c1 Hok1) as (c2 & Hc' & Hok2 & Hn2 & Hh2 & Ht2 & Ho2 & Hsame2).
  rewrite Hc'. cbn [mbind option_bind]. exists c2, s3. rewrite List.filter_app, length_app.
  split_and!; [done|done|done|congruence|congruence| | |].
  - eapply rewritten_insert; [exact Ht1|exact Ht2|]. intros t. rewrite omap_replaced. apply added_base_effective.
  - eapply rewritten_insert; [exact Ho1|exact Ho2|]. intros t. rewrite omap_replaced. apply added_base_effective.
  - destruct (_ =? 0)%nat eqn:E; nat_cases; [|by intros []]. intros _.
    assert (Hperm : forall ts, length (List.filter (fun t => negb (keeps kf vf t)) (effective ts)) = O ->
      omap (replaced_by kf vf) (added_tags ts ++ base_tags ts) = []).
    { intros ts Hz. apply omap_all_kept. unfold effective in Hz. rewrite List.filter_app, length_app in Hz |- *. lia. }
    rewrite Hsame2 by (apply Hperm; lia). apply Hsame. lia.
Qed.
End filtering.

(** ** The rules, from the entries of the configuration *)

(** What the rules make of a tag of a metric: nothing, itself, or its replacement. *)
Definition spec_tag (keys : list MetricTagFilterEntry) (vals : list MetricTagValueAllowlistEntry) (metric : bytes) (t : Tag) : option Tag :=
  let named_kept :=
    match merged_rule metric keys with
    | Some r => xorb (is_exclude r) (bool_decide (Tag_name t ∈ tag_names r))
    | None => true
    end in
  if named_kept then
    match Tag_value t, rule_for metric (Tag_name t) vals with
    | Some v, Some allow =>
        if bool_decide (v ∈ allowed_values allow) then Some t
        else match compiled_on_miss allow with CompiledRemove => None | CompiledReplace r => Some r end
    | _, _ => Some t
    end
  else None.

Lemma rewrite_tag_spec keys vals metric t : disjoint_prefixes vals ->
  rewrite_tag (key_filters (compile_all_filters keys vals) !! metric)
    (value_filter_for (value_prefix_filters (compile_all_filters keys vals)) metric) t = spec_tag keys vals metric t.
Proof.
  intros Hd. pose proof (value_filter_for_spec keys vals metric (Tag_name t) Hd) as Hv. unfold compile_all_filters.
  cbn [add_value_allowlists key_filters]. rewrite compile_filters_merged. unfold rewrite_tag, keeps, replaced_by, filter_tag, spec_tag. rewrite Hv.
  set (kept := match merged_rule metric keys with Some r => xorb _ _ | None => true end).
  assert (Hk : match merged_rule metric keys with Some kf => negb (should_keep_tag t (is_exclude kf) (tag_names kf)) | None => false end = negb kept).
  { unfold kept, should_keep_tag. destruct (merged_rule metric keys) as [r|]; [|done]. by destruct (is_exclude r), (bool_decide _). }
  rewrite Hk. destruct kept; cbn [negb]; [|done]. destruct (Tag_value t) as [v|]; [|done]. destruct (rule_for _ _ _) as [al|]; [|done].
  case_bool_decide; [done|]. destruct (compiled_on_miss al) as [|r]; [done|]. case_bool_decide as E; [by rewrite E|done].
Qed.

(** [c'] is [c] with its tags as the rules want them. *)
Record follows_rules (f : bytes -> Tag -> option Tag) (c c' : Context) : Prop := {
  follows_name : name c' = name c;
  follows_host : host c' = host c;
  follows_tags : forall t, t ∈ effective (c_tags c') <-> exists t0, t0 ∈ effective (c_tags c) /\ f (name c) t0 = Some t;
  follows_origin : forall t, t ∈ effective (origin_tags c') <-> exists t0, t0 ∈ effective (origin_tags c) /\ f (name c) t0 = Some t;
}.

Lemma filter_follows `{FastHasher} keys vals c s : disjoint_prefixes vals -> context_ok c -> scratch_clean s ->
  exists outcome c' s', filter_metric_tags c s (compile_all_filters keys vals) = Some (outcome, c', s') /\
    scratch_clean s' /\ context_ok c' /\ follows_rules (spec_tag keys vals) c c' /\ (outcome = NoChange \/ outcome = RuleMiss -> c' = c).
Proof.
  intros Hd Hc Hs. destruct (filter_metric_tags_spec c s (compile_all_filters keys vals) Hc Hs) as (c' & s' & H1 & H2 & H3 & H4 & H5 & H6 & H7 & H8).
  eexists _, c', s'. split_and!; [exact H1|done|done| |exact H8]. constructor; [done|done| |]; intros t.
  - rewrite (rewritten_image _ _ _ _ H6 t). by setoid_rewrite (rewrite_tag_spec keys vals (name c) _ Hd).
  - rewrite (rewritten_image _ _ _ _ H7 t). by setoid_rewrite (rewrite_tag_spec keys vals (name c) _ Hd).
Qed.

(** ** Theorems *)

(** filtering a metric applies the rules of the configuration to every instrumented and every
    origin tag: the tags that it ends up with are exactly what the whole-tag rules for the metric's
    name (excluding rules win, rules of one action are joined) leave, with the values that the last
    matching allow-list does not have removed or replaced; the key of the context fits its new tags,
    the scratch state is clean again, and a metric that no rule changes keeps its very context. *)
Theorem filter_metric_tags_follows_rules `{FastHasher} (keys : list MetricTagFilterEntry) (vals : list MetricTagValueAllowlistEntry)
    (c : Context) (s : TagSetMutViewState) (Hvals : disjoint_prefixes vals) (Hc : context_ok c) (Hs : scratch_clean s) :
  exists outcome c' s', filter_metric_tags c s (compile_all_filters keys vals) = Some (outcome, c', s') /\
    scratch_clean s' /\ context_ok c' /\ follows_rules (spec_tag keys vals) c c' /\ (outcome = NoChange \/ outcome = RuleMiss -> c' = c).
Proof. by apply filter_follows. Qed.

Definition keep_env : list MetricTagFilterEntry := [{| metric_name := b "m"; action := Include; entry_tags := [b "env"] |}].
Definition allow_prod : list MetricTagValueAllowlistEntry :=
  [{| metric_prefix := b "m"; tag_name := b "env"; values := [b "dev"]; on_miss := MismatchReplace; replacement := b "other" |}].

Lemma allow_prod_disjoint : disjoint_prefixes allow_prod.
Proof. intros e1 e2 H1 H2 _. apply list_elem_of_singleton in H1, H2. by subst. Qed.

Lemma web_context_ok : @context_ok fnv web_context.
Proof. constructor; [vm_compute; reflexivity|split; [constructor|]|done]. intros i Hi. by rewrite live_new in Hi. Qed.

Lemma filter_metric_tags_follows_rules_witness : exists outcome c' s',
  @filter_metric_tags fnv web_context TagSetMutViewState_new (compile_all_filters keep_env allow_prod) = Some (outcome, c', s') /\
  b "env:other" ∈ effective (c_tags c').
Proof.
  destruct (@filter_metric_tags_follows_rules fnv keep_env allow_prod web_context TagSetMutViewState_new allow_prod_disjoint web_context_ok new_is_clean)
    as (outcome & c' & s' & H1 & _ & _ & Hf & _).
  exists outcome, c', s'. split; [exact H1|]. apply (follows_tags _ _ _ Hf). exists (b "env:prod"). split; [|vm_compute; reflexivity].
  vm_compute. left.
Defined.

(** *** The cache of filtered contexts *)

Section transform.
Context `{FastHasher} {O : CacheOps ContextKey (option (Context * nat))} {L : CacheLaws ContextKey (option (Context * nat)) O}.
Context {S : Type} (vals : list MetricTagValueAllowlistEntry) (Hvals : disjoint_prefixes vals).

Definition same_parts (c d : Context) : Prop :=
  name c = name d /\ host c = host d /\ (forall t, t ∈ effective (c_tags c) <-> t ∈ effective (c_tags d)) /\
  (forall t, t ∈ effective (origin_tags c) <-> t ∈ effective (origin_tags d)).

(** The contexts that come in: well formed, and told apart by their keys. *)
Context (U : Context -> Prop) (HU : forall c, U c -> context_ok c) (Hkeys : forall c d, U c -> U d -> key c = key d -> same_parts c d).

Definition value_table : list CompiledValuePrefixFilter := value_prefix_filters (compile_all_filters [] vals).

(** The states of the transform: the entries that it has now, its fields, and the scratch state. *)
Record tf_state := { tf_entries : list MetricTagFilterEntry; tf : TagFilterlist; tf_scratch : TagSetMutViewState }.

Inductive tf_step : tf_state -> tf_state -> Prop :=
| step_event st (m m' : Metric Context S) tf' s' :
    U (metric_context m) -> filter_event (tf st) (tf_scratch st) m = Some (m', tf', s') ->
    tf_step st {| tf_entries := tf_entries st; tf := tf'; tf_scratch := s' |}
| step_entries st es empty : contents empty = ∅ ->
    tf_step st {| tf_entries := es; tf := update_entries es empty (tf st); tf_scratch := tf_scratch st |}
| step_loses st cc : loses (context_cache (tf st)) cc ->
    tf_step st {| tf_entries := tf_entries st;
                  tf := {| filters := filters (tf st); tf_value_filters := tf_value_filters (tf st); context_cache := cc |};
                  tf_scratch := tf_scratch st |}.

Inductive tf_reachable : tf_state -> Prop :=
| reach_start es empty : contents empty = ∅ ->
    tf_reachable {| tf_entries := es;
      tf := {| filters := compile_filters_with_values es value_table; tf_value_filters := value_table; context_cache := empty |};
      tf_scratch := TagSetMutViewState_new |}
| reach_step st st' : tf_reachable st -> tf_step st st' -> tf_reachable st'.

(** What is cached is what filtering gives. *)
Record tf_inv (st : tf_state) : Prop := {
  inv_filters : filters (tf st) = compile_all_filters (tf_entries st) vals;
  inv_values : tf_value_filters (tf st) = value_table;
  inv_scratch : scratch_clean (tf_scratch st);
  inv_cache : forall k v, contents (context_cache (tf st)) !! k = Some v ->
    exists c, U c /\ key c = k /\
      match v with
      | None => follows_rules (spec_tag (tf_entries st) vals) c c
      | Some (c', _) => context_ok c' /\ follows_rules (spec_tag (tf_entries st) vals) c c'
      end;
}.

Lemma follows_same_parts f c d c' : same_parts c d -> follows_rules f c c' -> follows_rules f d c'.
Proof.
  intros (Hn & Hh & Ht & Ho) [H1 H2 H3 H4]. constructor; [congruence|congruence| |]; intros t; rewrite <- Hn.
  - rewrite H3. by setoid_rewrite Ht.
  - rewrite H4. by setoid_rewrite Ho.
Qed.

Lemma follows_self_same f c d : same_parts c d -> follows_rules f c c -> follows_rules f d d.
Proof.
  intros Hs Hf. apply (follows_same_parts f c d c Hs) in Hf. destruct Hs as (Hn & Hh & Ht & Ho). destruct Hf as [H1 H2 H3 H4].
  constructor; [done|done| |]; intros t; [by rewrite <- Ht|by rewrite <- Ho].
Qed.

Lemma contents_insert_inv k v cc k' v' : contents (cache_insert k v cc) !! k' = Some v' -> (k' = k /\ v' = v) \/ contents cc !! k' = Some v'.
Proof. intros Hk. eapply lookup_weaken in Hk; [|apply insert_contents]. apply lookup_insert_Some in Hk. naive_solver. Qed.

(** One context: from the cache or filtered, it follows the rules, and the cache stays right. *)
Lemma filter_context_spec st c : tf_inv st -> U c -> exists c' tf' s',
  filter_context (tf st) (tf_scratch st) c = Some (c', tf', s') /\
  follows_rules (spec_tag (tf_entries st) vals) c c' /\ context_ok c' /\ tf_inv {| tf_entries := tf_entries st; tf := tf'; tf_scratch := s' |}.
Proof using HU Hkeys Hvals.
  intros [Hfil Hval Hscr Hcache] Hc. unfold filter_context. pose proof (get_result (key c) (context_cache (tf st))) as Hget.
  pose proof (get_contents (key c) (context_cache (tf st))) as Hcont. destruct (cache_get (key c) (context_cache (tf st))) as [cached cc]. cbn [fst snd] in *.
  assert (Hcc : forall k v, contents cc !! k = Some v -> exists c, U c /\ key c = k /\
      match v with
      | None => follows_rules (spec_tag (tf_entries st) vals) c c
      | Some (c', _) => context_ok c' /\ follows_rules (spec_tag (tf_entries st) vals) c c'
      end) by (intros k v; rewrite Hcont; apply Hcache).
  destruct cached as [[[d n]|]|].
  - destruct (Hcache (key c) (Some (d, n))) as (c0 & Hc0 & Hk & Hd & Hf); [done|]. eexists _, _, _. split; [done|].
    split; [eapply follows_same_parts; [|done]; by apply Hkeys|]. by split; [|constructor].
  - destruct (Hcache (key c) None) as (c0 & Hc0 & Hk & Hf); [done|]. eexists _, _, _. split; [done|].
    split; [eapply follows_self_same; [|done]; by apply Hkeys|]. by split; [apply HU|constructor].
  - destruct (filter_follows (tf_entries st) vals c (tf_scratch st) Hvals (HU c Hc) Hscr) as (outcome & c' & s' & H1 & H2 & H3 & H4 & H5).
    rewrite <- Hfil in H1. rewrite H1. cbn [mbind option_bind]. eexists _, _, _. split; [done|]. split_and!; [done|done|].
    constructor; cbn [tf tf_entries tf_scratch filters tf_value_filters context_cache]; [done..|]. intros k v Hk.
    destruct outcome as [| |n]; [by apply Hcc| |]; apply contents_insert_inv in Hk as [[-> ->]|Hk]; try by apply Hcc.
    + exists c. split_and!; [done..|]. rewrite H5 in H4 by auto. done.
    + exists c. by split_and!.
Qed.

Lemma filter_event_spec st (m : Metric Context S) : tf_inv st -> U (metric_context m) -> exists m' tf' s',
  filter_event (tf st) (tf_scratch st) m = Some (m', tf', s') /\ tf_inv {| tf_entries := tf_entries st; tf := tf'; tf_scratch := s' |} /\
  metric_values m' = metric_values m /\ metric_metadata m' = metric_metadata m /\
  (if filters_metric m then follows_rules (spec_tag (tf_entries st) vals) (metric_context m) (metric_context m') /\ context_ok (metric_context m')
   else m' = m).
Proof using HU Hkeys Hvals.
  intros Hi Hm. unfold filter_event. destruct (filters_metric m) eqn:E.
  - destruct (filter_context_spec st (metric_context m) Hi Hm) as (c' & tf' & s' & -> & Hf & Hc' & Hi'). cbn [mbind option_bind]. eexists _, _, _. by split_and!.
  - eexists _, _, _. split; [done|]. by destruct st.
Qed.

Lemma tf_reachable_inv st : tf_reachable st -> tf_inv st.
Proof using HU Hkeys Hvals.
  induction 1 as [es empty He|st st' _ IH Hstep].
  - constructor; cbn [tf tf_entries tf_scratch filters tf_value_filters context_cache]; [done|done|apply new_is_clean|].
    intros k v. by rewrite He, lookup_empty.
  - destruct Hstep as [st m m' tf' s' Hm Hev|st es empty He|st cc Hl].
    + destruct (filter_event_spec st m IH Hm) as (m1 & tf1 & s1 & H1 & H2 & _). rewrite Hev in H1. by simplify_eq.
    + destruct IH as [H1 H2 H3 H4]. constructor; cbn [tf tf_entries tf_scratch filters tf_value_filters context_cache update_entries].
      * by rewrite H2.
      * done.
      * done.
      * intros k v. by rewrite He, lookup_empty.
    + destruct IH as [H1 H2 H3 H4]. constructor; cbn [tf tf_entries tf_scratch filters tf_value_filters context_cache]; [done..|].
      intros k v Hk. apply H4. eapply lookup_weaken; [done|]. by apply loses_contents.
Qed.

(** C27: in every state that the transform can reach, through any metrics, any updates of its rules and
    whatever the cache forgets, a counter or distribution leaves it with the tags that the current rules
    make of them, from the cache as much as without it, and every other metric leaves it as it came;
    provided that contexts with one key have the same parts. *)
Theorem filter_cache_is_transparent (st : tf_state) (m : Metric Context S) (Hreach : tf_reachable st) (Hm : U (metric_context m)) :
  exists m' tf' s', filter_event (tf st) (tf_scratch st) m = Some (m', tf', s') /\
    metric_values m' = metric_values m /\ metric_metadata m' = metric_metadata m /\
    (if filters_metric m then follows_rules (spec_tag (tf_entries st) vals) (metric_context m) (metric_context m') /\ context_ok (metric_context m')
     else m' = m).
Proof using HU Hkeys Hvals.
  destruct (filter_event_spec st m (tf_reachable_inv st Hreach) Hm) as (m' & tf' & s' & H1 & _ & H2). by exists m', tf', s'.
Qed.
End transform.

Definition small_cache : RawCache ContextKey (option (Context * nat)) := fifo 8.
Definition empty_cache : @cache _ _ (@cache_ops _ _ _ _ small_cache) :=
  (@Cache_new _ _ _ _ small_cache ([] : list (ContextKey * option (Context * nat))) 30, 0).
Definition web_counter : Metric Context unit := MkMetric web_context (Counter []) {| origin := None; unit_ := EmptyString |}.

Lemma filter_cache_is_transparent_witness :
  let start := {| tf_entries := keep_env;
    tf := {| filters := compile_filters_with_values keep_env (value_table allow_prod); tf_value_filters := value_table allow_prod;
             context_cache := empty_cache |};
    tf_scratch := TagSetMutViewState_new |} in
  exists m' tf' s', @filter_event fnv (@cache_ops _ _ _ _ small_cache) unit (tf start) (tf_scratch start) web_counter = Some (m', tf', s') /\
    b "env:other" ∈ effective (c_tags (metric_context m')).
Proof.
  intros start.
  destruct (@filter_cache_is_transparent fnv (@cache_ops _ _ _ _ small_cache) (@cache_laws _ _ _ _ small_cache) unit allow_prod allow_prod_disjoint
    (fun c => c = web_context) ltac:(intros c ->; exact web_context_ok) ltac:(intros c d -> -> _; done) start web_counter
    ltac:(apply (@reach_start fnv (@cache_ops _ _ _ _ small_cache) (@cache_laws _ _ _ _ small_cache) unit allow_prod (fun c => c = web_context) keep_env empty_cache); reflexivity)
    eq_refl) as (m' & tf' & s' & H1 & _ & _ & Hf & _).
  exists m', tf', s'. split; [exact H1|]. apply (follows_tags _ _ _ Hf). exists (b "env:prod"). split; [vm_compute; left|vm_compute; reflexivity].
Defined.
