(* ===== verification/ContextResolver.v ===== *)
(** * Resolving contexts

    [saluki-core/src/data_model/event/metric/context/resolver.rs].  A resolver turns a name, a host and
    tags into a [Context], interning the strings, and keeps contexts by their key and tag sets by theirs
    in two caches.  The caches are [CacheOps] with [CacheLaws]; the interners of the two resolvers, which
    may be one, are an interface: interning a string succeeds with that string, or fails.  A string that
    can be cloned cheaply ([CheapMetaString]) is not interned. *)

From Stdlib Require Import Strings.String ZArith Lia.
From stdpp Require Import base tactics list numbers gmap.
From S2P Require Import Prelude Bytes BitSet TagSet TagSetProofs Context Cache.
Open Scope Z_scope.

(** Which of the two resolvers interns. *)
Inductive Interning := ForContexts | ForTags.

Class StringInterners := {
  interners : Type;
  try_intern : Interning -> bytes -> interners -> option bytes * interners;
  try_intern_same : forall w s i r, (try_intern w s i).1 = Some r -> r = s;
}.

(** A string argument, and whether it can be cloned cheaply. *)
Record Str := { str : bytes; cheap : bool }.

Section resolver.
Context `{FastHasher} `{StringInterners}.
Context {OC : CacheOps ContextKey Context} {OT : CacheOps TagSetKey SharedTagSet}.

Record TagsResolver := { tagset_cache : @cache _ _ OT; t_allow_heap_allocations : bool }.
Record ContextResolver := {
  caching_enabled : bool;
  context_cache : @cache _ _ OC;
  hash_seen_buffer : gset Z;
  allow_heap_allocations : bool;
  tags_resolver : TagsResolver;
}.

(** The interners, and the next address that an allocation gets. *)
Record World := { w_interners : interners; next_arc : positive }.
Definition set_interners (i : interners) (w : World) : World := {| w_interners := i; next_arc := next_arc w |}.

(** [intern] of both resolvers. *)
Definition intern (which : Interning) (allow_heap : bool) (s : Str) (w : World) : option bytes * World :=
  if cheap s then (Some (str s), w)
  else
    let '(r, i) := try_intern which (str s) (w_interners w) in
    (match r with Some m => Some m | None => if allow_heap then Some (str s) else None end, set_interners i w).

(** The loop of [create_tag_set]: the first string that cannot be interned ends it. *)
Fixpoint intern_tags (allow_heap : bool) (tags : list Str) (ts : TagSet) (w : World) : option (option TagSet * World) :=
  match tags with
  | [] => Some (Some ts, w)
  | tag :: tags' =>
      match intern ForTags allow_heap tag w with
      | (None, w) => Some (None, w)
      | (Some t, w) => ts ← insert_tag t ts; intern_tags allow_heap tags' ts w
      end
  end.

Definition create_tag_set (tr : TagsResolver) (tags : list Str) (w : World) : option (option SharedTagSet * World) :=
  '(r, w) ← intern_tags (t_allow_heap_allocations tr) tags TagSet_default w;
  match r with
  | None => Some (None, w)
  | Some ts =>
      s ← into_shared (next_arc w) ts;
      Some (Some s, {| w_interners := w_interners w; next_arc := Pos.succ (next_arc w) |})
  end.

Definition get_tag_set (k : TagSetKey) (tr : TagsResolver) : option SharedTagSet * TagsResolver :=
  let '(r, c) := cache_get k (tagset_cache tr) in
  (r, {| tagset_cache := c; t_allow_heap_allocations := t_allow_heap_allocations tr |}).
Definition insert_tag_set (k : TagSetKey) (s : SharedTagSet) (tr : TagsResolver) : TagsResolver :=
  {| tagset_cache := cache_insert k s (tagset_cache tr); t_allow_heap_allocations := t_allow_heap_allocations tr |}.

Definition with_tags_resolver (tr : TagsResolver) (cr : ContextResolver) : ContextResolver :=
  {| caching_enabled := caching_enabled cr; context_cache := context_cache cr; hash_seen_buffer := hash_seen_buffer cr;
     allow_heap_allocations := allow_heap_allocations cr; tags_resolver := tr |}.
Definition with_context_cache (c : @cache _ _ OC) (cr : ContextResolver) : ContextResolver :=
  {| caching_enabled := caching_enabled cr; context_cache := c; hash_seen_buffer := hash_seen_buffer cr;
     allow_heap_allocations := allow_heap_allocations cr; tags_resolver := tags_resolver cr |}.

Definition create_context_key_with_host (nm : bytes) (h : option bytes) (tags origin : list bytes) (cr : ContextResolver) :
    ContextKey * TagSetKey * ContextResolver :=
  let '(ck, tk, seen) := hash_context_with_host_and_seen nm h tags origin (hash_seen_buffer cr) in
  (ck, tk, {| caching_enabled := caching_enabled cr; context_cache := context_cache cr; hash_seen_buffer := seen;
              allow_heap_allocations := allow_heap_allocations cr; tags_resolver := tags_resolver cr |}).

Definition create_context (cr : ContextResolver) (k : ContextKey) (nm : Str) (h : option Str) (context_tags origin : SharedTagSet) (w : World) :
    option Context * World :=
  match intern ForContexts (allow_heap_allocations cr) nm w with
  | (None, w) => (None, w)
  | (Some context_name, w) =>
      let mk host := {| key := k; name := context_name; host := host; c_tags := TagSet_from_shared context_tags; origin_tags := TagSet_from_shared origin |} in
      match h with
      | None => (Some (mk None), w)
      | Some h =>
          match intern ForContexts (allow_heap_allocations cr) h w with
          | (None, w) => (None, w)
          | (Some context_host, w) => (Some (mk (Some context_host)), w)
          end
      end
  end.

(** [resolve_inner_with_host]; a [None] outside is a panic, a [None] inside a context that was not
    resolved. *)
Definition resolve_inner_with_host (nm : Str) (h : option Str) (tags : list Str) (origin : SharedTagSet) (cr : ContextResolver) (w : World) :
    option (option Context * ContextResolver * World) :=
  origin_list ← shared_tags origin;
  let '(context_key, tagset_key, cr) := create_context_key_with_host (str nm) (str <$> h) (str <$> tags) origin_list cr in
  if negb (caching_enabled cr) then
    '(tag_set, w) ← create_tag_set (tags_resolver cr) tags w;
    let '(c, w) := create_context cr context_key nm h (default [] tag_set) origin w in
    Some (c, cr, w)
  else
    let '(hit, cc) := cache_get context_key (context_cache cr) in
    let cr := with_context_cache cc cr in
    match hit with
    | Some c => Some (Some c, cr, w)
    | None =>
        let '(known, tr) := get_tag_set tagset_key (tags_resolver cr) in
        '(tag_set, tr, w) ←
          match known with
          | Some tag_set => Some (tag_set, tr, w)
          | None =>
              '(created, w) ← create_tag_set tr tags w;
              let tag_set := default [] created in
              Some (tag_set, insert_tag_set tagset_key tag_set tr, w)
          end;
        let cr := with_tags_resolver tr cr in
        match create_context cr context_key nm h tag_set origin w with
        | (None, w) => Some (None, cr, w)
        | (Some c, w) => Some (Some c, with_context_cache (cache_insert context_key c (context_cache cr)) cr, w)
        end
    end.

Definition resolve_with_origin_tags (nm : Str) (tags : list Str) (origin : SharedTagSet) (cr : ContextResolver) (w : World) :
    option (option Context * ContextResolver * World) :=
  resolve_inner_with_host nm None tags origin cr w.
Definition resolve_with_optional_host_and_origin_tags (nm : Str) (h : option Str) (tags : list Str) (origin : SharedTagSet) (cr : ContextResolver) (w : World) :
    option (option Context * ContextResolver * World) :=
  resolve_inner_with_host nm h tags origin cr w.

(** [resolve_origin_tags]: without a resolver or an origin there are no origin tags. *)
Definition resolve_origin_tags {Origin} (resolver : option (Origin -> SharedTagSet)) (maybe_origin : option Origin) : SharedTagSet :=
  default [] (r ← resolver; o ← maybe_origin; Some (r o)).
Definition resolve_with_optional_host {Origin} (resolver : option (Origin -> SharedTagSet)) (nm : Str) (h : option Str) (tags : list Str)
    (maybe_origin : option Origin) (cr : ContextResolver) (w : World) : option (option Context * ContextResolver * World) :=
  resolve_inner_with_host nm h tags (resolve_origin_tags resolver maybe_origin) cr w.
Definition resolve {Origin} (resolver : option (Origin -> SharedTagSet)) (nm : Str) (tags : list Str)
    (maybe_origin : option Origin) (cr : ContextResolver) (w : World) : option (option Context * ContextResolver * World) :=
  resolve_inner_with_host nm None tags (resolve_origin_tags resolver maybe_origin) cr w.
End resolver.

(** ** Specification *)

Section specification.
Context `{FastHasher} `{StringInterners}.
Context {OC : CacheOps ContextKey Context} {LC : CacheLaws ContextKey Context OC}.
Context {OT : CacheOps TagSetKey SharedTagSet} {LT : CacheLaws TagSetKey SharedTagSet OT}.

(** What a client asks for. *)
Record Request := { r_name : Str; r_host : option Str; r_tags : list Str; r_origin : SharedTagSet }.

Definition r_key (r : Request) : ContextKey := key_of (str (r_name r)) (str <$> r_host r) (str <$> r_tags r) (flat (r_origin r)).
Definition r_tagset_key (r : Request) : TagSetKey := {| tk_hash := xor_all (hashes (str <$> r_tags r)) |}.

(** The context that [r] asks for. *)
Record answers (r : Request) (c : Context) : Prop := {
  a_name : name c = str (r_name r);
  a_host : host c = str <$> r_host r;
  a_tags : forall t, t ∈ effective (c_tags c) <-> t ∈ str <$> r_tags r;
  a_origin : forall t, t ∈ effective (origin_tags c) <-> t ∈ flat (r_origin r);
  a_ok : context_ok c;
}.

Definition same_request (r1 r2 : Request) : Prop :=
  str (r_name r1) = str (r_name r2) /\ str <$> r_host r1 = str <$> r_host r2 /\
  (forall t, t ∈ str <$> r_tags r1 <-> t ∈ str <$> r_tags r2) /\ (forall t, t ∈ flat (r_origin r1) <-> t ∈ flat (r_origin r2)).

(** The requests that are made; their keys do not collide. *)
Context (U : Request -> Prop)
  (Hkeys : forall r1 r2, U r1 -> U r2 -> r_key r1 = r_key r2 -> same_request r1 r2)
  (Htagkeys : forall r1 r2, U r1 -> U r2 -> r_tagset_key r1 = r_tagset_key r2 -> forall t, t ∈ str <$> r_tags r1 <-> t ∈ str <$> r_tags r2).

Definition resolve_request (r : Request) (cr : ContextResolver) (w : World) : option (option Context * ContextResolver * World) :=
  resolve_inner_with_host (r_name r) (r_host r) (r_tags r) (r_origin r) cr w.

(** Requests, and caches that forget. *)
Inductive res_step : ContextResolver * World -> ContextResolver * World -> Prop :=
| res_request r cr w c cr' w' : U r -> resolve_request r cr w = Some (c, cr', w') -> res_step (cr, w) (cr', w')
| res_loses_context cr w cc : loses (context_cache cr) cc -> res_step (cr, w) (with_context_cache cc cr, w)
| res_loses_tags cr w tc : loses (tagset_cache (tags_resolver cr)) tc ->
    res_step (cr, w) (with_tags_resolver {| tagset_cache := tc; t_allow_heap_allocations := t_allow_heap_allocations (tags_resolver cr) |} cr, w).

Definition resolver_start (caching : bool) (cc : @cache _ _ OC) (tc : @cache _ _ OT) : ContextResolver :=
  {| caching_enabled := caching; context_cache := cc; hash_seen_buffer := ∅; allow_heap_allocations := true;
     tags_resolver := {| tagset_cache := tc; t_allow_heap_allocations := true |} |}.

(** Resolvers that may allocate on the heap, which is the default. *)
Inductive res_reachable : ContextResolver * World -> Prop :=
| res_start caching cc tc w : contents cc = ∅ -> contents tc = ∅ -> res_reachable (resolver_start caching cc tc, w)
| res_next s s' : res_reachable s -> res_step s s' -> res_reachable s'.

Record res_inv (cr : ContextResolver) : Prop := {
  ri_heap : allow_heap_allocations cr = true;
  ri_theap : t_allow_heap_allocations (tags_resolver cr) = true;
  ri_contexts : forall k c, contents (context_cache cr) !! k = Some c -> exists r, U r /\ r_key r = k /\ answers r c;
  ri_tags : forall k s, contents (tagset_cache (tags_resolver cr)) !! k = Some s ->
    exists r, U r /\ r_tagset_key r = k /\ forall t, t ∈ flat s <-> t ∈ str <$> r_tags r;
}.

(** ** Lemmas *)

Lemma intern_heap which s w : exists w', intern which true s w = (Some (str s), w').
Proof.
  unfold intern. destruct (cheap s); [by eexists|]. pose proof (try_intern_same which (str s) (w_interners w)) as Hs.
  destruct (try_intern which (str s) (w_interners w)) as [[r|] i]; cbn [fst] in Hs; [|by eexists]. rewrite (Hs r eq_refl). by eexists.
Qed.

Lemma intern_tags_heap tags ts w : tagset_ok ts -> exists ts' w', intern_tags true tags ts w = Some (Some ts', w') /\ tagset_ok ts' /\
  abstract ts' = a_merge (str <$> tags) (abstract ts).
Proof.
  revert ts w. induction tags as [|t tags IH]; intros ts w Hok; cbn [intern_tags]; [by eexists _, _|].
  destruct (intern_heap ForTags t w) as [w1 ->]. destruct (insert_tag_spec (str t) ts Hok) as (ts1 & -> & Hok1 & Ha1). cbn [mbind option_bind].
  destruct (IH ts1 w1 Hok1) as (ts' & w' & H1 & H2 & H3). exists ts', w'. split_and!; [done..|]. by rewrite H3, Ha1.
Qed.

Lemma create_tag_set_heap tr tags w : t_allow_heap_allocations tr = true -> exists s w',
  create_tag_set tr tags w = Some (Some s, w') /\ forall t, t ∈ flat s <-> t ∈ str <$> tags.
Proof.
  intros Hh. unfold create_tag_set. rewrite Hh. destruct (intern_tags_heap tags TagSet_default w) as (ts & w1 & -> & Hok & Ha); [done|].
  cbn [mbind option_bind]. destruct (into_shared_spec (next_arc w1) ts) as (s & -> & Hs). cbn [mbind option_bind]. eexists _, _. split; [done|].
  intros t. rewrite Hs. destruct (a_merge_all (str <$> tags) (abstract TagSet_default)) as (extra & He & _ & Hin).
  rewrite <- Ha in He. change (a_all (abstract ts)) with (effective ts) in He. rewrite He. change (a_all (abstract TagSet_default)) with ([] : list Tag) in *.
  cbn [app]. rewrite Hin. set_solver.
Qed.

Lemma effective_from_shared s : effective (TagSet_from_shared s) = flat s.
Proof. unfold effective. cbn [TagSet_from_shared added_tags overlay]. rewrite app_nil_r. by apply keep_true. Qed.

Lemma create_context_heap cr r s w : allow_heap_allocations cr = true -> (forall t, t ∈ flat s <-> t ∈ str <$> r_tags r) -> exists c w',
  create_context cr (r_key r) (r_name r) (r_host r) s (r_origin r) w = (Some c, w') /\ answers r c.
Proof.
  intros Hh Hs. unfold create_context. rewrite Hh. destruct (intern_heap ForContexts (r_name r) w) as [w1 ->].
  assert (Hans : forall h, h = str <$> r_host r -> answers r {| key := r_key r; name := str (r_name r); host := h;
      c_tags := TagSet_from_shared s; origin_tags := TagSet_from_shared (r_origin r) |}).
  { intros h ->. constructor; cbn [name host c_tags origin_tags]; rewrite ?effective_from_shared; try done.
    constructor; cbn [key name host c_tags origin_tags]; rewrite ?effective_from_shared; [|done|done]. apply key_of_ext; [|done]. intros t. by rewrite Hs. }
  destruct (r_host r) as [h|]; [|eexists _, _; split; [done|]; by apply Hans].
  destruct (intern_heap ForContexts h w1) as [w2 ->]. eexists _, _. split; [done|]. by apply Hans.
Qed.

Lemma answers_same r1 r2 c : same_request r1 r2 -> answers r1 c -> answers r2 c.
Proof.
  intros (Hn & Hh & Ht & Ho) [H1 H2 H3 H4 H5]. constructor; [congruence|congruence|..]; [intros t; by rewrite H3|intros t; by rewrite H4|done].
Qed.

Lemma key_with_host r cr : create_context_key_with_host (str (r_name r)) (str <$> r_host r) (str <$> r_tags r) (flat (r_origin r)) cr =
  (r_key r, r_tagset_key r, {| caching_enabled := caching_enabled cr; context_cache := context_cache cr; hash_seen_buffer := hashes (flat (r_origin r));
    allow_heap_allocations := allow_heap_allocations cr; tags_resolver := tags_resolver cr |}).
Proof. unfold create_context_key_with_host. by rewrite hash_context_key. Qed.

(** The tag set that a miss of the context cache uses: a cached one, or a new one, which is cached. *)
Definition obtain_tag_set (r : Request) (tr : TagsResolver) (w : World) : option (SharedTagSet * TagsResolver * World) :=
  let '(known, tr) := get_tag_set (r_tagset_key r) tr in
  match known with
  | Some tag_set => Some (tag_set, tr, w)
  | None =>
      '(created, w) ← create_tag_set tr (r_tags r) w;
      let tag_set := default [] created in
      Some (tag_set, insert_tag_set (r_tagset_key r) tag_set tr, w)
  end.

Definition tags_inv (tr : TagsResolver) : Prop :=
  t_allow_heap_allocations tr = true /\ forall k s, contents (tagset_cache tr) !! k = Some s ->
    exists r, U r /\ r_tagset_key r = k /\ forall t, t ∈ flat s <-> t ∈ str <$> r_tags r.

Lemma obtain_tag_set_spec r tr w : tags_inv tr -> U r -> exists s tr' w',
  obtain_tag_set r tr w = Some (s, tr', w') /\ tags_inv tr' /\ forall t, t ∈ flat s <-> t ∈ str <$> r_tags r.
Proof using Hkeys Htagkeys.
  intros [Hh Hi] Hr. unfold obtain_tag_set, get_tag_set. pose proof (get_result (r_tagset_key r) (tagset_cache tr)) as Hget.
  pose proof (get_contents (r_tagset_key r) (tagset_cache tr)) as Hcont.
  destruct (cache_get (r_tagset_key r) (tagset_cache tr)) as [known tc]. cbn [fst snd] in *.
  set (tr1 := {| tagset_cache := tc; t_allow_heap_allocations := t_allow_heap_allocations tr |}).
  assert (Hi1 : tags_inv tr1) by (split; [done|]; cbn [tr1 tagset_cache]; intros k s; rewrite Hcont; apply Hi).
  destruct known as [s|].
  - destruct (Hi (r_tagset_key r) s) as (r' & Hr' & Hk & Hs); [done|]. eexists _, _, _. split; [done|]. split; [done|].
    intros t. rewrite Hs. by apply Htagkeys.
  - destruct (create_tag_set_heap tr1 (r_tags r) w) as (s & w' & -> & Hs); [done|]. cbn [mbind option_bind default from_option id].
    eexists _, _, _. split; [done|]. split; [|done]. split; [done|]. cbn [insert_tag_set tagset_cache]. intros k s' Hk.
    eapply lookup_weaken in Hk; [|apply insert_contents]. apply lookup_insert_Some in Hk as [[<- <-]|[_ Hk]]; [by exists r|].
    by apply (proj2 Hi1).
Qed.

(** One request. *)
Lemma resolve_request_spec r cr w : res_inv cr -> U r -> exists c cr' w',
  resolve_request r cr w = Some (Some c, cr', w') /\ answers r c /\ res_inv cr'.
Proof using Hkeys Htagkeys.
  intros [Hh Hth Hc Ht] Hr. unfold resolve_request, resolve_inner_with_host. rewrite shared_tags_flat. cbn [mbind option_bind].
  rewrite key_with_host. cbn [caching_enabled context_cache tags_resolver].
  destruct (caching_enabled cr) eqn:Ecache; cbn [negb].
  - pose proof (get_result (r_key r) (context_cache cr)) as Hget. pose proof (get_contents (r_key r) (context_cache cr)) as Hcont.
    destruct (cache_get (r_key r) (context_cache cr)) as [hit cc]. cbn [fst snd] in *.
    destruct hit as [c|].
    + destruct (Hc (r_key r) c) as (r' & Hr' & Hk & Ha); [done|]. eexists _, _, _. split; [done|].
      split; [eapply answers_same; [|done]; by apply Hkeys|]. constructor; cbn [with_context_cache allow_heap_allocations tags_resolver context_cache]; try done.
      intros k c'. rewrite Hcont. apply Hc.
    + cbn [with_context_cache tags_resolver].
      destruct (obtain_tag_set_spec r (tags_resolver cr) w) as (s & tr & w1 & Ho & [Hi1 Hi2] & Hs); [done|done|].
      unfold obtain_tag_set in Ho. destruct (get_tag_set (r_tagset_key r) (tags_resolver cr)) as [known tr0]. rewrite Ho. cbn [mbind option_bind].
      set (cr2 := with_tags_resolver tr _).
      destruct (create_context_heap cr2 r s w1) as (c & w2 & -> & Ha); [done|done|]. eexists _, _, _. split; [done|]. split; [done|].
      constructor; cbn [with_context_cache with_tags_resolver cr2 allow_heap_allocations tags_resolver context_cache]; try done.
      intros k c' Hk. eapply lookup_weaken in Hk; [|apply insert_contents]. apply lookup_insert_Some in Hk as [[<- <-]|[_ Hk]]; [by exists r|].
      rewrite Hcont in Hk. by apply Hc.
  - destruct (create_tag_set_heap (tags_resolver cr) (r_tags r) w Hth) as (s & w1 & -> & Hs). cbn [mbind option_bind default from_option id].
    match goal with |- context [create_context ?x] => destruct (create_context_heap x r s w1) as (c & w2 & -> & Ha); [done|done|] end.
    eexists _, _, _. split; [done|]. split; [done|]. by constructor.
Qed.

Lemma res_reachable_inv s : res_reachable s -> res_inv s.1.
Proof using Hkeys Htagkeys.
  induction 1 as [caching cc tc w Hcc Htc|s s' _ IH Hstep].
  - constructor; cbn [fst resolver_start allow_heap_allocations tags_resolver t_allow_heap_allocations context_cache tagset_cache]; [done..| |];
      intros k x; [rewrite Hcc|rewrite Htc]; by rewrite lookup_empty.
  - destruct Hstep as [r cr w c cr' w' Hr Hres|cr w cc Hl|cr w tc Hl]; cbn [fst] in *.
    + destruct (resolve_request_spec r cr w IH Hr) as (c1 & cr1 & w1 & H1 & _ & H2). rewrite Hres in H1. by simplify_eq.
    + destruct IH as [H1 H2 H3 H4]. constructor; cbn [with_context_cache allow_heap_allocations tags_resolver context_cache]; try done.
      intros k c Hk. apply H3. eapply lookup_weaken; [done|]. by apply loses_contents.
    + destruct IH as [H1 H2 H3 H4]. constructor; cbn [with_tags_resolver allow_heap_allocations tags_resolver context_cache tagset_cache t_allow_heap_allocations]; try done.
      intros k s Hk. apply H4. eapply lookup_weaken; [done|]. by apply loses_contents.
Qed.

(** C20: a resolver that may allocate on the heap, the default, answers every request, after any other
    requests, with any behaviour of the interners and with whatever the two caches forget, with or
    without caching: with a context that has the requested name and host, exactly the requested tags
    and origin tags, and the key of those parts, as long as the keys of the requests do not collide. *)
Theorem resolved_contexts_answer_requests (cr : ContextResolver) (w : World) (r : Request) (Hreach : res_reachable (cr, w)) (Hr : U r) :
  exists c cr' w', resolve_request r cr w = Some (Some c, cr', w') /\ answers r c.
Proof using Hkeys Htagkeys.
  destruct (resolve_request_spec r cr w (res_reachable_inv _ Hreach) Hr) as (c & cr' & w' & H1 & H2 & _). by exists c, cr', w'.
Qed.
End specification.

(** ** Witness and example *)

(** Interners that succeed as a list of outcomes says, and fail from its end on. *)
#[program] Definition scripted : StringInterners := {|
  interners := list bool;
  try_intern := fun _ s l => match l with [] => (None, []) | ok :: l' => (if (ok : bool) then Some s else None, l') end;
|}.
Next Obligation. intros _ s [|[] l] r; cbn; congruence. Qed.

Definition contexts_raw : RawCache ContextKey Context := fifo 8.
Definition tagsets_raw : RawCache TagSetKey SharedTagSet := fifo 8.
Definition no_contexts : @cache _ _ (@cache_ops _ _ _ _ contexts_raw) := (@Cache_new _ _ _ _ contexts_raw ([] : list (ContextKey * Context)) 30, 0).
Definition no_tagsets : @cache _ _ (@cache_ops _ _ _ _ tagsets_raw) := (@Cache_new _ _ _ _ tagsets_raw ([] : list (TagSetKey * SharedTagSet)) 30, 0).

Definition lit (s : string) : Str := {| str := b s; cheap := true |}.
Definition borrowed (s : string) : Str := {| str := b s; cheap := false |}.
Definition web_request : Request := {| r_name := borrowed "requests"; r_host := None; r_tags := [borrowed "env:prod"; borrowed "env:prod"]; r_origin := [] |}.

Abbreviation resolver_for heap := (@Build_ContextResolver (@cache_ops _ _ _ _ contexts_raw) (@cache_ops _ _ _ _ tagsets_raw) true no_contexts ∅ heap
  (@Build_TagsResolver (@cache_ops _ _ _ _ tagsets_raw) no_tagsets heap)).

Lemma resolved_contexts_answer_requests_witness : exists c cr' w',
  @resolve_request fnv scripted _ _ web_request (resolver_for true) (@Build_World scripted [false] 1) = Some (Some c, cr', w') /\
  b "env:prod" ∈ effective (c_tags c).
Proof.
  destruct (@resolved_contexts_answer_requests fnv scripted (@cache_ops _ _ _ _ contexts_raw) (@cache_laws _ _ _ _ contexts_raw)
    (@cache_ops _ _ _ _ tagsets_raw) (@cache_laws _ _ _ _ tagsets_raw) (fun r => r = web_request)
    ltac:(intros r1 r2 -> -> _; repeat split; done) ltac:(intros r1 r2 -> -> _; done) (resolver_for true) (@Build_World scripted [false] 1) web_request
    ltac:(apply res_start; reflexivity) eq_refl) as (c & cr' & w' & H1 & Ha).
  exists c, cr', w'. split; [exact H1|]. apply (a_tags _ _ Ha). vm_compute. left.
Defined.

(** Without heap allocations, a tag that cannot be interned makes the resolver use an empty tag set
    under the key of the full one, and cache it: the context comes back without its tags, and so does
    the next one with these tags, when the interner has room again. *)
Definition resolve_two (ok : list bool) : option (option (list Tag) * option (list Tag) * list bool) :=
  '(c, cr, w) ← @resolve_inner_with_host fnv scripted _ _ (lit "m") None [borrowed "env:prod"] [] (resolver_for false) (@Build_World scripted ok 1);
  '(c2, _, w2) ← @resolve_inner_with_host fnv scripted _ _ (lit "n") None [borrowed "env:prod"] [] cr w;
  Some (option_map (fun c => effective (c_tags c)) c, option_map (fun c => effective (c_tags c)) c2, @w_interners scripted w2).

Example full_interner_drops_tags :
  resolve_two [true] = Some (Some [b "env:prod"], Some [b "env:prod"], []) /\
  resolve_two [false; true; true] = Some (Some [], Some [], [true; true]).
Proof. split; vm_compute; reflexivity. Qed.
