(* ===== verification/AgentSketch.v ===== *)
(** * The Agent's sketch of [ddsketch/src/agent]

    [DDSketch] summarises a distribution: a value is mapped to a key, roughly its logarithm, and a
    sorted vector of bins counts the values of each key.  A bin holds a [u32], and a key whose count
    does not fit has several bins; when there are more bins than the limit, the lowest ones are folded
    into the lowest that is kept.  The sketch also keeps count, minimum, maximum, sum and average.

    [Config] has the constants that the build script computes; the logarithm and the power function of
    the platform are the parameter [Libm].  A panic is [None]. *)

From Stdlib Require Import ZArith Lia Floats.SpecFloat.
From stdpp Require Import base tactics list numbers.
From S2P Require Import Prelude Float64 MetricValues.
Open Scope Z_scope.

(** [f64::ln] and [f64::powf] *)
Class Libm := { f64_ln : f64 -> f64; f64_powf : f64 -> f64 -> f64 }.

Definition i16_max : Z := 32767.
Definition u32_max : Z := umax 32.
Definition wrap_i32 (z : Z) : Z := (z + 2 ^ 31) mod 2 ^ 32 - 2 ^ 31.

(** ** Bins *)

Definition MAX_BIN_WIDTH : Z := u32_max.

Record Bin := MkBin { k : Z; n : Z }.

#[export] Instance Bin_eq_dec : EqDecision Bin.
Proof. solve_decision. Defined.

(** The bin, and what did not fit. *)
Definition Bin_increment (by_ : Z) (bn : Bin) : Bin * Z :=
  let next := u64_add by_ (n bn) in
  if MAX_BIN_WIDTH <? next then (MkBin (k bn) MAX_BIN_WIDTH, next - MAX_BIN_WIDTH) else (MkBin (k bn) next, 0).

Definition generate_bins (key count : Z) : list Bin :=
  if count <? MAX_BIN_WIDTH then [MkBin key count]
  else
    let overflow := count mod MAX_BIN_WIDTH in
    (if negb (overflow =? 0) then [MkBin key overflow] else []) ++ replicate (Z.to_nat (count / MAX_BIN_WIDTH)) (MkBin key MAX_BIN_WIDTH).

Definition trim_left (bin_limit : Z) (bins : list Bin) : list Bin :=
  if (bin_limit =? 0) || (length bins <=? Z.to_nat bin_limit)%nat then bins
  else
    let num_to_remove := (length bins - Z.to_nat bin_limit)%nat in
    let missing := foldl (fun m bn => u64_add m (n bn)) 0 (take num_to_remove bins) in
    match drop num_to_remove bins with
    | [] => []
    | first :: rest => (Bin_increment missing first).1 :: rest
    end.

(** ** The configuration and the keys *)

Record Config := { bin_limit : Z; gamma_v : f64; gamma_ln : f64; norm_min : f64; norm_bias : Z }.

Section sketch.
Context `{Libm} (SKETCH_CONFIG : Config).

(** The lower bound of a bin.  The smallest [i16] is its own negation, so that the recursion of the
    source does not end for it. *)
Definition bin_lower_bound (key : Z) : option f64 :=
  let pos key :=
    if key =? i16_max then S754_infinity false
    else if key =? 0 then f64_zero
    else f64_powf (gamma_v SKETCH_CONFIG) (f64_of_Z (wrap_i32 (key - norm_bias SKETCH_CONFIG))) in
  if key <? 0 then if key =? - i16_max - 1 then None else Some (f64_neg (pos (- key))) else Some (pos key).

Definition log_gamma (v : f64) : f64 := f64_div (f64_ln v) (gamma_ln SKETCH_CONFIG).

Definition key_of_value (v : f64) : Z :=
  let key v :=
    if f64_eqb v f64_zero || (f64_ltb f64_zero v && f64_ltb v (norm_min SKETCH_CONFIG))
       || (f64_ltb v f64_zero && f64_ltb (f64_neg (norm_min SKETCH_CONFIG)) v) then 0
    else
      let rounded := f64_to_i 32 (f64_round_ties_even (log_gamma v)) in
      Z.max 1 (Z.min i16_max (wrap_i32 (rounded + norm_bias SKETCH_CONFIG))) in
  if f64_ltb v f64_zero then - key (f64_neg v) else key v.

(** ** The sketch *)

Record DDSketch := { bins : list Bin; count : Z; min : f64; max : f64; sum : f64; avg : f64 }.

Definition DDSketch_default : DDSketch :=
  {| bins := []; count := 0; min := f64_MAX; max := f64_MIN; sum := f64_zero; avg := f64_zero |}.
Definition DDSketch_clear (s : DDSketch) : DDSketch := DDSketch_default.
Definition DDSketch_is_empty (s : DDSketch) : bool := count s =? 0.

Definition set_bins (bs : list Bin) (s : DDSketch) : DDSketch :=
  {| bins := bs; count := count s; min := min s; max := max s; sum := sum s; avg := avg s |}.

(** [set_count], [set_sum], [set_avg], [set_min] and [set_max] override the statistics. *)
Definition set_count (c : Z) (s : DDSketch) : DDSketch :=
  {| bins := bins s; count := c; min := min s; max := max s; sum := sum s; avg := avg s |}.
Definition set_sum (x : f64) (s : DDSketch) : DDSketch :=
  {| bins := bins s; count := count s; min := min s; max := max s; sum := x; avg := avg s |}.
Definition set_avg (x : f64) (s : DDSketch) : DDSketch :=
  {| bins := bins s; count := count s; min := min s; max := max s; sum := sum s; avg := x |}.
Definition set_min (x : f64) (s : DDSketch) : DDSketch :=
  {| bins := bins s; count := count s; min := x; max := max s; sum := sum s; avg := avg s |}.
Definition set_max (x : f64) (s : DDSketch) : DDSketch :=
  {| bins := bins s; count := count s; min := min s; max := x; sum := sum s; avg := avg s |}.

Definition adjust_basic_stats (v : f64) (times : Z) (s : DDSketch) : DDSketch :=
  let c := u64_add (count s) times in
  {| bins := bins s;
     count := c;
     min := if f64_ltb v (min s) then v else min s;
     max := if f64_ltb (max s) v then v else max s;
     sum := f64_add (sum s) (f64_mul v (f64_of_Z times));
     avg := if times =? 1 then f64_add (avg s) (f64_div (f64_sub v (avg s)) (f64_of_Z c))
            else f64_add (avg s) (f64_div (f64_mul (f64_sub v (avg s)) (f64_of_Z times)) (f64_of_Z c)) |}.

(** The loops of [insert_key_counts]: the two cursors are the rests of the two vectors. *)
Fixpoint merge_key_counts (bs : list Bin) : list (Z * Z) -> list Bin :=
  fix go (counts : list (Z * Z)) :=
    match bs, counts with
    | [], _ => mjoin ((fun c => generate_bins c.1 c.2) <$> counts)
    | _, [] => bs
    | bn :: bs', (vk, kn) :: counts' =>
        match k bn ?= vk with
        | Gt => generate_bins vk kn ++ go counts'
        | Lt => bn :: merge_key_counts bs' counts
        | Eq => generate_bins (k bn) (u64_add (n bn) kn) ++ merge_key_counts bs' counts'
        end
    end.

Definition insert_key_counts (counts : list (Z * Z)) (s : DDSketch) : DDSketch :=
  set_bins (trim_left (bin_limit SKETCH_CONFIG) (merge_key_counts (bins s) counts)) s.

(** How many keys at the front are equal to the first. *)
Fixpoint leading_equal (key : Z) (keys : list Z) : nat :=
  match keys with
  | [] => 0
  | key' :: keys' => if key' =? key then S (leading_equal key keys') else 0
  end.
Definition buf_count_leading_equal (keys : list Z) : Z :=
  match keys with
  | [] => 0
  | [_] => 1
  | key :: _ => Z.of_nat (leading_equal key keys)
  end.

(** The loops of [insert_keys] on the rests of the bins and of the keys. *)
Fixpoint insert_keys_loop (fuel : nat) (bs : list Bin) (keys : list Z) : option (list Bin) :=
  match fuel with
  | O => None
  | S fuel' =>
      match bs, keys with
      | _, [] => Some bs
      | [], vk :: _ =>
          let kn := buf_count_leading_equal keys in
          (fun rest => generate_bins vk kn ++ rest) <$> insert_keys_loop fuel' [] (drop (Z.to_nat kn) keys)
      | bn :: bs', vk :: _ =>
          match k bn ?= vk with
          | Gt =>
              let kn := buf_count_leading_equal keys in
              (fun rest => generate_bins vk kn ++ rest) <$> insert_keys_loop fuel' bs (drop (Z.to_nat kn) keys)
          | Lt => (fun rest => bn :: rest) <$> insert_keys_loop fuel' bs' keys
          | Eq =>
              let kn := buf_count_leading_equal keys in
              (fun rest => generate_bins (k bn) (u64_add (n bn) kn) ++ rest) <$> insert_keys_loop fuel' bs' (drop (Z.to_nat kn) keys)
          end
      end
  end.

Definition insert_keys (keys : list Z) (s : DDSketch) : option DDSketch :=
  if (Z.of_nat (length keys) <=? u32_max) then
    let keys := stable_sort Z.leb keys in
    temp ← insert_keys_loop (length (bins s) + length keys + 1) (bins s) keys;
    Some (set_bins (trim_left (bin_limit SKETCH_CONFIG) temp) s)
  else None.

(** Where [insert] finds the key: a bin with room, a place to insert at, or the end. *)
Inductive slot := Room (i : nat) | InsertAt (i : nat) | AtEnd.

Fixpoint find_slot (key : Z) (i : nat) (bs : list Bin) : slot :=
  match bs with
  | [] => AtEnd
  | bn :: bs' =>
      if k bn =? key then if n bn <? MAX_BIN_WIDTH then Room i else InsertAt i
      else if key <? k bn then InsertAt i
      else find_slot key (S i) bs'
  end.

Definition insert (v : f64) (s : DDSketch) : DDSketch :=
  let s := adjust_basic_stats v 1 s in
  let key := key_of_value v in
  match find_slot key 0 (bins s) with
  | Room i => set_bins (alter (fun bn => MkBin (k bn) (n bn + 1)) i (bins s)) s
  | InsertAt i => set_bins (trim_left (bin_limit SKETCH_CONFIG) (take i (bins s) ++ MkBin key 1 :: drop i (bins s))) s
  | AtEnd => set_bins (trim_left (bin_limit SKETCH_CONFIG) (bins s ++ [MkBin key 1])) s
  end.

Definition insert_many (vs : list f64) (s : DDSketch) : option DDSketch :=
  insert_keys (key_of_value <$> vs) (foldl (fun s v => adjust_basic_stats v 1 s) s vs).

Definition insert_n (v : f64) (times : Z) (s : DDSketch) : DDSketch :=
  if times =? 1 then insert v s else insert_key_counts [(key_of_value v, times)] (adjust_basic_stats v times s).

(** *** Interpolation of histogram buckets *)

Record Bucket := { upper_limit : f64; bucket_count : Z }.

(** What the loop of [insert_interpolate_bucket] changes; the key at [start_idx] stands for the index. *)
Record Interpolation := {
  it_sketch : DDSketch;
  key_counts : list (Z * Z);
  remaining_count : Z;
  start_key : Z;
  lower_bound : f64;
  remainder : f64;
}.

(** One turn, with the key at [end_idx]. *)
Definition interpolate_step (total : Z) (distance : f64) (end_key : Z) (it : Interpolation) : option Interpolation :=
  upper_bound ← bin_lower_bound end_key;
  let fkn := f64_mul (f64_div (f64_sub upper_bound (lower_bound it)) distance) (f64_of_Z total) in
  let rem := if f64_ltb f64_one fkn then f64_add (remainder it) (f64_sub fkn (f64_trunc fkn)) else remainder it in
  let carry := f64_ltb f64_one rem in
  let kn := if carry then u64_add (f64_to_u64 fkn) 1 else f64_to_u64 fkn in
  let rem := if carry then f64_sub rem f64_one else rem in
  Some (if 0 <? kn then
          let kn := if remaining_count it <? kn then remaining_count it else kn in
          {| it_sketch := adjust_basic_stats (lower_bound it) kn (it_sketch it);
             key_counts := key_counts it ++ [(start_key it, kn)];
             remaining_count := remaining_count it - kn;
             start_key := end_key; lower_bound := upper_bound; remainder := rem |}
        else
          {| it_sketch := it_sketch it; key_counts := key_counts it; remaining_count := remaining_count it;
             start_key := start_key it; lower_bound := lower_bound it; remainder := rem |}).

Fixpoint interpolate_loop (total : Z) (distance : f64) (end_keys : list Z) (it : Interpolation) : option Interpolation :=
  match end_keys with
  | [] => Some it
  | end_key :: end_keys' =>
      if 0 <? remaining_count it then it' ← interpolate_step total distance end_key it; interpolate_loop total distance end_keys' it'
      else Some it
  end.

(** What is left after the loop goes to the key at [start_idx]. *)
Definition interpolate_rest (it : Interpolation) : option (DDSketch * list (Z * Z)) :=
  if 0 <? remaining_count it then
    lb ← bin_lower_bound (start_key it);
    Some (adjust_basic_stats lb (remaining_count it) (it_sketch it), key_counts it ++ [(start_key it, remaining_count it)])
  else Some (it_sketch it, key_counts it).

(** The keys and counts that a bucket is spread over, with the statistics adjusted. *)
Definition interpolate_bucket (lower upper : f64) (total : Z) (s : DDSketch) : option (DDSketch * list (Z * Z)) :=
  let lower_key := key_of_value lower in
  let upper_key := key_of_value upper in
  match seqZ lower_key (upper_key - lower_key + 1) with
  | [] => None
  | first :: end_keys =>
      lb ← bin_lower_bound first;
      it ← interpolate_loop total (f64_sub upper lower) end_keys
        {| it_sketch := s; key_counts := []; remaining_count := total; start_key := first; lower_bound := lb; remainder := f64_zero |};
      interpolate_rest it
  end.

Definition insert_interpolate_bucket (lower upper : f64) (total : Z) (s : DDSketch) : option DDSketch :=
  '(s, counts) ← interpolate_bucket lower upper total s;
  Some (insert_key_counts (stable_sort (fun x y => x.1 <=? y.1) counts) s).

(** The bounds a bucket is interpolated between, from the upper limit of the bucket before it. *)
Definition bucket_bounds (lower upper : f64) : f64 * f64 :=
  match upper, lower with
  | S754_infinity false, _ => (lower, lower)
  | _, S754_infinity true => (upper, upper)
  | _, _ => if f64_eqb lower f64_zero && f64_ltb f64_zero upper then (upper, upper) else (lower, upper)
  end.

Fixpoint interpolate_buckets (lower : f64) (buckets : list Bucket) (s : DDSketch) : option DDSketch :=
  match buckets with
  | [] => Some s
  | bucket :: buckets' =>
      let '(lo, hi) := bucket_bounds lower (upper_limit bucket) in
      s' ← insert_interpolate_bucket lo hi (bucket_count bucket) s;
      interpolate_buckets (upper_limit bucket) buckets' s'
  end.

Inductive SketchError := BucketTooLarge | NegativeCount | DifferingLengths | KeyOverflow.

Definition insert_interpolate_buckets (buckets : list Bucket) (s : DDSketch) : option (result SketchError DDSketch) :=
  let buckets := stable_sort (fun x y => ordered_leb (upper_limit x) (upper_limit y)) buckets in
  if existsb (fun bucket => u32_max <? bucket_count bucket) buckets then Some (Err BucketTooLarge)
  else Ok <$> interpolate_buckets (S754_infinity true) buckets s.

(** *** Quantiles *)

Definition rank (total : Z) (q : f64) : f64 := f64_round_ties_even (f64_mul q (f64_of_Z (u64_sub total 1))).

(** The value estimated for a bin; the comparison of its index with the number of bins is as in the
    source, where it is never equal. *)
Definition estimate (s : DDSketch) (i : nat) (bn : Bin) (so_far wanted_rank : f64) : option f64 :=
  lb ← bin_lower_bound (k bn);
  let weight := f64_div (f64_sub so_far wanted_rank) (f64_of_Z (n bn)) in
  let v_high := f64_mul lb (gamma_v SKETCH_CONFIG) in
  let '(v_low, v_high) :=
    if (i =? length (bins s))%nat then (lb, max s) else if (i =? 0)%nat then (min s, v_high) else (lb, v_high) in
  Some (f64_add (f64_mul v_low weight) (f64_mul v_high (f64_sub f64_one weight))).

Fixpoint quantile_loop (s : DDSketch) (wanted_rank : f64) (i : nat) (so_far : f64) (bs : list Bin) : option (option f64) :=
  match bs with
  | [] => Some None
  | bn :: bs' =>
      let so_far := f64_add so_far (f64_of_Z (n bn)) in
      if f64_leb so_far wanted_rank then quantile_loop s wanted_rank (S i) so_far bs'
      else Some <$> estimate s i bn so_far wanted_rank
  end.

Definition quantile (q : f64) (s : DDSketch) : option (option f64) :=
  if count s =? 0 then Some None
  else if f64_leb q f64_zero then Some (Some (min s))
  else if f64_leb f64_one q then Some (Some (max s))
  else
    estimated ← quantile_loop s (rank (count s) q) 0 f64_zero (bins s);
    match estimated with
    | Some v => Some <$> f64_clamp v (min s) (max s)
    | None => Some (Some S754_nan)
    end.

(** *** Merging *)

Fixpoint span_below (key : Z) (bs : list Bin) : list Bin * list Bin :=
  match bs with
  | bn :: bs' => if k bn <? key then let '(below, rest) := span_below key bs' in (bn :: below, rest) else ([], bs)
  | [] => ([], [])
  end.

Fixpoint merge_bins (self other : list Bin) : list Bin :=
  match other with
  | [] => self
  | ob :: other' =>
      let '(below, rest) := span_below (k ob) self in
      below ++ match rest with
               | [] => ob :: merge_bins rest other'
               | bn :: rest' =>
                   if k ob <? k bn then ob :: merge_bins rest other'
                   else generate_bins (k ob) (u64_add (n ob) (n bn)) ++ merge_bins rest' other'
               end
  end.

Definition merge_summary (s other : DDSketch) : DDSketch :=
  if count s =? 0 then
    {| bins := bins s; count := count other; min := min other; max := max other; sum := sum other; avg := avg other |}
  else if 0 <? count other then
    let c := u64_add (count s) (count other) in
    {| bins := bins s; count := c;
       min := if f64_ltb (min other) (min s) then min other else min s;
       max := if f64_ltb (max s) (max other) then max other else max s;
       sum := f64_add (sum s) (sum other);
       avg := f64_add (avg s) (f64_div (f64_mul (f64_sub (avg other) (avg s)) (f64_of_Z (count other))) (f64_of_Z c)) |}
  else s.

Definition DDSketch_merge (s other : DDSketch) : DDSketch :=
  set_bins (trim_left (bin_limit SKETCH_CONFIG) (merge_bins (bins s) (bins other))) (merge_summary s other).

(** *** The protobuf representation *)

Record Dogsketch := { cnt : Z; ds_min : f64; ds_max : f64; ds_avg : f64; ds_sum : f64; ds_k : list Z; ds_n : list Z }.

Definition i64_max : Z := 2 ^ 63 - 1.

Definition merge_to_dogsketch (s : DDSketch) : Dogsketch :=
  {| cnt := if count s <=? i64_max then count s else i64_max;
     ds_min := min s; ds_max := max s; ds_avg := avg s; ds_sum := sum s; ds_k := k <$> bins s; ds_n := n <$> bins s |}.

Fixpoint try_bins (ks ns : list Z) : result SketchError (list Bin) :=
  match ks, ns with
  | key :: ks', c :: ns' =>
      if (- i16_max - 1 <=? key) && (key <=? i16_max) then rest ← try_bins ks' ns'; Ok (MkBin key c :: rest) else Err KeyOverflow
  | _, _ => Ok []
  end.

Definition DDSketch_try_from (v : Dogsketch) : result SketchError DDSketch :=
  if cnt v <? 0 then Err NegativeCount
  else if negb (length (ds_k v) =? length (ds_n v))%nat then Err DifferingLengths
  else bs ← try_bins (ds_k v) (ds_n v);
       Ok {| bins := bs; count := cnt v; min := ds_min v; max := ds_max v; sum := ds_sum v; avg := ds_avg v |}.
End sketch.

(** The sketch as the values of distributions use it. *)
#[export] Instance AgentSketch `{Libm} (cfg : Config) : Sketch DDSketch := {|
  sketch_default := DDSketch_default;
  sketch_insert_n := insert_n cfg;
  sketch_merge := DDSketch_merge cfg;
|}.
