(* ===== verification/AgentSketchProofs.v ===== *)
(** * What the Agent's sketch keeps

    The observations of a sketch are the keys it was given, with their counts.  [keeps_top] says that a
    vector of bins stands for them: the bins are those of the highest keys, as many as the limit
    allows, each with its exact count, except that the lowest of them also counts what lies below. *)

From Stdlib Require Import ZArith Lia Sorted Permutation Floats.SpecFloat.
From stdpp Require Import base tactics list numbers gmap sets fin_sets.
From S2P Require Import Prelude Float64 MetricValues SketchStore AgentSketch.
Open Scope Z_scope.

(** ** Specification *)

(** How many different keys are at or above [key]. *)
Definition above (key : Z) (keys : list Z) : nat := size (filter (fun i => key <= i) (list_to_set keys : gset Z)).

Definition exactly (key i : Z) : bool := i =? key.

(** [rep], bins given as observations, stands for [obs] when at most [limit] keys matter. *)
Record keeps_top (limit : nat) (obs rep : list Obs) : Prop := {
  kt_keys : forall key, key ∈ rep.*1 -> key ∈ obs.*1;
  kt_dropped : forall key, key ∈ obs.*1 -> key ∈ rep.*1 \/ (limit <= above (key + 1) rep.*1)%nat;
  kt_exact : forall key, (above key rep.*1 < limit)%nat -> weight_of (exactly key) rep = weight_of (exactly key) obs;
  kt_total : total rep = total obs;
}.

Definition bin_obs (bs : list Bin) : list Obs := (fun bn => (k bn, n bn)) <$> bs.

(** The bins of a sketch: one per key, ascending. *)
Record bins_ok (limit : nat) (bs : list Bin) : Prop := {
  bo_sorted : StronglySorted Z.lt (k <$> bs);
  bo_counts : Forall (fun bn => 0 <= n bn) bs;
  bo_limit : (length bs <= limit)%nat;
}.

(** Two lists of observations that a sketch cannot tell apart. *)
Definition same_obs (o1 o2 : list Obs) : Prop :=
  (forall key, key ∈ o1.*1 <-> key ∈ o2.*1) /\ (forall key, weight_of (exactly key) o1 = weight_of (exactly key) o2) /\ total o1 = total o2.

(** ** Lemmas on counting keys *)

Lemma above_mono key keys1 keys2 : (forall i, i ∈ keys1 -> i ∈ keys2) -> (above key keys1 <= above key keys2)%nat.
Proof. intros Hs. apply subseteq_size. intros i. rewrite !elem_of_filter, !elem_of_list_to_set. naive_solver. Qed.

Lemma above_le key key' keys : key <= key' -> (above key' keys <= above key keys)%nat.
Proof. intros Hk. apply subseteq_size. intros i. rewrite !elem_of_filter. naive_solver lia. Qed.

Lemma above_length key keys : (above key keys <= length keys)%nat.
Proof.
  etrans; [apply (subseteq_size _ (list_to_set keys : gset Z)); set_solver|].
  induction keys as [|i keys IH]; [done|]. cbn [list_to_set length].
  rewrite (size_union_alt {[i]} (list_to_set keys : gset Z)), size_singleton.
  pose proof (subseteq_size (list_to_set keys ∖ {[i]}) (list_to_set keys : gset Z) ltac:(set_solver)). lia.
Qed.

Lemma above_all key keys : NoDup keys -> (forall i, i ∈ keys -> key <= i) -> above key keys = length keys.
Proof.
  intros Hnd Hall. rewrite <- (size_list_to_set (C := gset Z) keys Hnd). unfold above. f_equal. apply leibniz_equiv.
  intros i. rewrite elem_of_filter, !elem_of_list_to_set. naive_solver.
Qed.

Lemma above_app key l1 l2 : (forall i, i ∈ l1 -> i < key) -> above key (l1 ++ l2) = above key l2.
Proof.
  intros Hl. unfold above. f_equal. apply leibniz_equiv. intros i.
  rewrite !elem_of_filter, !elem_of_list_to_set, elem_of_app. split; [|naive_solver].
  intros [Hk [Hi|Hi]]; [|done]. specialize (Hl i Hi). lia.
Qed.

Lemma sorted_lt_nodup (l : list Z) : StronglySorted Z.lt l -> NoDup l.
Proof.
  induction 1 as [|i l Hs IH Hf]; [constructor|]. constructor; [|done].
  intros Hin. rewrite Forall_forall in Hf. specialize (Hf i Hin). lia.
Qed.

Lemma sorted_lt_app (l1 l2 : list Z) :
  StronglySorted Z.lt (l1 ++ l2) <-> StronglySorted Z.lt l1 /\ StronglySorted Z.lt l2 /\ forall x y, x ∈ l1 -> y ∈ l2 -> x < y.
Proof.
  induction l1 as [|a l1 IH]; cbn [app].
  { split; [intros; split_and!; [constructor|done|set_solver]|naive_solver]. }
  split.
  - intros [H1 H2]%StronglySorted_inv. apply IH in H1 as (Ha & Hb & Hc). apply Forall_app in H2 as [H2 H3].
    split_and!; [by constructor|done|]. rewrite Forall_forall in H3. set_solver.
  - intros (H1 & H2 & H3). apply StronglySorted_inv in H1 as [H1 H4]. constructor; [apply IH; set_solver|].
    apply Forall_app. split; [done|]. apply Forall_forall. set_solver.
Qed.

Lemma sorted_lt_unique (l1 l2 : list Z) :
  StronglySorted Z.lt l1 -> StronglySorted Z.lt l2 -> (forall i, i ∈ l1 <-> i ∈ l2) -> l1 = l2.
Proof.
  revert l2. induction l1 as [|x l1 IH]; intros [|y l2] H1 H2 Heq; [done| | |].
  - destruct (Heq y) as [_ H]. specialize (H ltac:(left)). by apply not_elem_of_nil in H.
  - destruct (Heq x) as [H _]. specialize (H ltac:(left)). by apply not_elem_of_nil in H.
  - apply StronglySorted_inv in H1 as [H1 F1], H2 as [H2 F2]. rewrite Forall_forall in F1, F2.
    assert (x = y) as ->.
    { destruct (Heq x) as [Hx _], (Heq y) as [_ Hy]. specialize (Hx ltac:(left)). specialize (Hy ltac:(left)).
      apply elem_of_cons in Hx as [->|Hx]; [done|]. apply elem_of_cons in Hy as [->|Hy]; [done|].
      specialize (F1 y Hy). specialize (F2 x Hx). lia. }
    f_equal. apply IH; [done..|]. intros i. specialize (Heq i). rewrite !elem_of_cons in Heq.
    split; intros Hi; [specialize (F1 i Hi)|specialize (F2 i Hi)]; naive_solver lia.
Qed.

(** ** Combining what is kept *)

Lemma keeps_itself limit obs : keeps_top limit obs obs.
Proof. split; auto. Qed.

(** [u] has the keys of both and counts what both count. *)
Record combines (r1 r2 u : list Obs) : Prop := {
  cb_keys : forall key, key ∈ u.*1 <-> key ∈ r1.*1 \/ key ∈ r2.*1;
  cb_weight : forall p, weight_of p u = weight_of p r1 + weight_of p r2;
}.

Lemma keeps_combined limit o1 o2 r1 r2 u :
  keeps_top limit o1 r1 -> keeps_top limit o2 r2 -> combines r1 r2 u -> keeps_top limit (o1 ++ o2) u.
Proof.
  intros [K1 D1 E1 T1] [K2 D2 E2 T2] [HK HW].
  assert (forall key, (above key r1.*1 <= above key u.*1)%nat) as A1 by (intros; apply above_mono; intros; apply HK; auto).
  assert (forall key, (above key r2.*1 <= above key u.*1)%nat) as A2 by (intros; apply above_mono; intros; apply HK; auto).
  split.
  - intros key. rewrite HK, fmap_app, elem_of_app. naive_solver.
  - intros key. rewrite fmap_app, elem_of_app, HK. intros [H|H].
    + destruct (D1 key H) as [?|Ha]; [auto|]. right. specialize (A1 (key + 1)). lia.
    + destruct (D2 key H) as [?|Ha]; [auto|]. right. specialize (A2 (key + 1)). lia.
  - intros key Ha. specialize (A1 key). specialize (A2 key). rewrite HW, weight_of_app, E1, E2 by lia. done.
  - unfold total in *. rewrite HW, weight_of_app. lia.
Qed.

(** ** Trimming *)

Lemma bin_obs_keys bs : (bin_obs bs).*1 = k <$> bs.
Proof. unfold bin_obs. rewrite <- list_fmap_compose. done. Qed.

Lemma bin_obs_app b1 b2 : bin_obs (b1 ++ b2) = bin_obs b1 ++ bin_obs b2.
Proof. apply fmap_app. Qed.

Lemma bin_obs_cons bn bs : bin_obs (bn :: bs) = (k bn, n bn) :: bin_obs bs.
Proof. done. Qed.

Lemma weight_of_cons p o obs : weight_of p (o :: obs) = (if p o.1 then o.2 else 0) + weight_of p obs.
Proof. done. Qed.

Lemma total_bins bs : total (bin_obs bs) = sumZ n bs.
Proof.
  induction bs as [|bn bs IH]; [done|]. unfold total in *.
  rewrite bin_obs_cons, weight_of_cons, sumZ_cons. cbn [fst snd]. by rewrite <- IH.
Qed.

Lemma sum_bins_nonneg bs : Forall (fun bn => 0 <= n bn) bs -> 0 <= sumZ n bs.
Proof. intros H. apply sumZ_nonneg. by apply Forall_forall. Qed.

Lemma u32_in_u64 : u32_max < u64_max.
Proof. done. Qed.

Lemma fold_counts bs acc :
  Forall (fun bn => 0 <= n bn) bs -> 0 <= acc -> acc + sumZ n bs <= u32_max -> foldl (fun m bn => u64_add m (n bn)) acc bs = acc + sumZ n bs.
Proof.
  revert acc. induction bs as [|bn bs IH]; intros acc Hf Ha Hs; [cbn; lia|].
  apply Forall_cons in Hf as [Hn Hf]. cbn [foldl]. rewrite sumZ_cons in *.
  pose proof (sum_bins_nonneg _ Hf). pose proof u32_in_u64.
  rewrite wrapping_add_exact by (unfold in_range; lia). rewrite IH; [lia|done|lia|lia].
Qed.

Lemma increment_fits by_ bn : 0 <= by_ -> 0 <= n bn -> by_ + n bn <= u32_max -> (Bin_increment by_ bn).1 = MkBin (k bn) (by_ + n bn).
Proof.
  intros Hb Hn Hs. unfold Bin_increment. pose proof u32_in_u64. rewrite wrapping_add_exact by (unfold in_range; lia).
  unfold MAX_BIN_WIDTH. destruct (Z.ltb_spec u32_max (by_ + n bn)); [lia|done].
Qed.

(** The bins that go are the lowest, and the first that stays takes their counts. *)
Lemma trim_left_spec limit bs :
  0 < limit -> Forall (fun bn => 0 <= n bn) bs -> sumZ n bs <= u32_max ->
  (trim_left limit bs = bs /\ (length bs <= Z.to_nat limit)%nat) \/
  exists low first rest, bs = low ++ first :: rest /\ length (first :: rest) = Z.to_nat limit /\
    trim_left limit bs = MkBin (k first) (sumZ n low + n first) :: rest.
Proof.
  intros Hl Hf Hs. unfold trim_left. destruct (Z.eqb_spec limit 0); [lia|]. cbn [orb].
  destruct (Nat.leb_spec (length bs) (Z.to_nat limit)) as [|Hlen]; [by left|]. right.
  set (r := (length bs - Z.to_nat limit)%nat).
  assert (Hd : length (drop r bs) = Z.to_nat limit) by (rewrite length_drop; lia).
  destruct (drop r bs) as [|first rest] eqn:E; [cbn in Hd; lia|].
  exists (take r bs), first, rest. split; [by rewrite <- E, take_drop|]. split; [done|].
  rewrite <- (take_drop r bs), E in Hf, Hs. rewrite sumZ_app, sumZ_cons in Hs.
  apply Forall_app in Hf as [H1 H2]. apply Forall_cons in H2 as [H2 H3].
  pose proof (sum_bins_nonneg _ H1). pose proof (sum_bins_nonneg _ H3).
  rewrite fold_counts by (try done; lia). rewrite increment_fits by lia. f_equal.
Qed.

Lemma above_head key keys first : StronglySorted Z.lt (first :: keys) -> (above key (first :: keys) < length (first :: keys))%nat -> first < key.
Proof.
  intros Hs Ha. destruct (Z.lt_ge_cases first key) as [|Hge]; [done|]. exfalso.
  pose proof (sorted_lt_nodup _ Hs) as Hnd. apply StronglySorted_inv in Hs as [_ Hf]. rewrite Forall_forall in Hf.
  rewrite above_all in Ha; [lia|done|]. intros i [->|Hi]%elem_of_cons; [lia|]. specialize (Hf i Hi). lia.
Qed.

Lemma above_all_sorted key keys : StronglySorted Z.lt keys -> (forall i, i ∈ keys -> key <= i) -> above key keys = length keys.
Proof. intros Hs. by apply above_all, sorted_lt_nodup. Qed.

(** Dropping the keys below the highest [limit] keeps the highest. *)
Lemma keeps_trimmed limit obs low first rest c :
  StronglySorted Z.lt (k <$> low ++ first :: rest) -> length (first :: rest) = limit -> c = sumZ n low + n first ->
  keeps_top limit obs (bin_obs (low ++ first :: rest)) -> keeps_top limit obs (bin_obs (MkBin (k first) c :: rest)).
Proof.
  intros Hs Hlen -> [HK HD HE HT]. rewrite !bin_obs_keys in HK, HD, HE.
  pose proof Hs as Hs'. rewrite fmap_app in Hs'. apply sorted_lt_app in Hs' as (_ & Hfr & Hlow).
  change (k first :: (k <$> rest)) with (k <$> first :: rest) in *.
  assert (Hlen' : length (k <$> first :: rest) = limit) by by rewrite length_fmap.
  split; rewrite ?bin_obs_keys; change (k <$> MkBin (k first) (sumZ n low + n first) :: rest) with (k <$> first :: rest).
  - intros key Hk. apply HK. rewrite fmap_app, elem_of_app. by right.
  - intros key Ho. destruct (decide (key ∈ k <$> first :: rest)) as [|Hni]; [by left|]. right.
    destruct (HD key Ho) as [Hk|Ha].
    + rewrite fmap_app in Hk. apply elem_of_app in Hk as [Hk|]; [|done].
      rewrite above_all_sorted; [lia|done|]. intros i Hi. specialize (Hlow key i Hk Hi). lia.
    + destruct (Nat.le_gt_cases limit (above (key + 1) (k <$> first :: rest))) as [|Hlt]; [done|].
      rewrite <- Hlen' in Hlt. apply above_head in Hlt; [|done].
      rewrite fmap_app, above_app in Ha; [done|]. intros i Hi. specialize (Hlow i (k first) Hi ltac:(left)). lia.
  - intros key Ha. rewrite <- Hlen' in Ha. pose proof (above_head _ _ _ Hfr Ha) as Hk. rewrite Hlen' in Ha.
    assert (Hbelow : forall i, i ∈ k <$> low -> i < key) by (intros i Hi; specialize (Hlow i (k first) Hi ltac:(left)); lia).
    rewrite <- HE by (rewrite fmap_app, above_app by done; done).
    rewrite bin_obs_app, weight_of_app, (weight_of_none _ (bin_obs low)).
    + rewrite !bin_obs_cons, !weight_of_cons. unfold exactly. cbn [fst snd k n]. destruct (Z.eqb_spec (k first) key); [lia|done].
    + intros o Ho. assert (Hin : o.1 ∈ (bin_obs low).*1) by (by apply list_elem_of_fmap_2). rewrite bin_obs_keys in Hin.
      specialize (Hbelow _ Hin). unfold exactly. lia.
  - rewrite <- HT, !total_bins, sumZ_app, !sumZ_cons. cbn [n]. lia.
Qed.

Lemma trim_keeps limit obs bs :
  0 < limit -> StronglySorted Z.lt (k <$> bs) -> Forall (fun bn => 0 <= n bn) bs -> sumZ n bs <= u32_max ->
  keeps_top (Z.to_nat limit) obs (bin_obs bs) ->
  bins_ok (Z.to_nat limit) (trim_left limit bs) /\ keeps_top (Z.to_nat limit) obs (bin_obs (trim_left limit bs)).
Proof.
  intros Hl Hs Hf Hsum Hk. destruct (trim_left_spec limit bs Hl Hf Hsum) as [[-> Hlen]|(low & first & rest & -> & Hlen & ->)]; [done|].
  split; [|by eapply keeps_trimmed].
  apply Forall_app in Hf as [H1 H2]. apply Forall_cons in H2 as [H2 H3]. pose proof (sum_bins_nonneg _ H1).
  rewrite fmap_app in Hs. apply sorted_lt_app in Hs as (_ & Hs & _). split.
  - exact Hs.
  - constructor; [cbn; lia|done].
  - cbn [length] in *. lia.
Qed.

(** ** Merging observations into bins *)

Lemma generate_one key c : 0 <= c <= u32_max -> generate_bins key c = [MkBin key c].
Proof.
  intros Hc. unfold generate_bins, MAX_BIN_WIDTH. destruct (Z.ltb_spec c u32_max); [done|].
  assert (c = u32_max) as -> by lia. done.
Qed.

(** [u] is [bs] with the observations [cs] added. *)
Record merged (bs : list Bin) (cs : list Obs) (u : list Bin) : Prop := {
  mg_sorted : StronglySorted Z.lt (k <$> u);
  mg_counts : Forall (fun bn => 0 <= n bn) u;
  mg_combines : combines (bin_obs bs) cs (bin_obs u);
}.

(** A group of observations of one key. *)
Record group (key : Z) (g : list Obs) : Prop := {
  gr_some : g <> [];
  gr_keys : forall o, o ∈ g -> o.1 = key;
  gr_total : 0 <= total g;
}.

Lemma group_weight key g p : group key g -> weight_of p g = if p key then total g else 0.
Proof.
  intros [_ Hk _]. destruct (p key) eqn:Hp.
  - apply weight_of_ext. intros o Ho. by rewrite (Hk o Ho).
  - apply weight_of_none. intros o Ho. by rewrite (Hk o Ho).
Qed.

Lemma group_keys key g i : group key g -> i ∈ g.*1 <-> i = key.
Proof.
  intros [Hne Hk _]. split; [intros ([] & -> & Ho)%list_elem_of_fmap; by apply Hk in Ho|].
  intros ->. destruct g as [|o g]; [done|]. cbn. rewrite (Hk o ltac:(left)). left.
Qed.

Lemma group_one key c : 0 <= c -> group key [(key, c)].
Proof. intros Hc. split; [done|set_solver|]. unfold total. rewrite weight_of_cons. cbn. lia. Qed.

Definition below_all (key : Z) (bs : list Bin) (cs : list Obs) : Prop :=
  Forall (Z.lt key) (k <$> bs) /\ Forall (Z.lt key) cs.*1.

Lemma merged_above key bs cs u : merged bs cs u -> below_all key bs cs -> Forall (Z.lt key) (k <$> u).
Proof.
  intros [_ _ [HK _]] [H1 H2]. rewrite Forall_forall in *. intros i Hi. rewrite <- bin_obs_keys, HK, bin_obs_keys in Hi. naive_solver.
Qed.

Lemma merged_nil bs : StronglySorted Z.lt (k <$> bs) -> Forall (fun bn => 0 <= n bn) bs -> merged bs [] bs.
Proof. intros Hs Hc. split; [done..|]. split; [intros key; rewrite elem_of_nil; naive_solver|]. intros p. unfold weight_of at 3. cbn. lia. Qed.

Lemma merged_left bn bs cs u : merged bs cs u -> 0 <= n bn -> below_all (k bn) bs cs -> merged (bn :: bs) cs (bn :: u).
Proof.
  intros Hm Hn Hb. pose proof (merged_above _ _ _ _ Hm Hb) as Hab. destruct Hm as [Hs Hc [HK HW]]. split; [by constructor..|].
  split; [|intros p; rewrite !bin_obs_cons, !weight_of_cons, HW; lia].
  intros key. cbn. rewrite !elem_of_cons, HK. naive_solver.
Qed.

Lemma merged_right key g bs cs u :
  merged bs cs u -> group key g -> below_all key bs cs -> merged bs (g ++ cs) (MkBin key (total g) :: u).
Proof.
  intros Hm Hg Hb. pose proof (merged_above _ _ _ _ Hm Hb) as Hab. destruct Hm as [Hs Hc [HK HW]].
  split; [by constructor|constructor; [apply Hg|done]|]. split.
  - intros i. rewrite fmap_app, elem_of_app, (group_keys _ _ i Hg). cbn. rewrite elem_of_cons, HK. naive_solver.
  - intros p. rewrite bin_obs_cons, weight_of_cons, HW, weight_of_app, (group_weight _ _ p Hg). cbn [fst snd k n]. lia.
Qed.

Lemma merged_both bn g bs cs u :
  merged bs cs u -> group (k bn) g -> 0 <= n bn -> below_all (k bn) bs cs -> merged (bn :: bs) (g ++ cs) (MkBin (k bn) (n bn + total g) :: u).
Proof.
  intros Hm Hg Hn Hb. pose proof (merged_above _ _ _ _ Hm Hb) as Hab. destruct Hm as [Hs Hc [HK HW]].
  split; [by constructor|constructor; [destruct Hg; cbn; lia|done]|]. split.
  - intros i. rewrite fmap_app, elem_of_app, (group_keys _ _ i Hg). cbn. rewrite !elem_of_cons, HK. naive_solver.
  - intros p. rewrite !bin_obs_cons, !weight_of_cons, HW, weight_of_app, (group_weight _ _ p Hg). cbn [fst snd k n]. destruct (p (k bn)); lia.
Qed.

Lemma sketch_total_cons o obs : total (o :: obs) = o.2 + total obs.
Proof. done. Qed.
Lemma sketch_total_app o1 o2 : total (o1 ++ o2) = total o1 + total o2.
Proof. apply weight_of_app. Qed.
Lemma sketch_total_nonneg obs : Forall (fun o => 0 <= o.2) obs -> 0 <= total obs.
Proof. intros H. apply sumZ_nonneg. by apply Forall_forall. Qed.

(** What a merge needs: the bins are in order, and what comes in does not overflow a bin. *)
Record fits (bs : list Bin) (cs : list Obs) : Prop := {
  ft_sorted : StronglySorted Z.lt (k <$> bs);
  ft_counts : Forall (fun bn => 0 <= n bn) bs;
  ft_obs : Forall (fun o => 0 <= o.2) cs;
  ft_total : sumZ n bs + total cs <= u32_max;
}.

Lemma fits_bin bn bs cs : fits (bn :: bs) cs -> 0 <= n bn /\ fits bs cs /\ Forall (Z.lt (k bn)) (k <$> bs).
Proof.
  intros [Hs Hc Ho Ht]. apply StronglySorted_inv in Hs as [Hs Hf]. apply Forall_cons in Hc as [Hn Hc].
  rewrite sumZ_cons in Ht. split_and!; [done| |done]. split; [done..|lia].
Qed.

Lemma fits_obs bs g cs : fits bs (g ++ cs) -> fits bs cs /\ 0 <= total g /\ total g <= u32_max.
Proof.
  intros [Hs Hc Ho Ht]. apply Forall_app in Ho as [Hg Ho]. rewrite sketch_total_app in Ht.
  pose proof (sum_bins_nonneg _ Hc). pose proof (sketch_total_nonneg _ Hg). pose proof (sketch_total_nonneg _ Ho).
  split_and!; [split; [done..|lia]|lia|lia].
Qed.

Lemma fits_both bn bs g cs : fits (bn :: bs) (g ++ cs) -> 0 <= n bn + total g <= u32_max /\ u64_add (n bn) (total g) = n bn + total g.
Proof.
  intros H. pose proof (fits_bin _ _ _ H) as (Hn & H1 & _). pose proof (fits_obs _ _ _ H) as (H2 & Hg & _).
  destruct H as [_ Hc Ho Ht]. apply Forall_cons in Hc as [_ Hc]. apply Forall_app in Ho as [_ Ho].
  rewrite sumZ_cons, sketch_total_app in Ht. pose proof (sum_bins_nonneg _ Hc). pose proof (sketch_total_nonneg _ Ho). pose proof u32_in_u64.
  split; [lia|]. apply wrapping_add_exact. unfold in_range. lia.
Qed.

Lemma total_one key c : total [(key, c)] = c.
Proof. unfold total. rewrite weight_of_cons. unfold weight_of. cbn. lia. Qed.

(** The groups of [insert_key_counts] are single pairs. *)
Lemma merged_right_one key c bs cs u :
  merged bs cs u -> 0 <= c -> below_all key bs cs -> merged bs ((key, c) :: cs) (MkBin key c :: u).
Proof. intros Hm Hc Hb. pose proof (merged_right key [(key, c)] bs cs u Hm (group_one key c Hc) Hb) as H. by rewrite total_one in H. Qed.

Lemma merged_both_one bn c bs cs u :
  merged bs cs u -> 0 <= n bn -> 0 <= c -> below_all (k bn) bs cs -> merged (bn :: bs) ((k bn, c) :: cs) (MkBin (k bn) (n bn + c) :: u).
Proof. intros Hm Hn Hc Hb. pose proof (merged_both bn [(k bn, c)] bs cs u Hm (group_one _ c Hc) Hn Hb) as H. by rewrite total_one in H. Qed.

Lemma below_trans i j l : i < j -> Forall (Z.lt j) l -> Forall (Z.lt i) l.
Proof. intros Hij Hl. eapply Forall_impl; [exact Hl|]. cbn. lia. Qed.

Lemma merge_nil_cons key c cs : merge_key_counts [] ((key, c) :: cs) = generate_bins key c ++ merge_key_counts [] cs.
Proof. by destruct cs. Qed.

Lemma merge_key_counts_merged bs cs :
  fits bs cs -> StronglySorted Z.lt cs.*1 -> merged bs cs (merge_key_counts bs cs).
Proof.
  revert cs. induction bs as [|bn bs IHb]; induction cs as [|[vk kn] cs IHc]; intros Hf Hcs.
  - apply merged_nil; constructor.
  - apply StronglySorted_inv in Hcs as [Hcs Hvk]. destruct (fits_obs [] [(vk, kn)] cs Hf) as (Hf' & H1 & H2). rewrite total_one in *.
    rewrite merge_nil_cons, generate_one by done. apply merged_right_one; [by apply IHc|done|by split].
  - destruct Hf. by apply merged_nil.
  - pose proof Hcs as Hcs'. apply StronglySorted_inv in Hcs as [Hcs Hvk].
    destruct (fits_obs _ [(vk, kn)] cs Hf) as (Hf' & H1 & H2). destruct (fits_bin _ _ _ Hf) as (Hn & Hf'' & Hbn). rewrite total_one in *.
    cbn [merge_key_counts]. destruct (Z.compare_spec (k bn) vk) as [<-|Hlt|Hgt].
    + destruct (fits_both bn bs [(k bn, kn)] cs Hf) as [Hr Ha]. rewrite total_one in *. rewrite Ha, generate_one by done.
      apply merged_both_one; [apply IHb; [apply (fits_bin _ _ _ Hf')|done]|done..|by split].
    + apply merged_left; [by apply IHb|done|]. split; [done|]. constructor; [done|]. by eapply below_trans.
    + rewrite generate_one by done. apply merged_right_one; [by apply IHc|done|].
      split; [|done]. constructor; [done|]. by eapply below_trans.
Qed.

(** *** Keys one by one *)

Lemma leading_equal_split key keys : keys = replicate (leading_equal key keys) key ++ drop (leading_equal key keys) keys.
Proof.
  induction keys as [|i keys IH]; [done|]. cbn [leading_equal]. destruct (Z.eqb_spec i key) as [->|]; [|done].
  cbn [replicate app drop]. by f_equal.
Qed.

Definition ones (keys : list Z) : list Obs := (fun i => (i, 1)) <$> keys.

Lemma ones_keys keys : (ones keys).*1 = keys.
Proof. unfold ones. rewrite <- list_fmap_compose. apply list_fmap_id. Qed.

Lemma total_ones keys : total (ones keys) = Z.of_nat (length keys).
Proof. induction keys as [|i keys IH]; [done|]. cbn [ones fmap list_fmap]. rewrite sketch_total_cons. unfold ones in IH. rewrite IH. cbn. lia. Qed.

Lemma sorted_drop {A} (R : A -> A -> Prop) c l : StronglySorted R l -> StronglySorted R (drop c l).
Proof.
  intros Hs. revert c. induction Hs as [|x l Hs IH Hf]; intros [|c]; cbn; [constructor..| |done]. by constructor.
Qed.

(** The run of equal keys at the front, and what comes after it. *)
Lemma leading_run key keys :
  StronglySorted Z.le (key :: keys) ->
  let m := Z.to_nat (buf_count_leading_equal (key :: keys)) in
  exists g rest, key :: keys = g ++ rest /\ drop m (key :: keys) = rest /\ group key (ones g) /\
    total (ones g) = buf_count_leading_equal (key :: keys) /\ StronglySorted Z.le rest /\ Forall (Z.lt key) rest /\ (length rest < length (key :: keys))%nat.
Proof.
  intros Hs m. set (c := leading_equal key (key :: keys)).
  assert (Hm : buf_count_leading_equal (key :: keys) = Z.of_nat c).
  { subst c. cbn [buf_count_leading_equal]. destruct keys; [|done]. cbn. by rewrite Z.eqb_refl. }
  assert (Hc : (0 < c)%nat) by (subst c; cbn [leading_equal]; rewrite Z.eqb_refl; lia).
  subst m. rewrite Hm, Nat2Z.id. exists (replicate c key), (drop c (key :: keys)).
  pose proof (leading_equal_split key (key :: keys)) as Hsplit. fold c in Hsplit.
  split; [done|]. split; [done|]. split.
  { split; [destruct c; [lia|done]| |rewrite total_ones; lia].
    intros o (i & -> & Hi)%list_elem_of_fmap. by apply elem_of_replicate in Hi as [-> _]. }
  split; [by rewrite total_ones, length_replicate|].
  assert (Hsr : StronglySorted Z.le (drop c (key :: keys))) by by apply sorted_drop.
  split; [done|]. split; [|rewrite length_drop; cbn [length]; lia].
  (* sorted and not starting with [key], the rest is above it *)
  assert (Hge : Forall (Z.le key) (drop c (key :: keys))).
  { apply Forall_drop. apply StronglySorted_inv in Hs as [_ Hf]. constructor; [lia|done]. }
  assert (Hhd : match drop c (key :: keys) with [] => True | x :: _ => x <> key end).
  { subst c. clear. induction (key :: keys) as [|x l IH]; [done|]. cbn [leading_equal]. destruct (Z.eqb_spec x key); [|done]. cbn [drop]. done. }
  destruct (drop c (key :: keys)) as [|x l]; [constructor|]. apply Forall_cons in Hge as [Hx _]. apply StronglySorted_inv in Hsr as [_ Hxl].
  constructor; [lia|]. eapply Forall_impl; [exact Hxl|]. cbn. lia.
Qed.

Lemma insert_keys_loop_merged fuel bs keys :
  fits bs (ones keys) -> StronglySorted Z.le keys -> (length bs + length keys < fuel)%nat ->
  exists u, insert_keys_loop fuel bs keys = Some u /\ merged bs (ones keys) u.
Proof.
  revert bs keys. induction fuel as [|fuel IH]; intros bs keys Hf Hs Hfuel; [lia|].
  destruct keys as [|key keys].
  { exists bs. split; [by destruct bs|]. destruct Hf. by apply merged_nil. }
  destruct (leading_run key keys Hs) as (g & rest & Hk & Hdrop & Hg & Htot & Hsr & Hab & Hlen).
  assert (Hones : ones (key :: keys) = ones g ++ ones rest) by (rewrite Hk; apply fmap_app).
  rewrite Hones in *. destruct (fits_obs _ _ _ Hf) as (Hf' & H1 & H2). rewrite Htot in H1, H2.
  assert (Hab' : Forall (Z.lt key) (ones rest).*1) by by rewrite ones_keys.
  cbn [insert_keys_loop]. destruct bs as [|bn bs].
  - rewrite Hdrop. destruct (IH [] rest Hf' Hsr) as (u & -> & Hm); [cbn [length] in *; lia|].
    eexists. split; [reflexivity|]. rewrite generate_one, <- Htot by done. apply merged_right; [done..|]. split; [constructor|done].
  - destruct (fits_bin _ _ _ Hf) as (Hn & Hfb & Hbn). rewrite Hdrop. destruct (Z.compare_spec (k bn) key) as [<-|Hlt|Hgt].
    + destruct (fits_both _ _ _ _ Hf) as [Hr Ha]. rewrite Htot in Hr, Ha.
      destruct (IH bs rest (proj1 (proj2 (fits_bin _ _ _ Hf'))) Hsr) as (u & -> & Hm); [cbn [length] in *; lia|].
      eexists. split; [reflexivity|]. rewrite Ha, generate_one, <- Htot by done. by apply merged_both.
    + rewrite <- Hones in *. destruct (IH bs (key :: keys) Hfb Hs) as (u & -> & Hm); [cbn [length] in *; lia|].
      eexists. split; [reflexivity|]. apply merged_left; [done..|]. split; [done|]. rewrite ones_keys.
      apply StronglySorted_inv in Hs as [_ Hle]. constructor; [done|]. eapply Forall_impl; [exact Hle|]. cbn. lia.
    + destruct (IH (bn :: bs) rest Hf' Hsr) as (u & -> & Hm); [cbn [length] in *; lia|].
      eexists. split; [reflexivity|]. rewrite generate_one, <- Htot by done. apply merged_right; [done..|].
      split; [|done]. constructor; [done|]. by eapply below_trans.
Qed.

(** *** A single value *)

(** What [insert] does with the bins before it trims them. *)
Definition insert_bins (key : Z) (bs : list Bin) : list Bin :=
  match find_slot key 0 bs with
  | Room i => alter (fun bn => MkBin (k bn) (n bn + 1)) i bs
  | InsertAt i => take i bs ++ MkBin key 1 :: drop i bs
  | AtEnd => bs ++ [MkBin key 1]
  end.

Definition shift_slot (sl : slot) : slot :=
  match sl with Room i => Room (S i) | InsertAt i => InsertAt (S i) | AtEnd => AtEnd end.

Lemma find_slot_shift key i bs : find_slot key (S i) bs = shift_slot (find_slot key i bs).
Proof. revert i. induction bs as [|bn bs IH]; intros i; [done|]. cbn. repeat case_match; auto. Qed.

Lemma insert_bins_merged key bs : fits bs [(key, 1)] -> merged bs [(key, 1)] (insert_bins key bs).
Proof.
  induction bs as [|bn bs IH]; intros Hf.
  { apply (merged_right_one key 1 [] [] []); [apply merged_nil; constructor|lia|split; constructor]. }
  destruct (fits_bin _ _ _ Hf) as (Hn & Hf' & Hbn). destruct Hf as [Hs Hc _ Ht]. rewrite sumZ_cons, total_one in Ht.
  apply StronglySorted_inv in Hs as [Hs _]. apply Forall_cons in Hc as [_ Hc].
  pose proof (sum_bins_nonneg _ Hc) as Hnn. pose proof (merged_nil bs Hs Hc) as Hnil.
  unfold insert_bins. cbn [find_slot]. destruct (Z.eqb_spec (k bn) key) as [<-|Hne].
  - destruct (Z.ltb_spec (n bn) MAX_BIN_WIDTH); [|unfold MAX_BIN_WIDTH in *; lia].
    apply (merged_both_one bn 1 bs [] bs); [done|done|lia|]. split; [done|constructor].
  - destruct (Z.ltb_spec key (k bn)) as [Hlt|Hge].
    + apply (merged_right_one key 1 (bn :: bs) [] (bn :: bs)); [|lia|].
      * apply merged_nil; by constructor.
      * split; [|constructor]. constructor; [done|]. by eapply below_trans.
    + specialize (IH Hf'). rewrite find_slot_shift. unfold insert_bins in IH.
      destruct (find_slot key 0 bs) as [i|i|]; (apply (merged_left bn bs [(key, 1)]); [exact IH|done|]);
        (split; [done|]; constructor; [cbn; lia|constructor]).
Qed.

(** *** Two sketches *)

Lemma span_below_spec key bs :
  StronglySorted Z.lt (k <$> bs) -> exists below rest, span_below key bs = (below, rest) /\ bs = below ++ rest /\
    Forall (fun bn => k bn < key) below /\ Forall (fun bn => key <= k bn) rest.
Proof.
  induction bs as [|bn bs IH]; intros Hs; [by exists [], []|]. apply StronglySorted_inv in Hs as [Hs Hf]. cbn [span_below].
  destruct (Z.ltb_spec (k bn) key) as [Hlt|Hge].
  - destruct (IH Hs) as (below & rest & -> & -> & H1 & H2). exists (bn :: below), rest. split_and!; [done..|by constructor|done].
  - exists [], (bn :: bs). split_and!; [done..|]. constructor; [done|]. change (Forall (Z.lt (k bn)) (k <$> bs)) in Hf. rewrite Forall_fmap in Hf. eapply Forall_impl; [exact Hf|]. cbn. lia.
Qed.

Lemma merged_left_app low bs cs u :
  merged bs cs u -> Forall (fun bn => 0 <= n bn) low -> StronglySorted Z.lt (k <$> low ++ bs) ->
  (forall bn, bn ∈ low -> Forall (Z.lt (k bn)) cs.*1) -> merged (low ++ bs) cs (low ++ u).
Proof.
  intros Hm. induction low as [|bn low IH]; [done|]. intros Hc Hs Hb. apply Forall_cons in Hc as [Hn Hc].
  apply StronglySorted_inv in Hs as [Hs Hf]. cbn [app]. apply merged_left; [apply IH; [done..|]|done|].
  - intros bn' Hin. apply Hb. by right.
  - split; [done|]. apply Hb. left.
Qed.

Lemma merge_bins_merged bs other :
  fits bs (bin_obs other) -> StronglySorted Z.lt (k <$> other) -> merged bs (bin_obs other) (merge_bins bs other).
Proof.
  revert bs. induction other as [|ob other IH]; intros bs Hf Hs.
  { destruct Hf. by apply merged_nil. }
  apply StronglySorted_inv in Hs as [Hs Hob]. rewrite bin_obs_cons in *. cbn [merge_bins].
  destruct (span_below_spec (k ob) bs) as (low & rest & -> & -> & Hlow & Hrest); [apply Hf|].
  pose proof (ft_sorted _ _ Hf) as Hbs. pose proof (ft_counts _ _ Hf) as Hcs. apply Forall_app in Hcs as [Hcl Hcr].
  assert (Hab : Forall (Z.lt (k ob)) (bin_obs other).*1) by by rewrite bin_obs_keys.
  assert (Hfr : fits rest ((k ob, n ob) :: bin_obs other)).
  { destruct Hf as [H1 _ H3 H4]. rewrite fmap_app in H1. apply sorted_lt_app in H1 as (_ & H1 & _).
    rewrite sumZ_app in H4. pose proof (sum_bins_nonneg _ Hcl). split; [done..|lia]. }
  destruct (fits_obs _ [(k ob, n ob)] _ Hfr) as (Hfr' & Ho1 & Ho2). rewrite total_one in Ho1, Ho2.
  apply merged_left_app; [|done..|].
  2:{ intros bn Hin. rewrite Forall_forall in Hlow. specialize (Hlow bn Hin). constructor; [done|]. by eapply below_trans. }
  destruct rest as [|bn rest]; [|apply Forall_cons in Hrest as [Hr Hrest]; destruct (Z.ltb_spec (k ob) (k bn)) as [Hlt|Hge]].
  - destruct ob as [ok on]. apply merged_right_one; [by apply IH|done|by split].
  - destruct ob as [ok on]. apply merged_right_one; [by apply IH|done|]. split; [|done]. destruct (fits_bin _ _ _ Hfr) as (_ & _ & Hb).
    constructor; [done|]. by eapply below_trans.
  - assert (Heq : k ob = k bn) by lia. rewrite Heq in *. destruct (fits_bin _ _ _ Hfr) as (Hn & Hfb & Hb).
    destruct (fits_both bn rest [(k bn, n ob)] _ Hfr) as [Hrange Ha]. rewrite total_one in *.
    unfold wrapping_add in Ha |- *. rewrite Z.add_comm, Ha, generate_one by done.
    apply merged_both_one; [|done..|by split]. apply IH; [|done]. apply (fits_bin _ _ _ Hfr').
Qed.

(** ** Sketches and their observations *)

Section sketches.
Context `{Libm} (cfg : Config) (Hlimit : 0 < bin_limit cfg).

Abbreviation limit := (Z.to_nat (bin_limit cfg)).

(** What the buckets of a histogram are spread over. *)
Fixpoint interpolated (lower : f64) (buckets : list Bucket) (s : DDSketch) : option (list Obs) :=
  match buckets with
  | [] => Some []
  | bucket :: buckets' =>
      let '(lo, hi) := bucket_bounds lower (upper_limit bucket) in
      '(s1, counts) ← interpolate_bucket cfg lo hi (bucket_count bucket) s;
      s2 ← insert_interpolate_bucket cfg lo hi (bucket_count bucket) s;
      rest ← interpolated (upper_limit bucket) buckets' s2;
      Some (counts ++ rest)
  end.

(** How a sketch comes about. *)
Inductive script :=
| New
| Ins (v : f64) (e : script)
| InsMany (vs : list f64) (e : script)
| InsN (v : f64) (times : Z) (e : script)
| Interpolate (buckets : list Bucket) (e : script)
| Merge (e other : script).

(** The sketch and its observations; buckets that are refused change nothing. *)
Fixpoint run (e : script) : option (DDSketch * list Obs) :=
  match e with
  | New => Some (DDSketch_default, [])
  | Ins v e => '(s, obs) ← run e; Some (insert cfg v s, obs ++ [(key_of_value cfg v, 1)])
  | InsMany vs e => '(s, obs) ← run e; s' ← insert_many cfg vs s; Some (s', obs ++ ones (key_of_value cfg <$> vs))
  | InsN v times e => '(s, obs) ← run e; Some (insert_n cfg v times s, obs ++ [(key_of_value cfg v, times)])
  | Interpolate buckets e =>
      '(s, obs) ← run e;
      r ← insert_interpolate_buckets cfg buckets s;
      match r with
      | Ok s' =>
          o ← interpolated (S754_infinity true) (stable_sort (fun x y => ordered_leb (upper_limit x) (upper_limit y)) buckets) s;
          Some (s', obs ++ o)
      | Err _ => Some (s, obs)
      end
  | Merge e other => '(s, o1) ← run e; '(s2, o2) ← run other; Some (DDSketch_merge cfg s s2, o1 ++ o2)
  end.

(** The arguments are of their types. *)
Fixpoint script_ok (e : script) : Prop :=
  match e with
  | New => True
  | Ins _ e | InsMany _ e => script_ok e
  | InsN _ times e => 0 <= times /\ script_ok e
  | Interpolate buckets e => Forall (fun bucket => 0 <= bucket_count bucket) buckets /\ script_ok e
  | Merge e other => script_ok e /\ script_ok other
  end.

Record sketch_inv (s : DDSketch) (obs : list Obs) : Prop := {
  si_bins : bins_ok limit (bins s);
  si_kept : keeps_top limit obs (bin_obs (bins s));
  si_count : count s = total obs;
}.

Lemma sketch_total s obs : sketch_inv s obs -> sumZ n (bins s) = total obs.
Proof. intros [_ [_ _ _ Ht] _]. by rewrite <- Ht, total_bins. Qed.

(** Every operation that adds observations merges them into the bins and trims. *)
Lemma sketch_step s s' obs o r u :
  sketch_inv s obs -> keeps_top limit o r -> merged (bins s) r u -> total (obs ++ o) <= u32_max ->
  bins s' = trim_left (bin_limit cfg) u -> count s' = count s + total o -> sketch_inv s' (obs ++ o).
Proof.
  intros Hs Ho [Hus Huc Hcb] Ht Hb Hc. pose proof Hs as [Hbo Hk Hct].
  pose proof (keeps_combined _ _ _ _ _ _ Hk Ho Hcb) as Hu.
  destruct (trim_keeps (bin_limit cfg) (obs ++ o) u Hlimit Hus Huc) as [H1 H2]; [|done|].
  - rewrite <- total_bins. destruct Hu as [_ _ _ ->]. done.
  - split; [by rewrite Hb..|]. rewrite Hc, Hct, sketch_total_app. lia.
Qed.

Lemma sketch_fits s obs o : sketch_inv s obs -> Forall (fun x => 0 <= x.2) o -> total (obs ++ o) <= u32_max -> fits (bins s) o.
Proof.
  intros Hs Ho Ht. pose proof (sketch_total _ _ Hs) as Hsum. destruct Hs as [[Hbs Hbc _] _ _].
  rewrite sketch_total_app in Ht. split; [done..|lia].
Qed.

(** *** The operations *)

Lemma adjust_bins v times s : bins (adjust_basic_stats v times s) = bins s.
Proof. done. Qed.

Lemma adjust_count v times s : 0 <= times -> 0 <= count s -> count s + times <= u32_max -> count (adjust_basic_stats v times s) = count s + times.
Proof. intros. cbn. pose proof u32_in_u64. apply wrapping_add_exact. unfold in_range. lia. Qed.

Lemma trim_id bs : (length bs <= limit)%nat -> trim_left (bin_limit cfg) bs = bs.
Proof. intros Hl. unfold trim_left. destruct (Nat.leb_spec (length bs) limit); [by rewrite orb_true_r|lia]. Qed.

Lemma insert_trimmed v s :
  (length (bins s) <= limit)%nat -> bins (insert cfg v s) = trim_left (bin_limit cfg) (insert_bins (key_of_value cfg v) (bins s)) /\
  count (insert cfg v s) = count (adjust_basic_stats v 1 s).
Proof.
  intros Hl. unfold insert, insert_bins. cbn zeta. rewrite adjust_bins. destruct (find_slot _ _ _); [|done..].
  cbn. by rewrite trim_id by by rewrite length_alter.
Qed.

Lemma key_counts_trimmed counts s :
  bins (insert_key_counts cfg counts s) = trim_left (bin_limit cfg) (merge_key_counts (bins s) counts) /\ count (insert_key_counts cfg counts s) = count s.
Proof. done. Qed.

Lemma inv_total_nonneg s obs : sketch_inv s obs -> 0 <= total obs.
Proof. intros Hs. rewrite <- (sketch_total _ _ Hs). apply sum_bins_nonneg, Hs. Qed.

Lemma sketch_insert_inv v s obs : sketch_inv s obs -> total (obs ++ [(key_of_value cfg v, 1)]) <= u32_max ->
  sketch_inv (insert cfg v s) (obs ++ [(key_of_value cfg v, 1)]).
Proof.
  intros Hs Ht. pose proof (inv_total_nonneg _ _ Hs) as Hnn. pose proof (si_count _ _ Hs) as Hct.
  destruct (insert_trimmed v s) as [Hb Hc]; [apply Hs|].
  eapply sketch_step; [done|apply keeps_itself|apply insert_bins_merged; eapply sketch_fits; [done..| |done]|done..|].
  - repeat constructor. cbn. lia.
  - rewrite sketch_total_app, total_one in *. rewrite Hc, adjust_count by lia. done.
Qed.

Lemma insert_n_inv v times s obs : sketch_inv s obs -> 0 <= times -> total (obs ++ [(key_of_value cfg v, times)]) <= u32_max ->
  sketch_inv (insert_n cfg v times s) (obs ++ [(key_of_value cfg v, times)]).
Proof.
  intros Hs Htm Ht. pose proof (inv_total_nonneg _ _ Hs) as Hnn. pose proof (si_count _ _ Hs) as Hct.
  unfold insert_n. destruct (Z.eqb_spec times 1) as [->|]; [by apply sketch_insert_inv|].
  eapply sketch_step; [done|apply keeps_itself|apply merge_key_counts_merged|done|reflexivity|].
  - eapply sketch_fits; [done..| |done]. repeat constructor. done.
  - repeat constructor.
  - rewrite sketch_total_app, total_one in *. rewrite (proj2 (key_counts_trimmed _ _)), adjust_count by lia. done.
Qed.

Lemma adjust_all vs s : 0 <= count s -> count s + Z.of_nat (length vs) <= u32_max ->
  bins (foldl (fun s v => adjust_basic_stats v 1 s) s vs) = bins s /\
  count (foldl (fun s v => adjust_basic_stats v 1 s) s vs) = count s + Z.of_nat (length vs).
Proof.
  revert s. induction vs as [|v vs IH]; intros s H0 Hle; [cbn; split; [done|lia]|]. cbn [foldl length] in *.
  pose proof (adjust_count v 1 s ltac:(lia) H0 ltac:(lia)) as Hc.
  destruct (IH (adjust_basic_stats v 1 s)) as [-> ->]; [lia..|]. split; [done|]. lia.
Qed.

Lemma sorted_Z_leb keys : StronglySorted Z.le (stable_sort Z.leb keys).
Proof.
  pose proof (stable_sort_sorted Z.leb ltac:(lia) ltac:(lia) keys) as Hs.
  induction Hs as [|x l Hs IH Hf]; constructor; [done|]. eapply Forall_impl; [exact Hf|]. cbn. lia.
Qed.

Lemma ones_perm keys1 keys2 : keys1 ≡ₚ keys2 -> ones keys1 ≡ₚ ones keys2.
Proof. apply fmap_Permutation. Qed.

Lemma insert_many_inv vs s obs : sketch_inv s obs -> total (obs ++ ones (key_of_value cfg <$> vs)) <= u32_max ->
  exists s', insert_many cfg vs s = Some s' /\ sketch_inv s' (obs ++ ones (key_of_value cfg <$> vs)).
Proof.
  intros Hs Ht. pose proof (inv_total_nonneg _ _ Hs) as Hnn. pose proof (si_count _ _ Hs) as Hct.
  set (keys := key_of_value cfg <$> vs) in *. assert (Hlen : length keys = length vs) by apply length_fmap.
  rewrite sketch_total_app, total_ones in Ht. unfold insert_many, insert_keys. fold keys.
  destruct (adjust_all vs s) as [Hb Hc]; [lia..|]. destruct (Z.leb_spec (Z.of_nat (length keys)) u32_max); [|lia].
  rewrite Hb, length_stable_sort.
  pose proof (stable_sort_perm Z.leb keys) as Hp.
  destruct (insert_keys_loop_merged (length (bins s) + length keys + 1) (bins s) (stable_sort Z.leb keys)) as (u & -> & Hu).
  - eapply sketch_fits; [done| |].
    + apply Forall_fmap, Forall_forall. intros. cbn. lia.
    + rewrite sketch_total_app, total_ones, length_stable_sort. lia.
  - apply sorted_Z_leb.
  - rewrite length_stable_sort. lia.
  - eexists. split; [reflexivity|]. eapply sketch_step; [done| |exact Hu| |reflexivity|].
    + apply ones_perm in Hp. split.
      * intros key. by rewrite Hp.
      * intros key Hk. left. by rewrite Hp.
      * intros key _. by apply sumZ_perm.
      * by apply sumZ_perm.
    + by rewrite sketch_total_app, total_ones.
    + cbn [count set_bins]. by rewrite Hc, total_ones, Hlen.
Qed.

Lemma merge_inv s1 s2 o1 o2 : sketch_inv s1 o1 -> sketch_inv s2 o2 -> total (o1 ++ o2) <= u32_max ->
  sketch_inv (DDSketch_merge cfg s1 s2) (o1 ++ o2).
Proof.
  intros H1 H2 Ht. pose proof (inv_total_nonneg _ _ H1). pose proof (inv_total_nonneg _ _ H2).
  pose proof (si_count _ _ H1) as Hc1. pose proof (si_count _ _ H2) as Hc2. pose proof u32_in_u64.
  pose proof (si_bins _ _ H2) as [Hbs Hbc _].
  assert (Htr : total (bin_obs (bins s2)) = total o2) by (destruct (si_kept _ _ H2) as [_ _ _ Hx]; done).
  eapply sketch_step; [done|apply H2|apply merge_bins_merged; [|done]|done|reflexivity|].
  - eapply sketch_fits; [done|by apply Forall_fmap|]. rewrite sketch_total_app in *. lia.
  - rewrite sketch_total_app in Ht. cbn [DDSketch_merge set_bins count]. unfold merge_summary.
    destruct (Z.eqb_spec (count s1) 0); [cbn; lia|]. destruct (Z.ltb_spec 0 (count s2)); [|lia].
    cbn [count]. rewrite wrapping_add_exact by (unfold in_range; lia). lia.
Qed.

(** *** Interpolation *)

Lemma sorted_lt_snoc l x : StronglySorted Z.lt l -> Forall (fun i => i < x) l -> StronglySorted Z.lt (l ++ [x]).
Proof.
  intros Hs Hf. apply sorted_lt_app. split_and!; [done|repeat constructor|].
  rewrite Forall_forall in Hf. intros a c Ha ->%list_elem_of_singleton. by apply Hf.
Qed.

(** What holds of the loop over the keys of a bucket. *)
Record interpolating (s : DDSketch) (tot : Z) (it : Interpolation) : Prop := {
  ip_sorted : StronglySorted Z.lt (key_counts it).*1;
  ip_below : Forall (fun i => i < start_key it) (key_counts it).*1;
  ip_counts : Forall (fun o => 0 <= o.2) (key_counts it);
  ip_rest : 0 <= remaining_count it;
  ip_total : total (key_counts it) + remaining_count it = tot;
  ip_bins : bins (it_sketch it) = bins s;
  ip_count : count (it_sketch it) = count s + total (key_counts it);
}.

Lemma f64_to_u64_nonneg x : 0 <= f64_to_u64 x.
Proof. apply f64_to_u_range. lia. Qed.

Lemma interpolate_step_ok s tot distance end_key it it' :
  interpolating s tot it -> 0 <= count s -> count s + tot <= u32_max -> start_key it < end_key ->
  interpolate_step cfg tot distance end_key it = Some it' -> interpolating s tot it' /\ start_key it' <= end_key.
Proof.
  intros [H1 H2 H3 H4 H5 H6 H7] Hs0 Hs Hlt. unfold interpolate_step.
  destruct (bin_lower_bound cfg end_key) as [ub|]; [|done]. cbn [mbind option_bind].
  match goal with |- context [0 <? ?x] => set (kn := x); destruct (Z.ltb_spec 0 kn) as [Hkn|] end; intros [= <-].
  2:{ split; [by constructor|cbn; lia]. }
  set (kn' := if remaining_count it <? kn then remaining_count it else kn).
  assert (0 <= kn' <= remaining_count it) by (subst kn'; destruct (Z.ltb_spec (remaining_count it) kn); lia).
  pose proof (sketch_total_nonneg _ H3). split; [|cbn; lia].
  constructor; cbn [key_counts remaining_count start_key it_sketch bins].
  - rewrite fmap_app. by apply sorted_lt_snoc.
  - rewrite fmap_app. apply Forall_app. split; [eapply Forall_impl; [exact H2|]; cbn; lia|repeat constructor; done].
  - apply Forall_app. split; [done|]. repeat constructor. cbn. lia.
  - lia.
  - rewrite sketch_total_app, total_one. lia.
  - done.
  - rewrite adjust_count, sketch_total_app, total_one; lia.
Qed.

Lemma interpolate_loop_ok s tot distance end_keys it it' :
  interpolating s tot it -> 0 <= count s -> count s + tot <= u32_max -> StronglySorted Z.lt (start_key it :: end_keys) ->
  interpolate_loop cfg tot distance end_keys it = Some it' -> interpolating s tot it'.
Proof.
  revert it. induction end_keys as [|end_key end_keys IH]; intros it Hit H0 Ht Hs; cbn [interpolate_loop]; [by intros [= <-]|].
  destruct (0 <? remaining_count it); [|by intros [= <-]].
  apply StronglySorted_inv in Hs as [Hs Hf]. apply Forall_cons in Hf as [Hlt Hf].
  destruct (interpolate_step cfg tot distance end_key it) as [it1|] eqn:E; [|done]. cbn [mbind option_bind].
  destruct (interpolate_step_ok _ _ _ _ _ _ Hit H0 Ht Hlt E) as [Hit1 Hle]. apply IH; [done..|].
  apply StronglySorted_inv in Hs as [Hs Hf']. constructor; [done|]. eapply Forall_impl; [exact Hf'|]. cbn. lia.
Qed.

Lemma seqZ_sorted lo len : StronglySorted Z.lt (seqZ lo len).
Proof.
  destruct (Z.le_gt_cases 0 len) as [Hl|Hl]; [|rewrite seqZ_nil by lia; constructor].
  revert lo. pattern len. apply natlike_ind; [intros; rewrite seqZ_nil by lia; constructor| |done].
  intros x Hx IH lo. rewrite seqZ_cons by lia. rewrite Z.pred_succ. constructor; [apply IH|].
  apply Forall_forall. intros i Hi. apply elem_of_seqZ in Hi. lia.
Qed.

Lemma interpolate_bucket_ok lower upper tot s s1 counts :
  0 <= tot -> 0 <= count s -> count s + tot <= u32_max -> interpolate_bucket cfg lower upper tot s = Some (s1, counts) ->
  StronglySorted Z.lt counts.*1 /\ Forall (fun o => 0 <= o.2) counts /\ total counts = tot /\ bins s1 = bins s /\ count s1 = count s + tot.
Proof.
  intros Htot H0 Ht. unfold interpolate_bucket. destruct (seqZ _ _) as [|first end_keys] eqn:E; [done|].
  pose proof (seqZ_sorted (key_of_value cfg lower) (key_of_value cfg upper - key_of_value cfg lower + 1)) as Hsz. rewrite E in Hsz.
  destruct (bin_lower_bound cfg first) as [lb|]; [|done]. cbn [mbind option_bind].
  destruct (interpolate_loop _ _ _ _ _) as [it|] eqn:El; [|done]. cbn [mbind option_bind].
  apply interpolate_loop_ok with (s := s) in El; [|constructor; cbn; try done; try constructor; unfold total, weight_of; cbn; lia|done..].
  destruct El as [H1 H2 H3 H4 H5 H6 H7]. pose proof (sketch_total_nonneg _ H3). unfold interpolate_rest.
  destruct (Z.ltb_spec 0 (remaining_count it)).
  - destruct (bin_lower_bound cfg (start_key it)); [|done]. intros [= <- <-]. split_and!.
    + rewrite fmap_app. by apply sorted_lt_snoc.
    + apply Forall_app. split; [done|]. repeat constructor. cbn. lia.
    + rewrite sketch_total_app, total_one. lia.
    + done.
    + rewrite adjust_count; lia.
  - intros [= <- <-]. split_and!; [done..|lia|done|lia].
Qed.

Lemma sorted_by_key counts : StronglySorted Z.lt counts.*1 -> stable_sort (fun x y : Z * Z => x.1 <=? y.1) counts = counts.
Proof.
  intros Hs. apply stable_sort_id. induction counts as [|o counts IH]; [constructor|].
  apply StronglySorted_inv in Hs as [Hs Hf]. constructor; [by apply IH|].
  change (Forall (Z.lt o.1) (fst <$> counts)) in Hf. rewrite Forall_fmap in Hf. eapply Forall_impl; [exact Hf|]. cbn. lia.
Qed.

Lemma interpolate_bucket_inv lower upper tot s obs s1 counts s2 :
  sketch_inv s obs -> 0 <= tot -> total obs + tot <= u32_max ->
  interpolate_bucket cfg lower upper tot s = Some (s1, counts) -> insert_interpolate_bucket cfg lower upper tot s = Some s2 ->
  sketch_inv s2 (obs ++ counts) /\ total counts = tot.
Proof.
  intros Hs Htot Ht E. unfold insert_interpolate_bucket. rewrite E. cbn [mbind option_bind]. intros [= <-].
  pose proof (inv_total_nonneg _ _ Hs). pose proof (si_count _ _ Hs) as Hct.
  destruct (interpolate_bucket_ok lower upper tot s s1 counts Htot) as (H1 & H2 & H3 & H4 & H5); [lia..|done|].
  split; [|done]. rewrite sorted_by_key by done.
  eapply sketch_step; [done|apply keeps_itself|apply merge_key_counts_merged; [|done]| | |].
  - eapply sketch_fits; [done..|]. rewrite sketch_total_app. lia.
  - rewrite sketch_total_app. lia.
  - cbn. by rewrite H4.
  - rewrite (proj2 (key_counts_trimmed _ _)). lia.
Qed.

Lemma interpolate_buckets_inv lower buckets s obs s' :
  sketch_inv s obs -> Forall (fun bucket => 0 <= bucket_count bucket) buckets -> total obs + sumZ bucket_count buckets <= u32_max ->
  interpolate_buckets cfg lower buckets s = Some s' ->
  exists o, interpolated lower buckets s = Some o /\ sketch_inv s' (obs ++ o) /\ total o = sumZ bucket_count buckets.
Proof.
  revert lower s obs. induction buckets as [|bucket buckets IH]; intros lower s obs Hs Hb Ht; cbn [interpolate_buckets interpolated].
  { intros [= <-]. exists []. by rewrite app_nil_r. }
  apply Forall_cons in Hb as [Hb0 Hb]. rewrite sumZ_cons in Ht. destruct (bucket_bounds lower (upper_limit bucket)) as [lo hi].
  assert (0 <= sumZ bucket_count buckets) by (apply sumZ_nonneg; by apply Forall_forall).
  destruct (insert_interpolate_bucket cfg lo hi (bucket_count bucket) s) as [s2|] eqn:E2; [|done]. cbn [mbind option_bind]. intros Hr.
  destruct (interpolate_bucket cfg lo hi (bucket_count bucket) s) as [[s1 counts]|] eqn:E1;
    [|unfold insert_interpolate_bucket in E2; by rewrite E1 in E2]. cbn [mbind option_bind].
  destruct (interpolate_bucket_inv _ _ _ _ _ _ _ _ Hs Hb0 ltac:(lia) E1 E2) as [Hs2 Hc].
  destruct (IH (upper_limit bucket) s2 (obs ++ counts) Hs2 Hb) as (o & -> & Ho & Hto); [rewrite sketch_total_app; lia|done|].
  cbn [mbind option_bind]. eexists. split; [reflexivity|]. split; [by rewrite app_assoc|]. rewrite sketch_total_app, sumZ_cons. lia.
Qed.

(** *** Scripts *)

(** How many values a script gives to its sketch. *)
Fixpoint script_total (e : script) : Z :=
  match e with
  | New => 0
  | Ins _ e => script_total e + 1
  | InsMany vs e => script_total e + Z.of_nat (length vs)
  | InsN _ times e => script_total e + times
  | Interpolate buckets e => script_total e + sumZ bucket_count buckets
  | Merge e other => script_total e + script_total other
  end.

(** Interpolating is the only operation that may panic, on limits that are not numbers. *)
Fixpoint without_buckets (e : script) : bool :=
  match e with
  | New => true
  | Ins _ e | InsMany _ e | InsN _ _ e => without_buckets e
  | Interpolate _ _ => false
  | Merge e other => without_buckets e && without_buckets other
  end.

Lemma script_total_nonneg e : script_ok e -> 0 <= script_total e.
Proof.
  induction e; cbn; intros Hok; try naive_solver lia.
  destruct Hok as [Hb Hok]. assert (0 <= sumZ bucket_count buckets) by (apply sumZ_nonneg; by apply Forall_forall). specialize (IHe Hok). lia.
Qed.

Lemma sketch_new_inv : sketch_inv DDSketch_default [].
Proof. split; [split; [constructor..|cbn; lia]|apply keeps_itself|done]. Qed.

(** Buckets that are small enough are not refused. *)
Lemma interpolate_accepted buckets s obs r :
  sketch_inv s obs -> Forall (fun bucket => 0 <= bucket_count bucket) buckets -> total obs + sumZ bucket_count buckets <= u32_max ->
  insert_interpolate_buckets cfg buckets s = Some r ->
  exists s' o, r = Ok s' /\ interpolated (S754_infinity true) (stable_sort (fun x y => ordered_leb (upper_limit x) (upper_limit y)) buckets) s = Some o /\
    sketch_inv s' (obs ++ o) /\ total o = sumZ bucket_count buckets.
Proof.
  intros Hs Hb Ht. unfold insert_interpolate_buckets.
  pose proof (stable_sort_perm (fun x y => ordered_leb (upper_limit x) (upper_limit y)) buckets) as Hp.
  set (sorted := stable_sort _ buckets) in *. rewrite <- Hp in Hb. rewrite <- (sumZ_perm _ _ _ Hp) in *.
  pose proof (inv_total_nonneg _ _ Hs).
  destruct (existsb _ sorted) eqn:Ex.
  { apply existsb_exists in Ex as (bucket & Hin & Hbig). bool_cases. apply list_elem_of_In in Hin. exfalso.
    apply list_elem_of_split in Hin as (l1 & l2 & Hl). rewrite Hl in Ht, Hb. rewrite sumZ_app, sumZ_cons in Ht. apply Forall_app in Hb as [Hb1 [_ Hb2]%Forall_cons].
    assert (0 <= sumZ bucket_count l1) by (apply sumZ_nonneg; by apply Forall_forall).
    assert (0 <= sumZ bucket_count l2) by (apply sumZ_nonneg; by apply Forall_forall). lia. }
  destruct (interpolate_buckets _ _ _ _) as [s'|] eqn:E; [|done]. intros [= <-].
  destruct (interpolate_buckets_inv _ _ _ _ _ Hs Hb Ht E) as (o & Ho & Hinv & Htot). by exists s', o.
Qed.

Lemma sketch_run_inv e s obs : script_ok e -> script_total e <= u32_max -> run e = Some (s, obs) -> sketch_inv s obs /\ total obs = script_total e.
Proof.
  revert s obs. induction e as [|v e IH|vs e IH|v times e IH|buckets e IH|e IH other IH']; intros s obs Hok Ht; cbn [run script_ok script_total] in *.
  - intros [= <- <-]. split; [apply sketch_new_inv|done].
  - pose proof (script_total_nonneg e Hok). destruct (run e) as [[s0 o0]|]; [|done]. intros [= <- <-].
    destruct (IH _ _ Hok ltac:(lia) eq_refl) as [Hs Hto]. split; [apply sketch_insert_inv; [done|]|]; rewrite sketch_total_app, total_one; lia.
  - pose proof (script_total_nonneg e Hok). destruct (run e) as [[s0 o0]|]; [|done]. cbn [mbind option_bind].
    destruct (IH _ _ Hok ltac:(lia) eq_refl) as [Hs Hto].
    destruct (insert_many_inv vs s0 o0 Hs) as (s' & -> & Hs'); [rewrite sketch_total_app, total_ones, length_fmap; lia|].
    intros [= <- <-]. split; [done|]. rewrite sketch_total_app, total_ones, length_fmap. lia.
  - destruct Hok as [Htm Hok]. pose proof (script_total_nonneg e Hok). destruct (run e) as [[s0 o0]|]; [|done]. intros [= <- <-].
    destruct (IH _ _ Hok ltac:(lia) eq_refl) as [Hs Hto]. split; [apply insert_n_inv; [done..|]|]; rewrite sketch_total_app, total_one; lia.
  - destruct Hok as [Hb Hok]. pose proof (script_total_nonneg e Hok).
    assert (0 <= sumZ bucket_count buckets) by (apply sumZ_nonneg; by apply Forall_forall).
    destruct (run e) as [[s0 o0]|]; [|done]. cbn [mbind option_bind]. destruct (IH _ _ Hok ltac:(lia) eq_refl) as [Hs Hto].
    destruct (insert_interpolate_buckets cfg buckets s0) as [r|] eqn:E; [|done]. cbn [mbind option_bind].
    destruct (interpolate_accepted buckets s0 o0 r Hs Hb ltac:(lia) E) as (s' & o & -> & -> & Hs' & Hto').
    intros [= <- <-]. split; [done|]. rewrite sketch_total_app. lia.
  - destruct Hok as [H1 H2]. pose proof (script_total_nonneg _ H1). pose proof (script_total_nonneg _ H2).
    destruct (run e) as [[s1 o1]|]; [|done]. destruct (run other) as [[s2 o2]|]; [|done]. intros [= <- <-].
    destruct (IH _ _ H1 ltac:(lia) eq_refl) as [Hs1 Ht1]. destruct (IH' _ _ H2 ltac:(lia) eq_refl) as [Hs2 Ht2].
    split; [apply merge_inv; [done..|]|]; rewrite sketch_total_app; lia.
Qed.

Lemma run_total e : without_buckets e = true -> script_ok e -> script_total e <= u32_max -> is_Some (run e).
Proof.
  induction e as [|v e IH|vs e IH|v times e IH|buckets e IH|e IH other IH']; intros Hw Hok Ht; cbn [run script_ok script_total without_buckets] in *; [by eexists|..].
  - destruct IH as [[s o] ->]; [done..|lia|by eexists].
  - destruct IH as [[s o] Hr]; [done..|lia|]. rewrite Hr. cbn [mbind option_bind].
    destruct (sketch_run_inv e s o Hok ltac:(lia) Hr) as [Hs Hto].
    destruct (insert_many_inv vs s o Hs) as (s' & -> & _); [rewrite sketch_total_app, total_ones, length_fmap; lia|by eexists].
  - destruct Hok as [Htm Hok]. destruct IH as [[s o] ->]; [done..|lia|by eexists].
  - done.
  - bool_cases. destruct Hok as [Ho1 Ho2]. pose proof (script_total_nonneg _ Ho1). pose proof (script_total_nonneg _ Ho2).
    destruct IH as [[s o] ->]; [done..|lia|]. destruct IH' as [[s2 o2] ->]; [done..|lia|by eexists].
Qed.
End sketches.

(** ** The bins are determined *)

Lemma above_succ key keys : key ∈ keys -> (above (key + 1) keys < above key keys)%nat.
Proof.
  intros Hin. apply subset_size. split.
  - intros i. rewrite !elem_of_filter. naive_solver lia.
  - intros Hs. specialize (Hs key). rewrite !elem_of_filter, elem_of_list_to_set in Hs. destruct Hs as [Hx _]; [done|]. lia.
Qed.

Lemma kept_keys_incl limit o1 o2 r1 r2 :
  (length r1 <= limit)%nat -> keeps_top limit o1 r1 -> keeps_top limit o2 r2 -> (forall key, key ∈ o1.*1 <-> key ∈ o2.*1) ->
  forall key, key ∈ r1.*1 -> key ∈ r2.*1.
Proof.
  intros Hl H1 H2 Ho key Hk. destruct (kt_dropped _ _ _ H2 key) as [|Ha]; [apply Ho; by eapply kt_keys|done|]. exfalso.
  pose proof (above_succ _ _ Hk) as Hlt. pose proof (above_length key r1.*1) as Hle. rewrite length_fmap in Hle.
  assert (Hincl : (above (key + 1) r2.*1 <= above (key + 1) r1.*1)%nat); [|lia].
  apply subseteq_size. intros i. rewrite !elem_of_filter, !elem_of_list_to_set. intros [Hi Hin]. split; [done|].
  destruct (kt_dropped _ _ _ H1 i) as [|Hb]; [apply Ho; by eapply kt_keys|done|]. exfalso.
  pose proof (above_le (key + 1) (i + 1) r1.*1 ltac:(lia)). lia.
Qed.

Lemma weight_of_bin bs bn : StronglySorted Z.lt (k <$> bs) -> bn ∈ bs -> weight_of (exactly (k bn)) (bin_obs bs) = n bn.
Proof.
  intros Hs Hin. apply list_elem_of_split in Hin as (l1 & l2 & ->). rewrite fmap_app in Hs. apply sorted_lt_app in Hs as (_ & Hs & Hlt).
  apply StronglySorted_inv in Hs as [_ Hf]. change (Forall (Z.lt (k bn)) (k <$> l2)) in Hf. rewrite Forall_forall in Hf.
  rewrite bin_obs_app, bin_obs_cons, weight_of_app, weight_of_cons, !weight_of_none; cbn [fst snd].
  - unfold exactly. rewrite Z.eqb_refl. lia.
  - intros o Ho. assert (Hx : o.1 ∈ k <$> l2) by (rewrite <- bin_obs_keys; by apply list_elem_of_fmap_2). specialize (Hf _ Hx). unfold exactly. lia.
  - intros o Ho. assert (Hx : o.1 ∈ k <$> l1) by (rewrite <- bin_obs_keys; by apply list_elem_of_fmap_2). specialize (Hlt _ (k bn) Hx ltac:(left)). unfold exactly. lia.
Qed.

(** Bins above the lowest are exact. *)
Lemma tail_exact limit obs first rest bn :
  bins_ok limit (first :: rest) -> keeps_top limit obs (bin_obs (first :: rest)) -> bn ∈ rest -> n bn = weight_of (exactly (k bn)) obs.
Proof.
  intros [Hs _ Hl] Hk Hin. rewrite <- (weight_of_bin (first :: rest) bn Hs) by by right. apply (kt_exact _ _ _ Hk). rewrite bin_obs_keys.
  apply StronglySorted_inv in Hs as [Hs Hf]. change (Forall (Z.lt (k first)) (k <$> rest)) in Hf. rewrite Forall_forall in Hf.
  specialize (Hf (k bn) ltac:(by apply list_elem_of_fmap_2)).
  assert (Heq : above (k bn) (k <$> first :: rest) = above (k bn) (k <$> rest)).
  { change (k <$> first :: rest) with ([k first] ++ (k <$> rest)). apply above_app. intros i ->%list_elem_of_singleton. done. }
  rewrite Heq. pose proof (above_length (k bn) (k <$> rest)) as Hle. rewrite length_fmap in Hle. cbn [length] in Hl. lia.
Qed.

Lemma same_keys_eq (l1 l2 : list Bin) :
  k <$> l1 = k <$> l2 -> (forall b1 b2, b1 ∈ l1 -> b2 ∈ l2 -> k b1 = k b2 -> n b1 = n b2) -> l1 = l2.
Proof.
  revert l2. induction l1 as [|[k1 n1] l1 IH]; intros [|[k2 n2] l2] Hk Hn; try done. injection Hk as -> Hk. f_equal.
  - f_equal. by apply (Hn (MkBin k2 n1) (MkBin k2 n2)); [left..|].
  - apply IH; [done|]. intros b1 b2 H1 H2. apply Hn; by right.
Qed.

Lemma kept_unique limit o1 o2 b1 b2 :
  bins_ok limit b1 -> bins_ok limit b2 -> keeps_top limit o1 (bin_obs b1) -> keeps_top limit o2 (bin_obs b2) -> same_obs o1 o2 -> b1 = b2.
Proof.
  intros Hb1 Hb2 Hk1 Hk2 (Hkeys & Hw & Ht).
  assert (Hlen : forall bs, bins_ok limit bs -> (length (bin_obs bs) <= limit)%nat) by (intros bs []; unfold bin_obs; by rewrite length_fmap).
  assert (Heq : k <$> b1 = k <$> b2).
  { apply sorted_lt_unique; [apply Hb1|apply Hb2|]. intros i. rewrite <- !bin_obs_keys. split.
    - eapply (kept_keys_incl limit o1 o2); auto.
    - eapply (kept_keys_incl limit o2 o1); auto. intros key. symmetry. apply Hkeys. }
  destruct b1 as [|f1 r1], b2 as [|f2 r2]; try done. injection Heq as Hf Hr.
  assert (r1 = r2) as ->.
  { apply same_keys_eq; [done|]. intros x y Hx Hy Hxy.
    rewrite (tail_exact _ _ _ _ _ Hb1 Hk1 Hx), (tail_exact _ _ _ _ _ Hb2 Hk2 Hy), Hxy. apply Hw. }
  f_equal. destruct Hk1 as [_ _ _ T1], Hk2 as [_ _ _ T2]. rewrite total_bins, sumZ_cons in T1, T2. destruct f1, f2; cbn in *. f_equal; lia.
Qed.

(** ** Theorems *)

Lemma sum_exactly key c keys : NoDup keys -> sumZ (fun i => if exactly i key then c else 0) keys = if bool_decide (key ∈ keys) then c else 0.
Proof.
  induction 1 as [|i keys Hni Hnd IH]; [done|]. rewrite sumZ_cons, IH. unfold exactly.
  destruct (Z.eqb_spec key i) as [->|]; repeat case_bool_decide; set_solver by lia.
Qed.

(** A weight is the sum of the weights of its keys. *)
Lemma weight_of_keys p obs keys :
  NoDup keys -> (forall o, o ∈ obs -> p o.1 = bool_decide (o.1 ∈ keys)) -> weight_of p obs = sumZ (fun key => weight_of (exactly key) obs) keys.
Proof.
  intros Hnd. induction obs as [|o obs IH]; intros Hp.
  - change (weight_of p []) with 0. clear. induction keys as [|i keys IHk]; [done|]. rewrite sumZ_cons, <- IHk. done.
  - rewrite weight_of_cons, IH by (intros; apply Hp; by right). rewrite (Hp o ltac:(left)), <- (sum_exactly o.1 o.2 keys Hnd).
    clear. induction keys as [|i keys IHk]; [done|]. rewrite !sumZ_cons, weight_of_cons. lia.
Qed.

Lemma lowest_counts_rest limit obs first rest :
  bins_ok limit (first :: rest) -> keeps_top limit obs (bin_obs (first :: rest)) -> n first = weight_of (fun i => i <=? k first) obs.
Proof.
  intros Hb Hk. pose proof Hb as [Hs _ Hl].
  assert (Hnd : NoDup (k <$> rest)) by (apply sorted_lt_nodup; by apply StronglySorted_inv in Hs as [Hs _]).
  pose proof Hs as Hs'. apply StronglySorted_inv in Hs' as [_ Hf]. change (Forall (Z.lt (k first)) (k <$> rest)) in Hf. rewrite Forall_forall in Hf.
  assert (Hhi : weight_of (fun i => k first <? i) obs = sumZ n rest).
  { rewrite (weight_of_keys _ obs (k <$> rest) Hnd).
    - clear -Hb Hk. assert (forall bn, bn ∈ rest -> n bn = weight_of (exactly (k bn)) obs) as He by (intros; by eapply tail_exact).
      induction rest as [|bn rest IH] in He |- *; [done|]. rewrite fmap_cons, !sumZ_cons, (He bn) by left. f_equal.
      assert (sumZ (fun key => weight_of (exactly key) obs) (k <$> rest) = sumZ n rest); [|done].
      clear -He. induction rest as [|x rest IH']; [done|]. rewrite fmap_cons, !sumZ_cons, (He x), IH' by set_solver. done.
    - intros o Ho. assert (Hin : o.1 ∈ obs.*1) by by apply list_elem_of_fmap_2. case_bool_decide as Hd.
      + specialize (Hf _ Hd). lia.
      + destruct (kt_dropped _ _ _ Hk _ Hin) as [Hr|Ha]; rewrite bin_obs_keys in *.
        * change (o.1 ∈ k first :: (k <$> rest)) in Hr. apply elem_of_cons in Hr as [Hr|Hr]; [lia|done].
        * assert (~ k first < o.1); [|lia]. intros Hlt. pose proof (above_length (o.1 + 1) (k <$> rest)) as Hle.
          change (k <$> first :: rest) with ([k first] ++ (k <$> rest)) in Ha. rewrite above_app in Ha by (intros i ->%list_elem_of_singleton; lia).
          rewrite length_fmap in Hle. cbn [length] in Hl. lia. }
  pose proof (kt_total _ _ _ Hk) as Ht. rewrite total_bins, sumZ_cons, <- Hhi in Ht. unfold total in Ht.
  assert (Hsplit : weight_of (fun _ => true) obs = weight_of (fun i => i <=? k first) obs + weight_of (fun i => k first <? i) obs).
  { rewrite <- weight_of_orb by (intros; lia). apply weight_of_ext. intros o _. lia. }
  lia.
Qed.

(** C24: whatever values are inserted one by one, in bulk, with a weight or as histogram buckets, and
    whatever sketches are merged, as long as there are at most [u32::MAX] of them the sketch counts them
    all; its bins are in ascending order of their keys, within the limit; keys without a bin lie below
    all bins, of which there are then as many as the limit allows; every bin but the lowest counts its
    key exactly, and the lowest counts what is at or below it. *)
Theorem agent_sketch_keeps_highest_keys `{Libm} (cfg : Config) (e : script) s obs
    (Hlimit : 0 < bin_limit cfg) (Hok : script_ok e) (Htotal : script_total e <= u32_max) (Hrun : run cfg e = Some (s, obs)) :
  count s = script_total e /\ total obs = script_total e /\
  StronglySorted Z.lt (k <$> bins s) /\ Z.of_nat (length (bins s)) <= bin_limit cfg /\
  (forall key, key ∈ obs.*1 -> key ∈ k <$> bins s \/ (Z.of_nat (length (bins s)) = bin_limit cfg /\ Forall (fun bn => key < k bn) (bins s))) /\
  match bins s with
  | [] => obs = []
  | lowest :: rest => n lowest = weight_of (fun i => i <=? k lowest) obs /\ Forall (fun bn => n bn = weight_of (exactly (k bn)) obs) rest
  end.
Proof.
  destruct (sketch_run_inv cfg Hlimit e s obs Hok Htotal Hrun) as [[Hb Hk Hc] Ht]. split_and!; [congruence|done|apply Hb|destruct Hb; lia| |].
  - intros key Ho. destruct (kt_dropped _ _ _ Hk key Ho) as [Hin|Ha]; rewrite bin_obs_keys in *; [by left|]. right.
    destruct Hb as [Hs _ Hl]. pose proof (above_length (key + 1) (k <$> bins s)) as Hle. rewrite length_fmap in Hle. split; [lia|].
    destruct (bins s) as [|first rest]; [constructor|].
    assert (Hall : key < k first).
    { destruct (Z.lt_ge_cases key (k first)) as [|Hge]; [done|]. change (k <$> first :: rest) with ([k first] ++ (k <$> rest)) in Ha.
      rewrite above_app in Ha by (intros i ->%list_elem_of_singleton; lia). pose proof (above_length (key + 1) (k <$> rest)) as Hx.
      rewrite length_fmap in Hx. cbn [length] in *. lia. }
    apply StronglySorted_inv in Hs as [_ Hf]. change (Forall (Z.lt (k first)) (k <$> rest)) in Hf. rewrite Forall_fmap in Hf.
    constructor; [done|]. eapply Forall_impl; [exact Hf|]. cbn. lia.
  - destruct (bins s) as [|first rest] eqn:E.
    + destruct obs as [|o obs]; [done|]. destruct (kt_dropped _ _ _ Hk o.1) as [Hx|Hx]; [left|by apply not_elem_of_nil in Hx|].
      pose proof (above_length (o.1 + 1) (bin_obs []).*1). cbn [bin_obs fmap list_fmap length] in *. lia.
    + split; [by eapply lowest_counts_rest|]. apply Forall_forall. intros bn Hbn. by eapply tail_exact.
Qed.

(** C33: two sketches that were given the same values, each key as often, have the same bins and the same
    count, in whatever order and through whatever operations and merges they got them. *)
Theorem agent_sketch_order_free `{Libm} (cfg : Config) (e1 e2 : script) s1 s2 o1 o2
    (Hlimit : 0 < bin_limit cfg) (Hok1 : script_ok e1) (Hok2 : script_ok e2) (Ht1 : script_total e1 <= u32_max) (Ht2 : script_total e2 <= u32_max)
    (Hr1 : run cfg e1 = Some (s1, o1)) (Hr2 : run cfg e2 = Some (s2, o2)) (Hsame : same_obs o1 o2) :
  bins s1 = bins s2 /\ count s1 = count s2.
Proof.
  destruct (sketch_run_inv cfg Hlimit e1 s1 o1 Hok1 Ht1 Hr1) as [[B1 K1 C1] _]. destruct (sketch_run_inv cfg Hlimit e2 s2 o2 Hok2 Ht2 Hr2) as [[B2 K2 C2] _].
  split; [by eapply kept_unique|]. rewrite C1, C2. apply Hsame.
Qed.

(** ** Witnesses *)

(** A stand-in for the logarithm and the power function, on which the keys of integers are themselves. *)
#[local] Instance toy_libm : Libm := {| f64_ln := fun x => x; f64_powf := fun _ x => x |}.
Definition toy_config : Config := {| bin_limit := 2; gamma_v := f64_of_Z 2; gamma_ln := f64_one; norm_min := f64_one; norm_bias := 0 |}.

Definition script_a : script := InsMany [f64_of_Z 5; f64_of_Z 3; f64_of_Z 9; f64_of_Z 5] New.
Definition script_b : script := Merge (Ins (f64_of_Z 9) (InsN (f64_of_Z 5) 2 New)) (Ins (f64_of_Z 3) New).

Example script_a_bins : fst <$> run toy_config script_a = Some {| bins := [MkBin 5 3; MkBin 9 1]; count := 4;
  min := f64_of_Z 3; max := f64_of_Z 9; sum := f64_of_Z 22; avg := f64_scale 11 (-1) |}.
Proof. vm_compute. reflexivity. Qed.

Definition ran_a : DDSketch * list Obs := Eval vm_compute in default (DDSketch_default, []) (run toy_config script_a).
Definition ran_b : DDSketch * list Obs := Eval vm_compute in default (DDSketch_default, []) (run toy_config script_b).

Lemma agent_sketch_keeps_highest_keys_witness : run toy_config script_a = Some ran_a /\ count ran_a.1 = 4.
Proof.
  split; [vm_compute; reflexivity|].
  destruct (agent_sketch_keeps_highest_keys toy_config script_a ran_a.1 ran_a.2) as [H _];
    [reflexivity|exact I|vm_compute; discriminate|vm_compute; reflexivity|exact H].
Defined.

Lemma agent_sketch_order_free_witness : bins ran_a.1 = bins ran_b.1.
Proof.
  destruct (agent_sketch_order_free toy_config script_a script_b ran_a.1 ran_b.1 ran_a.2 ran_b.2) as [H _];
    [reflexivity|exact I|vm_compute; intuition discriminate|vm_compute; discriminate|vm_compute; discriminate
    |vm_compute; reflexivity|vm_compute; reflexivity| |exact H].
  split; [intros key; cbn; rewrite !elem_of_cons; tauto|]. split; [|reflexivity].
  intros [|p|p]; [reflexivity| |reflexivity]. do 5 (destruct p as [p|p|]; try reflexivity).
Defined.
