(* ===== verification/AgentSketchStats.v ===== *)
(** * The statistics and quantiles of the Agent's sketch

    Minimum and maximum are values that were inserted, quantiles lie between them, and the protobuf form
    of a sketch gives the sketch back.  The examples at the end are inputs on which the sketch does
    something else than its comments say. *)

From Stdlib Require Import ZArith Lia Sorted Floats.SpecFloat.
From stdpp Require Import base tactics list numbers gmap.
From S2P Require Import Prelude Float64 MetricValues SketchStore AgentSketch AgentSketchProofs.
Open Scope Z_scope.

(** ** The order of the floats *)

Definition finite (v : f64) : Prop := f64_leb f64_MIN v = true /\ f64_leb v f64_MAX = true.

Lemma leb_not_nan x y : f64_leb x y = true -> is_nan x = false /\ is_nan y = false.
Proof. destruct x as [s|s| |s m e], y as [s'|s'| |s' m' e']; try done; by destruct s. Qed.

Lemma finite_not_nan v : finite v -> is_nan v = false.
Proof. intros [H1 _]. apply leb_not_nan in H1. apply H1. Qed.

Lemma leb_refl x : is_nan x = false -> f64_leb x x = true.
Proof. intros Hx. apply f64_leb_key; [done..|]. unfold key_le. lia. Qed.

Lemma leb_trans x y z : f64_leb x y = true -> f64_leb y z = true -> f64_leb x z = true.
Proof.
  intros H1 H2. destruct (leb_not_nan _ _ H1), (leb_not_nan _ _ H2). rewrite f64_leb_key in * by done. unfold key_le in *. lia.
Qed.

Lemma leb_of_ltb x y : f64_ltb x y = true -> f64_leb x y = true.
Proof. unfold f64_ltb, f64_leb, SFltb, SFleb. by destruct (SFcompare x y) as [[]|]. Qed.

Lemma leb_of_not_ltb x y : is_nan x = false -> is_nan y = false -> f64_ltb x y = false -> f64_leb y x = true.
Proof.
  intros Hx Hy. destruct (SFcompare_total x y Hx Hy) as [c Hc]. unfold f64_ltb, f64_leb, SFltb, SFleb.
  rewrite Hc, (SFcompare_antisym _ _ _ Hc). by destruct c.
Qed.

(** Nothing but the largest float is the largest float. *)
Lemma leb_MAX v : f64_leb v f64_MAX = true -> f64_leb f64_MAX v = true -> v = f64_MAX.
Proof.
  intros H1 H2. destruct (leb_not_nan _ _ H1) as [Hv _]. rewrite f64_leb_key in * by done. unfold key_le in *.
  destruct v as [s|s| |s m e]; cbn in *; try destruct s; cbn in *; try lia; unfold f64_MAX. f_equal; lia.
Qed.

Lemma leb_MIN v : f64_leb v f64_MIN = true -> f64_leb f64_MIN v = true -> v = f64_MIN.
Proof.
  intros H1 H2. destruct (leb_not_nan _ _ H1) as [Hv _]. rewrite f64_leb_key in * by done. unfold key_le in *.
  destruct v as [s|s| |s m e]; cbn in *; try destruct s; cbn in *; try lia; unfold f64_MIN, f64_MAX; cbn. f_equal; lia.
Qed.

(** ** Extremes *)

Section stats.
Context `{Libm} (cfg : Config) (Hlimit : 0 < bin_limit cfg).

(** The values a script inserts. *)
Fixpoint values (e : script) : list f64 :=
  match e with
  | New => []
  | Ins v e | InsN v _ e => values e ++ [v]
  | InsMany vs e => values e ++ vs
  | Interpolate _ e => values e
  | Merge e other => values e ++ values other
  end.

(** Weights are positive, as those of samples are. *)
Fixpoint weights_ok (e : script) : Prop :=
  match e with
  | New => True
  | Ins _ e | InsMany _ e | Interpolate _ e => weights_ok e
  | InsN _ times e => 0 < times /\ weights_ok e
  | Merge e other => weights_ok e /\ weights_ok other
  end.

Record extremes (s : DDSketch) (vals : list f64) : Prop := {
  ex_none : vals = [] -> min s = f64_MAX /\ max s = f64_MIN;
  ex_min : vals <> [] -> min s ∈ vals;
  ex_max : vals <> [] -> max s ∈ vals;
  ex_between : Forall (fun v => f64_leb (min s) v = true /\ f64_leb v (max s) = true) vals;
}.

Lemma extremes_new : extremes DDSketch_default [].
Proof. by split. Qed.

Lemma extremes_same s s' vals : extremes s vals -> min s' = min s -> max s' = max s -> extremes s' vals.
Proof. intros [] E1 E2. split; by rewrite ?E1, ?E2. Qed.

(** One value more. *)
Lemma extremes_adjust v times s vals : Forall finite vals -> finite v -> extremes s vals -> extremes (adjust_basic_stats v times s) (vals ++ [v]).
Proof.
  intros Hf Hv [H0 H1 H2 H3]. pose proof (finite_not_nan v Hv) as Hn. destruct Hv as [Hv1 Hv2].
  rewrite Forall_forall in Hf, H3. destruct (decide (vals = [])) as [->|Hne].
  - destruct (H0 eq_refl) as [Emin Emax]. cbn [app].
    assert (Hmin : min (adjust_basic_stats v times s) = v).
    { cbn. rewrite Emin. destruct (f64_ltb v f64_MAX) eqn:E; [done|]. symmetry. apply leb_MAX; [done|]. by apply leb_of_not_ltb. }
    assert (Hmax : max (adjust_basic_stats v times s) = v).
    { cbn. rewrite Emax. destruct (f64_ltb f64_MIN v) eqn:E; [done|]. symmetry. apply leb_MIN; [|done]. by apply leb_of_not_ltb. }
    split; [done|rewrite Hmin; by left|rewrite Hmax; by left|]. rewrite Hmin, Hmax. repeat constructor; by apply leb_refl.
  - specialize (H1 Hne). specialize (H2 Hne). pose proof (finite_not_nan _ (Hf _ H1)) as Hn1. pose proof (finite_not_nan _ (Hf _ H2)) as Hn2.
    assert (Hmin : f64_leb (min (adjust_basic_stats v times s)) v = true /\ f64_leb (min (adjust_basic_stats v times s)) (min s) = true).
    { cbn. destruct (f64_ltb v (min s)) eqn:E; [split; [by apply leb_refl|by apply leb_of_ltb]|]. split; [by apply leb_of_not_ltb|by apply leb_refl]. }
    assert (Hmax : f64_leb v (max (adjust_basic_stats v times s)) = true /\ f64_leb (max s) (max (adjust_basic_stats v times s)) = true).
    { cbn. destruct (f64_ltb (max s) v) eqn:E; [split; [by apply leb_refl|by apply leb_of_ltb]|]. split; [by apply leb_of_not_ltb|by apply leb_refl]. }
    split; [by destruct vals|..].
    + intros _. cbn. rewrite elem_of_app, list_elem_of_singleton. case_match; auto.
    + intros _. cbn. rewrite elem_of_app, list_elem_of_singleton. case_match; auto.
    + apply Forall_app. split; [|repeat constructor; naive_solver]. apply Forall_forall. intros x Hx. destruct (H3 x Hx).
      split; eapply leb_trans; naive_solver.
Qed.

Lemma extremes_merge s1 s2 v1 v2 :
  Forall finite v1 -> Forall finite v2 -> extremes s1 v1 -> extremes s2 v2 -> (count s1 = 0 <-> v1 = []) -> (0 < count s2 <-> v2 <> []) ->
  extremes (merge_summary s1 s2) (v1 ++ v2).
Proof.
  intros Hf1 Hf2 E1 E2 C1 C2. unfold merge_summary. rewrite Forall_forall in Hf1, Hf2.
  destruct (Z.eqb_spec (count s1) 0) as [Hz|Hz]; [rewrite (proj1 C1 Hz); by eapply extremes_same|].
  assert (Hne1 : v1 <> []) by tauto.
  destruct (Z.ltb_spec 0 (count s2)) as [Hp|Hp].
  2:{ assert (v2 = []) as -> by (destruct v2; [done|]; exfalso; pose proof (proj2 C2 ltac:(done)); lia). by rewrite app_nil_r. }
  assert (Hne2 : v2 <> []) by tauto. destruct E1 as [_ M1 X1 B1], E2 as [_ M2 X2 B2].
  specialize (M1 Hne1). specialize (X1 Hne1). specialize (M2 Hne2). specialize (X2 Hne2). rewrite Forall_forall in B1, B2.
  pose proof (finite_not_nan _ (Hf1 _ M1)) as N1. pose proof (finite_not_nan _ (Hf1 _ X1)) as N2.
  pose proof (finite_not_nan _ (Hf2 _ M2)) as N3. pose proof (finite_not_nan _ (Hf2 _ X2)) as N4.
  split; cbn [min max]; [by destruct v1|intros _; rewrite elem_of_app; case_match; auto..|].
  apply Forall_app. split; apply Forall_forall; intros x Hx.
  - destruct (B1 x Hx). split.
    + destruct (f64_ltb (min s2) (min s1)) eqn:E; [|done]. by eapply leb_trans; [apply leb_of_ltb|].
    + destruct (f64_ltb (max s1) (max s2)) eqn:E; [|done]. by eapply leb_trans; [|apply leb_of_ltb].
  - destruct (B2 x Hx). split.
    + destruct (f64_ltb (min s2) (min s1)) eqn:E; [done|]. by eapply leb_trans; [apply leb_of_not_ltb; [| |exact E]|].
    + destruct (f64_ltb (max s1) (max s2)) eqn:E; [done|]. by eapply leb_trans; [|apply leb_of_not_ltb; [| |exact E]].
Qed.

Lemma insert_extremes v s : min (insert cfg v s) = min (adjust_basic_stats v 1 s) /\ max (insert cfg v s) = max (adjust_basic_stats v 1 s).
Proof. unfold insert. cbn zeta. by destruct (find_slot _ _ _). Qed.

Lemma extremes_adjust_all vs s vals : Forall finite vals -> Forall finite vs -> extremes s vals ->
  extremes (foldl (fun s v => adjust_basic_stats v 1 s) s vs) (vals ++ vs).
Proof.
  revert s vals. induction vs as [|v vs IH]; intros s vals Hf Hvs Hs; [by rewrite app_nil_r|]. apply Forall_cons in Hvs as [Hv Hvs].
  cbn [foldl]. rewrite cons_middle, app_assoc. apply IH; [apply Forall_app; auto|done|]. by apply extremes_adjust.
Qed.

Lemma total_values e : without_buckets e = true -> weights_ok e -> (values e = [] -> script_total e = 0) /\ (values e <> [] -> 0 < script_total e) /\ script_ok e.
Proof.
  induction e as [|v e IH|vs e IH|v times e IH|buckets e IH|e IH other IH']; intros Hw Hk; cbn [values script_total without_buckets weights_ok script_ok] in *; [done|..|].
  - destruct (IH Hw Hk) as (H1 & H2 & H3). split; [by destruct (values e)|]. split; [|done]. intros _. destruct (values e); [rewrite H1 by done; lia|].
    specialize (H2 ltac:(done)). lia.
  - destruct (IH Hw Hk) as (H1 & H2 & H3). split; [intros [E1 ->]%app_eq_nil; rewrite H1 by done; done|]. split; [|done].
    intros Hne. destruct (values e); [rewrite H1 by done; destruct vs; [done|cbn; lia]|]. specialize (H2 ltac:(done)). lia.
  - destruct Hk as [Ht Hk]. destruct (IH Hw Hk) as (H1 & H2 & H3). split; [by destruct (values e)|]. split; [|split; [lia|done]].
    intros _. destruct (values e); [rewrite H1 by done; lia|]. specialize (H2 ltac:(done)). lia.
  - done.
  - bool_cases. destruct Hk as [K1 K2]. destruct (IH ltac:(done) K1) as (A1 & A2 & A3). destruct (IH' ltac:(done) K2) as (B1 & B2 & B3).
    pose proof (script_total_nonneg e A3). pose proof (script_total_nonneg other B3).
    split; [intros [E1 E2]%app_eq_nil; rewrite A1, B1 by done; done|]. split; [|done].
    intros Hne. destruct (values e); [|specialize (A2 ltac:(done)); lia]. specialize (B2 Hne). lia.
Qed.

Lemma run_extremes e s obs :
  without_buckets e = true -> weights_ok e -> Forall finite (values e) -> script_total e <= u32_max -> run cfg e = Some (s, obs) -> extremes s (values e).
Proof.
  revert s obs. induction e as [|v e IH|vs e IH|v times e IH|buckets e IH|e IH other IH']; intros s obs Hw Hk Hf Ht;
    destruct (total_values _ Hw Hk) as (_ & _ & Hok); cbn [values script_total without_buckets weights_ok run script_ok] in *.
  - intros [= <- <-]. apply extremes_new.
  - apply Forall_app in Hf as [Hf [Hv _]%Forall_cons]. destruct (run cfg e) as [[s0 o0]|]; [|done]. intros [= <- <-].
    specialize (IH s0 o0 Hw Hk Hf ltac:(lia) eq_refl). destruct (insert_extremes v s0).
    eapply extremes_same; [exact (extremes_adjust v 1 s0 (values e) Hf Hv IH)|done..].
  - apply Forall_app in Hf as [Hf Hv]. destruct (run cfg e) as [[s0 o0]|]; [|done]. cbn [mbind option_bind].
    specialize (IH s0 o0 Hw Hk Hf ltac:(lia) eq_refl).
    unfold insert_many, insert_keys. destruct (_ <=? _); [|done]. destruct (insert_keys_loop _ _ _); [|done]. intros [= <- <-].
    eapply extremes_same; [exact (extremes_adjust_all vs s0 (values e) Hf Hv IH)|done..].
  - destruct Hk as [Htm Hk]. apply Forall_app in Hf as [Hf [Hv _]%Forall_cons]. destruct (run cfg e) as [[s0 o0]|]; [|done]. intros [= <- <-].
    specialize (IH s0 o0 Hw Hk Hf ltac:(lia) eq_refl). unfold insert_n. destruct (Z.eqb_spec times 1) as [->|].
    + destruct (insert_extremes v s0). eapply extremes_same; [exact (extremes_adjust v 1 s0 (values e) Hf Hv IH)|done..].
    + eapply extremes_same; [exact (extremes_adjust v times s0 (values e) Hf Hv IH)|done..].
  - done.
  - bool_cases. destruct Hk as [K1 K2]. destruct Hok as [O1 O2]. apply Forall_app in Hf as [F1 F2].
    pose proof (script_total_nonneg _ O1). pose proof (script_total_nonneg _ O2).
    destruct (run cfg e) as [[s1 o1]|] eqn:R1; [|done]. destruct (run cfg other) as [[s2 o2]|] eqn:R2; [|done]. intros [= <- <-].
    destruct (sketch_run_inv cfg Hlimit e s1 o1 O1 ltac:(lia) R1) as [[_ _ C1] T1]. destruct (sketch_run_inv cfg Hlimit other s2 o2 O2 ltac:(lia) R2) as [[_ _ C2] T2].
    destruct (total_values e ltac:(done) K1) as (A1 & A2 & _). destruct (total_values other ltac:(done) K2) as (B1 & B2 & _).
    eapply extremes_same; [apply (extremes_merge s1 s2 (values e) (values other) F1 F2)|done..].
    + by eapply IH; [..|lia|].
    + by eapply IH'; [..|lia|].
    + rewrite C1, T1. split; [|auto]. intros Hz. destruct (values e); [done|]. specialize (A2 ltac:(done)). lia.
    + rewrite C2, T2. split; [|auto]. intros Hz Hn. specialize (B1 Hn). lia.
Qed.

(** ** Quantiles *)

Lemma key_range v : - i16_max <= key_of_value cfg v <= i16_max.
Proof. unfold key_of_value. unfold i16_max. repeat case_match; lia. Qed.

Lemma run_keys e s obs : without_buckets e = true -> run cfg e = Some (s, obs) -> Forall (fun key => - i16_max <= key <= i16_max) obs.*1.
Proof.
  revert s obs. induction e as [|v e IH|vs e IH|v times e IH|buckets e IH|e IH other IH']; intros s obs Hw; cbn [run without_buckets] in *.
  - intros [= <- <-]. constructor.
  - destruct (run cfg e) as [[s0 o0]|]; [|done]. intros [= <- <-]. rewrite fmap_app. apply Forall_app. split; [by eapply IH|].
    repeat constructor; apply key_range.
  - destruct (run cfg e) as [[s0 o0]|]; [|done]. cbn [mbind option_bind]. destruct (insert_many cfg vs s0); [|done]. intros [= <- <-].
    rewrite fmap_app, ones_keys. apply Forall_app. split; [by eapply IH|]. apply Forall_fmap, Forall_forall. intros. apply key_range.
  - destruct (run cfg e) as [[s0 o0]|]; [|done]. intros [= <- <-]. rewrite fmap_app. apply Forall_app. split; [by eapply IH|].
    repeat constructor; apply key_range.
  - done.
  - bool_cases. destruct (run cfg e) as [[s1 o1]|]; [|done]. destruct (run cfg other) as [[s2 o2]|]; [|done]. intros [= <- <-].
    rewrite fmap_app. apply Forall_app. split; [by eapply IH|by eapply IH'].
Qed.

Lemma lower_bound_total key : - i16_max <= key -> is_Some (bin_lower_bound cfg key).
Proof. intros Hk. unfold bin_lower_bound. repeat case_match; try by eexists. bool_cases. lia. Qed.

Lemma quantile_loop_total s wanted i so_far bs :
  Forall (fun bn => - i16_max <= k bn) bs -> is_Some (quantile_loop cfg s wanted i so_far bs).
Proof.
  revert i so_far. induction bs as [|bn bs IH]; intros i so_far Hf; [by eexists|]. apply Forall_cons in Hf as [Hk Hf]. cbn [quantile_loop].
  case_match; [by apply IH|]. unfold estimate. destruct (lower_bound_total _ Hk) as [lb ->]. cbn [mbind option_bind].
  repeat case_match; by eexists.
Qed.

Lemma clamp_between x lo hi : f64_leb lo hi = true -> is_nan lo = false -> is_nan hi = false ->
  exists y, f64_clamp x lo hi = Some y /\ (is_nan y = false -> f64_leb lo y = true /\ f64_leb y hi = true).
Proof.
  intros Hle Hl Hh. unfold f64_clamp. rewrite Hle. eexists. split; [reflexivity|].
  destruct (f64_ltb x lo) eqn:E1; [intros; split; [by apply leb_refl|done]|].
  destruct (f64_ltb hi x) eqn:E2; [intros; split; [done|by apply leb_refl]|].
  intros Hx. split; by apply leb_of_not_ltb.
Qed.

(** the minimum and the maximum of a sketch are the smallest and the largest of the values that were
    inserted, through whatever insertions and merges; asking for a quantile never panics, gives nothing
    exactly when nothing was inserted, the minimum and the maximum at the ends, and in between a value
    that, when it is a number, is not outside of them. *)
Theorem quantiles_between_extremes (e : script) s obs
    (Hplain : without_buckets e = true) (Hweights : weights_ok e) (Hfinite : Forall finite (values e))
    (Htotal : script_total e <= u32_max) (Hrun : run cfg e = Some (s, obs)) :
  (values e = [] -> forall q, quantile cfg q s = Some None) /\
  (values e <> [] -> min s ∈ values e /\ max s ∈ values e /\
    Forall (fun v => f64_leb (min s) v = true /\ f64_leb v (max s) = true) (values e) /\
    forall q, exists v, quantile cfg q s = Some (Some v) /\
      (f64_leb q f64_zero = true -> v = min s) /\ (f64_leb q f64_zero = false -> f64_leb f64_one q = true -> v = max s) /\
      (is_nan v = false -> f64_leb (min s) v = true /\ f64_leb v (max s) = true)).
Proof using Hlimit.
  pose proof (run_extremes e s obs Hplain Hweights Hfinite Htotal Hrun) as [Hnone Hmin Hmax Hbet].
  destruct (total_values e Hplain Hweights) as (Hz & Hp & Hok).
  destruct (sketch_run_inv cfg Hlimit e s obs Hok Htotal Hrun) as [[Hb Hk Hc] Ht]. split.
  { intros Hv q. unfold quantile. rewrite Hc, Ht, (Hz Hv). done. }
  intros Hv. specialize (Hmin Hv). specialize (Hmax Hv). split_and!; [done..|]. intros q.
  rewrite Forall_forall in Hbet, Hfinite. destruct (Hbet _ Hmin) as [Hmm Hmx].
  destruct (leb_not_nan _ _ Hmx) as [N1 N2]. destruct (Hbet _ Hmax) as [_ Hxx].
  unfold quantile. destruct (Z.eqb_spec (count s) 0) as [E|_]; [specialize (Hp Hv); lia|].
  destruct (f64_leb q f64_zero) eqn:Eq; [eexists; split; [reflexivity|]; done|].
  destruct (f64_leb f64_one q) eqn:Eo; [eexists; split; [reflexivity|]; split_and!; [done|done|auto]|].
  assert (Hkeys : Forall (fun bn => - i16_max <= k bn) (bins s)).
  { apply Forall_forall. intros bn Hin. pose proof (run_keys e s obs Hplain Hrun) as Hr. rewrite Forall_forall in Hr.
    apply Hr, (kt_keys _ _ _ Hk). rewrite bin_obs_keys. by apply list_elem_of_fmap_2. }
  destruct (quantile_loop_total s (rank (count s) q) 0 f64_zero (bins s) Hkeys) as [[est|] ->]; cbn [mbind option_bind].
  - destruct (clamp_between est (min s) (max s) Hmx N1 N2) as (y & -> & Hy). exists y. split; [reflexivity|]. done.
  - eexists. split; [reflexivity|]. done.
Qed.
End stats.

(** ** The protobuf form *)

(** Keys and counts that fit their types, as those of every sketch do. *)
Definition representable (s : DDSketch) : Prop :=
  0 <= count s <= i64_max /\ Forall (fun bn => - i16_max - 1 <= k bn <= i16_max) (bins s).

Lemma try_bins_roundtrip bs : Forall (fun bn => - i16_max - 1 <= k bn <= i16_max) bs -> try_bins (k <$> bs) (n <$> bs) = Ok bs.
Proof.
  induction 1 as [|[key c] bs Hk Hf IH]; [done|]. rewrite !fmap_cons. cbn [k n] in *. cbn [try_bins].
  destruct (Z.leb_spec (- i16_max - 1) key), (Z.leb_spec key i16_max); try lia. cbn [andb]. by rewrite IH.
Qed.

(** a sketch that is written to its protobuf form and read back is the same sketch, bins and all
    statistics; a form with a negative count, with keys and counts of different lengths, or with a key
    out of range is refused. *)
Theorem dogsketch_roundtrip (s : DDSketch) (Hs : representable s) :
  DDSketch_try_from (merge_to_dogsketch s) = Ok s /\
  (forall d, DDSketch_try_from d = Err NegativeCount <-> cnt d < 0) /\
  (forall d, 0 <= cnt d -> length (ds_k d) <> length (ds_n d) -> DDSketch_try_from d = Err DifferingLengths).
Proof.
  split_and!.
  - destruct s as [bs c mi ma su av]. destruct Hs as [Hc Hb]. unfold merge_to_dogsketch, DDSketch_try_from. cbn [count bins min max sum avg cnt ds_k ds_n ds_min ds_max ds_avg ds_sum] in *.
    destruct (Z.leb_spec c i64_max); [|lia]. destruct (Z.ltb_spec c 0); [lia|]. rewrite !length_fmap, Nat.eqb_refl. cbn [negb].
    by rewrite try_bins_roundtrip.
  - intros d. unfold DDSketch_try_from. destruct (Z.ltb_spec (cnt d) 0) as [Hl|Hl]; [done|]. split; [|lia].
    destruct (negb _); [done|].
    assert (Hno : forall ks ns, try_bins ks ns <> Err NegativeCount).
    { induction ks as [|key ks IH]; intros [|c ns]; cbn [try_bins]; try done. case_match; [|done]. specialize (IH ns). by destruct (try_bins ks ns). }
    specialize (Hno (ds_k d) (ds_n d)). destruct (try_bins _ _); [done|]. cbn. congruence.
  - intros d Hc Hl. unfold DDSketch_try_from. destruct (Z.ltb_spec (cnt d) 0); [lia|]. destruct (Nat.eqb_spec (length (ds_k d)) (length (ds_n d))); done.
Qed.

(** ** Witnesses and examples *)

#[local] Existing Instance toy_libm.

Definition dogsketch_example : DDSketch := Eval vm_compute in ran_a.1.

Lemma dogsketch_roundtrip_witness : DDSketch_try_from (merge_to_dogsketch dogsketch_example) = Ok dogsketch_example.
Proof. apply (dogsketch_roundtrip dogsketch_example). vm_compute. split; [split; discriminate|]. repeat constructor; discriminate. Defined.

Lemma quantiles_between_extremes_witness : min ran_a.1 ∈ values script_a /\ exists v, quantile toy_config (f64_scale 1 (-1)) ran_a.1 = Some (Some v).
Proof.
  destruct (quantiles_between_extremes toy_config eq_refl script_a ran_a.1 ran_a.2) as [_ Hs];
    [reflexivity|exact I|repeat constructor|vm_compute; discriminate|vm_compute; reflexivity|].
  destruct (Hs ltac:(discriminate)) as (Hm & _ & _ & Hq). split; [exact Hm|]. destruct (Hq (f64_scale 1 (-1))) as (v & Hv & _). by exists v.
Defined.

Definition half : f64 := f64_scale 1 (-1).
Definition keyed : Config := {| bin_limit := 4; gamma_v := f64_of_Z 2; gamma_ln := f64_one; norm_min := f64_one; norm_bias := 1338 |}.

(** The bin of the highest key has an infinite lower bound, and its upper bound is never replaced by the
    maximum, since the index is compared with the number of bins: the median of one large value is not a
    number. *)
Example median_of_large_value_is_nan :
  key_of_value keyed (f64_of_Z 40000) = i16_max /\
  quantile keyed half (insert keyed (f64_of_Z 40000) DDSketch_default) = Some (Some S754_nan).
Proof. split; vm_compute; reflexivity. Qed.

(** The key of infinity wraps around to the lowest positive key; a histogram with the one bucket that
    goes up to infinity ends up just below zero. *)
Example infinity_has_lowest_key :
  key_of_value keyed (S754_infinity false) = 1 /\
  (exists s, insert_interpolate_buckets keyed [{| upper_limit := S754_infinity false; bucket_count := 3 |}] DDSketch_default = Some (Ok s) /\
     bins s = [MkBin (-1) 3]).
Proof. split; [vm_compute; reflexivity|]. eexists. split; [vm_compute; reflexivity|]. vm_compute. reflexivity. Qed.

(** The smallest key that a protobuf form may have makes the bound of its bin recurse without end. *)
Example smallest_key_never_returns :
  exists s, DDSketch_try_from {| cnt := 1; ds_min := f64_zero; ds_max := f64_one; ds_avg := f64_zero; ds_sum := f64_zero; ds_k := [-32768]; ds_n := [1] |} = Ok s /\
    quantile keyed half s = None.
Proof. eexists. split; [vm_compute; reflexivity|]. vm_compute. reflexivity. Qed.
