(* ===== verification/CanonicalSketch.v ===== *)
(** * CanonicalSketch: the canonical DDSketch

    Models [lib/ddsketch/src/canonical/sketch.rs] and [mapping]: a sketch has a store for the positive values,
    one for the negative ones, and a count of those that are too small to be indexed.  The stores are used
    through their interface, and the theorems rely on their laws ([SketchContract]); logarithm, power and
    exponential are those of the system library.  The conversions from and to the protobuf message are in
    [CanonicalProto]. *)

From Stdlib Require Import ZArith Lia Floats.SpecFloat Strings.String.
From stdpp Require Import base tactics list numbers option gmap.
From S2P Require Import Prelude Float64 SketchStore SketchCollapse SketchContract AgentSketch.
Open Scope Z_scope.

#[local] Coercion Z.of_nat : nat >-> Z.

(** ** Index mappings *)

Class IndexMapping (M : Type) := {
  index : M -> f64 -> Z;
  value : M -> Z -> f64;
  lower_bound : M -> Z -> f64;
  relative_accuracy : M -> f64;
  min_indexable_value : M -> f64;
  max_indexable_value : M -> f64;
  gamma : M -> f64;
  index_offset : M -> f64;
}.

Class LibmExp := { f64_exp : f64 -> f64 }.

Definition f64_MIN_POSITIVE : f64 := f64_scale 1 (-1022).
Definition i32_MIN : Z := - 2 ^ 31.
Definition i32_MAX : Z := 2 ^ 31 - 1.

(** [f64::min] *)
Definition f64_min (x y : f64) : f64 :=
  if is_nan x then y else if is_nan y then x else if f64_ltb y x then y else x.

(** The cast of both mappings, which rounds toward negative infinity by hand. *)
Definition index_of_log (log : f64) : Z :=
  if f64_leb f64_zero log then f64_to_i 32 log else i32_sub (f64_to_i 32 log) 1.

Record LogarithmicMapping := { l_gamma : f64; l_index_offset : f64; l_multiplier : f64 }.

Section mappings.
Context `{Libm} `{LibmExp}.

Definition new_with_gamma_and_offset (gamma index_offset : f64) : result string LogarithmicMapping :=
  if f64_leb gamma f64_one then Err "gamma must be greater than 1"%string
  else Ok {| l_gamma := gamma; l_index_offset := index_offset; l_multiplier := f64_div f64_one (f64_ln gamma) |}.

Definition new_with_gamma (gamma : f64) : result string LogarithmicMapping := new_with_gamma_and_offset gamma f64_zero.

Definition LogarithmicMapping_new (relative_accuracy : f64) : result string LogarithmicMapping :=
  if f64_leb relative_accuracy f64_zero || f64_leb f64_one relative_accuracy then
    Err "relative accuracy must be between 0 and 1 (exclusive)"%string
  else
    let gamma := f64_div (f64_add f64_one relative_accuracy) (f64_sub f64_one relative_accuracy) in
    if f64_leb gamma f64_one then Err "gamma must be greater than 1"%string
    else Ok {| l_gamma := gamma; l_index_offset := f64_zero; l_multiplier := f64_div f64_one (f64_ln gamma) |}.

Definition log_lower_bound (m : LogarithmicMapping) (i : Z) : f64 :=
  f64_exp (f64_div (f64_sub (f64_of_Z i) (l_index_offset m)) (l_multiplier m)).

Definition log_relative_accuracy (m : LogarithmicMapping) : f64 :=
  f64_div (f64_sub (l_gamma m) f64_one) (f64_add (l_gamma m) f64_one).

#[export] Instance logarithmic_mapping : IndexMapping LogarithmicMapping := {|
  index := fun m value => index_of_log (f64_add (f64_mul (f64_ln value) (l_multiplier m)) (l_index_offset m));
  value := fun m i => f64_mul (log_lower_bound m i) (f64_add f64_one (log_relative_accuracy m));
  lower_bound := log_lower_bound;
  relative_accuracy := log_relative_accuracy;
  min_indexable_value := fun m => f64_max f64_MIN_POSITIVE
    (f64_exp (f64_add (f64_div (f64_sub (f64_of_Z i32_MIN) (l_index_offset m)) (l_multiplier m)) f64_one));
  max_indexable_value := fun m => f64_min
    (f64_exp (f64_sub (f64_div (f64_sub (f64_of_Z i32_MAX) (l_index_offset m)) (l_multiplier m)) f64_one))
    (f64_div f64_MAX (l_gamma m));
  gamma := l_gamma;
  index_offset := l_index_offset;
|}.

End mappings.

(** The mapping with constants for a relative accuracy of one percent: the literals [1.02020202020202],
    [49.99833328888678] and [0.01], as the nearest floats. *)
Inductive FixedLogarithmicMapping := FixedLogarithmicMapping_new.

Definition GAMMA : f64 := S754_finite false 4594581438024445 (-52).
Definition MULTIPLIER : f64 := S754_finite false 7036639849030512 (-47).
Definition RELATIVE_ACCURACY : f64 := S754_finite false 5764607523034235 (-59).

Section fixed.
Context `{Libm} `{LibmExp}.

#[export] Instance fixed_mapping : IndexMapping FixedLogarithmicMapping := {|
  index := fun _ value => index_of_log (f64_mul (f64_ln value) MULTIPLIER);
  value := fun _ i => f64_mul (f64_exp (f64_div (f64_of_Z i) MULTIPLIER)) (f64_add f64_one RELATIVE_ACCURACY);
  lower_bound := fun _ i => f64_exp (f64_div (f64_of_Z i) MULTIPLIER);
  relative_accuracy := fun _ => RELATIVE_ACCURACY;
  min_indexable_value := fun _ => f64_max f64_MIN_POSITIVE (f64_powf GAMMA (f64_add (f64_of_Z i32_MIN) f64_one));
  max_indexable_value := fun _ => f64_min (f64_powf GAMMA (f64_sub (f64_of_Z i32_MAX) f64_one)) (f64_div f64_MAX GAMMA);
  gamma := fun _ => GAMMA;
  index_offset := fun _ => f64_zero;
|}.

End fixed.

(** ** The sketch *)

Section sketch.
Context {M S : Type} `{IndexMapping M} `{Store S}.

Record DDSketch := { mapping : M; positive_store : S; negative_store : S; zero_count : Z }.

Definition DDSketch_new (m : M) (positive negative : S) : DDSketch :=
  {| mapping := m; positive_store := positive; negative_store := negative; zero_count := 0 |}.

Definition add_n (v : f64) (n : Z) (sk : DDSketch) : option DDSketch :=
  if n =? 0 then Some sk
  else if f64_ltb (min_indexable_value (mapping sk)) v then
    s ← add (index (mapping sk) v) n (positive_store sk);
    Some {| mapping := mapping sk; positive_store := s; negative_store := negative_store sk; zero_count := zero_count sk |}
  else if f64_ltb v (f64_neg (min_indexable_value (mapping sk))) then
    s ← add (index (mapping sk) (f64_neg v)) n (negative_store sk);
    Some {| mapping := mapping sk; positive_store := positive_store sk; negative_store := s; zero_count := zero_count sk |}
  else Some {| mapping := mapping sk; positive_store := positive_store sk; negative_store := negative_store sk;
               zero_count := u64_add (zero_count sk) n |}.

Definition DDSketch_add (v : f64) (sk : DDSketch) : option DDSketch := add_n v 1 sk.

Definition count (sk : DDSketch) : Z :=
  u64_add (u64_add (total_count (negative_store sk)) (total_count (positive_store sk))) (zero_count sk).

Definition DDSketch_is_empty (sk : DDSketch) : bool := count sk =? 0.

(** The rank that a quantile asks for. *)
Definition rank_of (q : f64) (n : Z) : Z := f64_to_u64 (f64_round_ties_even (f64_mul q (f64_of_Z (n - 1)))).

(** [None] is the [unreachable!] at the end. *)
Definition quantile (q : f64) (sk : DDSketch) : option (option f64) :=
  if DDSketch_is_empty sk then Some None
  else if negb (f64_leb f64_zero q && f64_leb q f64_one) then Some None
  else
    let rank := rank_of q (count sk) in
    let negative_count := total_count (negative_store sk) in
    let total_negative_and_zero := u64_add negative_count (zero_count sk) in
    if rank <? negative_count then
      let reverse_rank := negative_count - rank - 1 in
      i ← key_at_rank reverse_rank (negative_store sk); Some (Some (f64_neg (value (mapping sk) i)))
    else if rank <? total_negative_and_zero then Some (Some f64_zero)
    else
      let positive_rank := rank - total_negative_and_zero in
      i ← key_at_rank positive_rank (positive_store sk); Some (Some (value (mapping sk) i)).

Definition DDSketch_merge (sk other : DDSketch) : option DDSketch :=
  if DDSketch_is_empty other then Some sk
  else
    p ← merge (positive_store sk) (positive_store other);
    n ← merge (negative_store sk) (negative_store other);
    Some {| mapping := mapping sk; positive_store := p; negative_store := n;
            zero_count := u64_add (zero_count sk) (zero_count other) |}.

Definition DDSketch_clear (sk : DDSketch) : DDSketch :=
  {| mapping := mapping sk; positive_store := clear (positive_store sk); negative_store := clear (negative_store sk);
     zero_count := 0 |}.

(** ** The sketch for positive values *)

Record PositiveOnlyDDSketch := { p_mapping : M; p_store : S; p_zero_count : Z }.

Definition Positive_new (m : M) (positive : S) : PositiveOnlyDDSketch :=
  {| p_mapping := m; p_store := positive; p_zero_count := 0 |}.

Definition Positive_add_n (v : f64) (n : Z) (sk : PositiveOnlyDDSketch) : option PositiveOnlyDDSketch :=
  if n =? 0 then Some sk
  else if f64_ltb (min_indexable_value (p_mapping sk)) v then
    s ← add (index (p_mapping sk) v) n (p_store sk);
    Some {| p_mapping := p_mapping sk; p_store := s; p_zero_count := p_zero_count sk |}
  else Some {| p_mapping := p_mapping sk; p_store := p_store sk; p_zero_count := u64_add (p_zero_count sk) n |}.

Definition Positive_add (v : f64) (sk : PositiveOnlyDDSketch) : option PositiveOnlyDDSketch := Positive_add_n v 1 sk.

Definition Positive_count (sk : PositiveOnlyDDSketch) : Z := u64_add (total_count (p_store sk)) (p_zero_count sk).

Definition Positive_is_empty (sk : PositiveOnlyDDSketch) : bool := Positive_count sk =? 0.

Definition Positive_quantile (q : f64) (sk : PositiveOnlyDDSketch) : option (option f64) :=
  if Positive_is_empty sk then Some None
  else if negb (f64_leb f64_zero q && f64_leb q f64_one) then Some None
  else
    let rank := rank_of q (Positive_count sk) in
    if rank <? p_zero_count sk then Some (Some f64_zero)
    else
      let positive_rank := rank - p_zero_count sk in
      i ← key_at_rank positive_rank (p_store sk); Some (Some (value (p_mapping sk) i)).

Definition Positive_merge (sk other : PositiveOnlyDDSketch) : option PositiveOnlyDDSketch :=
  if Positive_is_empty other then Some sk
  else
    p ← merge (p_store sk) (p_store other);
    Some {| p_mapping := p_mapping sk; p_store := p; p_zero_count := u64_add (p_zero_count sk) (p_zero_count other) |}.

Definition Positive_clear (sk : PositiveOnlyDDSketch) : PositiveOnlyDDSketch :=
  {| p_mapping := p_mapping sk; p_store := clear (p_store sk); p_zero_count := 0 |}.

End sketch.

Arguments DDSketch M S : clear implicits.
Arguments PositiveOnlyDDSketch M S : clear implicits.

(** ** Scripts *)

(** How a sketch comes about: values are added, sketches are merged and cleared. *)
Inductive sketch_script :=
| KNew
| KAdd (v : f64) (n : Z) (e : sketch_script)
| KMerge (e other : sketch_script)
| KClear (e : sketch_script).

(** The values that it has seen, with their counts. *)
Fixpoint inserted (e : sketch_script) : list (f64 * Z) :=
  match e with
  | KNew | KClear _ => []
  | KAdd v n e => if n =? 0 then inserted e else inserted e ++ [(v, n)]
  | KMerge e other => inserted e ++ inserted other
  end.

(** What the sketch tells apart: the bin of a value, or that it is next to zero. *)
Inductive Key := Negative (i : Z) | NextToZero | Positive (i : Z).

Definition key_ltb (a b : Key) : bool :=
  match a, b with
  | Negative i, Negative j => j <? i
  | Negative _, _ => true
  | NextToZero, Positive _ => true
  | Positive i, Positive j => i <? j
  | _, _ => false
  end.

Definition key_leb (a b : Key) : bool := negb (key_ltb b a).

Section spec.
Context {M S : Type} `{IndexMapping M} (m : M) (new : S).

Definition key_of (v : f64) : Key :=
  if f64_ltb (min_indexable_value m) v then Positive (index m v)
  else if f64_ltb v (f64_neg (min_indexable_value m)) then Negative (index m (f64_neg v))
  else NextToZero.

Definition positives (xs : list (f64 * Z)) : list Obs :=
  omap (fun x => match key_of x.1 with Positive i => Some (i, x.2) | _ => None end) xs.
Definition negatives (xs : list (f64 * Z)) : list Obs :=
  omap (fun x => match key_of x.1 with Negative i => Some (i, x.2) | _ => None end) xs.

(** How many values have a key with the property [p]. *)
Definition weight (p : Key -> bool) (xs : list (f64 * Z)) : Z := sumZ (fun x => if p (key_of x.1) then x.2 else 0) xs.
Definition next_to_zero (xs : list (f64 * Z)) : Z := weight (fun k => match k with NextToZero => true | _ => false end) xs.
Definition weight_all (xs : list (f64 * Z)) : Z := weight (fun _ => true) xs.

(** [k] is the key of the value of rank [r], from the smallest. *)
Definition has_rank (xs : list (f64 * Z)) (r : Z) (k : Key) : Prop :=
  weight (fun k' => key_ltb k' k) xs <= r < weight (fun k' => key_leb k' k) xs.

(** Bins are within the stores' range, and counts do not overflow. *)
Definition values_ok (xs : list (f64 * Z)) : Prop :=
  Forall (fun x => 0 < x.2 /\ match key_of x.1 with Positive i | Negative i => index_ok i | NextToZero => True end) xs /\
  weight_all xs <= u64_max.

Fixpoint valid_script (e : sketch_script) : Prop :=
  values_ok (inserted e) /\
  match e with
  | KNew => True
  | KAdd _ _ e | KClear e => valid_script e
  | KMerge e other => valid_script e /\ valid_script other
  end.

Fixpoint run_sketch `{Store S} (e : sketch_script) : option (DDSketch M S) :=
  match e with
  | KNew => Some (DDSketch_new m new new)
  | KAdd v n e => sk ← run_sketch e; add_n v n sk
  | KMerge e other => sk ← run_sketch e; o ← run_sketch other; DDSketch_merge sk o
  | KClear e => sk ← run_sketch e; Some (DDSketch_clear sk)
  end.

Fixpoint run_positive `{Store S} (e : sketch_script) : option (PositiveOnlyDDSketch M S) :=
  match e with
  | KNew => Some (Positive_new m new)
  | KAdd v n e => sk ← run_positive e; Positive_add_n v n sk
  | KMerge e other => sk ← run_positive e; o ← run_positive other; Positive_merge sk o
  | KClear e => sk ← run_positive e; Some (Positive_clear sk)
  end.

(** ** Weights *)

Lemma weight_app p xs ys : weight p (xs ++ ys) = weight p xs + weight p ys.
Proof. apply sumZ_app. Qed.

Lemma weight_ext p q xs : (forall k, p k = q k) -> weight p xs = weight q xs.
Proof. intros Hpq. unfold weight. induction xs as [|x xs IH]; simpl; [done|]. by rewrite Hpq, IH. Qed.

Lemma weight_split p q xs : (forall k, p k && q k = false) -> weight (fun k => p k || q k) xs = weight p xs + weight q xs.
Proof.
  intros Hd. unfold weight. induction xs as [|x xs IH]; simpl; [done|]. rewrite IH. specialize (Hd (key_of x.1)).
  destruct (p (key_of x.1)), (q (key_of x.1)); simpl in *; done || lia.
Qed.

Lemma weight_positives p xs : weight_of p (positives xs) = weight (fun k => match k with Positive i => p i | _ => false end) xs.
Proof.
  unfold weight_of, weight, positives. induction xs as [|x xs IH]; simpl; [done|]. rewrite <- IH.
  by destruct (key_of x.1).
Qed.

Lemma weight_negatives p xs : weight_of p (negatives xs) = weight (fun k => match k with Negative i => p i | _ => false end) xs.
Proof.
  unfold weight_of, weight, negatives. induction xs as [|x xs IH]; simpl; [done|]. rewrite <- IH.
  by destruct (key_of x.1).
Qed.

(** Everything is negative, next to zero or positive. *)
Lemma weight_parts p xs : weight p xs =
  weight_of (fun i => p (Negative i)) (negatives xs) + weight (fun k => match k with NextToZero => p NextToZero | _ => false end) xs +
  weight_of (fun i => p (Positive i)) (positives xs).
Proof.
  rewrite weight_positives, weight_negatives. unfold weight. induction xs as [|x xs IH]; simpl; [done|]. rewrite IH.
  destruct (key_of x.1); lia.
Qed.

Lemma values_ok_parts xs : values_ok xs -> obs_ok (negatives xs) /\ obs_ok (positives xs) /\
  0 <= next_to_zero xs /\ total (negatives xs) + next_to_zero xs + total (positives xs) = weight_all xs.
Proof.
  intros [Hf Ht].
  assert (Hp : weight_all xs = total (negatives xs) + next_to_zero xs + total (positives xs))
    by exact (weight_parts (fun _ => true) xs).
  assert (Hz : 0 <= next_to_zero xs).
  { unfold next_to_zero, weight. clear Ht Hp. induction Hf as [|x xs [Hx _] _ IH]; simpl; [done|]. destruct (key_of x.1); lia. }
  assert (Hn : Forall (fun o : Obs => index_ok o.1 /\ 0 < o.2) (negatives xs) /\ Forall (fun o : Obs => index_ok o.1 /\ 0 < o.2) (positives xs)).
  { unfold negatives, positives. clear Ht Hp Hz. induction Hf as [|x xs [Hx Hi] _ [IH1 IH2]]; simpl; [done|].
    destruct (key_of x.1); split; try done; by constructor. }
  destruct Hn as [Hn1 Hn2].
  assert (Hpos : forall l, Forall (fun o : Obs => index_ok o.1 /\ 0 < o.2) l -> 0 <= total l).
  { intros l Hl. apply weight_of_nonneg. eapply Forall_impl; [exact Hl|]. by intros o []. }
  pose proof (Hpos _ Hn1). pose proof (Hpos _ Hn2). split_and!; [split; [done|lia]|split; [done|lia]|done|lia].
Qed.

End spec.

(** ** What a sketch answers *)

Section refinement.
Context {M S : Type} `{!IndexMapping M} `{!Store S} (place : list Obs -> Z -> Z) (holds : S -> list Obs -> Prop)
  `{!StoreLaws S place holds} (m : M) (new : S) (Hnew : holds new []).

Abbreviation neg := (negatives m).
Abbreviation pos := (positives m).
Abbreviation zeros := (next_to_zero m).
Abbreviation run := (run_sketch m new).

Record sketch_holds (sk : DDSketch M S) (xs : list (f64 * Z)) : Prop := {
  sh_mapping : mapping sk = m;
  sh_positive : holds (positive_store sk) (pos xs);
  sh_negative : holds (negative_store sk) (neg xs);
  sh_zero : zero_count sk = zeros xs;
}.

Lemma negatives_app xs ys : neg (xs ++ ys) = neg xs ++ neg ys.
Proof. apply omap_app. Qed.

Lemma positives_app xs ys : pos (xs ++ ys) = pos xs ++ pos ys.
Proof. apply omap_app. Qed.

Lemma weight_le p xs : values_ok m xs -> weight m p xs <= weight_all m xs.
Proof.
  intros [Hf _]. unfold weight_all, weight. induction Hf as [|x xs [Hx _] _ IH]; simpl; [done|].
  destruct (p _); lia.
Qed.

Lemma values_ok_prefix xs ys : values_ok m (xs ++ ys) -> values_ok m xs /\ values_ok m ys.
Proof.
  intros [[H1 H2]%Forall_app Ht]. unfold weight_all in *. rewrite weight_app in Ht.
  assert (Hn : forall l, Forall (fun x : f64 * Z => 0 < x.2 /\ match key_of m x.1 with Positive i | Negative i => index_ok i | NextToZero => True end) l ->
    0 <= weight m (fun _ => true) l).
  { intros l Hl. unfold weight. induction Hl as [|x l [Hx _] _ IH]; simpl; lia. }
  pose proof (Hn _ H1). pose proof (Hn _ H2). split; (split; [done|unfold weight_all; lia]).
Qed.

Lemma holds_add sk xs v n : sketch_holds sk xs -> values_ok m (xs ++ [(v, n)]) -> n <> 0 ->
  exists sk', add_n v n sk = Some sk' /\ sketch_holds sk' (xs ++ [(v, n)]).
Proof.
  intros [Hm Hp Hn Hz] Hok Hne. unfold add_n. rewrite (proj2 (Z.eqb_neq n 0) Hne), Hm.
  destruct (values_ok_parts m _ Hok) as (On & Op & _ & Ht).
  assert (Hk : key_of m v = key_of m (v, n).1) by done.
  destruct (f64_ltb (min_indexable_value m) v) eqn:E1; [|destruct (f64_ltb v (f64_neg (min_indexable_value m))) eqn:E2].
  - assert (Ek : key_of m v = Positive (index m v)) by (unfold key_of; by rewrite E1).
    assert (Ep : pos (xs ++ [(v, n)]) = pos xs ++ [(index m v, n)]) by (rewrite positives_app; cbn; by rewrite Ek).
    assert (En : neg (xs ++ [(v, n)]) = neg xs) by (rewrite negatives_app; cbn; rewrite Ek; apply app_nil_r).
    rewrite Ep in Op. destruct (law_add _ _ _ _ Hp Op) as (s & -> & Hs). cbn. eexists. split; [done|].
    split; cbn; [done|by rewrite Ep|by rewrite En|]. rewrite Hz. unfold next_to_zero. rewrite weight_app. cbn. rewrite Ek. lia.
  - assert (Ek : key_of m v = Negative (index m (f64_neg v))) by (unfold key_of; by rewrite E1, E2).
    assert (En : neg (xs ++ [(v, n)]) = neg xs ++ [(index m (f64_neg v), n)]) by (rewrite negatives_app; cbn; by rewrite Ek).
    assert (Ep : pos (xs ++ [(v, n)]) = pos xs) by (rewrite positives_app; cbn; rewrite Ek; apply app_nil_r).
    rewrite En in On. destruct (law_add _ _ _ _ Hn On) as (s & -> & Hs). cbn. eexists. split; [done|].
    split; cbn; [done|by rewrite Ep|by rewrite En|]. rewrite Hz. unfold next_to_zero. rewrite weight_app. cbn. rewrite Ek. lia.
  - assert (Ek : key_of m v = NextToZero) by (unfold key_of; by rewrite E1, E2).
    assert (En : neg (xs ++ [(v, n)]) = neg xs) by (rewrite negatives_app; cbn; rewrite Ek; apply app_nil_r).
    assert (Ep : pos (xs ++ [(v, n)]) = pos xs) by (rewrite positives_app; cbn; rewrite Ek; apply app_nil_r).
    eexists. split; [done|]. split; cbn; [done|by rewrite Ep|by rewrite En|].
    assert (Ez : zeros (xs ++ [(v, n)]) = zeros xs + n) by (unfold next_to_zero; rewrite weight_app; cbn; rewrite Ek; lia).
    rewrite Hz, Ez. destruct (values_ok_prefix _ _ Hok) as [Hok1 [Hok2 _]]. apply Forall_inv in Hok2 as [Hn0 _]. cbn in Hn0.
    destruct (values_ok_parts m _ Hok1) as (_ & _ & Hz0 & _).
    pose proof (weight_le (fun k => match k with NextToZero => true | _ => false end) _ Hok) as Hle. fold (zeros (xs ++ [(v, n)])) in Hle.
    destruct Hok as [_ Hmax]. apply wrapping_add_exact. unfold in_range. lia.
Qed.

Lemma holds_counts sk xs : sketch_holds sk xs -> values_ok m xs ->
  total_count (negative_store sk) = total (neg xs) /\ total_count (positive_store sk) = total (pos xs) /\
  u64_add (total_count (negative_store sk)) (zero_count sk) = total (neg xs) + zeros xs /\ count sk = weight_all m xs.
Proof.
  intros [Hm Hp Hn Hz] Hok. destruct (values_ok_parts m _ Hok) as (On & Op & Hz0 & Ht).
  pose proof (ans_total _ _ _ (law_answers _ _ Hp)) as Tp. pose proof (ans_total _ _ _ (law_answers _ _ Hn)) as Tn.
  assert (Hpos : forall l, obs_ok l -> 0 <= total l) by (intros l Hl; apply weight_of_nonneg; by apply obs_ok_pos).
  pose proof (Hpos _ On). pose proof (Hpos _ Op). destruct Hok as [_ Hmax].
  unfold count. rewrite Tp, Tn, Hz. split; [done|]. split; [done|].
  split; [apply wrapping_add_exact; unfold in_range; lia|].
  rewrite (wrapping_add_exact 64 (total (neg xs))) by (unfold in_range; lia). rewrite wrapping_add_exact by (unfold in_range; lia). lia.
Qed.

Lemma no_values xs : values_ok m xs -> weight_all m xs = 0 -> xs = [].
Proof.
  intros [Hf _] Ht. destruct Hf as [|x xs [Hx _] Hf]; [done|]. exfalso.
  assert (Hn : 0 <= weight_all m xs) by (unfold weight_all, weight; clear Ht; induction Hf as [|y l [Hy _] _ IH]; simpl; lia).
  unfold weight_all, weight in *. simpl in Ht. lia.
Qed.

Lemma holds_merge sk other xs ys : sketch_holds sk xs -> sketch_holds other ys -> values_ok m (xs ++ ys) ->
  exists sk', DDSketch_merge sk other = Some sk' /\ sketch_holds sk' (xs ++ ys).
Proof.
  intros Hs Ho Hok. destruct (values_ok_prefix _ _ Hok) as [Hok1 Hok2].
  destruct (holds_counts _ _ Ho Hok2) as (_ & _ & _ & Hc). unfold DDSketch_merge, DDSketch_is_empty. rewrite Hc.
  destruct (Z.eqb_spec (weight_all m ys) 0) as [E|E].
  { apply no_values in E; [|done]. subst ys. rewrite app_nil_r. by exists sk. }
  destruct Hs as [Hm Hp Hn Hz], Ho as [Hm' Hp' Hn' Hz']. destruct (values_ok_parts m _ Hok) as (On & Op & _ & Ht).
  rewrite positives_app in Op. rewrite negatives_app in On.
  destruct (law_merge _ _ _ _ Hp Hp' Op) as (p & -> & Hpp). destruct (law_merge _ _ _ _ Hn Hn' On) as (n & -> & Hnn). cbn.
  eexists. split; [done|]. split; cbn; [done|by rewrite positives_app|by rewrite negatives_app|].
  rewrite Hz, Hz'. unfold next_to_zero. rewrite weight_app. apply wrapping_add_exact.
  destruct (values_ok_parts m _ Hok1) as (_ & _ & Hz1 & _). destruct (values_ok_parts m _ Hok2) as (_ & _ & Hz2 & _).
  pose proof (weight_le (fun k => match k with NextToZero => true | _ => false end) _ Hok) as Hle. rewrite weight_app in Hle.
  unfold next_to_zero in *. destruct Hok as [_ Hmax]. unfold in_range. lia.
Qed.

Lemma valid_inserted e : valid_script m e -> values_ok m (inserted e).
Proof. destruct e; simpl; tauto. Qed.

Lemma script_sketch e : valid_script m e -> exists sk, run e = Some sk /\ sketch_holds sk (inserted e).
Proof.
  induction e as [|v n e IH|e1 IH1 e2 IH2|e IH]; intros Hv.
  - eexists. split; [done|]. by split.
  - destruct Hv as [Hok Hv]. destruct (IH Hv) as (sk & Hr & Hs). cbn [run_sketch]. rewrite Hr. cbn [mbind option_bind inserted] in *.
    destruct (Z.eqb_spec n 0) as [->|Hn]; [by exists sk|]. by apply holds_add.
  - destruct Hv as (Hok & Hv1 & Hv2). destruct (IH1 Hv1) as (s1 & Hr1 & Hs1). destruct (IH2 Hv2) as (s2 & Hr2 & Hs2).
    cbn [run_sketch]. rewrite Hr1, Hr2. cbn [mbind option_bind]. by apply holds_merge.
  - destruct Hv as [Hok Hv]. destruct (IH Hv) as (sk & Hr & [Hm Hp Hn Hz]). cbn [run_sketch]. rewrite Hr. cbn [mbind option_bind].
    eexists. split; [done|]. split; cbn; [done|exact (law_clear _ _ Hp)|exact (law_clear _ _ Hn)|done].
Qed.

(** ** Ranks *)

(** The bin that stands for a key: the stores may have moved it. *)
Definition represented (xs : list (f64 * Z)) (k : Key) : f64 :=
  match k with
  | Negative i => f64_neg (value m (place (neg xs) i))
  | NextToZero => f64_zero
  | Positive i => value m (place (pos xs) i)
  end.

Lemma negative_rank xs r i : values_ok m xs -> rank_index (neg xs) (total (neg xs) - r - 1) i -> has_rank m xs r (Negative i).
Proof.
  intros Hok [H1 H2]. unfold has_rank. rewrite (weight_parts m (fun k => key_ltb k (Negative i))), (weight_parts m (fun k => key_leb k (Negative i))).
  assert (E0 : forall p, weight_of (fun _ => p) (pos xs) = if p then total (pos xs) else 0).
  { intros []; [done|]. apply weight_of_none. done. }
  assert (Hsplit : forall p (l : list Obs), weight_of p l + weight_of (fun j => negb (p j)) l = total l).
  { clear. intros p l. unfold total, weight_of. induction l as [|o l IH]; simpl; [done|]. destruct (p o.1); simpl; lia. }
  pose proof (Hsplit (fun j => j <=? i) (neg xs)) as S1. pose proof (Hsplit (fun j => j <? i) (neg xs)) as S2. cbn beta in S1, S2.
  assert (Ew1 : weight_of (fun j => key_ltb (Negative j) (Negative i)) (neg xs) = weight_of (fun j => negb (j <=? i)) (neg xs))
    by (apply weight_of_ext; intros o _; cbn; bool_lia).
  assert (Ew2 : weight_of (fun j => key_leb (Negative j) (Negative i)) (neg xs) = weight_of (fun j => negb (j <? i)) (neg xs)) by done.
  rewrite Ew1, Ew2. cbn [key_ltb key_leb negb]. rewrite !E0.
  assert (Ez : forall p, weight m (fun k => match k with NextToZero => p | _ => false end) xs = if p then zeros xs else 0).
  { intros []; [done|]. unfold weight. clear. induction xs as [|x xs IH]; simpl; [done|]. rewrite IH. by destruct (key_of m x.1). }
  rewrite !Ez. lia.
Qed.

Lemma zero_rank xs r : values_ok m xs -> total (neg xs) <= r < total (neg xs) + zeros xs -> has_rank m xs r NextToZero.
Proof.
  intros Hok Hr. unfold has_rank. rewrite (weight_parts m (fun k => key_ltb k NextToZero)), (weight_parts m (fun k => key_leb k NextToZero)). cbn [key_ltb key_leb negb].
  assert (E0 : forall p l, weight_of (fun _ => p) l = if p then total l else 0).
  { intros [] l; [done|]. apply weight_of_none. done. }
  assert (Ez : forall p, weight m (fun k => match k with NextToZero => p | _ => false end) xs = if p then zeros xs else 0).
  { intros []; [done|]. unfold weight. clear. induction xs as [|x xs IH]; simpl; [done|]. rewrite IH. by destruct (key_of m x.1). }
  rewrite !E0, !Ez. lia.
Qed.

Lemma positive_rank xs r i : values_ok m xs -> rank_index (pos xs) (r - (total (neg xs) + zeros xs)) i -> has_rank m xs r (Positive i).
Proof.
  intros Hok [H1 H2]. unfold has_rank. rewrite (weight_parts m (fun k => key_ltb k (Positive i))), (weight_parts m (fun k => key_leb k (Positive i))). cbn [key_ltb key_leb negb].
  assert (E0 : forall l, weight_of (fun _ => true) l = total l) by done.
  assert (Ew : weight_of (fun j => key_leb (Positive j) (Positive i)) (pos xs) = weight_of (fun j => j <=? i) (pos xs))
    by (apply weight_of_ext; intros o _; exact (eq_sym (Z.leb_antisym i o.1))).
  assert (Ez : weight m (fun k => match k with NextToZero => true | _ => false end) xs = zeros xs) by done.
  rewrite !E0, Ew, !Ez. lia.
Qed.

(** A rank from one to the count of the stores. *)
Lemma rank_answer s obs r : holds s obs -> 0 <= r < total obs ->
  exists k, rank_index obs r k /\ key_at_rank r s = Some (place obs k).
Proof.
  intros Hs Hr. destruct (rank_index_ex obs r) as [k Hk]; [by eapply law_ok|done|]. exists k. split; [done|].
  apply (ans_rank _ _ _ (law_answers _ _ Hs)); [lia|done].
Qed.

Lemma rank_of_nonneg q n : 0 <= rank_of q n.
Proof. unfold rank_of. pose proof (f64_to_u_range 64 (f64_round_ties_even (f64_mul q (f64_of_Z (n - 1)))) ltac:(lia)) as Hr. unfold in_range in Hr. lia. Qed.

(** C22: The canonical sketch is the sorted list of the bins of its values.  Whatever script of additions,
    merges and clears made it - with indices and counts in their ranges - nothing panics on the way, it counts
    every value once, and a quantile between zero and one of a sketch with values asks for a rank: if the rank is
    below the count, the answer is the representative of the bin of the value of this rank among all inserted
    values, negative, next to zero and positive ones, where the stores may have moved the bin as their contract
    says; if rounding has made it the count, there is no such value and the query panics. *)
Theorem canonical_sketch_quantiles (e : sketch_script) : valid_script m e -> exists sk, run e = Some sk /\
  count sk = weight_all m (inserted e) /\ (DDSketch_is_empty sk = true <-> inserted e = []) /\
  forall q,
    if negb (DDSketch_is_empty sk) && f64_leb f64_zero q && f64_leb q f64_one then
      let r := rank_of q (weight_all m (inserted e)) in
      if r <? weight_all m (inserted e) then exists k, has_rank m (inserted e) r k /\
        quantile q sk = Some (Some (represented (inserted e) k))
      else quantile q sk = None
    else quantile q sk = Some None.
Proof.
  intros Hv. destruct (script_sketch e Hv) as (sk & Hr & Hs). exists sk. split; [done|].
  pose proof (valid_inserted e Hv) as Hok. set (xs := inserted e) in *.
  destruct (holds_counts sk xs Hs Hok) as (Tn & Tp & Tz & Tc). split; [done|].
  split.
  { unfold DDSketch_is_empty. rewrite Tc, Z.eqb_eq. split; [by apply no_values|by intros ->]. }
  intros q. unfold quantile. destruct (DDSketch_is_empty sk); [done|]. cbn [negb andb].
  destruct (f64_leb f64_zero q && f64_leb q f64_one); cbn [negb]; [|done].
  rewrite Tc, Tz, Tn. set (r := rank_of q (weight_all m xs)). assert (Hr0 : 0 <= r) by apply rank_of_nonneg.
  destruct (values_ok_parts m xs Hok) as (On & Op & Hz & Ht). destruct Hs as [Hm Hp Hn _]. rewrite Hm.
  destruct (Z.ltb_spec r (total (neg xs))) as [E1|E1]; [|destruct (Z.ltb_spec r (total (neg xs) + zeros xs)) as [E2|E2]].
  - destruct (rank_answer _ _ (total (neg xs) - r - 1) Hn) as (i & Hi & ->); [lia|]. cbn.
    assert (Hpt : 0 <= total (pos xs)) by (apply weight_of_nonneg; by apply obs_ok_pos).
    rewrite (proj2 (Z.ltb_lt r _)) by lia. exists (Negative i). split; [by apply negative_rank|done].
  - assert (Hpt : 0 <= total (pos xs)) by (apply weight_of_nonneg; by apply obs_ok_pos).
    rewrite (proj2 (Z.ltb_lt r _)) by lia. exists NextToZero. split; [apply zero_rank; [done|lia]|done].
  - destruct (Z.ltb_spec r (weight_all m xs)) as [E3|E3].
    + destruct (rank_answer _ _ (r - (total (neg xs) + zeros xs)) Hp) as (i & Hi & ->); [lia|]. cbn.
      exists (Positive i). split; [by apply positive_rank|done].
    + by rewrite (ans_past _ _ _ (law_answers _ _ Hp)) by lia.
Qed.

(** ** Positive values only *)

(** The two sketches side by side, while nothing is negative. *)
Record agree (sk : DDSketch M S) (p : PositiveOnlyDDSketch M S) : Prop := {
  ag_mapping : p_mapping p = mapping sk;
  ag_store : p_store p = positive_store sk;
  ag_zero : p_zero_count p = zero_count sk;
}.

Lemma negatives_nil xs : Forall (fun x => f64_ltb x.1 (f64_neg (min_indexable_value m)) = false) xs -> neg xs = [].
Proof.
  induction 1 as [|x xs Hx _ IH]; [done|]. rewrite (negatives_app [x] xs : neg (x :: xs) = _), IH. cbn. unfold key_of.
  destruct (f64_ltb (min_indexable_value m) x.1); [done|]. by rewrite Hx.
Qed.

(** No value on the way is negative, beyond what is next to zero. *)
Fixpoint never_negative (e : sketch_script) : Prop :=
  match e with
  | KNew => True
  | KAdd v _ e => f64_ltb v (f64_neg (min_indexable_value m)) = false /\ never_negative e
  | KMerge e other => never_negative e /\ never_negative other
  | KClear e => never_negative e
  end.

Lemma never_negative_inserted e : never_negative e ->
  Forall (fun x => f64_ltb x.1 (f64_neg (min_indexable_value m)) = false) (inserted e).
Proof.
  induction e as [|v n e IH|e1 IH1 e2 IH2|e IH]; simpl; intros He; try done.
  - destruct He as [Hv He]. destruct (n =? 0); [by apply IH|]. apply Forall_app. split; [by apply IH|by constructor].
  - apply Forall_app. destruct He. split; auto.
Qed.

Lemma agree_counts sk p xs : sketch_holds sk xs -> values_ok m xs -> neg xs = [] -> agree sk p -> Positive_count p = count sk.
Proof.
  intros Hs Hok Hn [_ Es Ez]. destruct (holds_counts sk xs Hs Hok) as (Tn & Tp & _ & Tc). rewrite Tc.
  destruct (values_ok_parts m xs Hok) as (_ & Op & Hz & Ht). unfold Positive_count. rewrite Es, Ez, Tp. destruct Hs as [_ _ _ ->].
  rewrite Hn in Ht. unfold total at 1, weight_of in Ht. simpl in Ht. destruct Hok as [_ Hmax].
  assert (0 <= total (pos xs)) by (apply weight_of_nonneg; by apply obs_ok_pos).
  rewrite wrapping_add_exact by (unfold in_range; lia). lia.
Qed.

Lemma run_agree e : valid_script m e -> never_negative e -> exists sk p, run e = Some sk /\ run_positive m new e = Some p /\
  sketch_holds sk (inserted e) /\ agree sk p.
Proof.
  intros Hv Hneg. destruct (script_sketch e Hv) as (sk & Hr & Hs). exists sk.
  cut (exists p, run_positive m new e = Some p /\ agree sk p); [by intros (p & ? & ?); exists p|].
  clear Hs. revert sk Hr Hv Hneg. induction e as [|v n e IH|e1 IH1 e2 IH2|e IH]; intros sk Hr Hv Hneg; cbn [run_sketch run_positive] in *.
  - injection Hr as <-. eexists. split; [done|]. by split.
  - destruct Hv as [Hok Hv], Hneg as [Hvn Hneg]. destruct (script_sketch e Hv) as (sk0 & Hr0 & Hs0). rewrite Hr0 in Hr.
    destruct (IH sk0 Hr0 Hv Hneg) as (p & -> & [Em Es Ez]). cbn [mbind option_bind] in *. unfold add_n, Positive_add_n in *.
    destruct (n =? 0); [injection Hr as <-; by exists p|]. rewrite Em, Es, Ez. rewrite (sh_mapping _ _ Hs0) in *.
    destruct (f64_ltb (min_indexable_value m) v).
    + destruct (add (index m v) n (positive_store sk0)) as [s|]; [|done]. cbn in *. injection Hr as <-. eexists. by split.
    + rewrite Hvn in Hr. injection Hr as <-. eexists. by split.
  - destruct Hv as (Hok & Hv1 & Hv2), Hneg as [Hn1 Hn2].
    destruct (script_sketch e1 Hv1) as (s1 & Hr1 & Hs1). destruct (script_sketch e2 Hv2) as (s2 & Hr2 & Hs2).
    rewrite Hr1, Hr2 in Hr. destruct (IH1 s1 Hr1 Hv1 Hn1) as (p1 & -> & Ha1). destruct (IH2 s2 Hr2 Hv2 Hn2) as (p2 & -> & Ha2).
    cbn [mbind option_bind] in *. unfold DDSketch_merge, Positive_merge, DDSketch_is_empty, Positive_is_empty in *.
    rewrite (agree_counts s2 p2 (inserted e2) Hs2 (valid_inserted _ Hv2) (negatives_nil _ (never_negative_inserted _ Hn2)) Ha2).
    destruct (count s2 =? 0); [injection Hr as <-; by exists p1|]. destruct Ha1 as [Em Es Ez], Ha2 as [Em' Es' Ez'].
    rewrite Es, Es', Ez, Ez', Em. destruct (merge (positive_store s1) (positive_store s2)) as [ps|]; [|done]. cbn in *.
    destruct (merge (negative_store s1) (negative_store s2)) as [ns|]; [|done]. injection Hr as <-. eexists. by split.
  - destruct Hv as [Hok Hv]. destruct (script_sketch e Hv) as (sk0 & Hr0 & Hs0). rewrite Hr0 in Hr.
    destruct (IH sk0 Hr0 Hv Hneg) as (p & -> & [Em Es Ez]). cbn [mbind option_bind] in *. injection Hr as <-.
    eexists. split; [done|]. split; cbn; [done|by rewrite Es|done].
Qed.

(** The sketch for positive values is the full sketch without its negative store: for every script that adds
    no value below the smallest one that can be indexed, up to its sign, both count the same and answer every
    quantile alike. *)
Theorem positive_sketch_agrees (e : sketch_script) : valid_script m e -> never_negative e ->
  exists sk p, run e = Some sk /\ run_positive m new e = Some p /\ Positive_count p = count sk /\
    forall q, Positive_quantile q p = quantile q sk.
Proof.
  intros Hv Hneg. destruct (run_agree e Hv Hneg) as (sk & p & Hr & Hp & Hs & Ha). exists sk, p.
  pose proof (valid_inserted e Hv) as Hok. pose proof (negatives_nil _ (never_negative_inserted _ Hneg)) as Hn.
  pose proof (agree_counts sk p _ Hs Hok Hn Ha) as Hc. split_and!; [done|done|done|]. intros q.
  unfold Positive_quantile, quantile, Positive_is_empty, DDSketch_is_empty. rewrite Hc. destruct (count sk =? 0); [done|].
  destruct (negb _); [done|]. destruct (holds_counts sk _ Hs Hok) as (Tn & _ & Tz & _). rewrite Tz, Tn, Hn.
  change (total []) with 0. destruct Ha as [Em Es Ez]. rewrite Em, Es, Ez, (sh_zero _ _ Hs).
  rewrite (proj2 (Z.ltb_ge _ 0) (rank_of_nonneg _ _)). done.
Qed.

End refinement.

(** ** Witnesses and examples *)

Module CanonicalSamples.

(** Functions that stand for those of the system library. *)
#[export] Instance identity_libm : Libm := {| f64_ln := fun x => x; f64_powf := fun _ _ => f64_zero |}.
#[export] Instance identity_exp : LibmExp := {| f64_exp := fun x => x |}.

Definition fixed : FixedLogarithmicMapping := FixedLogarithmicMapping_new.

Definition script : sketch_script :=
  KMerge (KAdd (f64_of_Z (-5)) 2 (KAdd (f64_of_Z 3) 1 (KAdd f64_zero 1 KNew)))
    (KAdd (f64_of_Z 7) 1 (KAdd S754_nan 0 (KClear (KAdd (f64_of_Z 9) 9 KNew)))).

Definition positive_script : sketch_script := KAdd (f64_of_Z 7) 1 (KMerge (KAdd (f64_of_Z 3) 2 KNew) (KAdd f64_zero 1 KNew)).

Ltac solve_valid :=
  cbn [valid_script]; unfold values_ok; cbn [inserted app Z.eqb];
  repeat match goal with |- _ /\ _ => split | |- Forall _ _ => constructor end;
  vm_compute; repeat split; discriminate.

Lemma script_valid : valid_script fixed script.
Proof. unfold script. solve_valid. Defined.

Lemma positive_script_valid : valid_script fixed positive_script /\ never_negative fixed positive_script.
Proof. unfold positive_script. split; [solve_valid|]. repeat split. Defined.

Lemma canonical_sketch_quantiles_witness : valid_script fixed script /\
  exists sk, run_sketch fixed DenseStore_new script = Some sk /\ count sk = 5 /\ exists k, has_rank fixed (inserted script) 2 k /\
    quantile (f64_scale 1 (-1)) sk = Some (Some (represented (fun _ i => i) fixed (inserted script) k)).
Proof.
  split; [exact script_valid|].
  destruct (canonical_sketch_quantiles (fun _ i => i) dense_rep fixed DenseStore_new dense_rep_new script script_valid)
    as (sk & Hr & Hc & He & Hq).
  exists sk. split; [exact Hr|]. split; [rewrite Hc; reflexivity|]. specialize (Hq (f64_scale 1 (-1))).
  destruct (DDSketch_is_empty sk); [discriminate (proj1 He eq_refl)|]. exact Hq.
Defined.

Lemma positive_sketch_agrees_witness : valid_script fixed positive_script /\
  exists sk p, run_sketch fixed DenseStore_new positive_script = Some sk /\ run_positive fixed DenseStore_new positive_script = Some p /\
    Positive_quantile f64_one p = quantile f64_one sk.
Proof.
  destruct positive_script_valid as [Hv Hn]. split; [exact Hv|].
  destruct (positive_sketch_agrees (fun _ i => i) dense_rep fixed DenseStore_new dense_rep_new positive_script Hv Hn)
    as (sk & p & Hs & Hp & _ & Hq).
  exists sk, p. split; [exact Hs|]. split; [exact Hp|apply Hq].
Defined.

(** With so many values that the count is rounded up as a float, the largest quantile asks for a rank that no
    value has, and the query panics. *)
Example rounded_rank_panics :
  (sk ← add_n f64_zero (2 ^ 53 + 4) (DDSketch_new fixed DenseStore_new DenseStore_new); Some (count sk, quantile f64_one sk)) =
  Some (2 ^ 53 + 4, None).
Proof. vm_compute. reflexivity. Qed.

(** The limits are excluded, and what is not a number is within them. *)
Example accuracy_limits :
  @LogarithmicMapping_new identity_libm f64_one = Err "relative accuracy must be between 0 and 1 (exclusive)"%string /\
  @LogarithmicMapping_new identity_libm S754_nan =
    Ok {| l_gamma := S754_nan; l_index_offset := f64_zero; l_multiplier := S754_nan |}.
Proof. by split; vm_compute. Qed.

(** The index is rounded down, not up; a negative integer goes to the bin below it. *)
Example index_rounds_down :
  index_of_log (f64_scale 3 (-1)) = 1 /\ index_of_log (f64_scale (-3) (-1)) = -2 /\ index_of_log (f64_of_Z (-1)) = -2.
Proof. by vm_compute. Qed.

End CanonicalSamples.
