(* ===== verification/CanonicalProto.v ===== *)
(** * CanonicalProto: the canonical DDSketch as a protobuf message

    Models the conversions of [lib/ddsketch/src/canonical] from and to the messages of [ddsketch.proto]: the
    counts of a store ([store/mod.rs] and the four stores), the parameters of an index mapping ([mapping]), and
    the sketch ([sketch.rs]), and shows that a sketch survives the trip.  The message types are generated; here
    they are records of the fields that the code reads and sets, and an enum value is its number on the wire. *)

From Stdlib Require Import ZArith Lia Floats.SpecFloat.
From stdpp Require Import base tactics list numbers option gmap.
From S2P Require Import Prelude Float64 SketchStore SketchCollapse SketchContract AgentSketch CanonicalSketch.
Open Scope Z_scope.

#[local] Coercion Z.of_nat : nat >-> Z.

(** ** Messages *)

Record ProtoStore := { binCounts : gmap Z f64; contiguousBinCounts : list f64; contiguousBinIndexOffset : Z }.

Definition ProtoStore_new : ProtoStore := {| binCounts := ∅; contiguousBinCounts := []; contiguousBinIndexOffset := 0 |}.

Record ProtoIndexMapping := { pb_gamma : f64; pb_indexOffset : f64; pb_interpolation : Z }.

Record ProtoDDSketch := {
  pb_mapping : option ProtoIndexMapping;
  pb_positiveValues : option ProtoStore;
  pb_negativeValues : option ProtoStore;
  pb_zeroCount : f64;
}.

Inductive ProtoConversionError :=
| MissingMapping
| GammaMismatch (expected actual : f64)
| NonZeroIndexOffset (actual : f64)
| UnsupportedInterpolation (actual : Z)
| NegativeBinCount (index : Z) (count : f64)
| NonIntegerBinCount (index : Z) (count : f64)
| NegativeZeroCount (count : f64)
| NonIntegerZeroCount (count : f64).

(** ** Index mappings *)

(** [approx_eq_ratio] of the [float_cmp] crate. *)
Class FloatCmp := { approx_eq_ratio : f64 -> f64 -> f64 -> bool }.

(** The literal [0.00000001] *)
Definition RATIO_ERROR : f64 := S754_finite false 6044629098073146 (-79).

Definition float_eq `{FloatCmp} (l_value r_value : f64) : bool :=
  is_nan l_value && is_nan r_value || approx_eq_ratio l_value r_value RATIO_ERROR.

(** [enum_value_or_default]: the first variant for a number that is none of the enum's. *)
Definition Interpolation_or_default (n : Z) : Z := if (0 <=? n) && (n <=? 3) then n else 0.

Class ProtoMapping (M : Type) := {
  validate_proto_mapping : M -> ProtoIndexMapping -> result ProtoConversionError unit;
  mapping_to_proto : M -> ProtoIndexMapping;
}.

Definition check_interpolation (proto : ProtoIndexMapping) : result ProtoConversionError unit :=
  let interpolation := Interpolation_or_default (pb_interpolation proto) in
  if negb (interpolation =? 0) then Err (UnsupportedInterpolation interpolation) else Ok tt.

#[export] Instance logarithmic_proto `{FloatCmp} : ProtoMapping LogarithmicMapping := {|
  validate_proto_mapping := fun m proto =>
    if negb (float_eq (pb_gamma proto) (l_gamma m)) then Err (GammaMismatch (l_gamma m) (pb_gamma proto))
    else if negb (float_eq (pb_indexOffset proto) (l_index_offset m)) then Err (NonZeroIndexOffset (pb_indexOffset proto))
    else check_interpolation proto;
  mapping_to_proto := fun m => {| pb_gamma := l_gamma m; pb_indexOffset := l_index_offset m; pb_interpolation := 0 |};
|}.

#[export] Instance fixed_proto `{FloatCmp} : ProtoMapping FixedLogarithmicMapping := {|
  validate_proto_mapping := fun m proto =>
    if negb (float_eq (pb_gamma proto) GAMMA) then Err (GammaMismatch GAMMA (pb_gamma proto))
    else if negb (f64_eqb (pb_indexOffset proto) f64_zero) then Err (NonZeroIndexOffset (pb_indexOffset proto))
    else check_interpolation proto;
  mapping_to_proto := fun m => {| pb_gamma := GAMMA; pb_indexOffset := f64_zero; pb_interpolation := 0 |};
|}.

(** ** Stores *)

Definition validate_proto_count (index : Z) (count : f64) : result ProtoConversionError Z :=
  if f64_ltb count f64_zero then Err (NegativeBinCount index count)
  else if negb (f64_eqb (f64_fract count) f64_zero) then Err (NonIntegerBinCount index count)
  else Ok (f64_to_u64 count).

(** The indices of contiguous counts. *)
Definition contiguous_bins (offset : Z) (counts : list f64) : list (Z * f64) :=
  imap (fun i count => (i32_add offset (i32_of_usize i), count)) counts.

(** The default store, and its [to_proto]. *)
Class StoreProto (S : Type) := { store_default : S; store_to_proto : S -> ProtoStore }.

Section merge_from_proto.
Context {S : Type} `{Store S} (hash_order : gmap Z f64 -> list (Z * f64)).

(** The body of both loops: at an error, what was added so far stays. *)
Fixpoint add_proto_counts (bins : list (Z * f64)) (s : S) : option (S * result ProtoConversionError unit) :=
  match bins with
  | [] => Some (s, Ok tt)
  | (index, count) :: bins' =>
      match validate_proto_count index count with
      | Err e => Some (s, Err e)
      | Ok count => s ← (if 0 <? count then add index count s else Some s); add_proto_counts bins' s
      end
  end.

(** [merge_from_proto], which the four stores implement alike; [hash_order] is the order of the map's entries. *)
Definition merge_from_proto (proto : ProtoStore) (s : S) : option (S * result ProtoConversionError unit) :=
  r ← add_proto_counts (hash_order (binCounts proto)) s;
  match r.2 with
  | Err e => Some (r.1, Err e)
  | Ok _ => add_proto_counts (contiguous_bins (contiguousBinIndexOffset proto) (contiguousBinCounts proto)) r.1
  end.

End merge_from_proto.

(** The encoding of the dense stores. *)
Definition dense_to_proto (offset : Z) (bins : list Z) : ProtoStore :=
  match bins with
  | [] => ProtoStore_new
  | _ => {| binCounts := ∅; contiguousBinCounts := f64_of_Z <$> bins; contiguousBinIndexOffset := offset |}
  end.

#[export] Instance DenseStore_proto : StoreProto DenseStore := {|
  store_default := DenseStore_new;
  store_to_proto := fun s => dense_to_proto (d_offset s) (d_bins s);
|}.

#[export] Instance SparseStore_proto : StoreProto SparseStore := {|
  store_default := SparseStore_new;
  store_to_proto := fun s => {|
    binCounts := foldl (fun m x => if 0 <? x.2 then <[x.1 := f64_of_Z x.2]> m else m) ∅ (btree_iter (s_bins s));
    contiguousBinCounts := []; contiguousBinIndexOffset := 0 |};
|}.

Definition LowestStore_default : CollapsingLowestDenseStore :=
  {| l_bins := []; l_offset := 0; l_max_num_bins := 2048%nat; l_count := 0; l_is_collapsed := false |}.
Definition HighestStore_default : CollapsingHighestDenseStore :=
  {| h_bins := []; h_offset := 0; h_max_num_bins := 2048%nat; h_count := 0; h_is_collapsed := false |}.

#[export] Instance LowestStore_proto : StoreProto CollapsingLowestDenseStore := {|
  store_default := LowestStore_default;
  store_to_proto := fun s => dense_to_proto (l_offset s) (l_bins s);
|}.

#[export] Instance HighestStore_proto : StoreProto CollapsingHighestDenseStore := {|
  store_default := HighestStore_default;
  store_to_proto := fun s => dense_to_proto (h_offset s) (h_bins s);
|}.

(** ** Sketches *)

Section sketch.
Context {M S : Type} `{ProtoMapping M} `{Store S} `{StoreProto S} (hash_order : gmap Z f64 -> list (Z * f64)).

Definition zero_count_of_proto (count : f64) : result ProtoConversionError Z :=
  if f64_ltb count f64_zero then Err (NegativeZeroCount count)
  else if negb (f64_eqb (f64_fract count) f64_zero) then Err (NonIntegerZeroCount count)
  else Ok (f64_to_u64 count).

(** A new store with the counts of a message's field, if that is set. *)
Definition store_of_proto (proto : option ProtoStore) : option (S * result ProtoConversionError unit) :=
  match proto with
  | Some proto => merge_from_proto hash_order proto store_default
  | None => Some (store_default, Ok tt)
  end.

Definition from_proto (proto : ProtoDDSketch) (m : M) : option (result ProtoConversionError (DDSketch M S)) :=
  match pb_mapping proto with
  | None => Some (Err MissingMapping)
  | Some proto_mapping =>
      match validate_proto_mapping m proto_mapping with
      | Err e => Some (Err e)
      | Ok _ =>
          match zero_count_of_proto (pb_zeroCount proto) with
          | Err e => Some (Err e)
          | Ok zero_count =>
              p ← store_of_proto (pb_positiveValues proto);
              match p.2 with
              | Err e => Some (Err e)
              | Ok _ =>
                  n ← store_of_proto (pb_negativeValues proto);
                  match n.2 with
                  | Err e => Some (Err e)
                  | Ok _ => Some (Ok {| mapping := m; positive_store := p.1; negative_store := n.1; zero_count := zero_count |})
                  end
              end
          end
      end
  end.

Definition to_proto (sk : DDSketch M S) : ProtoDDSketch :=
  {| pb_mapping := Some (mapping_to_proto (mapping sk));
     pb_positiveValues := if negb (is_empty (positive_store sk)) then Some (store_to_proto (positive_store sk)) else None;
     pb_negativeValues := if negb (is_empty (negative_store sk)) then Some (store_to_proto (negative_store sk)) else None;
     pb_zeroCount := f64_of_Z (zero_count sk) |}.

Definition Positive_from_proto (proto : ProtoDDSketch) (m : M) : option (result ProtoConversionError (PositiveOnlyDDSketch M S)) :=
  match pb_mapping proto with
  | None => Some (Err MissingMapping)
  | Some proto_mapping =>
      match validate_proto_mapping m proto_mapping with
      | Err e => Some (Err e)
      | Ok _ =>
          match zero_count_of_proto (pb_zeroCount proto) with
          | Err e => Some (Err e)
          | Ok zero_count =>
              p ← store_of_proto (pb_positiveValues proto);
              match p.2 with
              | Err e => Some (Err e)
              | Ok _ => Some (Ok {| p_mapping := m; p_store := p.1; p_zero_count := zero_count |})
              end
          end
      end
  end.

Definition Positive_to_proto (sk : PositiveOnlyDDSketch M S) : ProtoDDSketch :=
  {| pb_mapping := Some (mapping_to_proto (p_mapping sk));
     pb_positiveValues := if negb (is_empty (p_store sk)) then Some (store_to_proto (p_store sk)) else None;
     pb_negativeValues := None;
     pb_zeroCount := f64_of_Z (p_zero_count sk) |}.

End sketch.

(** ** Counts *)

Lemma count_valid i n : 0 <= n <= 2 ^ 53 -> validate_proto_count i (f64_of_Z n) = Ok n.
Proof. intros Hn. unfold validate_proto_count. by rewrite f64_count_nonneg, f64_count_fract, f64_count_exact. Qed.

Lemma zero_count_valid n : 0 <= n <= 2 ^ 53 -> zero_count_of_proto (f64_of_Z n) = Ok n.
Proof. intros Hn. unfold zero_count_of_proto. by rewrite f64_count_nonneg, f64_count_fract, f64_count_exact. Qed.

(** Counts as floats. *)
Abbreviation as_floats := (fmap (M := list) (fun o : Obs => (o.1, f64_of_Z o.2))).

Section read.
Context {S : Type} `{!Store S} (place : list Obs -> Z -> Z) (holds : S -> list Obs -> Prop) `{!StoreLaws S place holds}.

(** The two loops are one over all the entries. *)
Lemma add_counts_app bins1 bins2 (s : S) : add_proto_counts (bins1 ++ bins2) s =
  r ← add_proto_counts bins1 s; match r.2 with Err e => Some (r.1, Err e) | Ok _ => add_proto_counts bins2 r.1 end.
Proof.
  revert s. induction bins1 as [|[i c] bins1 IH]; intros s; cbn [add_proto_counts app]; [done|].
  destruct (validate_proto_count i c) as [n|e]; [|done]. destruct (if 0 <? n then add i n s else Some s) as [s'|]; [|done].
  cbn [mbind option_bind]. apply IH.
Qed.

(** Reading whole counts adds each of those that are not zero. *)
Lemma add_counts_holds bins s obs : holds s obs -> Forall (fun o : Obs => 0 <= o.2 <= 2 ^ 53) bins ->
  obs_ok (obs ++ filter (fun o => 0 < o.2) bins) ->
  exists s', add_proto_counts (as_floats bins) s = Some (s', Ok tt) /\ holds s' (obs ++ filter (fun o => 0 < o.2) bins).
Proof.
  intros Hs Hb. revert s obs Hs. induction Hb as [|[i c] bins Hc Hb IH]; intros s obs Hs Hok.
  { exists s. rewrite app_nil_r. done. }
  csimpl. cbn [add_proto_counts]. rewrite count_valid by done. cbn [snd] in Hc. rewrite filter_cons in Hok |- *.
  destruct (Z.ltb_spec 0 c) as [Hp|Hp].
  - rewrite decide_True in Hok |- * by done. rewrite (app_assoc obs [_] _ : obs ++ _ :: _ = _) in Hok |- *.
    pose proof (obs_ok_app _ _ Hok) as [Hok1 _]. destruct (law_add s obs i c Hs Hok1) as (s' & -> & Hs'). cbn [mbind option_bind]. by apply IH.
  - rewrite decide_False in Hok |- * by (cbn; lia). cbn [mbind option_bind]. by apply IH.
Qed.

End read.

(** ** What a store writes *)

(** A list of counts that stands for [obs], each where the store has placed it. *)
Record stands_for (place : list Obs -> Z -> Z) (bins obs : list Obs) : Prop := {
  sf_nonneg : Forall (fun o => 0 <= o.2) bins;
  sf_counts : same_counts bins (refold (place obs) obs);
}.

(** The stores whose default and whose encoding keep the contract. *)
Class StoreProtoLaws (S : Type) `{Store S} `{StoreProto S} (place : list Obs -> Z -> Z) (holds : S -> list Obs -> Prop)
    (hash_order : gmap Z f64 -> list (Z * f64)) := {
  plaw_default : holds store_default [];
  plaw_bins s obs : holds s obs -> exists bins, stands_for place bins obs /\
    hash_order (binCounts (store_to_proto s)) ++
      contiguous_bins (contiguousBinIndexOffset (store_to_proto s)) (contiguousBinCounts (store_to_proto s)) ≡ₚ as_floats bins;
  plaw_mono obs x y : x <= y -> place obs x <= place obs y;
  plaw_ok obs i : obs_ok obs -> i ∈ obs.*1 -> index_ok (place obs i);
  plaw_again obs obs' i : obs_ok obs -> obs_ok obs' -> same_counts obs' (refold (place obs) obs) ->
    i ∈ obs.*1 -> place obs' (place obs i) = place obs i;
}.

(** Only the counts that are not zero matter. *)
Lemma weight_of_filter p (l : list Obs) : Forall (fun o => 0 <= o.2) l -> weight_of p (filter (fun o => 0 < o.2) l) = weight_of p l.
Proof.
  unfold weight_of. induction 1 as [|o l Ho _ IH]; [done|]. rewrite filter_cons. destruct (decide (0 < o.2)); simpl; rewrite IH; [done|].
  destruct (p o.1); lia.
Qed.

Lemma weight_of_perm p (l l' : list Obs) : l ≡ₚ l' -> weight_of p l = weight_of p l'.
Proof. unfold weight_of. induction 1; simpl; lia. Qed.

Lemma stands_for_bound place bins obs : obs_ok obs -> stands_for place bins obs -> total obs <= 2 ^ 53 ->
  Forall (fun o => 0 <= o.2 <= 2 ^ 53) bins.
Proof.
  intros Hok [Hn Hc] Ht. apply Forall_forall. intros o Ho. rewrite Forall_forall in Hn. split; [by apply Hn|].
  assert (Hw : total bins = total obs) by (rewrite Hc; unfold total; by rewrite weight_of_refold).
  assert (o.2 <= total bins); [|lia]. clear Hw Hc. unfold total, weight_of.
  apply list_elem_of_split in Ho as (l1 & l2 & ->). rewrite sumZ_app. simpl.
  assert (Hs : forall l, (forall x, x ∈ l -> 0 <= x.2) -> 0 <= sumZ (fun x : Obs => x.2) l).
  { induction l as [|x l IH]; intros Hl; [done|]. simpl. pose proof (Hl x ltac:(left)). specialize (IH ltac:(intros; apply Hl; by right)). lia. }
  pose proof (Hs l1 ltac:(intros; apply Hn, elem_of_app; by left)). pose proof (Hs l2 ltac:(intros; apply Hn, elem_of_app; right; by right)). lia.
Qed.

Section laws.
Context {S : Type} `{!Store S} `{!StoreProto S} (place : list Obs -> Z -> Z) (holds : S -> list Obs -> Prop) (hash_order : gmap Z f64 -> list (Z * f64)) `{!StoreLaws S place holds} `{!StoreProtoLaws S place holds hash_order}.

Lemma stands_for_ok bins obs : obs_ok obs -> stands_for place bins obs ->
  obs_ok (filter (fun o => 0 < o.2) bins) /\ same_counts (filter (fun o => 0 < o.2) bins) (refold (place obs) obs).
Proof.
  intros Hok [Hn Hc]. set (l := filter _ bins). assert (Hl : same_counts l (refold (place obs) obs)).
  { intros k. rewrite <- (Hc k). by apply weight_of_filter. }
  assert (Hp : Forall (fun o => 0 < o.2) l) by (apply Forall_forall; by intros o [? _]%list_elem_of_filter).
  assert (Hpr : Forall (fun o : Obs => 0 < o.2) (refold (place obs) obs)).
  { apply Forall_fmap. eapply Forall_impl; [by apply obs_ok_pos|done]. }
  split; [|done]. split; [|rewrite Hl; unfold total; rewrite weight_of_refold; apply Hok].
  apply Forall_forall. intros o Ho. split; [|rewrite Forall_forall in Hp; by apply Hp].
  assert (Hi : o.1 ∈ (refold (place obs) obs).*1) by (apply (same_counts_elem l); [done|done|done|by apply list_elem_of_fmap_2]).
  unfold refold in Hi. rewrite <- list_fmap_compose in Hi. apply list_elem_of_fmap in Hi as (x & -> & Hx).
  change (index_ok (place obs x.1)). apply plaw_ok; [done|by apply list_elem_of_fmap_2].
Qed.

Lemma rank_index_elem obs r k : rank_index obs r k -> k ∈ obs.*1.
Proof.
  intros [H1 H2]. destruct (decide (k ∈ obs.*1)) as [|Hk]; [done|]. exfalso.
  rewrite (weight_of_ext (fun i => i <=? k) (fun i => i <? k)) in H2; [lia|].
  intros o Ho. assert (o.1 <> k) by (intros <-; by apply Hk, list_elem_of_fmap_2). bool_lia.
Qed.

Lemma spans_elem obs m M : spans obs m M -> m ∈ obs.*1 /\ M ∈ obs.*1.
Proof. by intros (_ & ? & ?). Qed.

(** A store that has seen what another one wrote answers as that one. *)
Lemma answers_again s' obs obs' : obs_ok obs -> obs_ok obs' -> same_counts obs' (refold (place obs) obs) ->
  answers s' obs' (place obs') -> answers s' obs (place obs).
Proof.
  intros Hok Hok' Hc [T E N I X R P]. pose proof (obs_ok_pos _ Hok) as Hp. pose proof (obs_ok_pos _ Hok') as Hp'.
  assert (Ht : total obs' = total obs) by (rewrite Hc; unfold total; by rewrite weight_of_refold).
  assert (Hpr : Forall (fun o : Obs => 0 < o.2) (refold (place obs) obs)) by (apply Forall_fmap; eapply Forall_impl; [exact Hp|done]).
  assert (He : obs' = [] <-> obs = []).
  { split; intros ->; by apply total_zero. }
  assert (Hsp : forall m M, spans obs m M -> spans obs' (place obs m) (place obs M)).
  { intros m M Hs. apply (spans_proper (refold (place obs) obs)); [done|done|by symmetry|]. apply spans_refold; [apply plaw_mono|done]. }
  split.
  - by rewrite T.
  - rewrite E. by apply bool_decide_ext.
  - by rewrite <- He.
  - intros m M Hs. destruct (spans_elem _ _ _ Hs). rewrite (I _ _ (Hsp _ _ Hs)). f_equal. by apply plaw_again.
  - intros m M Hs. destruct (spans_elem _ _ _ Hs). rewrite (X _ _ (Hsp _ _ Hs)). f_equal. by apply plaw_again.
  - intros r k Hr Hk. pose proof (rank_index_elem _ _ _ Hk) as Hi. rewrite (R r (place obs k)); [f_equal; by apply plaw_again|done|].
    pose proof (rank_index_refold obs r k (place obs) Hp (plaw_mono obs) Hk) as [H1 H2]. unfold rank_index. by rewrite !Hc.
  - intros r Hr. apply P. lia.
Qed.

Lemma store_round_trip s obs : holds s obs -> total obs <= 2 ^ 53 ->
  exists s', merge_from_proto hash_order (store_to_proto s) store_default = Some (s', Ok tt) /\ answers s' obs (place obs).
Proof.
  intros Hs Ht. pose proof (law_ok _ _ Hs) as Hok. destruct (plaw_bins _ _ Hs) as (bins & Hsf & Hp).
  apply Permutation_map_inv in Hp as (bins' & Hb & Hp).
  assert (Hsf' : stands_for place bins' obs).
  { destruct Hsf as [Hn Hc]. split; [by rewrite <- Hp|]. intros k. rewrite <- (Hc k). symmetry. by apply weight_of_perm. }
  destruct (stands_for_ok bins' obs Hok Hsf') as [Hok' Hc].
  destruct (add_counts_holds place holds bins' store_default []) as (s' & Hr & Hs');
    [apply (plaw_default (hash_order := hash_order))|exact (stands_for_bound place bins' obs Hok Hsf' Ht)|exact Hok'|].
  exists s'. split.
  - unfold merge_from_proto. rewrite <- add_counts_app, Hb. exact Hr.
  - eapply answers_again; [exact Hok|exact Hok'|exact Hc|]. by apply law_answers.
Qed.

End laws.

(** ** What a sketch answers after the trip *)

(** The queries see a store only through its total and its ranks. *)
Lemma quantile_ext {M S} `{IndexMapping M} `{!Store S} (sk sk' : DDSketch M S) :
  mapping sk = mapping sk' -> zero_count sk = zero_count sk' ->
  total_count (positive_store sk) = total_count (positive_store sk') -> total_count (negative_store sk) = total_count (negative_store sk') ->
  (forall r, 0 <= r -> key_at_rank r (positive_store sk) = key_at_rank r (positive_store sk')) ->
  (forall r, 0 <= r -> key_at_rank r (negative_store sk) = key_at_rank r (negative_store sk')) ->
  count sk = count sk' /\ forall q, quantile q sk = quantile q sk'.
Proof.
  intros Em Ez Tp Tn Kp Kn. assert (Ec : count sk = count sk') by (unfold count; by rewrite Tp, Tn, Ez). split; [done|].
  intros q. unfold quantile, DDSketch_is_empty. rewrite Ec, Em, Ez, Tn. destruct (count sk' =? 0); [done|].
  destruct (negb _); [done|]. set (r := rank_of q (count sk')).
  destruct (Z.ltb_spec r (total_count (negative_store sk'))) as [E1|E1]; [by rewrite Kn by lia|].
  destruct (Z.ltb_spec r (u64_add (total_count (negative_store sk')) (zero_count sk'))) as [E2|E2]; [done|]. by rewrite Kp by lia.
Qed.

Section round_trip.
Context {M S : Type} `{!IndexMapping M} `{!ProtoMapping M} `{!Store S} `{!StoreProto S}.
Context (place : list Obs -> Z -> Z) (holds : S -> list Obs -> Prop) (hash_order : gmap Z f64 -> list (Z * f64)).
Context `{!StoreLaws S place holds} `{!StoreProtoLaws S place holds hash_order} (m : M).

Lemma store_field s obs : holds s obs -> total obs <= 2 ^ 53 ->
  exists s', store_of_proto hash_order (if negb (is_empty s) then Some (store_to_proto s) else None) = Some (s', Ok tt) /\
    answers s' obs (place obs).
Proof.
  intros Hs Ht. pose proof (law_answers _ _ Hs) as Ha. rewrite (ans_empty _ _ _ Ha). case_bool_decide as He; cbn [negb store_of_proto].
  - subst obs. exists store_default. split; [done|]. apply law_answers, (plaw_default (hash_order := hash_order)).
  - by apply (store_round_trip place holds).
Qed.

(** C23: A canonical sketch survives the trip through its message.  Whatever script of additions, merges and
    clears made it, with at most [2^53] values, and whatever order the map of bins is read in, the message it
    writes is accepted by a mapping that accepts its own parameters, and the sketch read back counts as many
    values and answers every quantile as the one written. *)
Theorem sketch_round_trip (e : sketch_script) : valid_script m e -> weight_all m (inserted e) <= 2 ^ 53 ->
  validate_proto_mapping m (mapping_to_proto m) = Ok tt ->
  exists sk sk', run_sketch m store_default e = Some sk /\ from_proto hash_order (to_proto sk) m = Some (Ok sk') /\
    count sk' = count sk /\ (forall q, quantile q sk' = quantile q sk).
Proof.
  intros Hv Hw Hm. destruct (script_sketch place holds m store_default (plaw_default (hash_order := hash_order)) e Hv) as (sk & Hr & [Em Hp Hn Hz]).
  pose proof (valid_inserted m e Hv) as Hok. set (xs := inserted e) in *. destruct (values_ok_parts m xs Hok) as (On & Op & Hz0 & Ht).
  pose proof (total_nonneg _ On). pose proof (total_nonneg _ Op).
  destruct (store_field _ _ Hp) as (p & Ep & Ap); [lia|]. destruct (store_field _ _ Hn) as (n & En & An); [lia|].
  exists sk, {| mapping := m; positive_store := p; negative_store := n; zero_count := next_to_zero m xs |}. split; [done|].
  pose proof (law_answers _ _ Hp) as Ap'. pose proof (law_answers _ _ Hn) as An'.
  destruct (answers_agree p (positive_store sk) _ _ Op Ap Ap') as (Tp & _ & _ & Kp).
  destruct (answers_agree n (negative_store sk) _ _ On An An') as (Tn & _ & _ & Kn). split.
  - unfold from_proto, to_proto. cbn [pb_mapping pb_zeroCount pb_positiveValues pb_negativeValues].
    rewrite Em, Hm, Hz, zero_count_valid by lia. rewrite Ep. cbn [mbind option_bind snd]. by rewrite En.
  - by apply quantile_ext.
Qed.

End round_trip.

(** ** The four stores *)

Section stores.
Context (hash_order : gmap Z f64 -> list (Z * f64)) (Hash_order : forall m, hash_order m ≡ₚ map_to_list m).

Lemma hash_order_empty : hash_order ∅ = [].
Proof using Hash_order. apply Permutation_nil_r. by rewrite Hash_order, map_to_list_empty. Qed.

(** The counts of a vector of bins, with their indices. *)
Definition indexed (lo : Z) (bins : list Z) : list Obs := imap (fun i c => (lo + i, c)) bins.

Lemma indexed_cons lo c bins : indexed lo (c :: bins) = (lo, c) :: indexed (lo + 1) bins.
Proof using. unfold indexed. cbn [imap]. f_equal; [f_equal; lia|]. apply imap_ext. intros i x _. cbn. f_equal. lia. Qed.

Lemma weight_indexed p lo bins : Forall (fun c => 0 <= c) bins -> weight_of p (indexed lo bins) = weight_of p (bins_obs lo bins).
Proof using.
  intros Hb. revert lo. induction Hb as [|c bins Hc _ IH]; intros lo; [done|].
  rewrite indexed_cons. cbn [bins_obs]. rewrite weight_of_app, <- IH.
  change (weight_of p ((lo, c) :: indexed (lo + 1) bins)) with ((if p lo then c else 0) + weight_of p (indexed (lo + 1) bins)).
  destruct (Z.ltb_spec 0 c); unfold weight_of at 2; simpl; destruct (p lo); lia.
Qed.

Lemma contiguous_indexed lo bins : - 2 ^ 29 <= lo -> lo + length bins <= 2 ^ 30 ->
  contiguous_bins lo (f64_of_Z <$> bins) = as_floats (indexed lo bins).
Proof using.
  intros Hlo Hhi. unfold contiguous_bins, indexed. rewrite imap_fmap, fmap_imap. apply imap_ext.
  intros i c Hi. apply lookup_lt_Some in Hi. cbn. f_equal. unfold i32_add, i32_of_usize. by rewrite (i32_small i), i32_small by lia.
Qed.

(** A dense store writes its window. *)
Lemma dense_writes place lo hi obs : obs_ok obs -> lo <= hi -> - 2 ^ 29 <= lo -> hi <= 2 ^ 29 ->
  (forall o, o ∈ obs -> place obs o.1 = clamp lo hi o.1) ->
  let proto := dense_to_proto lo (window lo hi obs) in
  exists bins, stands_for place bins obs /\
    hash_order (binCounts proto) ++ contiguous_bins (contiguousBinIndexOffset proto) (contiguousBinCounts proto) ≡ₚ as_floats bins.
Proof using Hash_order.
  intros Hok Hle Hlo Hhi Hp. exists (indexed lo (window lo hi obs)). pose proof (obs_ok_pos _ Hok) as Hpos.
  pose proof (window_nonneg lo hi obs Hpos) as Hw. split.
  - split.
    + apply Forall_forall. intros o Ho. apply elem_of_lookup_imap in Ho as (i & c & -> & Hi). cbn.
      rewrite Forall_lookup in Hw. by eapply Hw.
    + intros k. unfold weight_at at 1. rewrite weight_indexed by done. fold (weight_at k (bins_obs lo (window lo hi obs))).
      rewrite (window_bins_obs lo hi obs Hle Hpos k). unfold weight_at. rewrite !weight_of_refold.
      apply weight_of_ext. intros o Ho. by rewrite (Hp o Ho).
  - unfold dense_to_proto. rewrite match_cons by by apply window_ne.
    cbn [binCounts contiguousBinCounts contiguousBinIndexOffset]. rewrite hash_order_empty. cbn [app].
    rewrite contiguous_indexed; [done|done|]. rewrite window_length. lia.
Qed.

Lemma empty_writes place off obs : obs = [] -> let proto := dense_to_proto off [] in
  exists bins, stands_for place bins obs /\
    hash_order (binCounts proto) ++ contiguous_bins (contiguousBinIndexOffset proto) (contiguousBinCounts proto) ≡ₚ as_floats bins.
Proof using Hash_order. intros ->. exists []. split; [by split|]. cbn. by rewrite hash_order_empty. Qed.

Lemma elem_index_ok obs i : obs_ok obs -> i ∈ obs.*1 -> index_ok i.
Proof using. intros [Hf _] (o & -> & Ho)%list_elem_of_fmap. rewrite Forall_forall in Hf. by apply Hf. Qed.

#[export] Instance dense_proto_laws : StoreProtoLaws DenseStore (fun _ i => i) dense_rep hash_order.
Proof using Hash_order.
  split.
  - apply dense_rep_new.
  - intros s obs (Hok & Hc & [[Hn Hb]|(m & M & Hs & [Hle Hr Ho Hb Hin])]); cbn [store_to_proto DenseStore_proto].
    + rewrite Hb. by apply empty_writes.
    + rewrite Ho, Hb. apply dense_writes; [done|done|lia|lia|]. intros o Hi. apply Hin in Hi. unfold clamp. lia.
  - done.
  - apply elem_index_ok.
  - done.
Qed.

(** What the spans say of the stores with a bound, written and read. *)
Lemma spans_again f obs obs' : obs <> [] -> obs_ok obs -> obs_ok obs' -> (forall x y, x <= y -> f x <= f y) ->
  same_counts obs' (refold f obs) -> top obs' = f (top obs) /\ bottom obs' = f (bottom obs).
Proof using.
  intros Hne Hok Hok' Hf Hc. destruct (spans_ex obs Hne) as (m & M & Hs). destruct (spans_top _ _ _ Hok Hs) as [-> ->].
  apply (spans_top obs' (f m) (f M) Hok'). apply (spans_proper (refold f obs)); [|by apply obs_ok_pos|by symmetry|by apply spans_refold].
  apply Forall_fmap. eapply Forall_impl; [by apply obs_ok_pos|done].
Qed.

Lemma elem_bounds obs i : obs_ok obs -> i ∈ obs.*1 -> obs <> [] /\ bottom obs <= i <= top obs /\ - 2 ^ 29 <= bottom obs /\ top obs <= 2 ^ 29.
Proof using.
  intros Hok Hi. assert (Hne : obs <> []) by (intros ->; by apply not_elem_of_nil in Hi).
  destruct (spans_ex obs Hne) as (m & M & Hs). destruct (spans_index_ok _ _ _ Hok Hs) as [Hm HM]. unfold index_ok in *.
  destruct (spans_top _ _ _ Hok Hs) as [E1 E2]. pose proof (top_ge _ _ Hi). pose proof (bottom_le _ _ Hi). split; [done|lia].
Qed.

Lemma cap_2048 : cap_ok 2048.
Proof using. unfold cap_ok. lia. Qed.

#[export] Instance lowest_proto_laws : StoreProtoLaws CollapsingLowestDenseStore (place_lowest 2048) (lowest_rep false 2048) hash_order.
Proof using Hash_order.
  split.
  - split_and!; [apply rep_nil|done|done|by left].
  - intros s obs (Hok & Hc & Hx & [(Hn & Hb & _)|(m & M & Hs & [Hb Ho _ _])]); cbn [store_to_proto LowestStore_proto].
    + rewrite Hb. by apply empty_writes.
    + destruct (spans_top _ _ _ Hok Hs) as [Ht _]. pose proof (spans_le _ _ _ Hs). destruct (spans_index_ok _ _ _ Hok Hs). unfold index_ok in *.
      rewrite Ho, Hb. apply dense_writes; [done|unfold floor_of; lia..|]. intros o Hi. destruct Hs as [Hall _]. apply Hall in Hi.
      unfold place_lowest, clamp, floor_of. lia.
  - intros obs x y Hxy. unfold place_lowest. lia.
  - intros obs i Hok Hi. destruct (elem_bounds obs i Hok Hi) as (_ & Hb). unfold place_lowest, index_ok. lia.
  - intros obs obs' i Hok Hok' Hc Hi. destruct (elem_bounds obs i Hok Hi) as (Hne & Hb).
    destruct (spans_again (place_lowest 2048 obs) obs obs' Hne Hok Hok') as [Ht _]; [intros x y; unfold place_lowest; lia|done|].
    unfold place_lowest in *. lia.
Qed.

#[export] Instance highest_proto_laws : StoreProtoLaws CollapsingHighestDenseStore (place_highest 2048) (highest_rep false 2048) hash_order.
Proof using Hash_order.
  split.
  - split_and!; [apply rep_nil|done|done|by left].
  - intros s obs (Hok & Hc & Hx & [(Hn & Hb & _)|(m & M & Hs & [Hb Ho _ _])]); cbn [store_to_proto HighestStore_proto].
    + rewrite Hb. by apply empty_writes.
    + destruct (spans_top _ _ _ Hok Hs) as [_ Ht]. pose proof (spans_le _ _ _ Hs). destruct (spans_index_ok _ _ _ Hok Hs). unfold index_ok in *.
      rewrite Ho, Hb. apply dense_writes; [done|unfold ceiling_of; lia..|]. intros o Hi. destruct Hs as [Hall _]. apply Hall in Hi.
      unfold place_highest, clamp, ceiling_of. lia.
  - intros obs x y Hxy. unfold place_highest. lia.
  - intros obs i Hok Hi. destruct (elem_bounds obs i Hok Hi) as (_ & Hb). unfold place_highest, index_ok. lia.
  - intros obs obs' i Hok Hok' Hc Hi. destruct (elem_bounds obs i Hok Hi) as (Hne & Hb).
    destruct (spans_again (place_highest 2048 obs) obs obs' Hne Hok Hok') as [_ Ht]; [intros x y; unfold place_highest; lia|done|].
    unfold place_highest in *. lia.
Qed.

(** The sparse store writes the entries of its map. *)
Lemma sparse_writes (l : list Obs) (m : gmap Z f64) : NoDup l.*1 -> Forall (fun o => 0 < o.2) l -> (forall i, i ∈ l.*1 -> m !! i = None) ->
  map_to_list (foldl (fun m x => if 0 <? x.2 then <[x.1 := f64_of_Z x.2]> m else m) m l) ≡ₚ as_floats l ++ map_to_list m.
Proof using.
  revert m. induction l as [|[i c] l IH]; intros m Hnd Hp Hm; [done|]. csimpl in *.
  apply NoDup_cons in Hnd as [Hi Hnd]. apply Forall_cons in Hp as [Hc Hp]. cbn in Hc. cbn [foldl fst snd]. rewrite (proj2 (Z.ltb_lt 0 c)) by done.
  rewrite IH; [|done|done|].
  - rewrite map_to_list_insert by (apply Hm; left). by rewrite <- Permutation_middle.
  - intros j Hj. rewrite lookup_insert_ne by (intros ->; done). apply Hm. by right.
Qed.

#[export] Instance sparse_proto_laws : StoreProtoLaws SparseStore (fun _ i => i) sparse_rep hash_order.
Proof using Hash_order.
  split.
  - apply sparse_rep_new.
  - intros s obs (Hok & Hc & Hb). exists (btree_iter (s_bins s)). split.
    + split.
      * eapply Forall_impl; [by eapply btree_iter_pos|]. intros o Ho. cbn in Ho. lia.
      * rewrite (refold_id (fun i => i)) by done. by apply btree_iter_counts.
    + cbn [store_to_proto SparseStore_proto binCounts contiguousBinCounts contiguousBinIndexOffset contiguous_bins imap].
      rewrite app_nil_r, Hash_order, sparse_writes; [by rewrite map_to_list_empty, app_nil_r| |by eapply btree_iter_pos|intros i _; apply lookup_empty].
      rewrite btree_iter_perm. apply NoDup_fst_map_to_list.
  - done.
  - apply elem_index_ok.
  - done.
Qed.

End stores.

(** ** Mappings accept their own parameters *)

Section mappings.
Context `{FloatCmp} (Ratio_refl : forall x, is_nan x = false -> is_infinite x = false -> approx_eq_ratio x x RATIO_ERROR = true).

Lemma float_eq_refl x : is_infinite x = false -> float_eq x x = true.
Proof using Ratio_refl. intros Hx. unfold float_eq. destruct (is_nan x) eqn:E; [done|]. by rewrite Ratio_refl. Qed.

Lemma fixed_accepts_itself (m : FixedLogarithmicMapping) : validate_proto_mapping m (mapping_to_proto m) = Ok tt.
Proof using Ratio_refl. cbn -[float_eq]. by rewrite float_eq_refl. Qed.

Lemma logarithmic_accepts_itself (m : LogarithmicMapping) : is_infinite (l_gamma m) = false -> is_infinite (l_index_offset m) = false ->
  validate_proto_mapping m (mapping_to_proto m) = Ok tt.
Proof using Ratio_refl. intros Hg Ho. cbn -[float_eq]. by rewrite !float_eq_refl. Qed.

End mappings.

(** ** What is refused *)

(** A message that is accepted has a mapping that the receiver accepts, and no count in it is negative or has a
    fractional part. *)
Section accepted.
Context {M S : Type} `{!ProtoMapping M} `{!Store S} `{!StoreProto S} (hash_order : gmap Z f64 -> list (Z * f64)).
Context (Hash_order : forall m, hash_order m ≡ₚ map_to_list m).

Definition whole (count : f64) : Prop := f64_ltb count f64_zero = false /\ f64_eqb (f64_fract count) f64_zero = true.

Definition whole_counts (proto : option ProtoStore) : Prop :=
  match proto with
  | Some proto => Forall (fun x => whole x.2) (map_to_list (binCounts proto)) /\ Forall whole (contiguousBinCounts proto)
  | None => True
  end.

Lemma count_ok_whole i c n : validate_proto_count i c = Ok n -> whole c.
Proof using. unfold validate_proto_count, whole. by destruct (f64_ltb c f64_zero), (f64_eqb (f64_fract c) f64_zero). Qed.

Lemma add_counts_whole bins (s : S) r : add_proto_counts bins s = Some r -> r.2 = Ok tt -> Forall (fun x => whole x.2) bins.
Proof using.
  revert s. induction bins as [|[i c] bins IH]; intros s Hr He; cbn [add_proto_counts] in Hr; [constructor|].
  destruct (validate_proto_count i c) as [n|e] eqn:Hc; [|by injection Hr as <-].
  destruct (if 0 <? n then add i n s else Some s) as [s'|]; [|done]. cbn [mbind option_bind] in Hr.
  constructor; [by eapply count_ok_whole|by eapply IH].
Qed.

Lemma store_of_proto_whole proto (r : S * result ProtoConversionError unit) : store_of_proto hash_order proto = Some r -> r.2 = Ok tt -> whole_counts proto.
Proof using Hash_order.
  destruct proto as [proto|]; [|done]. unfold store_of_proto, merge_from_proto. rewrite <- add_counts_app. intros Hr He.
  apply add_counts_whole in Hr as [H1 H2]%Forall_app; [|done]. rewrite Hash_order in H1. split; [done|].
  apply Forall_forall. intros c [i Hi]%list_elem_of_lookup. rewrite Forall_forall in H2.
  apply (H2 (i32_add (contiguousBinIndexOffset proto) (i32_of_usize i), c)). apply elem_of_lookup_imap. by exists i, c.
Qed.

Theorem accepted_messages proto (m : M) (sk : DDSketch M S) : from_proto hash_order proto m = Some (Ok sk) ->
  (exists pm, pb_mapping proto = Some pm /\ validate_proto_mapping m pm = Ok tt) /\ mapping sk = m /\
  whole (pb_zeroCount proto) /\ zero_count sk = f64_to_u64 (pb_zeroCount proto) /\
  whole_counts (pb_positiveValues proto) /\ whole_counts (pb_negativeValues proto).
Proof using Hash_order.
  unfold from_proto. destruct (pb_mapping proto) as [pm|]; [|done]. destruct (validate_proto_mapping m pm) as [[]|] eqn:Ev; [|done].
  unfold zero_count_of_proto. destruct (f64_ltb (pb_zeroCount proto) f64_zero) eqn:E1; [done|].
  destruct (f64_eqb (f64_fract (pb_zeroCount proto)) f64_zero) eqn:E2; [|done]. cbn [negb].
  destruct (store_of_proto hash_order (pb_positiveValues proto)) as [[p [[]|]]|] eqn:Ep; cbn [mbind option_bind snd]; [|done..].
  destruct (store_of_proto hash_order (pb_negativeValues proto)) as [[n [[]|]]|] eqn:En; cbn [mbind option_bind snd fst]; [|done..].
  intros [= <-]. split; [by exists pm|]. split; [done|]. split; [by split|]. split; [done|]. split; by eapply store_of_proto_whole.
Qed.

End accepted.

(** ** Witnesses and examples *)

Module CanonicalProtoSamples.
Import CanonicalSamples.

(** Equal numbers are equal to any ratio. *)
#[export] Instance exact_cmp : FloatCmp := {| approx_eq_ratio := fun x y _ => f64_eqb x y |}.

Lemma exact_refl x : is_nan x = false -> is_infinite x = false -> approx_eq_ratio x x RATIO_ERROR = true.
Proof. intros Hx _. apply f64_eqb_refl. by intros ->. Qed.

Lemma map_order (m : gmap Z f64) : map_to_list m ≡ₚ map_to_list m.
Proof. done. Qed.

Lemma sketch_round_trip_witness : valid_script fixed script /\
  exists sk sk', run_sketch fixed (store_default (S := CollapsingLowestDenseStore)) script = Some sk /\
    from_proto (S := CollapsingLowestDenseStore) map_to_list (to_proto sk) fixed = Some (Ok sk') /\ quantile f64_one sk' = quantile f64_one sk.
Proof.
  split; [exact script_valid|].
  destruct (@sketch_round_trip _ _ _ _ _ _ (place_lowest 2048) (lowest_rep false 2048) map_to_list (lowest_laws 2048 cap_2048)
    (lowest_proto_laws map_to_list map_order) fixed script script_valid ltac:(vm_compute; discriminate) (fixed_accepts_itself exact_refl fixed))
    as (sk & sk' & Hr & Hp & _ & Hq).
  exists sk, sk'. split; [exact Hr|]. split; [exact Hp|apply Hq].
Defined.

(** The message of a dense store, and a count that is not whole. *)
Definition sample_store : option ProtoStore := s ← DenseStore_add 4 3 DenseStore_new; s ← DenseStore_add 6 1 s; Some (store_to_proto s).

Definition sample_message (zero : f64) (mapping : ProtoIndexMapping) : ProtoDDSketch :=
  {| pb_mapping := Some mapping; pb_positiveValues := sample_store; pb_negativeValues := None; pb_zeroCount := zero |}.

Abbreviation read proto := (from_proto (S := DenseStore) map_to_list proto fixed).

Example sample_is_read :
  read (sample_message f64_one (mapping_to_proto fixed)) = Some (Ok {| mapping := fixed;
    positive_store := {| d_bins := [3; 0; 1]; d_offset := 4; d_count := 4 |}; negative_store := DenseStore_new; zero_count := 1 |}).
Proof. vm_compute. reflexivity. Qed.

Example fractions_are_refused :
  read (sample_message (f64_scale 3 (-1)) (mapping_to_proto fixed)) = Some (Err (NonIntegerZeroCount (f64_scale 3 (-1)))) /\
  read (sample_message S754_nan (mapping_to_proto fixed)) = Some (Err (NonIntegerZeroCount S754_nan)).
Proof. split; vm_compute; reflexivity. Qed.

Lemma accepted_messages_witness : exists sk, read (sample_message f64_one (mapping_to_proto fixed)) = Some (Ok sk) /\ zero_count sk = 1.
Proof.
  eexists. split; [exact sample_is_read|]. destruct (accepted_messages map_to_list map_order _ _ _ sample_is_read) as (_ & _ & _ & Hz & _).
  rewrite Hz. vm_compute. reflexivity.
Defined.

(** An interpolation that no variant stands for is taken for none. *)
Example unknown_interpolation_is_accepted :
  is_ok (validate_proto_mapping fixed {| pb_gamma := GAMMA; pb_indexOffset := f64_zero; pb_interpolation := 7 |}) = true /\
  validate_proto_mapping fixed {| pb_gamma := GAMMA; pb_indexOffset := f64_zero; pb_interpolation := 3 |} = Err (UnsupportedInterpolation 3).
Proof. split; vm_compute; reflexivity. Qed.

(** The error of an offset that does not match says that it is not zero, even when it is. *)
Example zero_offset_is_reported_as_nonzero :
  validate_proto_mapping {| l_gamma := GAMMA; l_index_offset := f64_one; l_multiplier := MULTIPLIER |}
    {| pb_gamma := GAMMA; pb_indexOffset := f64_zero; pb_interpolation := 0 |} = Err (NonZeroIndexOffset f64_zero).
Proof. vm_compute. reflexivity. Qed.

(** Past [2^53], the message holds another count. *)
Example large_counts_are_rounded : validate_proto_count 0 (f64_of_Z (2 ^ 53 + 1)) = Ok (2 ^ 53).
Proof. vm_compute. reflexivity. Qed.

Example default_stores : LowestStore_new 2048 = Some LowestStore_default /\ HighestStore_new 2048 = Some HighestStore_default.
Proof. done. Qed.

End CanonicalProtoSamples.
