(* ===== verification/RequestBuilder.v ===== *)
(** * The request builder

    [saluki-components/src/common/datadog/request_builder.rs] and the estimator of
    [saluki-io/src/compression.rs].  Inputs are encoded one after the other into a compressed payload,
    between a prefix and a suffix and with separators, as long as the payload stays within its limits;
    [flush] makes an HTTP request of it, and splits a payload that turns out too large when compressed.

    What depends on the endpoint is the class [EndpointEncoder], the compression library is
    [Compression], and the HTTP library [HttpBuilder].  Lengths are lengths of buffers in memory, which
    add up without overflow. *)

From Stdlib Require Import ZArith Lia Strings.String Floats.SpecFloat.
From stdpp Require Import base tactics list numbers gmap.
From S2P Require Import Prelude Bytes Float64.
Open Scope Z_scope.

(** ** Parameters *)

(** The trait [EndpointEncoder]: the encoded form of an input, and the framing and limits. *)
Class EndpointEncoder (Input EncodeError : Type) := {
  compressed_size_limit : Z;
  uncompressed_size_limit : Z;
  input_data_point_count : Input -> Z;
  is_valid_input : Input -> bool;
  payload_prefix : option bytes;
  payload_suffix : option bytes;
  input_separator : option bytes;
  encode_input : Input -> result EncodeError bytes;
  endpoint_uri : bytes;
  endpoint_method : bytes;
  content_type : bytes;
  additional_headers : list (bytes * bytes);
}.

(** A compressor of [async_compression] that writes to a buffer in memory: [total_written] is what it
    has put out so far, [finish] is [flush], [shutdown] and [into_inner]. *)
Class Compression (IoError : Type) := {
  compressor : Type;
  create_compressor : compressor;
  write_all : bytes -> compressor -> result IoError compressor;
  total_written : compressor -> Z;
  comp_flush : compressor -> result IoError compressor;
  comp_shutdown : compressor -> result IoError compressor;
  into_inner : compressor -> bytes;
  content_encoding : option bytes;
}.

(** What it is used for: the output decompresses to what was written, and writing to memory does not
    fail. *)
Class CompressionLaws (IoError : Type) `{Compression IoError} := {
  written : compressor -> bytes;
  decompress : bytes -> option bytes;
  written_new : written create_compressor = [];
  write_law : forall bs c, exists c', write_all bs c = Ok c' /\ written c' = written c ++ bs;
  finish_law : forall c, exists c1 c2, comp_flush c = Ok c1 /\ comp_shutdown c1 = Ok c2 /\ decompress (into_inner c2) = Some (written c);
}.

(** The head of a request, and whether the HTTP library takes it. *)
Record RequestHead := { method : bytes; uri : bytes; headers : list (bytes * bytes) }.
Class HttpBuilder (HttpError : Type) := { build_error : RequestHead -> option HttpError }.
Record Request := { head : RequestHead; body : bytes }.

Definition CONTENT_TYPE : bytes := b "content-type".
Definition CONTENT_ENCODING : bytes := b "content-encoding".

(** ** The estimator *)

Definition THRESHOLD_RED_ZONE : f64 := f64_scale 4458563631096791 (-52).

Record CompressionEstimator := {
  in_flight_uncompressed_len : Z;
  total_uncompressed_len : Z;
  total_compressed_len : Z;
  current_compression_ratio : f64;
}.

Definition estimator_reset : CompressionEstimator :=
  {| in_flight_uncompressed_len := 0; total_uncompressed_len := 0; total_compressed_len := 0; current_compression_ratio := f64_zero |}.

(** [compressed_len] is what the compressor has written. *)
Definition track_write (compressed_len uncompressed_len : Z) (e : CompressionEstimator) : CompressionEstimator :=
  let total_uncompressed := total_uncompressed_len e + uncompressed_len in
  if 0 <? u64_sub compressed_len (total_compressed_len e) then
    {| in_flight_uncompressed_len := 0; total_uncompressed_len := total_uncompressed; total_compressed_len := compressed_len;
       current_compression_ratio := f64_div (f64_of_Z compressed_len) (f64_of_Z total_uncompressed) |}
  else
    {| in_flight_uncompressed_len := in_flight_uncompressed_len e + uncompressed_len; total_uncompressed_len := total_uncompressed;
       total_compressed_len := total_compressed_len e; current_compression_ratio := current_compression_ratio e |}.

Definition estimated_len (e : CompressionEstimator) : Z :=
  total_compressed_len e + f64_to_u64 (f64_mul (f64_of_Z (in_flight_uncompressed_len e)) (current_compression_ratio e)).

Definition would_write_exceed_threshold (len threshold : Z) (e : CompressionEstimator) : bool :=
  if total_compressed_len e =? 0 then false
  else f64_to_u64 (f64_mul (f64_of_Z threshold) THRESHOLD_RED_ZONE) <? estimated_len e + len.

(** ** The builder *)

Section builder.
Context {Input EncodeError IoError HttpError : Type}.
Context `{EndpointEncoder Input EncodeError} `{Compression IoError} `{HttpBuilder HttpError}.

Inductive RequestBuilderError :=
| UncompressedSizeLimitTooLow (limit prefix_len suffix_len : Z)
| InputExceedsUncompressedLimit (encoded_len limit : Z)
| InvalidInput (input : Input)
| InputExceedsDataPointLimit (data_point_count data_point_limit : Z)
| FailedToEncode (source : EncodeError)
| PayloadTooLarge (compressed_size_bytes compressed_limit_bytes : Z)
| IoFailed (source : IoError)
| HttpFailed (source : HttpError).

Definition is_recoverable (e : RequestBuilderError) : bool := match e with PayloadTooLarge _ _ => true | _ => false end.

Inductive InputFraming := Prefix (bs : bytes) | Separator (bs : bytes).
Definition framing_bytes (f : InputFraming) : bytes := match f with Prefix bs | Separator bs => bs end.
Definition counts_towards_uncompressed_len (f : InputFraming) : bool := match f with Separator _ => true | Prefix _ => false end.

Record RequestBuilder := {
  rb_compressor : compressor;
  compression_estimator : CompressionEstimator;
  rb_uncompressed_len : Z;
  uncompressed_len_prefix_suffix : Z;
  compressed_len_limit : Z;
  uncompressed_len_limit : Z;
  max_inputs_per_payload : Z;
  max_data_points_per_payload : Z;
  encoded_data_points : Z;
  encoded_inputs : list Input;
}.

Definition blen (bs : bytes) : Z := Z.of_nat (length bs).
Definition opt_len (o : option bytes) : Z := match o with Some bs => blen bs | None => 0 end.

Definition validate_uncompressed_len_limit (limit : Z) : result RequestBuilderError Z :=
  let prefix_len := opt_len payload_prefix in
  let suffix_len := opt_len payload_suffix in
  if limit <? prefix_len + suffix_len + 1 then Err (UncompressedSizeLimitTooLow limit prefix_len suffix_len)
  else Ok (prefix_len + suffix_len).

Definition RequestBuilder_new : result RequestBuilderError RequestBuilder :=
  n ← validate_uncompressed_len_limit uncompressed_size_limit;
  Ok {| rb_compressor := create_compressor; compression_estimator := estimator_reset; rb_uncompressed_len := 0;
        uncompressed_len_prefix_suffix := n; compressed_len_limit := compressed_size_limit; uncompressed_len_limit := uncompressed_size_limit;
        max_inputs_per_payload := u64_max; max_data_points_per_payload := u64_max; encoded_data_points := 0; encoded_inputs := [] |}.

Definition set_payload (c : compressor) (e : CompressionEstimator) (len : Z) (rb : RequestBuilder) : RequestBuilder :=
  {| rb_compressor := c; compression_estimator := e; rb_uncompressed_len := len;
     uncompressed_len_prefix_suffix := uncompressed_len_prefix_suffix rb; compressed_len_limit := compressed_len_limit rb;
     uncompressed_len_limit := uncompressed_len_limit rb; max_inputs_per_payload := max_inputs_per_payload rb;
     max_data_points_per_payload := max_data_points_per_payload rb; encoded_data_points := encoded_data_points rb; encoded_inputs := encoded_inputs rb |}.

Definition set_inputs (points : Z) (inputs : list Input) (rb : RequestBuilder) : RequestBuilder :=
  {| rb_compressor := rb_compressor rb; compression_estimator := compression_estimator rb; rb_uncompressed_len := rb_uncompressed_len rb;
     uncompressed_len_prefix_suffix := uncompressed_len_prefix_suffix rb; compressed_len_limit := compressed_len_limit rb;
     uncompressed_len_limit := uncompressed_len_limit rb; max_inputs_per_payload := max_inputs_per_payload rb;
     max_data_points_per_payload := max_data_points_per_payload rb; encoded_data_points := points; encoded_inputs := inputs |}.

Definition set_limits (uncompressed compressed max_inputs max_points : Z) (rb : RequestBuilder) : RequestBuilder :=
  {| rb_compressor := rb_compressor rb; compression_estimator := compression_estimator rb; rb_uncompressed_len := rb_uncompressed_len rb;
     uncompressed_len_prefix_suffix := uncompressed_len_prefix_suffix rb; compressed_len_limit := compressed;
     uncompressed_len_limit := uncompressed; max_inputs_per_payload := max_inputs;
     max_data_points_per_payload := max_points; encoded_data_points := encoded_data_points rb; encoded_inputs := encoded_inputs rb |}.

Definition with_max_inputs_per_payload (m : Z) (rb : RequestBuilder) : RequestBuilder :=
  set_limits (uncompressed_len_limit rb) (compressed_len_limit rb) m (max_data_points_per_payload rb) rb.
Definition with_max_data_points_per_payload (m : Z) (rb : RequestBuilder) : RequestBuilder :=
  set_limits (uncompressed_len_limit rb) (compressed_len_limit rb) (max_inputs_per_payload rb) m rb.
Definition with_len_limits (uncompressed compressed : Z) (rb : RequestBuilder) : result RequestBuilderError RequestBuilder :=
  _ ← validate_uncompressed_len_limit uncompressed;
  Ok (set_limits uncompressed compressed (max_inputs_per_payload rb) (max_data_points_per_payload rb) rb).

Definition uncompressed_len (rb : RequestBuilder) : Z := rb_uncompressed_len rb + uncompressed_len_prefix_suffix rb.

Definition next_input_framing (rb : RequestBuilder) : option InputFraming :=
  if rb_uncompressed_len rb =? 0 then Prefix <$> payload_prefix else Separator <$> input_separator.

Definition counted_len (f : option InputFraming) : Z :=
  match f with Some f => if counts_towards_uncompressed_len f then blen (framing_bytes f) else 0 | None => 0 end.
Definition framing_len (f : option InputFraming) : Z := match f with Some f => blen (framing_bytes f) | None => 0 end.

Definition would_exceed_limits (framing : option InputFraming) (encoded_len : Z) (rb : RequestBuilder) : bool :=
  (uncompressed_len_limit rb <? uncompressed_len rb + counted_len framing + encoded_len)
  || would_write_exceed_threshold (framing_len framing + encoded_len) (compressed_len_limit rb) (compression_estimator rb).

(** [write_framing] and [flush_scratch_buffer]; [counted] says whether the length is updated. *)
Definition write_bytes (bs : bytes) (counted : bool) (rb : RequestBuilder) : result IoError RequestBuilder :=
  c ← write_all bs (rb_compressor rb);
  Ok (set_payload c (track_write (total_written c) (blen bs) (compression_estimator rb))
        (if counted then rb_uncompressed_len rb + blen bs else rb_uncompressed_len rb) rb).

Definition take_payload_compressor (rb : RequestBuilder) : compressor * RequestBuilder :=
  (rb_compressor rb, set_payload create_compressor estimator_reset 0 rb).

(** A failed write leaves the builder with what it had before that write. *)
Definition encode_inner (input : Input) (rb : RequestBuilder) : result RequestBuilderError bool * RequestBuilder :=
  match encode_input input with
  | Err e => (Err (FailedToEncode e), rb)
  | Ok scratch =>
      let encoded_len := blen scratch in
      if uncompressed_len_limit rb <? encoded_len then (Err (InputExceedsUncompressedLimit encoded_len (uncompressed_len_limit rb)), rb)
      else
        let framing := next_input_framing rb in
        if would_exceed_limits framing encoded_len rb then (Ok false, rb)
        else
          match (match framing with
                 | Some f => write_bytes (framing_bytes f) (counts_towards_uncompressed_len f) rb
                 | None => Ok rb
                 end) with
          | Err e => (Err (IoFailed e), rb)
          | Ok rb1 =>
              match write_bytes scratch true rb1 with
              | Err e => (Err (IoFailed e), rb1)
              | Ok rb2 => (Ok true, rb2)
              end
          end
  end.

(** [Ok (Some input)] gives the input back. *)
Definition encode (input : Input) (rb : RequestBuilder) : result RequestBuilderError (option Input) * RequestBuilder :=
  if negb (is_valid_input input) then (Err (InvalidInput input), rb)
  else
    let points := input_data_point_count input in
    if max_data_points_per_payload rb <? points then (Err (InputExceedsDataPointLimit points (max_data_points_per_payload rb)), rb)
    else if max_inputs_per_payload rb <=? Z.of_nat (length (encoded_inputs rb)) then (Ok (Some input), rb)
    else if (0 <? encoded_data_points rb) && (max_data_points_per_payload rb <? u64_saturating_add (encoded_data_points rb) points) then
      (Ok (Some input), rb)
    else
      match encode_inner input rb with
      | (Err e, rb) => (Err e, rb)
      | (Ok true, rb) => (Ok None, set_inputs (u64_add (encoded_data_points rb) points) (encoded_inputs rb ++ [input]) rb)
      | (Ok false, rb) => (Ok (Some input), rb)
      end.

Definition clear_encoded_inputs (rb : RequestBuilder) : Z * RequestBuilder :=
  (Z.of_nat (length (encoded_inputs rb)), set_inputs 0 [] rb).

Definition encoded_data_point_count (inputs : list Input) : Z := sumZ input_data_point_count inputs.

(** The uncompressed length and the compressed payload. *)
Definition flush_inner (rb : RequestBuilder) : result RequestBuilderError (Z * bytes) * RequestBuilder :=
  match (match payload_suffix with Some suffix => write_bytes suffix false rb | None => Ok rb end) with
  | Err e => (Err (IoFailed e), rb)
  | Ok rb =>
      let len := uncompressed_len rb in
      let '(c, rb) := take_payload_compressor rb in
      match comp_flush c with
      | Err e => (Err (IoFailed e), (clear_encoded_inputs rb).2)
      | Ok c =>
          match comp_shutdown c with
          | Err e => (Err (IoFailed e), (clear_encoded_inputs rb).2)
          | Ok c => (Ok (len, into_inner c), rb)
          end
      end
  end.

Definition create_request (buffer : bytes) : result RequestBuilderError Request :=
  let h := {| method := endpoint_method; uri := endpoint_uri;
              headers := (CONTENT_TYPE, content_type) :: option_list ((fun e => (CONTENT_ENCODING, e)) <$> content_encoding) ++ additional_headers |} in
  match build_error h with
  | Some e => Err (HttpFailed e)
  | None => Ok {| head := h; body := buffer |}
  end.

(** What [flush] returns for a payload: the number of inputs and of data points, and the request. *)
Abbreviation Flushed := (result RequestBuilderError (Z * Z * Request)).

Fixpoint encode_all (inputs : list Input) (rb : RequestBuilder) : result RequestBuilderError bool * RequestBuilder :=
  match inputs with
  | [] => (Ok true, rb)
  | input :: inputs' =>
      match encode_inner input rb with
      | (Ok true, rb) => encode_all inputs' rb
      | (r, rb) => (r, (take_payload_compressor rb).2)
      end
  end.

Definition try_split_request (inputs : list Input) (rb : RequestBuilder) : option Flushed * RequestBuilder :=
  match encode_all inputs rb with
  | (Ok false, rb) => (None, rb)
  | (Err e, rb) => (Some (Err e), rb)
  | (Ok true, rb) =>
      match flush_inner rb with
      | (Err e, rb) => (Some (Err e), rb)
      | (Ok (len, buffer), rb) =>
          if uncompressed_len_limit rb <? len then (None, rb)
          else if compressed_len_limit rb <? blen buffer then (Some (Err (PayloadTooLarge (blen buffer) (compressed_len_limit rb))), rb)
          else (Some ((fun req => (Z.of_nat (length inputs), encoded_data_point_count inputs, req)) <$> create_request buffer), rb)
      end
  end.

Definition split_request (rb : RequestBuilder) : list Flushed * RequestBuilder :=
  match encoded_inputs rb with
  | [] => ([], rb)
  | inputs =>
      let rb := set_inputs 0 [] rb in
      let pivot := (length inputs / 2)%nat in
      let '(first, rb) := try_split_request (take pivot inputs) rb in
      let '(second, rb) := try_split_request (drop pivot inputs) rb in
      (option_list first ++ option_list second, set_inputs (encoded_data_points rb) [] rb)
  end.

Definition flush (rb : RequestBuilder) : list Flushed * RequestBuilder :=
  match encoded_inputs rb with
  | [] => ([], rb)
  | inputs =>
      match flush_inner rb with
      | (Err e, rb) => ([Err e], rb)
      | (Ok (_, buffer), rb) =>
          if compressed_len_limit rb <? blen buffer then
            if (length (encoded_inputs rb) =? 1)%nat then
              ([Err (PayloadTooLarge (blen buffer) (compressed_len_limit rb))], (clear_encoded_inputs rb).2)
            else split_request rb
          else
            let points := encoded_data_point_count (encoded_inputs rb) in
            let '(inputs_written, rb) := clear_encoded_inputs rb in
            ([(fun req => (inputs_written, points, req)) <$> create_request buffer], rb)
      end
  end.
End builder.
