(* ===== verification/RequestBuilderProofs.v ===== *)
(** * What the requests of the builder contain

    The builder is a list of pending inputs: its compressed payload is what encoding them one after the
    other into an empty payload gives.  A flush turns the pending inputs into one request, or two, each
    of which decompresses to the framed encodings of its inputs and is within the limits. *)

From Stdlib Require Import ZArith Lia Strings.String Floats.SpecFloat.
From stdpp Require Import base tactics list numbers gmap.
From S2P Require Import Prelude Bytes Float64 RequestBuilder.
Open Scope Z_scope.

Section builder.
Context {Input EncodeError IoError HttpError : Type}.
Context `{EndpointEncoder Input EncodeError} `{CompressionLaws IoError} `{HttpBuilder HttpError}.
(** An encoded input is not empty, and the HTTP library takes the heads that are made here. *)
Context (encoded_nonempty : forall input bs, encode_input input = Ok bs -> bs <> [])
        (http_accepts : forall h, build_error h = None)
        (points_nonneg : forall input, 0 <= input_data_point_count input).

Abbreviation RB := (@RequestBuilder Input IoError _).
Abbreviation RBError := (@RequestBuilderError Input EncodeError IoError HttpError).
Abbreviation enc := (@encode Input EncodeError IoError HttpError _ _).
Abbreviation enc_inner := (@encode_inner Input EncodeError IoError HttpError _ _).
Abbreviation enc_all := (@encode_all Input EncodeError IoError HttpError _ _).
Abbreviation fl := (@flush Input EncodeError IoError HttpError _ _ _).

(** ** Specification *)

(** The encodings with separators, and the whole payload. *)
Definition joined (encs : list bytes) : bytes :=
  match encs with
  | [] => []
  | e :: es => e ++ mjoin ((fun x => default [] input_separator ++ x) <$> es)
  end.
Definition opened (encs : list bytes) : bytes := match encs with [] => [] | _ => default [] payload_prefix ++ joined encs end.
Definition payload (encs : list bytes) : bytes := default [] payload_prefix ++ joined encs ++ default [] payload_suffix.

Definition encodings (inputs : list Input) (encs : list bytes) : Prop := Forall2 (fun i bs => encode_input i = Ok bs) inputs encs.

(** A request that carries [inputs]. *)
Record carries (rb : RB) (inputs : list Input) (count points : Z) (req : Request) : Prop := {
  ca_count : count = Z.of_nat (length inputs);
  ca_points : points = encoded_data_point_count inputs;
  ca_body : exists encs, encodings inputs encs /\ decompress (body req) = Some (payload encs) /\ blen (payload encs) <= uncompressed_len_limit rb;
  ca_compressed : blen (body req) <= compressed_len_limit rb;
  ca_inputs : Z.of_nat (length inputs) <= max_inputs_per_payload rb;
  ca_max_points : max_data_points_per_payload rb < u64_max -> points <= max_data_points_per_payload rb;
}.

(** What becomes of the inputs of a payload: they are sent, or the payload is reported as too large. *)
Inductive outcome (rb : RB) (inputs : list Input) : result RBError (Z * Z * Request) -> Prop :=
| Sent count points req : carries rb inputs count points req -> outcome rb inputs (Ok (count, points, req))
| TooLarge size : compressed_len_limit rb < size -> outcome rb inputs (Err (PayloadTooLarge size (compressed_len_limit rb))).

(** The builder without its payload and its inputs. *)
Definition emptied (rb : RB) : RB := set_inputs 0 [] (take_payload_compressor rb).2.

(** The states between calls: limits that allow for the framing, and a payload that is made of the
    pending inputs. *)
Record rb_ok (rb : RB) : Prop := {
  ok_framing : uncompressed_len_prefix_suffix rb = opt_len payload_prefix + opt_len payload_suffix;
  ok_payload : enc_all (encoded_inputs rb) (emptied rb) = (Ok true, set_inputs 0 [] rb);
  ok_inputs : Z.of_nat (length (encoded_inputs rb)) <= max_inputs_per_payload rb;
  ok_limits : 0 <= max_data_points_per_payload rb;
  ok_points : max_data_points_per_payload rb < u64_max ->
    encoded_data_points rb = encoded_data_point_count (encoded_inputs rb) /\ encoded_data_points rb <= max_data_points_per_payload rb;
  ok_idle : encoded_inputs rb = [] -> encoded_data_points rb = 0;
}.

(** ** Lemmas on payloads *)

Lemma blen_app (x y : bytes) : blen (x ++ y) = blen x + blen y.
Proof. unfold blen. rewrite length_app. lia. Qed.

Lemma blen_nonneg (x : bytes) : 0 <= blen x.
Proof. unfold blen. lia. Qed.

Lemma opt_len_default o : opt_len o = blen (default [] o).
Proof. by destruct o. Qed.

Lemma blen_zero (x : bytes) : blen x = 0 -> x = [].
Proof. unfold blen. destruct x; [done|]. cbn. lia. Qed.

Lemma joined_snoc encs x : encs <> [] -> joined (encs ++ [x]) = joined encs ++ default [] input_separator ++ x.
Proof.
  destruct encs as [|e es]; [done|]. intros _. cbn [app joined]. rewrite fmap_app, join_app, app_assoc. f_equal.
  cbn. by rewrite app_nil_r.
Qed.

Lemma joined_nonempty encs : Forall (fun bs => bs <> []) encs -> encs <> [] -> 0 < blen (joined encs).
Proof.
  destruct encs as [|e es]; [done|]. intros [He _]%Forall_cons _. cbn [joined]. rewrite blen_app.
  pose proof (blen_nonneg (mjoin ((fun x => default [] input_separator ++ x) <$> es))). unfold blen in *. destruct e; [done|]. cbn [length]. lia.
Qed.

(** [encs] is what the payload of [rb] has in it. *)
Record holds (rb : RB) (encs : list bytes) : Prop := {
  ho_written : written (rb_compressor rb) = opened encs;
  ho_len : rb_uncompressed_len rb = blen (joined encs);
  ho_nonempty : Forall (fun bs => bs <> []) encs;
  ho_limit : encs <> [] -> blen (payload encs) <= uncompressed_len_limit rb;
}.

Lemma write_bytes_ok bs counted (rb : RB) :
  exists c, write_bytes bs counted rb = Ok (set_payload c (track_write (total_written c) (blen bs) (compression_estimator rb))
    (if counted then rb_uncompressed_len rb + blen bs else rb_uncompressed_len rb) rb) /\ written c = written (rb_compressor rb) ++ bs.
Proof. unfold write_bytes. destruct (write_law bs (rb_compressor rb)) as (c & -> & Hw). by exists c. Qed.

Lemma encode_inner_holds rb input encs rb' :
  uncompressed_len_prefix_suffix rb = opt_len payload_prefix + opt_len payload_suffix ->
  holds rb encs -> enc_inner input rb = (Ok true, rb') ->
  exists bs, encode_input input = Ok bs /\ holds rb' (encs ++ [bs]).
Proof.
  intros Hps [Hw Hl Hne Hlim]. unfold encode_inner. destruct (encode_input input) as [bs|] eqn:E; [|done].
  pose proof (encoded_nonempty _ _ E) as Hbs. destruct (_ <? blen bs); [done|].
  destruct (would_exceed_limits _ _ _) eqn:Ex; [done|]. unfold would_exceed_limits in Ex. apply orb_false_iff in Ex as [Hx _]. apply Z.ltb_ge in Hx.
  unfold uncompressed_len, next_input_framing, counted_len in *. rewrite Hps, !opt_len_default in *.
  set (fr := default [] payload_prefix) in *. set (sf := default [] payload_suffix) in *.
  assert (Hfr : forall f, exists rb1, (match f with Some f => write_bytes (framing_bytes f) (counts_towards_uncompressed_len f) rb | None => Ok rb end) = Ok rb1 /\
    written (rb_compressor rb1) = written (rb_compressor rb) ++ match f with Some f => framing_bytes f | None => [] end /\
    rb_uncompressed_len rb1 = rb_uncompressed_len rb + match f with Some f => if counts_towards_uncompressed_len f then blen (framing_bytes f) else 0 | None => 0 end /\
    uncompressed_len_limit rb1 = uncompressed_len_limit rb).
  { intros [f|]; [|exists rb; rewrite app_nil_r, Z.add_0_r; done]. destruct (write_bytes_ok (framing_bytes f) (counts_towards_uncompressed_len f) rb) as (c & -> & Hc).
    eexists. split; [reflexivity|]. cbn. split; [done|]. split; [by destruct (counts_towards_uncompressed_len f); [|lia]|done]. }
  match goal with |- context [match ?f with Some _ => _ | None => Ok rb end] => set (framing := f) in *; destruct (Hfr framing) as (rb1 & -> & Hw1 & Hl1 & Hlim1) end.
  destruct (write_bytes_ok bs true rb1) as (c & -> & Hc). intros [= <-]. exists bs. split; [done|].
  rewrite Hw in Hw1. rewrite Hl in Hl1, Hx.
  destruct (decide (encs = [])) as [->|Hencs].
  - change (blen (joined [])) with 0 in *. cbn [opened app] in Hw1.
    assert (Hf : match framing with Some f => framing_bytes f | None => [] end = fr /\
                 match framing with Some f => if counts_towards_uncompressed_len f then blen (framing_bytes f) else 0 | None => 0 end = 0)
      by (subst framing fr; rewrite Hl; by destruct payload_prefix).
    destruct Hf as [Hf1 Hf2]. rewrite Hf1 in Hw1. rewrite Hf2 in Hl1, Hx.
    split; cbn [rb_compressor rb_uncompressed_len set_payload app]; unfold opened, payload, joined; cbn [fmap list_fmap mjoin list_join]; rewrite ?app_nil_r.
    + rewrite Hc, Hw1. done.
    + lia.
    + repeat constructor. done.
    + intros _. cbn. rewrite Hlim1. fold fr sf. rewrite !blen_app. lia.
  - pose proof (joined_nonempty _ Hne Hencs) as Hpos.
    assert (Hf : match framing with Some f => framing_bytes f | None => [] end = default [] input_separator /\
                 match framing with Some f => if counts_towards_uncompressed_len f then blen (framing_bytes f) else 0 | None => 0 end = blen (default [] input_separator)).
    { subst framing. rewrite Hl, (proj2 (Z.eqb_neq _ 0)) by lia. by destruct input_separator. }
    destruct Hf as [Hf1 Hf2]. rewrite Hf1 in Hw1. rewrite Hf2 in Hl1, Hx.
    assert (Hop : opened encs = fr ++ joined encs) by by destruct encs.
    assert (Hop' : opened (encs ++ [bs]) = fr ++ joined (encs ++ [bs])) by by destruct encs.
    split; cbn [rb_compressor rb_uncompressed_len set_payload].
    + rewrite Hc, Hw1, Hop, Hop', joined_snoc by done. by rewrite !app_assoc.
    + rewrite joined_snoc, !blen_app by done. lia.
    + apply Forall_app. split; [done|]. repeat constructor. done.
    + intros _. cbn. rewrite Hlim1. unfold payload. fold fr sf. rewrite joined_snoc, !blen_app by done. lia.
Qed.

(** ** Encoding does not look at the inputs, and fails without an effect *)

Lemma encode_inner_set_inputs input points inputs (rb : RB) :
  enc_inner input (set_inputs points inputs rb) = (let '(r, rb') := enc_inner input rb in (r, set_inputs points inputs rb')).
Proof.
  unfold encode_inner. destruct (encode_input input) as [bs|]; [|done]. cbn [uncompressed_len_limit set_inputs].
  destruct (_ <? blen bs); [done|].
  change (would_exceed_limits (next_input_framing (set_inputs points inputs rb)) (blen bs) (set_inputs points inputs rb))
    with (would_exceed_limits (next_input_framing rb) (blen bs) rb).
  change (next_input_framing (set_inputs points inputs rb)) with (next_input_framing rb).
  destruct (would_exceed_limits _ _ _); [done|].
  assert (Hwb : forall x counted (r : RB), write_bytes x counted (set_inputs points inputs r) = (fun r' => set_inputs points inputs r') <$> write_bytes x counted r).
  { intros x counted r. unfold write_bytes. cbn [rb_compressor set_inputs]. by destruct (write_all x (rb_compressor r)). }
  destruct (next_input_framing rb) as [f|].
  - rewrite Hwb. destruct (write_bytes (framing_bytes f) _ rb) as [rb1|]; [|done]. cbn [fmap result_fmap].
    rewrite Hwb. by destruct (write_bytes bs true rb1).
  - rewrite Hwb. by destruct (write_bytes bs true rb).
Qed.

Lemma encode_all_set_inputs inputs points pending (rb : RB) :
  enc_all inputs (set_inputs points pending rb) = (let '(r, rb') := enc_all inputs rb in (r, set_inputs points pending rb')).
Proof.
  revert rb. induction inputs as [|input inputs IH]; intros rb; [done|]. cbn [encode_all]. rewrite encode_inner_set_inputs.
  destruct (enc_inner input rb) as [[[|]|e] rb']; [apply IH|done..].
Qed.

Lemma encode_inner_failed input (rb rb' : RB) r : enc_inner input rb = (r, rb') -> r <> Ok true -> rb' = rb.
Proof.
  unfold encode_inner. destruct (encode_input input) as [bs|]; [|by intros [= <- <-]]. destruct (_ <? blen bs); [by intros [= <- <-]|].
  destruct (would_exceed_limits _ _ _); [by intros [= <- <-]|].
  assert (Hwb : forall x counted (y : RB), exists y', write_bytes x counted y = Ok y') by (intros; edestruct write_bytes_ok as (? & -> & _); by eexists).
  destruct (next_input_framing rb) as [f|].
  - destruct (Hwb (framing_bytes f) (counts_towards_uncompressed_len f) rb) as [y ->]. destruct (Hwb bs true y) as [y' ->]. by intros [= <- <-].
  - destruct (Hwb bs true rb) as [y' ->]. by intros [= <- <-].
Qed.

(** The limits and the inputs stay. *)
Definition same_frame (rb rb' : RB) : Prop :=
  set_payload create_compressor estimator_reset 0 rb' = set_payload create_compressor estimator_reset 0 rb.

Lemma same_frame_fields rb rb' : same_frame rb rb' ->
  uncompressed_len_prefix_suffix rb' = uncompressed_len_prefix_suffix rb /\ compressed_len_limit rb' = compressed_len_limit rb /\
  uncompressed_len_limit rb' = uncompressed_len_limit rb /\ max_inputs_per_payload rb' = max_inputs_per_payload rb /\
  max_data_points_per_payload rb' = max_data_points_per_payload rb /\ encoded_inputs rb' = encoded_inputs rb /\ encoded_data_points rb' = encoded_data_points rb.
Proof. unfold same_frame, set_payload. intros [=]. done. Qed.

Lemma encode_inner_frame input (rb rb' : RB) r : enc_inner input rb = (r, rb') -> same_frame rb rb'.
Proof.
  unfold encode_inner. destruct (encode_input input) as [bs|]; [|by intros [= <- <-]]. destruct (_ <? blen bs); [by intros [= <- <-]|].
  destruct (would_exceed_limits _ _ _); [by intros [= <- <-]|].
  assert (Hwb : forall x counted (y : RB), exists y', write_bytes x counted y = Ok y' /\ same_frame y y') by (intros; edestruct write_bytes_ok as (? & -> & _); by eexists).
  destruct (next_input_framing rb) as [f|].
  - destruct (Hwb (framing_bytes f) (counts_towards_uncompressed_len f) rb) as (y & -> & Hy). destruct (Hwb bs true y) as (y' & -> & Hy'). intros [= <- <-].
    unfold same_frame in *. congruence.
  - destruct (Hwb bs true rb) as (y' & -> & Hy'). by intros [= <- <-].
Qed.

Lemma encode_all_app inputs1 inputs2 (rb : RB) :
  enc_all (inputs1 ++ inputs2) rb = match enc_all inputs1 rb with (Ok true, rb1) => enc_all inputs2 rb1 | x => x end.
Proof.
  revert rb. induction inputs1 as [|input inputs1 IH]; intros rb; [done|]. cbn [app encode_all].
  destruct (enc_inner input rb) as [[[|]|e] rb']; [apply IH|done..].
Qed.

Lemma encode_all_holds inputs encs (rb rb' : RB) :
  uncompressed_len_prefix_suffix rb = opt_len payload_prefix + opt_len payload_suffix ->
  holds rb encs -> enc_all inputs rb = (Ok true, rb') ->
  same_frame rb rb' /\ exists new, encodings inputs new /\ holds rb' (encs ++ new).
Proof.
  revert rb encs. induction inputs as [|input inputs IH]; intros rb encs Hps Hh; cbn [encode_all].
  - intros [= <-]. split; [done|]. exists []. rewrite app_nil_r. split; [constructor|done].
  - destruct (enc_inner input rb) as [[[|]|e] rb1] eqn:E; [|done..]. intros Hr.
    pose proof (encode_inner_frame _ _ _ _ E) as Hf. destruct (encode_inner_holds _ _ _ _ Hps Hh E) as (bs & Hbs & Hh1).
    destruct (IH rb1 (encs ++ [bs])) as (Hf' & new & Hnew & Hh2); [by destruct (same_frame_fields _ _ Hf) as (-> & _)|done..|].
    split; [unfold same_frame in *; congruence|]. exists (bs :: new). split; [by constructor|]. by rewrite <- app_assoc in Hh2.
Qed.

Lemma emptied_holds (rb : RB) : holds (emptied rb) [].
Proof. split; [apply written_new|done|constructor|done]. Qed.

(** ** Flushing *)

Lemma flush_inner_spec (rb : RB) encs :
  uncompressed_len_prefix_suffix rb = opt_len payload_prefix + opt_len payload_suffix -> encs <> [] -> holds rb encs ->
  exists buffer, @flush_inner Input EncodeError IoError HttpError _ _ rb = (Ok (blen (payload encs), buffer), (take_payload_compressor rb).2) /\
    decompress buffer = Some (payload encs).
Proof.
  intros Hps Hne [Hw Hl _ _]. rewrite !opt_len_default in Hps.
  assert (Hs : exists c e, (match payload_suffix with Some suffix => write_bytes suffix false rb | None => Ok rb end) = Ok (set_payload c e (rb_uncompressed_len rb) rb) /\
    written c = written (rb_compressor rb) ++ default [] payload_suffix).
  { destruct payload_suffix as [suffix|].
    - destruct (write_bytes_ok suffix false rb) as (c & -> & Hc). eexists _, _. split; [reflexivity|done].
    - exists (rb_compressor rb), (compression_estimator rb). split; [by destruct rb|]. by rewrite app_nil_r. }
  destruct Hs as (c & e & Hwr & Hc). unfold flush_inner. rewrite Hwr. cbn [take_payload_compressor rb_compressor set_payload].
  destruct (finish_law c) as (c1 & c2 & -> & -> & Hd). exists (into_inner c2). split.
  - unfold uncompressed_len. cbn [rb_uncompressed_len uncompressed_len_prefix_suffix set_payload]. rewrite Hl, Hps. unfold payload. rewrite !blen_app.
    replace (blen (joined encs) + (blen (default [] payload_prefix) + blen (default [] payload_suffix)))
      with (blen (default [] payload_prefix) + (blen (joined encs) + blen (default [] payload_suffix))) by lia. done.
  - rewrite Hd, Hc, Hw. unfold payload. destruct encs; [done|]. unfold opened. by rewrite <- app_assoc.
Qed.

Lemma create_request_ok buffer : exists req, @create_request Input EncodeError IoError HttpError _ _ _ buffer = Ok req /\ body req = buffer.
Proof. unfold create_request. rewrite http_accepts. by eexists. Qed.

Lemma points_app (l1 l2 : list Input) : encoded_data_point_count (l1 ++ l2) = encoded_data_point_count l1 + encoded_data_point_count l2.
Proof. apply sumZ_app. Qed.

(** The part of the builder that a payload of [inputs] needs. *)
Record within (rb : RB) (inputs : list Input) : Prop := {
  wi_framing : uncompressed_len_prefix_suffix rb = opt_len payload_prefix + opt_len payload_suffix;
  wi_inputs : Z.of_nat (length inputs) <= max_inputs_per_payload rb;
  wi_points : max_data_points_per_payload rb < u64_max -> encoded_data_point_count inputs <= max_data_points_per_payload rb;
}.

Lemma encodings_nil inputs encs : encodings inputs encs -> inputs <> [] -> encs <> [].
Proof. intros He. by destruct He. Qed.

(** A payload that was encoded is sent, or reported as too large. *)
Lemma sent_or_too_large (rb rb' : RB) inputs encs buffer :
  within rb inputs -> encodings inputs encs -> blen (payload encs) <= uncompressed_len_limit rb -> decompress buffer = Some (payload encs) ->
  compressed_len_limit rb' = compressed_len_limit rb ->
  outcome rb inputs (if compressed_len_limit rb' <? blen buffer then Err (PayloadTooLarge (blen buffer) (compressed_len_limit rb'))
    else (fun req => (Z.of_nat (length inputs), encoded_data_point_count inputs, req)) <$> create_request buffer).
Proof.
  intros [Hf Hi Hp] He Hu Hd ->. destruct (Z.ltb_spec (compressed_len_limit rb) (blen buffer)); [by constructor|].
  destruct (create_request_ok buffer) as (req & -> & <-). cbn. constructor. split; [done..| |done|done|done]. by exists encs.
Qed.

Lemma try_split_encoded (rb rb' : RB) inputs :
  within rb inputs -> holds rb [] -> inputs <> [] -> enc_all inputs rb = (Ok true, rb') ->
  exists o, @try_split_request Input EncodeError IoError HttpError _ _ _ inputs rb = (Some o, (take_payload_compressor rb).2) /\ outcome rb inputs o.
Proof.
  intros Hw Hh Hne E. destruct (encode_all_holds _ _ _ _ (wi_framing _ _ Hw) Hh E) as (Hfr & encs & He & Hh'). cbn [app] in Hh'.
  destruct (same_frame_fields _ _ Hfr) as (F1 & F2 & F3 & _).
  pose proof (encodings_nil _ _ He Hne) as Hencs. destruct (flush_inner_spec rb' encs) as (buffer & Hfl & Hd); [by rewrite F1; apply Hw|done..|].
  unfold try_split_request. rewrite E, Hfl. cbn [take_payload_compressor snd uncompressed_len_limit set_payload].
  pose proof (ho_limit _ _ Hh' Hencs) as Hu. rewrite (proj2 (Z.ltb_ge (uncompressed_len_limit rb') _)) by done.
  change (set_payload create_compressor estimator_reset 0 rb') with (take_payload_compressor rb').2 in *.
  assert (Hrb : set_payload create_compressor estimator_reset 0 rb' = set_payload create_compressor estimator_reset 0 rb) by done.
  change ((take_payload_compressor rb').2) with (set_payload create_compressor estimator_reset 0 rb'). rewrite Hrb.
  pose proof (sent_or_too_large rb rb inputs encs buffer Hw He ltac:(by rewrite <- F3) Hd eq_refl) as Ho.
  cbn [compressed_len_limit set_payload]. destruct (compressed_len_limit rb <? blen buffer); eexists; (split; [reflexivity|exact Ho]).
Qed.

(** Inputs that were encoded before are encoded again, or do not fit. *)
Lemma encode_all_again inputs encs (rb : RB) :
  encodings inputs encs -> Forall (fun bs => blen bs <= uncompressed_len_limit rb) encs ->
  exists rb', (enc_all inputs rb = (Ok true, rb') \/ enc_all inputs rb = (Ok false, (take_payload_compressor rb').2)) /\ same_frame rb rb'.
Proof.
  intros He. revert rb. induction He as [|input bs inputs encs Hi He IH]; intros rb Hl; [exists rb; by split; [left|]|].
  apply Forall_cons in Hl as [Hb Hl]. cbn [encode_all]. destruct (enc_inner input rb) as [[[|]|e] rb1] eqn:E.
  - pose proof (encode_inner_frame _ _ _ _ E) as Hf. destruct (same_frame_fields _ _ Hf) as (_ & _ & F3 & _).
    destruct (IH rb1) as (rb' & Hr & Hf'); [by rewrite F3|]. exists rb'. split; [done|]. unfold same_frame in *. congruence.
  - apply encode_inner_failed in E as ->; [|done]. exists rb. split; [by right|done].
  - exfalso. unfold encode_inner in E. rewrite Hi in E. rewrite (proj2 (Z.ltb_ge _ _)) in E by done.
    destruct (would_exceed_limits _ _ _); [done|].
    destruct (next_input_framing rb) as [f|]; [destruct (write_bytes_ok (framing_bytes f) (counts_towards_uncompressed_len f) rb) as (c & Hc & _); rewrite Hc in E|];
      match type of E with context [write_bytes bs true ?y] => destruct (write_bytes_ok bs true y) as (c' & Hc' & _); rewrite Hc' in E end; done.
Qed.

Lemma try_split_spec inputs encs (rb : RB) :
  within rb inputs -> holds rb [] -> inputs <> [] -> encodings inputs encs -> Forall (fun bs => blen bs <= uncompressed_len_limit rb) encs ->
  exists o, @try_split_request Input EncodeError IoError HttpError _ _ _ inputs rb = (o, (take_payload_compressor rb).2) /\
    match o with Some o => outcome rb inputs o | None => exists rb', enc_all inputs rb = (Ok false, rb') end.
Proof.
  intros Hw Hh Hne He Hl. destruct (encode_all_again inputs encs rb He Hl) as (rb' & [E|E] & Hf).
  - destruct (try_split_encoded rb rb' inputs Hw Hh Hne E) as (o & -> & Ho). by exists (Some o).
  - exists None. unfold try_split_request. rewrite E. split; [|by eexists]. f_equal. exact Hf.
Qed.

(** The pending inputs have encodings, and each is within the limit. *)
Lemma pending_encodings (rb : RB) : rb_ok rb -> encoded_inputs rb <> [] ->
  exists encs, encodings (encoded_inputs rb) encs /\ holds rb encs /\ encs <> [] /\ Forall (fun bs => blen bs <= uncompressed_len_limit rb) encs.
Proof.
  intros [Hf Hp _ _ _ _] Hne. destruct (encode_all_holds (encoded_inputs rb) [] (emptied rb) (set_inputs 0 [] rb)) as (_ & encs & He & Hh); [done|apply emptied_holds|done|].
  cbn [app] in Hh. pose proof (encodings_nil _ _ He Hne) as Hencs. exists encs. split; [done|].
  assert (Hh' : holds rb encs) by (destruct Hh; by split). split; [done|]. split; [done|].
  pose proof (ho_limit _ _ Hh' Hencs) as Hlim. unfold payload in Hlim. rewrite !blen_app in Hlim.
  pose proof (blen_nonneg (default [] payload_prefix)). pose proof (blen_nonneg (default [] payload_suffix)).
  apply Forall_forall. intros bs Hin. assert (Hle : blen bs <= blen (joined encs)); [|lia].
  clear -Hin. destruct encs as [|e es]; [by apply not_elem_of_nil in Hin|]. cbn [joined]. rewrite blen_app.
  pose proof (blen_nonneg (mjoin ((fun x => default [] input_separator ++ x) <$> es))) as Hnn. pose proof (blen_nonneg e).
  apply elem_of_cons in Hin as [->|Hin]; [lia|]. assert (blen bs <= blen (mjoin ((fun x => default [] input_separator ++ x) <$> es))); [|lia].
  clear -Hin. induction es as [|x es IH]; [by apply not_elem_of_nil in Hin|]. rewrite fmap_cons.
  change (mjoin ((default [] input_separator ++ x) :: ?l)) with ((default [] input_separator ++ x) ++ mjoin l). rewrite !blen_app.
  pose proof (blen_nonneg (default [] input_separator)). pose proof (blen_nonneg (mjoin ((fun x => default [] input_separator ++ x) <$> es))). pose proof (blen_nonneg x).
  apply elem_of_cons in Hin as [->|Hin]; [lia|]. specialize (IH Hin). lia.
Qed.

Lemma points_nonneg_all (inputs : list Input) : 0 <= encoded_data_point_count inputs.
Proof. apply sumZ_nonneg. intros. apply points_nonneg. Qed.

Lemma emptied_ok (rb : RB) : rb_ok rb -> rb_ok (emptied rb).
Proof. intros [K1 K2 K3 K4 K5 K6]. split; cbn; [done|done|lia|done| |done]. intros Hm. split; [done|lia]. Qed.

Lemma within_part (rb : RB) inputs pre post : rb_ok rb -> encoded_inputs rb = pre ++ inputs ++ post -> within (emptied rb) inputs.
Proof.
  intros [K1 K2 K3 K4 K5 K6] E. rewrite E in K3. rewrite !length_app in K3. split; cbn; [done|lia|]. intros Hm.
  destruct (K5 Hm) as [Hp Hle]. rewrite E, !points_app in Hp. pose proof (points_nonneg_all pre). pose proof (points_nonneg_all post). lia.
Qed.

Lemma outcome_emptied (rb : RB) inputs o : outcome (emptied rb) inputs o -> outcome rb inputs o.
Proof. intros [count points req Hc|size Hs]; [apply Sent; destruct Hc; by split|by apply (TooLarge rb)]. Qed.

Lemma idle_emptied (rb : RB) : rb_ok rb -> encoded_inputs rb = [] -> emptied rb = rb.
Proof.
  intros [_ Hp _ _ _ Hd] He. specialize (Hd He). rewrite He in Hp. cbn [encode_all] in Hp.
  assert (E : emptied rb = set_inputs 0 [] rb) by congruence. rewrite E. destruct rb; cbn in *. by subst.
Qed.

(** An oversized payload is split in the middle: the first half is always encoded again. *)
Lemma split_request_spec (rb : RB) :
  rb_ok rb -> (2 <= length (encoded_inputs rb))%nat ->
  exists first second o1 o2, @split_request Input EncodeError IoError HttpError _ _ _ (take_payload_compressor rb).2 = (o1 :: option_list o2, emptied rb) /\
    encoded_inputs rb = first ++ second /\ first <> [] /\ second <> [] /\ outcome rb first o1 /\
    match o2 with Some o2 => outcome rb second o2 | None => exists rb', enc_all second (emptied rb) = (Ok false, rb') end.
Proof.
  intros Hok Hlen. set (pivot := (length (encoded_inputs rb) / 2)%nat).
  assert (Hpiv : (0 < pivot < length (encoded_inputs rb))%nat).
  { subst pivot. split; [apply Nat.div_str_pos; lia|apply Nat.div_lt; lia]. }
  set (first := take pivot (encoded_inputs rb)). set (second := drop pivot (encoded_inputs rb)).
  assert (Happ : encoded_inputs rb = first ++ second) by (symmetry; apply take_drop).
  assert (Hf : first <> []) by (intros E; apply (f_equal length) in E; subst first; rewrite length_take in E; cbn [length] in E; lia).
  assert (Hs : second <> []) by (intros E; apply (f_equal length) in E; subst second; rewrite length_drop in E; cbn [length] in E; lia).
  destruct (pending_encodings rb Hok) as (encs & He & _ & _ & Hl); [by rewrite Happ; destruct first|].
  pose proof (within_part rb first [] second Hok ltac:(done)) as W1.
  pose proof (within_part rb second first [] Hok ltac:(by rewrite app_nil_r)) as W2.
  pose proof (ok_payload _ Hok) as Hp. rewrite Happ, encode_all_app in Hp.
  destruct (enc_all first (emptied rb)) as [[[|]|e] rb1] eqn:E1; [|done..].
  destruct (try_split_encoded (emptied rb) rb1 first W1 (emptied_holds rb) Hf E1) as (o1 & Ht1 & Ho1).
  unfold encodings in He. rewrite Happ in He. apply Forall2_app_inv_l in He as (e1 & e2 & He1 & He2 & ->). apply Forall_app in Hl as [_ Hl2].
  destruct (try_split_spec second e2 (emptied rb) W2 (emptied_holds rb) Hs He2 Hl2) as (o2 & Ht2 & Ho2).
  exists first, second, o1, o2. split_and!; [|done..|by apply outcome_emptied|destruct o2; [by apply outcome_emptied|done]].
  unfold split_request. cbn [take_payload_compressor snd encoded_inputs set_payload].
  change (set_inputs 0 [] (set_payload create_compressor estimator_reset 0 rb)) with (emptied rb).
  subst first second pivot. destruct (encoded_inputs rb) as [|i0 is0]; [done|]. rewrite Ht1. cbn [take_payload_compressor snd].
  change (set_payload create_compressor estimator_reset 0 (emptied rb)) with (emptied rb). rewrite Ht2. done.
Qed.

(** What a flush does with the pending inputs. *)
Definition flushes (rb : RB) (rs : list (result RBError (Z * Z * Request))) : Prop :=
  match encoded_inputs rb with
  | [] => rs = []
  | inputs =>
      (exists o, rs = [o] /\ outcome rb inputs o /\ ((exists e, o = Err e) -> length inputs = 1%nat)) \/
      (exists first second o1 o2, inputs = first ++ second /\ first <> [] /\ second <> [] /\ rs = o1 :: option_list o2 /\
         outcome rb first o1 /\ match o2 with Some o2 => outcome rb second o2 | None => exists rb', enc_all second (emptied rb) = (Ok false, rb') end)
  end.

Lemma flush_spec (rb : RB) : rb_ok rb -> exists rs, fl rb = (rs, if encoded_inputs rb is [] then rb else emptied rb) /\ flushes rb rs.
Proof.
  intros Hok. unfold flush, flushes. destruct (encoded_inputs rb) as [|i0 is0] eqn:Ei; [by eexists|].
  rewrite <- Ei. destruct (pending_encodings rb Hok) as (encs & He & Hh & Hne & Hl); [by rewrite Ei|].
  destruct (flush_inner_spec rb encs (ok_framing _ Hok) Hne Hh) as (buffer & -> & Hd). cbn [take_payload_compressor snd compressed_len_limit encoded_inputs set_payload].
  pose proof (within_part rb (encoded_inputs rb) [] [] Hok ltac:(by rewrite app_nil_r)) as W.
  pose proof (sent_or_too_large (emptied rb) rb (encoded_inputs rb) encs buffer W He ltac:(by apply (ho_limit _ _ Hh)) Hd eq_refl) as Ho.
  apply outcome_emptied in Ho.
  destruct (Z.ltb_spec (compressed_len_limit rb) (blen buffer)) as [Hlt|Hge].
  - destruct (Nat.eqb_spec (length (encoded_inputs rb)) 1) as [E1|E1].
    + eexists. split; [reflexivity|]. left. eexists. split; [reflexivity|]. by split.
    + destruct (split_request_spec rb Hok) as (first & second & o1 & o2 & Hs & K1 & K2 & K3 & K4 & K5); [rewrite Ei in *; cbn [length] in *; lia|].
      eexists. split; [exact Hs|]. right. by exists first, second, o1, o2.
  - eexists. split; [reflexivity|]. left. eexists. split; [reflexivity|]. split; [done|]. intros [e Hx].
    destruct (create_request_ok buffer) as (req & Hr & _). rewrite Hr in Hx. done.
Qed.

(** ** Encoding *)

Lemma encode_ok input (rb rb' : RB) r : rb_ok rb -> enc input rb = (r, rb') ->
  rb_ok rb' /\ (r = Ok None -> encoded_inputs rb' = encoded_inputs rb ++ [input]) /\ (r <> Ok None -> rb' = rb).
Proof.
  intros Hok. unfold encode. destruct (negb (is_valid_input input)); [by intros [= <- <-]|].
  destruct (Z.ltb_spec (max_data_points_per_payload rb) (input_data_point_count input)) as [|Hmp]; [by intros [= <- <-]|].
  destruct (Z.leb_spec (max_inputs_per_payload rb) (Z.of_nat (length (encoded_inputs rb)))) as [|Hmi]; [by intros [= <- <-]|].
  destruct (_ && _) eqn:Ep; [by intros [= <- <-]|].
  destruct (enc_inner input rb) as [[[|]|e] rb1] eqn:E; intros [= <- <-].
  2,3: apply encode_inner_failed in E as ->; done.
  pose proof (encode_inner_frame _ _ _ _ E) as Hf. destruct (same_frame_fields _ _ Hf) as (F1 & F2 & F3 & F4 & F5 & F6 & F7).
  split; [|split; [intros _; cbn; by rewrite F6|done]].
  destruct Hok as [K1 K2 K3 K4 K5 K6]. split; cbn -[encoded_data_point_count].
  - by rewrite F1.
  - assert (Hem : emptied (set_inputs (u64_add (encoded_data_points rb1) (input_data_point_count input)) (encoded_inputs rb1 ++ [input]) rb1) = emptied rb).
    { unfold emptied, take_payload_compressor. cbn [snd]. unfold same_frame in Hf.
      change (set_inputs 0 [] (set_payload create_compressor estimator_reset 0 rb1) = set_inputs 0 [] (set_payload create_compressor estimator_reset 0 rb)).
      by rewrite Hf. }
    rewrite Hem, F6, encode_all_app, K2. cbn [encode_all]. rewrite encode_inner_set_inputs, E. done.
  - rewrite F4, F6, length_app. cbn. lia.
  - by rewrite F5.
  - rewrite F5, F6, F7. intros Hm. destruct (K5 Hm) as [Hp Hle]. pose proof (points_nonneg input). pose proof (points_nonneg_all (encoded_inputs rb)).
    rewrite points_app, <- Hp. unfold encoded_data_point_count at 1. cbn [sumZ foldr].
    assert (Hsum : encoded_data_points rb + input_data_point_count input <= max_data_points_per_payload rb).
    { apply andb_false_iff in Ep as [Ep|Ep]; bool_cases; [lia|]. unfold saturating_add in Ep. lia. }
    rewrite wrapping_add_exact by (unfold in_range; lia). lia.
  - intros Hx. by apply app_nil in Hx as [_ ?].
Qed.

(** An empty builder takes every input that fits its limits together with the framing. *)
Lemma encode_empty input bs (rb : RB) :
  rb_ok rb -> encoded_inputs rb = [] -> is_valid_input input = true -> encode_input input = Ok bs -> 0 < max_inputs_per_payload rb ->
  input_data_point_count input <= max_data_points_per_payload rb -> opt_len payload_prefix + opt_len payload_suffix + blen bs <= uncompressed_len_limit rb ->
  exists rb', enc input rb = (Ok None, rb').
Proof.
  intros Hok Hi Hv He Hm Hp Hl. pose proof (idle_emptied rb Hok Hi) as Hem. pose proof (ok_idle _ Hok Hi) as Hd. unfold encode. rewrite Hv. cbn [negb].
  rewrite (proj2 (Z.ltb_ge _ _)) by done. rewrite Hi. cbn [length]. rewrite (proj2 (Z.leb_gt _ _)) by lia. rewrite Hd. cbn [andb Z.ltb Z.compare].
  pose proof (blen_nonneg (default [] payload_prefix)). pose proof (blen_nonneg (default [] payload_suffix)). rewrite !opt_len_default in *.
  assert (Hin : exists rb', enc_inner input rb = (Ok true, rb')); [|destruct Hin as [rb' ->]; by eexists].
  rewrite <- Hem. unfold encode_inner. rewrite He. cbn [uncompressed_len_limit emptied take_payload_compressor snd set_inputs set_payload].
  rewrite (proj2 (Z.ltb_ge (uncompressed_len_limit rb) (blen bs))) by lia.
  unfold would_exceed_limits, next_input_framing, uncompressed_len. cbn.
  rewrite (ok_framing _ Hok), !opt_len_default.
  assert (Hc : counted_len (Prefix <$> payload_prefix) = 0) by by destruct payload_prefix. rewrite Hc.
  rewrite (proj2 (Z.ltb_ge _ _)) by lia. cbn [orb].
  destruct payload_prefix as [pf|]; cbn [fmap option_fmap option_map].
  - match goal with |- context [write_bytes ?x ?y ?z] => destruct (write_bytes_ok x y z) as (c & -> & _) end.
    match goal with |- context [write_bytes ?x ?y ?z] => destruct (write_bytes_ok x y z) as (c' & -> & _) end. by eexists.
  - match goal with |- context [write_bytes ?x ?y ?z] => destruct (write_bytes_ok x y z) as (c' & -> & _) end. by eexists.
Qed.

(** ** Runs *)

(** What the encoders do with a builder: a list of inputs to encode, each followed by a flush and a
    second attempt when it is handed back, and flushes in between. *)
Inductive rb_op := OpEncode (input : Input) | OpFlush.

(** The inputs that were accepted, what the flushes returned, and the builder at the end. *)
Fixpoint run (ops : list rb_op) (rb : RB) : list Input * list (result RBError (Z * Z * Request)) * RB :=
  match ops with
  | [] => ([], [], rb)
  | OpEncode input :: ops =>
      let '(r, rb) := enc input rb in
      let '(accepted, outs, rb) := run ops rb in
      ((match r with Ok None => [input] | _ => [] end) ++ accepted, outs, rb)
  | OpFlush :: ops =>
      let '(rs, rb) := fl rb in
      let '(accepted, outs, rb) := run ops rb in
      (accepted, rs ++ outs, rb)
  end.

(** The builders that the encoders make: a new one, with the limits set before it is used. *)
Inductive configured : RB -> Prop :=
| Created rb : (RequestBuilder_new : result RBError RB) = Ok rb -> configured rb
| SetMaxInputs m rb : 0 <= m -> configured rb -> configured (with_max_inputs_per_payload m rb)
| SetMaxPoints m rb : 0 <= m -> configured rb -> configured (with_max_data_points_per_payload m rb)
| SetLimits u c rb rb' : configured rb -> (with_len_limits u c rb : result RBError RB) = Ok rb' -> configured rb'.

(** The fate of a group of accepted inputs: sent or reported, or left out of a split payload. *)
Definition fate (rb : RB) (part : list Input * option (result RBError (Z * Z * Request))) : Prop :=
  match part.2 with
  | Some o => outcome rb part.1 o
  | None => exists rb', enc_all part.1 (emptied rb) = (Ok false, rb')
  end.

Lemma configured_ok : forall rb, configured rb -> rb_ok rb /\ emptied rb = rb.
Proof.
  assert (Hset : forall u c mi mp rb, rb_ok rb /\ emptied rb = rb -> 0 <= mi -> 0 <= mp -> rb_ok (set_limits u c mi mp rb) /\ emptied (set_limits u c mi mp rb) = set_limits u c mi mp rb).
  { intros u c mi mp rb [Hok Hem] Hmi Hmp. destruct Hok as [K1 K2 K3 K4 K5 K6]. rewrite <- Hem in *. split; [|done]. split; cbn; [done|done|lia|done|by intros _|done]. }
  assert (Hpos : forall rb, configured rb -> 0 <= max_inputs_per_payload rb /\ 0 <= max_data_points_per_payload rb).
  { induction 1 as [rb Hn|m rb Hm _ IH|m rb Hm _ IH|u c rb rb' _ IH Hl]; [|cbn; lia..|].
    - unfold RequestBuilder_new in Hn. destruct (validate_uncompressed_len_limit _); [|done]. injection Hn as <-. done.
    - unfold with_len_limits in Hl. destruct (validate_uncompressed_len_limit _); [|done]. by injection Hl as <-. }
  induction 1 as [rb Hn|m rb Hm Hc IH|m rb Hm Hc IH|u c rb rb' Hc IH Hl]; [|apply Hset; by try apply Hpos..|].
  - unfold RequestBuilder_new, validate_uncompressed_len_limit in Hn. destruct (_ <? _); [done|]. injection Hn as <-. split; [|done]. by split.
  - unfold with_len_limits in Hl. destruct (validate_uncompressed_len_limit _); [|done]. injection Hl as <-. apply Hset; [done|apply Hpos, Hc..].
Qed.

Lemma fate_emptied (rb rb' : RB) part : emptied rb' = emptied rb -> fate rb' part -> fate rb part.
Proof.
  intros E. unfold fate. destruct part.2 as [o|]; [|by rewrite E]. intros Ho. apply outcome_emptied. rewrite <- E.
  destruct Ho as [count points req Hc|size Hs]; [apply Sent; destruct Hc; by split|by apply (TooLarge (emptied rb'))].
Qed.

Lemma encode_emptied input (rb rb' : RB) r : enc input rb = (r, rb') -> emptied rb' = emptied rb.
Proof.
  unfold encode. destruct (negb _); [by intros [= <- <-]|]. destruct (_ <? input_data_point_count input); [by intros [= <- <-]|].
  destruct (_ <=? _); [by intros [= <- <-]|]. destruct (_ && _); [by intros [= <- <-]|].
  destruct (enc_inner input rb) as [r1 rb1] eqn:E. apply encode_inner_frame in E. unfold same_frame in E.
  assert (Hx : emptied rb1 = emptied rb) by (unfold emptied, take_payload_compressor; cbn [snd]; by rewrite E).
  by destruct r1 as [[|]|]; intros [= <- <-].
Qed.

Lemma flushes_parts (rb : RB) rs : flushes rb rs ->
  exists parts, encoded_inputs rb = mjoin (fst <$> parts) /\ rs = omap snd parts /\ Forall (fate rb) parts.
Proof.
  unfold flushes. destruct (encoded_inputs rb) as [|i0 is0]; [intros ->; by exists []|]. intros [(o & -> & Ho & _)|(first & second & o1 & o2 & -> & _ & _ & -> & Ho1 & Ho2)].
  - exists [(i0 :: is0, Some o)]. cbn. rewrite app_nil_r. by repeat constructor.
  - exists [(first, Some o1); (second, o2)]. cbn. rewrite app_nil_r. split; [done|]. split; [by destruct o2|]. repeat constructor; [done|]. exact Ho2.
Qed.

(** A flushed builder is the empty one. *)
Lemma flushed_ok (rb : RB) : rb_ok rb -> let rb1 := if encoded_inputs rb is [] then rb else emptied rb in rb_ok rb1 /\ emptied rb1 = emptied rb /\ encoded_inputs rb1 = [].
Proof. intros Hok. cbv zeta. destruct (encoded_inputs rb) eqn:Ei; [done|]. split; [by apply emptied_ok|done]. Qed.

Lemma handed_back input (rb rb' : RB) : enc input rb = (Ok (Some input), rb') -> is_valid_input input = true /\ input_data_point_count input <= max_data_points_per_payload rb.
Proof.
  unfold encode. destruct (is_valid_input input); [cbn [negb]|done]. destruct (Z.ltb_spec (max_data_points_per_payload rb) (input_data_point_count input)); [done|].
  intros _. split; [done|lia].
Qed.

Lemma run_parts ops (rb : RB) : rb_ok rb ->
  forall accepted outs rb', run ops rb = (accepted, outs, rb') ->
  rb_ok rb' /\ exists parts, encoded_inputs rb ++ accepted = mjoin (fst <$> parts) ++ encoded_inputs rb' /\ outs = omap snd parts /\ Forall (fate rb) parts.
Proof.
  revert rb. induction ops as [|[input|] ops IH]; intros rb Hok accepted outs rb'; cbn [run].
  - intros [= <- <- <-]. split; [done|]. exists []. by rewrite app_nil_r.
  - destruct (enc input rb) as [r rb1] eqn:E. destruct (run ops rb1) as [[accepted1 outs1] rb2] eqn:Er. intros [= <- <- <-].
    destruct (encode_ok _ _ _ _ Hok E) as (Hok1 & Hnone & Hother). destruct (IH rb1 Hok1 _ _ _ Er) as (Hok2 & parts & Hp & -> & Hf).
    split; [done|]. exists parts. split; [|split; [done|]].
    + rewrite <- Hp. destruct r as [[i|]|e]; [by rewrite Hother|rewrite Hnone by done; by rewrite <- app_assoc|by rewrite Hother].
    + eapply Forall_impl; [exact Hf|]. intros part. apply fate_emptied. by eapply encode_emptied.
  - destruct (flush_spec rb Hok) as (rs & -> & Hfl). set (rb1 := if encoded_inputs rb is [] then rb else emptied rb).
    destruct (run ops rb1) as [[accepted1 outs1] rb2] eqn:Er. intros [= <- <- <-].
    destruct (flushed_ok rb Hok) as (Hok1 & Hem & Hi1). fold rb1 in Hok1, Hem, Hi1. destruct (IH rb1 Hok1 _ _ _ Er) as (Hok2 & parts & Hp & -> & Hf).
    split; [done|]. destruct (flushes_parts _ _ Hfl) as (parts0 & Hp0 & -> & Hf0). rewrite Hi1 in Hp. cbn [app] in Hp.
    exists (parts0 ++ parts). rewrite fmap_app, join_app, omap_app, <- app_assoc, <- Hp, <- Hp0. split; [done|]. split; [done|].
    apply Forall_app. split; [done|]. eapply Forall_impl; [exact Hf|]. intros part. by apply fate_emptied.
Qed.

Lemma run_emptied ops (rb : RB) accepted outs rb' : rb_ok rb -> run ops rb = (accepted, outs, rb') -> emptied rb' = emptied rb.
Proof.
  revert rb accepted outs. induction ops as [|[input|] ops IH]; intros rb accepted outs Hok; cbn [run]; [by intros [= _ _ <-]|..].
  - destruct (enc input rb) as [r rb1] eqn:E. destruct (run ops rb1) as [[accepted1 outs1] rb2] eqn:Er. intros [= _ _ <-].
    rewrite (IH rb1 _ _ (proj1 (encode_ok _ _ _ _ Hok E)) Er). by eapply encode_emptied.
  - destruct (flush_spec rb Hok) as (rs & -> & _). destruct (flushed_ok rb Hok) as (Hok1 & Hem & _).
    destruct (run ops _) as [[accepted1 outs1] rb2] eqn:Er. intros [= _ _ <-]. by rewrite (IH _ _ _ Hok1 Er).
Qed.

(** C15: whatever is encoded and flushed, the inputs that a builder accepts are, in their order, cut into
    groups, and each group but the ones still pending has one of three fates: it is the content of one
    request that [flush] returned, whose body decompresses to prefix, encodings with separators and
    suffix, which has the right counts and is within the limits on the uncompressed and the compressed
    length, the inputs and the data points; or [flush] reported it as too large; or it is a part of a
    split payload that no longer fits on its own.  Nothing is lost otherwise, duplicated or reordered. *)
Theorem requests_carry_accepted_inputs rb ops accepted outs rb' :
  configured rb -> run ops rb = (accepted, outs, rb') ->
  exists parts, accepted = mjoin (fst <$> parts) ++ encoded_inputs rb' /\ outs = omap snd parts /\ Forall (fate rb) parts.
Proof.
  intros Hc Hr. destruct (configured_ok rb Hc) as [Hok Hem]. destruct (run_parts ops rb Hok _ _ _ Hr) as (_ & parts & Hp & Ho & Hf).
  rewrite <- Hem in Hp. exists parts. by rewrite <- Hp.
Qed.

(** an input that is handed back because the payload is full is accepted after a flush, if it fits
    the limit on the uncompressed length together with the prefix and the suffix.  This is what the
    encoders count on when they flush and encode once more. *)
Theorem accepted_after_flush rb ops accepted outs rb1 input bs rb2 rs rb3 :
  configured rb -> run ops rb = (accepted, outs, rb1) ->
  enc input rb1 = (Ok (Some input), rb2) -> fl rb2 = (rs, rb3) ->
  encode_input input = Ok bs -> opt_len payload_prefix + opt_len payload_suffix + blen bs <= uncompressed_len_limit rb -> 0 < max_inputs_per_payload rb ->
  exists rb4, enc input rb3 = (Ok None, rb4) /\ encoded_inputs rb4 = [input].
Proof.
  intros Hc Hr He Hfl Hi Hl Hm. destruct (configured_ok rb Hc) as [Hok _]. destruct (run_parts ops rb Hok _ _ _ Hr) as (Hok1 & _).
  pose proof (run_emptied _ _ _ _ _ Hok Hr) as Hem1. destruct (encode_ok _ _ _ _ Hok1 He) as (_ & _ & Hsame). specialize (Hsame ltac:(done)) as ->.
  destruct (flush_spec rb1 Hok1) as (rs' & Hfl' & _). rewrite Hfl' in Hfl. injection Hfl as <- <-.
  destruct (handed_back input rb1 _ He) as [Hv Hpt]. destruct (flushed_ok rb1 Hok1) as (Hok3 & Hem3 & Hi3).
  set (rb3 := if encoded_inputs rb1 is [] then rb1 else emptied rb1) in *. pose proof (eq_trans Hem3 Hem1) as Hem4.
  assert (Hlims : uncompressed_len_limit rb3 = uncompressed_len_limit rb /\ max_inputs_per_payload rb3 = max_inputs_per_payload rb)
    by (split; [exact (f_equal uncompressed_len_limit Hem4)|exact (f_equal max_inputs_per_payload Hem4)]).
  assert (Hmax : max_data_points_per_payload rb3 = max_data_points_per_payload rb1) by (subst rb3; by destruct (encoded_inputs rb1)).
  destruct (encode_empty input bs rb3) as [rb4 E4]; [done..|lia|lia|lia|]. exists rb4. split; [done|].
  destruct (encode_ok _ _ _ _ Hok3 E4) as (_ & Hn & _). rewrite Hn by done. by rewrite Hi3.
Qed.
End builder.

(** ** A small instance

    Inputs are byte strings, the payload is a JSON-like array, and the compressor packs four zero bytes
    into one and puts out what it has in blocks of 64 bytes. *)

Module Packed.
Definition zero_byte (x : Byte.byte) : bool := Byte.eqb x Byte.x00.

Fixpoint pack (w : bytes) : bytes :=
  match w with
  | [] => []
  | x1 :: w1 =>
      match w1 with
      | x2 :: x3 :: x4 :: w4 => if zero_byte x1 && zero_byte x2 && zero_byte x3 && zero_byte x4 then Byte.x00 :: pack w4 else Byte.x01 :: x1 :: pack w1
      | _ => Byte.x01 :: x1 :: pack w1
      end
  end.

Fixpoint unpack (w : bytes) : option bytes :=
  match w with
  | [] => Some []
  | x :: w' =>
      if zero_byte x then (fun r => repeat Byte.x00 4 ++ r) <$> unpack w'
      else match w' with y :: w'' => (fun r => y :: r) <$> unpack w'' | [] => None end
  end.

Lemma pack_four x1 x2 x3 x4 w :
  pack (x1 :: x2 :: x3 :: x4 :: w) =
  if zero_byte x1 && zero_byte x2 && zero_byte x3 && zero_byte x4 then Byte.x00 :: pack w else Byte.x01 :: x1 :: pack (x2 :: x3 :: x4 :: w).
Proof. reflexivity. Qed.

Lemma unpack_pack w : unpack (pack w) = Some w.
Proof.
  remember (length w) as n eqn:Hn. revert w Hn. induction (lt_wf n) as [n _ IH]. intros w ->.
  assert (Hlit : forall x w1, w = x :: w1 -> unpack (Byte.x01 :: x :: pack w1) = Some w).
  { intros x w1 ->. cbn [unpack zero_byte]. change (zero_byte Byte.x01) with false. cbn iota. by rewrite (IH (length w1)) by (cbn; lia). }
  destruct w as [|x1 [|x2 [|x3 [|x4 w4]]]]; [done|exact (Hlit x1 _ eq_refl)..|]. rewrite pack_four.
  destruct (zero_byte x1 && _ && _ && _) eqn:Hz; [|exact (Hlit x1 _ eq_refl)].
  repeat (apply andb_prop in Hz as [Hz ?]). unfold zero_byte in *.
  repeat match goal with Hb : Byte.eqb _ _ = true |- _ => apply Byte.byte_dec_bl in Hb; subst end.
  cbn [unpack]. change (zero_byte Byte.x00) with true. cbn iota. by rewrite (IH (length w4)) by (cbn; lia).
Qed.

#[export] Instance packed : Compression Empty_set := {
  compressor := bytes;
  create_compressor := [];
  write_all bs c := Ok (c ++ bs);
  total_written c := blen (pack (take (64 * (length c / 64)) c));
  comp_flush c := Ok c;
  comp_shutdown c := Ok c;
  into_inner c := pack c;
  content_encoding := Some (b "pack");
}.

#[export] Program Instance packed_laws : CompressionLaws Empty_set := { written c := c; decompress := unpack }.
Next Obligation. done. Qed.
Next Obligation. intros bs c. by exists (c ++ bs). Qed.
Next Obligation. intros c. exists c, c. split; [done|]. split; [done|]. apply unpack_pack. Qed.

#[export] Instance strings (uncompressed compressed : Z) : EndpointEncoder bytes unit := {
  compressed_size_limit := compressed;
  uncompressed_size_limit := uncompressed;
  input_data_point_count _ := 1;
  is_valid_input _ := true;
  payload_prefix := Some (b "[");
  payload_suffix := Some (b "]");
  input_separator := Some (b ",");
  encode_input i := match i with [] => Err tt | _ => Ok i end;
  endpoint_uri := b "/api/v1/example";
  endpoint_method := b "POST";
  content_type := b "application/json";
  additional_headers := [];
}.

#[export] Instance http : HttpBuilder Empty_set := { build_error _ := None }.

Lemma strings_nonempty u c input bs : @encode_input _ _ (strings u c) input = Ok bs -> bs <> [].
Proof. by destruct input; [|intros [= <-]]. Qed.

Definition zeros : bytes := repeat Byte.x00 20.
Definition text : bytes := b "abcdefghijklmnopqrstuvwxyzABCDE".
Definition ops : list (@rb_op bytes) := map OpEncode [zeros; zeros; zeros; text; text; text] ++ [OpFlush].

Definition fresh (u c : Z) : @RequestBuilder bytes Empty_set packed :=
  match @RequestBuilder_new bytes unit Empty_set Empty_set (strings u c) packed with
  | Ok rb => rb
  | Err _ => {| rb_compressor := []; compression_estimator := estimator_reset; rb_uncompressed_len := 0; uncompressed_len_prefix_suffix := 0;
                compressed_len_limit := 0; uncompressed_len_limit := 0; max_inputs_per_payload := 0; max_data_points_per_payload := 0;
                encoded_data_points := 0; encoded_inputs := [] |}
  end.
Abbreviation run_at u c := (@run bytes unit Empty_set Empty_set (strings u c) packed http).
End Packed.

(** All six inputs are accepted and the three of the first half are sent: the second half no longer fits
    on its own, and no result says so. *)
Example split_drops_second_half :
  let '(accepted, outs, rb) := Packed.run_at 1000 80 Packed.ops (Packed.fresh 1000 80) in
  length accepted = 6%nat /\ (exists req, outs = [Ok (3, 3, req)]) /\ encoded_inputs rb = [].
Proof. vm_compute. split; [done|]. split; [by eexists|done]. Qed.

(** An input that is below the limit by itself and above it with the framing is handed back by every
    empty builder, so that encoding it again after a flush hands it back again. *)
Example framing_never_fits :
  let rb := Packed.fresh 32 80 in
  @encode bytes unit Empty_set Empty_set (Packed.strings 32 80) Packed.packed Packed.text rb = (Ok (Some Packed.text), rb).
Proof. vm_compute. reflexivity. Qed.

Lemma requests_carry_accepted_inputs_witness :
  exists accepted outs rb', Packed.run_at 1000 80 Packed.ops (Packed.fresh 1000 80) = (accepted, outs, rb') /\
  exists parts, accepted = mjoin (fst <$> parts) ++ encoded_inputs rb' /\ outs = omap snd parts /\
    Forall (@fate bytes unit Empty_set Empty_set (Packed.strings 1000 80) Packed.packed Packed.packed_laws (Packed.fresh 1000 80)) parts.
Proof.
  eexists _, _, _. split; [vm_compute; reflexivity|].
  apply (@requests_carry_accepted_inputs bytes unit Empty_set Empty_set (Packed.strings 1000 80) Packed.packed Packed.packed_laws Packed.http
           (Packed.strings_nonempty 1000 80) (fun _ => eq_refl) (fun _ => Z.le_0_1) (Packed.fresh 1000 80) Packed.ops).
  - apply Created. reflexivity.
  - vm_compute. reflexivity.
Defined.

Lemma accepted_after_flush_witness :
  exists accepted outs rb1 rs rb3 rb4, Packed.run_at 40 80 [OpEncode Packed.text] (Packed.fresh 40 80) = (accepted, outs, rb1) /\
  @flush bytes unit Empty_set Empty_set (Packed.strings 40 80) Packed.packed Packed.http rb1 = (rs, rb3) /\
  @encode bytes unit Empty_set Empty_set (Packed.strings 40 80) Packed.packed Packed.zeros rb3 = (Ok None, rb4) /\ encoded_inputs rb4 = [Packed.zeros].
Proof.
  eexists _, _, _, _, _.
  assert (Hx : exists rb4, @encode bytes unit Empty_set Empty_set (Packed.strings 40 80) Packed.packed Packed.zeros (Packed.fresh 40 80) = (Ok None, rb4) /\
    encoded_inputs rb4 = [Packed.zeros]).
  { eapply (@accepted_after_flush bytes unit Empty_set Empty_set (Packed.strings 40 80) Packed.packed Packed.packed_laws Packed.http
           (Packed.strings_nonempty 40 80) (fun _ => eq_refl) (fun _ => Z.le_0_1) (Packed.fresh 40 80) [OpEncode Packed.text]) with (bs := Packed.zeros).
    - apply Created. reflexivity.
    - vm_compute. reflexivity.
    - vm_compute. reflexivity.
    - vm_compute. reflexivity.
    - reflexivity.
    - vm_compute. discriminate.
    - reflexivity. }
  destruct Hx as (rb4 & He & Hi). exists rb4. split; [vm_compute; reflexivity|]. split; [vm_compute; reflexivity|]. split; [exact He|exact Hi].
Defined.
