(* ===== verification/Encoders.v ===== *)
(** * The incremental encoders

    [saluki-components/src/encoders/buffered_incremental/mod.rs], which drives an [IncrementalEncoder]
    with the event buffers of the topology and a flush timeout, and the encoders of events and service
    checks ([encoders/datadog/events/mod.rs], [encoders/datadog/service_checks/mod.rs]), which put a
    request builder behind that interface.  [encode_v2_metrics] of [encoders/datadog/metrics/mod.rs] is
    the same flush-and-retry step of the metrics encoder.

    A dispatcher is the list of the payloads it has sent; whether it takes the next one is a parameter.
    The protobuf and JSON libraries are parameters.  Tags of an event are the list that its tag sets
    iterate over. *)

From Stdlib Require Import ZArith Lia Strings.String.
From stdpp Require Import base tactics list numbers gmap.
From S2P Require Import Prelude Bytes Context DogStatsD RequestBuilder.
Open Scope Z_scope.

(** A step that may fail, and keeps the state either way. *)
Definition and_then {St E A B} (m : result E A * St) (k : A -> St -> result E B * St) : result E B * St :=
  match m with (Ok a, s) => k a s | (Err e, s) => (Err e, s) end.

(** ** The driver *)

Section driver.
Context {Event Payload GenericError : Type}.

Inductive ProcessResult := Continue | FlushRequired (ev : Event).

Record FlushError := { dispatched_events : Z; source : GenericError }.

(** What the outputs refuse, given what was sent before. *)
Context (refuses : list Payload -> Payload -> option GenericError).
Definition dispatch (p : Payload) (sent : list Payload) : result GenericError unit * list Payload :=
  match refuses sent p with Some e => (Err e, sent) | None => (Ok tt, sent ++ [p]) end.

Class IncrementalEncoder (Enc : Type) := {
  process_event : Event -> Enc -> result GenericError ProcessResult * Enc;
  encoder_flush : Enc * list Payload -> result FlushError Z * (Enc * list Payload);
}.

(** The counters and gauges of the driver; the duration of a flush is left out, and counters do not
    overflow. *)
Record ComponentTelemetry := { events_flushed : Z; last_flush_events : Z; events_dropped_encoder : Z }.
Definition telemetry_new : ComponentTelemetry := {| events_flushed := 0; last_flush_events := 0; events_dropped_encoder := 0 |}.
Definition record_flush (events : Z) (t : ComponentTelemetry) : ComponentTelemetry :=
  {| events_flushed := events_flushed t + events; last_flush_events := events; events_dropped_encoder := events_dropped_encoder t |}.
Definition count_dropped (n : Z) (t : ComponentTelemetry) : ComponentTelemetry :=
  {| events_flushed := events_flushed t; last_flush_events := last_flush_events t; events_dropped_encoder := events_dropped_encoder t + n |}.

Context {Enc : Type} `{IncrementalEncoder Enc}.

Record EncoderTask := { encoder : Enc; telemetry : ComponentTelemetry; pending_flush : bool; sent : list Payload }.
Definition task_encoder (e : Enc) (t : EncoderTask) : EncoderTask :=
  {| encoder := e; telemetry := telemetry t; pending_flush := pending_flush t; sent := sent t |}.
Definition task_telemetry (f : ComponentTelemetry -> ComponentTelemetry) (t : EncoderTask) : EncoderTask :=
  {| encoder := encoder t; telemetry := f (telemetry t); pending_flush := pending_flush t; sent := sent t |}.
Definition task_pending (p : bool) (t : EncoderTask) : EncoderTask :=
  {| encoder := encoder t; telemetry := telemetry t; pending_flush := p; sent := sent t |}.

Definition flush_encoder (t : EncoderTask) : result GenericError unit * EncoderTask :=
  let '(r, (e, s)) := encoder_flush (encoder t, sent t) in
  let n := match r with Ok n => n | Err e => dispatched_events e end in
  let t := {| encoder := e; telemetry := if 0 <? n then record_flush n (telemetry t) else telemetry t; pending_flush := pending_flush t; sent := s |} in
  (match r with Ok _ => Ok tt | Err e => Err (source e) end, t).

Definition process (ev : Event) (t : EncoderTask) : result GenericError ProcessResult * EncoderTask :=
  let '(r, e) := process_event ev (encoder t) in (r, task_encoder e t).

(** One event of a buffer: an event that is handed back is tried again after a flush. *)
Definition encode_event (ev : Event) (t : EncoderTask) : result GenericError unit * EncoderTask :=
  and_then (process ev t) (fun r t =>
    match r with
    | Continue => (Ok tt, t)
    | FlushRequired event_to_retry =>
        and_then (flush_encoder t) (fun _ t =>
        and_then (process event_to_retry t) (fun r t =>
          match r with
          | Continue => (Ok tt, t)
          | FlushRequired _ => (Ok tt, task_telemetry (count_dropped 1) t)
          end))
    end).

Fixpoint encode_events (evs : list Event) (t : EncoderTask) : result GenericError unit * EncoderTask :=
  match evs with
  | [] => (Ok tt, t)
  | ev :: evs => and_then (encode_event ev t) (fun _ t => encode_events evs t)
  end.

(** What wakes the task: a buffer of events, or the flush timeout, which only counts when a flush is
    pending. *)
Inductive wakeup := EventBuffer (evs : list Event) | FlushTimeout.

Definition handle_wakeup (w : wakeup) (t : EncoderTask) : result GenericError unit * EncoderTask :=
  match w with
  | EventBuffer evs => and_then (encode_events evs t) (fun _ t => (Ok tt, task_pending true t))
  | FlushTimeout => if pending_flush t then flush_encoder (task_pending false t) else (Ok tt, t)
  end.

(** The end of the list is the end of the event stream, and the last flush follows. *)
Fixpoint run_incremental_encoder (ws : list wakeup) (t : EncoderTask) : result GenericError unit * EncoderTask :=
  match ws with
  | [] => flush_encoder t
  | w :: ws => and_then (handle_wakeup w t) (fun _ t => run_incremental_encoder ws t)
  end.
End driver.
Arguments IncrementalEncoder : clear implicits.
Arguments EncoderTask : clear implicits.

(** ** Payloads and encoders with a request builder *)

Record PayloadMetadata := { event_count : Z; data_point_count : Z }.
Definition from_event_count (n : Z) : PayloadMetadata := {| event_count := n; data_point_count := 0 |}.
Definition from_event_and_data_point_count (n points : Z) : PayloadMetadata := {| event_count := n; data_point_count := points |}.
Record HttpPayload := { metadata : PayloadMetadata; request : Request }.

Section encoders.
Context {Event Input EncodeError IoError HttpError GenericError : Type}.
Context `{EndpointEncoder Input EncodeError} `{Compression IoError} `{HttpBuilder HttpError}.
Context (refuses : list HttpPayload -> HttpPayload -> option GenericError).
(** [error_context] makes a generic error of a builder error. *)
Context (error_context : @RequestBuilderError Input EncodeError IoError HttpError -> GenericError).
(** Which events are for this encoder, and the event of an input. *)
Context (try_into : Event -> option Input) (from : Input -> Event).

Record RequestEncoder := { request_builder : @RequestBuilder Input IoError _; encoder_dropped : Z }.

Definition RequestEncoder_process_event (ev : Event) (enc : RequestEncoder) : result GenericError (@ProcessResult Event) * RequestEncoder :=
  match try_into ev with
  | None => (Ok Continue, enc)
  | Some input =>
      let '(r, rb) := encode input (request_builder enc) in
      let enc := {| request_builder := rb; encoder_dropped := encoder_dropped enc |} in
      match r with
      | Ok None => (Ok Continue, enc)
      | Ok (Some input) => (Ok (FlushRequired (from input)), enc)
      | Err e =>
          if is_recoverable e then (Ok Continue, {| request_builder := rb; encoder_dropped := encoder_dropped enc + 1 |})
          else (Err (error_context e), enc)
      end
  end.

(** The loop over the requests; [n] is the number of events dispatched so far. *)
Fixpoint dispatch_requests (n : Z) (rs : list (result (@RequestBuilderError Input EncodeError IoError HttpError) (Z * Z * Request)))
    (sent : list HttpPayload) : result (@FlushError GenericError) Z * list HttpPayload :=
  match rs with
  | [] => (Ok n, sent)
  | Ok (events, _, req) :: rs =>
      match dispatch refuses {| metadata := from_event_count events; request := req |} sent with
      | (Err e, sent) => (Err {| dispatched_events := n; source := e |}, sent)
      | (Ok _, sent) => dispatch_requests (n + events) rs sent
      end
  | Err _ :: rs => dispatch_requests n rs sent
  end.

Definition pending_inputs (rb : @RequestBuilder Input IoError _) : Z := Z.of_nat (length (encoded_inputs rb)).

Definition RequestEncoder_flush '((enc, sent) : RequestEncoder * list HttpPayload) : result (@FlushError GenericError) Z * (RequestEncoder * list HttpPayload) :=
  let pending_events := pending_inputs (request_builder enc) in
  let '(rs, rb) := @flush Input EncodeError IoError HttpError _ _ _ (request_builder enc) in
  let enc := {| request_builder := rb; encoder_dropped := encoder_dropped enc |} in
  match dispatch_requests 0 rs sent with
  | (Err e, sent) => (Err e, (enc, sent))
  | (Ok n, sent) =>
      let dropped_events := saturating_sub pending_events n in
      (Ok n, ({| request_builder := rb; encoder_dropped := if 0 <? dropped_events then encoder_dropped enc + dropped_events else encoder_dropped enc |}, sent))
  end.

#[export] Instance RequestEncoder_IncrementalEncoder : IncrementalEncoder Event HttpPayload GenericError RequestEncoder := {|
  process_event := RequestEncoder_process_event;
  encoder_flush := RequestEncoder_flush;
|}.

(** ** The metrics encoder's step *)

Record EncodeResult := { encoded : bool; flushed : bool }.

(** The sender of the payload channel fails when the other side is gone. *)
Definition flush_payload (req : Request) (events points : Z) (sent : list HttpPayload) : result GenericError unit * list HttpPayload :=
  dispatch refuses {| metadata := from_event_and_data_point_count events points; request := req |} sent.

Fixpoint flush_requests (n : Z) (rs : list (result (@RequestBuilderError Input EncodeError IoError HttpError) (Z * Z * Request)))
    (sent : list HttpPayload) : result GenericError Z * list HttpPayload :=
  match rs with
  | [] => (Ok n, sent)
  | Ok (events, points, req) :: rs => and_then (flush_payload req events points sent) (fun _ => flush_requests (n + 1) rs)
  | Err e :: rs => if is_recoverable e then flush_requests n rs sent else (Err (error_context e), sent)
  end.

Definition flush_v2_metrics '((rb, sent) : @RequestBuilder Input IoError _ * list HttpPayload) :
    result GenericError Z * (@RequestBuilder Input IoError _ * list HttpPayload) :=
  let '(rs, rb) := @flush Input EncodeError IoError HttpError _ _ _ rb in
  let '(r, sent) := flush_requests 0 rs sent in (r, (rb, sent)).

(** The request builder, the payloads sent and the counter of dropped events; [None] is a panic. *)
Definition encode_v2_metrics (metric : Input) '((rb, sent, dropped) : @RequestBuilder Input IoError _ * list HttpPayload * Z) :
    option (result GenericError EncodeResult * (@RequestBuilder Input IoError _ * list HttpPayload * Z)) :=
  match @encode Input EncodeError IoError HttpError _ _ metric rb with
  | (Ok None, rb) => Some (Ok {| encoded := true; flushed := false |}, (rb, sent, dropped))
  | (Err _, rb) => Some (Ok {| encoded := false; flushed := false |}, (rb, sent, dropped + 1))
  | (Ok (Some metric_to_retry), rb) =>
      match flush_v2_metrics (rb, sent) with
      | (Err e, (rb, sent)) => Some (Err e, (rb, sent, dropped))
      | (Ok _, (rb, sent)) =>
          match @encode Input EncodeError IoError HttpError _ _ metric_to_retry rb with
          | (Ok None, rb) => Some (Ok {| encoded := true; flushed := true |}, (rb, sent, dropped))
          | (Ok (Some _), _) => None
          | (Err _, rb) => Some (Ok {| encoded := false; flushed := true |}, (rb, sent, dropped + 1))
          end
      end
  end.
End encoders.

(** ** Events and service checks *)

Section events.
Context `{FastHasher}.

(** [ReusableDeduplicator]: the hashes that were seen, cleared for every iterator. *)
Record ReusableDeduplicator := { seen : gset Z }.

Fixpoint Deduplicated_collect (d : ReusableDeduplicator) (items : list bytes) : list bytes * ReusableDeduplicator :=
  match items with
  | [] => ([], d)
  | item :: items =>
      let hash := hash_single_fast item in
      if bool_decide (hash ∈ seen d) then Deduplicated_collect d items
      else let '(l, d) := Deduplicated_collect {| seen := {[ hash ]} ∪ seen d |} items in (item :: l, d)
  end.

Definition deduplicated (items : list bytes) (d : ReusableDeduplicator) : list bytes * ReusableDeduplicator :=
  Deduplicated_collect {| seen := ∅ |} items.

(** The data model.  An empty host name, aggregation key or source type name is absent. *)
Record EventD := {
  title : bytes;
  text : bytes;
  timestamp : option Z;
  e_hostname : bytes;
  e_aggregation_key : bytes;
  priority : option Priority;
  e_source_type_name : bytes;
  alert_type : option AlertType;
  tags : list bytes;
  origin_tags : list bytes;
}.
Definition non_empty (s : bytes) : option bytes := match s with [] => None | _ => Some s end.
Definition hostname (e : EventD) : option bytes := non_empty (e_hostname e).
Definition aggregation_key (e : EventD) : option bytes := non_empty (e_aggregation_key e).
Definition source_type_name (e : EventD) : option bytes := non_empty (e_source_type_name e).
Definition Priority_as_str (p : Priority) : bytes := match p with PriorityNormal => b "normal" | PriorityLow => b "low" end.
Definition AlertType_as_str (a : AlertType) : bytes :=
  match a with AlertInfo => b "info" | AlertError => b "error" | AlertWarning => b "warning" | AlertSuccess => b "success" end.

(** [as i64] on a [u64]. *)
Definition as_i64 (z : Z) : Z := if z <? 2 ^ 63 then z else z - 2 ^ 64.

(** The message [proto::Event] with the fields that are set. *)
Record ProtoEvent := {
  p_title : bytes; p_text : bytes; p_ts : option Z; p_priority : option bytes; p_alert_type : option bytes; p_host : option bytes;
  p_aggregation_key : option bytes; p_source_type_name : option bytes; p_tags : list bytes;
}.

Definition encode_eventd (e : EventD) (d : ReusableDeduplicator) : ProtoEvent * ReusableDeduplicator :=
  let '(tags, d) := deduplicated (tags e ++ origin_tags e) d in
  ({| p_title := title e; p_text := text e; p_ts := as_i64 <$> timestamp e; p_priority := Priority_as_str <$> priority e;
      p_alert_type := AlertType_as_str <$> alert_type e; p_host := hostname e; p_aggregation_key := aggregation_key e;
      p_source_type_name := source_type_name e; p_tags := tags |}, d).

(** [CodedOutputStream] of the protobuf library. *)
Class CodedOutput (ProtoError : Type) := {
  write_tag : Z -> bytes;
  write_message_no_tag : ProtoEvent -> result ProtoError bytes;
}.

Definition EVENTS_FIELD_NUMBER : Z := 1.

Definition encode_and_write_eventd {ProtoError} `{CodedOutput ProtoError} (e : EventD) (d : ReusableDeduplicator) :
    result ProtoError bytes * ReusableDeduplicator :=
  let '(m, d) := encode_eventd e d in
  ((fun bs => write_tag EVENTS_FIELD_NUMBER ++ bs) <$> write_message_no_tag m, d).

Definition DEFAULT_INTAKE_COMPRESSED_SIZE_LIMIT : Z := 3200000.
Definition DEFAULT_INTAKE_UNCOMPRESSED_SIZE_LIMIT : Z := 62914560.
Definition DEFAULT_SERIALIZER_COMPRESSED_SIZE_LIMIT : Z := 2621440.
Definition DEFAULT_SERIALIZER_UNCOMPRESSED_SIZE_LIMIT : Z := 4194304.

Definition clamp_payload_limits (uncompressed compressed max_uncompressed max_compressed : Z) : Z * Z :=
  (Z.min uncompressed max_uncompressed, Z.min compressed max_compressed).

(** The deduplicator is cleared for every event, so that a fresh one gives the same encoding. *)
#[export] Instance EventsEndpointEncoder {ProtoError} `{CodedOutput ProtoError} : EndpointEncoder EventD ProtoError := {
  compressed_size_limit := DEFAULT_INTAKE_COMPRESSED_SIZE_LIMIT;
  uncompressed_size_limit := DEFAULT_INTAKE_UNCOMPRESSED_SIZE_LIMIT;
  input_data_point_count _ := 0;
  is_valid_input _ := true;
  payload_prefix := None;
  payload_suffix := None;
  input_separator := None;
  encode_input e := fst (encode_and_write_eventd e {| seen := ∅ |});
  endpoint_uri := b "/api/v1/events_batch";
  endpoint_method := b "POST";
  content_type := b "application/x-protobuf";
  additional_headers := [];
}.

Record ServiceCheck := {
  sc_name : bytes;
  sc_status : CheckStatus;
  sc_timestamp : option Z;
  sc_hostname : bytes;
  sc_message : bytes;
  sc_tags : list bytes;
  sc_origin_tags : list bytes;
}.
Definition CheckStatus_as_u8 (s : CheckStatus) : Z :=
  match s with StatusOk => 0 | StatusWarning => 1 | StatusCritical => 2 | StatusUnknown => 3 end.

(** What is handed to the JSON serialiser. *)
Inductive JsonValue := JsonNumber (z : Z) | JsonString (s : bytes) | JsonArray (l : list bytes).

Definition ServiceCheck_serialize (c : ServiceCheck) : list (bytes * JsonValue) :=
  [(b "check", JsonString (sc_name c))]
  ++ (match sc_hostname c with [] => [] | h => [(b "host_name", JsonString h)] end)
  ++ (match sc_message c with [] => [] | msg => [(b "message", JsonString msg)] end)
  ++ [(b "status", JsonNumber (CheckStatus_as_u8 (sc_status c)));
      (b "tags", JsonArray (fst (deduplicated (sc_tags c ++ sc_origin_tags c) {| seen := ∅ |})))]
  ++ (match sc_timestamp c with Some ts => [(b "timestamp", JsonNumber ts)] | None => [] end).

Class SerdeJson (JsonError : Type) := { to_writer : list (bytes * JsonValue) -> result JsonError bytes }.

#[export] Instance ServiceChecksEndpointEncoder {JsonError} `{SerdeJson JsonError} : EndpointEncoder ServiceCheck JsonError := {
  compressed_size_limit := DEFAULT_SERIALIZER_COMPRESSED_SIZE_LIMIT;
  uncompressed_size_limit := DEFAULT_SERIALIZER_UNCOMPRESSED_SIZE_LIMIT;
  input_data_point_count _ := 0;
  is_valid_input _ := true;
  payload_prefix := Some (b "[");
  payload_suffix := Some (b "]");
  input_separator := Some (b ",");
  encode_input c := to_writer (ServiceCheck_serialize c);
  endpoint_uri := b "/api/v1/check_run";
  endpoint_method := b "POST";
  content_type := b "application/json";
  additional_headers := [];
}.
End events.

(** The events of the topology; metrics, logs, traces and trace statistics are not looked at here. *)
Section datadog.
Context {Metric Log Trace TraceStats ProtoError JsonError IoError HttpError GenericError : Type}.
Context `{FastHasher} `{CodedOutput ProtoError} `{SerdeJson JsonError} `{Compression IoError} `{HttpBuilder HttpError}.
Context (refuses : list HttpPayload -> HttpPayload -> option GenericError).

Inductive Event :=
| Event_Metric (m : Metric)
| Event_EventD (e : EventD)
| Event_ServiceCheck (c : ServiceCheck)
| Event_Log (l : Log)
| Event_Trace (t : Trace)
| Event_TraceStats (t : TraceStats).

Definition try_into_eventd (ev : Event) : option EventD := match ev with Event_EventD e => Some e | _ => None end.
Definition try_into_service_check (ev : Event) : option ServiceCheck := match ev with Event_ServiceCheck c => Some c | _ => None end.

Definition MAX_EVENTS_PER_PAYLOAD : Z := 100.
Definition MAX_SERVICE_CHECKS_PER_PAYLOAD : Z := 100.

Definition build_encoder {Input EncodeError} `{EndpointEncoder Input EncodeError} (max_uncompressed max_compressed max_inputs cfg_uncompressed cfg_compressed : Z) :
    result (@RequestBuilderError Input EncodeError IoError HttpError) (@RequestEncoder Input IoError _) :=
  rb ← RequestBuilder_new;
  let '(u, c) := clamp_payload_limits cfg_uncompressed cfg_compressed max_uncompressed max_compressed in
  rb ← with_len_limits u c rb;
  Ok {| request_builder := with_max_inputs_per_payload max_inputs rb; encoder_dropped := 0 |}.

(** [DatadogEventsConfiguration::build] with the two configured sizes. *)
Definition DatadogEvents_build (max_uncompressed_payload_size max_payload_size : Z) :=
  build_encoder (Input := EventD) DEFAULT_INTAKE_UNCOMPRESSED_SIZE_LIMIT DEFAULT_INTAKE_COMPRESSED_SIZE_LIMIT MAX_EVENTS_PER_PAYLOAD
    max_uncompressed_payload_size max_payload_size.
Definition DatadogServiceChecks_build (max_uncompressed_payload_size max_payload_size : Z) :=
  build_encoder (Input := ServiceCheck) DEFAULT_SERIALIZER_UNCOMPRESSED_SIZE_LIMIT DEFAULT_SERIALIZER_COMPRESSED_SIZE_LIMIT MAX_SERVICE_CHECKS_PER_PAYLOAD
    max_uncompressed_payload_size max_payload_size.

Context (events_error : @RequestBuilderError EventD ProtoError IoError HttpError -> GenericError).
Context (checks_error : @RequestBuilderError ServiceCheck JsonError IoError HttpError -> GenericError).

Definition DatadogEvents_process_event := RequestEncoder_process_event events_error try_into_eventd Event_EventD.
Definition DatadogEvents_flush := RequestEncoder_flush (Input := EventD) (EncodeError := ProtoError) refuses.
Definition DatadogServiceChecks_process_event := RequestEncoder_process_event checks_error try_into_service_check Event_ServiceCheck.
Definition DatadogServiceChecks_flush := RequestEncoder_flush (Input := ServiceCheck) (EncodeError := JsonError) refuses.

#[export] Instance DatadogEvents : IncrementalEncoder Event HttpPayload GenericError (@RequestEncoder EventD IoError _) := {|
  process_event := DatadogEvents_process_event;
  encoder_flush := DatadogEvents_flush;
|}.
#[export] Instance DatadogServiceChecks : IncrementalEncoder Event HttpPayload GenericError (@RequestEncoder ServiceCheck IoError _) := {|
  process_event := DatadogServiceChecks_process_event;
  encoder_flush := DatadogServiceChecks_flush;
|}.
End datadog.
