(* ===== verification/EncodersProofs.v ===== *)
(** * The encoders account for every event

    [EncoderLaws] is what the driver needs from an incremental encoder: events that it accepted are
    queued in order, an event that it hands back was not touched, and a flush cuts the queue into parts
    of which each is delivered by a payload or counted as dropped.  The driver is correct for every such
    encoder, and an encoder with a request builder is one. *)

From Stdlib Require Import ZArith Lia Strings.String.
From stdpp Require Import base tactics list numbers gmap.
From S2P Require Import Prelude Bytes Context DogStatsD RequestBuilder RequestBuilderProofs Encoders.
Open Scope Z_scope.

(** ** Parts of a queue *)

Section parts.
Context {Ev Payload : Type}.
Abbreviation part := (list Ev * option Payload)%type.

Definition events_of (parts : list part) : list Ev := mjoin (fst <$> parts).
Definition payloads_of (parts : list part) : list Payload := omap snd parts.
Definition delivered (parts : list part) : Z := sumZ (fun p => if p.2 is Some _ then Z.of_nat (length p.1) else 0) parts.
Definition undelivered (parts : list part) : Z := sumZ (fun p => if p.2 is Some _ then 0 else Z.of_nat (length p.1)) parts.

Lemma events_of_app x y : events_of (x ++ y) = events_of x ++ events_of y.
Proof. unfold events_of. by rewrite fmap_app, join_app. Qed.
Lemma payloads_of_app x y : payloads_of (x ++ y) = payloads_of x ++ payloads_of y.
Proof. apply omap_app. Qed.
Lemma delivered_app x y : delivered (x ++ y) = delivered x + delivered y.
Proof. apply sumZ_app. Qed.
Lemma undelivered_app x y : undelivered (x ++ y) = undelivered x + undelivered y.
Proof. apply sumZ_app. Qed.

Lemma events_of_length parts : Z.of_nat (length (events_of parts)) = delivered parts + undelivered parts.
Proof.
  induction parts as [|[evs o] parts IH]; [done|]. change (events_of ((evs, o) :: parts)) with (evs ++ events_of parts).
  unfold delivered, undelivered in *. rewrite length_app, !sumZ_cons. destruct o; cbn [snd fst]; lia.
Qed.

Lemma delivered_nonneg parts : 0 <= delivered parts.
Proof. apply sumZ_nonneg. intros [evs [p|]] _; cbn; lia. Qed.
Lemma undelivered_nonneg parts : 0 <= undelivered parts.
Proof. apply sumZ_nonneg. intros [evs [p|]] _; cbn; lia. Qed.
End parts.

(** ** The contract of an incremental encoder *)

Class EncoderLaws (Event Payload GenericError Enc : Type) `{IncrementalEncoder Event Payload GenericError Enc} := {
  enc_ok : Enc -> Prop;
  relevant : Event -> bool;
  queued : Enc -> list Event;
  dropped : Enc -> Z;
  delivers : list Event -> Payload -> Prop;
  law_continue ev enc enc' : enc_ok enc -> process_event ev enc = (Ok Continue, enc') ->
    enc_ok enc' /\ queued enc' = queued enc ++ (if relevant ev then [ev] else []) /\ dropped enc' = dropped enc;
  law_flush_required ev ev' enc enc' : enc_ok enc -> process_event ev enc = (Ok (FlushRequired ev'), enc') ->
    enc' = enc /\ ev' = ev /\ relevant ev = true;
  law_flush enc sent n enc' sent' : enc_ok enc -> encoder_flush (enc, sent) = (Ok n, (enc', sent')) ->
    enc_ok enc' /\ queued enc' = [] /\
    exists parts, queued enc = events_of parts /\ sent' = sent ++ payloads_of parts /\ n = delivered parts /\
      dropped enc' = dropped enc + undelivered parts /\ Forall (fun p => if p.2 is Some payload then delivers p.1 payload else True) parts;
}.

(** ** The driver *)

Section driver.
Context {Event Payload GenericError Enc : Type} `{EncoderLaws Event Payload GenericError Enc}.
Abbreviation Task := (EncoderTask Payload Enc).

(** What has become of the events that were received. *)
Record accounts (received : list Event) (t : Task) (parts : list (list Event * option Payload)) : Prop := {
  ac_ok : enc_ok (encoder t);
  ac_events : filter (fun ev => relevant ev = true) received = events_of parts ++ queued (encoder t);
  ac_sent : sent t = payloads_of parts;
  ac_flushed : events_flushed (telemetry t) = delivered parts;
  ac_dropped : dropped (encoder t) + events_dropped_encoder (telemetry t) = undelivered parts;
  ac_delivers : Forall (fun p => if p.2 is Some payload then delivers p.1 payload else True) parts;
}.

Lemma flush_encoder_accounts received t t' parts :
  accounts received t parts -> flush_encoder t = (Ok tt, t') -> exists parts', accounts received t' parts' /\ queued (encoder t') = [].
Proof.
  intros [A1 A2 A3 A4 A5 A6]. unfold flush_encoder. destruct (encoder_flush (encoder t, sent t)) as [[n|e] [enc s]] eqn:E; [|done]. intros [= <-].
  destruct (law_flush _ _ _ _ _ A1 E) as (Hok & Hq & new & Hn & Hs & Hd & Hu & Hall). exists (parts ++ new). split; [|done].
  pose proof (delivered_nonneg new). split; cbn; rewrite ?events_of_app, ?payloads_of_app, ?delivered_app, ?undelivered_app, ?Hq, ?app_nil_r.
  - done.
  - by rewrite A2, Hn.
  - by rewrite Hs, A3.
  - destruct (Z.ltb_spec 0 n); cbn; lia.
  - destruct (Z.ltb_spec 0 n); cbn; lia.
  - by apply Forall_app.
Qed.

Lemma process_accounts received t t' ev r parts :
  accounts received t parts -> process ev t = (Ok r, t') ->
  match r with
  | Continue => accounts (received ++ [ev]) t' parts
  | FlushRequired ev' => t' = t /\ ev' = ev /\ relevant ev = true
  end.
Proof.
  intros [A1 A2 A3 A4 A5 A6]. unfold process. destruct (process_event ev (encoder t)) as [[[|ev']|e] enc] eqn:E; intros [= <- <-].
  - destruct (law_continue _ _ _ A1 E) as (Hok & Hq & Hd). split; cbn; [done| |done|done|by rewrite Hd|done].
    rewrite filter_app, A2, Hq, app_assoc. f_equal. rewrite filter_cons, filter_nil. by destruct (relevant ev).
  - destruct (law_flush_required _ _ _ _ A1 E) as (-> & -> & Hr). split; [by destruct t|done].
Qed.

(** An event that does not fit an empty payload is dropped and counted. *)
Lemma drop_accounts received t ev parts :
  accounts received t parts -> queued (encoder t) = [] -> relevant ev = true ->
  accounts (received ++ [ev]) (task_telemetry (count_dropped 1) t) (parts ++ [([ev], None)]).
Proof.
  intros [A1 A2 A3 A4 A5 A6] Hq Hr. split; cbn; rewrite ?events_of_app, ?payloads_of_app, ?delivered_app, ?undelivered_app, ?Hq, ?app_nil_r; cbn.
  - done.
  - rewrite filter_app, A2, Hq, app_nil_r. f_equal. rewrite filter_cons, filter_nil, Hr. by rewrite decide_True.
  - exact A3.
  - lia.
  - lia.
  - apply Forall_app. split; [done|]. by repeat constructor.
Qed.

Lemma encode_event_accounts received t t' ev parts :
  accounts received t parts -> encode_event ev t = (Ok tt, t') -> exists parts', accounts (received ++ [ev]) t' parts'.
Proof.
  intros A. unfold encode_event, and_then. destruct (process ev t) as [[r|e] t1] eqn:E1; [|done].
  pose proof (process_accounts _ _ _ _ _ _ A E1) as A1. destruct r as [|ev']; [intros [= <-]; by exists parts|].
  destruct A1 as (-> & -> & Hr). destruct (flush_encoder t) as [[[]|e] t2] eqn:E2; [|done].
  destruct (flush_encoder_accounts _ _ _ _ A E2) as (parts2 & A2 & Hq). destruct (process ev t2) as [[r|e] t3] eqn:E3; [|done].
  pose proof (process_accounts _ _ _ _ _ _ A2 E3) as A3. destruct r as [|ev']; intros [= <-]; [by exists parts2|].
  destruct A3 as (-> & _). eexists. by apply drop_accounts.
Qed.

Lemma encode_events_accounts evs received t t' parts :
  accounts received t parts -> encode_events evs t = (Ok tt, t') -> exists parts', accounts (received ++ evs) t' parts'.
Proof.
  revert received t parts. induction evs as [|ev evs IH]; intros received t parts A; cbn [encode_events].
  - intros [= <-]. exists parts. by rewrite app_nil_r.
  - unfold and_then. destruct (encode_event ev t) as [[[]|e] t1] eqn:E; [|done]. intros Hr.
    destruct (encode_event_accounts _ _ _ _ _ A E) as (parts1 & A1). destruct (IH _ _ _ A1 Hr) as (parts2 & A2). exists parts2.
    by rewrite <- app_assoc in A2.
Qed.

Lemma accounts_pending received t parts p : accounts received t parts -> accounts received (task_pending p t) parts.
Proof. intros []. by split. Qed.

(** The events of the buffers that were received. *)
Definition received_events (ws : list (@wakeup Event)) : list Event := mjoin ((fun w => match w with EventBuffer evs => evs | FlushTimeout => [] end) <$> ws).

Lemma run_accounts ws received t t' parts :
  accounts received t parts -> run_incremental_encoder ws t = (Ok tt, t') ->
  exists parts', accounts (received ++ received_events ws) t' parts' /\ queued (encoder t') = [].
Proof.
  revert received t parts. induction ws as [|w ws IH]; intros received t parts A; cbn [run_incremental_encoder].
  - intros E. destruct (flush_encoder_accounts _ _ _ _ A E) as (parts' & A' & Hq). exists parts'. by rewrite app_nil_r.
  - unfold and_then at 1. destruct (handle_wakeup w t) as [[[]|e] t1] eqn:E; [|done]. intros Hr.
    assert (exists parts1, accounts (received ++ match w with EventBuffer evs => evs | FlushTimeout => [] end) t1 parts1) as [parts1 A1].
    { destruct w as [evs|]; cbn [handle_wakeup] in E.
      - unfold and_then in E. destruct (encode_events evs t) as [[[]|e] t2] eqn:E2; [|done]. injection E as <-.
        destruct (encode_events_accounts _ _ _ _ _ A E2) as (parts2 & A2). exists parts2. by apply accounts_pending.
      - rewrite app_nil_r. destruct (pending_flush t); [|injection E as <-; by exists parts].
        apply (accounts_pending _ _ _ false) in A. destruct (flush_encoder_accounts _ _ _ _ A E) as (parts2 & A2 & _). by exists parts2. }
    destruct (IH _ _ _ A1 Hr) as (parts2 & A2 & Hq). exists parts2. split; [|done].
    change (received_events (w :: ws)) with (match w with EventBuffer evs => evs | FlushTimeout => [] end ++ received_events ws). by rewrite app_assoc.
Qed.
End driver.

(** ** An encoder with a request builder keeps the contract *)

Section encoders.
Context {Event Input EncodeError IoError HttpError GenericError : Type}.
Context `{EndpointEncoder Input EncodeError} `{CompressionLaws IoError} `{HttpBuilder HttpError}.
Context (encoded_nonempty : forall input bs, encode_input input = Ok bs -> bs <> [])
        (http_accepts : forall h, build_error h = None)
        (points_nonneg : forall input, 0 <= input_data_point_count input).
Context (refuses : list HttpPayload -> HttpPayload -> option GenericError).
Context (error_context : @RequestBuilderError Input EncodeError IoError HttpError -> GenericError).
Context (try_into : Event -> option Input) (from : Input -> Event).
Context (try_into_from : forall input, try_into (from input) = Some input) (from_try_into : forall ev input, try_into ev = Some input -> from input = ev).

Abbreviation RB := (@RequestBuilder Input IoError _).
Abbreviation RBError := (@RequestBuilderError Input EncodeError IoError HttpError).
Abbreviation enc := (@encode Input EncodeError IoError HttpError _ _).
Abbreviation fl := (@flush Input EncodeError IoError HttpError _ _ _).
Abbreviation ok := (@rb_ok Input EncodeError IoError HttpError _ _).

(** The builder the encoder was made with, whose limits hold. *)
Context (cfg : RB).

Definition builder_of (e : RequestEncoder) : Prop := ok (request_builder e) /\ emptied (request_builder e) = emptied cfg.

Definition carried (evs : list Event) (p : HttpPayload) : Prop :=
  exists inputs points, evs = from <$> inputs /\ carries cfg inputs (event_count (metadata p)) points (request p).

(** What becomes of the parts of a flush when their requests are dispatched. *)
Lemma dispatch_parts parts0 n sent n' sent' :
  Forall (@fate Input EncodeError IoError HttpError _ _ _ cfg) parts0 ->
  dispatch_requests (HttpError:=HttpError) refuses n (omap snd parts0) sent = (Ok n', sent') ->
  exists parts, events_of parts = from <$> mjoin (fst <$> parts0) /\ sent' = sent ++ payloads_of parts /\ n' = n + delivered parts /\
    Forall (fun p => if p.2 is Some payload then carried p.1 payload else True) parts.
Proof.
  intros Hf. revert n sent. induction Hf as [|[inputs o] parts0 Hx Hf IH]; intros n sent.
  - intros [= <- <-]. exists []. rewrite app_nil_r. unfold delivered, events_of. cbn. by rewrite Z.add_0_r.
  - assert (Hskip : dispatch_requests (HttpError:=HttpError) refuses n (omap snd parts0) sent = (Ok n', sent') ->
      exists parts, events_of parts = from <$> mjoin (fst <$> (inputs, o) :: parts0) /\ sent' = sent ++ payloads_of parts /\ n' = n + delivered parts /\
        Forall (fun p => if p.2 is Some payload then carried p.1 payload else True) parts).
    { intros Hd. destruct (IH _ _ Hd) as (parts & He & Hs & Hn & Hall). exists ((from <$> inputs, None) :: parts). split_and!; [|done|done|by constructor].
      change (events_of ((from <$> inputs, None) :: parts)) with ((from <$> inputs) ++ events_of parts). rewrite He. cbn. by rewrite fmap_app. }
    destruct o as [o|]; [|exact Hskip]. unfold fate in Hx. cbn [fst snd] in Hx. destruct Hx as [count points req Hc|size Hs]; [|exact Hskip].
    cbn. unfold dispatch. destruct (refuses sent _); [done|]. intros Hd. destruct (IH _ _ Hd) as (parts & He & Hs & Hn & Hall).
    set (payload := {| metadata := from_event_count count; request := req |}) in *.
    exists ((from <$> inputs, Some payload) :: parts). split_and!.
    + change (events_of ((from <$> inputs, Some payload) :: parts)) with ((from <$> inputs) ++ events_of parts). rewrite He. by rewrite fmap_app.
    + change (payloads_of ((from <$> inputs, Some payload) :: parts)) with ([payload] ++ payloads_of parts). by rewrite Hs, <- app_assoc.
    + unfold delivered in *. rewrite sumZ_cons. cbn [fst snd]. rewrite length_fmap. rewrite (ca_count _ _ _ _ _ Hc) in Hn. lia.
    + constructor; [|done]. exists inputs, points. done.
Qed.

#[local] Instance RequestEncoder_inst : IncrementalEncoder Event HttpPayload GenericError (@RequestEncoder Input IoError _) :=
  RequestEncoder_IncrementalEncoder refuses error_context try_into from.

(** [encode] never fails with a recoverable error. *)
Lemma encode_errors input (rb rb' : RB) e : enc input rb = (Err e, rb') -> is_recoverable e = false.
Proof.
  unfold encode. destruct (negb _); [by intros [= <- _]|]. destruct (_ <? input_data_point_count input); [by intros [= <- _]|].
  destruct (_ <=? _); [done|]. destruct (_ && _); [done|].
  destruct (@encode_inner Input EncodeError IoError HttpError _ _ input rb) as [[[|]|e1] rb1] eqn:E; [done..|]. intros [= <- _].
  unfold encode_inner in E. repeat case_match; simplify_eq/=; done.
Qed.

Lemma encode_returns_input input (rb rb' : RB) x : enc input rb = (Ok (Some x), rb') -> x = input.
Proof. unfold encode. repeat case_match; intros [=]; done. Qed.

#[local] Program Instance RequestEncoder_laws : EncoderLaws Event HttpPayload GenericError (@RequestEncoder Input IoError _) := {
  enc_ok := builder_of;
  relevant ev := bool_decide (is_Some (try_into ev));
  queued e := from <$> encoded_inputs (request_builder e);
  dropped := encoder_dropped;
  delivers := carried;
}.
Next Obligation.
  intros ev e e' [Hok Hem]. cbn. unfold RequestEncoder_process_event. destruct (try_into ev) as [input|] eqn:Ei; cbn.
  2:{ intros [= <-]. by rewrite app_nil_r. }
  destruct (enc input (request_builder e)) as [r rb] eqn:E. destruct (encode_ok points_nonneg _ _ _ _ Hok E) as (Hok' & Hn & _).
  pose proof (encode_emptied _ _ _ _ E) as Hem'. destruct r as [[x|]|x]; [done| |].
  - intros [= <-]. cbn. rewrite Hn, fmap_app by done. cbn. rewrite (from_try_into _ _ Ei). split; [|done]. split; [done|]. cbn. by rewrite Hem'.
  - by rewrite (encode_errors _ _ _ _ E).
Qed.
Next Obligation.
  intros ev ev' e e' [Hok Hem]. cbn. unfold RequestEncoder_process_event. destruct (try_into ev) as [input|] eqn:Ei; [|done].
  destruct (enc input (request_builder e)) as [r rb] eqn:E. destruct (encode_ok points_nonneg _ _ _ _ Hok E) as (_ & _ & Hsame).
  destruct r as [[x|]|x]; [|done|by destruct (is_recoverable x)]. intros [= <- <-]. rewrite Hsame by done.
  assert (x = input) as -> by (eapply encode_returns_input; exact E). split; [by destruct e|]. split; [by apply from_try_into|done].
Qed.
Next Obligation.
  intros e s n e' s' [Hok Hem]. cbn. unfold pending_inputs. destruct (flush_spec encoded_nonempty http_accepts points_nonneg _ Hok) as (rs & Hfl & Hrs). rewrite Hfl.
  destruct (flushes_parts _ _ Hrs) as (parts0 & Hp & -> & Hf).
  destruct (dispatch_requests refuses 0 (omap snd parts0) s) as [[n0|x] s0] eqn:Ed; [|done]. intros [= <- <- <-].
  destruct (flushed_ok _ Hok) as (Hok1 & Hem1 & Hi1).
  assert (Hf' : Forall (@fate Input EncodeError IoError HttpError _ _ _ cfg) parts0) by (eapply Forall_impl; [exact Hf|]; intros part; by apply fate_emptied).
  destruct (dispatch_parts _ _ _ _ _ Hf' Ed) as (parts & He & Hs & Hn & Hall).
  split; [split; [done|]; cbn; by rewrite Hem1|]. split; [by cbn; rewrite Hi1|]. exists parts. split_and!; [by rewrite Hp, He|done|lia| |done].
  assert (Hlen : Z.of_nat (length (encoded_inputs (request_builder e))) = delivered parts + undelivered parts)
    by (rewrite <- events_of_length, He, length_fmap; by rewrite Hp).
  pose proof (undelivered_nonneg parts). rewrite Hlen. unfold saturating_sub. cbn. destruct (Z.ltb_spec 0 (Z.max 0 (delivered parts + undelivered parts - n0))); lia.
Qed.
(** The task as it is spawned. *)
Definition fresh_task (e : @RequestEncoder Input IoError _) : EncoderTask HttpPayload (@RequestEncoder Input IoError _) :=
  {| encoder := e; telemetry := telemetry_new; pending_flush := false; sent := [] |}.

(** C6: an encoder task that runs to the end of its event stream accounts for every event it was sent:
    the events for this encoder, in their order, are cut into parts, and each part is delivered by one
    dispatched payload, whose body decompresses to the framed encodings of exactly these events and is
    within all limits, or is dropped.  The dispatched payloads are those of the parts, the counter of
    flushed events is the number of events delivered, and the two counters of dropped events add up to
    the number of the others. *)
Theorem encoder_accounts_for_every_event ws t' :
  @configured Input EncodeError IoError HttpError _ _ cfg ->
  run_incremental_encoder ws (fresh_task {| request_builder := cfg; encoder_dropped := 0 |}) = (Ok tt, t') ->
  exists parts, filter (fun ev => bool_decide (is_Some (try_into ev)) = true) (received_events ws) = events_of parts /\
    sent t' = payloads_of parts /\ events_flushed (telemetry t') = delivered parts /\
    encoder_dropped (encoder t') + events_dropped_encoder (telemetry t') = undelivered parts /\
    Forall (fun p => if p.2 is Some payload then carried p.1 payload else True) parts /\ encoded_inputs (request_builder (encoder t')) = [].
Proof.
  intros Hc Hr. destruct (configured_ok _ Hc) as [Hok Hem].
  assert (A : accounts [] (fresh_task {| request_builder := cfg; encoder_dropped := 0 |}) []).
  { split; cbn; [done| |done..]. rewrite <- Hem. done. }
  destruct (run_accounts _ _ _ _ _ A Hr) as (parts & [_ A2 A3 A4 A5 A6] & Hq). exists parts. rewrite Hq, app_nil_r in A2. split_and!; [done..|].
  by apply fmap_nil_inv in Hq.
Qed.

(** An input that the limits allow for, together with the framing. *)
Definition fits (input : Input) : Prop :=
  is_valid_input input = true /\ input_data_point_count input <= max_data_points_per_payload cfg /\
  exists bs, encode_input input = Ok bs /\ opt_len payload_prefix + opt_len payload_suffix + blen bs <= uncompressed_len_limit cfg.

Lemma builder_limits e : builder_of e ->
  max_data_points_per_payload (request_builder e) = max_data_points_per_payload cfg /\ uncompressed_len_limit (request_builder e) = uncompressed_len_limit cfg /\
  max_inputs_per_payload (request_builder e) = max_inputs_per_payload cfg.
Proof.
  intros [_ Hem]. split_and!;
    [exact (f_equal max_data_points_per_payload Hem)|exact (f_equal uncompressed_len_limit Hem)|exact (f_equal max_inputs_per_payload Hem)].
Qed.

Lemma encode_fits input e : builder_of e -> fits input -> exists r rb', enc input (request_builder e) = (Ok r, rb').
Proof.
  intros Hb (Hv & Hp & bs & He & Hl). destruct (builder_limits _ Hb) as (L1 & L2 & L3). unfold encode. rewrite Hv, L1. cbn [negb].
  rewrite (proj2 (Z.ltb_ge _ _)) by done. destruct (_ <=? _); [by eexists _, _|]. destruct (_ && _); [by eexists _, _|].
  destruct (@encode_inner Input EncodeError IoError HttpError _ _ input (request_builder e)) as [[[|]|x] rb'] eqn:E; [by eexists _, _..|]. exfalso.
  destruct (encode_all_again (HttpError:=HttpError) [input] [bs] (request_builder e)) as (rb1 & Hr & _).
  - by repeat constructor.
  - repeat constructor. rewrite L2. pose proof (blen_nonneg (default [] payload_prefix)). pose proof (blen_nonneg (default [] payload_suffix)).
    rewrite !opt_len_default in Hl. lia.
  - cbn [encode_all] in Hr. rewrite E in Hr. by destruct Hr.
Qed.

Context (never_refuses : forall s p, refuses s p = None).

Lemma dispatch_all n rs s : exists n' s', dispatch_requests (Input:=Input) (EncodeError:=EncodeError) (IoError:=IoError) (HttpError:=HttpError) refuses n rs s = (Ok n', s').
Proof.
  revert n s. induction rs as [|[[[events points] req]|e] rs IH]; intros n s; cbn; [by eexists _, _| |apply IH].
  unfold dispatch. rewrite never_refuses. apply IH.
Qed.

(** The invariant of a task whose events all fit. *)
Definition healthy (t : EncoderTask HttpPayload (@RequestEncoder Input IoError _)) : Prop :=
  builder_of (encoder t) /\ events_dropped_encoder (telemetry t) = 0.

Lemma flush_encoder_healthy t : healthy t -> exists t', flush_encoder t = (Ok tt, t') /\ healthy t' /\ encoded_inputs (request_builder (encoder t')) = [].
Proof.
  intros [Hb Hd]. unfold flush_encoder. destruct (encoder_flush (encoder t, sent t)) as [r [e s]] eqn:E.
  assert (exists n, r = Ok n) as [n ->].
  { cbn in E. destruct (fl (request_builder (encoder t))) as [rs rb]. destruct (dispatch_all 0 rs (sent t)) as (n & s' & Hx). rewrite Hx in E.
    injection E as <- _ _. by eexists. }
  destruct (@law_flush _ _ _ _ _ RequestEncoder_laws _ _ _ _ _ Hb E) as (Hb' & Hq & _). eexists. split; [reflexivity|]. split; [split; [done|]; by destruct (0 <? n)|].
  by apply fmap_nil_inv in Hq.
Qed.

Lemma encode_event_healthy ev t :
  (forall input, try_into ev = Some input -> fits input) -> 0 < max_inputs_per_payload cfg -> healthy t -> exists t', encode_event ev t = (Ok tt, t') /\ healthy t'.
Proof.
  intros Hfit Hm Hh. unfold encode_event, process. destruct (process_event ev (encoder t)) as [r e] eqn:E.
  assert (Hr : exists x, r = Ok x).
  { cbn in E. unfold RequestEncoder_process_event in E. destruct (try_into ev) as [input|]; [|injection E as <- _; by eexists].
    destruct (encode_fits input (encoder t)) as (r1 & rb & Hx); [by apply Hh|by apply Hfit|]. rewrite Hx in E. destruct r1; injection E as <- _; by eexists. }
  destruct Hr as [[|ev'] ->]; cbn [and_then].
  - eexists. split; [reflexivity|]. destruct Hh as [Hb Hd]. destruct (@law_continue _ _ _ _ _ RequestEncoder_laws _ _ _ Hb E) as (Hb' & _). by split.
  - destruct Hh as [Hb Hd]. destruct (@law_flush_required _ _ _ _ _ RequestEncoder_laws _ _ _ _ Hb E) as (-> & -> & Hrel). apply bool_decide_eq_true in Hrel as [input Hi].
    destruct (flush_encoder_healthy (task_encoder (encoder t) t)) as (t1 & -> & [Hb1 Hd1] & Hq); [by split|]. cbn [and_then].
    destruct (Hfit _ Hi) as (Hv & Hp & bs & He & Hl). destruct (builder_limits _ Hb1) as (L1 & L2 & L3).
    destruct (encode_empty (HttpError:=HttpError) input bs (request_builder (encoder t1))) as [rb Hx]; [apply Hb1|done..|lia|lia|lia|].
    assert (Hp1 : process_event ev (encoder t1) = (Ok Continue, {| request_builder := rb; encoder_dropped := encoder_dropped (encoder t1) |}))
      by (cbn; unfold RequestEncoder_process_event; by rewrite Hi, Hx).
    rewrite Hp1. cbn [and_then]. eexists. split; [reflexivity|]. destruct (@law_continue _ _ _ _ _ RequestEncoder_laws _ _ _ Hb1 Hp1) as (Hb2 & _). by split.
Qed.

Lemma encode_events_healthy evs t :
  (forall ev input, ev ∈ evs -> try_into ev = Some input -> fits input) -> 0 < max_inputs_per_payload cfg -> healthy t ->
  exists t', encode_events evs t = (Ok tt, t') /\ healthy t'.
Proof.
  intros Hfit Hm. revert t. induction evs as [|ev evs IH]; intros t Hh; cbn [encode_events]; [by eexists|].
  destruct (encode_event_healthy ev t) as (t1 & -> & Hh1); [intros input; apply Hfit; by left|done..|]. cbn [and_then].
  apply IH; [|done]. intros ev' input Hin. apply Hfit. by right.
Qed.

(** when every event for this encoder fits the limits together with the framing and the outputs take
    every payload, the task runs to the end without an error and never gives up on an event after a
    flush, whatever the buffers and the timeouts: only a payload that is too large when compressed is
    dropped. *)
Theorem encoder_run_succeeds ws :
  @configured Input EncodeError IoError HttpError _ _ cfg -> 0 < max_inputs_per_payload cfg ->
  (forall ev input, ev ∈ received_events ws -> try_into ev = Some input -> fits input) ->
  exists t', run_incremental_encoder ws (fresh_task {| request_builder := cfg; encoder_dropped := 0 |}) = (Ok tt, t') /\
    events_dropped_encoder (telemetry t') = 0.
Proof.
  intros Hc Hm Hfit. destruct (configured_ok _ Hc) as [Hok Hem].
  assert (Hh : healthy (fresh_task {| request_builder := cfg; encoder_dropped := 0 |})) by done.
  revert Hh Hfit. generalize (fresh_task {| request_builder := cfg; encoder_dropped := 0 |}) as t.
  induction ws as [|w ws IH]; intros t Hh Hfit; cbn [run_incremental_encoder].
  - destruct (flush_encoder_healthy t Hh) as (t' & -> & [_ Hd] & _). by exists t'.
  - change (received_events (w :: ws)) with (match w with EventBuffer evs => evs | FlushTimeout => [] end ++ received_events ws) in Hfit.
    assert (exists t1, handle_wakeup w t = (Ok tt, t1) /\ healthy t1) as (t1 & -> & Hh1).
    { destruct w as [evs|]; cbn [handle_wakeup].
      - destruct (encode_events_healthy evs t) as (t1 & -> & Hh1); [intros ev input Hin; apply Hfit; apply elem_of_app; by left|done..|]. by eexists.
      - destruct (pending_flush t); [|by eexists]. destruct (flush_encoder_healthy (task_pending false t) Hh) as (t1 & -> & Hh1 & _). by eexists. }
    cbn [and_then]. apply IH; [done|]. intros ev input Hin. apply Hfit. apply elem_of_app. by right.
Qed.
(** The metrics encoder takes every metric that fits, after a flush if need be, and does not reach the
    [unreachable!] of its second attempt. *)
Lemma encode_v2_metrics_fits input rb s d :
  builder_of {| request_builder := rb; encoder_dropped := d |} -> 0 < max_inputs_per_payload cfg -> fits input ->
  exists fl rb' s', encode_v2_metrics (HttpError:=HttpError) refuses error_context input (rb, s, d) = Some (Ok {| encoded := true; flushed := fl |}, (rb', s', d)) /\
    exists before, encoded_inputs rb' = before ++ [input].
Proof.
  intros Hb Hm Hfit. destruct (encode_fits input _ Hb Hfit) as (r & rb1 & E). cbn [request_builder] in E. unfold encode_v2_metrics. rewrite E.
  destruct (encode_ok points_nonneg _ _ _ _ (proj1 Hb) E) as (_ & Hn & Hsame). destruct r as [x|].
  2:{ eexists _, _, _. split; [reflexivity|]. exists (encoded_inputs rb). by apply Hn. }
  pose proof (encode_returns_input _ _ _ _ E) as ->. specialize (Hsame ltac:(done)) as ->. cbn [request_builder] in *.
  destruct (flush_spec encoded_nonempty http_accepts points_nonneg _ (proj1 Hb)) as (rs & Hfl & Hrs). cbn [request_builder] in Hfl.
  unfold flush_v2_metrics. rewrite Hfl. destruct (flushes_parts _ _ Hrs) as (parts0 & _ & -> & Hf).
  assert (Hfr : forall n s0, exists n' s', flush_requests (HttpError:=HttpError) refuses error_context n (omap snd parts0) s0 = (Ok n', s')).
  { clear -Hf never_refuses. induction Hf as [|[inputs o] parts0 Hx Hf IH]; intros n s0; [by eexists _, _|]. destruct o as [o|]; [|apply IH].
    unfold fate in Hx. cbn [fst snd] in Hx. destruct Hx as [count points req Hc|size Hs]; cbn; [|apply IH].
    unfold flush_payload, dispatch. rewrite never_refuses. cbn [and_then]. apply IH. }
  destruct (Hfr 0 s) as (n' & s' & ->). destruct (flushed_ok _ (proj1 Hb)) as (Hok1 & Hem1 & Hi1). cbn [request_builder] in *.
  set (rb2 := if encoded_inputs rb is [] then rb else emptied rb) in *.
  destruct Hfit as (Hv & Hp & bs & He & Hl).
  destruct (builder_limits {| request_builder := rb2; encoder_dropped := d |}) as (L1 & L2 & L3); [split; [done|]; cbn; rewrite Hem1; apply Hb|]. cbn in *.
  destruct (encode_empty (HttpError:=HttpError) input bs rb2) as [rb3 Hx]; [done..|lia|lia|lia|]. rewrite Hx. eexists _, _, _. split; [reflexivity|].
  destruct (encode_ok points_nonneg _ _ _ _ Hok1 Hx) as (_ & Hn2 & _). exists []. by rewrite Hn2, Hi1.
Qed.
End encoders.

(** The encoders of events and service checks are of this form. *)
Lemma DatadogEvents_is_request_encoder {Metric Log Trace TraceStats ProtoError IoError HttpError GenericError}
    `{FastHasher} `{CodedOutput ProtoError} `{Compression IoError} `{HttpBuilder HttpError} refuses error :
  @DatadogEvents Metric Log Trace TraceStats ProtoError IoError HttpError GenericError _ _ _ _ refuses error =
  RequestEncoder_IncrementalEncoder refuses error try_into_eventd Event_EventD.
Proof. reflexivity. Qed.

Lemma DatadogServiceChecks_is_request_encoder {Metric Log Trace TraceStats JsonError IoError HttpError GenericError}
    `{FastHasher} `{SerdeJson JsonError} `{Compression IoError} `{HttpBuilder HttpError} refuses error :
  @DatadogServiceChecks Metric Log Trace TraceStats JsonError IoError HttpError GenericError _ _ _ _ refuses error =
  RequestEncoder_IncrementalEncoder refuses error try_into_service_check Event_ServiceCheck.
Proof. reflexivity. Qed.

(** Deduplicated tags: without hash collisions, the tags in order, each at its first occurrence. *)
Lemma deduplicated_first_occurrences `{FastHasher} d items :
  (forall x y, x ∈ items -> y ∈ items -> hash_single_fast x = hash_single_fast y -> x = y) ->
  exists l d', deduplicated items d = (l, d') /\ NoDup l /\ l `sublist_of` items /\ forall x, x ∈ l <-> x ∈ items.
Proof.
  intros Hinj. unfold deduplicated.
  enough (Hx : forall its (seen_items : list bytes) (s : gset Z), (forall h, h ∈ s <-> exists x, x ∈ seen_items /\ hash_single_fast x = h) ->
    (forall x y, x ∈ seen_items ++ its -> y ∈ seen_items ++ its -> hash_single_fast x = hash_single_fast y -> x = y) ->
    exists l d', Deduplicated_collect {| seen := s |} its = (l, d') /\ NoDup l /\ l `sublist_of` its /\ forall x, x ∈ l <-> x ∈ its /\ x ∉ seen_items).
  { destruct (Hx items [] ∅) as (l & d' & E & Hnd & Hsub & Hin); [set_solver|done|]. exists l, d'. split_and!; [done..|]. set_solver. }
  clear. induction its as [|it its IH]; intros seen_items s Hs Hinj; cbn [Deduplicated_collect].
  - eexists _, _. split; [reflexivity|]. split; [constructor|]. split; [done|]. set_solver.
  - cbn [seen]. case_bool_decide as Hin.
    + apply Hs in Hin as (x & Hx & Hh). assert (it = x) as <- by (apply Hinj; [set_solver..|done]).
      destruct (IH seen_items s Hs) as (l & d' & E & Hnd & Hsub & Hl); [intros a c Ha Hc; apply Hinj; set_solver|].
      exists l, d'. split_and!; [done|done|by apply sublist_cons|]. set_solver.
    + destruct (IH (it :: seen_items) ({[hash_single_fast it]} ∪ s)) as (l & d' & E & Hnd & Hsub & Hl).
      { set_solver. } { intros a c Ha Hc. apply Hinj; set_solver. }
      rewrite E. exists (it :: l), d'. split_and!; [done| |by apply sublist_skip|].
      * constructor; [|done]. rewrite Hl. set_solver.
      * intros x. rewrite elem_of_cons, Hl, elem_of_cons.
        assert (it ∉ seen_items) by (intros Hc; apply Hin, Hs; by exists it). destruct (decide (x = it)) as [->|]; set_solver.
Qed.

(** ** A small instance *)

Module Small.
Import Packed.
Abbreviation Ev := (bytes + unit)%type.
Definition try_into (ev : Ev) : option bytes := match ev with inl s => Some s | inr _ => None end.
Definition never (s : list HttpPayload) (p : HttpPayload) : option unit := None.
Definition generic (e : @RequestBuilderError bytes unit Empty_set Empty_set) : unit := tt.

#[export] Instance encoder_inst : IncrementalEncoder Ev HttpPayload unit (@RequestEncoder bytes Empty_set packed) :=
  @RequestEncoder_IncrementalEncoder Ev bytes unit Empty_set Empty_set unit (strings 1000 80) packed http never generic try_into inl.

Definition wakeups : list (@wakeup Ev) :=
  [EventBuffer [inl zeros; inl zeros; inr tt; inl zeros; inl text; inl text; inl text]; FlushTimeout; EventBuffer [inl text; inl zeros]; FlushTimeout; FlushTimeout].

Abbreviation run := (@run_incremental_encoder Ev HttpPayload unit _ encoder_inst).
Definition task := fresh_task {| request_builder := fresh 1000 80; encoder_dropped := 0 |}.

Lemma fresh_configured : @configured bytes unit Empty_set Empty_set (strings 1000 80) packed (fresh 1000 80).
Proof. apply Created. reflexivity. Qed.

Lemma inl_try_into ev input : try_into ev = Some input -> (inl input : Ev) = ev.
Proof. by destruct ev; [intros [= ->]|]. Qed.
End Small.

(** A metric that fits the limit by itself but not with the framing makes the metrics encoder panic. *)
Example encode_v2_metrics_panics :
  @encode_v2_metrics bytes unit Empty_set Empty_set unit (Packed.strings 32 80) Packed.packed Packed.http Small.never Small.generic
    Packed.text (Packed.fresh 32 80, [], 0) = None.
Proof. vm_compute. reflexivity. Qed.

Lemma encoder_accounts_for_every_event_witness :
  let t' := snd (Small.run Small.wakeups Small.task) in
  exists parts, filter (fun ev => bool_decide (is_Some (Small.try_into ev)) = true) (received_events Small.wakeups) = events_of parts /\
    sent t' = payloads_of parts /\ events_flushed (telemetry t') = delivered parts /\
    encoder_dropped (encoder t') + events_dropped_encoder (telemetry t') = undelivered parts.
Proof.
  destruct (@encoder_accounts_for_every_event Small.Ev bytes unit Empty_set Empty_set unit (Packed.strings 1000 80) Packed.packed Packed.packed_laws Packed.http
    (Packed.strings_nonempty 1000 80) (fun _ => eq_refl) (fun _ => Z.le_0_1) Small.never Small.generic Small.try_into inl Small.inl_try_into
    (Packed.fresh 1000 80) Small.wakeups (snd (Small.run Small.wakeups Small.task)) Small.fresh_configured) as (parts & H1 & H2 & H3 & H4 & _).
  - vm_compute. reflexivity.
  - exists parts. split; [exact H1|]. split; [exact H2|]. split; [exact H3|exact H4].
Defined.

Lemma encoder_run_succeeds_witness :
  exists t', Small.run [EventBuffer [inl Packed.zeros; inl Packed.text]] Small.task = (Ok tt, t') /\ events_dropped_encoder (telemetry t') = 0.
Proof.
  apply (@encoder_run_succeeds Small.Ev bytes unit Empty_set Empty_set unit (Packed.strings 1000 80) Packed.packed Packed.packed_laws Packed.http
    (Packed.strings_nonempty 1000 80) (fun _ => eq_refl) (fun _ => Z.le_0_1) Small.never Small.generic Small.try_into inl Small.inl_try_into
    (Packed.fresh 1000 80) (fun _ _ => eq_refl) [EventBuffer [inl Packed.zeros; inl Packed.text]] Small.fresh_configured).
  - reflexivity.
  - intros ev input Hin Hi. assert (Hev : ev = inl Packed.zeros \/ ev = inl Packed.text) by set_solver.
    destruct Hev as [->| ->]; injection Hi as <-; (split; [reflexivity|]; split; [discriminate|]; eexists; split; [reflexivity|]; vm_compute; discriminate).
Defined.
