(* ===== verification/V3Writer.v ===== *)
(** * The columnar metrics writer

    [datadog-agent/metrics-v3/src/]: [interner.rs], [types.rs] and [writer.rs].  Metrics are written into
    columns; strings, tag sets, resources and origins go into dictionaries and the columns hold their
    identifiers, counted from 1, with 0 for an empty value.  Point values are stored in the smallest of
    four forms that holds all values of a metric.  [finalize_inner] takes differences of the columns
    that hold identifiers and timestamps; [finalize] writes the protobuf fields.

    Indices into the columns that the Rust code would panic on do not occur: a builder belongs to the
    last metric.  A [HashMap] is an association list; identifiers and lengths are far below the width
    of an integer, and subtraction of [i64] and [i32] wraps. *)

From Stdlib Require Import ZArith Lia Strings.String Floats.SpecFloat.
From stdpp Require Import base tactics list numbers sorting.
From S2P Require Import Prelude Bytes Float64.
Open Scope Z_scope.

(** Two's complement at width [w]. *)
Definition wrap_i (w z : Z) : Z := (z + 2 ^ (w - 1)) mod 2 ^ w - 2 ^ (w - 1).

(** ** The interner *)

Section interner.
Context {K : Type} `{EqDecision K}.

Record Interner := { index : list (K * Z); last_id : Z }.
Definition Interner_new : Interner := {| index := []; last_id := 0 |}.

Fixpoint index_get (key : K) (l : list (K * Z)) : option Z :=
  match l with
  | [] => None
  | (k, id) :: l => if bool_decide (k = key) then Some id else index_get key l
  end.

Definition get_or_insert (key : K) (i : Interner) : Z * bool * Interner :=
  match index_get key (index i) with
  | Some id => (id, false, i)
  | None => (last_id i + 1, true, {| index := index i ++ [(key, last_id i + 1)]; last_id := last_id i + 1 |})
  end.
End interner.
Arguments Interner : clear implicits.

(** ** Metric types and value types *)

Inductive V3MetricType := Count | Rate | Gauge | Sketch.
Definition V3MetricType_as_u64 (t : V3MetricType) : Z := match t with Count => 1 | Rate => 2 | Gauge => 3 | Sketch => 4 end.

Inductive V3ValueType := VZero | VSint64 | VFloat32 | VFloat64.
Definition V3ValueType_as_u64 (t : V3ValueType) : Z := match t with VZero => 0 | VSint64 => 16 | VFloat32 => 32 | VFloat64 => 48 end.

(** [as f32] on an [f64], and back. *)
Abbreviation f32 := spec_float.
Definition f64_to_f32 (x : f64) : f32 :=
  match x with S754_finite s m e => binary_normalize 24 128 (cond_Zopp s (Zpos m)) e s | _ => x end.
Definition f32_to_f64 (x : f32) : f64 :=
  match x with S754_finite s m e => binary_normalize prec emax (cond_Zopp s (Zpos m)) e s | _ => x end.

(** In the order of the derived comparison. *)
Inductive PointKind := PZero | PInt24 | PInt48 | PFloat32 | PFloat64.
Definition PointKind_rank (k : PointKind) : Z := match k with PZero => 0 | PInt24 => 1 | PInt48 => 2 | PFloat32 => 3 | PFloat64 => 4 end.

Definition F32_INT_MAX : Z := 2 ^ 24.
Definition MAX_INT : Z := 2 ^ 48.

Definition PointKind_for_value (v : f64) : PointKind :=
  if f64_eqb v f64_zero then PZero
  else
    let i := f64_to_i 64 v in
    if ((- MAX_INT <=? i) && (i <? MAX_INT)) && f64_eqb (f64_of_Z i) v then
      if (- F32_INT_MAX <=? i) && (i <=? F32_INT_MAX) then PInt24 else PInt48
    else if f64_eqb (f32_to_f64 (f64_to_f32 v)) v then PFloat32
    else PFloat64.

Definition PointKind_union (k k' : PointKind) : PointKind :=
  match k, k' with
  | PInt48, PFloat32 | PFloat32, PInt48 => PFloat64
  | _, _ => if PointKind_rank k <? PointKind_rank k' then k' else k
  end.

Definition to_value_type (k : PointKind) : V3ValueType :=
  match k with PZero => VZero | PInt24 | PInt48 => VSint64 | PFloat32 => VFloat32 | PFloat64 => VFloat64 end.

Definition value_type_for_values (values : list f64) : V3ValueType :=
  to_value_type (foldl (fun kind v => PointKind_union kind (PointKind_for_value v)) PZero values).

(** ** Differences and strings *)

Fixpoint differences (w prev : Z) (l : list Z) : list Z :=
  match l with [] => [] | x :: l => wrap_i w (x - prev) :: differences w x l end.
(** The loop runs from the end, so that every difference is taken of the original neighbours. *)
Definition delta_encode_at (w : Z) (l : list Z) : list Z := match l with [] => [] | x :: l => x :: differences w x l end.
Definition delta_encode : list Z -> list Z := delta_encode_at 64.
Definition delta_encode_i32 : list Z -> list Z := delta_encode_at 32.

(** A [u64] has at most ten groups of seven bits. *)
Fixpoint len_varint (fuel : nat) (len : Z) : bytes :=
  match fuel with
  | O => []
  | S fuel =>
      let byte := Z.land len 127 in
      let len := Z.shiftr len 7 in
      Z_byte (if len =? 0 then byte else Z.lor byte 128) :: (if len =? 0 then [] else len_varint fuel len)
  end.
Definition append_len_str (dst s : bytes) : bytes := dst ++ len_varint 10 (Z.of_nat (length s)) ++ s.

(** ** The writer *)

(** A dictionary of strings: its interner and its encoded strings. *)
Record StrDict := { str_interner : Interner bytes; dict_bytes : bytes }.
Definition StrDict_new : StrDict := {| str_interner := Interner_new; dict_bytes := [] |}.

Record Dictionaries := {
  names_dict : StrDict;
  tags_dict : StrDict;
  tagset_interner : Interner (list Z);
  dict_tagsets : list Z;
  resource_str_dict : StrDict;
  resource_interner : Interner (list (Z * Z));
  dict_resource_len : list Z;
  dict_resource_type : list Z;
  dict_resource_name : list Z;
  source_type_dict : StrDict;
  origin_interner : Interner (Z * Z * Z);
  dict_origin_info : list Z;
  unit_dict : StrDict;
}.

Record MetricColumns := {
  types : list Z;
  names : list Z;
  tags : list Z;
  resources : list Z;
  intervals : list Z;
  num_points : list Z;
  source_type_names : list Z;
  origin_infos : list Z;
  unit_refs : list Z;
}.

Record PointColumns := {
  timestamps : list Z;
  vals_sint64 : list Z;
  vals_float32 : list f32;
  vals_float64 : list f64;
  sketch_num_bins : list Z;
  sketch_bin_keys : list Z;
  sketch_bin_cnts : list Z;
}.

Record V3ValueEncodingStats := { st_zero : Z; st_sint64 : Z; st_float32 : Z; st_float64 : Z }.

(** The scratch vectors of the writer are cleared before they are used, and are local here. *)
Record V3Writer := { dicts : Dictionaries; cols : MetricColumns; pts : PointColumns; value_encoding_stats : V3ValueEncodingStats }.

Definition V3Writer_new : V3Writer := {|
  dicts := {| names_dict := StrDict_new; tags_dict := StrDict_new; tagset_interner := Interner_new; dict_tagsets := []; resource_str_dict := StrDict_new;
              resource_interner := Interner_new; dict_resource_len := []; dict_resource_type := []; dict_resource_name := []; source_type_dict := StrDict_new;
              origin_interner := Interner_new; dict_origin_info := []; unit_dict := StrDict_new |};
  cols := {| types := []; names := []; tags := []; resources := []; intervals := []; num_points := []; source_type_names := []; origin_infos := []; unit_refs := [] |};
  pts := {| timestamps := []; vals_sint64 := []; vals_float32 := []; vals_float64 := []; sketch_num_bins := []; sketch_bin_keys := []; sketch_bin_cnts := [] |};
  value_encoding_stats := {| st_zero := 0; st_sint64 := 0; st_float32 := 0; st_float64 := 0 |};
|}.

Definition metric_count (w : V3Writer) : Z := Z.of_nat (length (types (cols w))).

Definition VARINT_LEN_ALLOWANCE : Z := 4.
Definition estimated_uncompressed_len (w : V3Writer) : Z :=
  let d := dicts w in let c := cols w in let p := pts w in
  let len {A} (l : list A) := Z.of_nat (length l) in
  let dict_len := len (dict_bytes (names_dict d)) + len (dict_bytes (tags_dict d)) + len (dict_bytes (resource_str_dict d)) + len (dict_bytes (source_type_dict d))
    + len (dict_bytes (unit_dict d)) in
  let varint_entries := len (dict_tagsets d) + len (dict_resource_len d) + len (dict_resource_type d) + len (dict_resource_name d) + len (dict_origin_info d)
    + len (types c) + len (names c) + len (tags c) + len (resources c) + len (intervals c) + len (num_points c) + len (source_type_names c) + len (origin_infos c)
    + len (unit_refs c) + len (timestamps p) + len (vals_sint64 p) + len (sketch_num_bins p) + len (sketch_bin_keys p) + len (sketch_bin_cnts p) in
  let float_bytes := len (vals_float32 p) * 4 + len (vals_float64 p) * 8 in
  dict_len + varint_entries * VARINT_LEN_ALLOWANCE + float_bytes.

Definition with_dicts (d : Dictionaries) (w : V3Writer) : V3Writer := {| dicts := d; cols := cols w; pts := pts w; value_encoding_stats := value_encoding_stats w |}.
Definition with_cols (f : MetricColumns -> MetricColumns) (w : V3Writer) : V3Writer :=
  {| dicts := dicts w; cols := f (cols w); pts := pts w; value_encoding_stats := value_encoding_stats w |}.
Definition with_pts (f : PointColumns -> PointColumns) (w : V3Writer) : V3Writer :=
  {| dicts := dicts w; cols := cols w; pts := f (pts w); value_encoding_stats := value_encoding_stats w |}.

(** *** Interning *)

(** [intern_name], [intern_resource_str], [intern_source_type] and [intern_unit], each with its own
    dictionary; an empty string is 0. *)
Definition intern_str (s : bytes) (d : StrDict) : Z * StrDict :=
  match s with
  | [] => (0, d)
  | _ =>
      let '(id, is_new, i) := get_or_insert s (str_interner d) in
      (id, {| str_interner := i; dict_bytes := if is_new then append_len_str (dict_bytes d) s else dict_bytes d |})
  end.

Definition set_names_dict (x : StrDict) (d : Dictionaries) : Dictionaries :=
  {| names_dict := x; tags_dict := tags_dict d; tagset_interner := tagset_interner d; dict_tagsets := dict_tagsets d; resource_str_dict := resource_str_dict d;
     resource_interner := resource_interner d; dict_resource_len := dict_resource_len d; dict_resource_type := dict_resource_type d;
     dict_resource_name := dict_resource_name d; source_type_dict := source_type_dict d; origin_interner := origin_interner d;
     dict_origin_info := dict_origin_info d; unit_dict := unit_dict d |}.
Definition set_tagsets (x : StrDict) (i : Interner (list Z)) (l : list Z) (d : Dictionaries) : Dictionaries :=
  {| names_dict := names_dict d; tags_dict := x; tagset_interner := i; dict_tagsets := l; resource_str_dict := resource_str_dict d;
     resource_interner := resource_interner d; dict_resource_len := dict_resource_len d; dict_resource_type := dict_resource_type d;
     dict_resource_name := dict_resource_name d; source_type_dict := source_type_dict d; origin_interner := origin_interner d;
     dict_origin_info := dict_origin_info d; unit_dict := unit_dict d |}.
Definition set_resource_dicts (x : StrDict) (i : Interner (list (Z * Z))) (len ty nm : list Z) (d : Dictionaries) : Dictionaries :=
  {| names_dict := names_dict d; tags_dict := tags_dict d; tagset_interner := tagset_interner d; dict_tagsets := dict_tagsets d; resource_str_dict := x;
     resource_interner := i; dict_resource_len := len; dict_resource_type := ty; dict_resource_name := nm; source_type_dict := source_type_dict d;
     origin_interner := origin_interner d; dict_origin_info := dict_origin_info d; unit_dict := unit_dict d |}.
Definition set_source_type_dict (x : StrDict) (d : Dictionaries) : Dictionaries :=
  {| names_dict := names_dict d; tags_dict := tags_dict d; tagset_interner := tagset_interner d; dict_tagsets := dict_tagsets d;
     resource_str_dict := resource_str_dict d; resource_interner := resource_interner d; dict_resource_len := dict_resource_len d;
     dict_resource_type := dict_resource_type d; dict_resource_name := dict_resource_name d; source_type_dict := x; origin_interner := origin_interner d;
     dict_origin_info := dict_origin_info d; unit_dict := unit_dict d |}.
Definition set_origins (i : Interner (Z * Z * Z)) (l : list Z) (d : Dictionaries) : Dictionaries :=
  {| names_dict := names_dict d; tags_dict := tags_dict d; tagset_interner := tagset_interner d; dict_tagsets := dict_tagsets d;
     resource_str_dict := resource_str_dict d; resource_interner := resource_interner d; dict_resource_len := dict_resource_len d;
     dict_resource_type := dict_resource_type d; dict_resource_name := dict_resource_name d; source_type_dict := source_type_dict d; origin_interner := i;
     dict_origin_info := l; unit_dict := unit_dict d |}.
Definition set_unit_dict (x : StrDict) (d : Dictionaries) : Dictionaries :=
  {| names_dict := names_dict d; tags_dict := tags_dict d; tagset_interner := tagset_interner d; dict_tagsets := dict_tagsets d;
     resource_str_dict := resource_str_dict d; resource_interner := resource_interner d; dict_resource_len := dict_resource_len d;
     dict_resource_type := dict_resource_type d; dict_resource_name := dict_resource_name d; source_type_dict := source_type_dict d;
     origin_interner := origin_interner d; dict_origin_info := dict_origin_info d; unit_dict := x |}.

Definition intern_name (name : bytes) (d : Dictionaries) : Z * Dictionaries :=
  let '(id, x) := intern_str name (names_dict d) in (id, set_names_dict x d).
Definition intern_source_type (s : bytes) (d : Dictionaries) : Z * Dictionaries :=
  let '(id, x) := intern_str s (source_type_dict d) in (id, set_source_type_dict x d).
Definition intern_unit (s : bytes) (d : Dictionaries) : Z * Dictionaries :=
  let '(id, x) := intern_str s (unit_dict d) in (id, set_unit_dict x d).

(** [intern_tag] for each tag: the identifiers in order. *)
Fixpoint intern_strs (ss : list bytes) (x : StrDict) : list Z * StrDict :=
  match ss with
  | [] => ([], x)
  | s :: ss => let '(id, x) := intern_str s x in let '(ids, x) := intern_strs ss x in (id :: ids, x)
  end.

Definition encode_tagset (tag_ids : list Z) (l : list Z) : list Z :=
  l ++ [Z.of_nat (length tag_ids)] ++ delta_encode (merge_sort Z.le tag_ids).

Definition intern_tagset (ts : list bytes) (d : Dictionaries) : Z * Dictionaries :=
  let '(tag_ids, x) := intern_strs ts (tags_dict d) in
  match tag_ids with
  | [] => (0, set_tagsets x (tagset_interner d) (dict_tagsets d) d)
  | _ =>
      let '(id, is_new, i) := get_or_insert tag_ids (tagset_interner d) in
      (id, set_tagsets x i (if is_new then encode_tagset tag_ids (dict_tagsets d) else dict_tagsets d) d)
  end.

Fixpoint intern_resource_strs (rs : list (bytes * bytes)) (x : StrDict) : list (Z * Z) * StrDict :=
  match rs with
  | [] => ([], x)
  | (ty, nm) :: rs =>
      let '(type_id, x) := intern_str ty x in
      let '(name_id, x) := intern_str nm x in
      let '(ids, x) := intern_resource_strs rs x in ((type_id, name_id) :: ids, x)
  end.

Definition intern_resources (rs : list (bytes * bytes)) (d : Dictionaries) : Z * Dictionaries :=
  let '(resource_ids, x) := intern_resource_strs rs (resource_str_dict d) in
  match resource_ids with
  | [] => (0, set_resource_dicts x (resource_interner d) (dict_resource_len d) (dict_resource_type d) (dict_resource_name d) d)
  | _ =>
      let '(id, is_new, i) := get_or_insert resource_ids (resource_interner d) in
      (id, if is_new then set_resource_dicts x i (dict_resource_len d ++ [Z.of_nat (length resource_ids)])
                            (dict_resource_type d ++ delta_encode (fst <$> resource_ids)) (dict_resource_name d ++ delta_encode (snd <$> resource_ids)) d
           else set_resource_dicts x i (dict_resource_len d) (dict_resource_type d) (dict_resource_name d) d)
  end.

Definition intern_origin (product category service : Z) (d : Dictionaries) : Z * Dictionaries :=
  if (product =? 0) && (category =? 0) && (service =? 0) then (0, d)
  else
    let '(id, is_new, i) := get_or_insert (product, category, service) (origin_interner d) in
    (id, set_origins i (if is_new then dict_origin_info d ++ [product; category; service] else dict_origin_info d) d).

(** *** The builder of a metric *)

Record V3MetricBuilder := { point_start_idx : nat; sint64_start_idx : nat; metric_idx : nat; unit_ref_idx : option nat }.

Definition FLAG_NO_INDEX : Z := 256.
Definition FLAG_HAS_UNIT : Z := 512.

Definition write (metric_type : V3MetricType) (name : bytes) (w : V3Writer) : V3MetricBuilder * V3Writer :=
  let '(name_id, d) := intern_name name (dicts w) in
  let bl := {| point_start_idx := length (vals_float64 (pts w)); sint64_start_idx := length (vals_sint64 (pts w)); metric_idx := length (types (cols w));
               unit_ref_idx := None |} in
  (bl, with_cols (fun c => {| types := types c ++ [V3MetricType_as_u64 metric_type]; names := names c ++ [name_id]; tags := tags c ++ [0];
                              resources := resources c ++ [0]; intervals := intervals c ++ [0]; num_points := num_points c ++ [0];
                              source_type_names := source_type_names c ++ [0]; origin_infos := origin_infos c ++ [0]; unit_refs := unit_refs c |})
         (with_dicts d w)).

Definition set_types (f : list Z -> list Z) (c : MetricColumns) : MetricColumns :=
  {| types := f (types c); names := names c; tags := tags c; resources := resources c; intervals := intervals c; num_points := num_points c;
     source_type_names := source_type_names c; origin_infos := origin_infos c; unit_refs := unit_refs c |}.
Definition set_tags_col (f : list Z -> list Z) (c : MetricColumns) : MetricColumns :=
  {| types := types c; names := names c; tags := f (tags c); resources := resources c; intervals := intervals c; num_points := num_points c;
     source_type_names := source_type_names c; origin_infos := origin_infos c; unit_refs := unit_refs c |}.
Definition set_resources_col (f : list Z -> list Z) (c : MetricColumns) : MetricColumns :=
  {| types := types c; names := names c; tags := tags c; resources := f (resources c); intervals := intervals c; num_points := num_points c;
     source_type_names := source_type_names c; origin_infos := origin_infos c; unit_refs := unit_refs c |}.
Definition set_intervals (f : list Z -> list Z) (c : MetricColumns) : MetricColumns :=
  {| types := types c; names := names c; tags := tags c; resources := resources c; intervals := f (intervals c); num_points := num_points c;
     source_type_names := source_type_names c; origin_infos := origin_infos c; unit_refs := unit_refs c |}.
Definition set_num_points (f : list Z -> list Z) (c : MetricColumns) : MetricColumns :=
  {| types := types c; names := names c; tags := tags c; resources := resources c; intervals := intervals c; num_points := f (num_points c);
     source_type_names := source_type_names c; origin_infos := origin_infos c; unit_refs := unit_refs c |}.
Definition set_source_type_names (f : list Z -> list Z) (c : MetricColumns) : MetricColumns :=
  {| types := types c; names := names c; tags := tags c; resources := resources c; intervals := intervals c; num_points := num_points c;
     source_type_names := f (source_type_names c); origin_infos := origin_infos c; unit_refs := unit_refs c |}.
Definition set_origin_infos (f : list Z -> list Z) (c : MetricColumns) : MetricColumns :=
  {| types := types c; names := names c; tags := tags c; resources := resources c; intervals := intervals c; num_points := num_points c;
     source_type_names := source_type_names c; origin_infos := f (origin_infos c); unit_refs := unit_refs c |}.
Definition set_unit_refs (f : list Z -> list Z) (c : MetricColumns) : MetricColumns :=
  {| types := types c; names := names c; tags := tags c; resources := resources c; intervals := intervals c; num_points := num_points c;
     source_type_names := source_type_names c; origin_infos := origin_infos c; unit_refs := f (unit_refs c) |}.

Definition set_tags (ts : list bytes) (bl : V3MetricBuilder) (w : V3Writer) : V3Writer :=
  let '(id, d) := intern_tagset ts (dicts w) in
  with_cols (set_tags_col <[metric_idx bl := id]>) (with_dicts d w).

Definition set_resources (rs : list (bytes * bytes)) (bl : V3MetricBuilder) (w : V3Writer) : V3Writer :=
  let '(id, d) := intern_resources rs (dicts w) in
  with_cols (set_resources_col <[metric_idx bl := id]>) (with_dicts d w).

Definition set_interval (interval : Z) (bl : V3MetricBuilder) (w : V3Writer) : V3Writer :=
  with_cols (set_intervals <[metric_idx bl := interval]>) w.

Definition set_source_type (s : bytes) (bl : V3MetricBuilder) (w : V3Writer) : V3Writer :=
  let '(id, d) := intern_source_type s (dicts w) in
  with_cols (set_source_type_names <[metric_idx bl := id]>) (with_dicts d w).

(** The three numbers are [u32], stored as [i32]. *)
Definition set_origin (product category service : Z) (no_index : bool) (bl : V3MetricBuilder) (w : V3Writer) : V3Writer :=
  let '(id, d) := intern_origin (wrap_i 32 product) (wrap_i 32 category) (wrap_i 32 service) (dicts w) in
  let w := with_cols (set_origin_infos <[metric_idx bl := id]>) (with_dicts d w) in
  if no_index then with_cols (set_types (alter (fun t => Z.lor t FLAG_NO_INDEX) (metric_idx bl))) w else w.

Definition set_unit (unit : bytes) (bl : V3MetricBuilder) (w : V3Writer) : V3MetricBuilder * V3Writer :=
  match unit with
  | [] =>
      let w := with_cols (set_types (alter (fun t => Z.ldiff t FLAG_HAS_UNIT) (metric_idx bl))) w in
      ({| point_start_idx := point_start_idx bl; sint64_start_idx := sint64_start_idx bl; metric_idx := metric_idx bl; unit_ref_idx := None |},
       match unit_ref_idx bl with Some i => with_cols (set_unit_refs (delete i)) w | None => w end)
  | _ =>
      let '(id, d) := intern_unit unit (dicts w) in
      let w := with_dicts d w in
      let '(i, w) := match unit_ref_idx bl with
                     | Some i => (i, with_cols (set_unit_refs <[i := id]>) w)
                     | None => (length (unit_refs (cols w)), with_cols (set_unit_refs (fun l => l ++ [id])) w)
                     end in
      ({| point_start_idx := point_start_idx bl; sint64_start_idx := sint64_start_idx bl; metric_idx := metric_idx bl; unit_ref_idx := Some i |},
       with_cols (set_types (alter (fun t => Z.lor t FLAG_HAS_UNIT) (metric_idx bl))) w)
  end.

Definition add_point (timestamp : Z) (value : f64) (bl : V3MetricBuilder) (w : V3Writer) : V3Writer :=
  with_cols (set_num_points (alter (fun n => n + 1) (metric_idx bl)))
    (with_pts (fun p => {| timestamps := timestamps p ++ [timestamp]; vals_sint64 := vals_sint64 p; vals_float32 := vals_float32 p;
                           vals_float64 := vals_float64 p ++ [value]; sketch_num_bins := sketch_num_bins p; sketch_bin_keys := sketch_bin_keys p;
                           sketch_bin_cnts := sketch_bin_cnts p |}) w).

Definition add_sketch (timestamp count : Z) (sum min max : f64) (bin_keys bin_counts : list Z) (bl : V3MetricBuilder) (w : V3Writer) : V3Writer :=
  with_cols (set_num_points (alter (fun n => n + 1) (metric_idx bl)))
    (with_pts (fun p => {| timestamps := timestamps p ++ [timestamp]; vals_sint64 := vals_sint64 p ++ [count]; vals_float32 := vals_float32 p;
                           vals_float64 := vals_float64 p ++ [sum; min; max]; sketch_num_bins := sketch_num_bins p ++ [Z.of_nat (length bin_keys)];
                           sketch_bin_keys := sketch_bin_keys p ++ delta_encode_i32 bin_keys; sketch_bin_cnts := sketch_bin_cnts p ++ bin_counts |}) w).

(** The values of a sketch as integers: sum, minimum, maximum and count of each point. *)
Fixpoint interleave (counts : list Z) (floats : list f64) : list Z :=
  match counts, floats with
  | cnt :: counts, sum :: min :: max :: floats => f64_to_i 64 sum :: f64_to_i 64 min :: f64_to_i 64 max :: cnt :: interleave counts floats
  | _, _ => []
  end.

Definition compact_values (bl : V3MetricBuilder) (w : V3Writer) : V3Writer :=
  let count := default 0 (num_points (cols w) !! metric_idx bl) in
  if count =? 0 then w
  else
    let start := point_start_idx bl in
    let p := pts w in
    let floats := drop start (vals_float64 p) in
    let val_ty := value_type_for_values floats in
    let is_sketch := Z.land (default 0 (types (cols w) !! metric_idx bl)) 15 =? V3MetricType_as_u64 Sketch in
    let n := Z.of_nat (length floats) in
    let st := value_encoding_stats w in
    let sints := st_sint64 st + (if is_sketch then count else 0) in
    {| dicts := dicts w;
       cols := set_types (alter (fun t => Z.lor t (V3ValueType_as_u64 val_ty)) (metric_idx bl)) (cols w);
       pts := {| timestamps := timestamps p;
                 vals_sint64 := match val_ty with
                                | VSint64 =>
                                    if is_sketch then take (sint64_start_idx bl) (vals_sint64 p) ++ interleave (drop (sint64_start_idx bl) (vals_sint64 p)) floats
                                    else vals_sint64 p ++ (f64_to_i 64 <$> floats)
                                | _ => vals_sint64 p
                                end;
                 vals_float32 := match val_ty with VFloat32 => vals_float32 p ++ (f64_to_f32 <$> floats) | _ => vals_float32 p end;
                 vals_float64 := match val_ty with VFloat64 => vals_float64 p | _ => take start (vals_float64 p) end;
                 sketch_num_bins := sketch_num_bins p; sketch_bin_keys := sketch_bin_keys p; sketch_bin_cnts := sketch_bin_cnts p |};
       value_encoding_stats := match val_ty with
                               | VZero => {| st_zero := st_zero st + n; st_sint64 := sints; st_float32 := st_float32 st; st_float64 := st_float64 st |}
                               | VSint64 => {| st_zero := st_zero st; st_sint64 := sints + n; st_float32 := st_float32 st; st_float64 := st_float64 st |}
                               | VFloat32 => {| st_zero := st_zero st; st_sint64 := sints; st_float32 := st_float32 st + n; st_float64 := st_float64 st |}
                               | VFloat64 => {| st_zero := st_zero st; st_sint64 := sints; st_float32 := st_float32 st; st_float64 := st_float64 st + n |}
                               end |}.

Definition close : V3MetricBuilder -> V3Writer -> V3Writer := compact_values.

(** *** Finishing *)

Record V3EncodedData := { e_dicts : Dictionaries; e_cols : MetricColumns; e_pts : PointColumns; e_stats : V3ValueEncodingStats }.

Definition finalize_inner (w : V3Writer) : V3EncodedData :=
  let c := cols w in
  let p := pts w in
  {| e_dicts := dicts w;
     e_cols := {| types := types c; names := delta_encode (names c); tags := delta_encode (tags c); resources := delta_encode (resources c);
                  intervals := intervals c; num_points := num_points c; source_type_names := delta_encode (source_type_names c);
                  origin_infos := delta_encode (origin_infos c); unit_refs := delta_encode (unit_refs c) |};
     e_pts := {| timestamps := delta_encode (timestamps p); vals_sint64 := vals_sint64 p; vals_float32 := vals_float32 p; vals_float64 := vals_float64 p;
                 sketch_num_bins := sketch_num_bins p; sketch_bin_keys := sketch_bin_keys p; sketch_bin_cnts := sketch_bin_cnts p |};
     e_stats := value_encoding_stats w |}.

(** A field as it is handed to [CodedOutputStream]. *)
Inductive column :=
| ColBytes (bs : bytes)
| ColSint64 (l : list Z)
| ColInt64 (l : list Z)
| ColUint64 (l : list Z)
| ColInt32 (l : list Z)
| ColSint32 (l : list Z)
| ColUint32 (l : list Z)
| ColFloat (l : list f32)
| ColDouble (l : list f64).

(** Writing a field with its tag and length, which writes nothing for an empty repeated field, and the
    bytes of its content. *)
Class CodedColumns (ProtoError : Type) := {
  write_framed : Z -> column -> result ProtoError bytes;
  write_raw : column -> result ProtoError bytes;
}.

Record V3ColumnBytes := { field_number : Z; col_bytes : bytes; compressed_len : Z }.
Record V3EncodedMetrics := { payload : bytes; m_stats : V3ValueEncodingStats; columns : list V3ColumnBytes }.

Section finalize.
Context {ProtoError : Type} `{CodedColumns ProtoError}.

Definition write_column (field : Z) (c : column) '((output, columns) : bytes * list V3ColumnBytes) : result ProtoError (bytes * list V3ColumnBytes) :=
  framed ← write_framed field c;
  match framed with
  | [] => Ok (output, columns)
  | _ =>
      raw ← (match c with ColBytes bs => Ok bs | _ => write_raw c end);
      Ok (output ++ framed, columns ++ [{| field_number := field; col_bytes := raw; compressed_len := 0 |}])
  end.

(** A dictionary of strings is skipped when it is empty. *)
Definition write_bytes_field (field : Z) (bs : bytes) (acc : bytes * list V3ColumnBytes) : result ProtoError (bytes * list V3ColumnBytes) :=
  match bs with [] => Ok acc | _ => write_column field (ColBytes bs) acc end.

Definition finalize (w : V3Writer) : result ProtoError V3EncodedMetrics :=
  let data := finalize_inner w in
  let d := e_dicts data in let c := e_cols data in let p := e_pts data in
  acc ← write_bytes_field 1 (dict_bytes (names_dict d)) ([], []);
  acc ← write_bytes_field 2 (dict_bytes (tags_dict d)) acc;
  acc ← write_column 3 (ColSint64 (dict_tagsets d)) acc;
  acc ← write_bytes_field 4 (dict_bytes (resource_str_dict d)) acc;
  acc ← write_column 5 (ColInt64 (dict_resource_len d)) acc;
  acc ← write_column 6 (ColSint64 (dict_resource_type d)) acc;
  acc ← write_column 7 (ColSint64 (dict_resource_name d)) acc;
  acc ← write_bytes_field 8 (dict_bytes (source_type_dict d)) acc;
  acc ← write_column 9 (ColInt32 (dict_origin_info d)) acc;
  acc ← write_bytes_field 25 (dict_bytes (unit_dict d)) acc;
  acc ← write_column 10 (ColUint64 (types c)) acc;
  acc ← write_column 11 (ColSint64 (names c)) acc;
  acc ← write_column 12 (ColSint64 (tags c)) acc;
  acc ← write_column 13 (ColSint64 (resources c)) acc;
  acc ← write_column 14 (ColUint64 (intervals c)) acc;
  acc ← write_column 15 (ColUint64 (num_points c)) acc;
  acc ← write_column 23 (ColSint64 (source_type_names c)) acc;
  acc ← write_column 24 (ColSint64 (origin_infos c)) acc;
  acc ← write_column 26 (ColSint64 (unit_refs c)) acc;
  acc ← write_column 16 (ColSint64 (timestamps p)) acc;
  acc ← write_column 17 (ColSint64 (vals_sint64 p)) acc;
  acc ← write_column 18 (ColFloat (vals_float32 p)) acc;
  acc ← write_column 19 (ColDouble (vals_float64 p)) acc;
  acc ← write_column 20 (ColUint64 (sketch_num_bins p)) acc;
  acc ← write_column 21 (ColSint32 (sketch_bin_keys p)) acc;
  acc ← write_column 22 (ColUint32 (sketch_bin_cnts p)) acc;
  Ok {| payload := acc.1; m_stats := e_stats data; columns := acc.2 |}.
End finalize.
