(* ===== verification/V3Values.v ===== *)
(** * The compact forms of point values

    A metric's values are stored in the form that [value_type_for_values] chooses.  Whatever the
    form, every value is recovered as a number: equal as floating-point numbers, and the same bits
    except for the sign of a zero. *)

From Stdlib Require Import ZArith Lia Floats.SpecFloat.
From stdpp Require Import base tactics list numbers.
From S2P Require Import Prelude Float64 V3Writer.
Open Scope Z_scope.

(** ** Integers of 24 bits *)

(** A significand of 24 bits, with 29 zeros after it. *)
Lemma round_to_24 s q e : Zpos (digits2_pos q) = 24 -> -149 <= e + 29 <= 104 ->
  f64_to_f32 (S754_finite s (shift_pos 29 q) e) = S754_finite s q (e + 29).
Proof.
  intros Hq He. unfold f64_to_f32. change (cond_Zopp s _) with (signed s (shift_pos 29 q)). rewrite normalize_signed. unfold binary_round.
  assert (Hd : Zpos (digits2_pos (shift_pos 29 q)) = 53) by (cbn; lia). rewrite Hd.
  assert (Hf : fexp 24 128 (53 + e) = e + 29) by (unfold fexp, emin; lia). rewrite Hf. unfold shl_align. replace (e + 29 - e) with 29 by lia.
  unfold binary_round_aux, shr_fexp. cbn [Zdigits2]. rewrite Hd, Hf. replace (e + 29 - e) with 29 by lia.
  change (shr (shr_record_of_loc (Zpos (shift_pos 29 q)) loc_Exact) e 29) with ({| shr_m := Zpos q; shr_r := false; shr_s := false |}, e + 29).
  cbn [shr_m loc_of_shr_record round_nearest_even Zdigits2]. rewrite Hq.
  assert (Hf' : fexp 24 128 (24 + (e + 29)) = e + 29) by (unfold fexp, emin; lia). rewrite Hf', Z.sub_diag. cbn [shr shr_m shr_record_of_loc].
  by rewrite Zle_imp_le_bool by lia.
Qed.

(** An integer of at most 24 bits is the same number as an [f32]. *)
Lemma int24_roundtrip s p : Zpos p <= 2 ^ 24 -> f32_to_f64 (f64_to_f32 (f64_of_Z (signed s p))) = f64_of_Z (signed s p).
Proof.
  intros Hp. destruct (decide (Zpos p = 2 ^ 24)) as [[= ->]|Hne]; [by destruct s|].
  set (d := Zpos (digits2_pos p)). assert (Hd : 1 <= d <= 24).
  { unfold d. split; [lia|]. rewrite digits2_log2. pose proof (Z.log2_lt_pow2 (Zpos p) 24 ltac:(lia)). lia. }
  unfold f64_of_Z, f64_scale. rewrite !normalize_signed.
  destruct (round_shl 53 1024 s p 0 (53 - d)) as (m & Hm & Hdm & ->); [fold d; unfold fexp, emin; lia|lia|lia|].
  assert (Hq : exists q, shift_pos 29 q = m /\ Zpos (digits2_pos q) = 24).
  { pose proof (digits2_bounds p) as Hb. fold d in Hb. set (z := Zpos p * 2 ^ (24 - d)). assert (Hz : 2 ^ 23 <= z < 2 ^ 24).
    { unfold z. replace (2 ^ 23) with (2 ^ (d - 1) * 2 ^ (24 - d)) by (rewrite <- Z.pow_add_r by lia; f_equal; lia).
      replace (2 ^ 24) with (2 ^ d * 2 ^ (24 - d)) by (rewrite <- Z.pow_add_r by lia; f_equal; lia).
      pose proof (Z.pow_pos_nonneg 2 (24 - d) ltac:(lia) ltac:(lia)). split; [apply Z.mul_le_mono_nonneg_r|apply Z.mul_lt_mono_pos_r]; lia. }
    exists (Z.to_pos z). split; [|apply digits2_unique; [rewrite Z2Pos.id by lia; exact Hz|lia]].
    apply Pos2Z.inj. rewrite shift_pos_Z, Z2Pos.id, Hm by lia. unfold z. rewrite <- Z.mul_assoc, <- Z.pow_add_r by lia. do 2 f_equal. lia. }
  destruct Hq as (q & <- & Hq). rewrite round_to_24 by lia. cbn [f32_to_f64]. change (cond_Zopp s _) with (signed s q). rewrite normalize_signed.
  destruct (round_shl 53 1024 s q (0 - (53 - d) + 29) 29) as (m' & Hm' & _ & ->); [rewrite Hq; unfold fexp, emin; lia|lia|lia|].
  f_equal; [|lia]. apply Pos2Z.inj. by rewrite Hm', shift_pos_Z.
Qed.

(** ** Values *)

(** Equal as numbers, or the same. *)
Definition same_value (v v' : f64) : Prop := v' = v \/ f64_eqb v' v = true.

(** What is read back of a value of each type. *)
Definition decoded (vt : V3ValueType) (v : f64) : f64 :=
  match vt with VZero => f64_zero | VSint64 => f64_of_Z (f64_to_i 64 v) | VFloat32 => f32_to_f64 (f64_to_f32 v) | VFloat64 => v end.

Lemma f64_eqb_finite s m e v : f64_eqb (S754_finite s m e) v = true -> v = S754_finite s m e.
Proof.
  unfold f64_eqb, SFeqb. destruct v as [s'|s'| |s' m' e']; cbn [SFcompare]; [by destruct s|by destruct s'|done|].
  destruct s, s'; try done; destruct (Z.compare_spec e e') as [->| |]; try done.
  all: change (Pos.compare_cont Eq m m') with (Pos.compare m m'); destruct (Pos.compare_spec m m') as [->| |]; done.
Qed.

Lemma f64_of_small_int i : i <> 0 -> - F32_INT_MAX <= i <= F32_INT_MAX ->
  f32_to_f64 (f64_to_f32 (f64_of_Z i)) = f64_of_Z i /\ exists s m e, f64_of_Z i = S754_finite s m e.
Proof.
  unfold F32_INT_MAX. intros Hi Hr. assert (Hs : exists s p, i = signed s p /\ Zpos p <= 2 ^ 24).
  { destruct i as [|p|p]; [done|exists false, p|exists true, p]; (split; [done|lia]). }
  destruct Hs as (s & p & -> & Hp). split; [by apply int24_roundtrip|].
  unfold f64_of_Z, f64_scale. rewrite normalize_signed. pose proof (digits2_log2 p) as Hd. pose proof (Z.log2_le_mono (Zpos p) (2 ^ 24) Hp) as Hl.
  change (Z.log2 (2 ^ 24)) with 24 in Hl. pose proof (Z.log2_nonneg (Zpos p)).
  destruct (round_shl 53 1024 s p 0 (53 - Zpos (digits2_pos p))) as (m & _ & _ & ->); [unfold fexp, emin; lia|lia|lia|]. eauto.
Qed.

(** The values that fit the form of each kind. *)
Lemma kind_zero v : PointKind_for_value v = PZero -> f64_eqb v f64_zero = true.
Proof. unfold PointKind_for_value. destruct (f64_eqb v f64_zero); [done|]. by repeat case_match. Qed.

Lemma f64_eqb_zero v : f64_eqb v f64_zero = true -> exists s, v = S754_zero s.
Proof. destruct v as [s|[]| |[] m e]; try done. by exists s. Qed.

Lemma kind_int24 v : PointKind_for_value v = PInt24 -> f64_eqb (f64_of_Z (f64_to_i 64 v)) v = true /\ f64_eqb (f32_to_f64 (f64_to_f32 v)) v = true.
Proof.
  unfold PointKind_for_value. destruct (f64_eqb v f64_zero) eqn:Hz; [done|].
  destruct (((- MAX_INT <=? f64_to_i 64 v) && (f64_to_i 64 v <? MAX_INT)) && f64_eqb (f64_of_Z (f64_to_i 64 v)) v) eqn:E; [|by case_match].
  apply andb_prop in E as [_ E]. destruct ((- F32_INT_MAX <=? f64_to_i 64 v) && (f64_to_i 64 v <=? F32_INT_MAX)) eqn:Hr; [|done].
  intros _. split; [done|]. apply andb_prop in Hr as [?%Z.leb_le ?%Z.leb_le].
  assert (Hi : f64_to_i 64 v <> 0). { intros Hi. rewrite Hi in E. change (f64_of_Z 0) with f64_zero in E. destruct v as [|[]| |[]]; done. }
  destruct (f64_of_small_int _ Hi ltac:(done)) as [Hrt (s & m & e & Hf)]. rewrite Hf in E. apply f64_eqb_finite in E. rewrite E at 1.
  rewrite <- Hf, Hrt, Hf, E. by apply f64_eqb_refl.
Qed.

Lemma kind_int48 v : PointKind_for_value v = PInt48 -> f64_eqb (f64_of_Z (f64_to_i 64 v)) v = true.
Proof.
  unfold PointKind_for_value. destruct (f64_eqb v f64_zero); [done|].
  destruct (((- MAX_INT <=? f64_to_i 64 v) && (f64_to_i 64 v <? MAX_INT)) && f64_eqb (f64_of_Z (f64_to_i 64 v)) v) eqn:E; [|by case_match].
  by apply andb_prop in E as [_ E].
Qed.

Lemma kind_float32 v : PointKind_for_value v = PFloat32 -> f64_eqb (f32_to_f64 (f64_to_f32 v)) v = true.
Proof. unfold PointKind_for_value. by repeat case_match. Qed.

(** The order of the kinds: [PointKind_union] is the join. *)
Definition kind_le (k k' : PointKind) : Prop := PointKind_union k k' = k'.

#[export] Instance kind_le_preorder : PreOrder kind_le.
Proof. split; [intros k; by destruct k|]. intros k1 k2 k3. by destruct k1, k2, k3. Qed.

Lemma kind_union_l k k' : kind_le k (PointKind_union k k').
Proof. by destruct k, k'. Qed.
Lemma kind_union_r k k' : kind_le k' (PointKind_union k k').
Proof. by destruct k, k'. Qed.

(** A value of a smaller kind is recovered from the form of a larger one. *)
Lemma decoded_same k v : kind_le (PointKind_for_value v) k -> same_value v (decoded (to_value_type k) v).
Proof.
  intros Hle. assert (Hd : forall vt, PointKind_for_value v = PZero -> same_value v (decoded vt v)).
  { intros vt [s ->]%kind_zero%f64_eqb_zero. destruct vt; by right || by left. }
  pose proof (kind_int24 v) as H24. pose proof (kind_int48 v) as H48. pose proof (kind_float32 v) as H32.
  destruct k; cbn [to_value_type decoded] in *; [apply (Hd VZero)|..|by left]; destruct (PointKind_for_value v); try done.
  all: try (by apply (Hd VSint64)); try (by apply (Hd VFloat32)); right; (by apply H24) || (by apply H48) || by apply H32.
Qed.

Lemma foldl_kind k values : kind_le k (foldl (fun kind v => PointKind_union kind (PointKind_for_value v)) k values) /\
  Forall (fun v => kind_le (PointKind_for_value v) (foldl (fun kind v => PointKind_union kind (PointKind_for_value v)) k values)) values.
Proof.
  revert k. induction values as [|v values IH]; intros k; cbn [foldl]; [done|]. destruct (IH (PointKind_union k (PointKind_for_value v))) as [Hk Hv].
  split; [etrans; [apply kind_union_l|exact Hk]|]. constructor; [|done]. etrans; [apply kind_union_r|exact Hk].
Qed.

(** Every value is recovered from the form that is chosen for all of them. *)
Lemma values_recovered values : Forall (fun v => same_value v (decoded (value_type_for_values values) v)) values.
Proof. refine (Forall_impl _ (fun v => decoded_same _ v) (proj2 (foldl_kind PZero values))). Qed.
