(* ===== verification/V3WriterProofs.v ===== *)
(** * What the columnar writer wrote can be read back

    A reader of the encoded columns, and the proof that it recovers the metrics that were written: the
    same names, resources, intervals, origins and units, the tags up to their order, the timestamps,
    the bins of sketches, and values that are equal as floating-point numbers. *)

From Stdlib Require Import ZArith Lia Strings.String Floats.SpecFloat Permutation.
From stdpp Require Import base tactics list numbers sorting.
From S2P Require Import Prelude Bytes Float64 V3Writer.
Open Scope Z_scope.

(** ** Metrics *)

Record V3Sketch := { s_timestamp : Z; s_count : Z; s_sum : f64; s_min : f64; s_max : f64; s_bins : list (Z * Z) }.
Inductive V3Points := Scalars (l : list (Z * f64)) | Sketches (l : list V3Sketch).

Record V3Metric := {
  v_type : V3MetricType;
  v_name : bytes;
  v_tags : list bytes;
  v_resources : list (bytes * bytes);
  v_interval : Z;
  v_source_type : bytes;
  v_origin : Z * Z * Z;
  v_no_index : bool;
  v_unit : bytes;
  v_points : V3Points;
}.

(** A metric written with the calls of the builder. *)
Definition add_points (ps : V3Points) (bl : V3MetricBuilder) (w : V3Writer) : V3Writer :=
  match ps with
  | Scalars l => foldl (fun w '(ts, v) => add_point ts v bl w) w l
  | Sketches l => foldl (fun w s => add_sketch (s_timestamp s) (s_count s) (s_sum s) (s_min s) (s_max s) (fst <$> s_bins s) (snd <$> s_bins s) bl w) w l
  end.

Definition write_metric (m : V3Metric) (w : V3Writer) : V3Writer :=
  let '(bl, w) := write (v_type m) (v_name m) w in
  let w := set_tags (v_tags m) bl w in
  let w := set_resources (v_resources m) bl w in
  let w := set_source_type (v_source_type m) bl w in
  let '(product, category, service) := v_origin m in
  let w := set_origin product category service (v_no_index m) bl w in
  let '(bl, w) := match v_unit m with [] => (bl, w) | _ => set_unit (v_unit m) bl w end in
  let w := set_interval (v_interval m) bl w in
  close bl (add_points (v_points m) bl w).

(** ** The reader *)

Fixpoint sums (w acc : Z) (l : list Z) : list Z :=
  match l with [] => [] | x :: l => let y := wrap_i w (acc + x) in y :: sums w y l end.
Definition undelta (w : Z) : list Z -> list Z := sums w 0.

Fixpoint read_varint (l : bytes) : option (Z * bytes) :=
  match l with
  | [] => None
  | c :: l =>
      if byte_Z c <? 128 then Some (byte_Z c, l)
      else '(n, l) ← read_varint l; Some (byte_Z c - 128 + 128 * n, l)
  end.

(** The first [n] elements and the rest. *)
Definition eat {A} (n : nat) (l : list A) : option (list A * list A) := if (length l <? n)%nat then None else Some (take n l, drop n l).

Fixpoint read_strings (fuel : nat) (l : bytes) : option (list bytes) :=
  match l, fuel with
  | [], _ => Some []
  | _, O => None
  | _, S fuel =>
      '(n, l) ← read_varint l;
      '(s, l) ← eat (Z.to_nat n) l;
      rest ← read_strings fuel l;
      Some (s :: rest)
  end.

Fixpoint read_tagsets (fuel : nat) (l : list Z) : option (list (list Z)) :=
  match l, fuel with
  | [], _ => Some []
  | _, O => None
  | n :: l, S fuel =>
      '(ids, l) ← eat (Z.to_nat n) l;
      rest ← read_tagsets fuel l;
      Some (undelta 64 ids :: rest)
  end.

Fixpoint read_resources (lens types names : list Z) : option (list (list (Z * Z))) :=
  match lens with
  | [] => Some []
  | n :: lens =>
      '(ty, types) ← eat (Z.to_nat n) types;
      '(nm, names) ← eat (Z.to_nat n) names;
      rest ← read_resources lens types names;
      Some (zip (undelta 64 ty) (undelta 64 nm) :: rest)
  end.

Fixpoint read_origins (l : list Z) : option (list (Z * Z * Z)) :=
  match l with
  | [] => Some []
  | a :: b :: c :: l => rest ← read_origins l; Some ((a, b, c) :: rest)
  | _ => None
  end.

(** The value of an identifier, with 0 for [empty]. *)
Definition entry {A} (empty : A) (l : list A) (id : Z) : option A := if id =? 0 then Some empty else if id <? 0 then None else l !! Z.to_nat (id - 1).

Record Tables := {
  t_names : list bytes; t_tags : list bytes; t_tagsets : list (list Z); t_resource_strs : list bytes; t_resources : list (list (Z * Z));
  t_source_types : list bytes; t_origins : list (Z * Z * Z); t_units : list bytes;
}.

Definition read_strdict (x : StrDict) : option (list bytes) := read_strings (length (dict_bytes x)) (dict_bytes x).

Definition read_tables (d : Dictionaries) : option Tables :=
  nm ← read_strdict (names_dict d);
  tg ← read_strdict (tags_dict d);
  ts ← read_tagsets (length (dict_tagsets d)) (dict_tagsets d);
  rst ← read_strdict (resource_str_dict d);
  rs ← read_resources (dict_resource_len d) (dict_resource_type d) (dict_resource_name d);
  src ← read_strdict (source_type_dict d);
  og ← read_origins (dict_origin_info d);
  un ← read_strdict (unit_dict d);
  Some {| t_names := nm; t_tags := tg; t_tagsets := ts; t_resource_strs := rst; t_resources := rs; t_source_types := src; t_origins := og; t_units := un |}.

(** The four parts of an entry of the types column. *)
Definition metric_type_of (t : Z) : option V3MetricType :=
  match Z.land t 15 with 1 => Some Count | 2 => Some Rate | 3 => Some Gauge | 4 => Some Sketch | _ => None end.
Definition value_type_of (t : Z) : V3ValueType :=
  match Z.land t 240 with 0 => VZero | 16 => VSint64 | 32 => VFloat32 | _ => VFloat64 end.
Definition is_sketch_type (t : V3MetricType) : bool := match t with Sketch => true | _ => false end.

(** [n] values of the given type. *)
Definition read_values (vt : V3ValueType) (n : nat) (p : PointColumns) : option (list f64 * PointColumns) :=
  match vt with
  | VZero => Some (repeat f64_zero n, p)
  | VSint64 =>
      '(l, rest) ← eat n (vals_sint64 p);
      Some (map f64_of_Z l, {| timestamps := timestamps p; vals_sint64 := rest; vals_float32 := vals_float32 p; vals_float64 := vals_float64 p;
        sketch_num_bins := sketch_num_bins p; sketch_bin_keys := sketch_bin_keys p; sketch_bin_cnts := sketch_bin_cnts p |})
  | VFloat32 =>
      '(l, rest) ← eat n (vals_float32 p);
      Some (map f32_to_f64 l, {| timestamps := timestamps p; vals_sint64 := vals_sint64 p; vals_float32 := rest; vals_float64 := vals_float64 p;
        sketch_num_bins := sketch_num_bins p; sketch_bin_keys := sketch_bin_keys p; sketch_bin_cnts := sketch_bin_cnts p |})
  | VFloat64 =>
      '(l, rest) ← eat n (vals_float64 p);
      Some (l, {| timestamps := timestamps p; vals_sint64 := vals_sint64 p; vals_float32 := vals_float32 p; vals_float64 := rest;
        sketch_num_bins := sketch_num_bins p; sketch_bin_keys := sketch_bin_keys p; sketch_bin_cnts := sketch_bin_cnts p |})
  end.

(** Counts and summaries of sketches that are stored as integers. *)
Fixpoint deinterleave (l : list Z) : option (list Z * list f64) :=
  match l with
  | [] => Some ([], [])
  | sum :: min :: max :: cnt :: l => '(cs, fs) ← deinterleave l; Some (cnt :: cs, f64_of_Z sum :: f64_of_Z min :: f64_of_Z max :: fs)
  | _ => None
  end.

Definition eat_sints (n : nat) (p : PointColumns) : option (list Z * PointColumns) :=
  '(l, rest) ← eat n (vals_sint64 p);
  Some (l, {| timestamps := timestamps p; vals_sint64 := rest; vals_float32 := vals_float32 p; vals_float64 := vals_float64 p;
    sketch_num_bins := sketch_num_bins p; sketch_bin_keys := sketch_bin_keys p; sketch_bin_cnts := sketch_bin_cnts p |}).

Definition read_summaries (vt : V3ValueType) (n : nat) (p : PointColumns) : option (list Z * list f64 * PointColumns) :=
  match vt with
  | VSint64 => '(l, p) ← eat_sints (4 * n) p; '(cs, fs) ← deinterleave l; Some (cs, fs, p)
  | _ => '(cs, p) ← eat_sints n p; '(fs, p) ← read_values vt (3 * n) p; Some (cs, fs, p)
  end.

Fixpoint read_bins (nbins keys cnts : list Z) : option (list (list (Z * Z)) * list Z * list Z) :=
  match nbins with
  | [] => Some ([], keys, cnts)
  | n :: nbins =>
      '(k, keys) ← eat (Z.to_nat n) keys;
      '(c, cnts) ← eat (Z.to_nat n) cnts;
      '(rest, keys, cnts) ← read_bins nbins keys cnts;
      Some (zip (undelta 32 k) c :: rest, keys, cnts)
  end.

Fixpoint make_sketches (ts cs : list Z) (fs : list f64) (bins : list (list (Z * Z))) : list V3Sketch :=
  match ts, cs, fs, bins with
  | t :: ts, c :: cs, sum :: min :: max :: fs, bn :: bins =>
      {| s_timestamp := t; s_count := c; s_sum := sum; s_min := min; s_max := max; s_bins := bn |} :: make_sketches ts cs fs bins
  | _, _, _, _ => []
  end.

Definition read_points (sketch : bool) (vt : V3ValueType) (n : nat) (p : PointColumns) : option (V3Points * PointColumns) :=
  '(ts, times) ← eat n (timestamps p);
  let p := {| timestamps := times; vals_sint64 := vals_sint64 p; vals_float32 := vals_float32 p; vals_float64 := vals_float64 p;
              sketch_num_bins := sketch_num_bins p; sketch_bin_keys := sketch_bin_keys p; sketch_bin_cnts := sketch_bin_cnts p |} in
  if sketch then
    '(cs, fs, p) ← read_summaries vt n p;
    '(nbins, rest) ← eat n (sketch_num_bins p);
    '(bins, keys, cnts) ← read_bins nbins (sketch_bin_keys p) (sketch_bin_cnts p);
    Some (Sketches (make_sketches ts cs fs bins),
          {| timestamps := timestamps p; vals_sint64 := vals_sint64 p; vals_float32 := vals_float32 p; vals_float64 := vals_float64 p;
             sketch_num_bins := rest; sketch_bin_keys := keys; sketch_bin_cnts := cnts |})
  else '(vs, p) ← read_values vt n p; Some (Scalars (zip ts vs), p).

Record Row := { r_type : Z; r_name : Z; r_tags : Z; r_resources : Z; r_interval : Z; r_points : Z; r_source_type : Z; r_origin : Z }.

Definition read_row (t : Tables) (r : Row) (units : list Z) (p : PointColumns) : option (V3Metric * list Z * PointColumns) :=
  ty ← metric_type_of (r_type r);
  nm ← entry [] (t_names t) (r_name r);
  tag_ids ← entry [] (t_tagsets t) (r_tags r);
  tgs ← mapM (entry [] (t_tags t)) tag_ids;
  res_ids ← entry [] (t_resources t) (r_resources r);
  res ← mapM (fun '(a, c) => x ← entry [] (t_resource_strs t) a; y ← entry [] (t_resource_strs t) c; Some (x, y)) res_ids;
  src ← entry [] (t_source_types t) (r_source_type r);
  og ← entry (0, 0, 0) (t_origins t) (r_origin r);
  '(un, units) ← (if Z.testbit (r_type r) 9 then '(u, units) ← eat 1 units; un ← entry [] (t_units t) (default 0 (head u)); Some (un, units) else Some ([], units));
  '(ps, p) ← read_points (is_sketch_type ty) (value_type_of (r_type r)) (Z.to_nat (r_points r)) p;
  Some ({| v_type := ty; v_name := nm; v_tags := tgs; v_resources := res; v_interval := r_interval r; v_source_type := src; v_origin := og;
           v_no_index := Z.testbit (r_type r) 8; v_unit := un; v_points := ps |}, units, p).

Fixpoint read_rows (t : Tables) (rows : list Row) (units : list Z) (p : PointColumns) : option (list V3Metric) :=
  match rows with
  | [] => Some []
  | r :: rows => '(m, units, p) ← read_row t r units p; ms ← read_rows t rows units p; Some (m :: ms)
  end.

Fixpoint zip_rows (ty nm tg rs iv np src og : list Z) : list Row :=
  match ty, nm, tg, rs, iv, np, src, og with
  | a :: ty, b :: nm, c :: tg, d :: rs, e :: iv, f :: np, g :: src, h :: og =>
      {| r_type := a; r_name := b; r_tags := c; r_resources := d; r_interval := e; r_points := f; r_source_type := g; r_origin := h |}
      :: zip_rows ty nm tg rs iv np src og
  | _, _, _, _, _, _, _, _ => []
  end.

(** The metrics of a payload. *)
Definition read_metrics (data : V3EncodedData) : option (list V3Metric) :=
  t ← read_tables (e_dicts data);
  let c := e_cols data in let p := e_pts data in
  read_rows t
    (zip_rows (types c) (undelta 64 (names c)) (undelta 64 (tags c)) (undelta 64 (resources c)) (intervals c) (num_points c)
       (undelta 64 (source_type_names c)) (undelta 64 (origin_infos c)))
    (undelta 64 (unit_refs c))
    {| timestamps := undelta 64 (timestamps p); vals_sint64 := vals_sint64 p; vals_float32 := vals_float32 p; vals_float64 := vals_float64 p;
       sketch_num_bins := sketch_num_bins p; sketch_bin_keys := sketch_bin_keys p; sketch_bin_cnts := sketch_bin_cnts p |}.

(** ** Differences *)

Definition is_i (w z : Z) : Prop := - 2 ^ (w - 1) <= z < 2 ^ (w - 1).

Lemma wrap_i_id w z : 0 < w -> is_i w z -> wrap_i w z = z.
Proof.
  intros Hw [H1 H2]. unfold wrap_i. replace (2 ^ w) with (2 * 2 ^ (w - 1)) by (rewrite <- Z.pow_succ_r by lia; f_equal; lia).
  rewrite Z.mod_small by lia. lia.
Qed.

Lemma wrap_i_add w x y : 0 < w -> is_i w y -> wrap_i w (x + wrap_i w (y - x)) = y.
Proof.
  intros Hw Hy. rewrite <- (wrap_i_id w y Hw Hy) at 2. unfold wrap_i. f_equal.
  replace (x + ((y - x + 2 ^ (w - 1)) mod 2 ^ w - 2 ^ (w - 1)) + 2 ^ (w - 1)) with ((y - x + 2 ^ (w - 1)) mod 2 ^ w + x) by lia.
  rewrite Zplus_mod_idemp_l. f_equal. lia.
Qed.

Lemma sums_differences w x l : 0 < w -> Forall (is_i w) l -> sums w x (differences w x l) = l.
Proof.
  intros Hw Hl. revert x. induction Hl as [|y l Hy Hl IH]; intros x; [done|]. cbn [differences sums]. by rewrite wrap_i_add, IH.
Qed.

Lemma undelta_delta w l : 0 < w -> Forall (is_i w) l -> undelta w (delta_encode_at w l) = l.
Proof.
  intros Hw Hl. destruct Hl as [|x l Hx Hl]; [done|]. cbn [delta_encode_at]. unfold undelta. cbn [sums]. rewrite Z.add_0_l, wrap_i_id by done.
  by rewrite sums_differences.
Qed.

Lemma differences_length w x l : length (differences w x l) = length l.
Proof. revert x. induction l as [|y l IH]; intros x; [done|]. cbn. by rewrite IH. Qed.

Lemma delta_encode_length w l : length (delta_encode_at w l) = length l.
Proof. destruct l; [done|]. cbn. by rewrite differences_length. Qed.

(** ** Strings *)

Lemma eat_app {A} (l1 l2 : list A) n : n = length l1 -> eat n (l1 ++ l2) = Some (l1, l2).
Proof. intros ->. unfold eat. rewrite length_app, (proj2 (Nat.ltb_ge _ _)) by lia. by rewrite take_app_length, drop_app_length. Qed.

Lemma read_len_varint fuel n rest : (0 < fuel)%nat -> 0 <= n < 2 ^ (7 * Z.of_nat fuel) -> read_varint (len_varint fuel n ++ rest) = Some (n, rest).
Proof.
  revert n. induction fuel as [|fuel IH]; intros n Hf Hn; [lia|]. cbn [len_varint].
  assert (Hland : Z.land n 127 = n mod 128) by (change 127 with (Z.ones 7); by rewrite Z.land_ones by lia).
  assert (Hshift : Z.shiftr n 7 = n / 128) by (by rewrite Z.shiftr_div_pow2 by lia). rewrite Hland, Hshift.
  pose proof (Z.div_mod n 128 ltac:(lia)) as Hdm. pose proof (Z.mod_pos_bound n 128 ltac:(lia)) as Hm. pose proof (Z.div_pos n 128 ltac:(lia) ltac:(lia)) as Hq.
  destruct (Z.eqb_spec (n / 128) 0) as [Hz|Hz]; cbn [app read_varint].
  - rewrite byte_Z_Z_byte, (Z.mod_small (n mod 128)) by lia. rewrite (proj2 (Z.ltb_lt _ _)) by lia. do 2 f_equal. lia.
  - assert (Hlor : Z.lor (n mod 128) 128 = n mod 128 + 128).
    { assert (Hd : Z.land (n mod 128) 128 = 0).
      { apply Z.bits_inj'. intros i Hi. rewrite Z.land_spec, Z.bits_0. change 128 with (2 ^ 7) at 2. rewrite Z.pow2_bits_eqb by lia.
        destruct (Z.eqb_spec 7 i) as [<-|]; [|apply andb_false_r]. change 128 with (2 ^ 7). by rewrite Z.mod_pow2_bits_high by lia. }
      by rewrite <- Z.lxor_lor, <- Z.add_nocarry_lxor. }
    rewrite Hlor, byte_Z_Z_byte, Z.mod_small by lia. rewrite (proj2 (Z.ltb_ge _ _)) by lia.
    destruct fuel as [|fuel]; [change (2 ^ (7 * Z.of_nat 1)) with 128 in Hn; exfalso; apply Hz, Z.div_small; lia|].
    rewrite IH; [cbn; do 2 f_equal; lia|lia|].
    split; [lia|]. apply Z.div_lt_upper_bound; [lia|]. replace (7 * Z.of_nat (S (S fuel))) with (7 + 7 * Z.of_nat (S fuel)) in Hn by lia.
    rewrite Z.pow_add_r in Hn by lia. lia.
Qed.

(** The encoded form of a list of strings. *)
Definition enc_str (s : bytes) : bytes := len_varint 10 (Z.of_nat (length s)) ++ s.
Definition enc_strs (ss : list bytes) : bytes := mjoin (enc_str <$> ss).

Definition short (s : bytes) : Prop := Z.of_nat (length s) < 2 ^ 63.

Lemma enc_strs_app x y : enc_strs (x ++ y) = enc_strs x ++ enc_strs y.
Proof. unfold enc_strs. by rewrite fmap_app, join_app. Qed.

Lemma enc_str_length s : (0 < length (enc_str s))%nat.
Proof. unfold enc_str. rewrite length_app. cbn. lia. Qed.

Lemma read_enc_strs ss fuel : Forall short ss -> (length ss <= fuel)%nat -> read_strings fuel (enc_strs ss) = Some ss.
Proof.
  intros Hs. revert fuel. induction Hs as [|s ss Hs Hss IH]; intros fuel Hf; [by destruct fuel|].
  change (enc_strs (s :: ss)) with (enc_str s ++ enc_strs ss). pose proof (enc_str_length s) as Hpos.
  destruct fuel as [|fuel]; [cbn in Hf; lia|]. destruct (enc_str s ++ enc_strs ss) as [|c l] eqn:E.
  { apply (f_equal length) in E. rewrite length_app in E. cbn in E. lia. }
  cbn [read_strings]. rewrite <- E. unfold enc_str at 1. rewrite <- app_assoc, read_len_varint by (unfold short in Hs; change (7 * Z.of_nat 10) with 70; lia).
  cbn. rewrite eat_app by lia. cbn. rewrite IH by (cbn in Hf; lia). done.
Qed.

Lemma enc_strs_length ss : (length ss <= length (enc_strs ss))%nat.
Proof.
  induction ss as [|s ss IH]; [done|]. change (enc_strs (s :: ss)) with (enc_str s ++ enc_strs ss). rewrite length_app. pose proof (enc_str_length s). cbn. lia.
Qed.

(** ** Dictionaries *)

Section interner.
Context {K : Type} `{EqDecision K}.

Definition keys (i : Interner K) : list K := fst <$> index i.

(** Identifiers are given in order, from 1. *)
Record interner_ok (i : Interner K) : Prop := {
  io_ids : snd <$> index i = seqZ 1 (Z.of_nat (length (index i)));
  io_last : last_id i = Z.of_nat (length (index i));
}.

Lemma index_get_spec (key : K) l m id :
  snd <$> l = seqZ m (Z.of_nat (length l)) -> index_get key l = Some id -> m <= id < m + Z.of_nat (length l) /\ (fst <$> l) !! Z.to_nat (id - m) = Some key.
Proof.
  revert m. induction l as [|[k n] l IH]; intros m; [done|]. cbn [length index_get fmap list_fmap fst snd]. rewrite seqZ_cons by lia. intros [= -> Hl].
  case_bool_decide as Hk.
  - intros [= <-]. rewrite Z.sub_diag. split; [lia|]. by subst.
  - intros Hg. replace (Z.pred (Z.of_nat (S (length l)))) with (Z.of_nat (length l)) in Hl by lia. destruct (IH (Z.succ m) Hl Hg) as [Hr Hlook].
    split; [lia|]. replace (Z.to_nat (id - m)) with (S (Z.to_nat (id - Z.succ m))) by lia. done.
Qed.

Lemma entry_in {A} (e : A) l id x : 1 <= id -> l !! Z.to_nat (id - 1) = Some x -> entry e l id = Some x.
Proof. intros Hid Hl. unfold entry. rewrite (proj2 (Z.eqb_neq _ _)) by lia. by rewrite (proj2 (Z.ltb_ge _ _)) by lia. Qed.

Lemma entry_prefix {A} (e : A) l l' id x : l `prefix_of` l' -> entry e l id = Some x -> entry e l' id = Some x.
Proof. intros Hp. unfold entry. destruct (id =? 0); [done|]. destruct (id <? 0); [done|]. intros Hl. by eapply prefix_lookup_Some. Qed.

Lemma get_or_insert_spec (key : K) i id new i' :
  interner_ok i -> get_or_insert key i = (id, new, i') ->
  interner_ok i' /\ keys i' = keys i ++ (if new then [key] else []) /\ 1 <= id <= last_id i' /\ keys i' !! Z.to_nat (id - 1) = Some key /\ last_id i <= last_id i'.
Proof.
  intros [Hids Hlast]. unfold get_or_insert. destruct (index_get key (index i)) as [id0|] eqn:E; intros [= <- <- <-].
  - destruct (index_get_spec _ _ _ _ Hids E) as [Hr Hl]. rewrite app_nil_r. split; [by split|]. split; [done|]. split; [lia|]. split; [done|lia].
  - unfold keys. cbn. rewrite !fmap_app. cbn. split.
    + split; cbn; rewrite ?length_app; cbn; [|lia]. rewrite fmap_app, Hids, Nat2Z.inj_add, seqZ_app by lia. f_equal.
      change (Z.of_nat 1) with 1. rewrite seqZ_cons by lia. cbn. f_equal. lia.
    + split; [done|]. split; [lia|]. split; [|lia]. rewrite lookup_app_r by (rewrite length_fmap; lia). rewrite length_fmap, Hlast.
      by replace (Z.to_nat _ - length (index i))%nat with O by lia.
Qed.
End interner.

(** A dictionary of strings. *)
Definition skeys (x : StrDict) : list bytes := keys (str_interner x).
Record str_ok (x : StrDict) : Prop := {
  so_interner : interner_ok (str_interner x);
  so_bytes : dict_bytes x = enc_strs (skeys x);
  so_short : Forall short (skeys x);
}.

(** Identifiers of a dictionary. *)
Definition id_in {K} (i : Interner K) (id : Z) : Prop := 0 <= id <= last_id i.

Lemma intern_str_spec s x id x' :
  str_ok x -> short s -> intern_str s x = (id, x') ->
  str_ok x' /\ skeys x `prefix_of` skeys x' /\ entry [] (skeys x') id = Some s /\ id_in (str_interner x') id /\ last_id (str_interner x) <= last_id (str_interner x').
Proof.
  intros [Hi Hb Hs] Hshort. unfold intern_str. destruct s as [|c s]; [intros [= <- <-]; split; [done|]; split; [done|]; split; [done|]; split; [split; [lia|]|lia]; destruct Hi; lia|].
  destruct (get_or_insert (c :: s) (str_interner x)) as [[id0 new] i] eqn:E. intros [= <- <-].
  destruct (get_or_insert_spec _ _ _ _ _ Hi E) as (Hi' & Hk & Hid & Hl & Hle). unfold skeys in *. cbn.
  split_and!; [split; unfold skeys; cbn; [done| |]|by rewrite Hk; apply prefix_app_r|apply entry_in; [lia|done]|split; cbn; lia|done].
  - rewrite Hk. destruct new; [|by rewrite app_nil_r]. unfold append_len_str. rewrite Hb, enc_strs_app. f_equal. unfold enc_strs. cbn. by rewrite app_nil_r.
  - rewrite Hk. apply Forall_app. split; [done|]. destruct new; [|constructor]. by repeat constructor.
Qed.

Lemma id_in_mono {K} (i i' : Interner K) id : last_id i <= last_id i' -> id_in i id -> id_in i' id.
Proof. unfold id_in. lia. Qed.

Lemma intern_strs_spec ss x ids x' :
  str_ok x -> Forall short ss -> intern_strs ss x = (ids, x') ->
  str_ok x' /\ skeys x `prefix_of` skeys x' /\ mapM (entry [] (skeys x')) ids = Some ss /\ Forall (id_in (str_interner x')) ids /\
  last_id (str_interner x) <= last_id (str_interner x').
Proof.
  intros Hx Hs. revert x ids x' Hx. induction Hs as [|s ss Hs Hss IH]; intros x ids x' Hx; cbn [intern_strs].
  - intros [= <- <-]. done.
  - destruct (intern_str s x) as [id x1] eqn:E1. destruct (intern_strs ss x1) as [ids1 x2] eqn:E2. intros [= <- <-].
    destruct (intern_str_spec _ _ _ _ Hx Hs E1) as (Hx1 & Hp1 & He & Hid & Hle1). destruct (IH _ _ _ Hx1 E2) as (Hx2 & Hp2 & Hm & Hids & Hle2).
    split_and!; [done|by etrans|cbn; by rewrite (entry_prefix _ _ _ _ _ Hp2 He), Hm|constructor; [by eapply id_in_mono|done]|lia].
Qed.

Lemma intern_resource_strs_spec rs x ids x' :
  str_ok x -> Forall (fun '(a, c) => short a /\ short c) rs -> intern_resource_strs rs x = (ids, x') ->
  str_ok x' /\ skeys x `prefix_of` skeys x' /\
  mapM (fun '(a, c) => x ← entry [] (skeys x') a; y ← entry [] (skeys x') c; Some (x, y)) ids = Some rs /\
  Forall (fun '(a, c) => id_in (str_interner x') a /\ id_in (str_interner x') c) ids /\ last_id (str_interner x) <= last_id (str_interner x').
Proof.
  intros Hx Hs. revert x ids x' Hx. induction Hs as [|[a c] rs [Ha Hc] Hrs IH]; intros x ids x' Hx; cbn [intern_resource_strs].
  - intros [= <- <-]. done.
  - destruct (intern_str a x) as [id1 x1] eqn:E1. destruct (intern_str c x1) as [id2 x2] eqn:E2. destruct (intern_resource_strs rs x2) as [ids1 x3] eqn:E3. intros [= <- <-].
    destruct (intern_str_spec _ _ _ _ Hx Ha E1) as (Hx1 & Hp1 & He1 & Hid1 & Hle1). destruct (intern_str_spec _ _ _ _ Hx1 Hc E2) as (Hx2 & Hp2 & He2 & Hid2 & Hle2).
    destruct (IH _ _ _ Hx2 E3) as (Hx3 & Hp3 & Hm & Hids & Hle3).
    assert (Hp13 : skeys x1 `prefix_of` skeys x3) by by etrans.
    split_and!; [done|etrans; [done|done]| |constructor; [split; [eapply id_in_mono; [|done]; lia|by eapply id_in_mono]|done]|lia].
    cbn. rewrite (entry_prefix _ _ _ _ _ Hp13 He1), (entry_prefix _ _ _ _ _ Hp3 He2). cbn. by rewrite Hm.
Qed.

(** The encoded forms of tag sets and resources. *)
Definition enc_tagset (ids : list Z) : list Z := [Z.of_nat (length ids)] ++ delta_encode (merge_sort Z.le ids).

Record dict_ok (d : Dictionaries) : Prop := {
  do_names : str_ok (names_dict d);
  do_tags : str_ok (tags_dict d);
  do_tagset_interner : interner_ok (tagset_interner d);
  do_tagsets : dict_tagsets d = mjoin (enc_tagset <$> keys (tagset_interner d));
  do_tagset_ids : Forall (Forall (id_in (str_interner (tags_dict d)))) (keys (tagset_interner d));
  do_resource_strs : str_ok (resource_str_dict d);
  do_resource_interner : interner_ok (resource_interner d);
  do_resource_len : dict_resource_len d = (fun ids => Z.of_nat (length ids)) <$> keys (resource_interner d);
  do_resource_type : dict_resource_type d = mjoin ((fun ids => delta_encode (fst <$> ids)) <$> keys (resource_interner d));
  do_resource_name : dict_resource_name d = mjoin ((fun ids => delta_encode (snd <$> ids)) <$> keys (resource_interner d));
  do_resource_ids : Forall (Forall (fun '(a, c) => id_in (str_interner (resource_str_dict d)) a /\ id_in (str_interner (resource_str_dict d)) c)) (keys (resource_interner d));
  do_source_types : str_ok (source_type_dict d);
  do_origin_interner : interner_ok (origin_interner d);
  do_origins : dict_origin_info d = mjoin ((fun '(a, c, e) => [a; c; e]) <$> keys (origin_interner d));
  do_units : str_ok (unit_dict d);
}.

(** What the dictionaries stand for. *)
Definition tables (d : Dictionaries) : Tables := {|
  t_names := skeys (names_dict d); t_tags := skeys (tags_dict d); t_tagsets := merge_sort Z.le <$> keys (tagset_interner d);
  t_resource_strs := skeys (resource_str_dict d); t_resources := keys (resource_interner d); t_source_types := skeys (source_type_dict d);
  t_origins := keys (origin_interner d); t_units := skeys (unit_dict d);
|}.

Record tables_prefix (t t' : Tables) : Prop := {
  tp_names : t_names t `prefix_of` t_names t'; tp_tags : t_tags t `prefix_of` t_tags t'; tp_tagsets : t_tagsets t `prefix_of` t_tagsets t';
  tp_resource_strs : t_resource_strs t `prefix_of` t_resource_strs t'; tp_resources : t_resources t `prefix_of` t_resources t';
  tp_source_types : t_source_types t `prefix_of` t_source_types t'; tp_origins : t_origins t `prefix_of` t_origins t'; tp_units : t_units t `prefix_of` t_units t';
}.

#[export] Instance tables_prefix_preorder : PreOrder tables_prefix.
Proof. split; [intros t; by split|]. intros t1 t2 t3 [] []. split; by etrans. Qed.

(** Identifiers that fit an [i64]. *)
Definition small {K} (i : Interner K) : Prop := last_id i < 2 ^ 63.
Record small_dicts (d : Dictionaries) : Prop := {
  sd_names : small (str_interner (names_dict d)); sd_tags : small (str_interner (tags_dict d)); sd_tagsets : small (tagset_interner d);
  sd_resource_strs : small (str_interner (resource_str_dict d)); sd_resources : small (resource_interner d);
  sd_source_types : small (str_interner (source_type_dict d)); sd_origins : small (origin_interner d); sd_units : small (str_interner (unit_dict d));
}.

Lemma id_in_i64 {K} (i : Interner K) id : small i -> id_in i id -> is_i 64 id.
Proof. unfold small, id_in, is_i. change (2 ^ (64 - 1)) with (2 ^ 63). lia. Qed.

(** *** Reading the tables *)

Lemma read_strdict_ok x : str_ok x -> read_strdict x = Some (skeys x).
Proof. intros [_ Hb Hs]. unfold read_strdict. rewrite Hb. apply read_enc_strs; [done|apply enc_strs_length]. Qed.

Lemma read_tagsets_ok l fuel : Forall (Forall (is_i 64)) l -> (length l <= fuel)%nat -> read_tagsets fuel (mjoin (enc_tagset <$> l)) = Some (merge_sort Z.le <$> l).
Proof.
  intros Hl. revert fuel. induction Hl as [|ids l Hids Hl IH]; intros fuel Hf; [by destruct fuel|]. destruct fuel as [|fuel]; [cbn in Hf; lia|].
  change (mjoin (enc_tagset <$> ids :: l)) with (Z.of_nat (length ids) :: delta_encode (merge_sort Z.le ids) ++ mjoin (enc_tagset <$> l)). cbn [read_tagsets].
  assert (Hperm : merge_sort Z.le ids ≡ₚ ids) by apply merge_sort_Permutation.
  rewrite eat_app by (unfold delta_encode; rewrite delta_encode_length, Hperm; lia). cbn [mbind option_bind].
  rewrite IH by (cbn in Hf; lia). cbn. rewrite undelta_delta; [done|lia|]. by rewrite Hperm.
Qed.

Lemma tagsets_length l : (length l <= length (mjoin (enc_tagset <$> l)))%nat.
Proof.
  induction l as [|ids l IH]; [done|]. change (mjoin (enc_tagset <$> ids :: l)) with (enc_tagset ids ++ mjoin (enc_tagset <$> l)). rewrite length_app.
  cbn [enc_tagset length app]. lia.
Qed.

Lemma mjoin_cons {A} (x : list A) l : mjoin (x :: l) = x ++ mjoin l.
Proof. reflexivity. Qed.

Lemma zip_fst_snd {A B} (l : list (A * B)) : zip (fst <$> l) (snd <$> l) = l.
Proof. induction l as [|[x y] l IH]; [done|]. cbn. by f_equal. Qed.

Lemma read_resources_ok l : Forall (Forall (fun '(a, c) => is_i 64 a /\ is_i 64 c)) l ->
  read_resources ((fun ids => Z.of_nat (length ids)) <$> l) (mjoin ((fun ids => delta_encode (fst <$> ids)) <$> l)) (mjoin ((fun ids => delta_encode (snd <$> ids)) <$> l)) = Some l.
Proof.
  induction 1 as [|ids l Hids Hl IH]; [done|]. rewrite !fmap_cons, !mjoin_cons. cbn [read_resources].
  rewrite !eat_app by (unfold delta_encode; rewrite delta_encode_length, length_fmap; lia). cbn [mbind option_bind].
  rewrite IH. cbn [mbind option_bind]. unfold delta_encode. rewrite !undelta_delta; [by rewrite zip_fst_snd|lia| |lia|].
  all: apply Forall_fmap; eapply Forall_impl; [exact Hids|]; by intros [a c] [Ha Hc].
Qed.

Lemma read_origins_ok l : read_origins (mjoin ((fun '(a, c, e) => [a; c; e]) <$> l)) = Some l.
Proof. induction l as [|[[a c] e] l IH]; [done|]. rewrite fmap_cons, mjoin_cons. cbn [app read_origins]. by rewrite IH. Qed.

Lemma read_tables_ok d : dict_ok d -> small_dicts d -> read_tables d = Some (tables d).
Proof.
  intros Hd Hs. unfold read_tables. rewrite !read_strdict_ok by apply Hd. cbn [mbind option_bind].
  rewrite (do_tagsets _ Hd), read_tagsets_ok; [|eapply Forall_impl; [apply (do_tagset_ids _ Hd)|]; intros ids Hids; eapply Forall_impl; [exact Hids|]; intros id; apply id_in_i64, Hs|apply tagsets_length].
  cbn [mbind option_bind]. rewrite (do_resource_len _ Hd), (do_resource_type _ Hd), (do_resource_name _ Hd), read_resources_ok.
  2:{ eapply Forall_impl; [apply (do_resource_ids _ Hd)|]. intros ids Hids. eapply Forall_impl; [exact Hids|]. intros [a c] [Ha Hc].
      split; [eapply id_in_i64; [|exact Ha]|eapply id_in_i64; [|exact Hc]]; apply Hs. }
  cbn [mbind option_bind]. rewrite (do_origins _ Hd), read_origins_ok. cbn [mbind option_bind]. done.
Qed.

(** *** Interning *)

Lemma mapM_impl {A B} (f g : A -> option B) l k : (forall x y, f x = Some y -> g x = Some y) -> mapM f l = Some k -> mapM g l = Some k.
Proof. intros Hfg. rewrite !mapM_Some. intros Hk. eapply Forall2_impl; [exact Hk|]. apply Hfg. Qed.

Lemma mapM_perm {A B} (f : A -> option B) l l' k : l ≡ₚ l' -> mapM f l = Some k -> exists k', mapM f l' = Some k' /\ k ≡ₚ k'.
Proof.
  intros Hp. rewrite mapM_Some. intros Hk. destruct (Permutation_Forall2 Hp Hk) as (k' & Hp' & Hk'). exists k'. by rewrite mapM_Some.
Qed.

(** The tags of a row, up to their order, and its resources. *)
Definition reads_tags (t : Tables) (id : Z) (ts : list bytes) : Prop :=
  exists ids tgs, entry [] (t_tagsets t) id = Some ids /\ mapM (entry [] (t_tags t)) ids = Some tgs /\ tgs ≡ₚ ts.
Definition reads_resources (t : Tables) (id : Z) (rs : list (bytes * bytes)) : Prop :=
  exists ids, entry [] (t_resources t) id = Some ids /\
    mapM (fun '(a, c) => x ← entry [] (t_resource_strs t) a; y ← entry [] (t_resource_strs t) c; Some (x, y)) ids = Some rs.

Lemma reads_tags_mono t t' id ts : tables_prefix t t' -> reads_tags t id ts -> reads_tags t' id ts.
Proof.
  intros Hp (ids & tgs & He & Hm & Hperm). exists ids, tgs. split_and!; [by eapply entry_prefix; [apply Hp|]| |done].
  eapply mapM_impl; [|exact Hm]. intros x y. apply entry_prefix, Hp.
Qed.

Lemma resource_mapM_mono (l l' : list bytes) ids rs : l `prefix_of` l' ->
  mapM (fun '(a, c) => x ← entry [] l a; y ← entry [] l c; Some (x, y)) ids = Some rs -> mapM (fun '(a, c) => x ← entry [] l' a; y ← entry [] l' c; Some (x, y)) ids = Some rs.
Proof.
  intros Hp. apply mapM_impl. intros [a c] y. destruct (entry [] l a) as [x1|] eqn:E1; [|done]. destruct (entry [] l c) as [x2|] eqn:E2; [|done].
  rewrite (entry_prefix _ _ _ _ _ Hp E1), (entry_prefix _ _ _ _ _ Hp E2). done.
Qed.

Lemma reads_resources_mono t t' id rs : tables_prefix t t' -> reads_resources t id rs -> reads_resources t' id rs.
Proof.
  intros Hp (ids & He & Hm). exists ids. split; [by eapply entry_prefix; [apply Hp|]|]. eapply resource_mapM_mono; [apply Hp|done].
Qed.

Lemma intern_name_spec s d id d' : dict_ok d -> short s -> intern_name s d = (id, d') ->
  dict_ok d' /\ tables_prefix (tables d) (tables d') /\ entry [] (t_names (tables d')) id = Some s.
Proof.
  intros Hd Hs. unfold intern_name. destruct (intern_str s (names_dict d)) as [id0 x] eqn:E. intros [= <- <-].
  destruct (intern_str_spec _ _ _ _ (do_names _ Hd) Hs E) as (Hx & Hp & He & _). split; [destruct Hd; by split|split; [by split|done]].
Qed.

Lemma intern_source_type_spec s d id d' : dict_ok d -> short s -> intern_source_type s d = (id, d') ->
  dict_ok d' /\ tables_prefix (tables d) (tables d') /\ entry [] (t_source_types (tables d')) id = Some s.
Proof.
  intros Hd Hs. unfold intern_source_type. destruct (intern_str s (source_type_dict d)) as [id0 x] eqn:E. intros [= <- <-].
  destruct (intern_str_spec _ _ _ _ (do_source_types _ Hd) Hs E) as (Hx & Hp & He & _). split; [destruct Hd; by split|split; [by split|done]].
Qed.

Lemma intern_unit_spec s d id d' : dict_ok d -> short s -> intern_unit s d = (id, d') ->
  dict_ok d' /\ tables_prefix (tables d) (tables d') /\ entry [] (t_units (tables d')) id = Some s.
Proof.
  intros Hd Hs. unfold intern_unit. destruct (intern_str s (unit_dict d)) as [id0 x] eqn:E. intros [= <- <-].
  destruct (intern_str_spec _ _ _ _ (do_units _ Hd) Hs E) as (Hx & Hp & He & _). split; [destruct Hd; by split|split; [by split|done]].
Qed.

Lemma intern_tagset_spec ts d id d' : dict_ok d -> Forall short ts -> intern_tagset ts d = (id, d') ->
  dict_ok d' /\ tables_prefix (tables d) (tables d') /\ reads_tags (tables d') id ts.
Proof.
  intros Hd Hs. unfold intern_tagset. destruct (intern_strs ts (tags_dict d)) as [ids x] eqn:E.
  destruct (intern_strs_spec _ _ _ _ (do_tags _ Hd) Hs E) as (Hx & Hp & Hm & Hids & Hle).
  assert (Hmono : Forall (Forall (id_in (str_interner x))) (keys (tagset_interner d))).
  { eapply Forall_impl; [apply (do_tagset_ids _ Hd)|]. intros l Hl. eapply Forall_impl; [exact Hl|]. intros i. by apply id_in_mono. }
  destruct ids as [|id0 ids0] eqn:Eids.
  - intros [= <- <-]. apply mapM_Some, Forall2_nil_inv_l in Hm as ->. split; [destruct Hd; by split|]. split; [by split|]. exists [], []. done.
  - rewrite <- Eids in *. clear Eids id0 ids0. destruct (get_or_insert ids (tagset_interner d)) as [[id1 new] i] eqn:E2. intros [= <- <-].
    destruct (get_or_insert_spec _ _ _ _ _ (do_tagset_interner _ Hd) E2) as (Hi & Hk & Hid & Hl & _).
    split; [|split].
    + destruct Hd. split; cbn; try done.
      * rewrite Hk, fmap_app, join_app, do_tagsets0. destruct new; cbn; [|by rewrite app_nil_r]. unfold encode_tagset, enc_tagset. cbn. by rewrite app_nil_r.
      * rewrite Hk. apply Forall_app. split; [done|]. destruct new; [|constructor]. by repeat constructor.
    + split; cbn; try done. rewrite Hk, fmap_app. by apply prefix_app_r.
    + destruct (mapM_perm _ _ (merge_sort Z.le ids) _ (symmetry (merge_sort_Permutation Z.le ids)) Hm) as (tgs & Hm' & Hperm).
      exists (merge_sort Z.le ids), tgs. cbn. split_and!; [|done|by symmetry]. apply entry_in; [lia|]. by rewrite list_lookup_fmap, Hl.
Qed.

Lemma intern_resources_spec rs d id d' : dict_ok d -> Forall (fun '(a, c) => short a /\ short c) rs -> intern_resources rs d = (id, d') ->
  dict_ok d' /\ tables_prefix (tables d) (tables d') /\ reads_resources (tables d') id rs.
Proof.
  intros Hd Hs. unfold intern_resources. destruct (intern_resource_strs rs (resource_str_dict d)) as [ids x] eqn:E.
  destruct (intern_resource_strs_spec _ _ _ _ (do_resource_strs _ Hd) Hs E) as (Hx & Hp & Hm & Hids & Hle).
  assert (Hmono : Forall (Forall (fun '(a, c) => id_in (str_interner x) a /\ id_in (str_interner x) c)) (keys (resource_interner d))).
  { eapply Forall_impl; [apply (do_resource_ids _ Hd)|]. intros l Hl. eapply Forall_impl; [exact Hl|]. intros [a c] [Ha Hc]. split; by eapply id_in_mono. }
  destruct ids as [|id0 ids0] eqn:Eids.
  - intros [= <- <-]. apply mapM_Some, Forall2_nil_inv_l in Hm as ->. split; [destruct Hd; by split|]. split; [by split|]. exists []. done.
  - rewrite <- Eids in *. clear Eids id0 ids0. destruct (get_or_insert ids (resource_interner d)) as [[id1 new] i] eqn:E2. intros [= <- <-].
    destruct (get_or_insert_spec _ _ _ _ _ (do_resource_interner _ Hd) E2) as (Hi & Hk & Hid & Hl & _).
    assert (Hread : forall len ty nm, reads_resources (tables (set_resource_dicts x i len ty nm d)) id1 rs).
    { intros. exists ids. cbn. split; [apply entry_in; [lia|done]|done]. }
    destruct new; (split; [|split; [split; cbn; try done; rewrite Hk; by apply prefix_app_r|apply Hread]]).
    + destruct Hd. split; cbn; try done; rewrite Hk, ?fmap_app, ?join_app; [by rewrite do_resource_len0|by rewrite do_resource_type0; cbn; rewrite app_nil_r|by rewrite do_resource_name0; cbn; rewrite app_nil_r|].
      apply Forall_app. split; [done|]. by repeat constructor.
    + rewrite app_nil_r in Hk. destruct Hd. split; cbn; try done; by rewrite Hk.
Qed.

Lemma intern_origin_spec a c e d id d' : dict_ok d -> intern_origin a c e d = (id, d') ->
  dict_ok d' /\ tables_prefix (tables d) (tables d') /\ entry (0, 0, 0) (t_origins (tables d')) id = Some (a, c, e).
Proof.
  intros Hd. unfold intern_origin. destruct ((a =? 0) && (c =? 0) && (e =? 0)) eqn:Hz.
  - intros [= <- <-]. apply andb_prop in Hz as [[?%Z.eqb_eq ?%Z.eqb_eq]%andb_prop ?%Z.eqb_eq]. subst. done.
  - destruct (get_or_insert (a, c, e) (origin_interner d)) as [[id1 new] i] eqn:E. intros [= <- <-].
    destruct (get_or_insert_spec _ _ _ _ _ (do_origin_interner _ Hd) E) as (Hi & Hk & Hid & Hl & _). split; [|split].
    + destruct Hd. split; cbn; try done. rewrite Hk, fmap_app, join_app, do_origins0. destruct new; cbn; [done|by rewrite app_nil_r].
    + split; cbn; try done. rewrite Hk. by apply prefix_app_r.
    + cbn. apply entry_in; [lia|done].
Qed.

(** ** Columns *)

Definition row_cols (c : MetricColumns) (r : Row) (u : list Z) : MetricColumns := {|
  types := types c ++ [r_type r]; names := names c ++ [r_name r]; tags := tags c ++ [r_tags r]; resources := resources c ++ [r_resources r];
  intervals := intervals c ++ [r_interval r]; num_points := num_points c ++ [r_points r]; source_type_names := source_type_names c ++ [r_source_type r];
  origin_infos := origin_infos c ++ [r_origin r]; unit_refs := unit_refs c ++ u;
|}.

(** All columns have an entry for each metric. *)
Record cols_len (c : MetricColumns) (n : nat) : Prop := {
  cl_types : length (types c) = n; cl_names : length (names c) = n; cl_tags : length (tags c) = n; cl_resources : length (resources c) = n;
  cl_intervals : length (intervals c) = n; cl_points : length (num_points c) = n; cl_source_types : length (source_type_names c) = n;
  cl_origins : length (origin_infos c) = n;
}.

Lemma insert_last {A} (l : list A) n x y : length l = n -> <[n:=y]> (l ++ [x]) = l ++ [y].
Proof. intros <-. rewrite <- (Nat.add_0_r (length l)), insert_app_r. done. Qed.
Lemma alter_last {A} (f : A -> A) (l : list A) n x : length l = n -> alter f n (l ++ [x]) = l ++ [f x].
Proof. intros <-. rewrite alter_app_r_alt by lia. by rewrite Nat.sub_diag. Qed.
Lemma lookup_last {A} (l : list A) n x : length l = n -> (l ++ [x]) !! n = Some x.
Proof. intros <-. by rewrite lookup_app_r, Nat.sub_diag by lia. Qed.

Section rows.
Context (c : MetricColumns) (n : nat) (Hlen : cols_len c n) (u : list Z).

Lemma set_tags_row id r : set_tags_col <[n:=id]> (row_cols c r u) =
  row_cols c {| r_type := r_type r; r_name := r_name r; r_tags := id; r_resources := r_resources r; r_interval := r_interval r; r_points := r_points r;
                r_source_type := r_source_type r; r_origin := r_origin r |} u.
Proof. unfold set_tags_col, row_cols. cbn. by rewrite insert_last by apply Hlen. Qed.
Lemma set_resources_row id r : set_resources_col <[n:=id]> (row_cols c r u) =
  row_cols c {| r_type := r_type r; r_name := r_name r; r_tags := r_tags r; r_resources := id; r_interval := r_interval r; r_points := r_points r;
                r_source_type := r_source_type r; r_origin := r_origin r |} u.
Proof. unfold set_resources_col, row_cols. cbn. by rewrite insert_last by apply Hlen. Qed.
Lemma set_intervals_row x r : set_intervals <[n:=x]> (row_cols c r u) =
  row_cols c {| r_type := r_type r; r_name := r_name r; r_tags := r_tags r; r_resources := r_resources r; r_interval := x; r_points := r_points r;
                r_source_type := r_source_type r; r_origin := r_origin r |} u.
Proof. unfold set_intervals, row_cols. cbn. by rewrite insert_last by apply Hlen. Qed.
Lemma set_source_row id r : set_source_type_names <[n:=id]> (row_cols c r u) =
  row_cols c {| r_type := r_type r; r_name := r_name r; r_tags := r_tags r; r_resources := r_resources r; r_interval := r_interval r; r_points := r_points r;
                r_source_type := id; r_origin := r_origin r |} u.
Proof. unfold set_source_type_names, row_cols. cbn. by rewrite insert_last by apply Hlen. Qed.
Lemma set_origin_row id r : set_origin_infos <[n:=id]> (row_cols c r u) =
  row_cols c {| r_type := r_type r; r_name := r_name r; r_tags := r_tags r; r_resources := r_resources r; r_interval := r_interval r; r_points := r_points r;
                r_source_type := r_source_type r; r_origin := id |} u.
Proof. unfold set_origin_infos, row_cols. cbn. by rewrite insert_last by apply Hlen. Qed.
Lemma set_types_row f r : set_types (alter f n) (row_cols c r u) =
  row_cols c {| r_type := f (r_type r); r_name := r_name r; r_tags := r_tags r; r_resources := r_resources r; r_interval := r_interval r; r_points := r_points r;
                r_source_type := r_source_type r; r_origin := r_origin r |} u.
Proof. unfold set_types, row_cols. cbn. by rewrite alter_last by apply Hlen. Qed.
Lemma set_points_row f r : set_num_points (alter f n) (row_cols c r u) =
  row_cols c {| r_type := r_type r; r_name := r_name r; r_tags := r_tags r; r_resources := r_resources r; r_interval := r_interval r; r_points := f (r_points r);
                r_source_type := r_source_type r; r_origin := r_origin r |} u.
Proof. unfold set_num_points, row_cols. cbn. by rewrite alter_last by apply Hlen. Qed.
Lemma set_units_row x r : set_unit_refs (fun l => l ++ [x]) (row_cols c r []) = row_cols c r [x].
Proof. unfold set_unit_refs, row_cols. cbn. by rewrite app_nil_r. Qed.
Lemma row_cols_len r : cols_len (row_cols c r u) (S n).
Proof. destruct Hlen. split; cbn; rewrite length_app; cbn; lia. Qed.
End rows.

(** *** Points *)

Definition pcat (p q : PointColumns) : PointColumns := {|
  timestamps := timestamps p ++ timestamps q; vals_sint64 := vals_sint64 p ++ vals_sint64 q; vals_float32 := vals_float32 p ++ vals_float32 q;
  vals_float64 := vals_float64 p ++ vals_float64 q; sketch_num_bins := sketch_num_bins p ++ sketch_num_bins q;
  sketch_bin_keys := sketch_bin_keys p ++ sketch_bin_keys q; sketch_bin_cnts := sketch_bin_cnts p ++ sketch_bin_cnts q;
|}.

Definition point_times (ps : V3Points) : list Z := match ps with Scalars l => fst <$> l | Sketches l => s_timestamp <$> l end.
Definition point_counts (ps : V3Points) : list Z := match ps with Scalars _ => [] | Sketches l => s_count <$> l end.
Definition summary (s : V3Sketch) : list f64 := [s_sum s; s_min s; s_max s].
Definition point_floats (ps : V3Points) : list f64 := match ps with Scalars l => snd <$> l | Sketches l => mjoin (summary <$> l) end.
Definition point_bins (ps : V3Points) : list (list (Z * Z)) := match ps with Scalars _ => [] | Sketches l => s_bins <$> l end.
Definition points_len (ps : V3Points) : nat := match ps with Scalars l => length l | Sketches l => length l end.

(** The columns of points before and after they are compacted. *)
Definition open_points (ps : V3Points) : PointColumns := {|
  timestamps := point_times ps; vals_sint64 := point_counts ps; vals_float32 := []; vals_float64 := point_floats ps;
  sketch_num_bins := (fun bs => Z.of_nat (length bs)) <$> point_bins ps; sketch_bin_keys := mjoin ((fun bs => delta_encode_i32 (fst <$> bs)) <$> point_bins ps);
  sketch_bin_cnts := mjoin ((fun bs => snd <$> bs) <$> point_bins ps);
|}.
Definition is_sketches (ps : V3Points) : bool := match ps with Sketches _ => true | Scalars _ => false end.
Definition points_type (ps : V3Points) : V3ValueType := value_type_for_values (point_floats ps).
Definition closed_points (ps : V3Points) : PointColumns := {|
  timestamps := point_times ps;
  vals_sint64 := match points_type ps with
                 | VSint64 => if is_sketches ps then interleave (point_counts ps) (point_floats ps) else f64_to_i 64 <$> point_floats ps
                 | _ => point_counts ps
                 end;
  vals_float32 := match points_type ps with VFloat32 => f64_to_f32 <$> point_floats ps | _ => [] end;
  vals_float64 := match points_type ps with VFloat64 => point_floats ps | _ => [] end;
  sketch_num_bins := sketch_num_bins (open_points ps); sketch_bin_keys := sketch_bin_keys (open_points ps); sketch_bin_cnts := sketch_bin_cnts (open_points ps);
|}.

Definition with_points (x : Z) (r : Row) : Row :=
  {| r_type := r_type r; r_name := r_name r; r_tags := r_tags r; r_resources := r_resources r; r_interval := r_interval r; r_points := x;
     r_source_type := r_source_type r; r_origin := r_origin r |}.
Definition with_type (x : Z) (r : Row) : Row :=
  {| r_type := x; r_name := r_name r; r_tags := r_tags r; r_resources := r_resources r; r_interval := r_interval r; r_points := r_points r;
     r_source_type := r_source_type r; r_origin := r_origin r |}.

Lemma pcat_assoc p q r : pcat (pcat p q) r = pcat p (pcat q r).
Proof. unfold pcat. cbn. by rewrite !app_assoc. Qed.

Lemma add_points_spec ps bl w c r u :
  cols_len c (metric_idx bl) -> cols w = row_cols c r u ->
  add_points ps bl w = {| dicts := dicts w; cols := row_cols c (with_points (r_points r + Z.of_nat (points_len ps)) r) u;
                          pts := pcat (pts w) (open_points ps); value_encoding_stats := value_encoding_stats w |}.
Proof.
  intros Hlen Hc. destruct ps as [l|l]; cbn [add_points points_len].
  - revert w r Hc. induction l as [|[ts v] l IH]; intros w r Hc; cbn [foldl].
    + destruct w as [d c0 p st]. cbn in *. subst. rewrite Z.add_0_r. unfold pcat, open_points. cbn. destruct p, r. cbn. by rewrite !app_nil_r.
    + assert (E : add_point ts v bl w = {| dicts := dicts w; cols := row_cols c (with_points (r_points r + 1) r) u;
        pts := pcat (pts w) (open_points (Scalars [(ts, v)])); value_encoding_stats := value_encoding_stats w |}).
      { unfold add_point, with_cols, with_pts. cbn. rewrite Hc, (set_points_row _ _ Hlen). f_equal. unfold pcat. cbn. by rewrite !app_nil_r. }
      rewrite E. erewrite IH by reflexivity. cbn [dicts cols pts value_encoding_stats]. f_equal; [f_equal; unfold with_points; cbn; f_equal; lia|].
      rewrite pcat_assoc. f_equal. 
  - revert w r Hc. induction l as [|s l IH]; intros w r Hc; cbn [foldl].
    + destruct w as [d c0 p st]. cbn in *. subst. rewrite Z.add_0_r. unfold pcat, open_points. cbn. destruct p, r. cbn. by rewrite !app_nil_r.
    + assert (E : add_sketch (s_timestamp s) (s_count s) (s_sum s) (s_min s) (s_max s) (fst <$> s_bins s) (snd <$> s_bins s) bl w =
        {| dicts := dicts w; cols := row_cols c (with_points (r_points r + 1) r) u;
           pts := pcat (pts w) (open_points (Sketches [s])); value_encoding_stats := value_encoding_stats w |}).
      { unfold add_sketch, with_cols, with_pts. cbn. rewrite Hc, (set_points_row _ _ Hlen). f_equal. unfold pcat. cbn. by rewrite !app_nil_r, length_fmap. }
      rewrite E. erewrite IH by reflexivity. cbn [dicts cols pts value_encoding_stats]. f_equal; [f_equal; unfold with_points; cbn; f_equal; lia|].
      rewrite pcat_assoc. f_equal. unfold pcat, open_points. cbn. by rewrite !app_nil_r.
Qed.

Lemma compact_spec ps bl w c r u p0 :
  cols_len c (metric_idx bl) -> cols w = row_cols c r u -> pts w = pcat p0 (open_points ps) ->
  point_start_idx bl = length (vals_float64 p0) -> sint64_start_idx bl = length (vals_sint64 p0) -> r_points r = Z.of_nat (points_len ps) ->
  (Z.land (r_type r) 15 =? 4) = is_sketches ps ->
  exists st, close bl w = {| dicts := dicts w; cols := row_cols c (with_type (Z.lor (r_type r) (V3ValueType_as_u64 (points_type ps))) r) u;
                             pts := pcat p0 (closed_points ps); value_encoding_stats := st |}.
Proof.
  intros Hlen Hc Hp Hf Hs Hn Hsk. unfold close, compact_values. rewrite Hc. cbn [num_points row_cols types].
  rewrite (lookup_last _ _ _ (cl_points _ _ Hlen)), (lookup_last _ _ _ (cl_types _ _ Hlen)). cbn [default from_option id]. rewrite Hn.
  destruct (Z.eqb_spec (Z.of_nat (points_len ps)) 0) as [Hz|Hz].
  - exists (value_encoding_stats w). destruct w as [d c0 p st]. cbn in *. subst.
    assert (Hvt : points_type ps = VZero /\ closed_points ps = open_points ps).
    { destruct ps as [[|]|[|]]; cbn in Hz; try lia; done. }
    destruct Hvt as [-> ->]. cbn. rewrite Z.lor_0_r. by destruct r.
  - rewrite Hp, Hf, Hs. cbn [vals_float64 pcat open_points vals_sint64 vals_float32 timestamps sketch_num_bins sketch_bin_keys sketch_bin_cnts].
    rewrite !drop_app_length, !take_app_length. change (V3MetricType_as_u64 Sketch) with 4. rewrite Hsk, (set_types_row _ _ Hlen).
    eexists. f_equal. unfold pcat, closed_points. cbn. fold (points_type ps).
    destruct (points_type ps); cbn; rewrite ?app_nil_r; try done. destruct (is_sketches ps) eqn:E; [done|]. destruct ps; [|done]. cbn. by rewrite app_nil_r.
Qed.

(** What is asked of a metric: points that agree with its type, strings of a length in memory, and
    integers of their width. *)
Record metric_ok (m : V3Metric) : Prop := {
  mo_type : is_sketches (v_points m) = is_sketch_type (v_type m);
  mo_name : short (v_name m);
  mo_tags : Forall short (v_tags m);
  mo_resources : Forall (fun '(a, c) => short a /\ short c) (v_resources m);
  mo_source_type : short (v_source_type m);
  mo_unit : short (v_unit m);
  mo_origin : let '(a, c, e) := v_origin m in is_i 32 a /\ is_i 32 c /\ is_i 32 e;
  mo_times : Forall (is_i 64) (point_times (v_points m));
  mo_counts : Forall (is_i 64) (point_counts (v_points m));
  mo_bins : Forall (fun bs => Forall (is_i 32) (fst <$> bs)) (point_bins (v_points m));
}.

Definition type_entry (m : V3Metric) : Z :=
  Z.lor (Z.lor (Z.lor (V3MetricType_as_u64 (v_type m)) (if v_no_index m then FLAG_NO_INDEX else 0)) (if v_unit m is [] then 0 else FLAG_HAS_UNIT))
    (V3ValueType_as_u64 (points_type (v_points m))).

Record row_of (t : Tables) (m : V3Metric) (r : Row) (u : list Z) : Prop := {
  ro_type : r_type r = type_entry m;
  ro_name : entry [] (t_names t) (r_name r) = Some (v_name m);
  ro_tags : reads_tags t (r_tags r) (v_tags m);
  ro_resources : reads_resources t (r_resources r) (v_resources m);
  ro_interval : r_interval r = v_interval m;
  ro_points : r_points r = Z.of_nat (points_len (v_points m));
  ro_source_type : entry [] (t_source_types t) (r_source_type r) = Some (v_source_type m);
  ro_origin : entry (0, 0, 0) (t_origins t) (r_origin r) = Some (v_origin m);
  ro_unit : match v_unit m with [] => u = [] | un => exists id, u = [id] /\ entry [] (t_units t) id = Some un end;
}.

Lemma row_of_mono t t' m r u : tables_prefix t t' -> row_of t m r u -> row_of t' m r u.
Proof.
  intros Hp [R1 R2 R3 R4 R5 R6 R7 R8 R9]. split; [done|eapply entry_prefix; [apply Hp|done]|by eapply reads_tags_mono|by eapply reads_resources_mono|done|done| | |].
  - eapply entry_prefix; [apply Hp|done].
  - eapply entry_prefix; [apply Hp|done].
  - destruct (v_unit m); [done|]. destruct R9 as (id & -> & He). exists id. split; [done|]. eapply entry_prefix; [apply Hp|done].
Qed.

Record writer_ok (w : V3Writer) (n : nat) : Prop := { wo_dicts : dict_ok (dicts w); wo_cols : cols_len (cols w) n }.

(** The calls of the builder on the last row. *)
Definition open_writer (d : Dictionaries) (c : MetricColumns) (r : Row) (u : list Z) (p : PointColumns) (st : V3ValueEncodingStats) : V3Writer :=
  {| dicts := d; cols := row_cols c r u; pts := p; value_encoding_stats := st |}.

Section steps.
Context (c : MetricColumns) (bl : V3MetricBuilder) (Hlen : cols_len c (metric_idx bl)) (d : Dictionaries) (u : list Z) (p : PointColumns) (st : V3ValueEncodingStats).
Context (ty nm tg rs iv np sc og : Z).
Abbreviation row ty nm tg rs iv np sc og :=
  {| r_type := ty; r_name := nm; r_tags := tg; r_resources := rs; r_interval := iv; r_points := np; r_source_type := sc; r_origin := og |}.

Lemma set_tags_step ts id d' : intern_tagset ts d = (id, d') ->
  set_tags ts bl (open_writer d c (row ty nm tg rs iv np sc og) u p st) = open_writer d' c (row ty nm id rs iv np sc og) u p st.
Proof. intros E. unfold set_tags. cbn [dicts open_writer]. rewrite E. unfold with_cols, with_dicts, open_writer. cbn. by rewrite (set_tags_row _ _ Hlen). Qed.

Lemma set_resources_step l id d' : intern_resources l d = (id, d') ->
  set_resources l bl (open_writer d c (row ty nm tg rs iv np sc og) u p st) = open_writer d' c (row ty nm tg id iv np sc og) u p st.
Proof. intros E. unfold set_resources. cbn [dicts open_writer]. rewrite E. unfold with_cols, with_dicts, open_writer. cbn. by rewrite (set_resources_row _ _ Hlen). Qed.

Lemma set_source_type_step s id d' : intern_source_type s d = (id, d') ->
  set_source_type s bl (open_writer d c (row ty nm tg rs iv np sc og) u p st) = open_writer d' c (row ty nm tg rs iv np id og) u p st.
Proof. intros E. unfold set_source_type. cbn [dicts open_writer]. rewrite E. unfold with_cols, with_dicts, open_writer. cbn. by rewrite (set_source_row _ _ Hlen). Qed.

Lemma set_origin_step a e f no_index id d' : is_i 32 a -> is_i 32 e -> is_i 32 f -> intern_origin a e f d = (id, d') ->
  set_origin a e f no_index bl (open_writer d c (row ty nm tg rs iv np sc og) u p st) =
  open_writer d' c (row (Z.lor ty (if no_index then FLAG_NO_INDEX else 0)) nm tg rs iv np sc id) u p st.
Proof.
  intros Ha He Hf E. unfold set_origin. rewrite !wrap_i_id by (done || lia). cbn [dicts open_writer]. rewrite E. unfold with_cols, with_dicts, open_writer. cbn.
  rewrite (set_origin_row _ _ Hlen). destruct no_index; [|by rewrite Z.lor_0_r]. cbn. by rewrite (set_types_row _ _ Hlen).
Qed.

Lemma set_interval_step x :
  set_interval x bl (open_writer d c (row ty nm tg rs iv np sc og) u p st) = open_writer d c (row ty nm tg rs x np sc og) u p st.
Proof. unfold set_interval, with_cols, open_writer. cbn. by rewrite (set_intervals_row _ _ Hlen). Qed.
End steps.

(** [set_unit] is called at most once, with a unit. *)
Lemma set_unit_step c bl d p st ty nm tg rs iv np sc og un : cols_len c (metric_idx bl) -> unit_ref_idx bl = None -> dict_ok d -> short un ->
  let '(bl', w) := match un with [] => (bl, open_writer d c (Build_Row ty nm tg rs iv np sc og) [] p st)
                  | _ => set_unit un bl (open_writer d c (Build_Row ty nm tg rs iv np sc og) [] p st) end in
  exists d' u, w = open_writer d' c (Build_Row (Z.lor ty (if un is [] then 0 else FLAG_HAS_UNIT)) nm tg rs iv np sc og) u p st /\
    dict_ok d' /\ tables_prefix (tables d) (tables d') /\ metric_idx bl' = metric_idx bl /\ point_start_idx bl' = point_start_idx bl /\
    sint64_start_idx bl' = sint64_start_idx bl /\ match un with [] => u = [] | _ => exists id, u = [id] /\ entry [] (t_units (tables d')) id = Some un end.
Proof.
  intros Hlen Hu Hd Hs. destruct un as [|x un].
  - exists d, []. rewrite Z.lor_0_r. by split_and!.
  - unfold set_unit. rewrite Hu. cbn [dicts open_writer]. destruct (intern_unit (x :: un) d) as [id d'] eqn:E.
    destruct (intern_unit_spec _ _ _ _ Hd Hs E) as (Hd' & Hp & He). exists d', [id]. unfold with_cols, with_dicts, open_writer. cbn [dicts cols pts value_encoding_stats].
    rewrite set_units_row, (set_types_row _ _ Hlen). split_and!; [done..|]. by exists id.
Qed.

Lemma land_type t fl un : (Z.land (Z.lor (Z.lor (V3MetricType_as_u64 t) (if fl : bool then FLAG_NO_INDEX else 0)) (if un : bool then 0 else FLAG_HAS_UNIT)) 15 =? 4) = is_sketch_type t.
Proof. by destruct t, fl, un. Qed.

Lemma write_metric_spec m w n :
  writer_ok w n -> metric_ok m ->
  let w' := write_metric m w in
  writer_ok w' (S n) /\ tables_prefix (tables (dicts w)) (tables (dicts w')) /\
  exists r u, cols w' = row_cols (cols w) r u /\ pts w' = pcat (pts w) (closed_points (v_points m)) /\ row_of (tables (dicts w')) m r u.
Proof.
  intros [Hd Hlen] Hm. cbv zeta. unfold write_metric, write.
  destruct (intern_name (v_name m) (dicts w)) as [nm d1] eqn:E1. destruct (intern_name_spec _ _ _ _ Hd (mo_name _ Hm) E1) as (Hd1 & P1 & R1).
  set (bl := {| point_start_idx := length (vals_float64 (pts w)); sint64_start_idx := length (vals_sint64 (pts w)); metric_idx := length (types (cols w)); unit_ref_idx := None |}).
  assert (Hlen' : cols_len (cols w) (metric_idx bl)) by (cbn; by rewrite (cl_types _ _ Hlen)).
  match goal with |- context [with_cols ?f (with_dicts d1 w)] => set (w1 := with_cols f (with_dicts d1 w)) end.
  assert (Hw1 : w1 = open_writer d1 (cols w) (Build_Row (V3MetricType_as_u64 (v_type m)) nm 0 0 0 0 0 0) [] (pts w) (value_encoding_stats w)).
  { unfold w1, with_cols, with_dicts, open_writer, row_cols. cbn. by rewrite app_nil_r. }
  rewrite Hw1. clear w1 Hw1.
  destruct (intern_tagset (v_tags m) d1) as [tg d2] eqn:E2. destruct (intern_tagset_spec _ _ _ _ Hd1 (mo_tags _ Hm) E2) as (Hd2 & P2 & R2).
  rewrite (set_tags_step _ _ Hlen' _ _ _ _ _ _ _ _ _ _ _ _ _ _ _ E2).
  destruct (intern_resources (v_resources m) d2) as [rs d3] eqn:E3. destruct (intern_resources_spec _ _ _ _ Hd2 (mo_resources _ Hm) E3) as (Hd3 & P3 & R3).
  rewrite (set_resources_step _ _ Hlen' _ _ _ _ _ _ _ _ _ _ _ _ _ _ _ E3).
  destruct (intern_source_type (v_source_type m) d3) as [sc d4] eqn:E4. destruct (intern_source_type_spec _ _ _ _ Hd3 (mo_source_type _ Hm) E4) as (Hd4 & P4 & R4).
  rewrite (set_source_type_step _ _ Hlen' _ _ _ _ _ _ _ _ _ _ _ _ _ _ _ E4).
  pose proof (mo_origin _ Hm) as Hor. destruct (v_origin m) as [[oa oc] oe] eqn:Eo. destruct Hor as (Ha & Hcc & He).
  destruct (intern_origin oa oc oe d4) as [og d5] eqn:E5. destruct (intern_origin_spec _ _ _ _ _ _ Hd4 E5) as (Hd5 & P5 & R5).
  rewrite (set_origin_step _ _ Hlen' _ _ _ _ _ _ _ _ _ _ _ _ _ _ _ _ _ _ Ha Hcc He E5).
  pose proof (set_unit_step (cols w) bl d5 (pts w) (value_encoding_stats w) (Z.lor (V3MetricType_as_u64 (v_type m)) (if v_no_index m then FLAG_NO_INDEX else 0)) nm tg rs 0 0 sc og
    (v_unit m) Hlen' eq_refl Hd5 (mo_unit _ Hm)) as HU.
  destruct (match v_unit m with [] => _ | _ => _ end) as [bl' w6]. destruct HU as (d6 & u & -> & Hd6 & P6 & I1 & I2 & I3 & R6).
  assert (Hlen6 : cols_len (cols w) (metric_idx bl')) by by rewrite I1.
  rewrite (set_interval_step _ _ Hlen6). erewrite add_points_spec; [|exact Hlen6|reflexivity]. cbn [dicts pts value_encoding_stats open_writer].
  match goal with |- context [close bl' ?w7] => destruct (compact_spec (v_points m) bl' w7 (cols w) _ u (pts w) Hlen6 eq_refl eq_refl) as (st & Hcl) end.
  { by rewrite I2. } { by rewrite I3. } { done. }
  { cbn. rewrite (mo_type _ Hm). rewrite <- (land_type (v_type m) (v_no_index m) (if v_unit m is [] then true else false)). by destruct (v_unit m). }
  rewrite Hcl. cbn [dicts cols pts].
  assert (P26 : tables_prefix (tables d2) (tables d6)) by (etrans; [exact P3|]; etrans; [exact P4|]; by etrans).
  assert (P16 : tables_prefix (tables d1) (tables d6)) by by etrans.
  assert (P36 : tables_prefix (tables d3) (tables d6)) by (etrans; [exact P4|]; by etrans).
  split; [|split; [by etrans|]].
  - split; [done|]. cbn. by apply row_cols_len.
  - eexists _, u. split; [reflexivity|]. split; [reflexivity|]. split; cbn [r_type r_name r_tags r_resources r_interval r_points r_source_type r_origin with_type with_points].
    + done.
    + eapply entry_prefix; [apply P16|exact R1].
    + eapply reads_tags_mono; [|exact R2]. done.
    + eapply reads_resources_mono; [|exact R3]. done.
    + done.
    + done.
    + eapply entry_prefix; [|exact R4]. apply (tp_source_types (tables d4)). by etrans.
    + rewrite Eo. eapply entry_prefix; [|exact R5]. apply P6.
    + by destruct (v_unit m).
Qed.
