(* ===== verification/V3RoundTrip.v ===== *)
(** * The round trip of the columnar writer

    Reading the columns of a payload gives the metrics that were written, in order. *)

From Stdlib Require Import ZArith Lia Strings.String Floats.SpecFloat Permutation.
From stdpp Require Import base tactics list numbers sorting.
From S2P Require Import Prelude Bytes Float64 V3Writer V3Values V3WriterProofs.
Open Scope Z_scope.

(** ** Points *)

Definition decoded_sketch (vt : V3ValueType) (s : V3Sketch) : V3Sketch :=
  {| s_timestamp := s_timestamp s; s_count := s_count s; s_sum := decoded vt (s_sum s); s_min := decoded vt (s_min s); s_max := decoded vt (s_max s); s_bins := s_bins s |}.
Definition decoded_points (ps : V3Points) : V3Points :=
  match ps with
  | Scalars l => Scalars (prod_map id (decoded (points_type ps)) <$> l)
  | Sketches l => Sketches (decoded_sketch (points_type ps) <$> l)
  end.

(** The columns of values alone. *)
Definition value_cols (vt : V3ValueType) (fs : list f64) : PointColumns := {|
  timestamps := [];
  vals_sint64 := match vt with VSint64 => f64_to_i 64 <$> fs | _ => [] end;
  vals_float32 := match vt with VFloat32 => f64_to_f32 <$> fs | _ => [] end;
  vals_float64 := match vt with VFloat64 => fs | _ => [] end;
  sketch_num_bins := []; sketch_bin_keys := []; sketch_bin_cnts := [];
|}.

Lemma repeat_fmap {A B} (x : B) (l : list A) : repeat x (length l) = (fun _ => x) <$> l.
Proof. induction l as [|y l IH]; [done|]. cbn. by f_equal. Qed.

Lemma read_values_ok vt fs n rest : n = length fs -> read_values vt n (pcat (value_cols vt fs) rest) = Some (decoded vt <$> fs, rest).
Proof.
  intros ->. destruct rest as [ts si f3 f6 nb bk bc]. destruct vt; cbn [read_values pcat value_cols vals_sint64 vals_float32 vals_float64 timestamps sketch_num_bins sketch_bin_keys sketch_bin_cnts app].
  - by rewrite repeat_fmap.
  - rewrite eat_app by by rewrite length_fmap. cbn. f_equal. f_equal. rewrite <- list_fmap_compose. done.
  - rewrite eat_app by by rewrite length_fmap. cbn. f_equal. f_equal. rewrite <- list_fmap_compose. done.
  - rewrite eat_app by done. cbn. by rewrite list_fmap_id.
Qed.

Lemma interleave_length (l : list V3Sketch) : length (interleave (s_count <$> l) (mjoin (summary <$> l))) = (4 * length l)%nat.
Proof. induction l as [|s l IH]; [done|]. rewrite !fmap_cons, mjoin_cons. cbn [summary app interleave length]. rewrite IH. lia. Qed.

Lemma deinterleave_ok (l : list V3Sketch) :
  deinterleave (interleave (s_count <$> l) (mjoin (summary <$> l))) = Some (s_count <$> l, decoded VSint64 <$> mjoin (summary <$> l)).
Proof. induction l as [|s l IH]; [done|]. rewrite !fmap_cons, mjoin_cons. cbn [summary app interleave deinterleave]. by rewrite IH. Qed.

Lemma summaries_length (l : list V3Sketch) : length (mjoin (summary <$> l)) = (3 * length l)%nat.
Proof. induction l as [|s l IH]; [done|]. rewrite !fmap_cons, mjoin_cons, length_app, IH. cbn. lia. Qed.

(** The columns of summaries and counts of sketches. *)
Definition summary_cols (vt : V3ValueType) (l : list V3Sketch) : PointColumns :=
  match vt with
  | VSint64 => {| timestamps := []; vals_sint64 := interleave (s_count <$> l) (mjoin (summary <$> l)); vals_float32 := []; vals_float64 := [];
                  sketch_num_bins := []; sketch_bin_keys := []; sketch_bin_cnts := [] |}
  | _ => {| timestamps := []; vals_sint64 := s_count <$> l; vals_float32 := vals_float32 (value_cols vt (mjoin (summary <$> l)));
            vals_float64 := vals_float64 (value_cols vt (mjoin (summary <$> l))); sketch_num_bins := []; sketch_bin_keys := []; sketch_bin_cnts := [] |}
  end.

Lemma read_summaries_ok vt l rest :
  read_summaries vt (length l) (pcat (summary_cols vt l) rest) = Some (s_count <$> l, decoded vt <$> mjoin (summary <$> l), rest).
Proof.
  assert (Hdec : vt = VSint64 \/ vt <> VSint64) by (destruct vt; (by left) || (by right)). destruct Hdec as [->|Hvt].
  - cbn [read_summaries]. unfold eat_sints. cbn [vals_sint64 pcat summary_cols]. rewrite eat_app by by rewrite interleave_length. cbn [mbind option_bind].
    rewrite deinterleave_ok. by destruct rest.
  - assert (E : read_summaries vt (length l) (pcat (summary_cols vt l) rest) =
      '(cs, p) ← Some (s_count <$> l, pcat (value_cols vt (mjoin (summary <$> l))) rest); '(fs, p) ← read_values vt (3 * length l) p; Some (cs, fs, p)).
    { destruct vt; try done; cbn [read_summaries]; unfold eat_sints; cbn [vals_sint64 pcat summary_cols]; by rewrite eat_app by by rewrite length_fmap. }
    rewrite E. cbn [mbind option_bind]. by rewrite read_values_ok by by rewrite summaries_length.
Qed.

Lemma read_bins_ok bs ks cs : Forall (fun bs => Forall (is_i 32) (fst <$> bs)) bs ->
  read_bins ((fun bs => Z.of_nat (length bs)) <$> bs) (mjoin ((fun bs => delta_encode_i32 (fst <$> bs)) <$> bs) ++ ks) (mjoin ((fun bs : list (Z * Z) => snd <$> bs) <$> bs) ++ cs)
  = Some (bs, ks, cs).
Proof.
  induction 1 as [|x bs Hx Hbs IH]; [done|]. rewrite !fmap_cons, !mjoin_cons, <- !app_assoc. cbn [read_bins].
  rewrite !eat_app by (unfold delta_encode_i32; rewrite ?delta_encode_length, length_fmap; lia). cbn [mbind option_bind].
  rewrite IH. cbn. unfold delta_encode_i32.
  by rewrite undelta_delta, zip_fst_snd by (done || lia).
Qed.

Lemma make_sketches_ok vt l : make_sketches (s_timestamp <$> l) (s_count <$> l) (decoded vt <$> mjoin (summary <$> l)) (s_bins <$> l) = decoded_sketch vt <$> l.
Proof. induction l as [|s l IH]; [done|]. rewrite !fmap_cons, mjoin_cons, fmap_app. cbn. by rewrite IH. Qed.

Lemma zip_prod_map {A} (f : f64 -> f64) (l : list (A * f64)) : zip (fst <$> l) (f <$> (snd <$> l)) = prod_map id f <$> l.
Proof. induction l as [|[x y] l IH]; [done|]. cbn. by f_equal. Qed.

Lemma read_points_ok ps rest :
  Forall (fun bs => Forall (is_i 32) (fst <$> bs)) (point_bins ps) ->
  read_points (is_sketches ps) (points_type ps) (points_len ps) (pcat (closed_points ps) rest) = Some (decoded_points ps, rest).
Proof.
  intros Hb. unfold read_points. cbn [timestamps pcat closed_points].
  rewrite eat_app by (destruct ps; cbn; by rewrite length_fmap). cbn [mbind option_bind]. destruct ps as [l|l]; cbn [is_sketches points_len].
  - match goal with |- context [read_values ?vt ?n ?p] => replace p with (pcat (value_cols (points_type (Scalars l)) (snd <$> l)) rest) end.
    2:{ destruct rest. unfold pcat. cbn. by destruct (points_type (Scalars l)). }
    rewrite read_values_ok by by rewrite length_fmap. cbn. by rewrite zip_prod_map.
  - set (q := {| timestamps := timestamps rest; vals_sint64 := vals_sint64 rest; vals_float32 := vals_float32 rest; vals_float64 := vals_float64 rest;
      sketch_num_bins := sketch_num_bins (open_points (Sketches l)) ++ sketch_num_bins rest; sketch_bin_keys := sketch_bin_keys (open_points (Sketches l)) ++ sketch_bin_keys rest;
      sketch_bin_cnts := sketch_bin_cnts (open_points (Sketches l)) ++ sketch_bin_cnts rest |}).
    match goal with |- context [read_summaries ?vt ?n ?p] => replace p with (pcat (summary_cols (points_type (Sketches l)) l) q) end.
    2:{ unfold pcat, q. cbn. by destruct (points_type (Sketches l)). }
    rewrite read_summaries_ok. cbn [mbind option_bind q sketch_num_bins sketch_bin_keys sketch_bin_cnts open_points point_bins].
    rewrite eat_app by by rewrite !length_fmap. cbn [mbind option_bind]. rewrite read_bins_ok by done. cbn. rewrite make_sketches_ok. by destruct rest.
Qed.

(** Equal timestamps, counts and bins, and values that are equal as numbers. *)
Definition sketch_equiv (s s' : V3Sketch) : Prop :=
  s_timestamp s' = s_timestamp s /\ s_count s' = s_count s /\ s_bins s' = s_bins s /\
  same_value (s_sum s) (s_sum s') /\ same_value (s_min s) (s_min s') /\ same_value (s_max s) (s_max s').
Definition points_equiv (ps ps' : V3Points) : Prop :=
  match ps, ps' with
  | Scalars l, Scalars l' => Forall2 (fun x x' => x'.1 = x.1 /\ same_value x.2 x'.2) l l'
  | Sketches l, Sketches l' => Forall2 sketch_equiv l l'
  | _, _ => False
  end.

Lemma Forall2_fmap_self {A} (R : A -> A -> Prop) (f : A -> A) l : Forall (fun x => R x (f x)) l -> Forall2 R l (f <$> l).
Proof. induction 1; by constructor. Qed.

Lemma decoded_points_equiv ps : points_equiv ps (decoded_points ps).
Proof.
  pose proof (values_recovered (point_floats ps)) as Hv. fold (points_type ps) in Hv. destruct ps as [l|l]; cbn in *.
  - apply Forall2_fmap_self. apply Forall_fmap in Hv. refine (Forall_impl _ _ _ Hv _). intros [t v] Hx. by split.
  - apply Forall2_fmap_self. set (vt := points_type (Sketches l)) in *. clearbody vt. induction l as [|s l IH]; [constructor|].
    cbn in Hv. apply Forall_cons in Hv as [H1 [H2 [H3 Hv]%Forall_cons]%Forall_cons]. constructor; [by split_and!|by apply IH].
Qed.

(** ** Rows *)

Lemma type_entry_type m : metric_type_of (type_entry m) = Some (v_type m).
Proof. unfold type_entry, metric_type_of. by destruct (v_type m), (v_no_index m), (v_unit m), (points_type (v_points m)). Qed.
Lemma type_entry_value_type m : value_type_of (type_entry m) = points_type (v_points m).
Proof. unfold type_entry, value_type_of. by destruct (v_type m), (v_no_index m), (v_unit m), (points_type (v_points m)). Qed.
Lemma type_entry_no_index m : Z.testbit (type_entry m) 8 = v_no_index m.
Proof. unfold type_entry. by destruct (v_type m), (v_no_index m), (v_unit m), (points_type (v_points m)). Qed.
Lemma type_entry_unit m : Z.testbit (type_entry m) 9 = if v_unit m is [] then false else true.
Proof. unfold type_entry. by destruct (v_type m), (v_no_index m), (v_unit m), (points_type (v_points m)). Qed.

(** The metric that is read: its tags may come in another order. *)
Record metric_equiv (m m' : V3Metric) : Prop := {
  me_type : v_type m' = v_type m; me_name : v_name m' = v_name m; me_tags : v_tags m' ≡ₚ v_tags m; me_resources : v_resources m' = v_resources m;
  me_interval : v_interval m' = v_interval m; me_source_type : v_source_type m' = v_source_type m; me_origin : v_origin m' = v_origin m;
  me_no_index : v_no_index m' = v_no_index m; me_unit : v_unit m' = v_unit m; me_points : points_equiv (v_points m) (v_points m');
}.

Lemma read_row_ok t m r u units rest : row_of t m r u -> metric_ok m ->
  exists m', read_row t r (u ++ units) (pcat (closed_points (v_points m)) rest) = Some (m', units, rest) /\ metric_equiv m m'.
Proof.
  intros [R1 R2 (ids & tgs & R3 & R3' & R3p) (rids & R4 & R4') R5 R6 R7 R8 R9] Hm. unfold read_row.
  rewrite R1, type_entry_type, type_entry_value_type, type_entry_no_index, type_entry_unit. cbn [mbind option_bind].
  rewrite R2, R3. cbn [mbind option_bind]. rewrite R3', R4. cbn [mbind option_bind]. rewrite R4', R7, R8. cbn [mbind option_bind].
  assert (Hu : (if (if v_unit m is [] then false else true) then '(x, units) ← eat 1 (u ++ units); un ← entry [] (t_units t) (default 0 (head x)); Some (un, units)
                else Some ([], u ++ units)) = Some (v_unit m, units)).
  { destruct (v_unit m) as [|b un]; [by subst|]. destruct R9 as (id & -> & He). rewrite eat_app by done. cbn. by rewrite He. }
  rewrite Hu. cbn [mbind option_bind]. rewrite R6, Nat2Z.id, <- (mo_type _ Hm), read_points_ok by apply Hm. cbn [mbind option_bind].
  eexists. split; [reflexivity|]. split; try done. apply decoded_points_equiv.
Qed.

Definition no_points : PointColumns :=
  {| timestamps := []; vals_sint64 := []; vals_float32 := []; vals_float64 := []; sketch_num_bins := []; sketch_bin_keys := []; sketch_bin_cnts := [] |}.
Definition metrics_points (ms : list V3Metric) : PointColumns := foldr (fun m => pcat (closed_points (v_points m))) no_points ms.
Definition cols_of (rows : list (Row * list Z)) : MetricColumns := {|
  types := r_type ∘ fst <$> rows; names := r_name ∘ fst <$> rows; tags := r_tags ∘ fst <$> rows; resources := r_resources ∘ fst <$> rows;
  intervals := r_interval ∘ fst <$> rows; num_points := r_points ∘ fst <$> rows; source_type_names := r_source_type ∘ fst <$> rows;
  origin_infos := r_origin ∘ fst <$> rows; unit_refs := mjoin (snd <$> rows);
|}.

Lemma read_rows_ok t ms rows : Forall2 (fun m x => row_of t m x.1 x.2) ms rows -> Forall metric_ok ms ->
  exists ms', read_rows t (fst <$> rows) (mjoin (snd <$> rows)) (metrics_points ms) = Some ms' /\ Forall2 metric_equiv ms ms'.
Proof.
  induction 1 as [|m [r u] ms rows Hr Hrows IH]; intros Hok; [by exists []|]. apply Forall_cons in Hok as [Hm Hok]. destruct (IH Hok) as (ms' & E & Hms).
  destruct (read_row_ok t m r u (mjoin (snd <$> rows)) (metrics_points ms) Hr Hm) as (m' & Em & He).
  exists (m' :: ms'). split; [|by constructor]. rewrite !fmap_cons, mjoin_cons. cbn [read_rows fst snd metrics_points foldr]. fold (metrics_points ms).
  rewrite Em. cbn [mbind option_bind]. by rewrite E.
Qed.

Lemma zip_rows_ok rows : let c := cols_of rows in
  zip_rows (types c) (names c) (tags c) (resources c) (intervals c) (num_points c) (source_type_names c) (origin_infos c) = fst <$> rows.
Proof. cbv zeta. induction rows as [|[r u] rows IH]; [done|]. cbn in *. rewrite IH. by destruct r. Qed.

(** ** Metrics *)

Definition write_metrics (ms : list V3Metric) : V3Writer := foldl (fun w m => write_metric m w) V3Writer_new ms.

Record written (w : V3Writer) (ms : list V3Metric) (rows : list (Row * list Z)) : Prop := {
  wr_ok : writer_ok w (length ms);
  wr_cols : cols w = cols_of rows;
  wr_pts : pts w = metrics_points ms;
  wr_rows : Forall2 (fun m x => row_of (tables (dicts w)) m x.1 x.2) ms rows;
}.

Lemma pcat_nil_r p : pcat p no_points = p.
Proof. destruct p. unfold pcat. cbn. by rewrite !app_nil_r. Qed.

Lemma metrics_points_app ms ms' : metrics_points (ms ++ ms') = pcat (metrics_points ms) (metrics_points ms').
Proof. induction ms as [|m ms IH]; [cbn [app]; generalize (metrics_points ms'); by intros []|]. cbn [metrics_points foldr app]. fold (metrics_points (ms ++ ms')) (metrics_points ms). by rewrite IH, pcat_assoc. Qed.

Lemma written_new : written V3Writer_new [] [].
Proof.
  assert (Hi : forall K, interner_ok (K:=K) Interner_new) by done. assert (Hs : str_ok StrDict_new) by done. split; [|done..]. by split.
Qed.

Lemma written_step w ms rows m : written w ms rows -> metric_ok m -> exists rows', written (write_metric m w) (ms ++ [m]) rows'.
Proof.
  intros [Hw Hc Hp Hr] Hm. destruct (write_metric_spec m w _ Hw Hm) as (Hw' & Hpre & r & u & Hc' & Hp' & Hrow). exists (rows ++ [(r, u)]). split.
  - rewrite length_app, Nat.add_1_r. done.
  - rewrite Hc', Hc. unfold row_cols, cols_of. cbn. by rewrite !fmap_app, join_app; cbn; rewrite app_nil_r.
  - rewrite Hp', Hp, metrics_points_app. cbn. by rewrite pcat_nil_r.
  - apply Forall2_app; [|by constructor; [exact Hrow|constructor]]. refine (Forall2_impl _ _ _ _ Hr _). intros m1 x1. by apply row_of_mono.
Qed.

Lemma written_metrics ms : Forall metric_ok ms -> exists rows, written (write_metrics ms) ms rows.
Proof.
  induction ms as [|m ms IH] using rev_ind; [by exists []; apply written_new|]. intros [Hok Hm]%Forall_app. destruct (IH Hok) as (rows & Hw).
  unfold write_metrics. rewrite foldl_app. cbn [foldl]. eapply written_step; [exact Hw|]. by apply Forall_cons in Hm as [? _].
Qed.

(** *** Identifiers in the columns *)

Lemma entry_range {A} (e : A) l id x : entry e l id = Some x -> 0 <= id <= Z.of_nat (length l).
Proof.
  unfold entry. destruct (Z.eqb_spec id 0); [lia|]. destruct (Z.ltb_spec id 0); [done|]. intros Hl%lookup_lt_Some. lia.
Qed.

Lemma keys_small {K} `{EqDecision K} (i : Interner K) : interner_ok i -> small i -> Z.of_nat (length (keys i)) < 2 ^ 63.
Proof. intros [_ Hl] Hs. unfold keys. rewrite length_fmap. unfold small in Hs. lia. Qed.

Lemma entry_i64 {A} (e : A) l id x : Z.of_nat (length l) < 2 ^ 63 -> entry e l id = Some x -> is_i 64 id.
Proof. intros Hl He%entry_range. unfold is_i. change (2 ^ (64 - 1)) with (2 ^ 63). lia. Qed.

Lemma column_i64 t ms rows (f : Row -> Z) : Forall2 (fun m x => row_of t m x.1 x.2) ms rows -> (forall m r u, row_of t m r u -> is_i 64 (f r)) ->
  Forall (is_i 64) (f ∘ fst <$> rows).
Proof. intros Hr Hf. apply Forall_fmap. induction Hr as [|m x ms rows Hx _ IH]; constructor; [by eapply Hf|done]. Qed.

Lemma units_i64 t ms rows : Forall2 (fun m x => row_of t m x.1 x.2) ms rows -> Z.of_nat (length (t_units t)) < 2 ^ 63 -> Forall (is_i 64) (mjoin (snd <$> rows)).
Proof.
  intros Hr Hl. induction Hr as [|m [r u] ms rows Hx _ IH]; [constructor|]. rewrite fmap_cons, mjoin_cons. apply Forall_app. split; [|done].
  pose proof (ro_unit _ _ _ _ Hx) as Hu. cbn in *. destruct (v_unit m); [by subst|]. destruct Hu as (id & -> & He). repeat constructor; by apply (entry_i64 _ _ _ _ Hl He).
Qed.

Lemma times_i64 ms : Forall metric_ok ms -> Forall (is_i 64) (timestamps (metrics_points ms)).
Proof. induction 1 as [|m ms Hm Hms IH]; [constructor|]. cbn. apply Forall_app. split; [apply Hm|done]. Qed.

(** The columns are those that were written, once the differences are summed. *)
Lemma read_columns w ms rows : written w ms rows -> Forall metric_ok ms -> small_dicts (dicts w) ->
  read_metrics (finalize_inner w) = read_rows (tables (dicts w)) (fst <$> rows) (mjoin (snd <$> rows)) (metrics_points ms).
Proof.
  intros [Hw Hc Hp Hr] Hok Hs. pose proof (wo_dicts _ _ Hw) as Hd. unfold read_metrics, finalize_inner. cbn [e_dicts e_cols e_pts]. rewrite (read_tables_ok _ Hd Hs).
  cbn [mbind option_bind types names tags resources intervals num_points source_type_names origin_infos unit_refs timestamps vals_sint64 vals_float32 vals_float64
    sketch_num_bins sketch_bin_keys sketch_bin_cnts]. unfold delta_encode. rewrite Hc, Hp.
  rewrite !undelta_delta; try lia; [| |by apply (units_i64 _ _ _ Hr), keys_small; [apply Hd|apply Hs]|..].
  - rewrite (zip_rows_ok rows). by destruct (metrics_points ms).
  - by apply times_i64.
  - apply (column_i64 _ _ _ _ Hr). intros m r u Hrow. eapply entry_i64; [|apply (ro_origin _ _ _ _ Hrow)]. apply keys_small; [apply Hd|apply Hs].
  - apply (column_i64 _ _ _ _ Hr). intros m r u Hrow. eapply entry_i64; [|apply (ro_source_type _ _ _ _ Hrow)]. apply keys_small; [apply Hd|apply Hs].
  - apply (column_i64 _ _ _ _ Hr). intros m r u Hrow. destruct (ro_resources _ _ _ _ Hrow) as (ids & He & _). eapply entry_i64; [|exact He].
    apply keys_small; [apply Hd|apply Hs].
  - apply (column_i64 _ _ _ _ Hr). intros m r u Hrow. destruct (ro_tags _ _ _ _ Hrow) as (ids & tgs & He & _). eapply entry_i64; [|exact He].
    cbn. rewrite length_fmap. apply keys_small; [apply Hd|apply Hs].
  - apply (column_i64 _ _ _ _ Hr). intros m r u Hrow. eapply entry_i64; [|apply (ro_name _ _ _ _ Hrow)]. apply keys_small; [apply Hd|apply Hs].
Qed.

(** C8: For metrics written one after the other with the calls of the builder (a name, tags, resources,
    a source type, an origin, a unit, an interval, and points or sketches), the reader of the encoded
    columns returns one metric per metric written, in order, with the same type, name, resources,
    interval, source type, origin, index flag, unit, timestamps, counts and bins, the same tags up to
    their order, and values that are equal as floating-point numbers, whichever of the four value
    encodings was chosen. *)
Theorem v3_payload_roundtrip (ms : list V3Metric) :
  Forall metric_ok ms -> small_dicts (dicts (write_metrics ms)) ->
  exists ms', read_metrics (finalize_inner (write_metrics ms)) = Some ms' /\ Forall2 metric_equiv ms ms'.
Proof.
  intros Hok Hs. destruct (written_metrics ms Hok) as (rows & Hw). rewrite (read_columns _ _ _ Hw Hok Hs). apply read_rows_ok; [apply Hw|done].
Qed.

(** *** A payload *)

Module Sample.
Definition latency : V3Metric := {|
  v_type := Gauge; v_name := b "latency"%string; v_tags := [b "env:prod"%string; b "az:1"%string]; v_resources := [(b "host"%string, b "h1"%string)]; v_interval := 10; v_source_type := [];
  v_origin := (1, 2, 3); v_no_index := true; v_unit := b "ms"%string; v_points := Scalars [(100, f64_of_Z 7); (90, f64_scale 5 (-1)); (110, f64_zero)] |}.
Definition sizes : V3Metric := {|
  v_type := Sketch; v_name := b "sizes"%string; v_tags := [b "az:1"%string; b "env:prod"%string]; v_resources := []; v_interval := 0; v_source_type := b "statsd"%string;
  v_origin := (1, 2, 3); v_no_index := false; v_unit := []; v_points := Sketches [{| s_timestamp := 100; s_count := 3; s_sum := f64_of_Z 9; s_min := f64_of_Z (-1); s_max := f64_of_Z 6;
  s_bins := [(-5, 1); (0, 1); (12, 1)] |}] |}.
Definition hits : V3Metric := {|
  v_type := Count; v_name := b "hits"%string; v_tags := [b "env:prod"%string; b "az:1"%string]; v_resources := [(b "host"%string, b "h1"%string)]; v_interval := 10; v_source_type := [];
  v_origin := (0, 0, 0); v_no_index := false; v_unit := []; v_points := Scalars [(100, f64_of_Z (2 ^ 40)); (120, f64_of_Z (-3))] |}.
End Sample.

Lemma v3_payload_roundtrip_witness :
  exists ms', read_metrics (finalize_inner (write_metrics [Sample.latency; Sample.sizes; Sample.hits])) = Some ms' /\
    Forall2 metric_equiv [Sample.latency; Sample.sizes; Sample.hits] ms'.
Proof.
  apply v3_payload_roundtrip.
  - repeat apply Forall_cons_2; [split..|by apply Forall_nil_2].
    all: repeat first [reflexivity | apply Forall_nil_2 | apply Forall_cons_2 | apply conj].
    all: by vm_compute.
  - split; by vm_compute.
Defined.

(** Equal as numbers is not the same bits: a negative zero is stored as a zero. *)
Example negative_zero_loses_its_sign :
  option_map (map v_points) (read_metrics (finalize_inner (write_metrics [{| v_type := Gauge; v_name := []; v_tags := []; v_resources := []; v_interval := 0; v_source_type := [];
     v_origin := (0, 0, 0); v_no_index := false; v_unit := []; v_points := Scalars [(0, S754_zero true)] |}]))) = Some [Scalars [(0, S754_zero false)]].
Proof. vm_compute. reflexivity. Qed.
