(* ===== verification/V3Metrics.v ===== *)
(** * Metrics as columnar payloads

    [saluki-components/src/encoders/datadog/metrics/]: how a metric is written with the columnar writer
    ([write_metric_to_v3]), and how buffered metrics become requests.  A batch is cut when a limit, or
    a target for the estimated length, is reached; a batch that turns out too large as a request is
    split in halves until the pieces fit ([v3/payload.rs], [v3/telemetry.rs]).

    The protobuf library is [CodedColumns] and [V3Header], the compression library for the configured
    scheme is [Compression], the HTTP library [HttpBuilder]; [refuses] says when the channel of payloads
    is closed.  [None] is a tag set whose iteration does not end, which does not happen.  The counters of
    the serializer's telemetry are kept as the list of calls that increment them. *)

From Stdlib Require Import ZArith Lia Strings.String Floats.SpecFloat.
From stdpp Require Import base tactics list numbers gmap.
From S2P Require Import Prelude Bytes Float64 MetricValues Backoff Aggregate TagSet Context AgentSketch RequestBuilder Encoders V3Writer.
Open Scope Z_scope.

(** ** A metric *)

Definition f64_is_finite (x : f64) : bool := negb (is_nan x) && negb (is_infinite x).
Definition emittable_scalar_point : f64 -> bool := f64_is_finite.

(** The stored summary of a sketch, and the one that is absent when it is empty. *)
Definition or_zero (s : DDSketch) (x : f64) : f64 := if DDSketch_is_empty s then f64_zero else x.

Definition sketch_has_emittable_values (s : DDSketch) : bool := negb (DDSketch_is_empty s) || negb (bool_decide (bins s = [])).

Definition set_len (l : gset string) : f64 := f64_of_Z (Z.of_nat (size l)).

Abbreviation AgentMetric := (Metric Context DDSketch).

Definition metric_has_emittable_values (m : AgentMetric) : bool :=
  match metric_values m with
  | MetricValues.Counter points | MetricValues.Rate points _ | MetricValues.Gauge points => existsb (fun p => emittable_scalar_point (value p)) points
  | Set_ points => existsb (fun p => emittable_scalar_point (set_len (value p))) points
  | Distribution sketches => existsb (fun p => sketch_has_emittable_values (value p)) sketches
  | HistogramV points => existsb (fun p => negb (bool_decide (length (samples (value p)) = 0%nat))) points
  end.

Definition is_v3_series_device_tag (t : Tag) : bool := bool_decide (Tag_name t = b "device") && bool_decide (is_Some (Tag_value t)).
Definition is_v3_series_resource_tag (t : Tag) : bool := bool_decide (Tag_name t = b "dd.internal.resource") && bool_decide (is_Some (Tag_value t)).

Definition v3_metric_type (v : MetricValues DDSketch) : V3MetricType :=
  match v with
  | MetricValues.Counter _ => Count
  | MetricValues.Rate _ _ => Rate
  | MetricValues.Gauge _ | Set_ _ => Gauge
  | HistogramV _ | Distribution _ => Sketch
  end.
Definition is_v3_sketch (t : V3MetricType) : bool := match t with Sketch => true | _ => false end.

Definition v3_timestamp (ts : option Z) : Z := match ts with Some t => wrap_i 64 t | None => 0 end.

Section metrics.
Context `{FastHasher} `{Libm} (SKETCH_CONFIG : Config).

Definition non_empty_host (c : Context) : option bytes := h ← host c; non_empty h.

(** The loop over the tags that are promoted to resources. *)
Definition resource_step '((device, rs) : option bytes * list (bytes * bytes)) (t : Tag) : option bytes * list (bytes * bytes) :=
  if is_v3_series_device_tag t then ((v ← Tag_value t; non_empty v), rs)
  else if is_v3_series_resource_tag t then
    match (v ← Tag_value t; split_once colon v) with
    | Some (rtype, rname) => if bool_decide (rtype = []) || bool_decide (rname = []) then (device, rs) else (device, rs ++ [(rtype, rname)])
    | None => (device, rs)
    end
  else (device, rs).

(** [Vec::insert] at an index within the vector. *)
Definition vec_insert {A} (i : nat) (x : A) (l : list A) : list A := take i l ++ x :: drop i l.

Definition v3_resources (sketch : bool) (c : Context) (tags_for_resources : list bytes) : list (bytes * bytes) :=
  let resources := match non_empty_host c with Some h => [(b "host", h)] | None => [] end in
  if sketch then resources
  else
    let '(device, resources) := foldl resource_step (None, resources) tags_for_resources in
    match device with
    | Some d => vec_insert (match non_empty_host c with Some _ => 1 | None => 0 end) (b "device", d) resources
    | None => resources
    end.

Definition add_scalar_points (points : list (option Z * f64)) (bl : V3MetricBuilder) (w : V3Writer) : V3Writer :=
  foldl (fun w '(ts, v) => if emittable_scalar_point v then V3Writer.add_point (v3_timestamp ts) v bl w else w) w points.

Definition add_v3_sketch (ts : option Z) (s : DDSketch) (sm mn mx : f64) (bl : V3MetricBuilder) (w : V3Writer) : V3Writer :=
  add_sketch (v3_timestamp ts) (wrap_i 64 (AgentSketch.count s)) sm mn mx (AgentSketch.k <$> bins s) (AgentSketch.n <$> bins s) bl w.

Definition histogram_to_sketch (h : Histogram) : DDSketch :=
  foldl (fun s x => insert_n SKETCH_CONFIG (sample_value x) (f64_to_u64 (sample_weight x)) s) DDSketch_default (samples h).

Definition scaled_rate (interval : Z) (v : f64) : f64 := if interval =? 0 then v else f64_div v (as_secs_f64 interval).

Definition points_of {T} (f : T -> f64) (points : TimestampedValues T) : list (option Z * f64) := (fun p => (MetricValues.timestamp p, f (value p))) <$> points.

Definition write_points (v : MetricValues DDSketch) (bl : V3MetricBuilder) (w : V3Writer) : V3Writer :=
  match v with
  | MetricValues.Counter points | MetricValues.Gauge points => add_scalar_points (points_of id points) bl w
  | MetricValues.Rate points interval =>
      add_scalar_points (points_of (scaled_rate interval) points) bl (set_interval (interval / Backoff.NANOS_PER_SEC) bl w)
  | Set_ points => add_scalar_points (points_of set_len points) bl w
  | Distribution sketches =>
      foldl (fun w p => if sketch_has_emittable_values (value p) then
               let s := value p in add_v3_sketch (MetricValues.timestamp p) s (AgentSketch.sum s) (AgentSketch.min s) (AgentSketch.max s) bl w else w) w sketches
  | HistogramV histograms =>
      foldl (fun w p => let s := histogram_to_sketch (value p) in
               if DDSketch_is_empty s then w
               else add_v3_sketch (MetricValues.timestamp p) s (or_zero s (AgentSketch.sum s)) (or_zero s (AgentSketch.min s)) (or_zero s (AgentSketch.max s)) bl w)
        w histograms
  end.

(** The tags of a metric, deduplicated in the order in which they are written, and in the order in
    which resources are taken from them. *)
Definition written_tags (c : Context) (additional_tags : SharedTagSet) : option (list bytes) :=
  ts ← TagSet.tags (c_tags c); ad ← shared_tags additional_tags; og ← TagSet.tags (Context.origin_tags c);
  Some (deduplicated (ts ++ ad ++ og) {| seen := ∅ |}).1.
Definition resource_tags (c : Context) (additional_tags : SharedTagSet) : option (list bytes) :=
  og ← TagSet.tags (Context.origin_tags c); ts ← TagSet.tags (c_tags c); ad ← shared_tags additional_tags;
  Some (deduplicated (og ++ ts ++ ad) {| seen := ∅ |}).1.

Definition write_metric_to_v3 (additional_tags : SharedTagSet) (m : AgentMetric) (w : V3Writer) : option V3Writer :=
  if negb (metric_has_emittable_values m) then Some w
  else
    let c := metric_context m in
    let metric_type := v3_metric_type (metric_values m) in
    let is_sketch := is_v3_sketch metric_type in
    let '(bl, w) := write metric_type (name c) w in
    all_tags ← written_tags c additional_tags;
    let w := set_tags (List.filter (fun t => is_sketch || negb (is_v3_series_resource_tag t) && negb (is_v3_series_device_tag t)) all_tags) bl w in
    tags_for_resources ← resource_tags c additional_tags;
    let w := set_resources (v3_resources is_sketch c tags_for_resources) bl w in
    let w := match origin (metric_metadata m) with
             | Some (SourceType s) => set_source_type (b s) bl w
             | Some (OriginMetadata product subproduct detail) => set_origin product subproduct detail false bl w
             | None => w
             end in
    let '(bl, w) := if is_sketch then (bl, w)
                    else match non_empty (b (unit_ (metric_metadata m))) with Some u => set_unit u bl w | None => (bl, w) end in
    Some (close bl (write_points (metric_values m) bl w)).

(** [encode_v3_metrics_batch], before it is serialized. *)
Fixpoint write_all_to_v3 (additional_tags : SharedTagSet) (ms : list AgentMetric) (w : V3Writer) : option V3Writer :=
  match ms with [] => Some w | m :: ms => w ← write_metric_to_v3 additional_tags m w; write_all_to_v3 additional_tags ms w end.
End metrics.

(** ** Limits *)

Record V3PayloadLimits := { max_compressed_size : Z; max_uncompressed_size : Z; max_metrics_per_payload : Z; max_points_per_payload : Z }.

Definition point_count_fits (l : V3PayloadLimits) (n : Z) : bool := n <=? max_points_per_payload l.
Definition metric_count_reached (l : V3PayloadLimits) (n : Z) : bool := max_metrics_per_payload l <=? n.
Definition should_flush_metric_count_limit (l : V3PayloadLimits) (ms : list AgentMetric) : bool := metric_count_reached l (Z.of_nat (length ms)).
Definition should_flush_point_count_limit (l : V3PayloadLimits) (n : Z) : bool := max_points_per_payload l <=? n.
Definition point_count_exceeds_limit (l : V3PayloadLimits) (n : Z) : bool := max_points_per_payload l <? n.

(** The compression ratio that was observed. *)
Definition V3_MIN_COMPRESSION_RATIO : f64 := f64_scale 5764607523034235 (-58).
Definition V3_BATCH_TARGET_MARGIN : f64 := f64_scale 8106479329266893 (-53).
Definition V3_RATIO_SMOOTHING : f64 := f64_scale 1 (-2).

Definition V3CompressionRatio := option f64.

Definition uncompressed_target (limits : V3PayloadLimits) (r : V3CompressionRatio) : Z :=
  let ratio := default f64_zero (f64_clamp (default f64_one r) V3_MIN_COMPRESSION_RATIO f64_one) in
  let target_from_compressed_limit := f64_to_u64 (f64_div (f64_of_Z (max_compressed_size limits)) ratio) in
  let target := Z.min target_from_compressed_limit (max_uncompressed_size limits) in
  Z.max (f64_to_u64 (f64_mul (f64_of_Z target) V3_BATCH_TARGET_MARGIN)) 1.

Definition ratio_record (uncompressed_len compressed_len : Z) (r : V3CompressionRatio) : V3CompressionRatio :=
  if uncompressed_len =? 0 then r
  else
    let observed := f64_div (f64_of_Z compressed_len) (f64_of_Z uncompressed_len) in
    Some (match r with
          | Some current => f64_add (f64_mul current (f64_sub f64_one V3_RATIO_SMOOTHING)) (f64_mul observed V3_RATIO_SMOOTHING)
          | None => observed
          end).

(** ** Requests *)

Inductive CompressionScheme := Noop | Gzip | Zlib | Zstd.
Definition content_encoding_for_scheme (s : CompressionScheme) : option bytes :=
  match s with Noop => None | Gzip => Some (b "gzip") | Zlib => Some (b "deflate") | Zstd => Some (b "zstd") end.

(** The tag and length of field 3, written to a buffer of 16 bytes. *)
Class V3Header (ProtoError : Type) := write_v3_header : Z -> result ProtoError bytes.

Inductive V3PayloadSplitReason := MaxPoints | PayloadFull | ItemTooBig.
Inductive SerializerCall :=
| RecordValuesCount (s : V3ValueEncodingStats)
| RecordColumnSize (field uncompressed compressed : Z)
| RecordItemTooBig
| RecordSplitReason (r : V3PayloadSplitReason).

Record V3EncodedRequest := { er_request : Request; er_compressed_len : Z; er_uncompressed_len : Z; er_stats : V3ValueEncodingStats; er_columns : list V3ColumnBytes }.
Definition request_fits (l : V3PayloadLimits) (r : V3EncodedRequest) : bool :=
  (er_compressed_len r <=? max_compressed_size l) && (er_uncompressed_len r <=? max_uncompressed_size l).

Record V3PayloadRequest := { pr_request : Request; pr_event_count : Z; pr_data_point_count : Z }.
Record V3Batch := { vb_encoded : V3EncodedMetrics; vb_event_count : Z; vb_data_point_count : Z }.

Definition measured_column (c : V3ColumnBytes) (n : Z) : V3ColumnBytes := {| field_number := field_number c; col_bytes := col_bytes c; compressed_len := n |}.

(** What flushing changes: the ratio, the counter of dropped events, the serializer's telemetry and the
    payloads that were sent. *)
Record V3Flush := { fl_ratio : V3CompressionRatio; fl_dropped : Z; fl_serializer : list SerializerCall; fl_sent : list HttpPayload }.
Definition with_ratio (r : V3CompressionRatio) (st : V3Flush) : V3Flush :=
  {| fl_ratio := r; fl_dropped := fl_dropped st; fl_serializer := fl_serializer st; fl_sent := fl_sent st |}.
Definition drop_events (n : Z) (st : V3Flush) : V3Flush :=
  {| fl_ratio := fl_ratio st; fl_dropped := fl_dropped st + n; fl_serializer := fl_serializer st; fl_sent := fl_sent st |}.
Definition record_calls (l : list SerializerCall) (st : V3Flush) : V3Flush :=
  {| fl_ratio := fl_ratio st; fl_dropped := fl_dropped st; fl_serializer := fl_serializer st ++ l; fl_sent := fl_sent st |}.
Definition with_sent (s : list HttpPayload) (st : V3Flush) : V3Flush :=
  {| fl_ratio := fl_ratio st; fl_dropped := fl_dropped st; fl_serializer := fl_serializer st; fl_sent := s |}.

Section flush.
Context {ProtoError IoError HttpError GenericError : Type}.
Context `{FastHasher} `{Libm} (SKETCH_CONFIG : Config).
Context `{CodedColumns ProtoError} `{V3Header ProtoError} `{Compression IoError} `{HttpBuilder HttpError}.
Context (refuses : list HttpPayload -> HttpPayload -> option GenericError).
Context (compression_scheme : CompressionScheme) (limits : V3PayloadLimits) (endpoint_uri : bytes) (additional_tags : SharedTagSet).

Inductive V3RequestError := HeaderFailed (e : ProtoError) | CompressFailed (e : IoError) | BuildFailed (e : HttpError).

(** Compressing chunks of bytes as one stream. *)
Fixpoint write_chunks (chunks : list bytes) (c : compressor) : result IoError compressor :=
  match chunks with [] => Ok c | bs :: chunks => c ← write_all bs c; write_chunks chunks c end.
Definition compressed (chunks : list bytes) : result IoError bytes :=
  c ← write_chunks chunks create_compressor; c ← comp_flush c; c ← comp_shutdown c; Ok (into_inner c).

Definition create_v3_request (encoded : V3EncodedMetrics) : result V3RequestError V3EncodedRequest :=
  header ← map_err HeaderFailed (write_v3_header (blen (payload encoded)));
  compressed_buf ← map_err CompressFailed (compressed [header; payload encoded]);
  let hd := {| method := b "POST"; uri := endpoint_uri;
               headers := (CONTENT_TYPE, b "application/x-protobuf") ::
                          match content_encoding_for_scheme compression_scheme with Some e => [(CONTENT_ENCODING, e)] | None => [] end |} in
  match build_error hd with
  | Some e => Err (BuildFailed e)
  | None => Ok {| er_request := {| head := hd; body := compressed_buf |}; er_compressed_len := blen compressed_buf;
                  er_uncompressed_len := blen header + blen (payload encoded); er_stats := m_stats encoded; er_columns := columns encoded |}
  end.

Definition compressed_v3_len (bs : bytes) : result IoError Z :=
  match compression_scheme with Noop => Ok (blen bs) | _ => out ← compressed [bs]; Ok (blen out) end.

Fixpoint measure_v3_column_compressed_sizes (columns : list V3ColumnBytes) : result IoError (list V3ColumnBytes) :=
  match columns with
  | [] => Ok []
  | c :: columns => n ← compressed_v3_len (col_bytes c); rest ← measure_v3_column_compressed_sizes columns; Ok (measured_column c n :: rest)
  end.

Definition record_v3_serializer_stats (stats : V3ValueEncodingStats) (columns : list V3ColumnBytes) : list SerializerCall :=
  RecordValuesCount stats :: ((fun c => RecordColumnSize (field_number c) (blen (col_bytes c)) (compressed_len c)) <$> columns).

Definition create_v3_batch_request (batch : V3Batch) (st : V3Flush) : option V3PayloadRequest * V3Flush :=
  match create_v3_request (vb_encoded batch) with
  | Err _ => (None, drop_events (vb_event_count batch) st)
  | Ok r =>
      let st := with_ratio (ratio_record (er_uncompressed_len r) (er_compressed_len r) (fl_ratio st)) st in
      if negb (request_fits limits r) then (None, st)
      else
        (Some {| pr_request := er_request r; pr_event_count := vb_event_count batch; pr_data_point_count := vb_data_point_count batch |},
         match measure_v3_column_compressed_sizes (er_columns r) with
         | Ok cs => record_calls (record_v3_serializer_stats (er_stats r) cs) st
         | Err _ => st
         end)
  end.

Definition metric_points (m : AgentMetric) : Z := Z.of_nat (MetricValues_len (metric_values m)).

(** The loop of [build_v3_batch]: the writer, its points, whether the batch was cut for its size, and
    the metrics that remain. *)
Fixpoint batch_loop (target_uncompressed_len : Z) (ms : list AgentMetric) (w : V3Writer) (points : Z) (st : V3Flush) :
    option (V3Writer * Z * bool * list AgentMetric * V3Flush) :=
  match ms with
  | [] => Some (w, points, false, [], st)
  | m :: rest =>
      if negb (metric_has_emittable_values m) then batch_loop target_uncompressed_len rest w points (drop_events 1 st)
      else if negb (point_count_fits limits (metric_points m)) then
        batch_loop target_uncompressed_len rest w points (drop_events 1 (record_calls [RecordItemTooBig; RecordSplitReason ItemTooBig] st))
      else if (0 <? metric_count w) && negb (point_count_fits limits (points + metric_points m)) then
        Some (w, points, false, m :: rest, record_calls [RecordSplitReason MaxPoints] st)
      else if (0 <? metric_count w) && metric_count_reached limits (metric_count w) then Some (w, points, false, m :: rest, st)
      else
        w ← write_metric_to_v3 SKETCH_CONFIG additional_tags m w;
        if target_uncompressed_len <=? estimated_uncompressed_len w then Some (w, points + metric_points m, true, rest, st)
        else batch_loop target_uncompressed_len rest w (points + metric_points m) st
  end.

Definition build_v3_batch (target_uncompressed_len : Z) (ms : list AgentMetric) (st : V3Flush) : option (option V3Batch * list AgentMetric * V3Flush) :=
  '(w, points, cut_for_size, rest, st) ← batch_loop target_uncompressed_len ms V3Writer_new 0 st;
  let st := if cut_for_size && (0 <? Z.of_nat (length rest)) then record_calls [RecordSplitReason PayloadFull] st else st in
  let event_count := metric_count w in
  if event_count =? 0 then Some (None, rest, st)
  else
    match finalize w with
    | Ok encoded => Some (Some {| vb_encoded := encoded; vb_event_count := event_count; vb_data_point_count := points |}, rest, st)
    | Err _ => Some (None, rest, drop_events event_count st)
    end.

Definition encode_v3_metrics_batch (ms : list AgentMetric) : option (result ProtoError V3EncodedMetrics) :=
  finalize <$> write_all_to_v3 SKETCH_CONFIG additional_tags ms V3Writer_new.

Definition accepted (m : AgentMetric) : bool := metric_has_emittable_values m && point_count_fits limits (metric_points m).

(** The ranges that are pending, front first. *)
Fixpoint split_loop (fuel : nat) (accepted_metrics : list AgentMetric) (pending : list (nat * nat)) (st : V3Flush) : option (list V3PayloadRequest * V3Flush) :=
  match pending, fuel with
  | [], _ => Some ([], st)
  | _, O => None
  | (lo, hi) :: pending, S fuel =>
      if (hi <=? lo)%nat then split_loop fuel accepted_metrics pending st
      else
        let metrics_in_range := take (hi - lo) (drop lo accepted_metrics) in
        let event_count := Z.of_nat (length metrics_in_range) in
        encoded ← encode_v3_metrics_batch metrics_in_range;
        match encoded with
        | Err _ => split_loop fuel accepted_metrics pending (drop_events event_count st)
        | Ok encoded =>
            let batch := {| vb_encoded := encoded; vb_event_count := event_count; vb_data_point_count := sumZ metric_points metrics_in_range |} in
            match create_v3_batch_request batch st with
            | (Some request, st) => '(requests, st) ← split_loop fuel accepted_metrics pending st; Some (request :: requests, st)
            | (None, st) =>
                if (hi - lo =? 1)%nat then
                  split_loop fuel accepted_metrics pending (drop_events 1 (record_calls [RecordItemTooBig; RecordSplitReason ItemTooBig] st))
                else
                  let pivot := (lo + (hi - lo) / 2)%nat in
                  split_loop fuel accepted_metrics ((lo, pivot) :: (pivot, hi) :: pending) (record_calls [RecordSplitReason PayloadFull] st)
            end
        end
  end.

Definition split_and_encode_oversized_v3_range (range : list AgentMetric) (st : V3Flush) : option (list V3PayloadRequest * V3Flush) :=
  let accepted_metrics := List.filter accepted range in
  split_loop (2 * length accepted_metrics + 1) accepted_metrics [(0%nat, length accepted_metrics)] st.

Fixpoint send_requests (rs : list V3PayloadRequest) (st : V3Flush) : result GenericError unit * V3Flush :=
  match rs with
  | [] => (Ok tt, st)
  | r :: rs =>
      match flush_payload refuses (pr_request r) (pr_event_count r) (pr_data_point_count r) (fl_sent st) with
      | (Ok _, sent) => send_requests rs (with_sent sent st)
      | (Err e, sent) => (Err e, with_sent sent st)
      end
  end.

Fixpoint flush_loop (fuel : nat) (target_uncompressed_len : Z) (ms : list AgentMetric) (st : V3Flush) : option (result GenericError unit * V3Flush) :=
  match ms, fuel with
  | [], _ => Some (Ok tt, st)
  | _, O => None
  | _, S fuel =>
      '(batch, rest, st) ← build_v3_batch target_uncompressed_len ms st;
      match batch with
      | None =>
          if (length rest =? length ms)%nat then Some (Ok tt, drop_events (Z.of_nat (length rest)) st)
          else flush_loop fuel target_uncompressed_len rest st
      | Some batch =>
          '(requests, st) ← (match create_v3_batch_request batch st with
                             | (Some r, st) => Some ([r], st)
                             | (None, st) => split_and_encode_oversized_v3_range (take (length ms - length rest) ms) st
                             end);
          match send_requests requests st with
          | (Ok _, st) => flush_loop fuel target_uncompressed_len rest st
          | (Err e, st) => Some (Err e, st)
          end
      end
  end.

Definition encode_and_flush_v3_payload_requests (ms : list AgentMetric) (st : V3Flush) : option (result GenericError unit * V3Flush) :=
  flush_loop (length ms) (uncompressed_target limits (fl_ratio st)) ms st.
End flush.
