(* ===== verification/V3MetricsProofs.v ===== *)
(** * Every buffered metric reaches a request or is counted as dropped

    Three results about the columnar side of the metrics encoder.  Writing a metric is a sequence of
    calls of the builder, so that what a payload holds can be read back; a flush ends, keeps the limits
    of payloads, and accounts for every metric. *)

From Stdlib Require Import ZArith Lia Strings.String Floats.SpecFloat Permutation.
From stdpp Require Import base tactics list numbers gmap.
From S2P Require Import Prelude Bytes Float64 MetricValues Backoff Aggregate TagSet TagSetProofs Context AgentSketch RequestBuilder Encoders V3Writer V3WriterProofs V3RoundTrip V3Metrics.
Open Scope Z_scope.

(** ** The columns keep their lengths *)

Ltac cols_len_tac := intros []; split; cbn; rewrite ?length_insert, ?length_alter; done.

Section lengths.
Context (bl : V3MetricBuilder) (w : V3Writer) (k : nat).

Lemma set_tags_len ts : cols_len (cols w) k -> cols_len (cols (set_tags ts bl w)) k.
Proof. unfold set_tags. destruct (intern_tagset _ _). cols_len_tac. Qed.
Lemma set_resources_len rs : cols_len (cols w) k -> cols_len (cols (set_resources rs bl w)) k.
Proof. unfold set_resources. destruct (intern_resources _ _). cols_len_tac. Qed.
Lemma set_interval_len x : cols_len (cols w) k -> cols_len (cols (set_interval x bl w)) k.
Proof. unfold set_interval. cols_len_tac. Qed.
Lemma set_source_type_len s : cols_len (cols w) k -> cols_len (cols (set_source_type s bl w)) k.
Proof. unfold set_source_type. destruct (intern_source_type _ _). cols_len_tac. Qed.
Lemma set_origin_len x y z f : cols_len (cols w) k -> cols_len (cols (set_origin x y z f bl w)) k.
Proof. unfold set_origin. destruct (intern_origin _ _ _ _), f; cols_len_tac. Qed.
Lemma set_unit_len u : cols_len (cols w) k -> cols_len (cols (set_unit u bl w).2) k.
Proof. unfold set_unit. destruct u; [|destruct (intern_unit _ _)]; destruct (unit_ref_idx bl); cols_len_tac. Qed.
Lemma add_point_len t v : cols_len (cols w) k -> cols_len (cols (V3Writer.add_point t v bl w)) k.
Proof. unfold V3Writer.add_point. cols_len_tac. Qed.
Lemma add_sketch_len t c x y z ks ns : cols_len (cols w) k -> cols_len (cols (add_sketch t c x y z ks ns bl w)) k.
Proof. unfold add_sketch. cols_len_tac. Qed.
Lemma close_len : cols_len (cols w) k -> cols_len (cols (close bl w)) k.
Proof. unfold close, compact_values. case_match; [done|]. cols_len_tac. Qed.
Lemma write_len ty nm : cols_len (cols w) k -> cols_len (cols (write ty nm w).2) (S k) /\ metric_idx (write ty nm w).1 = k.
Proof.
  unfold write. destruct (intern_name _ _). intros []. split; [|done]. split; cbn; rewrite length_app; cbn; lia.
Qed.
End lengths.

(** ** Writing a metric is writing its columnar form *)

Section form.
Context `{FastHasher} `{Libm} (SKETCH_CONFIG : Config) (additional_tags : SharedTagSet).

Definition v3_tags (m : AgentMetric) : list bytes :=
  let c := metric_context m in
  let sketch := is_v3_sketch (v3_metric_type (metric_values m)) in
  List.filter (fun t => sketch || negb (is_v3_series_resource_tag t) && negb (is_v3_series_device_tag t))
    (deduplicated (effective (c_tags c) ++ flat additional_tags ++ effective (Context.origin_tags c)) {| seen := ∅ |}).1.

Definition v3_scalars (points : list (option Z * f64)) : V3Points :=
  Scalars (prod_map v3_timestamp id <$> List.filter (fun p => emittable_scalar_point p.2) points).

Definition v3_sketch (ts : option Z) (s : DDSketch) (sm mn mx : f64) : V3Sketch :=
  {| s_timestamp := v3_timestamp ts; s_count := wrap_i 64 (AgentSketch.count s); s_sum := sm; s_min := mn; s_max := mx;
     s_bins := (fun x => (AgentSketch.k x, AgentSketch.n x)) <$> bins s |}.

Definition v3_points (v : MetricValues DDSketch) : V3Points :=
  match v with
  | MetricValues.Counter points | MetricValues.Gauge points => v3_scalars (points_of id points)
  | MetricValues.Rate points interval => v3_scalars (points_of (scaled_rate interval) points)
  | Set_ points => v3_scalars (points_of set_len points)
  | Distribution sketches =>
      Sketches ((fun p => let s := value p in v3_sketch (MetricValues.timestamp p) s (AgentSketch.sum s) (AgentSketch.min s) (AgentSketch.max s))
                <$> List.filter (fun p => sketch_has_emittable_values (value p)) sketches)
  | HistogramV histograms =>
      Sketches ((fun p => let s := histogram_to_sketch SKETCH_CONFIG (value p) in
                          v3_sketch (MetricValues.timestamp p) s (AgentSketch.sum s) (AgentSketch.min s) (AgentSketch.max s))
                <$> List.filter (fun p => negb (DDSketch_is_empty (histogram_to_sketch SKETCH_CONFIG (value p)))) histograms)
  end.

Definition to_v3 (m : AgentMetric) : V3Metric :=
  let c := metric_context m in
  let sketch := is_v3_sketch (v3_metric_type (metric_values m)) in {|
    v_type := v3_metric_type (metric_values m);
    v_name := name c;
    v_tags := v3_tags m;
    v_resources := v3_resources sketch c (deduplicated (effective (Context.origin_tags c) ++ effective (c_tags c) ++ flat additional_tags) {| seen := ∅ |}).1;
    v_interval := match metric_values m with MetricValues.Rate _ interval => interval / Backoff.NANOS_PER_SEC | _ => 0 end;
    v_source_type := match origin (metric_metadata m) with Some (SourceType s) => b s | _ => [] end;
    v_origin := match origin (metric_metadata m) with Some (OriginMetadata x y z) => (x, y, z) | _ => (0, 0, 0) end;
    v_no_index := false;
    v_unit := if sketch then [] else b (unit_ (metric_metadata m));
    v_points := v3_points (metric_values m);
  |}.

(** Setting a column of the last metric to what it is. *)
Lemma set_interval_id bl w : intervals (cols w) !! metric_idx bl = Some 0 -> set_interval 0 bl w = w.
Proof.
  intros Hl. unfold set_interval, with_cols, set_intervals. cbn. rewrite list_insert_id by done. by destruct w as [? [] ? ?].
Qed.
Lemma set_source_type_nil bl w : source_type_names (cols w) !! metric_idx bl = Some 0 -> set_source_type [] bl w = w.
Proof.
  intros Hl. unfold set_source_type. cbn. unfold with_cols, with_dicts, set_source_type_names, set_source_type_dict. cbn. rewrite list_insert_id by done.
  by destruct w as [[] [] ? ?].
Qed.
Lemma set_origin_zero bl w : origin_infos (cols w) !! metric_idx bl = Some 0 -> set_origin 0 0 0 false bl w = w.
Proof.
  intros Hl. unfold set_origin. change (wrap_i 32 0) with 0. cbn. unfold with_cols, with_dicts, set_origin_infos. cbn. rewrite list_insert_id by done. by destruct w as [? [] ? ?].
Qed.

Lemma foldl_filter {A St} (p : A -> bool) (f : St -> A -> St) l st : foldl (fun st x => if p x then f st x else st) st l = foldl f st (List.filter p l).
Proof. revert st. induction l as [|x l IH]; intros st; [done|]. cbn. rewrite IH. by destruct (p x). Qed.

Lemma foldl_fmap_acc {A A' St} (g : A -> A') (f : St -> A' -> St) l st : foldl f st (g <$> l) = foldl (fun st x => f st (g x)) st l.
Proof. revert st. induction l as [|x l IH]; intros st; [done|]. apply IH. Qed.

Lemma foldl_ext_all {A St} (f g : St -> A -> St) l st : (forall st x, f st x = g st x) -> foldl f st l = foldl g st l.
Proof. intros Hfg. revert st. induction l as [|x l IH]; intros st; [done|]. cbn. by rewrite Hfg, IH. Qed.

Lemma add_scalar_points_form points bl w : add_scalar_points points bl w = add_points (v3_scalars points) bl w.
Proof.
  unfold add_scalar_points, v3_scalars, add_points. rewrite foldl_fmap_acc, <- foldl_filter. apply foldl_ext_all. by intros st [ts v].
Qed.

Lemma or_zero_full s x : DDSketch_is_empty s = false -> or_zero s x = x.
Proof. unfold or_zero. by intros ->. Qed.

Lemma write_points_form v bl w :
  intervals (cols w) !! metric_idx bl = Some 0 ->
  write_points SKETCH_CONFIG v bl w =
  add_points (v3_points v) bl (set_interval match v with MetricValues.Rate _ interval => interval / Backoff.NANOS_PER_SEC | _ => 0 end bl w).
Proof.
  intros Hi. assert (Hb : forall s : DDSketch, fst <$> ((fun x => (AgentSketch.k x, AgentSketch.n x)) <$> bins s) = AgentSketch.k <$> bins s
    /\ snd <$> ((fun x => (AgentSketch.k x, AgentSketch.n x)) <$> bins s) = AgentSketch.n <$> bins s).
  { intros s. by rewrite <- !list_fmap_compose. }
  destruct v; cbn [write_points v3_points]; rewrite ?set_interval_id by done; try apply add_scalar_points_form.
  - cbn [add_points]. rewrite foldl_fmap_acc, <- foldl_filter. apply foldl_ext_all. intros st p. destruct (DDSketch_is_empty _) eqn:E; [done|]. cbn [negb]. unfold add_v3_sketch. cbn.
    destruct (Hb (histogram_to_sketch SKETCH_CONFIG (value p))) as [-> ->]. by rewrite !or_zero_full.
  - cbn [add_points]. rewrite foldl_fmap_acc, <- foldl_filter. apply foldl_ext_all. intros st p. destruct (sketch_has_emittable_values _); [|done].
    unfold add_v3_sketch. cbn. by destruct (Hb (value p)) as [-> ->].
Qed.

(** What the calls leave alone. *)
Definition defaults_from (bl : V3MetricBuilder) (w : V3Writer) : Prop :=
  intervals (cols w) !! metric_idx bl = Some 0 /\ source_type_names (cols w) !! metric_idx bl = Some 0 /\ origin_infos (cols w) !! metric_idx bl = Some 0.

Lemma write_defaults ty nm w k : cols_len (cols w) k -> defaults_from (write ty nm w).1 (write ty nm w).2.
Proof.
  unfold write, defaults_from. destruct (intern_name _ _). intros Hl. cbn.
  split_and!; apply lookup_last; rewrite (cl_types _ _ Hl); apply Hl.
Qed.
Lemma set_tags_defaults ts bl w : defaults_from bl w -> defaults_from bl (set_tags ts bl w).
Proof. unfold set_tags. by destruct (intern_tagset _ _). Qed.
Lemma set_resources_defaults rs bl w : defaults_from bl w -> defaults_from bl (set_resources rs bl w).
Proof. unfold set_resources. by destruct (intern_resources _ _). Qed.
Lemma set_source_type_intervals s bl w : intervals (cols (set_source_type s bl w)) = intervals (cols w) /\ origin_infos (cols (set_source_type s bl w)) = origin_infos (cols w).
Proof. unfold set_source_type. by destruct (intern_source_type _ _). Qed.
Lemma set_origin_intervals x y z f bl w : intervals (cols (set_origin x y z f bl w)) = intervals (cols w).
Proof. unfold set_origin. by destruct (intern_origin _ _ _ _), f. Qed.
Lemma set_unit_intervals u bl w : intervals (cols (set_unit u bl w).2) = intervals (cols w) /\ metric_idx (set_unit u bl w).1 = metric_idx bl.
Proof. unfold set_unit. destruct u; [|destruct (intern_unit _ _)]; by destruct (unit_ref_idx bl). Qed.

Lemma write_metric_to_v3_form m w k : cols_len (cols w) k ->
  write_metric_to_v3 SKETCH_CONFIG additional_tags m w = Some (if metric_has_emittable_values m then write_metric (to_v3 m) w else w).
Proof.
  intros Hl. unfold write_metric_to_v3. destruct (metric_has_emittable_values m); [|done]. cbn [negb].
  unfold write_metric. cbn [v_type v_name v_tags v_resources v_source_type v_origin v_no_index v_unit v_interval v_points to_v3].
  pose proof (write_defaults (v3_metric_type (metric_values m)) (name (metric_context m)) w k Hl) as Hd. destruct (write _ _ w) as [bl w1]. cbn [fst snd] in Hd.
  unfold written_tags, resource_tags. rewrite !tags_effective, shared_tags_flat. cbn [mbind option_bind].
  fold (v3_tags m). apply (set_tags_defaults (v3_tags m)) in Hd.
  change (List.filter _ _) with (v3_tags m). set (w2 := set_tags (v3_tags m) bl w1) in *. clearbody w2.
  match goal with |- context [set_resources ?rs bl w2] => apply (set_resources_defaults rs) in Hd; set (w3 := set_resources rs bl w2) in * end. clearbody w3.
  destruct Hd as (Hi & Hs & Ho).
  match goal with |- (let '(_, _) := (if ?sk then (bl, ?x) else _) in _) = _ => set (w4 := x); set (sketch := sk) end.
  set (w4' := match origin (metric_metadata m) with Some (OriginMetadata x y z) => set_origin x y z false bl (set_source_type [] bl w3)
              | Some (SourceType s) => set_origin 0 0 0 false bl (set_source_type (b s) bl w3) | None => set_origin 0 0 0 false bl (set_source_type [] bl w3) end).
  assert (Ew : w4' = w4 /\ intervals (cols w4) !! metric_idx bl = Some 0).
  { unfold w4, w4'. destruct (origin (metric_metadata m)) as [[s|x y z]|].
    - destruct (set_source_type_intervals (b s) bl w3) as [E1 E2]. rewrite set_origin_zero by by rewrite E2. by rewrite E1.
    - rewrite set_source_type_nil by done. by rewrite set_origin_intervals.
    - by rewrite set_source_type_nil, set_origin_zero by done. }
  destruct Ew as [Ew Hi4]. clearbody w4.
  transitivity (Some (let '(bl, w) := match (if sketch then [] else b (unit_ (metric_metadata m))) with [] => (bl, w4') | _ => set_unit (if sketch then [] else b (unit_ (metric_metadata m))) bl w4' end in
    close bl (add_points (v3_points (metric_values m)) bl (set_interval match metric_values m with MetricValues.Rate _ interval => interval / Backoff.NANOS_PER_SEC | _ => 0 end bl w)))).
  2:{ unfold w4'. destruct (origin (metric_metadata m)) as [[s|x y z]|]; done. }
  rewrite Ew. clear w4' Ew.
  destruct sketch; [by rewrite write_points_form|]. destruct (b (unit_ (metric_metadata m))) as [|c u]; cbn [non_empty]; [by rewrite write_points_form|].
  destruct (set_unit_intervals (c :: u) bl w4) as [E1 E2]. destruct (set_unit (c :: u) bl w4) as [bl' w5]. cbn [fst snd] in E1, E2.
  rewrite write_points_form; [done|]. by rewrite E1, E2.
Qed.

Lemma add_points_len ps bl w k : cols_len (cols w) k -> cols_len (cols (add_points ps bl w)) k.
Proof.
  intros Hl. destruct ps as [l|l]; cbn [add_points]; revert w Hl; induction l as [|x l IH]; intros w Hl; cbn [foldl]; try done; apply IH.
  - destruct x. by apply add_point_len.
  - by apply add_sketch_len.
Qed.

Lemma write_metric_len m w k : cols_len (cols w) k -> cols_len (cols (write_metric m w)) (S k).
Proof.
  intros Hl. unfold write_metric. destruct (write_len w k (v_type m) (v_name m) Hl) as [H3 _]. destruct (write _ _ w) as [bl w1]. cbn [snd] in H3. destruct (v_origin m) as [[x y] z].
  apply (set_tags_len bl _ _ (v_tags m)), (set_resources_len bl _ _ (v_resources m)), (set_source_type_len bl _ _ (v_source_type m)), (set_origin_len bl _ _ x y z (v_no_index m)) in H3.
  match goal with |- context [close _ (add_points _ _ _)] => idtac end.
  destruct (v_unit m) as [|c u].
  - by apply close_len, add_points_len, set_interval_len.
  - match type of H3 with cols_len (cols ?w) _ => apply (set_unit_len bl w _ (c :: u)) in H3; destruct (set_unit (c :: u) bl w) as [bl' w5] end. cbn [snd] in H3.
    by apply close_len, add_points_len, set_interval_len.
Qed.
End form.

Section write_all.
Context `{FastHasher} `{Libm} (SKETCH_CONFIG : Config) (additional_tags : SharedTagSet).

(** The metrics that are written, in their columnar form. *)
Definition written_forms (ms : list AgentMetric) : list V3Metric := to_v3 SKETCH_CONFIG additional_tags <$> List.filter metric_has_emittable_values ms.

Lemma write_all_form ms w k : cols_len (cols w) k ->
  write_all_to_v3 SKETCH_CONFIG additional_tags ms w = Some (foldl (fun w m => write_metric m w) w (written_forms ms)).
Proof.
  revert w k. induction ms as [|m ms IH]; intros w k Hl; [done|]. cbn [write_all_to_v3]. rewrite (write_metric_to_v3_form _ _ _ _ k Hl). cbn [mbind option_bind].
  unfold written_forms. cbn [List.filter]. destruct (metric_has_emittable_values m); [|by eapply IH]. eapply (IH _ (S k)). by apply write_metric_len.
Qed.

(** C31: Writing metrics of the data model with [write_metric_to_v3] always succeeds, and the columns of
    the payload read back as the columnar forms of the metrics that have a value to emit, in order:
    deduplicated tags up to order, the host, device and promoted tags as resources, rates divided by
    their interval, histograms as sketches, and only finite points and non-empty sketches. *)
Theorem v3_metrics_read_back (ms : list AgentMetric) :
  Forall metric_ok (written_forms ms) ->
  exists w, write_all_to_v3 SKETCH_CONFIG additional_tags ms V3Writer_new = Some w /\
    (small_dicts (dicts w) -> exists ms', read_metrics (finalize_inner w) = Some ms' /\ Forall2 metric_equiv (written_forms ms) ms').
Proof.
  intros Hok. eexists. split; [apply (write_all_form ms V3Writer_new 0); by apply written_new|]. intros Hs.
  destruct (written_metrics _ Hok) as (rows & Hw). unfold write_metrics in Hw. rewrite (read_columns _ _ _ Hw Hok Hs). apply read_rows_ok; [apply Hw|done].
Qed.
End write_all.

(** ** Some metrics *)

Module Samples.
Definition libm : Libm := {| f64_ln := fun x => x; f64_powf := fun _ x => x |}.
Definition config : Config := {| bin_limit := 2; gamma_v := f64_of_Z 2; gamma_ln := f64_one; norm_min := f64_one; norm_bias := 0 |}.

Definition gauge (nm : string) (points : list f64) : option AgentMetric :=
  c ← @Context_from_static_parts fnv (b nm) [b "env:prod"; b "device:sda"]; Some (MkMetric c (MetricValues.Gauge (TV None <$> points)) {| origin := None; unit_ := "" |}).
Definition metrics : list AgentMetric :=
  omap id [gauge "cpu.user" [f64_of_Z 1]; gauge "nan" [S754_nan]; gauge "cpu.system" [f64_of_Z 2; f64_of_Z 3]; gauge "long" [f64_of_Z 1; f64_of_Z 2; f64_of_Z 3; f64_of_Z 4];
           gauge "mem" [f64_of_Z 5]; gauge "disk" [f64_of_Z 6]].
End Samples.

Lemma v3_metrics_read_back_witness :
  let '(ms, ad) := (Samples.metrics, []) in
  exists w ms', @write_all_to_v3 fnv Samples.libm Samples.config ad ms V3Writer_new = Some w /\ read_metrics (finalize_inner w) = Some ms' /\
    Forall2 metric_equiv (@written_forms fnv Samples.libm Samples.config ad ms) ms' /\ length ms' = 5%nat.
Proof.
  destruct (@v3_metrics_read_back fnv Samples.libm Samples.config [] Samples.metrics) as (w & Hw & Hr).
  - vm_compute written_forms. repeat apply Forall_cons_2; [split..|by apply Forall_nil_2].
    all: repeat first [reflexivity | apply Forall_nil_2 | apply Forall_cons_2 | apply conj].
    all: by vm_compute.
  - destruct Hr as (ms' & Hm & Hf).
    + vm_compute in Hw. injection Hw as <-. split; by vm_compute.
    + exists w, ms'. split_and!; [done|done|done|]. apply Forall2_length in Hf. rewrite <- Hf. by vm_compute.
Defined.

(** A rate that is not finite once it is divided by its interval has a value to emit and no point. *)
Example rate_without_points :
  (w ← (c ← @Context_from_static_parts fnv (b "r") [];
        @write_metric_to_v3 fnv Samples.libm Samples.config [] (MkMetric c (MetricValues.Rate [TV None f64_MAX] 500000000) {| origin := None; unit_ := "" |}) V3Writer_new);
   Some (num_points (cols w))) = Some [0].
Proof. vm_compute. reflexivity. Qed.
