(* ===== verification/V3FlushProofs.v ===== *)
(** * Flushing columnar payloads

    A flush of buffered metrics ends; every request it sends carries a run of the metrics within the
    limits of payloads; and every metric is in a request or counted as dropped. *)

From Stdlib Require Import ZArith Lia Strings.String Floats.SpecFloat.
From stdpp Require Import base tactics list numbers gmap.
From S2P Require Import Prelude Bytes Float64 MetricValues Aggregate TagSet Context AgentSketch RequestBuilder Encoders V3Writer V3WriterProofs V3RoundTrip V3Metrics V3MetricsProofs.
Open Scope Z_scope.

Abbreviation lenZ l := (Z.of_nat (length l)).

Section flush.
Context {ProtoError IoError HttpError GenericError : Type}.
Context `{FastHasher} `{Libm} (SKETCH_CONFIG : Config).
Context `{CodedColumns ProtoError} `{V3Header ProtoError} `{Compression IoError} `{HttpBuilder HttpError}.
Context (refuses : list HttpPayload -> HttpPayload -> option GenericError).
Context (compression_scheme : CompressionScheme) (limits : V3PayloadLimits) (endpoint_uri : bytes) (additional_tags : SharedTagSet).

Abbreviation create_request' := (@create_v3_request ProtoError IoError HttpError _ _ _ compression_scheme endpoint_uri).
Abbreviation create_batch := (@create_v3_batch_request ProtoError IoError HttpError _ _ _ compression_scheme limits endpoint_uri).
Abbreviation encode_batch := (@encode_v3_metrics_batch ProtoError _ _ SKETCH_CONFIG _ additional_tags).
Abbreviation acc := (accepted limits).

(** What is relied on when every metric is to be accounted for: the libraries do not fail. *)
Record libraries_work : Prop := {
  lw_framed : forall f c, exists bs, write_framed (ProtoError := ProtoError) f c = Ok bs;
  lw_raw : forall c, exists bs, write_raw (ProtoError := ProtoError) c = Ok bs;
  lw_header : forall n, exists bs, write_v3_header (ProtoError := ProtoError) n = Ok bs;
  lw_write : forall bs c, exists c', write_all (IoError := IoError) bs c = Ok c';
  lw_flush : forall c, exists c', comp_flush (IoError := IoError) c = Ok c';
  lw_shutdown : forall c, exists c', comp_shutdown (IoError := IoError) c = Ok c';
  lw_http : forall hd, build_error (HttpError := HttpError) hd = None;
}.

Lemma write_column_works f c a : libraries_work -> exists a', write_column (ProtoError := ProtoError) f c a = Ok a'.
Proof.
  intros Hw. unfold write_column. destruct a as [o cs]. destruct (lw_framed Hw f c) as [[|x bs] ->]; [by eexists|]. cbn [mbind result_bind].
  destruct c; try (by eexists); match goal with |- context [write_raw ?c] => destruct (lw_raw Hw c) as [bs' ->] end; by eexists.
Qed.
Lemma write_bytes_field_works f bs a : libraries_work -> exists a', write_bytes_field (ProtoError := ProtoError) f bs a = Ok a'.
Proof. intros Hw. unfold write_bytes_field. destruct bs; [by eexists|by apply write_column_works]. Qed.

Lemma bind_works {E A B} (r : result E A) (f : A -> result E B) : (exists x, r = Ok x) -> (forall x, exists y, f x = Ok y) -> exists y, (x ← r; f x) = Ok y.
Proof. intros [x ->] Hf. apply Hf. Qed.

Lemma finalize_works w : libraries_work -> exists e, finalize (ProtoError := ProtoError) w = Ok e.
Proof.
  intros Hw. unfold finalize.
  repeat (apply bind_works; [by apply write_column_works || by apply write_bytes_field_works|intros ?]). by eexists.
Qed.

Lemma compressed_works chunks : libraries_work -> exists bs, compressed (IoError := IoError) chunks = Ok bs.
Proof.
  intros Hw. unfold compressed. apply bind_works.
  - generalize create_compressor. induction chunks as [|x l IH]; intros c; cbn; [by eexists|]. apply bind_works; [apply (lw_write Hw)|apply IH].
  - intros c. apply bind_works; [apply (lw_flush Hw)|]. intros c'. apply bind_works; [apply (lw_shutdown Hw)|by eexists].
Qed.

Lemma create_request_works e : libraries_work -> exists r, create_request' e = Ok r.
Proof.
  intros Hw. unfold create_v3_request. destruct (lw_header Hw (blen (payload e))) as [h ->]. cbn [map_err mbind result_bind].
  destruct (compressed_works [h; payload e] Hw) as [bs ->]. cbn [map_err mbind result_bind]. rewrite (lw_http Hw). by eexists.
Qed.

(** ** One request *)

(** The request of a group of metrics that were encoded together. *)
Definition request_of (g : list AgentMetric) (r : V3PayloadRequest) : Prop :=
  exists enc req, encode_batch g = Some (Ok enc) /\ create_request' enc = Ok req /\ request_fits limits req = true /\
    r = {| pr_request := er_request req; pr_event_count := lenZ g; pr_data_point_count := sumZ metric_points g |}.

Definition payload_of (g : list AgentMetric) (p : HttpPayload) : Prop :=
  exists enc req, encode_batch g = Some (Ok enc) /\ create_request' enc = Ok req /\ request_fits limits req = true /\
    p = {| metadata := from_event_and_data_point_count (lenZ g) (sumZ metric_points g); request := er_request req |}.

Lemma create_batch_spec g enc st : encode_batch g = Some (Ok enc) ->
  exists o st', create_batch {| vb_encoded := enc; vb_event_count := lenZ g; vb_data_point_count := sumZ metric_points g |} st = (o, st') /\
    fl_sent st' = fl_sent st /\ (forall r, o = Some r -> request_of g r /\ fl_dropped st' = fl_dropped st) /\
    (libraries_work -> fl_dropped st' = fl_dropped st).
Proof.
  intros Henc. unfold create_v3_batch_request. cbn [vb_encoded vb_event_count vb_data_point_count]. destruct (create_request' enc) as [req|e] eqn:Er.
  - destruct (request_fits limits req) eqn:Ef; cbn [negb].
    + eexists _, _. split; [reflexivity|]. split; [by case_match|]. split; [|by case_match]. intros r [= <-]. split; [|by case_match]. by exists enc, req.
    + by eexists _, _.
  - eexists _, _. split; [reflexivity|]. split_and!; [done|done|]. intros Hw. destruct (create_request_works enc Hw). congruence.
Qed.

(** ** A batch *)

Lemma write_step m w k : cols_len (cols w) k -> exists w', write_metric_to_v3 SKETCH_CONFIG additional_tags m w = Some w' /\
  cols_len (cols w') (if metric_has_emittable_values m then S k else k).
Proof.
  intros Hl. rewrite (write_metric_to_v3_form _ _ _ _ k Hl). eexists. split; [reflexivity|]. destruct (metric_has_emittable_values m); [|done]. by apply write_metric_len.
Qed.

Lemma written_cover g : exists w, write_all_to_v3 SKETCH_CONFIG additional_tags g V3Writer_new = Some w.
Proof. eexists. apply (write_all_form _ _ g V3Writer_new 0). apply written_new. Qed.

Lemma metric_count_len w k : cols_len (cols w) k -> metric_count w = Z.of_nat k.
Proof. intros Hl. unfold metric_count. by rewrite (cl_types _ _ Hl). Qed.

Lemma metric_points_nonneg m : 0 <= metric_points m.
Proof. unfold metric_points. lia. Qed.

(** The limits that a batch keeps: its first metric is always taken. *)
Definition within_limits (g : list AgentMetric) : Prop :=
  sumZ metric_points g <= Z.max 0 (max_points_per_payload limits) /\ lenZ g <= Z.max 1 (max_metrics_per_payload limits).

Lemma write_all_app g1 g2 w : write_all_to_v3 SKETCH_CONFIG additional_tags (g1 ++ g2) w =
  (w ← write_all_to_v3 SKETCH_CONFIG additional_tags g1 w; write_all_to_v3 SKETCH_CONFIG additional_tags g2 w).
Proof. revert w. induction g1 as [|m g1 IH]; intros w; [done|]. cbn. destruct (write_metric_to_v3 _ _ _ _); [apply IH|done]. Qed.

Record batch_so_far (g : list AgentMetric) (w : V3Writer) (points : Z) : Prop := {
  bf_writer : write_all_to_v3 SKETCH_CONFIG additional_tags g V3Writer_new = Some w;
  bf_len : cols_len (cols w) (length g);
  bf_points : points = sumZ metric_points g;
  bf_limits : within_limits g;
  bf_accepted : Forall (fun m => acc m = true) g;
}.

Lemma batch_so_far_new : batch_so_far [] V3Writer_new 0.
Proof. split; [done|apply written_new|done| |constructor]. unfold within_limits. cbn. lia. Qed.

Lemma accepted_limit m : acc m = true -> metric_has_emittable_values m = true /\ metric_points m <= max_points_per_payload limits.
Proof. unfold accepted, point_count_fits. intros [? ?%Z.leb_le]%andb_prop. done. Qed.

Lemma batch_so_far_step g w points m w' : batch_so_far g w points -> acc m = true ->
  (g <> [] -> points + metric_points m <= max_points_per_payload limits /\ lenZ g < max_metrics_per_payload limits) ->
  write_metric_to_v3 SKETCH_CONFIG additional_tags m w = Some w' -> batch_so_far (g ++ [m]) w' (points + metric_points m).
Proof.
  intros [B1 B2 B3 B4 B5] Hacc Hlim Hwr. destruct (accepted_limit _ Hacc) as [Hem Hpt]. destruct (write_step m w _ B2) as (w1 & E & Hl). rewrite Hwr in E. injection E as <-.
  rewrite Hem in Hl. split.
  - rewrite write_all_app, B1. cbn. by rewrite Hwr.
  - by rewrite length_app, Nat.add_1_r.
  - rewrite sumZ_app, sumZ_cons. cbn. lia.
  - unfold within_limits in *. rewrite sumZ_app, sumZ_cons, length_app. cbn [sumZ foldr length]. pose proof (metric_points_nonneg m).
    destruct g as [|m0 g]; [cbn; lia|]. specialize (Hlim ltac:(done)). lia.
  - apply Forall_app. split; [done|by repeat constructor].
Qed.

Lemma batch_loop_spec target ms g w points st : batch_so_far g w points ->
  exists w' points' cut rest st' used g', batch_loop SKETCH_CONFIG limits additional_tags target ms w points st = Some (w', points', cut, rest, st') /\
    ms = used ++ rest /\ g' = g ++ List.filter acc used /\ batch_so_far g' w' points' /\ fl_sent st' = fl_sent st /\
    fl_dropped st' = fl_dropped st + lenZ used - lenZ (List.filter acc used) /\ (g = [] -> ms <> [] -> used <> []).
Proof.
  revert g w points st. induction ms as [|m ms IH]; intros g w points st Hb; cbn [batch_loop].
  { eexists _, _, _, _, _, [], _. split; [reflexivity|]. cbn. rewrite app_nil_r. split_and!; done || lia. }
  assert (Hskip : forall st1, fl_sent st1 = fl_sent st -> fl_dropped st1 = fl_dropped st + 1 -> acc m = false ->
    exists w' points' cut rest st' used g', batch_loop SKETCH_CONFIG limits additional_tags target ms w points st1 = Some (w', points', cut, rest, st') /\
    m :: ms = used ++ rest /\ g' = g ++ List.filter acc used /\ batch_so_far g' w' points' /\ fl_sent st' = fl_sent st /\
    fl_dropped st' = fl_dropped st + lenZ used - lenZ (List.filter acc used) /\ (g = [] -> m :: ms <> [] -> used <> [])).
  { intros st1 Hs Hd Ha. destruct (IH g w points st1 Hb) as (w' & points' & cut & rest & st' & used & g' & E & Hu & Hg & Hb' & Hs' & Hd' & _).
    exists w', points', cut, rest, st', (m :: used), g'. cbn [List.filter]. rewrite Ha. split_and!; [done|by rewrite Hu|done|done|congruence|cbn [length]; lia|done]. }
  destruct (metric_has_emittable_values m) eqn:Em; cbn [negb]; [|apply Hskip; [done|done|unfold accepted; by rewrite Em]].
  destruct (point_count_fits limits (metric_points m)) eqn:Ep; cbn [negb]; [|apply Hskip; [done|done|unfold accepted; by rewrite Em, Ep]].
  assert (Hacc : acc m = true) by (unfold accepted; by rewrite Em, Ep).
  rewrite (metric_count_len _ _ (bf_len _ _ _ Hb)).
  assert (Hstop : forall st1, fl_sent st1 = fl_sent st -> fl_dropped st1 = fl_dropped st -> g <> [] ->
    exists w' points' cut rest st' used g', Some (w, points, false, m :: ms, st1) = Some (w', points', cut, rest, st') /\
    m :: ms = used ++ rest /\ g' = g ++ List.filter acc used /\ batch_so_far g' w' points' /\ fl_sent st' = fl_sent st /\
    fl_dropped st' = fl_dropped st + lenZ used - lenZ (List.filter acc used) /\ (g = [] -> m :: ms <> [] -> used <> [])).
  { intros st1 Hs Hd Hne. eexists _, _, _, _, _, [], _. split; [reflexivity|]. cbn. rewrite app_nil_r. split_and!; done || lia. }
  destruct ((0 <? lenZ g) && negb (point_count_fits limits (points + metric_points m))) eqn:E1.
  { apply andb_prop in E1 as [E1%Z.ltb_lt _]. apply Hstop; [done|done|by destruct g]. }
  destruct ((0 <? lenZ g) && metric_count_reached limits (lenZ g)) eqn:E2.
  { apply andb_prop in E2 as [E2%Z.ltb_lt _]. apply Hstop; [done|done|by destruct g]. }
  destruct (write_step m w _ (bf_len _ _ _ Hb)) as (w1 & Ew & _). rewrite Ew. cbn [mbind option_bind].
  assert (Hb1 : batch_so_far (g ++ [m]) w1 (points + metric_points m)).
  { eapply batch_so_far_step; [done|done| |done]. intros Hne. assert (Hpos : (0 <? lenZ g) = true) by (apply Z.ltb_lt; destruct g; [done|cbn; lia]).
    rewrite Hpos in E1, E2. cbn in E1, E2. unfold point_count_fits, metric_count_reached in *. lia. }
  destruct (target <=? estimated_uncompressed_len w1).
  - eexists _, _, _, _, _, [m], _. split; [reflexivity|]. cbn [List.filter app length]. rewrite Hacc. split_and!; done || (cbn; lia).
  - destruct (IH _ _ _ st Hb1) as (w' & points' & cut & rest & st' & used & g' & E & Hu & Hg & Hb' & Hs' & Hd' & _).
    exists w', points', cut, rest, st', (m :: used), g'. cbn [List.filter]. rewrite Hacc, <- app_assoc in *. split_and!; [done|by rewrite Hu|done|done|done|cbn [length] in *; lia|done].
Qed.

Abbreviation build_batch := (@build_v3_batch ProtoError _ _ SKETCH_CONFIG _ limits additional_tags).
Abbreviation split_loop' := (@split_loop ProtoError IoError HttpError _ _ SKETCH_CONFIG _ _ _ _ compression_scheme limits endpoint_uri additional_tags).

(** A batch covers a non-empty run of the metrics and holds those of them that are accepted. *)
Lemma build_batch_spec target ms st : ms <> [] ->
  exists o rest st' used, build_batch target ms st = Some (o, rest, st') /\ ms = used ++ rest /\ used <> [] /\ fl_sent st' = fl_sent st /\
    within_limits (List.filter acc used) /\
    match o with
    | None => libraries_work -> fl_dropped st' = fl_dropped st + lenZ used
    | Some bt => exists enc, encode_batch (List.filter acc used) = Some (Ok enc) /\
        bt = {| vb_encoded := enc; vb_event_count := lenZ (List.filter acc used); vb_data_point_count := sumZ metric_points (List.filter acc used) |} /\
        fl_dropped st' = fl_dropped st + lenZ used - lenZ (List.filter acc used) /\ List.filter acc used <> []
    end.
Proof.
  intros Hne. unfold build_v3_batch.
  destruct (batch_loop_spec target ms [] V3Writer_new 0 st batch_so_far_new) as (w & points & cut & rest & st1 & used & g & -> & Hu & Hg & Hb & Hs & Hd & Hpr).
  cbn [mbind option_bind]. cbn [app] in Hg. subst g.
  set (st2 := if cut && (0 <? lenZ rest) then record_calls [RecordSplitReason PayloadFull] st1 else st1).
  assert (Hst : fl_sent st2 = fl_sent st /\ fl_dropped st2 = fl_dropped st1) by (unfold st2; by case_match). destruct Hst as [Hst Hst'].
  rewrite (metric_count_len _ _ (bf_len _ _ _ Hb)). destruct (Z.eqb_spec (lenZ (List.filter acc used)) 0) as [Hz|Hz].
  - eexists _, _, _, used. split; [reflexivity|]. split_and!; [done|auto|done|apply Hb|]. intros _. lia.
  - assert (Henc : encode_batch (List.filter acc used) = Some (finalize w)) by (unfold encode_v3_metrics_batch; by rewrite (bf_writer _ _ _ Hb)).
    destruct (finalize w) as [enc|e] eqn:Ef.
    + eexists _, _, _, used. split; [reflexivity|]. split_and!; [done|auto|done|apply Hb|]. exists enc. split_and!; [done|by rewrite (bf_points _ _ _ Hb)|lia|].
      intros Hnil. by rewrite Hnil in Hz.
    + eexists _, _, _, used. split; [reflexivity|]. split_and!; [done|auto|done|apply Hb|]. intros Hw. destruct (finalize_works w Hw). congruence.
Qed.

(** *** Splitting *)

(** A range, and the number of turns the loop takes for it. *)
Definition seg (ms : list AgentMetric) (r : nat * nat) : list AgentMetric := take (r.2 - r.1) (drop r.1 ms).
Definition turns (r : nat * nat) : nat := Nat.max 1 (2 * (r.2 - r.1) - 1).

Lemma seg_length ms lo hi : (lo <= hi <= length ms)%nat -> length (seg ms (lo, hi)) = (hi - lo)%nat.
Proof. intros Hr. unfold seg. cbn. rewrite length_take, length_drop. lia. Qed.

Lemma seg_split ms lo mid hi : (lo <= mid <= hi)%nat -> seg ms (lo, hi) = seg ms (lo, mid) ++ seg ms (mid, hi).
Proof.
  intros Hr. unfold seg. cbn [fst snd]. replace (hi - lo)%nat with ((mid - lo) + (hi - mid))%nat by lia.
  rewrite <- take_take_drop, drop_drop. by replace (lo + (mid - lo))%nat with mid by lia.
Qed.

Lemma split_loop_spec ms fuel pending st :
  (sum_list (turns <$> pending) <= fuel)%nat -> Forall (fun r => r.1 <= r.2 <= length ms)%nat pending ->
  exists rs st' groups, split_loop' fuel ms pending st = Some (rs, st') /\ Forall2 request_of groups rs /\
    sublist (mjoin groups) (mjoin (seg ms <$> pending)) /\ fl_sent st' = fl_sent st /\ Forall (fun g => g <> []) groups /\
    (libraries_work -> fl_dropped st' = fl_dropped st + lenZ (mjoin (seg ms <$> pending)) - lenZ (mjoin groups)).
Proof.
  revert pending st. induction fuel as [|fuel IH]; intros [|[lo hi] pending] st Hf Hok; cbn [split_loop].
  - exists [], st, []. cbn. split_and!; [done|done|constructor|done|done|lia].
  - exfalso. change (turns (lo, hi) + sum_list (turns <$> pending) <= 0)%nat in Hf. unfold turns in Hf. lia.
  - exists [], st, []. cbn. split_and!; [done|done|constructor|done|done|lia].
  - apply Forall_cons in Hok as [Hr Hok]. cbn [fst snd] in Hr. change (turns (lo, hi) + sum_list (turns <$> pending) <= S fuel)%nat in Hf.
    assert (Hturn : (1 <= turns (lo, hi))%nat) by (unfold turns; lia).
    rewrite fmap_cons, mjoin_cons. destruct (hi <=? lo)%nat eqn:Ehl.
    { apply Nat.leb_le in Ehl. assert (Hse : seg ms (lo, hi) = []) by (unfold seg; cbn [fst snd]; by replace (hi - lo)%nat with 0%nat by lia).
      rewrite Hse. apply IH; [lia|done]. }
    apply Nat.leb_gt in Ehl. change (take (hi - lo) (drop lo ms)) with (seg ms (lo, hi)). set (g := seg ms (lo, hi)) in *.
    assert (Hg : length g = (hi - lo)%nat) by (apply seg_length; lia).
    destruct (written_cover g) as (w & Hwr).
    assert (Henc : encode_batch g = Some (finalize w)) by (unfold encode_v3_metrics_batch; by rewrite Hwr). rewrite Henc. cbn [mbind option_bind].
    assert (Hskip : forall st1, fl_sent st1 = fl_sent st -> (libraries_work -> fl_dropped st1 = fl_dropped st + lenZ g) ->
      exists rs st' groups, split_loop' fuel ms pending st1 = Some (rs, st') /\ Forall2 request_of groups rs /\
      sublist (mjoin groups) (g ++ mjoin (seg ms <$> pending)) /\ fl_sent st' = fl_sent st /\ Forall (fun g => g <> []) groups /\
      (libraries_work -> fl_dropped st' = fl_dropped st + lenZ (g ++ mjoin (seg ms <$> pending)) - lenZ (mjoin groups))).
    { intros st1 Hs1 Hd1. destruct (IH pending st1) as (rs & st' & groups & E & Hrs & Hsub & Hs & Hne & Hd); [lia|done|].
      exists rs, st', groups. split_and!; [done|done|by apply sublist_inserts_l|congruence|done|]. intros Hw. rewrite length_app. specialize (Hd Hw). specialize (Hd1 Hw). lia. }
    destruct (finalize w) as [enc|e] eqn:Ef.
    2:{ apply Hskip; [done|]. intros Hw. destruct (finalize_works w Hw). congruence. }
    destruct (create_batch_spec g enc st Henc) as (o & st1 & -> & Hs1 & Hsome & Hd1). destruct o as [r|].
    { destruct (Hsome r eq_refl) as [Hreq Hd1']. destruct (IH pending st1) as (rs & st' & groups & -> & Hrs & Hsub & Hs & Hne & Hd); [lia|done|].
      exists (r :: rs), st', (g :: groups). cbn [mbind option_bind]. rewrite mjoin_cons.
      split_and!; [done|by constructor|by apply sublist_app|congruence|constructor; [by intros ->; cbn in Hg; lia|done]|].
      intros Hw. rewrite !length_app. specialize (Hd Hw). lia. }
    destruct (hi - lo =? 1)%nat eqn:E1.
    { apply Nat.eqb_eq in E1. apply Hskip; [done|]. intros Hw. specialize (Hd1 Hw). cbn [fl_dropped drop_events record_calls]. lia. }
    apply Nat.eqb_neq in E1. set (pivot := (lo + (hi - lo) / 2)%nat). assert (Hp : (lo < pivot < hi)%nat).
    { unfold pivot. pose proof (Nat.div_lt (hi - lo) 2). pose proof (Nat.div_le_lower_bound (hi - lo) 2 1). lia. }
    destruct (IH ((lo, pivot) :: (pivot, hi) :: pending) (record_calls [RecordSplitReason PayloadFull] st1)) as (rs & st' & groups & -> & Hrs & Hsub & Hs & Hne & Hd).
    { change (turns (lo, pivot) + (turns (pivot, hi) + sum_list (turns <$> pending)) <= fuel)%nat. unfold turns in *. cbn [fst snd] in *. lia. }
    { repeat constructor; cbn; [lia..|done]. }
    rewrite !fmap_cons, !mjoin_cons, app_assoc, <- seg_split in Hsub, Hd by lia. fold g in Hsub, Hd.
    exists rs, st', groups. split_and!; [done|done|done|cbn in Hs; congruence|done|]. intros Hw. specialize (Hd Hw). specialize (Hd1 Hw). cbn [fl_dropped record_calls] in Hd. lia.
Qed.

(** *** Sending *)

Abbreviation flush_loop' := (@flush_loop ProtoError IoError HttpError GenericError _ _ SKETCH_CONFIG _ _ _ _ refuses compression_scheme limits endpoint_uri additional_tags).
Abbreviation flush_requests' := (@encode_and_flush_v3_payload_requests ProtoError IoError HttpError GenericError _ _ SKETCH_CONFIG _ _ _ _ refuses compression_scheme limits endpoint_uri additional_tags).

Lemma send_requests_spec groups rs st : Forall2 request_of groups rs ->
  exists r st' sent_groups ps, send_requests refuses rs st = (r, st') /\ fl_sent st' = fl_sent st ++ ps /\ Forall2 payload_of sent_groups ps /\
    sent_groups `prefix_of` groups /\ fl_dropped st' = fl_dropped st /\ (r = Ok tt -> sent_groups = groups) /\ ((forall s p, refuses s p = None) -> r = Ok tt).
Proof.
  intros Hrs. revert st. induction Hrs as [|g r groups rs Hr Hrs IH]; intros st; cbn [send_requests].
  - exists (Ok tt), st, [], []. rewrite app_nil_r. by split_and!.
  - unfold flush_payload, dispatch. destruct (refuses _ _) as [e|] eqn:Eref.
    + exists (Err e), (with_sent (fl_sent st) st), [], []. rewrite app_nil_r. split_and!; [done|done|constructor|apply prefix_nil|done|done|intros Hopen; by rewrite Hopen in Eref].
    + set (p := {| metadata := _; request := _ |}). destruct (IH (with_sent (fl_sent st ++ [p]) st)) as (q & st' & sg & ps & E & Hs & Hps & Hpre & Hd & Hok & Hopen).
      exists q, st', (g :: sg), (p :: ps). rewrite E. split_and!; [done|by rewrite Hs; cbn; rewrite <- app_assoc| |by apply prefix_cons|done|by intros ->; rewrite Hok|done].
      constructor; [|done]. destruct Hr as (enc & req & H6 & H7 & H8 & ->). by exists enc, req.
Qed.

Lemma sublist_within g g' : sublist g' g -> within_limits g -> within_limits g'.
Proof.
  intros Hs. assert (Hle : sumZ metric_points g' <= sumZ metric_points g /\ lenZ g' <= lenZ g).
  { induction Hs as [|x l1 l2 _ IH|x l1 l2 _ IH]; [done|rewrite !sumZ_cons; cbn [length]; lia|].
    rewrite sumZ_cons. cbn [length]. pose proof (metric_points_nonneg x). lia. }
  unfold within_limits. lia.
Qed.

Lemma sublist_mjoin (g : list AgentMetric) groups : g ∈ groups -> sublist g (mjoin groups).
Proof.
  induction 1 as [g groups|g x groups _ IH]; rewrite mjoin_cons; [by apply sublist_inserts_r|by apply sublist_inserts_l].
Qed.

Lemma filter_app_acc (l1 l2 : list AgentMetric) : List.filter acc (l1 ++ l2) = List.filter acc l1 ++ List.filter acc l2.
Proof. apply List.filter_app. Qed.

Lemma filter_idem (l : list AgentMetric) : Forall (fun m => acc m = true) l -> List.filter acc l = l.
Proof. induction 1 as [|m l Hm Hl IH]; [done|]. cbn. by rewrite Hm, IH. Qed.

(** A flush sends [groups] of the metrics [ms], in order and within the limits. *)
Record flushed (ms : list AgentMetric) (st : V3Flush) (r : result GenericError unit) (st' : V3Flush) (groups : list (list AgentMetric)) : Prop := {
  fd_sent : exists ps, fl_sent st' = fl_sent st ++ ps /\ Forall2 payload_of groups ps;
  fd_order : sublist (mjoin groups) (List.filter acc ms);
  fd_limits : Forall (fun g => g <> [] /\ within_limits g) groups;
  fd_account : r = Ok tt -> libraries_work -> fl_dropped st' = fl_dropped st + lenZ ms - lenZ (mjoin groups);
  fd_open : (forall s p, refuses s p = None) -> r = Ok tt;
}.

Lemma requests_of_batch used bt enc st :
  encode_batch (List.filter acc used) = Some (Ok enc) -> within_limits (List.filter acc used) -> used <> [] ->
  bt = {| vb_encoded := enc; vb_event_count := lenZ (List.filter acc used); vb_data_point_count := sumZ metric_points (List.filter acc used) |} ->
  List.filter acc used <> [] ->
  exists rs st' groups,
    (match create_batch bt st with
     | (Some r, st) => Some ([r], st)
     | (None, st) => @split_and_encode_oversized_v3_range ProtoError IoError HttpError _ _ SKETCH_CONFIG _ _ _ _ compression_scheme limits endpoint_uri additional_tags used st
     end) = Some (rs, st') /\ Forall2 request_of groups rs /\ sublist (mjoin groups) (List.filter acc used) /\ fl_sent st' = fl_sent st /\
    Forall (fun g => g <> []) groups /\ (libraries_work -> fl_dropped st' = fl_dropped st + lenZ (List.filter acc used) - lenZ (mjoin groups)).
Proof.
  intros Henc Hlim Hu -> Hne. set (g := List.filter acc used) in *. destruct (create_batch_spec g enc st Henc) as (o & st1 & -> & Hs & Hsome & Hd). destruct o as [r|].
  - destruct (Hsome r eq_refl) as [Hreq Hd']. exists [r], st1, [g]. rewrite mjoin_cons. cbn. rewrite app_nil_r.
    split_and!; [done|by repeat constructor|done|done|by repeat constructor|lia].
  - unfold split_and_encode_oversized_v3_range. fold g.
    destruct (split_loop_spec g (2 * length g + 1) [(0%nat, length g)] st1) as (rs & st' & groups & E & Hrs & Hsub & Hs' & Hne' & Hd').
    { change (turns (0%nat, length g) + 0 <= 2 * length g + 1)%nat. unfold turns. cbn [fst snd]. lia. } { repeat constructor; cbn; lia. }
    assert (Hseg : mjoin (seg g <$> [(0%nat, length g)]) = g).
    { cbn. unfold seg. cbn [fst snd]. by rewrite app_nil_r, Nat.sub_0_r, drop_0, take_ge by done. }
    rewrite Hseg in Hsub, Hd'. exists rs, st', groups. split_and!; [done|done|done|congruence|done|]. intros Hw. specialize (Hd Hw). specialize (Hd' Hw). lia.
Qed.

Lemma flush_loop_spec fuel target ms st : (length ms <= fuel)%nat -> exists r st' groups, flush_loop' fuel target ms st = Some (r, st') /\ flushed ms st r st' groups.
Proof.
  revert ms st. induction fuel as [|fuel IH]; intros ms st Hf.
  { destruct ms; [|cbn in Hf; lia]. exists (Ok tt), st, []. split; [done|]. split; [exists []; by rewrite app_nil_r|constructor|constructor|cbn; lia|done]. }
  destruct (decide (ms = [])) as [->|Hne].
  { exists (Ok tt), st, []. split; [done|]. split; [exists []; by rewrite app_nil_r|constructor|constructor|cbn; lia|done]. }
  destruct (build_batch_spec target ms st Hne) as (o & rest & st1 & used & E & Hms & Hu & Hs & Hlim & Ho).
  assert (Hstep : flush_loop' (S fuel) target ms st =
    ('(batch, rest, st) ← Some (o, rest, st1);
     match batch with
     | None => if (length rest =? length ms)%nat then Some (Ok tt, drop_events (Z.of_nat (length rest)) st) else flush_loop' fuel target rest st
     | Some batch =>
         '(requests, st) ← (match create_batch batch st with
                            | (Some r, st) => Some ([r], st)
                            | (None, st) => @split_and_encode_oversized_v3_range ProtoError IoError HttpError _ _ SKETCH_CONFIG _ _ _ _ compression_scheme limits endpoint_uri additional_tags
                                              (take (length ms - length rest) ms) st
                            end);
         match send_requests refuses requests st with (Ok _, st) => flush_loop' fuel target rest st | (Err e, st) => Some (Err e, st) end
     end)) by (destruct ms; [done|]; cbn [flush_loop]; by rewrite E).
  rewrite Hstep. cbn [mbind option_bind]. clear Hstep E.
  assert (Hlen : (length rest < length ms)%nat) by (rewrite Hms, length_app; destruct used; [done|cbn; lia]).
  assert (Htake : take (length ms - length rest) ms = used) by (rewrite Hms, length_app, Nat.add_sub; apply take_app_length).
  assert (Hacc_ms : List.filter acc ms = List.filter acc used ++ List.filter acc rest) by (rewrite Hms; apply filter_app_acc).
  destruct o as [bt|].
  - destruct Ho as (enc & Henc & Hbt & Hd & Hgne). rewrite Htake.
    assert (Hreqs : exists rs st2 groups,
      (match create_batch bt st1 with
       | (Some r, st) => Some ([r], st)
       | (None, st) => @split_and_encode_oversized_v3_range ProtoError IoError HttpError _ _ SKETCH_CONFIG _ _ _ _ compression_scheme limits endpoint_uri additional_tags used st
       end) = Some (rs, st2) /\ Forall2 request_of groups rs /\ sublist (mjoin groups) (List.filter acc used) /\ fl_sent st2 = fl_sent st1 /\
      Forall (fun g => g <> []) groups /\ (libraries_work -> fl_dropped st2 = fl_dropped st1 + lenZ (List.filter acc used) - lenZ (mjoin groups))).
    { by eapply requests_of_batch. }
    destruct Hreqs as (rs & st2 & groups & -> & Hrs & Hsub & Hs2 & Hne2 & Hd2). cbn [mbind option_bind].
    destruct (send_requests_spec groups rs st2 Hrs) as (r & st3 & sg & ps & -> & Hs3 & Hps & Hpre & Hd3 & Hok & Hopen).
    assert (Hsg : Forall (fun g => g <> [] /\ within_limits g) sg).
    { destruct Hpre as [k Hk]. rewrite Hk in Hne2, Hsub. apply Forall_app in Hne2 as [Hne2 _]. apply Forall_forall. intros g Hg. split; [exact (proj1 (Forall_forall _ _) Hne2 g Hg)|].
      eapply sublist_within; [|exact Hlim]. etrans; [by apply sublist_mjoin|]. etrans; [|exact Hsub]. rewrite join_app. by apply sublist_inserts_r. }
    assert (Hsubsg : sublist (mjoin sg) (List.filter acc used)).
    { destruct Hpre as [k ->]. etrans; [|exact Hsub]. rewrite join_app. by apply sublist_inserts_r. }
    destruct r as [[]|e].
    + destruct (IH rest st3) as (r & st' & groups' & E' & [(ps' & Hs' & Hps') Hord Hlims Hac Hop]); [lia|].
      exists r, st', (sg ++ groups'). split; [done|]. split.
      * exists (ps ++ ps'). split; [by rewrite Hs', Hs3, Hs2, Hs, app_assoc|by apply Forall2_app].
      * rewrite join_app, Hacc_ms. by apply sublist_app.
      * by apply Forall_app.
      * intros Hr Hw. rewrite (Hac Hr Hw), Hd3, (Hd2 Hw), Hd, join_app, length_app, (Hok eq_refl), Hms, length_app. lia.
      * done.
    + exists (Err e), st3, sg. split; [done|]. split; [exists ps; split; [by rewrite Hs3, Hs2, Hs|done]|rewrite Hacc_ms; by apply sublist_inserts_r|done|done|done].
  - rewrite (proj2 (Nat.eqb_neq _ _)) by lia.
    destruct (IH rest st1) as (r & st' & groups' & E' & [(ps' & Hs' & Hps') Hord Hlims Hac Hop]); [lia|].
    exists r, st', groups'. split; [done|]. split.
    + exists ps'. split; [by rewrite Hs', Hs|done].
    + rewrite Hacc_ms. by apply sublist_inserts_l.
    + done.
    + intros Hr Hw. rewrite (Hac Hr Hw), (Ho Hw), Hms, length_app. lia.
    + done.
Qed.

(** C14: Flushing buffered metrics as columnar payloads ends.  The payloads it sends carry groups of the
    metrics: in the order in which they were buffered and without repetition, only metrics that have a
    value to emit and fit the limit on points; each group is not empty, keeps the limits on points and
    on metrics, is encoded as one payload whose request keeps the limits on compressed and uncompressed
    size, and is described by its numbers of metrics and points.  When the flush succeeds and the
    libraries do not fail, every metric that is in no payload is counted as dropped exactly once. *)
Theorem v3_flush_accounts (ms : list AgentMetric) (st : V3Flush) :
  exists r st' groups, flush_requests' ms st = Some (r, st') /\
    (exists ps, fl_sent st' = fl_sent st ++ ps /\ Forall2 payload_of groups ps) /\
    sublist (mjoin groups) (List.filter acc ms) /\
    Forall (fun g => g <> [] /\ within_limits g) groups /\
    (r = Ok tt -> libraries_work -> fl_dropped st' = fl_dropped st + lenZ ms - lenZ (mjoin groups)).
Proof.
  unfold encode_and_flush_v3_payload_requests.
  destruct (flush_loop_spec (length ms) (uncompressed_target limits (fl_ratio st)) ms st (Nat.le_refl _)) as (r & st' & groups & E & [F1 F2 F3 F4 _]).
  exists r, st', groups. by split_and!.
Qed.
End flush.

(** ** Two flushes *)

Module Flushes.
#[export] Instance columns_inst : CodedColumns unit := {|
  write_framed f c := match c with
                      | ColBytes bs => Ok (Z_byte f :: bs)
                      | ColSint64 l | ColInt64 l | ColUint64 l | ColInt32 l | ColSint32 l | ColUint32 l => Ok (match l with [] => [] | _ => Z_byte f :: (Z_byte <$> l) end)
                      | ColFloat l | ColDouble l => Ok (match l with [] => [] | _ => Z_byte f :: ((fun _ => Z_byte 0) <$> l) end)
                      end;
  write_raw c := Ok [];
|}.
#[export] Instance header_inst : V3Header unit := fun n => Ok [Z_byte 26; Z_byte n].
#[export] Instance plain : Compression unit := {|
  compressor := bytes; create_compressor := []; write_all bs c := Ok (c ++ bs); total_written c := blen c; comp_flush c := Ok c; comp_shutdown c := Ok c;
  into_inner c := c; content_encoding := None;
|}.
Definition accepting : HttpBuilder unit := {| build_error _ := None |}.
Definition refusing : HttpBuilder unit := {| build_error _ := Some tt |}.
Import Samples.
Definition limits : V3PayloadLimits := {| max_compressed_size := 75; max_uncompressed_size := 200; max_metrics_per_payload := 10; max_points_per_payload := 3 |}.
Definition start : V3Flush := {| fl_ratio := Some (f64_scale 1 (-6)); fl_dropped := 0; fl_serializer := []; fl_sent := [] |}.
Definition run (h : HttpBuilder unit) (ms : list AgentMetric) :=
  @encode_and_flush_v3_payload_requests unit unit unit unit fnv libm config columns_inst header_inst plain h (fun _ _ => None) Noop limits (b "/v3") [] ms start.
Definition outcome (o : option (result unit unit * V3Flush)) : option (list (Z * Z) * Z) :=
  '(r, st) ← o; match r with Ok _ => Some ((fun p => (event_count (metadata p), data_point_count (metadata p))) <$> fl_sent st, fl_dropped st) | Err _ => None end.
End Flushes.

(** Six metrics: the second has no finite point, the fourth too many; the first and the third do not fit
    one request and are split, the last two do. *)
Example a_flush : length Samples.metrics = 6%nat /\ Flushes.outcome (Flushes.run Flushes.accepting Samples.metrics) = Some ([(1, 1); (1, 2); (2, 2)], 2).
Proof. split; vm_compute; reflexivity. Qed.

(** When requests cannot be created, the same metrics are counted again at every level of splitting:
    nine dropped events for three metrics. *)
Example failed_requests_are_counted_again : Flushes.outcome (Flushes.run Flushes.refusing (take 3 Samples.metrics)) = Some ([], 9).
Proof. vm_compute. reflexivity. Qed.
