(* ===== verification/MetricsTask.v ===== *)
(** * The metrics encoder's task

    [run_request_builder] of [saluki-components/src/encoders/datadog/metrics/mod.rs]: a metric is encoded
    by the request builder of its endpoint, when there is one, and buffered for a columnar payload, when
    the endpoint's mode asks for it; buffers are flushed when a limit is reached and when the flush
    timeout elapses.

    Wakeups of the task come as a sequence: a buffer of events, or the elapsed timeout.  [None] is a
    panic of [encode_v2_metrics].  The encoders of the older formats are the class [EndpointEncoder]. *)

From Stdlib Require Import ZArith Lia Strings.String Floats.SpecFloat.
From stdpp Require Import base tactics list numbers gmap.
From S2P Require Import Prelude Bytes Float64 MetricValues Aggregate TagSet TagSetProofs Context AgentSketch RequestBuilder Encoders V3Writer V3WriterProofs V3Metrics V3MetricsProofs V3FlushProofs.
Open Scope Z_scope.

Inductive MetricsEndpoint := SeriesV1 | SeriesV2 | Sketches_.
Definition MetricsEndpoint_from_metric (m : AgentMetric) : MetricsEndpoint :=
  match metric_values m with MetricValues.Counter _ | MetricValues.Rate _ _ | MetricValues.Gauge _ | Set_ _ => SeriesV2 | HistogramV _ | Distribution _ => Sketches_ end.

Inductive MetricsEncoderMode := V2Only | V3Enabled.
Definition MetricsEncoderMode_from_config (use_v3 : bool) : MetricsEncoderMode := if use_v3 then V3Enabled else V2Only.
Definition needs_v3 (m : MetricsEncoderMode) : bool := match m with V3Enabled => true | V2Only => false end.
Definition metrics_encoder_mode_for_config (use_v3 disabled_by_compressor : bool) : MetricsEncoderMode :=
  MetricsEncoderMode_from_config (use_v3 && negb disabled_by_compressor).

(** [v1::has_emittable_point]. *)
Definition has_emittable_point (m : AgentMetric) : bool :=
  match metric_values m with
  | MetricValues.Counter points | MetricValues.Gauge points | MetricValues.Rate points _ => existsb (fun p => emittable_scalar_point (value p)) points
  | Set_ points => existsb (fun p => emittable_scalar_point (set_len (value p))) points
  | _ => true
  end.

Section task.
Context {EncodeError ProtoError IoError HttpError GenericError : Type}.
Context `{FastHasher} `{Libm} (SKETCH_CONFIG : Config).
Context `{CodedColumns ProtoError} `{V3Header ProtoError} `{HttpBuilder HttpError}.
Context (v2_compression v3_compression : Compression IoError).
Context (series_encoder sketch_encoder : EndpointEncoder AgentMetric EncodeError).
Context (error_context : @RequestBuilderError AgentMetric EncodeError IoError HttpError -> GenericError).
Context (refuses : list HttpPayload -> HttpPayload -> option GenericError).
Context (compression_scheme : CompressionScheme) (limits : V3PayloadLimits) (series_endpoint_uri sketches_endpoint_uri : bytes) (additional_tags : SharedTagSet).
Context (series_mode sketches_mode : MetricsEncoderMode).

Abbreviation Builder := (@RequestBuilder AgentMetric IoError v2_compression).

(** What the task keeps for series and for sketches. *)
Record Side := { sd_builder : option Builder; sd_metrics : option (list AgentMetric); sd_points : Z; sd_ratio : V3CompressionRatio }.
Record Outputs := { out_dropped : Z; out_serializer : list SerializerCall; out_sent : list HttpPayload }.
Record MetricsTask := { tk_series : Side; tk_sketches : Side; tk_out : Outputs; tk_pending_flush : bool }.

Definition set_builder (rb : option Builder) (s : Side) : Side := {| sd_builder := rb; sd_metrics := sd_metrics s; sd_points := sd_points s; sd_ratio := sd_ratio s |}.
Definition set_buffer (ms : list AgentMetric) (points : Z) (s : Side) : Side :=
  {| sd_builder := sd_builder s; sd_metrics := Some ms; sd_points := points; sd_ratio := sd_ratio s |}.
Definition set_ratio (r : V3CompressionRatio) (s : Side) : Side := {| sd_builder := sd_builder s; sd_metrics := sd_metrics s; sd_points := sd_points s; sd_ratio := r |}.
Definition out_drop (n : Z) (o : Outputs) : Outputs := {| out_dropped := out_dropped o + n; out_serializer := out_serializer o; out_sent := out_sent o |}.
Definition out_record (l : list SerializerCall) (o : Outputs) : Outputs :=
  {| out_dropped := out_dropped o; out_serializer := out_serializer o ++ l; out_sent := out_sent o |}.

(** [Vec::pop]. *)
Definition vec_pop {A} (l : list A) : option A * list A := (last l, take (length l - 1) l).

(** [encode_and_flush_v3_series_metrics] and its sibling: the metrics are taken out of the buffer. *)
Definition flush_v3_side (uri : bytes) (s : Side) (o : Outputs) : option (result GenericError unit * Side * Outputs) :=
  match sd_metrics s with
  | None | Some [] => Some (Ok tt, s, o)
  | Some ms =>
      '(r, st) ← @encode_and_flush_v3_payload_requests ProtoError IoError HttpError GenericError _ _ SKETCH_CONFIG _ _ v3_compression _ refuses
                   compression_scheme limits uri additional_tags ms
                   {| fl_ratio := sd_ratio s; fl_dropped := out_dropped o; fl_serializer := out_serializer o; fl_sent := out_sent o |};
      Some (r, set_ratio (fl_ratio st) (set_buffer [] (sd_points s) s), {| out_dropped := fl_dropped st; out_serializer := fl_serializer st; out_sent := fl_sent st |})
  end.

Definition buffer_metric (m : AgentMetric) (s : Side) : Side :=
  match sd_metrics s with Some ms => set_buffer (ms ++ [m]) (sd_points s + metric_points m) s | None => s end.

(** The encoding of the metric by the request builder.  The copy in the buffer is dropped when it fails,
    on a condition that the mode cannot meet. *)
Definition encode_v2_side (enc : EndpointEncoder AgentMetric EncodeError) (mode : MetricsEncoderMode) (m : AgentMetric) (s : Side) (o : Outputs) :
    option (result GenericError unit * Side * Outputs) :=
  match sd_builder s with
  | None => Some (Ok tt, s, o)
  | Some rb =>
      '(r, (rb, sent, dropped)) ← @encode_v2_metrics AgentMetric EncodeError IoError HttpError GenericError enc v2_compression _ refuses error_context m (rb, out_sent o, out_dropped o);
      let o := {| out_dropped := dropped; out_serializer := out_serializer o; out_sent := sent |} in
      let s := set_builder (Some rb) s in
      match r with
      | Err e => Some (Err e, s, o)
      | Ok res =>
          if needs_v3 mode && negb (encoded res) && negb (match mode with V3Enabled => true | V2Only => false end) then
            match sd_metrics s with
            | Some ms => Some (Ok tt, set_buffer (vec_pop ms).2 (Z.max 0 (sd_points s - metric_points m)) s, o)
            | None => Some (Ok tt, s, o)
            end
          else Some (Ok tt, s, o)
      end
  end.

(** Whether to flush the buffer, and the metric that starts the next one. *)
Definition v3_flush_decision (mode : MetricsEncoderMode) (m : AgentMetric) (ms : list AgentMetric) (s : Side) (o : Outputs) : bool * option AgentMetric * Side * Outputs :=
  match mode with
  | V2Only => (false, None, s, o)
  | V3Enabled =>
      if point_count_fits limits (metric_points m) && point_count_exceeds_limit limits (sd_points s) && (1 <? lenZ ms) then
        let o := out_record [RecordSplitReason MaxPoints] o in
        match vec_pop ms with
        | (Some x, ms) => (true, Some x, set_buffer ms (Z.max 0 (sd_points s - metric_points x)) s, o)
        | (None, ms) => (true, None, set_buffer ms (sd_points s) s, o)
        end
      else (should_flush_point_count_limit limits (sd_points s) || should_flush_metric_count_limit limits ms, None, s, o)
  end.

Definition set_points (p : Z) (s : Side) : Side := {| sd_builder := sd_builder s; sd_metrics := sd_metrics s; sd_points := p; sd_ratio := sd_ratio s |}.

(** The flush of a buffer that is full, after the metric was added to it. *)
Definition flush_full_buffer (mode : MetricsEncoderMode) (uri : bytes) (m : AgentMetric) (s : Side) (o : Outputs) : option (result GenericError unit * Side * Outputs) :=
  match sd_metrics s with
  | None => Some (Ok tt, s, o)
  | Some ms =>
      let '(should_flush, split_metric, s, o) := v3_flush_decision mode m ms s o in
      '(r, s, o) ← (if should_flush then '(r, s, o) ← flush_v3_side uri s o; Some (r, match r with Ok _ => set_points 0 s | Err _ => s end, o) else Some (Ok tt, s, o));
      match r with
      | Err e => Some (Err e, s, o)
      | Ok _ => Some (Ok tt, match mode, split_metric with V3Enabled, Some x => buffer_metric x s | _, _ => s end, o)
      end
  end.

Definition handle_side (enc : EndpointEncoder AgentMetric EncodeError) (mode : MetricsEncoderMode) (uri : bytes) (m : AgentMetric) (s : Side) (o : Outputs) :
    option (result GenericError unit * Side * Outputs) :=
  let s := if needs_v3 mode then buffer_metric m s else s in
  '(r, s, o) ← encode_v2_side enc mode m s o;
  match r with Err e => Some (Err e, s, o) | Ok _ => flush_full_buffer mode uri m s o end.

Definition handle_metric (m : AgentMetric) (t : MetricsTask) : option (result GenericError unit * MetricsTask) :=
  if negb (has_emittable_point m) then
    Some (Ok tt, {| tk_series := tk_series t; tk_sketches := tk_sketches t; tk_out := out_drop 1 (tk_out t); tk_pending_flush := tk_pending_flush t |})
  else
    match MetricsEndpoint_from_metric m with
    | SeriesV1 | SeriesV2 =>
        '(r, s, o) ← handle_side series_encoder series_mode series_endpoint_uri m (tk_series t) (tk_out t);
        Some (r, {| tk_series := s; tk_sketches := tk_sketches t; tk_out := o; tk_pending_flush := tk_pending_flush t |})
    | Sketches_ =>
        '(r, s, o) ← handle_side sketch_encoder sketches_mode sketches_endpoint_uri m (tk_sketches t) (tk_out t);
        Some (r, {| tk_series := tk_series t; tk_sketches := s; tk_out := o; tk_pending_flush := tk_pending_flush t |})
    end.

(** An event that is not a metric is [None]. *)
Fixpoint handle_events (evs : list (option AgentMetric)) (t : MetricsTask) : option (result GenericError unit * MetricsTask) :=
  match evs with
  | [] => Some (Ok tt, t)
  | None :: evs => handle_events evs t
  | Some m :: evs => '(r, t) ← handle_metric m t; match r with Err e => Some (Err e, t) | Ok _ => handle_events evs t end
  end.

(** The flush of one side when the timeout elapses; an error is only logged. *)
Definition timeout_side (enc : EndpointEncoder AgentMetric EncodeError) (mode : MetricsEncoderMode) (uri : bytes) (s : Side) (o : Outputs) : option (Side * Outputs) :=
  let '(succeeded, s, o) :=
    match sd_builder s with
    | None => (true, s, o)
    | Some rb =>
        let '(r, (rb, sent)) := @flush_v2_metrics AgentMetric EncodeError IoError HttpError GenericError enc v2_compression _ refuses error_context (rb, out_sent o) in
        (match r with Ok _ => true | Err _ => false end, set_builder (Some rb) s, {| out_dropped := out_dropped o; out_serializer := out_serializer o; out_sent := sent |})
    end in
  match sd_metrics s with
  | None => Some (s, o)
  | Some _ =>
      if succeeded || needs_v3 mode then '(_, s, o) ← flush_v3_side uri s o; Some (set_points 0 s, o)
      else Some (set_buffer [] 0 s, o)
  end.

Inductive task_wakeup := TaskEvents (evs : list (option AgentMetric)) | TaskTimeout.

Definition handle_task_wakeup (w : task_wakeup) (t : MetricsTask) : option (result GenericError unit * MetricsTask) :=
  match w with
  | TaskEvents evs =>
      '(r, t) ← handle_events evs t;
      Some (r, match r with Ok _ => {| tk_series := tk_series t; tk_sketches := tk_sketches t; tk_out := tk_out t; tk_pending_flush := true |} | Err _ => t end)
  | TaskTimeout =>
      if tk_pending_flush t then
        '(s, o) ← timeout_side series_encoder series_mode series_endpoint_uri (tk_series t) (tk_out t);
        '(k, o) ← timeout_side sketch_encoder sketches_mode sketches_endpoint_uri (tk_sketches t) o;
        Some (Ok tt, {| tk_series := s; tk_sketches := k; tk_out := o; tk_pending_flush := false |})
      else Some (Ok tt, t)
  end.

(** When the channel of events is closed, a pending flush is waited for. *)
Fixpoint run_request_builder (ws : list task_wakeup) (t : MetricsTask) : option (result GenericError unit * MetricsTask) :=
  match ws with
  | [] => handle_task_wakeup TaskTimeout t
  | w :: ws => '(r, t) ← handle_task_wakeup w t; match r with Err e => Some (Err e, t) | Ok _ => run_request_builder ws t end
  end.

(** The task as it starts. *)
Definition task_start (series_builder sketch_builder : option Builder) : MetricsTask :=
  let side mode rb := {| sd_builder := rb; sd_metrics := if needs_v3 mode then Some [] else None; sd_points := 0; sd_ratio := None |} in
  {| tk_series := side series_mode series_builder; tk_sketches := side sketches_mode sketch_builder;
     tk_out := {| out_dropped := 0; out_serializer := []; out_sent := [] |}; tk_pending_flush := false |}.
End task.
Arguments sd_builder {IoError v2_compression}.
Arguments sd_metrics {IoError v2_compression}.
Arguments sd_points {IoError v2_compression}.
Arguments sd_ratio {IoError v2_compression}.
Arguments set_builder {IoError v2_compression}.
Arguments set_buffer {IoError v2_compression}.
Arguments set_ratio {IoError v2_compression}.
Arguments set_points {IoError v2_compression}.
Arguments buffer_metric {IoError v2_compression}.
Arguments v3_flush_decision {IoError v2_compression}.
Arguments tk_series {IoError v2_compression}.
Arguments tk_sketches {IoError v2_compression}.
Arguments tk_out {IoError v2_compression}.
Arguments tk_pending_flush {IoError v2_compression}.
Arguments task_start {IoError v2_compression}.
