(* ===== verification/MetricsTaskProofs.v ===== *)
(** * The metrics encoder's task: bounded buffers, and no metric lost

    The buffers for columnar payloads stay within the limits whatever the task is given, and their
    counters of points are exact.  A task that sends columnar payloads only ends without a panic, with
    every metric in a payload that was sent or counted as dropped. *)

From Stdlib Require Import ZArith Lia Strings.String Floats.SpecFloat.
From stdpp Require Import base tactics list numbers gmap.
From S2P Require Import Prelude Bytes Float64 MetricValues Aggregate TagSet TagSetProofs Context AgentSketch RequestBuilder Encoders V3Writer V3WriterProofs V3Metrics V3MetricsProofs V3FlushProofs MetricsTask.
Open Scope Z_scope.

Section task.
Context {EncodeError ProtoError IoError HttpError GenericError : Type}.
Context `{FastHasher} `{Libm} (SKETCH_CONFIG : Config).
Context `{CodedColumns ProtoError} `{V3Header ProtoError} `{HttpBuilder HttpError}.
Context (v2_compression v3_compression : Compression IoError).
Context (series_encoder sketch_encoder : EndpointEncoder AgentMetric EncodeError).
Context (error_context : @RequestBuilderError AgentMetric EncodeError IoError HttpError -> GenericError).
Context (refuses : list HttpPayload -> HttpPayload -> option GenericError).
Context (compression_scheme : CompressionScheme) (limits : V3PayloadLimits) (series_endpoint_uri sketches_endpoint_uri : bytes) (additional_tags : SharedTagSet).
Context (series_mode sketches_mode : MetricsEncoderMode).

Abbreviation side := (@Side IoError v2_compression).
Abbreviation flush_side := (@flush_v3_side ProtoError IoError HttpError GenericError _ _ SKETCH_CONFIG _ _ _ v2_compression v3_compression refuses compression_scheme limits additional_tags).
Abbreviation encode_side := (@encode_v2_side EncodeError IoError HttpError GenericError _ v2_compression error_context refuses).
Abbreviation on_side := (@handle_side EncodeError ProtoError IoError HttpError GenericError _ _ SKETCH_CONFIG _ _ _ v2_compression v3_compression error_context refuses compression_scheme limits additional_tags).

Abbreviation flush_full := (@flush_full_buffer ProtoError IoError HttpError GenericError _ _ SKETCH_CONFIG _ _ _ v2_compression v3_compression refuses compression_scheme limits additional_tags).
Abbreviation works := (@libraries_work ProtoError IoError HttpError _ _ v3_compression _).
Abbreviation open := (forall s p, refuses s p = None).

(** What a side buffers: the counter is exact, and the limits hold up to the metric that starts the
    buffer. *)
Definition side_ok (mode : MetricsEncoderMode) (s : side) : Prop :=
  match sd_metrics s with
  | None => mode = V2Only
  | Some ms => mode = V3Enabled /\ sd_points s = sumZ metric_points ms /\
      (lenZ ms <= 1 \/ lenZ ms < max_metrics_per_payload limits /\ sd_points s < max_points_per_payload limits)
  end.

Definition events_in (ps : list HttpPayload) : Z := sumZ (fun p => event_count (metadata p)) ps.

Lemma events_in_app ps qs : events_in (ps ++ qs) = events_in ps + events_in qs.
Proof. apply sumZ_app. Qed.

Lemma payloads_events uri groups ps :
  Forall2 (@payload_of ProtoError IoError HttpError _ _ SKETCH_CONFIG _ _ v3_compression _ compression_scheme limits uri additional_tags) groups ps -> events_in ps = lenZ (mjoin groups).
Proof.
  induction 1 as [|g p groups ps (enc & req & _ & _ & _ & ->) Hps IH]; [done|]. rewrite mjoin_cons, length_app. unfold events_in in *. rewrite sumZ_cons, IH. cbn. lia.
Qed.

(** Flushing the buffer of a side empties it, and every metric is sent or dropped. *)
Lemma flush_side_spec uri s o ms : sd_metrics s = Some ms ->
  exists r s' o' ps, flush_side uri s o = Some (r, s', o') /\ sd_metrics s' = Some [] /\ sd_points s' = sd_points s /\ sd_builder s' = sd_builder s /\
    out_sent o' = out_sent o ++ ps /\ (open -> r = Ok tt) /\
    (r = Ok tt -> works -> out_dropped o' + events_in ps = out_dropped o + lenZ ms).
Proof.
  intros Hm. unfold flush_v3_side. rewrite Hm. destruct ms as [|m ms].
  { exists (Ok tt), s, o, []. rewrite app_nil_r. cbn. split_and!; done || lia. }
  unfold encode_and_flush_v3_payload_requests.
  match goal with |- context [@flush_loop _ _ _ _ _ _ _ _ _ _ _ _ _ _ _ _ ?fuel ?target ?l ?st] =>
    destruct (@flush_loop_spec ProtoError IoError HttpError GenericError _ _ SKETCH_CONFIG _ _ v3_compression _ refuses compression_scheme limits uri additional_tags
      fuel target l st (Nat.le_refl _)) as (r & st' & groups & -> & [(ps & Hs & Hps) _ _ Hac Hop])
  end.
  cbn [mbind option_bind]. eexists _, _, _, ps. split; [reflexivity|]. split_and!; [done|done|done|exact Hs|exact Hop|].
  intros Hr Hw. rewrite (payloads_events _ _ _ Hps). specialize (Hac Hr Hw). cbn in Hac |- *. lia.
Qed.

(** The copy of a metric stays in the buffer, whatever the request builder makes of the metric. *)
Lemma encode_side_buffer enc mode m s o r s' o' : encode_side enc mode m s o = Some (r, s', o') -> sd_metrics s' = sd_metrics s /\ sd_points s' = sd_points s.
Proof.
  unfold encode_v2_side. destruct (sd_builder s) as [rb|]; [|by intros [= <- <- <-]]. destruct (encode_v2_metrics _ _ _ _) as [[q [[rb' sent] dropped]]|]; [|done].
  cbn [mbind option_bind]. destruct q as [res|e]; [|by intros [= <- <- <-]]. destruct mode; cbn [needs_v3 negb andb]; [|rewrite andb_false_r]; by intros [= <- <- <-].
Qed.

Lemma vec_pop_snoc {A} (l : list A) x : vec_pop (l ++ [x]) = (Some x, l).
Proof. unfold vec_pop. rewrite last_snoc, length_app. cbn. by rewrite Nat.add_sub, take_app_length. Qed.

Lemma sum_points_snoc ms m : sumZ metric_points (ms ++ [m]) = sumZ metric_points ms + metric_points m.
Proof. rewrite sumZ_app, sumZ_cons. cbn. lia. Qed.

Lemma sum_points_nonneg ms : 0 <= sumZ metric_points ms.
Proof. apply sumZ_nonneg. intros m _. apply metric_points_nonneg. Qed.

(** A full buffer is flushed, but for the metric that did not fit it. *)
Lemma flush_full_spec uri m s o ms : sd_metrics s = Some (ms ++ [m]) -> sd_points s = sumZ metric_points (ms ++ [m]) ->
  exists r s' o' ps ms', flush_full V3Enabled uri m s o = Some (r, s', o') /\ sd_builder s' = sd_builder s /\ out_sent o' = out_sent o ++ ps /\
    (r = Ok tt -> side_ok V3Enabled s' /\ sd_metrics s' = Some ms') /\ (open -> r = Ok tt) /\
    (r = Ok tt -> works -> out_dropped o' + events_in ps + lenZ ms' = out_dropped o + lenZ (ms ++ [m])).
Proof.
  intros Hm Hp. unfold flush_full_buffer. rewrite Hm. unfold v3_flush_decision.
  destruct (point_count_fits limits (metric_points m) && point_count_exceeds_limit limits (sd_points s) && (1 <? lenZ (ms ++ [m]))) eqn:Esplit.
  - rewrite vec_pop_snoc. set (s1 := set_buffer ms _ s). set (o1 := out_record _ o).
    destruct (flush_side_spec uri s1 o1 ms eq_refl) as (r & s2 & o2 & ps & -> & Hm2 & Hp2 & Hb2 & Hs2 & Hop & Hac). cbn [mbind option_bind].
    destruct r as [[]|e].
    + exists (Ok tt). eexists _, _, ps, [m]. split; [reflexivity|]. cbn [buffer_metric set_points sd_metrics]. unfold buffer_metric. cbn [sd_metrics set_points]. rewrite Hm2.
      split_and!; [done|exact Hs2| |done|].
      * intros _. split; [|done]. unfold side_ok. cbn. split; [done|]. split; [lia|left; lia].
      * intros _ Hw. specialize (Hac eq_refl Hw). rewrite length_app. cbn in Hac |- *. lia.
    + exists (Err e). eexists _, _, ps, []. split; [reflexivity|]. split_and!; [done|exact Hs2|done|intros Ho; by specialize (Hop Ho)|done].
  - destruct (should_flush_point_count_limit limits (sd_points s) || should_flush_metric_count_limit limits (ms ++ [m])) eqn:Efl.
    + destruct (flush_side_spec uri s o _ Hm) as (r & s2 & o2 & ps & -> & Hm2 & Hp2 & Hb2 & Hs2 & Hop & Hac). cbn [mbind option_bind]. destruct r as [[]|e].
      * exists (Ok tt). eexists _, _, ps, []. split; [reflexivity|]. split_and!; [done|exact Hs2| |done|].
        -- intros _. cbn. rewrite Hm2. split; [|done]. unfold side_ok. cbn. rewrite Hm2. split; [done|]. split; [done|left; cbn; lia].
        -- intros _ Hw. specialize (Hac eq_refl Hw). cbn in Hac |- *. lia.
      * exists (Err e). eexists _, _, ps, []. split; [reflexivity|]. split_and!; [done|exact Hs2|done|intros Ho; by specialize (Hop Ho)|done].
    + cbn [mbind option_bind]. exists (Ok tt), s, o, [], (ms ++ [m]). rewrite app_nil_r. split_and!; [done|done|done| |done|cbn; lia].
      intros _. split; [|done]. unfold side_ok. rewrite Hm. split; [done|]. split; [done|right].
      unfold should_flush_point_count_limit, should_flush_metric_count_limit, metric_count_reached in Efl. lia.
Qed.

Abbreviation timeout := (@timeout_side EncodeError ProtoError IoError HttpError GenericError _ _ SKETCH_CONFIG _ _ _ v2_compression v3_compression error_context refuses compression_scheme limits additional_tags).

Lemma on_side_ok enc mode uri m s o s' o' : side_ok mode s -> on_side enc mode uri m s o = Some (Ok tt, s', o') -> side_ok mode s'.
Proof.
  intros Hs. unfold handle_side.
  destruct (encode_side enc mode m (if needs_v3 mode then buffer_metric m s else s) o) as [[[r s1] o1]|] eqn:E; [|done]. cbn [mbind option_bind].
  destruct r as [[]|e]; [|done]. destruct (encode_side_buffer _ _ _ _ _ _ _ _ E) as [Hm Hp]. unfold side_ok in Hs. destruct (sd_metrics s) as [ms|] eqn:Ems.
  - destruct Hs as (-> & Hpts & _). cbn [needs_v3] in Hm, Hp. unfold buffer_metric in Hm, Hp. rewrite Ems in Hm, Hp. cbn in Hm, Hp.
    destruct (flush_full_spec uri m s1 o1 ms Hm) as (r & s2 & o2 & ps & ms' & -> & _ & _ & Hok & _); [rewrite Hp, sum_points_snoc; lia|].
    intros [= -> -> ->]. by apply Hok.
  - subst mode. cbn [needs_v3] in Hm. rewrite Ems in Hm. unfold flush_full_buffer. rewrite Hm. intros [= <- <-]. unfold side_ok. by rewrite Hm.
Qed.

Lemma timeout_ok enc mode uri s o s' o' : side_ok mode s -> timeout enc mode uri s o = Some (s', o') ->
  side_ok mode s' /\ (sd_metrics s' = None \/ sd_metrics s' = Some []).
Proof.
  intros Hs. unfold timeout_side.
  assert (Hrest : forall b s1 o1, sd_metrics s1 = sd_metrics s ->
    match sd_metrics s1 with
    | None => Some (s1, o1)
    | Some _ => if b || needs_v3 mode then '(_, s, o) ← flush_side uri s1 o1; Some (set_points 0 s, o) else Some (set_buffer [] 0 s1, o1)
    end = Some (s', o') -> side_ok mode s' /\ (sd_metrics s' = None \/ sd_metrics s' = Some [])).
  { intros b s1 o1 Hm. rewrite Hm. unfold side_ok in Hs. destruct (sd_metrics s) as [ms|].
    - destruct Hs as (-> & _). cbn [needs_v3]. rewrite orb_true_r. destruct (flush_side_spec uri s1 o1 ms Hm) as (r & s2 & o2 & ps & -> & Hm2 & _).
      cbn [mbind option_bind]. intros [= <- <-]. unfold side_ok. cbn. rewrite Hm2. split; [|by right]. split; [done|]. split; [done|left; cbn; lia].
    - subst mode. intros [= <- <-]. unfold side_ok. rewrite Hm. split; [done|by left]. }
  destruct (sd_builder s) as [rb|]; [|by apply (Hrest true)]. destruct (flush_v2_metrics _ _ _) as [r [rb' sent]]. by apply Hrest.
Qed.

Abbreviation task := (@MetricsTask IoError v2_compression).
Abbreviation on_wakeup := (@handle_task_wakeup EncodeError ProtoError IoError HttpError GenericError _ _ SKETCH_CONFIG _ _ _ v2_compression v3_compression series_encoder sketch_encoder
  error_context refuses compression_scheme limits series_endpoint_uri sketches_endpoint_uri additional_tags series_mode sketches_mode).
Abbreviation on_metric := (@handle_metric EncodeError ProtoError IoError HttpError GenericError _ _ SKETCH_CONFIG _ _ _ v2_compression v3_compression series_encoder sketch_encoder
  error_context refuses compression_scheme limits series_endpoint_uri sketches_endpoint_uri additional_tags series_mode sketches_mode).
Abbreviation on_events := (@handle_events EncodeError ProtoError IoError HttpError GenericError _ _ SKETCH_CONFIG _ _ _ v2_compression v3_compression series_encoder sketch_encoder
  error_context refuses compression_scheme limits series_endpoint_uri sketches_endpoint_uri additional_tags series_mode sketches_mode).
Abbreviation run_task := (@run_request_builder EncodeError ProtoError IoError HttpError GenericError _ _ SKETCH_CONFIG _ _ _ v2_compression v3_compression series_encoder sketch_encoder
  error_context refuses compression_scheme limits series_endpoint_uri sketches_endpoint_uri additional_tags series_mode sketches_mode).

(** The wakeups of a task that has not ended. *)
Fixpoint run_wakeups (ws : list task_wakeup) (t : task) : option (result GenericError unit * task) :=
  match ws with
  | [] => Some (Ok tt, t)
  | w :: ws => '(r, t) ← on_wakeup w t; match r with Err e => Some (Err e, t) | Ok _ => run_wakeups ws t end
  end.

Definition task_ok (t : task) : Prop := side_ok series_mode (tk_series t) /\ side_ok sketches_mode (tk_sketches t).

Lemma on_metric_ok m t t' : task_ok t -> on_metric m t = Some (Ok tt, t') -> task_ok t'.
Proof.
  intros [H3' H4]. unfold handle_metric. destruct (negb (has_emittable_point m)); [by intros [= <-]|].
  destruct (MetricsEndpoint_from_metric m);
    match goal with |- context [on_side ?a ?b ?c ?d ?e ?f] => destruct (on_side a b c d e f) as [[[r s] o]|] eqn:E; [|done];
      cbn [mbind option_bind]; intros [= -> <-]; split; cbn; try done; by apply (on_side_ok a b c d e f s o) end.
Qed.

Lemma on_events_ok evs t t' : task_ok t -> on_events evs t = Some (Ok tt, t') -> task_ok t'.
Proof.
  revert t. induction evs as [|[m|] evs IH]; intros t Ht; cbn [handle_events]; [by intros [= <-]| |by apply IH].
  destruct (on_metric m t) as [[[[]|e] t1]|] eqn:E; cbn [mbind option_bind]; [|done|done]. apply IH. by eapply on_metric_ok.
Qed.

Lemma on_wakeup_ok w t t' : task_ok t -> on_wakeup w t = Some (Ok tt, t') -> task_ok t'.
Proof.
  intros Ht. destruct w as [evs|]; cbn [handle_task_wakeup].
  - destruct (on_events evs t) as [[[[]|e] t1]|] eqn:E; cbn [mbind option_bind]; [|done|done]. intros [= <-]. by apply (on_events_ok evs t t1 Ht E).
  - destruct (tk_pending_flush t); [|by intros [= <-]]. destruct Ht as [H3' H4].
    destruct (timeout series_encoder _ _ _ _) as [[s o]|] eqn:E1; [|done]. cbn [mbind option_bind].
    destruct (timeout sketch_encoder _ _ _ _) as [[k o2]|] eqn:E2; [|done]. cbn [mbind option_bind]. intros [= <-].
    split; cbn; [by apply (timeout_ok _ _ _ _ _ _ _ H3' E1)|by apply (timeout_ok _ _ _ _ _ _ _ H4 E2)].
Qed.

Lemma task_start_ok sb kb : task_ok (task_start series_mode sketches_mode sb kb).
Proof. split; unfold side_ok; cbn; [destruct series_mode|destruct sketches_mode]; cbn; split_and?; (done || left; lia). Qed.

(** Whatever events, timeouts and outcomes of the request builders a running metrics encoder has
    seen, the buffer of each side exists exactly when its mode asks for columnar payloads, its counter
    of points is the number of points in the buffer, and unless it holds a single metric it is below the
    limits on metrics and on points. *)
Theorem columnar_buffers_bounded sb kb ws t' :
  run_wakeups ws (task_start series_mode sketches_mode sb kb) = Some (Ok tt, t') ->
  side_ok series_mode (tk_series t') /\ side_ok sketches_mode (tk_sketches t').
Proof.
  pose proof (task_start_ok sb kb) as Ht. revert Ht. generalize (task_start series_mode sketches_mode sb kb) as t.
  induction ws as [|w ws IH]; intros t Ht; cbn [run_wakeups]; [by intros [= <-]|].
  destruct (on_wakeup w t) as [[[[]|e] t1]|] eqn:E; cbn [mbind option_bind]; [|done|done]. apply IH. by eapply on_wakeup_ok.
Qed.

(** ** A task without request builders *)

Definition buffered (s : side) : Z := match sd_metrics s with Some ms => lenZ ms | None => 0 end.
Definition columnar (s : side) : Prop := sd_builder s = None /\ exists ms, sd_metrics s = Some ms /\ sd_points s = sumZ metric_points ms.
Definition accounted (o : Outputs) : Z := out_dropped o + events_in (out_sent o).

Lemma on_side_accounts enc uri m s o : works -> open -> columnar s ->
  exists s' o', on_side enc V3Enabled uri m s o = Some (Ok tt, s', o') /\ columnar s' /\ accounted o' + buffered s' = accounted o + buffered s + 1.
Proof.
  intros Hw Hop (Hb & ms & Hm & Hp). unfold handle_side. cbn [needs_v3]. unfold buffer_metric. rewrite Hm. unfold encode_v2_side. cbn [sd_builder set_buffer]. rewrite Hb.
  cbn [mbind option_bind]. set (s1 := set_buffer (ms ++ [m]) (sd_points s + metric_points m) s).
  destruct (flush_full_spec uri m s1 o ms eq_refl) as (r & s2 & o2 & ps & ms' & E & Hb2 & Hs2 & Hok & Hr & Hac); [cbn; rewrite Hp, sum_points_snoc; lia|].
  specialize (Hr Hop). subst r. destruct (Hok eq_refl) as [Hside Hm']. specialize (Hac eq_refl Hw). exists s2, o2. split; [exact E|]. split.
  - split; [by rewrite Hb2|]. exists ms'. split; [done|]. unfold side_ok in Hside. rewrite Hm' in Hside. by destruct Hside as (_ & ? & _).
  - unfold accounted, buffered. rewrite Hm', Hm, Hs2, events_in_app. rewrite length_app in Hac. cbn [length] in Hac. lia.
Qed.

Lemma timeout_accounts enc uri s o : works -> open -> columnar s ->
  exists s' o', timeout enc V3Enabled uri s o = Some (s', o') /\ columnar s' /\ buffered s' = 0 /\ accounted o' = accounted o + buffered s.
Proof.
  intros Hw Hop (Hb & ms & Hm & Hp). unfold timeout_side. rewrite Hb, Hm. cbn [orb].
  destruct (flush_side_spec uri s o ms Hm) as (r & s2 & o2 & ps & -> & Hm2 & Hp2 & Hb2 & Hs2 & Hr & Hac). cbn [mbind option_bind]. specialize (Hac (Hr Hop) Hw).
  eexists _, _. split; [reflexivity|]. split; [split; [cbn; congruence|by exists []]|]. unfold buffered, accounted. cbn. rewrite Hm2, Hm, Hs2, events_in_app. split; [done|lia].
Qed.

Context (Hseries : series_mode = V3Enabled) (Hsketches : sketches_mode = V3Enabled) (Hworks : works) (Hopen : open).

Record running (t : task) (n : Z) : Prop := {
  rn_series : columnar (tk_series t);
  rn_sketches : columnar (tk_sketches t);
  rn_idle : tk_pending_flush t = false -> buffered (tk_series t) = 0 /\ buffered (tk_sketches t) = 0;
  rn_account : accounted (tk_out t) + buffered (tk_series t) + buffered (tk_sketches t) = n;
}.

Definition metric_events (evs : list (option AgentMetric)) : Z := lenZ (omap id evs).
Definition wakeup_events (w : task_wakeup) : Z := match w with TaskEvents evs => metric_events evs | TaskTimeout => 0 end.

(** The state between the events of a buffer. *)
Record mid (t : task) (n : Z) : Prop := {
  md_series : columnar (tk_series t);
  md_sketches : columnar (tk_sketches t);
  md_account : accounted (tk_out t) + buffered (tk_series t) + buffered (tk_sketches t) = n;
}.

Lemma on_metric_accounts m t n : mid t n -> exists t', on_metric m t = Some (Ok tt, t') /\ mid t' (n + 1).
Proof.
  intros [M1 M2 M3]. unfold handle_metric. destruct (negb (has_emittable_point m)).
  { eexists. split; [reflexivity|]. split; [done..|]. unfold accounted in *. cbn [tk_out tk_series tk_sketches out_drop out_dropped out_sent]. lia. }
  rewrite Hseries, Hsketches. destruct (MetricsEndpoint_from_metric m).
  - destruct (on_side_accounts series_encoder series_endpoint_uri m _ (tk_out t) Hworks Hopen M1) as (s' & o' & -> & Hc & Ha). eexists. split; [reflexivity|]. split; cbn; [done|done|lia].
  - destruct (on_side_accounts series_encoder series_endpoint_uri m _ (tk_out t) Hworks Hopen M1) as (s' & o' & -> & Hc & Ha). eexists. split; [reflexivity|]. split; cbn; [done|done|lia].
  - destruct (on_side_accounts sketch_encoder sketches_endpoint_uri m _ (tk_out t) Hworks Hopen M2) as (s' & o' & -> & Hc & Ha). eexists. split; [reflexivity|]. split; cbn; [done|done|lia].
Qed.

Lemma on_events_accounts evs t n : mid t n -> exists t', on_events evs t = Some (Ok tt, t') /\ mid t' (n + metric_events evs).
Proof.
  revert t n. induction evs as [|[m|] evs IH]; intros t n Ht; cbn [handle_events].
  - exists t. split; [done|]. unfold metric_events. cbn. by rewrite Z.add_0_r.
  - destruct (on_metric_accounts m t n Ht) as (t1 & -> & Ht1). cbn [mbind option_bind]. destruct (IH t1 _ Ht1) as (t' & E & Ht'). exists t'. split; [done|].
    unfold metric_events in *. cbn [omap list_omap id length]. replace (n + Z.of_nat (S (length (omap id evs)))) with (n + 1 + lenZ (omap id evs)) by lia. done.
  - destruct (IH t n Ht) as (t' & E & Ht'). by exists t'.
Qed.

Lemma on_timeout_accounts t n : running t n -> exists t', on_wakeup TaskTimeout t = Some (Ok tt, t') /\ running t' n /\ buffered (tk_series t') = 0 /\ buffered (tk_sketches t') = 0.
Proof.
  intros [R1 R2 R3 R4]. cbn [handle_task_wakeup]. destruct (tk_pending_flush t) eqn:Epend; [|exists t; split; [done|]; split; [constructor; [exact R1|exact R2|intros _; by apply R3|exact R4]|by apply R3]].
  rewrite Hseries, Hsketches.
  destruct (timeout_accounts series_encoder series_endpoint_uri _ (tk_out t) Hworks Hopen R1) as (s & o & -> & Hc & Hb & Ha). cbn [mbind option_bind].
  destruct (timeout_accounts sketch_encoder sketches_endpoint_uri _ o Hworks Hopen R2) as (k & o2 & -> & Hc2 & Hb2 & Ha2). cbn [mbind option_bind].
  eexists. split; [reflexivity|]. split; [split; cbn; [done|done|done|lia]|done].
Qed.

Lemma on_wakeup_accounts w t n : running t n -> exists t', on_wakeup w t = Some (Ok tt, t') /\ running t' (n + wakeup_events w).
Proof.
  intros Hr. destruct w as [evs|]; cbn [wakeup_events].
  - cbn [handle_task_wakeup]. destruct Hr as [R1 R2 R3 R4]. destruct (on_events_accounts evs t n ltac:(by split)) as (t' & -> & [M1 M2 M3]). cbn [mbind option_bind].
    eexists. split; [reflexivity|]. by split.
  - rewrite Z.add_0_r. destruct (on_timeout_accounts t n Hr) as (t' & E & Hr' & _). by exists t'.
Qed.

Lemma columnar_run_accounts ws t n : running t n -> exists t', run_task ws t = Some (Ok tt, t') /\ accounted (tk_out t') = n + sumZ wakeup_events ws /\
  buffered (tk_series t') = 0 /\ buffered (tk_sketches t') = 0.
Proof.
  revert t n. induction ws as [|w ws IH]; intros t n Hr; cbn [run_request_builder].
  - destruct (on_timeout_accounts t n Hr) as (t' & E & [_ _ _ Ha] & Hb & Hb2). exists t'. split; [exact E|]. cbn. split_and!; [lia|done|done].
  - destruct (on_wakeup_accounts w t n Hr) as (t1 & -> & Hr1). cbn [mbind option_bind]. destruct (IH t1 _ Hr1) as (t' & E & Ha & Hb & Hb2).
    exists t'. rewrite sumZ_cons. split_and!; [done|lia|done|done].
Qed.

(** C4: When both sides send columnar payloads and have no request builder, the channel of payloads
    stays open and the libraries do not fail, the task handles every sequence of buffers of events and
    elapsed timeouts without a panic and without an error, and when it ends its buffers are empty and
    the events counted in the payloads it sent and the events it counted as dropped add up to the
    metrics it was given. *)
Theorem columnar_task_loses_nothing ws :
  exists t', run_task ws (task_start series_mode sketches_mode None None) = Some (Ok tt, t') /\
    out_dropped (tk_out t') + events_in (out_sent (tk_out t')) = sumZ wakeup_events ws /\
    buffered (tk_series t') = 0 /\ buffered (tk_sketches t') = 0.
Proof.
  assert (Hstart : running (task_start series_mode sketches_mode None None) 0).
  { rewrite Hseries, Hsketches. split; [split; [done|by exists []]..|done|done]. }
  destruct (columnar_run_accounts ws _ _ Hstart) as (t' & E & Ha & Hb). exists t'. split; [exact E|]. split; [exact Ha|exact Hb].
Qed.
End task.

(** ** Runs *)

Module Tasks.
Import Flushes Samples.

Definition histogram (nm : string) (samples : list f64) : option AgentMetric :=
  c ← @Context_from_static_parts fnv (b nm) [b "env:prod"];
  Some (MkMetric c (HistogramV [TV (Some 1700000000) (foldl (fun h x => Histogram_insert x unsampled h) Histogram_default samples)]) {| origin := None; unit_ := "" |}).
Definition events : list (option AgentMetric) := None :: (Some <$> metrics) ++ (Some <$> omap id [histogram "latency" [f64_of_Z 1; f64_of_Z 4]]).
Definition wakeups : list task_wakeup := [TaskTimeout; TaskEvents events; TaskTimeout; TaskEvents events].

(** Builders of the older format: one byte for each letter of the name. *)
#[export] Instance names_encoder : EndpointEncoder AgentMetric unit := {|
  compressed_size_limit := 60; uncompressed_size_limit := 60; input_data_point_count := metric_points; is_valid_input _ := true;
  payload_prefix := None; payload_suffix := None; input_separator := None; encode_input m := if (4 <? blen (name (metric_context m)))%Z then Err tt else Ok (name (metric_context m));
  endpoint_uri := b "/v2"; endpoint_method := b "POST"; content_type := b "text/plain"; additional_headers := [];
|}.
Definition builder : option (@RequestBuilder AgentMetric unit plain) :=
  match @RequestBuilder_new AgentMetric unit unit unit names_encoder plain with Ok rb => Some rb | Err _ => None end.

Definition run_columnar (ws : list task_wakeup) :=
  @run_request_builder unit unit unit unit unit fnv libm config columns_inst header_inst accepting plain plain names_encoder names_encoder (fun _ => tt) (fun _ _ => None)
    Noop limits (b "/v3/series") (b "/v3/sketches") [] V3Enabled V3Enabled ws (task_start V3Enabled V3Enabled None None).
Definition run_both (ws : list task_wakeup) :=
  @run_wakeups unit unit unit unit unit fnv libm config columns_inst header_inst accepting plain plain names_encoder names_encoder (fun _ => tt) (fun _ _ => None)
    Noop limits (b "/v3/series") (b "/v3/sketches") [] V3Enabled V2Only ws (task_start V3Enabled V2Only builder builder).
End Tasks.

(** The name of the first metric is too long for the older format: it is counted as dropped, and sent. *)
Example dropped_and_sent :
  option_map (fun '(_, t) => (out_dropped (tk_out t), events_in (out_sent (tk_out t)))) (Tasks.run_both [TaskEvents (Some <$> take 1 Samples.metrics); TaskTimeout]) = Some (1, 1).
Proof. vm_compute. reflexivity. Qed.

Lemma columnar_buffers_bounded_witness :
  exists t', Tasks.run_both [TaskEvents Tasks.events] = Some (Ok tt, t') /\ @side_ok unit Flushes.plain Flushes.limits V3Enabled (tk_series t') /\ sd_points (tk_series t') = 2.
Proof.
  eexists. split; [vm_compute; reflexivity|]. split; [|vm_compute; reflexivity].
  refine (proj1 (@columnar_buffers_bounded unit unit unit unit unit fnv Samples.libm Samples.config Flushes.columns_inst Flushes.header_inst Flushes.accepting Flushes.plain Flushes.plain
    Tasks.names_encoder Tasks.names_encoder (fun _ => tt) (fun _ _ => None) Noop Flushes.limits (b "/v3/series") (b "/v3/sketches") [] V3Enabled V2Only
    Tasks.builder Tasks.builder [TaskEvents Tasks.events] _ _)).
  vm_compute. reflexivity.
Defined.

Lemma columnar_task_loses_nothing_witness :
  exists t', Tasks.run_columnar Tasks.wakeups = Some (Ok tt, t') /\ out_dropped (tk_out t') + events_in (out_sent (tk_out t')) = 14.
Proof.
  destruct (@columnar_task_loses_nothing unit unit unit unit unit fnv Samples.libm Samples.config Flushes.columns_inst Flushes.header_inst Flushes.accepting Flushes.plain Flushes.plain
    Tasks.names_encoder Tasks.names_encoder (fun _ => tt) (fun _ _ => None) Noop Flushes.limits (b "/v3/series") (b "/v3/sketches") [] V3Enabled V3Enabled
    eq_refl eq_refl) with (ws := Tasks.wakeups) as (t' & E & Ha & _).
  - split; [intros f []; by eexists|intros; by eexists..|done].
  - done.
  - exists t'. split; [exact E|]. rewrite Ha. vm_compute. reflexivity.
Defined.
