(* ===== verification/Subsystem.v ===== *)
(** * Subsystem: the names of subsystems

    Models [lib/saluki-core/src/support.rs] and the name sanitation of
    [lib/saluki-core/src/runtime/process.rs].  A name is its characters, as code points; which characters
    are alphanumeric is the standard library's Unicode table (the class [Unicode], of which only the ASCII
    part is fixed). *)

From Stdlib Require Import ZArith Lia.
From stdpp Require Import base tactics numbers option list gmap.
From S2P Require Import Prelude.
Open Scope Z_scope.

Definition ascii_alphanumeric (c : Z) : bool :=
  ((48 <=? c) && (c <=? 57)) || ((65 <=? c) && (c <=? 90)) || ((97 <=? c) && (c <=? 122)).

Class Unicode := {
  is_alphanumeric : Z -> bool;
  alphanumeric_ascii : forall c, 0 <= c < 128 -> is_alphanumeric c = ascii_alphanumeric c;
}.

Definition DOT : Z := 46.
Definition UNDERSCORE : Z := 95.

(** [str::split('.')] *)
Fixpoint split_dots (l : list Z) : list (list Z) :=
  match l with
  | [] => [[]]
  | c :: l' =>
      if c =? DOT then [] :: split_dots l'
      else match split_dots l' with
           | [] => [[c]] (* unreachable: there is at least one part *)
           | part :: parts => (c :: part) :: parts
           end
  end.

(** [SubsystemIdentifier]: the segments *)
Abbreviation SubsystemIdentifier := (list (list Z)).

Section names.
Context `{Unicode}.

(** ** Sanitation *)

Definition is_process_name_segment_valid (name : list Z) : bool :=
  match head name, list.last name with
  | Some x, Some y =>
      if negb (is_alphanumeric x) || negb (is_alphanumeric y) then false
      else forallb (fun c => is_alphanumeric c || (c =? UNDERSCORE)) name
  | _, _ => false
  end.

(** The loop that collapses runs of underscores; it starts as if it had just seen one. *)
Fixpoint collapse (l : list Z) (last_was_underscore : bool) : list Z :=
  match l with
  | [] => []
  | c :: l' =>
      if c =? UNDERSCORE then
        if last_was_underscore then collapse l' true else c :: collapse l' true
      else c :: collapse l' false
  end.

Fixpoint trim_start_matches (p : Z -> bool) (l : list Z) : list Z :=
  match l with
  | [] => []
  | c :: l' => if p c then trim_start_matches p l' else l
  end.

Definition trim_matches (p : Z -> bool) (l : list Z) : list Z :=
  rev (trim_start_matches p (rev (trim_start_matches p l))).

Definition get_sanitized_name (name : list Z) : list Z :=
  if is_process_name_segment_valid name then name
  else
    let raw_sanitized :=
      map (fun c => if is_alphanumeric c || (c =? UNDERSCORE) then c else UNDERSCORE) name in
    trim_matches (fun c => negb (is_alphanumeric c)) (collapse raw_sanitized true).

(** ** Identifiers *)

Definition is_empty_segment (s : list Z) : bool := bool_decide (s = []).

Definition from_segments (segments : list (list Z)) : SubsystemIdentifier :=
  List.filter (fun s => negb (is_empty_segment s)) (get_sanitized_name <$> segments).

Definition from_dotted (dotted : list Z) : SubsystemIdentifier := from_segments (split_dots dotted).

Definition child (id : SubsystemIdentifier) (segment : list Z) : SubsystemIdentifier :=
  let segment := get_sanitized_name segment in
  if is_empty_segment segment then id else id ++ [segment].

Definition is_ancestor_of (self other : SubsystemIdentifier) : bool :=
  (length self <? length other)%nat && bool_decide (take (length self) other = self).

(** [Display] *)
Fixpoint to_string (id : SubsystemIdentifier) : list Z :=
  match id with
  | [] => []
  | [segment] => segment
  | segment :: id' => segment ++ DOT :: to_string id'
  end.

(** ** Properties *)

(** An identifier whose segments are all valid. *)
Definition valid_identifier (id : SubsystemIdentifier) : Prop :=
  Forall (fun s => is_process_name_segment_valid s = true) id.

Lemma valid_segment_spec s : is_process_name_segment_valid s = true <->
  (exists x y, head s = Some x /\ last s = Some y /\ is_alphanumeric x = true /\ is_alphanumeric y = true) /\
  Forall (fun c => is_alphanumeric c = true \/ c = UNDERSCORE) s.
Proof.
  unfold is_process_name_segment_valid. destruct (head s) as [x|], (last s) as [y|].
  2-4: split; [done|intros [(? & ? & ? & ? & _) _]; done].
  destruct (is_alphanumeric x) eqn:Ex; simpl; [|split; [done|intros [(? & ? & [= <-] & _ & E & _) _]; congruence]].
  destruct (is_alphanumeric y) eqn:Ey; simpl; [|split; [done|intros [(? & ? & _ & [= <-] & _ & E) _]; congruence]].
  rewrite forallb_forall. split.
  - intros Hf. split; [by eexists _, _|]. apply Forall_forall. intros c Hc. apply list_elem_of_In in Hc.
    apply Hf in Hc. apply orb_true_iff in Hc as [Hc|Hc]; [by left|right; by apply Z.eqb_eq].
  - intros [_ Hf] c Hc. apply list_elem_of_In in Hc. rewrite Forall_forall in Hf.
    destruct (Hf c Hc) as [->| ->]; [done|]. by rewrite Z.eqb_refl, orb_true_r.
Qed.

Lemma process_segment_no_dot s : is_process_name_segment_valid s = true -> DOT ∉ s.
Proof.
  intros [_ Hf]%valid_segment_spec Hin. rewrite Forall_forall in Hf. destruct (Hf _ Hin) as [E|E]; [|done].
  rewrite alphanumeric_ascii in E by (unfold DOT; lia). done.
Qed.

Lemma collapse_chars l b : Forall (fun c => is_alphanumeric c = true \/ c = UNDERSCORE) l ->
  Forall (fun c => is_alphanumeric c = true \/ c = UNDERSCORE) (collapse l b).
Proof.
  revert b. induction l as [|c l IH]; intros b Hl; simpl; [done|]. inversion_clear Hl.
  destruct (c =? UNDERSCORE); [destruct b|]; try constructor; auto.
Qed.

Lemma trim_start_spec p l : exists l1, l = l1 ++ trim_start_matches p l /\
  forall x, head (trim_start_matches p l) = Some x -> p x = false.
Proof.
  induction l as [|c l IH]; simpl; [by exists []|]. destruct (p c) eqn:Ec.
  - destruct IH as (l1 & E & Hh). exists (c :: l1). by rewrite E at 1.
  - exists []. split; [done|]. by intros x [= <-].
Qed.

Lemma head_rev {A} (l : list A) : head (rev l) = last l.
Proof. destruct l as [|x l _] using rev_ind; [done|]. by rewrite rev_unit, last_snoc. Qed.

Lemma last_app_suffix {A} (l1 l2 : list A) x : last l2 = Some x -> last (l1 ++ l2) = Some x.
Proof. intros E. by rewrite last_app, E. Qed.

(** A sanitized name is a valid segment, unless nothing is left of it; valid names stay as they are. *)
Lemma sanitized_valid s :
  get_sanitized_name s = [] \/ is_process_name_segment_valid (get_sanitized_name s) = true.
Proof.
  unfold get_sanitized_name. destruct (is_process_name_segment_valid s) eqn:Ev; [by right|].
  set (raw := map _ s). set (t := trim_matches _ _).
  assert (Hraw : Forall (fun c => is_alphanumeric c = true \/ c = UNDERSCORE) raw).
  { apply Forall_forall. intros c Hc. apply list_elem_of_In, in_map_iff in Hc as (d & <- & _).
    destruct (is_alphanumeric d) eqn:Ed; simpl; [by left|]. destruct (d =? UNDERSCORE) eqn:Eu; [|by right].
    right. by apply Z.eqb_eq. }
  apply (collapse_chars _ true) in Hraw. unfold t, trim_matches in *. clear t Ev.
  set (l := collapse raw true) in *. set (p := fun c => negb (is_alphanumeric c)).
  destruct (trim_start_spec p l) as (l1 & E1 & H1). set (m := trim_start_matches p l) in *.
  destruct (trim_start_spec p (rev m)) as (l2 & E2 & H2). set (r := trim_start_matches p (rev m)) in *.
  assert (Em : m = rev r ++ rev l2) by (rewrite <- rev_app_distr, <- E2; by rewrite rev_involutive).
  destruct (rev r) as [|x r'] eqn:Er; [by left|]. right. apply valid_segment_spec. split.
  - destruct (last_is_Some (x :: r')) as [_ Hl]. destruct Hl as [y Hy]; [done|].
    exists x, y. split; [done|]. split; [done|]. split.
    + apply negb_false_iff. apply H1. by rewrite Em.
    + apply negb_false_iff. apply H2. rewrite <- (rev_involutive r), Er. by rewrite head_rev.
  - rewrite E1, Em in Hraw. by apply Forall_app in Hraw as [_ [? _]%Forall_app].
Qed.

Lemma sanitized_id s : is_process_name_segment_valid s = true -> get_sanitized_name s = s.
Proof. intros Hs. unfold get_sanitized_name. by rewrite Hs. Qed.

Lemma process_segment_nonempty s : is_process_name_segment_valid s = true -> s <> [].
Proof. by intros Hs ->. Qed.

Lemma from_segments_valid segments : valid_identifier (from_segments segments).
Proof.
  apply Forall_forall. intros s Hs. unfold from_segments in Hs. apply list_elem_of_In, filter_In in Hs as [Hin Hne].
  apply list_elem_of_In, list_elem_of_fmap in Hin as (s0 & -> & _).
  destruct (sanitized_valid s0) as [E|]; [|done]. rewrite E in Hne. done.
Qed.

Lemma child_valid id s : valid_identifier id -> valid_identifier (child id s).
Proof.
  intros Hid. unfold child, is_empty_segment. case_bool_decide as E; [done|]. apply Forall_app.
  split; [done|]. apply Forall_singleton. by destruct (sanitized_valid s).
Qed.

Lemma from_segments_id id : valid_identifier id -> from_segments id = id.
Proof.
  induction 1 as [|s id Hs _ IH]; [done|]. unfold from_segments in *. simpl. rewrite (sanitized_id s Hs).
  destruct (is_empty_segment s) eqn:E; simpl; [|by f_equal].
  apply bool_decide_eq_true in E. by subst s.
Qed.

Lemma split_dots_app s l : DOT ∉ s -> split_dots (s ++ DOT :: l) = s :: split_dots l.
Proof.
  induction s as [|c s IH]; intros Hs; simpl; [done|]. rewrite not_elem_of_cons in Hs.
  rewrite (proj2 (Z.eqb_neq _ _)) by naive_solver. by rewrite IH by naive_solver.
Qed.

Lemma split_dots_whole s : DOT ∉ s -> split_dots s = [s].
Proof.
  induction s as [|c s IH]; intros Hs; simpl; [done|]. rewrite not_elem_of_cons in Hs.
  rewrite (proj2 (Z.eqb_neq _ _)) by naive_solver. by rewrite IH by naive_solver.
Qed.

Lemma split_to_string id : valid_identifier id -> id <> [] -> split_dots (to_string id) = id.
Proof.
  induction 1 as [|s id Hs Hid IH]; [done|]. intros _. pose proof (process_segment_no_dot s Hs) as Hd.
  destruct id as [|s' id']; [by apply split_dots_whole|].
  cbn [to_string]. rewrite split_dots_app by done. f_equal. by apply IH.
Qed.

Lemma dotted_roundtrip id : valid_identifier id -> from_dotted (to_string id) = id.
Proof.
  intros Hid. unfold from_dotted. destruct id as [|s id].
  - done.
  - rewrite split_to_string by done. by apply from_segments_id.
Qed.

Lemma ancestor_spec a b : is_ancestor_of a b = true <-> exists c, c <> [] /\ b = a ++ c.
Proof.
  unfold is_ancestor_of. rewrite andb_true_iff, Nat.ltb_lt, bool_decide_eq_true. split.
  - intros [Hl Ht]. exists (drop (length a) b). split.
    + intros E. apply (f_equal length) in E. rewrite length_drop in E. simpl in E. lia.
    + rewrite <- (take_drop (length a) b) at 1. by rewrite Ht.
  - intros (c & Hc & ->). rewrite length_app, take_app_length. split; [|done]. destruct c; [done|simpl; lia].
Qed.

(** However an identifier was made - from segments, from a dotted string, by adding children to
    another - its segments are valid process names, so its rendered form has no empty segment and reads
    back as the same identifier: two identifiers that are rendered alike are equal.  Being an ancestor is a
    strict order, which holds exactly when the rendered descendant continues that of its ancestor with a
    separator. *)
Theorem identifiers_are_canonical (segments : list (list Z)) (dotted extra : list Z) :
  let id := child (from_segments segments) extra in
  valid_identifier id /\ valid_identifier (from_dotted dotted) /\ from_dotted (to_string id) = id /\
  (forall other, valid_identifier other -> to_string other = to_string id -> other = id) /\
  is_ancestor_of id id = false /\
  (forall other, is_ancestor_of id other = true -> id <> [] ->
     exists rest, to_string other = to_string id ++ DOT :: rest).
Proof.
  intros id. assert (Hid : valid_identifier id) by apply child_valid, from_segments_valid.
  split; [done|]. split; [apply from_segments_valid|]. split; [by apply dotted_roundtrip|]. split.
  { intros other Ho E. rewrite <- (dotted_roundtrip other Ho), E. by apply dotted_roundtrip. }
  split.
  { apply not_true_iff_false. intros (c & Hc & E)%ancestor_spec. by rewrite <- (app_nil_r id) in E at 1; apply app_inv_head in E. }
  intros other (c & Hc & ->)%ancestor_spec Hne. exists (to_string c). clear Hid. generalize dependent id.
  intros id. induction id as [|s id IH]; [done|]. intros _. destruct id as [|s' id'].
  - simpl. by destruct c.
  - change (to_string ((s :: s' :: id') ++ c)) with (s ++ DOT :: to_string ((s' :: id') ++ c)).
    rewrite IH by done. cbn [to_string]. by rewrite <- app_assoc.
Qed.

End names.

(** ** Examples *)

Module Names.

#[export] Instance ascii_unicode : Unicode := {| is_alphanumeric := ascii_alphanumeric; alphanumeric_ascii := fun c _ => eq_refl |}.

(** [topology], [a b!!] and the dotted [.x..y_] *)
Definition topology : list Z := [116; 111; 112; 111; 108; 111; 103; 121].
Definition untidy : list Z := [97; 32; 98; 33; 33].
Definition dotted : list Z := [46; 120; 46; 46; 121; 95].

Example tidied : from_segments [topology; untidy; [33]] = [topology; [97; 95; 98]] /\ from_dotted dotted = [[120]; [121]].
Proof. done. Qed.

Lemma identifiers_are_canonical_witness :
  let id := child (from_segments [topology; untidy]) [120] in
  from_dotted (to_string id) = id /\ is_ancestor_of [topology] id = true /\
  exists rest, to_string id = topology ++ DOT :: rest.
Proof.
  intros id. destruct (identifiers_are_canonical [topology; untidy] dotted [120]) as (_ & _ & Hr & _).
  split; [exact Hr|]. split; [vm_compute; reflexivity|].
  destruct (identifiers_are_canonical [] dotted topology) as (_ & _ & _ & _ & _ & Ha).
  apply (Ha id); [vm_compute; reflexivity|discriminate].
Defined.

End Names.
