(* ===== verification/Accounting.v ===== *)
(** * Accounting: the memory that components declare

    Models [lib/saluki-core/src/accounting]: usage expressions and their totals ([mod.rs]), the registry of
    components as a tree of names ([registry.rs]), memory grants ([grant.rs]) and the check of the declared
    bounds against a grant ([verifier.rs]).  [usize] has 64 bits.  A hash map of subcomponents is an
    association list with one entry for each name, in the order of their creation; a builder is a function
    that is applied to the node it was made for.  The resource groups behind tokens belong to the allocator
    and are not modelled, and neither are the HTTP and JSON views. *)

From Stdlib Require Import ZArith Lia Strings.String Floats.SpecFloat.
From stdpp Require Import base tactics numbers option list gmap.
From S2P Require Import Prelude Float64 Subsystem.
Open Scope Z_scope.

(** ** Usage expressions *)

Inductive UsageExpr :=
| Config (name : string) (value : Z)
| StructSize (name : string) (value : Z)
| Constant (name : string) (value : Z)
| Product (values : list UsageExpr)
| Sum (values : list UsageExpr).

Definition usize_saturating_add (a b : Z) : Z := saturating_add 64 a b.
Definition usize_saturating_mul (a b : Z) : Z := Z.min (a * b) u64_max.

Fixpoint evaluate (e : UsageExpr) : Z :=
  match e with
  | Config _ value | StructSize _ value | Constant _ value => value
  | Product values => fold_left usize_saturating_mul (map evaluate values) 1
  | Sum values => fold_left usize_saturating_add (map evaluate values) 0
  end.

Definition product (s : string) (lhs rhs : UsageExpr) : UsageExpr := Product [lhs; rhs].
Definition sum (s : string) (lhs rhs : UsageExpr) : UsageExpr := Sum [lhs; rhs].

(** ** Bounds *)

Inductive ComponentBounds := Bounds {
  self_minimum_required_bytes : list UsageExpr;
  self_firm_limit_bytes : list UsageExpr;
  subcomponents : list (list Z * ComponentBounds);
}.

Fixpoint total_minimum_required_bytes (cb : ComponentBounds) : Z :=
  match cb with
  | Bounds minimum _ subs =>
      fold_left usize_saturating_add
        (map evaluate minimum ++ map (fun '(_, cb) => total_minimum_required_bytes cb) subs) 0
  end.

Fixpoint total_firm_limit_bytes (cb : ComponentBounds) : Z :=
  match cb with
  | Bounds minimum firm subs =>
      fold_left usize_saturating_add
        (map evaluate (minimum ++ firm) ++ map (fun '(_, cb) => total_firm_limit_bytes cb) subs) 0
  end.

(** ** Grants *)

Inductive GrantError := InvalidSlopFactor | InitialLimitTooHigh.

Definition MAX_GRANT_BYTES : Z := 2 ^ 53.

Record MemoryGrant := { initial_limit_bytes : Z; slop_factor : f64; effective_limit_bytes : Z }.

Definition with_slop_factor (initial_limit_bytes : Z) (slop_factor : f64) : result GrantError MemoryGrant :=
  if negb (f64_leb f64_zero slop_factor && f64_ltb slop_factor f64_one) then Err InvalidSlopFactor
  else if MAX_GRANT_BYTES <? initial_limit_bytes then Err InitialLimitTooHigh
  else Ok {| initial_limit_bytes := initial_limit_bytes; slop_factor := slop_factor;
             effective_limit_bytes :=
               f64_to_u 64 (f64_mul (f64_of_Z initial_limit_bytes) (f64_sub f64_one slop_factor)) |}.

Definition effective (effective_limit_bytes : Z) : result GrantError MemoryGrant :=
  with_slop_factor effective_limit_bytes f64_zero.

(** ** Verification *)

Inductive VerifierError :=
| InvalidComponentBounds (component_name reason : string)
| InsufficientMinimumMemory (available_bytes minimum_required_bytes : Z)
| FirmLimitExceedsAvailable (available_bytes firm_limit_bytes : Z).

Record VerifiedBounds := { verified_grant : MemoryGrant; verified_bounds : ComponentBounds }.

Definition verify (grant : MemoryGrant) (component_bounds : ComponentBounds) : result VerifierError VerifiedBounds :=
  let available_bytes := effective_limit_bytes grant in
  let total_minimum_required_bytes := total_minimum_required_bytes component_bounds in
  let total_firm_limit_bytes := total_firm_limit_bytes component_bounds in
  if available_bytes <? total_minimum_required_bytes then
    Err (InsufficientMinimumMemory available_bytes total_minimum_required_bytes)
  else if available_bytes <? total_firm_limit_bytes then
    Err (FirmLimitExceedsAvailable available_bytes total_firm_limit_bytes)
  else Ok {| verified_grant := grant; verified_bounds := component_bounds |}.

(** ** The registry *)

Inductive ComponentMetadata := Metadata {
  full_name : option (list Z);
  minimum_exprs : list UsageExpr;
  firm_exprs : list UsageExpr;
  children : list (list Z * ComponentMetadata);
}.

Definition from_full_name (full_name : option (list Z)) : ComponentMetadata := Metadata full_name [] [] [].

Definition child_name (parent : option (list Z)) (name : list Z) : list Z :=
  match parent with Some p => p ++ DOT :: name | None => name end.

(** [get_or_create] walks down the name, from level to level, and creates what is missing; [f] is what is
    then done to the node.  The levels are the parts between the dots: taking the name apart with
    [split_once] again and again is splitting it ([split_once_split]). *)
Fixpoint update_child (f : ComponentMetadata -> ComponentMetadata) (parent : option (list Z)) (name : list Z)
    (l : list (list Z * ComponentMetadata)) : list (list Z * ComponentMetadata) :=
  match l with
  | [] => [(name, f (from_full_name (Some (child_name parent name))))]
  | (n, m) :: l' => if bool_decide (n = name) then (n, f m) :: l' else (n, m) :: update_child f parent name l'
  end.

Fixpoint get_or_create (levels : list (list Z)) (f : ComponentMetadata -> ComponentMetadata) (m : ComponentMetadata)
    : ComponentMetadata :=
  match levels with
  | [] => f m
  | current_level_name :: remaining =>
      Metadata (full_name m) (minimum_exprs m) (firm_exprs m)
        (update_child (get_or_create remaining f) (full_name m) current_level_name (children m))
  end.

Definition reset (m : ComponentMetadata) : ComponentMetadata := Metadata (full_name m) [] [] [].

Definition add_minimum (e : UsageExpr) (m : ComponentMetadata) : ComponentMetadata :=
  Metadata (full_name m) (minimum_exprs m ++ [e]) (firm_exprs m) (children m).

Definition add_firm (e : UsageExpr) (m : ComponentMetadata) : ComponentMetadata :=
  Metadata (full_name m) (minimum_exprs m) (firm_exprs m ++ [e]) (children m).

(** [with_array], [with_map] of the builder, given the sizes of the types *)
Definition array_expr (name : string) (size len : Z) : UsageExpr :=
  product "array" (StructSize name size) (Constant "len" len).

Definition map_expr (name : string) (key_size value_size len : Z) : UsageExpr :=
  product "map" (sum name (StructSize "key" key_size) (StructSize "value" value_size)) (Constant "len" len).

Fixpoint as_bounds (m : ComponentMetadata) : ComponentBounds :=
  match m with
  | Metadata _ minimum firm subs => Bounds minimum firm (map (fun '(name, sub) => (name, as_bounds sub)) subs)
  end.

(** [ComponentRegistry::bounds_builder]: applies [f] to the node of [id]. *)
Definition bounds_builder (id : SubsystemIdentifier) (f : ComponentMetadata -> ComponentMetadata)
    (root : ComponentMetadata) : ComponentMetadata :=
  get_or_create (split_dots (to_string id)) f root.

(** [MemoryBoundsBuilder::subcomponent] *)
Definition subcomponent `{Unicode} (name : list Z) (f : ComponentMetadata -> ComponentMetadata)
    (m : ComponentMetadata) : ComponentMetadata :=
  get_or_create (split_dots (to_string (from_dotted name))) f m.

Definition with_subcomponent `{Unicode} (name : list Z) (specify_bounds : ComponentMetadata -> ComponentMetadata)
    (m : ComponentMetadata) : ComponentMetadata := subcomponent name specify_bounds m.

Definition verify_bounds (root : ComponentMetadata) (initial_grant : MemoryGrant) : result VerifierError VerifiedBounds :=
  verify initial_grant (as_bounds root).

(** ** Exact sizes *)

(** An induction principle that reaches into the lists of expressions. *)
Section expr_ind.
Context (P : UsageExpr -> Prop)
  (Hconfig : forall n v, P (Config n v)) (Hsize : forall n v, P (StructSize n v)) (Hconst : forall n v, P (Constant n v))
  (Hproduct : forall l, Forall P l -> P (Product l)) (Hsum : forall l, Forall P l -> P (Sum l)).

Fixpoint expr_nested_ind (e : UsageExpr) : P e :=
  let fix all (l : list UsageExpr) : Forall P l :=
    match l with [] => Forall_nil_2 P | e :: l' => Forall_cons_2 P e l' (expr_nested_ind e) (all l') end in
  match e with
  | Config n v => Hconfig n v
  | StructSize n v => Hsize n v
  | Constant n v => Hconst n v
  | Product l => Hproduct l (all l)
  | Sum l => Hsum l (all l)
  end.
End expr_ind.

Section bounds_ind.
Context (P : ComponentBounds -> Prop)
  (Hbounds : forall mi fi l, Forall (fun p => P p.2) l -> P (Bounds mi fi l)).

Fixpoint bounds_nested_ind (cb : ComponentBounds) : P cb :=
  let fix all (l : list (list Z * ComponentBounds)) : Forall (fun p => P p.2) l :=
    match l with
    | [] => Forall_nil_2 _
    | p :: l' => Forall_cons_2 (fun p => P p.2) p l' (bounds_nested_ind p.2) (all l')
    end in
  match cb with Bounds mi fi l => Hbounds mi fi l (all l) end.
End bounds_ind.

(** The number of bytes an expression stands for, without a limit. *)
Fixpoint exact (e : UsageExpr) : Z :=
  match e with
  | Config _ value | StructSize _ value | Constant _ value => value
  | Product values => foldr Z.mul 1 (map exact values)
  | Sum values => foldr Z.add 0 (map exact values)
  end.

(** The leaves are values of [usize]. *)
Fixpoint leaves_ok (e : UsageExpr) : Prop :=
  match e with
  | Config _ value | StructSize _ value | Constant _ value => is_u64 value
  | Product values | Sum values => foldr and True (map leaves_ok values)
  end.

Definition capped (z : Z) : Z := Z.min z u64_max.

Lemma fold_add l acc : 0 <= acc -> Forall (Z.le 0) l ->
  fold_left usize_saturating_add (map capped l) (capped acc) = capped (acc + foldr Z.add 0 l).
Proof.
  revert acc. induction l as [|z l IH]; intros acc Ha Hl; simpl; [by rewrite Z.add_0_r|].
  inversion_clear Hl as [|? ? Hz Hl'].
  replace (usize_saturating_add (capped acc) (capped z)) with (capped (acc + z)).
  2:{ unfold usize_saturating_add, saturating_add, capped. assert (0 <= u64_max) by (unfold umax; lia). lia. }
  rewrite IH by (done || lia). f_equal. lia.
Qed.

Lemma capped_mul a b : 0 <= a -> 0 <= b -> usize_saturating_mul (capped a) (capped b) = capped (a * b).
Proof.
  intros Ha Hb. unfold usize_saturating_mul, capped. assert (HM : 1 <= u64_max) by (unfold umax; lia).
  set (M := u64_max) in *. clearbody M.
  destruct (Z.le_gt_cases a M) as [H1|H1], (Z.le_gt_cases b M) as [H2|H2];
    rewrite ?(Z.min_l a M), ?(Z.min_r a M), ?(Z.min_l b M), ?(Z.min_r b M) by lia; [done| | |].
  - destruct (Z.eq_dec a 0) as [->|?]; [done|]. rewrite !Z.min_r by nia. done.
  - destruct (Z.eq_dec b 0) as [->|?]; [by rewrite !Z.mul_0_r|]. rewrite !Z.min_r by nia. done.
  - rewrite !Z.min_r by nia. done.
Qed.

Lemma fold_mul l acc : 0 <= acc -> Forall (Z.le 0) l ->
  fold_left usize_saturating_mul (map capped l) (capped acc) = capped (acc * foldr Z.mul 1 l).
Proof.
  revert acc. induction l as [|z l IH]; intros acc Ha Hl; simpl; [by rewrite Z.mul_1_r|].
  inversion_clear Hl as [|? ? Hz Hl']. rewrite capped_mul, IH by (done || nia). f_equal. lia.
Qed.

Lemma leaves_ok_Forall l : foldr and True (map leaves_ok l) <-> Forall leaves_ok l.
Proof. induction l as [|e l IH]; simpl; [done|]. by rewrite IH, Forall_cons. Qed.

Lemma fold_nonneg_add l : Forall (Z.le 0) l -> 0 <= foldr Z.add 0 l.
Proof. induction 1; simpl; lia. Qed.

Lemma fold_nonneg_mul l : Forall (Z.le 0) l -> 0 <= foldr Z.mul 1 l.
Proof. induction 1; simpl; [lia|]. by apply Z.mul_nonneg_nonneg. Qed.

(** Saturating at every step is saturating once, at the end. *)
Lemma evaluate_exact e : leaves_ok e -> 0 <= exact e /\ evaluate e = capped (exact e).
Proof.
  assert (Hleaf : forall v, is_u64 v -> 0 <= v /\ v = capped v).
  { intros v Hv. unfold in_range in Hv. unfold capped. lia. }
  assert (Hlist : forall l, Forall (fun e => leaves_ok e -> 0 <= exact e /\ evaluate e = capped (exact e)) l ->
    Forall leaves_ok l -> Forall (Z.le 0) (map exact l) /\ map evaluate l = map capped (map exact l)).
  { induction 1 as [|e' l He _ IH]; intros Hl; simpl; [done|]. inversion_clear Hl as [|? ? Hok Hl'].
    destruct (He Hok) as [H1 ->]. destruct (IH Hl') as [H2 ->]. split; [by constructor|done]. }
  induction e as [n v|n v|n v|l IH|l IH] using expr_nested_ind; simpl; intros Hok; try by apply Hleaf.
  - apply leaves_ok_Forall in Hok. destruct (Hlist l IH Hok) as [Hn ->]. split; [by apply fold_nonneg_mul|].
    change 1 with (capped 1) at 1. rewrite fold_mul by (done || lia). by rewrite Z.mul_1_l.
  - apply leaves_ok_Forall in Hok. destruct (Hlist l IH Hok) as [Hn ->]. split; [by apply fold_nonneg_add|].
    change 0 with (capped 0) at 1. rewrite fold_add by (done || lia). done.
Qed.

(** The totals of a tree of components, without a limit: of the minimum, or with the firm limits. *)
Fixpoint exact_total (firm : bool) (cb : ComponentBounds) : Z :=
  match cb with
  | Bounds mi fi subs =>
      foldr Z.add 0 (map exact (mi ++ if firm then fi else []) ++ map (fun '(_, cb) => exact_total firm cb) subs)
  end.

Fixpoint bounds_leaves_ok (cb : ComponentBounds) : Prop :=
  match cb with
  | Bounds mi fi subs => Forall leaves_ok (mi ++ fi) /\ foldr and True (map (fun '(_, cb) => bounds_leaves_ok cb) subs)
  end.

Definition total (firm : bool) (cb : ComponentBounds) : Z :=
  if firm then total_firm_limit_bytes cb else total_minimum_required_bytes cb.

Lemma total_unfold firm mi fi subs : total firm (Bounds mi fi subs) =
  fold_left usize_saturating_add
    (map evaluate (mi ++ if firm then fi else []) ++ map (fun '(_, cb) => total firm cb) subs) 0.
Proof. destruct firm; simpl; [done|]. by rewrite app_nil_r. Qed.

Lemma total_exact firm cb : bounds_leaves_ok cb ->
  0 <= exact_total firm cb /\ total firm cb = capped (exact_total firm cb).
Proof.
  induction cb as [mi fi subs IH] using bounds_nested_ind. intros [Hself Hsubs]. rewrite total_unfold.
  assert (H1 : Forall (Z.le 0) (map exact (mi ++ if firm then fi else [])) /\
    map evaluate (mi ++ if firm then fi else []) = map capped (map exact (mi ++ if firm then fi else []))).
  { assert (Hok : Forall leaves_ok (mi ++ if firm then fi else [])).
    { apply Forall_app in Hself as [? ?]. apply Forall_app. by destruct firm. }
    induction Hok as [|e l He _ IHl]; simpl; [done|]. destruct (evaluate_exact e He) as [? ->].
    destruct IHl as [? ->]. split; [by constructor|done]. }
  assert (H2 : Forall (Z.le 0) (map (fun '(_, cb) => exact_total firm cb) subs) /\
    map (fun '(_, cb) => total firm cb) subs = map capped (map (fun '(_, cb) => exact_total firm cb) subs)).
  { clear H1. induction IH as [|[n cb] l Hcb _ IHl]; simpl in *; [done|]. destruct Hsubs as [Hok Hsubs].
    destruct (Hcb Hok) as [? ->]. destruct (IHl Hsubs) as [? ->]. split; [by constructor|done]. }
  destruct H1 as [Hn1 ->], H2 as [Hn2 ->]. rewrite <- map_app.
  change 0 with (capped 0) at 2. rewrite fold_add; [|lia|by apply Forall_app]. simpl exact_total.
  split; [|done]. by apply fold_nonneg_add, Forall_app.
Qed.

Lemma foldr_add_app l1 l2 : foldr Z.add 0 (l1 ++ l2) = foldr Z.add 0 l1 + foldr Z.add 0 l2.
Proof. induction l1 as [|z l1 IH]; simpl; [done|]. lia. Qed.

Lemma exact_nonneg l : Forall leaves_ok l -> 0 <= foldr Z.add 0 (map exact l).
Proof.
  induction 1 as [|e l He _ IH]; simpl; [done|]. destruct (evaluate_exact e He). lia.
Qed.

Lemma minimum_within_firm cb : bounds_leaves_ok cb -> exact_total false cb <= exact_total true cb.
Proof.
  induction cb as [mi fi subs IH] using bounds_nested_ind. intros [Hself Hsubs]. cbn [exact_total].
  rewrite !map_app, !foldr_add_app. apply Forall_app in Hself as [_ Hfi]. apply exact_nonneg in Hfi. simpl (map exact []).
  assert (Hle : foldr Z.add 0 (map (fun '(_, cb) => exact_total false cb) subs) <=
    foldr Z.add 0 (map (fun '(_, cb) => exact_total true cb) subs)).
  { clear Hfi. induction IH as [|[n cb] l Hcb _ IHl]; simpl in *; [done|]. destruct Hsubs as [Hok Hsubs].
    specialize (Hcb Hok). specialize (IHl Hsubs). lia. }
  simpl. lia.
Qed.

(** C26: Verification is exact although all arithmetic saturates: if sizes are [usize] values, the declared
    bounds are accepted for a grant exactly if the true total of the firm limits, minimums included, is
    within the grant.  An error tells whether already the true total of the minimums exceeds the grant.  No
    declared bound can wrap around and look small. *)
Theorem verification_is_exact (grant : MemoryGrant) (cb : ComponentBounds) :
  bounds_leaves_ok cb -> 0 <= effective_limit_bytes grant < u64_max ->
  match verify grant cb with
  | Ok v => exact_total true cb <= effective_limit_bytes grant /\ verified_grant v = grant /\ verified_bounds v = cb
  | Err (InsufficientMinimumMemory available minimum) =>
      available = effective_limit_bytes grant /\ available < exact_total false cb /\ minimum = capped (exact_total false cb)
  | Err (FirmLimitExceedsAvailable available firm) =>
      available = effective_limit_bytes grant /\ exact_total false cb <= available < exact_total true cb /\
      firm = capped (exact_total true cb)
  | Err (InvalidComponentBounds _ _) => False
  end.
Proof.
  intros Hok Ha. unfold verify. destruct (total_exact true cb Hok) as [H1 E1].
  destruct (total_exact false cb Hok) as [H2 E2]. unfold total in E1, E2. rewrite E1, E2.
  pose proof (minimum_within_firm cb Hok) as Hle. unfold capped.
  destruct (Z.ltb_spec (effective_limit_bytes grant) (Z.min (exact_total false cb) u64_max)); [lia|].
  destruct (Z.ltb_spec (effective_limit_bytes grant) (Z.min (exact_total true cb) u64_max)); [lia|].
  simpl. split; [lia|done].
Qed.

(** ** The tree of names *)

(** Taking a name apart at its first dot. *)
Fixpoint split_once_dot (l : list Z) : option (list Z * list Z) :=
  match l with
  | [] => None
  | c :: l' =>
      if c =? DOT then Some ([], l')
      else '(a, b) ← split_once_dot l'; Some (c :: a, b)
  end.

Lemma split_once_split l : split_dots l =
  match split_once_dot l with
  | Some (current_level_name, remaining_name) => current_level_name :: split_dots remaining_name
  | None => [l]
  end.
Proof.
  induction l as [|c l IH]; simpl; [done|]. destruct (c =? DOT); [done|]. rewrite IH.
  by destruct (split_once_dot l) as [[a b]|]; simpl.
Qed.

(** The node at the end of a path. *)
Fixpoint node_at (path : list (list Z)) (m : ComponentMetadata) : option ComponentMetadata :=
  match path with
  | [] => Some m
  | name :: path' =>
      sub ← (fun p => p.2) <$> find (fun '(n, _) => bool_decide (n = name)) (children m);
      node_at path' sub
  end.

Ltac decide_names :=
  repeat first [rewrite bool_decide_eq_true_2 by congruence | rewrite bool_decide_eq_false_2 by congruence]; cbn.

Abbreviation entry name l := ((fun p => p.2) <$> find (fun '(n, _) => bool_decide (n = name)) l).

Lemma find_update_child f parent name l name' :
  entry name' (update_child f parent name l) =
  if decide (name' = name) then Some (f (default (from_full_name (Some (child_name parent name))) (entry name l)))
  else entry name' l.
Proof.
  induction l as [|[n m] l IH]; cbn [update_child].
  - case_decide; cbn; by decide_names.
  - destruct (decide (n = name)) as [->|Hn].
    + decide_names. case_decide; by decide_names.
    + rewrite (bool_decide_eq_false_2 (n = name)) by done. cbn [find].
      destruct (decide (n = name')) as [->|Hn'].
      * decide_names. by rewrite decide_False.
      * decide_names. exact IH.
Qed.

(** The node that [get_or_create] works on is the one at the end of the path, or a new one. *)
Lemma node_at_get_or_create path f m :
  exists fn, node_at path (get_or_create path f m) = Some (f (default (from_full_name fn) (node_at path m))).
Proof.
  revert m. induction path as [|name path IH]; intros m; [by exists None|]. cbn [get_or_create node_at children].
  rewrite find_update_child, decide_True by done. cbn [mbind option_bind].
  destruct (entry name (children m)) as [sub|] eqn:E; cbn.
  - destruct (IH sub) as [fn ->]. by exists fn.
  - destruct (IH (from_full_name (Some (child_name (full_name m) name)))) as [fn ->].
    destruct path as [|name' path]; cbn; [by eexists|by exists fn].
Qed.

(** Other branches of the tree are left alone. *)
Lemma node_at_other path path' f m : ~ path `prefix_of` path' -> ~ path' `prefix_of` path ->
  node_at path' (get_or_create path f m) = node_at path' m.
Proof.
  revert path' m. induction path as [|name path IH]; intros path' m H1 H2; [by destruct H1; apply prefix_nil|].
  destruct path' as [|name' path']; [by destruct H2; apply prefix_nil|].
  cbn [get_or_create node_at children]. rewrite find_update_child. case_decide as E; [|done]. subst name'.
  cbn [mbind option_bind].
  assert (H1' : ~ path `prefix_of` path') by (intros ?; apply H1; by apply prefix_cons).
  assert (H2' : ~ path' `prefix_of` path) by (intros ?; apply H2; by apply prefix_cons).
  rewrite IH by done. destruct (entry name (children m)) as [sub|]; cbn; [done|].
  destruct path' as [|name' path']; [by destruct H2'; apply prefix_nil|done].
Qed.

(** Two identifiers of the same length are different branches. *)
Lemma prefix_same_length {A} (l l' : list A) : length l = length l' -> l `prefix_of` l' -> l = l'.
Proof. intros Hl [k ->]. rewrite length_app in Hl. destruct k; [by rewrite app_nil_r|simpl in Hl; lia]. Qed.

(** What a builder for [id] does is seen at [id] and nowhere else on its level. *)
Lemma bounds_builder_at `{Unicode} id f root : valid_identifier id -> id <> [] ->
  exists fn, node_at id (bounds_builder id f root) = Some (f (default (from_full_name fn) (node_at id root))).
Proof. intros Hv Hne. unfold bounds_builder. rewrite split_to_string by done. apply node_at_get_or_create. Qed.

Lemma bounds_builder_other `{Unicode} id id' f root : valid_identifier id -> id <> [] ->
  ~ id `prefix_of` id' -> ~ id' `prefix_of` id -> node_at id' (bounds_builder id f root) = node_at id' root.
Proof. intros Hv Hne H1 H2. unfold bounds_builder. rewrite split_to_string by done. by apply node_at_other. Qed.

(** ** Examples *)

Module Grants.

(** Two queues of a size that an operator chose, one of them far too large. *)
Definition queue (len : Z) : ComponentBounds :=
  Bounds [StructSize "worker" 512] [array_expr "events" 1024 len] [].

Definition two_queues (a b : Z) : ComponentBounds := Bounds [] [] [([97], queue a); ([98], queue b)].

Definition a_grant : MemoryGrant :=
  {| initial_limit_bytes := 16384; slop_factor := f64_zero; effective_limit_bytes := 16384 |}.

Lemma verification_is_exact_witness :
  match verify a_grant (two_queues 4 (2 ^ 60)) with
  | Err (FirmLimitExceedsAvailable available firm) => available = 16384 /\ firm = capped (exact_total true (two_queues 4 (2 ^ 60)))
  | _ => False
  end.
Proof.
  assert (Hok : bounds_leaves_ok (two_queues 4 (2 ^ 60))).
  { assert (Hq : forall len, is_u64 len -> bounds_leaves_ok (queue len)).
    { intros len Hl. split; [|done]. repeat apply Forall_cons_2; [split; discriminate| |apply Forall_nil_2].
      split; [split; discriminate|]. split; [exact Hl|done]. }
    split; [apply Forall_nil_2|]. split; [apply Hq; split; discriminate|]. split; [apply Hq; split; discriminate|done]. }
  assert (Ha : 0 <= effective_limit_bytes a_grant < u64_max) by (split; vm_compute; [discriminate|reflexivity]).
  pose proof (verification_is_exact a_grant (two_queues 4 (2 ^ 60)) Hok Ha) as Hv.
  assert (E : exists f, verify a_grant (two_queues 4 (2 ^ 60)) = Err (FirmLimitExceedsAvailable 16384 f))
    by (eexists; vm_compute; reflexivity).
  destruct E as [f E]. rewrite E in *. split; [reflexivity|exact (proj2 (proj2 Hv))].
Defined.

(** With arithmetic that wraps, the same bounds would come to five kilobytes. *)
Example wrapped_total : exact_total true (two_queues 4 (2 ^ 60)) mod 2 ^ 64 = 5120.
Proof. vm_compute. reflexivity. Qed.

(** A slop factor of one is refused and zero is accepted: the other way around than the documentation of
    the constructor has it. *)
Example slop_factor_range :
  with_slop_factor 1000 f64_one = Err InvalidSlopFactor /\
  (exists g, with_slop_factor 1000 f64_zero = Ok g /\ effective_limit_bytes g = 1000).
Proof. split; [vm_compute; reflexivity|]. eexists. split; vm_compute; reflexivity. Qed.

End Grants.
