(* ===== verification/EventBuffer.v ===== *)
(** * EventBuffer: the buffers that carry events between components

    Models [lib/saluki-core/src/topology/interconnect/event_buffer.rs], the event type of
    [lib/saluki-core/src/data_model/event/mod.rs] as far as the buffers look at it, and the trait
    [DispatchBuffer] of [dispatcher.rs] that the buffers implement.  The deque is a list; a panic is
    [None].  The bit mask of event types comes from the [bitmask_enum] crate and is the class
    [EventMask]; its documented behaviour is [EventMaskLaws]. *)

From Stdlib Require Import ZArith Lia.
From stdpp Require Import base tactics list numbers option gmap.
From S2P Require Import Prelude.
Open Scope nat_scope.

(** ** Events and their types *)

Inductive EventKind := KMetric | KEventD | KServiceCheck | KLog | KTrace | KTraceStats.

#[export] Instance EventKind_eq_dec : EqDecision EventKind.
Proof. solve_decision. Defined.

(** The masks of a set of event types; [mask_of] is the flag of one type. *)
Class EventMask (M : Type) := {
  mask_of : EventKind -> M;
  mask_none : M;
  mask_or : M -> M -> M;
  mask_contains : M -> M -> bool;
}.

Class EventMaskLaws (M : Type) `{EventMask M} := {
  none_contains : forall k, mask_contains mask_none (mask_of k) = false;
  or_contains : forall m k k',
    mask_contains (mask_or m (mask_of k)) (mask_of k') = mask_contains m (mask_of k') || bool_decide (k = k');
}.

(** The payloads of events are those of the codecs and encoders; a buffer only looks at their kind. *)
Inductive Event (A B C D E F : Type) :=
| EvMetric (metric : A)
| EvEventD (event : B)
| EvServiceCheck (check : C)
| EvLog (log : D)
| EvTrace (trace : E)
| EvTraceStats (stats : F).
Arguments EvMetric {A B C D E F}.
Arguments EvEventD {A B C D E F}.
Arguments EvServiceCheck {A B C D E F}.
Arguments EvLog {A B C D E F}.
Arguments EvTrace {A B C D E F}.
Arguments EvTraceStats {A B C D E F}.

Definition event_kind {A B C D E F} (e : Event A B C D E F) : EventKind :=
  match e with
  | EvMetric _ => KMetric
  | EvEventD _ => KEventD
  | EvServiceCheck _ => KServiceCheck
  | EvLog _ => KLog
  | EvTrace _ => KTrace
  | EvTraceStats _ => KTraceStats
  end.

(** ** The trait of the buffers that a dispatcher fills *)

Class DispatchBuffer (T Item : Type) := {
  item_count : T -> nat;
  buffer_default : T;
  buffer_len : T -> nat;
  buffer_is_full : T -> bool;
  buffer_try_push : Item -> T -> option Item * T;
}.

(** What a dispatcher relies on: a buffer is a list of items that grows at its end and takes an item
    unless it is full, which a new one is not. *)
Class DispatchBufferLaws (T Item : Type) `{DispatchBuffer T Item} := {
  items : T -> list Item;
  items_default : items buffer_default = [];
  item_count_items : forall b, item_count b = length (items b);
  buffer_len_items : forall b, buffer_len b = length (items b);
  default_not_full : buffer_is_full buffer_default = false;
  full_not_empty : forall b, buffer_is_full b = true -> items b <> [];
  try_push_room : forall x b, buffer_is_full b = false ->
    exists b', buffer_try_push x b = (None, b') /\ items b' = items b ++ [x];
}.

(** [VecDeque::swap_remove_back]: takes an element out and puts the last one in its place. *)
Definition swap_remove_back {A} (i : nat) (l : list A) : option (A * list A) :=
  x ← l !! i;
  last_ ← last l;
  Some (x, take (pred (length l)) (<[i := last_]> l)).

(** ** Fixed-size event buffers *)

Section buffer.
Context {Met Evd Chk Lg Trc Sta M : Type} `{EventMask M} (N : nat).
Abbreviation Ev := (Event Met Evd Chk Lg Trc Sta).

Definition event_type (e : Ev) : M := mask_of (event_kind e).

Record FixedSizeEventBuffer := { events : list Ev; seen_event_types : M }.

Definition FixedSizeEventBuffer_default : FixedSizeEventBuffer :=
  {| events := []; seen_event_types := mask_none |}.

Definition capacity (b : FixedSizeEventBuffer) : nat := N.

Definition len (b : FixedSizeEventBuffer) : nat := length (events b).

Definition is_empty (b : FixedSizeEventBuffer) : bool := bool_decide (events b = []).

Definition is_full (b : FixedSizeEventBuffer) : bool := len b =? capacity b.

Definition has_event_type (event_type : M) (b : FixedSizeEventBuffer) : bool :=
  mask_contains (seen_event_types b) event_type.

Definition clear (b : FixedSizeEventBuffer) : FixedSizeEventBuffer :=
  {| events := []; seen_event_types := mask_none |}.

Definition try_push (event : Ev) (b : FixedSizeEventBuffer) : option Ev * FixedSizeEventBuffer :=
  if len b =? capacity b then (Some event, b)
  else (None, {| events := events b ++ [event];
                 seen_event_types := mask_or (seen_event_types b) (event_type event) |}).

(** The first loop of [extract]: the positions to remove, and the types of what stays. *)
Fixpoint extract_scan (predicate : Ev -> bool) (pos : nat) (l : list Ev) (indices_to_remove : list nat)
    (seen : M) : list nat * M :=
  match l with
  | [] => (indices_to_remove, seen)
  | event :: l' =>
      if predicate event then extract_scan predicate (S pos) l' (indices_to_remove ++ [pos]) seen
      else extract_scan predicate (S pos) l' indices_to_remove (mask_or seen (event_type event))
  end.

(** The second loop, over the positions from the back. *)
Fixpoint extract_remove (positions : list nat) (l removed_events : list Ev) : option (list Ev * list Ev) :=
  match positions with
  | [] => Some (l, removed_events)
  | pos :: positions' =>
      if pos <? length l then
        '(event, l') ← swap_remove_back pos l;
        extract_remove positions' l' (removed_events ++ [event])
      else extract_remove positions' l removed_events
  end.

Definition extract (predicate : Ev -> bool) (b : FixedSizeEventBuffer)
    : option (list Ev * FixedSizeEventBuffer) :=
  let '(indices_to_remove, seen) := extract_scan predicate 0 (events b) [] mask_none in
  '(l, removed_events) ← extract_remove (rev indices_to_remove) (events b) [];
  Some (removed_events, {| events := l; seen_event_types := seen |}).

(** The loop of [remove_if].  The predicate is a [FnMut(&mut Event) -> bool]: it may change the event
    it looks at, and a state of its own. *)
Fixpoint remove_if_loop {S_} (fuel : nat) (predicate : Ev -> S_ -> bool * Ev * S_) (i end_ : nat)
    (l : list Ev) (seen : M) (s : S_) : option (list Ev * M * S_) :=
  if i <? end_ then
    match fuel with
    | 0 => None
    | S fuel' =>
        event ← l !! i;
        let '(remove, event', s') := predicate event s in
        let l' := <[i := event']> l in
        if remove then
          '(_, l'') ← swap_remove_back i l';
          remove_if_loop fuel' predicate i (end_ - 1) l'' seen s'
        else remove_if_loop fuel' predicate (S i) end_ l' (mask_or seen (event_type event')) s'
    end
  else Some (l, seen, s).

Definition remove_if {S_} (predicate : Ev -> S_ -> bool * Ev * S_) (s : S_) (b : FixedSizeEventBuffer)
    : option (FixedSizeEventBuffer * S_) :=
  '(l, seen, s') ← remove_if_loop (length (events b)) predicate 0 (length (events b)) (events b) mask_none s;
  Some ({| events := l; seen_event_types := seen |}, s').

#[export] Instance event_dispatch_buffer : DispatchBuffer FixedSizeEventBuffer Ev := {|
  item_count := len;
  buffer_default := FixedSizeEventBuffer_default;
  buffer_len := len;
  buffer_is_full := is_full;
  buffer_try_push := try_push;
|}.

(** ** The manager that swaps full buffers *)

Abbreviation EventBufferManager := (option FixedSizeEventBuffer).

Definition EventBufferManager_try_push (event : Ev) (current : EventBufferManager)
    : option (option FixedSizeEventBuffer * EventBufferManager) :=
  let buffer := default FixedSizeEventBuffer_default current in
  match try_push event buffer with
  | (Some event, old_buffer) =>
      match try_push event FixedSizeEventBuffer_default with
      | (Some _, _) => None
      | (None, buffer') => Some (Some old_buffer, Some buffer')
      end
  | (None, buffer') => Some (None, Some buffer')
  end.

Definition consume (current : EventBufferManager) : option FixedSizeEventBuffer * EventBufferManager :=
  (current, None).

(** ** Invariant *)

(** A buffer holds at most its capacity and knows exactly the types of what it holds. *)
Record buffer_inv (b : FixedSizeEventBuffer) : Prop := {
  inv_len : len b <= N;
  inv_seen : forall k, has_event_type (mask_of k) b = bool_decide (k ∈ event_kind <$> events b);
}.

Context `{!EventMaskLaws M}.

(** [seen] is the mask of the events [l]. *)
Definition seen_of (seen : M) (l : list Ev) : Prop :=
  forall k, mask_contains seen (mask_of k) = bool_decide (k ∈ event_kind <$> l).

Lemma seen_of_nil : seen_of mask_none [].
Proof. intros k. rewrite none_contains, bool_decide_eq_false_2; [done|]. simpl. apply not_elem_of_nil. Qed.

Lemma seen_of_snoc seen l e : seen_of seen l -> seen_of (mask_or seen (event_type e)) (l ++ [e]).
Proof.
  intros Hs k. unfold event_type. rewrite or_contains, Hs, fmap_app. simpl.
  rewrite <- bool_decide_or. apply bool_decide_ext. rewrite elem_of_app, list_elem_of_singleton. naive_solver.
Qed.

Lemma seen_of_perm seen l l' : l ≡ₚ l' -> seen_of seen l -> seen_of seen l'.
Proof. intros Hp Hs k. rewrite Hs. apply bool_decide_ext. by rewrite Hp. Qed.

Lemma buffer_inv_default : buffer_inv FixedSizeEventBuffer_default.
Proof. split; [unfold len; simpl; lia|]. intros k. apply seen_of_nil. Qed.

Lemma try_push_spec e b : buffer_inv b ->
  match try_push e b with
  | (Some e', b') => e' = e /\ b' = b /\ is_full b = true
  | (None, b') => buffer_inv b' /\ events b' = events b ++ [e] /\ is_full b = false
  end.
Proof.
  intros [Hl Hs]. unfold try_push, is_full. destruct (len b =? capacity b) eqn:E; [done|].
  apply Nat.eqb_neq in E. unfold len, capacity in *. split; [|done]. split; simpl.
  - unfold len; simpl. rewrite length_app. simpl. lia.
  - apply seen_of_snoc. exact Hs.
Qed.

(** [swap_remove_back] takes one element out; what comes before its position stays. *)
Lemma swap_remove_back_spec {X} i (l : list X) x : l !! i = Some x ->
  exists l', swap_remove_back i l = Some (x, l') /\ l ≡ₚ x :: l' /\ take i l' = take i l /\ S (length l') = length l.
Proof.
  intros Hx. unfold swap_remove_back. rewrite Hx. simpl.
  destruct l as [|y0 l0 _] using rev_ind; [done|]. rewrite last_snoc, length_app. simpl.
  replace (length l0 + 1) with (S (length l0)) by lia. simpl.
  eexists. split; [done|].
  pose proof (lookup_lt_Some _ _ _ Hx) as Hlt. rewrite length_app in Hlt. simpl in Hlt.
  destruct (decide (i = length l0)) as [->|Hi].
  - rewrite lookup_app_r in Hx by lia. rewrite Nat.sub_diag in Hx. injection Hx as ->.
    rewrite list_insert_id by (rewrite lookup_app_r, Nat.sub_diag by lia; done).
    rewrite take_app_length. split_and!; [by rewrite Permutation_app_comm| |lia].
    by rewrite firstn_all.
  - assert (i < length l0) by lia. rewrite lookup_app_l in Hx by lia.
    rewrite insert_app_l by lia. rewrite take_app_le, take_ge by (rewrite length_insert; lia).
    rewrite length_insert. split_and!; [| |lia].
    + rewrite <- (take_drop_middle l0 i x Hx) at 1.
      rewrite insert_take_drop by lia. rewrite Permutation_app_comm. simpl.
      solve_Permutation.
    + rewrite take_insert_ge by lia. by rewrite take_app_le by lia.
Qed.

(** ** Extraction *)

(** The positions of the events that match. *)
Fixpoint positions (predicate : Ev -> bool) (pos : nat) (l : list Ev) : list nat :=
  match l with
  | [] => []
  | e :: l' => (if predicate e then [pos] else []) ++ positions predicate (S pos) l'
  end.

Lemma positions_app p pos l1 l2 :
  positions p pos (l1 ++ l2) = positions p pos l1 ++ positions p (pos + length l1) l2.
Proof.
  revert pos. induction l1 as [|e l1 IH]; intros pos; simpl; [by rewrite Nat.add_0_r|].
  rewrite IH, app_assoc. by replace (S pos + length l1) with (pos + S (length l1)) by lia.
Qed.

Lemma extract_scan_spec p pos l ind seen kept : seen_of seen kept ->
  exists seen', extract_scan p pos l ind seen = (ind ++ positions p pos l, seen') /\
    seen_of seen' (kept ++ List.filter (fun e => negb (p e)) l).
Proof.
  revert pos ind seen kept. induction l as [|e l IH]; intros pos ind seen kept Hs; simpl.
  { exists seen. by rewrite !app_nil_r. }
  destruct (p e); simpl.
  - destruct (IH (S pos) (ind ++ [pos]) seen kept Hs) as (seen' & -> & Hs').
    exists seen'. by rewrite <- app_assoc.
  - destruct (IH (S pos) ind _ _ (seen_of_snoc _ _ e Hs)) as (seen' & -> & Hs').
    exists seen'. by rewrite <- app_assoc in Hs'.
Qed.

(** The elements after [pre] have been dealt with and do not match. *)
Lemma extract_remove_spec p pre post removed :
  exists l', extract_remove (rev (positions p 0 pre)) (pre ++ post) removed =
      Some (l', removed ++ rev (List.filter p pre)) /\
    l' ≡ₚ List.filter (fun e => negb (p e)) pre ++ post.
Proof.
  revert post removed. induction pre as [|x pre IH] using rev_ind; intros post removed.
  { exists post. simpl. by rewrite app_nil_r. }
  rewrite positions_app, rev_app_distr, !List.filter_app, <- app_assoc. simpl.
  destruct (p x); simpl.
  - rewrite (proj2 (Nat.ltb_lt _ _)) by (rewrite length_app; simpl; lia).
    destruct (swap_remove_back_spec (length pre) (pre ++ x :: post) x) as (l' & -> & Hp & Ht & Hlen).
    { by apply list_lookup_middle. }
    simpl. rewrite take_app_length in Ht.
    assert (El : l' = pre ++ drop (length pre) l').
    { rewrite <- (take_drop (length pre) l') at 1. by rewrite Ht. }
    assert (Hpost : drop (length pre) l' ≡ₚ post).
    { rewrite El in Hp. rewrite <- Permutation_middle in Hp.
      by apply Permutation_cons_inv, Permutation_app_inv_l in Hp. }
    rewrite El. destruct (IH (drop (length pre) l') (removed ++ [x])) as (l'' & -> & Hp'').
    exists l''. rewrite rev_app_distr, !app_nil_r, <- app_assoc. split; [done|]. by rewrite Hp'', Hpost.
  - destruct (IH (x :: post) removed) as (l'' & -> & Hp''). exists l''.
    rewrite app_nil_r, <- app_assoc. by split.
Qed.

(** The kept events are in no particular order; the extracted ones come out from back to front. *)
Lemma extract_spec p b :
  exists b', extract p b = Some (rev (List.filter p (events b)), b') /\
    events b' ≡ₚ List.filter (fun e => negb (p e)) (events b) /\ seen_of (seen_event_types b') (events b').
Proof.
  unfold extract.
  destruct (extract_scan_spec p 0 (events b) [] mask_none [] seen_of_nil) as (seen & -> & Hs).
  destruct (extract_remove_spec p (events b) [] []) as (l' & Hl & Hp).
  rewrite app_nil_r in Hl, Hp. simpl in *. rewrite Hl. simpl. eexists. split; [done|]. simpl.
  split; [done|]. by apply (seen_of_perm _ _ _ (symmetry Hp)).
Qed.

(** ** Removal *)

(** Running the predicate over events one after the other: what it keeps, as it leaves it. *)
Fixpoint sieve {S_} (predicate : Ev -> S_ -> bool * Ev * S_) (l : list Ev) (s : S_) : list Ev * S_ :=
  match l with
  | [] => ([], s)
  | e :: l' =>
      let '(remove, e', s') := predicate e s in
      let '(kept, s'') := sieve predicate l' s' in
      ((if remove then [] else [e']) ++ kept, s'')
  end.

Lemma length_sieve {S_} (p : Ev -> S_ -> bool * Ev * S_) l s : length (sieve p l s).1 <= length l.
Proof.
  revert s. induction l as [|e l IH]; intros s; simpl; [lia|].
  destruct (p e s) as [[rm e'] s']. specialize (IH s'). destruct (sieve p l s') as [kept s'']. simpl in *.
  rewrite length_app. destruct rm; simpl; lia.
Qed.

Lemma remove_if_loop_spec {S_} (p : Ev -> S_ -> bool * Ev * S_) fuel kept todo seen s :
  length todo <= fuel -> seen_of seen kept ->
  exists order seen', order ≡ₚ todo /\
    remove_if_loop fuel p (length kept) (length kept + length todo) (kept ++ todo) seen s =
      Some (kept ++ (sieve p order s).1, seen', (sieve p order s).2) /\
    seen_of seen' (kept ++ (sieve p order s).1).
Proof.
  revert kept todo seen s. induction fuel as [|fuel IH]; intros kept todo seen s Hf Hs.
  all: destruct todo as [|e todo]; [|simpl in Hf; try lia].
  1, 2: exists [], seen; simpl; rewrite Nat.add_0_r, Nat.ltb_irrefl, app_nil_r; done.
  simpl. rewrite (proj2 (Nat.ltb_lt _ _)) by lia. rewrite list_lookup_middle by done. simpl.
  destruct (p e s) as [[rm e'] s'] eqn:Ep. rewrite insert_app_r_alt, Nat.sub_diag by lia. simpl.
  destruct rm.
  - destruct (swap_remove_back_spec (length kept) (kept ++ e' :: todo) e') as (l' & -> & Hp & Ht & Hlen).
    { by apply list_lookup_middle. }
    simpl. rewrite take_app_length in Ht. set (todo' := drop (length kept) l').
    assert (El : l' = kept ++ todo') by (rewrite <- (take_drop (length kept) l') at 1; by rewrite Ht).
    assert (Hpost : todo' ≡ₚ todo).
    { rewrite El in Hp. rewrite <- Permutation_middle in Hp.
      by apply Permutation_cons_inv, Permutation_app_inv_l in Hp. }
    pose proof (Permutation_length Hpost) as Hl.
    replace (length kept + S (length todo) - 1) with (length kept + length todo') by lia.
    rewrite El. destruct (IH kept todo' seen s') as (order & seen' & Ho & Er & Hs'); [lia|done|].
    exists (e :: order), seen'. simpl. rewrite Ep. destruct (sieve p order s') as [k s'']. simpl in *.
    split; [by rewrite Ho, Hpost|]. done.
  - destruct (IH (kept ++ [e']) todo (mask_or seen (event_type e')) s') as (order & seen' & Ho & Er & Hs');
      [lia|by apply seen_of_snoc|].
    exists (e :: order), seen'. simpl. rewrite Ep. destruct (sieve p order s') as [k s'']. simpl in *.
    rewrite length_app in Er. simpl in Er. rewrite <- !app_assoc in *. simpl in *.
    replace (length kept + 1) with (S (length kept)) in Er by lia.
    replace (length kept + S (length todo)) with (S (length kept) + length todo) by lia.
    split; [by rewrite Ho|]. done.
Qed.

Lemma remove_if_spec {S_} (p : Ev -> S_ -> bool * Ev * S_) (s : S_) b :
  exists order b', order ≡ₚ events b /\ remove_if p s b = Some (b', (sieve p order s).2) /\
    events b' = (sieve p order s).1 /\ seen_of (seen_event_types b') (events b').
Proof.
  unfold remove_if.
  destruct (remove_if_loop_spec p (length (events b)) [] (events b) mask_none s) as (order & seen' & Ho & Er & Hs);
    [lia|apply seen_of_nil|].
  simpl in *. rewrite Er. simpl. exists order. eexists. split; [done|]. split; [done|]. by split.
Qed.

(** ** The manager *)

Lemma manager_try_push_spec e current : 0 < N -> (forall b, current = Some b -> buffer_inv b) ->
  exists out b', EventBufferManager_try_push e current = Some (out, Some b') /\ buffer_inv b' /\
    events b' <> [] /\
    match out with
    | None => events b' = default [] (events <$> current) ++ [e]
    | Some old => current = Some old /\ is_full old = true /\ events b' = [e]
    end.
Proof.
  intros Hn Hc. unfold EventBufferManager_try_push. set (b := default FixedSizeEventBuffer_default current).
  assert (Hb : buffer_inv b) by (destruct current as [b0|]; [by apply Hc|apply buffer_inv_default]).
  pose proof (try_push_spec e b Hb) as Hp. destruct (try_push e b) as [[e'|] b'].
  - destruct Hp as (-> & -> & Hfull).
    pose proof (try_push_spec e _ buffer_inv_default) as Hp. destruct (try_push e _) as [[e''|] b''].
    { destruct Hp as (_ & _ & Hz). unfold is_full, len, capacity in Hz. apply Nat.eqb_eq in Hz.
      simpl in Hz. lia. }
    destruct Hp as (Hi & He & _). simpl in He. eexists _, _. split; [done|]. split; [done|]. rewrite He.
    split; [done|]. split; [|done]. destruct current as [b0|]; [done|]. exfalso.
    unfold b, is_full, len, capacity in Hfull. apply Nat.eqb_eq in Hfull. simpl in Hfull. lia.
  - destruct Hp as (Hi & He & _). eexists _, _. split; [done|]. split; [done|].
    rewrite He. split; [by destruct (events b)|]. by destruct current.
Qed.

(** Buffers with room for an event are what a dispatcher expects. *)
Lemma event_buffer_laws : 0 < N -> DispatchBufferLaws FixedSizeEventBuffer Ev.
Proof.
  intros Hn. refine {| items := events |}; try done.
  - unfold buffer_is_full; cbn. unfold is_full, len, capacity. cbn. destruct N; [lia|done].
  - intros b Hb. unfold buffer_is_full in Hb; cbn in Hb. unfold is_full, len, capacity in Hb.
    apply Nat.eqb_eq in Hb. intros E. rewrite E in Hb. cbn in Hb. lia.
  - intros x b Hb. unfold buffer_is_full in Hb; cbn in Hb. unfold buffer_try_push; cbn.
    unfold try_push. unfold is_full in Hb. rewrite Hb. by eexists.
Defined.

(** ** Theorems *)

(** The operations of an event buffer: pushing takes an event as long as there is room; extracting
    never fails, returns the matching events from back to front and keeps the others; removing shows every
    event to the predicate exactly once, in some order, and keeps what the predicate wants kept, as the
    predicate left it.  After each of them the buffer is within its capacity and knows exactly the types of
    the events that it holds. *)
Theorem event_buffer_operations (b : FixedSizeEventBuffer) : buffer_inv b ->
  (forall e, match try_push e b with
             | (Some e', b') => e' = e /\ b' = b /\ is_full b = true
             | (None, b') => buffer_inv b' /\ events b' = events b ++ [e] /\ is_full b = false
             end) /\
  (forall p, exists b', extract p b = Some (rev (List.filter p (events b)), b') /\ buffer_inv b' /\
     events b' ≡ₚ List.filter (fun e => negb (p e)) (events b)) /\
  (forall S_ (p : Ev -> S_ -> bool * Ev * S_) s, exists order b', order ≡ₚ events b /\
     remove_if p s b = Some (b', (sieve p order s).2) /\ buffer_inv b' /\ events b' = (sieve p order s).1).
Proof.
  intros Hb. pose proof (inv_len _ Hb) as Hl. unfold len in Hl.
  split; [intros e; by apply try_push_spec|]. split.
  - intros p. destruct (extract_spec p b) as (b' & Hp & Hp' & Hs). exists b'. split; [done|]. split; [|done].
    split; [|exact Hs]. unfold len. rewrite Hp'.
    pose proof (List.filter_length_le (fun e => negb (p e)) (events b)). lia.
  - intros S_ p s. destruct (remove_if_spec p s b) as (order & b' & Ho & Hr & He & Hs). exists order, b'.
    split; [done|]. split; [done|]. split; [|done]. split; [|exact Hs].
    unfold len. rewrite He. pose proof (length_sieve p order s). pose proof (Permutation_length Ho). lia.
Qed.

(** A client of the manager pushes events and takes the current buffer from time to time. *)
Inductive ManagerOp := MPush (event : Ev) | MConsume.

Definition manager_step (op : ManagerOp) (st : list FixedSizeEventBuffer * EventBufferManager)
    : option (list FixedSizeEventBuffer * EventBufferManager) :=
  match op with
  | MPush event =>
      '(out, current) ← EventBufferManager_try_push event st.2;
      Some (st.1 ++ option_list out, current)
  | MConsume => let '(out, current) := consume st.2 in Some (st.1 ++ option_list out, current)
  end.

Fixpoint run_manager (ops : list ManagerOp) (st : list FixedSizeEventBuffer * EventBufferManager)
    : option (list FixedSizeEventBuffer * EventBufferManager) :=
  match ops with
  | [] => Some st
  | op :: ops' => st' ← manager_step op st; run_manager ops' st'
  end.

Definition pushed (ops : list ManagerOp) : list Ev :=
  omap (fun op => match op with MPush e => Some e | MConsume => None end) ops.

(** A manager of buffers with room for at least one event never panics, whatever is pushed and however
    often its buffer is taken: the buffers it gave out, followed by the current one, hold exactly the
    pushed events in their order, none of them is empty or holds more than its capacity, and each knows
    the types of its events. *)
Theorem manager_keeps_events (ops : list ManagerOp) : 0 < N ->
  exists outs current, run_manager ops ([], None) = Some (outs, current) /\
    concat (events <$> outs) ++ default [] (events <$> current) = pushed ops /\
    Forall (fun b => buffer_inv b /\ events b <> []) (outs ++ option_list current).
Proof.
  intros Hn.
  assert (Hgen : forall outs current, Forall (fun b => buffer_inv b /\ events b <> []) (outs ++ option_list current) ->
    exists outs' current', run_manager ops (outs, current) = Some (outs', current') /\
      concat (events <$> outs') ++ default [] (events <$> current') =
        (concat (events <$> outs) ++ default [] (events <$> current)) ++ pushed ops /\
      Forall (fun b => buffer_inv b /\ events b <> []) (outs' ++ option_list current')).
  2:{ destruct (Hgen [] None) as (outs & current & ? & ? & ?); [constructor|]. by exists outs, current. }
  induction ops as [|op ops IH]; intros outs current Hf; cbn [run_manager].
  { exists outs, current. by rewrite app_nil_r. }
  pose proof Hf as [Ho Hc]%Forall_app.
  destruct op as [e|]; cbn [manager_step fst snd].
  - destruct (manager_try_push_spec e current Hn) as (out & b' & -> & Hb' & Hne & Hout).
    { intros b ->. by inversion_clear Hc as [|? ? [? _]]. }
    cbn. destruct (IH (outs ++ option_list out) (Some b')) as (outs' & current' & Hr & He & Hf').
    { destruct out as [old|]; cbn.
      - destruct Hout as (-> & _). apply Forall_app. split; [done|]. by apply Forall_singleton.
      - rewrite app_nil_r. apply Forall_app. split; [done|]. by apply Forall_singleton. }
    exists outs', current'. split; [done|]. split; [|done]. rewrite He. unfold pushed; cbn.
    rewrite cons_middle, app_assoc. f_equal.
    destruct out as [old|]; cbn in *.
    + destruct Hout as (-> & _ & ->). cbn. rewrite fmap_app, concat_app. cbn. by rewrite app_nil_r, <- app_assoc.
    + rewrite Hout, app_nil_r. by rewrite app_assoc.
  - destruct (IH (outs ++ option_list current) None) as (outs' & current' & Hr & He & Hf').
    { by rewrite app_nil_r. }
    cbn. exists outs', current'. split; [done|]. split; [|done]. rewrite He. unfold pushed. cbn.
    rewrite fmap_app, concat_app, app_nil_r. by destruct current; cbn; rewrite ?app_nil_r.
Qed.

End buffer.

Arguments manager_keeps_events {Met Evd Chk Lg Trc Sta M _} N {_} ops.

(** ** Examples *)

Module Buffers.

(** The masks that the macro generates: one bit for each type. *)
Definition kind_bit (k : EventKind) : Z :=
  match k with
  | KMetric => 0 | KEventD => 1 | KServiceCheck => 2 | KLog => 3 | KTrace => 4 | KTraceStats => 5
  end%Z.

#[export] Instance bit_mask : EventMask Z := {|
  mask_of := fun k => Z.shiftl 1 (kind_bit k);
  mask_none := 0%Z;
  mask_or := Z.lor;
  mask_contains := fun a b => (Z.land a b =? b)%Z;
|}.

Lemma land_bit (m : Z) (k : EventKind) : mask_contains m (mask_of k) = Z.testbit m (kind_bit k).
Proof.
  cbn. assert (Hk : (0 <= kind_bit k)%Z) by by destruct k.
  destruct (Z.testbit m (kind_bit k)) eqn:Et; [apply Z.eqb_eq|apply Z.eqb_neq].
  - apply Z.bits_inj'. intros i Hi. rewrite Z.land_spec. destruct (Z.eq_dec i (kind_bit k)) as [->|Hne].
    + by rewrite Et.
    + destruct (Z.testbit (Z.shiftl 1 (kind_bit k)) i) eqn:Eb; [|by rewrite andb_false_r].
      exfalso. rewrite Z.shiftl_1_l, Z.pow2_bits_eqb in Eb by done. apply Z.eqb_eq in Eb. congruence.
  - intros E. assert (Hb : Z.testbit (Z.land m (Z.shiftl 1 (kind_bit k))) (kind_bit k) = true).
    { rewrite E, Z.shiftl_1_l, Z.pow2_bits_eqb by done. apply Z.eqb_refl. }
    rewrite Z.land_spec, Et in Hb. done.
Qed.

#[export] Instance bit_mask_laws : EventMaskLaws Z.
Proof.
  split; intros.
  - rewrite land_bit. by rewrite Z.testbit_0_l.
  - rewrite !land_bit. cbn. rewrite Z.lor_spec. f_equal.
    rewrite Z.shiftl_1_l, Z.pow2_bits_eqb by (by destruct k). by destruct k, k'.
Qed.

Abbreviation AnEvent := (Event nat nat nat nat nat nat).

Definition metric (n : nat) : AnEvent := EvMetric n.
Definition log (n : nat) : AnEvent := EvLog n.

Definition is_log (e : AnEvent) : bool := match e with EvLog _ => true | _ => false end.

Definition mixed : FixedSizeEventBuffer :=
  {| events := [log 1; metric 2; log 3; metric 4]; seen_event_types := 9%Z |}.

Lemma mixed_inv : buffer_inv 4 mixed.
Proof. split; [done|]. intros k. by destruct k. Qed.

Lemma event_buffer_operations_witness :
  exists b', extract is_log mixed = Some ([log 3; log 1], b') /\ buffer_inv 4 b' /\
    events b' ≡ₚ [metric 2; metric 4].
Proof. exact (proj1 (proj2 (event_buffer_operations 4 mixed mixed_inv)) is_log). Defined.

Lemma manager_keeps_events_witness :
  let ops := [MPush (metric 1); MPush (log 2); MPush (metric 3); MConsume; MPush (log 4)] in
  exists outs current, run_manager 2 ops ([], None) = Some (outs, current) /\
    concat (events <$> outs) ++ default [] (events <$> current) = [metric 1; log 2; metric 3; log 4] /\
    Forall (fun b => buffer_inv 2 b /\ events b <> []) (outs ++ option_list current).
Proof.
  intros ops. apply (manager_keeps_events (M := Z) 2 ops). apply Nat.lt_0_succ.
Defined.

(** The matching events leave in reverse, and the order of the others is not kept. *)
Example extract_reverses :
  extract is_log {| events := [log 1; log 2; metric 3; metric 4]; seen_event_types := 9%Z |} =
  Some ([log 2; log 1], {| events := [metric 3; metric 4]; seen_event_types := 1%Z |}) /\
  extract is_log {| events := [metric 1; log 2; metric 3; metric 4]; seen_event_types := 9%Z |} =
  Some ([log 2], {| events := [metric 1; metric 4; metric 3]; seen_event_types := 1%Z |}).
Proof. done. Qed.

(** A manager of buffers without any room panics at the first event. *)
Example no_room_panics : EventBufferManager_try_push 0 (metric 1) (None : option (FixedSizeEventBuffer (M := Z))) = None.
Proof. done. Qed.

End Buffers.
