(* ===== verification/Conditions.v ===== *)
(** * Conditions: connections that are active only some of the time

    Models [lib/saluki-core/src/topology/condition.rs].  A condition is fixed, or it starts with a value and
    follows a stream of updates; the stream is the list of what it will yield.  A gate is the identity of
    its atomic flag, and the flags of the process are a map.  [EdgeConditions::run] merges all streams: its
    step applies the next update of any of them, so that a run is an interleaving. *)

From Stdlib Require Import ZArith Lia.
From stdpp Require Import base tactics list numbers option gmap strings relations.
From S2P Require Import Prelude Ids.
Open Scope nat_scope.

Inductive EdgeCondition :=
| Fixed (active : bool)
| Dynamic (initial : bool) (updates : list bool).

Record EdgeKey := { upstream : ComponentId; key_output : OutputName; downstream : ComponentId }.

#[export] Instance EdgeKey_eq_dec : EqDecision EdgeKey.
Proof. solve_decision. Defined.

Definition involves (id : ComponentId) (k : EdgeKey) : bool :=
  bool_decide (upstream k = id) || bool_decide (downstream k = id).

(** The flags behind the gates; [Arc::new] takes one that is not in use. *)
Abbreviation Flags := (gmap nat bool).

Definition EdgeGate_new (active : bool) (flags : Flags) : nat * Flags :=
  let g := fresh (dom flags) in (g, <[g := active]> flags).

Definition EdgeGate_set (g : nat) (active : bool) (flags : Flags) : Flags := <[g := active]> flags.

Abbreviation EdgeConditions := (list (EdgeKey * nat * list bool)).

Definition insert (key : EdgeKey) (initial : bool) (updates : list bool) (cs : EdgeConditions) (flags : Flags)
    : EdgeConditions * Flags :=
  let '(gate, flags) := EdgeGate_new initial flags in (cs ++ [(key, gate, updates)], flags).

Definition remove_component (id : ComponentId) (cs : EdgeConditions) : EdgeConditions :=
  List.filter (fun '(key, _, _) => negb (involves id key)) cs.

Definition gate_of (key : EdgeKey) (cs : EdgeConditions) : option nat :=
  (fun '(_, gate, _) => gate) <$> find (fun '(k, _, _) => bool_decide (k = key)) cs.

Definition is_empty (cs : EdgeConditions) : bool := bool_decide (cs = []).

(** One update of some stream reaches its flag. *)
Inductive run_step : EdgeConditions * Flags -> EdgeConditions * Flags -> Prop :=
| run_update cs1 key gate active updates cs2 flags :
    run_step (cs1 ++ (key, gate, active :: updates) :: cs2, flags)
             (cs1 ++ (key, gate, updates) :: cs2, EdgeGate_set gate active flags).

(** [run] ends when no stream has anything left. *)
Definition ended (cs : EdgeConditions) : Prop := Forall (fun '(_, _, updates) => updates = []) cs.

(** ** Properties *)

(** The gates of the conditions are distinct flags. *)
Definition gates_ok (cs : EdgeConditions) (flags : Flags) : Prop :=
  NoDup ((fun '(_, gate, _) => gate) <$> cs) /\ Forall (fun '(_, gate, _) => is_Some (flags !! gate)) cs.

Lemma insert_gates_ok key initial updates cs flags : gates_ok cs flags ->
  let '(cs', flags') := insert key initial updates cs flags in
  gates_ok cs' flags' /\ forall g b, flags !! g = Some b -> flags' !! g = Some b.
Proof.
  intros [Hnd Hin]. unfold insert, EdgeGate_new. set (g := fresh (dom flags)).
  assert (Hg : flags !! g = None) by (apply not_elem_of_dom, is_fresh). split; [split|].
  - rewrite fmap_app. apply NoDup_app. split; [done|]. split; [|apply NoDup_singleton].
    intros x Hx Hx'. cbn in Hx'. apply list_elem_of_singleton in Hx' as ->.
    apply list_elem_of_fmap in Hx as ([[k g'] u] & E & Hx). cbn in E. subst g'.
    rewrite Forall_forall in Hin. apply Hin in Hx. rewrite Hg in Hx. by destruct Hx.
  - apply Forall_app. split.
    + eapply Forall_impl; [done|]. intros [[k g'] u] Hs. apply lookup_insert_is_Some'. by right.
    + apply Forall_singleton. rewrite lookup_insert_eq. by eexists.
  - intros g' b Hb. rewrite lookup_insert_ne; [done|]. congruence.
Qed.

Lemma remove_component_gates_ok id cs flags : gates_ok cs flags -> gates_ok (remove_component id cs) flags.
Proof.
  intros [Hnd Hin]. split.
  - clear Hin. induction cs as [|[[k g] u] cs IH]; [done|]. cbn in *. apply NoDup_cons in Hnd as [Hg Hnd].
    destruct (negb (involves id k)); [|by apply IH]. cbn. apply NoDup_cons. split; [|by apply IH].
    intros Hx. apply Hg. apply list_elem_of_fmap in Hx as (x & E & Hx). apply list_elem_of_fmap. exists x.
    split; [done|]. apply list_elem_of_In, filter_In in Hx as [Hx _]. by apply list_elem_of_In.
  - rewrite Forall_forall in *. intros x Hx. apply Hin.
    apply list_elem_of_In, filter_In in Hx as [Hx _]. by apply list_elem_of_In.
Qed.

(** What a flag will hold once its stream has ended. *)
Definition final (flags : Flags) (gate : nat) (updates : list bool) : option bool :=
  match list.last updates with Some b => Some b | None => flags !! gate end.

(** A step changes no final value. *)
Lemma run_step_final cs flags cs' flags' : run_step (cs, flags) (cs', flags') ->
  gates_ok cs flags -> gates_ok cs' flags' /\
  Forall2 (fun '(k, g, u) '(k', g', u') => k = k' /\ g = g' /\ final flags g u = final flags' g' u') cs cs' /\
  (forall g, g ∉ (fun '(_, gate, _) => gate) <$> cs -> flags' !! g = flags !! g).
Proof.
  intros Hs. inversion Hs as [cs1 key gate active updates cs2 flags0]; subst. clear Hs. intros [Hnd Hin].
  unfold EdgeGate_set. rewrite fmap_app in Hnd. cbn in Hnd.
  apply NoDup_app in Hnd as (Hnd1 & Hd & Hnd2). apply NoDup_cons in Hnd2 as [Hg Hnd2].
  assert (Hother : forall k g u, (k, g, u) ∈ cs1 ++ cs2 -> g <> gate).
  { intros k g u [Hx|Hx]%elem_of_app ->.
    - apply (Hd gate); [|by left]. apply list_elem_of_fmap. by exists (k, gate, u).
    - apply Hg. apply list_elem_of_fmap. by exists (k, gate, u). }
  assert (Hsame : forall l, (forall x, x ∈ l -> x ∈ cs1 ++ cs2) -> Forall2 (fun '(k, g, u) '(k', g', u') =>
    k = k' /\ g = g' /\ final flags g u = final (<[gate:=active]> flags) g' u') l l).
  { intros l Hl. apply Forall2_same_length_lookup. split; [done|]. intros i [[k g] u] [[k' g'] u'] E1 E2.
    rewrite E1 in E2. injection E2 as <- <- <-. split; [done|]. split; [done|]. unfold final.
    rewrite lookup_insert_ne; [done|]. apply not_eq_sym. eapply Hother, Hl. by eapply list_elem_of_lookup_2. }
  split; [split|split].
  - rewrite fmap_app. cbn. apply NoDup_app. split; [done|]. split; [done|]. by apply NoDup_cons.
  - apply Forall_app in Hin as [Hin1 Hin2]. apply Forall_cons in Hin2 as [_ Hin2].
    apply Forall_app. split; [|apply Forall_cons; split; [apply lookup_insert_is_Some'; by left|]].
    all: eapply Forall_impl; [done|]; intros [[k g] u] Hx; apply lookup_insert_is_Some'; by right.
  - apply Forall2_app; [apply Hsame; intros x Hx; apply elem_of_app; by left|].
    constructor; [|apply Hsame; intros x Hx; apply elem_of_app; by right].
    split; [done|]. split; [done|]. unfold final. rewrite lookup_insert_eq.
    destruct updates as [|b updates]; [done|].
    change (list.last (active :: b :: updates)) with (list.last (b :: updates)).
    destruct (list.last (b :: updates)) eqn:El; [done|]. by apply last_None in El.
  - intros g Hx. rewrite fmap_app in Hx. rewrite lookup_insert_ne; [done|]. intros ->. apply Hx.
    cbn. apply elem_of_app. right. left.
Qed.

(** The updates that are left are the steps that a run can still make. *)
Lemma run_step_measure cs flags st' : run_step (cs, flags) st' ->
  sum_list_with (fun '(_, _, u) => length u) cs = S (sum_list_with (fun '(_, _, u) => length u) st'.1).
Proof.
  intros Hs. inversion Hs; subst. cbn. rewrite !sum_list_with_app. cbn. lia.
Qed.

Lemma run_progress cs flags : ended cs \/ exists st', run_step (cs, flags) st'.
Proof.
  destruct (decide (Forall (fun '(_, _, u) => u = []) cs)) as [?|He]; [by left|right].
  apply not_Forall_Exists in He; [|apply _]. apply Exists_exists in He as ([[k g] u] & Hin & Hu).
  apply list_elem_of_split in Hin as (cs1 & cs2 & ->). cbn in Hu. destruct u as [|b u]; [done|].
  eexists. constructor.
Qed.

Lemma run_ends cs flags : exists cs' flags', rtc run_step (cs, flags) (cs', flags') /\ ended cs'.
Proof.
  remember (sum_list_with (fun '(_, _, u) => length u) cs) as n eqn:En. revert cs flags En.
  induction n as [|n IH]; intros cs flags En; destruct (run_progress cs flags) as [He|[[cs1 flags1] Hs]];
    [by exists cs, flags| |by exists cs, flags|];
    pose proof (run_step_measure _ _ _ Hs) as Hm; cbn in Hm; [lia|].
  destruct (IH cs1 flags1 ltac:(lia)) as (cs' & flags' & Hr & He). exists cs', flags'. split; [|done].
  by eapply rtc_l.
Qed.

(** C34: The updates of the conditions can always be applied until all streams have ended, and however they
    are interleaved, the gate of every condition then holds the last value of its stream, or its initial
    value if there was none; no other flag has changed. *)
Theorem conditions_settle (cs : EdgeConditions) (flags : Flags) : gates_ok cs flags ->
  (exists cs' flags', rtc run_step (cs, flags) (cs', flags') /\ ended cs') /\
  forall cs' flags', rtc run_step (cs, flags) (cs', flags') -> ended cs' ->
    (forall key gate updates, (key, gate, updates) ∈ cs -> flags' !! gate = final flags gate updates) /\
    (forall gate, gate ∉ (fun '(_, gate, _) => gate) <$> cs -> flags' !! gate = flags !! gate).
Proof.
  intros Hok. split; [apply run_ends|]. intros cs' flags' Hr. remember (cs, flags) as st eqn:Est. remember (cs', flags') as st' eqn:Est'.
  revert cs flags Est Hok. induction Hr as [st|st [cs1 flags1] st' Hs _ IH]; intros cs flags -> Hok He.
  { injection Est' as <- <-. split; [|done]. intros key gate updates Hin. unfold ended in He.
    rewrite Forall_forall in He. apply He in Hin. by subst updates. }
  destruct (run_step_final _ _ _ _ Hs Hok) as (Hok1 & Hf & Ho).
  destruct (IH Est' cs1 flags1 eq_refl Hok1 He) as [Hfin Hother].
  assert (Hg : (fun '(_, gate, _) => gate) <$> cs1 = (fun '(_, gate, _) => gate) <$> cs).
  { clear -Hf. induction Hf as [|[[k g] u] [[k' g'] u'] l l' (-> & -> & _) _ IH]; [done|]. cbn. by rewrite IH. }
  split.
  - intros key gate updates Hin. apply list_elem_of_lookup in Hin as [i Hi].
    destruct (Forall2_lookup_l _ _ _ _ _ Hf Hi) as ([[k' g'] u'] & Hi' & <- & <- & ->).
    eapply Hfin. by eapply list_elem_of_lookup_2.
  - intros gate Hx. rewrite Hother by by rewrite Hg. by apply Ho.
Qed.


(** ** Examples *)

Module Gates.

Definition a_key (d : ComponentId) : EdgeKey := {| upstream := "in"; key_output := Default; downstream := d |}.

Definition two_conditions : EdgeConditions * Flags :=
  let '(cs, flags) := insert (a_key "x") false [true; false; true] [] ∅ in insert (a_key "y") false [] cs flags.

Lemma conditions_settle_witness :
  exists cs' flags', rtc run_step two_conditions (cs', flags') /\ ended cs' /\ 
    flags' !! 0 = Some true /\ flags' !! 1 = Some false.
Proof.
  assert (Hok : gates_ok two_conditions.1 two_conditions.2).
  { split; vm_compute; repeat constructor; set_solver. }
  destruct (conditions_settle two_conditions.1 two_conditions.2 Hok) as [(cs' & flags' & Hr & He) Hall].
  exists cs', flags'. split; [exact Hr|]. split; [exact He|].
  destruct (Hall cs' flags' Hr He) as [Hf _].
  split.
  - exact (Hf (a_key "x") 0 [true; false; true] ltac:(vm_compute; left)).
  - exact (Hf (a_key "y") 1 [] ltac:(vm_compute; right; left)).
Defined.

End Gates.
