(* ===== verification/Dispatcher.v ===== *)
(** * Dispatcher: sending items over the connections of a component

    Models [lib/saluki-core/src/topology/interconnect/dispatcher.rs] and [consumer.rs], the gates of
    [topology/condition.rs], and the component contexts of [components/mod.rs].  An output sends an
    item to every connection whose gate is open, the buffered dispatcher batches items first, and a
    dispatcher has a default output and named ones.

    Channels are those of [tokio::sync::mpsc] and therefore a parameter (the class [Mpsc]).  The gate of
    a connection is an atomic flag that another task sets at any time: [gate_at] says what the n-th
    load of the program sees.  The state of the channels, the loads so far and the telemetry counters
    are the [World]; every function takes and returns it.  A panic is [None]. *)

From Stdlib Require Import ZArith Lia Strings.String.
From stdpp Require Import base tactics list numbers option gmap strings.
From S2P Require Import Prelude Ids Subsystem Graph EventBuffer.
Open Scope nat_scope.

(** ** Channels *)

(** The channels of the process; a sender is the identity of its channel, since clones of a sender feed
    the same queue.  Sending waits for room and fails only when the receiver is gone. *)
Class Mpsc (T : Type) := {
  Channels : Type;
  mpsc_send : nat -> T -> Channels -> bool * Channels;
}.

(** [delivered] is the history of what one component has sent into a channel. *)
Class MpscLaws (T : Type) `{Mpsc T} := {
  delivered : Channels -> nat -> list T;
  send_delivers : forall s x c s', delivered (mpsc_send s x c).2 s' =
    delivered c s' ++ (if (mpsc_send s x c).1 && bool_decide (s' = s) then [x] else []);
}.

(** ** Component contexts and metrics *)

Record ComponentContext := {
  topology_root : SubsystemIdentifier;
  context_id : ComponentId;
  context_type : ComponentType;
}.

#[export] Instance ComponentContext_eq_dec : EqDecision ComponentContext.
Proof. solve_decision. Defined.

#[export] Instance ComponentContext_countable : Countable ComponentContext.
Proof.
  refine (inj_countable' (fun c => (topology_root c, context_id c, context_type c))
            (fun '(a, b, c) => {| topology_root := a; context_id := b; context_type := c |}) _).
  by intros [].
Defined.

Definition as_str (t : ComponentType) : string :=
  match t with
  | CSource => "source" | CRelay => "relay" | CDecoder => "decoder" | CTransform => "transform"
  | CEncoder => "encoder" | CForwarder => "forwarder" | CDestination => "destination"
  end.

Definition as_category_str (t : ComponentType) : string :=
  match t with
  | CSource => "sources" | CRelay => "relays" | CDecoder => "decoders" | CTransform => "transforms"
  | CEncoder => "encoders" | CForwarder => "forwarders" | CDestination => "destinations"
  end.

(** The characters of an ASCII string; component identifiers are ASCII. *)
Definition chars (s : string) : list Z := ascii_Z <$> as_bytes s.

Definition identity `{Unicode} (c : ComponentContext) : SubsystemIdentifier :=
  child (child (topology_root c) (chars (as_category_str (context_type c)))) (chars (context_id c)).

(** The labels of the counters of an output. *)
Record DispatcherMetrics := { label_id : string; label_type : string; label_output : string }.

#[export] Instance DispatcherMetrics_eq_dec : EqDecision DispatcherMetrics.
Proof. solve_decision. Defined.

#[export] Instance DispatcherMetrics_countable : Countable DispatcherMetrics.
Proof.
  refine (inj_countable' (fun m => (label_id m, label_type m, label_output m))
            (fun '(a, b, c) => {| label_id := a; label_type := b; label_output := c |}) _).
  by intros [].
Defined.

Definition with_output_name (context : ComponentContext) (output_name : string) : DispatcherMetrics :=
  {| label_id := context_id context; label_type := as_str (context_type context); label_output := output_name |}.

Record Counters := { events_sent_total : nat; events_discarded_total : nat; events_elided_total : nat }.

Definition no_events : Counters :=
  {| events_sent_total := 0; events_discarded_total := 0; events_elided_total := 0 |}.

(** ** Outputs *)

(** An edge gate is the identity of its flag. *)
Abbreviation EdgeGate := nat.

Record GatedSender := { sender : nat; gate : option EdgeGate }.

Record DispatchTarget := { metrics : DispatcherMetrics; senders : list GatedSender }.

Definition default_output (context : ComponentContext) : DispatchTarget :=
  {| metrics := with_output_name context "_default"; senders := [] |}.

Definition named_output (context : ComponentContext) (output_name : string) : DispatchTarget :=
  {| metrics := with_output_name context output_name; senders := [] |}.

Definition add_sender (s : nat) (g : option EdgeGate) (t : DispatchTarget) : DispatchTarget :=
  {| metrics := metrics t; senders := senders t ++ [{| sender := s; gate := g |}] |}.

(** What can be dispatched has a number of items. *)
Class Dispatchable (T : Type) := dispatch_count : T -> nat.

#[export] Instance buffer_dispatchable {T Item} `{DispatchBuffer T Item} : Dispatchable T := item_count.

Section dispatch.
Context {T : Type} `{!Mpsc T} `{!Dispatchable T} (gate_at : nat -> EdgeGate -> bool).

Record World := {
  channels : Channels;
  loads : nat;
  counters : gmap DispatcherMetrics Counters;
}.

Definition set_channels (c : Channels) (w : World) : World :=
  {| channels := c; loads := loads w; counters := counters w |}.

Definition counted (m : DispatcherMetrics) (w : World) : Counters := default no_events (counters w !! m).

Definition count (m : DispatcherMetrics) (f : Counters -> Counters) (w : World) : World :=
  {| channels := channels w; loads := loads w; counters := <[m := f (counted m w)]> (counters w) |}.

Definition add_sent (n : nat) (c : Counters) : Counters :=
  {| events_sent_total := events_sent_total c + n; events_discarded_total := events_discarded_total c;
     events_elided_total := events_elided_total c |}.
Definition add_discarded (n : nat) (c : Counters) : Counters :=
  {| events_sent_total := events_sent_total c; events_discarded_total := events_discarded_total c + n;
     events_elided_total := events_elided_total c |}.
Definition add_elided (n : nat) (c : Counters) : Counters :=
  {| events_sent_total := events_sent_total c; events_discarded_total := events_discarded_total c;
     events_elided_total := events_elided_total c + n |}.

(** [GatedSender::is_active]: loads the flag if there is one. *)
Definition is_active (s : GatedSender) (n : nat) : bool * nat :=
  match gate s with
  | None => (true, n)
  | Some g => (gate_at n g, S n)
  end.

(** [Iterator::position] over the senders *)
Fixpoint position_active (l : list GatedSender) (n : nat) : option nat * nat :=
  match l with
  | [] => (None, n)
  | s :: l' =>
      let '(active, n') := is_active s n in
      if active then (Some 0, n')
      else let '(p, n'') := position_active l' n' in (S <$> p, n'')
  end.

Definition next_active_sender (start : nat) (t : DispatchTarget) (w : World) : option (option nat * World) :=
  if length (senders t) <? start then None
  else
    let '(p, n) := position_active (drop start (senders t)) (loads w) in
    Some ((fun offset => start + offset) <$> p,
          {| channels := channels w; loads := n; counters := counters w |}).

(** The [while let] loop of [send].  It takes the item for the last active sender, hence the option. *)
Fixpoint send_loop (fuel : nat) (t : DispatchTarget) (item : option T) (next_active : option nat)
    (active_sends : nat) (w : World) : option (result string nat * World) :=
  match next_active with
  | None => Some (Ok active_sends, w)
  | Some index =>
      match fuel with
      | 0 => None
      | S fuel' =>
          '(next_active, w) ← next_active_sender (index + 1) t w;
          let (sent, item) := match next_active with Some _ => (item, item) | None => (item, None) end in
          x ← sent;
          s ← senders t !! index;
          let '(ok, c) := mpsc_send (sender s) x (channels w) in
          if ok then send_loop fuel' t item next_active (active_sends + 1) (set_channels c w)
          else Some (Err "Failed to send to output."%string, set_channels c w)
      end
  end.

Definition send (t : DispatchTarget) (item : T) (w : World) : option (result string unit * World) :=
  if bool_decide (senders t = []) then
    Some (Ok tt, count (metrics t) (add_discarded (dispatch_count item)) w)
  else
    let item_count := dispatch_count item in
    '(next_active, w) ← next_active_sender 0 t w;
    '(r, w) ← send_loop (length (senders t)) t (Some item) next_active 0 w;
    match r with
    | Err e => Some (Err e, w)
    | Ok active_sends =>
        let elided_sends := length (senders t) - active_sends in
        let w := if 0 <? elided_sends then count (metrics t) (add_elided (elided_sends * item_count)) w else w in
        let w := if 0 <? active_sends then count (metrics t) (add_sent (active_sends * item_count)) w else w in
        Some (Ok tt, w)
    end.

(** ** The dispatcher *)

Record Dispatcher := {
  context : ComponentContext;
  default_target : option DispatchTarget;
  targets : gmap string DispatchTarget;
}.

Definition Dispatcher_new (c : ComponentContext) : Dispatcher :=
  {| context := c; default_target := None; targets := ∅ |}.

Definition add_output (output_name : OutputName) (d : Dispatcher) : result string unit * Dispatcher :=
  match output_name with
  | Default =>
      if bool_decide (is_Some (default_target d)) then (Err "Default output already exists."%string, d)
      else (Ok tt, {| context := context d; default_target := Some (default_output (context d));
                      targets := targets d |})
  | Given name =>
      if bool_decide (is_Some (targets d !! name)) then
        (Err ("Output '" +:+ name +:+ "' already exists.")%string, d)
      else (Ok tt, {| context := context d; default_target := default_target d;
                      targets := <[name := named_output (context d) name]> (targets d) |})
  end.

Definition attach_gated_sender_to_output (output_name : OutputName) (s : nat) (g : option EdgeGate)
    (d : Dispatcher) : result string unit * Dispatcher :=
  match output_name with
  | Default =>
      match default_target d with
      | None => (Err "No default output declared."%string, d)
      | Some t => (Ok tt, {| context := context d; default_target := Some (add_sender s g t); targets := targets d |})
      end
  | Given name =>
      match targets d !! name with
      | None => (Err ("Output '" +:+ name +:+ "' does not exist.")%string, d)
      | Some t => (Ok tt, {| context := context d; default_target := default_target d;
                             targets := <[name := add_sender s g t]> (targets d) |})
      end
  end.

Definition attach_sender_to_output (output_name : OutputName) (s : nat) (d : Dispatcher)
    : result string unit * Dispatcher :=
  attach_gated_sender_to_output output_name s None d.

Definition get_default_output (d : Dispatcher) : result string DispatchTarget :=
  match default_target d with Some t => Ok t | None => Err "No default output declared."%string end.

Definition get_named_output (name : string) (d : Dispatcher) : result string DispatchTarget :=
  match targets d !! name with
  | Some t => Ok t
  | None => Err ("No output named '" +:+ name +:+ "' declared.")%string
  end.

Definition is_default_output_connected (d : Dispatcher) : bool :=
  match default_target d with Some t => negb (bool_decide (senders t = [])) | None => false end.

Definition is_named_output_connected (name : string) (d : Dispatcher) : bool :=
  match targets d !! name with Some t => negb (bool_decide (senders t = [])) | None => false end.

Definition target_of (output_name : option string) (d : Dispatcher) : result string DispatchTarget :=
  match output_name with None => get_default_output d | Some name => get_named_output name d end.

Definition dispatch_inner (output_name : option string) (item : T) (d : Dispatcher) (w : World)
    : option (result string unit * World) :=
  match target_of output_name d with
  | Err e => Some (Err e, w)
  | Ok target => send target item w
  end.

Definition dispatch (item : T) (d : Dispatcher) (w : World) : option (result string unit * World) :=
  dispatch_inner None item d w.

Definition dispatch_named (output_name : string) (item : T) (d : Dispatcher) (w : World)
    : option (result string unit * World) :=
  dispatch_inner (Some output_name) item d w.

End dispatch.

Arguments World T {Mpsc0}.

(** ** Buffered dispatching *)

Section buffered.
Context {T Item : Type} `{!Mpsc T} `{!DispatchBuffer T Item} (gate_at : nat -> EdgeGate -> bool).

Record BufferedDispatcher := { flushed_len : nat; buffer : option T; target : DispatchTarget }.

Definition BufferedDispatcher_new (t : DispatchTarget) : BufferedDispatcher :=
  {| flushed_len := 0; buffer := None; target := t |}.

Definition try_flush_buffer (b : T) (d : BufferedDispatcher) (w : World T) : option (result string unit * World T) :=
  if 0 <? buffer_len b then send gate_at (target d) b w else Some (Ok tt, w).

Definition push (item : Item) (d : BufferedDispatcher) (w : World T)
    : option (result string unit * BufferedDispatcher * World T) :=
  '(r, d, w) ← match buffer d with
               | Some b =>
                   if buffer_is_full b then
                     let d := {| flushed_len := flushed_len d; buffer := None; target := target d |} in
                     '(r, w) ← try_flush_buffer b d w; Some (r, d, w)
                   else Some (Ok tt, d, w)
               | None => Some (Ok tt, d, w)
               end;
  match r with
  | Err e => Some (Err e, d, w)
  | Ok _ =>
      let b := default buffer_default (buffer d) in
      match buffer_try_push item b with
      | (Some _, b) =>
          Some (Err "Dispatch buffer already full after acquisition."%string,
                {| flushed_len := flushed_len d; buffer := Some b; target := target d |}, w)
      | (None, b) =>
          Some (Ok tt, {| flushed_len := flushed_len d + 1; buffer := Some b; target := target d |}, w)
      end
  end.

Definition flush (d : BufferedDispatcher) (w : World T) : option (result string nat * World T) :=
  '(r, w) ← match buffer d with
            | Some b => try_flush_buffer b d w
            | None => Some (Ok tt, w)
            end;
  match r with
  | Err e => Some (Err e, w)
  | Ok _ => Some (Ok (flushed_len d), count (metrics (target d)) (add_sent (flushed_len d)) w)
  end.

Fixpoint send_all (items : list Item) (d : BufferedDispatcher) (w : World T)
    : option (result string nat * World T) :=
  match items with
  | [] => flush d w
  | item :: items' =>
      '(r, d, w) ← push item d w;
      match r with
      | Err e => Some (Err e, w)
      | Ok _ => send_all items' d w
      end
  end.

Definition buffered (d : Dispatcher) : result string BufferedDispatcher :=
  match get_default_output d with Ok t => Ok (BufferedDispatcher_new t) | Err e => Err e end.

Definition buffered_named (output_name : string) (d : Dispatcher) : result string BufferedDispatcher :=
  match get_named_output output_name d with Ok t => Ok (BufferedDispatcher_new t) | Err e => Err e end.

Definition dispatch_one_inner (output_name : option string) (item : Item) (d : Dispatcher) (w : World T)
    : option (result string unit * World T) :=
  match target_of output_name d with
  | Err e => Some (Err e, w)
  | Ok target =>
      match buffer_try_push item buffer_default with
      | (Some _, _) => Some (Err "Default-constructed buffer rejected a single item."%string, w)
      | (None, b) => send gate_at target b w
      end
  end.

Definition dispatch_one (item : Item) (d : Dispatcher) (w : World T) : option (result string unit * World T) :=
  dispatch_one_inner None item d w.

Definition dispatch_one_named (output_name : string) (item : Item) (d : Dispatcher) (w : World T)
    : option (result string unit * World T) :=
  dispatch_one_inner (Some output_name) item d w.

End buffered.
