(* ===== verification/DispatcherProofs.v ===== *)
(** * DispatcherProofs: what dispatching delivers and what it counts

    [open_senders] reads every gate once, in order; [send] delivers the item to exactly those senders
    ([send_spec]).  The buffered dispatcher delivers its items in batches; the theorems say which items
    each connection receives, over [DispatchBufferLaws] and [MpscLaws]. *)

From Stdlib Require Import ZArith Lia Strings.String.
From stdpp Require Import base tactics list numbers option gmap strings.
From S2P Require Import Prelude Ids Subsystem Graph EventBuffer Dispatcher.
Open Scope nat_scope.

(** ** The specification of sending *)

Section sending.
Context {T : Type} `{!Mpsc T} `{!Dispatchable T} (gate_at : nat -> EdgeGate -> bool).

(** The senders whose gates are open, when each gate is read once from the [n]-th load on. *)
Fixpoint open_senders (l : list GatedSender) (n : nat) : list GatedSender * nat :=
  match l with
  | [] => ([], n)
  | s :: l' =>
      let '(active, n') := is_active gate_at s n in
      let '(opened, n'') := open_senders l' n' in
      ((if active then [s] else []) ++ opened, n'')
  end.

(** Sending an item to one channel after the other, until one fails. *)
Fixpoint deliver (l : list GatedSender) (x : T) (c : Channels) : bool * Channels :=
  match l with
  | [] => (true, c)
  | s :: l' =>
      let '(ok, c') := mpsc_send (sender s) x c in
      if ok then deliver l' x c' else (false, c')
  end.

Lemma position_active_spec l n :
  match position_active gate_at l n with
  | (None, n') => open_senders l n = ([], n')
  | (Some k, n') => exists s, l !! k = Some s /\
      open_senders l n = (s :: (open_senders (drop (S k) l) n').1, (open_senders (drop (S k) l) n').2)
  end.
Proof.
  revert n. induction l as [|s l IH]; intros n; simpl; [done|].
  destruct (is_active gate_at s n) as [[|] n1] eqn:Ea.
  - exists s. split; [done|]. rewrite drop_0. by destruct (open_senders l n1).
  - specialize (IH n1). destruct (position_active gate_at l n1) as [[k|] n2]; simpl.
    + destruct IH as (s' & Hs' & ->). by exists s'.
    + by rewrite IH.
Qed.

(** Scanning from [start] finds the first open sender and leaves the rest unread. *)
Lemma next_active_spec start t (w : World T) : start <= length (senders t) ->
  exists p n', next_active_sender gate_at start t w =
      Some (p, {| channels := channels w; loads := n'; counters := counters w |}) /\
    match p with
    | None => open_senders (drop start (senders t)) (loads w) = ([], n')
    | Some k => exists s, senders t !! k = Some s /\ start <= k /\
        open_senders (drop start (senders t)) (loads w) =
          (s :: (open_senders (drop (S k) (senders t)) n').1, (open_senders (drop (S k) (senders t)) n').2)
    end.
Proof.
  intros Hs. unfold next_active_sender. rewrite (proj2 (Nat.ltb_ge _ _)) by done.
  pose proof (position_active_spec (drop start (senders t)) (loads w)) as Hp.
  destruct (position_active gate_at _ _) as [[k|] n']; simpl; eexists _, n'; (split; [done|]); [|done].
  destruct Hp as (s & Hk & Ho). rewrite lookup_drop in Hk. exists s. split; [done|].
  split; [lia|]. rewrite Ho, drop_drop. by rewrite Nat.add_succ_r.
Qed.

Lemma send_loop_spec fuel t (x : T) k s a (w : World T) :
  senders t !! k = Some s -> length (senders t) - k <= fuel ->
  let opened := open_senders (drop (S k) (senders t)) (loads w) in
  exists n', send_loop gate_at fuel t (Some x) (Some k) a w =
    Some (if (deliver (s :: opened.1) x (channels w)).1 then Ok (a + S (length opened.1))
          else Err "Failed to send to output."%string,
          {| channels := (deliver (s :: opened.1) x (channels w)).2; loads := n'; counters := counters w |}) /\
    ((deliver (s :: opened.1) x (channels w)).1 = true -> n' = opened.2).
Proof.
  revert k s a w. induction fuel as [|fuel IH]; intros k s a w Hk Hf opened;
    pose proof (lookup_lt_Some _ _ _ Hk) as Hlt; [lia|].
  cbn [send_loop]. replace (k + 1) with (S k) by lia.
  destruct (next_active_spec (S k) t w) as (p & n' & -> & Hp); [lia|]. simpl.
  destruct p as [k'|].
  - destruct Hp as (s' & Hk' & Hkk & Ho). fold opened in Ho. rewrite Ho. rewrite Hk. simpl.
    destruct (mpsc_send (sender s) x (channels w)) as [[|] c].
    + destruct (IH k' s' (a + 1) (set_channels c {| channels := channels w; loads := n'; counters := counters w |}) Hk')
        as (n'' & -> & Hn); [lia|]. simpl in *.
      destruct (mpsc_send (sender s') x c) as [[|] c'']; exists n''; (split; [|done]); [|done].
      do 2 f_equal. destruct (deliver _ x c'') as [[|] ?]; [|done]. simpl. f_equal. lia.
    + exists n'. by split.
  - subst opened. rewrite Hp, Hk. simpl.
    destruct (mpsc_send (sender s) x (channels w)) as [[|] c].
    + exists n'. split; [|done]. destruct fuel; simpl; do 2 f_equal; f_equal; lia.
    + exists n'. by split.
Qed.

(** Which senders are open: some of all, in order, and every one without a gate. *)
Lemma open_senders_sublist l n : (open_senders l n).1 `sublist_of` l.
Proof.
  revert n. induction l as [|s l IH]; intros n; simpl; [done|].
  destruct (is_active gate_at s n) as [[|] n1]; specialize (IH n1); destruct (open_senders l n1); simpl in *;
    by constructor.
Qed.

Lemma open_senders_ungated l n :
  filter (fun s => gate s = None) (open_senders l n).1 = filter (fun s => gate s = None) l.
Proof.
  revert n. induction l as [|s l IH]; intros n; simpl; [done|].
  destruct (is_active gate_at s n) as [a n1] eqn:Ea. specialize (IH n1).
  destruct (open_senders l n1) as [o n2]; simpl in *. unfold is_active in Ea.
  destruct (gate s) as [g|] eqn:Eg; injection Ea as <- <-.
  - rewrite (filter_cons_False _ _ l) by congruence. destruct (gate_at n g); simpl; [|done].
    by rewrite filter_cons_False by congruence.
  - simpl. rewrite !filter_cons_True by done. by rewrite IH.
Qed.

Lemma open_senders_all l n : Forall (fun s => gate s = None) l -> open_senders l n = (l, n).
Proof.
  revert n. induction l as [|s l IH]; intros n Hl; simpl; [done|]. inversion_clear Hl as [|? ? Hs Hl'].
  unfold is_active. rewrite Hs. by rewrite IH.
Qed.

(** The number of copies of an item that a channel gets from [l]. *)
Definition copies (l : list GatedSender) (ch : nat) : nat := length (filter (fun s => sender s = ch) l).

Lemma copies_sublist l l' ch : l' `sublist_of` l -> copies l' ch <= copies l ch.
Proof.
  unfold copies. induction 1 as [|s l1 l2 _ IH|s l1 l2 _ IH]; [done| |]; rewrite !filter_cons;
    destruct (decide (sender s = ch)); cbn; lia.
Qed.

Lemma copies_NoDup l ch : NoDup (sender <$> l) -> copies l ch <= 1.
Proof.
  unfold copies. induction l as [|s l IH]; [cbn; lia|]. rewrite fmap_cons. intros [Hs Hnd]%NoDup_cons. specialize (IH Hnd).
  rewrite filter_cons. destruct (decide (sender s = ch)) as [<-|]; [|done]. cbn.
  destruct (filter _ l) as [|s' l'] eqn:Ef; [cbn; lia|]. exfalso. apply Hs.
  assert (Hin : s' ∈ filter (fun s0 => sender s0 = sender s) l) by (rewrite Ef; left).
  apply list_elem_of_filter in Hin as [E Hin]. apply list_elem_of_fmap. by exists s'.
Qed.

Lemma copies_elem l s : s ∈ l -> 1 <= copies l (sender s).
Proof.
  intros Hs. unfold copies.
  assert (Hin : s ∈ filter (fun s0 => sender s0 = sender s) l) by by apply list_elem_of_filter.
  destruct (filter _ l); [by apply not_elem_of_nil in Hin|cbn; lia].
Qed.

Lemma open_senders_elem l n s : s ∈ l -> gate s = None -> s ∈ (open_senders l n).1.
Proof.
  intros Hs Hg. assert (Hin : s ∈ filter (fun s => gate s = None) (open_senders l n).1).
  { rewrite open_senders_ungated. by apply list_elem_of_filter. }
  by apply list_elem_of_filter in Hin as [_ ?].
Qed.

Lemma deliver_spec `{!MpscLaws T} l x c :
  exists k, k <= length l /\ ((deliver l x c).1 = true <-> k = length l) /\
    forall ch, delivered (deliver l x c).2 ch = delivered c ch ++ replicate (copies (take k l) ch) x.
Proof.
  revert c. induction l as [|s l IH]; intros c; simpl.
  { exists 0. split_and!; [done|done|]. intros ch. by rewrite app_nil_r. }
  pose proof (send_delivers (sender s) x c) as Hd. destruct (mpsc_send (sender s) x c) as [[|] c1].
  - destruct (IH c1) as (k & Hk & Hok & Hch). exists (S k). split; [lia|]. split; [rewrite Hok; lia|].
    intros ch. rewrite Hch, Hd. simpl. unfold copies. rewrite filter_cons. simpl.
    destruct (decide (sender s = ch)) as [<-|Hne].
    + rewrite bool_decide_eq_true_2 by done. by rewrite <- app_assoc.
    + rewrite bool_decide_eq_false_2 by done. by rewrite app_nil_r.
  - exists 0. split; [lia|]. split; [split; [done|lia]|]. intros ch. by rewrite Hd.
Qed.

Lemma counted_count m f (w : World T) m' :
  counted m' (count m f w) = if decide (m' = m) then f (counted m w) else counted m' w.
Proof.
  unfold counted, count; simpl. case_decide as E; [subst; by rewrite lookup_insert_eq|].
  by rewrite lookup_insert_ne by done.
Qed.

(** The two conditional increments at the end of [send]. *)
Lemma counted_increments m0 e a n (w : World T) m :
  let w1 := if 0 <? e then count m0 (add_elided (e * n)) w else w in
  let w2 := if 0 <? a then count m0 (add_sent (a * n)) w1 else w1 in
  counted m w2 =
    if bool_decide (m = m0) then
      {| events_sent_total := events_sent_total (counted m w) + a * n;
         events_discarded_total := events_discarded_total (counted m w);
         events_elided_total := events_elided_total (counted m w) + e * n |}
    else counted m w.
Proof.
  intros w1 w2.
  assert (E1 : counted m w1 = if bool_decide (m = m0) then add_elided (e * n) (counted m w) else counted m w).
  { unfold w1. destruct e; simpl.
    - case_bool_decide; [|done]. unfold add_elided. destruct (counted m w); simpl. f_equal; lia.
    - rewrite counted_count. case_bool_decide; case_decide; by subst. }
  assert (E2 : counted m w2 = if bool_decide (m = m0) then add_sent (a * n) (counted m w1) else counted m w1).
  { unfold w2. destruct a; simpl.
    - case_bool_decide; [|done]. unfold add_sent. destruct (counted m w1); simpl. f_equal; lia.
    - rewrite counted_count. case_bool_decide; case_decide; by subst. }
  rewrite E2, E1. by case_bool_decide.
Qed.

(** What one item that was sent to [k] connections of [t] does to the counters. *)
Definition send_counted (t : DispatchTarget) (k n : nat) (c : Counters) : Counters :=
  {| events_sent_total := events_sent_total c + k * n;
     events_discarded_total := events_discarded_total c + (if bool_decide (senders t = []) then n else 0);
     events_elided_total := events_elided_total c + (length (senders t) - k) * n |}.

Lemma send_spec t x (w : World T) :
  let opened := open_senders (senders t) (loads w) in
  let ok := (deliver opened.1 x (channels w)).1 in
  exists w', send gate_at t x w = Some (if ok then Ok tt else Err "Failed to send to output."%string, w') /\
    channels w' = (deliver opened.1 x (channels w)).2 /\
    (ok = true -> loads w' = opened.2) /\
    forall m, counted m w' = if ok && bool_decide (m = metrics t)
                             then send_counted t (length opened.1) (dispatch_count x) (counted m w)
                             else counted m w.
Proof.
  intros opened ok. unfold send. case_bool_decide as Es.
  { assert (Eo : opened = ([], loads w)) by (unfold opened; by rewrite Es).
    unfold ok in *. rewrite Eo in *. simpl. eexists. split; [done|]. split; [done|]. split; [done|]. intros m.
    rewrite counted_count. unfold send_counted, add_discarded. rewrite Es.
    case_decide as Em; [subst m; rewrite !bool_decide_eq_true_2 by done; simpl; f_equal; lia|].
    by rewrite bool_decide_eq_false_2. }
  destruct (next_active_spec 0 t w) as (p & n' & -> & Hp); [lia|]. cbn [mbind option_bind].
  rewrite drop_0 in Hp. fold opened in Hp.
  set (w0 := {| channels := channels w; loads := n'; counters := counters w |}).
  assert (Hl : exists n'', send_loop gate_at (length (senders t)) t (Some x) p 0 w0 =
      Some (if ok then Ok (length opened.1) else Err "Failed to send to output."%string,
            {| channels := (deliver opened.1 x (channels w)).2; loads := n''; counters := counters w |}) /\
      (ok = true -> n'' = opened.2)).
  { destruct p as [k|].
    - destruct Hp as (s & Hs & _ & Ho). unfold ok. rewrite Ho.
      by destruct (send_loop_spec (length (senders t)) t x k s 0 w0 Hs) as (n'' & Hl & Hn); [lia|]; eauto.
    - unfold ok. rewrite Hp. exists n'. split; [|done]. by destruct (length (senders t)). }
  destruct Hl as (n'' & -> & Hn). destruct ok; cbn [mbind option_bind]; [|by eexists].
  eexists. split; [done|]. split; [by repeat case_match|].
  split; [intros _; rewrite <- Hn by done; by repeat case_match|].
  intros m. rewrite counted_increments. unfold send_counted, counted; simpl.
  rewrite (bool_decide_eq_false_2 (senders t = [])) by done. case_bool_decide; [|done]. f_equal; lia.
Qed.

End sending.
(** ** Batches *)

Section batches.
Context {T Item : Type} `{!Mpsc T} `{!DispatchBuffer T Item} `{!DispatchBufferLaws T Item}
  (gate_at : nat -> EdgeGate -> bool).

(** Sending some buffers one after the other, all but the last successfully. *)
Inductive sends (t : DispatchTarget) : list T -> World T -> result string unit -> World T -> Prop :=
| sends_done w : sends t [] w (Ok tt) w
| sends_next b bs w w1 r w2 : send gate_at t b w = Some (Ok tt, w1) -> sends t bs w1 r w2 ->
    sends t (b :: bs) w r w2
| sends_fail b w e w1 : send gate_at t b w = Some (Err e, w1) -> sends t [b] w (Err e) w1.

Definition pending (d : BufferedDispatcher) : list Item := default [] (items <$> buffer d).

Lemma try_flush_spec b d w : items b <> [] ->
  exists r w', try_flush_buffer gate_at b d w = Some (r, w') /\ send gate_at (target d) b w = Some (r, w').
Proof.
  intros Hb. unfold try_flush_buffer. rewrite buffer_len_items.
  destruct (items b) as [|y l]; [done|]. simpl.
  destruct (send_spec gate_at (target d) b w) as (w' & -> & _). eauto.
Qed.

(** Adding to a buffer that has room. *)
Lemma push_room (item : Item) d w b : buffer_is_full b = false -> b = default buffer_default (buffer d) ->
  exists b', items b' = items b ++ [item] /\ push gate_at item d w =
    Some (Ok tt, {| flushed_len := flushed_len d + 1; buffer := Some b'; target := target d |}, w).
Proof.
  intros Hf Eb. destruct (try_push_room item b Hf) as (b' & Hp & Hb').
  exists b'. split; [done|]. unfold push. destruct (buffer d) as [b0|] eqn:Ed; simpl in *; subst b.
  - rewrite Hf. cbn. rewrite Ed. cbn. by rewrite Hp.
  - rewrite Ed. cbn. by rewrite Hp.
Qed.

Lemma push_full (item : Item) d w b : buffer d = Some b -> buffer_is_full b = true ->
  exists r w1, send gate_at (target d) b w = Some (r, w1) /\
    match r with
    | Err e => exists d', push gate_at item d w = Some (Err e, d', w1)
    | Ok _ => exists b', items b' = [item] /\ push gate_at item d w =
        Some (Ok tt, {| flushed_len := flushed_len d + 1; buffer := Some b'; target := target d |}, w1)
    end.
Proof.
  intros Eb Hf.
  destruct (try_flush_spec b {| flushed_len := flushed_len d; buffer := None; target := target d |} w)
    as (r & w1 & Ht & Hs); [by apply full_not_empty|].
  exists r, w1. split; [done|]. unfold push. rewrite Eb, Hf. cbn -[try_flush_buffer]. rewrite Ht. cbn.
  destruct r as [[]|e]; [|by eexists].
  destruct (try_push_room item buffer_default default_not_full) as (b' & -> & Hb').
  exists b'. by rewrite Hb', items_default.
Qed.

Lemma buffered_flush_spec d w : items buffer_default = [] -> 
  (forall b, buffer d = Some b -> items b <> []) ->
  exists bs r w1, sends (target d) bs w r w1 /\
    flush gate_at d w = Some (match r with
      | Ok _ => (Ok (flushed_len d), count (metrics (target d)) (add_sent (flushed_len d)) w1)
      | Err e => (Err e, w1) end) /\
    concat (items <$> bs) = pending d /\ Forall (fun b => items b <> []) bs /\
    (forall b bs', bs = bs' ++ [b] -> bs' = []).
Proof.
  intros _ Hne. unfold flush, pending. destruct (buffer d) as [b|]; simpl.
  - destruct (try_flush_spec b d w) as (r & w1 & -> & Hs); [by apply Hne|]. simpl. exists [b], r, w1.
    split; [destruct r as [[]|e]; [by eapply sends_next; [|constructor]|by constructor]|].
    split; [by destruct r|]. simpl. rewrite app_nil_r. split; [done|].
    split; [by repeat constructor; apply Hne|]. intros b' bs' Eb. by destruct bs' as [|? [|]].
  - exists [], (Ok tt), w. split; [constructor|]. split_and!; try done. intros b' bs' Eb. by destruct bs'.
Qed.

(** All but the last buffer are full. *)
Definition batched (bs : list T) : Prop := forall b bs', bs = bs' ++ [b] -> Forall (fun b => buffer_is_full b = true) bs'.

Lemma batched_cons b bs : buffer_is_full b = true -> batched bs -> batched (b :: bs).
Proof. intros Hf Hb b' [|b0 bs'] E; injection E as -> E; [done|]. constructor; [done|]. by eapply Hb. Qed.

Lemma send_all_spec (xs : list Item) d w : (forall b, buffer d = Some b -> items b <> []) ->
  exists bs r w1, sends (target d) bs w r w1 /\
    send_all gate_at xs d w = Some (match r with
      | Ok _ => (Ok (flushed_len d + length xs),
                 count (metrics (target d)) (add_sent (flushed_len d + length xs)) w1)
      | Err e => (Err e, w1) end) /\
    (exists lost, concat (items <$> bs) ++ lost = pending d ++ xs /\ (r = Ok tt -> lost = [])) /\
    Forall (fun b => items b <> []) bs /\ batched bs.
Proof.
  revert d w. induction xs as [|x xs IH]; intros d w Hne; cbn [send_all].
  { destruct (buffered_flush_spec d w items_default Hne) as (bs & r & w1 & Hs & -> & Hc & Hn & Hl).
    exists bs, r, w1. rewrite Nat.add_0_r. split_and!; try done.
    - exists []. by rewrite Hc.
    - intros b bs' Eb. by rewrite (Hl _ _ Eb). }
  destruct (buffer_is_full (default buffer_default (buffer d))) eqn:Ef.
  - destruct (buffer d) as [b|] eqn:Eb; simpl in Ef; [|by rewrite default_not_full in Ef].
    destruct (push_full x d w b Eb Ef) as (r & w1 & Hs & Hr). destruct r as [[]|e].
    + destruct Hr as (b' & Hb' & ->). cbn.
      destruct (IH {| flushed_len := flushed_len d + 1; buffer := Some b'; target := target d |} w1)
        as (bs & r & w2 & Hss & -> & (lost & Hc & Hlost) & Hn & Hb); [cbn; intros ? [= <-]; by rewrite Hb'|].
      cbn in *. exists (b :: bs), r, w2. split; [by eapply sends_next|].
      replace (flushed_len d + 1 + length xs) with (flushed_len d + S (length xs)) by lia.
      split; [done|]. split; [|split; [by constructor; [apply full_not_empty|]|by apply batched_cons]].
      exists lost. split; [|done]. cbn. rewrite <- app_assoc, Hc. unfold pending. rewrite Eb. cbn. by rewrite Hb'.
    + destruct Hr as (d' & ->). cbn. exists [b], (Err e), w1. split; [by constructor|]. split; [done|].
      split; [|split; [by repeat constructor; apply full_not_empty|]].
      * exists (x :: xs). cbn. rewrite app_nil_r. unfold pending. by rewrite Eb.
      * intros b' bs' E. by destruct bs' as [|? [|]].
  - destruct (push_room x d w _ Ef eq_refl) as (b' & Hb' & ->). cbn.
    destruct (IH {| flushed_len := flushed_len d + 1; buffer := Some b'; target := target d |} w)
      as (bs & r & w2 & Hss & -> & (lost & Hc & Hlost) & Hn & Hb);
      [cbn; intros ? [= <-]; rewrite Hb'; by destruct (items (default buffer_default (buffer d)))|].
    cbn in *. exists bs, r, w2. split; [done|].
    replace (flushed_len d + 1 + length xs) with (flushed_len d + S (length xs)) by lia.
    split; [done|]. split; [|done]. exists lost. split; [|done]. rewrite Hc. unfold pending. cbn. rewrite Hb'.
    rewrite <- app_assoc. destruct (buffer d); [done|]. cbn. by rewrite items_default.
Qed.

(** ** What the connections receive *)

Context `{!MpscLaws T}.

(** A channel that is used by one sender of the output receives some of the buffers, in order, and all
    of them if the sender has no gate. *)
Lemma sends_received t bs w w' s : sends t bs w (Ok tt) w' -> s ∈ senders t ->
  NoDup (sender <$> senders t) ->
  exists got, delivered (channels w') (sender s) = delivered (channels w) (sender s) ++ got /\
    got `sublist_of` bs /\ (gate s = None -> got = bs).
Proof.
  intros Hs Hin Hnd. remember (Ok tt) as r eqn:Er.
  induction Hs as [w|b bs w w1 r w2 Hsend Hs IH|]; [| |done].
  { exists []. by rewrite app_nil_r. }
  destruct (IH Er) as (got & Hgot & Hsub & Hall).
  destruct (send_spec gate_at t b w) as (w1' & Hsend' & Hc & _). rewrite Hsend' in Hsend.
  set (opened := open_senders gate_at (senders t) (loads w)) in *.
  destruct (deliver_spec opened.1 b (channels w)) as (k & _ & Hok & Hch).
  destruct (deliver opened.1 b (channels w)) as [ok c'] eqn:Ed. cbn in *.
  destruct ok; [|done]. injection Hsend as ->. rewrite (proj1 Hok eq_refl), firstn_all in Hch.
  rewrite Hgot, Hc, Hch. clear Hgot Hch.
  assert (Hle : copies opened.1 (sender s) <= 1).
  { etrans; [by apply copies_sublist, open_senders_sublist|by apply copies_NoDup]. }
  exists (replicate (copies opened.1 (sender s)) b ++ got). rewrite app_assoc. split; [done|].
  destruct (copies opened.1 (sender s)) as [|[|]] eqn:Ecop; [| |lia]; cbn; split.
  - by constructor.
  - intros Hg. pose proof (copies_elem _ _ (open_senders_elem gate_at _ (loads w) s Hin Hg)) as Hc1.
    fold opened in Hc1. lia.
  - by constructor.
  - intros Hg. by rewrite (Hall Hg).
Qed.

(** An output whose connections have no gates counts every item once for each of them. *)
Lemma sends_counted t bs w w' m : sends t bs w (Ok tt) w' -> Forall (fun s => gate s = None) (senders t) ->
  counted m w' = if bool_decide (m = metrics t)
                 then send_counted t (length (senders t)) (length (concat (items <$> bs))) (counted m w)
                 else counted m w.
Proof.
  intros Hs Hg. remember (Ok tt) as r eqn:Er.
  induction Hs as [w|b bs w w1 r w2 Hsend Hs IH|]; [| |done].
  { case_bool_decide; [|done]. unfold send_counted. destruct (counted m w); cbn. case_bool_decide; f_equal; lia. }
  destruct (send_spec gate_at t b w) as (w1' & Hsend' & _ & _ & Hm). rewrite Hsend' in Hsend.
  specialize (Hm m). rewrite (open_senders_all gate_at _ (loads w) Hg) in *. cbn in *.
  destruct (deliver (senders t) b (channels w)).1; [|done]. injection Hsend as ->.
  rewrite (IH Er), Hm. cbn. case_bool_decide; [|done].
  unfold send_counted, dispatch_count, buffer_dispatchable. rewrite item_count_items, length_app. cbn.
  case_bool_decide; f_equal; lia.
Qed.

End batches.

(** ** Theorems *)

Section theorems.
Context {T : Type} `{!Mpsc T} `{!MpscLaws T} `{!Dispatchable T} (gate_at : nat -> EdgeGate -> bool).

(** C21: Sending an item never panics and reads every gate of the output at most once, in order.  The
    item reaches the connections whose gates were open, each once and in order, until a channel turns
    out to be closed; connections without a gate are always among them.  The counters change only on
    success: the items are sent to each of these connections, elided for the others, and discarded if
    the output has no connections at all. *)
Theorem send_reaches_open_connections (t : DispatchTarget) (x : T) (w : World T) :
  let opened := open_senders gate_at (senders t) (loads w) in
  opened.1 `sublist_of` senders t /\
  filter (fun s => gate s = None) opened.1 = filter (fun s => gate s = None) (senders t) /\
  exists r w' k, send gate_at t x w = Some (r, w') /\ k <= length opened.1 /\
    (forall ch, delivered (channels w') ch = delivered (channels w) ch ++ replicate (copies (take k opened.1) ch) x) /\
    match r with
    | Ok _ => k = length opened.1 /\ loads w' = opened.2 /\
        forall m, counted m w' = if bool_decide (m = metrics t)
                                 then send_counted t k (dispatch_count x) (counted m w) else counted m w
    | Err _ => k < length opened.1 /\ forall m, counted m w' = counted m w
    end.
Proof.
  intros opened. split; [apply open_senders_sublist|]. split; [apply open_senders_ungated|].
  destruct (send_spec gate_at t x w) as (w' & Hs & Hc & Hl & Hm). fold opened in Hs, Hc, Hl, Hm.
  destruct (deliver_spec opened.1 x (channels w)) as (k & Hk & Hok & Hch).
  exists (if (deliver opened.1 x (channels w)).1 then Ok tt else Err "Failed to send to output."%string), w', k.
  split; [done|]. split; [done|]. split; [intros ch; by rewrite Hc|].
  destruct (deliver opened.1 x (channels w)).1; cbn in *.
  - rewrite <- (proj1 Hok eq_refl) in Hm. split; [by apply Hok|]. split; [by apply Hl|]. intros m. by rewrite Hm.
  - split; [|done]. destruct (decide (k = length opened.1)); [|lia]. by apply Hok in e.
Qed.

End theorems.

Section batch_theorems.
Context {T Item : Type} `{!Mpsc T} `{!MpscLaws T} `{!DispatchBuffer T Item} `{!DispatchBufferLaws T Item}
  (gate_at : nat -> EdgeGate -> bool).

(** C11: A buffered dispatcher turns a sequence of items into buffers that are full but for the last, never
    empty, and together hold the items in their order: all of them if every send succeeded, and those
    before the failure otherwise.  A connection with a channel of its own gets all the buffers, in order,
    or, if it has a gate, some of them.  On success the result is the number of items, and that number is
    added to the count of sent events. *)
Theorem batches_keep_items (t : DispatchTarget) (xs : list Item) (w : World T) :
  NoDup (sender <$> senders t) ->
  exists bs r w1, sends gate_at t bs w r w1 /\
    send_all gate_at xs (BufferedDispatcher_new t) w =
      Some (match r with
            | Ok _ => (Ok (length xs), count (metrics t) (add_sent (length xs)) w1)
            | Err e => (Err e, w1)
            end) /\
    concat (items <$> bs) `prefix_of` xs /\ (r = Ok tt -> concat (items <$> bs) = xs) /\
    Forall (fun b => items b <> []) bs /\ batched bs /\
    (r = Ok tt -> forall s, s ∈ senders t ->
      exists got, delivered (channels w1) (sender s) = delivered (channels w) (sender s) ++ got /\
        got `sublist_of` bs /\ (gate s = None -> got = bs)).
Proof.
  intros Hnd. destruct (send_all_spec gate_at xs (BufferedDispatcher_new t) w) as
    (bs & r & w1 & Hs & Ha & (lost & Hc & Hl) & Hn & Hb); [done|]. cbn in *.
  exists bs, r, w1. split; [done|]. split; [done|]. split; [by exists lost|].
  split; [intros Er; rewrite (Hl Er), app_nil_r in Hc; done|]. split; [done|]. split; [done|].
  intros -> s Hin. by eapply sends_received.
Qed.

(** What sending a sequence of items through a buffered dispatcher adds to the counters of an output
    without gates: every item once for each connection, and once more when the dispatcher is flushed; an
    output without connections counts every item as discarded and as sent. *)
Theorem buffered_events_counted_again (t : DispatchTarget) (xs : list Item) (w w' : World T) (n : nat) :
  Forall (fun s => gate s = None) (senders t) ->
  send_all gate_at xs (BufferedDispatcher_new t) w = Some (Ok n, w') ->
  n = length xs /\
  events_sent_total (counted (metrics t) w') =
    events_sent_total (counted (metrics t) w) + (length (senders t) + 1) * length xs /\
  events_discarded_total (counted (metrics t) w') =
    events_discarded_total (counted (metrics t) w) +
      (if bool_decide (senders t = []) then length xs else 0).
Proof.
  intros Hg Ha. destruct (send_all_spec gate_at xs (BufferedDispatcher_new t) w) as
    (bs & r & w1 & Hs & Ha' & (lost & Hc & Hl) & _); [done|].
  rewrite Ha in Ha'. destruct r as [[]|e]; [|done]. injection Ha' as -> ->.
  rewrite (Hl eq_refl), app_nil_r in Hc. cbn in *.
  pose proof (sends_counted gate_at _ _ _ _ (metrics t) Hs Hg) as Hm. rewrite Hc, bool_decide_eq_true_2 in Hm by done.
  rewrite !counted_count, decide_True by done. rewrite Hm. cbn. split; [done|]. lia.
Qed.

End batch_theorems.

(** ** Examples *)

Module Connections.

Import Buffers.

Abbreviation Buf := (FixedSizeEventBuffer (Met := nat) (Evd := nat) (Chk := nat) (Lg := nat) (Trc := nat) (Sta := nat) (M := Z)).

(** Channels that keep what they are given; channel 9 has no receiver. *)
#[export] Instance log_mpsc {T} : Mpsc T := {|
  Channels := gmap nat (list T);
  mpsc_send := fun s x c => if s =? 9 then (false, c) else (true, <[s := default [] (c !! s) ++ [x]]> c);
|}.

#[export] Instance log_mpsc_laws {T} : MpscLaws T.
Proof.
  refine {| delivered := fun (c : @Channels T log_mpsc) s => default [] (c !! s) |}.
  intros s x c s'. cbn. destruct (s =? 9); cbn; [by rewrite app_nil_r|].
  case_bool_decide as E; [subst; by rewrite lookup_insert_eq|].
  by rewrite lookup_insert_ne, app_nil_r.
Defined.

#[export] Instance pair_buffers : DispatchBuffer Buf AnEvent := event_dispatch_buffer 2.
#[export] Instance pair_buffers_laws : DispatchBufferLaws Buf AnEvent := event_buffer_laws 2 Nat.lt_0_2.

Definition quiet {T} : World T := {| channels := (∅ : @Channels T log_mpsc); loads := 0; counters := ∅ |}.

(** Two plain connections and one whose gate is closed from the second load on. *)
Definition an_output : DispatchTarget :=
  {| metrics := {| label_id := "in"; label_type := "source"; label_output := "_default" |};
     senders := [{| sender := 1; gate := None |}; {| sender := 2; gate := Some 0 |};
                 {| sender := 3; gate := None |}] |}.

Definition closes (n : nat) (g : EdgeGate) : bool := n <? 1.

Definition three : list AnEvent := [metric 1; log 2; metric 3].

Lemma batches_keep_items_witness :
  exists bs r w1, sends closes an_output bs quiet r w1 /\
    send_all closes three (BufferedDispatcher_new an_output) quiet =
      Some (match r with
            | Ok _ => (Ok 3, count (metrics an_output) (add_sent 3) w1)
            | Err e => (Err e, w1)
            end) /\
    (r = Ok tt -> concat (items <$> bs) = three).
Proof.
  destruct (batches_keep_items closes an_output three quiet) as (bs & r & w1 & Hs & Ha & _ & Hc & _).
  { vm_compute. repeat constructor; set_solver. }
  exists bs, r, w1. split; [exact Hs|]. split; [exact Ha|exact Hc].
Defined.

(** Every connection has what it should, eight events in all, but the counter of sent events says eleven. *)
Example three_events_to_an_output :
  exists w, send_all closes three (BufferedDispatcher_new an_output) quiet = Some (Ok 3, w) /\
    concat (items <$> delivered (channels w) 1) = three /\
    concat (items <$> delivered (channels w) 2) = [metric 1; log 2] /\
    counted (metrics an_output) w =
      {| events_sent_total := 11; events_discarded_total := 0; events_elided_total := 1 |}.
Proof. eexists. split; [vm_compute; reflexivity|]. by vm_compute. Qed.

Definition lonely_output : DispatchTarget := {| metrics := metrics an_output; senders := [] |}.

Lemma buffered_events_counted_again_witness :
  exists w, send_all closes three (BufferedDispatcher_new lonely_output) quiet = Some (Ok 3, w) /\
    events_sent_total (counted (metrics lonely_output) w) = 3 /\
    events_discarded_total (counted (metrics lonely_output) w) = 3.
Proof.
  eexists. split; [vm_compute; reflexivity|].
  match goal with |- events_sent_total (counted _ ?w) = _ /\ _ =>
    destruct (buffered_events_counted_again closes lonely_output three quiet w 3) as (_ & Hs & Hd)
  end; [apply Forall_nil_2|vm_compute; reflexivity|].
  split; [exact Hs|exact Hd].
Defined.

(** A closed channel stops the item on its way: earlier connections have it, and nothing is counted. *)
Example closed_channel_stops_the_item :
  let t := {| metrics := metrics an_output;
              senders := [{| sender := 1; gate := None |}; {| sender := 9; gate := None |};
                          {| sender := 3; gate := None |}] |} in
  exists w, send (T := Buf) closes t {| events := [metric 1]; seen_event_types := 1%Z |} quiet =
      Some (Err "Failed to send to output."%string, w) /\
    length (delivered (channels w) 1) = 1 /\ delivered (channels w) 3 = [] /\
    counted (metrics t) w = no_events.
Proof. eexists. split; [vm_compute; reflexivity|]. by vm_compute. Qed.

End Connections.
