(* ===== verification/Wiring.v ===== *)
(** * Wiring: from a graph to connected components

    Models the interconnects and the spawning of [lib/saluki-core/src/topology/built.rs], with the part of
    [lib/saluki-core/src/health/mod.rs] that registers components.  Every component that sends gets a
    dispatcher, every component that receives a channel, and the edges of the graph say whose sender is
    attached to which output.

    The code has each map and function twice, for events and for payloads; here the maps are keyed by the
    [Flavor] as well.  A built component is a value of the type [Comp]; its scope, its resource accounting
    and the runtime handles are not modelled.  A panic is [None]. *)

From Stdlib Require Import ZArith Lia Strings.String.
From stdpp Require Import base tactics list numbers option gmap strings.
From S2P Require Import Prelude Ids Subsystem Graph Conditions EventBuffer Dispatcher.
Open Scope nat_scope.

(** ** Interconnects *)

Inductive Flavor := Events | Payloads.

#[export] Instance Flavor_eq_dec : EqDecision Flavor.
Proof. solve_decision. Defined.

#[export] Instance Flavor_countable : Countable Flavor.
Proof.
  refine (inj_countable' (fun f => match f with Events => true | Payloads => false end)
            (fun b : bool => if b then Events else Payloads) _).
  by intros [].
Defined.

(** The receiving end of a channel. *)
Record Consumer := { consumer_context : ComponentContext; inner : nat }.

Record ComponentInterconnects := {
  interconnect_capacity : nat;
  topology_id : SubsystemIdentifier;
  dispatchers : gmap (Flavor * ComponentContext) Dispatcher;
  consumers : gmap (Flavor * ComponentContext) (nat * Consumer);
  made : list nat; (* the capacities of the channels made so far; a channel is its position *)
}.

Definition ComponentContext_new (root : SubsystemIdentifier) (t : TypedComponentId) : ComponentContext :=
  {| topology_root := root; context_id := id t; context_type := ty t |}.

Definition can_dispatch (f : Flavor) (t : ComponentType) : bool :=
  match f, t with
  | Events, (CSource | CDecoder | CTransform) | Payloads, (CRelay | CEncoder) => true
  | _, _ => false
  end.

Definition can_consume (f : Flavor) (t : ComponentType) : bool :=
  match f, t with
  | Events, (CTransform | CDestination | CEncoder) | Payloads, (CDecoder | CForwarder) => true
  | _, _ => false
  end.

(** [get_or_create_events_sender], [get_or_create_payloads_sender], with [build_consumer_pair] *)
Definition get_or_create_sender (f : Flavor) (component_id : TypedComponentId) (ic : ComponentInterconnects)
    : option (nat * ComponentInterconnects) :=
  let component_context := ComponentContext_new (topology_id ic) component_id in
  if can_consume f (ty component_id) then
    match consumers ic !! (f, component_context) with
    | Some (sender, _) => Some (sender, ic)
    | None =>
        let channel := length (made ic) in
        let consumer := {| consumer_context := component_context; inner := channel |} in
        Some (channel, {| interconnect_capacity := interconnect_capacity ic; topology_id := topology_id ic;
                          dispatchers := dispatchers ic;
                          consumers := <[(f, component_context) := (channel, consumer)]> (consumers ic);
                          made := made ic ++ [interconnect_capacity ic] |})
    end
  else None.

Definition set_dispatcher (k : Flavor * ComponentContext) (d : Dispatcher) (ic : ComponentInterconnects)
    : ComponentInterconnects :=
  {| interconnect_capacity := interconnect_capacity ic; topology_id := topology_id ic;
     dispatchers := <[k := d]> (dispatchers ic); consumers := consumers ic; made := made ic |}.

(** [get_or_create_events_dispatcher], [get_or_create_payloads_dispatcher] *)
Definition get_or_create_dispatcher (f : Flavor) (component_id : TypedComponentId) (ic : ComponentInterconnects)
    : option Dispatcher :=
  let component_context := ComponentContext_new (topology_id ic) component_id in
  if can_dispatch f (ty component_id) then
    Some (default (Dispatcher_new component_context) (dispatchers ic !! (f, component_context)))
  else None.

Definition edge_gate (cs : EdgeConditions) (upstream_id : TypedComponentId) (o : OutputName)
    (downstream_id : TypedComponentId) : option EdgeGate :=
  gate_of {| upstream := id upstream_id; key_output := o; downstream := id downstream_id |} cs.

(** The senders for the components that an output is connected to. *)
Fixpoint collect_senders (f : Flavor) (cs : EdgeConditions) (upstream_id : TypedComponentId) (o : OutputName)
    (downstream_ids : list TypedComponentId) (ic : ComponentInterconnects)
    : option (list (nat * option EdgeGate) * ComponentInterconnects) :=
  match downstream_ids with
  | [] => Some ([], ic)
  | downstream_id :: downstream_ids' =>
      let gate := edge_gate cs upstream_id o downstream_id in
      '(sender, ic) ← get_or_create_sender f downstream_id ic;
      '(senders, ic) ← collect_senders f cs upstream_id o downstream_ids' ic;
      Some ((sender, gate) :: senders, ic)
  end.

Fixpoint attach_senders (o : OutputName) (senders : list (nat * option EdgeGate)) (d : Dispatcher)
    : result string Dispatcher :=
  match senders with
  | [] => Ok d
  | (sender, gate) :: senders' =>
      match attach_gated_sender_to_output o sender gate d with
      | (Err e, _) => Err e
      | (Ok _, d) => attach_senders o senders' d
      end
  end.

(** [generate_event_interconnect], [generate_payload_interconnect]: the body of the loop and the loop *)
Definition connect_output (f : Flavor) (cs : EdgeConditions) (upstream_id : TypedComponentId) (o : OutputName)
    (downstream_ids : list TypedComponentId) (ic : ComponentInterconnects)
    : option (result string ComponentInterconnects) :=
  '(senders, ic) ← collect_senders f cs upstream_id o downstream_ids ic;
  dispatcher ← get_or_create_dispatcher f upstream_id ic;
  match add_output o dispatcher with
  | (Err e, _) => Some (Err e)
  | (Ok _, dispatcher) =>
      match attach_senders o senders dispatcher with
      | Err e => Some (Err e)
      | Ok dispatcher =>
          Some (Ok (set_dispatcher (f, ComponentContext_new (topology_id ic) upstream_id) dispatcher ic))
      end
  end.

Fixpoint generate_interconnect (f : Flavor) (cs : EdgeConditions) (upstream_id : TypedComponentId)
    (output_map : list (OutputName * list TypedComponentId)) (ic : ComponentInterconnects)
    : option (result string ComponentInterconnects) :=
  match output_map with
  | [] => Some (Ok ic)
  | (o, downstream_ids) :: output_map' =>
      r ← connect_output f cs upstream_id o downstream_ids ic;
      match r with
      | Err e => Some (Err e)
      | Ok ic => generate_interconnect f cs upstream_id output_map' ic
      end
  end.

(** Which of the two generators a component needs; the others panic. *)
Definition dispatch_flavor (t : ComponentType) : option Flavor :=
  match t with
  | CSource | CDecoder | CTransform => Some Events
  | CRelay | CEncoder => Some Payloads
  | CForwarder | CDestination => None
  end.

Fixpoint generate_loop `{HashOrder} (cs : EdgeConditions)
    (edges : list (TypedComponentId * gmap OutputName (list TypedComponentId))) (ic : ComponentInterconnects)
    : option (result string ComponentInterconnects) :=
  match edges with
  | [] => Some (Ok ic)
  | (upstream_id, output_map) :: edges' =>
      f ← dispatch_flavor (ty upstream_id);
      r ← generate_interconnect f cs upstream_id (hash_order (map_to_list output_map)) ic;
      match r with
      | Err e => Some (Err e)
      | Ok ic => generate_loop cs edges' ic
      end
  end.

Definition generate_interconnects `{HashOrder} (g : Graph) (cs : EdgeConditions) (ic : ComponentInterconnects)
    : option (result string ComponentInterconnects) :=
  outbound_edges ← get_outbound_directed_edges g;
  generate_loop cs (hash_order (map_to_list outbound_edges)) ic.

Definition no_interconnects (capacity : nat) (root : SubsystemIdentifier) : ComponentInterconnects :=
  {| interconnect_capacity := capacity; topology_id := root; dispatchers := ∅; consumers := ∅; made := [] |}.

Definition from_graph `{HashOrder} (capacity : nat) (root : SubsystemIdentifier) (g : Graph) (cs : EdgeConditions)
    : option (result string ComponentInterconnects) :=
  generate_interconnects g cs (no_interconnects capacity root).

Definition flavor_str (f : Flavor) : string := match f with Events => "events" | Payloads => "payloads" end.

Definition not_found (f : Flavor) (what : string) (c : ComponentContext) : string :=
  "No " +:+ flavor_str f +:+ " " +:+ what +:+ " found for " +:+ as_str (context_type c) +:+ " component '" +:+ context_id c +:+ "'".

(** [take_events_dispatcher], [take_payloads_dispatcher] *)
Definition take_dispatcher (f : Flavor) (c : ComponentContext) (ic : ComponentInterconnects)
    : result string (Dispatcher * ComponentInterconnects) :=
  match dispatchers ic !! (f, c) with
  | None => Err (not_found f "dispatcher" c)
  | Some d => Ok (d, {| interconnect_capacity := interconnect_capacity ic; topology_id := topology_id ic;
                        dispatchers := delete (f, c) (dispatchers ic); consumers := consumers ic; made := made ic |})
  end.

(** [take_events_consumer], [take_payloads_consumer] *)
Definition take_consumer (f : Flavor) (c : ComponentContext) (ic : ComponentInterconnects)
    : result string (Consumer * ComponentInterconnects) :=
  match consumers ic !! (f, c) with
  | None => Err (not_found f "consumer" c)
  | Some (_, consumer) =>
      Ok (consumer, {| interconnect_capacity := interconnect_capacity ic; topology_id := topology_id ic;
                       dispatchers := dispatchers ic; consumers := delete (f, c) (consumers ic); made := made ic |})
  end.

(** ** Health registration *)

(** The identifiers that are registered; [register_component] refuses one that already is. *)
Abbreviation HealthRegistry := (gset SubsystemIdentifier).

Definition register_component (i : SubsystemIdentifier) (registry : HealthRegistry) : option HealthRegistry :=
  if bool_decide (i ∈ registry) then None else Some ({[i]} ∪ registry).

Definition build_health_handle `{Unicode} (c : ComponentContext) (registry : HealthRegistry)
    : result string HealthRegistry :=
  match register_component (identity c) registry with
  | Some registry => Ok registry
  | None => Err ("duplicate " +:+ as_str (context_type c) +:+ " component ID in health registry: " +:+ context_id c)
  end.

(** ** Spawning *)

Section spawn.
Context {Comp : Type} `{Unicode} `{HashOrder}.

(** [BuiltTopology]; every component is of the type of its context. *)
Record BuiltTopology := {
  built_id : SubsystemIdentifier;
  graph : Graph;
  sources : gmap ComponentContext Comp;
  relays : gmap ComponentContext Comp;
  decoders : gmap ComponentContext Comp;
  transforms : gmap ComponentContext Comp;
  destinations : gmap ComponentContext Comp;
  encoders : gmap ComponentContext Comp;
  forwarders : gmap ComponentContext Comp;
  built_capacity : nat;
  edge_conditions : EdgeConditions;
}.

(** The runnable of a component: what it consumes from and dispatches to. *)
Record Worker := {
  worker_context : ComponentContext;
  component : Comp;
  consumer : option Consumer;
  dispatcher : option Dispatcher;
}.

(** What is threaded through [spawn_inner]: the interconnects that are left, the health registry and the
    workers of the supervisor. *)
Record Spawning := { interconnects : ComponentInterconnects; health : HealthRegistry; workers : list Worker }.

(** The body of one of the seven loops: [takes] is the flavor of the consumer, if the kind has one, and
    [gives] that of the dispatcher. *)
Definition spawn_component (takes gives : option Flavor) (c : ComponentContext) (comp : Comp) (st : Spawning)
    : result string Spawning :=
  '(co, ic) ← match takes with
              | Some f => '(co, ic) ← take_consumer f c (interconnects st); Ok (Some co, ic)
              | None => Ok (None, interconnects st)
              end;
  '(di, ic) ← match gives with
              | Some f => '(di, ic) ← take_dispatcher f c ic; Ok (Some di, ic)
              | None => Ok (None, ic)
              end;
  h ← build_health_handle c (health st);
  Ok {| interconnects := ic; health := h;
        workers := workers st ++ [{| worker_context := c; component := comp; consumer := co; dispatcher := di |}] |}.

Fixpoint spawn_components (takes gives : option Flavor) (l : list (ComponentContext * Comp)) (st : Spawning)
    : result string Spawning :=
  match l with
  | [] => Ok st
  | (c, comp) :: l' => st ← spawn_component takes gives c comp st; spawn_components takes gives l' st
  end.

Definition spawn_inner (t : BuiltTopology) (registry : HealthRegistry) : option (result string Spawning) :=
  r ← from_graph (built_capacity t) (built_id t) (graph t) (edge_conditions t);
  match r with
  | Err e => Some (Err ("Failed to build component interconnects.: " +:+ e))
  | Ok ic =>
      Some (
        st ← spawn_components None (Some Events) (hash_order (map_to_list (sources t)))
               {| interconnects := ic; health := registry; workers := [] |};
        st ← spawn_components None (Some Payloads) (hash_order (map_to_list (relays t))) st;
        st ← spawn_components (Some Payloads) (Some Events) (hash_order (map_to_list (decoders t))) st;
        st ← spawn_components (Some Events) (Some Events) (hash_order (map_to_list (transforms t))) st;
        st ← spawn_components (Some Events) None (hash_order (map_to_list (destinations t))) st;
        st ← spawn_components (Some Events) (Some Payloads) (hash_order (map_to_list (encoders t))) st;
        spawn_components (Some Payloads) None (hash_order (map_to_list (forwarders t))) st)
  end.

End spawn.

Arguments BuiltTopology Comp : clear implicits.
Arguments Worker Comp : clear implicits.
Arguments Spawning Comp : clear implicits.
