(* ===== verification/WiringProofs.v ===== *)
(** * WiringProofs: a validated graph is wired as it says

    [wired] describes the interconnects after some outputs have been processed; [wired_graph] is the
    result for a whole graph.  The theorem [spawn_decides] says exactly when spawning succeeds and what
    every worker is connected to. *)

From Stdlib Require Import ZArith Lia Strings.String Strings.Ascii.
From stdpp Require Import base tactics list numbers option gmap strings.
From S2P Require Import Prelude Ids Subsystem Graph Conditions EventBuffer Dispatcher Wiring.
Open Scope nat_scope.

Section wiring.
Context (root : SubsystemIdentifier) (cs : EdgeConditions).

Abbreviation ctx := (ComponentContext_new root).

(** The channel of a component. *)
Definition channel_of (ic : ComponentInterconnects) (f : Flavor) (t : TypedComponentId) : option nat :=
  fst <$> consumers ic !! (f, ctx t).

Definition output_senders (d : Dispatcher) (o : OutputName) : option (list GatedSender) :=
  senders <$> (match o with Default => default_target d | Given n => targets d !! n end).

Lemma ctx_inj t t' : ctx t = ctx t' -> t = t'.
Proof. destruct t, t'. by intros [= -> ->]. Qed.

Lemma key_inj (f f' : Flavor) t t' : (f, ctx t) = (f', ctx t') -> f = f' /\ t = t'.
Proof. intros E. split; [exact (f_equal fst E)|]. apply ctx_inj. exact (f_equal snd E). Qed.

(** Consumers know their channel, and channels are not shared. *)
Record consumers_ok (ic : ComponentInterconnects) : Prop := {
  ok_root : topology_id ic = root;
  ok_entry : forall f c n co, consumers ic !! (f, c) = Some (n, co) ->
    co = {| consumer_context := c; inner := n |} /\ n < length (made ic);
  ok_inj : forall f c f' c' n co co', consumers ic !! (f, c) = Some (n, co) ->
    consumers ic !! (f', c') = Some (n, co') -> (f, c) = (f', c');
}.

(** [ic'] has the channels of [ic] and those of the components [ts] of the flavor [f]. *)
Record extended (f : Flavor) (ts : list TypedComponentId) (ic ic' : ComponentInterconnects) : Prop := {
  ext_root : topology_id ic' = topology_id ic;
  ext_dispatchers : dispatchers ic' = dispatchers ic;
  ext_sub : consumers ic ⊆ consumers ic';
  ext_dom : forall k, is_Some (consumers ic' !! k) <->
    is_Some (consumers ic !! k) \/ exists t, t ∈ ts /\ k = (f, ctx t);
}.

Lemma get_or_create_sender_spec f t ic : consumers_ok ic -> can_consume f (ty t) = true ->
  exists n ic', get_or_create_sender f t ic = Some (n, ic') /\ consumers_ok ic' /\ extended f [t] ic ic' /\
    channel_of ic' f t = Some n.
Proof.
  intros [Hr He Hi] Hc. unfold get_or_create_sender, channel_of. rewrite Hc, Hr.
  destruct (consumers ic !! (f, ctx t)) as [[n co]|] eqn:Ec.
  - exists n, ic. split; [done|]. split; [done|]. split; [|by rewrite Ec]. split; try done.
    intros k. split; [by left|]. intros [Hk|(t' & ->%list_elem_of_singleton & ->)]; [done|by rewrite Ec].
  - eexists _, _. split; [done|]. split; [|split; [split|]]; cbn.
    + split; cbn; [done| |].
      * intros f' c' n co. rewrite length_app. cbn. destruct (decide ((f', c') = (f, ctx t))) as [E|E].
        -- rewrite E, lookup_insert_eq. intros [= <- <-]. injection E as -> ->. split; [done|lia].
        -- rewrite lookup_insert_ne by congruence. intros [-> ?]%He. split; [done|lia].
      * intros f1 c1 f2 c2 n co1 co2.
        destruct (decide ((f1, c1) = (f, ctx t))) as [E1|E1], (decide ((f2, c2) = (f, ctx t))) as [E2|E2].
        -- congruence.
        -- rewrite E1, lookup_insert_eq, lookup_insert_ne by congruence. intros [= <- _] [_ ?]%He. lia.
        -- rewrite E2, lookup_insert_eq, lookup_insert_ne by congruence. intros [_ ?]%He [= <- _]. lia.
        -- rewrite !lookup_insert_ne by congruence. apply Hi.
    + done.
    + done.
    + by apply insert_subseteq.
    + intros k. rewrite lookup_insert_is_Some'. split.
      * intros [<-|?]; [right; exists t; split; [by left|done]|by left].
      * intros [?|(t' & ->%list_elem_of_singleton & ->)]; [by right|by left].
    + by rewrite lookup_insert_eq.
Qed.

Lemma extended_trans f ts1 ts2 ic1 ic2 ic3 :
  extended f ts1 ic1 ic2 -> extended f ts2 ic2 ic3 -> extended f (ts1 ++ ts2) ic1 ic3.
Proof.
  intros [Hr1 Hd1 Hs1 Hk1] [Hr2 Hd2 Hs2 Hk2]. split; [congruence|congruence|by etrans|].
  intros k. rewrite Hk2, Hk1. setoid_rewrite elem_of_app. naive_solver.
Qed.

Lemma channel_of_sub f ts ic ic' t n : extended f ts ic ic' -> forall f', channel_of ic f' t = Some n ->
  channel_of ic' f' t = Some n.
Proof.
  intros Hx f'. unfold channel_of. rewrite !fmap_Some. intros (x & Hx' & ->). exists x.
  split; [|done]. by eapply lookup_weaken, ext_sub.
Qed.

(** The senders of an output lead to the components it is connected to, with the gates of the edges. *)
Definition leads_to (ic : ComponentInterconnects) (f : Flavor) (u : TypedComponentId) (o : OutputName)
    (ss : list GatedSender) (ts : list TypedComponentId) : Prop :=
  Forall2 (fun s t => channel_of ic f t = Some (sender s) /\ gate s = edge_gate cs u o t) ss ts.

Lemma leads_to_sub ic ic' f f' ts' u o ss ts : extended f' ts' ic ic' ->
  leads_to ic f u o ss ts -> leads_to ic' f u o ss ts.
Proof. intros Hx Hl. eapply Forall2_impl; [exact Hl|]. intros s t [Hc Hg]. split; [by eapply channel_of_sub|done]. Qed.

Definition gated (l : list (nat * option EdgeGate)) : list GatedSender :=
  (fun '(s, g) => {| sender := s; gate := g |}) <$> l.

Lemma collect_senders_spec f u o ts ic : consumers_ok ic -> Forall (fun t => can_consume f (ty t) = true) ts ->
  exists l ic', collect_senders f cs u o ts ic = Some (l, ic') /\ consumers_ok ic' /\ extended f ts ic ic' /\
    leads_to ic' f u o (gated l) ts.
Proof.
  intros Hok Hts. revert ic Hok. induction Hts as [|t ts Ht _ IH]; intros ic Hok; cbn [collect_senders].
  { exists [], ic. split; [done|]. split; [done|]. split; [|constructor]. split; try done.
    intros k. split; [by left|]. intros [?|(t & []%not_elem_of_nil & _)]; done. }
  destruct (get_or_create_sender_spec f t ic Hok Ht) as (n & ic1 & -> & Hok1 & Hx1 & Hn). cbn.
  destruct (IH ic1 Hok1) as (l & ic2 & -> & Hok2 & Hx2 & Hl). cbn.
  eexists _, ic2. split; [done|]. split; [done|]. split; [by apply (extended_trans f [t] ts _ ic1)|].
  constructor; [|done]. split; [|done]. cbn. by eapply channel_of_sub.
Qed.

(** ** Dispatchers *)

Lemma add_output_spec o d :
  match add_output o d with
  | (Err _, d') => d' = d /\ is_Some (output_senders d o)
  | (Ok _, d') => context d' = context d /\ output_senders d o = None /\
      forall o', output_senders d' o' = if decide (o' = o) then Some [] else output_senders d o'
  end.
Proof.
  unfold add_output, output_senders. destruct o as [|n].
  - case_bool_decide as E.
    + split; [done|]. by apply fmap_is_Some.
    + split; [done|]. apply eq_None_not_Some in E. rewrite E. split; [done|]. intros [|n']; cbn; [done|].
      by rewrite decide_False.
  - case_bool_decide as E.
    + split; [done|]. by apply fmap_is_Some.
    + split; [done|]. apply eq_None_not_Some in E. rewrite E. split; [done|]. intros [|n']; cbn.
      * by rewrite decide_False.
      * destruct (decide (n' = n)) as [->|Hn].
        -- rewrite lookup_insert_eq. by rewrite decide_True.
        -- rewrite lookup_insert_ne by done. rewrite decide_False; [done|congruence].
Qed.

Lemma attach_sender_spec o s g d ss : output_senders d o = Some ss ->
  exists d', attach_gated_sender_to_output o s g d = (Ok tt, d') /\ context d' = context d /\
    forall o', output_senders d' o' =
      if decide (o' = o) then Some (ss ++ [{| sender := s; gate := g |}]) else output_senders d o'.
Proof.
  unfold attach_gated_sender_to_output, output_senders. destruct o as [|n].
  - intros (t & -> & ->)%fmap_Some. eexists. split; [done|]. split; [done|].
    intros [|n']; cbn; [done|]. by rewrite decide_False.
  - intros (t & -> & ->)%fmap_Some. eexists. split; [done|]. split; [done|].
    intros [|n']; cbn; [by rewrite decide_False|]. destruct (decide (n' = n)) as [->|Hn].
    + rewrite lookup_insert_eq. by rewrite decide_True.
    + rewrite lookup_insert_ne by done. rewrite decide_False; [done|congruence].
Qed.

Lemma attach_senders_spec o l d ss : output_senders d o = Some ss ->
  exists d', attach_senders o l d = Ok d' /\ context d' = context d /\
    forall o', output_senders d' o' = if decide (o' = o) then Some (ss ++ gated l) else output_senders d o'.
Proof.
  revert d ss. induction l as [|[s g] l IH]; intros d ss Hd; cbn [attach_senders].
  - exists d. split; [done|]. split; [done|]. intros o'. case_decide; [subst; by rewrite app_nil_r|done].
  - destruct (attach_sender_spec o s g d ss Hd) as (d1 & -> & Hc1 & H1).
    destruct (IH d1 (ss ++ [{| sender := s; gate := g |}])) as (d2 & -> & Hc2 & H2); [by rewrite H1, decide_True|].
    exists d2. split; [done|]. split; [by rewrite Hc2|]. intros o'. rewrite H2, H1. case_decide; [|done].
    by rewrite <- app_assoc.
Qed.

(** ** The invariant of the generation *)

Abbreviation Connection := (TypedComponentId * OutputName * list TypedComponentId)%type.

Record wired (done_ : list Connection) (ic : ComponentInterconnects) : Prop := {
  wired_consumers : consumers_ok ic;
  wired_origin : forall f c d, dispatchers ic !! (f, c) = Some d -> context d = c /\
    exists u o ts, (u, o, ts) ∈ done_ /\ dispatch_flavor (ty u) = Some f /\ c = ctx u;
  wired_output : forall u o ts, (u, o, ts) ∈ done_ -> exists f d ss,
    dispatch_flavor (ty u) = Some f /\ dispatchers ic !! (f, ctx u) = Some d /\
    output_senders d o = Some ss /\ leads_to ic f u o ss ts;
  wired_only : forall f u d o, dispatchers ic !! (f, ctx u) = Some d -> is_Some (output_senders d o) ->
    exists ts, (u, o, ts) ∈ done_;
  wired_channels : forall f c, is_Some (consumers ic !! (f, c)) <->
    exists u o ts t, (u, o, ts) ∈ done_ /\ dispatch_flavor (ty u) = Some f /\ t ∈ ts /\ c = ctx t;
}.

Lemma can_dispatch_flavor f t : can_dispatch f t = true <-> dispatch_flavor t = Some f.
Proof. by destruct f, t. Qed.

Lemma connect_output_spec f u o ts done_ ic : wired done_ ic -> dispatch_flavor (ty u) = Some f ->
  Forall (fun t => can_consume f (ty t) = true) ts -> (forall ts', (u, o, ts') ∉ done_) ->
  exists ic', connect_output f cs u o ts ic = Some (Ok ic') /\ wired (done_ ++ [(u, o, ts)]) ic'.
Proof.
  intros [Hok Horig Hout Honly Hch] Hf Hts Hnew. unfold connect_output.
  destruct (collect_senders_spec f u o ts ic Hok Hts) as (l & ic1 & -> & Hok1 & Hx & Hl). cbn.
  unfold get_or_create_dispatcher. rewrite (proj2 (can_dispatch_flavor _ _) Hf), (ok_root _ Hok1). cbn.
  rewrite (ext_dispatchers _ _ _ _ Hx).
  set (d := default (Dispatcher_new (ctx u)) (dispatchers ic !! (f, ctx u))).
  assert (Hd : context d = ctx u /\ output_senders d o = None /\
    (forall o' ss, output_senders d o' = Some ss -> dispatchers ic !! (f, ctx u) = Some d)).
  { unfold d. destruct (dispatchers ic !! (f, ctx u)) as [d0|] eqn:Ed; cbn.
    - split; [by eapply Horig|]. split; [|done]. apply eq_None_not_Some. intros Hs.
      destruct (Honly f u d0 o Ed Hs) as [ts' Hts']. by apply Hnew in Hts'.
    - split; [done|]. unfold output_senders; cbn. split; [|intros [|n] ss; cbn; by rewrite ?lookup_empty].
      destruct o; cbn; by rewrite ?lookup_empty. }
  destruct Hd as (Hcd & Hdo & Hdold).
  pose proof (add_output_spec o d) as Ha. destruct (add_output o d) as [[[]|e] d1].
  2:{ destruct Ha as [_ Hs]. rewrite Hdo in Hs. by destruct Hs. }
  destruct Ha as (Hc1 & _ & Ho1).
  destruct (attach_senders_spec o l d1 []) as (d2 & -> & Hc2 & Ho2); [by rewrite Ho1, decide_True|].
  eexists. split; [done|]. cbn in Ho2.
  assert (Hlook : forall f' c', dispatchers (set_dispatcher (f, ctx u) d2 ic1) !! (f', c') =
      if decide ((f', c') = (f, ctx u)) then Some d2 else dispatchers ic !! (f', c')).
  { intros f' c'. cbn. rewrite (ext_dispatchers _ _ _ _ Hx). case_decide as E; [by rewrite E, lookup_insert_eq|].
    by rewrite lookup_insert_ne by congruence. }
  split.
  - by destruct Hok1.
  - intros f' c' d'. rewrite Hlook. case_decide as E.
    + intros [= <-]. injection E as -> ->. split; [congruence|]. exists u, o, ts. split; [|done].
      apply elem_of_app. right. by left.
    + intros Hd'. destruct (Horig _ _ _ Hd') as (? & u' & o' & ts' & Hin & ? & ?). split; [done|].
      exists u', o', ts'. split; [|done]. apply elem_of_app. by left.
  - intros u' o' ts' [Hin|Hin]%elem_of_app.
    + destruct (Hout u' o' ts' Hin) as (f' & d' & ss & Hf' & Hd' & Hs' & Hl').
      apply (leads_to_sub _ ic1 _ f ts) in Hl'; [|done]. destruct (decide ((f', ctx u') = (f, ctx u))) as [E|E].
      * exists f', d2, ss. split; [done|]. rewrite Hlook, decide_True by done. split; [done|]. split; [|done].
        apply key_inj in E as [-> ->]. assert (o' <> o) by (intros ->; by apply Hnew in Hin).
        rewrite Ho2, decide_False, Ho1, decide_False by done. unfold d. by rewrite Hd'.
      * exists f', d', ss. rewrite Hlook, decide_False by done. done.
    + apply list_elem_of_singleton in Hin. injection Hin as -> -> ->. exists f, d2, (gated l). split; [done|].
      rewrite Hlook, decide_True by done. split; [done|]. by rewrite Ho2, decide_True.
  - intros f' u' d' o'. rewrite Hlook. case_decide as E.
    + intros [= <-]. apply key_inj in E as [-> ->]. rewrite Ho2. case_decide as Eo.
      * intros _. exists ts. subst o'. apply elem_of_app. right. by left.
      * rewrite Ho1, decide_False by done. intros Hs. pose proof Hs as [ss Hss]. apply Hdold in Hss.
        destruct (Honly f u d o' Hss Hs) as [ts' Hin]. exists ts'. apply elem_of_app. by left.
    + intros Hd' Hs. destruct (Honly _ _ _ _ Hd' Hs) as [ts' Hin]. exists ts'. apply elem_of_app. by left.
  - intros f' c'. cbn. rewrite (ext_dom _ _ _ _ Hx), Hch. split.
    + intros [(u' & o' & ts' & t & Hin & ?)|(t & Ht & [= -> ->])].
      * exists u', o', ts', t. split; [|done]. apply elem_of_app. by left.
      * exists u, o, ts, t. split; [|done]. apply elem_of_app. right. by left.
    + intros (u' & o' & ts' & t & [Hin|Hin]%elem_of_app & Hf' & Ht & ->).
      * left. by exists u', o', ts', t.
      * right. apply list_elem_of_singleton in Hin. injection Hin as -> -> ->. exists t. split; [done|].
        rewrite Hf in Hf'. by injection Hf' as ->.
Qed.

Definition of_component (u : TypedComponentId) (om : list (OutputName * list TypedComponentId)) : list Connection :=
  (fun '(o, ts) => (u, o, ts)) <$> om.

Lemma elem_of_component u om u' o ts : (u', o, ts) ∈ of_component u om <-> u' = u /\ (o, ts) ∈ om.
Proof.
  unfold of_component. rewrite list_elem_of_fmap. split.
  - intros ([o' ts'] & [= -> -> ->] & Hin). done.
  - intros [-> Hin]. by exists (o, ts).
Qed.

Lemma generate_interconnect_spec f u om done_ ic : wired done_ ic -> dispatch_flavor (ty u) = Some f ->
  (forall o ts, (o, ts) ∈ om -> Forall (fun t => can_consume f (ty t) = true) ts) ->
  NoDup om.*1 -> (forall o ts', o ∈ om.*1 -> (u, o, ts') ∉ done_) ->
  exists ic', generate_interconnect f cs u om ic = Some (Ok ic') /\ wired (done_ ++ of_component u om) ic'.
Proof.
  revert done_ ic. induction om as [|[o ts] om IH]; intros done_ ic Hw Hf Hts Hnd Hnew; cbn [generate_interconnect].
  { exists ic. split; [done|]. by rewrite app_nil_r. }
  cbn in Hnd. apply NoDup_cons in Hnd as [Ho Hnd].
  destruct (connect_output_spec f u o ts done_ ic Hw Hf) as (ic1 & -> & Hw1);
    [by apply (Hts o); left|intros; apply Hnew; by left|]. cbn.
  destruct (IH (done_ ++ [(u, o, ts)]) ic1 Hw1 Hf) as (ic2 & -> & Hw2); [intros; eapply Hts; by right|done| |].
  { intros o' ts' Ho' [Hin|Hin]%elem_of_app; [by eapply Hnew; [right|]|].
    apply list_elem_of_singleton in Hin. by injection Hin as -> ->. }
  exists ic2. split; [done|]. by rewrite <- app_assoc in Hw2.
Qed.

Context `{HashOrder}.

Definition all_connections (l : list (TypedComponentId * gmap OutputName (list TypedComponentId))) : list Connection :=
  concat ((fun p => of_component p.1 (hash_order (map_to_list p.2))) <$> l).

Lemma elem_of_all_connections l u o ts : (u, o, ts) ∈ all_connections l <-> exists m, (u, m) ∈ l /\ m !! o = Some ts.
Proof.
  unfold all_connections. rewrite list_elem_of_In, in_concat. setoid_rewrite <- list_elem_of_In.
  setoid_rewrite list_elem_of_fmap. split.
  - intros (x & ((u', m) & -> & Hin) & Hx). apply elem_of_component in Hx as [-> Hx]. exists m. split; [done|].
    rewrite hash_order_perm in Hx. by apply elem_of_map_to_list in Hx.
  - intros (m & Hin & Hm). eexists. split; [by exists (u, m)|]. apply elem_of_component. split; [done|].
    rewrite hash_order_perm. by apply elem_of_map_to_list.
Qed.

Lemma generate_loop_spec l done_ ic : wired done_ ic -> NoDup l.*1 ->
  (forall u m, (u, m) ∈ l -> exists f, dispatch_flavor (ty u) = Some f /\
     (forall o ts, m !! o = Some ts -> Forall (fun t => can_consume f (ty t) = true) ts) /\
     forall o ts, (u, o, ts) ∉ done_) ->
  exists ic', generate_loop cs l ic = Some (Ok ic') /\ wired (done_ ++ all_connections l) ic'.
Proof.
  revert done_ ic. induction l as [|[u m] l IH]; intros done_ ic Hw Hnd Hl; cbn [generate_loop].
  { exists ic. split; [done|]. by rewrite app_nil_r. }
  cbn in Hnd. apply NoDup_cons in Hnd as [Hu Hnd]. destruct (Hl u m ltac:(left)) as (f & Hf & Hts & Hnew).
  rewrite Hf. cbn.
  destruct (generate_interconnect_spec f u (hash_order (map_to_list m)) done_ ic Hw Hf) as (ic1 & -> & Hw1).
  { intros o ts Hin. rewrite hash_order_perm in Hin. apply elem_of_map_to_list in Hin. by apply (Hts o). }
  { rewrite hash_order_perm. apply NoDup_fst_map_to_list. }
  { intros o ts' _. apply Hnew. }
  cbn. destruct (IH _ ic1 Hw1 Hnd) as (ic2 & -> & Hw2).
  { intros u' m' Hin. destruct (Hl u' m' ltac:(by right)) as (f' & ? & ? & Hnew'). exists f'.
    split; [done|]. split; [done|]. intros o ts [?|[-> _]%elem_of_component]%elem_of_app; [by eapply Hnew'|].
    apply Hu. apply list_elem_of_fmap. by exists (u, m'). }
  exists ic2. split; [done|]. by rewrite <- app_assoc in Hw2.
Qed.

End wiring.

(** ** Types of outputs *)

(** A component sends what its kind says: events or payloads. *)
Definition node_typed (n : Node) : Prop :=
  match n with
  | Source outputs | Transform _ outputs => Forall (fun x => exists t, output_ty x = Graph.Event t) outputs
  | Relay outputs => Forall (fun x => exists t, output_ty x = Payload t) outputs
  | _ => True
  end.

Definition outputs_typed (g : Graph) : Prop := forall c n, nodes g !! c = Some n -> node_typed n.

Lemma construct_typed {T} (into : T -> DataType) c outs l : construct_typed_output_ids into c outs = Ok l ->
  Forall (fun x => exists t, output_ty x = into t) l.
Proof.
  revert l. induction outs as [|d outs IH]; intros l; simpl; [by intros [= <-]|].
  destruct (from_definition c d) as [o|[]]; simpl; [|done].
  destruct (construct_typed_output_ids into c outs) as [rest|]; simpl; [|done]. intros [= <-].
  constructor; [by eexists|]. by apply IH.
Qed.

Lemma add_node_typed g s make : (forall c n, make c = Ok n -> node_typed n) -> outputs_typed g ->
  outputs_typed (add_node g s make).1.
Proof.
  intros Hmake Hg. unfold add_node. destruct (try_into_component_id s) as [c|]; [|done].
  case_bool_decide; [done|]. destruct (make c) as [n|] eqn:En; [|done]. intros c' n'. simpl.
  rewrite lookup_insert_Some. intros [[<- <-]|[_ Hn]]; [by eapply Hmake|by eapply Hg].
Qed.

Lemma apply_op_typed g op : outputs_typed g -> outputs_typed (apply_op g op).
Proof.
  intros Hg. destruct op; simpl.
  8: { pose proof (add_edge_spec g f t) as Hs. destruct (add_edge g f t) as [g' [[]|e]]; [|by subst g'].
       by destruct Hs as (-> & _). }
  8: done.
  8: { pose proof (prune_spec g candidates) as Hs. destruct (prune_components_without_inputs g candidates) as [g' r].
       destruct Hs as (-> & _). intros c n. cbn [fst]. rewrite lookup_without. case_decide; [done|]. apply Hg. }
  all: apply add_node_typed; [|done]; intros c' n'.
  1, 2, 4: destruct (construct_typed_output_ids _ c' outputs) as [l|] eqn:E; simpl; [|done];
    intros [= <-]; by apply construct_typed in E.
  all: by intros [= <-].
Qed.

Lemma build_typed ops : outputs_typed (build ops).
Proof.
  unfold build. assert (Hall : forall g, outputs_typed g -> outputs_typed (foldl apply_op g ops)).
  { induction ops as [|op ops IH]; intros g Hg; simpl; [done|]. apply IH. by apply apply_op_typed. }
  apply Hall. intros c n Hn. cbn in Hn. by rewrite lookup_empty in Hn.
Qed.

(** The ends of an edge whose data types agree use the same flavor of interconnect. *)
Lemma edge_flavor `{Bitmask} g e : outputs_typed g -> edge_typed g e ->
  exists cf ct f, get_component_type g (component_id (from e)) = Some cf /\ get_component_type g (to e) = Some ct /\
    dispatch_flavor cf = Some f /\ can_consume f ct = true.
Proof.
  intros Ht (a & b & Ha & Hb & Hi). unfold get_output_type in Ha. unfold get_input_type in Hb. unfold get_component_type.
  destruct (nodes g !! component_id (from e)) as [n|] eqn:En; [|done]. specialize (Ht _ _ En).
  assert (Hout : exists cf f, match n with Source _ => Some CSource | Relay _ => Some CRelay | Decoder _ _ => Some CDecoder
    | Transform _ _ => Some CTransform | Encoder _ _ => Some CEncoder | Forwarder _ => Some CForwarder
    | Destination _ => Some CDestination end = Some cf /\ dispatch_flavor cf = Some f /\
    match f with Events => exists t, a = Graph.Event t | Payloads => exists t, a = Payload t end).
  { destruct n; cbn in Ht; try done.
    1, 2, 4: apply fmap_Some in Ha as (x & Hx & ->); apply find_some in Hx as [Hx _]; apply list_elem_of_In in Hx;
      rewrite Forall_forall in Ht; apply Ht in Hx; by eexists _, _.
    all: destruct (is_default (from e)); [|done]; injection Ha as <-; eexists _, _; split_and!; [done|done|by eexists]. }
  destruct Hout as (cf & f & -> & Hf & Hd).
  destruct (nodes g !! to e) as [n'|]; [|done].
  destruct f; destruct Hd as [t ->]; destruct n' eqn:En'; try done; injection Hb as <-; try done;
    by eexists _, _, _.
Qed.

Lemma elem_of_targets g es c o t : t ∈ Graph.targets g es c o ->
  exists e, e ∈ es /\ component_id (from e) = c /\ output (from e) = o /\ to e = id t /\
    get_component_type g (id t) = Some (ty t).
Proof.
  unfold Graph.targets. rewrite list_elem_of_omap. intros (e & He & Het). exists e.
  destruct (bool_decide _ && bool_decide _) eqn:Eb; [|done].
  apply andb_true_iff in Eb as [Ec Eo]. apply bool_decide_eq_true in Ec, Eo.
  destruct (get_component_type g (to e)) as [ct|] eqn:Ect; [|done]. injection Het as <-. done.
Qed.

(** ** A whole graph *)

Section graphs.
Context `{Bitmask} `{HashOrder} (root : SubsystemIdentifier) (cs : EdgeConditions) (capacity : nat).

Definition edges_ok (g : Graph) : Prop := wf g /\ outputs_typed g /\ forall e, e ∈ edges g -> edge_typed g e.

Lemma no_interconnects_wired : wired root cs [] (no_interconnects capacity root).
Proof.
  split; [split|..]; cbn; try done.
  - intros u o ts Hin. by apply not_elem_of_nil in Hin.
  - intros f c. rewrite lookup_empty. split; [by intros []|].
    intros (u & o & ts & t & Hin & _). by apply not_elem_of_nil in Hin.
Qed.

Lemma wired_graph g : edges_ok g ->
  exists ic m done_, from_graph capacity root g cs = Some (Ok ic) /\ wired root cs done_ ic /\
    (forall t, is_Some (m !! t) -> sends g t) /\
    (forall u o ts, (u, o, ts) ∈ done_ <-> connections m u o = Some ts) /\
    forall c n ct o, nodes g !! c = Some n -> get_component_type g c = Some ct ->
      connections m {| id := c; ty := ct |} o =
      if decide (o ∈ node_outputs n) then Some (Graph.targets g (edges g) c o) else None.
Proof.
  intros (Hg & Ht & He). destruct (outbound_spec g Hg) as (m & Hm & Hkeys & Hspec).
  unfold from_graph, generate_interconnects. rewrite Hm. cbn.
  set (l := hash_order (map_to_list m)).
  assert (Hl : forall u mu, (u, mu) ∈ l <-> m !! u = Some mu).
  { intros u mu. unfold l. rewrite hash_order_perm. apply elem_of_map_to_list. }
  destruct (generate_loop_spec root cs l [] _ no_interconnects_wired) as (ic & -> & Hw).
  { unfold l. rewrite hash_order_perm. apply NoDup_fst_map_to_list. }
  { intros u mu Hin%Hl. destruct (Hkeys u) as (Hu & Hd & Hf); [by rewrite Hin|].
    assert (Hfl : exists f, dispatch_flavor (ty u) = Some f) by (destruct (ty u); done || by eexists).
    destruct Hfl as [f Hfl]. exists f. split; [done|]. split; [|intros o ts Hx; by apply not_elem_of_nil in Hx].
    intros o ts Ho. unfold get_component_type in Hu. destruct (nodes g !! id u) as [n|] eqn:En; [|done].
    assert (Hct : get_component_type g (id u) = Some (ty u)) by (unfold get_component_type; by rewrite En).
    pose proof (Hspec (id u) n (ty u) o En Hct) as Hc. unfold connections in Hc.
    replace {| id := id u; ty := ty u |} with u in Hc by by destruct u.
    rewrite Hin in Hc. cbn in Hc. rewrite Ho in Hc. case_decide; [|done]. injection Hc as ->.
    apply Forall_forall. intros t (e & Hin' & Hfrom & _ & Hto & Htt)%elem_of_targets.
    destruct (edge_flavor g e Ht (He e Hin')) as (cf & ct & f' & Hcf & Hct' & Hf' & Hcc).
    rewrite Hfrom, Hct in Hcf. injection Hcf as <-. rewrite Hto, Htt in Hct'. injection Hct' as <-. congruence. }
  exists ic, m, (all_connections l). split; [done|]. split; [done|]. split; [done|]. split; [|done].
  intros u o ts. rewrite elem_of_all_connections. unfold connections. split.
  - intros (mu & Hin%Hl & Ho). by rewrite Hin.
  - destruct (m !! u) as [mu|] eqn:Eu; [|done]. intros Ho. exists mu. by rewrite Hl.
Qed.

End graphs.

(** ** Spawning *)

Definition takes (t : ComponentType) : option Flavor :=
  match t with
  | CSource | CRelay => None
  | CDecoder | CForwarder => Some Payloads
  | CTransform | CDestination | CEncoder => Some Events
  end.

Section spawning.
Context {Comp : Type} `{Unicode}.

Definition consumer_for (ic : ComponentInterconnects) (c : ComponentContext) : option (option Consumer) :=
  match takes (context_type c) with
  | None => Some None
  | Some f => (fun p => Some p.2) <$> consumers ic !! (f, c)
  end.

Definition dispatcher_for (ic : ComponentInterconnects) (c : ComponentContext) : option (option Dispatcher) :=
  match dispatch_flavor (context_type c) with
  | None => Some None
  | Some f => Some <$> dispatchers ic !! (f, c)
  end.

(** The worker of a component, if the interconnects have all it needs. *)
Definition worker_of (ic : ComponentInterconnects) (p : ComponentContext * Comp) : option (Worker Comp) :=
  co ← consumer_for ic p.1; di ← dispatcher_for ic p.1;
  Some {| worker_context := p.1; component := p.2; consumer := co; dispatcher := di |}.

(** One component after the other, each by the loop of its type. *)
Fixpoint spawn_all (l : list (ComponentContext * Comp)) (st : Spawning Comp) : result string (Spawning Comp) :=
  match l with
  | [] => Ok st
  | (c, comp) :: l' =>
      st ← spawn_component (takes (context_type c)) (dispatch_flavor (context_type c)) c comp st;
      spawn_all l' st
  end.

Lemma spawn_all_app l1 l2 st : spawn_all (l1 ++ l2) st = (st ← spawn_all l1 st; spawn_all l2 st).
Proof.
  revert st. induction l1 as [|[c comp] l1 IH]; intros st; cbn [spawn_all app]; [done|].
  destruct (spawn_component _ _ c comp st) as [st'|]; cbn; [apply IH|done].
Qed.

Lemma spawn_components_all ct l st : Forall (fun p => context_type p.1 = ct) l ->
  spawn_components (takes ct) (dispatch_flavor ct) l st = spawn_all l st.
Proof.
  revert st. induction l as [|[c comp] l IH]; intros st Hl; cbn [spawn_components spawn_all]; [done|].
  inversion_clear Hl as [|? ? Hc Hl']. cbn in Hc. rewrite Hc.
  destruct (spawn_component _ _ c comp st) as [st'|]; cbn; [by apply IH|done].
Qed.

(** The interconnects [ic] still have everything of [ic0] for the components [l]. *)
Definition intact (ic0 ic : ComponentInterconnects) (l : list ComponentContext) : Prop :=
  forall c f, c ∈ l -> consumers ic !! (f, c) = consumers ic0 !! (f, c) /\
    dispatchers ic !! (f, c) = dispatchers ic0 !! (f, c).

Lemma spawn_component_spec ic0 c comp st l : intact ic0 (interconnects st) (c :: l) -> c ∉ l ->
  match spawn_component (takes (context_type c)) (dispatch_flavor (context_type c)) c comp st with
  | Ok st' => exists w, worker_of ic0 (c, comp) = Some w /\ identity c ∉ health st /\
      workers st' = workers st ++ [w] /\ health st' = {[identity c]} ∪ health st /\ intact ic0 (interconnects st') l
  | Err _ => worker_of ic0 (c, comp) = None \/ identity c ∈ health st
  end.
Proof.
  intros Hi Hc. unfold spawn_component.
  assert (H1 : match (match takes (context_type c) with
      | Some f => '(co, ic) ← take_consumer f c (interconnects st); Ok (Some co, ic)
      | None => Ok (None, interconnects st) end) with
    | Ok (co, ic1) => consumer_for ic0 c = Some co /\ dispatchers ic1 = dispatchers (interconnects st) /\ intact ic0 ic1 l
    | Err _ => consumer_for ic0 c = None
    end).
  { unfold consumer_for. destruct (takes (context_type c)) as [f|].
    - unfold take_consumer. destruct (Hi c f ltac:(left)) as [<- _].
      destruct (consumers (interconnects st) !! (f, c)) as [[n co]|]; cbn; [|done].
      split; [done|]. split; [done|]. intros c' f' Hc'. cbn. rewrite lookup_delete_ne by congruence. apply Hi. by right.
    - split; [done|]. split; [done|]. intros c' f' Hc'. apply Hi. by right. }
  destruct (match takes (context_type c) with Some f => _ | None => _ end) as [[co ic1]|e1]; cbn.
  2: { left. unfold worker_of. cbn. by rewrite H1. }
  destruct H1 as (Hco & Hd1 & Hi1).
  assert (H2 : match (match dispatch_flavor (context_type c) with
      | Some f => '(di, ic) ← take_dispatcher f c ic1; Ok (Some di, ic)
      | None => Ok (None, ic1) end) with
    | Ok (di, ic2) => dispatcher_for ic0 c = Some di /\ intact ic0 ic2 l
    | Err _ => dispatcher_for ic0 c = None
    end).
  { unfold dispatcher_for. destruct (dispatch_flavor (context_type c)) as [f|]; [|done].
    unfold take_dispatcher. rewrite Hd1. destruct (Hi c f ltac:(left)) as [_ <-].
    destruct (dispatchers (interconnects st) !! (f, c)) as [d|]; cbn; [|done].
    split; [done|]. intros c' f' Hc'. cbn. rewrite lookup_delete_ne by congruence.
    destruct (Hi1 c' f' Hc') as [E1 E2]. rewrite Hd1 in E2. done. }
  destruct (match dispatch_flavor (context_type c) with Some f => _ | None => _ end) as [[di ic2]|e2]; cbn.
  2: { left. unfold worker_of. cbn. by rewrite Hco, H2. }
  destruct H2 as (Hdi & Hi2). unfold build_health_handle, register_component.
  case_bool_decide as Hh; cbn; [by right|].
  eexists. unfold worker_of. cbn. rewrite Hco, Hdi. cbn. done.
Qed.

Lemma spawn_all_spec ic0 l st : intact ic0 (interconnects st) l.*1 -> NoDup l.*1 -> NoDup (identity <$> l.*1) ->
  match spawn_all l st with
  | Ok st' => exists ws, workers st' = workers st ++ ws /\ Forall2 (fun p w => worker_of ic0 p = Some w) l ws /\
      Forall (fun p => identity p.1 ∉ health st) l
  | Err _ => exists p, p ∈ l /\ (worker_of ic0 p = None \/ identity p.1 ∈ health st)
  end.
Proof.
  revert st. induction l as [|[c comp] l IH]; intros st Hi Hnd Hid; cbn [spawn_all].
  { exists []. rewrite app_nil_r. done. }
  cbn in Hnd, Hid, Hi. apply NoDup_cons in Hnd as [Hc Hnd]. apply NoDup_cons in Hid as [Hic Hid].
  pose proof (spawn_component_spec ic0 c comp st l.*1 Hi Hc) as Hs.
  destruct (spawn_component _ _ c comp st) as [st1|e]; cbn.
  2: { exists (c, comp). split; [by left|done]. }
  destruct Hs as (w & Hw & Hh & Hws & Hh1 & Hi1). specialize (IH st1 Hi1 Hnd Hid).
  destruct (spawn_all l st1) as [st2|e].
  - destruct IH as (ws & Hws2 & Hf & Hfr). exists (w :: ws). rewrite Hws2, Hws, <- app_assoc.
    split; [done|]. split; [by constructor|]. constructor; [done|].
    eapply Forall_impl; [exact Hfr|]. cbn. intros p Hp. rewrite Hh1 in Hp. set_solver.
  - destruct IH as (p & Hp & [Hp'|Hp']); exists p; (split; [by right|]); [by left|right].
    rewrite Hh1 in Hp'. apply elem_of_union in Hp' as [Hp'%elem_of_singleton|]; [|done].
    exfalso. apply Hic. rewrite <- Hp'. apply list_elem_of_fmap. exists p.1. split; [done|].
    apply list_elem_of_fmap. by exists p.
Qed.

(** ** Identities *)

Lemma chars_inj s s' : chars s = chars s' -> s = s'.
Proof.
  intros E. apply as_bytes_inj. unfold chars in E. revert E. generalize (as_bytes s), (as_bytes s').
  induction l as [|a l IH]; intros [|b l']; cbn; try done. intros [= E1 E2]. f_equal; [|by apply IH].
  unfold ascii_Z in E1. apply N2Z.inj in E1. rewrite <- (ascii_N_embedding a), E1. apply ascii_N_embedding.
Qed.

Lemma word_char_alphanumeric a : word_char a -> is_alphanumeric (ascii_Z a) = true \/ ascii_Z a = UNDERSCORE.
Proof.
  intros [Ha| ->]; [left|by right]. unfold Ids.is_ascii_alphanumeric in Ha.
  rewrite alphanumeric_ascii; [exact Ha|]. lia.
Qed.

Lemma alphanumeric_char a : is_ascii_alphanumeric a = true -> is_alphanumeric (ascii_Z a) = true.
Proof. intros Ha. unfold Ids.is_ascii_alphanumeric in Ha. rewrite alphanumeric_ascii; [exact Ha|]. lia. Qed.

Lemma valid_id_segment c : valid_id c -> is_process_name_segment_valid (chars c) = true.
Proof.
  intros (Hw & (x & Hx & Hax) & (y & Hy & Hay)). apply valid_segment_spec. unfold chars. split.
  - exists (ascii_Z x), (ascii_Z y). rewrite fmap_last, Hy.
    split; [destruct (as_bytes c); [done|by injection Hx as ->]|].
    split_and!; [done|by apply alphanumeric_char|by apply alphanumeric_char].
  - apply Forall_fmap. eapply Forall_impl; [exact Hw|]. apply word_char_alphanumeric.
Qed.

Lemma category_valid t : valid_id (as_category_str t).
Proof.
  destruct t; (split; [|by split; eexists]); cbn; repeat (constructor; [by left|]); constructor.
Qed.

(** The identity of a component extends its topology's by its category and its identifier. *)
Lemma identity_segments c : valid_id (context_id c) ->
  identity c = topology_root c ++ [chars (as_category_str (context_type c)); chars (context_id c)].
Proof.
  intros Hc. unfold identity, child.
  rewrite !sanitized_id by (apply valid_id_segment; done || apply category_valid).
  unfold is_empty_segment.
  rewrite !bool_decide_eq_false_2 by (apply process_segment_nonempty, valid_id_segment; done || apply category_valid).
  by rewrite <- app_assoc.
Qed.

Lemma identity_inj c c' : valid_id (context_id c) -> valid_id (context_id c') ->
  topology_root c = topology_root c' -> identity c = identity c' -> c = c'.
Proof.
  intros Hc Hc' Hr. rewrite !identity_segments, Hr by done. intros E%app_inv_head. injection E as E1 E2.
  apply chars_inj in E1, E2. destruct c as [r i t], c' as [r' i' t']; cbn in *. subst. f_equal.
  by destruct t, t'.
Qed.

(** ** What a built topology needs *)

Context `{Bitmask} `{HashOrder}.

Definition component_map (t : BuiltTopology Comp) (ct : ComponentType) : gmap ComponentContext Comp :=
  match ct with
  | CSource => sources t | CRelay => relays t | CDecoder => decoders t | CTransform => transforms t
  | CDestination => destinations t | CEncoder => encoders t | CForwarder => forwarders t
  end.

(** The built components are those of the graph. *)
Definition built_ok (t : BuiltTopology Comp) : Prop := forall c ct,
  is_Some (component_map t ct !! c) <->
  topology_root c = built_id t /\ context_type c = ct /\ get_component_type (graph t) (context_id c) = Some ct.

Definition kinds : list ComponentType := [CSource; CRelay; CDecoder; CTransform; CDestination; CEncoder; CForwarder].

Definition all_components (t : BuiltTopology Comp) : list (ComponentContext * Comp) :=
  concat ((fun ct => hash_order (map_to_list (component_map t ct))) <$> kinds).

Lemma elem_of_all_components t c comp : built_ok t -> (c, comp) ∈ all_components t <->
  component_map t (context_type c) !! c = Some comp.
Proof.
  intros Hb. unfold all_components. rewrite list_elem_of_In, in_concat. setoid_rewrite <- list_elem_of_In.
  setoid_rewrite list_elem_of_fmap. split.
  - intros (x & (ct & -> & _) & Hx). rewrite hash_order_perm in Hx. apply elem_of_map_to_list in Hx.
    assert (Hs : is_Some (component_map t ct !! c)) by by eexists. apply Hb in Hs as (_ & -> & _). done.
  - intros Hc. eexists. split; [exists (context_type c); split; [done|]|].
    + by destruct (context_type c); repeat constructor.
    + rewrite hash_order_perm. by apply elem_of_map_to_list.
Qed.

Lemma all_components_NoDup t : built_ok t -> NoDup (all_components t).*1.
Proof.
  intros Hb. unfold all_components. assert (Hk : NoDup kinds) by by repeat constructor; set_solver.
  induction Hk as [|ct l Hct _ IH]; cbn; [constructor|]. rewrite fmap_app. apply NoDup_app.
  split; [rewrite hash_order_perm; apply NoDup_fst_map_to_list|]. split; [|exact IH].
  intros c Hc Hc'. apply list_elem_of_fmap in Hc as ((c1 & v1) & -> & Hc). cbn in *.
  rewrite hash_order_perm in Hc. apply elem_of_map_to_list in Hc.
  apply list_elem_of_fmap in Hc' as ((c2 & v2) & Hcc & Hc'). cbn in Hcc. subst c2.
  apply list_elem_of_In, in_concat in Hc' as (x & Hx & Hin). apply list_elem_of_In in Hx, Hin.
  apply list_elem_of_fmap in Hx as (ct' & -> & Hct'). rewrite hash_order_perm in Hin.
  apply elem_of_map_to_list in Hin.
  assert (E1 : context_type c1 = ct) by (by apply (Hb c1 ct); eexists).
  assert (E2 : context_type c1 = ct') by (by apply (Hb c1 ct'); eexists). congruence.
Qed.

Lemma component_types t ct : built_ok t ->
  Forall (fun p => context_type p.1 = ct) (hash_order (map_to_list (component_map t ct))).
Proof.
  intros Hb. apply Forall_forall. intros [c v] Hin. rewrite hash_order_perm in Hin.
  apply elem_of_map_to_list in Hin. cbn. by apply (Hb c ct); eexists.
Qed.

Lemma spawn_inner_all t registry : built_ok t ->
  spawn_inner t registry =
  r ← from_graph (built_capacity t) (built_id t) (graph t) (edge_conditions t);
  match r with
  | Err e => Some (Err ("Failed to build component interconnects.: " +:+ e)%string)
  | Ok ic => Some (spawn_all (all_components t) {| interconnects := ic; health := registry; workers := [] |})
  end.
Proof.
  intros Hb. unfold spawn_inner. destruct (from_graph _ _ _ _) as [[ic|]|]; cbn; [|done|done].
  f_equal. unfold all_components, kinds. cbn [fmap list_fmap concat]. rewrite app_nil_r, !spawn_all_app.
  pose proof spawn_components_all as Hs.
  pose proof (fun ct => component_types t ct Hb) as Hty.
  rewrite <- (Hs CSource) by apply Hty. cbn -[spawn_components spawn_all].
  destruct (spawn_components None _ _ _) as [s1|]; cbn -[spawn_components spawn_all]; [|done].
  rewrite spawn_all_app, <- (Hs CRelay) by apply Hty. cbn -[spawn_components spawn_all].
  destruct (spawn_components None _ _ _) as [s2|]; cbn -[spawn_components spawn_all]; [|done].
  rewrite spawn_all_app, <- (Hs CDecoder) by apply Hty. cbn -[spawn_components spawn_all].
  destruct (spawn_components _ _ _ _) as [s3|]; cbn -[spawn_components spawn_all]; [|done].
  rewrite spawn_all_app, <- (Hs CTransform) by apply Hty. cbn -[spawn_components spawn_all].
  destruct (spawn_components _ _ _ _) as [s4|]; cbn -[spawn_components spawn_all]; [|done].
  rewrite spawn_all_app, <- (Hs CDestination) by apply Hty. cbn -[spawn_components spawn_all].
  destruct (spawn_components _ _ _ _) as [s5|]; cbn -[spawn_components spawn_all]; [|done].
  rewrite spawn_all_app, <- (Hs CEncoder) by apply Hty. cbn -[spawn_components spawn_all].
  destruct (spawn_components _ _ _ _) as [s6|]; cbn -[spawn_components spawn_all]; [|done].
  by rewrite <- (Hs CForwarder) by apply Hty.
Qed.

(** ** When spawning succeeds *)

(** Every component that takes input has a connection into it, and every one that can dispatch declares an
    output. *)
Definition spawnable (g : Graph) : Prop := forall c n ct, nodes g !! c = Some n -> get_component_type g c = Some ct ->
  (is_Some (takes ct) -> exists e, e ∈ edges g /\ to e = c) /\
  (is_Some (dispatch_flavor ct) -> node_outputs n <> []).

Lemma takes_flavor f ct : can_consume f ct = true <-> takes ct = Some f.
Proof. by destruct f, ct. Qed.

Lemma ctx_context root c : topology_root c = root ->
  c = ComponentContext_new root {| id := context_id c; ty := context_type c |}.
Proof. by intros <-; destruct c. Qed.

Section one_graph.
Context (root : SubsystemIdentifier) (cs : EdgeConditions) (g : Graph) (ic : ComponentInterconnects) (m : Mappings)
  (done_ : list (TypedComponentId * OutputName * list TypedComponentId)).
Context (Hg : edges_ok g) (Hw : wired root cs done_ ic) (Hkeys : forall t, is_Some (m !! t) -> sends g t)
  (Hdone : forall u o ts, (u, o, ts) ∈ done_ <-> connections m u o = Some ts)
  (Hconn : forall c n ct o, nodes g !! c = Some n -> get_component_type g c = Some ct ->
     connections m {| id := c; ty := ct |} o =
     if decide (o ∈ node_outputs n) then Some (Graph.targets g (edges g) c o) else None).

Abbreviation ctx := (ComponentContext_new root).

(** The connections of a component that is in the graph. *)
Lemma done_connections u o ts : (u, o, ts) ∈ done_ -> exists n, nodes g !! id u = Some n /\
  get_component_type g (id u) = Some (ty u) /\ o ∈ node_outputs n /\ ts = Graph.targets g (edges g) (id u) o.
Proof.
  intros Hin%Hdone. destruct (Hkeys u) as (Hu & _).
  { unfold connections in Hin. destruct (m !! u); [by eexists|done]. }
  pose proof Hu as Hu'. unfold get_component_type in Hu'. destruct (nodes g !! id u) as [n|] eqn:En; [|done].
  exists n. pose proof (Hconn (id u) n (ty u) o En Hu) as Hc.
  replace {| id := id u; ty := ty u |} with u in Hc by by destruct u. rewrite Hin in Hc.
  case_decide; [|done]. injection Hc as ->. done.
Qed.

Lemma consumer_iff t f : get_component_type g (id t) = Some (ty t) -> takes (ty t) = Some f ->
  is_Some (consumers ic !! (f, ctx t)) <-> exists e, e ∈ edges g /\ to e = id t.
Proof.
  intros Ht Hf. rewrite (wired_channels _ _ _ _ Hw). split.
  - intros (u & o & ts & t' & Hin & _ & Ht' & E%ctx_inj). subst t'.
    apply done_connections in Hin as (n & _ & _ & _ & ->). apply elem_of_targets in Ht' as (e & He & _ & _ & Hto & _).
    by exists e.
  - intros (e & He & Hto). destruct Hg as (Hwf & Hot & Het).
    destruct (edge_flavor g e Hot (Het e He)) as (cf & ct & f' & Hcf & Hct & Hf' & Hcc).
    rewrite Hto, Ht in Hct. injection Hct as <-. apply takes_flavor in Hcc. rewrite Hf in Hcc. injection Hcc as <-.
    destruct (wf_edges g Hwf e He) as [_ (n & Hn & Ho)].
    exists {| id := component_id (from e); ty := cf |}, (output (from e)),
      (Graph.targets g (edges g) (component_id (from e)) (output (from e))), t.
    split; [|split; [done|split; [|done]]].
    + apply Hdone. rewrite (Hconn _ n cf _ Hn Hcf). rewrite decide_True; [done|by apply has_output_name].
    + unfold Graph.targets. apply list_elem_of_omap. exists e. split; [done|].
      rewrite !bool_decide_eq_true_2 by done. cbn. rewrite Hto, Ht. by destruct t.
Qed.

Lemma dispatcher_iff u f n : nodes g !! id u = Some n -> get_component_type g (id u) = Some (ty u) ->
  dispatch_flavor (ty u) = Some f ->
  is_Some (dispatchers ic !! (f, ctx u)) <-> node_outputs n <> [].
Proof.
  intros Hn Hu Hf. split.
  - intros [d Hd]. destruct (wired_origin _ _ _ _ Hw _ _ _ Hd) as (_ & u' & o & ts & Hin & _ & E%ctx_inj). subst u'.
    apply done_connections in Hin as (n' & Hn' & _ & Ho & _). rewrite Hn in Hn'. injection Hn' as <-.
    intros E. rewrite E in Ho. by apply not_elem_of_nil in Ho.
  - intros Hne. destruct (node_outputs n) as [|o os] eqn:Eo; [done|].
    assert (Hin : (u, o, Graph.targets g (edges g) (id u) o) ∈ done_).
    { apply Hdone. pose proof (Hconn (id u) n (ty u) o Hn Hu) as Hc.
      replace {| id := id u; ty := ty u |} with u in Hc by by destruct u.
      rewrite Hc, decide_True; [done|]. rewrite Eo. left. }
    destruct (wired_output _ _ _ _ Hw _ _ _ Hin) as (f' & d & ss & Hf' & Hd & _). rewrite Hf in Hf'.
    injection Hf' as <-. by eexists.
Qed.

(** The channel of a component, where it has one. *)
Definition channel (c : ComponentId) : nat :=
  default 0 (ct ← get_component_type g c; f ← takes ct; channel_of root ic f {| id := c; ty := ct |}).

Lemma channel_consumer t f n co : get_component_type g (id t) = Some (ty t) -> takes (ty t) = Some f ->
  consumers ic !! (f, ctx t) = Some (n, co) -> n = channel (id t) /\ co = {| consumer_context := ctx t; inner := channel (id t) |}.
Proof.
  intros Ht Hf Hc. destruct (ok_entry _ _ (wired_consumers _ _ _ _ Hw) _ _ _ _ Hc) as [-> _].
  assert (E : channel (id t) = n); [|by rewrite E].
  unfold channel. rewrite Ht. cbn. rewrite Hf. cbn. unfold channel_of.
  replace {| id := id t; ty := ty t |} with t by by destruct t. by rewrite Hc.
Qed.

(** What a dispatcher of the interconnects sends, and where. *)
Lemma dispatcher_outputs u f n d : nodes g !! id u = Some n -> get_component_type g (id u) = Some (ty u) ->
  dispatch_flavor (ty u) = Some f -> dispatchers ic !! (f, ctx u) = Some d ->
  context d = ctx u /\ forall o, output_senders d o =
    if decide (o ∈ node_outputs n)
    then Some ((fun t => {| sender := channel (id t); gate := edge_gate cs u o t |}) <$> Graph.targets g (edges g) (id u) o)
    else None.
Proof.
  intros Hn Hu Hf Hd. split; [by eapply wired_origin|]. intros o.
  pose proof (Hconn (id u) n (ty u) o Hn Hu) as Hc.
  replace {| id := id u; ty := ty u |} with u in Hc by by destruct u. case_decide as Ho.
  - apply Hdone in Hc. destruct (wired_output _ _ _ _ Hw _ _ _ Hc) as (f' & d' & ss & Hf' & Hd' & Hss & Hl).
    rewrite Hf in Hf'. injection Hf' as <-. rewrite Hd in Hd'. injection Hd' as <-. rewrite Hss. f_equal. clear Hss.
    assert (Hts : forall t, t ∈ Graph.targets g (edges g) (id u) o -> get_component_type g (id t) = Some (ty t)).
    { intros t Hin. by apply elem_of_targets in Hin as (? & _ & _ & _ & _ & ?). }
    unfold leads_to in Hl. revert Hl Hts. generalize (Graph.targets g (edges g) (id u) o). intros ts Hl Hts.
    induction Hl as [|[s gt] t ss ts [Hs Hgt] _ IH]; [done|]. cbn in *. rewrite IH by (intros; apply Hts; by right).
    f_equal. unfold channel_of in Hs. apply fmap_Some in Hs as ([n' co] & Hco & ->). cbn.
    assert (Htk : takes (ty t) = Some f).
    { destruct (proj1 (wired_channels _ _ _ _ Hw f (ctx t)) ltac:(by eexists)) as (u' & o' & ts' & t' & Hin & Hf' & Ht' & E%ctx_inj).
      subst t'. apply done_connections in Hin as (n1 & _ & Hu' & _ & ->).
      apply elem_of_targets in Ht' as (e & He & Hfr & _ & Hto & Htt). destruct Hg as (_ & Hot & Het).
      destruct (edge_flavor g e Hot (Het e He)) as (cf & ct & f1 & Hcf & Hct & Hf1 & Hcc).
      rewrite Hfr, Hu' in Hcf. injection Hcf as <-. rewrite Hto, Htt in Hct. injection Hct as <-.
      apply takes_flavor. congruence. }
    destruct (channel_consumer t f n' co (Hts t ltac:(left)) Htk Hco) as [-> _]. by rewrite Hgt.
  - apply eq_None_not_Some. intros Hs. destruct (wired_only _ _ _ _ Hw _ _ _ _ Hd Hs) as [ts Hin].
    apply Hdone in Hin. by rewrite Hc in Hin.
Qed.

Lemma channel_inj t t' f f' : get_component_type g (id t) = Some (ty t) -> get_component_type g (id t') = Some (ty t') ->
  takes (ty t) = Some f -> takes (ty t') = Some f' -> is_Some (consumers ic !! (f, ctx t)) ->
  is_Some (consumers ic !! (f', ctx t')) -> channel (id t) = channel (id t') -> t = t'.
Proof.
  intros Ht Ht' Hf Hf' [[n co] Hc] [[n' co'] Hc'] E.
  destruct (channel_consumer t f n co Ht Hf Hc) as [-> _]. destruct (channel_consumer t' f' n' co' Ht' Hf' Hc') as [-> _].
  rewrite E in Hc. pose proof (ok_inj _ _ (wired_consumers _ _ _ _ Hw) _ _ _ _ _ _ _ Hc Hc') as Hk.
  by apply key_inj in Hk as [_ ->].
Qed.

(** A component gets its worker exactly if it has what the graph must provide. *)
Lemma worker_iff c comp n : nodes g !! context_id c = Some n -> topology_root c = root ->
  get_component_type g (context_id c) = Some (context_type c) ->
  is_Some (worker_of ic (c, comp)) <->
  (is_Some (takes (context_type c)) -> exists e, e ∈ edges g /\ to e = context_id c) /\
  (is_Some (dispatch_flavor (context_type c)) -> node_outputs n <> []).
Proof.
  intros Hn Hr Hct. set (t := {| id := context_id c; ty := context_type c |}).
  assert (Ec : c = ctx t) by by apply ctx_context. unfold worker_of, consumer_for, dispatcher_for. cbn.
  assert (Hco : is_Some (match takes (context_type c) with None => Some None
      | Some f => (fun p => Some p.2) <$> consumers ic !! (f, c) end) <->
    (is_Some (takes (context_type c)) -> exists e, e ∈ edges g /\ to e = context_id c)).
  { destruct (takes (context_type c)) as [f|] eqn:Ef; [|split; [intros _ []|intros _; by eexists]]; [|done].
    rewrite fmap_is_Some, Ec. rewrite (consumer_iff t f Hct Ef). split; [done|]. intros Hx. apply Hx. by eexists. }
  assert (Hdi : is_Some (match dispatch_flavor (context_type c) with None => Some None
      | Some f => Some <$> dispatchers ic !! (f, c) end) <->
    (is_Some (dispatch_flavor (context_type c)) -> node_outputs n <> [])).
  { destruct (dispatch_flavor (context_type c)) as [f|] eqn:Ef; [|split; [intros _ []|intros _; by eexists]]; [|done].
    rewrite fmap_is_Some, Ec at 1. rewrite (dispatcher_iff t f n Hn Hct Ef). split; [done|]. intros Hx. apply Hx. by eexists. }
  rewrite <- Hco, <- Hdi. clear Hco Hdi.
  destruct (match takes (context_type c) with None => _ | Some _ => _ end) as [co|]; cbn;
    [|split; [by intros []|by intros [[] _]]].
  destruct (match dispatch_flavor (context_type c) with None => _ | Some _ => _ end) as [di|]; cbn;
    [|split; [by intros []|by intros [_ []]]].
  split; [by split; eexists|by eexists].
Qed.

End one_graph.

(** What the worker of a component is connected to: [channel] assigns the channels. *)
Definition connected (t : BuiltTopology Comp) (channel : ComponentId -> nat) (w : Worker Comp) : Prop :=
  let c := worker_context w in
  let u := {| id := context_id c; ty := context_type c |} in
  component_map t (context_type c) !! c = Some (component w) /\
  consumer w = (if takes (context_type c)
                then Some {| consumer_context := c; inner := channel (context_id c) |} else None) /\
  exists n, nodes (graph t) !! context_id c = Some n /\
  match dispatcher w with
  | None => dispatch_flavor (context_type c) = None
  | Some d => context d = c /\ is_Some (dispatch_flavor (context_type c)) /\ forall o, output_senders d o =
      if decide (o ∈ node_outputs n)
      then Some ((fun x => {| sender := channel (id x); gate := edge_gate (edge_conditions t) u o x |}) <$>
                 Graph.targets (graph t) (edges (graph t)) (context_id c) o)
      else None
  end.

Lemma worker_of_context ic p w : worker_of ic p = Some w -> worker_context w = p.1 /\ component w = p.2 /\
  consumer_for ic p.1 = Some (consumer w) /\ dispatcher_for ic p.1 = Some (dispatcher w).
Proof.
  unfold worker_of. destruct (consumer_for ic p.1) as [co|]; [|done]. cbn.
  destruct (dispatcher_for ic p.1) as [di|]; [|done]. cbn. by intros [= <-].
Qed.

Lemma worker_consumes ic p w : worker_of ic p = Some w -> is_Some (consumer w) ->
  exists f, takes (context_type p.1) = Some f /\ is_Some (consumers ic !! (f, p.1)).
Proof.
  intros (_ & _ & Hco & _)%worker_of_context Hs. unfold consumer_for in Hco.
  destruct (takes (context_type p.1)) as [f|]; [|injection Hco as Hco; rewrite <- Hco in Hs; by destruct Hs].
  exists f. split; [done|]. destruct (consumers ic !! (f, p.1)); [by eexists|done].
Qed.

Lemma worker_connected t ic m done_ c comp w n : edges_ok (graph t) ->
  wired (built_id t) (edge_conditions t) done_ ic -> (forall t', is_Some (m !! t') -> sends (graph t) t') ->
  (forall u o ts, (u, o, ts) ∈ done_ <-> connections m u o = Some ts) ->
  (forall c n ct o, nodes (graph t) !! c = Some n -> get_component_type (graph t) c = Some ct ->
     connections m {| id := c; ty := ct |} o =
     if decide (o ∈ node_outputs n) then Some (Graph.targets (graph t) (edges (graph t)) c o) else None) ->
  component_map t (context_type c) !! c = Some comp -> worker_of ic (c, comp) = Some w ->
  nodes (graph t) !! context_id c = Some n -> topology_root c = built_id t ->
  get_component_type (graph t) (context_id c) = Some (context_type c) ->
  connected t (channel (built_id t) (graph t) ic) w.
Proof.
  intros Hg Hw Hkeys Hdone Hconn Hc Hwo Hn Hr Hct. apply worker_of_context in Hwo as (Ew & Ecomp & Hco & Hdi).
  cbn in *. unfold connected. rewrite Ew, Ecomp. split; [done|].
  set (u := {| id := context_id c; ty := context_type c |}).
  assert (Ec : c = ComponentContext_new (built_id t) u) by by apply ctx_context. split.
  - unfold consumer_for in Hco. destruct (takes (context_type c)) as [f|] eqn:Ef; [|by injection Hco].
    destruct (consumers ic !! (f, c)) as [[k co]|] eqn:Ek; [|done]. injection Hco as <-.
    rewrite Ec in Ek. destruct (channel_consumer _ _ _ _ _ Hw u f k co Hct Ef Ek) as [_ ->]. cbn. by rewrite <- Ec.
  - exists n. split; [done|]. unfold dispatcher_for in Hdi.
    destruct (dispatch_flavor (context_type c)) as [f|] eqn:Ef; [|by injection Hdi as <-].
    destruct (dispatchers ic !! (f, c)) as [d|] eqn:Ed; [|done]. injection Hdi as <-. rewrite Ec in Ed.
    destruct (dispatcher_outputs (built_id t) (edge_conditions t) (graph t) ic m done_ Hg Hw Hkeys Hdone Hconn u f n d Hn Hct Ef Ed)
      as [Hcx Ho]. split; [by rewrite Hcx, <- Ec|]. split; [done|exact Ho].
Qed.

Lemma valid_contexts t c ct : edges_ok (graph t) -> built_ok t -> is_Some (component_map t ct !! c) ->
  valid_id (context_id c).
Proof.
  intros (Hwf & _) Hb Hc. apply Hb in Hc as (_ & _ & Hc). unfold get_component_type in Hc.
  destruct (nodes (graph t) !! context_id c) as [n|] eqn:En; [|done]. by destruct (wf_nodes _ Hwf _ _ En).
Qed.

Lemma identities_NoDup t : edges_ok (graph t) -> built_ok t -> NoDup (identity <$> (all_components t).*1).
Proof.
  intros Hg Hb. pose proof (all_components_NoDup t Hb) as Hnd.
  assert (Hin : forall c, c ∈ (all_components t).*1 -> valid_id (context_id c) /\ topology_root c = built_id t).
  { intros c ([c' comp] & -> & Hc)%list_elem_of_fmap. apply elem_of_all_components in Hc; [|done]. cbn.
    assert (Hs : is_Some (component_map t (context_type c') !! c')) by by eexists.
    split; [by eapply valid_contexts|by apply Hb in Hs as (? & _)]. }
  revert Hnd Hin. generalize ((all_components t).*1). induction l as [|c l IH]; intros Hnd Hin; [constructor|].
  apply NoDup_cons in Hnd as [Hc Hnd]. cbn. apply NoDup_cons. split; [|apply IH; [done|intros; apply Hin; by right]].
  intros (c' & E & Hc')%list_elem_of_fmap. destruct (Hin c ltac:(left)) as [Hv Hr].
  destruct (Hin c' ltac:(by right)) as [Hv' Hr']. apply identity_inj in E; [by subst c'|done|done|congruence].
Qed.

(** C16: Spawning a topology whose graph passed the checks never panics, and it succeeds exactly if every
    component that takes input has a connection into it, every component that can dispatch declares an
    output, and none of the components is registered for health already.  Then every component has exactly
    one worker; its consumer reads a channel of its own, and its dispatcher has exactly the component's
    outputs, each with the channels of the components that it is connected to, in the order of the
    connections and with the gates of their conditions. *)
Theorem spawn_decides (t : BuiltTopology Comp) (registry : HealthRegistry) :
  edges_ok (graph t) -> built_ok t ->
  exists r, spawn_inner t registry = Some r /\
    ((exists st, r = Ok st) <->
     spawnable (graph t) /\ forall c ct, is_Some (component_map t ct !! c) -> identity c ∉ registry) /\
    forall st, r = Ok st ->
      NoDup (worker_context <$> workers st) /\
      (forall c, c ∈ worker_context <$> workers st <-> exists ct, is_Some (component_map t ct !! c)) /\
      exists channel, Forall (connected t channel) (workers st) /\
        forall w w', w ∈ workers st -> w' ∈ workers st -> is_Some (consumer w) -> is_Some (consumer w') ->
          channel (context_id (worker_context w)) = channel (context_id (worker_context w')) -> w = w'.
Proof.
  intros Hg Hb. rewrite spawn_inner_all by done.
  destruct (wired_graph (built_id t) (edge_conditions t) (built_capacity t) (graph t) Hg)
    as (ic & m & done_ & -> & Hw & Hkeys & Hdone & Hconn). cbn [mbind option_bind].
  eexists. split; [done|].
  pose proof (spawn_all_spec ic (all_components t) {| interconnects := ic; health := registry; workers := [] |}
    ltac:(done) (all_components_NoDup t Hb) (identities_NoDup t Hg Hb)) as Hs.
  assert (Hcomp : forall c comp, (c, comp) ∈ all_components t -> exists n, nodes (graph t) !! context_id c = Some n /\
    topology_root c = built_id t /\ get_component_type (graph t) (context_id c) = Some (context_type c)).
  { intros c comp Hc%elem_of_all_components; [|done].
    assert (Hc' : is_Some (component_map t (context_type c) !! c)) by by eexists.
    apply Hb in Hc' as (Hr & _ & Hct). pose proof Hct as Hct'. unfold get_component_type in Hct'.
    destruct (nodes (graph t) !! context_id c) as [n|]; [|done]. by exists n. }
  assert (Hwk : forall c comp n, (c, comp) ∈ all_components t -> nodes (graph t) !! context_id c = Some n ->
    is_Some (worker_of ic (c, comp)) <->
    (is_Some (takes (context_type c)) -> exists e, e ∈ edges (graph t) /\ to e = context_id c) /\
    (is_Some (dispatch_flavor (context_type c)) -> node_outputs n <> [])).
  { intros c comp n Hc Hn. destruct (Hcomp c comp Hc) as (_ & _ & Hr & Hct).
    by eapply (worker_iff (built_id t) (edge_conditions t)). }
  split.
  - split.
    + intros [st E]. rewrite E in Hs. destruct Hs as (ws & _ & Hf & Hfr). split.
      * intros c n ct Hn Hct. set (cc := {| topology_root := built_id t; context_id := c; context_type := ct |}).
        assert (Hcc : is_Some (component_map t ct !! cc)) by by apply Hb.
        destruct Hcc as [comp Hcc]. assert (Hin : (cc, comp) ∈ all_components t) by by apply elem_of_all_components.
        apply (Hwk cc comp n Hin Hn). apply list_elem_of_lookup in Hin as [i Hi].
        destruct (Forall2_lookup_l _ _ _ _ _ Hf Hi) as (w & _ & Hwo). by eexists.
      * intros c ct Hc. pose proof Hc as [comp Hcomp']. apply Hb in Hc as (_ & <- & _).
        apply elem_of_all_components in Hcomp'; [|done]. rewrite Forall_forall in Hfr. by apply (Hfr (c, comp)).
    + intros [Hsp Hfr]. destruct (spawn_all _ _) as [st|e]; [by eexists|]. exfalso.
      destruct Hs as ([c comp] & Hin & Hbad). destruct (Hcomp c comp Hin) as (n & Hn & Hr & Hct).
      destruct Hbad as [Hbad|Hbad]; cbn in Hbad.
      * apply eq_None_not_Some in Hbad. apply Hbad, (Hwk c comp n Hin Hn). by apply (Hsp _ n).
      * apply elem_of_all_components in Hin; [|done]. apply (Hfr c (context_type c)); [by eexists|done].
  - intros st E. rewrite E in Hs. destruct Hs as (ws & Hws & Hf & _). cbn in Hws. rewrite Hws. clear Hws E.
    assert (Hctx : worker_context <$> ws = (all_components t).*1).
    { clear -Hf. induction Hf as [|[c comp] w l ws Hwo _ IH]; [done|]. cbn. rewrite IH. f_equal.
      by apply worker_of_context in Hwo as [-> _]. }
    split; [rewrite Hctx; by apply all_components_NoDup|]. split.
    { intros c. rewrite Hctx, list_elem_of_fmap. split.
      - intros ([c' comp] & -> & Hin). apply elem_of_all_components in Hin; [|done]. cbn. eexists. by eexists.
      - intros (ct & Hc). pose proof Hc as [comp Hcomp']. apply Hb in Hc as (_ & <- & _). exists (c, comp).
        split; [done|]. by apply elem_of_all_components. }
    assert (Hin : forall w, w ∈ ws -> exists p, p ∈ all_components t /\ worker_of ic p = Some w).
    { intros w Hw'. apply list_elem_of_lookup in Hw' as [i Hi]. destruct (Forall2_lookup_r _ _ _ _ _ Hf Hi) as (p & Hp & ?).
      exists p. split; [by eapply list_elem_of_lookup_2|done]. }
    exists (channel (built_id t) (graph t) ic). split.
    + apply Forall_forall. intros w Hww. destruct (Hin w Hww) as ([c comp] & Hc & Hwo).
      destruct (Hcomp c comp Hc) as (n & Hn & Hr & Hct). apply elem_of_all_components in Hc; [|done].
      by eapply worker_connected.
    + intros w w' Hww Hww' Hco Hco' E. destruct (Hin w Hww) as ([c comp] & Hc & Hwo).
      destruct (Hin w' Hww') as ([c' comp'] & Hc' & Hwo').
      destruct (Hcomp c comp Hc) as (n & Hn & Hr & Hct). destruct (Hcomp c' comp' Hc') as (n' & Hn' & Hr' & Hct').
      assert (Ecc : c = c').
      { rewrite (ctx_context (built_id t) c Hr), (ctx_context (built_id t) c' Hr'). f_equal.
        destruct (worker_consumes _ _ _ Hwo Hco) as (f & Hf1 & Hf2). destruct (worker_consumes _ _ _ Hwo' Hco') as (f' & Hf1' & Hf2').
        apply worker_of_context in Hwo as [Ec _], Hwo' as [Ec' _]. cbn in *. rewrite Ec, Ec' in E.
        rewrite (ctx_context (built_id t) c Hr) in Hf2. rewrite (ctx_context (built_id t) c' Hr') in Hf2'.
        by eapply (channel_inj (built_id t) (edge_conditions t) (graph t) ic done_ Hw); [| |exact Hf1|exact Hf1'|..]. }
      subst c'. apply elem_of_all_components in Hc, Hc'; [|done..]. rewrite Hc in Hc'. injection Hc' as <-.
      rewrite Hwo in Hwo'. by injection Hwo' as <-.
Qed.

End spawning.

(** ** Examples *)

Module Topologies.

Import Names.

#[export] Instance land_bitmask : Bitmask :=
  {| mask_is_none := fun a => (a =? 0)%Z; mask_intersects := fun a b => negb (Z.land a b =? 0)%Z |}.

#[export] Instance list_hash_order : HashOrder.
Proof. refine {| hash_order := fun _ l => l |}. done. Defined.

Definition node_type (n : Node) : ComponentType :=
  match n with
  | Source _ => CSource | Relay _ => CRelay | Decoder _ _ => CDecoder | Transform _ _ => CTransform
  | Encoder _ _ => CEncoder | Forwarder _ => CForwarder | Destination _ => CDestination
  end.

Definition context_at (root : SubsystemIdentifier) (ct : ComponentType) (c : ComponentId) : ComponentContext :=
  {| topology_root := root; context_id := c; context_type := ct |}.

#[export] Instance context_at_inj root ct : Inj (=) (=) (context_at root ct).
Proof. by intros c c' [= ->]. Qed.

(** The components of a graph, without anything inside. *)
Definition graph_components (root : SubsystemIdentifier) (g : Graph) (ct : ComponentType) : gmap ComponentContext unit :=
  kmap (context_at root ct) (omap (fun n => if decide (node_type n = ct) then Some tt else None) (nodes g)).

Definition graph_topology (root : SubsystemIdentifier) (g : Graph) (cs : EdgeConditions) : BuiltTopology unit := {|
  built_id := root;
  graph := g;
  sources := graph_components root g CSource;
  relays := graph_components root g CRelay;
  decoders := graph_components root g CDecoder;
  transforms := graph_components root g CTransform;
  destinations := graph_components root g CDestination;
  encoders := graph_components root g CEncoder;
  forwarders := graph_components root g CForwarder;
  built_capacity := 128;
  edge_conditions := cs;
|}.

Lemma graph_topology_ok root g cs : built_ok (graph_topology root g cs).
Proof.
  intros c ct.
  assert (E : component_map (graph_topology root g cs) ct = graph_components root g ct) by by destruct ct.
  rewrite E. unfold graph_components. rewrite (lookup_kmap_is_Some (context_at root ct)).
  unfold get_component_type. setoid_rewrite lookup_omap. split.
  - intros (c' & -> & [u Hu]). cbn. split; [done|]. split; [done|].
    destruct (nodes g !! c') as [n|]; cbn in Hu; [|done]. case_decide as Ht; [|done]. rewrite <- Ht. by destruct n.
  - intros (Hr & Ht & Hn). cbn [graph graph_topology] in Hn. exists (context_id c). split; [destruct c; cbn in *; by subst|].
    destruct (nodes g !! context_id c) as [n|]; cbn; [|done]. rewrite decide_True; [by eexists|].
    by destruct n; injection Hn as <-.
Qed.

(** A metrics pipeline whose connection to [debug] has a condition. *)
Definition pipeline : Graph := build
  [AddSource "in" [Ids.named_output "metrics" 1%Z]; AddTransform "agg" 1%Z [Ids.default_output 1%Z];
   AddEncoder "enc" 1%Z 2%Z; AddForwarder "fwd" 2%Z; AddDestination "debug" 1%Z;
   AddEdge "in.metrics" "agg"; AddEdge "agg" "enc"; AddEdge "enc" "fwd"; AddEdge "agg" "debug"].

Definition conditions : EdgeConditions :=
  [({| upstream := "agg"; key_output := Default; downstream := "debug" |}, 5, [])].

Definition a_topology : BuiltTopology unit := graph_topology [Names.topology] pipeline conditions.

Lemma pipeline_ok : edges_ok pipeline.
Proof.
  split; [apply build_wf|]. split; [apply build_typed|].
  assert (Hv : validate pipeline = Some (Ok tt)) by (vm_compute; reflexivity).
  destruct (validate_spec pipeline (build_wf _)) as (r & Hr & Hiff).
  { assert (Hall : Forall (fun e => get_component_type pipeline (to e) <> Some CSource /\
      get_component_type pipeline (to e) <> Some CRelay) (edges pipeline)) by (vm_compute; repeat constructor; discriminate).
    intros e He Hs. destruct (proj1 (Forall_forall _ _) Hall e He) as [H1 H2].
    destruct Hs as [Hs|Hs]; [exact (H1 Hs)|exact (H2 Hs)]. }
  rewrite Hv in Hr. injection Hr as <-. by apply Hiff.
Qed.

Lemma spawn_decides_witness :
  exists st, spawn_inner a_topology ∅ = Some (Ok st) /\ NoDup (worker_context <$> workers st) /\
    exists channel, Forall (connected a_topology channel) (workers st).
Proof.
  destruct (spawn_decides a_topology ∅ pipeline_ok (graph_topology_ok _ _ _)) as (r & Hr & _ & Hst).
  assert (E : match spawn_inner a_topology ∅ with Some (Ok _) => true | _ => false end = true) by (vm_compute; reflexivity).
  rewrite Hr in E. destruct r as [st|e]; [|discriminate E]. exists st. split; [exact Hr|].
  destruct (Hst st eq_refl) as (Hnd & _ & channel & Hall & _). split; [exact Hnd|]. exists channel. exact Hall.
Defined.

(** What the transform of the pipeline is connected to: the condition's gate is on the second sender. *)
Example transform_of_the_pipeline :
  match spawn_inner a_topology ∅ with
  | Some (Ok st) =>
      d ← mbind dispatcher (find (fun w => bool_decide (context_id (worker_context w) = "agg"%string)) (workers st));
      option_map (map gate) (output_senders d Default)
  | _ => None
  end = Some [None; Some 5].
Proof. vm_compute. reflexivity. Qed.

(** A transform that nothing feeds passes validation, since its output is connected, but cannot be spawned. *)
Definition unfed : Graph := build
  [AddTransform "agg" 1%Z [Ids.default_output 1%Z]; AddDestination "debug" 1%Z; AddEdge "agg" "debug"].

Example unfed_transform_is_valid : validate unfed = Some (Ok tt) /\
  spawn_inner (graph_topology [] unfed []) ∅ = Some (Err "No events consumer found for transform component 'agg'"%string).
Proof. split; vm_compute; reflexivity. Qed.

(** So does a transform that declares no outputs. *)
Definition silent : Graph := build
  [AddSource "in" [Ids.default_output 1%Z]; AddTransform "agg" 1%Z []; AddEdge "in" "agg"].

Example silent_transform_is_valid : validate silent = Some (Ok tt) /\
  spawn_inner (graph_topology [] silent []) ∅ = Some (Err "No events dispatcher found for transform component 'agg'"%string).
Proof. split; vm_compute; reflexivity. Qed.

End Topologies.
