(* ===== verification/Blueprint.v ===== *)
(** * Blueprint: assembling a topology

    Models [lib/saluki-core/src/topology/blueprint.rs]: adding components and connections, the memory bounds
    that are kept up to date meanwhile, pruning, and building.  The seven maps of builders are one map that is
    keyed by the kind of the component as well.  A builder is what it declares and what it builds; its
    outputs and data types are arguments of the function that adds it.

    The worker pool, the shutdown timeout and the readiness signals are passed on unchanged by the code and
    are left out; so are resource groups and the scopes of components. *)

From Stdlib Require Import ZArith Lia Strings.String.
From stdpp Require Import base tactics list numbers option gmap strings.
From S2P Require Import Prelude Ids Subsystem Accounting Graph Conditions EventBuffer Dispatcher Wiring.
Open Scope Z_scope.

(** The generic errors that the blueprint makes: an error of the graph with a context, the error of a builder
    with the component it was for, or a message. *)
Inductive GenericError :=
| GraphContext (context : string) (source : GraphError)
| FailedToBuild (component_type : ComponentType) (id : ComponentId) (source : string)
| Message (message : string).

(** A builder declares memory bounds and builds a component. *)
Record Builder (Comp : Type) := {
  specify_bounds : ComponentMetadata -> ComponentMetadata;
  build_component : ComponentContext -> result string Comp;
}.
Arguments specify_bounds {Comp}.
Arguments build_component {Comp}.

Definition DEFAULT_INTERCONNECT_CAPACITY : Z := 128.
Definition DEFAULT_EVENTS_BUFFER_CAPACITY : Z := 1024.

(** [topology_identifier] *)
Definition topology_identifier `{Unicode} (name : list Z) : SubsystemIdentifier :=
  from_segments [chars "topology"; name].

Section blueprint.
Context {Comp : Type} `{Unicode} `{Bitmask} `{HashOrder}.

(** The sizes of the types [EventsBuffer] and [Event]. *)
Context (size_of_events_buffer size_of_event : Z).

Record TopologyBuildState := {
  topology_id : SubsystemIdentifier;
  graph : Graph;
  builders : gmap (ComponentType * ComponentId) (Builder Comp);
  component_registry : ComponentMetadata;
  interconnect_capacity : Z;
  folded_targets : gset ComponentId;
  prunable_components : gmap ComponentId ComponentType;
  edge_conditions : EdgeConditions;
  flags : Flags;
}.

Definition TopologyBuildState_new (name : list Z) (registry : ComponentMetadata) : TopologyBuildState :=
  {| topology_id := topology_identifier name; graph := Graph_default; builders := ∅;
     component_registry := registry; interconnect_capacity := DEFAULT_INTERCONNECT_CAPACITY;
     folded_targets := ∅; prunable_components := ∅; edge_conditions := []; flags := ∅ |}.

Definition set_graph (g : Graph) (s : TopologyBuildState) : TopologyBuildState :=
  {| topology_id := topology_id s; graph := g; builders := builders s; component_registry := component_registry s;
     interconnect_capacity := interconnect_capacity s; folded_targets := folded_targets s;
     prunable_components := prunable_components s; edge_conditions := edge_conditions s; flags := flags s |}.

Definition set_registry (r : ComponentMetadata) (s : TopologyBuildState) : TopologyBuildState :=
  {| topology_id := topology_id s; graph := graph s; builders := builders s; component_registry := r;
     interconnect_capacity := interconnect_capacity s; folded_targets := folded_targets s;
     prunable_components := prunable_components s; edge_conditions := edge_conditions s; flags := flags s |}.

Definition set_builders (b : gmap (ComponentType * ComponentId) (Builder Comp)) (s : TopologyBuildState) : TopologyBuildState :=
  {| topology_id := topology_id s; graph := graph s; builders := b; component_registry := component_registry s;
     interconnect_capacity := interconnect_capacity s; folded_targets := folded_targets s;
     prunable_components := prunable_components s; edge_conditions := edge_conditions s; flags := flags s |}.

Definition set_prunable (p : gmap ComponentId ComponentType) (s : TopologyBuildState) : TopologyBuildState :=
  {| topology_id := topology_id s; graph := graph s; builders := builders s; component_registry := component_registry s;
     interconnect_capacity := interconnect_capacity s; folded_targets := folded_targets s;
     prunable_components := p; edge_conditions := edge_conditions s; flags := flags s |}.

Definition fold_target (c : ComponentId) (s : TopologyBuildState) : TopologyBuildState :=
  {| topology_id := topology_id s; graph := graph s; builders := builders s; component_registry := component_registry s;
     interconnect_capacity := interconnect_capacity s; folded_targets := {[c]} ∪ folded_targets s;
     prunable_components := prunable_components s; edge_conditions := edge_conditions s; flags := flags s |}.

Definition set_conditions (cs : EdgeConditions) (f : Flags) (s : TopologyBuildState) : TopologyBuildState :=
  {| topology_id := topology_id s; graph := graph s; builders := builders s; component_registry := component_registry s;
     interconnect_capacity := interconnect_capacity s; folded_targets := folded_targets s;
     prunable_components := prunable_components s; edge_conditions := cs; flags := f |}.

Definition set_capacity (n : Z) (s : TopologyBuildState) : TopologyBuildState :=
  {| topology_id := topology_id s; graph := graph s; builders := builders s; component_registry := component_registry s;
     interconnect_capacity := n; folded_targets := folded_targets s;
     prunable_components := prunable_components s; edge_conditions := edge_conditions s; flags := flags s |}.

(** ** Memory bounds *)

Definition component_identity (root : SubsystemIdentifier) (ct : ComponentType) (c : ComponentId) : SubsystemIdentifier :=
  identity {| topology_root := root; context_id := c; context_type := ct |}.

Definition sync_prunable_component_bounds (s : TopologyBuildState) : TopologyBuildState :=
  let prunable : gmap ComponentId ComponentType :=
    list_to_map (prune_components_without_inputs (graph s) (hash_order (elements (folded_targets s)))).2 in
  let registry := foldl (fun r '(id, component_type) =>
      if bool_decide (is_Some (prunable_components s !! id)) then r
      else bounds_builder (component_identity (topology_id s) component_type id) reset r)
    (component_registry s) (hash_order (map_to_list prunable)) in
  let registry := foldl (fun r '(id, component_type) =>
      if bool_decide (is_Some (prunable !! id)) then r
      else match builders s !! (component_type, id) with
           | Some bounds => bounds_builder (component_identity (topology_id s) component_type id) (specify_bounds bounds) r
           | None => r
           end)
    registry (hash_order (map_to_list (prunable_components s))) in
  set_prunable prunable (set_registry registry s).

(** How many components of a kind will not be pruned, and how many there are. *)
Definition live (ct : ComponentType) (s : TopologyBuildState) : Z :=
  Z.of_nat (length (filter (fun p : (ComponentType * ComponentId) * Builder Comp =>
    p.1.1 = ct /\ prunable_components s !! p.1.2 = None) (map_to_list (builders s)))).

Definition added (ct : ComponentType) (s : TopologyBuildState) : Z :=
  Z.of_nat (length (filter (fun p : (ComponentType * ComponentId) * Builder Comp => p.1.1 = ct) (map_to_list (builders s)))).

(** [usize] arithmetic *)
Definition usize_add (a b : Z) : Z := wrapping_add 64 a b.
Definition usize_mul (a b : Z) : Z := wrap 64 (a * b).

(** The bounds of the interconnects: the channels, and the event buffers that can be in flight. *)
Definition interconnect_minimum (s : TopologyBuildState) : UsageExpr :=
  array_expr "events" size_of_events_buffer
    (usize_mul (interconnect_capacity s) (usize_add (live CTransform s) (live CDestination s))).

Definition interconnect_firm (s : TopologyBuildState) : UsageExpr :=
  let max_in_flight_event_buffers :=
    usize_add (usize_add (usize_add (usize_mul (usize_add (live CTransform s) (live CDestination s)) (interconnect_capacity s))
      (added CSource s)) (live CDecoder s)) (live CTransform s) in
  product "events" (Constant "max in-flight event buffers" max_in_flight_event_buffers)
    (sum "" (StructSize "events buffer" size_of_events_buffer)
      (product "" (StructSize "event" size_of_event)
        (Constant "default event buffer capacity" DEFAULT_EVENTS_BUFFER_CAPACITY))).

Definition recalculate_bounds (s : TopologyBuildState) : TopologyBuildState :=
  let s := sync_prunable_component_bounds s in
  set_registry
    (bounds_builder (topology_id s)
       (subcomponent (chars "interconnects")
          (fun node => add_firm (interconnect_firm s) (add_minimum (interconnect_minimum s) (reset node))))
       (component_registry s)) s.

Definition set_interconnect_capacity (capacity : Z) (s : TopologyBuildState) : TopologyBuildState :=
  recalculate_bounds (set_capacity capacity s).

(** ** Adding components *)

(** What all [add_*] do once the graph has decided. *)
Definition add_component (ct : ComponentType) (context : string) (r : Graph * result GraphError ComponentId)
    (builder : Builder Comp) (s : TopologyBuildState) : TopologyBuildState * result GenericError unit :=
  match r with
  | (g, Err e) => (set_graph g s, Err (GraphContext context e))
  | (g, Ok component_id) =>
      let s := set_graph g s in
      let s := set_registry (bounds_builder (component_identity (topology_id s) ct component_id)
                               (specify_bounds builder) (component_registry s)) s in
      let s := recalculate_bounds s in
      (set_builders (<[(ct, component_id) := builder]> (builders s)) s, Ok tt)
  end.

Definition add_source (c : string) (outputs : list (OutputDefinition EventType)) (b : Builder Comp) (s : TopologyBuildState) :=
  add_component CSource "Failed to add source to topology graph." (Graph.add_source (graph s) c outputs) b s.
Definition add_relay (c : string) (outputs : list (OutputDefinition PayloadType)) (b : Builder Comp) (s : TopologyBuildState) :=
  add_component CRelay "Failed to add relay to topology graph." (Graph.add_relay (graph s) c outputs) b s.
Definition add_decoder (c : string) (i : PayloadType) (o : EventType) (b : Builder Comp) (s : TopologyBuildState) :=
  add_component CDecoder "Failed to add decoder to topology graph." (Graph.add_decoder (graph s) c i o) b s.
Definition add_transform (c : string) (i : EventType) (outputs : list (OutputDefinition EventType)) (b : Builder Comp)
    (s : TopologyBuildState) :=
  add_component CTransform "Failed to add transform to topology graph." (Graph.add_transform (graph s) c i outputs) b s.
Definition add_destination (c : string) (i : EventType) (b : Builder Comp) (s : TopologyBuildState) :=
  add_component CDestination "Failed to add destination to topology graph." (Graph.add_destination (graph s) c i) b s.
Definition add_encoder (c : string) (i : EventType) (o : PayloadType) (b : Builder Comp) (s : TopologyBuildState) :=
  add_component CEncoder "Failed to add encoder to topology graph." (Graph.add_encoder (graph s) c i o) b s.
Definition add_forwarder (c : string) (i : PayloadType) (b : Builder Comp) (s : TopologyBuildState) :=
  add_component CForwarder "Failed to add forwarder to topology graph." (Graph.add_forwarder (graph s) c i) b s.

(** ** Connecting components *)

Definition CONNECTION : string := "Failed to add component connection to topology graph.".

(** Edges are added one after the other; an error leaves those before it in place. *)
Fixpoint add_edges (l : list (string * string)) (s : TopologyBuildState) : TopologyBuildState * result GenericError unit :=
  match l with
  | [] => (s, Ok tt)
  | (from_, to_) :: l' =>
      match add_edge (graph s) from_ to_ with
      | (g, Err e) => (set_graph g s, Err (GraphContext CONNECTION e))
      | (g, Ok _) => add_edges l' (set_graph g s)
      end
  end.

Definition connect_components (upstream_output_component_ids downstream_component_ids : list string)
    (s : TopologyBuildState) : TopologyBuildState * result GenericError unit :=
  match add_edges (u ← upstream_output_component_ids; d ← downstream_component_ids; [(u, d)]) s with
  | (s, Err e) => (s, Err e)
  | (s, Ok _) => (recalculate_bounds s, Ok tt)
  end.

(** Every identifier with its successor. *)
Fixpoint pairs (l : list string) : list (string * string) :=
  match l with
  | a :: (b :: _) as l' => (a, b) :: pairs l'
  | _ => []
  end.

Definition connect_components_in_order (ordered_component_ids : list string) (s : TopologyBuildState)
    : TopologyBuildState * result GenericError unit :=
  match add_edges (pairs ordered_component_ids) s with
  | (s, Err e) => (s, Err e)
  | (s, Ok _) =>
      if bool_decide (pairs ordered_component_ids = []) then
        (s, Err (Message "Two or more components must be provided for connection."))
      else (recalculate_bounds s, Ok tt)
  end.

Definition connect_components_when (upstream_output_component_id downstream_component_id : string)
    (condition : EdgeCondition) (s : TopologyBuildState) : TopologyBuildState * result GenericError unit :=
  match add_edge (graph s) upstream_output_component_id downstream_component_id with
  | (g, Err e) => (set_graph g s, Err (GraphContext CONNECTION e))
  | (g, Ok _) =>
      let s := set_graph g s in
      match ComponentOutputId_try_from upstream_output_component_id, ComponentId_try_from downstream_component_id with
      | Err e, _ => (s, Err (Message ("Invalid component output ID '" +:+ upstream_output_component_id +:+ "': " +:+ e)))
      | _, Err e => (s, Err (Message ("Invalid component ID '" +:+ downstream_component_id +:+ "': " +:+ e)))
      | Ok upstream_output, Ok downstream =>
          let s := match condition with
                   | Fixed true => s
                   | Fixed false => fold_target downstream (set_graph (remove_edge (graph s) upstream_output downstream) s)
                   | Dynamic initial updates =>
                       let key := {| upstream := component_id upstream_output; key_output := output upstream_output;
                                     Conditions.downstream := downstream |} in
                       let '(cs, f) := Conditions.insert key initial updates (edge_conditions s) (flags s) in
                       set_conditions cs f s
                   end in
          (recalculate_bounds s, Ok tt)
      end
  end.

(** ** Building *)

Definition prune_folded_components (s : TopologyBuildState) : TopologyBuildState :=
  let '(g, removed) := prune_components_without_inputs (graph s) (hash_order (elements (folded_targets s))) in
  {| topology_id := topology_id s; graph := g;
     builders := foldl (fun b '(id, component_type) => delete (component_type, id) b) (builders s) removed;
     component_registry := component_registry s; interconnect_capacity := interconnect_capacity s;
     folded_targets := ∅; prunable_components := prunable_components s;
     edge_conditions := foldl (fun cs '(id, _) => remove_component id cs) (edge_conditions s) removed;
     flags := flags s |}.

(** The builders of one kind. *)
Definition builders_of (ct : ComponentType) (s : TopologyBuildState) : list (ComponentId * Builder Comp) :=
  omap (fun '((t, c), b) => if decide (t = ct) then Some (c, b) else None) (hash_order (map_to_list (builders s))).

Fixpoint build_all (root : SubsystemIdentifier) (ct : ComponentType) (l : list (ComponentId * Builder Comp))
    (acc : gmap ComponentContext Comp) : result GenericError (gmap ComponentContext Comp) :=
  match l with
  | [] => Ok acc
  | (c, b) :: l' =>
      let component_context := {| topology_root := root; context_id := c; context_type := ct |} in
      match build_component b component_context with
      | Err e => Err (FailedToBuild ct c e)
      | Ok comp => build_all root ct l' (<[component_context := comp]> acc)
      end
  end.

Definition build (s : TopologyBuildState) : option (result GenericError (BuiltTopology Comp)) :=
  let s := prune_folded_components s in
  v ← validate (graph s);
  match v with
  | Err e => Some (Err (GraphContext "Failed to build topology graph." e))
  | Ok _ =>
      let kind ct := build_all (topology_id s) ct (builders_of ct s) ∅ in
      Some (
        sources ← kind CSource; relays ← kind CRelay; decoders ← kind CDecoder; transforms ← kind CTransform;
        destinations ← kind CDestination; encoders ← kind CEncoder; forwarders ← kind CForwarder;
        Ok {| built_id := topology_id s; Wiring.graph := graph s; sources := sources; relays := relays;
              decoders := decoders; transforms := transforms; destinations := destinations; encoders := encoders;
              forwarders := forwarders; built_capacity := Z.to_nat (interconnect_capacity s);
              Wiring.edge_conditions := edge_conditions s |})
  end.

(** ** The blueprint *)

(** [TopologyBlueprint]: the build state, until it is taken, and what initialization needs. *)
Record TopologyBlueprint := {
  build_state : option TopologyBuildState;
  health_registry : option HealthRegistry;
  memory_limiter : bool; (* whether it was set *)
  resource_registry : bool;
}.

Definition take_state (t : TopologyBlueprint) : TopologyBlueprint :=
  {| build_state := None; health_registry := health_registry t; memory_limiter := memory_limiter t;
     resource_registry := resource_registry t |}.

(** [initialize], up to the future that it returns: [dataspace] says whether it runs in a supervised process. *)
Definition initialize (dataspace : bool) (t : TopologyBlueprint)
    : option (TopologyBlueprint * result GenericError (BuiltTopology Comp)) :=
  match build_state t with
  | None => Some (t, Err (Message "Topology has already been initialized and cannot be run more than once."))
  | Some s =>
      let t := take_state t in
      if negb (bool_decide (is_Some (health_registry t))) then
        Some (t, Err (Message "Topology blueprint is missing its health registry."))
      else if negb (memory_limiter t) then
        Some (t, Err (Message "Topology blueprint is missing its memory limiter."))
      else if negb (resource_registry t) then
        Some (t, Err (Message "Topology blueprint is missing its resource registry."))
      else if negb dataspace then
        Some (t, Err (Message "Topology must be initialized within a supervised process context."))
      else r ← build s; Some (t, r)
  end.

End blueprint.

Arguments TopologyBuildState Comp : clear implicits.
Arguments TopologyBlueprint Comp : clear implicits.
