(* ===== verification/BlueprintProofs.v ===== *)
(** * BlueprintProofs: what a blueprint builds

    Any sequence of operations on the build state of [Blueprint], failed ones included: the memory bounds that
    are declared follow the components that will be pruned, and what is built has exactly the components that
    are left and can be spawned ([WiringProofs]). *)

From Stdlib Require Import ZArith Lia Strings.String.
From stdpp Require Import base tactics list numbers option gmap strings.
From S2P Require Import Prelude Ids Subsystem Accounting Graph Conditions EventBuffer Dispatcher Wiring WiringProofs Blueprint.
Open Scope Z_scope.

(** ** Nodes of the registry *)

Lemma update_child_ext f f' parent name l : (forall m, f m = f' m) -> update_child f parent name l = update_child f' parent name l.
Proof. intros Hf. induction l as [|[n m] l IH]; cbn; [by rewrite Hf|]. by rewrite Hf, IH. Qed.

Lemma get_or_create_app p q f m : get_or_create p (get_or_create q f) m = get_or_create (p ++ q) f m.
Proof.
  revert m. induction p as [|name p IH]; intros m; [done|]. cbn [get_or_create app]. f_equal. by apply update_child_ext.
Qed.

Section registry.
Context `{Unicode} (root : SubsystemIdentifier) (Hroot : valid_identifier root).

Definition interconnects_id : SubsystemIdentifier := root ++ [chars "interconnects"].

Lemma interconnects_segment : is_process_name_segment_valid (chars "interconnects") = true.
Proof. apply valid_id_segment. split; [|by split; eexists]. cbn. repeat (constructor; [by left|]). constructor. Qed.

Lemma component_identity_segments ct c : valid_id c ->
  component_identity root ct c = root ++ [chars (as_category_str ct); chars c].
Proof. intros Hc. unfold component_identity. by rewrite identity_segments. Qed.

Lemma component_identity_valid ct c : valid_id c ->
  valid_identifier (component_identity root ct c) /\ component_identity root ct c <> [].
Proof.
  intros Hc. rewrite component_identity_segments by done. split; [|by destruct root].
  apply Forall_app. split; [exact Hroot|]. repeat constructor; apply valid_id_segment; [apply category_valid|done].
Qed.

(** The node of one component is not on the way to that of another. *)
Lemma component_other ct c ct' c' f r : valid_id c -> valid_id c' -> (ct, c) <> (ct', c') ->
  node_at (component_identity root ct' c') (bounds_builder (component_identity root ct c) f r) =
  node_at (component_identity root ct' c') r.
Proof.
  intros Hc Hc' Hne. destruct (component_identity_valid ct c Hc) as [Hv Hn].
  assert (Hd : component_identity root ct c <> component_identity root ct' c').
  { intros E%identity_inj; cbn; try done. by injection E as -> ->. }
  assert (Hl : length (component_identity root ct c) = length (component_identity root ct' c'))
    by by rewrite !component_identity_segments, !length_app.
  apply bounds_builder_other; [done..| |]; intros E%prefix_same_length; done || congruence.
Qed.

Lemma component_at ct c f r : valid_id c -> exists fn,
  node_at (component_identity root ct c) (bounds_builder (component_identity root ct c) f r) =
  Some (f (default (from_full_name fn) (node_at (component_identity root ct c) r))).
Proof. intros Hc. destruct (component_identity_valid ct c Hc). by apply bounds_builder_at. Qed.

(** The node of the interconnects is not either. *)
Lemma interconnects_builder f r : root <> [] ->
  bounds_builder root (subcomponent (chars "interconnects") f) r = get_or_create interconnects_id f r.
Proof.
  intros Hne. unfold bounds_builder, subcomponent. rewrite split_to_string by done.
  assert (Hs : valid_identifier [chars "interconnects"]) by (constructor; [apply interconnects_segment|constructor]).
  change (chars "interconnects") with (to_string [chars "interconnects"]) at 1.
  rewrite dotted_roundtrip, split_to_string by done. apply get_or_create_app.
Qed.

Lemma category_not_interconnects ct : as_category_str ct <> "interconnects"%string.
Proof. by destruct ct. Qed.

Lemma component_not_interconnects ct c f r : valid_id c ->
  node_at (component_identity root ct c) (get_or_create interconnects_id f r) = node_at (component_identity root ct c) r.
Proof.
  intros Hc. rewrite component_identity_segments by done. unfold interconnects_id. apply node_at_other.
  - intros [k E]. rewrite <- app_assoc in E. apply app_inv_head in E. injection E as E _.
    apply chars_inj in E. by apply (category_not_interconnects ct).
  - intros [k E]. rewrite <- app_assoc in E. apply app_inv_head in E. done.
Qed.

(** Builders that are applied to the nodes of several components. *)
Lemma fold_builders (step : ComponentMetadata -> ComponentId * ComponentType -> ComponentMetadata)
    (act : ComponentId -> ComponentType -> option (ComponentMetadata -> ComponentMetadata)) l r :
  (forall r c ct, step r (c, ct) =
     match act c ct with Some f => bounds_builder (component_identity root ct c) f r | None => r end) ->
  NoDup l.*1 -> (forall c ct, (c, ct) ∈ l -> valid_id c) ->
  forall c ct, valid_id c ->
  (forall f, (c, ct) ∈ l -> act c ct = Some f -> exists fn, node_at (component_identity root ct c) (foldl step r l) =
     Some (f (default (from_full_name fn) (node_at (component_identity root ct c) r)))) /\
  ((c, ct) ∉ l \/ act c ct = None ->
     node_at (component_identity root ct c) (foldl step r l) = node_at (component_identity root ct c) r).
Proof.
  intros Hstep Hnd Hl c ct Hc. revert r. induction l as [|[c' ct'] l IH]; intros r; [by split; [intros f Hin%not_elem_of_nil|]|].
  apply NoDup_cons in Hnd as [Hc' Hnd]. cbn [foldl]. rewrite Hstep.
  specialize (IH Hnd ltac:(intros; eapply Hl; by right)). specialize (Hl c' ct' ltac:(left)).
  destruct (decide ((c', ct') = (c, ct))) as [[= -> ->]|Hne].
  - assert (Hout : (c, ct) ∉ l) by (intros Hin; apply Hc', list_elem_of_fmap; by exists (c, ct)).
    destruct (act c ct) as [f|].
    + destruct (IH (bounds_builder (component_identity root ct c) f r)) as [_ ->]; [|by left]. split.
      * intros f' _ [= <-]. by apply component_at.
      * intros [Hin|]; [|done]. by destruct Hin; left.
    + destruct (IH r) as [_ IHr]. split; [done|]. intros _. apply IHr. by left.
  - assert (Hsame : forall f, node_at (component_identity root ct c) (bounds_builder (component_identity root ct' c') f r) =
      node_at (component_identity root ct c) r) by (intros f; apply component_other; try done; congruence).
    assert (Hr : node_at (component_identity root ct c) (match act c' ct' with
      | Some f => bounds_builder (component_identity root ct' c') f r | None => r end) = node_at (component_identity root ct c) r)
      by (destruct (act c' ct'); done).
    destruct (IH (match act c' ct' with Some f => bounds_builder (component_identity root ct' c') f r | None => r end)) as [IH1 IH2].
    rewrite Hr in *. split; [|intros [Hin|]; apply IH2; [left; set_solver|by right]].
    intros f [E|Hin]%elem_of_cons; [congruence|by apply IH1].
Qed.

End registry.

(** ** Recalculating the bounds *)

Section state.
Context {Comp : Type} `{Unicode} `{Bitmask} `{HashOrder} (size_of_events_buffer size_of_event : Z).

Abbreviation State := (TopologyBuildState Comp).
Abbreviation recalculate := (recalculate_bounds size_of_events_buffer size_of_event).

Definition candidates (s : State) : list ComponentId := hash_order (elements (folded_targets s)).

(** The components that pruning removes. *)
Definition doomed (s : State) : ComponentId -> Prop := prunable (graph s) (candidates s).

(** What [recalculate_bounds] leaves alone. *)
Record same_topology (s s' : State) : Prop := {
  same_id : topology_id s' = topology_id s;
  same_graph : graph s' = graph s;
  same_builders : builders s' = builders s;
  same_capacity : interconnect_capacity s' = interconnect_capacity s;
  same_folded : folded_targets s' = folded_targets s;
  same_conditions : edge_conditions s' = edge_conditions s;
  same_flags : flags s' = flags s;
}.

Lemma sync_same (s : State) : same_topology s (sync_prunable_component_bounds s).
Proof. by split. Qed.

Lemma recalculate_same (s : State) : same_topology s (recalculate s).
Proof. by split. Qed.

Lemma recalculate_prunable (s : State) : prunable_components (recalculate s) = prunable_components (sync_prunable_component_bounds s).
Proof. done. Qed.

Lemma sync_prunable (s : State) c ct :
  prunable_components (sync_prunable_component_bounds s) !! c = Some ct <->
  doomed s c /\ get_component_type (graph s) c = Some ct.
Proof.
  cbn. pose proof (prune_spec (graph s) (candidates s)) as Hs. unfold doomed, candidates in *.
  destruct (prune_components_without_inputs _ _) as [g' removed]. destruct Hs as (_ & Hr & Ht & Hnd). cbn [snd].
  rewrite <- elem_of_list_to_map by done. split.
  - intros Hin. split; [|by apply Ht]. apply Hr, list_elem_of_fmap. by exists (c, ct).
  - intros [(x & -> & Hx)%Hr%list_elem_of_fmap Hct]. destruct x as [c ct']. cbn in *. rewrite (Ht _ _ Hx) in Hct. by injection Hct as <-.
Qed.

(** The bounds of one component, before and after. *)
Record synced (s s' : State) (ct : ComponentType) (c : ComponentId) : Prop := {
  synced_reset : prunable_components s !! c = None -> prunable_components s' !! c = Some ct ->
    exists fn, node_at (component_identity (topology_id s) ct c) (component_registry s') = Some (from_full_name fn);
  synced_again b : prunable_components s !! c = Some ct -> prunable_components s' !! c = None ->
    builders s !! (ct, c) = Some b ->
    exists fn, node_at (component_identity (topology_id s) ct c) (component_registry s') =
      Some (specify_bounds b (default (from_full_name fn) (node_at (component_identity (topology_id s) ct c) (component_registry s))));
  synced_kept : ~ (prunable_components s !! c = None /\ prunable_components s' !! c = Some ct) ->
    ~ (prunable_components s !! c = Some ct /\ prunable_components s' !! c = None) ->
    node_at (component_identity (topology_id s) ct c) (component_registry s') =
    node_at (component_identity (topology_id s) ct c) (component_registry s);
}.

Definition prunable_typed (s : State) : Prop := forall c ct,
  prunable_components s !! c = Some ct -> get_component_type (graph s) c = Some ct.

Lemma type_valid g c ct : wf g -> get_component_type g c = Some ct -> valid_id c.
Proof.
  intros Hwf Hc. unfold get_component_type in Hc. destruct (nodes g !! c) as [n|] eqn:En; [|done].
  by destruct (wf_nodes _ Hwf _ _ En).
Qed.

Lemma sync_synced (s : State) ct c : valid_identifier (topology_id s) -> wf (graph s) -> prunable_typed s -> valid_id c ->
  synced s (sync_prunable_component_bounds s) ct c.
Proof.
  intros Hid Hwf Hp Hc. pose proof (sync_prunable s) as Hp'. set (s' := sync_prunable_component_bounds s) in *.
  set (P := prunable_components s) in *. set (P' := prunable_components s') in *.
  set (step1 := fun r '(id, component_type) => if bool_decide (is_Some (P !! id)) then r
    else bounds_builder (component_identity (topology_id s) component_type id) reset r).
  set (step2 := fun r '(id, component_type) => if bool_decide (is_Some (P' !! id)) then r
    else match builders s !! (component_type, id) with
         | Some bounds => bounds_builder (component_identity (topology_id s) component_type id) (specify_bounds bounds) r
         | None => r
         end).
  set (r1 := foldl step1 (component_registry s) (hash_order (map_to_list P'))).
  assert (Hreg : component_registry s' = foldl step2 r1 (hash_order (map_to_list P))) by done.
  assert (Hl : forall (m : gmap ComponentId ComponentType) c ct, (c, ct) ∈ hash_order (map_to_list m) <-> m !! c = Some ct).
  { intros m c' ct'. rewrite hash_order_perm. apply elem_of_map_to_list. }
  assert (Hnd : forall m : gmap ComponentId ComponentType, NoDup (hash_order (map_to_list m)).*1).
  { intros m. rewrite hash_order_perm. apply NoDup_fst_map_to_list. }
  set (act1 := fun (id : ComponentId) (_ : ComponentType) => if bool_decide (is_Some (P !! id)) then None else Some reset).
  set (act2 := fun (id : ComponentId) (t : ComponentType) => if bool_decide (is_Some (P' !! id)) then None
    else specify_bounds <$> builders s !! (t, id)).
  assert (E1 : forall r c ct, step1 r (c, ct) =
    match act1 c ct with Some f => bounds_builder (component_identity (topology_id s) ct c) f r | None => r end).
  { intros r id t. unfold step1, act1. by destruct (bool_decide _). }
  assert (E2 : forall r c ct, step2 r (c, ct) =
    match act2 c ct with Some f => bounds_builder (component_identity (topology_id s) ct c) f r | None => r end).
  { intros r id t. unfold step2, act2. destruct (bool_decide _); [done|by destruct (builders s !! (t, id))]. }
  destruct (fold_builders (topology_id s) Hid step1 act1 (hash_order (map_to_list P')) (component_registry s) E1 (Hnd _)
    ltac:(intros c' ct' Hin%Hl; apply Hp' in Hin as [_ Hin]; by eapply type_valid) c ct Hc) as [A1 A2].
  destruct (fold_builders (topology_id s) Hid step2 act2 (hash_order (map_to_list P)) r1 E2 (Hnd _)
    ltac:(intros c' ct' Hin%Hl; apply Hp in Hin; by eapply type_valid) c ct Hc) as [B1 B2].
  fold r1 in A1, A2. rewrite <- Hreg in B1, B2. unfold act1, act2 in *. split; fold P P'.
  - intros E E'. destruct (A1 reset) as [fn Hfn]; [by apply Hl| |].
    { rewrite bool_decide_eq_false_2; [done|]. rewrite E. by intros []. }
    exists (full_name (default (from_full_name fn) (node_at (component_identity (topology_id s) ct c) (component_registry s)))).
    rewrite B2; [by rewrite Hfn|]. left. rewrite Hl. congruence.
  - intros b E E' Hb. destruct (B1 (specify_bounds b)) as [fn Hfn]; [by apply Hl| |].
    { rewrite bool_decide_eq_false_2; [by rewrite Hb|]. rewrite E'. by intros []. }
    exists fn. rewrite Hfn, A2; [done|]. left. rewrite Hl. congruence.
  - intros N1 N2. rewrite B2, A2; [done| |].
    + destruct (P !! c) as [t|] eqn:E; [right; by rewrite bool_decide_eq_true_2 by by eexists|].
      left. rewrite Hl. by intros E'; destruct N1.
    + destruct (P' !! c) as [t|] eqn:E; [right; by rewrite bool_decide_eq_true_2 by by eexists|].
      left. rewrite Hl. by intros E'; destruct N2.
Qed.

Lemma recalculate_nodes (s : State) ct c : valid_identifier (topology_id s) -> topology_id s <> [] -> valid_id c ->
  node_at (component_identity (topology_id s) ct c) (component_registry (recalculate s)) =
  node_at (component_identity (topology_id s) ct c) (component_registry (sync_prunable_component_bounds s)).
Proof.
  intros Hid Hne Hc. unfold recalculate_bounds. cbn [component_registry set_registry].
  rewrite (interconnects_builder (topology_id (sync_prunable_component_bounds s))) by done.
  by apply component_not_interconnects.
Qed.

Lemma recalculate_synced (s : State) ct c : valid_identifier (topology_id s) -> topology_id s <> [] -> wf (graph s) ->
  prunable_typed s -> valid_id c -> synced s (recalculate s) ct c.
Proof.
  intros Hid Hne Hwf Hp Hc. destruct (sync_synced s ct c Hid Hwf Hp Hc) as [S1 S2 S3].
  split; rewrite recalculate_prunable, recalculate_nodes by done; assumption.
Qed.

(** ** The invariant of the build state *)

(** What holds of the state and the builders [bs] that it has, or is about to have: the builder of a component
    that is just being added is missing from the state while the bounds are recalculated. *)
Record inv_with (bs : gmap (ComponentType * ComponentId) (Builder Comp)) (s : State) : Prop := {
  bi_id : valid_identifier (topology_id s);
  bi_named : topology_id s <> [];
  bi_wf : wf (graph s);
  bi_typed : outputs_typed (graph s);
  bi_builders ct c : is_Some (bs !! (ct, c)) <-> get_component_type (graph s) c = Some ct;
  bi_folded c : c ∈ folded_targets s -> is_Some (nodes (graph s) !! c);
  bi_prunable : prunable_typed s;
  bi_agree ct c : prunable_components s !! c = Some ct -> builders s !! (ct, c) = bs !! (ct, c);
  bi_bounds ct c b : bs !! (ct, c) = Some b -> exists fn,
    node_at (component_identity (topology_id s) ct c) (component_registry s) =
    Some (if prunable_components s !! c then from_full_name fn else specify_bounds b (from_full_name fn));
  bi_fresh ct c : valid_id c -> bs !! (ct, c) = None ->
    node_at (component_identity (topology_id s) ct c) (component_registry s) = None;
}.

Definition blueprint_inv (s : State) : Prop := inv_with (builders s) s.

Lemma recalculate_inv bs s : inv_with bs s ->
  (forall ct c, prunable_components (recalculate s) !! c = Some ct -> builders s !! (ct, c) = bs !! (ct, c)) ->
  inv_with bs (recalculate s).
Proof.
  intros [Hid Hne Hwf Hty Hbs Hf Hp Ha Hb Hfr] Ha'.
  assert (Hsync : forall ct c, valid_id c -> synced s (recalculate s) ct c) by (intros; by apply recalculate_synced).
  assert (Hp' : prunable_typed (recalculate s)).
  { intros c ct Hc. rewrite recalculate_prunable in Hc. by apply sync_prunable in Hc as [_ ?]. }
  assert (Ht : forall c ct ct' b, bs !! (ct, c) = Some b -> get_component_type (graph s) c = Some ct' -> ct' = ct).
  { intros c ct ct' b Hc Hct. assert (Hs : is_Some (bs !! (ct, c))) by by eexists. apply Hbs in Hs. congruence. }
  split; try done.
  - intros ct c b Hc. assert (Hv : valid_id c) by (eapply type_valid; [done|]; apply Hbs; by eexists).
    destruct (Hsync ct c Hv) as [S1 S2 S3]. destruct (Hb ct c b Hc) as [fn Hfn]. change (topology_id (recalculate s)) with (topology_id s).
    destruct (prunable_components s !! c) as [t|] eqn:E, (prunable_components (recalculate s) !! c) as [t'|] eqn:E'.
    + exists fn. rewrite S3; [done|by intros []|by intros []].
    + assert (t = ct) as -> by (eapply Ht; [done|by apply Hp]).
      destruct (S2 b eq_refl eq_refl) as [fn' Hfn']; [by rewrite Ha|]. exists fn. by rewrite Hfn', Hfn.
    + assert (t' = ct) as -> by (eapply Ht; [done|by apply Hp']). by apply S1.
    + exists fn. rewrite S3; [done|by intros []|by intros []].
  - intros ct c Hv Hc. destruct (Hsync ct c Hv) as [_ _ S3]. change (topology_id (recalculate s)) with (topology_id s).
    rewrite S3; [by apply Hfr| |].
    + intros [_ E%Hp']. apply Hbs in E. rewrite Hc in E. by destruct E.
    + intros [E%Hp _]. apply Hbs in E. rewrite Hc in E. by destruct E.
Qed.

Lemma recalculate_blueprint s : blueprint_inv s -> blueprint_inv (recalculate s).
Proof. intros Hs. by apply recalculate_inv. Qed.

(** A change of the graph that keeps its components. *)
Lemma set_graph_inv g s : blueprint_inv s -> wf g -> nodes g = nodes (graph s) -> blueprint_inv (set_graph g s).
Proof.
  intros [Hid Hne Hwf Hty Hbs Hf Hp Ha Hb Hfr] Hg Hn.
  assert (Ht : forall c, get_component_type g c = get_component_type (graph s) c) by (intros c; unfold get_component_type; by rewrite Hn).
  split; cbn; try done.
  - intros c n. rewrite Hn. apply Hty.
  - intros ct c. rewrite Ht. apply Hbs.
  - intros c Hc. rewrite Hn. by apply Hf.
  - intros c ct Hc. cbn. rewrite Ht. by apply Hp.
Qed.

Lemma fold_target_inv c s : blueprint_inv s -> is_Some (nodes (graph s) !! c) -> blueprint_inv (fold_target c s).
Proof.
  intros [Hid Hne Hwf Hty Hbs Hf Hp Ha Hb Hfr] Hc. split; try done.
  cbn. intros c' [->%elem_of_singleton|Hc']%elem_of_union; [done|by apply Hf].
Qed.

Lemma set_conditions_inv cs f s : blueprint_inv s -> blueprint_inv (set_conditions cs f s).
Proof. by intros []. Qed.

Lemma set_capacity_inv n s : blueprint_inv s -> blueprint_inv (set_capacity n s).
Proof. by intros []. Qed.

Lemma topology_identifier_nonempty name : topology_identifier name <> [].
Proof.
  assert (Hs : is_process_name_segment_valid (chars "topology") = true).
  { apply valid_id_segment. split; [|by split; eexists]. cbn. repeat (constructor; [by left|]). constructor. }
  unfold topology_identifier, from_segments. change (get_sanitized_name <$> [chars "topology"; name])
    with [get_sanitized_name (chars "topology"); get_sanitized_name name]. by rewrite (sanitized_id _ Hs).
Qed.

Lemma new_state_inv name registry : node_at (topology_identifier name) registry = None ->
  blueprint_inv (TopologyBuildState_new name registry).
Proof.
  intros Hr. assert (Hid : valid_identifier (topology_identifier name)) by apply from_segments_valid.
  assert (Hp : forall p q m, node_at p m = None -> node_at (p ++ q) m = None).
  { induction p as [|x p IH]; intros q m; cbn; [done|]. destruct (find _ _) as [[? m']|]; cbn; [apply IH|done]. }
  split; cbn; try done.
  - apply topology_identifier_nonempty.
  - split; cbn; [done|]. intros e He. by apply not_elem_of_nil in He.
  - intros ct c. unfold get_component_type. cbn. rewrite !lookup_empty. by split; [intros []|].
  - intros ct c Hv _. rewrite component_identity_segments by done. by apply Hp.
Qed.

(** ** Adding components *)

Lemma component_type_node g c : get_component_type g c = Topologies.node_type <$> nodes g !! c.
Proof. unfold get_component_type. by destruct (nodes g !! c) as [[]|]. Qed.

Lemma add_node_shape g name make :
  match add_node g name make with
  | (g', Err _) => g' = g
  | (g', Ok c) => nodes g !! c = None /\ exists n, make c = Ok n /\ g' = {| nodes := <[c := n]> (nodes g); edges := edges g |}
  end.
Proof.
  unfold add_node. destruct (try_into_component_id name) as [c|]; [|done]. case_bool_decide as Hc; [done|].
  destruct (make c) as [n|] eqn:En; [|done]. split; [by apply eq_None_not_Some|by exists n].
Qed.

(** The new component cannot be pruned. *)
Lemma new_not_doomed (s : State) c : wf (graph s) -> nodes (graph s) !! c = None ->
  (forall c, c ∈ folded_targets s -> is_Some (nodes (graph s) !! c)) -> forall g', edges g' = edges (graph s) ->
  ~ prunable g' (candidates s) c.
Proof.
  intros Hwf Hc Hf g' He Hp. inversion Hp as [? ct _ _ _ [Hin|(e & Hin & Hto & _)] _]; subst.
  - unfold candidates in Hin. rewrite hash_order_perm, elem_of_elements in Hin. apply Hf in Hin. rewrite Hc in Hin. by destruct Hin.
  - rewrite He in Hin. destruct (wf_edges _ Hwf e Hin) as [Hs _]. rewrite Hc in Hs. by destruct Hs.
Qed.

Lemma add_component_inv ct context name make b s :
  (forall c n, make c = Ok n -> Topologies.node_type n = ct) -> wf (add_node (graph s) name make).1 ->
  outputs_typed (add_node (graph s) name make).1 -> blueprint_inv s ->
  blueprint_inv (add_component size_of_events_buffer size_of_event ct context (add_node (graph s) name make) b s).1.
Proof.
  intros Hkind Hg Hty' Hs. pose proof (add_node_shape (graph s) name make) as Hshape.
  destruct (add_node (graph s) name make) as [g' [c|e]]; cbn [add_component fst] in *; [|subst g'; by apply set_graph_inv; [|apply Hs|]].
  destruct Hshape as (Hnew & n & Hn & ->). destruct Hs as [Hid Hne Hwf Hty Hbs Hf Hp Ha Hb Hfr].
  set (g' := {| nodes := <[c:=n]> (nodes (graph s)); edges := edges (graph s) |}) in *.
  set (s1 := set_registry _ (set_graph g' s)). set (bs := <[(ct, c) := b]> (builders s)).
  assert (Hc : valid_id c) by (apply (wf_nodes _ Hg c n); apply lookup_insert_eq).
  assert (Hother : forall t c', (t, c') <> (ct, c) -> bs !! (t, c') = builders s !! (t, c')) by (intros; by apply lookup_insert_ne).
  assert (Hnone : forall t, builders s !! (t, c) = None).
  { intros t. apply eq_None_not_Some. intros E%Hbs. rewrite component_type_node, Hnew in E. done. }
  assert (Hpc : prunable_components s !! c = None).
  { apply eq_None_not_Some. intros [t E%Hp]. rewrite component_type_node, Hnew in E. done. }
  assert (Hs1 : inv_with bs s1).
  { split; try done.
    - intros t c'. cbn [s1 graph set_registry set_graph]. rewrite component_type_node. cbn [nodes g'].
      destruct (decide (c' = c)) as [->|Hc'].
      + rewrite lookup_insert_eq. cbn. rewrite (Hkind c n Hn). unfold bs. destruct (decide (t = ct)) as [->|Ht].
        * rewrite lookup_insert_eq. by split; [|eexists].
        * rewrite lookup_insert_ne, Hnone by congruence. split; [by intros []|by intros [= ->]].
      + rewrite Hother, lookup_insert_ne, Hbs, component_type_node by congruence. done.
    - intros c' Hc'. cbn. destruct (decide (c' = c)) as [->|]; [by rewrite lookup_insert_eq|]. rewrite lookup_insert_ne by done. by apply Hf.
    - intros c' t Ht. cbn in Ht. cbn [s1 graph set_registry set_graph]. rewrite component_type_node. cbn [nodes g'].
      rewrite lookup_insert_ne, <- component_type_node by congruence. by apply Hp.
    - intros t c' Ht. cbn [s1 builders set_registry set_graph prunable_components] in *. symmetry. apply Hother. congruence.
    - intros t c' b' Hb'. cbn [s1 topology_id component_registry set_registry set_graph prunable_components].
      destruct (decide ((t, c') = (ct, c))) as [[= -> ->]|Hne'].
      + unfold bs in Hb'. rewrite lookup_insert_eq in Hb'. injection Hb' as <-.
        destruct (component_at (topology_id s) Hid ct c (specify_bounds b) (component_registry s) Hc) as [fn Hfn].
        exists fn. by rewrite Hfn, Hfr, Hpc.
      + rewrite Hother in Hb' by done. destruct (Hb _ _ _ Hb') as [fn Hfn]. exists fn.
        rewrite component_other; [done|done|done| |congruence]. eapply type_valid; [exact Hwf|]. apply Hbs. by eexists.
    - intros t c' Hv Hb'. cbn [s1 topology_id component_registry set_registry set_graph].
      assert (Hne' : (t, c') <> (ct, c)) by (intros [= -> ->]; unfold bs in Hb'; by rewrite lookup_insert_eq in Hb').
      rewrite component_other by (done || congruence). apply Hfr; [done|]. by rewrite <- Hother. }
  apply recalculate_inv in Hs1; [by destruct Hs1|].
  intros t c' Ht. rewrite recalculate_prunable in Ht. apply sync_prunable in Ht as [Hd Ht]. symmetry. apply Hother.
  intros [= -> ->]. by apply (new_not_doomed s c Hwf Hnew Hf g' eq_refl).
Qed.

(** ** All operations *)

Inductive BlueprintOp :=
| OpSource (c : string) (outputs : list (OutputDefinition EventType)) (b : Builder Comp)
| OpRelay (c : string) (outputs : list (OutputDefinition PayloadType)) (b : Builder Comp)
| OpDecoder (c : string) (i : PayloadType) (o : EventType) (b : Builder Comp)
| OpTransform (c : string) (i : EventType) (outputs : list (OutputDefinition EventType)) (b : Builder Comp)
| OpDestination (c : string) (i : EventType) (b : Builder Comp)
| OpEncoder (c : string) (i : EventType) (o : PayloadType) (b : Builder Comp)
| OpForwarder (c : string) (i : PayloadType) (b : Builder Comp)
| OpConnect (upstream downstream : list string)
| OpConnectInOrder (ids : list string)
| OpConnectWhen (upstream downstream : string) (condition : EdgeCondition)
| OpCapacity (n : Z).

Abbreviation esz := size_of_events_buffer.
Abbreviation sz := size_of_event.

Definition apply_op (op : BlueprintOp) (s : State) : State * result GenericError unit :=
  match op with
  | OpSource c outs b => add_source esz sz c outs b s
  | OpRelay c outs b => add_relay esz sz c outs b s
  | OpDecoder c i o b => add_decoder esz sz c i o b s
  | OpTransform c i outs b => add_transform esz sz c i outs b s
  | OpDestination c i b => add_destination esz sz c i b s
  | OpEncoder c i o b => add_encoder esz sz c i o b s
  | OpForwarder c i b => add_forwarder esz sz c i b s
  | OpConnect us ds => connect_components esz sz us ds s
  | OpConnectInOrder ids => connect_components_in_order esz sz ids s
  | OpConnectWhen u d condition => connect_components_when esz sz u d condition s
  | OpCapacity n => (set_interconnect_capacity esz sz n s, Ok tt)
  end.

Definition apply_ops (ops : list BlueprintOp) (s : State) : State := foldl (fun s op => (apply_op op s).1) s ops.

Lemma add_edge_inv u d (s : State) : blueprint_inv s -> blueprint_inv (set_graph (add_edge (graph s) u d).1 s).
Proof.
  intros Hs. apply set_graph_inv; [done|apply add_edge_wf, Hs|].
  pose proof (add_edge_spec (graph s) u d) as He. destruct (add_edge (graph s) u d) as [g [[]|e]]; [|by subst g].
  by destruct He as (-> & _).
Qed.

Lemma add_edges_inv l (s : State) : blueprint_inv s -> blueprint_inv (add_edges l s).1.
Proof.
  revert s. induction l as [|[u d] l IH]; intros s Hs; [done|]. cbn [add_edges].
  pose proof (add_edge_inv u d s Hs) as Hs'. destruct (add_edge (graph s) u d) as [g [[]|e]]; [by apply IH|done].
Qed.

Lemma connect_when_inv u d condition (s : State) : blueprint_inv s ->
  blueprint_inv (connect_components_when esz sz u d condition s).1.
Proof.
  intros Hs. unfold connect_components_when. pose proof (add_edge_inv u d s Hs) as Hs'.
  pose proof (add_edge_spec (graph s) u d) as He. destruct (add_edge (graph s) u d) as [g [[]|e]]; [|done]. cbn [fst] in Hs'.
  destruct He as (-> & Hd & _). set (s1 := set_graph _ s) in *.
  destruct (ComponentOutputId_try_from u) as [o|]; [|done]. destruct (ComponentId_try_from d) as [c|] eqn:Ec; [|done].
  assert (c = d) as ->.
  { unfold ComponentId_try_from in Ec. destruct (validate_component_id d false); cbn in Ec; [by injection Ec|done]. }
  cbn [fst]. apply recalculate_blueprint. destruct condition as [[]|initial updates]; [done| |].
  - apply fold_target_inv; [|exact Hd]. apply set_graph_inv; [done|apply remove_edge_wf, Hs'|done].
  - destruct (Conditions.insert _ _ _ _ _) as [cs f]. by apply set_conditions_inv.
Qed.

Lemma apply_op_inv op s : blueprint_inv s -> blueprint_inv (apply_op op s).1.
Proof.
  intros Hs. destruct op as [c outs b|c outs b|c i o b|c i outs b|c i b|c i o b|c i b|us ds|ids|u d condition|n]; cbn [apply_op].
  1-7: apply add_component_inv; [|(apply (apply_op_wf (graph s) (AddSource c outs)) || apply (apply_op_wf (graph s) (AddRelay c outs))
        || apply (apply_op_wf (graph s) (AddDecoder c i o)) || apply (apply_op_wf (graph s) (AddTransform c i outs))
        || apply (apply_op_wf (graph s) (AddDestination c i)) || apply (apply_op_wf (graph s) (AddEncoder c i o))
        || apply (apply_op_wf (graph s) (AddForwarder c i))); apply Hs
      |(apply (apply_op_typed (graph s) (AddSource c outs)) || apply (apply_op_typed (graph s) (AddRelay c outs))
        || apply (apply_op_typed (graph s) (AddDecoder c i o)) || apply (apply_op_typed (graph s) (AddTransform c i outs))
        || apply (apply_op_typed (graph s) (AddDestination c i)) || apply (apply_op_typed (graph s) (AddEncoder c i o))
        || apply (apply_op_typed (graph s) (AddForwarder c i))); apply Hs|done]; intros c' n.
  1, 2, 4: destruct (construct_typed_output_ids _ c' outs); [|done]; by intros [= <-].
  1-4: by intros [= <-].
  - unfold connect_components. pose proof (add_edges_inv (u ← us; d ← ds; [(u, d)]) s Hs) as Hs'.
    destruct (add_edges _ s) as [s' [[]|e]]; [by apply recalculate_blueprint|done].
  - unfold connect_components_in_order. pose proof (add_edges_inv (pairs ids) s Hs) as Hs'.
    destruct (add_edges _ s) as [s' [[]|e]]; [|done]. case_bool_decide; [done|by apply recalculate_blueprint].
  - by apply connect_when_inv.
  - by apply recalculate_blueprint, set_capacity_inv.
Qed.

Lemma apply_ops_inv ops s : blueprint_inv s -> blueprint_inv (apply_ops ops s).
Proof. revert s. induction ops as [|op ops IH]; intros s Hs; [done|]. by apply IH, apply_op_inv. Qed.

(** After an operation that succeeded, the recorded components are those that pruning would remove. *)
Definition in_sync (s : State) : Prop := forall c ct,
  prunable_components s !! c = Some ct <-> doomed s c /\ get_component_type (graph s) c = Some ct.

Lemma recalculate_in_sync s : in_sync (recalculate s).
Proof. intros c ct. apply (sync_prunable s). Qed.

Lemma apply_op_in_sync op s s' : apply_op op s = (s', Ok tt) -> in_sync s'.
Proof.
  assert (Hadd : forall ct context r b, add_component esz sz ct context r b s = (s', Ok tt) -> in_sync s').
  { intros ct context [g [c|e]] b; cbn [add_component]; [|done]. intros [= <-]. exact (recalculate_in_sync _). }
  destruct op as [c outs b|c outs b|c i o b|c i outs b|c i b|c i o b|c i b|us ds|ids|u d condition|n]; cbn [apply_op].
  1-7: apply Hadd.
  - unfold connect_components. destruct (add_edges _ s) as [s1 [[]|e]]; [|done]. intros [= <-]. apply recalculate_in_sync.
  - unfold connect_components_in_order. destruct (add_edges _ s) as [s1 [[]|e]]; [|done]. case_bool_decide; [done|].
    intros [= <-]. apply recalculate_in_sync.
  - unfold connect_components_when. destruct (add_edge (graph s) u d) as [g [[]|e]]; [|done].
    destruct (ComponentOutputId_try_from u) as [o|]; [|done]. destruct (ComponentId_try_from d) as [c|]; [|done].
    intros [= <-]. apply recalculate_in_sync.
  - intros [= <-]. apply recalculate_in_sync.
Qed.

(** ** Pruning *)

Lemma foldl_delete (l : list (ComponentId * ComponentType)) (m : gmap (ComponentType * ComponentId) (Builder Comp)) ct c :
  foldl (fun b '(id, component_type) => delete (component_type, id) b) m l !! (ct, c) =
  if decide ((c, ct) ∈ l) then None else m !! (ct, c).
Proof.
  revert m. induction l as [|[c' ct'] l IH]; intros m; cbn [foldl]; [by rewrite decide_False by apply not_elem_of_nil|].
  rewrite IH. destruct (decide ((c, ct) ∈ l)) as [Hin|Hin]; [by rewrite decide_True by by right|].
  destruct (decide ((c', ct') = (c, ct))) as [[= -> ->]|Hne].
  - by rewrite lookup_delete_eq, decide_True by left.
  - rewrite lookup_delete_ne by congruence. rewrite decide_False; [done|]. intros [E|]%elem_of_cons; congruence.
Qed.

(** What is left of the builders. *)
Lemma pruned_builders (s : State) ct c b : blueprint_inv s ->
  builders (prune_folded_components s) !! (ct, c) = Some b <-> builders s !! (ct, c) = Some b /\ ~ doomed s c.
Proof.
  intros Hs. unfold prune_folded_components, doomed, candidates.
  pose proof (prune_spec (graph s) (hash_order (elements (folded_targets s)))) as Hp.
  destruct (prune_components_without_inputs _ _) as [g' removed]. destruct Hp as (_ & Hr & Ht & _). cbn [builders].
  rewrite foldl_delete. case_decide as Hin.
  - split; [done|]. intros [_ Hd]. destruct Hd. apply Hr, list_elem_of_fmap. by exists (c, ct).
  - split; [|by intros [? _]]. intros Hb. split; [done|]. intros ((c' & ct') & -> & Hc)%Hr%list_elem_of_fmap. cbn in *.
    apply Hin. assert (E : is_Some (builders s !! (ct, c'))) by by eexists. apply Hs in E.
    apply Ht in Hc as Hct. rewrite E in Hct. by injection Hct as ->.
Qed.

Lemma pruned_filter (s : State) : blueprint_inv s -> in_sync s ->
  builders (prune_folded_components s) = filter (fun p => prunable_components s !! p.1.2 = None) (builders s).
Proof.
  intros Hs Hsync. apply map_eq. intros [ct c]. apply option_eq. intros b.
  rewrite pruned_builders, map_lookup_filter_Some by done. cbn. split; intros [Hb Hd]; (split; [done|]).
  - apply eq_None_not_Some. intros [t [Hdm _]%Hsync]. done.
  - intros Hdm. assert (E : is_Some (builders s !! (ct, c))) by by eexists. apply Hs in E.
    assert (Hp : prunable_components s !! c = Some ct) by by apply Hsync. congruence.
Qed.

Lemma live_added (s : State) ct : blueprint_inv s -> in_sync s -> live ct s = added ct (prune_folded_components s).
Proof.
  intros Hs Hsync. unfold live, added. rewrite pruned_filter by done. f_equal. apply Permutation_length, NoDup_Permutation.
  1, 2: apply NoDup_filter, NoDup_map_to_list. intros [k b]. rewrite !list_elem_of_filter, !elem_of_map_to_list, map_lookup_filter_Some.
  cbn. tauto.
Qed.

Lemma recalculate_interconnects (s : State) : valid_identifier (topology_id s) -> topology_id s <> [] -> exists fn,
  node_at (interconnects_id (topology_id s)) (component_registry (recalculate s)) =
  Some (add_firm (interconnect_firm esz sz (recalculate s)) (add_minimum (interconnect_minimum esz (recalculate s)) (from_full_name fn))).
Proof.
  intros Hid Hne. set (s1 := sync_prunable_component_bounds s).
  assert (E : component_registry (recalculate s) = bounds_builder (topology_id s) (subcomponent (chars "interconnects")
    (fun node => add_firm (interconnect_firm esz sz s1) (add_minimum (interconnect_minimum esz s1) (reset node))))
    (component_registry s1)) by done.
  rewrite E, interconnects_builder by done.
  destruct (node_at_get_or_create (interconnects_id (topology_id s))
    (fun node => add_firm (interconnect_firm esz sz s1) (add_minimum (interconnect_minimum esz s1) (reset node)))
    (component_registry s1)) as [fn ->]. by eexists.
Qed.

(** ** Building *)

Definition at_ (s : State) (ct : ComponentType) (c : ComponentId) : ComponentContext :=
  {| topology_root := topology_id s; context_id := c; context_type := ct |}.

Lemma elem_of_builders_of (s : State) ct c b : (c, b) ∈ builders_of ct s <-> builders s !! (ct, c) = Some b.
Proof.
  unfold builders_of. rewrite list_elem_of_omap. split.
  - intros ([[t c'] b'] & Hin & E). rewrite hash_order_perm, elem_of_map_to_list in Hin.
    case_decide as Ht; [|done]. by injection E as <- <-; subst.
  - intros Hb. exists (ct, c, b). rewrite hash_order_perm, elem_of_map_to_list. split; [done|]. by rewrite decide_True.
Qed.

Lemma build_all_spec root ct l acc :
  let ctx c := {| topology_root := root; context_id := c; context_type := ct |} in
  match build_all (Comp := Comp) root ct l acc with
  | Ok m => (forall c b, (c, b) ∈ l -> exists comp, build_component b (ctx c) = Ok comp) /\
      ((forall c b b', (c, b) ∈ l -> (c, b') ∈ l -> b = b') -> (forall c b, (c, b) ∈ l -> acc !! ctx c = None \/ exists comp, build_component b (ctx c) = Ok comp /\ acc !! ctx c = Some comp) ->
       forall k comp, m !! k = Some comp <-> acc !! k = Some comp \/
         exists c b, (c, b) ∈ l /\ k = ctx c /\ build_component b (ctx c) = Ok comp)
  | Err e => exists c b, (c, b) ∈ l /\ exists reason, build_component b (ctx c) = Err reason /\ e = FailedToBuild ct c reason
  end.
Proof.
  intros ctx. revert acc. induction l as [|[c b] l IH]; intros acc; cbn [build_all].
  { split; [by intros c b Hin%not_elem_of_nil|]. intros _ _ k comp. split; [by left|].
    intros [?|(c & b & Hin & _)]; [done|by apply not_elem_of_nil in Hin]. }
  fold (ctx c). destruct (build_component b (ctx c)) as [comp|reason] eqn:Eb.
  2:{ exists c, b. split; [by left|]. by exists reason. }
  specialize (IH (<[ctx c := comp]> acc)). destruct (build_all root ct l _) as [m|e].
  - destruct IH as [IH1 IH2]. split.
    { intros c' b' [E|Hin]%elem_of_cons; [injection E as -> ->; by exists comp|by apply IH1]. }
    intros Hfun Hacc k comp'. rewrite IH2.
    + destruct (decide (k = ctx c)) as [->|Hk].
      * rewrite lookup_insert_eq. split.
        -- intros [[= ->]|(c' & b' & Hin & E & Hb)]; [right; exists c, b; split; [by left|done]|].
           right. exists c', b'. split; [by right|done].
        -- intros [E|(c' & b' & [Ein|Hin]%elem_of_cons & E & Hb)].
           ++ destruct (Hacc c b ltac:(left)) as [Hn|(x & Hx & Hs)]; [congruence|]. left. congruence.
           ++ injection Ein as -> ->. left. congruence.
           ++ right. by exists c', b'.
      * rewrite lookup_insert_ne by done. split.
        -- intros [?|(c' & b' & Hin & E & Hb)]; [by left|]. right. exists c', b'. split; [by right|done].
        -- intros [?|(c' & b' & [Ein|Hin]%elem_of_cons & E & Hb)]; [by left| |right; by exists c', b'].
           injection Ein as -> ->. done.
    + intros c' b1 b2 Hb1 Hb2. apply (Hfun c'); by right.
    + intros c' b' Hin. destruct (decide (c' = c)) as [->|Hc'].
      * right. exists comp. rewrite lookup_insert_eq. split; [|done]. by rewrite (Hfun c b' b ltac:(by right) ltac:(left)).
      * rewrite lookup_insert_ne by (intros E; injection E as E; congruence). apply Hacc. by right.
  - destruct IH as (c' & b' & Hin & E). exists c', b'. split; [by right|done].
Qed.

(** The components of one kind. *)
Lemma build_kind (s : State) ct :
  match build_all (topology_id s) ct (builders_of ct s) ∅ with
  | Ok m => (forall c b, builders s !! (ct, c) = Some b -> exists comp, build_component b (at_ s ct c) = Ok comp) /\
      forall k comp, m !! k = Some comp <-> exists c b, builders s !! (ct, c) = Some b /\ k = at_ s ct c /\
        build_component b (at_ s ct c) = Ok comp
  | Err e => exists c b reason, builders s !! (ct, c) = Some b /\ build_component b (at_ s ct c) = Err reason
  end.
Proof.
  pose proof (build_all_spec (topology_id s) ct (builders_of ct s) ∅) as Hs. cbn zeta in Hs.
  destruct (build_all _ _ _ _) as [m|e].
  - destruct Hs as [Hok Hm]. split; [intros c b Hb; by apply Hok, elem_of_builders_of|].
    intros k comp. rewrite Hm.
    + rewrite lookup_empty. split.
      * intros [?|(c & b & Hin%elem_of_builders_of & E)]; [done|]. by exists c, b.
      * intros (c & b & Hin%elem_of_builders_of & E). right. by exists c, b.
    + intros c b b' Hb%elem_of_builders_of Hb'%elem_of_builders_of. congruence.
    + intros c b _. left. apply lookup_empty.
  - destruct Hs as (c & b & Hin%elem_of_builders_of & reason & E & _). by exists c, b, reason.
Qed.

Lemma pruned_graph (s : State) : wf (graph s) -> outputs_typed (graph s) ->
  wf (graph (prune_folded_components s)) /\ outputs_typed (graph (prune_folded_components s)) /\
  (forall e, e ∈ edges (graph (prune_folded_components s)) -> e ∈ edges (graph s)) /\
  (forall c, get_component_type (graph (prune_folded_components s)) c = Some CSource \/
     get_component_type (graph (prune_folded_components s)) c = Some CRelay ->
     get_component_type (graph s) c = Some CSource \/ get_component_type (graph s) c = Some CRelay) /\
  forall ct c, get_component_type (graph (prune_folded_components s)) c = Some ct <->
    get_component_type (graph s) c = Some ct /\ ~ doomed s c.
Proof.
  intros Hwf Hty. pose proof (prune_wf (graph s) (candidates s) Hwf) as Hw.
  pose proof (prune_spec (graph s) (candidates s)) as Hp. unfold prune_folded_components, doomed, candidates in *.
  destruct (prune_components_without_inputs _ _) as [g' removed]. destruct Hp as (-> & Hr & _). cbn [graph fst] in *.
  split; [done|]. split; [intros c n; rewrite lookup_without; case_decide; [done|apply Hty]|].
  split; [intros e He; by apply elem_of_edges_without in He as [_ ?]|].
  split; [intros c; rewrite get_component_type_without; case_decide; [by intros []|done]|].
  intros ct c. rewrite get_component_type_without, <- Hr. case_decide; split; try done; by intros [].
Qed.

Lemma pruned_inv_builders (s : State) ct c : blueprint_inv s ->
  is_Some (builders (prune_folded_components s) !! (ct, c)) <-> get_component_type (graph (prune_folded_components s)) c = Some ct.
Proof.
  intros Hs. destruct (pruned_graph s ltac:(apply Hs) ltac:(apply Hs)) as (_ & _ & _ & _ & Ht). rewrite Ht.
  unfold is_Some. setoid_rewrite pruned_builders; [|done]. rewrite <- (bi_builders _ _ Hs). split.
  - intros (b & Hb & Hd). split; [by exists b|done].
  - intros [[b Hb] Hd]. by exists b.
Qed.

Lemma pruned_id (s : State) : topology_id (prune_folded_components s) = topology_id s.
Proof. unfold prune_folded_components. by destruct (prune_components_without_inputs _ _). Qed.

(** A built topology has the graph and the components that are left. *)
Lemma build_spec (s : State) : blueprint_inv s -> (forall e, e ∈ edges (graph s) -> ~ into_source (graph s) e) ->
  let s' := prune_folded_components s in
  let g := graph s' in
  exists r, build s = Some r /\
    ((exists t, r = Ok t) <->
     ((forall e, e ∈ edges g -> edge_typed g e) /\ no_cycle_upstream g /\ all_connected g) /\
     forall ct c b, builders s' !! (ct, c) = Some b -> exists comp, build_component b (at_ s ct c) = Ok comp) /\
    forall t, r = Ok t -> built_id t = topology_id s /\ Wiring.graph t = g /\ edges_ok g /\
      Wiring.edge_conditions t = edge_conditions s' /\
      forall ct k comp, component_map t ct !! k = Some comp <->
        exists c b, builders s' !! (ct, c) = Some b /\ k = at_ s ct c /\ build_component b k = Ok comp.
Proof.
  intros Hs Hns s' g. destruct (pruned_graph s ltac:(apply Hs) ltac:(apply Hs)) as (Hwf & Hty & He & Hsrc & _).
  fold s' in Hwf, Hty, He, Hsrc. fold g in Hwf, Hty, He, Hsrc.
  destruct (validate_spec g Hwf) as (v & Hv & Hiff).
  { intros e Hin Hinto. apply (Hns e (He e Hin)). by apply Hsrc. }
  unfold build. fold s'. fold g. rewrite Hv. cbn [mbind option_bind]. destruct v as [[]|e].
  2:{ eexists. split; [done|]. split; [|done]. split; [by intros []|]. intros [Hok _]. by apply Hiff in Hok. }
  assert (Hok : (forall e, e ∈ edges g -> edge_typed g e) /\ no_cycle_upstream g /\ all_connected g) by by apply Hiff.
  eexists. split; [done|]. pose proof (build_kind s') as Hk. assert (Eid : topology_id s' = topology_id s) by apply pruned_id.
  assert (Eat : at_ s' = at_ s) by (unfold at_; by rewrite Eid). rewrite Eid, Eat in Hk. rewrite Eid.
  assert (Hbuilt : forall ct, match build_all (topology_id s) ct (builders_of ct s') ∅ with
    | Ok m => (forall c b, builders s' !! (ct, c) = Some b -> exists comp, build_component b (at_ s ct c) = Ok comp) /\
        forall k comp, m !! k = Some comp <-> exists c b, builders s' !! (ct, c) = Some b /\ k = at_ s ct c /\ build_component b k = Ok comp
    | Err e => ~ forall ct c b, builders s' !! (ct, c) = Some b -> exists comp, build_component b (at_ s ct c) = Ok comp
    end).
  { intros ct. specialize (Hk ct). destruct (build_all _ _ _ _) as [m|e].
    - destruct Hk as [Hk1 Hk2]. split; [done|]. intros k comp. rewrite Hk2. split; intros (c & b & Hb & -> & Hc); by exists c, b.
    - destruct Hk as (c & b & reason & Hb & Hr). intros Hall. destruct (Hall ct c b Hb) as [comp Hc]. congruence. }
  clear Hk.
  pose proof (Hbuilt CSource) as K1. pose proof (Hbuilt CRelay) as K2. pose proof (Hbuilt CDecoder) as K3.
  pose proof (Hbuilt CTransform) as K4. pose proof (Hbuilt CDestination) as K5. pose proof (Hbuilt CEncoder) as K6.
  pose proof (Hbuilt CForwarder) as K7. clear Hbuilt.
  destruct (build_all _ CSource _ _) as [m1|e1]; cbn; [|split; [split; [by intros []|by intros [_ ?]]|done]].
  destruct (build_all _ CRelay _ _) as [m2|e2]; cbn; [|split; [split; [by intros []|by intros [_ ?]]|done]].
  destruct (build_all _ CDecoder _ _) as [m3|e3]; cbn; [|split; [split; [by intros []|by intros [_ ?]]|done]].
  destruct (build_all _ CTransform _ _) as [m4|e4]; cbn; [|split; [split; [by intros []|by intros [_ ?]]|done]].
  destruct (build_all _ CDestination _ _) as [m5|e5]; cbn; [|split; [split; [by intros []|by intros [_ ?]]|done]].
  destruct (build_all _ CEncoder _ _) as [m6|e6]; cbn; [|split; [split; [by intros []|by intros [_ ?]]|done]].
  destruct (build_all _ CForwarder _ _) as [m7|e7]; cbn; [|split; [split; [by intros []|by intros [_ ?]]|done]].
  split.
  - split; [|by eexists]. intros _. split; [done|]. intros ct. destruct ct; [apply K1|apply K2|apply K3|apply K4|..].
    all: first [apply K5|apply K6|apply K7].
  - intros t [= <-]. split_and!; [done|done| |done|].
    + split; [done|]. split; [done|]. apply Hok.
    + intros ct. destruct ct; cbn; first [apply K1|apply K2|apply K3|apply K4|apply K5|apply K6|apply K7].
Qed.

(** The conditions that are left are those on connections between components that are left. *)
Lemma pruned_conditions (s : State) key gate updates :
  (key, gate, updates) ∈ edge_conditions (prune_folded_components s) <->
  (key, gate, updates) ∈ edge_conditions s /\
  ~ (exists c ct, prunable (graph s) (candidates s) c /\ get_component_type (graph s) c = Some ct /\ involves c key = true).
Proof.
  unfold prune_folded_components, candidates.
  pose proof (prune_spec (graph s) (hash_order (elements (folded_targets s)))) as Hp.
  destruct (prune_components_without_inputs _ _) as [g' removed]. destruct Hp as (_ & Hrm & Hty & _). cbn [edge_conditions].
  assert (Hfold : forall l cs, (key, gate, updates) ∈ foldl (fun cs '(id, _) => remove_component id cs) cs l <->
    (key, gate, updates) ∈ cs /\ forall p : ComponentId * ComponentType, p ∈ l -> involves p.1 key = false).
  { induction l as [|[c ct] l IH]; intros cs; cbn [foldl].
    - split; [|by intros []]. intros Hin. split; [done|]. intros p Hp. by apply not_elem_of_nil in Hp.
    - rewrite IH. unfold remove_component. rewrite list_elem_of_In, filter_In, <- list_elem_of_In, negb_true_iff. cbn. split.
      + intros [[Hin Hc] Hl]. split; [done|]. intros p [->|Hp]%elem_of_cons; [done|by apply Hl].
      + intros [Hin Hl]. split; [split; [done|]|]; [apply (Hl (c, ct)); left|intros p Hp; apply Hl; by right]. }
  rewrite Hfold. split; intros [Hin Hl]; (split; [done|]).
  - intros (c & ct & Hd & _ & Hi). apply Hrm, list_elem_of_fmap in Hd as (p & -> & Hp). rewrite (Hl p Hp) in Hi. done.
  - intros [c ct] Hp. apply not_true_iff_false. cbn. intros Hi. apply Hl. exists c, ct.
    split; [apply Hrm, list_elem_of_fmap; by exists (c, ct)|]. split; [by apply Hty|done].
Qed.

(** ** Theorems *)

Definition connects (op : BlueprintOp) : bool :=
  match op with OpConnect _ _ | OpConnectInOrder _ | OpConnectWhen _ _ _ | OpCapacity _ => true | _ => false end.

Lemma connect_recalculates op s s' : connects op = true -> apply_op op s = (s', Ok tt) -> exists s0, s' = recalculate s0.
Proof.
  destruct op as [c outs b|c outs b|c i o b|c i outs b|c i b|c i o b|c i b|us ds|ids|u d condition|n]; try done; intros _; cbn [apply_op].
  - unfold connect_components. destruct (add_edges _ s) as [s1 [[]|e]]; [|done]. intros [= <-]. by eexists.
  - unfold connect_components_in_order. destruct (add_edges _ s) as [s1 [[]|e]]; [|done]. case_bool_decide; [done|].
    intros [= <-]. by eexists.
  - unfold connect_components_when. destruct (add_edge (graph s) u d) as [g [[]|e]]; [|done].
    destruct (ComponentOutputId_try_from u) as [o|]; [|done]. destruct (ComponentId_try_from d) as [c|]; [|done].
    intros [= <-]. by eexists.
  - intros [= <-]. by eexists.
Qed.

(** C18: The memory bounds that a blueprint has declared are those of the topology it would build.  Whatever
    sequence of operations made it, as long as the last one succeeded: a component that will be built has
    declared exactly what its builder specifies, once; one that will be pruned has declared nothing, also if it
    was declared before its last input went away; nothing is declared for components that do not exist.  After
    a connection was made, the bounds of the interconnects are those for the components that will be built. *)
Theorem bounds_follow_pruning (name : list Z) (registry : ComponentMetadata) (ops : list BlueprintOp) (op : BlueprintOp) (s : State) :
  node_at (topology_identifier name) registry = None ->
  apply_op op (apply_ops ops (TopologyBuildState_new name registry)) = (s, Ok tt) ->
  let s' := prune_folded_components s in
  (forall ct c b, builders s !! (ct, c) = Some b -> exists fn,
     node_at (component_identity (topology_id s) ct c) (component_registry s) =
     Some (if builders s' !! (ct, c) then specify_bounds b (from_full_name fn) else from_full_name fn)) /\
  (forall ct c, valid_id c -> builders s !! (ct, c) = None ->
     node_at (component_identity (topology_id s) ct c) (component_registry s) = None) /\
  (forall ct, live ct s = added ct s') /\
  (connects op = true -> exists fn, node_at (interconnects_id (topology_id s)) (component_registry s) =
     Some (add_firm (interconnect_firm size_of_events_buffer size_of_event s)
            (add_minimum (interconnect_minimum size_of_events_buffer s) (from_full_name fn)))).
Proof.
  intros Hr Hop s'. set (s0 := apply_ops ops _) in *.
  assert (Hs0 : blueprint_inv s0) by by apply apply_ops_inv, new_state_inv.
  pose proof (apply_op_inv op s0 Hs0) as Hs. rewrite Hop in Hs. cbn [fst] in Hs.
  pose proof (apply_op_in_sync op s0 s Hop) as Hsync. split_and!.
  - intros ct c b Hb. destruct (bi_bounds _ _ Hs ct c b Hb) as [fn Hfn]. exists fn. rewrite Hfn. f_equal.
    assert (Hct : get_component_type (graph s) c = Some ct) by (apply Hs; by eexists).
    destruct (builders s' !! (ct, c)) as [b'|] eqn:E.
    + apply pruned_builders in E as [_ Hd]; [|done]. destruct (prunable_components s !! c) as [t|] eqn:Ep; [|done].
      by apply Hsync in Ep as [? _].
    + destruct (prunable_components s !! c) as [t|] eqn:Ep; [done|]. exfalso.
      rewrite eq_None_not_Some in E. apply E. exists b. apply pruned_builders; [done|]. split; [done|]. intros Hd.
      assert (Ep' : prunable_components s !! c = Some ct) by by apply Hsync. congruence.
  - apply Hs.
  - intros ct. by apply live_added.
  - intros Hc. destruct (connect_recalculates op s0 s Hc Hop) as [s1 ->]. apply (recalculate_interconnects s1); [exact (bi_id _ _ Hs)|exact (bi_named _ _ Hs)].
Qed.

(** C5: Building a topology without connections into sources and relays never panics.  Whatever sequence of
    operations made the blueprint, it succeeds exactly if, without the components that are pruned, the
    connected data types agree, no cycle feeds a destination and every component is connected, and the builder
    of every component that is left succeeds.  The built topology then has exactly these components, each built
    for its own context, and no conditions on connections of pruned components, and spawning it does not panic
    either. *)
Theorem build_decides (name : list Z) (registry : ComponentMetadata) (ops : list BlueprintOp) :
  node_at (topology_identifier name) registry = None ->
  let s := apply_ops ops (TopologyBuildState_new name registry) in
  let s' := prune_folded_components s in
  (forall e, e ∈ edges (graph s) -> ~ into_source (graph s) e) ->
  exists r, build s = Some r /\
    ((exists t, r = Ok t) <->
     ((forall e, e ∈ edges (graph s') -> edge_typed (graph s') e) /\ no_cycle_upstream (graph s') /\ all_connected (graph s')) /\
     forall ct c b, builders s' !! (ct, c) = Some b -> exists comp, build_component b (at_ s ct c) = Ok comp) /\
    forall t, r = Ok t ->
      (forall ct k comp, component_map t ct !! k = Some comp <->
         exists c b, builders s !! (ct, c) = Some b /\ ~ prunable (graph s) (candidates s) c /\ k = at_ s ct c /\
           build_component b k = Ok comp) /\
      (forall key gate updates, (key, gate, updates) ∈ Wiring.edge_conditions t <->
         (key, gate, updates) ∈ edge_conditions s /\
         ~ (exists c ct, prunable (graph s) (candidates s) c /\ get_component_type (graph s) c = Some ct /\ involves c key = true)) /\
      forall health, is_Some (spawn_inner t health).
Proof.
  intros Hr s s' Hns. assert (Hs : blueprint_inv s) by by apply apply_ops_inv, new_state_inv.
  destruct (build_spec s Hs Hns) as (r & Hb & Hiff & Hok). exists r. split; [done|]. split; [done|].
  intros t Ht. destruct (Hok t Ht) as (Hid & Hg & Heok & Hcs & Hcomp). split; [|split].
  - intros ct k comp. rewrite Hcomp. split; intros (c & b & Hx); exists c, b.
    + destruct Hx as (Hb' & Hk & Hc). apply pruned_builders in Hb' as [? ?]; done.
    + destruct Hx as (Hb' & Hd & Hk & Hc). split_and!; [by apply pruned_builders|done|done].
  - intros key gate updates. rewrite Hcs. apply pruned_conditions.
  - intros health. assert (Hbt : built_ok t).
    { intros k ct. rewrite Hid, Hg. fold s'. unfold s'. rewrite <- pruned_inv_builders by done. fold s'. split.
      - intros [comp Hc]. apply Hcomp in Hc as (c & b & Hb' & -> & _). cbn. split_and!; [done|done|by eexists].
      - intros (Hroot & Hct & [b Hb']). destruct (proj1 Hiff ltac:(by eexists)) as [_ Hall].
        destruct (Hall ct (context_id k) b Hb') as [comp Hc]. exists comp. apply Hcomp. exists (context_id k), b.
        assert (k = at_ s ct (context_id k)) as Hk by (destruct k; cbn in *; by subst). split_and!; [done|done|by rewrite Hk]. }
    rewrite spawn_inner_all by done. rewrite <- Hg in Heok.
    destruct (wired_graph (built_id t) (Wiring.edge_conditions t) (built_capacity t) (Wiring.graph t) Heok) as (ic & ? & ? & -> & _).
    cbn. by eexists.
Qed.

End state.

(** ** Examples *)

Module Blueprints.

Import Names Topologies.

(** A builder that declares some bytes and builds its identifier. *)
Definition builder (bytes : Z) : Builder ComponentId := {|
  specify_bounds := add_minimum (StructSize "component" bytes);
  build_component := fun c => Ok (context_id c);
|}.

Definition empty_registry : ComponentMetadata := from_full_name None.

Abbreviation Op := (BlueprintOp (Comp := ComponentId)).

(** A pipeline with a tap that is switched off, and a listener whose condition changes at runtime. *)
Definition pipeline_ops : list Op :=
  [OpSource "in" [Ids.named_output "metrics" 1] (builder 100); OpTransform "agg" 1 [Ids.default_output 1] (builder 200);
   OpEncoder "enc" 1 2 (builder 300); OpForwarder "fwd" 2 (builder 400); OpTransform "tap" 1 [Ids.default_output 1] (builder 500);
   OpDestination "debug" 1 (builder 600); OpDestination "live" 1 (builder 700);
   OpConnectInOrder ["in.metrics"; "agg"; "enc"; "fwd"]%string; OpConnect ["tap"]%string ["debug"]%string;
   OpConnectWhen "agg" "live" (Dynamic false [true])].

Definition switch_off : Op := OpConnectWhen "agg" "tap" (Fixed false).

Abbreviation run := (apply_ops 24 512).
Definition start : TopologyBuildState ComponentId := TopologyBuildState_new [97] empty_registry.
Definition switched : TopologyBuildState ComponentId := (apply_op 24 512 switch_off (run pipeline_ops start)).1.

Definition minimum_of (s : TopologyBuildState ComponentId) (ct : ComponentType) (c : string) : option (list UsageExpr) :=
  minimum_exprs <$> node_at (component_identity (topology_id s) ct c) (component_registry s).

Lemma bounds_follow_pruning_witness :
  (exists fn, node_at (component_identity (topology_id switched) CDestination "debug") (component_registry switched) =
     Some (from_full_name fn)) /\
  (exists fn, node_at (component_identity (topology_id switched) CDestination "live") (component_registry switched) =
     Some (add_minimum (StructSize "component" 700) (from_full_name fn))).
Proof.
  assert (Hr : node_at (topology_identifier [97]) empty_registry = None) by (vm_compute; reflexivity).
  assert (Hop : apply_op 24 512 switch_off (run pipeline_ops start) = (switched, Ok tt)).
  { assert (E : (apply_op 24 512 switch_off (run pipeline_ops start)).2 = Ok tt) by (vm_compute; reflexivity).
    unfold switched. revert E. destruct (apply_op 24 512 switch_off (run pipeline_ops start)) as [s r]. cbn. intros ->. reflexivity. }
  destruct (bounds_follow_pruning 24 512 [97] empty_registry pipeline_ops switch_off switched Hr Hop) as (Hb & _).
  assert (Hd : builders switched !! (CDestination, "debug"%string) = Some (builder 600)) by (vm_compute; reflexivity).
  assert (Hl : builders switched !! (CDestination, "live"%string) = Some (builder 700)) by (vm_compute; reflexivity).
  destruct (Hb _ _ _ Hd) as [fn1 H1]. destruct (Hb _ _ _ Hl) as [fn2 H2].
  assert (E1 : builders (prune_folded_components switched) !! (CDestination, "debug"%string) = None) by (vm_compute; reflexivity).
  assert (E2 : builders (prune_folded_components switched) !! (CDestination, "live"%string) = Some (builder 700)) by (vm_compute; reflexivity).
  rewrite E1 in H1. rewrite E2 in H2. split; [exists fn1; exact H1|exists fn2; exact H2].
Defined.

Lemma build_decides_witness :
  exists t, build (run (pipeline_ops ++ [switch_off]) start) = Some (Ok t) /\
    component_map t CForwarder !! at_ start CForwarder "fwd" = Some "fwd"%string /\
    component_map t CTransform !! at_ start CTransform "tap" = None /\ is_Some (spawn_inner t ∅).
Proof.
  assert (Hr : node_at (topology_identifier [97]) empty_registry = None) by (vm_compute; reflexivity).
  assert (Hns : forall e, e ∈ edges (graph (run (pipeline_ops ++ [switch_off]) start)) ->
    ~ into_source (graph (run (pipeline_ops ++ [switch_off]) start)) e).
  { assert (Hall : Forall (fun e => get_component_type (graph (run (pipeline_ops ++ [switch_off]) start)) (to e) <> Some CSource /\
      get_component_type (graph (run (pipeline_ops ++ [switch_off]) start)) (to e) <> Some CRelay)
      (edges (graph (run (pipeline_ops ++ [switch_off]) start)))) by (vm_compute; repeat constructor; discriminate).
    intros e He Hs. destruct (proj1 (Forall_forall _ _) Hall e He) as [N1 N2]. destruct Hs as [Hs|Hs]; [exact (N1 Hs)|exact (N2 Hs)]. }
  destruct (build_decides 24 512 [97] empty_registry (pipeline_ops ++ [switch_off]) Hr Hns) as (r & Hb & _ & Hok).
  assert (E : match build (run (pipeline_ops ++ [switch_off]) start) with
    | Some (Ok t) => bool_decide (component_map t CForwarder !! at_ start CForwarder "fwd" = Some "fwd"%string) &&
        bool_decide (component_map t CTransform !! at_ start CTransform "tap" = None)
    | _ => false end = true) by (vm_compute; reflexivity).
  change (apply_ops 24 512 (pipeline_ops ++ [switch_off]) (TopologyBuildState_new [97] empty_registry))
    with (run (pipeline_ops ++ [switch_off]) start) in Hb.
  rewrite Hb in E. destruct r as [t|e]; [|discriminate E]. exists t. split; [exact Hb|].
  apply andb_true_iff in E as [F T]. apply bool_decide_eq_true in F, T. split; [exact F|]. split; [exact T|].
  destruct (Hok t eq_refl) as (_ & _ & Hsp). apply Hsp.
Defined.

(** A component that was just added is not counted: its builder is stored after the bounds are recalculated. *)
Example added_component_not_counted :
  let s := run [OpDestination "debug" 1 (builder 600)] start in
  live CDestination s = 1 /\
  (m ← node_at (interconnects_id (topology_id s)) (component_registry s); head (minimum_exprs m)) = Some (array_expr "events" 24 0).
Proof. split; vm_compute; reflexivity. Qed.

(** The event channels of encoders are not counted. *)
Example encoders_not_counted :
  let s := run [OpSource "in" [Ids.default_output 1] (builder 1); OpEncoder "enc" 1 2 (builder 2); OpForwarder "fwd" 2 (builder 3);
                OpConnectInOrder ["in"; "enc"; "fwd"]%string] start in
  (m ← node_at (interconnects_id (topology_id s)) (component_registry s); head (minimum_exprs m)) = Some (array_expr "events" 24 0) /\
  match build s with
  | Some (Ok t) => match spawn_inner t ∅ with Some (Ok st) => length (made (interconnects st)) | _ => 0%nat end
  | _ => 0%nat
  end = 2%nat.
Proof. split; vm_compute; reflexivity. Qed.

(** Connecting components whose data types do not agree succeeds; only building fails. *)
Example incompatible_connection :
  let r := apply_op 24 512 (OpConnect ["in"]%string ["debug"]%string)
             (run [OpSource "in" [Ids.default_output 1] (builder 1); OpDestination "debug" 2 (builder 2)] start) in
  r.2 = Ok tt /\ match build r.1 with Some (Err _) => true | _ => false end = true.
Proof. split; vm_compute; reflexivity. Qed.

(** A connection without a condition is gated if there is one with a condition between the same ends. *)
Example duplicate_connection_is_gated :
  match build (run [OpSource "in" [Ids.default_output 1] (builder 1); OpDestination "debug" 1 (builder 2);
                    OpConnect ["in"]%string ["debug"]%string; OpConnectWhen "in" "debug" (Dynamic false [])] start) with
  | Some (Ok t) =>
      match spawn_inner t ∅ with
      | Some (Ok st) => d ← mbind dispatcher (head (workers st)); option_map (map gate) (output_senders d Default)
      | _ => None
      end
  | _ => None
  end = Some [Some 0%nat; Some 0%nat].
Proof. vm_compute. reflexivity. Qed.

End Blueprints.
