(* ===== verification/SupervisorTree.v ===== *)
(** * SupervisorTree: what a supervisor records of its children

    Models [lib/saluki-core/src/runtime/tree/mod.rs]: the node that a supervisor shares with its observers, and the
    roster, which keeps the supervisor's own map of children and the observable records in step.  A shared node is
    known by its identity, and [Stamp::now] is an argument.  Walking the tree for a snapshot is not modelled; it
    orders the children by their keys, so the order in which the records are stored is of no consequence here. *)

From Stdlib Require Import ZArith Lia Strings.String.
From stdpp Require Import base tactics list numbers option gmap strings.
From S2P Require Import Prelude Restart.
Open Scope Z_scope.

(** ** Data *)

Inductive ChildKey := Static (index : nat) | Dynamic (id : Z).

#[export] Instance ChildKey_eq_dec : EqDecision ChildKey.
Proof. solve_decision. Defined.

#[export] Instance ChildKey_countable : Countable ChildKey.
Proof.
  refine (inj_countable' (fun k => match k with Static i => inl i | Dynamic n => inr n end)
    (fun x => match x with inl i => Static i | inr n => Dynamic n end) _). by intros [].
Defined.

Definition is_dynamic (k : ChildKey) : bool := match k with Dynamic _ => true | Static _ => false end.

Inductive AutoShutdown := Never | AnySignificant | AllSignificant.

(** The identity of a shared node. *)
Abbreviation NodeId := positive.

Record StartedChild := { process_id : Z; process_name : string; started_at : Z }.

Record ChildFacts := {
  facts_key : ChildKey;
  facts_name : string;
  facts_node : option NodeId;
  facts_restart : RestartType;
  facts_significant : bool;
}.

Inductive RecordKind := Worker | Supervisor (node : NodeId).

Record ChildRecord := {
  key : ChildKey;
  record_name : string;
  kind : RecordKind;
  restart : RestartType;
  record_significant : bool;
  start : option StartedChild;
  exited : option Z;
}.

Record ChildHistory := { created : Z; restarts : Z }.

Record NodeConfig := { restart_strategy : RestartStrategy; auto_shutdown : AutoShutdown; dedicated_threads : option nat }.

Record NodeInner := {
  config : NodeConfig;
  run : option StartedChild;
  running : bool;
  generation : Z;
  restarts_performed : Z;
  children : gmap Z ChildRecord;
  history : gmap ChildKey ChildHistory;
  adopted : gmap Z NodeId;
  scoped : gmap Z NodeId;
}.

(** ** The node *)

Definition NodeInner_new : NodeInner :=
  {| config := {| restart_strategy := RestartStrategy_default; auto_shutdown := Never; dedicated_threads := None |};
     run := None; running := false; generation := 0; restarts_performed := 0;
     children := ∅; history := ∅; adopted := ∅; scoped := ∅ |}.

Definition update_config (f : NodeConfig -> NodeConfig) (n : NodeInner) : NodeInner :=
  {| config := f (config n); run := run n; running := running n; generation := generation n;
     restarts_performed := restarts_performed n; children := children n; history := history n; adopted := adopted n;
     scoped := scoped n |}.

(** The node with other records, histories, and supervisors and scopes within workers. *)
Definition with_children (cs : gmap Z ChildRecord) (hs : gmap ChildKey ChildHistory) (ad sc : gmap Z NodeId) (n : NodeInner) : NodeInner :=
  {| config := config n; run := run n; running := running n; generation := generation n;
     restarts_performed := restarts_performed n; children := cs; history := hs; adopted := ad; scoped := sc |}.

Definition clear_generation (n : NodeInner) : NodeInner :=
  with_children ∅ (filter (fun x => is_dynamic x.1 = false) (history n)) ∅ ∅ n.

Definition running_children (n : NodeInner) : nat := size (filter (fun x => exited x.2 = None) (children n)).

(** [restarts += 1] on a [u32] *)
Definition count_restart (h : ChildHistory) : ChildHistory := {| created := created h; restarts := wrapping_add 32 (restarts h) 1 |}.

Definition begin_run (process : StartedChild) (n : NodeInner) : NodeInner :=
  let n := clear_generation {| config := config n; run := Some process; running := true;
             generation := u64_add (generation n) 1; restarts_performed := restarts_performed n; children := children n;
             history := history n; adopted := adopted n; scoped := scoped n |} in
  with_children (children n) (count_restart <$> history n) (adopted n) (scoped n) n.

Definition end_run (n : NodeInner) : NodeInner :=
  clear_generation {| config := config n; run := run n; running := false; generation := generation n;
    restarts_performed := restarts_performed n; children := children n; history := history n; adopted := adopted n; scoped := scoped n |}.

(** What a worker's slot does to the node of its supervisor: a scope, or a supervisor that runs inside the worker. *)
Definition attach_scope (child_id : Z) (scope : NodeId) (n : NodeInner) : NodeInner :=
  with_children (children n) (history n) (adopted n) (<[child_id := scope]> (scoped n)) n.

Definition detach_scope (child_id : Z) (scope : NodeId) (n : NodeInner) : NodeInner :=
  if bool_decide (scoped n !! child_id = Some scope)
  then with_children (children n) (history n) (adopted n) (delete child_id (scoped n)) n else n.

Definition attach_run (child_id : Z) (node : NodeId) (n : NodeInner) : NodeInner :=
  with_children (children n) (history n) (<[child_id := node]> (adopted n)) (scoped n) n.

Definition detach_run (child_id : Z) (n : NodeInner) : NodeInner :=
  with_children (children n) (history n) (delete child_id (adopted n)) (scoped n) n.

(** ** The roster *)

Section roster.
Context {E : Type}.

Record Roster := { live : gmap Z E; node : NodeInner }.

Definition Roster_new (n : NodeInner) : Roster := {| live := ∅; node := n |}.

Definition get (id : Z) (r : Roster) : option E := live r !! id.

(** The values, in the order of the map. *)
Definition values (r : Roster) : list E := (map_to_list (live r)).*2.

Definition insert (id : Z) (entry : E) (facts : ChildFacts) (started : StartedChild) (r : Roster) : Roster :=
  let n := node r in
  let hs := match history n !! facts_key facts with
            | Some _ => history n
            | None => <[facts_key facts := {| created := started_at started; restarts := 0 |}]> (history n)
            end in
  let kind := match facts_node facts with Some node => Supervisor node | None => Worker end in
  {| live := <[id := entry]> (live r);
     node := with_children
       (<[id := {| key := facts_key facts; record_name := facts_name facts; kind := kind; restart := facts_restart facts;
                   record_significant := facts_significant facts; start := Some started; exited := None |}]> (children n))
       hs (adopted n) (scoped n) n |}.

Definition add_performed (n : NodeInner) : NodeInner :=
  {| config := config n; run := run n; running := running n; generation := generation n;
     restarts_performed := u64_add (restarts_performed n) 1; children := children n; history := history n;
     adopted := adopted n; scoped := scoped n |}.

Definition with_start (s : option StartedChild) (ex : option Z) (c : ChildRecord) : ChildRecord :=
  {| key := key c; record_name := record_name c; kind := kind c; restart := restart c;
     record_significant := record_significant c; start := s; exited := ex |}.

Definition restart_in_place (id : Z) (started : StartedChild) (r : Roster) : Roster :=
  let n := add_performed (node r) in
  {| live := live r;
     node := match children n !! id with
             | Some record =>
                 with_children (<[id := with_start (Some started) None record]> (children n))
                   (alter count_restart (key record) (history n)) (delete id (adopted n)) (scoped n) n
             | None => with_children (children n) (history n) (delete id (adopted n)) (scoped n) n
             end |}.

Definition remove (now id : Z) (r : Roster) : Roster :=
  let n := node r in
  let cs_hs := match children n !! id with
               | Some record =>
                   if is_dynamic (key record) then (delete id (children n), delete (key record) (history n))
                   else (<[id := with_start (start record) (Some now) record]> (children n), history n)
               | None => (children n, history n)
               end in
  {| live := delete id (live r); node := with_children cs_hs.1 cs_hs.2 (delete id (adopted n)) (delete id (scoped n)) n |}.

(** What a group restart does to the histories, for one record. *)
Definition group_restart_history (record : ChildRecord) (hs : gmap ChildKey ChildHistory) : gmap ChildKey ChildHistory :=
  if is_dynamic (key record) then delete (key record) hs
  else match restart record with
       | Temporary => hs
       | _ => alter count_restart (key record) hs
       end.

(** The tombstone that a group restart leaves, if any. *)
Definition group_restart_record (stopped_at : Z) (record : ChildRecord) : option ChildRecord :=
  if is_dynamic (key record) then None
  else match restart record with
       | Temporary => Some (match exited record with
                            | None => with_start (start record) (Some stopped_at) record
                            | Some _ => record
                            end)
       | _ => None
       end.

Definition clear_for_group_restart (now : Z) (r : Roster) : Roster :=
  let n := add_performed (node r) in
  {| live := ∅;
     node := with_children (omap (group_restart_record now) (children n))
       (foldr (fun x hs => group_restart_history x.2 hs) (history n) (map_to_list (children n))) ∅ ∅ n |}.

(** [debug_assert_consistent] *)
Definition consistent (r : Roster) : bool := (size (live r) =? running_children (node r))%nat.

End roster.
Arguments Roster E : clear implicits.

(** ** The roster and the records agree *)

(** The children that run are those in the map, key by key, and their records describe them. *)
Section invariant.
Context {E : Type}.

Record roster_ok (r : Roster E) : Prop := {
  ok_live : forall id, is_Some (live r !! id) <-> exists c, children (node r) !! id = Some c /\ exited c = None;
  ok_keys : forall id id' c c', children (node r) !! id = Some c -> children (node r) !! id' = Some c' -> key c = key c' -> id = id';
  ok_history : forall id c, children (node r) !! id = Some c -> is_Some (history (node r) !! key c);
}.

Lemma roster_ok_consistent (r : Roster E) : roster_ok r -> consistent r = true.
Proof.
  intros [Hl _ _]. apply Nat.eqb_eq. unfold running_children. rewrite <- !size_dom. f_equal. apply set_eq. intros id.
  rewrite !elem_of_dom, Hl. split.
  - intros (c & Hc & He). exists c. by apply map_lookup_filter_Some.
  - intros [c [Hc He]%map_lookup_filter_Some]. by exists c.
Qed.

Lemma roster_ok_new n : children n = ∅ -> roster_ok (Roster_new (E := E) n).
Proof.
  intros Hn. split; cbn; rewrite Hn.
  - intros id. rewrite lookup_empty. split; [by intros []|]. by intros (c & Hc & _).
  - intros id id' c c' Hc. by rewrite lookup_empty in Hc.
  - intros id c Hc. by rewrite lookup_empty in Hc.
Qed.

Lemma roster_ok_insert id e facts started (r : Roster E) : roster_ok r ->
  (forall id' c, children (node r) !! id' = Some c -> key c = facts_key facts -> id' = id) ->
  roster_ok (insert id e facts started r).
Proof.
  intros [Hl Hk Hh] Hkey. split; cbn.
  - intros id'. rewrite !lookup_insert. case_decide as Ei; [|apply Hl]. split; [|by eexists]. intros _. by eexists.
  - intros id1 id2 c1 c2. rewrite !lookup_insert. repeat case_decide; intros H1 H2 Hc; simplify_eq/=; [done|symmetry|idtac|].
    + by eapply Hkey.
    + by eapply Hkey.
    + by eapply Hk.
  - intros id' c. rewrite lookup_insert. case_decide as Ei.
    + intros [= <-]. cbn. destruct (history (node r) !! facts_key facts) eqn:E1; [by rewrite E1|]. by rewrite lookup_insert_eq.
    + intros Hc. destruct (history (node r) !! facts_key facts) eqn:E1; [by eapply Hh|].
      rewrite lookup_insert. case_decide; [done|by eapply Hh].
Qed.

Lemma roster_ok_restart id started (r : Roster E) : roster_ok r -> is_Some (live r !! id) -> roster_ok (restart_in_place id started r).
Proof.
  intros [Hl Hk Hh] Hid. apply Hl in Hid as (c0 & Hc0 & He0). unfold restart_in_place. cbn. rewrite Hc0. split; cbn.
  - intros id'. rewrite Hl, lookup_insert. case_decide as Ei; [subst id'|done]. split; intros _; [by eexists|by exists c0].
  - intros id1 id2 c1 c2. rewrite !lookup_insert. repeat case_decide; intros H1 H2 Hc; simplify_eq/=; [done|idtac..].
    + by eapply Hk.
    + by eapply Hk.
    + by eapply Hk.
  - intros id' c. rewrite lookup_insert, lookup_alter_is_Some. case_decide as Ei; [|apply Hh]. intros [= <-]. cbn. by eapply Hh.
Qed.

Lemma roster_ok_remove now id (r : Roster E) : roster_ok r -> roster_ok (remove now id r).
Proof.
  intros [Hl Hk Hh]. unfold remove. destruct (children (node r) !! id) as [c0|] eqn:E0; [destruct (is_dynamic (key c0)) eqn:Ed|]; split; cbn.
  - intros id'. rewrite !lookup_delete. case_decide; [|apply Hl]. split; [by intros []|]. by intros (? & ? & _).
  - intros id1 id2 c1 c2. rewrite !lookup_delete. repeat case_decide; intros H1 H2; try done. by eapply Hk.
  - intros id' c. rewrite !lookup_delete. case_decide as Ei; [done|]. intros Hc. case_decide as Ek; [|by eapply Hh].
    exfalso. apply Ei. by eapply (Hk id id' c0 c).
  - intros id'. rewrite lookup_delete, lookup_insert. case_decide; [|apply Hl]. split; [by intros []|]. by intros (? & [= <-] & ?).
  - intros id1 id2 c1 c2. rewrite !lookup_insert. repeat case_decide; intros H1 H2 Hc; simplify_eq/=; [done|idtac..].
    + by eapply Hk.
    + by eapply Hk.
    + by eapply Hk.
  - intros id' c. rewrite lookup_insert. case_decide; [intros [= <-]; cbn; by eapply Hh|apply Hh].
  - intros id'. rewrite lookup_delete. case_decide as Ei; [|apply Hl]. subst id'. split; [by intros []|]. intros (c & Hc & _). congruence.
  - intros id1 id2 c1 c2. by apply Hk.
  - intros id' c. apply Hh.
Qed.

(** What a group restart does to the history of one key. *)
Definition group_restarted (record : ChildRecord) (h : ChildHistory) : option ChildHistory :=
  if is_dynamic (key record) then None
  else Some (match restart record with Temporary => h | _ => count_restart h end).

Lemma group_history_other (l : list (Z * ChildRecord)) hs k : (forall x, x ∈ l -> key x.2 <> k) ->
  foldr (fun x hs => group_restart_history x.2 hs) hs l !! k = hs !! k.
Proof.
  induction l as [|[id c] l IH]; intros Hl; [done|]. cbn. assert (Hc : key c <> k) by (apply (Hl (id, c)); left).
  assert (Hi : foldr (fun x hs => group_restart_history x.2 hs) hs l !! k = hs !! k) by (apply IH; intros; apply Hl; by right).
  unfold group_restart_history. destruct (is_dynamic (key c)); [by rewrite lookup_delete_ne|].
  destruct (restart c); [by rewrite lookup_alter_ne..|done].
Qed.

Lemma group_history_lookup (l : list (Z * ChildRecord)) hs id c : NoDup ((fun x : Z * ChildRecord => key x.2) <$> l) -> (id, c) ∈ l ->
  foldr (fun x hs => group_restart_history x.2 hs) hs l !! key c = hs !! key c ≫= group_restarted c.
Proof.
  induction l as [|[id' c'] l IH]; [by intros _ ?%not_elem_of_nil|]. csimpl. intros [Hn Hnd]%NoDup_cons [[= <- <-]|Hin]%elem_of_cons.
  - assert (Ho : foldr (fun x hs => group_restart_history x.2 hs) hs l !! key c = hs !! key c).
    { apply group_history_other. intros x Hx Hk. apply Hn. rewrite <- Hk. by apply (list_elem_of_fmap_2 (fun x : Z * ChildRecord => key x.2)). }
    set (h0 := foldr _ hs l) in *. unfold group_restart_history, group_restarted.
    destruct (is_dynamic (key c)); [rewrite lookup_delete_eq; by destruct (hs !! key c)|].
    destruct (restart c); rewrite ?lookup_alter_eq, Ho; by destruct (hs !! key c).
  - assert (Hk : key c' <> key c) by (intros Hk; apply Hn; rewrite Hk; by apply (list_elem_of_fmap_2 (fun x : Z * ChildRecord => key x.2) _ (id, c))).
    rewrite <- IH by done. set (h0 := foldr _ hs l). unfold group_restart_history. destruct (is_dynamic (key c')); [by rewrite lookup_delete_ne|].
    destruct (restart c'); [by rewrite lookup_alter_ne..|done].
Qed.

Lemma roster_keys_nodup (r : Roster E) : roster_ok r -> NoDup ((fun x : Z * ChildRecord => key x.2) <$> map_to_list (children (node r))).
Proof.
  intros [_ Hk _]. apply NoDup_fmap_2_strong; [|apply NoDup_map_to_list]. intros [i c] [j d] Hi Hj Hc. cbn in Hc.
  apply elem_of_map_to_list in Hi, Hj. assert (i = j) as -> by by eapply Hk. congruence.
Qed.

(** A group restart counts as one restart of every child that it brings back, and as the end of the others. *)
Lemma group_restart_histories now (r : Roster E) k : roster_ok r ->
  history (node (clear_for_group_restart now r)) !! k =
    match map_to_list (filter (fun x => key x.2 = k) (children (node r))) with
    | [] => history (node r) !! k
    | (_, c) :: _ => history (node r) !! k ≫= group_restarted c
    end.
Proof.
  intros Hr. unfold clear_for_group_restart. cbn.
  destruct (map_to_list (filter _ _)) as [|[id c] l] eqn:El.
  - apply group_history_other. intros [id c] Hx Hk. apply elem_of_map_to_list in Hx.
    assert (Hf : filter (fun x : Z * ChildRecord => key x.2 = k) (children (node r)) !! id = Some c) by by apply map_lookup_filter_Some.
    apply elem_of_map_to_list in Hf. rewrite El in Hf. by apply not_elem_of_nil in Hf.
  - assert (Hf : (id, c) ∈ map_to_list (filter (fun x : Z * ChildRecord => key x.2 = k) (children (node r)))) by (rewrite El; left).
    apply elem_of_map_to_list, map_lookup_filter_Some in Hf as [Hf <-].
    apply (group_history_lookup _ _ id); [by apply roster_keys_nodup|by apply elem_of_map_to_list].
Qed.

Lemma roster_ok_group_restart now (r : Roster E) : roster_ok r -> roster_ok (clear_for_group_restart now r).
Proof.
  intros Hr. pose proof Hr as [Hl Hk Hh]. assert (Hom : forall id c, omap (group_restart_record now) (children (node r)) !! id = Some c ->
    exists c0, children (node r) !! id = Some c0 /\ key c = key c0 /\ restart c0 = Temporary /\ is_dynamic (key c0) = false /\ is_Some (exited c)).
  { intros id c. rewrite lookup_omap. intros (c0 & Hc0 & Hg)%bind_Some. exists c0. split; [done|]. unfold group_restart_record in Hg.
    destruct (is_dynamic (key c0)); [done|]. destruct (restart c0); try done. injection Hg as <-. destruct (exited c0) eqn:Ee; cbn; by eauto. }
  split; cbn.
  - intros id. rewrite lookup_empty. split; [by intros []|]. intros (c & (c0 & _ & _ & _ & _ & Hs)%Hom & He). rewrite He in Hs. by destruct Hs.
  - intros id1 id2 c1 c2 (d1 & H1 & K1 & _)%Hom (d2 & H2 & K2 & _)%Hom Hc. eapply Hk; [done|done|congruence].
  - intros id c (c0 & Hc0 & -> & Ht & Hd & _)%Hom.
    rewrite (group_history_lookup _ _ id); [|by apply roster_keys_nodup|by apply elem_of_map_to_list].
    destruct (Hh id c0 Hc0) as [h ->]. cbn. unfold group_restarted. rewrite Hd, Ht. by eexists.
Qed.

End invariant.
