(* ===== verification/WorkerState.v ===== *)
(** * WorkerState: the tasks of a supervisor's children

    Models [lib/saluki-core/src/runtime/worker_state.rs] and [halt.rs], and of [supervisor.rs] the errors and what
    describes a child: its specification, the settings it is registered with and how they are resolved.

    A task is known by its identity in the runtime, which is an input when the task is spawned; so are the identity
    of its process and, for a supervisor with a runtime of its own, whether the thread could be started.  Where a
    child runs, the scope it adopts and the observer of the test harness do not bear on supervision and are left
    out.  Shutting down is a sequence of events: tasks end, deadlines pass, the owner is halted.  What is sent to
    the workers meanwhile is recorded in the order in which it is sent. *)

From Stdlib Require Import ZArith Lia Strings.String.
From stdpp Require Import base tactics list numbers option gmap strings.
From S2P Require Import Prelude Restart SupervisorTree.
Open Scope Z_scope.

(** ** Errors *)

(** [GenericError] holds any error; it can be asked whether it is one of the supervisor's. *)
Inductive GenericError :=
| OtherError (message : string)
| SomeSupervisorError (e : SupervisorError)
| SomeProcessError (e : ProcessError)
with SupervisorError :=
| InvalidName (name : string)
| FailedToInitialize (child_name : string) (source : GenericError)
| RestartLimitReached
| SignificantChildExited
| ShutdownTimedOut (aborted : Z)
with ProcessError :=
| Aborted
| Panicked
| Terminated (source : GenericError).

Inductive WorkerError :=
| Initialization (child_name : option string) (source : GenericError)
| Runtime (e : GenericError)
| WorkerShutdownTimedOut (aborted : Z).

(** [From<SupervisorError> for WorkerError] *)
Definition WorkerError_from (err : SupervisorError) : WorkerError :=
  match err with
  | FailedToInitialize child_name source => Initialization (Some child_name) source
  | ShutdownTimedOut aborted => WorkerShutdownTimedOut aborted
  | other => Runtime (SomeSupervisorError other)
  end.

(** ** Children *)

Inductive ShutdownStrategy := Graceful (timeout : Z) | Brutal.

(** [Duration::MAX], in nanoseconds *)
Definition Duration_MAX : Z := 2 ^ 64 * 1000000000 - 1.

(** A worker, as its [Supervisable] implementation describes it, or a nested supervisor. *)
Inductive SupervisedChild :=
| ChildWorker (name : string) (strategy : ShutdownStrategy) (wants_signal can_restart : bool)
| ChildSupervisor (supervisor_id : string) (node : NodeId) (dedicated : bool).

Definition child_name (c : SupervisedChild) : string :=
  match c with ChildWorker name _ _ _ => name | ChildSupervisor supervisor_id _ _ => supervisor_id end.

Definition child_node (c : SupervisedChild) : option NodeId :=
  match c with ChildWorker _ _ _ _ => None | ChildSupervisor _ node _ => Some node end.

Definition shutdown_strategy (c : SupervisedChild) : ShutdownStrategy :=
  match c with ChildWorker _ strategy _ _ => strategy | ChildSupervisor _ _ _ => Graceful Duration_MAX end.

Definition can_restart (c : SupervisedChild) : bool :=
  match c with ChildWorker _ _ _ can_restart => can_restart | ChildSupervisor _ _ _ => true end.

Inductive Edge := Hosted | Needed.
Inductive Registration := Declared | Spawned.
Inductive ChildShutdown := WorkerStrategy | Explicit (strategy : ShutdownStrategy).

Definition ChildShutdown_resolve (worker_strategy : ShutdownStrategy) (s : ChildShutdown) : ShutdownStrategy :=
  match s with WorkerStrategy => worker_strategy | Explicit strategy => strategy end.

Record ChildOptions := {
  opt_restart : option RestartType;
  opt_significant : bool;
  opt_shutdown : ChildShutdown;
  opt_edge : option Edge;
  opt_forwards_failures : bool;
  opt_stops_with_owner : bool;
}.

Definition ChildOptions_default : ChildOptions :=
  {| opt_restart := None; opt_significant := false; opt_shutdown := WorkerStrategy; opt_edge := None;
     opt_forwards_failures := false; opt_stops_with_owner := false |}.

Record ChildConfig := {
  cfg_restart : RestartType;
  cfg_significant : bool;
  cfg_shutdown : ChildShutdown;
  cfg_edge : Edge;
  cfg_forwards_failures : bool;
  cfg_stops_with_owner : bool;
}.

Definition resolve (registration : Registration) (restartable : bool) (o : ChildOptions) : ChildConfig :=
  let edge := match opt_edge o with
              | Some edge => edge
              | None => match registration, opt_restart o with
                        | Declared, None => if restartable then Needed else Hosted
                        | _, _ => Hosted
                        end
              end in
  let restart := if restartable then
                   match opt_restart o with
                   | Some restart => restart
                   | None => match edge with Needed => Permanent | Hosted => Transient end
                   end
                 else Temporary in
  {| cfg_restart := restart; cfg_significant := opt_significant o; cfg_shutdown := opt_shutdown o; cfg_edge := edge;
     cfg_forwards_failures := opt_forwards_failures o; cfg_stops_with_owner := opt_stops_with_owner o |}.

(** [into_child_parts] *)
Definition into_child_parts (spec : SupervisedChild) (o : ChildOptions) (registration : Registration) : SupervisedChild * ChildConfig :=
  (spec, resolve registration (can_restart spec) o).

Definition can_stop_owner (c : ChildConfig) : bool :=
  match cfg_restart c with
  | Permanent => false
  | _ => cfg_significant c || match cfg_edge c with Needed => true | Hosted => false end
  end.

(** ** Halts *)

Inductive Halt := Overdue | Immediate.

#[export] Instance Halt_eq_dec : EqDecision Halt.
Proof. solve_decision. Defined.

Definition is_counted (h : Halt) : bool := match h with Overdue => true | Immediate => false end.

(** The watch of a process: whether there is an owner that can still halt it, and the halt it has seen. *)
Record HaltWatch := { signal : bool; halted : option Halt }.

Definition HaltWatch_new : HaltWatch := {| signal := true; halted := None |}.
Definition HaltWatch_never : HaltWatch := {| signal := false; halted := None |}.

(** [wait], at the moment it resolves: a halt is remembered, and a new one comes from the signal. *)
Definition wait (reason : Halt) (w : HaltWatch) : option HaltWatch :=
  match halted w with
  | Some seen => match reason, seen with Overdue, Overdue | Immediate, Immediate => Some w | _, _ => None end
  | None => if signal w then Some {| signal := false; halted := Some reason |} else None
  end.

(** ** Workers *)

(** What goes to a worker. *)
Inductive Sent := Signal (task : Z) | SendHalt (task : Z) (reason : Halt).

#[export] Instance Sent_eq_dec : EqDecision Sent.
Proof. solve_decision. Defined.

Record ProcessState := {
  worker_id : Z;
  strategy : ShutdownStrategy;
  coordinator : bool;
  stops_with_owner : bool;
}.

Record WorkerState := {
  worker_tasks : gset Z;
  worker_map : gmap Z ProcessState;
  owner_stopping : bool;
}.

Definition WorkerState_new : WorkerState := {| worker_tasks := ∅; worker_map := ∅; owner_stopping := false |}.

(** What the runtime gives a child that is started: the identity of its task, its process, and what keeps the thread
    of a dedicated runtime from starting. *)
Record Start := { task : Z; started : StartedChild; thread_error : option GenericError }.

Definition add_worker (st : Start) (id : Z) (spec : SupervisedChild) (config : ChildConfig) (ws : WorkerState)
    : result SupervisorError (StartedChild * list Sent * WorkerState) :=
  match spec, thread_error st with
  | ChildSupervisor supervisor_id _ true, Some e => Err (FailedToInitialize supervisor_id e)
  | _, _ =>
      let at_once := cfg_stops_with_owner config && owner_stopping ws in
      Ok (started st, if at_once then [Signal (task st)] else [],
          {| worker_tasks := {[task st]} ∪ worker_tasks ws;
             worker_map := <[task st := {| worker_id := id;
                                           strategy := ChildShutdown_resolve (shutdown_strategy spec) (cfg_shutdown config);
                                           coordinator := negb at_once;
                                           stops_with_owner := cfg_stops_with_owner config |}]> (worker_map ws);
             owner_stopping := owner_stopping ws |})
  end.

Definition take_coordinator (p : ProcessState) : ProcessState :=
  {| worker_id := worker_id p; strategy := strategy p; coordinator := false; stops_with_owner := stops_with_owner p |}.

Definition stop_with_owner (ws : WorkerState) : list Sent * WorkerState :=
  let stop p := stops_with_owner p && coordinator p in
  ((fun x => Signal x.1) <$> map_to_list (filter (fun x => stop x.2 = true) (worker_map ws)),
   {| worker_tasks := worker_tasks ws;
      worker_map := (fun p => if stop p then take_coordinator p else p) <$> worker_map ws;
      owner_stopping := true |}).

(** How a task ends. *)
Inductive Joined := Finished (output : result WorkerError unit) | TaskPanicked | TaskCancelled.

(** [complete], for a task that the join set has handed out; [None] is the [expect]. *)
Definition complete (t : Z) (j : Joined) (ws : WorkerState) : option (Z * result WorkerError unit * WorkerState) :=
  p ← worker_map ws !! t;
  let r := match j with
           | Finished output => output
           | TaskPanicked => Err (Runtime (SomeProcessError Panicked))
           | TaskCancelled => Err (Runtime (SomeProcessError Aborted))
           end in
  Some (worker_id p, r, {| worker_tasks := worker_tasks ws ∖ {[t]}; worker_map := delete t (worker_map ws); owner_stopping := owner_stopping ws |}).

Definition reported_abort_count (output : result WorkerError unit) : Z :=
  match output with
  | Err (WorkerShutdownTimedOut aborted) => aborted
  | Err (Runtime (SomeSupervisorError (ShutdownTimedOut aborted))) => aborted
  | _ => 0
  end.

(** ** Shutting down *)

Record Stopping := {
  stopping_id : Z;
  halter : bool;
  timeout_at : option Z;
  counted : bool;
}.

(** [Stopping::halt], which also does nothing for a worker that is already halted but for its deadline. *)
Definition halt (t : Z) (reason : Halt) (c : Stopping) : list Sent * Stopping :=
  if halter c then ([SendHalt t reason], {| stopping_id := stopping_id c; halter := false; timeout_at := None; counted := is_counted reason |})
  else ([], {| stopping_id := stopping_id c; halter := false; timeout_at := None; counted := counted c |}).

Definition halt_with_owner (t : Z) (reason : Halt) (c : Stopping) : list Sent * Stopping :=
  if halter c then halt t reason c else ([], c).

Section shutdown.
(** The latest instant that can be represented. *)
Context (instant_max : Z).

(** [Instant::checked_add] *)
Definition checked_add (now d : Z) : option Z := if now + d <=? instant_max then Some (now + d) else None.

(** What the first loop does for one worker. *)
Definition begin_stopping (now t : Z) (p : ProcessState) : list Sent * Stopping :=
  let child := {| stopping_id := worker_id p; halter := true; timeout_at := None; counted := true |} in
  match strategy p with
  | Graceful timeout =>
      (if coordinator p then [Signal t] else [],
       {| stopping_id := worker_id p; halter := true; timeout_at := checked_add now timeout; counted := true |})
  | Brutal => halt t Immediate child
  end.

Record Draining := {
  tasks : gset Z;
  stopping : gmap Z Stopping;
  watch : HaltWatch;
  halted_total : Z;
  exits : list (Z * result WorkerError unit);
  sent : list Sent;
}.

(** Applies [f] to every worker that is stopping. *)
Definition each_stopping (f : Z -> Stopping -> list Sent * Stopping) (d : Draining) : Draining :=
  {| tasks := tasks d; stopping := map_imap (fun t c => Some (f t c).2) (stopping d); watch := watch d;
     halted_total := halted_total d; exits := exits d;
     sent := sent d ++ (map_to_list (stopping d) ≫= fun x => (f x.1 x.2).1) |}.

Definition with_watch (w : HaltWatch) (d : Draining) : Draining :=
  {| tasks := tasks d; stopping := stopping d; watch := w; halted_total := halted_total d; exits := exits d; sent := sent d |}.

Definition begin_shutdown (now : Z) (w : HaltWatch) (ws : WorkerState) : Draining :=
  let d := {| tasks := worker_tasks ws;
              stopping := map_imap (fun t p => Some (begin_stopping now t p).2) (worker_map ws);
              watch := w; halted_total := 0; exits := [];
              sent := map_to_list (worker_map ws) ≫= fun x => (begin_stopping now x.1 x.2).1 |} in
  match halted w with
  | Some reason => each_stopping (fun t => halt_with_owner t reason) d
  | None => d
  end.

Inductive DrainEvent :=
| OwnerHalted (reason : Halt)
| TaskJoined (t : Z) (j : Joined)
| DeadlinePassed (now : Z).

(** The earliest deadline. *)
Definition next_timeout (d : Draining) : option Z :=
  foldr (fun x a => match timeout_at x.2, a with
                    | Some t, Some t' => Some (Z.min t t')
                    | Some t, None => Some t
                    | None, a => a
                    end) None (map_to_list (stopping d)).

Definition drain_join (t : Z) (j : Joined) (d : Draining) : Draining :=
  let output := match j with
                | Finished output => Some output
                | TaskPanicked => Some (Err (Runtime (SomeProcessError Panicked)))
                | TaskCancelled => None
                end in
  match stopping d !! t with
  | Some child =>
      {| tasks := tasks d ∖ {[t]}; stopping := delete t (stopping d); watch := watch d;
         halted_total := if counted child then u64_add (halted_total d) (from_option reported_abort_count 0 output) else halted_total d;
         exits := exits d ++ match output with Some output => [(stopping_id child, output)] | None => [] end;
         sent := sent d |}
  | None => {| tasks := tasks d ∖ {[t]}; stopping := stopping d; watch := watch d; halted_total := halted_total d;
               exits := exits d; sent := sent d |}
  end.

(** One turn of the second loop; [None] for what cannot happen then. *)
Definition drain_step (e : DrainEvent) (d : Draining) : option Draining :=
  if bool_decide (tasks d = ∅) then None
  else match e with
       | OwnerHalted reason =>
           match halted (watch d) with
           | Some _ => None
           | None => w ← wait reason (watch d); Some (each_stopping (fun t => halt_with_owner t reason) (with_watch w d))
           end
       | TaskJoined t j => if bool_decide (t ∈ tasks d) then Some (drain_join t j d) else None
       | DeadlinePassed now =>
           match next_timeout d with
           | Some next =>
               if next <=? now then
                 Some (each_stopping (fun t c => match timeout_at c with
                                                 | Some timeout_at => if timeout_at <=? now then halt t Overdue c else ([], c)
                                                 | None => ([], c)
                                                 end) d)
               else None
           | None => None
           end
       end.

Fixpoint drain (es : list DrainEvent) (d : Draining) : option Draining :=
  match es with
  | [] => Some d
  | e :: es' => d ← drain_step e d; drain es' d
  end.

(** [shutdown_workers], when [es] is all that happens until the last task has ended: the halts that are counted, the
    results, the watch, and what was sent. *)
Definition shutdown_workers (now : Z) (w : HaltWatch) (es : list DrainEvent) (ws : WorkerState) : option Draining :=
  d ← drain es (begin_shutdown now w ws);
  if bool_decide (tasks d = ∅) then Some d else None.

End shutdown.

(** ** What a shutdown does *)

Definition sent_task (s : Sent) : Z := match s with Signal t | SendHalt t _ => t end.

(** What was sent to one task. *)
Definition sent_to (t : Z) (l : list Sent) : list Sent := filter (fun s => sent_task s = t) l.

#[local] Arguments sent_to : simpl never.

Definition halt_list (t : Z) (h : option Halt) : list Sent := match h with Some r => [SendHalt t r] | None => [] end.

(** The tasks that end, in order. *)
Definition joins (es : list DrainEvent) : list (Z * Joined) :=
  omap (fun e => match e with TaskJoined t j => Some (t, j) | _ => None end) es.

Definition output_of (j : Joined) : option (result WorkerError unit) :=
  match j with
  | Finished output => Some output
  | TaskPanicked => Some (Err (Runtime (SomeProcessError Panicked)))
  | TaskCancelled => None
  end.

(** What the end of a task adds to the count of an unclean shutdown: what it reports, unless it was halted outright. *)
Definition charge (sent : list Sent) (x : Z * Joined) : Z :=
  if bool_decide (SendHalt x.1 Immediate ∈ sent) then 0 else from_option reported_abort_count 0 (output_of x.2).

(** The results by worker, in the order in which the tasks end. *)
Definition results (m : gmap Z ProcessState) (l : list (Z * Joined)) : list (Z * result WorkerError unit) :=
  omap (fun x => p ← m !! x.1; r ← output_of x.2; Some (worker_id p, r)) l.

Lemma sent_to_app t l1 l2 : sent_to t (l1 ++ l2) = sent_to t l1 ++ sent_to t l2.
Proof. apply filter_app. Qed.

Lemma elem_sent_to s l : s ∈ l <-> s ∈ sent_to (sent_task s) l.
Proof. unfold sent_to. rewrite list_elem_of_filter. naive_solver. Qed.

Lemma perm_short {A} (l k : list A) : l ≡ₚ k -> (length k <= 1)%nat -> l = k.
Proof.
  destruct k as [|x [|y k]]; intros Hp Hl; [by apply Permutation_nil_r|by apply Permutation_singleton_r|simpl in Hl; lia].
Qed.

(** Sending at most one message to every key. *)
Lemma sent_to_each {A} (m : gmap Z A) (g : Z -> A -> list Sent) t :
  (forall k a, (length (g k a) <= 1)%nat /\ Forall (fun s => sent_task s = k) (g k a)) ->
  sent_to t (map_to_list m ≫= fun x => g x.1 x.2) = from_option (g t) [] (m !! t).
Proof.
  intros Hg. assert (Hall : forall k a, sent_to t (g k a) = if decide (k = t) then g k a else []).
  { intros k a. destruct (Hg k a) as [_ Hf]. unfold sent_to. induction Hf as [|s l Hs _ IH]; [by case_decide|].
    rewrite filter_cons, Hs, IH. repeat case_decide; done. }
  assert (Hnone : forall l : list (Z * A), (forall x, x ∈ l -> x.1 <> t) -> sent_to t (l ≫= fun x => g x.1 x.2) = []).
  { induction l as [|x l IH]; intros Hl; [done|]. rewrite bind_cons, sent_to_app, Hall, decide_False by (apply Hl; left).
    rewrite IH by (intros; apply Hl; by right). done. }
  destruct (m !! t) as [a|] eqn:Ea; cbn.
  - apply perm_short; [|apply Hg]. pose proof (map_to_list_insert (delete t m) t a (lookup_delete_eq m t)) as Hp.
    rewrite insert_delete_id in Hp by done.
    assert (Hb : (map_to_list m ≫= fun x => g x.1 x.2) ≡ₚ g t a ++ (map_to_list (delete t m) ≫= fun x => g x.1 x.2)) by by rewrite Hp.
    unfold sent_to. rewrite Hb. change (sent_to t (g t a ++ (map_to_list (delete t m) ≫= fun x => g x.1 x.2)) ≡ₚ g t a).
    rewrite sent_to_app, Hall, decide_True by done. rewrite Hnone; [by rewrite app_nil_r|].
    intros [k b] Hx. apply elem_of_map_to_list in Hx. cbn. intros ->. by rewrite lookup_delete_eq in Hx.
  - apply Hnone. intros [k b] Hx. apply elem_of_map_to_list in Hx. cbn. intros ->. by rewrite Ea in Hx.
Qed.

Section shutdown_laws.
Context (instant_max now : Z) (w : HaltWatch) (ws : WorkerState) (Hdom : dom (worker_map ws) = worker_tasks ws).

Abbreviation deadline := (checked_add instant_max now).

(** The owner was halted for [r], before or during the events. *)
Definition owner_halted (es : list DrainEvent) (r : Halt) : Prop := halted w = Some r \/ OwnerHalted r ∈ es.

(** Some deadline event is at or behind the worker's deadline. *)
Definition deadline_passed (es : list DrainEvent) (timeout : Z) : Prop :=
  exists at_ now', deadline timeout = Some at_ /\ DeadlinePassed now' ∈ es /\ at_ <= now'.

(** What one worker was sent and why, [h] being a halt after the start. *)
Definition served (es : list DrainEvent) (t : Z) (p : ProcessState) (l : list Sent) (h : option Halt) : Prop :=
  match strategy p with
  | Brutal => l = [SendHalt t Immediate] /\ h = None
  | Graceful timeout =>
      l = (if coordinator p then [Signal t] else []) ++ halt_list t h /\
      match h with
      | None => True
      | Some Overdue => deadline_passed es timeout \/ owner_halted es Overdue
      | Some Immediate => owner_halted es Immediate
      end
  end.

(** The bookkeeping of a worker that is still stopping. *)
Definition stopping_is (p : ProcessState) (h : option Halt) (c : Stopping) : Prop :=
  stopping_id c = worker_id p /\
  match strategy p, h with
  | Graceful timeout, None => halter c = true /\ timeout_at c = deadline timeout /\ counted c = true
  | Graceful _, Some r => halter c = false /\ timeout_at c = None /\ counted c = is_counted r
  | Brutal, _ => halter c = false /\ timeout_at c = None /\ counted c = false
  end.

Record drain_ok (es : list DrainEvent) (d : Draining) : Prop := {
  do_tasks : dom (stopping d) = tasks d;
  do_workers : forall t p, worker_map ws !! t = Some p -> exists h, served es t p (sent_to t (sent d)) h /\
    forall c, stopping d !! t = Some c -> stopping_is p h c;
  do_joins : (joins es).*1 ++ elements (tasks d) ≡ₚ elements (worker_tasks ws);
  do_total : halted_total d = wrap 64 (sumZ (charge (sent d)) (joins es));
  do_exits : exits d = results (worker_map ws) (joins es);
  do_watch : halted w = None -> halted (watch d) = None -> watch d = w;
}.

Lemma served_more es es' t p l h : es ⊆ es' -> served es t p l h -> served es' t p l h.
Proof using.
  intros Hin. unfold served, owner_halted, deadline_passed. destruct (strategy p); [|done]. intros [-> Hh]. split; [done|].
  destruct h as [[]|]; [|naive_solver|done]. destruct Hh as [(a & n & H1 & H2 & H3)|Hh]; [left; exists a, n; auto|right; naive_solver].
Qed.

Lemma joins_snoc es e : joins (es ++ [e]) = joins es ++ match e with TaskJoined t j => [(t, j)] | _ => [] end.
Proof using. unfold joins. rewrite omap_app. by destruct e. Qed.

Lemma task_in_map t : t ∈ worker_tasks ws -> is_Some (worker_map ws !! t).
Proof using Hdom. rewrite <- Hdom. by rewrite elem_of_dom. Qed.

Lemma tasks_sub es d t : drain_ok es d -> t ∈ tasks d -> t ∈ worker_tasks ws.
Proof using.
  intros [_ _ Hj _ _ _] Ht. apply elem_of_elements. rewrite <- Hj. apply elem_of_app. right. by apply elem_of_elements.
Qed.

Lemma joined_not_task es d t : drain_ok es d -> t ∈ (joins es).*1 -> t ∉ tasks d.
Proof using.
  intros [_ _ Hj _ _ _] Ht Hin. pose proof (NoDup_elements (worker_tasks ws)) as Hnd. rewrite <- Hj in Hnd.
  apply NoDup_app in Hnd as (_ & Hd & _). apply (Hd t Ht). by apply elem_of_elements.
Qed.

(** Telling some of the stopping workers something keeps the account, if it is a halt with a reason. *)
Lemma drain_ok_each es es' d (f : Z -> Stopping -> list Sent * Stopping) :
  drain_ok es d -> es ⊆ es' -> joins es' = joins es ->
  (forall t c, (length (f t c).1 <= 1)%nat /\ Forall (fun s => sent_task s = t) (f t c).1) ->
  (forall t p h c, worker_map ws !! t = Some p -> stopping d !! t = Some c -> stopping_is p h c ->
    (exists l, served es t p l h) ->
    (f t c = ([], c)) \/ exists timeout r, strategy p = Graceful timeout /\ h = None /\ f t c = halt t r c /\
      match r with Overdue => deadline_passed es' timeout \/ owner_halted es' Overdue | Immediate => owner_halted es' Immediate end) ->
  forall w', (halted w = None -> halted w' = None -> w' = w) ->
  drain_ok es' (each_stopping f (with_watch w' d)).
Proof using.
  intros Hok Hes Hsnoc Hf Hr w' Hw'. pose proof Hok as [Hd Hw Hj Ht Hx _].
  assert (Hst : forall t, sent_to t (sent (each_stopping f (with_watch w' d))) = sent_to t (sent d) ++ from_option (fun c => (f t c).1) [] (stopping d !! t)).
  { intros t. cbn. rewrite sent_to_app. f_equal. by apply (sent_to_each (stopping d) (fun t c => (f t c).1)). }
  split; rewrite ?Hsnoc; try done.
  - cbn. rewrite <- Hd. apply set_eq. intros t. rewrite !elem_of_dom, map_lookup_imap. by destruct (stopping d !! t); cbn; split; intros []; eauto.
  - intros t p Hp. destruct (Hw t p Hp) as (h & Hs & Hc). rewrite Hst. cbn [each_stopping stopping with_watch]. rewrite map_lookup_imap.
    destruct (stopping d !! t) as [c|] eqn:Ec; cbn.
    + destruct (Hr t p h c Hp Ec (Hc c eq_refl) ltac:(by eexists)) as [->|(timeout & r & Hst' & -> & -> & Hj')].
      * exists h. cbn. rewrite app_nil_r. split; [by eapply served_more|]. intros c' [= <-]. by apply Hc.
      * specialize (Hc c eq_refl). exists (Some r). unfold served, stopping_is in *. rewrite Hst' in *. destruct Hs as [-> _].
        destruct Hc as (Hid & Hh & _ & _). unfold halt. rewrite Hh. cbn. split; [split; [by rewrite app_nil_r|by destruct r]|].
        intros c' [= <-]. by cbn.
    + exists h. rewrite app_nil_r. split; [by eapply served_more|done].
  - cbn [halted_total each_stopping with_watch]. rewrite Ht. f_equal. apply sumZ_ext.
    intros x Hx'. unfold charge.
    assert (Hn : stopping d !! x.1 = None).
    { apply not_elem_of_dom. rewrite Hd. apply (joined_not_task es d); [done|by apply list_elem_of_fmap_2]. }
    erewrite bool_decide_ext; [done|]. rewrite (elem_sent_to _ (sent (each_stopping _ _))), (elem_sent_to _ (sent d)). cbn [sent_task].
    by rewrite Hst, Hn, app_nil_r.
Qed.

Lemma halt_short t r c : (length (halt t r c).1 <= 1)%nat /\ Forall (fun s => sent_task s = t) (halt t r c).1.
Proof using. unfold halt. destruct (halter c); cbn; split; auto; lia. Qed.

Lemma halt_with_owner_short t r c :
  (length (halt_with_owner t r c).1 <= 1)%nat /\ Forall (fun s => sent_task s = t) (halt_with_owner t r c).1.
Proof using. unfold halt_with_owner. destruct (halter c) eqn:E; [apply halt_short|]. cbn. split; auto; lia. Qed.

(** The owner's halt reaches every worker that is not halted yet. *)
Lemma drain_ok_owner es es' d r w' : drain_ok es d -> es ⊆ es' -> joins es' = joins es -> owner_halted es' r ->
  (halted w = None -> halted w' = None -> w' = w) ->
  drain_ok es' (each_stopping (fun t => halt_with_owner t r) (with_watch w' d)).
Proof using.
  intros Hok Hes Hj Ho Hw'. apply (drain_ok_each es es'); [done|done|done|intros; apply halt_with_owner_short| |done].
  intros t p h c Hp Hc (_ & Hs) _. unfold halt_with_owner. destruct (halter c) eqn:Eh; [right|by left].
  destruct (strategy p) as [timeout|]; [|by destruct Hs]. destruct h as [x|]; [by destruct Hs|].
  exists timeout, r. split_and!; [done|done|done|]. by destruct r; [right|].
Qed.

Lemma begin_ok : drain_ok [] (begin_shutdown instant_max now w ws).
Proof using Hdom.
  set (d := {| tasks := worker_tasks ws; stopping := map_imap (fun t p => Some (begin_stopping instant_max now t p).2) (worker_map ws);
    watch := w; halted_total := 0; exits := []; sent := map_to_list (worker_map ws) ≫= fun x => (begin_stopping instant_max now x.1 x.2).1 |}).
  assert (Hd : drain_ok [] d).
  { split; cbn; try done.
    - rewrite <- Hdom. apply set_eq. intros t. rewrite !elem_of_dom, map_lookup_imap. by destruct (worker_map ws !! t); cbn; split; intros []; eauto.
    - intros t p Hp. exists None. rewrite (sent_to_each (worker_map ws) (fun t p => (begin_stopping instant_max now t p).1)).
      + rewrite map_lookup_imap, Hp. unfold served, begin_stopping, stopping_is. cbn. destruct (strategy p); cbn.
        * rewrite app_nil_r. split; [done|]. by intros c [= <-].
        * split; [done|]. by intros c [= <-].
      + intros k q. unfold begin_stopping. destruct (strategy q); [|apply halt_short]. cbn. destruct (coordinator q); cbn; split; auto; lia. }
  unfold begin_shutdown. fold d. destruct (halted w) as [r|] eqn:Er; [|done].
  change d with (with_watch w d). apply (drain_ok_owner [] [] d r w); [done|done|done|by left|done].
Qed.

Lemma drain_step_ok es e d d' : drain_ok es d -> drain_step e d = Some d' -> drain_ok (es ++ [e]) d'.
Proof using Hdom.
  intros Hok. unfold drain_step. case_bool_decide as E0; [done|]. destruct e as [r|t j|now'].
  - destruct (halted (watch d)) eqn:Eh; [done|]. unfold wait. rewrite Eh. destruct (signal (watch d)); [|done]. cbn. intros [= <-].
    apply (drain_ok_owner es); [done|set_solver| |right; set_solver|done]. rewrite joins_snoc. apply app_nil_r.
  - case_bool_decide as Et; [|done]. intros [= <-]. pose proof Hok as [Hd Hw Hj Ht Hx Hwt].
    pose proof (tasks_sub es d t Hok Et) as Hin. destruct (task_in_map t Hin) as [p Hp]. destruct (Hw t p Hp) as (h & Hs & Hc).
    assert (Hst : is_Some (stopping d !! t)) by (apply elem_of_dom; by rewrite Hd). destruct Hst as [c Ec].
    specialize (Hc c Ec). unfold drain_join. rewrite Ec. split; cbn; rewrite ?joins_snoc.
    + rewrite dom_delete_L, Hd. done.
    + intros t' p' Hp'. destruct (Hw t' p' Hp') as (h' & Hs' & Hc'). exists h'. split; [eapply served_more; [|done]; set_solver|].
      intros c' [_ Hc'']%lookup_delete_Some. by apply Hc'.
    + rewrite fmap_app, <- Hj. cbn. rewrite <- app_assoc. cbn. rewrite (union_difference_singleton_L t (tasks d) Et) at 2.
      rewrite elements_union_singleton by set_solver. done.
    + rewrite sumZ_app, Ht. cbn. assert (Hch : charge (sent d) (t, j) = if counted c then from_option reported_abort_count 0 (output_of j) else 0).
      { unfold charge. cbn. destruct (bool_decide_reflect (SendHalt t Immediate ∈ sent d)) as [Hi|Hi]; rewrite elem_sent_to in Hi; cbn [sent_task] in Hi;
          unfold served, stopping_is in *; destruct (strategy p), Hs as [E1 E2], Hc as (_ & Hc); rewrite E1 in Hi.
        - destruct h as [[]|]; destruct Hc as (_ & _ & ->); try done; cbn in Hi; destruct (coordinator p); set_solver.
        - by destruct Hc as (_ & _ & ->).
        - destruct h as [[]|]; destruct Hc as (_ & _ & ->); try done. exfalso. apply Hi. cbn. set_solver.
        - exfalso. apply Hi. set_solver. }
      rewrite Hch, Z.add_0_r. destruct (counted c); [|by rewrite Z.add_0_r]. apply Zplus_mod_idemp_l.
    + rewrite Hx. unfold results. rewrite omap_app. f_equal. cbn. rewrite Hp. cbn. fold (output_of j). destruct Hc as [-> _].
      by destruct (output_of j).
    + done.
  - destruct (next_timeout d) as [next|]; [|done]. destruct (next <=? now'); [|done]. intros [= <-].
    match goal with |- drain_ok _ (each_stopping ?f _) => set (g := f) end.
    change (each_stopping g d) with (each_stopping g (with_watch (watch d) d)).
    apply (drain_ok_each es); [done|set_solver|rewrite joins_snoc; apply app_nil_r| | |].
    + intros t c. unfold g. destruct (timeout_at c) as [a|]; [destruct (a <=? now')|]; [apply halt_short|cbn; split; auto; lia..].
    + intros t p h c Hp Hc (_ & Hs) _. unfold g. destruct (timeout_at c) as [a|] eqn:Ea; [|by left].
      destruct (Z.leb_spec a now') as [Hle|]; [right|by left].
      destruct (strategy p) as [timeout|]; [|by destruct Hs as (_ & ? & _)]. destruct h as [x|]; [by destruct Hs as (_ & ? & _)|].
      destruct Hs as (_ & Hdl & _). exists timeout, Overdue. split_and!; [done|done|done|]. left. exists a, now'. split_and!; [done|set_solver|done].
    + apply Hok.
Qed.

Lemma drain_run_ok es es' d d' : drain_ok es d -> drain es' d = Some d' -> drain_ok (es ++ es') d'.
Proof using Hdom.
  revert es d. induction es' as [|e es' IH]; intros es d Hok; cbn [drain]; [intros [= <-]; by rewrite app_nil_r|].
  destruct (drain_step e d) as [d1|] eqn:E; [|done]. cbn [mbind option_bind]. intros Hr.
  rewrite (app_assoc es [e] es' : es ++ e :: es' = _). eapply IH; [by eapply drain_step_ok|done].
Qed.


(** *** The loop ends *)

(** What is left to happen: tasks, deadlines, and the halt of the owner. *)
Definition turns_left (d : Draining) : nat :=
  size (tasks d) + size (filter (fun x => is_Some (timeout_at x.2)) (stopping d)) +
  match halted (watch d) with None => 1 | Some _ => 0 end.

Abbreviation with_deadline d := (filter (fun x : Z * Stopping => is_Some (timeout_at x.2)) (stopping d)).

Lemma deadlines_each f w' d : (forall t c, is_Some (timeout_at (f t c).2) -> is_Some (timeout_at c)) ->
  dom (with_deadline (each_stopping f (with_watch w' d))) ⊆ dom (with_deadline d).
Proof using.
  intros Hf t. rewrite !elem_of_dom. intros [c [Hc Hs]%map_lookup_filter_Some]. cbn in Hc, Hs.
  rewrite map_lookup_imap in Hc. destruct (stopping d !! t) as [c0|] eqn:E0; [|done]. injection Hc as <-.
  exists c0. apply map_lookup_filter_Some. split; [done|]. cbn. by apply (Hf t).
Qed.

Lemma next_timeout_in d next : next_timeout d = Some next -> exists t c, stopping d !! t = Some c /\ timeout_at c = Some next.
Proof using.
  unfold next_timeout. assert (Hl : forall x, x ∈ map_to_list (stopping d) -> stopping d !! x.1 = Some x.2).
  { intros [t c]. apply elem_of_map_to_list. }
  revert next Hl. induction (map_to_list (stopping d)) as [|[t c] l IH]; intros next Hl; [done|]. cbn.
  set (a := foldr _ None l) in *. pose proof (Hl (t, c) ltac:(left)) as Hc. cbn in Hc.
  assert (IH' : forall n, a = Some n -> exists t c, stopping d !! t = Some c /\ timeout_at c = Some n) by (intros n Hn; apply (IH n); [intros x Hx; apply Hl; by right|exact Hn]).
  destruct (timeout_at c) as [x|] eqn:Ex; [|by apply IH'].
  destruct a as [y|]; intros [= <-]; [|by exists t, c]. destruct (Z.min_spec x y) as [[_ ->]|[_ ->]]; [by exists t, c|by apply IH'].
Qed.

Lemma next_timeout_some d t c a : stopping d !! t = Some c -> timeout_at c = Some a -> exists next, next_timeout d = Some next /\ next <= a.
Proof using.
  intros Hc Ha. apply elem_of_map_to_list in Hc. unfold next_timeout.
  induction (map_to_list (stopping d)) as [|[t' c'] l IH]; [by apply not_elem_of_nil in Hc|]. cbn.
  set (b := foldr _ None l) in *. apply elem_of_cons in Hc as [[= <- <-]|Hc].
  - rewrite Ha. destruct b; eexists; (split; [done|lia]).
  - destruct (IH Hc) as (n & -> & Hn). destruct (timeout_at c'); eexists; (split; [done|lia]).
Qed.

Lemma drain_step_less es e d d' : drain_ok es d -> drain_step e d = Some d' -> (turns_left d' < turns_left d)%nat.
Proof using Hdom.
  intros Hok. unfold drain_step. case_bool_decide as E0; [done|]. unfold turns_left. rewrite <- !size_dom. destruct e as [r|t j|now'].
  - destruct (halted (watch d)) eqn:Eh; [done|]. unfold wait. rewrite Eh. destruct (signal (watch d)); [|done]. cbn [mbind option_bind]. intros [= <-].
    set (w' := {| signal := false; halted := Some r |}).
    assert (Hs : dom (with_deadline (each_stopping (fun t => halt_with_owner t r) (with_watch w' d))) ⊆ dom (with_deadline d)).
    { apply deadlines_each. intros t c. unfold halt_with_owner, halt. destruct (halter c); cbn; [by intros []|auto]. }
    apply subseteq_size in Hs. cbn [tasks each_stopping with_watch watch halted w' stopping] in *. lia.
  - case_bool_decide as Et; [|done]. intros [= <-]. pose proof Hok as [Hd _ _ _ _ _].
    assert (Hst : is_Some (stopping d !! t)) by (apply elem_of_dom; by rewrite Hd). destruct Hst as [c Ec].
    unfold drain_join. rewrite Ec. cbn [tasks stopping watch]. rewrite size_difference by set_solver. rewrite size_singleton.
    assert (Hpos : (size (tasks d) <> 0)%nat) by (intros Hz; apply size_empty_inv in Hz; set_solver).
    assert (Hs : (size (dom (filter (fun x : Z * Stopping => is_Some (timeout_at x.2)) (delete t (stopping d)))) <= size (dom (with_deadline d)))%nat).
    { apply subseteq_size, subseteq_dom, map_filter_subseteq_mono, delete_subseteq. }
    lia.
  - destruct (next_timeout d) as [next|] eqn:En; [|done]. destruct (Z.leb_spec next now'); [|done]. intros [= <-].
    match goal with |- context [each_stopping ?f d] => set (g := f) end. cbn [tasks each_stopping watch].
    apply next_timeout_in in En as (t & c & Hc & Ht).
    assert (Hsub : dom (with_deadline (each_stopping g d)) ⊆ dom (with_deadline d)).
    { apply (deadlines_each g (watch d) d). intros t' c'. unfold g. destruct (timeout_at c') as [a|] eqn:Ea; [|cbn; rewrite ?Ea; auto].
      intros _. by eexists. }
    assert (Hss : dom (with_deadline (each_stopping g d)) ⊂ dom (with_deadline d)).
    { split; [done|]. intros Hback. assert (Hin : t ∈ dom (with_deadline (each_stopping g d))).
      { apply Hback, elem_of_dom. exists c. apply map_lookup_filter_Some. split; [done|]. cbn. rewrite Ht. by eexists. }
      apply elem_of_dom in Hin as [c' [Hc' Hs']%map_lookup_filter_Some]. cbn in Hc', Hs'. rewrite map_lookup_imap, Hc in Hc'. cbn in Hc'.
      injection Hc' as <-. unfold g in Hs'. rewrite Ht in Hs'. rewrite (proj2 (Z.leb_le _ _)) in Hs' by done. unfold halt in Hs'.
      destruct (halter c); cbn in Hs'; by destruct Hs'. }
    apply subset_size in Hss. cbn [stopping each_stopping] in *. lia.
Qed.

Lemma drain_less es es' d d' : drain_ok es d -> drain es' d = Some d' -> (length es' + turns_left d' <= turns_left d)%nat.
Proof using Hdom.
  revert es d. induction es' as [|e es' IH]; intros es d Hok; cbn [drain]; [intros [= <-]; simpl; lia|].
  destruct (drain_step e d) as [d1|] eqn:E; [|done]. cbn [mbind option_bind length]. intros Hr.
  pose proof (drain_step_less _ _ _ _ Hok E). pose proof (IH _ _ (drain_step_ok _ _ _ _ Hok E) Hr). lia.
Qed.

(** C25: Shutting down makes at most two turns for every worker, and one for the owner: whatever happens, after that many
    events every task has ended.  Until then the end of any task that is left can be taken, and the deadline of any
    worker that is not halted. *)
Theorem shutdown_terminates es d : drain es (begin_shutdown instant_max now w ws) = Some d ->
  (length es <= 2 * size (worker_tasks ws) + 1)%nat /\
  (length es = 2 * size (worker_tasks ws) + 1 -> tasks d = ∅)%nat /\
  (forall t j, t ∈ tasks d -> is_Some (drain_step (TaskJoined t j) d)) /\
  (forall t c a, stopping d !! t = Some c -> timeout_at c = Some a -> is_Some (drain_step (DeadlinePassed a) d)).
Proof using Hdom.
  intros Hr. pose proof (drain_less [] es _ _ begin_ok Hr) as Hl. pose proof (drain_run_ok [] es _ _ begin_ok Hr) as Hok.
  assert (Hb : (turns_left (begin_shutdown instant_max now w ws) <= 2 * size (worker_tasks ws) + 1)%nat).
  { pose proof begin_ok as [Hd _ _ _ _ _]. unfold turns_left. rewrite <- (size_dom (filter _ _)).
    assert (Ht : tasks (begin_shutdown instant_max now w ws) = worker_tasks ws) by (unfold begin_shutdown; by destruct (halted w)).
    assert (Hs : (size (dom (with_deadline (begin_shutdown instant_max now w ws))) <= size (worker_tasks ws))%nat).
    { rewrite <- Ht, <- Hd. apply subseteq_size, dom_filter_subseteq. }
    rewrite Ht. destruct (halted _); lia. }
  split_and!; [lia| | |].
  - intros Hlen. assert (Hz : (size (tasks d) = 0)%nat) by (assert (Hz : turns_left d = 0%nat) by lia; unfold turns_left in Hz; lia).
    by apply leibniz_equiv, size_empty_inv.
  - intros t j Ht. unfold drain_step. rewrite bool_decide_false by set_solver. rewrite bool_decide_true by done. by eexists.
  - intros t c a Hc Ha. unfold drain_step. assert (t ∈ tasks d) by (rewrite <- (do_tasks _ _ Hok); by apply elem_of_dom_2 in Hc).
    rewrite bool_decide_false by set_solver. destruct (next_timeout_some d t c a Hc Ha) as (n & -> & Hn).
    rewrite (proj2 (Z.leb_le _ _)) by done. by eexists.
Qed.

End shutdown_laws.

(** ** Examples *)

Module ShutdownSamples.

Definition process (id : Z) (s : ShutdownStrategy) : ProcessState :=
  {| worker_id := id; strategy := s; coordinator := true; stops_with_owner := false |}.

(** A worker that is too late, one that stops in time, and one that is not asked. *)
Definition workers : WorkerState :=
  {| worker_tasks := {[1; 2; 3]};
     worker_map := {[1 := process 10 (Graceful 100); 2 := process 20 (Graceful 500); 3 := process 30 Brutal]}; owner_stopping := false |}.

Definition events : list DrainEvent :=
  [TaskJoined 3 (Finished (Err (WorkerShutdownTimedOut 1))); DeadlinePassed 150; TaskJoined 2 (Finished (Ok tt));
   TaskJoined 1 (Finished (Err (WorkerShutdownTimedOut 2)))].

Lemma workers_dom : dom (worker_map workers) = worker_tasks workers.
Proof. vm_compute. reflexivity. Qed.

Definition drained : Draining := default (begin_shutdown 1000 0 HaltWatch_new workers) (shutdown_workers 1000 0 HaltWatch_new events workers).


Lemma shutdown_terminates_witness :
  (length events <= 2 * size (worker_tasks workers) + 1)%nat /\
  is_Some (drain_step (TaskJoined 2 TaskCancelled) (begin_shutdown 1000 0 HaltWatch_new workers)).
Proof.
  assert (Hd : drain events (begin_shutdown 1000 0 HaltWatch_new workers) = Some drained) by (vm_compute; reflexivity).
  split; [exact (proj1 (shutdown_terminates 1000 0 HaltWatch_new workers workers_dom events drained Hd))|].
  apply (shutdown_terminates 1000 0 HaltWatch_new workers workers_dom [] _ eq_refl). vm_compute. reflexivity.
Defined.

End ShutdownSamples.
