(* ===== verification/Supervisor.v ===== *)
(** * Supervisor: the loop that starts, restarts and stops children

    Models [lib/saluki-core/src/runtime/supervisor.rs]: handles that spawn children, and the loop of [supervise], one
    arm of its [select!] at a time, with what comes before and after it in [run_inner].  What the runtime decides is
    an input of the step: which task ended and how, the clock, the identities of the tasks that are started, and
    the events of a shutdown ([WorkerState]).  A step is one arm; which arm is taken when several are ready is left
    open, so the runs here include those of the biased [select!].  [None] is a panic, or a shutdown that does not
    end with the given events. *)

From Stdlib Require Import ZArith Lia Strings.String Sorted.
From stdpp Require Import base tactics list numbers option gmap strings.
From S2P Require Import Prelude Restart SupervisorTree WorkerState.
Open Scope Z_scope.

Record ChildEntry := { spec : SupervisedChild; entry_config : ChildConfig; dynamic : bool }.

Record PendingSpawn := { pending_id : Z; pending_spec : SupervisedChild; pending_config : ChildConfig }.

Definition SPAWN_DRAIN_BATCH : nat := 64.

(** ** Handles *)

(** The queue of a run: whether it still accepts spawns, and what is in it. *)
Record SpawnQueue := { open : bool; pending : list PendingSpawn }.

(** What handles share with the supervisor. *)
Record Shared := { current_tx : option SpawnQueue; id_counter : Z; active : Z }.

Definition Shared_new : Shared := {| current_tx := None; id_counter := 0; active := 0 |}.

Definition with_tx (q : option SpawnQueue) (sh : Shared) : Shared :=
  {| current_tx := q; id_counter := id_counter sh; active := active sh |}.
Definition with_active (a : Z) (sh : Shared) : Shared :=
  {| current_tx := current_tx sh; id_counter := id_counter sh; active := a |}.

(** [id_counter.fetch_add(1)] *)
Definition next_id (sh : Shared) : Z * Shared :=
  (id_counter sh, {| current_tx := current_tx sh; id_counter := u64_add (id_counter sh) 1; active := active sh |}).

(** [SupervisorHandle::spawn] *)
Definition handle_spawn (child : SupervisedChild) (o : ChildOptions) (sh : Shared) : Z * Shared :=
  let '(spec, config) := into_child_parts child o Spawned in
  let '(id, sh) := next_id sh in
  (id, match current_tx sh with
       | Some q => if open q then with_tx (Some {| open := true; pending := pending q ++ [{| pending_id := id; pending_spec := spec; pending_config := config |}] |}) sh
                   else sh
       | None => sh
       end).

Definition is_running (sh : Shared) : bool := match current_tx sh with Some _ => true | None => false end.
Definition active_children (sh : Shared) : Z := active sh.

(** ** The supervisor *)

Definition Supervisor_new (supervisor_id : string) : result SupervisorError (list ChildEntry * Shared * NodeInner) :=
  if bool_decide (supervisor_id = ""%string) then Err (InvalidName supervisor_id)
  else Ok ([], Shared_new, NodeInner_new).

Definition with_restart_strategy (s : RestartStrategy) (n : NodeInner) : NodeInner :=
  update_config (fun c => {| restart_strategy := s; auto_shutdown := auto_shutdown c; dedicated_threads := dedicated_threads c |}) n.
Definition with_auto_shutdown (a : AutoShutdown) (n : NodeInner) : NodeInner :=
  update_config (fun c => {| restart_strategy := restart_strategy c; auto_shutdown := a; dedicated_threads := dedicated_threads c |}) n.
Definition with_dedicated_runtime (worker_threads : nat) (n : NodeInner) : NodeInner :=
  update_config (fun c => {| restart_strategy := restart_strategy c; auto_shutdown := auto_shutdown c; dedicated_threads := Some worker_threads |}) n.

(** [Supervisor::add_worker] *)
Definition declare_child (child : SupervisedChild) (o : ChildOptions) (child_specs : list ChildEntry) : list ChildEntry :=
  let '(spec, config) := into_child_parts child o Declared in
  child_specs ++ [{| spec := spec; entry_config := config; dynamic := false |}].

(** The state of a run. *)
Record Sup := {
  restart_state : RestartState;
  policy : AutoShutdown;
  workers : WorkerState;
  roster : Roster ChildEntry;
  significant_remaining : Z;
  halt_watch : HaltWatch;
  shared : Shared;
}.

Definition with_restart_state (r : RestartState) (s : Sup) : Sup :=
  {| restart_state := r; policy := policy s; workers := workers s; roster := roster s;
     significant_remaining := significant_remaining s; halt_watch := halt_watch s; shared := shared s |}.
Definition with_workers (ws : WorkerState) (s : Sup) : Sup :=
  {| restart_state := restart_state s; policy := policy s; workers := ws; roster := roster s;
     significant_remaining := significant_remaining s; halt_watch := halt_watch s; shared := shared s |}.
Definition with_roster (r : Roster ChildEntry) (s : Sup) : Sup :=
  {| restart_state := restart_state s; policy := policy s; workers := workers s; roster := r;
     significant_remaining := significant_remaining s; halt_watch := halt_watch s; shared := shared s |}.
Definition with_significant (n : Z) (s : Sup) : Sup :=
  {| restart_state := restart_state s; policy := policy s; workers := workers s; roster := roster s;
     significant_remaining := n; halt_watch := halt_watch s; shared := shared s |}.
Definition with_halt_watch (w : HaltWatch) (s : Sup) : Sup :=
  {| restart_state := restart_state s; policy := policy s; workers := workers s; roster := roster s;
     significant_remaining := significant_remaining s; halt_watch := w; shared := shared s |}.
Definition with_shared (sh : Shared) (s : Sup) : Sup :=
  {| restart_state := restart_state s; policy := policy s; workers := workers s; roster := roster s;
     significant_remaining := significant_remaining s; halt_watch := halt_watch s; shared := sh |}.

Definition significant_count (r : Roster ChildEntry) : Z :=
  Z.of_nat (length (List.filter (fun entry => cfg_significant (entry_config entry)) (values r))).

Definition child_facts (entry : ChildEntry) (k : ChildKey) : ChildFacts :=
  {| facts_key := k; facts_name := child_name (spec entry); facts_node := child_node (spec entry);
     facts_restart := cfg_restart (entry_config entry); facts_significant := can_stop_owner (entry_config entry) |}.

(** Starts a child and puts it into the roster. *)
Definition start_child (st : Start) (id : Z) (entry : ChildEntry) (k : ChildKey) (s : Sup) : result SupervisorError Sup :=
  match add_worker st id (spec entry) (entry_config entry) (workers s) with
  | Ok (started, _, ws) => Ok (with_workers ws (with_roster (insert id entry (child_facts entry k) started (roster s)) s))
  | Err e => Err e
  end.

(** The loops over the static children; at an error, what was started so far is in the state. *)
Fixpoint spawn_static_children (starts : nat -> Start) (index : nat) (child_specs : list ChildEntry) (s : Sup)
    : Sup * result SupervisorError unit :=
  match child_specs with
  | [] => (s, Ok tt)
  | entry :: rest =>
      let '(id, sh) := next_id (shared s) in
      let s := with_shared sh s in
      match start_child (starts index) id entry (Static index) s with
      | Ok s => spawn_static_children starts (S index) rest s
      | Err e => (s, Err e)
      end
  end.

Fixpoint respawn_children_one_for_all (starts : nat -> Start) (index : nat) (child_specs : list ChildEntry) (s : Sup)
    : Sup * result SupervisorError unit :=
  match child_specs with
  | [] => (s, Ok tt)
  | entry :: rest =>
      match cfg_restart (entry_config entry) with
      | Temporary => respawn_children_one_for_all starts (S index) rest s
      | _ =>
          let '(id, sh) := next_id (shared s) in
          let s := with_shared sh s in
          match start_child (starts index) id entry (Static index) s with
          | Ok s => respawn_children_one_for_all starts (S index) rest s
          | Err e => (s, Err e)
          end
      end
  end.

Definition spawn_dynamic_child (st : Start) (p : PendingSpawn) (s : Sup) : Sup :=
  let entry := {| spec := pending_spec p; entry_config := pending_config p; dynamic := true |} in
  match start_child st (pending_id p) entry (Dynamic (pending_id p)) s with
  | Ok s' =>
      let s' := if cfg_significant (entry_config entry) then with_significant (u64_add (significant_remaining s') 1) s' else s' in
      with_shared (with_active (u64_add (active (shared s')) 1) (shared s')) s'
  | Err _ => s
  end.

Fixpoint spawn_batch (starts : nat -> Start) (k : nat) (l : list PendingSpawn) (s : Sup) : Sup :=
  match l with
  | [] => s
  | p :: l' => spawn_batch starts (S k) l' (spawn_dynamic_child (starts k) p s)
  end.

(** The arm that takes on spawns: [recv_many], and a child for each. *)
Definition take_spawns (starts : nat -> Start) (s : Sup) : option Sup :=
  q ← current_tx (shared s);
  match pending q with
  | [] => None
  | l => Some (spawn_batch starts 0 (take SPAWN_DRAIN_BATCH l)
           (with_shared (with_tx (Some {| open := open q; pending := drop SPAWN_DRAIN_BATCH l |}) (shared s)) s))
  end.

(** What one turn of the loop comes to. *)
Inductive Flow := Continue (s : Sup) | Break (outcome : SupervisorError) (s : Sup).

(** The end of a task, with what the supervisor reads and starts while it handles it. *)
Record Exit := {
  exit_task : Z;
  exit_joined : Joined;
  restart_now : Z;
  drain_now : Z;
  stamp : Z;
  exit_starts : nat -> Start;
  exit_drain : list DrainEvent;
}.

Definition full_name (name : string) (inner : option string) : string :=
  match inner with Some inner => (name +:+ "/" +:+ inner)%string | None => name end.

Section supervise.
Context (instant_max : Z) (child_specs : list ChildEntry).

(** A child that is not started again. *)
Definition reap (stamp child_id : Z) (entry : ChildEntry) (abnormal : bool) (s : Sup) : Flow :=
  let config := entry_config entry in
  let s := with_roster (remove stamp child_id (roster s)) s in
  let s := if dynamic entry then with_shared (with_active (u64_sub (active (shared s)) 1) (shared s)) s else s in
  match cfg_edge config with
  | Needed => Break SignificantChildExited s
  | Hosted =>
      if abnormal && cfg_forwards_failures config then Break SignificantChildExited s
      else if cfg_significant config then
        let s := with_significant (saturating_sub (significant_remaining s) 1) s in
        let auto_shutdown := match policy s with
                             | Never => false
                             | AnySignificant => true
                             | AllSignificant => significant_remaining s =? 0
                             end in
        if auto_shutdown then Break SignificantChildExited s else Continue s
      else Continue s
  end.

Definition restart_group (e : Exit) (s : Sup) : option Flow :=
  d ← shutdown_workers instant_max (drain_now e) (halt_watch s) (exit_drain e) (workers s);
  let ws := {| worker_tasks := tasks d; worker_map := ∅; owner_stopping := owner_stopping (workers s) |} in
  let s := with_halt_watch (watch d) (with_workers ws s) in
  let s := with_roster (clear_for_group_restart (stamp e) (roster s)) s in
  let s := with_shared (with_active 0 (shared s)) s in
  let '(s, r) := respawn_children_one_for_all (exit_starts e) 0 child_specs s in
  Some (match r with
        | Err err => Break err s
        | Ok _ => Continue (with_significant (significant_count (roster s)) s)
        end).

(** A child that has ended after it was initialized. *)
Definition handle_ended (e : Exit) (child_id : Z) (entry : ChildEntry) (abnormal : bool) (s : Sup) : option Flow :=
  if negb (should_restart (cfg_restart (entry_config entry)) abnormal) then Some (reap (stamp e) child_id entry abnormal s)
  else
    let '(action, rs) := evaluate_restart (restart_now e) (restart_state s) in
    let s := with_restart_state rs s in
    match action with
    | Restart OneForOne =>
        match add_worker (exit_starts e 0%nat) child_id (spec entry) (entry_config entry) (workers s) with
        | Ok (started, _, ws) => Some (Continue (with_workers ws (with_roster (restart_in_place child_id started (roster s)) s)))
        | Err err => Some (Break err s)
        end
    | Restart OneForAll => restart_group e s
    | Restart.Shutdown => Some (Break RestartLimitReached s)
    end.

(** The arm that reaps a child. *)
Definition handle_exit (e : Exit) (s : Sup) : option Flow :=
  '(child_id, worker_result, ws) ← complete (exit_task e) (exit_joined e) (workers s);
  let s := with_workers ws s in
  entry ← get child_id (roster s);
  match worker_result with
  | Err (Initialization inner source) => Some (Break (FailedToInitialize (full_name (child_name (spec entry)) inner) source) s)
  | _ => handle_ended e child_id entry (negb (is_ok worker_result)) s
  end.

(** ** A run *)

(** [run_inner] and [supervise], up to the loop. *)
Definition begin_supervise (process : StartedChild) (w : HaltWatch) (starts : nat -> Start) (sh : Shared) (n : NodeInner)
    : Sup * result SupervisorError unit :=
  let sh := with_tx (Some {| open := true; pending := [] |}) sh in
  let n := begin_run process n in
  let s := {| restart_state := RestartState_new (restart_strategy (config n)); policy := auto_shutdown (config n);
              workers := WorkerState_new; roster := Roster_new n; significant_remaining := 0; halt_watch := w; shared := sh |} in
  let '(s, r) := spawn_static_children starts 0 child_specs s in
  (match r with Ok _ => with_significant (significant_count (roster s)) s | Err _ => s end, r).

(** [run_inner] after [supervise]. *)
Definition end_supervise (s : Sup) : Shared * NodeInner :=
  (with_active 0 (with_tx None (shared s)), end_run (node (roster s))).

(** [supervise], behind the loop: the queue is closed and emptied, the children are shut down. *)
Definition teardown (outcome : result SupervisorError unit) (now : Z) (es : list DrainEvent) (s : Sup)
    : option (result SupervisorError unit * Sup) :=
  let s := with_shared (with_tx (Some {| open := false; pending := [] |}) (shared s)) s in
  d ← shutdown_workers instant_max now (halt_watch s) es (workers s);
  let ws := {| worker_tasks := tasks d; worker_map := ∅; owner_stopping := owner_stopping (workers s) |} in
  let s := with_halt_watch (watch d) (with_workers ws s) in
  Some (match outcome with
        | Ok _ => if 0 <? halted_total d then Err (ShutdownTimedOut (halted_total d)) else Ok tt
        | Err e => Err e
        end, s).

(** A supervisor between runs, or in one. *)
Inductive State := Stopped (sh : Shared) (n : NodeInner) | Running (s : Sup).

(** The tasks that a step starts are new, and differ from each other. *)
Definition fresh_starts (starts : nat -> Start) (ws : WorkerState) : Prop :=
  (forall i, task (starts i) ∉ worker_tasks ws) /\ forall i j, task (starts i) = task (starts j) -> i = j.

(** What is seen of a step: runs that begin and end, and restarts, with the instant at which they are granted. *)
Inductive Label :=
| Quiet
| Began
| Ended (r : result SupervisorError unit)
| Restarted (now child_id : Z)
| RestartedGroup (now : Z).

(** What the end of a task asks for: a restart, if the child had been initialized and is to be restarted. *)
Definition exit_label (e : Exit) (s : Sup) : Label :=
  match complete (exit_task e) (exit_joined e) (workers s) with
  | Some (_, Err (Initialization _ _), _) | None => Quiet
  | Some (child_id, worker_result, _) =>
      match get child_id (roster s) with
      | Some entry =>
          if should_restart (cfg_restart (entry_config entry)) (negb (is_ok worker_result)) then
            match mode (Restart.strategy (restart_state s)) with
            | OneForOne => Restarted (restart_now e) child_id
            | OneForAll => RestartedGroup (restart_now e)
            end
          else Quiet
      | None => Quiet
      end
  end.

Inductive step : State -> Label -> State -> Prop :=
| step_handle_stopped child o sh n :
    step (Stopped sh n) Quiet (Stopped (handle_spawn child o sh).2 n)
| step_handle_running child o s :
    step (Running s) Quiet (Running (with_shared (handle_spawn child o (shared s)).2 s))
| step_begin process w starts sh n s : fresh_starts starts WorkerState_new ->
    begin_supervise process w starts sh n = (s, Ok tt) -> step (Stopped sh n) Began (Running s)
| step_begin_fails process w starts sh n s e : fresh_starts starts WorkerState_new ->
    begin_supervise process w starts sh n = (s, Err e) ->
    step (Stopped sh n) (Ended (Err e)) (Stopped (end_supervise s).1 (end_supervise s).2)
| step_exit e s s' : exit_task e ∈ worker_tasks (workers s) -> fresh_starts (exit_starts e) (workers s) ->
    handle_exit e s = Some (Continue s') -> step (Running s) (exit_label e s) (Running s')
| step_break e s s' err now es r s'' : exit_task e ∈ worker_tasks (workers s) -> fresh_starts (exit_starts e) (workers s) ->
    handle_exit e s = Some (Break err s') -> teardown (Err err) now es s' = Some (r, s'') ->
    step (Running s) (Ended r) (Stopped (end_supervise s'').1 (end_supervise s'').2)
| step_spawns starts s s' : fresh_starts starts (workers s) -> take_spawns starts s = Some s' -> step (Running s) Quiet (Running s')
| step_shutdown now es s r s' : teardown (Ok tt) now es s = Some (r, s') ->
    step (Running s) (Ended r) (Stopped (end_supervise s').1 (end_supervise s').2)
| step_halted reason w now es s r s' : wait reason (halt_watch s) = Some w ->
    teardown (Ok tt) now es (with_halt_watch w s) = Some (r, s') ->
    step (Running s) (Ended r) (Stopped (end_supervise s').1 (end_supervise s').2)
| step_scope child_id scope s : step (Running s) Quiet (Running (with_roster {| live := live (roster s); node := attach_scope child_id scope (node (roster s)) |} s))
| step_unscope child_id scope s : step (Running s) Quiet (Running (with_roster {| live := live (roster s); node := detach_scope child_id scope (node (roster s)) |} s))
| step_adopt child_id nd s : step (Running s) Quiet (Running (with_roster {| live := live (roster s); node := attach_run child_id nd (node (roster s)) |} s))
| step_unadopt child_id s : step (Running s) Quiet (Running (with_roster {| live := live (roster s); node := detach_run child_id (node (roster s)) |} s)).



(** *** Histories *)

Definition shared_of (st : State) : Shared := match st with Stopped sh _ => sh | Running s => shared s end.
Definition node_of (st : State) : NodeInner := match st with Stopped _ n => n | Running s => node (roster s) end.

(** There are identifiers for the next step. *)
Definition ids_left (st : State) : Prop := id_counter (shared_of st) + Z.of_nat (length child_specs) + 1 < 2 ^ 64.

(** A supervisor, from its creation, and the steps it has made. *)
Inductive reaches (c : NodeConfig) : list (State * Label * State) -> State -> Prop :=
| reaches_start : reaches c [] (Stopped Shared_new (update_config (fun _ => c) NodeInner_new))
| reaches_step tr st l st' : reaches c tr st -> ids_left st -> step st l st' -> reaches c (tr ++ [(st, l, st')]) st'.

End supervise.
