(* ===== verification/SupervisorProofs.v ===== *)
(** * SupervisorProofs: what holds whenever a supervisor is about to wait

    The books of a supervisor agree with each other: its tasks, the roster, the records that observers see, and the
    counters.  From this, that none of its expectations fails, that restarts are counted exactly, and that they
    stay within the budget of [Restart]. *)

From Stdlib Require Import ZArith Lia Strings.String Sorted.
From stdpp Require Import base tactics list numbers option gmap strings sorting.
From S2P Require Import Prelude Restart SupervisorTree WorkerState Supervisor.
Open Scope Z_scope.

(** ** Tasks and children *)

(** Every task is that of a live child, and every live child has one task. *)
Record paired (m : gmap Z ProcessState) (l : gmap Z ChildEntry) : Prop := {
  task_child : forall t p, m !! t = Some p -> is_Some (l !! worker_id p);
  child_task : forall id, is_Some (l !! id) -> exists t p, m !! t = Some p /\ worker_id p = id;
  task_unique : forall t t' p p', m !! t = Some p -> m !! t' = Some p' -> worker_id p = worker_id p' -> t = t';
}.

Lemma paired_empty : paired ∅ ∅.
Proof. split; intros *; rewrite ?lookup_empty; naive_solver. Qed.

Lemma paired_insert m l t p e : paired m l -> m !! t = None -> l !! worker_id p = None ->
  paired (<[t := p]> m) (<[worker_id p := e]> l).
Proof.
  intros [Ht Hc Hu] Hm Hl. assert (Hno : forall t' p', m !! t' = Some p' -> worker_id p' <> worker_id p).
  { intros t' p' Hp' Hw. destruct (Ht _ _ Hp') as [x Hx]. congruence. }
  split.
  - intros t' p' [[<- <-]|[_ Hp']]%lookup_insert_Some; [rewrite lookup_insert_eq; by eexists|].
    rewrite lookup_insert_ne; [by apply (Ht t')|]. intros Hw. by apply (Hno _ _ Hp').
  - intros id [x [[<- _]|[Hne Hx]]%lookup_insert_Some]; [exists t, p; by rewrite lookup_insert_eq|].
    destruct (Hc id ltac:(by eexists)) as (t' & p' & Hp' & <-). exists t', p'. rewrite lookup_insert_ne; [done|congruence].
  - intros t1 t2 p1 p2 [[<- <-]|[_ H1]]%lookup_insert_Some [[<- <-]|[_ H2]]%lookup_insert_Some Hw; [done|idtac..|by eapply Hu].
    + by destruct (Hno _ _ H2).
    + by destruct (Hno _ _ H1).
Qed.

Lemma paired_delete m l t p : paired m l -> m !! t = Some p -> paired (delete t m) (delete (worker_id p) l).
Proof.
  intros [Ht Hc Hu] Hm. split.
  - intros t' p' [Hne Hp']%lookup_delete_Some. rewrite lookup_delete_ne; [by apply (Ht t')|]. intros Hw. by apply Hne, (Hu _ _ p p').
  - intros id [x [Hne Hx]%lookup_delete_Some]. destruct (Hc id ltac:(by eexists)) as (t' & p' & Hp' & <-).
    exists t', p'. rewrite lookup_delete_ne; [done|congruence].
  - intros t1 t2 p1 p2 [_ H1]%lookup_delete_Some [_ H2]%lookup_delete_Some. by apply Hu.
Qed.

Lemma paired_replace m l t t' p p' : paired m l -> m !! t = Some p -> delete t m !! t' = None -> worker_id p' = worker_id p ->
  paired (<[t' := p']> (delete t m)) l.
Proof.
  intros Hp Hm Hn Hw. destruct (task_child _ _ Hp _ _ Hm) as [e He].
  replace l with (<[worker_id p' := e]> (delete (worker_id p) l)) by (rewrite Hw; by apply insert_delete_id).
  apply paired_insert; [by apply paired_delete|done|]. rewrite Hw. apply lookup_delete_eq.
Qed.

(** ** Counting live children *)

Definition count (f : ChildEntry -> bool) (l : gmap Z ChildEntry) : Z := Z.of_nat (length (List.filter f (map_to_list l).*2)).

Lemma count_empty f : count f ∅ = 0.
Proof. unfold count. by rewrite map_to_list_empty. Qed.

Lemma count_insert f l id e : l !! id = None -> count f (<[id := e]> l) = count f l + (if f e then 1 else 0).
Proof.
  intros Hl. unfold count. assert (Hp : (map_to_list (<[id := e]> l)).*2 ≡ₚ e :: (map_to_list l).*2).
  { by rewrite (map_to_list_insert l id e Hl). }
  assert (Hf : forall a b : list ChildEntry, a ≡ₚ b -> length (List.filter f a) = length (List.filter f b)).
  { induction 1; cbn; repeat case_match; simpl; lia. }
  rewrite (Hf _ _ Hp). cbn. destruct (f e); simpl; lia.
Qed.

Lemma count_delete f l id e : l !! id = Some e -> count f (delete id l) = count f l - (if f e then 1 else 0).
Proof.
  intros Hl. pose proof (count_insert f (delete id l) id e (lookup_delete_eq l id)) as Hi. rewrite insert_delete_id in Hi by done. lia.
Qed.

Lemma count_pos f l id e : l !! id = Some e -> f e = true -> 0 < count f l.
Proof.
  intros Hl Hf. pose proof (count_delete f l id e Hl) as Hd. rewrite Hf in Hd. assert (0 <= count f (delete id l)) by (unfold count; lia). lia.
Qed.

(** There are no more of them than identifiers. *)
Lemma count_bound f l n : (forall id, is_Some (l !! id) -> 0 <= id < n) -> 0 <= count f l <= Z.max 0 n.
Proof.
  intros Hid. split; [unfold count; lia|]. assert (Hs : (size l <= Z.to_nat n)%nat).
  { rewrite <- size_dom. pose proof (size_list_to_set (C := gset Z) (seqZ 0 n) (NoDup_seqZ 0 n)) as Hz. rewrite length_seqZ in Hz.
    rewrite <- Hz. apply subseteq_size. intros id Hi. apply elem_of_list_to_set, elem_of_seqZ. apply elem_of_dom, Hid in Hi. lia. }
  unfold count. pose proof (List.filter_length_le f (map_to_list l).*2) as Hl. rewrite length_fmap, length_map_to_list in Hl. lia.
Qed.

Lemma significant_count_is (r : Roster ChildEntry) : significant_count r = count (fun e => cfg_significant (entry_config e)) (live r).
Proof. done. Qed.

(** ** The books *)

Section books.
Context (instant_max : Z) (child_specs : list ChildEntry).
Context (Hspecs : Forall (fun e => dynamic e = false) child_specs).

(** The records describe the children: a static one by its place in the list, a dynamic one by its identifier; only
    static children leave a record when they end. *)
Record described (l : gmap Z ChildEntry) (n : NodeInner) : Prop := {
  static_record : forall id c i, children n !! id = Some c -> key c = Static i ->
    exists e, child_specs !! i = Some e /\ restart c = cfg_restart (entry_config e) /\ (exited c = None -> l !! id = Some e);
  dynamic_record : forall id c j, children n !! id = Some c -> key c = Dynamic j ->
    j = id /\ exited c = None /\ exists e, l !! id = Some e /\ dynamic e = true;
}.

(** The queue is open, and the children in it have identifiers of their own. *)
Record queued (q : SpawnQueue) (n : NodeInner) (ids : Z) : Prop := {
  queue_open : open q = true;
  queue_nodup : NoDup (pending_id <$> pending q);
  queue_new : forall p, p ∈ pending q -> 0 <= pending_id p < ids /\ children n !! pending_id p = None;
}.

Record books (s : Sup) : Prop := {
  books_tasks : dom (worker_map (workers s)) = worker_tasks (workers s);
  books_paired : paired (worker_map (workers s)) (live (roster s));
  books_roster : roster_ok (roster s);
  books_described : described (live (roster s)) (node (roster s));
  books_ids : forall id, is_Some (children (node (roster s)) !! id) -> 0 <= id < id_counter (shared s);
  books_counter : 0 <= id_counter (shared s) < 2 ^ 64;
  books_queue : exists q, current_tx (shared s) = Some q /\ queued q (node (roster s)) (id_counter (shared s));
}.

Lemma books_live_ids s id : books s -> is_Some (live (roster s) !! id) -> 0 <= id < id_counter (shared s).
Proof using. intros Hb Hl. apply (books_ids _ Hb). apply (ok_live _ (books_roster _ Hb)) in Hl as (c & Hc & _). by eexists. Qed.

Lemma books_count_bound s f : books s -> 0 <= count f (live (roster s)) < 2 ^ 64.
Proof using.
  intros Hb. pose proof (books_counter _ Hb). pose proof (count_bound f (live (roster s)) (id_counter (shared s))
    (fun id => books_live_ids s id Hb)). lia.
Qed.

(** *** Starting a child *)

Lemma add_worker_ok st id spec config ws x snt ws' : add_worker st id spec config ws = Ok (x, snt, ws') ->
  x = started st /\ exists p, worker_id p = id /\ ws' = {| worker_tasks := {[task st]} ∪ worker_tasks ws;
    worker_map := <[task st := p]> (worker_map ws); owner_stopping := owner_stopping ws |}.
Proof using. unfold add_worker. repeat case_match; intros [= <- <- <-]; (split; [done|]); (eexists; split; [|reflexivity]; done). Qed.

(** The keys that a child may be inserted with. *)
Definition key_fits (n : NodeInner) (id : Z) (entry : ChildEntry) (k : ChildKey) : Prop :=
  match k with
  | Static i => child_specs !! i = Some entry /\ forall id' c, children n !! id' = Some c -> key c <> Static i
  | Dynamic j => j = id /\ dynamic entry = true
  end.

(** What a start leaves as it was. *)
Record same_run (s s' : Sup) : Prop := {
  same_restart : restart_state s' = restart_state s;
  same_policy : policy s' = policy s;
  same_watch : halt_watch s' = halt_watch s;
  same_config : config (node (roster s')) = config (node (roster s));
  same_running : running (node (roster s')) = running (node (roster s));
  same_performed : restarts_performed (node (roster s')) = restarts_performed (node (roster s));
}.

Lemma same_run_refl s : same_run s s.
Proof using. done. Qed.

Lemma same_run_trans s1 s2 s3 : same_run s1 s2 -> same_run s2 s3 -> same_run s1 s3.
Proof using. intros [] []. split; congruence. Qed.

Definition restarts_at (k : ChildKey) (n : NodeInner) : option Z := restarts <$> history n !! k.

Lemma start_child_ok st id entry k s s' : start_child st id entry k s = Ok s' -> books s ->
  children (node (roster s)) !! id = None -> 0 <= id < id_counter (shared s) ->
  (forall q p, current_tx (shared s) = Some q -> p ∈ pending q -> pending_id p <> id) ->
  key_fits (node (roster s)) id entry k -> task st ∉ worker_tasks (workers s) ->
  books s' /\ shared s' = shared s /\ significant_remaining s' = significant_remaining s /\ same_run s s' /\
  live (roster s') = <[id := entry]> (live (roster s)) /\ live (roster s) !! id = None /\
  (exists p, worker_map (workers s') = <[task st := p]> (worker_map (workers s)) /\ worker_id p = id) /\
  (exists c, children (node (roster s')) = <[id := c]> (children (node (roster s))) /\ key c = k /\ exited c = None) /\
  (forall k', restarts_at k' (node (roster s')) = if decide (k' = k) then Some (default 0 (restarts_at k (node (roster s)))) else restarts_at k' (node (roster s))).
Proof using Hspecs.
  unfold start_child. destruct (add_worker _ _ _ _ _) as [[[x snt] ws]|] eqn:Ea; [|done]. intros [= <-].
  apply add_worker_ok in Ea as (-> & p & Hp & ->). intros Hb Hc Hid Hq Hk Ht.
  assert (Hl : live (roster s) !! id = None).
  { destruct (live (roster s) !! id) eqn:El; [|done]. apply mk_is_Some in El. apply (ok_live _ (books_roster _ Hb)) in El as (c' & Hc' & _). congruence. }
  assert (Hm : worker_map (workers s) !! task st = None) by (rewrite <- (books_tasks _ Hb) in Ht; by apply not_elem_of_dom).
  pose proof (books_described _ Hb) as [Hs Hd].
  split_and!; try done.
  - split; cbn.
    + by rewrite dom_insert_L, (books_tasks _ Hb).
    + rewrite <- Hp. apply paired_insert; [apply Hb|done|by rewrite Hp].
    + apply roster_ok_insert; [apply Hb|]. intros id' c Hc' Hkey. cbn in Hkey. destruct k as [i|j]; cbn in Hk.
      * by destruct Hk as [_ Hk]; destruct (Hk _ _ Hc').
      * destruct Hk as [-> _]. by destruct (Hd _ _ _ Hc' Hkey).
    + split; cbn.
      * intros id' c i [[<- <-]|[Hne Hc']]%lookup_insert_Some Hkey; cbn in *.
        -- subst k. destruct Hk as [Hk _]. exists entry. rewrite lookup_insert_eq. done.
        -- destruct (Hs _ _ _ Hc' Hkey) as (e & He & Hr & Hx). exists e. rewrite lookup_insert_ne by done. done.
      * intros id' c j [[<- <-]|[Hne Hc']]%lookup_insert_Some Hkey; cbn in *.
        -- subst k. destruct Hk as [-> Hk]. split_and!; [done..|]. exists entry. by rewrite lookup_insert_eq.
        -- destruct (Hd _ _ _ Hc' Hkey) as (-> & Hx & e & He & Hy). split_and!; [done..|]. exists e. by rewrite lookup_insert_ne.
    + intros id' [c [[<- _]|[_ Hc']]%lookup_insert_Some]; [done|]. apply (books_ids _ Hb). by eexists.
    + apply Hb.
    + destruct (books_queue _ Hb) as (q & Hq' & [Ho Hn Hnew]). exists q. split; [done|]. split; [done|done|].
      intros p' Hp'. destruct (Hnew _ Hp') as [Hr Hx]. split; [done|]. cbn. rewrite lookup_insert_ne; [done|]. intros ->. by apply (Hq q p').
  - cbn. by exists p.
  - cbn. by eexists.
  - intros k'. unfold restarts_at. cbn. destruct (history (node (roster s)) !! k) eqn:Eh; cbn.
    + case_decide; subst; [by rewrite Eh|done].
    + case_decide; subst; [by rewrite lookup_insert_eq|by rewrite lookup_insert_ne].
Qed.

(** *** Starting the static children *)

(** The two loops, with the children they leave out. *)
Fixpoint spawn_some (wanted : ChildEntry -> bool) (starts : nat -> Start) (index : nat) (l : list ChildEntry) (s : Sup)
    : Sup * result SupervisorError unit :=
  match l with
  | [] => (s, Ok tt)
  | entry :: rest =>
      if wanted entry then
        match start_child (starts index) (id_counter (shared s)) entry (Static index) (with_shared (next_id (shared s)).2 s) with
        | Ok s' => spawn_some wanted starts (S index) rest s'
        | Err e => (with_shared (next_id (shared s)).2 s, Err e)
        end
      else spawn_some wanted starts (S index) rest s
  end.

Definition not_temporary (e : ChildEntry) : bool := match cfg_restart (entry_config e) with Temporary => false | _ => true end.

Lemma spawn_static_some starts index l s : spawn_static_children starts index l s = spawn_some (fun _ => true) starts index l s.
Proof using. revert index s. induction l as [|e l IH]; intros index s; [done|]. cbn. case_match; [apply IH|done]. Qed.

Lemma respawn_some starts index l s : respawn_children_one_for_all starts index l s = spawn_some not_temporary starts index l s.
Proof using.
  revert index s. induction l as [|e l IH]; intros index s; [done|]. cbn. unfold not_temporary.
  destruct (cfg_restart (entry_config e)); [| |apply IH]; (case_match; [apply IH|done]).
Qed.

(** The keys of the children that a loop starts. *)
Definition starts_key (wanted : ChildEntry -> bool) (index : nat) (k : ChildKey) : bool :=
  match k with Static j => (index <=? j)%nat && from_option wanted false (child_specs !! j) | Dynamic _ => false end.

(** The child with this key runs with a task that is not one of the old ones. *)
Definition newly_runs (k : ChildKey) (old : gset Z) (s' : Sup) : Prop :=
  exists t p c, worker_map (workers s') !! t = Some p /\ t ∉ old /\
    children (node (roster s')) !! worker_id p = Some c /\ key c = k /\ exited c = None.

Record spawned (wanted : ChildEntry -> bool) (index : nat) (old : gset Z) (s s' : Sup) : Prop := {
  sp_books : books s';
  sp_queue : current_tx (shared s') = current_tx (shared s);
  sp_active : active (shared s') = active (shared s);
  sp_run : same_run s s';
  sp_dynamic : count dynamic (live (roster s')) = count dynamic (live (roster s));
  sp_workers : worker_map (workers s) ⊆ worker_map (workers s');
  sp_records : children (node (roster s)) ⊆ children (node (roster s'));
  sp_new : forall k, starts_key wanted index k = true -> newly_runs k old s';
  sp_history : forall k, restarts_at k (node (roster s')) =
    if starts_key wanted index k then Some (default 0 (restarts_at k (node (roster s)))) else restarts_at k (node (roster s));
}.

Lemma spawn_some_counter wanted starts index l s : 0 <= id_counter (shared s) -> id_counter (shared s) + Z.of_nat (length l) < 2 ^ 64 ->
  id_counter (shared s) <= id_counter (shared (spawn_some wanted starts index l s).1) <= id_counter (shared s) + Z.of_nat (length l).
Proof using.
  revert index s. induction l as [|e l IH]; intros index s Hc Hl; cbn [spawn_some length] in *; [simpl; lia|].
  destruct (wanted e); [|specialize (IH (S index) s); lia].
  assert (Hn : id_counter (next_id (shared s)).2 = id_counter (shared s) + 1) by (cbn; unfold wrapping_add, wrap; rewrite Z.mod_small; lia).
  destruct (start_child _ _ _ _ _) as [s1|] eqn:E; [|cbn; cbn in Hn; lia].
  assert (Hs : shared s1 = (next_id (shared s)).2).
  { unfold start_child in E. destruct (add_worker _ _ _ _ _) as [[[??]?]|]; [by injection E as <-|done]. }
  specialize (IH (S index) s1). rewrite Hs, Hn in IH. lia.
Qed.

Lemma books_next_id s : books s -> id_counter (shared s) + 1 < 2 ^ 64 ->
  books (with_shared (next_id (shared s)).2 s) /\ id_counter (next_id (shared s)).2 = id_counter (shared s) + 1 /\
  children (node (roster s)) !! id_counter (shared s) = None.
Proof using.
  intros Hb Hc. pose proof (books_counter _ Hb). assert (Hn : id_counter (next_id (shared s)).2 = id_counter (shared s) + 1) by (cbn; unfold wrapping_add, wrap; rewrite Z.mod_small; lia).
  split_and!; [|done|].
  - cbn in Hn. split; try apply Hb; cbn; rewrite ?Hn; [|lia|].
    + intros id Hid. apply (books_ids _ Hb) in Hid. lia.
    + destruct (books_queue _ Hb) as (q & Hq & [Ho Hnd Hnew]). exists q. split; [done|]. split; [done|done|].
      intros p Hp. destruct (Hnew p Hp). split; [lia|done].
  - destruct (children _ !! _) eqn:E; [|done]. apply mk_is_Some, (books_ids _ Hb) in E. lia.
Qed.

Lemma spawned_refl wanted old s : books s -> forall index, (forall k, starts_key wanted index k = false) -> spawned wanted index old s s.
Proof using. intros Hb index Hk. split; try done; intros k; rewrite Hk; done. Qed.

Lemma starts_key_step wanted index k e : child_specs !! index = Some e ->
  starts_key wanted index k = starts_key wanted (S index) k || (bool_decide (k = Static index) && wanted e).
Proof using.
  intros He. destruct k as [j|j]; unfold starts_key; [|by rewrite bool_decide_false]. case_bool_decide as Ej.
  - injection Ej as ->. rewrite He, Nat.leb_refl, (proj2 (Nat.leb_gt _ _)) by lia. done.
  - assert (Hne : j <> index) by congruence. rewrite orb_false_r. apply (f_equal (fun b => b && _)).
    destruct (Nat.leb_spec index j), (Nat.leb_spec (S index) j); try done; lia.
Qed.

Lemma newly_runs_mono k old s1 s2 : newly_runs k old s1 ->
  worker_map (workers s1) ⊆ worker_map (workers s2) ->
  children (node (roster s1)) ⊆ children (node (roster s2)) -> newly_runs k old s2.
Proof using.
  intros (t & p & c & Hp & Ht & Hc & Hk) Hw Hr. exists t, p, c. split_and!; [by eapply lookup_weaken|done|by eapply lookup_weaken|apply Hk..].
Qed.

Lemma spawned_cons wanted index old s s1 s2 e : child_specs !! index = Some e -> wanted e = true ->
  current_tx (shared s1) = current_tx (shared s) -> active (shared s1) = active (shared s) -> same_run s s1 ->
  count dynamic (live (roster s1)) = count dynamic (live (roster s)) ->
  worker_map (workers s) ⊆ worker_map (workers s1) ->
  children (node (roster s)) ⊆ children (node (roster s1)) -> newly_runs (Static index) old s1 ->
  (forall k', restarts_at k' (node (roster s1)) = if decide (k' = Static index) then Some (default 0 (restarts_at k' (node (roster s)))) else restarts_at k' (node (roster s))) ->
  spawned wanted (S index) old s1 s2 -> spawned wanted index old s s2.
Proof using.
  intros He Hwe Hq Ha Hs Hc Hw Hr Hn Hh Hsp. split.
  - apply Hsp.
  - by rewrite (sp_queue _ _ _ _ _ Hsp).
  - by rewrite (sp_active _ _ _ _ _ Hsp).
  - eapply same_run_trans; [done|apply Hsp].
  - by rewrite (sp_dynamic _ _ _ _ _ Hsp).
  - etrans; [exact Hw|apply Hsp].
  - etrans; [exact Hr|apply Hsp].
  - intros k. rewrite (starts_key_step _ _ _ _ He), Hwe, andb_true_r. intros [Hk|Hk]%orb_true_iff.
    + pose proof (sp_new _ _ _ _ _ Hsp k Hk) as Hnew. by eapply newly_runs_mono.
    + apply bool_decide_eq_true in Hk as ->. eapply newly_runs_mono; [exact Hn|apply Hsp|apply Hsp].
  - intros k. rewrite (sp_history _ _ _ _ _ Hsp), (starts_key_step _ _ _ _ He), Hwe, andb_true_r, Hh.
    destruct (starts_key wanted (S index) k), (decide (k = Static index)) as [->|Hk];
      rewrite ?(bool_decide_true _ eq_refl), ?bool_decide_false by done; cbn; try done; by rewrite ?bool_decide_true.
Qed.

(** No child that the loop wants has a record. *)
Definition unrecorded (wanted : ChildEntry -> bool) (index : nat) (n : NodeInner) : Prop :=
  forall id c, children n !! id = Some c -> starts_key wanted index (key c) = false.

Lemma spawn_some_ok wanted starts index old l s s' : l = drop index child_specs -> books s ->
  id_counter (shared s) + Z.of_nat (length l) < 2 ^ 64 ->
  (forall j, (index <= j)%nat -> task (starts j) ∉ worker_tasks (workers s) /\ task (starts j) ∉ old) ->
  (forall i j, task (starts i) = task (starts j) -> i = j) ->
  unrecorded wanted index (node (roster s)) ->
  spawn_some wanted starts index l s = (s', Ok tt) -> spawned wanted index old s s'.
Proof using Hspecs.
  revert index s. induction l as [|e l IH]; intros index s Hl Hb Hc Ht Hinj Hu.
  - intros [= <-]. apply spawned_refl; [done|]. intros [j|j]; [|done]. unfold starts_key. destruct (Nat.leb_spec index j); [|done].
    assert (Hn : child_specs !! j = None); [|by rewrite Hn]. apply lookup_ge_None. apply (f_equal length) in Hl. rewrite length_drop in Hl.
    simpl in Hl. lia.
  - assert (He : child_specs !! index = Some e) by (rewrite <- (Nat.add_0_r index), <- lookup_drop, <- Hl; done).
    assert (Hl' : l = drop (S index) child_specs) by (rewrite <- Nat.add_1_r, <- drop_drop, <- Hl; done).
    assert (Hstep : forall k, starts_key wanted (S index) k = true -> starts_key wanted index k = true).
    { intros k Hk. by rewrite (starts_key_step _ _ _ _ He), Hk. }
    cbn [spawn_some length] in *. destruct (wanted e) eqn:Ew.
    + destruct (books_next_id s Hb ltac:(lia)) as (Hb1 & Hn1 & Hfree). set (s0 := with_shared (next_id (shared s)).2 s) in *.
      destruct (start_child _ _ _ _ _) as [s1|] eqn:E; [|done]. intros Hrest.
      assert (Hk : key_fits (node (roster s0)) (id_counter (shared s)) e (Static index)).
      { split; [done|]. intros id' c Hc' Hkey. pose proof (Hu _ _ Hc') as Hf. rewrite Hkey, (starts_key_step _ _ _ _ He), Ew, bool_decide_true in Hf by done.
        by rewrite orb_true_r in Hf. }
      pose proof (books_counter _ Hb) as Hcnt.
      assert (Hq0 : forall q p, current_tx (shared s0) = Some q -> p ∈ pending q -> pending_id p <> id_counter (shared s)).
      { intros q p Hq Hp. destruct (books_queue _ Hb) as (q' & Hq' & [_ _ Hnew]). change (current_tx (shared s) = Some q) in Hq.
        rewrite Hq in Hq'. injection Hq' as <-. destruct (Hnew p Hp). lia. }
      destruct (start_child_ok _ _ _ _ _ _ E Hb1 Hfree ltac:(cbn [shared with_shared s0]; lia) Hq0 Hk (proj1 (Ht index (Nat.le_refl _))))
        as (Hb2 & Hs2 & _ & Hsame & Hlive & Hl0 & (p & Hp & Hpid) & (c & Hc2 & Hck & Hce) & Hh).
      assert (Htask : worker_tasks (workers s1) = {[task (starts index)]} ∪ worker_tasks (workers s)).
      { rewrite <- (books_tasks _ Hb2), Hp, dom_insert_L. change (workers s0) with (workers s). by rewrite (books_tasks _ Hb). }
      apply (spawned_cons wanted index old s s1 s' e); try done.
      * by rewrite Hs2.
      * by rewrite Hs2.
      * by destruct Hsame.
      * rewrite Hlive, count_insert by done. rewrite (Forall_lookup_1 _ _ _ _ Hspecs He). apply Z.add_0_r.
      * rewrite Hp. apply insert_subseteq. apply not_elem_of_dom. rewrite (books_tasks _ Hb1). by apply (Ht index).
      * rewrite Hc2. by apply insert_subseteq.
      * exists (task (starts index)), p, c. split_and!; [by rewrite Hp, lookup_insert_eq|by apply Ht|by rewrite Hc2, Hpid, lookup_insert_eq|done..].
      * intros k'. rewrite Hh. by case_decide; subst.
      * apply (IH (S index)); try done.
        -- rewrite Hs2. change (id_counter (next_id (shared s)).2 + Z.of_nat (length l) < 2 ^ 64). lia.
        -- intros j Hj. rewrite Htask. destruct (Ht j ltac:(lia)) as [Hj1 Hj2]. split; [|done].
           intros [Hj'%elem_of_singleton%Hinj|Hj']%elem_of_union; [lia|done].
        -- intros id' c'. rewrite Hc2. intros [[<- <-]|[_ Hc']]%lookup_insert_Some.
           ++ rewrite Hck. unfold starts_key. by rewrite (proj2 (Nat.leb_gt _ _)) by lia.
           ++ apply not_true_is_false. intros Hx%Hstep. by rewrite (Hu _ _ Hc') in Hx.
    + intros Hrest. assert (Hsp : spawned wanted (S index) old s s').
      { apply (IH (S index)); try done; [lia|intros j Hj; apply Ht; lia|]. intros id c Hc'. apply not_true_is_false. intros Hx%Hstep. by rewrite (Hu _ _ Hc') in Hx. }
      assert (Hsame : forall k, starts_key wanted index k = starts_key wanted (S index) k) by (intros k; by rewrite (starts_key_step _ _ _ _ He), Ew, andb_false_r, orb_false_r).
      destruct Hsp. split; try done; intros k; rewrite Hsame; auto.
Qed.

(** *** Children that end *)

Lemma complete_ok s t j : books s -> t ∈ worker_tasks (workers s) -> exists p e r,
  worker_map (workers s) !! t = Some p /\ live (roster s) !! worker_id p = Some e /\
  complete t j (workers s) = Some (worker_id p, r, {| worker_tasks := worker_tasks (workers s) ∖ {[t]};
    worker_map := delete t (worker_map (workers s)); owner_stopping := owner_stopping (workers s) |}).
Proof using.
  intros Hb Ht. rewrite <- (books_tasks _ Hb) in Ht. apply elem_of_dom in Ht as [p Hp].
  destruct (task_child _ _ (books_paired _ Hb) _ _ Hp) as [e He]. unfold complete. rewrite Hp. cbn. by do 3 eexists.
Qed.

(** The task with which the child with this key runs. *)
Definition runs_task (k : ChildKey) (s : Sup) (t : Z) : Prop :=
  exists p c, worker_map (workers s) !! t = Some p /\ children (node (roster s)) !! worker_id p = Some c /\ key c = k.

(** A step starts the child with this key and counts a restart if it has run before, or neither. *)
Definition bumped (r : option Z) : option Z := Some (match r with None => 0 | Some r => wrapping_add 32 r 1 end).

Definition steady (k : ChildKey) (s s' : Sup) : Prop :=
  (forall t, runs_task k s' t -> runs_task k s t) /\ restarts_at k (node (roster s')) = restarts_at k (node (roster s)).

Definition account (k : ChildKey) (s s' : Sup) : Prop :=
  newly_runs k (worker_tasks (workers s)) s' /\ restarts_at k (node (roster s')) = bumped (restarts_at k (node (roster s))) \/ steady k s s'.

Lemma remove_records now id (r : Roster ChildEntry) id' c : children (node (remove now id r)) !! id' = Some c ->
  exists c0, children (node r) !! id' = Some c0 /\ key c = key c0 /\ restart c = restart c0 /\
    (id' = id -> is_dynamic (key c0) = false /\ exited c = Some now) /\ (id' <> id -> c = c0).
Proof using.
  unfold remove. destruct (children (node r) !! id) as [c1|] eqn:E1; [destruct (is_dynamic (key c1)) eqn:Ed|]; cbn.
  - intros [Hne Hc]%lookup_delete_Some. exists c; split_and!; try done; congruence.
  - intros [[<- <-]|[Hne Hc]]%lookup_insert_Some; [by exists c1|]. exists c; split_and!; try done; congruence.
  - intros Hc. exists c; split_and!; try done; congruence.
Qed.

Lemma remove_keeps now id (r : Roster ChildEntry) id' c0 i : children (node r) !! id' = Some c0 -> key c0 = Static i ->
  exists c, children (node (remove now id r)) !! id' = Some c /\ key c = Static i.
Proof using.
  intros Hc Hk. unfold remove. destruct (decide (id' = id)) as [->|Hne].
  - rewrite Hc, Hk. cbn. rewrite lookup_insert_eq. by eexists.
  - destruct (children (node r) !! id) as [c1|] eqn:E1; [destruct (is_dynamic (key c1)) eqn:Ed|]; cbn.
    + rewrite lookup_delete_ne by done. by eexists.
    + rewrite lookup_insert_ne by done. by eexists.
    + by eexists.
Qed.

Lemma remove_restarts now id (r : Roster ChildEntry) i : restarts_at (Static i) (node (remove now id r)) = restarts_at (Static i) (node r).
Proof using.
  unfold remove, restarts_at. destruct (children (node r) !! id) as [c1|]; [destruct (is_dynamic (key c1)) eqn:Ed|]; cbn; try done.
  rewrite lookup_delete_ne; [done|]. intros Hk. by rewrite Hk in Ed.
Qed.

(** A child that is removed, its task having ended. *)
Lemma remove_ok now t p s : books s -> worker_map (workers s) !! t = Some p ->
  let s' := with_roster (remove now (worker_id p) (roster s)) (with_workers {| worker_tasks := worker_tasks (workers s) ∖ {[t]};
    worker_map := delete t (worker_map (workers s)); owner_stopping := owner_stopping (workers s) |} s) in
  books s' /\ same_run s s' /\ forall i, steady (Static i) s s'.
Proof using.
  intros Hb Hp s'. pose proof (books_described _ Hb) as [Hs Hd].
  assert (Hrec : forall id, is_Some (children (node (roster s')) !! id) -> is_Some (children (node (roster s)) !! id)).
  { intros id [c Hc]. apply remove_records in Hc as (c0 & -> & _). by eexists. }
  split_and!; [split| |].
  - cbn. rewrite dom_delete_L. by rewrite (books_tasks _ Hb).
  - cbn. by apply paired_delete; [apply Hb|].
  - apply roster_ok_remove, Hb.
  - split; cbn.
    + intros id c i (c0 & Hc0 & Hk & Hr & He & Hsame)%remove_records Hki. rewrite Hk in Hki. destruct (Hs _ _ _ Hc0 Hki) as (e & Hce & Hre & Hl).
      exists e. split_and!; [done|congruence|]. intros Hx. destruct (decide (id = worker_id p)) as [->|Hne].
      * destruct He as [_ He]; congruence.
      * rewrite lookup_delete_ne by done. apply Hl. by rewrite <- Hsame.
    + intros id c j (c0 & Hc0 & Hk & Hr & He & Hsame)%remove_records Hkj. rewrite Hk in Hkj. destruct (Hd _ _ _ Hc0 Hkj) as (-> & Hx & e & Hl & Hdy).
      destruct (decide (id = worker_id p)) as [->|Hne]; [destruct He as [He _]; [done|by rewrite Hkj in He]|].
      rewrite Hsame by done. split_and!; [done..|]. exists e. by rewrite lookup_delete_ne.
  - intros id Hid%Hrec. by apply (books_ids _ Hb).
  - apply Hb.
  - destruct (books_queue _ Hb) as (q & Hq & [Ho Hnd Hnew]). exists q. split; [done|]. split; [done|done|]. intros p' Hp'. destruct (Hnew _ Hp') as [Hr Hn].
    split; [done|]. apply eq_None_not_Some. intros Hx%Hrec. rewrite Hn in Hx. by destruct Hx.
  - done.
  - intros i. split; [|apply remove_restarts]. intros t' (p' & c & Hp' & Hc & Hk). cbn in Hp'. apply lookup_delete_Some in Hp' as [_ Hp'].
    cbn in Hc. apply remove_records in Hc as (c0 & Hc0 & Hk' & _). exists p', c0. split_and!; [done|done|congruence].
Qed.

(** A child that is started again in its place. *)
Lemma restart_in_place_ok st t p e s spec cfg x snt ws : books s -> worker_map (workers s) !! t = Some p ->
  live (roster s) !! worker_id p = Some e -> task st ∉ worker_tasks (workers s) ->
  add_worker st (worker_id p) spec cfg {| worker_tasks := worker_tasks (workers s) ∖ {[t]};
    worker_map := delete t (worker_map (workers s)); owner_stopping := owner_stopping (workers s) |} = Ok (x, snt, ws) ->
  let s' := with_roster (restart_in_place (worker_id p) x (roster s)) (with_workers ws s) in
  books s' /\ config (node (roster s')) = config (node (roster s)) /\ running (node (roster s')) = running (node (roster s)) /\
  (forall i, account (Static i) s s') /\
  (forall id c, children (node (roster s)) !! id = Some c -> exists c', children (node (roster s')) !! id = Some c' /\ key c' = key c).
Proof using.
  intros Hb Hp He Ht Ha s'. apply add_worker_ok in Ha as (-> & p' & Hw & ->). pose proof (books_described _ Hb) as [Hs Hd].
  destruct (proj1 (ok_live _ (books_roster _ Hb) (worker_id p)) (mk_is_Some _ _ He)) as (c0 & Hc0 & He0).
  assert (Hns : t <> task st).
  { intros ->. apply Ht. rewrite <- (books_tasks _ Hb). by eapply elem_of_dom_2. }
  set (c1 := with_start (Some (started st)) None c0).
  assert (Hch : children (node (roster s')) = <[worker_id p := c1]> (children (node (roster s)))) by (cbn; by rewrite Hc0).
  assert (Hhi : history (node (roster s')) = alter count_restart (key c0) (history (node (roster s)))) by (cbn; by rewrite Hc0).
  split_and!; [split| | | |].
  - cbn. rewrite dom_insert_L, dom_delete_L. by rewrite (books_tasks _ Hb).
  - cbn. eapply paired_replace; [apply Hb|done| |done]. rewrite lookup_delete_ne by done. apply not_elem_of_dom. by rewrite (books_tasks _ Hb).
  - apply roster_ok_restart; [apply Hb|by eexists].
  - split; rewrite Hch.
    + intros id c i [[<- <-]|[Hne Hc]]%lookup_insert_Some Hk; [|by eapply Hs]. cbn in Hk. destruct (Hs _ _ _ Hc0 Hk) as (e' & H1 & H2 & H3).
      exists e'. split_and!; [done|done|]. intros _. by apply H3.
    + intros id c j [[<- <-]|[Hne Hc]]%lookup_insert_Some Hk; [|by eapply Hd]. cbn in Hk. by destruct (Hd _ _ _ Hc0 Hk) as (? & _ & ?).
  - intros id. rewrite Hch. intros [c [[<- _]|[_ Hc]]%lookup_insert_Some]; apply (books_ids _ Hb); by eexists.
  - apply Hb.
  - destruct (books_queue _ Hb) as (q & Hq & [Ho Hnd Hnew]). exists q. split; [done|]. split; [done|done|]. intros p1 Hp1. destruct (Hnew _ Hp1) as [Hr Hn].
    split; [done|]. rewrite Hch, lookup_insert_ne; [done|]. intros Hx. congruence.
  - cbn. by rewrite Hc0.
  - cbn. by rewrite Hc0.
  - intros i. unfold account, steady, restarts_at. rewrite Hhi. destruct (decide (key c0 = Static i)) as [Hk|Hk].
    + left. split.
      * exists (task st), p', c1. cbn. rewrite lookup_insert_eq. split_and!; try done. rewrite Hc0. cbn. by rewrite Hw, lookup_insert_eq.
      * rewrite Hk, lookup_alter_eq. destruct (ok_history _ (books_roster _ Hb) _ _ Hc0) as [h Hh]. rewrite Hk in Hh. by rewrite Hh.
    + right. split; [|by rewrite lookup_alter_ne]. intros t' (p2 & c2 & Hp2 & Hc2 & Hk2). rewrite Hch in Hc2. cbn in Hp2.
      apply lookup_insert_Some in Hp2 as [[<- <-]|[_ [_ Hp2]%lookup_delete_Some]].
      * rewrite Hw, lookup_insert_eq in Hc2. injection Hc2 as <-. by destruct Hk.
      * apply lookup_insert_Some in Hc2 as [[_ <-]|[_ Hc2]]; [by destruct Hk|]. by exists p2, c2.
  - intros id c Hc. rewrite Hch. destruct (decide (id = worker_id p)) as [->|Hne]; [exists c1|exists c].
    + rewrite lookup_insert_eq. split; [done|]. cbn. congruence.
    + by rewrite lookup_insert_ne.
Qed.

(** *** Group restarts *)

Lemma group_records now (r : Roster ChildEntry) id c : children (node (clear_for_group_restart now r)) !! id = Some c ->
  exists c0, children (node r) !! id = Some c0 /\ key c = key c0 /\ restart c = Temporary /\ restart c0 = Temporary /\
    is_dynamic (key c0) = false /\ is_Some (exited c).
Proof using.
  cbn. rewrite lookup_omap. intros (c0 & Hc0 & Hg)%bind_Some. exists c0. split; [done|]. unfold group_restart_record in Hg.
  destruct (is_dynamic (key c0)); [done|]. destruct (restart c0) eqn:Er; try done. injection Hg as <-. destruct (exited c0) eqn:Ee; cbn; rewrite ?Ee; by eauto.
Qed.

Lemma group_keeps now (r : Roster ChildEntry) id c0 : children (node r) !! id = Some c0 -> is_dynamic (key c0) = false -> restart c0 = Temporary ->
  exists c, children (node (clear_for_group_restart now r)) !! id = Some c /\ key c = key c0 /\ is_Some (exited c).
Proof using.
  intros Hc Hd Ht. cbn. rewrite lookup_omap, Hc. cbn. unfold group_restart_record. rewrite Hd, Ht. eexists. split; [done|].
  destruct (exited c0) eqn:Ee; cbn; rewrite ?Ee; by eauto.
Qed.

(** The books behind the shutdown that precedes a group restart. *)
Lemma cleared_books now o s ws : books s -> ws = {| worker_tasks := ∅; worker_map := ∅; owner_stopping := o |} ->
  let s' := with_shared (with_active 0 (shared s)) (with_roster (clear_for_group_restart now (roster s)) (with_workers ws s)) in
  books s' /\ unrecorded not_temporary 0 (node (roster s')).
Proof using.
  intros Hb -> s'. pose proof (books_described _ Hb) as [Hs Hd].
  assert (Hrec : forall id, is_Some (children (node (roster s')) !! id) -> is_Some (children (node (roster s)) !! id)).
  { intros id [c Hc]. apply group_records in Hc as (c0 & -> & _). by eexists. }
  split; [split|].
  - apply dom_empty_L.
  - apply paired_empty.
  - apply roster_ok_group_restart, Hb.
  - split.
    + intros id c i (c0 & Hc0 & Hk & Hr & Hr0 & _ & Hx)%group_records Hki. rewrite Hk in Hki. destruct (Hs _ _ _ Hc0 Hki) as (e & He & Hre & _).
      exists e. split_and!; [done|congruence|]. intros Hn. rewrite Hn in Hx. by inversion Hx.
    + intros id c j (c0 & Hc0 & Hk & _ & _ & Hdy & _)%group_records Hkj. rewrite Hk in Hkj. by rewrite Hkj in Hdy.
  - intros id Hid%Hrec. by apply (books_ids _ Hb).
  - apply Hb.
  - destruct (books_queue _ Hb) as (q & Hq & [Ho Hnd Hnew]). exists q. split; [done|]. split; [done|done|]. intros p' Hp'. destruct (Hnew _ Hp') as [Hr Hn].
    split; [done|]. apply eq_None_not_Some. intros Hx%Hrec. rewrite Hn in Hx. by destruct Hx.
  - intros id c (c0 & Hc0 & Hk & Hr & Hr0 & Hdy & _)%group_records. rewrite Hk. destruct (key c0) as [i|j] eqn:Ek; [|done].
    destruct (Hs _ _ _ Hc0 Ek) as (e & He & Hre & _). unfold starts_key. rewrite He. cbn. unfold not_temporary. by rewrite <- Hre, Hr0.
Qed.

(** Every static child has a record: it is running, or it has ended for good. *)
Definition every_static (n : NodeInner) : Prop :=
  forall i e, child_specs !! i = Some e -> exists id c, children n !! id = Some c /\ key c = Static i.

Lemma group_history_is now s i id c : books s -> children (node (roster s)) !! id = Some c -> key c = Static i ->
  restarts_at (Static i) (node (clear_for_group_restart now (roster s))) =
    match restart c with Temporary => restarts_at (Static i) (node (roster s)) | _ => bumped (restarts_at (Static i) (node (roster s))) end.
Proof using.
  intros Hb Hc Hk. unfold restarts_at, clear_for_group_restart. cbn.
  assert (Hin : (id, c) ∈ map_to_list (children (node (roster s)))) by by apply elem_of_map_to_list.
  pose proof (group_history_lookup _ (history (node (roster s))) id c (roster_keys_nodup _ (books_roster _ Hb)) Hin) as Hg. rewrite Hk in Hg. rewrite Hg.
  destruct (ok_history _ (books_roster _ Hb) _ _ Hc) as [h Hh]. rewrite Hk in Hh. rewrite Hh. cbn. unfold group_restarted. rewrite Hk. cbn.
  by destruct (restart c).
Qed.

Lemma restart_group_ok e s ws0 rs s' : books s -> every_static (node (roster s)) -> id_counter (shared s) + Z.of_nat (length child_specs) < 2 ^ 64 ->
  (forall i j, task (exit_starts e i) = task (exit_starts e j) -> i = j) ->
  restart_group instant_max child_specs e (with_restart_state rs (with_workers ws0 s)) = Some (Continue s') ->
  books s' /\ every_static (node (roster s')) /\ active (shared s') = count dynamic (live (roster s')) /\
  significant_remaining s' = significant_count (roster s') /\ restart_state s' = rs /\ policy s' = policy s /\
  config (node (roster s')) = config (node (roster s)) /\ running (node (roster s')) = running (node (roster s)) /\
  forall old i, (forall i, task (exit_starts e i) ∉ old) -> is_Some (child_specs !! i) ->
    newly_runs (Static i) old s' /\ restarts_at (Static i) (node (roster s')) = bumped (restarts_at (Static i) (node (roster s))) \/
    (forall t, ~ runs_task (Static i) s' t) /\ restarts_at (Static i) (node (roster s')) = restarts_at (Static i) (node (roster s)).
Proof using Hspecs.
  intros Hb He Hid Hinj. unfold restart_group. destruct (shutdown_workers _ _ _ _ _) as [d|] eqn:Ed; [|done]. cbn [mbind option_bind].
  assert (Hd : tasks d = ∅).
  { unfold shutdown_workers in Ed. destruct (drain _ _) as [d'|]; [|done]. cbn in Ed. case_bool_decide; [|done]. by injection Ed as <-. }
  rewrite Hd. set (ws := {| worker_tasks := ∅; worker_map := ∅; owner_stopping := _ |}).
  destruct (cleared_books (stamp e) _ (with_halt_watch (watch d) (with_restart_state rs s)) ws ltac:(by destruct Hb) eq_refl) as [Hb1 Hu1].
  rewrite respawn_some. match goal with |- context [spawn_some _ _ _ _ ?x] => set (s1 := x) in * end.
  destruct (spawn_some not_temporary (exit_starts e) 0 child_specs s1) as [s2 [[]|err]] eqn:Es; [|done]. intros [= <-].
  assert (Hb1' : books s1) by by destruct Hb1.
  assert (Hu1' : unrecorded not_temporary 0 (node (roster s1))) by exact Hu1.
  assert (Hsp : forall old, (forall i, task (exit_starts e i) ∉ old) -> spawned not_temporary 0 old s1 s2).
  { intros old Hold. apply (spawn_some_ok not_temporary (exit_starts e) 0 old child_specs); done. }
  pose proof (Hsp ∅ ltac:(intros; apply not_elem_of_empty)) as Hsp0. pose proof (sp_books _ _ _ _ _ Hsp0) as Hb2.
  assert (Hrec : forall i x, child_specs !! i = Some x -> not_temporary x = false -> exists id c, children (node (roster s2)) !! id = Some c /\ key c = Static i /\ is_Some (exited c)).
  { intros i x Hx Hn. destruct (He _ _ Hx) as (id & c & Hc & Hk). destruct (static_record _ _ (books_described _ Hb) _ _ _ Hc Hk) as (x' & Hx' & Hr & _).
    assert (Htemp : restart c = Temporary) by (simplify_eq; unfold not_temporary in Hn; rewrite Hr; by destruct (cfg_restart (entry_config x))).
    destruct (group_keeps (stamp e) (roster s) id c Hc ltac:(by rewrite Hk) Htemp) as (c' & Hc' & Hk' & Hx'').
    exists id, c'. split_and!; [|congruence|done]. by eapply lookup_weaken; [|apply (sp_records _ _ _ _ _ Hsp0)]. }
  split_and!.
  - by destruct Hb2.
  - intros i x Hx. destruct (not_temporary x) eqn:En.
    + destruct (sp_new _ _ _ _ _ Hsp0 (Static i)) as (t & p & c & _ & _ & Hc & Hk & _); [unfold starts_key; by rewrite Hx|]. by exists (worker_id p), c.
    + destruct (Hrec i x Hx En) as (id & c & Hc & Hk & _). by exists id, c.
  - cbn. rewrite (sp_active _ _ _ _ _ Hsp0), (sp_dynamic _ _ _ _ _ Hsp0). cbn. by rewrite count_empty.
  - done.
  - cbn. by rewrite (same_restart _ _ (sp_run _ _ _ _ _ Hsp0)).
  - cbn. by rewrite (same_policy _ _ (sp_run _ _ _ _ _ Hsp0)).
  - cbn. by rewrite (same_config _ _ (sp_run _ _ _ _ _ Hsp0)).
  - cbn. by rewrite (same_running _ _ (sp_run _ _ _ _ _ Hsp0)).
  - intros old i Hold [x Hx]. destruct (He _ _ Hx) as (id & c & Hc & Hk).
    destruct (static_record _ _ (books_described _ Hb) _ _ _ Hc Hk) as (x' & Hx' & Hr & _). simplify_eq.
    assert (Hh : restarts_at (Static i) (node (roster s1)) = if not_temporary x then bumped (restarts_at (Static i) (node (roster s))) else restarts_at (Static i) (node (roster s))).
    { change (node (roster s1)) with (node (clear_for_group_restart (stamp e) (roster s))). rewrite (group_history_is _ _ _ _ _ Hb Hc Hk), Hr. unfold not_temporary. by destruct (cfg_restart (entry_config x)). }
    assert (Hsk : starts_key not_temporary 0 (Static i) = not_temporary x) by (unfold starts_key; by rewrite Hx).
    destruct (not_temporary x) eqn:En; [left|right]; cbn [roster with_significant].
    + split; [exact (sp_new _ _ _ _ _ (Hsp old Hold) (Static i) Hsk)|]. by rewrite (sp_history _ _ _ _ _ Hsp0), Hsk, Hh.
    + split; [|by rewrite (sp_history _ _ _ _ _ Hsp0), Hsk, Hh]. intros t (p & c2 & Hp & Hc2 & Hk2).
      destruct (Hrec i x Hx En) as (id' & c' & Hc' & Hk' & Hx'). cbn in Hp, Hc2.
      assert (Heq : worker_id p = id') by (eapply (ok_keys _ (books_roster _ Hb2)); [exact Hc2|exact Hc'|congruence]). rewrite Heq in Hc2.
      destruct (proj1 (ok_live _ (books_roster _ Hb2) (worker_id p)) (task_child _ _ (books_paired _ Hb2) _ _ Hp)) as (c3 & Hc3 & Hx3).
      rewrite Heq in Hc3. simplify_eq. rewrite Hx3 in Hx'. by destruct Hx'.
Qed.

(** ** What holds of a run *)

Abbreviation is_significant := (fun e : ChildEntry => cfg_significant (entry_config e)).

Record run_ok (c : NodeConfig) (s : Sup) : Prop := {
  run_books : books s;
  run_static : every_static (node (roster s));
  run_active : active (shared s) = count dynamic (live (roster s));
  run_significant : significant_remaining s = count is_significant (live (roster s));
  run_running : running (node (roster s)) = true;
  run_config : config (node (roster s)) = c;
  run_strategy : Restart.strategy (restart_state s) = restart_strategy c;
  run_policy : policy s = auto_shutdown c;
}.

(** And of a supervisor that does not run. *)
Record stopped_ok (c : NodeConfig) (sh : Shared) (n : NodeInner) : Prop := {
  stopped_queue : current_tx sh = None;
  stopped_active : active sh = 0;
  stopped_counter : 0 <= id_counter sh < 2 ^ 64;
  stopped_children : children n = ∅;
  stopped_running : running n = false;
  stopped_config : config n = c;
}.

Definition sound (c : NodeConfig) (st : State) : Prop :=
  match st with Stopped sh n => stopped_ok c sh n | Running s => run_ok c s end.

Lemma end_sound c s : 0 <= id_counter (shared s) < 2 ^ 64 -> config (node (roster s)) = c ->
  stopped_ok c (end_supervise s).1 (end_supervise s).2.
Proof using. intros Hc Hn. by split. Qed.

Lemma end_restarts s i : restarts_at (Static i) (end_supervise s).2 = restarts_at (Static i) (node (roster s)).
Proof using.
  unfold restarts_at. cbn. f_equal. rewrite map_lookup_filter. destruct (history (node (roster s)) !! Static i) as [h|]; [|done]. cbn.
  by case_guard.
Qed.

Lemma evaluate_strategy now r : Restart.strategy (evaluate_restart now r).2 = Restart.strategy r.
Proof using. unfold evaluate_restart. by repeat case_match. Qed.

(** Changes that leave the run as it is, but for the observers. *)
Lemma run_ok_node c s n : run_ok c s -> children n = children (node (roster s)) -> history n = history (node (roster s)) ->
  running n = running (node (roster s)) -> config n = config (node (roster s)) ->
  run_ok c (with_roster {| live := live (roster s); node := n |} s).
Proof using.
  intros [[Hb1 Hb2 [Hl Hk Hh] [Hs Hd] Hb5 Hb6 (q & Hq & [Ho Hn Hw])] Hst Ha Hsig Hr Hc Hstr Hp] E1 E2 E3 E4.
  split; try done; cbn; unfold every_static; rewrite ?E1; try congruence; [|done].
  split; try done; cbn; rewrite ?E1; try done.
  - split; cbn; rewrite ?E1, ?E2; done.
  - split; cbn; rewrite E1; done.
  - exists q. split; [done|]. split; rewrite ?E1; done.
Qed.

(** *** Handles *)

Lemma next_id_counter sh : 0 <= id_counter sh -> id_counter sh + 1 < 2 ^ 64 -> id_counter (next_id sh).2 = id_counter sh + 1.
Proof using. intros H0 Hc. cbn. unfold wrapping_add, wrap. rewrite Z.mod_small; lia. Qed.

Lemma handle_spawn_stopped c sh n child o : stopped_ok c sh n -> id_counter sh + 1 < 2 ^ 64 -> stopped_ok c (handle_spawn child o sh).2 n.
Proof using.
  intros [Hq Ha Hc Hch Hr Hn] Hi. pose proof (next_id_counter sh ltac:(lia) Hi) as Hx. unfold handle_spawn. cbn in *. rewrite Hq.
  split; cbn; try done. lia.
Qed.

Lemma handle_spawn_running c s child o : run_ok c s -> id_counter (shared s) + 1 < 2 ^ 64 ->
  run_ok c (with_shared (handle_spawn child o (shared s)).2 s).
Proof using.
  intros [Hb Hst Ha Hsig Hr Hc Hstr Hp] Hi. pose proof (next_id_counter (shared s) (proj1 (books_counter _ Hb)) Hi) as Hx.
  pose proof (books_counter _ Hb) as Hcnt. destruct (books_next_id s Hb Hi) as (_ & _ & Hfree).
  pose proof Hb as [Hb1 Hb2 Hb3 Hb4 Hb5 Hb6 (q & Hq & [Ho Hn Hw])]. unfold handle_spawn. cbn -[id_counter next_id] in *.
  cbn in Hx. cbn. rewrite Hq, Ho. split; try done. split; try done; cbn.
  - intros id Hid%Hb5. lia.
  - lia.
  - eexists. split; [done|]. split; cbn; [done| |].
    + rewrite fmap_app. apply NoDup_app. split_and!; [done| |by apply NoDup_singleton]. intros x (p & -> & Hin)%list_elem_of_fmap Hx'.
      apply list_elem_of_singleton in Hx'. cbn in Hx'. destruct (Hw p Hin). lia.
    + intros p [Hin| ->%list_elem_of_singleton]%elem_of_app; cbn; [|split; [lia|done]]. destruct (Hw p Hin). split; [lia|done].
Qed.

(** *** Taking on spawns *)

(** The spawns that were taken from the queue. *)
Definition taken_ok (l : list PendingSpawn) (s : Sup) : Prop :=
  NoDup (pending_id <$> l) /\ forall p, p ∈ l -> 0 <= pending_id p < id_counter (shared s) /\ children (node (roster s)) !! pending_id p = None /\
    forall q p', current_tx (shared s) = Some q -> p' ∈ pending q -> pending_id p' <> pending_id p.

(** A child that is spawned is no static child. *)
Lemma spawn_dynamic_ok c st p s : run_ok c s -> taken_ok [p] s -> task st ∉ worker_tasks (workers s) ->
  let s' := spawn_dynamic_child st p s in
  run_ok c s' /\ (forall i, steady (Static i) s s') /\ restart_state s' = restart_state s /\
  id_counter (shared s') = id_counter (shared s) /\ current_tx (shared s') = current_tx (shared s) /\
  worker_tasks (workers s') ⊆ {[task st]} ∪ worker_tasks (workers s) /\
  (forall id, id <> pending_id p -> children (node (roster s')) !! id = children (node (roster s)) !! id) /\
  forall t p', worker_map (workers s') !! t = Some p' -> worker_map (workers s) !! t = Some p' \/ worker_id p' = pending_id p.
Proof using Hspecs.
  intros Hrun [_ Hp] Ht. destruct (Hp p ltac:(left)) as (Hid & Hc & Hq). pose proof Hrun as [Hb Hst Ha Hsig Hr Hcf Hstr Hpo].
  unfold spawn_dynamic_child. set (entry := {| spec := pending_spec p; entry_config := pending_config p; dynamic := true |}).
  destruct (start_child _ _ _ _ _) as [s1|err] eqn:E.
  2: { cbn. split_and!; try done; [set_solver|by left]. }
  destruct (start_child_ok _ _ _ _ _ _ E Hb Hc Hid ltac:(intros q p' Hq' Hp'; by apply (Hq q p')) ltac:(by split) Ht)
    as (Hb1 & Hs1 & Hsg & Hsame & Hlive & Hl0 & (pr & Hpr & Hw) & (cr & Hcr & Hk & Hx) & Hh).
  pose proof (books_count_bound s1 dynamic Hb1) as Hn1. pose proof (books_count_bound s1 is_significant Hb1) as Hn2.
  rewrite Hlive, count_insert in Hn1, Hn2 by done. cbn [dynamic entry] in Hn1.
  assert (Hadd1 : u64_add (active (shared s1)) 1 = count dynamic (live (roster s1))).
  { rewrite Hs1, Ha, Hlive, count_insert by done. cbn [dynamic entry]. unfold wrapping_add, wrap. by rewrite Z.mod_small. }
  assert (Hadd2 : (if cfg_significant (entry_config entry) then u64_add (significant_remaining s1) 1 else significant_remaining s1) = count is_significant (live (roster s1))).
  { rewrite Hsg, Hsig, Hlive, count_insert by done. destruct (cfg_significant (entry_config entry)); [|lia]. unfold wrapping_add, wrap. by rewrite Z.mod_small. }
  set (s2 := if cfg_significant (entry_config entry) then with_significant _ s1 else s1).
  assert (E2 : workers s2 = workers s1 /\ roster s2 = roster s1 /\ shared s2 = shared s1 /\ restart_state s2 = restart_state s1 /\ policy s2 = policy s1 /\
    significant_remaining s2 = count is_significant (live (roster s1))) by (unfold s2; rewrite <- Hadd2; by destruct (cfg_significant (entry_config entry))).
  destruct E2 as (F1 & F2 & F3 & F4 & F5 & F6). clearbody s2.
  destruct Hsame as [G1 G2 G3 G4 G5 G6]. cbn zeta. split_and!; cbn; rewrite ?F1, ?F2, ?F3, ?F4, ?Hs1, ?Hpr; try done.
  - destruct Hb1 as [H1 H2 H3 H4 H5 H6 H7]. split; cbn; rewrite ?F1, ?F2, ?F3, ?F4, ?F5; try congruence.
    + rewrite Hs1 in *. split; cbn; rewrite ?F1, ?F2, ?F3; done.
    + intros i x Hx'. destruct (Hst _ _ Hx') as (id & c0 & Hc0 & Hk0). exists id, c0. rewrite Hcr, lookup_insert_ne; [done|]. intros <-. congruence.
  - intros i. split.
    + intros t (p1 & c1 & Hp1 & Hc1 & Hk1). cbn in Hp1, Hc1. rewrite F1, Hpr in Hp1. rewrite F2, Hcr in Hc1.
      apply lookup_insert_Some in Hp1 as [[<- <-]|[_ Hp1]]; [rewrite Hw, lookup_insert_eq in Hc1; congruence|].
      apply lookup_insert_Some in Hc1 as [[_ <-]|[_ Hc1]]; [congruence|]. by exists p1, c1.
    + cbn. rewrite F2, Hh. by rewrite decide_False.
  - rewrite <- (books_tasks _ Hb1), Hpr, dom_insert_L. by rewrite (books_tasks _ Hb).
  - intros id Hne. by rewrite Hcr, lookup_insert_ne.
  - intros t p' [[<- <-]|[_ Hp']]%lookup_insert_Some; [by right|by left].
Qed.

Lemma steady_trans k s1 s2 s3 : steady k s1 s2 -> steady k s2 s3 -> steady k s1 s3.
Proof using. intros [Ht1 Hr1] [Ht2 Hr2]. split; [auto|congruence]. Qed.

Lemma spawn_batch_ok c starts k l s : run_ok c s -> taken_ok l s ->
  (forall j, (k <= j)%nat -> task (starts j) ∉ worker_tasks (workers s)) -> (forall i j, task (starts i) = task (starts j) -> i = j) ->
  let s' := spawn_batch starts k l s in
  run_ok c s' /\ (forall i, steady (Static i) s s') /\ restart_state s' = restart_state s /\ id_counter (shared s') = id_counter (shared s).
Proof using Hspecs.
  revert k s. induction l as [|p l IH]; intros k s Hrun [Hnd Hl] Ht Hinj; cbn [spawn_batch]; [by split_and!|].
  cbn in Hnd. apply NoDup_cons in Hnd as [Hn Hnd].
  assert (H1 : taken_ok [p] s).
  { split; [by apply NoDup_singleton|]. intros p' ->%list_elem_of_singleton. by apply Hl; left. }
  destruct (spawn_dynamic_ok c (starts k) p s Hrun H1 (Ht k ltac:(lia))) as (Hr1 & Hs1 & He1 & Hi1 & Hq1 & Hw1 & Hc1 & _).
  destruct (IH (S k) (spawn_dynamic_child (starts k) p s) Hr1) as (Hr2 & Hs2 & He2 & Hi2).
  - split; [done|]. intros p' Hp'. destruct (Hl p' ltac:(by right)) as (Ha & Hb & Hc). rewrite Hi1, Hq1, Hc1; [done|].
    intros Heq. apply Hn. rewrite <- Heq. by apply list_elem_of_fmap_2.
  - intros j Hj. intros [Hj'%elem_of_singleton%Hinj|Hj']%Hw1%elem_of_union; [lia|]. by apply (Ht j); [lia|].
  - done.
  - split_and!; [done| |congruence..]. intros i. by eapply steady_trans.
Qed.

Lemma take_spawns_ok c starts s s' : run_ok c s -> fresh_starts starts (workers s) -> take_spawns starts s = Some s' ->
  run_ok c s' /\ (forall i, steady (Static i) s s') /\ restart_state s' = restart_state s /\ id_counter (shared s') = id_counter (shared s).
Proof using Hspecs.
  intros Hrun [Ht Hinj]. unfold take_spawns. pose proof Hrun as [Hb Hst Ha Hsig Hr Hcf Hstr Hpo].
  destruct (books_queue _ Hb) as (q & Hq & [Ho Hnd Hnew]). rewrite Hq. cbn [mbind option_bind]. intros Hs'.
  assert (Hs'' : s' = spawn_batch starts 0 (take SPAWN_DRAIN_BATCH (pending q))
    (with_shared (with_tx (Some {| open := open q; pending := drop SPAWN_DRAIN_BATCH (pending q) |}) (shared s)) s)) by (destruct (pending q); [done|by injection Hs' as <-]).
  clear Hs'. subst s'. set (s0 := with_shared _ s).
  rewrite <- (take_drop SPAWN_DRAIN_BATCH (pending q)), fmap_app in Hnd. apply NoDup_app in Hnd as (Hn1 & Hdis & Hn2).
  assert (Hrun0 : run_ok c s0).
  { split; try done. destruct Hb. split; try done. exists {| open := open q; pending := drop SPAWN_DRAIN_BATCH (pending q) |}. split; [done|].
    split; [done|done|]. intros p Hp. apply Hnew. exact (subseteq_drop _ _ _ Hp). }
  enough (Htk : taken_ok (take SPAWN_DRAIN_BATCH (pending q)) s0) by exact (spawn_batch_ok c starts 0 _ s0 Hrun0 Htk (fun j _ => Ht j) Hinj).
  split; [done|]. intros p Hp. destruct (Hnew p (subseteq_take _ _ _ Hp)) as [H1 H2].
  split; [exact H1|]. split; [exact H2|]. intros q' p' [= <-] Hp' Heq. cbn in Hp'. apply (Hdis (pending_id p)); [by apply list_elem_of_fmap_2|].
  rewrite <- Heq. by apply list_elem_of_fmap_2.
Qed.

(** *** Reaping *)

(** What [reap] continues with: the child is gone, from the roster and from the counters. *)
Lemma reap_ok c s t p e now abnormal s' : run_ok c s -> worker_map (workers s) !! t = Some p -> live (roster s) !! worker_id p = Some e ->
  reap now (worker_id p) e abnormal (with_workers {| worker_tasks := worker_tasks (workers s) ∖ {[t]};
    worker_map := delete t (worker_map (workers s)); owner_stopping := owner_stopping (workers s) |} s) = Continue s' ->
  run_ok c s' /\ (forall i, steady (Static i) s s') /\ restart_state s' = restart_state s /\ id_counter (shared s') = id_counter (shared s).
Proof using.
  intros Hrun Hp He. pose proof Hrun as [Hb Hst Ha Hsig Hr Hcf Hstr Hpo]. destruct (remove_ok now t p s Hb Hp) as (Hb1 & Hsame & Hsteady).
  unfold reap. set (s1 := with_roster (remove _ _ _) _) in *. change (with_roster (remove _ _ _) _) with s1.
  set (s2 := if dynamic e then _ else s1).
  pose proof (books_count_bound s1 dynamic Hb1) as Hn1.
  assert (E2 : workers s2 = workers s1 /\ roster s2 = roster s1 /\ restart_state s2 = restart_state s /\ policy s2 = policy s /\
    id_counter (shared s2) = id_counter (shared s) /\ current_tx (shared s2) = current_tx (shared s) /\
    significant_remaining s2 = count is_significant (live (roster s)) /\ active (shared s2) = count dynamic (live (roster s1))).
  { change (live (roster s1)) with (delete (worker_id p) (live (roster s))) in *. rewrite (count_delete _ _ _ _ He) in *.
    unfold s2. destruct (dynamic e); cbn; rewrite ?Ha; split_and!; try done; [|lia]. unfold wrapping_sub, wrap. rewrite Z.mod_small; lia. }
  destruct E2 as (F1 & F2 & F3 & F4 & F5 & F6 & F7 & F8). clearbody s2.
  assert (Hb2 : forall s3, workers s3 = workers s1 -> roster s3 = roster s1 -> id_counter (shared s3) = id_counter (shared s1) ->
    current_tx (shared s3) = current_tx (shared s1) -> books s3).
  { intros s3 G1 G2 G3 G4. destruct Hb1. split; rewrite ?G1, ?G2, ?G3, ?G4; done. }
  assert (Hend : forall s3, workers s3 = workers s1 -> roster s3 = roster s1 -> shared s3 = shared s2 -> restart_state s3 = restart_state s ->
    policy s3 = policy s -> significant_remaining s3 = count is_significant (live (roster s1)) ->
    run_ok c s3 /\ (forall i, steady (Static i) s s3) /\ restart_state s3 = restart_state s /\ id_counter (shared s3) = id_counter (shared s)).
  { intros s3 G1 G2 G3 G4 G5 G6. split_and!; [split| |done|congruence].
    - apply Hb2; try done; rewrite G3; done.
    - rewrite G2. intros i x Hx. destruct (Hst _ _ Hx) as (id & c0 & Hc0 & Hk0). exists id. by eapply remove_keeps.
    - by rewrite G3, F8, G2.
    - by rewrite G2.
    - rewrite G2. by rewrite (same_running _ _ Hsame).
    - rewrite G2. by rewrite (same_config _ _ Hsame).
    - by rewrite G4.
    - by rewrite G5.
    - intros i. destruct (Hsteady i) as [H1 H2]. split; unfold runs_task; rewrite ?G1, G2; done. }
  pose proof (count_delete is_significant _ _ _ He) as Hcd. cbn beta in Hcd.
  change (delete (worker_id p) (live (roster s))) with (live (roster s1)) in Hcd.
  destruct (cfg_edge (entry_config e)); [|done]. destruct (abnormal && _); [done|]. destruct (cfg_significant (entry_config e)) eqn:Es.
  - match goal with |- (if ?b then _ else _) = _ -> _ => destruct b; [done|] end. intros [= <-]. apply Hend; try done.
    change (saturating_sub (significant_remaining s2) 1 = count is_significant (live (roster s1))). rewrite F7, Hcd. unfold saturating_sub.
    pose proof (count_pos is_significant _ _ _ He Es). lia.
  - intros [= <-]. apply Hend; try done. rewrite F7. lia.
Qed.

(** *** The end of a task *)

(** The instant at which a restart is granted. *)
Definition granted_at (l : Label) : option Z :=
  match l with Restarted now _ | RestartedGroup now => Some now | _ => None end.

(** A turn of the loop asks for a restart, which is granted, or leaves the budget alone. *)
Definition budgeted (l : Label) (r r' : RestartState) : Prop :=
  match granted_at l with
  | Some now => exists m, evaluate_restart now r = (Restart m, r')
  | None => r' = r
  end.

Lemma evaluate_mode now r m r' : evaluate_restart now r = (Restart m, r') -> m = mode (Restart.strategy r).
Proof using. unfold evaluate_restart. repeat case_match; congruence. Qed.

(** No static child has a runtime, and so a thread, of its own. *)
Definition no_threads : Prop :=
  Forall (fun e => match spec e with ChildSupervisor _ _ dedicated => dedicated = false | ChildWorker _ _ _ _ => True end) child_specs.

Lemma spawn_some_succeeds wanted starts index l s s' err : no_threads -> l ⊆ child_specs -> spawn_some wanted starts index l s <> (s', Err err).
Proof using.
  intros Hno. revert index s. induction l as [|e l IH]; intros index s Hl; [done|]. cbn [spawn_some].
  assert (Hl' : l ⊆ child_specs) by (intros x Hx; apply Hl; by right). destruct (wanted e); [|by apply IH].
  assert (He : match spec e with ChildSupervisor _ _ dedicated => dedicated = false | ChildWorker _ _ _ _ => True end).
  { apply (proj1 (Forall_forall _ _) Hno). apply Hl. left. }
  unfold start_child, add_worker. destruct (spec e) as [| ? ? []]; [by apply IH|done|by apply IH].
Qed.

Lemma group_counter e s f : 0 <= id_counter (shared s) -> id_counter (shared s) + Z.of_nat (length child_specs) < 2 ^ 64 ->
  restart_group instant_max child_specs e s = Some f ->
  match f with Break _ s' | Continue s' => 0 <= id_counter (shared s') < 2 ^ 64 end.
Proof using.
  intros H0 Hid. unfold restart_group. destruct (shutdown_workers _ _ _ _ _) as [d|]; [|done]. cbn [mbind option_bind]. rewrite respawn_some.
  match goal with |- context [spawn_some _ _ _ _ ?x] => set (s1 := x) end.
  pose proof (spawn_some_counter not_temporary (exit_starts e) 0 child_specs s1 H0 Hid) as Hc. change (id_counter (shared s1)) with (id_counter (shared s)) in Hc.
  destruct (spawn_some _ _ _ _ _) as [s2 [u|err]]; cbn in Hc; intros [= <-]; cbn; lia.
Qed.

Lemma group_breaks_config e s err s' : restart_group instant_max child_specs e s = Some (Break err s') -> ~ no_threads.
Proof using.
  unfold restart_group. destruct (shutdown_workers _ _ _ _ _) as [d|]; [|done]. cbn [mbind option_bind]. rewrite respawn_some.
  match goal with |- context [spawn_some _ _ _ _ ?x] => set (s1 := x) end.
  destruct (spawn_some _ _ _ _ _) as [s2 [u|err']] eqn:E; [done|]. intros _ Hno. by apply (spawn_some_succeeds _ _ _ _ _ _ _ Hno (reflexivity _) E).
Qed.

Lemma spawn_some_config wanted starts index l s : config (node (roster (spawn_some wanted starts index l s).1)) = config (node (roster s)).
Proof using.
  revert index s. induction l as [|e l IH]; intros index s; [done|]. cbn [spawn_some]. destruct (wanted e); [|apply IH].
  unfold start_child. destruct (add_worker _ _ _ _ _) as [[[??]?]|]; [|done]. by rewrite IH.
Qed.

Lemma group_keeps_config e s f : restart_group instant_max child_specs e s = Some f ->
  match f with Break _ s' | Continue s' => config (node (roster s')) = config (node (roster s)) end.
Proof using.
  unfold restart_group. destruct (shutdown_workers _ _ _ _ _) as [d|]; [|done]. cbn [mbind option_bind]. rewrite respawn_some.
  match goal with |- context [spawn_some _ _ _ _ ?x] => set (s1 := x) end.
  pose proof (spawn_some_config not_temporary (exit_starts e) 0 child_specs s1) as Hc.
  destruct (spawn_some _ _ _ _ _) as [s2 [u|err]]; by intros [= <-].
Qed.

Section exit.
Context (c : NodeConfig) (e : Exit) (s : Sup) (Hrun : run_ok c s) (Hin : exit_task e ∈ worker_tasks (workers s))
        (Hfresh : fresh_starts (exit_starts e) (workers s)) (Hids : ids_left child_specs (Running s)).

Lemma handle_exit_continues s' : handle_exit instant_max child_specs e s = Some (Continue s') ->
  run_ok c s' /\ (forall i, is_Some (child_specs !! i) -> account (Static i) s s') /\ budgeted (exit_label e s) (restart_state s) (restart_state s').
Proof using Hspecs Hrun Hin Hfresh Hids.
  pose proof Hrun as [Hb Hst Ha Hsig Hr Hcf Hstr Hpo]. destruct Hfresh as [Ht Hinj]. unfold ids_left in Hids. cbn [shared_of] in Hids.
  destruct (complete_ok s (exit_task e) (exit_joined e) Hb Hin) as (p & x & r & Hp & Hx & Hcomp).
  unfold handle_exit, exit_label, budgeted. rewrite Hcomp. cbn [mbind option_bind]. set (ws := {| worker_tasks := _ |}).
  change (get (worker_id p) (roster (with_workers ws s))) with (live (roster s) !! worker_id p).
  change (get (worker_id p) (roster s)) with (live (roster s) !! worker_id p). rewrite Hx. cbn [mbind option_bind].
  set (ab := negb (is_ok r)). intros Hf.
  assert (Hf' : handle_ended instant_max child_specs e (worker_id p) x ab (with_workers ws s) = Some (Continue s') /\
    match r with Err (Initialization _ _) => False | _ => True end) by by destruct r as [[]|[]].
  destruct Hf' as [Hf' Hinit].
  unfold handle_ended in Hf'. cbn [restart_state with_workers workers with_restart_state] in Hf'.
  clear Hf. match goal with |- context [granted_at ?l] => replace l with
    (if should_restart (cfg_restart (entry_config x)) ab then
       match mode (Restart.strategy (restart_state s)) with OneForOne => Restarted (restart_now e) (worker_id p) | OneForAll => RestartedGroup (restart_now e) end
     else Quiet) by by destruct r as [[]|[]] end.
  destruct (should_restart _ _); cbn [negb] in Hf'.
  2: { injection Hf' as Hf'. destruct (reap_ok c s _ p x _ _ _ Hrun Hp Hx Hf') as (H1 & H2 & H3 & _). split_and!; [done| |done]. intros i _. by right. }
  destruct (evaluate_restart (restart_now e) (restart_state s)) as [action rs] eqn:Ee.
  assert (Hrs : Restart.strategy rs = restart_strategy c) by (pose proof (evaluate_strategy (restart_now e) (restart_state s)) as Hes; rewrite Ee in Hes; cbn in Hes; congruence).
  destruct action as [m|]; [|done]. rewrite <- (evaluate_mode _ _ _ _ Ee). destruct m.
  - destruct (add_worker _ _ _ _ _) as [[[x' snt] ws']|] eqn:Ea; [|done]. injection Hf' as <-.
    destruct (restart_in_place_ok _ _ _ _ _ _ _ _ _ _ Hb Hp Hx (Ht 0%nat) Ea) as (H1 & H2 & H3 & H4 & H5).
    split_and!; [split| |by exists OneForOne]; try done.
    + by destruct H1.
    + intros i y Hy. destruct (Hst _ _ Hy) as (id & c0 & Hc0 & Hk0). destruct (H5 _ _ Hc0) as (c1 & Hc1 & Hk1). exists id, c1. split; [done|congruence].
    + etrans; [exact H3|done].
    + etrans; [exact H2|done].
    + intros i _. apply H4.
  - assert (Hd : exists ws0, restart_group instant_max child_specs e (with_restart_state rs (with_workers ws0 s)) = Some (Continue s')) by by exists ws.
    destruct Hd as [ws0 Hd].
    destruct (restart_group_ok e s ws0 rs s' Hb Hst ltac:(lia) Hinj Hd) as (H1 & H2 & H3 & H4 & H5 & H6 & H7 & H8 & H9).
    split_and!; [split| |exists OneForAll]; rewrite ?H5; try done; try congruence.
    intros i Hi. destruct (H9 (worker_tasks (workers s)) i Ht Hi) as [Hnew|[Hno Hh]]; [by left|right]. split; [|done]. intros t Hrt. by destruct (Hno t).
Qed.

Lemma handle_exit_breaks err s' : handle_exit instant_max child_specs e s = Some (Break err s') ->
  0 <= id_counter (shared s') < 2 ^ 64 /\ config (node (roster s')) = c /\
  (no_threads -> forall i, restarts_at (Static i) (node (roster s')) = restarts_at (Static i) (node (roster s))).
Proof using Hspecs Hrun Hin Hids.
  pose proof Hrun as [Hb Hst Ha Hsig Hr Hcf Hstr Hpo]. unfold ids_left in Hids. cbn [shared_of] in Hids. pose proof (books_counter _ Hb) as Hcnt.
  destruct (complete_ok s (exit_task e) (exit_joined e) Hb Hin) as (p & x & r & Hp & Hx & Hcomp).
  unfold handle_exit. rewrite Hcomp. cbn [mbind option_bind]. set (ws := {| worker_tasks := _ |}).
  change (get (worker_id p) (roster (with_workers ws s))) with (live (roster s) !! worker_id p). rewrite Hx. cbn [mbind option_bind].
  set (ab := negb (is_ok r)).
  assert (Hreap : forall b, Some (reap (stamp e) (worker_id p) x b (with_workers ws s)) = Some (Break err s') ->
    id_counter (shared s') = id_counter (shared s) /\ node (roster s') = node (remove (stamp e) (worker_id p) (roster s))).
  { intros b. unfold reap. set (s2 := if dynamic x then _ else _).
    assert (E : id_counter (shared s2) = id_counter (shared s) /\ node (roster s2) = node (remove (stamp e) (worker_id p) (roster s))) by (unfold s2; by destruct (dynamic x)).
    clearbody s2. repeat case_match; intros [= <- <-]; done. }
  assert (Hkeep : forall s0, id_counter (shared s0) = id_counter (shared s) -> node (roster s0) = node (roster s) ->
    0 <= id_counter (shared s0) < 2 ^ 64 /\ config (node (roster s0)) = c /\
    (no_threads -> forall i, restarts_at (Static i) (node (roster s0)) = restarts_at (Static i) (node (roster s)))) by (by intros s0 -> ->).
  assert (Hremove : (exists b, Some (reap (stamp e) (worker_id p) x b (with_workers ws s)) = Some (Break err s')) ->
    0 <= id_counter (shared s') < 2 ^ 64 /\ config (node (roster s')) = c /\
    (no_threads -> forall i, restarts_at (Static i) (node (roster s')) = restarts_at (Static i) (node (roster s)))).
  { intros [b Hf]. destruct (Hreap b Hf) as [-> ->]. split; [done|]. split; [exact Hcf|]. intros _ i. apply remove_restarts. }
  assert (Hrest : handle_ended instant_max child_specs e (worker_id p) x ab (with_workers ws s) = Some (Break err s') ->
    0 <= id_counter (shared s') < 2 ^ 64 /\ config (node (roster s')) = c /\
    (no_threads -> forall i, restarts_at (Static i) (node (roster s')) = restarts_at (Static i) (node (roster s)))).
  { unfold handle_ended. cbn [restart_state with_workers workers with_restart_state]. destruct (should_restart _ _); cbn [negb]; [|intros Hf; apply Hremove; by exists ab].
    destruct (evaluate_restart _ _) as [[m|] rs]; [|intros [= <- <-]; by apply Hkeep].
    destruct m; [destruct (add_worker _ _ _ _ _) as [[[??]?]|]; [done|intros [= <- <-]; by apply Hkeep]|].
    intros Hf. pose proof (group_counter _ (with_restart_state rs (with_workers ws s)) _ (proj1 Hcnt) ltac:(cbn; lia) Hf) as Hc. split; [done|].
    split; [|by intros Hno; destruct (group_breaks_config _ _ _ _ Hf Hno)]. by rewrite (group_keeps_config _ _ _ Hf). }
  destruct r as [[]|[inner source|?|?]]; [exact Hrest| |exact Hrest..]. intros [= <- <-]. by apply Hkeep.
Qed.

End exit.

(** *** A run begins and ends *)

Definition first_state (process : StartedChild) (w : HaltWatch) (sh : Shared) (n : NodeInner) : Sup :=
  {| restart_state := RestartState_new (restart_strategy (config (begin_run process n))); policy := auto_shutdown (config (begin_run process n));
     workers := WorkerState_new; roster := Roster_new (begin_run process n); significant_remaining := 0; halt_watch := w;
     shared := with_tx (Some {| open := true; pending := [] |}) sh |}.

Lemma first_state_ok c process w sh n : stopped_ok c sh n ->
  books (first_state process w sh n) /\ unrecorded (fun _ => true) 0 (node (roster (first_state process w sh n))) /\
  forall i, restarts_at (Static i) (node (roster (first_state process w sh n))) = (fun r => wrapping_add 32 r 1) <$> restarts_at (Static i) n.
Proof using.
  intros [Hq Ha Hc Hch Hr Hn]. split_and!; [split|..]; cbn; try done.
  - apply paired_empty.
  - by apply roster_ok_new.
  - intros id. rewrite lookup_empty. by intros [].
  - eexists. split; [done|]. split; cbn; [done|by apply NoDup_nil|]. intros p Hp. by apply not_elem_of_nil in Hp.
  - intros i. unfold restarts_at. cbn. rewrite lookup_fmap, map_lookup_filter. destruct (history n !! Static i) as [h|]; [|done]. cbn. by case_guard.
Qed.

Lemma begin_runs c process w starts sh n s : stopped_ok c sh n -> id_counter sh + Z.of_nat (length child_specs) < 2 ^ 64 ->
  fresh_starts starts WorkerState_new -> begin_supervise child_specs process w starts sh n = (s, Ok tt) ->
  run_ok c s /\ restart_state s = RestartState_new (restart_strategy c) /\
  forall i, is_Some (child_specs !! i) -> newly_runs (Static i) ∅ s /\ restarts_at (Static i) (node (roster s)) = bumped (restarts_at (Static i) n).
Proof using Hspecs.
  intros Hst Hid [_ Hinj]. unfold begin_supervise. rewrite spawn_static_some.
  match goal with |- context [spawn_some _ _ _ _ ?x] => change x with (first_state process w sh n) end.
  destruct (first_state_ok c process w sh n Hst) as (Hb0 & Hu0 & Hr0). set (s0 := first_state process w sh n) in *.
  destruct (spawn_some _ _ _ _ _) as [s1 [[]|err]] eqn:E; [|done]. intros [= <-].
  assert (Hsp : spawned (fun _ => true) 0 ∅ s0 s1).
  { apply (spawn_some_ok (fun _ => true) starts 0 ∅ child_specs); done. }
  destruct Hsp as [H1 H2 H3 [G1 G2 G3 G4 G5 G6] H5 H6 H7 H8 H9]. destruct Hst as [Hq Ha Hc Hch Hr Hn].
  assert (Hk : forall i, is_Some (child_specs !! i) -> starts_key (fun _ => true) 0 (Static i) = true) by (intros i [x Hx]; unfold starts_key; by rewrite Hx).
  split_and!; [split| |]; cbn; try done.
  - by destruct H1.
  - intros i x Hx. destruct (H8 _ (Hk i ltac:(by eexists))) as (t & p & c0 & _ & _ & Hc0 & Hk0 & _). by exists (worker_id p), c0.
  - rewrite H3, H5. cbn. by rewrite count_empty.
  - by rewrite G4.
  - rewrite G1. cbn. by rewrite Hn.
  - rewrite G2. cbn. by rewrite Hn.
  - rewrite G1. cbn. by rewrite Hn.
  - intros i Hi. split; [exact (H8 _ (Hk i Hi))|]. rewrite H9, (Hk i Hi), Hr0. by destruct (restarts_at (Static i) n).
Qed.

Lemma begin_fails c process w starts sh n s r : stopped_ok c sh n -> id_counter sh + Z.of_nat (length child_specs) < 2 ^ 64 ->
  begin_supervise child_specs process w starts sh n = (s, r) ->
  0 <= id_counter (shared s) < 2 ^ 64 /\ config (node (roster s)) = c /\ (no_threads -> r = Ok tt).
Proof using.
  intros [Hq Ha Hc Hch Hr Hn] Hid. unfold begin_supervise. rewrite spawn_static_some.
  match goal with |- context [spawn_some _ _ _ _ ?x] => set (s0 := x) end.
  pose proof (spawn_some_counter (fun _ => true) starts 0 child_specs s0 (proj1 Hc) Hid) as Hcnt.
  pose proof (spawn_some_config (fun _ => true) starts 0 child_specs s0) as Hcfg.
  pose proof (fun Hno s' err => spawn_some_succeeds (fun _ => true) starts 0 child_specs s0 s' err Hno (reflexivity _)) as Hok.
  destruct (spawn_some _ _ _ _ _) as [s1 [[]|err]]; intros [= <- <-]; cbn in *; (split; [lia|]); (split; [by rewrite Hcfg|]); [done|].
  intros Hno. by destruct (Hok Hno s1 err).
Qed.

Lemma teardown_same outcome now es s r s' : teardown instant_max outcome now es s = Some (r, s') ->
  id_counter (shared s') = id_counter (shared s) /\ node (roster s') = node (roster s).
Proof using.
  unfold teardown. cbn [workers with_shared halt_watch]. destruct (shutdown_workers _ _ _ _ _) as [d|]; [|done]. cbn [mbind option_bind].
  destruct outcome; by intros [= <- <-].
Qed.

(** ** Every step keeps the books *)

(** The task of a static child. *)
Definition static_task (i : nat) (st : State) : option Z :=
  match st with
  | Stopped _ _ => None
  | Running s =>
      fst <$> List.find (fun x => match children (node (roster s)) !! worker_id x.2 with
                                  | Some c => bool_decide (key c = Static i)
                                  | None => false
                                  end) (map_to_list (worker_map (workers s)))
  end.

(** Whether a step starts a static child: it runs behind the step, with a task that it did not have before. *)
Definition starts (i : nat) (st st' : State) : bool :=
  match static_task i st' with Some t => negb (bool_decide (static_task i st = Some t)) | None => false end.

Lemma static_task_runs i s t : books s -> static_task i (Running s) = Some t <-> runs_task (Static i) s t.
Proof using.
  intros Hb. unfold static_task. set (f := fun x : Z * ProcessState => _). set (l := map_to_list _).
  assert (Hf : forall x, x ∈ l -> f x = true <-> runs_task (Static i) s x.1).
  { intros [t' p'] Hx. apply elem_of_map_to_list in Hx. unfold f. cbn. split.
    - destruct (children _ !! _) as [c|] eqn:Ec; [|done]. intros Hk%bool_decide_eq_true. by exists p', c.
    - intros (p & c & Hp & Hc & Hk). simplify_eq. rewrite Hc. by apply bool_decide_eq_true. }
  split.
  - intros ([t' p'] & Hfind & ->)%fmap_Some. apply List.find_some in Hfind as [Hin%list_elem_of_In Hx]. by apply (Hf _ Hin).
  - intros Hr. pose proof Hr as (p & c & Hp & Hc & Hk). destruct (List.find f l) as [[t' p']|] eqn:Ef.
    + apply List.find_some in Ef as [Hin%list_elem_of_In Hx]. apply (Hf _ Hin) in Hx as (p2 & c2 & Hp2 & Hc2 & Hk2). cbn in *.
      f_equal. eapply (task_unique _ _ (books_paired _ Hb)); [exact Hp2|exact Hp|]. eapply (ok_keys _ (books_roster _ Hb)); [exact Hc2|exact Hc|congruence].
    + exfalso. assert (Hin : (t, p) ∈ l) by by apply elem_of_map_to_list. apply list_elem_of_In in Hin.
      pose proof (List.find_none _ _ Ef _ Hin) as Hno. by rewrite (proj2 (Hf (t, p) (proj2 (list_elem_of_In _ _) Hin))) in Hno.
Qed.

(** A static child that is started has its restarts counted, once; one that is not is left alone. *)
Definition counted_start (i : nat) (st st' : State) : Prop :=
  restarts_at (Static i) (node_of st') =
    if starts i st st' then bumped (restarts_at (Static i) (node_of st)) else restarts_at (Static i) (node_of st).

Lemma account_counted i s s' : books s -> books s' -> account (Static i) s s' -> counted_start i (Running s) (Running s').
Proof using.
  intros Hb Hb' Ha. unfold counted_start, starts. destruct Ha as [[(t & p & c & Hp & Hold & Hc & Hk & _) Hr]|[Hs Hr]]; cbn [node_of].
  - rewrite (proj2 (static_task_runs i s' t Hb')) by by exists p, c. rewrite bool_decide_false; [done|]. intros Ht. apply (static_task_runs i s t Hb) in Ht as (p' & c' & Hp' & _).
    apply Hold. rewrite <- (books_tasks _ Hb). by eapply elem_of_dom_2.
  - destruct (static_task i (Running s')) as [t|] eqn:Et; [|done]. apply (static_task_runs i s' t Hb'), Hs, (static_task_runs i s t Hb) in Et.
    by rewrite bool_decide_true.
Qed.

Lemma stopped_counted i st sh n : restarts_at (Static i) n = restarts_at (Static i) (node_of st) -> counted_start i st (Stopped sh n).
Proof using. done. Qed.

Abbreviation step := (Supervisor.step instant_max child_specs).
Abbreviation reaches := (Supervisor.reaches instant_max child_specs).

Lemma steady_counted i s s' : books s -> books s' -> steady (Static i) s s' -> counted_start i (Running s) (Running s').
Proof using. intros Hb Hb' Hs. apply account_counted; [done..|]. by right. Qed.

(** A turn of the loop. *)
Lemma running_step c s l s' : step (Running s) l (Running s') -> run_ok c s -> ids_left child_specs (Running s) ->
  run_ok c s' /\ (forall i, is_Some (child_specs !! i) -> counted_start i (Running s) (Running s')) /\ budgeted l (restart_state s) (restart_state s').
Proof using Hspecs.
  intros Hstep Hrun Hids.
  assert (Hquiet : run_ok c s' /\ (forall i, steady (Static i) s s') /\ restart_state s' = restart_state s ->
    run_ok c s' /\ (forall i, is_Some (child_specs !! i) -> counted_start i (Running s) (Running s')) /\ budgeted Quiet (restart_state s) (restart_state s')).
  { intros (A1 & A2 & A3). split_and!; [done| |done]. intros i _. apply steady_counted; [apply Hrun|apply A1|done]. }
  assert (Hn : forall n, children n = children (node (roster s)) -> history n = history (node (roster s)) -> running n = running (node (roster s)) ->
    config n = config (node (roster s)) -> let s1 := with_roster {| live := live (roster s); node := n |} s in
    run_ok c s1 /\ (forall i, steady (Static i) s s1) /\ restart_state s1 = restart_state s).
  { intros n E1 E2 E3 E4. split_and!; [by apply run_ok_node| |done]. intros i. split; unfold runs_task, restarts_at; cbn; rewrite ?E1, ?E2; done. }
  inversion Hstep; subst.
  - apply Hquiet. split_and!; [|done|done]. apply handle_spawn_running; [done|]. unfold ids_left in Hids. cbn in Hids. lia.
  - match goal with Hf : fresh_starts _ _, Ht : exit_task _ ∈ worker_tasks _, He : handle_exit _ _ _ _ = _ |- _ =>
      destruct (handle_exit_continues c e s Hrun Ht Hf Hids s' He) as (A1 & A2 & A3) end.
    split_and!; [done| |done]. intros i Hi. apply account_counted; [apply Hrun|apply A1|by apply A2].
  - match goal with Hf : fresh_starts _ _, He : take_spawns _ _ = _ |- _ => destruct (take_spawns_ok c _ s s' Hrun Hf He) as (A1 & A2 & A3 & _) end. by apply Hquiet.
  - by apply Hquiet, Hn.
  - apply Hquiet, Hn; unfold detach_scope; by case_bool_decide.
  - by apply Hquiet, Hn.
  - by apply Hquiet, Hn.
Qed.

Lemma stopping_step c st l sh n : step st l (Stopped sh n) -> sound c st -> ids_left child_specs st ->
  stopped_ok c sh n /\ (no_threads -> forall i, counted_start i st (Stopped sh n)) /\ l <> Began.
Proof using Hspecs.
  intros Hstep Hs Hids. unfold ids_left in Hids.
  assert (Hend : forall s outcome now es s1 r s2, st = Running s -> 0 <= id_counter (shared s1) < 2 ^ 64 -> config (node (roster s1)) = c ->
    (no_threads -> forall i, restarts_at (Static i) (node (roster s1)) = restarts_at (Static i) (node (roster s))) ->
    teardown instant_max outcome now es s1 = Some (r, s2) ->
    stopped_ok c (end_supervise s2).1 (end_supervise s2).2 /\ (no_threads -> forall i, counted_start i st (Stopped (end_supervise s2).1 (end_supervise s2).2))).
  { intros s outcome now es s1 r s2 -> A1 A2 A3 A4%teardown_same. destruct A4 as [A4 A5]. split; [apply end_sound; by rewrite ?A4, ?A5|].
    intros Hno i. apply stopped_counted. rewrite end_restarts, A5. by apply A3. }
  inversion Hstep; subst; cbn [sound shared_of] in *.
  - split_and!; [by apply handle_spawn_stopped; [|lia]|done|done].
  - match goal with He : begin_supervise _ _ _ _ _ _ = _ |- _ => destruct (begin_fails c _ _ _ _ _ _ _ Hs ltac:(lia) He) as (A1 & A2 & A3) end.
    split_and!; [by apply end_sound| |done]. intros Hno. by specialize (A3 Hno).
  - match goal with Ht : exit_task _ ∈ worker_tasks _, He : handle_exit _ _ _ _ = _, Hx : teardown _ _ _ _ _ = _ |- _ =>
      destruct (handle_exit_breaks c e s Hs Ht Hids _ _ He) as (A1 & A2 & A3); destruct (Hend _ _ _ _ _ _ _ eq_refl A1 A2 A3 Hx) end. by split_and!.
  - match goal with Hx : teardown _ _ _ _ ?s1 = _ |- _ => destruct (Hend _ _ _ _ s1 _ _ eq_refl (books_counter _ (run_books _ _ Hs)) (run_config _ _ Hs) (fun _ _ => eq_refl) Hx) end. by split_and!.
  - match goal with Hx : teardown _ _ _ _ ?s1 = _ |- _ => destruct (Hend _ _ _ _ s1 _ _ eq_refl (books_counter _ (run_books _ _ Hs)) (run_config _ _ Hs) (fun _ _ => eq_refl) Hx) end. by split_and!.
Qed.

Lemma beginning_step c sh n l s : step (Stopped sh n) l (Running s) -> stopped_ok c sh n -> ids_left child_specs (Stopped sh n) ->
  run_ok c s /\ (forall i, is_Some (child_specs !! i) -> counted_start i (Stopped sh n) (Running s)) /\ l = Began /\
  restart_state s = RestartState_new (restart_strategy c).
Proof using Hspecs.
  intros Hstep Hs Hids. unfold ids_left in Hids. cbn [shared_of] in Hids. inversion Hstep; subst.
  match goal with Hf : fresh_starts _ _, He : begin_supervise _ _ _ _ _ _ = _ |- _ => destruct (begin_runs c _ _ _ _ _ _ Hs ltac:(lia) Hf He) as (A1 & A2 & A3) end.
  split_and!; [done| |done..]. intros i Hi. destruct (A3 i Hi) as [(t & p & c0 & Hp & _ & Hc & Hk & _) Hr]. unfold counted_start, starts.
  rewrite (proj2 (static_task_runs i s t (run_books _ _ A1))) by by exists p, c0. cbn [static_task]. by rewrite bool_decide_false.
Qed.

Lemma reaches_sound c tr st : reaches c tr st -> sound c st.
Proof using Hspecs.
  induction 1 as [|tr st l st' Hreach IH Hids Hstep]; [by split|].
  destruct st' as [sh n|s']; [by destruct (stopping_step c _ _ _ _ Hstep IH Hids)|].
  destruct st as [sh n|s]; [by destruct (beginning_step c _ _ _ _ Hstep IH Hids)|by destruct (running_step c _ _ _ Hstep IH Hids)].
Qed.

Lemma reaches_counted c tr st l st' : reaches c tr st -> ids_left child_specs st -> step st l st' -> no_threads ->
  forall i, is_Some (child_specs !! i) -> counted_start i st st'.
Proof using Hspecs.
  intros Hreach Hids Hstep Hno i Hi. pose proof (reaches_sound _ _ _ Hreach) as Hs.
  destruct st' as [sh n|s']; [by destruct (stopping_step c _ _ _ _ Hstep Hs Hids) as (_ & H1 & _); apply H1|].
  destruct st as [sh n|s]; [destruct (beginning_step c _ _ _ _ Hstep Hs Hids) as (_ & H1 & _)|destruct (running_step c _ _ _ Hstep Hs Hids) as (_ & H1 & _)]; by apply H1.
Qed.

(** How often a history starts a static child. *)
Definition times_started (i : nat) (tr : list (State * Label * State)) : nat :=
  length (List.filter (fun x => starts i x.1.1 x.2) tr).

(** The restarts that were granted in the current run. *)
Definition granted (tr : list (State * Label * State)) : list Z :=
  foldl (fun g x => match x.1.2 with
                    | Began => []
                    | l => match granted_at l with Some now => g ++ [now] | None => g end
                    end) [] tr.

Lemma granted_snoc tr x : granted (tr ++ [x]) = match x.1.2 with Began => [] | l => granted tr ++ match granted_at l with Some now => [now] | None => [] end end.
Proof using. unfold granted. rewrite foldl_app. cbn. destruct x.1.2; cbn; by rewrite ?app_nil_r. Qed.

(** The restart state remembers what was granted. *)
Lemma reaches_remembers c tr st : reaches c tr st -> 0 <= period (restart_strategy c) -> StronglySorted Z.le (granted tr) ->
  match st with
  | Running s => forall before, Forall (fun g => g <= before) (granted tr) -> remembers (restart_state s) (granted tr) before
  | Stopped _ _ => True
  end.
Proof using Hspecs.
  intros Hreach Hper. induction Hreach as [|tr st l st' Hreach IH Hids Hstep]; [done|]. intros Hsort. destruct st' as [|s']; [done|].
  pose proof (reaches_sound _ _ _ Hreach) as Hs. destruct st as [sh n|s].
  - destruct (beginning_step c _ _ _ _ Hstep Hs Hids) as (_ & _ & -> & ->). rewrite granted_snoc. cbn. intros before _. split; cbn; try done.
    by constructor.
  - destruct (running_step c _ _ _ Hstep Hs Hids) as (_ & _ & Hbud).
    assert (Hl : l <> Began) by (inversion Hstep; subst; try done; unfold exit_label; by repeat case_match).
    assert (Hg : granted (tr ++ [(Running s, l, Running s')]) = granted tr ++ match granted_at l with Some now => [now] | None => [] end) by (rewrite granted_snoc; by destruct l).
    rewrite Hg in Hsort |- *. unfold budgeted in Hbud. destruct (granted_at l) as [now|]; [|rewrite app_nil_r in Hsort |- *; rewrite Hbud; by apply IH].
    destruct (sorted_split _ _ _ Hsort) as [Hold _]. destruct Hbud as [m Hm].
    assert (Hsort' : StronglySorted Z.le (granted tr)) by by apply StronglySorted_app_1_l in Hsort.
    pose proof (IH Hsort' now Hold) as Hrem. pose proof (run_strategy _ _ Hs) as Hstr.
    pose proof (evaluate_remembers (restart_state s) (granted tr) now now Hrem (Z.le_refl _) ltac:(by rewrite Hstr)) as He.
    rewrite Hm in He. destruct He as [Hstr' [R1 R2 R3 R4]]. intros before Hbefore. by split.
Qed.

Lemma below_max (l : list Z) : Forall (fun g => g <= foldr Z.max 0 l) l.
Proof using. induction l as [|g l IH]; [done|]. cbn. constructor; [lia|]. eapply Forall_impl; [exact IH|]. cbn. lia. Qed.

Lemma spawn_some_error wanted starts index l s s' err : spawn_some wanted starts index l s = (s', Err err) -> exists name e, err = FailedToInitialize name e.
Proof using.
  revert index s. induction l as [|x l IH]; intros index s; [done|]. cbn [spawn_some]. destruct (wanted x); [|apply IH].
  unfold start_child, add_worker. destruct (spec x) as [| ? ? []]; [apply IH| |apply IH]. destruct (thread_error _); [|apply IH]. intros [= _ <-]. by do 2 eexists.
Qed.

Lemma group_never_limits e s s' : restart_group instant_max child_specs e s <> Some (Break RestartLimitReached s').
Proof using.
  unfold restart_group. destruct (shutdown_workers _ _ _ _ _) as [d|]; [|done]. cbn [mbind option_bind]. rewrite respawn_some.
  match goal with |- context [spawn_some _ _ _ _ ?x] => set (s1 := x) end.
  destruct (spawn_some _ _ _ _ _) as [s2 [u|err]] eqn:E; [done|]. apply spawn_some_error in E as (name & g & ->). done.
Qed.

(** ** Theorems *)

(** C3: Whenever a supervisor is about to wait, its books agree.  Between runs there is no queue, no child is recorded
    and none is counted.  In a run, tasks and live children correspond one to one; the children in the map are
    exactly those whose records say that they run, and every static child has a record; the gauge is the number of
    live dynamic children, and what is left for the policy is the number of live significant ones, neither having
    wrapped; and whichever task ends next, the loop finds its worker, its child and the child's record. *)
Theorem supervisor_bookkeeping c tr st : reaches c tr st ->
  match st with
  | Stopped sh n => current_tx sh = None /\ active_children sh = 0 /\ running n = false /\ running_children n = 0%nat
  | Running s =>
      dom (worker_map (workers s)) = worker_tasks (workers s) /\ paired (worker_map (workers s)) (live (roster s)) /\
      roster_ok (roster s) /\ consistent (roster s) = true /\ every_static (node (roster s)) /\
      active_children (shared s) = Z.of_nat (length (List.filter dynamic (values (roster s)))) /\
      significant_remaining s = significant_count (roster s) /\
      forall t j, t ∈ worker_tasks (workers s) -> exists id r ws entry record,
        complete t j (workers s) = Some (id, r, ws) /\ get id (roster s) = Some entry /\
        children (node (roster s)) !! id = Some record /\ exited record = None
  end.
Proof using Hspecs.
  intros Hr%reaches_sound. destruct st as [sh n|s]; cbn [sound] in Hr.
  - destruct Hr as [Hq Ha _ Hch Hrun _]. split_and!; [done..|]. unfold running_children. by rewrite Hch.
  - pose proof Hr as [Hb Hst Ha Hsig _ _ _ _]. pose proof Hb as [Hb1 Hb2 Hb3 _ _ _ _]. split_and!; [done..|by apply roster_ok_consistent|done|exact Ha|exact Hsig|].
    intros t j Ht. destruct (complete_ok s t j Hb Ht) as (p & e & r & _ & He & Hc).
    destruct (proj1 (ok_live _ Hb3 (worker_id p)) (mk_is_Some _ _ He)) as (rec & Hrec & Hx). do 3 eexists. exists e, rec. by split_and!.
Qed.

(** C10: The restarts that observers see are exact.  However often the supervisor itself is run again, and whether a
    child is restarted on its own or with its group, the count of a static child is the number of times it was
    started, less one; before its first start there is none.  A group restart counts those that it brings back, and
    not a temporary child.  This needs every start to succeed, as it does but for children with a thread of their
    own; the count wraps as a 32-bit integer does. *)
Theorem restart_counts_are_exact c tr st i : reaches c tr st -> no_threads -> is_Some (child_specs !! i) ->
  restarts <$> history (node_of st) !! Static i = match times_started i tr with O => None | S m => Some (wrap 32 (Z.of_nat m)) end.
Proof using Hspecs.
  intros Hreach Hno Hi. induction Hreach as [|tr st l st' Hreach IH Hids Hstep]; [done|].
  pose proof (reaches_counted _ _ _ _ _ Hreach Hids Hstep Hno i Hi) as Hc. unfold counted_start, restarts_at in Hc. rewrite Hc, IH.
  unfold times_started. rewrite List.filter_app, length_app. cbn. destruct (starts i st st'); cbn; [|by rewrite Nat.add_0_r].
  rewrite Nat.add_1_r. destruct (length _) as [|m]; cbn; [done|]. unfold bumped, wrapping_add, wrap. rewrite Zplus_mod_idemp_l. do 2 f_equal. lia.
Qed.

(** C7: Restarts stay within the budget.  If the clock does not run backwards, then in a run of a supervisor any
    restart comes at least a period behind the one [intensity] places before it; and a child that is to be
    restarted makes the supervisor give up exactly when [intensity] restarts were granted less than a period ago.
    Children that end for good, and runs before this one, do not count. *)
Theorem restart_budget c tr s : reaches c tr (Running s) -> 0 <= period (restart_strategy c) -> StronglySorted Z.le (granted tr) ->
  (forall j a b, granted tr !! j = Some a -> granted tr !! (j + intensity (restart_strategy c))%nat = Some b -> period (restart_strategy c) <= b - a) /\
  forall e f now, handle_exit instant_max child_specs e s = Some f -> exit_task e ∈ worker_tasks (workers s) ->
    granted_at (exit_label e s) = Some now -> Forall (fun g => g <= now) (granted tr) ->
    (exists s', f = Break RestartLimitReached s') <-> (intensity (restart_strategy c) <= recent (period (restart_strategy c)) now (granted tr))%nat.
Proof using Hspecs.
  intros Hreach Hper Hsort. pose proof (reaches_remembers _ _ _ Hreach Hper Hsort) as Hrem. cbn beta iota in Hrem.
  pose proof (reaches_sound _ _ _ Hreach) as Hs. pose proof (run_strategy _ _ Hs) as Hstr. split.
  - set (m := foldr Z.max 0 (granted tr)). assert (Hm : Forall (fun g => g <= m) (granted tr)).
    by apply below_max.
    destruct (Hrem m Hm) as [_ _ _ Hsp]. by rewrite Hstr in Hsp.
  - intros e f now Hf Hin Hl Hpast. pose proof (evaluate_window (restart_state s) (granted tr) now now (Hrem now Hpast) (Z.le_refl _) ltac:(by rewrite Hstr)) as Hw.
    rewrite Hstr in Hw.
    destruct (complete_ok s (exit_task e) (exit_joined e) (run_books _ _ Hs) Hin) as (p & x & r & Hp & Hx & Hcomp).
    unfold handle_exit in Hf. unfold exit_label in Hl. rewrite Hcomp in Hf, Hl. cbn [mbind option_bind] in Hf.
    set (ws := {| worker_tasks := _ |}) in Hf.
    change (get (worker_id p) (roster (with_workers ws s))) with (live (roster s) !! worker_id p) in Hf.
    change (get (worker_id p) (roster s)) with (live (roster s) !! worker_id p) in Hl. rewrite Hx in Hf, Hl. cbn [mbind option_bind] in Hf.
    assert (Hf' : handle_ended instant_max child_specs e (worker_id p) x (negb (is_ok r)) (with_workers ws s) = Some f) by by destruct r as [[]|[]].
    assert (Hl' : should_restart (cfg_restart (entry_config x)) (negb (is_ok r)) = true /\ now = restart_now e).
    { destruct r as [[]|[]]; try done; destruct (should_restart _ _); try done; destruct (mode _); by injection Hl as <-. }
    destruct Hl' as [Hsr ->]. unfold handle_ended in Hf'. rewrite Hsr in Hf'. cbn [negb restart_state with_workers workers with_restart_state] in Hf'.
    destruct (evaluate_restart (restart_now e) (restart_state s)) as [action rs]. cbn [fst] in Hw. subst action.
    destruct (Nat.leb_spec (intensity (restart_strategy c)) (recent (period (restart_strategy c)) (restart_now e) (granted tr))) as [Hle|Hlt].
    + injection Hf' as <-. split; [done|]. intros _. by eexists.
    + split; [|lia]. intros [s' ->]. exfalso. destruct (mode (restart_strategy c)).
      * unfold add_worker in Hf'. destruct (spec x) as [| ? ? []]; [done| |done]. by destruct (thread_error _).
      * by apply group_never_limits in Hf'.
Qed.

End books.

(** ** Examples *)

Module SupervisorSamples.

Definition proc (n : Z) : StartedChild := {| process_id := n; process_name := "p"; started_at := n |}.
Definition starts_from (n : Z) (i : nat) : Start := {| task := n + Z.of_nat i; started := proc n; thread_error := None |}.

Lemma starts_fresh n ws : (forall t, t ∈ worker_tasks ws -> t < n) -> fresh_starts (starts_from n) ws.
Proof. intros Ht. split; cbn; [intros i Hi%Ht; lia|intros; lia]. Qed.

Definition worker (name : string) (can_restart : bool) : SupervisedChild := ChildWorker name (Graceful 1000) true can_restart.

(** Two children that are declared, of which the second cannot be started again. *)
Definition specs : list ChildEntry :=
  declare_child (worker "once" false) ChildOptions_default (declare_child (worker "main" true) ChildOptions_default []).

Definition conf : NodeConfig := {| restart_strategy := one_for_all; auto_shutdown := Never; dedicated_threads := None |}.
Definition n0 : NodeInner := update_config (fun _ => conf) NodeInner_new.

Definition s1 : Sup := (begin_supervise specs (proc 0) HaltWatch_new (starts_from 1) Shared_new n0).1.

(** A child is spawned, and taken on. *)
Definition s2 : Sup := with_shared (handle_spawn (worker "conn" true) ChildOptions_default (shared s1)).2 s1.
Definition s3 : Sup := default s2 (take_spawns (starts_from 3) s2).

(** The first child fails; the others are shut down, and it is started again. *)
Definition failure : Exit :=
  {| exit_task := 1; exit_joined := TaskPanicked; restart_now := 10; drain_now := 10; stamp := 11; exit_starts := starts_from 4;
     exit_drain := [TaskJoined 3 (Finished (Ok tt)); TaskJoined 2 (Finished (Ok tt))] |}.
Definition s4 : Sup := match handle_exit 1000000 specs failure s3 with Some (Continue s) => s | _ => s3 end.

Definition trace : list (State * Label * State) :=
  [(Stopped Shared_new n0, Began, Running s1); (Running s1, Quiet, Running s2); (Running s2, Quiet, Running s3);
   (Running s3, RestartedGroup 10, Running s4)].

Lemma specs_static : Forall (fun e => dynamic e = false) specs.
Proof. by repeat constructor. Qed.

Lemma trace_reaches : reaches 1000000 specs conf trace (Running s4).
Proof.
  unfold trace. apply (reaches_step _ _ _ [_; _; _]); [apply (reaches_step _ _ _ [_; _]); [apply (reaches_step _ _ _ [_]); [apply (reaches_step _ _ _ [])|..]|..]|..].
  - constructor.
  - vm_compute. reflexivity.
  - apply (step_begin _ _ (proc 0) HaltWatch_new (starts_from 1)); [apply starts_fresh; cbn; set_solver|]. vm_compute. reflexivity.
  - vm_compute. reflexivity.
  - apply step_handle_running.
  - vm_compute. reflexivity.
  - apply (step_spawns _ _ (starts_from 3)); [|vm_compute; reflexivity]. apply starts_fresh. intros t.
    change (worker_tasks (workers s2)) with (worker_tasks (workers s1)).
    replace (worker_tasks (workers s1)) with ({[1; 2]} : gset Z) by (vm_compute; reflexivity). set_solver by lia.
  - vm_compute. reflexivity.
  - apply (step_exit _ _ failure).
    + replace (worker_tasks (workers s3)) with ({[1; 2; 3]} : gset Z) by (vm_compute; reflexivity). set_solver.
    + apply starts_fresh. intros t. replace (worker_tasks (workers s3)) with ({[1; 2; 3]} : gset Z) by (vm_compute; reflexivity). set_solver by lia.
    + vm_compute. reflexivity.
Qed.

Lemma supervisor_bookkeeping_witness :
  consistent (roster s4) = true /\ active_children (shared s3) = 1 /\ active_children (shared s4) = 0 /\
  exists id r ws entry record, complete 4 TaskPanicked (workers s4) = Some (id, r, ws) /\ get id (roster s4) = Some entry /\
    children (node (roster s4)) !! id = Some record /\ exited record = None.
Proof.
  destruct (supervisor_bookkeeping 1000000 specs specs_static conf trace (Running s4) trace_reaches) as (_ & _ & _ & Hc & _ & _ & _ & Hx).
  split; [exact Hc|]. split; [vm_compute; reflexivity|]. split; [vm_compute; reflexivity|]. apply Hx.
  replace (worker_tasks (workers s4)) with ({[4]} : gset Z) by (vm_compute; reflexivity). set_solver.
Defined.

Lemma restart_counts_are_exact_witness :
  times_started 0 trace = 2%nat /\ restarts <$> history (node (roster s4)) !! Static 0 = Some 1 /\
  times_started 1 trace = 1%nat /\ restarts <$> history (node (roster s4)) !! Static 1 = Some 0.
Proof.
  pose proof (fun i => restart_counts_are_exact 1000000 specs specs_static conf trace (Running s4) i trace_reaches ltac:(by repeat constructor)) as Ht.
  split; [vm_compute; reflexivity|]. split; [etrans; [exact (Ht 0%nat ltac:(by eexists))|vm_compute; reflexivity]|].
  split; [vm_compute; reflexivity|]. etrans; [exact (Ht 1%nat ltac:(by eexists))|vm_compute; reflexivity].
Defined.

(** It fails again at once, which is too often. *)
Definition failure_again : Exit :=
  {| exit_task := 4; exit_joined := TaskPanicked; restart_now := 20; drain_now := 20; stamp := 21; exit_starts := starts_from 5; exit_drain := [] |}.

Lemma restart_budget_witness : granted trace = [10] /\ exists s', handle_exit 1000000 specs failure_again s4 = Some (Break RestartLimitReached s').
Proof.
  split; [vm_compute; reflexivity|].
  destruct (restart_budget 1000000 specs specs_static conf trace s4 trace_reaches) as [_ Hb]; [vm_compute; discriminate|vm_compute; repeat constructor|].
  destruct (handle_exit 1000000 specs failure_again s4) as [f|] eqn:Ef; [|exfalso; revert Ef; vm_compute; discriminate].
  assert (Hlim : exists s', f = Break RestartLimitReached s').
  { apply (Hb failure_again f 20 Ef); [|vm_compute; reflexivity|vm_compute; repeat constructor; discriminate|vm_compute; repeat constructor].
    replace (worker_tasks (workers s4)) with ({[4]} : gset Z) by (vm_compute; reflexivity). set_solver. }
  destruct Hlim as [s' ->]. by exists s'.
Defined.

(** When the thread of a second child cannot be started, the run ends without the shutdown that every other end goes
    through: the first child's task is still there, and its stop was never asked for. *)
Definition threaded : list ChildEntry :=
  declare_child (ChildSupervisor "own" 1 true) ChildOptions_default (declare_child (worker "main" true) ChildOptions_default []).
Definition no_thread (i : nat) : Start := {| task := 1 + Z.of_nat i; started := proc 1; thread_error := Some (OtherError "no thread") |}.

Example failed_start_leaves_siblings :
  let '(s, r) := begin_supervise threaded (proc 0) HaltWatch_new no_thread Shared_new n0 in
  r = Err (FailedToInitialize "own" (OtherError "no thread")) /\ worker_tasks (workers s) = {[1]} /\ coordinator <$> worker_map (workers s) !! 1 = Some true /\
  step 1000000 threaded (Stopped Shared_new n0) (Ended r) (Stopped (end_supervise s).1 (end_supervise s).2).
Proof.
  destruct (begin_supervise _ _ _ _ _ _) as [s r] eqn:E. pose proof E as E'. vm_compute in E. injection E as <- <-.
  split; [reflexivity|]. split; [reflexivity|]. split; [reflexivity|]. eapply step_begin_fails; [|exact E']. split; [intros i; apply not_elem_of_empty|cbn; lia].
Qed.

(** And the next run that fails so counts a restart of a child that it does not start. *)
Definition threaded_first : list ChildEntry :=
  declare_child (worker "main" true) ChildOptions_default (declare_child (ChildSupervisor "own" 1 true) ChildOptions_default []).

Example failed_start_counts_restarts :
  let '(s, r) := begin_supervise threaded_first (proc 0) HaltWatch_new (starts_from 1) Shared_new n0 in
  let '(s', r') := begin_supervise threaded_first (proc 0) HaltWatch_new no_thread (end_supervise s).1 (end_supervise s).2 in
  r = Ok tt /\ restarts <$> history (node (roster s)) !! Static 1 = Some 0 /\
  r' = Err (FailedToInitialize "own" (OtherError "no thread")) /\ worker_tasks (workers s') = ∅ /\
  restarts <$> history (node (roster s')) !! Static 1 = Some 1.
Proof. vm_compute. split_and!; reflexivity. Qed.

End SupervisorSamples.

